(* ===== verification/_CoqProject ===== *)
-Q . S2P
Prelude.v
Text.v
Utf8.v
Collections.v
Json.v
Usage.v
Evidence.v
DeltaAccumulator.v
TextNormaliser.v
Envelope.v
Normalizer.v
NormalizerTheory.v
Derived.v
ProtocolIngress.v
ProtocolTheory.v
ProtocolCalls.v
StreamParser.v
StreamParserTheory.v
ByteIndex.v
InputMetrics.v
MetricsTheory.v
Editor.v
EditorTheory.v
EditorSessions.v
ToolPreview.v
History.v
HistoryTheory.v
PeerChannel.v
PeerChannelTheory.v
MultiplexPrefix.v
FileSystem.v
FileSystemTheory.v
Workspace.v
WorkspaceTheory.v
TaskDocument.v
TaskDocumentTheory.v
TaskSnapshot.v
TaskSnapshotTheory.v
ToolRules.v
ConversationState.v
ConversationTurn.v
ConversationTheory.v
ConversationSafety.v
ConversationReplies.v
Validation.v
RuntimeContext.v
EditLoop.v
Memory.v
MemoryTheory.v
Transcript.v
TerminalState.v
Terminal.v
TerminalUpdates.v
TerminalCommands.v
TerminalInput.v
TerminalTheory.v
TerminalRuns.v
TaskStore.v
TaskStoreTheory.v
Agents.v
AgentsTheory.v
ModelRequest.v
ModelRequestTheory.v
SignalStream.v
SignalStreamTheory.v
Policy.v
PolicyTheory.v
BatchMode.v
BatchTheory.v
RequestContext.v
RequestTheory.v
Configuration.v
ConfigurationTheory.v
LocalApi.v
LocalApiTheory.v
SessionApi.v
Extensions.v
Search.v
SearchTheory.v
ToolRouting.v
