(* ===== verification/Prelude.v ===== *)
(** VexCoder, verified in parts: a library of Rocq definitions that are translated from the Rust
    sources under src/, and the theorems that hold of them.

    * The program

    VexCoder is a coding assistant.  A user (in a terminal, in a batch run, or over a local HTTP
    API) gives it a task.  The runtime loop hands the input to a mode; the mode starts a pulse; the
    manager of the conversation sends the history to a model server, reads the stream of events
    that comes back, runs the tools that the model calls (with an approval where the rules ask for
    one), writes calls and results into the history, and asks again until the model is done.
    Every step is told twice: as updates to the frontend, and as numbered envelopes of a protocol
    that others may read, from which the records of the turn can be derived back.  Around this
    stand the files of the workspace, the task's document with what of it is saved, the notes that
    last, the agents that work on parts of a task, the configuration, and the policies that limit
    all of them.

<<
  configuration, policies ----------------------.
        |                                        v
  frontend --> runtime loop --> mode --> runtime context --> conversation --> model client
  (terminal,   (BatchMode)      |        (RuntimeContext,     (Conversation..) (ModelRequest)
   batch,                       |         EditLoop)              |                  |
   local API)                   v                                v                  v
                         task document,                     tools: files,      stream parser,
                         task files, notes                  hooks, commands    ingress, normalizer
>>

    * Conventions

    Rust's integers are [N] or [Z] with the saturating and wrapping operations of this file at
    their width; a [char] is its scalar value and a [str] a list of them, with byte offsets where
    the code shows them (Utf8, ByteIndex).  A [HashMap] is a [gmap], a [BTreeMap] a sorted list,
    an [IndexMap] a list with unique keys.  A method that takes [&mut self] is a function from a
    state to a result and a state ([ST]); one that can panic has an [outcome] ([PST]); errors are
    options, sums or types of errors.  What is not code of the repository is a parameter: an
    operation of a class, with its documented laws as a second class where a theorem needs them,
    and a concrete instance in every witness.  The classes are SerdeJson, PrettyJson, BlockDecoder
    and FrameDecoders (serde_json), PolicyToml, ConfigToml, CommandToml and Toml (toml), Clock, Chrono and
    TimeText (chrono and the clock), HashOrder (the order of a hash map), ContentHash and Xxh3
    (hashes), LineDiff (similar), CharWidth, Segmentation and Alphanumeric (tables of Unicode),
    TextWrap and AnsiText (textwrap, ansi-to-tui), TokenCount (tiktoken), UrlParser, HeaderNames,
    HeaderValues and RetryBody (url, http, regex), GitContext and EditWorld (git and the commands
    of the edit loop), Git, IgnoreRules, TreeSitter, Bm25, Globs and TextSearch (git, ignore,
    tree-sitter, bm25, globset and the searchers), Machine (running a command), Surroundings (the model server, the user, the
    tools and hooks around a conversation; a stream and a tool, which other files of the program are
    behind, may also panic), PanicState (what a panic leaves of a message: the unwinding of Rust), Tls (rustls and the resolver); and the records
    CommandEnv, StoreEnv and Place, which hold what an operation reads of disk, variables and
    clock.  Interfaces between components of the program are classes too: RuntimeMode and
    FrontendAdapter (the traits of the runtime), PulseContext and TaskRuntime (what the batch mode
    and the local API use of the runtime context), PeerCodec.

    * The files

    Common ground.
    - Prelude: integers, the state and panic monads with their inversion tactics, generic lemmas.
    - Text, Utf8, ByteIndex: the standard library's texts.  Collections: ordered
      collections.  Json: [serde_json::Value].  FileSystem, FileSystemTheory: [std::path] and
      [std::fs] over a tree with symbolic links, and how a path is walked.

    From the bytes of a stream to envelopes and records.
    - StreamParser (api/stream.rs, sse_framing.rs, ingress_adapter.rs), StreamParserTheory: frames of server-sent events; cuts do not matter, frames are read back, a
      stream is of one protocol, the buffer is bounded.
    - ProtocolIngress (json_handoff/protocol_ingress.rs), ProtocolTheory, ProtocolCalls: payloads
      of providers and of chat-compatible servers turned into envelopes; blocks balanced, calls
      put together from fragments, tokens counted.
    - TextNormaliser (api/stream/text_normaliser.rs): tool calls written as text, found in any
      fragmentation and taken out.
    - DeltaAccumulator (runtime/delta_accumulator.rs): streamed arguments under a memory limit.
    - Envelope, Normalizer (runtime/json_handoff.rs, tool_calls.rs), NormalizerTheory: numbering,
      identity of calls, the end of a pulse.  Evidence (pulse_evidence.rs), Usage (usage.rs),
      Derived (json_handoff/derived.rs): the records of a turn, read back from its envelopes.
    - ModelRequest (api/client), ModelRequestTheory: addresses, limits, headers, tools and history
      of a request.  SignalStream (api/stream_ingress), SignalStreamTheory: a request to its last
      envelope, with the requests that are repeated.

    The conversation.
    - History (state/conversation/history.rs), HistoryTheory: pruning, compaction, shortening.
    - ToolRules (formatting.rs, validation.rs, policy.rs), ConversationState (state.rs,
      streaming.rs, core.rs, tools/mod.rs), ConversationTurn (send_message.rs).
    - ConversationTheory: every message is answered.  ConversationSafety: which calls are run and
      with whose approval.  ConversationReplies: what is written for the calls of a round.
    - ToolPreview (tool_preview.rs, edit_diff.rs): what is shown of a call.
    - Workspace (tools/operator), WorkspaceTheory: what the file tools change and where.
    - Search (tools/index.rs, tools/search.rs, the walk of tools/operator; Modules Index and Query),
      SearchTheory: the index of the code, what a search finds, and that the walk ends.
      ToolRouting (tools/routing.rs, workspace_explore.rs, operator/search.rs, git_ops.rs): a call of
      a tool from its arguments to its answer.
    - Validation (runtime/validation.rs), EditLoop (runtime/edit_loop.rs): pulses until the suite
      passes.
    - RequestContext (context_cache.rs, context_assembler, project_instructions.rs), RequestTheory:
      what is put before a request, and the cache of files.  Extensions (prompts.rs,
      custom_commands.rs, skills.rs; Modules Template, Commands and Skills): the prompts that are
      filled in, and what users add.
    - MultiplexPrefix (multiplex_prefix.rs): the prefix shared by a team and its cache.

    The runtime and its modes.
    - RuntimeContext (runtime/context.rs): what a frontend is told.
    - BatchMode (batch_mode.rs; Module Loop: runtime/loop.rs, mode.rs, frontend.rs), BatchTheory.
    - LocalApi (local_api.rs, server/handlers/mod.rs, server/util.rs, server/http.rs; Modules Task,
      Serve and Surface), LocalApiTheory; SessionApi (server/handlers): the handlers over the facade
      of agents and tasks, and what a watcher is told.
    - TerminalState, Terminal, TerminalUpdates, TerminalCommands, TerminalInput (app.rs, app/),
      TerminalTheory, TerminalRuns: the terminal interface, its approvals, its commands.
    - Editor (ui/editor/mod.rs), EditorTheory, EditorSessions: the line editor.  InputMetrics
      (ui/input_metrics.rs), MetricsTheory: its rows.  Transcript (transcript_projection.rs,
      ui/render/transcript.rs): the rows of a task.

    Tasks, notes and agents.
    - TaskDocument (runtime/task_document), TaskDocumentTheory; TaskSnapshot (task_state_bridge.rs,
      working_set.rs), TaskSnapshotTheory; TaskStore (task_state/persist.rs), TaskStoreTheory.
    - Memory (auto_memory.rs, memory_candidates.rs, session_notes.rs), MemoryTheory.
    - PeerChannel (task_state/peer_channel.rs), PeerChannelTheory: messages between agents.
    - Agents (agents.rs, subtask_orchestrator, task_facade), AgentsTheory: delegation, capacity,
      joins.

    Limits.
    - Policy (approval.rs, disk_policy.rs, sandbox.rs; Modules Approval, DiskPolicy and Sandbox),
      PolicyTheory.
    - Configuration (config.rs, config/load; Modules Settings, Servers and Load),
      ConfigurationTheory.

    * What the theorems show

    - Answers: a message is answered whatever the model, the tools and the user answer, in a bounded
      number of rounds, and panics only at a stream or a tool that panics; a batch run ends once, with
      the right status, and a pulse of the local API first ends as its updates say; every approval
      gets one answer; a call of a tool that the routing runs ends; the watch of a task tells its
      changes in order.
    - Safety: no call that needs an approval is run without one, and a yes has a reason (a key, a
      grant, a request that names task, capability and scope); the calls
      that the routing runs leave the tree outside the workspace alone, but for those of git, and a
      search shows nothing of it (commands of a shell and the tools of servers are run elsewhere and
      are not in this sentence); a required sandbox is not lost; a file of the repository
      cannot set what only the user may; unreviewed notes are never given to a model; a request
      carries its credentials only where they belong; the API is served only as configured.
    - Fidelity: where a stream of at most a mebibyte is cut does not show, nor how its updates are
      spread over rounds, nor whether a file comes from the cache; the history is told to the model
      block by block; calls written as text, documents and the saved parts of a task are read back
      as they were written, and what is not saved is named; the index follows the changes of the
      files.
    - Refinement: the editor is a zipper of texts, the channel of a task a log that is read in
      batches, the edit loop the bounded repetition it is described as, which succeeds only on a
      validation of what its last pulse left.
    - Types, bounds and errors: documents, editors and configurations stay well-formed; buffers,
      caches, capacities and budgets keep their limits; where the code can panic is said exactly.

    Where the code does not do what it, its documentation or its tests say, an Example or a
    theorem beside the component shows the case.

    * Fuel

    A loop that is not structural has fuel, and what is enough is proved, or plain from the fuel
    given: [turn_loop] has [4 * max_tool_rounds + 12] rounds and never uses them up
    (ConversationTheory, [message_answered]); the loop of the text normaliser and [process_frames]
    have one more than the length of their buffer, which each round shortens ([process_frames_shrinks]);
    the walks to a boundary ([boundary_back], [mention_start], [mention_end]) the length of the
    text ([boundary_back_spec], [mention_start_spec], [mention_end_spec]); [evict] the number of
    entries ([evict_limits]); [repo_root_from] and [nearest_from] the length of the path, which a
    step to the parent shortens; [render_header], [strip_suffixes] and [render_template] the length
    of the text; [next_free] the number of identifiers seen.  The walk of a path follows as many
    links as the system does and then fails, as it does.  The walk over the files of a workspace
    takes any bound: [walk_ends] and [routing_total] give one for every tree and every call.

    * Not modelled

    - Widgets, colours, raw terminal events and the clipboard (tui_frontend.rs, ui/render, app/inline.rs): calls
      of ratatui and crossterm.
    - Sockets, streams of events to a client, OAuth, tokens, proxies, DNS and compression (net/,
      server/socket.rs, server/sse.rs), and the servers of tools (mcp.rs, but for their check):
      protocols of third-party crates.
    - The index of meanings (semantic.rs, embed.rs): requests of embeddings to a server, and
      similarities of vectors.
    - The parsers of the output of git and the texts that look like secrets: regular expressions of
      the crate regex-lite.
    - Start-up files, the doctor, reports and the command line: texts and calls of the operating
      system.
    - Threads: a lock is held for the whole of the step it protects, and what two tasks do is an
      order of their steps; what the program joins (the commands of a validation, the calls of a
      round that only reads) is done one after the other; a handler of the agents that reads and
      writes back without a lock is one step, and what its halves lose is shown apart; failures of the disk other than those the tree gives. *)
From stdpp Require Import base list gmap strings numbers.
From Stdlib Require Import NArith ZArith Lia.

Declare Scope vex_scope.
Delimit Scope vex_scope with vex.

(** ** Machine-width integers

    [u8], [u16], [u32], [u64] and [usize] values are [N]; the width shows in the
    operations.  [usize] is 64 bits wide. *)
Definition u8_max : N := 255.
Definition u16_max : N := 65535.
Definition u32_max : N := 4294967295.
Definition u64_max : N := 18446744073709551615.
Definition usize_max : N := u64_max.

(** [saturating_add] of an unsigned type with the given maximum. *)
Definition sat_add (max a b : N) : N := N.min max (a + b).
(** [saturating_sub] is truncated subtraction, which is what [N.sub] is. *)
Definition sat_sub (a b : N) : N := (a - b)%N.
(** [fetch_add] and the other wrapping operations. *)
Definition wrap_add (max a b : N) : N := ((a + b) mod (max + 1))%N.
(** [clamp(lo, hi)]. *)
Definition clamp (lo hi x : N) : N := N.max lo (N.min hi x).

Lemma sat_add_le max a b : (sat_add max a b <= max)%N.
Proof. unfold sat_add. lia. Qed.

Lemma sat_add_small max a b : (a + b <= max)%N -> sat_add max a b = (a + b)%N.
Proof. unfold sat_add. lia. Qed.

Lemma sat_add_mono max a b : (a <= max)%N -> (a <= sat_add max a b)%N.
Proof. unfold sat_add. lia. Qed.

Lemma wrap_add_small max a b : (a + b <= max)%N -> wrap_add max a b = (a + b)%N.
Proof. unfold wrap_add. intros H. apply N.mod_small. lia. Qed.

Lemma clamp_bounds lo hi x : (lo <= hi)%N -> (lo <= clamp lo hi x <= hi)%N.
Proof. unfold clamp. lia. Qed.

(** ** A state monad

    The methods of the stateful components take [&mut self] and return a value: they are
    functions [S -> A * S], sequenced with stdpp's monadic notation. *)
Definition ST (S A : Type) : Type := S -> A * S.

#[global] Instance st_ret S : MRet (ST S) := fun A a s => (a, s).
#[global] Instance st_bind S : MBind (ST S) :=
  fun A B (f : A -> ST S B) (m : ST S A) s => let '(a, s') := m s in f a s'.

(** An action given by its effect. *)
Definition st_state {S A} (f : S -> A * S) : ST S A := f.
Definition st_get {S} : ST S S := fun s => (s, s).
Definition st_gets {S A} (f : S -> A) : ST S A := fun s => (f s, s).
Definition st_modify {S} (f : S -> S) : ST S unit := fun s => (tt, f s).

(** Running a list of actions that each emit a list, in order ([envelopes.extend(...)] in a
    [for] loop). *)
Fixpoint st_concat {S A B} (f : A -> ST S (list B)) (l : list A) : ST S (list B) :=
  match l with
  | [] => mret []
  | x :: r => es ← f x; es' ← st_concat f r; mret (es ++ es')
  end.

Lemma st_bind_unfold {S A B} (m : ST S A) (f : A -> ST S B) s :
  (m ≫= f) s = f (m s).1 (m s).2.
Proof. unfold mbind, st_bind. by destruct (m s). Qed.

Lemma st_bind_inv {S A B} (m : ST S A) (f : A -> ST S B) s b s'' :
  (m ≫= f) s = (b, s'') -> exists a s', m s = (a, s') /\ f a s' = (b, s'').
Proof. rewrite st_bind_unfold. destruct (m s) as [a s']. eauto. Qed.

Lemma st_ret_inv {S A} (a b : A) (s s' : S) : (mret a : ST S A) s = (b, s') -> a = b /\ s = s'.
Proof. by intros [= <- <-]. Qed.

Lemma st_modify_inv {S} (f : S -> S) s u s' : st_modify f s = (u, s') -> s' = f s.
Proof. by intros [= _ <-]. Qed.

Lemma st_gets_inv {S A} (f : S -> A) s a s' : st_gets f s = (a, s') -> a = f s /\ s' = s.
Proof. by intros [= <- <-]. Qed.

(** Runs an equation [action s = (result, s')] backwards through binds and primitives. *)
Ltac st_inv :=
  repeat match goal with
  | H : (_ ≫= _) _ = (_, _) |- _ =>
      apply st_bind_inv in H; destruct H as (? & ? & ? & ?)
  | H : mret _ _ = (_, _) |- _ => apply st_ret_inv in H; destruct H; subst
  | H : st_modify _ _ = (_, _) |- _ => apply st_modify_inv in H; subst
  | H : st_gets _ _ = (_, _) |- _ => apply st_gets_inv in H; destruct H; subst
  end.

(** ** Panics

    An operation that can panic (an out-of-range slice) has an [outcome]; a panic unwinds
    out of every caller, so the stateful operations that can meet one are
    [S -> outcome (A * S)]. *)
Inductive outcome (A : Type) : Type :=
| Returns (a : A)
| Panics.
Arguments Returns {_} _.
Arguments Panics {_}.

#[global] Instance outcome_ret : MRet outcome := fun A a => Returns a.
#[global] Instance outcome_bind : MBind outcome :=
  fun A B f m => match m with Returns a => f a | Panics => Panics end.
#[global] Instance outcome_fmap : FMap outcome :=
  fun A B f m => match m with Returns a => Returns (f a) | Panics => Panics end.

Definition returns {A} (o : outcome A) : bool :=
  match o with Returns _ => true | Panics => false end.

Definition PST (S A : Type) : Type := S -> outcome (A * S).

#[global] Instance pst_ret S : MRet (PST S) := fun A a s => Returns (a, s).
#[global] Instance pst_bind S : MBind (PST S) :=
  fun A B (f : A -> PST S B) (m : PST S A) s =>
    match m s with Returns (a, s') => f a s' | Panics => Panics end.

(** A panic-free operation among those that can panic. *)
Definition lift {S A} (m : ST S A) : PST S A := fun s => Returns (m s).

Fixpoint pst_concat {S A B} (f : A -> PST S (list B)) (l : list A) : PST S (list B) :=
  match l with
  | [] => mret []
  | x :: r => es ← f x; es' ← pst_concat f r; mret (es ++ es')
  end.

Lemma pst_bind_inv {S A B} (m : PST S A) (f : A -> PST S B) s b s'' :
  (m ≫= f) s = Returns (b, s'') ->
  exists a s', m s = Returns (a, s') /\ f a s' = Returns (b, s'').
Proof. unfold mbind, pst_bind. destruct (m s) as [[a s']|]; [eauto | done]. Qed.

Lemma pst_bind_returns {S A B} (m : PST S A) (f : A -> PST S B) s a s' :
  m s = Returns (a, s') -> (m ≫= f) s = f a s'.
Proof. unfold mbind, pst_bind. by intros ->. Qed.

Lemma pst_bind_ext {S A B} (m m' : PST S A) (f f' : A -> PST S B) s :
  m s = m' s -> (forall a s', f a s' = f' a s') -> (m ≫= f) s = (m' ≫= f') s.
Proof. unfold mbind, pst_bind. intros -> Hf. by destruct (m' s) as [[a s']|]. Qed.

Lemma pst_ret_inv {S A} (a b : A) (s s' : S) :
  (mret a : PST S A) s = Returns (b, s') -> a = b /\ s = s'.
Proof. by intros [= <- <-]. Qed.

Lemma lift_inv {S A} (m : ST S A) s a s' : lift m s = Returns (a, s') -> m s = (a, s').
Proof. unfold lift. by intros [= ->]. Qed.

(** As [st_inv], for an equation [action s = Returns (result, s')]. *)
Ltac pst_inv :=
  repeat match goal with
  | H : (_ ≫= _) _ = Returns (_, _) |- _ =>
      apply pst_bind_inv in H; destruct H as (? & ? & ? & ?)
  | H : mret _ _ = Returns (_, _) |- _ => apply pst_ret_inv in H; destruct H; subst
  | H : lift _ _ = Returns (_, _) |- _ => apply lift_inv in H
  end.

(** ** Lists, options and booleans *)
Fixpoint drop_while {A} (p : A -> bool) (l : list A) : list A :=
  match l with
  | [] => []
  | x :: r => if p x then drop_while p r else l
  end.

Fixpoint find_index {A} (p : A -> bool) (l : list A) : option nat :=
  match l with
  | [] => None
  | x :: r => if p x then Some 0%nat else S <$> find_index p r
  end.

Fixpoint find_map {A B} (f : A -> option B) (l : list A) : option B :=
  match l with
  | [] => None
  | x :: r => match f x with Some y => Some y | None => find_map f r end
  end.

Definition opt_is_some {A} (o : option A) : bool :=
  match o with Some _ => true | None => false end.

Definition unwrap_or {A} (o : option A) (d : A) : A :=
  match o with Some x => x | None => d end.

Definition sum_N (l : list N) : N := foldr N.add 0%N l.

Lemma sum_N_app l k : sum_N (l ++ k) = (sum_N l + sum_N k)%N.
Proof. induction l; simpl in *; lia. Qed.

Lemma sum_N_perm l k : l ≡ₚ k -> sum_N l = sum_N k.
Proof. unfold sum_N. induction 1; cbn in *; lia. Qed.

Lemma drop_while_idem {A} (p : A -> bool) l :
  drop_while p (drop_while p l) = drop_while p l.
Proof. induction l as [|x r IH]; simpl; [done|]. destruct (p x) eqn:E; simpl; by rewrite ?E. Qed.

Lemma drop_while_app_all {A} (p : A -> bool) t l :
  forallb p t = true -> drop_while p (t ++ l) = drop_while p l.
Proof.
  induction t as [|x r IH]; simpl; [done|].
  intros [Hx Hr]%andb_prop. rewrite Hx. auto.
Qed.

Lemma drop_while_suffix {A} (p : A -> bool) l :
  exists t, l = t ++ drop_while p l /\ forallb p t = true.
Proof.
  induction l as [|x r [t [Ht Hp]]]; simpl; [by exists []|].
  destruct (p x) eqn:E.
  - exists (x :: t). simpl. rewrite E, Hp. split; [by rewrite <- Ht | done].
  - by exists [].
Qed.

Lemma length_drop_while {A} (p : A -> bool) l : length (drop_while p l) <= length l.
Proof. induction l as [|x r IH]; simpl; [lia|]. destruct (p x); simpl; lia. Qed.

Lemma drop_while_head {A} (p : A -> bool) l x r :
  drop_while p l = x :: r -> p x = false.
Proof.
  induction l as [|y l IH]; simpl; [done|].
  destruct (p y) eqn:E; [auto|]. by intros [= <- <-].
Qed.

(** ** Automation *)
Create HintDb vex discriminated.
#[export] Hint Resolve sat_add_le : vex.

(** Splits booleans, conjunctions and the [if]s and [match]es of the goal. *)
Ltac bool_cases :=
  repeat match goal with
  | H : _ && _ = true |- _ => apply andb_prop in H as [? ?]
  | H : negb _ = true |- _ => apply negb_true_iff in H
  | H : negb _ = false |- _ => apply negb_false_iff in H
  | H : N.eqb _ _ = true |- _ => apply N.eqb_eq in H
  | H : N.eqb _ _ = false |- _ => apply N.eqb_neq in H
  | H : N.ltb _ _ = true |- _ => apply N.ltb_lt in H
  | H : N.ltb _ _ = false |- _ => apply N.ltb_ge in H
  | H : N.leb _ _ = true |- _ => apply N.leb_le in H
  | H : N.leb _ _ = false |- _ => apply N.leb_gt in H
  end.

(** Case analysis on the scrutinee of a [match] in the goal, keeping the equation. *)
Ltac split_match :=
  match goal with
  | |- context [match ?x with _ => _ end] => destruct x eqn:?
  end.

(** Destructs the pair a stateful call returns, wherever it is matched on. *)
Ltac split_let :=
  match goal with
  | |- context [let '(_, _) := ?x in _] => destruct x eqn:?
  end.

(** ** Labelled transition systems

    [trace step s ls s']: some steps lead from [s] to [s'] and emit [ls] together. *)
Section trace.
Context {S L : Type} (step : S -> list L -> S -> Prop).

Inductive trace : S -> list L -> S -> Prop :=
| trace_nil s : trace s [] s
| trace_cons s ls s1 ls' s2 : step s ls s1 -> trace s1 ls' s2 -> trace s (ls ++ ls') s2.

Lemma trace_app s ls s1 ls' s2 : trace s ls s1 -> trace s1 ls' s2 -> trace s (ls ++ ls') s2.
Proof.
  induction 1 as [|s ls s1 ls1 s3 Hs Hss IH]; [done|]. intros H2.
  rewrite <- app_assoc. econstructor; [exact Hs|]. by apply IH.
Qed.

Lemma trace_one s ls s' : step s ls s' -> trace s ls s'.
Proof. intros Hs. rewrite <- (app_nil_r ls). econstructor; [exact Hs|]. constructor. Qed.

Lemma trace_after s s1 ls s2 : trace s [] s1 -> trace s1 ls s2 -> trace s ls s2.
Proof. apply (trace_app s [] s1 ls s2). Qed.

Lemma trace_before s ls s1 s2 : trace s ls s1 -> trace s1 [] s2 -> trace s ls s2.
Proof. intros H1 H2. rewrite <- (app_nil_r ls). by eapply trace_app. Qed.

(** A relation that holds of every step, of no step, and composes, holds of every trace. *)
Lemma trace_rel (R : S -> list L -> S -> Prop) :
  (forall s, R s [] s) ->
  (forall s ls s1 ls' s2, R s ls s1 -> R s1 ls' s2 -> R s (ls ++ ls') s2) ->
  (forall s ls s', step s ls s' -> R s ls s') ->
  forall s ls s', trace s ls s' -> R s ls s'.
Proof. intros Hnil Happ Hstep. induction 1; eauto. Qed.

(** A predicate every step preserves is preserved by every trace. *)
Lemma trace_invariant (P : S -> Prop) :
  (forall s ls s', step s ls s' -> P s -> P s') -> forall s ls s', trace s ls s' -> P s -> P s'.
Proof. intros Hstep. induction 1; eauto. Qed.
End trace.
