(* ===== verification/Text.v ===== *)
(** The Rust [str], [String] and [char] API as the sources use it.

    A [char] is its Unicode scalar value, a [str] the sequence of its [char]s; the byte
    length is computed from the UTF-8 width of each [char].  Byte offsets appear only where
    the code exposes them (the editor); elsewhere an offset that a search returns and a
    slice consumes is the offset in [char]s of the same boundary.  The lemmas on lines and on
    blanks are shared by the components that read and write files of lines. *)
From Stdlib Require Import DecimalN DecimalFacts Decimal.
From stdpp Require Import base list sets strings numbers.
From Stdlib Require Import NArith ZArith Lia.
From S2P Require Import Prelude.
#[local] Open Scope N_scope.

Abbreviation char := N (only parsing).
Abbreviation str := (list N).

(** ASCII literals of the source. *)
Definition lit (s : string) : str := map Ascii.N_of_ascii (String.list_ascii_of_string s).
Notation "t! s" := (lit s%string) (at level 1, format "t! s").

Definition LF : char := 10.
Definition CR : char := 13.
Definition SPACE : char := 32.
Definition DQUOTE : char := 34.

(** [str::len], [char::len_utf8]. *)
Definition len_utf8 (c : char) : N :=
  if c <? 128 then 1 else if c <? 2048 then 2 else if c <? 65536 then 3 else 4.
Fixpoint blen (s : str) : N :=
  match s with [] => 0 | c :: r => len_utf8 c + blen r end.
(** The prefix of exactly [k] bytes, when [k] is a character boundary: [s.get(..k)]. *)
Fixpoint take_bytes (k : N) (s : str) : option str :=
  if k =? 0 then Some []
  else match s with
       | [] => None
       | c :: r => if k <? len_utf8 c then None else cons c <$> take_bytes (k - len_utf8 c) r
       end.

(** [s.chars().count()]. *)
Definition chars_count (s : str) : N := N.of_nat (length s).
Definition is_empty (s : str) : bool := match s with [] => true | _ => false end.

(** [char::is_whitespace]: the Unicode property White_Space. *)
Definition is_whitespace (c : char) : bool :=
  ((9 <=? c) && (c <=? 13)) || (c =? 32) || (c =? 133) || (c =? 160) || (c =? 5760)
  || ((8192 <=? c) && (c <=? 8202)) || (c =? 8232) || (c =? 8233) || (c =? 8239)
  || (c =? 8287) || (c =? 12288).

Definition trim_start (s : str) : str := drop_while is_whitespace s.
Definition trim_end (s : str) : str := reverse (drop_while is_whitespace (reverse s)).
Definition trim (s : str) : str := trim_end (trim_start s).
(** [trim_end_matches(c)] and [trim_matches(c)] for a [char] pattern. *)
Definition trim_end_char (c : char) (s : str) : str :=
  reverse (drop_while (N.eqb c) (reverse s)).
Definition trim_char (c : char) (s : str) : str :=
  trim_end_char c (drop_while (N.eqb c) s).

Fixpoint strip_prefix (p s : str) : option str :=
  match p, s with
  | [], _ => Some s
  | a :: p', b :: s' => if a =? b then strip_prefix p' s' else None
  | _ :: _, [] => None
  end.
Definition starts_with (p s : str) : bool := opt_is_some (strip_prefix p s).
Definition ends_with (p s : str) : bool := starts_with (reverse p) (reverse s).

(** [str::find], [str::contains], [str::rfind]. *)
Fixpoint find_str (p s : str) : option nat :=
  if starts_with p s then Some 0%nat
  else match s with [] => None | _ :: r => S <$> find_str p r end.
Definition contains (p s : str) : bool := opt_is_some (find_str p s).
Definition find_char (c : char) (s : str) : option nat := find_index (N.eqb c) s.
Definition contains_char (c : char) (s : str) : bool := existsb (N.eqb c) s.
Fixpoint rfind_char (c : char) (s : str) : option nat :=
  match s with
  | [] => None
  | x :: r =>
      match rfind_char c r with
      | Some i => Some (S i)
      | None => if x =? c then Some 0%nat else None
      end
  end.

(** [str::replace] of a non-empty pattern: leftmost, non-overlapping matches. *)
Fixpoint replace_from (skip : nat) (p by_ s : str) : str :=
  match s with
  | [] => []
  | c :: r =>
      match skip with
      | S k => replace_from k p by_ r
      | O => if starts_with p s then by_ ++ replace_from (length p - 1) p by_ r
             else c :: replace_from 0 p by_ r
      end
  end.
Definition replace (p by_ s : str) : str := replace_from 0 p by_ s.

(** [str::split(c)]: at least one piece. *)
Fixpoint split_on (c : char) (s : str) : list str :=
  match s with
  | [] => [[]]
  | x :: r =>
      if x =? c then [] :: split_on c r
      else match split_on c r with
           | [] => [[x]]
           | l :: t => (x :: l) :: t
           end
  end.
(** [str::split_once(pattern)]. *)
Definition split_once (p s : str) : option (str * str) :=
  match find_str p s with
  | Some i => Some (take i s, drop (i + length p) s)
  | None => None
  end.

(** [str::lines]: pieces ended by a line feed (or by the end of the text), a carriage
    return before the line feed removed with it. *)
Fixpoint split_inclusive (s : str) : list (str * bool) :=
  match s with
  | [] => []
  | x :: r =>
      if x =? LF then ([], true) :: split_inclusive r
      else match split_inclusive r with
           | [] => [([x], false)]
           | (l, b) :: t => (x :: l, b) :: t
           end
  end.
Definition strip_cr (l : str) : str :=
  match reverse l with
  | c :: r => if c =? CR then reverse r else l
  | [] => l
  end.
Definition lines (s : str) : list str :=
  map (fun '(l, ended) => if ended : bool then strip_cr l else l) (split_inclusive s).

Fixpoint join (sep : str) (ls : list str) : str :=
  match ls with
  | [] => []
  | [l] => l
  | l :: r => l ++ sep ++ join sep r
  end.

Definition to_ascii_lower (c : char) : char :=
  if (65 <=? c) && (c <=? 90) then c + 32 else c.
Definition to_ascii_lowercase (s : str) : str := map to_ascii_lower s.

(** ** Numbers in text *)
Fixpoint uint_to_str (d : Decimal.uint) : str :=
  match d with
  | Nil => []
  | D0 d => 48 :: uint_to_str d | D1 d => 49 :: uint_to_str d
  | D2 d => 50 :: uint_to_str d | D3 d => 51 :: uint_to_str d
  | D4 d => 52 :: uint_to_str d | D5 d => 53 :: uint_to_str d
  | D6 d => 54 :: uint_to_str d | D7 d => 55 :: uint_to_str d
  | D8 d => 56 :: uint_to_str d | D9 d => 57 :: uint_to_str d
  end.
(** [format!("{n}")] of an unsigned integer. *)
Definition fmt_N (n : N) : str := uint_to_str (N.to_uint n).
(** [format!("{z}")] of a signed integer. *)
Definition fmt_Z (z : Z) : str :=
  if (z <? 0)%Z then 45 :: fmt_N (Z.to_N (- z)) else fmt_N (Z.to_N z).

Definition hex_digit (d : N) : char := if d <? 10 then 48 + d else 87 + d.
(** [format!("{x:04x}")] of a [u16]. *)
Definition fmt_hex4 (x : N) : str :=
  [hex_digit (x / 4096 mod 16); hex_digit (x / 256 mod 16);
   hex_digit (x / 16 mod 16); hex_digit (x mod 16)].

Definition is_ascii_digit (c : char) : bool := (48 <=? c) && (c <=? 57).
Fixpoint digits_value (acc : N) (s : str) : option N :=
  match s with
  | [] => Some acc
  | c :: r => if is_ascii_digit c then digits_value (10 * acc + (c - 48)) r else None
  end.
(** [s.parse::<uN>()]: an optional [+], at least one digit, no overflow. *)
Definition parse_uint (max : N) (s : str) : option N :=
  let body := match s with c :: r => if c =? 43 then r else s | [] => s end in
  match body with
  | [] => None
  | _ => match digits_value 0 body with
         | Some v => if v <=? max then Some v else None
         | None => None
         end
  end.

(** ** Lemmas *)
Lemma len_utf8_pos c : 1 <= len_utf8 c <= 4.
Proof. unfold len_utf8. repeat case_match; lia. Qed.

Lemma blen_app s r : blen (s ++ r) = blen s + blen r.
Proof. induction s as [|c s IH]; simpl; [done|]. rewrite IH. lia. Qed.

Lemma blen_length s : N.of_nat (length s) <= blen s.
Proof. induction s as [|c s IH]; simpl; [lia|]. pose proof (len_utf8_pos c). lia. Qed.

Lemma blen_zero s : blen s = 0 <-> s = [].
Proof.
  split; [|by intros ->]. destruct s as [|c s]; [done|]. simpl.
  pose proof (len_utf8_pos c). lia.
Qed.

Lemma strip_prefix_Some p s r : strip_prefix p s = Some r <-> s = p ++ r.
Proof.
  revert s. induction p as [|a p IH]; intros s; simpl; [by split; [intros [=]|intros ->]|].
  destruct s as [|b s]; [done|]. destruct (N.eqb_spec a b) as [->|Hne].
  - rewrite IH. split; [by intros -> | by intros [= ->]].
  - split; [done|]. by intros [= -> _].
Qed.

Lemma strip_prefix_app p r : strip_prefix p (p ++ r) = Some r.
Proof. by apply strip_prefix_Some. Qed.

Lemma starts_with_spec p s : starts_with p s = true <-> exists r, s = p ++ r.
Proof.
  unfold starts_with, opt_is_some. destruct (strip_prefix p s) as [r|] eqn:E.
  - apply strip_prefix_Some in E. split; eauto.
  - split; [done|]. intros [r Hr]. apply strip_prefix_Some in Hr. congruence.
Qed.

Lemma starts_with_app p r : starts_with p (p ++ r) = true.
Proof. apply starts_with_spec. eauto. Qed.

(** [find_str] returns the leftmost occurrence. *)
Lemma find_str_Some p s i :
  find_str p s = Some i -> exists r, s = take i s ++ p ++ r /\ drop i s = p ++ r.
Proof.
  revert i. induction s as [|c s IH]; intros i; simpl.
  - destruct (starts_with p []) eqn:E; [|done]. intros [= <-].
    apply starts_with_spec in E as [r Hr]. by exists r.
  - destruct (starts_with p (c :: s)) eqn:E.
    + intros [= <-]. apply starts_with_spec in E as [r Hr]. exists r. done.
    + destruct (find_str p s) as [j|] eqn:Hj; [|done]. intros [= <-].
      destruct (IH j eq_refl) as [r [Hr Hd]]. exists r. simpl. split; [by f_equal|done].
Qed.

Lemma find_str_length p s i : find_str p s = Some i -> (i + length p <= length s)%nat.
Proof.
  intros H. destruct (find_str_Some _ _ _ H) as [r [Hr Hd]].
  apply (f_equal length) in Hd. rewrite length_drop, length_app in Hd.
  destruct (decide (i <= length s)%nat); [lia|].
  exfalso. revert H. clear -n. revert i n. induction s as [|c s IH]; intros i Hi; simpl.
  - destruct (starts_with p []); [|done]. intros [= <-]. simpl in Hi. lia.
  - destruct (starts_with p (c :: s)); [intros [= <-]; lia|].
    destruct (find_str p s) as [j|] eqn:Hj; [|done]. intros [= <-]. simpl in Hi.
    eapply (IH j); [lia|done].
Qed.

Lemma find_str_None p s t : find_str p s = None -> s <> t ++ p ++ drop (length t + length p) s.
Proof.
  intros H Hs. revert t Hs H. induction s as [|c s IH]; intros t Hs.
  - destruct t; [|done]. destruct p; [done|done].
  - simpl. destruct (starts_with p (c :: s)) eqn:E; [done|].
    destruct (find_str p s) eqn:Hf; [done|]. intros _.
    destruct t as [|x t].
    + simpl in Hs. assert (starts_with p (c :: s) = true); [|congruence].
      apply starts_with_spec. eauto.
    + injection Hs as -> Hs. simpl in Hs. eapply (IH t); [done|done].
Qed.

Lemma trim_start_idem s : trim_start (trim_start s) = trim_start s.
Proof. apply drop_while_idem. Qed.

Lemma trim_end_idem s : trim_end (trim_end s) = trim_end s.
Proof. unfold trim_end. by rewrite reverse_involutive, drop_while_idem. Qed.

Lemma length_trim_start s : (length (trim_start s) <= length s)%nat.
Proof. apply length_drop_while. Qed.

Lemma length_trim_end s : (length (trim_end s) <= length s)%nat.
Proof.
  unfold trim_end. rewrite length_reverse. etransitivity; [apply length_drop_while|].
  by rewrite length_reverse.
Qed.

Lemma join_cons sep l ls : ls <> [] -> join sep (l :: ls) = l ++ sep ++ join sep ls.
Proof. by destruct ls. Qed.

#[export] Hint Resolve len_utf8_pos starts_with_app strip_prefix_app : vex.

(** *** Searching *)
Lemma find_str_None_iff p s : find_str p s = None <-> forall a r, s <> a ++ p ++ r.
Proof.
  split.
  - intros H a r Hs. eapply (find_str_None p s a H). rewrite Hs at 1. f_equal. f_equal.
    rewrite Hs, app_assoc, drop_app_ge, length_app; [|rewrite length_app; lia].
    by replace (length a + length p - (length a + length p))%nat with 0%nat by lia.
  - intros H. destruct (find_str p s) as [i|] eqn:E; [|done].
    destruct (find_str_Some _ _ _ E) as (r & Hr & _). by destruct (H _ _ Hr).
Qed.

(** No occurrence in a text: none in a part of it. *)
Lemma find_str_None_infix p a b c : find_str p (a ++ b ++ c) = None -> find_str p b = None.
Proof.
  rewrite !find_str_None_iff. intros H x r ->. apply (H (a ++ x) (r ++ c)).
  by rewrite <- !app_assoc.
Qed.

(** A pattern is not found before its first character occurs. *)
Lemma find_str_skip c p a s :
  c ∉ a -> find_str (c :: p) (a ++ s) = Nat.add (length a) <$> find_str (c :: p) s.
Proof.
  induction a as [|x a IH]; intros Hc;
    [simpl; destruct (find_str (c :: p) s); reflexivity|].
  apply not_elem_of_cons in Hc as [Hx Ha].
  assert (starts_with (c :: p) (x :: a ++ s) = false) as Hn.
  { unfold starts_with. cbn. by destruct (N.eqb_spec c x). }
  change (find_str (c :: p) ((x :: a) ++ s)) with
    (if starts_with (c :: p) (x :: a ++ s) then Some 0%nat
     else S <$> find_str (c :: p) (a ++ s)).
  rewrite Hn, (IH Ha). destruct (find_str (c :: p) s); reflexivity.
Qed.

Lemma find_str_absent c p s : c ∉ s -> find_str (c :: p) s = None.
Proof. intros Hc. rewrite <- (app_nil_r s), (find_str_skip _ _ _ _ Hc). done. Qed.

Lemma find_str_here p r : find_str p (p ++ r) = Some 0%nat.
Proof. destruct (p ++ r) eqn:E; cbn [find_str]; by rewrite <- E, starts_with_app. Qed.

Lemma find_str_at c p a r : c ∉ a -> find_str (c :: p) (a ++ (c :: p) ++ r) = Some (length a).
Proof.
  intros Hc. rewrite (find_str_skip _ _ _ _ Hc), find_str_here. cbn. by rewrite Nat.add_0_r.
Qed.

Lemma find_char_skip c a s : c ∉ a -> find_char c (a ++ c :: s) = Some (length a).
Proof.
  unfold find_char. induction a as [|x a IH]; intros Hc; cbn; [by rewrite N.eqb_refl|].
  apply not_elem_of_cons in Hc as [Hx Ha].
  destruct (N.eqb_spec c x); [done|]. by rewrite (IH Ha).
Qed.

Lemma find_char_None c s : find_char c s = None <-> c ∉ s.
Proof.
  unfold find_char. induction s as [|x s IH]; cbn; [set_solver|].
  rewrite not_elem_of_cons. destruct (N.eqb_spec c x); [naive_solver|].
  destruct (find_index _ s); naive_solver.
Qed.

Lemma find_char_Some c s i :
  find_char c s = Some i -> exists a r, s = a ++ c :: r /\ length a = i /\ c ∉ a.
Proof.
  unfold find_char. revert i. induction s as [|x s IH]; intros i; cbn; [done|].
  destruct (N.eqb_spec c x) as [->|Hne].
  - intros [= <-]. exists [], s. set_solver.
  - destruct (find_index _ s) as [j|]; [|done]. intros [= <-].
    destruct (IH j eq_refl) as (a & r & -> & <- & Ha). exists (x :: a), r. set_solver.
Qed.

(** [rfind]: the last occurrence splits the text. *)
Lemma rfind_char_split c a b : c ∉ b -> rfind_char c (a ++ c :: b) = Some (length a).
Proof.
  intros Hb.
  assert (rfind_char c b = None) as Hn.
  { induction b as [|x b IH]; cbn; [done|]. apply not_elem_of_cons in Hb as [Hx Hb].
    rewrite (IH Hb). destruct (N.eqb_spec x c); congruence. }
  induction a as [|x a IH]; cbn; [by rewrite Hn, N.eqb_refl|]. by rewrite IH.
Qed.

Lemma rfind_char_None c s : rfind_char c s = None <-> c ∉ s.
Proof.
  induction s as [|x s IH]; cbn; [set_solver|]. rewrite not_elem_of_cons.
  destruct (rfind_char c s); [naive_solver|].
  destruct (N.eqb_spec x c); naive_solver.
Qed.

Lemma rfind_char_Some c s i :
  rfind_char c s = Some i -> exists a b, s = a ++ c :: b /\ length a = i /\ c ∉ b.
Proof.
  revert i. induction s as [|x s IH]; intros i; cbn; [done|].
  destruct (rfind_char c s) as [j|] eqn:E.
  - intros [= <-]. destruct (IH j eq_refl) as (a & b & -> & <- & Hb).
    exists (x :: a), b. done.
  - destruct (N.eqb_spec x c) as [->|]; [|done]. intros [= <-].
    exists [], s. apply rfind_char_None in E. done.
Qed.

(** Replacing a pattern that does not occur. *)
Lemma replace_absent p by_ s : p <> [] -> find_str p s = None -> replace p by_ s = s.
Proof.
  intros Hp. unfold replace. induction s as [|c s IH]; cbn; [done|].
  destruct (starts_with p (c :: s)) eqn:E; [done|].
  destruct (find_str p s) eqn:F; [done|]. intros _. by rewrite IH.
Qed.

(** *** Trimming *)
Lemma elem_of_drop_while {A} (p : A -> bool) x l :
  p x = false -> x ∈ l -> x ∈ drop_while p l.
Proof.
  intros Hp. induction l as [|y l IH]; [done|]. cbn. intros [->|Hx]%elem_of_cons.
  - rewrite Hp. set_solver.
  - destruct (p y); set_solver.
Qed.

Lemma elem_of_trim c s : is_whitespace c = false -> c ∈ s -> c ∈ trim s.
Proof.
  intros Hc Hs. unfold trim, trim_end, trim_start. rewrite elem_of_reverse.
  apply elem_of_drop_while; [done|]. rewrite elem_of_reverse. by apply elem_of_drop_while.
Qed.

Lemma elem_of_trim_char c d s : c <> d -> c ∈ s -> c ∈ trim_char d s.
Proof.
  intros Hc Hs. unfold trim_char, trim_end_char. rewrite elem_of_reverse.
  assert ((d =? c) = false) by (apply N.eqb_neq; congruence).
  apply elem_of_drop_while; [done|]. rewrite elem_of_reverse. by apply elem_of_drop_while.
Qed.

(** A text none of whose characters the predicate accepts is left alone. *)
Lemma drop_while_none {A} (p : A -> bool) l :
  (forall x, x ∈ l -> p x = false) -> drop_while p l = l.
Proof. intros H. destruct l as [|x l]; [done|]. cbn. by rewrite (H x) by set_solver. Qed.

Lemma trim_none s : (forall x, x ∈ s -> is_whitespace x = false) -> trim s = s.
Proof.
  intros H. unfold trim, trim_end, trim_start. rewrite (drop_while_none _ s) by done.
  rewrite drop_while_none; [apply reverse_involutive|]. intros x. rewrite elem_of_reverse. apply H.
Qed.

Lemma trim_char_none c s : c ∉ s -> trim_char c s = s.
Proof.
  intros H. assert (forall x, x ∈ s -> (c =? x) = false) as Hx.
  { intros x Hx. apply N.eqb_neq. congruence. }
  unfold trim_char, trim_end_char. rewrite (drop_while_none _ s) by done.
  rewrite drop_while_none; [apply reverse_involutive|]. intros x. rewrite elem_of_reverse. apply Hx.
Qed.

(** *** Concatenation

    An occurrence of a pattern in [e ++ z] lies in [e], in [z], or straddles the boundary. *)
Definition straddles (pat e z : str) : Prop :=
  exists a b e0 z0, a <> [] /\ b <> [] /\ pat = a ++ b /\ e = e0 ++ a /\ z = b ++ z0.

Lemma straddles_cons pat x e z : straddles pat e z -> straddles pat (x :: e) z.
Proof. intros (a & b & e0 & z0 & ? & ? & ? & -> & ?). by exists a, b, (x :: e0), z0. Qed.

Lemma starts_with_clean pat x e z :
  ~ straddles pat (x :: e) z -> starts_with pat ((x :: e) ++ z) = starts_with pat (x :: e).
Proof.
  intros Hs. destruct (starts_with pat (x :: e)) eqn:E.
  - apply starts_with_spec in E as [r ->]. rewrite <- app_assoc. apply starts_with_app.
  - apply not_true_is_false. intros [r Hr]%starts_with_spec.
    apply app_eq_inv in Hr as [(k & Hk & _)|(k & Hk & Hz)].
    + apply not_true_iff_false in E. apply E, starts_with_spec. by exists k.
    + destruct k as [|y k].
      * apply not_true_iff_false in E. apply E, starts_with_spec. exists [].
        by rewrite Hk, !app_nil_r.
      * apply Hs. exists (x :: e), (y :: k), [], r. done.
Qed.

Lemma find_str_clean pat e z :
  ~ straddles pat e z -> find_str pat e = None ->
  find_str pat (e ++ z) = Nat.add (length e) <$> find_str pat z.
Proof.
  induction e as [|x e IH]; intros Hs Hn; [simpl; destruct (find_str pat z); reflexivity|].
  pose proof (starts_with_clean _ _ _ _ Hs) as Hw.
  change (find_str pat ((x :: e) ++ z)) with
    (if starts_with pat ((x :: e) ++ z) then Some 0%nat else S <$> find_str pat (e ++ z)).
  rewrite Hw. cbn [find_str] in Hn. destruct (starts_with pat (x :: e)); [done|].
  destruct (find_str pat e); [done|].
  rewrite IH; [|intros H; by apply Hs, straddles_cons | done].
  destruct (find_str pat z); reflexivity.
Qed.

(** The leftmost occurrence stays the leftmost when the text grows on the right. *)
Lemma find_str_app_l pat a b i : find_str pat a = Some i -> find_str pat (a ++ b) = Some i.
Proof.
  revert i. induction a as [|x a IH]; intros i Hi.
  - cbn in Hi. destruct (starts_with pat []) eqn:E; [|done]. injection Hi as <-.
    destruct pat; [|done]. by destruct b.
  - pose proof (find_str_length _ _ _ Hi) as Hl. cbn [find_str] in Hi.
    change (find_str pat ((x :: a) ++ b)) with
      (if starts_with pat ((x :: a) ++ b) then Some 0%nat else S <$> find_str pat (a ++ b)).
    destruct (starts_with pat (x :: a)) eqn:E.
    + apply starts_with_spec in E as [r ->]. by rewrite <- app_assoc, starts_with_app.
    + destruct (find_str pat a) as [j|] eqn:Hj; [|done]. rewrite (IH _ eq_refl).
      destruct (starts_with pat ((x :: a) ++ b)) eqn:E'; [|done].
      apply not_true_iff_false in E. destruct E.
      apply starts_with_spec in E' as [r Hr]. apply starts_with_spec.
      exists (drop (length pat) (x :: a)). rewrite <- (take_drop (length pat) (x :: a)) at 1.
      f_equal. apply (f_equal (take (length pat))) in Hr.
      rewrite take_app_le, take_app_length in Hr; [done|]. lia.
Qed.

Lemma replace_from_clean pat by_ k e z :
  ~ straddles pat e z -> (k <= length e)%nat -> pat <> [] ->
  replace_from k pat by_ (e ++ z) = replace_from k pat by_ e ++ replace_from 0 pat by_ z.
Proof.
  intros Hs Hk Hp. revert k Hk Hs. induction e as [|x e IH]; intros k Hk Hs.
  - destruct k; [done|]. cbn in Hk. lia.
  - assert (~ straddles pat e z) as Hs' by (intros H; by apply Hs, straddles_cons).
    destruct k as [|k].
    + pose proof (starts_with_clean _ _ _ _ Hs) as Hw. cbn [app replace_from] in *.
      rewrite Hw. destruct (starts_with pat (x :: e)) eqn:E.
      * rewrite IH; [by rewrite app_assoc| |done].
        apply starts_with_spec in E as [r Hr]. apply (f_equal length) in Hr.
        rewrite length_app in Hr. cbn in Hr. lia.
      * cbn. f_equal. apply IH; [lia|done].
    + cbn [app replace_from]. apply IH; [cbn in Hk; lia|done].
Qed.

Lemma replace_clean pat by_ e z :
  ~ straddles pat e z -> pat <> [] ->
  replace pat by_ (e ++ z) = replace pat by_ e ++ replace pat by_ z.
Proof. intros. apply replace_from_clean; [done|lia|done]. Qed.

Lemma replace_from_skip pat by_ p z : replace_from (length p) pat by_ (p ++ z) = replace_from 0 pat by_ z.
Proof. induction p; done. Qed.

Lemma replace_here pat z : pat <> [] -> replace pat [] (pat ++ z) = replace pat [] z.
Proof.
  intros Hp. destruct pat as [|c p]; [done|]. unfold replace. cbn [app replace_from].
  change (c :: p ++ z) with ((c :: p) ++ z). rewrite starts_with_app. cbn [length].
  rewrite Nat.sub_succ, Nat.sub_0_r. apply replace_from_skip.
Qed.

(** A pattern whose first character does not occur again in it cannot straddle a boundary
    after which that character stands. *)
Lemma straddles_head c p e z : c ∉ p -> ~ straddles (c :: p) e (c :: z).
Proof.
  intros Hc (a & b & e0 & z0 & Ha & Hb & Hp & -> & Hz).
  destruct a as [|x a]; [done|]. destruct b as [|y b]; [done|].
  injection Hp as -> ->. injection Hz as -> ->. set_solver.
Qed.

Lemma straddles_last c p e z :
  c ∉ p -> straddles (c :: p) e z ->
  exists e0 a, e = e0 ++ c :: a /\ c ∉ a /\ starts_with (c :: a) (c :: p) = true.
Proof.
  intros Hc (a & b & e0 & z0 & Ha & Hb & Hp & -> & Hz).
  destruct a as [|x a]; [done|]. injection Hp as -> ->.
  exists e0, a. split; [done|]. split; [set_solver|]. apply (starts_with_app (x :: a)).
Qed.

Lemma straddles_nil_r p e : ~ straddles p e [].
Proof. intros (a & [|] & e0 & z0 & Ha & Hb & Hp & -> & Hz); done. Qed.

(** Whether two concrete texts leave room for a straddling occurrence. *)
Definition overlaps (pat e : str) : bool :=
  existsb (fun n => ends_with (take n pat) e) (seq 1 (length pat - 1)).

Lemma straddles_overlaps pat e z : straddles pat e z -> overlaps pat e = true.
Proof.
  intros (a & b & e0 & z0 & Ha & Hb & -> & -> & _). apply existsb_exists. exists (length a).
  rewrite in_seq, take_app_length, length_app. split.
  - destruct a, b; cbn; done || lia.
  - unfold ends_with. rewrite reverse_app. apply starts_with_app.
Qed.

Lemma straddles_app_r pat e z w : straddles pat e z -> straddles pat e (z ++ w).
Proof.
  intros (a & b & e0 & z0 & ? & ? & ? & ? & ->).
  exists a, b, e0, (z0 ++ w). by rewrite app_assoc.
Qed.

(** A text a pattern neither occurs in nor begins in. *)
Definition foreign (pat e : str) : Prop :=
  find_str pat e = None /\ forall z, ~ straddles pat e z.

Lemma foreign_find pat e z :
  foreign pat e -> find_str pat (e ++ z) = Nat.add (length e) <$> find_str pat z.
Proof. intros [Hn Hs]. by apply find_str_clean. Qed.

Lemma foreign_app pat e f : foreign pat e -> foreign pat f -> foreign pat (e ++ f).
Proof.
  intros He [Hn Hs]. split; [by rewrite foreign_find, Hn|].
  intros z (a & b & e0 & z0 & Ha & Hb & Hp & Hef & Hz).
  apply app_eq_inv in Hef as [(k & -> & ->)|(k & -> & ->)].
  - destruct k as [|x k].
    + apply (Hs z). exists f, b, [], z0. done.
    + destruct He as [_ He]. apply (He (f ++ z)). exists (x :: k), (f ++ b), e0, z0.
      rewrite Hp, Hz, <- !app_assoc. repeat split; try done. by destruct f, b.
  - apply (Hs z). exists a, b, k, z0. done.
Qed.

Lemma foreign_nil c p : foreign (c :: p) [].
Proof. split; [done|]. intros z (a & b & [|] & z0 & Ha & _ & _ & He & _); by destruct a. Qed.

Lemma foreign_concat c p es : Forall (foreign (c :: p)) es -> foreign (c :: p) (concat es).
Proof. induction 1; [apply foreign_nil | by apply foreign_app]. Qed.

(** A text without the pattern's first character, and a concrete text. *)
Lemma foreign_head c p e : c ∉ p -> c ∉ e -> foreign (c :: p) e.
Proof.
  intros Hp He. split; [by apply find_str_absent|].
  intros z (e0 & a & -> & _)%straddles_last; [|done]. set_solver.
Qed.

Lemma foreign_compute pat e :
  (if find_str pat e then false else true) && negb (overlaps pat e) = true -> foreign pat e.
Proof.
  intros [Hf Ho]%andb_prop. split; [by destruct (find_str pat e)|].
  intros z Hs%straddles_overlaps. by rewrite Hs in Ho.
Qed.

(** *** Numbers in text *)
Lemma uint_to_str_inj a b : uint_to_str a = uint_to_str b -> a = b.
Proof. revert b. induction a; intros []; cbn; intros [=]; f_equal; eauto. Qed.

Lemma fmt_N_inj a b : fmt_N a = fmt_N b -> a = b.
Proof.
  intros H%uint_to_str_inj. rewrite <- (DecimalN.Unsigned.of_to a), H.
  apply DecimalN.Unsigned.of_to.
Qed.

Lemma uint_to_str_digits d c : c ∈ uint_to_str d -> is_ascii_digit c = true.
Proof. induction d; cbn; [set_solver|..]; intros [->|?]%elem_of_cons; auto. Qed.

Lemma fmt_N_digits n c : c ∈ fmt_N n -> is_ascii_digit c = true.
Proof. apply uint_to_str_digits. Qed.

Lemma fmt_N_not_in n c : is_ascii_digit c = false -> c ∉ fmt_N n.
Proof. intros Hc Hin%fmt_N_digits. congruence. Qed.

(** The text after the last separator, and before the first one, is determined. *)
Lemma last_separator_inj (c : char) (a b a' b' : str) :
  c ∉ b -> c ∉ b' -> a ++ c :: b = a' ++ c :: b' -> a = a' /\ b = b'.
Proof.
  intros Hb Hb' Heq. pose proof (rfind_char_split c a b Hb) as H1.
  rewrite Heq, rfind_char_split in H1 by done. injection H1 as H1.
  apply app_inj_1 in Heq as [-> [= ->]]; done.
Qed.

Lemma first_separator_inj (c : char) (a b a' b' : str) :
  c ∉ a -> c ∉ a' -> a ++ c :: b = a' ++ c :: b' -> a = a' /\ b = b'.
Proof.
  intros Ha Ha' Heq. pose proof (find_char_skip c a b Ha) as H1.
  rewrite Heq, find_char_skip in H1 by done. injection H1 as H1.
  apply app_inj_1 in Heq as [-> [= ->]]; done.
Qed.

(** ** Lines of a text, and text without blanks around it *)
(** ** Pieces and lines *)
Lemma split_inclusive_cons l s : LF ∉ l -> split_inclusive (l ++ LF :: s) = (l, true) :: split_inclusive s.
Proof.
  induction l as [|c l IH]; cbn [app split_inclusive]; [by rewrite N.eqb_refl|].
  intros [Hc Hl]%not_elem_of_cons. rewrite (proj2 (N.eqb_neq c LF)) by done. by rewrite IH.
Qed.

Lemma split_inclusive_line l : LF ∉ l -> l <> [] -> split_inclusive l = [(l, false)].
Proof.
  induction l as [|c l IH]; intros Hlf Hne; [done|]. apply not_elem_of_cons in Hlf as [Hc Hlf].
  cbn [split_inclusive]. rewrite (proj2 (N.eqb_neq c LF)) by done.
  destruct l as [|d l]; [done|]. by rewrite IH.
Qed.

Lemma split_inclusive_last x l :
  LF ∉ l -> l <> [] -> exists init, init <> [] /\ split_inclusive (x ++ LF :: l) = init ++ [(l, false)].
Proof.
  intros Hlf Hne. induction x as [|c x (init & Hi & IH)]; cbn [app split_inclusive].
  - rewrite N.eqb_refl, split_inclusive_line by done. by exists [([], true)].
  - rewrite IH. destruct (c =? LF); [by exists (([], true) :: init)|].
    destruct init as [|[y b] init]; [done|]. by exists ((c :: y, b) :: init).
Qed.

Lemma strip_cr_solid l : (forall a, l <> a ++ [CR]) -> strip_cr l = l.
Proof.
  intros Hcr. unfold strip_cr. destruct (reverse l) as [|c r] eqn:E; [done|].
  apply (f_equal reverse) in E. rewrite reverse_involutive, reverse_cons in E.
  destruct (N.eqb_spec c CR) as [->|_]; [|done]. by destruct (Hcr (reverse r)).
Qed.

Lemma lines_cons l s : LF ∉ l -> (forall a, l <> a ++ [CR]) -> lines (l ++ LF :: s) = l :: lines s.
Proof. intros Hlf Hcr. unfold lines. rewrite split_inclusive_cons by done. cbn. by rewrite strip_cr_solid. Qed.

(** ** Text without blanks around it *)
Definition solid (s : str) : Prop := trim s = s.

Lemma drop_while_fixed {A} (p : A -> bool) l : drop_while p l = l -> match l with [] => True | x :: _ => p x = false end.
Proof.
  destruct l as [|x l]; [done|]. cbn. destruct (p x) eqn:E; [|done]. intros Hd.
  assert (length (drop_while p l) <= length l)%nat as Hl.
  { clear Hd. induction l as [|y l IH]; cbn; [done|]. destruct (p y); cbn; lia. }
  rewrite Hd in Hl. cbn in Hl. lia.
Qed.

Lemma trim_end_last s c : is_whitespace c = false -> trim_end (s ++ [c]) = s ++ [c].
Proof.
  intros Hc. unfold trim_end. rewrite reverse_snoc. cbn [drop_while]. by rewrite Hc, reverse_cons, reverse_involutive.
Qed.

Lemma solid_ends s : solid s -> s <> [] ->
  (exists c r, s = c :: r /\ is_whitespace c = false) /\ (exists r c, s = r ++ [c] /\ is_whitespace c = false).
Proof.
  unfold solid, trim. intros Hs Hne.
  assert (trim_start s = s) as Hstart.
  { pose proof (length_trim_start s) as H1. pose proof (length_trim_end (trim_start s)) as H2. rewrite Hs in H2.
    unfold trim_start in *. clear Hs. destruct s as [|c s]; [done|]. cbn in *.
    destruct (is_whitespace c) eqn:E; [|done]. pose proof (length_trim_start s). unfold trim_start in *. lia. }
  rewrite Hstart in Hs. split.
  - apply drop_while_fixed in Hstart. destruct s as [|c r]; [done|]. by exists c, r.
  - unfold trim_end in Hs. apply (f_equal reverse) in Hs. rewrite reverse_involutive in Hs.
    apply drop_while_fixed in Hs. destruct (reverse s) as [|c r] eqn:E.
    + by apply (f_equal reverse) in E; rewrite reverse_involutive in E.
    + apply (f_equal reverse) in E. rewrite reverse_involutive, reverse_cons in E. by exists (reverse r), c.
Qed.

Lemma solid_between a c r : is_whitespace c = false -> solid r -> r <> [] -> solid (c :: a ++ r).
Proof.
  intros Hc Hr Hne. destruct (solid_ends r Hr Hne) as [_ (r' & d & -> & Hd)]. unfold solid, trim, trim_start.
  cbn. rewrite Hc. rewrite app_assoc, app_comm_cons. by apply trim_end_last.
Qed.

Lemma solid_line s : solid s -> LF ∉ s -> forall t, lines (s ++ LF :: t) = s :: lines t.
Proof.
  intros Hs Hlf t. apply lines_cons; [done|]. intros a ->.
  destruct (solid_ends _ Hs) as [_ (r & c & E & Hc)]; [by destruct a|].
  apply app_inj_tail in E as [_ <-]. done.
Qed.

Lemma trim_solid s : solid (trim s).
Proof.
  unfold solid, trim. destruct (decide (trim_end (trim_start s) = [])) as [->|Hne]; [done|].
  set (u := trim_start s) in *.
  assert (exists c r, u = c :: r /\ is_whitespace c = false) as (c & r & Eu & Hc).
  { subst u. pose proof (trim_start_idem s) as Hi. apply drop_while_fixed in Hi.
    destruct (trim_start s) as [|c r] eqn:E; [done|]. by exists c, r. }
  rewrite Eu in *. assert (trim_start (trim_end (c :: r)) = trim_end (c :: r)) as ->; [|apply trim_end_idem].
  unfold trim_end. rewrite reverse_cons.
  assert (forall l, exists l', reverse (drop_while is_whitespace (l ++ [c])) = c :: l') as H.
  { intros l. induction l as [|d l (l' & IH)]; cbn [app drop_while]; [rewrite Hc; by exists []|].
    destruct (is_whitespace d); [by exists l'|]. rewrite reverse_cons, reverse_snoc. by eexists. }
  destruct (H (reverse r)) as (l' & ->). cbn. by rewrite Hc.
Qed.

(** The last line of a text. *)
Lemma last_line x l : LF ∉ l -> l <> [] -> list.last (lines (x ++ LF :: l)) = Some l.
Proof.
  intros Hlf Hne. destruct (split_inclusive_last x l Hlf Hne) as (init & _ & E).
  unfold lines. rewrite E, map_app. apply list.last_snoc.
Qed.

(** ** No line feed in a line *)
Lemma drop_while_subset {A} (p : A -> bool) x l : x ∈ drop_while p l -> x ∈ l.
Proof. induction l as [|y l IH]; cbn; [done|]. destruct (p y); [|done]. intros H. right. by apply IH. Qed.

Lemma trim_start_subset c s : c ∈ trim_start s -> c ∈ s.
Proof. apply drop_while_subset. Qed.

Lemma trim_subset c s : c ∈ trim s -> c ∈ s.
Proof.
  unfold trim, trim_end. rewrite elem_of_reverse. intros H%drop_while_subset. rewrite elem_of_reverse in H.
  by apply trim_start_subset.
Qed.

Lemma strip_prefix_subset c p s r : strip_prefix p s = Some r -> c ∈ r -> c ∈ s.
Proof. intros ->%strip_prefix_Some Hc. apply elem_of_app. by right. Qed.

Lemma split_inclusive_no_LF s l b : (l, b) ∈ split_inclusive s -> LF ∉ l.
Proof.
  revert l b. induction s as [|c s IH]; intros l b; cbn [split_inclusive]; [by intros ?%elem_of_nil|].
  destruct (N.eqb_spec c LF) as [->|Hc].
  - rewrite elem_of_cons. intros [[= -> _]|Hin]; [by apply not_elem_of_nil | by eapply IH].
  - destruct (split_inclusive s) as [|[m e] t].
    + rewrite list_elem_of_singleton. intros [= -> _]. rewrite list_elem_of_singleton. done.
    + rewrite elem_of_cons. intros [[= -> _]|Hin].
      * rewrite not_elem_of_cons. split; [done|]. eapply IH. by left.
      * eapply IH. by right.
Qed.

Lemma lines_no_LF s l : l ∈ lines s -> LF ∉ l.
Proof.
  unfold lines. intros ([m e] & -> & Hin)%list_elem_of_fmap. apply split_inclusive_no_LF in Hin.
  destruct e; [|done]. unfold strip_cr. destruct (reverse m) as [|c r] eqn:E; [done|].
  destruct (c =? CR); [|done]. rewrite elem_of_reverse. intros Hr. apply Hin.
  rewrite <- elem_of_reverse, E. by right.
Qed.

(** ** [str::split] at a character *)
Lemma split_on_no c l : c ∉ l -> split_on c l = [l].
Proof.
  induction l as [|x l IH]; [done|]. intros Hx%not_elem_of_cons. cbn.
  destruct Hx as [Hx Hl]. apply not_eq_sym, N.eqb_neq in Hx. rewrite Hx. by rewrite IH.
Qed.
Lemma split_on_line c l s : c ∉ l -> split_on c (l ++ c :: s) = l :: split_on c s.
Proof.
  induction l as [|x l IH]; intros Hx; cbn.
  - by rewrite N.eqb_refl.
  - apply not_elem_of_cons in Hx as [Hx Hl]. apply not_eq_sym, N.eqb_neq in Hx. rewrite Hx.
    by rewrite IH.
Qed.
Lemma split_on_join c ls :
  Forall (fun l => c ∉ l) ls -> ls <> [] -> split_on c (join [c] ls) = ls.
Proof.
  induction 1 as [|l ls Hl Hls IH]; [done|]. intros _. destruct ls as [|l' ls].
  - by apply split_on_no.
  - rewrite join_cons by done. cbn [app]. rewrite split_on_line by done. by rewrite IH.
Qed.

(** The pieces of two texts with the separator between them. *)
Lemma split_on_app c a b : split_on c (a ++ c :: b) = split_on c a ++ split_on c b.
Proof.
  induction a as [|x a IH]; cbn [app split_on].
  - by rewrite N.eqb_refl.
  - rewrite IH. destruct (x =? c); [done|]. destruct (split_on c a) eqn:E; [|done].
    exfalso. revert E. clear. destruct a as [|y a]; [done|]. cbn. destruct (y =? c); [done|].
    by destruct (split_on c a).
Qed.

(** One character by another. *)
Lemma replace_char c d s : replace [c] [d] s = map (fun x => if x =? c then d else x) s.
Proof.
  unfold replace. induction s as [|x s IH]; [done|]. cbn [replace_from map].
  unfold starts_with. cbn [strip_prefix]. rewrite (N.eqb_sym c x). destruct (x =? c); cbn; by rewrite IH.
Qed.
