(* ===== verification/Utf8.v ===== *)
(** UTF-8: [String::from_utf8], [str::as_bytes] and [str::is_char_boundary].  A byte is an
    [N] below 256. *)
From stdpp Require Import base list strings numbers.
From Stdlib Require Import NArith ZArith Lia ZifyN.
From S2P Require Import Prelude Text.
#[local] Open Scope N_scope.

Abbreviation byte := N (only parsing).
Abbreviation bytes := (list N).

(** A Unicode scalar value. *)
Definition is_scalar (c : char) : bool :=
  (c <? 55296) || ((57344 <=? c) && (c <=? 1114111)).

Definition encode_char (c : char) : bytes :=
  if c <? 128 then [c]
  else if c <? 2048 then [192 + c / 64; 128 + c mod 64]
  else if c <? 65536 then [224 + c / 4096; 128 + c / 64 mod 64; 128 + c mod 64]
  else [240 + c / 262144; 128 + c / 4096 mod 64; 128 + c / 64 mod 64; 128 + c mod 64].

(** [str::as_bytes]. *)
Fixpoint utf8_encode (s : str) : bytes :=
  match s with [] => [] | c :: r => encode_char c ++ utf8_encode r end.

Definition is_cont (b : byte) : bool := (128 <=? b) && (b <? 192).

(** [String::from_utf8]: [None] for an invalid sequence (truncated, overlong, a surrogate or
    above U+10FFFF). *)
Fixpoint from_utf8 (bs : bytes) : option str :=
  match bs with
  | [] => Some []
  | b1 :: r1 =>
      if b1 <? 128 then c ← from_utf8 r1; Some (b1 :: c)
      else match r1 with
      | b2 :: r2 =>
          if (194 <=? b1) && (b1 <? 224) && is_cont b2 then
            c ← from_utf8 r2; Some ((b1 - 192) * 64 + (b2 - 128) :: c)
          else match r2 with
          | b3 :: r3 =>
              let cp3 := ((b1 - 224) * 64 + (b2 - 128)) * 64 + (b3 - 128) in
              if (224 <=? b1) && (b1 <? 240) && is_cont b2 && is_cont b3
                 && (2048 <=? cp3) && is_scalar cp3 then
                c ← from_utf8 r3; Some (cp3 :: c)
              else match r3 with
              | b4 :: r4 =>
                  let cp4 := (((b1 - 240) * 64 + (b2 - 128)) * 64 + (b3 - 128)) * 64
                             + (b4 - 128) in
                  if (240 <=? b1) && (b1 <? 245) && is_cont b2 && is_cont b3 && is_cont b4
                     && (65536 <=? cp4) && is_scalar cp4 then
                    c ← from_utf8 r4; Some (cp4 :: c)
                  else None
              | [] => None
              end
          | [] => None
          end
      | [] => None
      end
  end.

Lemma length_encode_char c : N.of_nat (length (encode_char c)) = len_utf8 c.
Proof. unfold encode_char, len_utf8. repeat case_match; reflexivity. Qed.

Lemma length_utf8_encode s : N.of_nat (length (utf8_encode s)) = blen s.
Proof.
  induction s as [|c r IH]; simpl; [done|].
  rewrite length_app, Nat2N.inj_add, length_encode_char, IH. done.
Qed.

(** Decides every comparison that [lia] can decide, one way or the other. *)
Ltac decide_cmp :=
  repeat match goal with
  | |- context [?a <? ?b] =>
      first [ rewrite (proj2 (N.ltb_lt a b)) by lia | rewrite (proj2 (N.ltb_ge a b)) by lia ]
  | |- context [?a <=? ?b] =>
      first [ rewrite (proj2 (N.leb_le a b)) by lia | rewrite (proj2 (N.leb_gt a b)) by lia ]
  end; cbn [andb orb].

Lemma add_sub_l a b : a + b - a = b.
Proof. lia. Qed.

Definition scalar_range (c : char) : Prop := c < 55296 \/ 57344 <= c /\ c <= 1114111.

Lemma is_scalar_range c : is_scalar c = true <-> scalar_range c.
Proof.
  unfold is_scalar, scalar_range. rewrite orb_true_iff, andb_true_iff.
  rewrite N.ltb_lt, !N.leb_le. done.
Qed.

(** The three multi-byte forms, with the quotients and remainders as variables. *)
Lemma from_utf8_two q m c r :
  m < 64 -> c = q * 64 + m -> 128 <= c -> c < 2048 ->
  from_utf8 (192 + q :: 128 + m :: r) = s ← from_utf8 r; Some (c :: s).
Proof.
  intros Hm Hc H1 H2. cbn [from_utf8]. unfold is_cont.
  rewrite !add_sub_l, <- Hc. decide_cmp. done.
Qed.

Lemma from_utf8_three q m1 m0 c r :
  m1 < 64 -> m0 < 64 -> c = (q * 64 + m1) * 64 + m0 -> 2048 <= c -> c < 65536 ->
  is_scalar c = true ->
  from_utf8 (224 + q :: 128 + m1 :: 128 + m0 :: r) = s ← from_utf8 r; Some (c :: s).
Proof.
  intros Hm1 Hm0 Hc H1 H2 Hs. cbn [from_utf8]. unfold is_cont.
  rewrite (add_sub_l 224), !(add_sub_l 128), <- Hc, Hs. decide_cmp. done.
Qed.

Lemma from_utf8_four q m2 m1 m0 c r :
  m2 < 64 -> m1 < 64 -> m0 < 64 -> c = ((q * 64 + m2) * 64 + m1) * 64 + m0 -> 65536 <= c ->
  is_scalar c = true ->
  from_utf8 (240 + q :: 128 + m2 :: 128 + m1 :: 128 + m0 :: r)
  = s ← from_utf8 r; Some (c :: s).
Proof.
  intros Hm2 Hm1 Hm0 Hc H1 Hs. cbn [from_utf8]. unfold is_cont.
  rewrite (add_sub_l 240), !(add_sub_l 128), <- Hc, Hs.
  assert (c <= 1114111) by (apply is_scalar_range in Hs; unfold scalar_range in Hs; lia).
  decide_cmp. done.
Qed.

(** Decoding one encoded scalar value. *)
Lemma from_utf8_encode_char c r :
  is_scalar c = true -> from_utf8 (encode_char c ++ r) = s ← from_utf8 r; Some (c :: s).
Proof.
  intros Hc. unfold encode_char.
  pose proof (N.mod_lt c 64 ltac:(lia)). pose proof (N.mod_lt (c / 64) 64 ltac:(lia)).
  pose proof (N.mod_lt (c / 4096) 64 ltac:(lia)).
  assert (E0 : c = c / 64 * 64 + c mod 64)
    by (rewrite (N.mul_comm _ 64); apply N.div_mod; lia).
  assert (E1 : c / 64 = c / 4096 * 64 + (c / 64) mod 64).
  { replace (c / 4096) with (c / 64 / 64) by (by rewrite N.Div0.div_div).
    rewrite (N.mul_comm _ 64). apply N.div_mod. lia. }
  assert (E2 : c / 4096 = c / 262144 * 64 + (c / 4096) mod 64).
  { replace (c / 262144) with (c / 4096 / 64) by (by rewrite N.Div0.div_div).
    rewrite (N.mul_comm _ 64). apply N.div_mod. lia. }
  destruct (c <? 128) eqn:L1; [cbn; by rewrite L1|].
  destruct (c <? 2048) eqn:L2; [|destruct (c <? 65536) eqn:L3]; bool_cases; cbn [app].
  - by apply from_utf8_two.
  - apply from_utf8_three; auto. by rewrite <- E1.
  - apply from_utf8_four; auto. by rewrite <- E2, <- E1.
Qed.

Lemma from_utf8_encode s :
  forallb is_scalar s = true -> from_utf8 (utf8_encode s) = Some s.
Proof.
  induction s as [|c r IH]; simpl; [done|]. intros [Hc Hr]%andb_prop.
  by rewrite (from_utf8_encode_char c (utf8_encode r) Hc), IH.
Qed.
