(* ===== verification/Collections.v ===== *)
(** The ordered collections of the sources: [BTreeSet] and [BTreeMap] as strictly sorted
    lists, [IndexMap] (and serde's [Map], which preserves insertion order in this build) as
    association lists with unique keys.  A [HashMap] is stdpp's [gmap]. *)
From stdpp Require Import base list sets strings numbers sorting.
From Stdlib Require Import NArith ZArith Lia.
From S2P Require Import Prelude Text.

(** A strict total order with a boolean test ([Ord] of the key types). *)
Class OrdB (A : Type) := {
  ltb : A -> A -> bool;
  ltb_irrefl x : ltb x x = false;
  ltb_trans x y z : ltb x y = true -> ltb y z = true -> ltb x z = true;
  ltb_total x y : ltb x y = false -> ltb y x = false -> x = y;
}.

#[export] Program Instance N_ordb : OrdB N := {| ltb := N.ltb |}.
Next Obligation. intros x. apply N.ltb_irrefl. Qed.
Next Obligation. intros x y z. rewrite !N.ltb_lt. lia. Qed.
Next Obligation. intros x y. rewrite !N.ltb_ge. lia. Qed.

(** Strings compare by their UTF-8 bytes, which is the order of their scalar values. *)
Fixpoint str_ltb (a b : str) : bool :=
  match a, b with
  | _, [] => false
  | [], _ :: _ => true
  | x :: a', y :: b' => (x <? y)%N || ((x =? y)%N && str_ltb a' b')
  end.

Lemma str_ltb_irrefl a : str_ltb a a = false.
Proof. induction a as [|x a IH]; simpl; [done|]. by rewrite N.ltb_irrefl, N.eqb_refl, IH. Qed.

Lemma str_ltb_trans a b c : str_ltb a b = true -> str_ltb b c = true -> str_ltb a c = true.
Proof.
  revert b c. induction a as [|x a IH]; intros [|y b] [|z c]; simpl; try done.
  rewrite !orb_true_iff, !andb_true_iff, !N.ltb_lt, !N.eqb_eq.
  intros [?|[-> ?]] [?|[-> ?]]; [left; lia | left; lia | left; lia | right; eauto].
Qed.

Lemma str_ltb_total a b : str_ltb a b = false -> str_ltb b a = false -> a = b.
Proof.
  revert b. induction a as [|x a IH]; intros [|y b]; simpl; try done.
  rewrite !orb_false_iff, !andb_false_iff, !N.ltb_ge, !N.eqb_neq.
  intros [? H1] [? H2]. assert (x = y) as -> by lia.
  f_equal. apply IH; [by destruct H1 | by destruct H2].
Qed.

#[export] Instance str_ordb : OrdB str :=
  {| ltb := str_ltb; ltb_irrefl := str_ltb_irrefl;
     ltb_trans := str_ltb_trans; ltb_total := str_ltb_total |}.

(** ** [BTreeSet] *)
Section sorted_set.
Context {A : Type} `{OrdB A}.

Fixpoint set_insert (x : A) (l : list A) : list A :=
  match l with
  | [] => [x]
  | y :: r => if ltb x y then x :: l else if ltb y x then y :: set_insert x r else l
  end.

Definition same (x y : A) : bool := negb (ltb x y) && negb (ltb y x).
Definition set_mem (x : A) (l : list A) : bool := existsb (same x) l.
(** [remove] returns whether the element was present. *)
Definition set_remove (x : A) (l : list A) : bool * list A :=
  (set_mem x l, List.filter (fun y => negb (same x y)) l).

Definition sorted (l : list A) : Prop := StronglySorted (fun x y => ltb x y = true) l.

Lemma same_spec x y : same x y = true <-> x = y.
Proof.
  unfold same. rewrite andb_true_iff, !negb_true_iff. split.
  - intros [? ?]. by apply ltb_total.
  - intros ->. by rewrite ltb_irrefl.
Qed.

Lemma set_mem_spec x l : set_mem x l = true <-> x ∈ l.
Proof.
  unfold set_mem. rewrite existsb_exists. setoid_rewrite same_spec.
  rewrite list_elem_of_In. split; [by intros [? [? ->]] | eauto].
Qed.

Lemma elem_of_set_insert x y l : x ∈ set_insert y l <-> x = y \/ x ∈ l.
Proof.
  induction l as [|z r IH]; simpl; [set_solver|].
  destruct (ltb y z) eqn:E1; [set_solver|].
  destruct (ltb z y) eqn:E2; [rewrite !elem_of_cons, IH; tauto|].
  rewrite (ltb_total y z) by done. set_solver.
Qed.

Lemma set_insert_sorted x l : sorted l -> sorted (set_insert x l).
Proof.
  unfold sorted. induction 1 as [|y r Hr IH Hy]; simpl; [repeat constructor|].
  destruct (ltb x y) eqn:E1.
  - constructor; [by constructor|]. constructor; [done|].
    eapply Forall_impl; [exact Hy|]. eauto using ltb_trans.
  - destruct (ltb y x) eqn:E2; [|by constructor].
    constructor; [done|]. rewrite Forall_forall in *.
    intros z [->|Hz]%elem_of_set_insert; auto.
Qed.

Lemma elem_of_set_remove x y l : x ∈ (set_remove y l).2 <-> x <> y /\ x ∈ l.
Proof.
  unfold set_remove. cbn [snd]. rewrite !list_elem_of_In, filter_In, negb_true_iff.
  destruct (same y x) eqn:E.
  - apply same_spec in E as ->. naive_solver.
  - split; [|naive_solver]. intros [? _]. split; [|done]. intros ->.
    by rewrite (proj2 (same_spec y y)) in E.
Qed.

Lemma set_remove_absent x l : set_mem x l = false -> (set_remove x l).2 = l.
Proof.
  unfold set_mem, set_remove. cbn [snd]. induction l as [|y l IH]; [done|]. cbn.
  intros [Hxy Hl]%orb_false_elim. rewrite Hxy. cbn. by rewrite IH.
Qed.

Lemma set_remove_sorted x l : sorted l -> sorted (set_remove x l).2.
Proof.
  unfold sorted, set_remove. cbn [snd]. induction 1 as [|y r Hr IH Hy]; simpl; [constructor|].
  destruct (negb _); [|done]. constructor; [done|].
  rewrite Forall_forall in *. intros z Hz%list_elem_of_In%filter_In. apply Hy.
  apply list_elem_of_In. naive_solver.
Qed.

Lemma sorted_NoDup l : sorted l -> NoDup l.
Proof.
  unfold sorted. induction 1 as [|y r Hr IH Hy]; constructor; [|done].
  rewrite Forall_forall in Hy. intros Hin. specialize (Hy _ Hin).
  by rewrite ltb_irrefl in Hy.
Qed.
End sorted_set.

(** ** [BTreeMap] *)
Section sorted_map.
Context {K V : Type} `{OrdB K}.

Fixpoint bmap_get (k : K) (m : list (K * V)) : option V :=
  match m with
  | [] => None
  | (k', v) :: r => if same k k' then Some v else bmap_get k r
  end.
Fixpoint bmap_insert (k : K) (v : V) (m : list (K * V)) : list (K * V) :=
  match m with
  | [] => [(k, v)]
  | (k', v') :: r =>
      if ltb k k' then (k, v) :: m
      else if ltb k' k then (k', v') :: bmap_insert k v r
      else (k, v) :: r
  end.
Definition bmap_remove (k : K) (m : list (K * V)) : list (K * V) :=
  List.filter (fun kv => negb (same k kv.1)) m.

Lemma bmap_get_insert_eq k v m : bmap_get k (bmap_insert k v m) = Some v.
Proof.
  induction m as [|[k' v'] r IH]; simpl; [by rewrite (proj2 (same_spec k k))|].
  destruct (ltb k k') eqn:E1; simpl; [by rewrite (proj2 (same_spec k k))|].
  destruct (ltb k' k) eqn:E2; simpl; [|by rewrite (proj2 (same_spec k k))].
  destruct (same k k') eqn:E; [|done]. apply same_spec in E as ->.
  by rewrite ltb_irrefl in E2.
Qed.

Lemma bmap_get_insert_ne k k' v m :
  k <> k' -> bmap_get k (bmap_insert k' v m) = bmap_get k m.
Proof.
  intros Hne. assert (same k k' = false) as Hs.
  { destruct (same k k') eqn:E; [|done]. by apply same_spec in E. }
  induction m as [|[k2 v2] r IH]; simpl; [by rewrite Hs|].
  destruct (ltb k' k2) eqn:E1; simpl; [by rewrite Hs|].
  destruct (ltb k2 k') eqn:E2; simpl; [by rewrite IH|].
  rewrite (ltb_total k' k2) in Hs by done. by rewrite (ltb_total k' k2), Hs by done.
Qed.
End sorted_map.

(** ** [IndexMap]: insertion replaces in place or appends, [shift_remove] keeps the order. *)
Section index_map.
Context {K V : Type} `{EqDecision K}.

Fixpoint im_get (k : K) (m : list (K * V)) : option V :=
  match m with
  | [] => None
  | (k', v) :: r => if decide (k = k') then Some v else im_get k r
  end.
Fixpoint im_insert (k : K) (v : V) (m : list (K * V)) : list (K * V) :=
  match m with
  | [] => [(k, v)]
  | (k', v') :: r => if decide (k = k') then (k, v) :: r else (k', v') :: im_insert k v r
  end.
Definition im_remove (k : K) (m : list (K * V)) : list (K * V) :=
  List.filter (fun kv => negb (bool_decide (k = kv.1))) m.

Lemma im_get_insert_eq k v m : im_get k (im_insert k v m) = Some v.
Proof.
  induction m as [|[k' v'] r IH]; simpl; [by rewrite decide_True|].
  case_decide; simpl; [by rewrite decide_True | by rewrite decide_False].
Qed.

Lemma im_get_insert_ne k k' v m : k <> k' -> im_get k (im_insert k' v m) = im_get k m.
Proof.
  intros Hne. induction m as [|[k2 v2] r IH]; simpl; [by rewrite decide_False|].
  case_decide as E; simpl; [|by rewrite IH].
  subst. by rewrite !decide_False by congruence.
Qed.

Lemma im_insert_fresh k v m : im_get k m = None -> im_insert k v m = m ++ [(k, v)].
Proof.
  induction m as [|[k' v'] r IH]; simpl; [done|]. case_decide; [done|].
  intros Hm. by rewrite IH.
Qed.

Lemma im_get_remove_eq k m : im_get k (im_remove k m) = None.
Proof.
  induction m as [|[k' v'] r IH]; simpl; [done|].
  case_bool_decide; simpl; [done|]. by rewrite decide_False.
Qed.

Lemma im_get_remove_ne k k' m : k <> k' -> im_get k (im_remove k' m) = im_get k m.
Proof.
  intros Hne. induction m as [|[k2 v2] r IH]; simpl; [done|].
  case_bool_decide; simpl; [subst; by rewrite decide_False | by rewrite IH].
Qed.
End index_map.

#[export] Hint Resolve set_insert_sorted set_remove_sorted sorted_NoDup : vex.

(** ** Sorting: [sort] and [sort_by] are stable *)
Section sorting.
Context {A : Type} (before : A -> A -> bool).

(** [before x y]: [x] is strictly less than [y]. *)
Fixpoint insert_sorted (x : A) (l : list A) : list A :=
  match l with
  | [] => [x]
  | y :: r => if before y x then y :: insert_sorted x r else x :: l
  end.

Definition sort_by (l : list A) : list A := foldr insert_sorted [] l.
End sorting.

Section sort_theory.
Context {A : Type} (before : A -> A -> bool).
Hypothesis before_asym : forall x y, before x y = true -> before y x = false.
Hypothesis before_weak : forall x y z, before z y = true -> before z x = false -> before x y = true.

Lemma insert_sorted_comm x y l :
  (before x y = false -> before y x = false -> x = y) ->
  insert_sorted before x (insert_sorted before y l) = insert_sorted before y (insert_sorted before x l).
Proof using before_asym before_weak.
  intros Htot. induction l as [|z l IH]; cbn [insert_sorted].
  - destruct (before y x) eqn:Hyx.
    + by rewrite (before_asym _ _ Hyx).
    + destruct (before x y) eqn:Hxy; [done|]. by rewrite Htot.
  - destruct (before z y) eqn:Hzy, (before z x) eqn:Hzx; cbn [insert_sorted]; rewrite ?Hzy, ?Hzx.
    + by rewrite IH.
    + by rewrite (before_weak _ _ _ Hzy Hzx).
    + by rewrite (before_weak _ _ _ Hzx Hzy).
    + destruct (before y x) eqn:Hyx.
      * by rewrite (before_asym _ _ Hyx).
      * destruct (before x y) eqn:Hxy; [done|]. by rewrite Htot.
Qed.

(** The order of the input does not matter if no two of its elements are alike. *)
Lemma sort_by_perm l l' :
  Permutation l l' ->
  (forall x y, x ∈ l -> y ∈ l -> before x y = false -> before y x = false -> x = y) ->
  sort_by before l = sort_by before l'.
Proof using before_asym before_weak.
  unfold sort_by. induction 1 as [|x l l' Hp IH|x y l|l l1 l' Hp IH Hp' IH']; intros Htot; cbn [foldr].
  - done.
  - rewrite IH; [done|]. intros a b Ha Hb. apply Htot; by right.
  - apply insert_sorted_comm. apply Htot; [by left | right; by left].
  - rewrite IH by done. apply IH'. intros a b Ha Hb. apply Htot; by rewrite Hp.
Qed.
End sort_theory.

(** [sort_by] permutes its input, and orders it. *)
Lemma insert_sorted_permutes {A} (before : A -> A -> bool) x l : insert_sorted before x l ≡ₚ x :: l.
Proof. induction l as [|y l IH]; cbn; [done|]. destruct (before y x); [|done]. rewrite IH. apply Permutation_swap. Qed.

Lemma sort_by_permutes {A} (before : A -> A -> bool) l : sort_by before l ≡ₚ l.
Proof. induction l as [|x l IH]; cbn; [done|]. unfold sort_by in IH. by rewrite insert_sorted_permutes, IH. Qed.

Lemma sort_by_in_order {A} (before : A -> A -> bool) l :
  StronglySorted (fun a b => before b a = false) l -> sort_by before l = l.
Proof.
  unfold sort_by. induction 1 as [|x l Hs IH Hx]; cbn [foldr]; [done|]. rewrite IH.
  destruct l as [|y l]; [done|]. cbn [insert_sorted]. apply list.Forall_cons in Hx as [Hx _]. by rewrite Hx.
Qed.

Lemma sort_by_sorted {A} (before : A -> A -> bool) l :
  (forall x y, before x y = true -> before y x = false) ->
  (forall x y z, before y x = false -> before z y = false -> before z x = false) ->
  StronglySorted (fun x y => before y x = false) (sort_by before l).
Proof.
  intros Hasym Htrans. unfold sort_by. induction l as [|x l IH]; cbn; [constructor|].
  induction IH as [|y r Hr IH Hy]; cbn; [by repeat constructor|]. destruct (before y x) eqn:E.
  - constructor; [done|]. rewrite list.Forall_forall in Hy |- *. intros z Hz.
    rewrite insert_sorted_permutes in Hz. apply elem_of_cons in Hz as [->|Hz]; [by apply Hasym | by apply Hy].
  - constructor; [by constructor|]. constructor; [done|]. eapply Forall_impl; [exact Hy|]. intros z Hz. by eapply Htrans.
Qed.

Lemma str_ltb_asym x y : str_ltb x y = true -> str_ltb y x = false.
Proof.
  intros Hxy. destruct (str_ltb y x) eqn:Hyx; [|done].
  pose proof (str_ltb_trans _ _ _ Hxy Hyx) as H. by rewrite str_ltb_irrefl in H.
Qed.
Lemma str_ltb_weak x y z : str_ltb z y = true -> str_ltb z x = false -> str_ltb x y = true.
Proof.
  intros Hzy Hzx. destruct (str_ltb x y) eqn:Hxy; [done|].
  destruct (str_ltb y x) eqn:Hyx; [by rewrite (str_ltb_trans _ _ _ Hzy Hyx) in Hzx|].
  by rewrite (str_ltb_total x y Hxy Hyx), Hzy in Hzx.
Qed.

(** ** A sorted map that grows *)
Section sorted_map.
Context {K V : Type} `{OrdB K}.
Implicit Types (m : list (K * V)).
Definition sorted_keys m : Prop := sorted (map fst m).

Lemma elem_of_keys k m : k ∈ map fst m <-> exists v, (k, v) ∈ m.
Proof.
  rewrite list_elem_of_fmap. split; [intros ([k' v] & -> & Hin); eauto | intros (v & Hin); exists (k, v); eauto].
Qed.

Lemma bmap_insert_keys k v m x : x ∈ map fst (bmap_insert k v m) <-> x = k \/ x ∈ map fst m.
Proof.
  induction m as [|[k' v'] r IH]; cbn [bmap_insert map fst]; [by rewrite list_elem_of_singleton; set_solver|].
  destruct (ltb k k') eqn:E1; cbn [map fst]; [by rewrite elem_of_cons|].
  destruct (ltb k' k) eqn:E2; cbn [map fst]; rewrite !elem_of_cons; [rewrite IH; naive_solver|].
  rewrite (ltb_total k k') by done. naive_solver.
Qed.

Lemma bmap_insert_sorted k v m : sorted_keys m -> sorted_keys (bmap_insert k v m).
Proof.
  unfold sorted_keys, sorted. induction m as [|[k' v'] r IH]; cbn [bmap_insert map fst]; intros Hs; [by repeat constructor|].
  apply Sorted.StronglySorted_inv in Hs as [Hs Hk]. rewrite list.Forall_forall in Hk.
  destruct (ltb k k') eqn:E1; cbn [map fst]; [|destruct (ltb k' k) eqn:E2; cbn [map fst]].
  - constructor; [constructor; [done | by apply list.Forall_forall]|]. constructor; [done|]. apply list.Forall_forall.
    intros x Hx. by eapply ltb_trans; [|apply Hk].
  - constructor; [by apply IH|]. apply list.Forall_forall. intros x [->|Hx]%bmap_insert_keys; [done | by apply Hk].
  - rewrite (ltb_total k k') by done. constructor; [done | by apply list.Forall_forall].
Qed.

Lemma elem_of_bmap_insert k v m x y :
  sorted_keys m -> (x, y) ∈ bmap_insert k v m <-> (x = k /\ y = v) \/ (x <> k /\ (x, y) ∈ m).
Proof.
  unfold sorted_keys, sorted. induction m as [|[k' v'] r IH]; cbn [bmap_insert map fst]; intros Hs.
  { rewrite list_elem_of_singleton. split; [intros [= -> ->]; by left | intros [[-> ->]|[_ ?%elem_of_nil]]; done]. }
  apply Sorted.StronglySorted_inv in Hs as [Hs Hk]. rewrite list.Forall_forall in Hk.
  destruct (ltb k k') eqn:E1; [|destruct (ltb k' k) eqn:E2].
  - rewrite !elem_of_cons. split.
    + intros [[= -> ->]|[[= -> ->]|Hin]]; [by left | right; split; [|by left]|right; split; [|by right]].
      * intros ->. by rewrite ltb_irrefl in E1.
      * intros ->. assert (ltb k' k = true) as Hlt by (apply Hk, elem_of_keys; eauto).
        pose proof (ltb_irrefl k) as Hi. by rewrite (ltb_trans _ _ _ E1 Hlt) in Hi.
    + intros [[-> ->]|[_ [H1|H1]]]; [by left | right; by left | right; by right].
  - rewrite !elem_of_cons, IH by done. split.
    + intros [[= -> ->]|[?|[? ?]]]; [right|by left|right; by eauto]. split; [|by left]. intros ->. by rewrite ltb_irrefl in E2.
    + intros [?|[Hn [?|?]]]; [right; by left | by left | right; right; by eauto].
  - rewrite (ltb_total k k') in * by done. rewrite !elem_of_cons. split.
    + intros [[= -> ->]|Hin]; [by left|]. right. split; [|by right]. intros ->.
      assert (ltb k' k' = true) as Hlt by (apply Hk, elem_of_keys; eauto). by rewrite ltb_irrefl in Hlt.
    + intros [[-> ->]|[Hn [[= -> ->]|Hin]]]; [by left | done | by right].
Qed.

Lemma bmap_get_elem k v m : sorted_keys m -> bmap_get k m = Some v <-> (k, v) ∈ m.
Proof.
  unfold sorted_keys, sorted. induction m as [|[k' v'] m IH]; cbn [bmap_get map fst]; intros Hs; [split; [done | by intros ?%elem_of_nil]|].
  apply Sorted.StronglySorted_inv in Hs as [Hs Hk]. rewrite list.Forall_forall in Hk.
  destruct (same k k') eqn:E; rewrite elem_of_cons.
  - apply same_spec in E as <-. split; [intros [= ->]; by left|]. intros [[= ->]|Hin]; [done|].
    assert (ltb k k = true) as Hlt by (apply Hk, elem_of_keys; by exists v). by rewrite ltb_irrefl in Hlt.
  - rewrite IH by done. split; [by right|]. intros [[= -> ->]|]; [|done]. by rewrite (proj2 (same_spec k' k')) in E.
Qed.
Lemma bmap_insert_elem k v m : sorted_keys m -> (k, v) ∈ m -> bmap_insert k v m = m.
Proof.
  unfold sorted_keys, sorted. induction m as [|[k' v'] r IH]; cbn [bmap_insert map fst]; intros Hs Hin; [by apply not_elem_of_nil in Hin|].
  apply Sorted.StronglySorted_inv in Hs as [Hs Hk]. rewrite list.Forall_forall in Hk. apply elem_of_cons in Hin as [Heq|Hin].
  - injection Heq as <- <-. by rewrite ltb_irrefl.
  - assert (ltb k' k = true) as Hlt by (apply Hk, elem_of_keys; by exists v).
    destruct (ltb k k') eqn:E; [|by rewrite Hlt, IH]. pose proof (ltb_trans _ _ _ Hlt E) as Hk'. by rewrite ltb_irrefl in Hk'.
Qed.
Lemma bmap_get_absent k m : k ∉ map fst m -> bmap_get k m = None.
Proof.
  induction m as [|[k' v] r IH]; cbn; [done|]. intros [Hn Hr]%not_elem_of_cons.
  destruct (same k k') eqn:E; [|by apply IH]. by apply same_spec in E.
Qed.
End sorted_map.
