(* ===== verification/Json.v ===== *)
(** [serde_json::Value] as data, and the third-party codec as an interface.

    The parser and the printer of JSON text are code of the [serde_json] crate: they are the
    operations of a class, and every theorem that uses them holds for any implementation,
    or states the documented behaviour it needs. *)
From stdpp Require Import base list strings numbers.
From Stdlib Require Import NArith ZArith Lia.
From S2P Require Import Prelude Text Collections.

(** A finite or non-finite [f64], as its 64-bit pattern. *)
Definition f64 : Type := N.
(** [serde_json::Number::from_f64] refuses the non-finite values. *)
Definition f64_is_finite (x : f64) : bool := negb ((x / 2 ^ 52) mod 2048 =? 2047)%N.

Inductive number : Type :=
| PosInt (n : N)
| NegInt (z : Z)
| Float (x : f64).

Inductive value : Type :=
| Null
| Bool (b : bool)
| Number (n : number)
| String (s : str)
| Array (l : list value)
| Object (m : list (str * value)).

Definition empty_json_object : value := Object [].

(** [Value::get] with a string key, [Value::as_str]. *)
Definition value_get (key : str) (v : value) : option value :=
  match v with Object m => im_get key m | _ => None end.
Definition as_str (v : value) : option str :=
  match v with String s => Some s | _ => None end.
Definition is_string (v : value) : bool :=
  match v with String _ => true | _ => false end.

Class SerdeJson := {
  (** [serde_json::from_str::<Value>]. *)
  json_from_str : str -> option value;
  (** [serde_json::to_string(&Value)] and [Value::to_string]. *)
  json_to_string : value -> option str;
  (** [str::parse::<f64>]: the correctly rounded decimal conversion of the standard library. *)
  parse_f64 : str -> option f64;
}.

(** What the code relies on when it prints and later re-reads a value. *)
Class SerdeJsonLaws `{SerdeJson} : Prop := {
  json_empty_object : json_to_string (Object []) = Some t!"{}";
  json_parse_empty : json_from_str [] = None;
}.

(** A codec to evaluate examples with: it reads back exactly what it prints, the empty
    object. *)
Definition empty_codec : SerdeJson := {|
  json_from_str s := if bool_decide (s = t!"{}") then Some (Object []) else None;
  json_to_string v := match v with Object [] => Some t!"{}" | _ => None end;
  parse_f64 _ := None;
|}.

Lemma empty_codec_laws : @SerdeJsonLaws empty_codec.
Proof. by split. Qed.
