(* ===== verification/Usage.v ===== *)
(** Token accounting: src/usage.rs, and the two functions of the protocol ingress that fold
    the provider's usage reports into a turn's totals. *)
From stdpp Require Import base list strings numbers.
From Stdlib Require Import NArith ZArith Lia.
From S2P Require Import Prelude Text Json.
#[local] Open Scope N_scope.

Module PulseTokens.
Record t := mk {
  input : N;
  output : N;
  estimated : bool;
  cache_creation_input_tokens : N;
  cache_read_input_tokens : N;
}.
Definition default : t := mk 0 0 false 0 0.
Definition is_zero (p : t) : bool :=
  (input p =? 0) && (output p =? 0)
  && (cache_creation_input_tokens p =? 0) && (cache_read_input_tokens p =? 0).
End PulseTokens.

Module SessionTokens.
Record t := mk {
  input : N;
  output : N;
  last_input : N;
  last_output : N;
  last_estimated : bool;
  estimated : bool;
  cache_creation_input_tokens : N;
  cache_read_input_tokens : N;
  last_cache_creation_input_tokens : N;
  last_cache_read_input_tokens : N;
}.
Definition default : t := mk 0 0 0 0 false false 0 0 0 0.

Definition record_pulse (s : t) (p : PulseTokens.t) : t := {|
  input := sat_add u64_max (input s) (PulseTokens.input p);
  output := sat_add u64_max (output s) (PulseTokens.output p);
  last_input := PulseTokens.input p;
  last_output := PulseTokens.output p;
  last_estimated := PulseTokens.estimated p;
  estimated := estimated s || PulseTokens.estimated p;
  cache_creation_input_tokens :=
    sat_add u64_max (cache_creation_input_tokens s)
      (PulseTokens.cache_creation_input_tokens p);
  cache_read_input_tokens :=
    sat_add u64_max (cache_read_input_tokens s) (PulseTokens.cache_read_input_tokens p);
  last_cache_creation_input_tokens := PulseTokens.cache_creation_input_tokens p;
  last_cache_read_input_tokens := PulseTokens.cache_read_input_tokens p;
|}.

Definition reset (s : t) : t := default.

Definition has_completed_turns (s : t) : bool :=
  (0 <? input s) || (0 <? output s) || (0 <? last_input s) || (0 <? last_output s).

Definition last_pulse (s : t) : PulseTokens.t := {|
  PulseTokens.input := last_input s;
  PulseTokens.output := last_output s;
  PulseTokens.estimated := last_estimated s;
  PulseTokens.cache_creation_input_tokens := last_cache_creation_input_tokens s;
  PulseTokens.cache_read_input_tokens := last_cache_read_input_tokens s;
|}.
End SessionTokens.

(** [estimate_tokens]: a quarter of the characters, rounded up. *)
Definition estimate_tokens (text : str) : N :=
  let chars := chars_count text in
  if chars =? 0 then 0 else (chars + 3) / 4.

Record PromptTokenDetails := mk_PromptTokenDetails {
  cached_tokens : option N;
  prompt_audio_tokens : option N;
}.

Record CompletionTokenDetails := mk_CompletionTokenDetails {
  reasoning_tokens : option N;
  completion_audio_tokens : option N;
  accepted_prediction_tokens : option N;
  rejected_prediction_tokens : option N;
}.

Record PrefixCacheStats := mk_PrefixCacheStats {
  cache_hit : bool;
  cache_read_tokens : option N;
  cache_creation_tokens : option N;
  prefix_fingerprint : option str;
}.

Record ApiUsage := mk_ApiUsage {
  input_tokens : option N;
  output_tokens : option N;
  total_tokens : option N;
  cache_creation_input_tokens : option N;
  cache_read_input_tokens : option N;
  cache_creation : option value;
  service_tier : option str;
  web_search_requests : option N;
  inference_geo : option str;
  prompt_tokens_details : option PromptTokenDetails;
  completion_tokens_details : option CompletionTokenDetails;
  prefix_cache : option PrefixCacheStats;
}.

(** [usage.service_tier = tier]. *)
Definition usage_with_service_tier (tier : option str) (u : ApiUsage) : ApiUsage :=
  mk_ApiUsage (input_tokens u) (output_tokens u) (total_tokens u)
    (cache_creation_input_tokens u) (cache_read_input_tokens u) (cache_creation u) tier
    (web_search_requests u) (inference_geo u) (prompt_tokens_details u)
    (completion_tokens_details u) (prefix_cache u).

Record TokenUsageEnvelope := mk_TokenUsageEnvelope {
  tu_input : N;
  tu_output : N;
  tu_estimated : bool;
  tu_cache_creation_input : N;
  tu_cache_read_input : N;
}.

Definition token_usage_from_turn_tokens (tokens : PulseTokens.t) : option TokenUsageEnvelope :=
  if PulseTokens.is_zero tokens then None
  else Some {|
    tu_input := PulseTokens.input tokens;
    tu_output := PulseTokens.output tokens;
    tu_estimated := PulseTokens.estimated tokens;
    tu_cache_creation_input := PulseTokens.cache_creation_input_tokens tokens;
    tu_cache_read_input := PulseTokens.cache_read_input_tokens tokens;
  |}.

Definition turn_tokens_from_usage (usage : TokenUsageEnvelope) : PulseTokens.t := {|
  PulseTokens.input := tu_input usage;
  PulseTokens.output := tu_output usage;
  PulseTokens.estimated := tu_estimated usage;
  PulseTokens.cache_creation_input_tokens := tu_cache_creation_input usage;
  PulseTokens.cache_read_input_tokens := tu_cache_read_input usage;
|}.

Definition token_usage_from_api_usage (usage : ApiUsage) : option TokenUsageEnvelope :=
  let u := {|
    tu_input := unwrap_or (input_tokens usage) 0;
    tu_output := unwrap_or (output_tokens usage) 0;
    tu_estimated := false;
    tu_cache_creation_input := unwrap_or (cache_creation_input_tokens usage) 0;
    tu_cache_read_input := unwrap_or (cache_read_input_tokens usage) 0;
  |} in
  if negb (tu_input u =? 0) || negb (tu_output u =? 0)
     || negb (tu_cache_creation_input u =? 0) || negb (tu_cache_read_input u =? 0)
  then Some u else None.

(** [if let Some(n) = field { total = total.saturating_add(n) }]. *)
Definition add_opt (total : N) (field : option N) : N :=
  match field with Some n => sat_add u64_max total n | None => total end.

Definition accumulate_turn_tokens (t : PulseTokens.t) (usage : ApiUsage) : PulseTokens.t := {|
  PulseTokens.input := add_opt (PulseTokens.input t) (input_tokens usage);
  PulseTokens.output := add_opt (PulseTokens.output t) (output_tokens usage);
  PulseTokens.estimated := PulseTokens.estimated t;
  PulseTokens.cache_creation_input_tokens :=
    add_opt (PulseTokens.cache_creation_input_tokens t) (cache_creation_input_tokens usage);
  PulseTokens.cache_read_input_tokens :=
    add_opt (PulseTokens.cache_read_input_tokens t) (cache_read_input_tokens usage);
|}.
