(* ===== verification/Evidence.v ===== *)
(** Turn evidence: src/pulse_evidence.rs. *)
From stdpp Require Import base list gmap strings numbers.
From Stdlib Require Import NArith ZArith Lia.
From S2P Require Import Prelude Text Collections Json Usage.
#[local] Open Scope N_scope.

Record CommandEvidence := mk_CommandEvidence {
  ce_program : str;
  ce_exit_code : option Z;
  ce_interrupted : bool;
}.

Record TurnEvidenceRecord := mk_TurnEvidenceRecord {
  ter_pulse : N;
  ter_input : str;
  ter_response : str;
  ter_instructions_path : option str;
  ter_changed_files : list str;
  ter_command_history : list CommandEvidence;
  ter_tokens : PulseTokens.t;
}.

Record SummaryRecord := mk_SummaryRecord {
  sr_summary : bool;
  sr_status : str;
  sr_task_id : str;
  sr_total_turns : N;
  sr_instructions_path : option str;
  sr_changed_files : list str;
  sr_session_tasks : list str;
}.

Record ToolInvocationSummary := mk_ToolInvocationSummary {
  step_id : N;
  inv_name : str;
  inv_outcome : str;
}.

Record TurnEvidenceState := mk_TurnEvidenceState {
  tes_input : str;
  tes_response : str;
  tes_changed_files : list str;
  tes_command_history : list CommandEvidence;
  tes_tool_invocations : list ToolInvocationSummary;
  tes_tokens : PulseTokens.t;
}.

(** [while !seen.insert(next_step_id) { next_step_id = next_step_id.saturating_add(1) }]: the
    first id not in [seen], which is then recorded.  The loop runs at most once more than
    there are ids in [seen], which bounds the fuel; it does not end when every id up to
    [u64::MAX] is taken, which the fuel turns into the last value tried. *)
Fixpoint next_free (fuel : nat) (seen : gset N) (next : N) : N :=
  match fuel with
  | O => next
  | S fuel =>
      if decide (next ∈ seen) then next_free fuel seen (sat_add u64_max next 1) else next
  end.

(** One invocation of the inner loop: the state is ([seen], [next_step_id]). *)
Definition assign_step (st : gset N * N) (inv : ToolInvocationSummary)
    : ToolInvocationSummary * (gset N * N) :=
  let '(seen, next) := st in
  if (step_id inv =? 0) || bool_decide (step_id inv ∈ seen) then
    let id := next_free (S (size seen)) seen next in
    (mk_ToolInvocationSummary id (inv_name inv) (inv_outcome inv),
     ({[id]} ∪ seen, N.max id (sat_add u64_max id 1)))
  else
    (inv, ({[step_id inv]} ∪ seen, N.max next (sat_add u64_max (step_id inv) 1))).

Fixpoint assign_steps (st : gset N * N) (l : list ToolInvocationSummary)
    : list ToolInvocationSummary * (gset N * N) :=
  match l with
  | [] => ([], st)
  | inv :: r =>
      let '(inv', st') := assign_step st inv in
      let '(r', st'') := assign_steps st' r in
      (inv' :: r', st'')
  end.

Fixpoint normalize_pulses (st : gset N * N) (pulses : list TurnEvidenceState)
    : list TurnEvidenceState :=
  match pulses with
  | [] => []
  | p :: r =>
      let '(invs, st') := assign_steps st (tes_tool_invocations p) in
      mk_TurnEvidenceState (tes_input p) (tes_response p) (tes_changed_files p)
        (tes_command_history p) invs (tes_tokens p) :: normalize_pulses st' r
  end.

Definition normalize_tool_invocation_step_ids (pulses : list TurnEvidenceState)
    : list TurnEvidenceState := normalize_pulses (∅, 1) pulses.

(** The first of [keys] that holds a string, trimmed, unless that is empty. *)
Definition first_string_field (input : value) (keys : list str) : option str :=
  match find_map (fun key => value_get key input ≫= as_str) keys with
  | Some s => let v := trim s in if is_empty v then None else Some v
  | None => None
  end.

Definition str_eqb (a b : str) : bool := bool_decide (a = b).
Definition str_in (a : str) (l : list str) : bool := existsb (str_eqb a) l.

Definition note_changed_files_from_tool_call
    (changed_files : list str) (name : str) (input : value) : list str :=
  if str_in name [t!"write_file"; t!"apply_patch"; t!"edit_file"; t!"git_add"] then
    match first_string_field input [t!"path"; t!"file_path"; t!"file"; t!"filename"] with
    | Some path => set_insert path changed_files
    | None => changed_files
    end
  else if str_eqb name t!"rename_file" then
    fold_left (fun files key =>
        match first_string_field input [key] with
        | Some path => set_insert path files
        | None => files
        end)
      [t!"old_path"; t!"from"; t!"source_path"; t!"new_path"; t!"to"; t!"target_path"]
      changed_files
  else changed_files.

Definition command_evidence_from_tool_result (name : str) (is_error : bool)
    : option CommandEvidence :=
  let program :=
    if str_eqb name t!"git_status" then Some t!"git status"
    else if str_eqb name t!"git_diff" then Some t!"git diff"
    else if str_eqb name t!"git_log" then Some t!"git log"
    else if str_eqb name t!"git_show" then Some t!"git show"
    else if str_eqb name t!"git_add" then Some t!"git add"
    else if str_eqb name t!"git_commit" then Some t!"git commit"
    else None in
  match program with
  | Some p => Some (mk_CommandEvidence p (Some (if is_error then 1 else 0)%Z) false)
  | None => None
  end.

Lemma note_changed_files_sorted files name input :
  sorted files -> sorted (note_changed_files_from_tool_call files name input).
Proof.
  intros Hs. unfold note_changed_files_from_tool_call.
  repeat case_match; auto with vex. cbn [fold_left].
  repeat (case_match; auto with vex); repeat (apply set_insert_sorted || done).
Qed.

(** ** Step ids *)
Definition invocations (pulses : list TurnEvidenceState) : list ToolInvocationSummary :=
  concat (map tes_tool_invocations pulses).

Lemma assign_steps_app st a b :
  (assign_steps st (a ++ b)).1
  = (assign_steps st a).1 ++ (assign_steps (assign_steps st a).2 b).1.
Proof.
  revert st. induction a as [|x a IH]; intros st; cbn; [done|].
  destruct (assign_step st x) as [x' st']. specialize (IH st').
  destruct (assign_steps st' (a ++ b)), (assign_steps st' a) as [a' st'']. cbn in *. congruence.
Qed.

(** The pulses only delimit the list of invocations. *)
Lemma normalize_pulses_invocations st pulses :
  invocations (normalize_pulses st pulses) = (assign_steps st (invocations pulses)).1.
Proof.
  revert st. induction pulses as [|p r IH]; intros st; [done|]. cbn [normalize_pulses invocations].
  unfold invocations in *. cbn [map concat]. rewrite assign_steps_app, <- IH.
  destruct (assign_steps st (tes_tool_invocations p)). done.
Qed.

(** The next id is above every id seen, so the search for a free id ends at once. *)
Definition ids_below (st : gset N * N) : Prop := 0 < st.2 /\ forall id, id ∈ st.1 -> id < st.2.

Lemma next_free_here n seen next : next ∉ seen -> next_free (S n) seen next = next.
Proof. intros H. cbn. by rewrite decide_False. Qed.

Lemma assign_step_spec st inv bound :
  ids_below st -> st.2 <= bound -> step_id inv < bound -> bound < u64_max ->
  let r := assign_step st inv in
  0 < step_id r.1 /\ step_id r.1 ∉ st.1 /\ r.2.1 = {[step_id r.1]} ∪ st.1
  /\ ids_below r.2 /\ r.2.2 <= bound + 1
  /\ inv_name r.1 = inv_name inv /\ inv_outcome r.1 = inv_outcome inv.
Proof.
  destruct st as [seen next]. intros [Hn Hs] Hb Hid Hmax. cbn [fst snd] in *.
  assert (next ∉ seen) by (intros ?%Hs; lia).
  unfold assign_step. destruct (_ || _) eqn:E; cbn zeta beta iota.
  - rewrite next_free_here by done. cbn [fst snd step_id inv_name inv_outcome].
    rewrite sat_add_small by lia. repeat split; try done; cbn [fst snd]; try lia.
    intros id. rewrite elem_of_union, elem_of_singleton. intros [->|?%Hs]; lia.
  - apply orb_false_iff in E as [E0%N.eqb_neq Es%bool_decide_eq_false]. cbn [fst snd].
    rewrite sat_add_small by lia. repeat split; try done; cbn [fst snd]; try lia.
    intros id. rewrite elem_of_union, elem_of_singleton. intros [->|?%Hs]; lia.
Qed.

Lemma assign_steps_spec l st bound :
  ids_below st -> st.2 <= bound -> Forall (fun inv => step_id inv < bound) l ->
  bound + N.of_nat (length l) < u64_max ->
  let r := (assign_steps st l).1 in
  Forall (fun inv => 0 < step_id inv /\ step_id inv ∉ st.1) r /\ NoDup (map step_id r)
  /\ map (fun inv => (inv_name inv, inv_outcome inv)) r
     = map (fun inv => (inv_name inv, inv_outcome inv)) l.
Proof.
  revert st bound. induction l as [|inv l IH]; intros st bound Hst Hb Hl Hmax.
  { repeat constructor. }
  apply list.Forall_cons in Hl as [Hinv Hl]. cbn [length] in Hmax.
  destruct (assign_step_spec st inv bound) as (Hpos & Hfresh & Hseen & Hst' & Hb' & Hname & Hout);
    [done|done|done|lia|].
  cbn [assign_steps]. destruct (assign_step st inv) as [inv' st'] eqn:E. cbn [fst snd] in *.
  destruct (IH st' (bound + 1)) as (Hf & Hnd & Hm); [done|done| |lia|].
  { revert Hl. apply Forall_impl. intros ? ?. cbn in *. lia. }
  destruct (assign_steps st' l) as [l' st''] eqn:E'. cbn [fst map] in *.
  rewrite Hseen in Hf. repeat split.
  - constructor; [done|]. revert Hf. apply Forall_impl. set_solver.
  - constructor; [|done]. intros (i & Hi & Hin)%list_elem_of_In%in_map_iff.
    rewrite Forall_forall in Hf. apply Hf in Hin as [_ Hin]. set_solver.
  - congruence.
Qed.

Lemma assign_steps_distinct l st :
  Forall (fun inv => 0 < step_id inv /\ step_id inv ∉ st.1) l -> NoDup (map step_id l) ->
  (assign_steps st l).1 = l.
Proof.
  revert st. induction l as [|inv l IH]; intros [seen next] Hl Hnd; [done|].
  apply list.Forall_cons in Hl as [[Hpos Hfresh] Hl]. inversion Hnd as [|? ? Hnin Hnd']; subst.
  cbn [assign_steps]. unfold assign_step. cbn [fst] in *.
  replace (_ || _) with false.
  - specialize (IH ({[step_id inv]} ∪ seen, N.max next (sat_add u64_max (step_id inv) 1))).
    destruct (assign_steps _ l) as [l' st']. cbn [fst] in *. rewrite IH; [done| |done].
    apply Forall_forall. intros i Hi. rewrite Forall_forall in Hl. destruct (Hl _ Hi).
    split; [done|]. rewrite not_elem_of_union, not_elem_of_singleton. split; [|done].
    intros Heq. apply Hnin. rewrite <- Heq. by apply list_elem_of_In, in_map.
  - symmetry. apply orb_false_iff. split; [apply N.eqb_neq; lia | by apply bool_decide_eq_false].
Qed.

(** After the step ids of a session's tool invocations are normalised, they are positive
    and pairwise distinct over all pulses, and the invocations keep their order, names and
    outcomes; ids that were positive and distinct to begin with are all kept.  The first
    part needs ids that leave room below [u64::MAX] ([step_ids_loop_forever]). *)
Theorem normalized_step_ids (pulses : list TurnEvidenceState) :
  Forall (fun inv => step_id inv + N.of_nat (length (invocations pulses)) + 1 < u64_max)
    (invocations pulses) ->
  let out := normalize_tool_invocation_step_ids pulses in
  (NoDup (map step_id (invocations out)) /\ Forall (fun inv => 0 < step_id inv) (invocations out)
   /\ map (fun inv => (inv_name inv, inv_outcome inv)) (invocations out)
      = map (fun inv => (inv_name inv, inv_outcome inv)) (invocations pulses))
  /\ (NoDup (map step_id (invocations pulses)) ->
      Forall (fun inv => 0 < step_id inv) (invocations pulses) ->
      invocations out = invocations pulses).
Proof.
  intros Hb out. unfold out, normalize_tool_invocation_step_ids.
  rewrite normalize_pulses_invocations. set (l := invocations pulses) in *. split.
  - destruct l as [|i l'] eqn:El; [repeat constructor|]. rewrite <- El in *.
    destruct (assign_steps_spec l (∅, 1) (u64_max - N.of_nat (length l) - 1))
      as (Hf & Hnd & Hm).
    + split; cbn; [lia|]. set_solver.
    + rewrite El in Hb. inversion Hb; subst. cbn [snd]. rewrite <- El in *. lia.
    + revert Hb. apply Forall_impl. intros ? ?. cbn beta in *. lia.
    + rewrite El in Hb. inversion Hb; subst. rewrite <- El in *. lia.
    + split; [done|]. split; [|done]. revert Hf. apply Forall_impl. by intros ? [].
  - intros Hnd Hpos. apply assign_steps_distinct; [|done].
    revert Hpos. apply Forall_impl. intros ? ?. split; [done|]. cbn. set_solver.
Qed.

Lemma normalized_step_ids_witness :
  let inv n := mk_ToolInvocationSummary n t!"read_file" t!"ok" in
  let pulse l := mk_TurnEvidenceState [] [] [] [] l PulseTokens.default in
  let out := normalize_tool_invocation_step_ids [pulse [inv 2; inv 0]; pulse [inv 2; inv 7]] in
  map step_id (invocations out) = [2; 3; 4; 7] /\ NoDup (map step_id (invocations out)).
Proof.
  intros inv pulse out. split; [by vm_compute|].
  apply (normalized_step_ids [pulse [inv 2; inv 0]; pulse [inv 2; inv 7]]).
  apply (bool_decide_unpack _). by vm_compute.
Defined.

(** A recorded step id of [u64::MAX] leaves the search for a fresh id without an exit:
    the next id saturates at [u64::MAX], and however long the loop runs, the id it tries next
    is already taken. *)
Theorem step_ids_loop_forever st inv :
  step_id inv = u64_max -> u64_max ∉ st.1 -> st.2 <= u64_max ->
  let st' := (assign_step st inv).2 in
  forall fuel, next_free fuel st'.1 st'.2 ∈ st'.1.
Proof.
  destruct st as [seen next]. cbn [fst snd]. intros Hid Hfresh Hn. cbv zeta.
  unfold assign_step. rewrite Hid. replace (_ || _) with false.
  - cbn [fst snd]. replace (N.max next (sat_add u64_max u64_max 1)) with u64_max
      by (unfold sat_add; lia).
    induction fuel as [|fuel IH]; cbn [next_free]; [set_solver|].
    case_decide; [|set_solver]. by replace (sat_add u64_max u64_max 1) with u64_max.
  - symmetry. apply orb_false_iff. split; [done|]. by apply bool_decide_eq_false.
Qed.

Lemma step_ids_loop_forever_witness :
  let inv := mk_ToolInvocationSummary u64_max t!"bash" t!"ok" in
  let st' := (assign_step (∅, 1) inv).2 in next_free 1000 st'.1 st'.2 ∈ st'.1.
Proof.
  intros inv st'. apply (step_ids_loop_forever (∅, 1) inv); [done|set_solver|done].
Defined.

(** ** Tests of texts *)
Lemma str_eqb_iff a b : str_eqb a b = true <-> a = b.
Proof. apply bool_decide_eq_true. Qed.
Lemma str_eqb_same a : str_eqb a a = true.
Proof. by apply str_eqb_iff. Qed.
Lemma str_eqb_other a b : a <> b -> str_eqb a b = false.
Proof. intros H. by apply bool_decide_eq_false. Qed.
Lemma str_in_iff a l : str_in a l = true <-> a ∈ l.
Proof.
  unfold str_in. rewrite existsb_exists. setoid_rewrite str_eqb_iff. setoid_rewrite <- list_elem_of_In. naive_solver.
Qed.
Lemma str_in_not a l : str_in a l = false <-> a ∉ l.
Proof. rewrite <- str_in_iff. by destruct (str_in a l). Qed.
