(* ===== verification/DeltaAccumulator.v ===== *)
(** Accumulation of streamed tool arguments: src/runtime/delta_accumulator.rs.

    The state is the map behind the mutex; [&self] methods lock it for the whole of their
    effect, so each is one step.  [Instant::now()] is the argument [now].  The signals given
    to [try_send] are recorded in order in [peer_updates] (whether the bounded channel
    delivers or drops one is the channel's business: the code only logs the failure). *)
From stdpp Require Import base list gmap strings numbers.
From Stdlib Require Import NArith ZArith Lia.
From S2P Require Import Prelude Text.
#[local] Open Scope N_scope.

Definition ToolCallId : Type := str.
Abbreviation tool_call_id := (list N).

Definition DEFAULT_DELTA_ACCUMULATOR_MEMORY_WATERMARK_BYTES : N := 256 * 1024 * 1024.
Definition MAX_STORED_PARTIAL_BYTES : N := 65536.
Definition MAX_TOOL_DELTA_QUEUE_DEPTH : N := 32.

Inductive PeerDelta : Type :=
| ToolStart (id : str) (task_id : str) (name : str)
| ToolDelta (id : str) (task_id : str) (partial_json : str)
| ToolFinish (id : str) (task_id : str)
| PartialArgsTruncated (id : str) (task_id : str) (stored_bytes : N).

Record ToolState := mk_ToolState {
  ts_id : str;
  ts_task_id : str;
  ts_name : str;
  partial_args : str;
  partial_args_truncated : bool;
  finished : bool;
  delta_queue : list str;
  last_activity : Z;
}.

Inductive AccumulationError : Type :=
| UnknownId (id : str)
| DuplicateId (id : str)
| MalformedPartial
| MemoryPressure.

(** The iteration order of a [HashMap]: any order, every entry once. *)
Class HashOrder := {
  hash_iter : gmap str ToolState -> list (str * ToolState);
  hash_iter_perm m : hash_iter m ≡ₚ map_to_list m;
}.

(** ** [is_valid_json_prefix] *)
Record Scan := mk_Scan {
  brace_depth : Z;
  bracket_depth : Z;
  in_string : bool;
  escaped : bool;
}.
Definition scan_start : Scan := mk_Scan 0 0 false false.

(** One iteration of the loop; [None] is [return false].  The depths are [i32] in the code:
    they are bounded by the number of characters scanned ([scan_depth_bound]). *)
Definition scan_char (s : Scan) (ch : char) : option Scan :=
  if in_string s then
    if escaped s then Some (mk_Scan (brace_depth s) (bracket_depth s) true false)
    else if ch =? 92 then Some (mk_Scan (brace_depth s) (bracket_depth s) true true)
    else if ch =? DQUOTE then Some (mk_Scan (brace_depth s) (bracket_depth s) false false)
    else Some s
  else if ch =? DQUOTE then
    Some (mk_Scan (brace_depth s) (bracket_depth s) true (escaped s))
  else if ch =? 123 then
    Some (mk_Scan (brace_depth s + 1) (bracket_depth s) false (escaped s))
  else if ch =? 125 then
    if (brace_depth s - 1 <? 0)%Z then None
    else Some (mk_Scan (brace_depth s - 1) (bracket_depth s) false (escaped s))
  else if ch =? 91 then
    Some (mk_Scan (brace_depth s) (bracket_depth s + 1) false (escaped s))
  else if ch =? 93 then
    if (bracket_depth s - 1 <? 0)%Z then None
    else Some (mk_Scan (brace_depth s) (bracket_depth s - 1) false (escaped s))
  else Some s.

Fixpoint scan_text (s : Scan) (text : str) : option Scan :=
  match text with
  | [] => Some s
  | ch :: r => s' ← scan_char s ch; scan_text s' r
  end.

Definition is_valid_json_prefix (existing incoming : str) : bool :=
  opt_is_some (scan_text scan_start (existing ++ incoming)).

(** ** The accumulator *)
Record Acc := mk_Acc {
  acc_state : gmap str ToolState;
  peer_updates : option (list PeerDelta);
  memory_watermark_bytes : N;
}.

(** [new_with_peer_updates]; [new] passes [None]. *)
Definition new_with_peer_updates (watermark : N) (peer : option (list PeerDelta)) : Acc :=
  mk_Acc ∅ peer watermark.
Definition new (watermark : N) : Acc := new_with_peer_updates watermark None.

Definition with_state (a : Acc) (m : gmap str ToolState) : Acc :=
  mk_Acc m (peer_updates a) (memory_watermark_bytes a).

Definition publish_signal (a : Acc) (d : PeerDelta) : Acc :=
  match peer_updates a with
  | None => a
  | Some sent => mk_Acc (acc_state a) (Some (sent ++ [d])) (memory_watermark_bytes a)
  end.

Definition entry_memory (id : str) (st : ToolState) : N :=
  blen id + blen (ts_task_id st) + blen (ts_name st) + blen (partial_args st)
  + sum_N (map blen (delta_queue st)) + 128.

(** [min_by_key]: the first of the least elements. *)
Fixpoint min_by_activity (best : str * ToolState) (l : list (str * ToolState))
    : str * ToolState :=
  match l with
  | [] => best
  | x :: r =>
      if (last_activity x.2 <? last_activity best.2)%Z then min_by_activity x r
      else min_by_activity best r
  end.

(** The [for ch in partial_json.chars()] loop: the stored text, the flag, and whether the
    truncation signal is raised. *)
Fixpoint push_chars (args : str) (truncated signal : bool) (text : str)
    : str * bool * bool :=
  match text with
  | [] => (args, truncated, signal)
  | ch :: r =>
      let next_len := sat_add usize_max (blen args) (len_utf8 ch) in
      if MAX_STORED_PARTIAL_BYTES <? next_len
      then (args, true, if truncated then signal else true)
      else push_chars (args ++ [ch]) truncated signal r
  end.

Definition push_queue (q : list str) (d : str) : list str :=
  (if N.of_nat (length q) =? MAX_TOOL_DELTA_QUEUE_DEPTH then tail q else q) ++ [d].

Section with_order.
Context `{HashOrder}.

Definition estimate_memory_usage (m : gmap str ToolState) : N :=
  sum_N (map (fun kv => entry_memory kv.1 kv.2) (hash_iter m)).

Definition oldest_pending (m : gmap str ToolState) : option str :=
  match List.filter (fun kv => negb (finished kv.2)) (hash_iter m) with
  | [] => None
  | x :: r => Some (min_by_activity x r).1
  end.

Definition drop_oldest_pending (m : gmap str ToolState) : gmap str ToolState :=
  match oldest_pending m with
  | Some id => delete id m
  | None => m
  end.

Definition over_watermark (a : Acc) (m : gmap str ToolState) : bool :=
  memory_watermark_bytes a <? estimate_memory_usage m.

Definition start_tool (id task_id name : str) (now : Z) (a : Acc)
    : (unit + AccumulationError) * Acc :=
  match acc_state a !! id with
  | Some _ => (inr (DuplicateId id), a)
  | None =>
      let m0 := acc_state a in
      let m := if over_watermark a m0 then drop_oldest_pending m0 else m0 in
      if over_watermark a m0 && over_watermark a m
      then (inr MemoryPressure, with_state a m)
      else
        let st := mk_ToolState id task_id name [] false false [] now in
        (inl tt, publish_signal (with_state a (<[id := st]> m)) (ToolStart id task_id name))
  end.

Definition accumulate (id partial_json : str) (now : Z) (a : Acc)
    : (unit + AccumulationError) * Acc :=
  match acc_state a !! id with
  | None => (inr (UnknownId id), a)
  | Some entry =>
      if negb (is_valid_json_prefix (partial_args entry) partial_json)
      then (inr MalformedPartial, a)
      else
        let '(args, truncated, signal) :=
          push_chars (partial_args entry) (partial_args_truncated entry) false partial_json in
        let entry' :=
          mk_ToolState (ts_id entry) (ts_task_id entry) (ts_name entry) args truncated
            (finished entry) (push_queue (delta_queue entry) partial_json) now in
        let m := <[id := entry']> (acc_state a) in
        let m := if over_watermark a m then drop_oldest_pending m else m in
        let task_id := match m !! id with Some st => ts_task_id st | None => [] end in
        let a := publish_signal (with_state a m) (ToolDelta id task_id partial_json) in
        (inl tt,
         if signal : bool
         then publish_signal a
                (PartialArgsTruncated id (ts_task_id entry) MAX_STORED_PARTIAL_BYTES)
         else a)
  end.

Definition finish (id : str) (now : Z) (a : Acc) : Acc :=
  match acc_state a !! id with
  | None => a
  | Some entry =>
      let entry' :=
        mk_ToolState (ts_id entry) (ts_task_id entry) (ts_name entry) (partial_args entry)
          (partial_args_truncated entry) true (delta_queue entry) now in
      publish_signal (with_state a (<[id := entry']> (acc_state a)))
        (ToolFinish id (ts_task_id entry))
  end.

(** [retain] keeps the entries the predicate accepts; the result is how many went. *)
Definition retain (keep : ToolState -> bool) (a : Acc) : N * Acc :=
  let m := acc_state a in
  let m' := filter (fun kv => keep kv.2 = true) m in
  (N.of_nat (size m) - N.of_nat (size m'), with_state a m').

Definition cleanup_finished (older_than : N) (now : Z) (a : Acc) : N * Acc :=
  let cutoff := (now - Z.of_N older_than)%Z in
  retain (fun st => negb (finished st) || (cutoff <? last_activity st)%Z) a.

Definition cleanup_task (task_id : str) (a : Acc) : N * Acc :=
  retain (fun st => negb (bool_decide (ts_task_id st = task_id))) a.
End with_order.

#[export] Program Instance map_order : HashOrder := {| hash_iter := map_to_list |}.
Next Obligation. done. Qed.

(** ** The JSON prefix check *)
Lemma scan_text_app s a b : scan_text s (a ++ b) = s' ← scan_text s a; scan_text s' b.
Proof.
  revert s. induction a as [|c a IH]; intros s; simpl; [done|].
  destruct (scan_char s c); simpl; [apply IH|done].
Qed.

Lemma valid_prefix_app a b c :
  is_valid_json_prefix a (b ++ c) = true -> is_valid_json_prefix a b = true.
Proof.
  unfold is_valid_json_prefix. rewrite app_assoc, scan_text_app.
  destruct (scan_text scan_start (a ++ b)); done.
Qed.

Definition scan_depths (s : Scan) : Z := brace_depth s + bracket_depth s.

Lemma scan_char_depths s c s' :
  scan_char s c = Some s' -> (0 <= brace_depth s)%Z -> (0 <= bracket_depth s)%Z ->
  (0 <= brace_depth s')%Z /\ (0 <= bracket_depth s')%Z
  /\ (scan_depths s' <= scan_depths s + 1)%Z.
Proof.
  unfold scan_char, scan_depths. intros H H1 H2.
  repeat case_match; simplify_eq; simpl in *; lia.
Qed.

(** The nesting depths stay within the number of characters scanned, so the [i32] counters
    of the code cannot overflow on a text shorter than 2{^31} characters. *)
Lemma scan_depth_bound text s s' :
  scan_text s text = Some s' -> (0 <= brace_depth s)%Z -> (0 <= bracket_depth s)%Z ->
  (0 <= brace_depth s')%Z /\ (0 <= bracket_depth s')%Z
  /\ (scan_depths s' <= scan_depths s + Z.of_nat (length text))%Z.
Proof.
  revert s. induction text as [|c r IH]; intros s H H1 H2; cbn [scan_text] in H.
  - simplify_eq. simpl. lia.
  - destruct (scan_char s c) as [s1|] eqn:E; [|done]. cbn in H.
    destruct (scan_char_depths _ _ _ E H1 H2) as (? & ? & ?).
    destruct (IH s1 H) as (? & ? & ?); [done|done|]. simpl length. lia.
Qed.

(** ** Storing the fragments *)
Lemma push_chars_spec args tr sig text args' tr' sig' :
  push_chars args tr sig text = (args', tr', sig') ->
  blen args <= MAX_STORED_PARTIAL_BYTES ->
  exists k, args' = args ++ take k text /\ blen args' <= MAX_STORED_PARTIAL_BYTES
    /\ (tr' = false -> args' = args ++ text)
    /\ (tr = true -> tr' = true)
    /\ (sig' = true -> sig = true \/ (tr = false /\ tr' = true)).
Proof.
  revert args. induction text as [|c r IH]; intros args; cbn [push_chars].
  - intros [= <- <- <-] Hb. exists 0%nat. cbn [take]. rewrite !app_nil_r. naive_solver.
  - destruct (MAX_STORED_PARTIAL_BYTES <? _) eqn:E.
    + intros [= <- <- <-] Hb. exists 0%nat. cbn [take]. rewrite !app_nil_r. repeat split; auto; [done|].
      destruct tr; auto.
    + intros H Hb. bool_cases.
      assert (blen (args ++ [c]) <= MAX_STORED_PARTIAL_BYTES) as Hb'.
      { rewrite blen_app. simpl. unfold sat_add, MAX_STORED_PARTIAL_BYTES, usize_max, u64_max in *.
        lia. }
      destruct (IH _ H Hb') as (k & -> & Hl & Ht & Hm & Hs).
      exists (S k). rewrite <- !app_assoc in *. cbn [app take] in *. naive_solver.
Qed.

Lemma push_chars_small args tr sig text :
  blen (args ++ text) <= MAX_STORED_PARTIAL_BYTES ->
  push_chars args tr sig text = (args ++ text, tr, sig).
Proof.
  revert args. induction text as [|c r IH]; intros args Hb; cbn [push_chars].
  - by rewrite app_nil_r.
  - rewrite !blen_app in Hb. cbn [blen] in Hb.
    destruct (MAX_STORED_PARTIAL_BYTES <? _) eqn:E; bool_cases.
    + unfold sat_add, MAX_STORED_PARTIAL_BYTES, usize_max, u64_max in *. lia.
    + rewrite IH; [by rewrite <- app_assoc|]. rewrite !blen_app. cbn [blen]. lia.
Qed.

Lemma push_queue_length q d :
  N.of_nat (length q) <= MAX_TOOL_DELTA_QUEUE_DEPTH ->
  N.of_nat (length (push_queue q d)) <= MAX_TOOL_DELTA_QUEUE_DEPTH.
Proof.
  unfold push_queue, MAX_TOOL_DELTA_QUEUE_DEPTH. rewrite length_app. cbn [length].
  destruct (N.eqb_spec (N.of_nat (length q)) 32); [|lia].
  destruct q; simpl in *; lia.
Qed.

(** ** The invariant of the map *)
Definition entry_ok (id : str) (st : ToolState) : Prop :=
  ts_id st = id
  /\ blen (partial_args st) <= MAX_STORED_PARTIAL_BYTES
  /\ N.of_nat (length (delta_queue st)) <= MAX_TOOL_DELTA_QUEUE_DEPTH
  /\ is_valid_json_prefix (partial_args st) [] = true.

Definition acc_ok (a : Acc) : Prop := map_Forall entry_ok (acc_state a).

Lemma publish_state a d : acc_state (publish_signal a d) = acc_state a.
Proof. unfold publish_signal. destruct (peer_updates a) eqn:E; cbn; by rewrite ?E. Qed.

Lemma publish_peers a d :
  peer_updates (publish_signal a d) = (fun sent => sent ++ [d]) <$> peer_updates a.
Proof. unfold publish_signal. destruct (peer_updates a) eqn:E; cbn; by rewrite ?E. Qed.

Section properties.
Context `{HashOrder}.

Lemma elem_of_hash_iter m kv : kv ∈ hash_iter m <-> m !! kv.1 = Some kv.2.
Proof. rewrite hash_iter_perm. destruct kv. apply elem_of_map_to_list. Qed.

Lemma min_by_activity_spec best l :
  min_by_activity best l ∈ best :: l
  /\ forall x, x ∈ best :: l -> (last_activity (min_by_activity best l).2 <= last_activity x.2)%Z.
Proof.
  revert best. induction l as [|y r IH]; intros best; cbn [min_by_activity].
  - split; [set_solver|]. by intros x ->%list_elem_of_singleton.
  - destruct (last_activity y.2 <? last_activity best.2)%Z eqn:E.
    + apply Z.ltb_lt in E. destruct (IH y) as [Hin Hle]. split; [set_solver|].
      intros x Hx. rewrite !elem_of_cons in Hx.
      destruct Hx as [->|Hx]; [etransitivity; [apply (Hle y); set_solver|lia]|].
      apply Hle. set_solver.
    + apply Z.ltb_ge in E. destruct (IH best) as [Hin Hle]. split; [set_solver|].
      intros x Hx. rewrite !elem_of_cons in Hx.
      destruct Hx as [->|[->|Hx]]; [apply Hle; set_solver| |apply Hle; set_solver].
      etransitivity; [apply (Hle best); set_solver|lia].
Qed.

(** Eviction picks an unfinished entry of least activity, and only gives up when every
    entry is finished. *)
Lemma oldest_pending_spec m :
  match oldest_pending m with
  | Some id => exists st, m !! id = Some st /\ finished st = false
      /\ forall id' st', m !! id' = Some st' -> finished st' = false ->
           (last_activity st <= last_activity st')%Z
  | None => forall id st, m !! id = Some st -> finished st = true
  end.
Proof.
  unfold oldest_pending.
  assert (forall kv, kv ∈ List.filter (fun kv => negb (finished kv.2)) (hash_iter m)
            <-> m !! kv.1 = Some kv.2 /\ finished kv.2 = false) as Hin.
  { intros kv. rewrite list_elem_of_In, filter_In, <- list_elem_of_In, elem_of_hash_iter.
    by rewrite negb_true_iff. }
  destruct (List.filter _ _) as [|x r].
  - intros id st Hm. destruct (finished st) eqn:E; [done|].
    assert ((id, st) ∈ @nil (str * ToolState)) as Hx by (by apply Hin). by apply elem_of_nil in Hx.
  - destruct (min_by_activity_spec x r) as [Hmem Hle].
    apply Hin in Hmem as [Hm Hf]. eexists. split; [exact Hm|]. split; [done|].
    intros id' st' Hm' Hf'. apply (Hle (id', st')). by apply Hin.
Qed.

Lemma drop_oldest_subset m : drop_oldest_pending m ⊆ m.
Proof. unfold drop_oldest_pending. destruct (oldest_pending m); [apply delete_subseteq|done]. Qed.

Lemma drop_oldest_Forall (P : str -> ToolState -> Prop) m :
  map_Forall P m -> map_Forall P (drop_oldest_pending m).
Proof.
  intros HP id st Hd. apply HP. eapply lookup_weaken; [exact Hd|apply drop_oldest_subset].
Qed.

Lemma start_tool_ok id task_id name now a :
  acc_ok a -> acc_ok (start_tool id task_id name now a).2.
Proof.
  unfold acc_ok, start_tool. intros Ha. destruct (acc_state a !! id); [done|].
  assert (map_Forall entry_ok (if over_watermark a (acc_state a)
            then drop_oldest_pending (acc_state a) else acc_state a)) as Hm.
  { case_match; auto using drop_oldest_Forall. }
  destruct (over_watermark a (acc_state a) && _); [exact Hm|].
  cbn [snd]. rewrite publish_state. cbn. apply map_Forall_insert_2; [|exact Hm].
  by repeat split.
Qed.

Lemma accumulate_ok id json now a : acc_ok a -> acc_ok (accumulate id json now a).2.
Proof.
  unfold acc_ok, accumulate. intros Ha. destruct (acc_state a !! id) as [e|] eqn:E; [|done].
  destruct (is_valid_json_prefix (partial_args e) json) eqn:V; [|done]. cbn [negb].
  destruct (push_chars _ _ _ json) as [[args tr] sig] eqn:P.
  destruct (Ha _ _ E) as (Hid & Hb & Hq & Hv).
  destruct (push_chars_spec _ _ _ _ _ _ _ P Hb) as (k & -> & Hb' & _).
  set (e' := mk_ToolState _ _ _ _ _ _ _ _).
  assert (map_Forall entry_ok (<[id := e']> (acc_state a))) as Hm.
  { apply map_Forall_insert_2; [|done]. repeat split; [done | done | by apply push_queue_length |].
    unfold e'. cbn [partial_args].
    unfold is_valid_json_prefix in *. rewrite app_nil_r.
    rewrite <- (take_drop k json), app_assoc, scan_text_app in V.
    destruct (scan_text scan_start (partial_args e ++ take k json)); [done|].
    by cbn in V. }
  cbn [snd]. destruct sig; rewrite ?publish_state; cbn;
    case_match; auto using drop_oldest_Forall.
Qed.

Lemma finish_ok id now a : acc_ok a -> acc_ok (finish id now a).
Proof.
  unfold acc_ok, finish. intros Ha. destruct (acc_state a !! id) as [e|] eqn:E; [|done].
  rewrite publish_state. cbn. apply map_Forall_insert_2; [|done]. by apply (Ha _ _ E).
Qed.

Lemma retain_ok keep a : acc_ok a -> acc_ok (retain keep a).2.
Proof.
  unfold acc_ok, retain. cbn. intros Ha id st [Hs _]%map_lookup_filter_Some. by apply Ha.
Qed.
End properties.

(** ** Memory estimates do not depend on the iteration order *)
Section memory.
Context `{HashOrder}.

Definition list_memory (l : list (str * ToolState)) : N :=
  sum_N (map (fun kv => entry_memory kv.1 kv.2) l).

#[local] Instance list_memory_perm : Proper ((≡ₚ) ==> (=)) list_memory.
Proof.
  intros l k Hp. unfold list_memory.
  induction Hp; simpl in *; [done | by rewrite IHHp | lia | congruence].
Qed.

Lemma estimate_canonical m : estimate_memory_usage m = list_memory (map_to_list m).
Proof. unfold estimate_memory_usage. fold (list_memory (hash_iter m)). by rewrite hash_iter_perm. Qed.

Lemma estimate_lookup m id st :
  m !! id = Some st ->
  estimate_memory_usage m = entry_memory id st + estimate_memory_usage (delete id m).
Proof.
  intros Hm. rewrite !estimate_canonical.
  rewrite <- (map_to_list_delete m id st) by done. done.
Qed.

Lemma estimate_insert m id st :
  estimate_memory_usage (<[id := st]> m)
  = entry_memory id st + estimate_memory_usage (delete id m).
Proof. rewrite (estimate_lookup _ id st) by apply lookup_insert_eq. by rewrite delete_insert_eq. Qed.
End memory.

(** The last [n] elements of a list. *)
Definition last_n {A} (n : nat) (l : list A) : list A := drop (length l - n) l.

Lemma last_n_all {A} n (l : list A) : (length l <= n)%nat -> last_n n l = l.
Proof. intros Hl. unfold last_n. by replace (length l - n)%nat with 0%nat by lia. Qed.

Lemma last_n_length {A} n (l : list A) : (length (last_n n l) <= n)%nat.
Proof. unfold last_n. rewrite length_drop. lia. Qed.

Lemma last_n_snoc {A} n (l k : list A) : last_n n (last_n n l ++ k) = last_n n (l ++ k).
Proof.
  unfold last_n at 2. rewrite <- drop_app_le by lia. unfold last_n.
  rewrite drop_drop, length_drop, !length_app. f_equal. lia.
Qed.

Lemma push_queue_last q d :
  N.of_nat (length q) <= MAX_TOOL_DELTA_QUEUE_DEPTH -> push_queue q d = last_n 32 (q ++ [d]).
Proof.
  unfold push_queue, MAX_TOOL_DELTA_QUEUE_DEPTH. intros Hq.
  destruct (N.eqb_spec (N.of_nat (length q)) 32) as [E|E].
  - destruct q as [|x q]; [done|]. unfold last_n. rewrite length_app. cbn [length] in *.
    replace (S (length q) + 1 - 32)%nat with 1%nat by lia. done.
  - rewrite last_n_all; [done|]. rewrite length_app. cbn. lia.
Qed.

(** Feeding the fragments [ds] of one call, each at its own instant. *)
Fixpoint accumulate_all `{HashOrder} (id : str) (ds : list (str * Z)) (a : Acc)
    : list (unit + AccumulationError) * Acc :=
  match ds with
  | [] => ([], a)
  | (d, now) :: r =>
      let '(res, a') := accumulate id d now a in
      let '(rs, a'') := accumulate_all id r a' in
      (res :: rs, a'')
  end.

Definition fragments (ds : list (str * Z)) : str := concat (map fst ds).

Section reassembly.
Context `{HashOrder}.

(** One fragment that fits. *)
Lemma accumulate_fits id d now a e :
  acc_ok a -> acc_state a !! id = Some e ->
  is_valid_json_prefix (partial_args e) d = true ->
  blen (partial_args e ++ d) <= MAX_STORED_PARTIAL_BYTES ->
  estimate_memory_usage (acc_state a) + 2 * blen d <= memory_watermark_bytes a ->
  let e' := mk_ToolState (ts_id e) (ts_task_id e) (ts_name e) (partial_args e ++ d)
              (partial_args_truncated e) (finished e) (last_n 32 (delta_queue e ++ [d])) now in
  accumulate id d now a
  = (inl tt, publish_signal (with_state a (<[id := e']> (acc_state a)))
               (ToolDelta id (ts_task_id e) d))
  /\ estimate_memory_usage (<[id := e']> (acc_state a))
     <= estimate_memory_usage (acc_state a) + 2 * blen d.
Proof.
  intros Ha Hm Hv Hb Hw. destruct (Ha _ _ Hm) as (_ & _ & Hq & _).
  cbv zeta. unfold accumulate. rewrite Hm, Hv. cbn [negb].
  rewrite push_chars_small by done. rewrite push_queue_last by done.
  match goal with |- context [<[id := ?x]> _] => set (e' := x) end.
  assert (estimate_memory_usage (<[id:=e']> (acc_state a))
          <= estimate_memory_usage (acc_state a) + 2 * blen d) as Hle.
  { rewrite estimate_insert, (estimate_lookup _ _ _ Hm).
    unfold e', entry_memory. cbn [ts_task_id ts_name partial_args delta_queue].
    rewrite <- push_queue_last by done.
    assert (sum_N (map blen (push_queue (delta_queue e) d))
            <= sum_N (map blen (delta_queue e)) + blen d).
    { unfold push_queue. rewrite map_app, sum_N_app. cbn [map].
      case_match; [destruct (delta_queue e)|]; simpl; lia. }
    rewrite blen_app. lia. }
  assert (over_watermark a (<[id:=e']> (acc_state a)) = false) as ->.
  { apply N.ltb_ge. lia. }
  rewrite lookup_insert_eq. split; [done|exact Hle].
Qed.

Lemma acc_ok_publish a d m :
  map_Forall entry_ok m -> acc_ok (publish_signal (with_state a m) d).
Proof. unfold acc_ok. by rewrite publish_state. Qed.

Lemma accumulate_all_fits id ds a e :
  acc_ok a -> acc_state a !! id = Some e ->
  is_valid_json_prefix (partial_args e) (fragments ds) = true ->
  blen (partial_args e ++ fragments ds) <= MAX_STORED_PARTIAL_BYTES ->
  estimate_memory_usage (acc_state a) + 2 * blen (fragments ds) <= memory_watermark_bytes a ->
  exists e', (accumulate_all id ds a).1 = map (fun _ => inl tt) ds
    /\ acc_state (accumulate_all id ds a).2 = <[id := e']> (acc_state a)
    /\ partial_args e' = partial_args e ++ fragments ds
    /\ delta_queue e' = last_n 32 (delta_queue e ++ map fst ds)
    /\ partial_args_truncated e' = partial_args_truncated e
    /\ finished e' = finished e
    /\ (ts_id e' = ts_id e /\ ts_task_id e' = ts_task_id e /\ ts_name e' = ts_name e)
    /\ peer_updates (accumulate_all id ds a).2
       = (fun sent => sent ++ map (fun d => ToolDelta id (ts_task_id e) d.1) ds)
           <$> peer_updates a.
Proof.
  revert a e. induction ds as [|[d now] r IH]; intros a e Ha Hm Hv Hb Hw.
  - exists e. cbn. rewrite !app_nil_r, last_n_all
      by (destruct (Ha _ _ Hm) as (_ & _ & Hq & _); unfold MAX_TOOL_DELTA_QUEUE_DEPTH in Hq; lia).
    rewrite insert_id by done. destruct (peer_updates a); cbn; by rewrite ?app_nil_r.
  - unfold fragments in *. cbn [map concat fst] in *. fold (fragments r) in *.
    rewrite !blen_app in *.
    destruct (accumulate_fits id d now a e Ha Hm) as [Heq Hest];
      [by eapply valid_prefix_app | rewrite blen_app; lia | lia |].
    cbn [accumulate_all]. rewrite Heq.
    set (e1 := mk_ToolState _ _ _ _ _ _ _ _) in *.
    set (a1 := publish_signal _ _) in *.
    assert (acc_state a1 = <[id:=e1]> (acc_state a)) as Ha1 by apply publish_state.
    destruct (IH a1 e1) as (e' & Hr & Hs & Hp & Hq & Ht & Hf & (I1 & I2 & I3) & Hu).
    { unfold acc_ok. rewrite Ha1. pose proof (accumulate_ok id d now a Ha) as Hok.
      rewrite Heq in Hok. unfold acc_ok in Hok. cbn [snd] in Hok. by rewrite Ha1 in Hok. }
    { rewrite Ha1. apply lookup_insert_eq. }
    { unfold is_valid_json_prefix, e1 in *. cbn [partial_args]. by rewrite <- app_assoc. }
    { unfold e1. cbn [partial_args]. rewrite !blen_app. lia. }
    { rewrite Ha1. unfold a1. assert (memory_watermark_bytes (publish_signal
        (with_state a (<[id:=e1]> (acc_state a))) (ToolDelta id (ts_task_id e) d))
        = memory_watermark_bytes a) as -> by (unfold publish_signal; by destruct (peer_updates _)).
      lia. }
    exists e'. destruct (accumulate_all id r a1) as [rs a2]. cbn [fst snd] in *.
    rewrite Hr, Hs, Ha1, insert_insert_eq, Hp, Hq, Ht, Hf, I1, I2, I3, Hu. unfold e1, a1.
    cbn [ts_id ts_name partial_args delta_queue partial_args_truncated finished ts_task_id map fst].
    rewrite last_n_snoc, <- !app_assoc.
    repeat split. unfold publish_signal, with_state. cbn [peer_updates].
    destruct (peer_updates a); cbn; [|done]. by rewrite <- app_assoc.
Qed.
End reassembly.

(** ** Properties *)

(** The operations of the accumulator, at any arguments and instants. *)
Inductive acc_step `{HashOrder} : Acc -> Acc -> Prop :=
| step_start id task_id name now a : acc_step a (start_tool id task_id name now a).2
| step_accumulate id json now a : acc_step a (accumulate id json now a).2
| step_finish id now a : acc_step a (finish id now a)
| step_cleanup_finished older now a : acc_step a (cleanup_finished older now a).2
| step_cleanup_task task_id a : acc_step a (cleanup_task task_id a).2.

Lemma acc_step_ok `{HashOrder} a a' : acc_step a a' -> acc_ok a -> acc_ok a'.
Proof.
  destruct 1; intros Ha;
    [by apply start_tool_ok | by apply accumulate_ok | by apply finish_ok
    | by apply retain_ok | by apply retain_ok].
Qed.

(** In every state the accumulator can reach from a fresh one, by any sequence of its
    operations under any map iteration order, each entry is stored under its own id, its
    stored arguments are at most 64 KiB, its queue holds at most 32 fragments, and its stored
    arguments pass the JSON prefix check. *)
Theorem acc_reachable_invariant `{HashOrder} watermark peer a :
  rtc acc_step (new_with_peer_updates watermark peer) a -> acc_ok a.
Proof.
  intros Hr.
  assert (acc_ok (new_with_peer_updates watermark peer)) as Hok by apply map_Forall_empty.
  induction Hr; eauto using acc_step_ok.
Qed.

Example acc_reachable_invariant_witness :
  acc_ok (accumulate t!"tx_1" t!"[1," 3 (start_tool t!"tx_1" t!"task" t!"edit_file" 1
            (new 1000)).2).2.
Proof.
  apply (acc_reachable_invariant 1000 None).
  eapply rtc_l; [apply step_start|]. eapply rtc_l; [apply step_accumulate|]. apply rtc_refl.
Defined.

(** A call that is started, streamed in fragments and finished ends up holding exactly
    the concatenation of its fragments (and the last 32 of them in its queue), marked
    finished and not truncated, while every other entry is untouched and the peers are told
    start, each fragment and finish, in order; provided the id is new, the text is within the
    limits and a JSON prefix, and the memory watermark leaves room. *)
Theorem streamed_call_reassembled `{HashOrder} id task_id name ds t0 t1 a :
  acc_ok a -> acc_state a !! id = None ->
  is_valid_json_prefix [] (fragments ds) = true ->
  blen (fragments ds) <= MAX_STORED_PARTIAL_BYTES ->
  estimate_memory_usage (acc_state a) + entry_memory id (mk_ToolState id task_id name [] false false [] t0)
    + 2 * blen (fragments ds) <= memory_watermark_bytes a ->
  let '(r0, a0) := start_tool id task_id name t0 a in
  let '(rs, a1) := accumulate_all id ds a0 in
  let a2 := finish id t1 a1 in
  r0 = inl tt /\ rs = map (fun _ => inl tt) ds
  /\ (exists q, acc_state a2
      = <[id := mk_ToolState id task_id name (fragments ds) false true q t1]> (acc_state a)
      /\ q = last_n 32 (map fst ds))
  /\ peer_updates a2
     = (fun sent => sent ++ ToolStart id task_id name
          :: map (fun d => ToolDelta id task_id d.1) ds ++ [ToolFinish id task_id])
       <$> peer_updates a.
Proof.
  intros Ha Hid Hv Hb Hw.
  assert (over_watermark a (acc_state a) = false) as Ho by (apply N.ltb_ge; lia).
  set (st := mk_ToolState id task_id name [] false false [] t0) in *.
  set (a0 := publish_signal (with_state a (<[id := st]> (acc_state a)))
               (ToolStart id task_id name)).
  assert (start_tool id task_id name t0 a = (inl tt, a0)) as ->.
  { unfold start_tool. by rewrite Hid, Ho. }
  assert (acc_state a0 = <[id := st]> (acc_state a)) as H0 by apply publish_state.
  assert (memory_watermark_bytes a0 = memory_watermark_bytes a) as Hmw.
  { unfold a0, publish_signal. by destruct (peer_updates _). }
  destruct (accumulate_all_fits id ds a0 st) as (e & Hr & Hs & Hp & Hq & Ht & Hf & (I1 & I2 & I3) & Hu); auto.
  { unfold acc_ok. rewrite H0. apply map_Forall_insert_2; [by repeat split|exact Ha]. }
  { rewrite H0. apply lookup_insert_eq. }
  { rewrite H0, Hmw, estimate_insert, delete_id by done. lia. }
  destruct (accumulate_all id ds a0) as [rs a1]. cbn [fst snd] in *.
  split; [done|]. split; [done|].
  unfold finish. rewrite Hs, lookup_insert_eq. split.
  - exists (last_n 32 (map fst ds)). rewrite publish_state. cbn [acc_state with_state].
    rewrite H0, !insert_insert_eq, Hp, Ht, I1, I2, I3, Hq. done.
  - rewrite publish_peers. cbn [peer_updates with_state]. rewrite Hu.
    unfold a0. rewrite publish_peers. cbn [peer_updates with_state ts_task_id st].
    rewrite I2. destruct (peer_updates a); cbn; [|done]. by rewrite <- !app_assoc.
Qed.

Example streamed_call_reassembled_witness :
  let ds := [(t!"{x", 2%Z); (t!"}", 3%Z)] in
  let '(r0, a0) := start_tool t!"tx_1" t!"task" t!"edit" 1 (new 100000) in
  let '(rs, a1) := accumulate_all t!"tx_1" ds a0 in
  let a2 := finish t!"tx_1" 4 a1 in
  r0 = inl tt /\ rs = map (fun _ => inl tt) ds
  /\ (exists q, acc_state a2
      = <[t!"tx_1" := mk_ToolState t!"tx_1" t!"task" t!"edit" (fragments ds) false true q 4]> ∅
      /\ q = last_n 32 (map fst ds))
  /\ peer_updates a2
     = (fun sent => sent ++ ToolStart t!"tx_1" t!"task" t!"edit"
          :: map (fun d => ToolDelta t!"tx_1" t!"task" d.1) ds
             ++ [ToolFinish t!"tx_1" t!"task"]) <$> (peer_updates (new 100000)).
Proof.
  cbv zeta. apply (streamed_call_reassembled t!"tx_1" t!"task" t!"edit"
                     [(t!"{x", 2%Z); (t!"}", 3%Z)] 1 4 (new 100000));
    [apply map_Forall_empty | reflexivity | reflexivity | vm_compute; done | vm_compute; done].
Defined.

(** Starting a call has exactly three outcomes.  A known id is refused and nothing
    changes; under memory pressure the call is refused and nothing is inserted or announced;
    otherwise a fresh unfinished entry is inserted and announced.  In the last two at most one
    older entry is evicted, only when the estimate exceeds the watermark, and it is an
    unfinished entry of least activity. *)
Theorem start_tool_outcomes `{HashOrder} id task_id name now a :
  let m := acc_state a in
  let evicted (m' : gmap str ToolState) :=
    m' = m \/ over_watermark a m = true /\ exists old st, m !! old = Some st
      /\ finished st = false /\ m' = delete old m
      /\ forall id' st', m !! id' = Some st' -> finished st' = false ->
           (last_activity st <= last_activity st')%Z in
  match start_tool id task_id name now a with
  | (inr (DuplicateId i), a') => i = id /\ is_Some (m !! id) /\ a' = a
  | (inr MemoryPressure, a') =>
      m !! id = None /\ peer_updates a' = peer_updates a /\ evicted (acc_state a')
      /\ over_watermark a (acc_state a') = true
  | (inl _, a') =>
      m !! id = None
      /\ (exists m', evicted m' /\ over_watermark a m' = false
            /\ acc_state a' = <[id := mk_ToolState id task_id name [] false false [] now]> m')
      /\ peer_updates a'
         = (fun sent => sent ++ [ToolStart id task_id name]) <$> peer_updates a
  | (inr (UnknownId _), _) | (inr MalformedPartial, _) => False
  end.
Proof.
  cbv zeta. unfold start_tool. destruct (acc_state a !! id) as [e|] eqn:Hid; [naive_solver|].
  set (m0 := acc_state a).
  set (m1 := if over_watermark a m0 then drop_oldest_pending m0 else m0).
  assert (m1 = m0 \/ over_watermark a m0 = true /\ exists old st, m0 !! old = Some st
      /\ finished st = false /\ m1 = delete old m0
      /\ forall id' st', m0 !! id' = Some st' -> finished st' = false ->
           (last_activity st <= last_activity st')%Z) as Hev.
  { unfold m1. destruct (over_watermark a m0) eqn:Ho; [|by left].
    unfold drop_oldest_pending. pose proof (oldest_pending_spec m0) as Hold.
    destruct (oldest_pending m0) as [old|]; [|by left].
    destruct Hold as (st & Hm & Hf & Hle). right. split; [done|]. exists old, st. done. }
  destruct (over_watermark a m0) eqn:Ho; cbn [andb].
  - destruct (over_watermark a m1) eqn:Ho1; [done|].
    rewrite publish_peers, publish_state. split; [done|]. split; [by exists m1 | done].
  - rewrite publish_peers, publish_state. split; [done|]. split; [|done].
    exists m1. split; [exact Hev|]. unfold m1. by rewrite Ho.
Qed.
