(* ===== verification/TextNormaliser.v ===== *)
(** Tool calls written as text: src/api/stream/text_normaliser.rs.

    [find] returns byte offsets in the code and every slice is taken at an offset it
    returned (plus the width of an ASCII tag), so here an offset counts [char]s. *)
From Stdlib Require Import NArith ZArith Lia.
From stdpp Require Import base list sets strings numbers.
From S2P Require Import Prelude Text Collections Json.
#[local] Open Scope nat_scope.

Inductive NormalisedChunk : Type :=
| Text (t : str)
| TaggedToolCall (name : str) (input : value).

(** [StreamTextNormaliser] has the one field [pending]. *)
Definition StreamTextNormaliser : Type := str.

Definition FUNCTION_OPEN : str := t!"<function=".
Definition FUNCTION_CLOSE : str := t!"</function>".
Definition TOOL_CALL_OPEN : str := t!"<tool_call>".
Definition TOOL_CALL_CLOSE : str := t!"</tool_call>".
Definition PARAMETER_OPEN : str := t!"<parameter=".
Definition PARAMETER_CLOSE : str := t!"</parameter>".
Definition GT : char := 62%N.
Definition LT : char := 60%N.
Definition SQUOTE : char := 39%N.

(** [&s[i..j]]: panics when the range is decreasing or runs past the end. *)
Definition slice (i j : nat) (s : str) : outcome str :=
  if (i <=? j) && (j <=? length s) then Returns (take (j - i) (drop i s)) else Panics.

Definition push_text_chunk (chunks : list NormalisedChunk) (text : str)
    : list NormalisedChunk :=
  if is_empty text then chunks else chunks ++ [Text text].

Definition strip_tool_call_wrappers (text : str) : str :=
  replace TOOL_CALL_CLOSE [] (replace TOOL_CALL_OPEN [] text).

(** The loop over the occurrences of the tag; every turn starts further right. *)
Fixpoint find_hermes_from (fuel : nat) (text : str) (search_from : nat) : option nat :=
  match fuel with
  | O => None
  | S fuel =>
      rel ← find_str TOOL_CALL_OPEN (drop search_from text);
      let abs := search_from + rel in
      let after_tag := drop (abs + length TOOL_CALL_OPEN) text in
      if starts_with t!"{" (trim_start after_tag) then Some abs
      else find_hermes_from fuel text (abs + 1)
  end.
Definition find_hermes_json_tool_call (text : str) : option nat :=
  find_hermes_from (S (length text)) text 0.

Definition PARTIAL_TAG_CANDIDATES : list str :=
  [t!"<function="; t!"<function"; t!"</function>"; t!"</function"; t!"<parameter=";
   t!"<parameter"; t!"</parameter>"; t!"</parameter"; t!"<tool_call>"; t!"<tool_call";
   t!"</tool_call>"; t!"</tool_call"].
Definition looks_like_partial_tool_tag (suffix : str) : bool :=
  let suffix := to_ascii_lowercase suffix in
  existsb (fun candidate => starts_with suffix candidate) PARTIAL_TAG_CANDIDATES.

Definition split_incomplete_tool_tag_suffix (text : str) : str * str :=
  match rfind_char LT text with
  | None => (text, [])
  | Some last_open =>
      let suffix := drop last_open text in
      if looks_like_partial_tool_tag suffix then (take last_open text, suffix) else (text, [])
  end.

Definition strip_incomplete_tool_tag_suffix (text : str) : str :=
  match rfind_char LT text with
  | None => text
  | Some last_open =>
      let suffix := drop last_open text in
      if looks_like_partial_tool_tag suffix then take last_open text else text
  end.

(** [if value.starts_with('\n') { value.remove(0) }], then the same at the end. *)
Definition normalize_tagged_parameter_value (raw : str) : str :=
  let value := replace [CR; LF] [LF] raw in
  let value := match value with c :: r => if (c =? LF)%N then r else value | [] => [] end in
  match reverse value with c :: r => if (c =? LF)%N then reverse r else value | [] => [] end.

(** [s.parse::<i64>()]: an optional sign, at least one digit, within range. *)
Definition parse_i64 (s : str) : option Z :=
  let max := 9223372036854775807%N in
  match s with
  | c :: r =>
      if (c =? 45)%N then
        match r with
        | [] => None
        | _ => v ← digits_value 0 r; if (v <=? max + 1)%N then Some (- Z.of_N v)%Z else None
        end
      else Z.of_N <$> parse_uint max s
  | [] => None
  end.

(** [serde_json::Number] of an [i64]: the non-negative ones are stored as [u64]. *)
Definition number_of_i64 (z : Z) : number :=
  if (0 <=? z)%Z then PosInt (Z.to_N z) else NegInt z.

Section with_json.
Context `{SerdeJson}.

Definition tagged_parameter_json_value (raw : str) : value :=
  let v := normalize_tagged_parameter_value raw in
  let trimmed := trim v in
  if is_empty trimmed then String v
  else
    match json_from_str trimmed with
    | Some (String _) | None =>
        match parse_uint u64_max trimmed with
        | Some n => Number (PosInt n)
        | None =>
            match parse_i64 trimmed with
            | Some z => Number (number_of_i64 z)
            | None =>
                match parse_f64 trimmed with
                | Some x => if f64_is_finite x then Number (Float x) else String v
                | None => String v
                end
            end
        end
    | Some parsed => parsed
    end.

(** One turn of the loop handles the parameter found at [parameter_start]; the cursor
    strictly advances, so the length of the body bounds the turns. *)
Fixpoint parse_parameters_from (fuel : nat) (body : str) (cursor : nat)
    (input : list (str * value)) : list (str * value) :=
  match fuel with
  | O => input
  | S fuel =>
      match find_str PARAMETER_OPEN (drop cursor body) with
      | None => input
      | Some rel =>
          let parameter_start := cursor + rel in
          let key_start := parameter_start + length PARAMETER_OPEN in
          match find_char GT (drop key_start body) with
          | None => input
          | Some key_end_rel =>
              let key_end := key_start + key_end_rel in
              let key := trim_char SQUOTE (trim_char DQUOTE
                           (trim (take key_end_rel (drop key_start body)))) in
              let value_start := key_end + 1 in
              let parameter_close :=
                (fun r => value_start + r) <$> find_str PARAMETER_CLOSE (drop value_start body) in
              let next_parameter :=
                (fun r => value_start + r) <$> find_str PARAMETER_OPEN (drop value_start body) in
              let '(value_end, next_cursor) :=
                match parameter_close, next_parameter with
                | Some close, Some next =>
                    if next <? close then (next, next)
                    else (close, close + length PARAMETER_CLOSE)
                | Some close, None => (close, close + length PARAMETER_CLOSE)
                | None, Some next => (next, next)
                | None, None => (length body, length body)
                end in
              let input :=
                if is_empty key then input
                else im_insert key (tagged_parameter_json_value
                       (take (value_end - value_start) (drop value_start body))) input in
              parse_parameters_from fuel body
                (Nat.max next_cursor (parameter_start + 1)) input
          end
      end
  end.
Definition parse_tagged_parameters (body : str) : list (str * value) :=
  parse_parameters_from (S (length body)) body 0 [].

(** The body is [&raw[name_end + 1..raw.len() - "</function>".len()]]. *)
Definition parse_single_tagged_tool_call (raw : str) : outcome (option (str * value)) :=
  let name_start := length FUNCTION_OPEN in
  match find_char GT (drop name_start raw) with
  | None => Returns None
  | Some name_end_rel =>
      let name_end := name_start + name_end_rel in
      let name := trim_char SQUOTE (trim_char DQUOTE
                    (trim (take name_end_rel (drop name_start raw)))) in
      if is_empty name then Returns None
      else
        body ← slice (name_end + 1) (length raw - length FUNCTION_CLOSE) raw;
        match parse_tagged_parameters body with
        | (_ :: _) as params => Returns (Some (name, Object params))
        | [] =>
            let trimmed_body := trim body in
            Returns (
              if starts_with t!"{" trimmed_body then
                match json_from_str trimmed_body with
                | Some (Object m) => Some (name, Object m)
                | _ => Some (name, Object [])
                end
              else Some (name, Object []))
        end
  end.

Definition parse_hermes_json_tool_call (content : str) : option (str * value) :=
  obj ← json_from_str content;
  name ← trim <$> (value_get t!"name" obj ≫= as_str);
  if is_empty name then None
  else
    let input :=
      match value_get t!"arguments" obj with
      | Some (String s) => unwrap_or (json_from_str s) (Object [])
      | Some v => v
      | None => Object []
      end in
    Some (name, input).

(** [while remaining[next_cursor..].starts_with("</tool_call>")]. *)
Fixpoint skip_tool_call_close (fuel : nat) (s : str) : str :=
  match fuel with
  | O => s
  | S fuel =>
      match strip_prefix TOOL_CALL_CLOSE s with
      | Some r => skip_tool_call_close fuel r
      | None => s
      end
  end.

(** The loop of [normalise] over [pending].  Every turn that continues consumes at least a
    closing tag ([normalise_loop_enough]). *)
Fixpoint normalise_loop (fuel : nat) (pending : str) (chunks : list NormalisedChunk)
    : outcome (list NormalisedChunk * str) :=
  match fuel with
  | O => Returns (chunks, pending)
  | S fuel =>
      let function_start := find_str FUNCTION_OPEN pending in
      let hermes_start := find_hermes_json_tool_call pending in
      let take_hermes :=
        match function_start, hermes_start with
        | _, None => None
        | None, Some hs => Some hs
        | Some fs, Some hs => if hs <? fs then Some hs else None
        end in
      match take_hermes with
      | Some hs =>
          let chunks := push_text_chunk chunks (strip_tool_call_wrappers (take hs pending)) in
          let remaining := drop hs pending in
          let content_start := length TOOL_CALL_OPEN in
          match find_str TOOL_CALL_CLOSE remaining with
          | None => Returns (chunks, remaining)
          | Some close_rel =>
              content ← slice content_start close_rel remaining;
              let chunks :=
                match parse_hermes_json_tool_call (trim content) with
                | Some (name, input) => chunks ++ [TaggedToolCall name input]
                | None => chunks
                end in
              normalise_loop fuel (drop (close_rel + length TOOL_CALL_CLOSE) remaining) chunks
          end
      | None =>
          match function_start with
          | None =>
              let '(text_prefix, pending_suffix) := split_incomplete_tool_tag_suffix pending in
              Returns (push_text_chunk chunks (strip_tool_call_wrappers text_prefix),
                       pending_suffix)
          | Some fs =>
              let chunks := push_text_chunk chunks (strip_tool_call_wrappers (take fs pending)) in
              let remaining := drop fs pending in
              match find_str FUNCTION_CLOSE remaining with
              | None => Returns (chunks, remaining)
              | Some function_close_rel =>
                  let function_end := function_close_rel + length FUNCTION_CLOSE in
                  let raw_function := take function_end remaining in
                  parsed ← parse_single_tagged_tool_call raw_function;
                  let chunks :=
                    match parsed with
                    | Some (name, input) => chunks ++ [TaggedToolCall name input]
                    | None => push_text_chunk chunks (strip_tool_call_wrappers raw_function)
                    end in
                  normalise_loop fuel
                    (skip_tool_call_close (length remaining) (drop function_end remaining)) chunks
              end
          end
      end
  end.

Definition normalise (text : str) : PST StreamTextNormaliser (list NormalisedChunk) :=
  fun pending =>
    if is_empty text then Returns ([], pending)
    else
      let pending := pending ++ text in
      normalise_loop (S (length pending)) pending [].
End with_json.

Definition finish : ST StreamTextNormaliser (list NormalisedChunk) := fun pending =>
  let text := strip_tool_call_wrappers (strip_incomplete_tool_tag_suffix pending) in
  (if is_empty text then [] else [Text text], []).

(** ** The transcript of a list of chunks

    Where the text is cut into chunks does not matter to the reader of the stream: only the
    characters and the calls, in order. *)
Definition chunk_items (c : NormalisedChunk) : list (char + str * value) :=
  match c with
  | Text t => map inl t
  | TaggedToolCall name input => [inr (name, input)]
  end.
Definition transcript (cs : list NormalisedChunk) : list (char + str * value) :=
  concat (map chunk_items cs).

Lemma transcript_app a b : transcript (a ++ b) = transcript a ++ transcript b.
Proof. unfold transcript. by rewrite map_app, concat_app. Qed.

Lemma transcript_push cs t : transcript (push_text_chunk cs t) = transcript cs ++ map inl t.
Proof.
  unfold push_text_chunk. destruct t; cbn [is_empty]; [by rewrite app_nil_r|].
  rewrite transcript_app. unfold transcript at 2. cbn. by rewrite app_nil_r.
Qed.

Lemma push_text_chunk_app cs t : push_text_chunk cs t = cs ++ push_text_chunk [] t.
Proof. unfold push_text_chunk. destruct (is_empty t); [by rewrite app_nil_r | done]. Qed.

(** ** The tail of an incomplete tag *)
Lemma looks_like_partial_app s t :
  looks_like_partial_tool_tag (s ++ t) = true -> looks_like_partial_tool_tag s = true.
Proof.
  unfold looks_like_partial_tool_tag, to_ascii_lowercase. rewrite map_app, !existsb_exists.
  intros (c & Hc & [r Hr]%starts_with_spec). exists c. split; [done|].
  apply starts_with_spec. rewrite <- app_assoc in Hr. eauto.
Qed.

Lemma looks_like_partial_tool_tag_length s :
  looks_like_partial_tool_tag s = true -> length s <= length TOOL_CALL_CLOSE.
Proof.
  unfold looks_like_partial_tool_tag. rewrite existsb_exists.
  intros (c & Hc & [r Hr]%starts_with_spec). apply (f_equal length) in Hr.
  rewrite length_app in Hr. unfold to_ascii_lowercase in Hr. rewrite length_map in Hr.
  assert (length c <= length TOOL_CALL_CLOSE); [|lia].
  revert c Hc Hr. assert (Forall (fun c => length c <= length TOOL_CALL_CLOSE)
    PARTIAL_TAG_CANDIDATES) as Hf by (repeat constructor; cbn; lia).
  intros c Hc _. rewrite List.Forall_forall in Hf. auto.
Qed.

Lemma split_eq s :
  s = (split_incomplete_tool_tag_suffix s).1 ++ (split_incomplete_tool_tag_suffix s).2.
Proof.
  unfold split_incomplete_tool_tag_suffix.
  destruct (rfind_char LT s); [|by rewrite app_nil_r].
  destruct (looks_like_partial_tool_tag _); cbn; [by rewrite take_drop | by rewrite app_nil_r].
Qed.

Lemma split_no_open s : LT ∉ s -> split_incomplete_tool_tag_suffix s = (s, []).
Proof. intros H%rfind_char_None. unfold split_incomplete_tool_tag_suffix. by rewrite H. Qed.

Lemma split_last a b :
  LT ∉ b ->
  split_incomplete_tool_tag_suffix (a ++ LT :: b)
  = if looks_like_partial_tool_tag (LT :: b) then (a, LT :: b) else (a ++ LT :: b, []).
Proof.
  intros H. unfold split_incomplete_tool_tag_suffix.
  by rewrite (rfind_char_split _ _ _ H), drop_app_length, take_app_length.
Qed.

Lemma strip_is_split s :
  strip_incomplete_tool_tag_suffix s = (split_incomplete_tool_tag_suffix s).1.
Proof.
  unfold strip_incomplete_tool_tag_suffix, split_incomplete_tool_tag_suffix.
  destruct (rfind_char LT s); [|done]. by destruct (looks_like_partial_tool_tag _).
Qed.

(** The last opening bracket decides: a text has none, or is cut at it. *)
Lemma last_open s : LT ∉ s \/ exists a b, s = a ++ LT :: b /\ LT ∉ b.
Proof.
  destruct (rfind_char LT s) as [i|] eqn:E.
  - right. apply rfind_char_Some in E as (a & b & -> & _ & Hb). eauto.
  - left. by apply rfind_char_None.
Qed.

(** Splitting more text: what was held back is split again together with the new text. *)
Lemma split_app e q t :
  split_incomplete_tool_tag_suffix (e ++ q) = (e, q) ->
  split_incomplete_tool_tag_suffix (e ++ q ++ t)
  = (e ++ (split_incomplete_tool_tag_suffix (q ++ t)).1,
     (split_incomplete_tool_tag_suffix (q ++ t)).2).
Proof.
  intros Hs. destruct (last_open (q ++ t)) as [Hn|(a & b & E & Hb)].
  - rewrite (split_no_open _ Hn). cbn.
    destruct (last_open e) as [He|(a & b & -> & Hb)].
    + apply split_no_open. set_solver.
    + rewrite <- (app_assoc a). cbn [app].
      rewrite split_last by set_solver.
      destruct (looks_like_partial_tool_tag (LT :: b ++ q ++ t)) eqn:P; [|done].
      exfalso. rewrite app_assoc in P. rewrite app_comm_cons in P.
      apply looks_like_partial_app in P.
      rewrite <- (app_assoc a) in Hs. cbn [app] in Hs.
      rewrite split_last, P in Hs by set_solver.
      injection Hs as Ha Hq. symmetry in Ha. apply (f_equal length) in Ha.
      rewrite length_app in Ha. cbn in Ha. lia.
  - rewrite E, app_assoc, !split_last by done.
    by destruct (looks_like_partial_tool_tag (LT :: b)); cbn; rewrite ?app_assoc.
Qed.

Lemma split_snd s e q : split_incomplete_tool_tag_suffix s = (e, q) ->
  s = e ++ q /\ (q = [] \/ exists b, q = LT :: b /\ LT ∉ b /\ looks_like_partial_tool_tag q = true).
Proof.
  intros H. split; [by rewrite (split_eq s), H|].
  destruct (last_open s) as [Hn|(a & b & -> & Hb)].
  - rewrite (split_no_open _ Hn) in H. injection H as <- <-. by left.
  - rewrite (split_last _ _ Hb) in H.
    destruct (looks_like_partial_tool_tag (LT :: b)) eqn:P; injection H as <- <-; [|by left].
    right. exists b. done.
Qed.

(** What is held back never produces text at the end of the stream. *)
Lemma strip_held s e q :
  split_incomplete_tool_tag_suffix s = (e, q) -> strip_incomplete_tool_tag_suffix q = [].
Proof.
  intros [_ [->|(b & -> & Hb & P)]]%split_snd; [done|].
  rewrite strip_is_split. change (LT :: b) with ([] ++ LT :: b). rewrite split_last by done.
  cbn in *. by rewrite P.
Qed.

(** ** The loop *)
Lemma slice_length i j s r : slice i j s = Returns r -> r = take (j - i) (drop i s).
Proof. unfold slice. case_match; congruence. Qed.

Lemma skip_tool_call_close_eq n s :
  exists k, s = concat (replicate k TOOL_CALL_CLOSE) ++ skip_tool_call_close n s.
Proof.
  revert s. induction n as [|n IH]; intros s; [by exists 0|]. cbn [skip_tool_call_close].
  destruct (strip_prefix TOOL_CALL_CLOSE s) as [r|] eqn:E; [|by exists 0].
  apply strip_prefix_Some in E as ->. destruct (IH r) as [k Hk]. exists (S k).
  cbn [replicate concat]. by rewrite <- app_assoc, <- Hk.
Qed.

Lemma skip_tool_call_close_length n s : length (skip_tool_call_close n s) <= length s.
Proof.
  destruct (skip_tool_call_close_eq n s) as [k Hk].
  apply (f_equal length) in Hk. rewrite length_app in Hk. lia.
Qed.

Section loop.
Context `{SerdeJson}.

(** Where a continuing turn leaves [pending]. *)
Lemma after_hermes_shorter hs close p :
  find_str TOOL_CALL_CLOSE (drop hs p) = Some close ->
  length (drop (close + length TOOL_CALL_CLOSE) (drop hs p)) < length p.
Proof.
  intros Hf%find_str_length. rewrite !length_drop in *. cbn in *. lia.
Qed.

Lemma after_function_shorter n fs close p :
  find_str FUNCTION_CLOSE (drop fs p) = Some close ->
  length (skip_tool_call_close n (drop (close + length FUNCTION_CLOSE) (drop fs p))) < length p.
Proof.
  intros Hf%find_str_length. eapply Nat.le_lt_trans; [apply skip_tool_call_close_length|].
  rewrite !length_drop in *. cbn in *. lia.
Qed.

Lemma normalise_loop_fuel f f' p cs :
  length p < f -> length p < f' -> normalise_loop f p cs = normalise_loop f' p cs.
Proof.
  revert f' p cs. induction f as [|f IH]; intros f' p cs Hf Hf'; [lia|].
  destruct f' as [|f']; [lia|]. cbn [normalise_loop].
  assert (forall x cs', length x < length p ->
    normalise_loop f x cs' = normalise_loop f' x cs') as Hrec by (intros; apply IH; lia).
  repeat case_match; try done;
    try (unfold mbind, outcome_bind; case_match; [|done]);
    apply Hrec; eauto using after_hermes_shorter, after_function_shorter.
Qed.

(** The chunks are only appended to. *)
Lemma normalise_loop_acc f p cs a :
  normalise_loop f p (cs ++ a)
  = (fun r : list NormalisedChunk * str => (cs ++ r.1, r.2)) <$> normalise_loop f p a.
Proof.
  revert p a. induction f as [|f IH]; intros p a; cbn [normalise_loop]; [done|].
  assert (forall a t, push_text_chunk (cs ++ a) t = cs ++ push_text_chunk a t) as Hpush.
  { intros a' t. by rewrite push_text_chunk_app, (push_text_chunk_app a'), app_assoc. }
  rewrite ?Hpush.
  repeat case_match; try done;
    try (unfold mbind, outcome_bind; repeat case_match; try done);
    rewrite ?Hpush, <- ?(app_assoc cs), ?Hpush; done || apply IH.
Qed.
End loop.

(** ** Draining

    What a text yields when it arrives in one piece and the stream ends.  Without a
    [<tool_call>] in the text, it has a reading of its own, which later arrivals only
    extend. *)
Definition no_open (p : str) : Prop := find_str TOOL_CALL_OPEN p = None.
Definition visible (t : str) : list (char + str * value) :=
  map inl (replace TOOL_CALL_CLOSE [] t).

Lemma no_open_infix a b c : no_open (a ++ b ++ c) -> no_open b.
Proof. apply find_str_None_infix. Qed.
Lemma no_open_l a b : no_open (a ++ b) -> no_open a.
Proof. apply (no_open_infix []). Qed.
Lemma no_open_r a b : no_open (a ++ b) -> no_open b.
Proof. intros H. apply (no_open_infix a b []). by rewrite app_nil_r. Qed.
Lemma no_open_take n p : no_open p -> no_open (take n p).
Proof. intros H. apply (no_open_l _ (drop n p)). by rewrite take_drop. Qed.
Lemma no_open_drop n p : no_open p -> no_open (drop n p).
Proof. intros H. apply (no_open_r (take n p)). by rewrite take_drop. Qed.

Lemma strip_no_open p : no_open p -> map inl (strip_tool_call_wrappers p) = visible p.
Proof. intros H. unfold strip_tool_call_wrappers. by rewrite (replace_absent TOOL_CALL_OPEN). Qed.

Lemma find_hermes_no_open p : no_open p -> find_hermes_json_tool_call p = None.
Proof.
  intros H. unfold find_hermes_json_tool_call. cbn [find_hermes_from]. rewrite drop_0.
  unfold no_open in H. by rewrite H.
Qed.

Lemma transcript_finish q : no_open q ->
  transcript (finish q).1 = visible (strip_incomplete_tool_tag_suffix q).
Proof.
  intros H. rewrite <- strip_no_open.
  - unfold finish, transcript. cbn. destruct (strip_tool_call_wrappers _); [done|].
    cbn. by rewrite app_nil_r.
  - rewrite strip_is_split. apply (no_open_l _ (split_incomplete_tool_tag_suffix q).2).
    by rewrite <- split_eq.
Qed.

#[local] Hint Resolve no_open_take no_open_drop : vex.

Section drain.
Context `{SerdeJson}.

Definition close_out (r : list NormalisedChunk * str) : list (char + str * value) :=
  transcript (r.1 ++ (finish r.2).1).
Definition drain (p : str) : outcome (list (char + str * value)) :=
  close_out <$> normalise_loop (S (length p)) p [].

Definition call_items (raw : str) (parsed : option (str * value))
    : list (char + str * value) :=
  match parsed with
  | Some call => [inr call]
  | None => visible raw
  end.

Lemma drain_loop f p cs :
  length p < f ->
  close_out <$> normalise_loop f p cs = app (transcript cs) <$> drain p.
Proof.
  intros Hf. rewrite (normalise_loop_fuel f (S (length p))) by lia.
  rewrite <- (app_nil_r cs) at 1. rewrite normalise_loop_acc. unfold drain.
  destruct (normalise_loop _ _ _) as [[c q]|]; [|done].
  unfold fmap, outcome_fmap, close_out. cbn [fst snd].
  by rewrite <- app_assoc, (transcript_app cs).
Qed.

Definition drain_function (p : str) (fs : nat) : outcome (list (char + str * value)) :=
  let remaining := drop fs p in
  match find_str FUNCTION_CLOSE remaining with
  | None => Returns (visible (strip_incomplete_tool_tag_suffix remaining))
  | Some c =>
      let raw := take (c + length FUNCTION_CLOSE) remaining in
      parsed ← parse_single_tagged_tool_call raw;
      app (call_items raw parsed) <$>
        drain (skip_tool_call_close (length remaining) (drop (c + length FUNCTION_CLOSE) remaining))
  end.

Lemma drain_eq p : no_open p ->
  drain p = match find_str FUNCTION_OPEN p with
            | None => Returns (visible (strip_incomplete_tool_tag_suffix p))
            | Some fs => app (visible (take fs p)) <$> drain_function p fs
            end.
Proof.
  intros Hp. unfold drain at 1. cbn [normalise_loop].
  rewrite (find_hermes_no_open _ Hp). destruct (find_str FUNCTION_OPEN p) as [fs|].
  - unfold drain_function.
    assert (transcript (push_text_chunk [] (strip_tool_call_wrappers (take fs p)))
            = visible (take fs p)) as Hpre.
    { rewrite transcript_push, strip_no_open by auto with vex. done. }
    destruct (find_str FUNCTION_CLOSE (drop fs p)) as [c|] eqn:Hc.
    + set (raw := take (c + _) _). unfold mbind, outcome_bind.
      destruct (parse_single_tagged_tool_call raw) as [parsed|]; [|done].
      rewrite drain_loop by (by apply after_function_shorter).
      destruct (drain _) as [out|]; [|done]. unfold fmap, outcome_fmap.
      rewrite app_assoc. do 2 f_equal.
      destruct parsed as [[name input]|].
      * by rewrite transcript_app, Hpre.
      * rewrite transcript_push, Hpre, strip_no_open by (unfold raw; auto with vex). done.
    + unfold fmap, outcome_fmap, close_out. cbn [fst snd].
      by rewrite transcript_app, Hpre, transcript_finish by auto with vex.
  - destruct (split_incomplete_tool_tag_suffix p) as [e q] eqn:Hs.
    unfold fmap, outcome_fmap, close_out. cbn [fst snd].
    rewrite transcript_app, transcript_push, strip_is_split, Hs. cbn [fst].
    pose proof (split_eq p) as Heq. rewrite Hs in Heq. cbn in Heq. rewrite Heq in Hp.
    rewrite strip_no_open by (by eapply no_open_l).
    rewrite transcript_finish by (by eapply no_open_r).
    by rewrite (strip_held _ _ _ Hs), app_nil_r.
Qed.
End drain.

Definition TAGS : list str :=
  [PARAMETER_OPEN; PARAMETER_CLOSE; FUNCTION_OPEN; FUNCTION_CLOSE; TOOL_CALL_OPEN; TOOL_CALL_CLOSE].

Lemma LT_tail p : p ∈ TAGS -> exists t, p = LT :: t /\ LT ∉ t.
Proof.
  unfold TAGS. rewrite !elem_of_cons, elem_of_nil.
  intros [->|[->|[->|[->|[->|[->|[]]]]]]]; eexists; (split; [reflexivity|]);
    repeat (apply not_elem_of_cons; split; [done|]); apply not_elem_of_nil.
Qed.

(** No tag straddles a place where the splitter cuts. *)
Lemma straddles_cut tag e q t :
  tag ∈ [FUNCTION_OPEN; TOOL_CALL_CLOSE] ->
  split_incomplete_tool_tag_suffix (e ++ q) = (e, q) -> ~ straddles tag e (q ++ t).
Proof.
  intros Htag Hs Hst.
  assert (tag ∈ PARTIAL_TAG_CANDIDATES) as Hcand by (unfold PARTIAL_TAG_CANDIDATES; set_solver).
  destruct (LT_tail tag) as (p & -> & Hp); [unfold TAGS; set_solver|].
  pose proof (split_snd _ _ _ Hs) as [_ [->|(b & -> & _)]].
  - apply straddles_last in Hst as (e0 & a & -> & Ha & Hw); [|done].
    rewrite app_nil_r in Hs. rewrite split_last in Hs by done.
    replace (looks_like_partial_tool_tag (LT :: a)) with true in Hs.
    + injection Hs as Hs. apply (f_equal length) in Hs. rewrite length_app in Hs. cbn in Hs. lia.
    + symmetry. apply existsb_exists. exists (LT :: p). split; [by apply list_elem_of_In|].
      apply starts_with_spec in Hw as [r Hr]. rewrite Hr.
      assert (to_ascii_lowercase (LT :: p) = LT :: p) as Hl.
      { assert (Forall (fun c => to_ascii_lowercase c = c) PARTIAL_TAG_CANDIDATES) as Hall
          by (repeat constructor). rewrite Forall_forall in Hall. by apply Hall, list_elem_of_In. }
      rewrite Hr in Hl. unfold to_ascii_lowercase in *. rewrite map_app in Hl.
      apply app_inj_1 in Hl as [-> _]; [apply starts_with_app | by rewrite length_map].
  - by apply straddles_head in Hst.
Qed.

Lemma no_open_close y : no_open y -> no_open (TOOL_CALL_CLOSE ++ y).
Proof.
  intros Hy. unfold no_open. rewrite find_str_clean; [by rewrite Hy| |reflexivity].
  by intros ?%straddles_overlaps.
Qed.

Section reading.
Context `{SerdeJson}.

Lemma drain_clean e z :
  no_open (e ++ z) -> find_str FUNCTION_OPEN e = None ->
  ~ straddles FUNCTION_OPEN e z -> ~ straddles TOOL_CALL_CLOSE e z ->
  (find_str FUNCTION_OPEN z = None ->
   visible (strip_incomplete_tool_tag_suffix (e ++ z))
   = visible e ++ visible (strip_incomplete_tool_tag_suffix z)) ->
  drain (e ++ z) = app (visible e) <$> drain z.
Proof.
  intros Hno He Hfo Htc Hstrip.
  rewrite drain_eq, (drain_eq z), find_str_clean by (done || by eapply no_open_r).
  destruct (find_str FUNCTION_OPEN z) as [fs|] eqn:Hz; cbn.
  - replace (drain_function (e ++ z) (length e + fs)) with (drain_function z fs).
    + destruct (drain_function z fs) as [out|]; [|done]. cbn. f_equal.
      rewrite app_assoc. f_equal. unfold visible. rewrite take_app_add, <- map_app. f_equal.
      apply replace_clean; [|done]. intros Hst%(straddles_app_r _ _ _ (drop fs z)).
      by rewrite take_drop in Hst.
    + unfold drain_function. by rewrite drop_app_add.
  - f_equal. by apply Hstrip.
Qed.

(** A closing wrapper leaves no trace. *)
Lemma drain_close y : no_open y -> drain (TOOL_CALL_CLOSE ++ y) = drain y.
Proof.
  intros Hy.
  assert (visible TOOL_CALL_CLOSE = []) as Hv by reflexivity.
  pose proof (no_open_close _ Hy) as Hno.
  rewrite drain_clean, Hv; [by destruct (drain y)|done|reflexivity| | |].
  - by intros ?%straddles_overlaps.
  - by intros ?%straddles_overlaps.
  - intros _. rewrite Hv. cbn [app]. destruct (last_open y) as [Hn|(a & b & -> & Hb)].
    + destruct y as [|c y]; [done|].
      change (TOOL_CALL_CLOSE ++ c :: y) with ([] ++ LT :: (tail TOOL_CALL_CLOSE ++ c :: y)).
      rewrite !strip_is_split, split_last, (split_no_open _ Hn).
      2:{ apply not_elem_of_app. split; [|done]. by apply find_char_None. }
      destruct (looks_like_partial_tool_tag _) eqn:P.
      { apply looks_like_partial_tool_tag_length in P. cbn in P. lia. }
      unfold visible. f_equal.
    + rewrite !strip_is_split, app_assoc, !split_last by done.
      unfold visible.
      destruct (looks_like_partial_tool_tag _); cbn [fst]; rewrite <- ?app_assoc;
        by rewrite replace_here.
Qed.

Lemma drain_closes k y :
  no_open y -> drain (concat (replicate k TOOL_CALL_CLOSE) ++ y) = drain y.
Proof.
  intros Hy. cut (no_open (concat (replicate k TOOL_CALL_CLOSE) ++ y) /\
    drain (concat (replicate k TOOL_CALL_CLOSE) ++ y) = drain y); [tauto|].
  induction k as [|k [IHn IH]]; [done|]. cbn [replicate concat]. rewrite <- app_assoc.
  split; [by apply no_open_close|]. by rewrite drain_close.
Qed.

(** After a call the closing wrappers are skipped at once or, when they arrive later, left
    for the next reading. *)
Lemma drain_skip n m x t :
  no_open (x ++ t) ->
  drain (skip_tool_call_close n (x ++ t)) = drain (skip_tool_call_close m x ++ t).
Proof.
  intros Hno. destruct (skip_tool_call_close_eq n (x ++ t)) as [k Hk].
  destruct (skip_tool_call_close_eq m x) as [j Hj].
  transitivity (drain (x ++ t)).
  - rewrite Hk at 2. symmetry. apply drain_closes.
    rewrite Hk in Hno. by eapply no_open_r.
  - rewrite Hj at 1. rewrite <- app_assoc. apply drain_closes.
    rewrite Hj, <- app_assoc in Hno. by eapply no_open_r.
Qed.

(** What the text already read yields is kept, and only the text held back is read again. *)
Definition reads_on (p t : str) (r : outcome (list NormalisedChunk * str)) : Prop :=
  match r with
  | Returns (cs, q) =>
      drain (p ++ t) = app (transcript cs) <$> drain (q ++ t) /\ exists z, p = z ++ q
  | Panics => drain (p ++ t) = Panics
  end.

Lemma drain_app_text p t e q :
  no_open (p ++ t) -> find_str FUNCTION_OPEN p = None ->
  split_incomplete_tool_tag_suffix p = (e, q) ->
  drain (p ++ t) = app (visible e) <$> drain (q ++ t).
Proof.
  intros Hno Hfo Hs. pose proof (split_eq p) as Heq. rewrite Hs in Heq. cbn in Heq.
  subst p. rewrite <- app_assoc in *.
  pose proof (straddles_cut FUNCTION_OPEN _ _ t ltac:(set_solver) Hs).
  pose proof (straddles_cut TOOL_CALL_CLOSE _ _ t ltac:(set_solver) Hs) as Htc.
  apply drain_clean; try done.
  - apply (find_str_None_infix _ [] e q). done.
  - intros _. rewrite !strip_is_split, split_app by done. cbn. unfold visible.
    rewrite <- map_app. f_equal. apply replace_clean; [|done].
    intros Hst%(straddles_app_r _ _ _ (split_incomplete_tool_tag_suffix (q ++ t)).2).
    by rewrite <- split_eq in Hst.
Qed.

Lemma drain_app_function p t fs :
  no_open (p ++ t) -> find_str FUNCTION_OPEN p = Some fs ->
  drain (p ++ t) = app (visible (take fs p)) <$> drain_function (drop fs p ++ t) 0.
Proof.
  intros Hno Hfo. pose proof (find_str_length _ _ _ Hfo) as Hl.
  rewrite drain_eq, (find_str_app_l _ _ _ _ Hfo) by done.
  unfold drain_function. by rewrite drop_0, drop_app_le, take_app_le by (cbn in Hl; lia).
Qed.

(** The turn that finds a complete call: the call is parsed from the same text whatever
    follows, and the rest is read by the turns that follow ([Hrest]). *)
Lemma drain_app_call p t fs c :
  no_open (p ++ t) -> find_str FUNCTION_OPEN p = Some fs ->
  find_str FUNCTION_CLOSE (drop fs p) = Some c ->
  let raw := take (c + length FUNCTION_CLOSE) (drop fs p) in
  let p' := skip_tool_call_close (length (drop fs p))
              (drop (c + length FUNCTION_CLOSE) (drop fs p)) in
  drain (p ++ t)
  = (parsed ← parse_single_tagged_tool_call raw;
     app (visible (take fs p) ++ call_items raw parsed) <$> drain (p' ++ t))
  /\ no_open (p' ++ t) /\ exists z, p = z ++ p'.
Proof.
  intros Hno Hfo Hc raw p'.
  pose proof (drain_app_function _ _ _ Hno Hfo) as Hd.
  pose proof (find_str_length _ _ _ Hc) as Hcl.
  set (x := drop (c + length FUNCTION_CLOSE) (drop fs p)) in *.
  assert (p = take fs p ++ raw ++ x) as Hp by (unfold raw, x; by rewrite !take_drop).
  assert (no_open (x ++ t)) as Hnox.
  { rewrite Hp, <- !app_assoc in Hno. by do 2 eapply no_open_r. }
  destruct (skip_tool_call_close_eq (length (drop fs p)) x) as [k Hk]. fold p' in Hk.
  split; [|split].
  - unfold drain_function in Hd. rewrite drop_0, (find_str_app_l _ _ _ _ Hc) in Hd.
    rewrite take_app_le, drop_app_le in Hd by done. fold raw x in Hd.
    rewrite (drain_skip _ (length (drop fs p))) in Hd by done. fold p' in Hd. rewrite Hd.
    unfold mbind, outcome_bind. destruct (parse_single_tagged_tool_call raw); [|done].
    destruct (drain (p' ++ t)); [|done]. unfold fmap, outcome_fmap. by rewrite app_assoc.
  - rewrite Hk, <- app_assoc in Hnox. by eapply no_open_r.
  - exists (take fs p ++ raw ++ concat (replicate k TOOL_CALL_CLOSE)).
    by rewrite <- !app_assoc, <- Hk.
Qed.

Lemma drain_app n p t :
  length p <= n -> no_open (p ++ t) ->
  reads_on p t (normalise_loop (S (length p)) p []).
Proof.
  revert p. induction n as [n IH] using lt_wf_ind. intros p Hn Hno.
  cbn [normalise_loop]. rewrite find_hermes_no_open by (by eapply no_open_l).
  destruct (find_str FUNCTION_OPEN p) as [fs|] eqn:Hfo.
  - assert (transcript (push_text_chunk [] (strip_tool_call_wrappers (take fs p)))
            = visible (take fs p)) as Hpre.
    { rewrite transcript_push, strip_no_open; [done|]. by eapply no_open_take, no_open_l. }
    destruct (find_str FUNCTION_CLOSE (drop fs p)) as [c|] eqn:Hc.
    + destruct (drain_app_call _ _ _ _ Hno Hfo Hc) as (Hd & Hno' & z & Hz).
      pose proof (after_function_shorter (length (drop fs p)) _ _ _ Hc) as Hlt.
      set (p' := skip_tool_call_close _ _) in *. set (raw := take (c + _) _) in *.
      unfold mbind, outcome_bind in *.
      destruct (parse_single_tagged_tool_call raw) as [parsed|]; [|exact Hd].
      rewrite (normalise_loop_fuel _ (S (length p'))) by lia.
      set (cs := match parsed with Some _ => _ | None => _ end).
      assert (transcript cs = visible (take fs p) ++ call_items raw parsed) as Hcs.
      { unfold cs. destruct parsed as [[nm inp]|]; [by rewrite transcript_app, Hpre|].
        rewrite transcript_push, strip_no_open, Hpre; [done|].
        unfold raw. eapply no_open_take, no_open_drop, no_open_l; done. }
      rewrite <- (app_nil_r cs), normalise_loop_acc.
      pose proof (IH (length p') ltac:(lia) p' (Nat.le_refl _) Hno') as Hp'.
      destruct (normalise_loop _ p' []) as [[cs' q]|]; unfold reads_on in *;
        unfold fmap, outcome_fmap in *; cbn [fst snd]; [|by rewrite Hd, Hp'].
      destruct Hp' as [Hp' [z' Hz']]. split.
      * rewrite Hd, Hp'. destruct (drain (q ++ t)); [|done].
        by rewrite transcript_app, Hcs, <- !app_assoc.
      * exists (z ++ z'). by rewrite <- app_assoc, <- Hz'.
    + destruct (find_str_Some _ _ _ Hfo) as (r & _ & Hr). unfold reads_on.
      split; [|exists (take fs p); by rewrite take_drop].
      assert (no_open (drop fs p ++ t)).
      { eapply (no_open_r (take fs p)). by rewrite app_assoc, take_drop. }
      rewrite (drain_app_function _ _ _ Hno Hfo), (drain_eq (drop fs p ++ t)), Hpre by done.
      rewrite Hr at 2. rewrite <- app_assoc, find_str_here. cbn [take].
      destruct (drain_function (drop fs p ++ t) 0); done.
  - destruct (split_incomplete_tool_tag_suffix p) as [e q] eqn:Hs.
    destruct (split_snd _ _ _ Hs) as [Heq _]. split; [|by exists e].
    rewrite transcript_push, strip_no_open; [by apply drain_app_text|].
    rewrite Heq, <- app_assoc in Hno. by eapply no_open_l.
Qed.

(** A stream: the fragments in order, then the end. *)
Definition stream (fragments : list str) : outcome (list (char + str * value)) :=
  close_out <$> pst_concat normalise fragments [].

Lemma normalise_reads q d t :
  no_open (q ++ d ++ t) -> drain q = Returns (close_out ([], q)) ->
  match normalise d q with
  | Returns (cs, q') =>
      drain (q ++ d ++ t) = app (transcript cs) <$> drain (q' ++ t)
      /\ no_open (q' ++ t) /\ drain q' = Returns (close_out ([], q'))
  | Panics => drain (q ++ d ++ t) = Panics
  end.
Proof.
  intros Hno Hq. unfold normalise. destruct (is_empty d) eqn:Hd.
  { destruct d; [|done]. cbn [app]. split; [by destruct (drain (q ++ t))|]. done. }
  rewrite app_assoc in *. pose proof (drain_app _ (q ++ d) t (Nat.le_refl _) Hno) as Ht.
  pose proof (drain_app _ (q ++ d) [] (Nat.le_refl _)) as H0. rewrite !app_nil_r in H0.
  specialize (H0 (no_open_l _ _ Hno)). assert (Hdr : drain (q ++ d) = drain (q ++ d)) by done.
  unfold drain in Hdr at 2. unfold reads_on in *.
  destruct (normalise_loop _ (q ++ d) []) as [[cs q']|]; [|done].
  destruct Ht as [Ht [z Hz]]. split; [done|]. split.
  - rewrite Hz, <- app_assoc in Hno. by eapply no_open_r.
  - destruct H0 as [H0 _]. rewrite !app_nil_r in H0. rewrite H0 in Hdr.
    unfold fmap, outcome_fmap, close_out in *.
    destruct (drain q') as [o|]; [|done]. cbn [fst snd] in *. injection Hdr as Hdr. rewrite transcript_app in Hdr.
    by apply app_inv_head in Hdr as ->.
Qed.

Lemma stream_drain ds q :
  no_open (q ++ concat ds) -> drain q = Returns (close_out ([], q)) ->
  close_out <$> pst_concat normalise ds q = drain (q ++ concat ds).
Proof.
  revert q. induction ds as [|d ds IH]; intros q Hno Hq; cbn [pst_concat concat] in *.
  { by rewrite app_nil_r, Hq. }
  pose proof (normalise_reads _ _ _ Hno Hq) as Hn.
  unfold mbind, pst_bind. destruct (normalise d q) as [[cs q']|]; [|by rewrite Hn].
  destruct Hn as (-> & Hno' & Hq'). rewrite <- (IH q' Hno' Hq').
  destruct (pst_concat normalise ds q') as [[cs' q'']|]; [|done].
  unfold fmap, outcome_fmap, close_out, mret, pst_ret. cbn [fst snd].
  by rewrite <- app_assoc, (transcript_app cs).
Qed.
End reading.

(** How a stream is cut into fragments does not matter.  Whatever text without a
    [<tool_call>] tag arrives, any two fragmentations of it yield the same visible characters
    and the same tool calls in the same order once the stream ends, and one panics exactly
    when the other does. *)
Theorem normalise_fragmentation `{SerdeJson} (ds ds' : list str) :
  concat ds = concat ds' -> contains TOOL_CALL_OPEN (concat ds) = false ->
  stream ds = stream ds'.
Proof.
  unfold contains. destruct (find_str _ _) eqn:Hno; [done|]. intros Heq _. unfold stream.
  change (no_open (concat ds)) in Hno.
  rewrite !stream_drain; cbn [app]; rewrite <- ?Heq; done.
Qed.

Lemma normalise_fragmentation_witness :
  let _ := empty_codec in
  let ds := [t!"see <fun"; t!"ction=ls></fu"; t!"nction></tool"; t!"_call> done"] in
  let ds' := [t!"see <function=ls></function></tool_call> done"] in
  stream ds = stream ds'
  /\ stream ds = Returns (map inl t!"see " ++ [inr (t!"ls", Object [])] ++ map inl t!" done").
Proof.
  cbv zeta. split; [|by vm_compute].
  apply (@normalise_fragmentation empty_codec); by vm_compute.
Defined.

(** ** Complete calls *)
Lemma slice_middle a b c i j :
  i = length a -> j = length a + length b -> slice i j (a ++ b ++ c) = Returns b.
Proof.
  intros -> ->. unfold slice. rewrite drop_app_length, !length_app.
  replace (length a + length b - length a) with (length b) by lia. rewrite take_app_length.
  destruct (_ && _) eqn:E; [done|].
  apply andb_false_iff in E as [E%Nat.leb_gt|E%Nat.leb_gt]; lia.
Qed.

Definition tag_name (name : str) : str := trim_char SQUOTE (trim_char DQUOTE (trim name)).

Section complete_calls.
Context `{SerdeJson}.

(** The call a closed tag with this name and body stands for. *)
Definition tagged_call (name body : str) : option (str * value) :=
  if is_empty (tag_name name) then None
  else
    match parse_tagged_parameters body with
    | (_ :: _) as params => Some (tag_name name, Object params)
    | [] =>
        if starts_with t!"{" (trim body) then
          match json_from_str (trim body) with
          | Some (Object m) => Some (tag_name name, Object m)
          | _ => Some (tag_name name, Object [])
          end
        else Some (tag_name name, Object [])
    end.

Lemma parse_closed_tag name body :
  GT ∉ name ->
  parse_single_tagged_tool_call (FUNCTION_OPEN ++ name ++ GT :: body ++ FUNCTION_CLOSE)
  = Returns (tagged_call name body).
Proof.
  intros Hn. unfold parse_single_tagged_tool_call, tagged_call.
  rewrite drop_app_length, find_char_skip, take_app_length by done. fold (tag_name name).
  destruct (is_empty (tag_name name)); [done|].
  replace (FUNCTION_OPEN ++ name ++ GT :: body ++ FUNCTION_CLOSE)
    with ((FUNCTION_OPEN ++ name ++ [GT]) ++ body ++ FUNCTION_CLOSE)
    by (by rewrite <- !app_assoc).
  rewrite slice_middle; [|rewrite !length_app; cbn; lia|rewrite !length_app; cbn; lia].
  unfold mbind, outcome_bind. by destruct (parse_tagged_parameters body).
Qed.

Lemma parse_unclosed_tag x :
  GT ∉ x -> parse_single_tagged_tool_call (FUNCTION_OPEN ++ x ++ FUNCTION_CLOSE) = Panics.
Proof.
  intros Hx. unfold parse_single_tagged_tool_call. rewrite drop_app_length.
  change FUNCTION_CLOSE with (t!"</function" ++ [GT]) at 1 2.
  assert (GT ∉ x ++ t!"</function") as Hx'.
  { apply not_elem_of_app. split; [done|]. by apply find_char_None. }
  rewrite (app_assoc x), find_char_skip by done. rewrite take_app_length.
  fold (tag_name (x ++ t!"</function")).
  destruct (tag_name _) eqn:Hn.
  { exfalso. apply (not_elem_of_nil 102%N). rewrite <- Hn.
    apply elem_of_trim_char; [done|]. apply elem_of_trim_char; [done|].
    apply elem_of_trim; [done|]. apply elem_of_app. right. do 2 right. left. }
  cbn [is_empty]. unfold slice. rewrite !length_app.
  destruct (_ <=? _) eqn:E; [|done].
  apply Nat.leb_le in E. cbn in E. lia.
Qed.
End complete_calls.

(** Parsing a complete tagged call panics exactly when its opening tag is not closed: the
    name then runs up to the closing tag, and the slice between the two is decreasing.  The
    text comes from the model's output. *)
Theorem tagged_call_panics_iff `{SerdeJson} x :
  parse_single_tagged_tool_call (FUNCTION_OPEN ++ x ++ FUNCTION_CLOSE) = Panics <-> GT ∉ x.
Proof.
  split; [|apply parse_unclosed_tag]. intros Hp Hx.
  apply list_elem_of_split_l in Hx as (a & b & -> & Ha).
  rewrite <- app_assoc in Hp. cbn [app] in Hp. by rewrite parse_closed_tag in Hp.
Qed.

(** ** A written call is read back *)
Definition word_char (c : char) : bool :=
  negb (is_whitespace c || (c =? DQUOTE) || (c =? SQUOTE) || (c =? GT) || (c =? LT))%N.
Definition word (s : str) : Prop := s <> [] /\ Forall (fun c => word_char c = true) s.

#[global] Instance word_dec s : Decision (word s).
Proof. unfold word. apply _. Defined.

Lemma word_not_in c s : word_char c = false -> word s -> c ∉ s.
Proof. intros Hc [_ Hs] Hin. rewrite Forall_forall in Hs. apply list_elem_of_In, Hs in Hin. congruence. Qed.

Lemma word_tag_name s : word s -> tag_name s = s.
Proof.
  intros Hw. unfold tag_name. rewrite trim_none.
  - rewrite (trim_char_none DQUOTE), trim_char_none; [done| |]; by apply word_not_in.
  - intros x Hx. destruct Hw as [_ Hw]. rewrite Forall_forall in Hw.
    apply list_elem_of_In, Hw in Hx. unfold word_char in Hx. destruct (is_whitespace x); by cbn in Hx.
Qed.

Definition render_parameter (kv : str * str) : str :=
  PARAMETER_OPEN ++ kv.1 ++ GT :: kv.2 ++ PARAMETER_CLOSE.
Definition render_call (name : str) (params : list (str * str)) : str :=
  FUNCTION_OPEN ++ name ++ GT :: concat (map render_parameter params) ++ FUNCTION_CLOSE.

Definition param_ok (kv : str * str) : Prop := word kv.1 /\ LT ∉ kv.2.

#[global] Instance param_ok_dec kv : Decision (param_ok kv).
Proof. unfold param_ok. apply _. Defined.

Lemma LT_word s : word s -> LT ∉ s.
Proof. by apply word_not_in. Qed.
Lemma GT_word s : word s -> GT ∉ s.
Proof. by apply word_not_in. Qed.
#[local] Hint Resolve LT_word GT_word : vex.

(** Tags other than those of the call do not appear in its rendering. *)
Lemma foreign_text pat e : pat ∈ TAGS -> LT ∉ e -> foreign pat e.
Proof. intros (p & -> & Hp)%LT_tail He. by apply foreign_head. Qed.

Lemma foreign_parameters pat params :
  pat ∈ drop 2 TAGS -> Forall param_ok params -> foreign pat (concat (map render_parameter params)).
Proof.
  intros Hpat Hp. assert (pat ∈ TAGS) as Htag by (unfold TAGS in *; set_solver).
  destruct (LT_tail _ Htag) as (p & Hpq & _). rewrite Hpq.
  apply foreign_concat. rewrite <- Hpq. clear Hpq. apply Forall_map.
  revert Hp. apply Forall_impl. intros [k v] [Hk Hv]. unfold compose, render_parameter.
  cbn [fst snd] in *. rewrite (app_comm_cons v).
  apply foreign_app.
  - revert Hpat. cbn [drop TAGS]. rewrite !elem_of_cons, elem_of_nil.
    intros [->|[->|[->|[->|[]]]]]; by apply foreign_compute.
  - apply foreign_app; [apply foreign_text; auto with vex|]. apply foreign_app.
    + apply foreign_text; [done|]. apply not_elem_of_cons. done.
    + revert Hpat. cbn [drop TAGS]. rewrite !elem_of_cons, elem_of_nil.
      intros [->|[->|[->|[->|[]]]]]; by apply foreign_compute.
Qed.

Section rendered.
Context `{SerdeJson}.

Definition parameter_values (params : list (str * str)) : list (str * value) :=
  map (fun kv => (kv.1, tagged_parameter_json_value kv.2)) params.

Lemma parse_one_parameter fuel b0 k v rest input :
  param_ok (k, v) ->
  parse_parameters_from (S fuel) (b0 ++ render_parameter (k, v) ++ rest) (length b0) input
  = parse_parameters_from fuel (b0 ++ render_parameter (k, v) ++ rest)
      (length (b0 ++ render_parameter (k, v)))
      (im_insert k (tagged_parameter_json_value v) input).
Proof.
  intros [Hk Hv]. cbn [fst snd] in *. cbn [parse_parameters_from].
  set (body := b0 ++ render_parameter (k, v) ++ rest).
  set (y := v ++ PARAMETER_CLOSE ++ rest).
  assert (body = b0 ++ PARAMETER_OPEN ++ k ++ GT :: y) as Hbody.
  { unfold body, y, render_parameter. cbn [fst snd].
    rewrite <- !app_assoc. cbn [app]. by rewrite <- !app_assoc. }
  assert (drop (length b0 + length PARAMETER_OPEN) body = k ++ GT :: y) as H1.
  { rewrite Hbody, drop_app_add. apply drop_app_length. }
  assert (drop (length b0 + length PARAMETER_OPEN + length k + 1) body = y) as H2.
  { rewrite Hbody, <- !Nat.add_assoc, drop_app_add, drop_app_add, drop_app_add. done. }
  rewrite Hbody at 1. rewrite drop_app_length, find_str_here, Nat.add_0_r.
  rewrite H1, find_char_skip, take_app_length by auto with vex.
  fold (tag_name k). rewrite word_tag_name by done.
  destruct Hk as [Hk _]. destruct k as [|c k0]; [done|]. set (k := c :: k0) in *. cbn [is_empty].
  rewrite H2. unfold y at 1. rewrite (foreign_find PARAMETER_CLOSE v), find_str_here
    by (apply foreign_text; [right; left|done]).
  cbn [fmap option_fmap option_map]. rewrite Nat.add_0_r.
  assert (foreign PARAMETER_OPEN (v ++ PARAMETER_CLOSE)) as Hf.
  { apply foreign_app; [apply foreign_text; [left|done] | by apply foreign_compute]. }
  unfold y at 1. rewrite app_assoc, (foreign_find _ _ _ Hf).
  assert (length (b0 ++ render_parameter (k, v))
    = length b0 + length PARAMETER_OPEN + length k + 1 + length v + length PARAMETER_CLOSE) as Hl.
  { unfold render_parameter. cbn [fst snd]. rewrite !length_app. cbn [length].
    rewrite !length_app. lia. }
  rewrite Hl. set (vs := length b0 + length PARAMETER_OPEN + length k + 1) in *.
  assert (forall j, (vs + (length (v ++ PARAMETER_CLOSE) + j) <? vs + length v) = false) as Hj.
  { intros j. apply Nat.ltb_ge. rewrite length_app. lia. }
  assert (take (vs + length v - vs) y = v) as Ht.
  { replace (vs + length v - vs) with (length v) by lia. apply take_app_length. }
  destruct (find_str PARAMETER_OPEN rest); cbn [fmap option_fmap option_map];
    rewrite ?Hj, Ht; f_equal; lia.
Qed.

Lemma parse_rendered params fuel b0 input :
  length params < fuel -> Forall param_ok params -> NoDup (map fst params) ->
  (forall k, k ∈ map fst params -> im_get k input = None) ->
  parse_parameters_from fuel (b0 ++ concat (map render_parameter params)) (length b0) input
  = input ++ parameter_values params.
Proof.
  revert fuel b0 input. induction params as [|[k v] params IH];
    intros [|fuel] b0 input Hf Hok Hnd Hfresh; try (cbn in Hf; lia).
  - cbn. rewrite app_nil_r, drop_all. cbn. by rewrite app_nil_r.
  - apply list.Forall_cons in Hok as [Hkv Hok]. apply list.NoDup_cons in Hnd as [Hkn Hnd].
    cbn [fst snd map concat] in *. rewrite parse_one_parameter by done.
    rewrite app_assoc, IH; [|cbn in Hf; lia|done|done|].
    + rewrite im_insert_fresh by (apply Hfresh; set_solver). by rewrite <- app_assoc.
    + intros k' Hk'. rewrite im_get_insert_ne by (by intros ->). apply Hfresh. set_solver.
Qed.

Lemma parse_rendered_parameters params :
  Forall param_ok params -> NoDup (map fst params) ->
  parse_tagged_parameters (concat (map render_parameter params)) = parameter_values params.
Proof.
  intros Hok Hnd. unfold parse_tagged_parameters.
  apply (parse_rendered params _ [] []); [|done|done|done].
  apply Nat.lt_succ_r. clear. induction params as [|kv params IH]; cbn [map concat]; [done|].
  rewrite length_app. cbn in *. lia.
Qed.
End rendered.

Lemma text_no_tag pat s : pat ∈ TAGS -> LT ∉ s -> find_str pat s = None.
Proof. intros Hpat Hs. by apply foreign_text. Qed.

Ltac tag_in := unfold TAGS; cbn [drop]; repeat (left || right).

Lemma visible_text s : LT ∉ s -> visible s = map inl s.
Proof. intros Hs. unfold visible. by rewrite replace_absent by (done || by apply text_no_tag; [tag_in|]). Qed.

Lemma skip_text n s : LT ∉ s -> skip_tool_call_close n s = s.
Proof.
  intros Hs. destruct n; [done|]. cbn [skip_tool_call_close].
  destruct (strip_prefix TOOL_CALL_CLOSE s) eqn:E; [|done].
  apply strip_prefix_Some in E as ->. by apply not_elem_of_cons in Hs as [[] _].
Qed.

Section round_trip.
Context `{SerdeJson}.

Lemma drain_text s : LT ∉ s -> drain s = Returns (map inl s).
Proof.
  intros Hs. rewrite drain_eq by (by apply text_no_tag; [tag_in|]).
  rewrite text_no_tag by (tag_in || done). rewrite strip_is_split, split_no_open by done.
  by rewrite visible_text.
Qed.

Lemma tagged_call_rendered name params :
  word name -> Forall param_ok params -> NoDup (map fst params) ->
  tagged_call name (concat (map render_parameter params))
  = Some (name, Object (parameter_values params)).
Proof.
  intros Hname Hok Hnd. unfold tagged_call.
  rewrite word_tag_name, parse_rendered_parameters by done.
  destruct name as [|c name]; [by destruct Hname|]. cbn [is_empty]. by destruct params.
Qed.

(** One complete call between two texts. *)
Lemma drain_one_call before name body after :
  LT ∉ before -> word name -> LT ∉ after ->
  foreign FUNCTION_CLOSE body -> foreign TOOL_CALL_OPEN body ->
  let text := before ++ FUNCTION_OPEN ++ name ++ GT :: body ++ FUNCTION_CLOSE ++ after in
  no_open text /\
  drain text
  = Returns (map inl before
             ++ call_items (FUNCTION_OPEN ++ name ++ GT :: body ++ FUNCTION_CLOSE)
                  (tagged_call name body) ++ map inl after).
Proof.
  intros Hb Hname Ha Hfc Hto text.
  set (call := FUNCTION_OPEN ++ name ++ GT :: body).
  assert (text = before ++ call ++ FUNCTION_CLOSE ++ after) as Htext.
  { unfold text, call. by rewrite <- !app_assoc. }
  assert (forall pat, pat ∈ TAGS -> foreign pat FUNCTION_OPEN -> foreign pat body ->
    foreign pat call) as Hcall.
  { intros pat Hpat Ho Hbody. apply foreign_app; [done|].
    apply foreign_app; [apply foreign_text; auto with vex|].
    apply (foreign_app _ [GT]); [|done]. apply foreign_text; [done|]. by apply find_char_None. }
  assert (no_open text) as Hno.
  { unfold no_open. rewrite Htext, foreign_find by (by apply foreign_text; [tag_in|]).
    rewrite foreign_find; [|apply Hcall; [tag_in|by apply foreign_compute|done]].
    rewrite foreign_find by (by apply foreign_compute).
    by rewrite text_no_tag by (tag_in || done). }
  split; [done|]. rewrite drain_eq by done. unfold text at 1.
  rewrite foreign_find by (by apply foreign_text; [tag_in|]).
  rewrite find_str_here. cbn [fmap option_fmap option_map]. rewrite Nat.add_0_r, Htext.
  rewrite take_app_length, visible_text by done.
  unfold drain_function. rewrite drop_app_length.
  rewrite foreign_find; [|apply Hcall; [tag_in|by apply foreign_compute|done]].
  rewrite find_str_here. cbn [fmap option_fmap option_map]. rewrite Nat.add_0_r.
  rewrite (app_assoc call), <- length_app, take_app_length, drop_app_length.
  replace (call ++ FUNCTION_CLOSE) with (FUNCTION_OPEN ++ name ++ GT :: body ++ FUNCTION_CLOSE)
    by (unfold call; by rewrite <- !app_assoc).
  rewrite parse_closed_tag by auto with vex. rewrite skip_text, drain_text by done.
  unfold fmap, outcome_fmap, mbind, outcome_bind. done.
Qed.
End round_trip.

(** ** Values as a text *)
Section written.
Context `{SerdeJson}.

(** No line ends as on Windows, and no line feed at either end: these are normalised. *)
Definition unbroken (raw : str) : Prop :=
  find_str [CR; LF] raw = None /\ head raw <> Some LF /\ head (reverse raw) <> Some LF.

(** A text that is neither JSON, other than a string, nor a number. *)
Definition plain_value (s : str) : Prop :=
  trim s = []
  \/ (forall v, json_from_str (trim s) = Some v -> exists t, v = String t)
     /\ parse_uint u64_max (trim s) = None /\ parse_i64 (trim s) = None /\ parse_f64 (trim s) = None.

(** The text is the value: itself, if it is plain, and otherwise what the codec reads in it. *)
Definition written (raw : str) (v : value) : Prop :=
  unbroken raw
  /\ match v with
     | String s => raw = s /\ plain_value s
     | v => raw <> [] /\ trim raw = raw /\ json_from_str raw = Some v
     end.

Lemma unbroken_normal raw : unbroken raw -> normalize_tagged_parameter_value raw = raw.
Proof.
  intros (Hc & Hh & Ht). unfold normalize_tagged_parameter_value. rewrite replace_absent by done.
  destruct raw as [|c r]; [done|]. destruct (N.eqb_spec c LF) as [->|_]; [done|].
  destruct (reverse (c :: r)) as [|d l] eqn:E; [by apply (f_equal length) in E; rewrite length_reverse in E|]. cbn in Ht.
  destruct (N.eqb_spec d LF) as [->|_]; [done | done].
Qed.

Lemma written_read raw v : written raw v -> tagged_parameter_json_value raw = v.
Proof.
  intros [Hu Hv]. unfold tagged_parameter_json_value. rewrite unbroken_normal by done. cbv zeta.
  assert (forall u, raw <> [] /\ trim raw = raw /\ json_from_str raw = Some u -> (forall s, u <> String s) ->
    (if is_empty (trim raw) then String raw
     else match json_from_str (trim raw) with
          | Some (String _) | None =>
              match parse_uint u64_max (trim raw) with
              | Some n => Number (PosInt n)
              | None =>
                  match parse_i64 (trim raw) with
                  | Some z => Number (number_of_i64 z)
                  | None =>
                      match parse_f64 (trim raw) with
                      | Some x => if f64_is_finite x then Number (Float x) else String raw
                      | None => String raw
                      end
                  end
              end
          | Some parsed => parsed
          end) = u) as Hjson.
  { intros u (Hne & -> & ->) Hns. destruct raw; [by destruct Hne|]. cbn [is_empty]. destruct u; try done. by destruct (Hns s). }
  destruct v; try by apply Hjson. destruct Hv as [-> [->|(Hj & H1 & H2 & H3)]]; [done|].
  destruct (is_empty (trim s)); [done|]. rewrite H1, H2, H3.
  destruct (json_from_str (trim s)) as [v|] eqn:E; [|done]. by destruct (Hj v eq_refl) as [t ->].
Qed.

Lemma written_values params values :
  Forall2 (fun kv kv' => kv.1 = kv'.1 /\ written kv.2 kv'.2) params values -> parameter_values params = values.
Proof.
  unfold parameter_values. induction 1 as [|[k raw] [k' v] params values [Hk Hw] _ IH]; [done|]. cbn in *.
  by rewrite IH, Hk, (written_read raw v).
Qed.
End written.

(** C39: a tool call written in the tagged form is read back.  The call has a name and distinct
    names of parameters that are free of blanks, quotes and brackets; each value is a plain text
    that stands for itself, or another value that stands as its JSON, without [<], line ends of
    Windows, or a line feed at an end; and the text before and after has no [<].  Then the stream
    yields that text and exactly that call with exactly these values, in their order, however it
    is cut. *)
Theorem rendered_call_read_back `{SerdeJson} name params values before after fragments :
  word name -> Forall param_ok params -> NoDup (map fst params) ->
  Forall2 (fun kv kv' => kv.1 = kv'.1 /\ written kv.2 kv'.2) params values ->
  LT ∉ before -> LT ∉ after ->
  concat fragments = before ++ render_call name params ++ after ->
  stream fragments
  = Returns (map inl before ++ [inr (name, Object values)] ++ map inl after).
Proof.
  intros Hname Hok Hnd Hv Hb Ha Hfr. unfold render_call in Hfr. rewrite <- !app_assoc in Hfr.
  cbn [app] in Hfr. rewrite <- !app_assoc in Hfr.
  destruct (drain_one_call before name (concat (map render_parameter params)) after)
    as [Hno Hd]; [done|done|done| | |].
  - apply foreign_parameters; [tag_in|done].
  - apply foreign_parameters; [tag_in|done].
  - unfold stream. rewrite stream_drain; cbn [app]; rewrite ?Hfr; [|done|done].
    rewrite Hd, tagged_call_rendered, (written_values params values) by done. done.
Qed.

(** A codec that reads [true]. *)
Definition true_codec : SerdeJson := {|
  json_from_str s := if bool_decide (s = t!"true") then Some (Bool true) else None;
  json_to_string _ := None;
  parse_f64 _ := None;
|}.

Lemma rendered_call_read_back_witness :
  let _ := true_codec in
  stream [t!"Run <funct"; t!"ion=grep><parameter=pat"; t!"tern>a b</parameter><parameter=all>true</para";
          t!"meter></function> now"]
  = Returns (map inl t!"Run " ++ [inr (t!"grep", Object [(t!"pattern", String t!"a b");
      (t!"all", Bool true)])] ++ map inl t!" now").
Proof.
  cbv zeta.
  apply (@rendered_call_read_back true_codec t!"grep" [(t!"pattern", t!"a b"); (t!"all", t!"true")]).
  4: { assert (forall raw, (find_str [CR; LF] raw = None) -> (head raw <> Some LF) -> head (reverse raw) <> Some LF -> unbroken raw) as Hu by done.
       constructor; [|constructor; [|constructor]]; (split; [reflexivity|]); (split; [by apply Hu; vm_compute|]).
       - split; [reflexivity|]. right. split; [intros v; vm_compute; discriminate | by vm_compute].
       - by vm_compute. }
  all: apply (bool_decide_unpack _); by vm_compute.
Defined.

(** ** JSON calls *)
Lemma trim_LF s : trim (LF :: s) = trim s.
Proof. done. Qed.

Section json_calls.
Context `{SerdeJson}.

(** A first fragment read completely. *)
Lemma stream_cons d ds cs :
  normalise d [] = Returns (cs, []) -> stream (d :: ds) = app (transcript cs) <$> stream ds.
Proof.
  intros Hd. unfold stream. cbn [pst_concat]. unfold mbind, pst_bind. rewrite Hd.
  destruct (pst_concat normalise ds []) as [[cs' q]|]; [|done].
  unfold fmap, outcome_fmap, close_out, mret, pst_ret. cbn [fst snd].
  by rewrite <- app_assoc, (transcript_app cs).
Qed.

Lemma hermes_turn f text c content call :
  find_str FUNCTION_OPEN text = None -> find_hermes_json_tool_call text = Some 0 ->
  find_str TOOL_CALL_CLOSE text = Some c ->
  slice (length TOOL_CALL_OPEN) c text = Returns content ->
  parse_hermes_json_tool_call (trim content) = Some call ->
  normalise_loop (S f) text []
  = normalise_loop f (drop (c + length TOOL_CALL_CLOSE) text) [TaggedToolCall call.1 call.2].
Proof.
  intros Hfo Hh Hc Hs Hp. cbn [normalise_loop]. rewrite Hfo, Hh, drop_0, Hc, Hs.
  unfold mbind, outcome_bind. rewrite Hp. by destruct call.
Qed.

Lemma find_hermes_here content :
  starts_with t!"{" content = true ->
  find_hermes_json_tool_call (TOOL_CALL_OPEN ++ LF :: content) = Some 0.
Proof.
  intros [r ->]%starts_with_spec. unfold find_hermes_json_tool_call. cbn [find_hermes_from].
  rewrite drop_0, find_str_here. cbn [mbind option_bind].
  by rewrite Nat.add_0_l, drop_app_length.
Qed.

Lemma json_call_at_once content call :
  starts_with t!"{" content = true -> LT ∉ content ->
  parse_hermes_json_tool_call (trim content) = Some call ->
  normalise (TOOL_CALL_OPEN ++ LF :: content ++ TOOL_CALL_CLOSE) []
  = Returns ([TaggedToolCall call.1 call.2], []).
Proof.
  intros Hs Hlt Hparse.
  assert (forall pat, pat ∈ TAGS -> foreign pat TOOL_CALL_OPEN ->
            foreign pat (TOOL_CALL_OPEN ++ LF :: content)) as Hf.
  { intros pat Hpat Ho. apply foreign_app; [done|]. apply foreign_text; [done|].
    by apply not_elem_of_cons. }
  assert (forall f, normalise_loop (S (S f)) (TOOL_CALL_OPEN ++ LF :: content ++ TOOL_CALL_CLOSE) []
          = Returns ([TaggedToolCall call.1 call.2], [])) as Hl.
  { intros f. rewrite (hermes_turn _ _ (length (TOOL_CALL_OPEN ++ LF :: content)) (LF :: content) call).
    - rewrite (app_comm_cons content), app_assoc, <- length_app, drop_all. reflexivity.
    - rewrite (app_comm_cons content), app_assoc, foreign_find;
        [reflexivity|]. apply Hf; [tag_in | by apply foreign_compute].
    - apply find_hermes_here. apply starts_with_spec in Hs as [r ->].
      rewrite <- app_assoc. apply starts_with_app.
    - rewrite (app_comm_cons content), app_assoc, foreign_find;
        [|apply Hf; [tag_in | by apply foreign_compute]].
      change (find_str TOOL_CALL_CLOSE TOOL_CALL_CLOSE) with (Some 0).
      cbn [fmap option_fmap option_map]. by rewrite Nat.add_0_r.
    - rewrite (app_comm_cons content). apply slice_middle; [done|]. by rewrite length_app.
    - by rewrite trim_LF. }
  unfold normalise. rewrite app_nil_l, length_app.
  assert (is_empty (TOOL_CALL_OPEN ++ LF :: content ++ TOOL_CALL_CLOSE) = false) as ->
    by reflexivity.
  apply Hl.
Qed.

Lemma json_call_split content :
  starts_with t!"{" content = true -> LT ∉ content ->
  stream [TOOL_CALL_OPEN ++ [LF]; content ++ TOOL_CALL_CLOSE]
  = Returns (map inl (LF :: content)).
Proof.
  intros Hs Hlt. rewrite (stream_cons _ _ [Text [LF]]) by (by vm_compute).
  assert (no_open (content ++ TOOL_CALL_CLOSE)) as Hno.
  { unfold no_open. rewrite foreign_find; [done|]. apply foreign_text; [tag_in|done]. }
  unfold stream. rewrite stream_drain; cbn [app concat]; rewrite ?app_nil_r; [|done|done].
  rewrite drain_eq, foreign_find by (done || (apply foreign_text; [tag_in|done])).
  change (find_str FUNCTION_OPEN TOOL_CALL_CLOSE) with (@None nat). cbn [fmap option_fmap option_map].
  change (content ++ TOOL_CALL_CLOSE) with (content ++ LT :: tail TOOL_CALL_CLOSE).
  rewrite strip_is_split, split_last by (by apply find_char_None).
  change (looks_like_partial_tool_tag _) with true. cbn [fst].
  by rewrite visible_text.
Qed.
End json_calls.

(** The other written form of a call, a JSON object between [<tool_call>] tags, is not
    read back from every stream.  In one piece the call is recognised; when the fragment that
    carries the opening tag and its line feed arrives first, the tag is taken for a stray
    wrapper and dropped, and the object reaches the reader as text. *)
Theorem json_call_lost_when_split `{SerdeJson} content name input :
  starts_with t!"{" content = true -> LT ∉ content ->
  parse_hermes_json_tool_call (trim content) = Some (name, input) ->
  stream [TOOL_CALL_OPEN ++ LF :: content ++ TOOL_CALL_CLOSE] = Returns [inr (name, input)]
  /\ stream [TOOL_CALL_OPEN ++ [LF]; content ++ TOOL_CALL_CLOSE]
     = Returns (map inl (LF :: content)).
Proof.
  intros Hs Hlt Hparse. split; [|by apply json_call_split].
  rewrite (stream_cons _ _ [TaggedToolCall name input]); [done|].
  by apply (json_call_at_once _ (name, input)).
Qed.

Lemma json_call_lost_when_split_witness :
  let codec := {|
    json_from_str s := if starts_with t!"{" s then Some (Object [(t!"name", String t!"ls")]) else None;
    json_to_string v := None;
    parse_f64 s := None |} in
  @stream codec [TOOL_CALL_OPEN ++ LF :: t!"{name:ls}" ++ TOOL_CALL_CLOSE]
  = Returns [inr (t!"ls", Object [])]
  /\ @stream codec [TOOL_CALL_OPEN ++ [LF]; t!"{name:ls}" ++ TOOL_CALL_CLOSE]
     = Returns (map inl (LF :: t!"{name:ls}")).
Proof.
  intros codec. apply (@json_call_lost_when_split codec); [done| |by vm_compute].
  by apply find_char_None.
Defined.
