(* ===== verification/Envelope.v ===== *)
(** The envelopes of the runtime protocol and the state of the normalizer that numbers them:
    src/runtime/json_handoff.rs, src/state/stream_block.rs, src/runtime/update.rs and the
    block and metadata types of crates/vexcoder-api-types. *)
From Stdlib Require Import NArith ZArith Lia.
From stdpp Require Import base list gmap sets strings numbers.
From S2P Require Import Prelude Text Collections Json Usage Evidence DeltaAccumulator TextNormaliser.
#[local] Open Scope N_scope.

(** ** Blocks and updates *)
Inductive ToolStatus : Type :=
| Pending | WaitingApproval | Executing | Complete | Error | Cancelled.

#[global] Instance ToolStatus_eq_dec : EqDecision ToolStatus.
Proof. solve_decision. Defined.

Inductive StreamBlock : Type :=
| Thinking (content : str) (collapsed : bool)
| ToolCall (id name : str) (input : value) (status : ToolStatus)
| ToolResult (tool_call_id output : str) (is_error : bool)
| FinalText (content : str).

Inductive AssistantPhase : Type := PhaseThinking | PhaseFinal.

Record StreamPromptProgress := mk_StreamPromptProgress {
  pp_total : option N;
  pp_cache : option N;
  pp_processed : option N;
  pp_time_ms : option f64;
}.

Record StreamTimings := mk_StreamTimings {
  cache_n : option N;
  prompt_n : option N;
  prompt_ms : option f64;
  prompt_per_token_ms : option f64;
  prompt_per_second : option f64;
  predicted_n : option N;
  predicted_ms : option f64;
  predicted_per_token_ms : option f64;
  predicted_per_second : option f64;
}.

Record StreamChunkMetadata := mk_StreamChunkMetadata {
  md_object : option str;
  md_created : option N;
  md_system_fingerprint : option str;
  md_service_tier : option str;
  md_choice_index : option N;
  md_logprobs : option value;
  md_prompt_progress : option StreamPromptProgress;
  md_timings : option StreamTimings;
}.

Record ToolUseMetadata := mk_ToolUseMetadata {
  call_type : option str;
  choice_index : option N;
}.

Inductive ContentBlock : Type :=
| CText (text : str) (citations : option (list value))
| CToolUse (id name : str) (input : value) (metadata : option ToolUseMetadata)
| CToolResult (tool_use_id content : str) (is_error : bool)
| CThinking (thinking signature : str)
| CThinkingData (data : str)
| CServerToolUse (id name : str) (input : value)
| CWebSearchToolResult (tool_use_id : str) (content : value).

(** The channel the user's answer goes through is not part of the value seen here. *)
Record ToolApprovalRequest := mk_ToolApprovalRequest {
  tar_tool_name : str;
  tar_input_preview : str;
}.

Record ValidationOutput := mk_ValidationOutput {
  vo_label : str;
  vo_exit_code : Z;
  vo_stdout_tail : str;
  vo_stderr_tail : str;
  vo_stdout_tail_limited : bool;
  vo_stderr_tail_limited : bool;
}.
Record ValidationResult := mk_ValidationResult {
  vr_passed : bool;
  vr_outputs : list ValidationOutput;
}.

Inductive EditLoopOutcome : Type :=
| ELSuccess (patch_applied validate_passed : bool)
| ELMaxTurnsReached (last_error : option str)
| ELApprovalDenied
| ELCancelled.

Inductive UiUpdate : Type :=
| UTranscriptLine (line : str)
| UStreamDelta (text : str)
| UStreamBlockStart (index : N) (block : StreamBlock)
| UStreamBlockDelta (index : N) (delta : str)
| UToolCallArgumentsUpdated (tool_call_id : str) (tool_name : option str) (arguments : value)
| UStreamBlockComplete (index : N)
| UToolApprovalRequest (request : ToolApprovalRequest)
| UServerMetadata (metadata : StreamChunkMetadata)
| UCommandSessionStarted (session_id : N) (command : str)
| UCommandSessionAttached (session_id : N) (pid : option N)
| UEditLoopComplete (outcome : EditLoopOutcome) (last : option ValidationResult)
| UCommandSessionFinished (session_id : N)
| UPulseComplete
| UError (message : str)
| UContextCompacted (messages_before messages_after : N) (summary : str).

(** ** Envelopes *)
Inductive RuntimeEnvelopeSource : Type := Model | Runtime | UserRequest | System.

Record ValidationOutputEnvelope := mk_ValidationOutputEnvelope {
  voe_label : str;
  voe_exit_code : Z;
  voe_stdout_tail : str;
  voe_stderr_tail : str;
}.

Inductive RuntimeSignal : Type :=
| PulseStart (input : option str)
| TranscriptLine (line : str)
| TranscriptBlockStart (index : N) (block : StreamBlock)
| TranscriptBlockDelta (index : N) (delta : str)
| TranscriptBlockComplete (index : N)
| ToolCallStatusUpdated (tool_call_id : str) (status : ToolStatus)
| TranscriptBlockPhaseUpdated (index : N) (phase : AssistantPhase) (streaming : bool)
| ToolCallStarted (tool_call_id tool_name : str) (arguments : value) (status : ToolStatus)
    (started_at : str)
| ToolCallArgumentsDelta (tool_call_id : str) (tool_name : option str) (delta : str)
    (status : ToolStatus) (arguments : option value) (invalid_json : bool)
| ToolCallCompleted (tool_call_id : str) (tool_name : option str) (status : ToolStatus)
    (started_at : option str) (completed_at : str) (duration_ms : option N) (output : str)
| ToolCallFailed (tool_call_id : str) (tool_name : option str) (status : ToolStatus)
    (started_at : option str) (completed_at : str) (duration_ms : option N) (output : str)
| ApprovalRequest (capability scope : str) (tool_name : option str)
| ApprovalResolved (capability scope : str) (approved : bool)
| SValidationResult (passed : bool) (outputs : list ValidationOutputEnvelope)
| ServerMetadata (metadata : StreamChunkMetadata)
| UsageUpdated (usage : TokenUsageEnvelope)
| PulseEnd (status : str) (usage : option TokenUsageEnvelope) (changed_files : list str)
| SError (code message : str) (recoverable : bool)
| MaxTurnsReached (max_turns : N).

Record RuntimeEnvelope := mk_RuntimeEnvelope {
  env_version : N;
  env_task_id : str;
  env_pulse : N;
  env_seq : N;
  env_frame_id : str;
  env_emitted_at : str;
  env_source : RuntimeEnvelopeSource;
  env_request_id : option str;
  env_parent_frame_id : option str;
  env_signal : RuntimeSignal;
}.

Inductive RuntimeRequest : Type :=
| SubmitInput (request_id : str) (task_id : option str) (input : str)
| Interrupt (request_id task_id : str)
| ApproveCapability (request_id task_id capability scope : str)
| DenyCapability (request_id task_id capability : str).

Definition request_id (r : RuntimeRequest) : str :=
  match r with
  | SubmitInput i _ _ | Interrupt i _ | ApproveCapability i _ _ _ | DenyCapability i _ _ => i
  end.

Record PulseEndContext := mk_PulseEndContext {
  pec_usage : option TokenUsageEnvelope;
  pec_changed_files : list str;
}.
Definition PulseEndContext_default : PulseEndContext := mk_PulseEndContext None [].

(** ** The clock

    [Utc::now()] and [Instant::now()] read the clock: the n-th reading of a normalizer is
    [utc_now n] ([instant_now n]).  chrono's formatting and arithmetic are operations of the
    class. *)
Class Clock := {
  utc_now : nat -> Z;
  instant_now : nat -> Z;
  timestamp_string : Z -> str;
  nanosecond : Z -> N;
  num_milliseconds : Z -> Z -> Z;
}.

(** ** The normalizer's state *)
Record PendingToolCall := mk_PendingToolCall {
  runtime_id : str;
  ptc_name : str;
  ptc_arguments : value;
  raw_arguments : str;
  start_frame_id : str;
  started_at : Z;
}.

Record PendingToolCallContext := mk_PendingToolCallContext {
  ctx_name : str;
  ctx_start_frame_id : str;
}.

Inductive ToolCallLifecycle : Type := Discovered | Opened | Closed.

Record PendingChatCompatToolState := mk_PendingChatCompatToolState {
  cc_id : str;
  cc_name : str;
  pending_arguments : str;
  materialized_arguments : option value;
  lifecycle : ToolCallLifecycle;
}.
Definition PendingChatCompatToolState_default : PendingChatCompatToolState :=
  mk_PendingChatCompatToolState [] [] [] None Discovered.

Definition TAGGED_TOOL_BLOCK_START_INDEX : N := 1.

Record ProtocolIngressState := mk_ProtocolIngressState {
  turn_started : bool;
  open_blocks : list N;
  turn_tokens : PulseTokens.t;
  chat_compat_message_started : bool;
  tagged_text_normalisers : list (N * StreamTextNormaliser);
  next_tagged_tool_block_index : N;
  chat_compat_tool_lifecycles : list (N * PendingChatCompatToolState);
  has_native_tool_calls : bool;
  chat_compat_stream_terminated : bool;
}.
Definition ProtocolIngressState_default : ProtocolIngressState :=
  mk_ProtocolIngressState false [] PulseTokens.default false []
    TAGGED_TOOL_BLOCK_START_INDEX [] false false.

Definition SYNTHETIC_FINAL_TEXT_BLOCK_START : N := 1000000.

(** [ticks] counts the readings of the clock; it is not a field of the struct. *)
Record RuntimeEnvelopeNormalizer := mk_Normalizer {
  task_id : str;
  pulse : N;
  next_seq : N;
  pending_tool_calls : list (str * PendingToolCall);
  pending_tool_call_contexts : gmap str PendingToolCallContext;
  streaming_tool_call_blocks : gmap N str;
  block_sources : gmap N RuntimeEnvelopeSource;
  turn_changed_files : list str;
  tool_id_counter : N;
  open_final_text_block : option N;
  next_synthetic_block_index : N;
  delta_accumulator : option Acc;
  protocol_ingress : ProtocolIngressState;
  ticks : nat;
}.
Abbreviation Norm := RuntimeEnvelopeNormalizer.

Definition new_inner (task : str) (acc : option Acc) : Norm :=
  mk_Normalizer task 0 1 [] ∅ ∅ ∅ [] 0 None SYNTHETIC_FINAL_TEXT_BLOCK_START acc
    ProtocolIngressState_default 0.

(** ** Field updates *)
Definition set_cc_id (v : str) (c : PendingChatCompatToolState) : PendingChatCompatToolState :=
  mk_PendingChatCompatToolState v (cc_name c) (pending_arguments c) (materialized_arguments
    c) (lifecycle c).
Definition set_cc_name (v : str) (c : PendingChatCompatToolState) : PendingChatCompatToolState :=
  mk_PendingChatCompatToolState (cc_id c) v (pending_arguments c) (materialized_arguments c)
    (lifecycle c).
Definition set_pending_arguments (v : str) (c : PendingChatCompatToolState) : PendingChatCompatToolState :=
  mk_PendingChatCompatToolState (cc_id c) (cc_name c) v (materialized_arguments c)
    (lifecycle c).
Definition set_materialized_arguments (v : option value) (c : PendingChatCompatToolState) : PendingChatCompatToolState :=
  mk_PendingChatCompatToolState (cc_id c) (cc_name c) (pending_arguments c) v (lifecycle c).
Definition set_lifecycle (v : ToolCallLifecycle) (c : PendingChatCompatToolState) : PendingChatCompatToolState :=
  mk_PendingChatCompatToolState (cc_id c) (cc_name c) (pending_arguments c)
    (materialized_arguments c) v.

Definition set_turn_started (v : bool) (p : ProtocolIngressState) : ProtocolIngressState :=
  mk_ProtocolIngressState v (open_blocks p) (turn_tokens p) (chat_compat_message_started p)
    (tagged_text_normalisers p) (next_tagged_tool_block_index p)
    (chat_compat_tool_lifecycles p) (has_native_tool_calls p) (chat_compat_stream_terminated
    p).
Definition set_open_blocks (v : list N) (p : ProtocolIngressState) : ProtocolIngressState :=
  mk_ProtocolIngressState (turn_started p) v (turn_tokens p) (chat_compat_message_started p)
    (tagged_text_normalisers p) (next_tagged_tool_block_index p)
    (chat_compat_tool_lifecycles p) (has_native_tool_calls p) (chat_compat_stream_terminated
    p).
Definition set_turn_tokens (v : PulseTokens.t) (p : ProtocolIngressState) : ProtocolIngressState :=
  mk_ProtocolIngressState (turn_started p) (open_blocks p) v (chat_compat_message_started p)
    (tagged_text_normalisers p) (next_tagged_tool_block_index p)
    (chat_compat_tool_lifecycles p) (has_native_tool_calls p) (chat_compat_stream_terminated
    p).
Definition set_chat_compat_message_started (v : bool) (p : ProtocolIngressState) : ProtocolIngressState :=
  mk_ProtocolIngressState (turn_started p) (open_blocks p) (turn_tokens p) v
    (tagged_text_normalisers p) (next_tagged_tool_block_index p)
    (chat_compat_tool_lifecycles p) (has_native_tool_calls p) (chat_compat_stream_terminated
    p).
Definition set_tagged_text_normalisers (v : list (N * StreamTextNormaliser)) (p : ProtocolIngressState) : ProtocolIngressState :=
  mk_ProtocolIngressState (turn_started p) (open_blocks p) (turn_tokens p)
    (chat_compat_message_started p) v (next_tagged_tool_block_index p)
    (chat_compat_tool_lifecycles p) (has_native_tool_calls p) (chat_compat_stream_terminated
    p).
Definition set_next_tagged_tool_block_index (v : N) (p : ProtocolIngressState) : ProtocolIngressState :=
  mk_ProtocolIngressState (turn_started p) (open_blocks p) (turn_tokens p)
    (chat_compat_message_started p) (tagged_text_normalisers p) v
    (chat_compat_tool_lifecycles p) (has_native_tool_calls p) (chat_compat_stream_terminated
    p).
Definition set_chat_compat_tool_lifecycles (v : list (N * PendingChatCompatToolState)) (p : ProtocolIngressState) : ProtocolIngressState :=
  mk_ProtocolIngressState (turn_started p) (open_blocks p) (turn_tokens p)
    (chat_compat_message_started p) (tagged_text_normalisers p)
    (next_tagged_tool_block_index p) v (has_native_tool_calls p)
    (chat_compat_stream_terminated p).
Definition set_has_native_tool_calls (v : bool) (p : ProtocolIngressState) : ProtocolIngressState :=
  mk_ProtocolIngressState (turn_started p) (open_blocks p) (turn_tokens p)
    (chat_compat_message_started p) (tagged_text_normalisers p)
    (next_tagged_tool_block_index p) (chat_compat_tool_lifecycles p) v
    (chat_compat_stream_terminated p).
Definition set_chat_compat_stream_terminated (v : bool) (p : ProtocolIngressState) : ProtocolIngressState :=
  mk_ProtocolIngressState (turn_started p) (open_blocks p) (turn_tokens p)
    (chat_compat_message_started p) (tagged_text_normalisers p)
    (next_tagged_tool_block_index p) (chat_compat_tool_lifecycles p) (has_native_tool_calls
    p) v.

Definition set_pulse (v : N) (n : Norm) : Norm :=
  mk_Normalizer (task_id n) v (next_seq n) (pending_tool_calls n)
    (pending_tool_call_contexts n) (streaming_tool_call_blocks n) (block_sources n)
    (turn_changed_files n) (tool_id_counter n) (open_final_text_block n)
    (next_synthetic_block_index n) (delta_accumulator n) (protocol_ingress n) (ticks n).
Definition set_next_seq (v : N) (n : Norm) : Norm :=
  mk_Normalizer (task_id n) (pulse n) v (pending_tool_calls n) (pending_tool_call_contexts
    n) (streaming_tool_call_blocks n) (block_sources n) (turn_changed_files n)
    (tool_id_counter n) (open_final_text_block n) (next_synthetic_block_index n)
    (delta_accumulator n) (protocol_ingress n) (ticks n).
Definition set_pending_tool_calls (v : list (str * PendingToolCall)) (n : Norm) : Norm :=
  mk_Normalizer (task_id n) (pulse n) (next_seq n) v (pending_tool_call_contexts n)
    (streaming_tool_call_blocks n) (block_sources n) (turn_changed_files n) (tool_id_counter
    n) (open_final_text_block n) (next_synthetic_block_index n) (delta_accumulator n)
    (protocol_ingress n) (ticks n).
Definition set_pending_tool_call_contexts (v : gmap str PendingToolCallContext) (n : Norm) : Norm :=
  mk_Normalizer (task_id n) (pulse n) (next_seq n) (pending_tool_calls n) v
    (streaming_tool_call_blocks n) (block_sources n) (turn_changed_files n) (tool_id_counter
    n) (open_final_text_block n) (next_synthetic_block_index n) (delta_accumulator n)
    (protocol_ingress n) (ticks n).
Definition set_streaming_tool_call_blocks (v : gmap N str) (n : Norm) : Norm :=
  mk_Normalizer (task_id n) (pulse n) (next_seq n) (pending_tool_calls n)
    (pending_tool_call_contexts n) v (block_sources n) (turn_changed_files n)
    (tool_id_counter n) (open_final_text_block n) (next_synthetic_block_index n)
    (delta_accumulator n) (protocol_ingress n) (ticks n).
Definition set_block_sources (v : gmap N RuntimeEnvelopeSource) (n : Norm) : Norm :=
  mk_Normalizer (task_id n) (pulse n) (next_seq n) (pending_tool_calls n)
    (pending_tool_call_contexts n) (streaming_tool_call_blocks n) v (turn_changed_files n)
    (tool_id_counter n) (open_final_text_block n) (next_synthetic_block_index n)
    (delta_accumulator n) (protocol_ingress n) (ticks n).
Definition set_turn_changed_files (v : list str) (n : Norm) : Norm :=
  mk_Normalizer (task_id n) (pulse n) (next_seq n) (pending_tool_calls n)
    (pending_tool_call_contexts n) (streaming_tool_call_blocks n) (block_sources n) v
    (tool_id_counter n) (open_final_text_block n) (next_synthetic_block_index n)
    (delta_accumulator n) (protocol_ingress n) (ticks n).
Definition set_tool_id_counter (v : N) (n : Norm) : Norm :=
  mk_Normalizer (task_id n) (pulse n) (next_seq n) (pending_tool_calls n)
    (pending_tool_call_contexts n) (streaming_tool_call_blocks n) (block_sources n)
    (turn_changed_files n) v (open_final_text_block n) (next_synthetic_block_index n)
    (delta_accumulator n) (protocol_ingress n) (ticks n).
Definition set_open_final_text_block (v : option N) (n : Norm) : Norm :=
  mk_Normalizer (task_id n) (pulse n) (next_seq n) (pending_tool_calls n)
    (pending_tool_call_contexts n) (streaming_tool_call_blocks n) (block_sources n)
    (turn_changed_files n) (tool_id_counter n) v (next_synthetic_block_index n)
    (delta_accumulator n) (protocol_ingress n) (ticks n).
Definition set_next_synthetic_block_index (v : N) (n : Norm) : Norm :=
  mk_Normalizer (task_id n) (pulse n) (next_seq n) (pending_tool_calls n)
    (pending_tool_call_contexts n) (streaming_tool_call_blocks n) (block_sources n)
    (turn_changed_files n) (tool_id_counter n) (open_final_text_block n) v
    (delta_accumulator n) (protocol_ingress n) (ticks n).
Definition set_delta_accumulator (v : option Acc) (n : Norm) : Norm :=
  mk_Normalizer (task_id n) (pulse n) (next_seq n) (pending_tool_calls n)
    (pending_tool_call_contexts n) (streaming_tool_call_blocks n) (block_sources n)
    (turn_changed_files n) (tool_id_counter n) (open_final_text_block n)
    (next_synthetic_block_index n) v (protocol_ingress n) (ticks n).
Definition set_protocol_ingress (v : ProtocolIngressState) (n : Norm) : Norm :=
  mk_Normalizer (task_id n) (pulse n) (next_seq n) (pending_tool_calls n)
    (pending_tool_call_contexts n) (streaming_tool_call_blocks n) (block_sources n)
    (turn_changed_files n) (tool_id_counter n) (open_final_text_block n)
    (next_synthetic_block_index n) (delta_accumulator n) v (ticks n).
Definition set_ticks (v : nat) (n : Norm) : Norm :=
  mk_Normalizer (task_id n) (pulse n) (next_seq n) (pending_tool_calls n)
    (pending_tool_call_contexts n) (streaming_tool_call_blocks n) (block_sources n)
    (turn_changed_files n) (tool_id_counter n) (open_final_text_block n)
    (next_synthetic_block_index n) (delta_accumulator n) (protocol_ingress n) v.

(** [self.protocol_ingress.field = v]. *)
Definition on_ingress (f : ProtocolIngressState -> ProtocolIngressState) (n : Norm) : Norm :=
  set_protocol_ingress (f (protocol_ingress n)) n.

(** A clock to evaluate examples with: one millisecond per reading. *)
Definition step_clock : Clock := {|
  utc_now i := Z.of_nat i;
  instant_now i := Z.of_nat i;
  timestamp_string z := t!"t" ++ fmt_Z z;
  nanosecond z := Z.to_N (z * 1000000);
  num_milliseconds a b := (a - b)%Z;
|}.
