(* ===== verification/Normalizer.v ===== *)
(** The normalizer of the runtime protocol: src/runtime/json_handoff.rs and
    src/runtime/json_handoff/tool_calls.rs.  Each method of [RuntimeEnvelopeNormalizer] that
    takes [&mut self] is an action of [ST Norm]; the log lines are left out. *)
From Stdlib Require Import NArith ZArith Lia.
From stdpp Require Import base list gmap sets strings numbers.
From S2P Require Import Prelude Text Collections Json Usage Evidence DeltaAccumulator TextNormaliser Envelope.
#[local] Open Scope N_scope.

(** [generate_tool_call_id] of the module: the text of the id and the counter after
    [fetch_add]. *)
Definition generate_tool_call_id (counter entropy : N) : str * N :=
  let count := sat_add u32_max counter 1 in
  (t!"tx_" ++ fmt_N count ++ t!"_" ++ fmt_hex4 entropy, wrap_add u32_max counter 1).

Definition source_for_stream_block (block : StreamBlock) : RuntimeEnvelopeSource :=
  match block with
  | ToolResult _ _ _ => Runtime
  | Thinking _ _ | ToolCall _ _ _ _ | FinalText _ => Model
  end.

Definition source_for_signal (signal : RuntimeSignal) : RuntimeEnvelopeSource :=
  match signal with
  | PulseStart _ | ApprovalResolved _ _ _ => UserRequest
  | TranscriptLine _ => Runtime
  | TranscriptBlockStart _ block => source_for_stream_block block
  | TranscriptBlockComplete _ | ToolCallStarted _ _ _ _ _ | ToolCallArgumentsDelta _ _ _ _ _ _
  | ServerMetadata _ | UsageUpdated _ => Model
  | TranscriptBlockDelta _ _ => Runtime
  | ToolCallStatusUpdated _ _ | TranscriptBlockPhaseUpdated _ _ _
  | ToolCallCompleted _ _ _ _ _ _ _ | ToolCallFailed _ _ _ _ _ _ _ | ApprovalRequest _ _ _
  | SValidationResult _ _ | PulseEnd _ _ _ | SError _ _ _ | MaxTurnsReached _ => Runtime
  end.

Definition approval_resolution_signal (request : RuntimeRequest) : option RuntimeSignal :=
  match request with
  | ApproveCapability _ _ capability scope => Some (ApprovalResolved capability scope true)
  | DenyCapability _ _ capability => Some (ApprovalResolved capability t!"once" false)
  | SubmitInput _ _ _ | Interrupt _ _ => None
  end.

Definition capability_name_for_tool (tool_name : str) : option str :=
  if str_in tool_name [t!"read_file"; t!"list_files"; t!"list_directory"; t!"list_dir";
       t!"glob_files"; t!"search"; t!"search_files"; t!"search_content"; t!"find_files";
       t!"git_status"; t!"git_diff"; t!"git_log"; t!"git_show"] then Some t!"read-file"
  else if str_in tool_name [t!"write_file"; t!"edit_file"; t!"rename_file"] then
    Some t!"write-file"
  else if str_in tool_name [t!"apply_patch"; t!"git_add"; t!"git_commit"] then
    Some t!"apply-patch"
  else if str_in tool_name [t!"run_command"] then Some t!"run-command"
  else None.

Definition approval_request_signal (request : ToolApprovalRequest) : RuntimeSignal :=
  ApprovalRequest (unwrap_or (capability_name_for_tool (tar_tool_name request)) t!"unknown")
    t!"once" (Some (tar_tool_name request)).

Definition frame_id (task : str) (pulse seq : N) : str :=
  t!"evt:" ++ task ++ t!":" ++ fmt_N pulse ++ t!":" ++ fmt_N seq.

(** The [find] over [values_mut] and the update of the entry found: the new arguments when
    the accumulated text parses. *)
Definition append_delta `{SerdeJson} (delta : str) (p : PendingToolCall)
    : option value * PendingToolCall :=
  let raw := raw_arguments p ++ delta in
  let parsed := match json_from_str raw with Some v => Some v | None => json_from_str (trim raw) end in
  (parsed,
   mk_PendingToolCall (runtime_id p) (ptc_name p) (unwrap_or parsed (ptc_arguments p)) raw
     (start_frame_id p) (started_at p)).

Fixpoint append_delta_first `{SerdeJson} (id delta : str) (l : list (str * PendingToolCall))
    : option value * list (str * PendingToolCall) :=
  match l with
  | [] => (None, [])
  | (k, p) :: r =>
      if str_eqb (runtime_id p) id then
        let '(v, p') := append_delta delta p in (v, (k, p') :: r)
      else let '(v, r') := append_delta_first id delta r in (v, (k, p) :: r')
  end.

Definition serialize_tool_arguments `{SerdeJson} (arguments : value) : str :=
  match arguments with
  | Object [] => []
  | _ => unwrap_or (json_to_string arguments) []
  end.

Section normalizer.
Context {clk : Clock} {ord : HashOrder} {js : SerdeJson}.

Definition now : ST Norm Z := fun n => (utc_now (ticks n), set_ticks (S (ticks n)) n).
(** [Instant::now()], read by every operation of the accumulator that stores it. *)
Definition instant : ST Norm Z := fun n => (instant_now (ticks n), set_ticks (S (ticks n)) n).

(** ** Numbering *)
Definition next_envelope_with_source (signal : RuntimeSignal) (request parent : option str)
    (source : option RuntimeEnvelopeSource) : ST Norm RuntimeEnvelope :=
  emitted ← now;
  st_state (fun n =>
    let seq := next_seq n in
    (mk_RuntimeEnvelope 1 (task_id n) (pulse n) seq (frame_id (task_id n) (pulse n) seq)
       (timestamp_string emitted) (unwrap_or source (source_for_signal signal))
       request parent signal,
     set_next_seq (sat_add u64_max seq 1) n)).

Definition next_envelope_with_context (signal : RuntimeSignal) (request parent : option str)
    : ST Norm RuntimeEnvelope := next_envelope_with_source signal request parent None.

Definition next_envelope (signal : RuntimeSignal) : ST Norm RuntimeEnvelope :=
  next_envelope_with_context signal None None.

Definition emit_signal : RuntimeSignal -> ST Norm RuntimeEnvelope := next_envelope.

Definition clear_pulse (n : Norm) : Norm :=
  set_pending_tool_calls [] (set_pending_tool_call_contexts ∅
    (set_streaming_tool_call_blocks ∅ (set_block_sources ∅ n))).

Definition start_pulse (p : N) (input : option str) : ST Norm RuntimeEnvelope :=
  st_modify (set_pulse p);;
  st_modify clear_pulse;;
  st_modify (set_turn_changed_files []);;
  st_modify (set_open_final_text_block None);;
  st_modify (set_next_synthetic_block_index SYNTHETIC_FINAL_TEXT_BLOCK_START);;
  st_modify (set_protocol_ingress ProtocolIngressState_default);;
  next_envelope (PulseStart input).

(** ** The argument accumulator: [None] when the normalizer has none. *)
Definition on_accumulator {A} (f : Acc -> A * Acc) : ST Norm (option A) := fun n =>
  match delta_accumulator n with
  | None => (None, n)
  | Some acc => let '(a, acc') := f acc in (Some a, set_delta_accumulator (Some acc') n)
  end.

Definition start_tool_accumulator (id name : str) : ST Norm unit :=
  t ← instant;
  task ← st_gets task_id;
  on_accumulator (start_tool id task name t);;
  mret tt.

Definition seed_tool_accumulator (id : str) (arguments : value) : ST Norm unit :=
  match json_to_string arguments with
  | None => mret tt
  | Some serialized =>
      if str_eqb serialized t!"{}" then mret tt
      else t ← instant; on_accumulator (accumulate id serialized t);; mret tt
  end.

Definition accumulate_tool_delta (id delta : str) : ST Norm (option AccumulationError) :=
  t ← instant;
  r ← on_accumulator (accumulate id delta t);
  mret (match r with Some (inr error) => Some error | _ => None end).

Definition finish_tool_accumulator (id : str) : ST Norm unit :=
  t ← instant;
  on_accumulator (fun acc => (tt, DeltaAccumulator.finish id t acc));;
  mret tt.

Fixpoint finish_accumulations (ids : list str) : ST Norm unit :=
  match ids with
  | [] => mret tt
  | id :: r => finish_tool_accumulator id;; finish_accumulations r
  end.
Definition finish_pending_tool_accumulations : ST Norm unit :=
  ids ← st_gets (fun n => map (fun kv => runtime_id kv.2) (pending_tool_calls n));
  finish_accumulations ids.

(** ** Tool calls *)
Definition next_tool_call_id : ST Norm str :=
  t ← now;
  st_state (fun n =>
    let counter := tool_id_counter n in
    let entropy := N.land (N.lxor (nanosecond t) counter) 65535 in
    let '(id, counter') := generate_tool_call_id counter entropy in
    (id, set_tool_id_counter counter' n)).

(** The common part of [record_tool_call] and [normalize_grammar_tool_call], which differ in
    the key of the pending call: the source's id, or the runtime id itself. *)
Definition open_tool_call (source : option str) (name : str) (arguments : value)
    : ST Norm RuntimeEnvelope :=
  id ← next_tool_call_id;
  t ← now;
  envelope ← next_envelope (ToolCallStarted id name arguments Pending (timestamp_string t));
  let pending :=
    mk_PendingToolCall id name arguments (serialize_tool_arguments arguments)
      (env_frame_id envelope) t in
  st_modify (fun n =>
    set_pending_tool_calls (im_insert (unwrap_or source id) pending (pending_tool_calls n)) n);;
  st_modify (fun n =>
    set_pending_tool_call_contexts
      (<[id := mk_PendingToolCallContext name (env_frame_id envelope)]>
         (pending_tool_call_contexts n)) n);;
  start_tool_accumulator id name;;
  seed_tool_accumulator id arguments;;
  mret envelope.

Definition record_tool_call (source_id name : str) (arguments : value)
    : ST Norm RuntimeEnvelope := open_tool_call (Some source_id) name arguments.

Definition normalize_grammar_tool_call (v : value) : ST Norm (option RuntimeEnvelope) :=
  match value_get t!"name" v ≫= as_str with
  | None => mret None
  | Some name =>
      let arguments := unwrap_or (value_get t!"arguments" v) empty_json_object in
      envelope ← open_tool_call None name arguments;
      mret (Some envelope)
  end.

(** [num_milliseconds().max(0) as u64]. *)
Definition duration_ms (completed started : Z) : N :=
  Z.to_N (Z.max 0 (num_milliseconds completed started)).

Definition result_signal (is_error : bool) (id : str) (name : option str)
    (started : option str) (completed : str) (duration : option N) (output : str)
    : RuntimeSignal :=
  if is_error then ToolCallFailed id name Error started completed duration output
  else ToolCallCompleted id name Complete started completed duration output.

Definition record_tool_result (source_id output : str) (is_error : bool)
    : ST Norm RuntimeEnvelope :=
  completed ← now;
  found ← st_gets (fun n => im_get source_id (pending_tool_calls n));
  match found with
  | Some pending =>
      st_modify (fun n =>
        set_pending_tool_calls (im_remove source_id (pending_tool_calls n)) n);;
      st_modify (fun n =>
        set_pending_tool_call_contexts
          (delete (runtime_id pending) (pending_tool_call_contexts n)) n);;
      finish_tool_accumulator (runtime_id pending);;
      (if is_error then mret tt
       else st_modify (fun n =>
              set_turn_changed_files
                (note_changed_files_from_tool_call (turn_changed_files n)
                   (ptc_name pending) (ptc_arguments pending)) n));;
      next_envelope_with_context
        (result_signal is_error (runtime_id pending) (Some (ptc_name pending))
           (Some (timestamp_string (started_at pending))) (timestamp_string completed)
           (Some (duration_ms completed (started_at pending))) output)
        None (Some (start_frame_id pending))
  | None =>
      next_envelope
        (result_signal is_error source_id None None (timestamp_string completed) None output)
  end.

Definition append_pending_tool_delta (id delta : str) : ST Norm (option value) := fun n =>
  let '(v, l) := append_delta_first id delta (pending_tool_calls n) in
  (v, set_pending_tool_calls l n).

Definition record_tool_call_arguments_delta (id delta : str) : ST Norm RuntimeEnvelope :=
  context ← st_gets (fun n => pending_tool_call_contexts n !! id);
  error ← accumulate_tool_delta id delta;
  arguments ← append_pending_tool_delta id delta;
  next_envelope_with_context
    (ToolCallArgumentsDelta id (ctx_name <$> context) delta Pending arguments
       (match error with Some MalformedPartial => true | _ => false end))
    None (ctx_start_frame_id <$> context).

Definition resolve_changed_files (changed_files : list str) : ST Norm (list str) :=
  st_gets (fun n => match changed_files with [] => turn_changed_files n | _ => changed_files end).

(** ** The synthetic block of [StreamDelta] *)
Definition ensure_open_final_text_block : ST Norm (N * list RuntimeEnvelope) :=
  block ← st_gets open_final_text_block;
  match block with
  | Some index => mret (index, [])
  | None =>
      index ← st_gets next_synthetic_block_index;
      st_modify (set_next_synthetic_block_index (sat_add usize_max index 1));;
      st_modify (set_open_final_text_block (Some index));;
      st_modify (fun n => set_block_sources (<[index := Model]> (block_sources n)) n);;
      start ← next_envelope_with_source (TranscriptBlockStart index (FinalText []))
                None None (Some Model);
      mret (index, [start])
  end.

Definition close_open_final_text_block : ST Norm (list RuntimeEnvelope) :=
  block ← st_gets open_final_text_block;
  match block with
  | None => mret []
  | Some index =>
      st_modify (set_open_final_text_block None);;
      source ← st_gets (fun n => block_sources n !! index);
      st_modify (fun n => set_block_sources (delete index (block_sources n)) n);;
      e ← next_envelope_with_source (TranscriptBlockComplete index) None None source;
      mret [e]
  end.

(** ** Blocks, updates and requests *)
Definition normalize_content_block (block : ContentBlock) : ST Norm (list RuntimeEnvelope) :=
  match block with
  | CToolUse id name input _ | CServerToolUse id name input =>
      e ← record_tool_call id name input; mret [e]
  | CToolResult tool_use_id content is_error =>
      e ← record_tool_result tool_use_id content is_error; mret [e]
  | CText _ _ | CThinking _ _ | CThinkingData _ | CWebSearchToolResult _ _ => mret []
  end.

Definition normalize_stream_block (block : StreamBlock) : ST Norm (list RuntimeEnvelope) :=
  match block with
  | ToolCall id name input _ => e ← record_tool_call id name input; mret [e]
  | ToolResult tool_call_id output is_error =>
      e ← record_tool_result tool_call_id output is_error; mret [e]
  | Thinking _ _ | FinalText _ => mret []
  end.

Definition option_list {A} (o : option A) : list A := match o with Some a => [a] | None => [] end.

Definition normalize_tool_call_array (v : value) : ST Norm (list RuntimeEnvelope) :=
  match v with
  | Array items => st_concat (fun item => e ← normalize_grammar_tool_call item; mret (option_list e)) items
  | Object _ => e ← normalize_grammar_tool_call v; mret (option_list e)
  | _ => mret []
  end.

Definition finish_turn_with_status (status : str) (turn_end : PulseEndContext)
    : ST Norm (list RuntimeEnvelope) :=
  changed ← resolve_changed_files (pec_changed_files turn_end);
  finish_pending_tool_accumulations;;
  envelopes ← close_open_final_text_block;
  st_modify clear_pulse;;
  e ← next_envelope (PulseEnd status (pec_usage turn_end) changed);
  mret (envelopes ++ [e]).

Definition complete_turn (turn_end : PulseEndContext) : ST Norm (list RuntimeEnvelope) :=
  finish_turn_with_status t!"completed" turn_end.
Definition emit_cancelled (turn_end : PulseEndContext) : ST Norm (list RuntimeEnvelope) :=
  finish_turn_with_status t!"cancelled" turn_end.

Definition emit_error (code message : str) (recoverable : bool) (turn_end : PulseEndContext)
    : ST Norm (list RuntimeEnvelope) :=
  envelopes ← close_open_final_text_block;
  e ← next_envelope (SError code message recoverable);
  if recoverable then mret (envelopes ++ [e])
  else
    changed ← resolve_changed_files (pec_changed_files turn_end);
    finish_pending_tool_accumulations;;
    st_modify clear_pulse;;
    e' ← next_envelope (PulseEnd t!"failed" (pec_usage turn_end) changed);
    mret (envelopes ++ [e] ++ [e']).

Definition emit_max_turns_reached (max_turns : N) (turn_end : PulseEndContext)
    : ST Norm (list RuntimeEnvelope) :=
  envelopes ← close_open_final_text_block;
  changed ← resolve_changed_files (pec_changed_files turn_end);
  finish_pending_tool_accumulations;;
  st_modify clear_pulse;;
  e ← next_envelope (MaxTurnsReached max_turns);
  e' ← next_envelope (PulseEnd t!"failed" (pec_usage turn_end) changed);
  mret (envelopes ++ [e] ++ [e']).

Definition normalize_ui_update (update : UiUpdate) (turn_end : option PulseEndContext)
    : ST Norm (list RuntimeEnvelope) :=
  let turn_end := unwrap_or turn_end PulseEndContext_default in
  match update with
  | UTranscriptLine line =>
      envelopes ← close_open_final_text_block;
      e ← next_envelope (TranscriptLine line);
      mret (envelopes ++ [e])
  | UStreamDelta text =>
      block ← ensure_open_final_text_block;
      source ← st_gets (fun n => block_sources n !! block.1);
      e ← next_envelope_with_source (TranscriptBlockDelta block.1 text) None None source;
      mret (block.2 ++ [e])
  | UStreamBlockStart index block =>
      envelopes ← close_open_final_text_block;
      let source := source_for_stream_block block in
      st_modify (fun n => set_block_sources (<[index := source]> (block_sources n)) n);;
      e ← next_envelope_with_source (TranscriptBlockStart index block) None None (Some source);
      es ← normalize_stream_block block;
      st_modify (fun n =>
        match block with
        | ToolCall id _ _ _ =>
            match im_get id (pending_tool_calls n) with
            | Some pending =>
                set_streaming_tool_call_blocks
                  (<[index := runtime_id pending]> (streaming_tool_call_blocks n)) n
            | None => n
            end
        | _ => n
        end);;
      mret (envelopes ++ [e] ++ es)
  | UStreamBlockDelta index delta =>
      source ← st_gets (fun n => block_sources n !! index);
      e ← next_envelope_with_source (TranscriptBlockDelta index delta) None None source;
      call ← st_gets (fun n => streaming_tool_call_blocks n !! index);
      match call with
      | Some id => e' ← record_tool_call_arguments_delta id delta; mret [e; e']
      | None => mret [e]
      end
  | UStreamBlockComplete index =>
      call ← st_gets (fun n => streaming_tool_call_blocks n !! index);
      st_modify (fun n =>
        set_streaming_tool_call_blocks (delete index (streaming_tool_call_blocks n)) n);;
      (match call with Some id => finish_tool_accumulator id | None => mret tt end);;
      source ← st_gets (fun n => block_sources n !! index);
      st_modify (fun n => set_block_sources (delete index (block_sources n)) n);;
      e ← next_envelope_with_source (TranscriptBlockComplete index) None None source;
      mret [e]
  | UPulseComplete => complete_turn turn_end
  | UError message => emit_error t!"runtime_error" message false turn_end
  | UToolApprovalRequest request =>
      envelopes ← close_open_final_text_block;
      e ← next_envelope (approval_request_signal request);
      mret (envelopes ++ [e])
  | UServerMetadata metadata => e ← next_envelope (ServerMetadata metadata); mret [e]
  | UCommandSessionStarted _ _ | UCommandSessionAttached _ _ | UCommandSessionFinished _
  | UToolCallArgumentsUpdated _ _ _ | UEditLoopComplete _ _ | UContextCompacted _ _ _ => mret []
  end.

Definition normalize_runtime_request (request : RuntimeRequest)
    : ST Norm (list RuntimeEnvelope) :=
  match approval_resolution_signal request with
  | Some signal =>
      e ← next_envelope_with_context signal (Some (request_id request)) None;
      mret [e]
  | None => mret []
  end.
End normalizer.
