(* ===== verification/NormalizerTheory.v ===== *)
(** What the normalizer guarantees, whatever the order of its operations: the numbering of the
    envelopes, the identity of tool calls from their start to their result, and the end of a
    pulse. *)
From Stdlib Require Import NArith ZArith Lia.
From stdpp Require Import base list gmap sets strings numbers.
From S2P Require Import Prelude Text Collections Json Usage Evidence DeltaAccumulator TextNormaliser Envelope Normalizer.
#[local] Open Scope N_scope.

(** ** Numbering *)
Definition envelope_of (n : Norm) (e : RuntimeEnvelope) : Prop :=
  env_version e = 1 /\ env_task_id e = task_id n /\ env_pulse e = pulse n
  /\ env_frame_id e = frame_id (task_id n) (pulse n) (env_seq e).

(** From [n] to [n'] exactly the envelopes [es] were numbered. *)
Record numbered (n : Norm) (es : list RuntimeEnvelope) (n' : Norm) : Prop := {
  nb_task : task_id n' = task_id n;
  nb_pulse : pulse n' = pulse n;
  nb_le : next_seq n <= u64_max -> next_seq n' <= u64_max;
  nb_next : next_seq n <= u64_max ->
    next_seq n' = sat_add u64_max (next_seq n) (N.of_nat (length es));
  nb_each : next_seq n <= u64_max -> forall i e, es !! i = Some e ->
    envelope_of n e /\ env_seq e = sat_add u64_max (next_seq n) (N.of_nat i);
}.

Lemma sat_add_add max a i j : a <= max -> sat_add max (sat_add max a i) j = sat_add max a (i + j).
Proof. unfold sat_add. lia. Qed.

Definition numbering (n : Norm) : str * N * N := (task_id n, pulse n, next_seq n).

Lemma numbered_silent n n' : numbering n' = numbering n -> numbered n [] n'.
Proof.
  intros [= Ht Hp Hs]. split; try done; cbn; rewrite ?Hs; try done.
  intros. unfold sat_add. lia.
Qed.

Lemma numbered_app n es n1 es' n2 :
  numbered n es n1 -> numbered n1 es' n2 -> numbered n (es ++ es') n2.
Proof.
  intros [Ht Hp Hl Hn He] [Ht' Hp' Hl' Hn' He']. split; try congruence; [auto| |].
  - intros Hb. rewrite Hn', Hn, sat_add_add by auto. f_equal. rewrite length_app. lia.
  - intros Hb i e Hi. apply lookup_app_Some in Hi as [Hi|[Hle Hi]]; [auto|].
    destruct (He' (Hl Hb) _ _ Hi) as [(Hv & Htask & Hpul & Hf) Hseq]. split.
    + unfold envelope_of. rewrite Hv, Htask, Hpul, Hf, Ht, Hp. done.
    + rewrite Hseq, Hn, sat_add_add by done. f_equal. lia.
Qed.

(** A silent step in front. *)
Lemma numbered_after n n1 es n2 : numbered n [] n1 -> numbered n1 es n2 -> numbered n es n2.
Proof. apply (numbered_app n [] n1 es n2). Qed.

(** ** The steps a normalizer is made of

    Between two starts every operation is a sequence of the six steps below: changes that do
    not touch the core of the state, an envelope, the three steps of a tool call, and the end
    of a pulse. *)
Definition core (n : Norm) :=
  (task_id n, pulse n, next_seq n, pending_tool_calls n, pending_tool_call_contexts n,
   tool_id_counter n).

Definition call_signal (s : RuntimeSignal) : bool :=
  match s with
  | ToolCallStarted _ _ _ _ _ | ToolCallArgumentsDelta _ _ _ _ _ _
  | ToolCallCompleted _ _ _ _ _ _ _ | ToolCallFailed _ _ _ _ _ _ _ => true
  | _ => false
  end.

Section steps.
Context {clk : Clock} {ord : HashOrder} {js : SerdeJson}.

Inductive step (n : Norm) : list RuntimeEnvelope -> Norm -> Prop :=
| step_silent n' : core n' = core n -> step n [] n'
| step_emit signal req src e n' :
    call_signal signal = false ->
    next_envelope_with_source signal req None src n = (e, n') -> step n [e] n'
| step_open source name args e n' :
    open_tool_call source name args n = (e, n') -> step n [e] n'
| step_arguments id delta e n' :
    record_tool_call_arguments_delta id delta n = (e, n') -> step n [e] n'
| step_result source output is_error e n' :
    record_tool_result source output is_error n = (e, n') -> step n [e] n'
| step_clear : step n [] (clear_pulse n).

Abbreviation steps := (trace step).

Lemma steps_silent n n' : core n' = core n -> steps n [] n'.
Proof. intros Hc. by apply trace_one, step_silent. Qed.

Lemma steps_next signal req src n e n' :
  next_envelope_with_source signal req None src n = (e, n') -> call_signal signal = false ->
  steps n [e] n'.
Proof. intros Hn Hc. eapply trace_one, step_emit; done. Qed.

(** *** The parts of the operations that are silent *)
Lemma core_now n t n' : now n = (t, n') -> core n' = core n.
Proof. by intros [= _ <-]. Qed.
Lemma core_instant n t n' : instant n = (t, n') -> core n' = core n.
Proof. by intros [= _ <-]. Qed.
Lemma core_accumulator {A} (f : Acc -> A * Acc) n a n' :
  on_accumulator f n = (a, n') -> core n' = core n.
Proof.
  unfold on_accumulator. destruct (delta_accumulator n) as [acc|]; [destruct (f acc)|];
    by intros [= _ <-].
Qed.

Ltac core_chain :=
  repeat match goal with
  | H : now _ = _ |- _ => apply core_now in H
  | H : instant _ = _ |- _ => apply core_instant in H
  | H : on_accumulator _ _ = _ |- _ => apply core_accumulator in H
  end; congruence.

Lemma core_start_accumulator id name n u n' :
  start_tool_accumulator id name n = (u, n') -> core n' = core n.
Proof. unfold start_tool_accumulator. intros Hn. st_inv. core_chain. Qed.

Lemma core_seed_accumulator id args n u n' :
  seed_tool_accumulator id args n = (u, n') -> core n' = core n.
Proof.
  unfold seed_tool_accumulator. intros Hn. repeat case_match; st_inv; core_chain.
Qed.

Lemma core_accumulate id delta n r n' :
  accumulate_tool_delta id delta n = (r, n') -> core n' = core n.
Proof. unfold accumulate_tool_delta. intros Hn. st_inv. core_chain. Qed.

Lemma core_finish_accumulator id n u n' :
  finish_tool_accumulator id n = (u, n') -> core n' = core n.
Proof. unfold finish_tool_accumulator. intros Hn. st_inv. core_chain. Qed.

Lemma core_finish_accumulations ids n u n' :
  finish_accumulations ids n = (u, n') -> core n' = core n.
Proof.
  revert n. induction ids as [|id ids IH]; cbn [finish_accumulations]; intros n Hn; st_inv; [done|].
  match goal with H : finish_tool_accumulator _ _ = _ |- _ => apply core_finish_accumulator in H end.
  match goal with H : finish_accumulations _ _ = _ |- _ => apply IH in H end. congruence.
Qed.

Lemma core_finish_pending n u n' :
  finish_pending_tool_accumulations n = (u, n') -> core n' = core n.
Proof.
  unfold finish_pending_tool_accumulations. intros Hn. st_inv. by eapply core_finish_accumulations.
Qed.

(** *** The operations *)
Lemma steps_modify (f : Norm -> Norm) n u n' :
  st_modify f n = (u, n') -> core (f n) = core n -> steps n [] n'.
Proof. intros ->%st_modify_inv Hc. by apply steps_silent. Qed.

Lemma steps_clear n u n' : st_modify clear_pulse n = (u, n') -> steps n [] n'.
Proof. intros ->%st_modify_inv. apply trace_one, step_clear. Qed.

Lemma steps_open source name args n e n' :
  open_tool_call source name args n = (e, n') -> steps n [e] n'.
Proof. intros Hn. eapply trace_one, step_open, Hn. Qed.
Lemma steps_record_call source name args n e n' :
  record_tool_call source name args n = (e, n') -> steps n [e] n'.
Proof. exact (steps_open (Some source) name args n e n'). Qed.
Lemma steps_result source output is_error n e n' :
  record_tool_result source output is_error n = (e, n') -> steps n [e] n'.
Proof. intros Hn. eapply trace_one, step_result, Hn. Qed.
Lemma steps_arguments id delta n e n' :
  record_tool_call_arguments_delta id delta n = (e, n') -> steps n [e] n'.
Proof. intros Hn. eapply trace_one, step_arguments, Hn. Qed.
Lemma steps_signal signal n e n' :
  next_envelope signal n = (e, n') -> call_signal signal = false -> steps n [e] n'.
Proof. intros Hn Hc. by apply (steps_next signal None None). Qed.
Lemma steps_context signal req n e n' :
  next_envelope_with_context signal req None n = (e, n') -> call_signal signal = false ->
  steps n [e] n'.
Proof. intros Hn Hc. by apply (steps_next signal req None). Qed.

(** Splits an equation into the equations of its parts and turns each into steps. *)
Ltac to_steps :=
  repeat match goal with
  | H : (_ ≫= _) _ = (_, _) |- _ =>
      apply st_bind_inv in H; destruct H as (? & ? & ? & ?)
  | H : mret _ _ = (_, _) |- _ => apply st_ret_inv in H; destruct H; subst
  | H : st_gets _ _ = (_, _) |- _ => apply st_gets_inv in H; destruct H; subst
  | H : st_modify clear_pulse _ = _ |- _ => apply steps_clear in H
  | H : st_modify _ _ = _ |- _ => apply steps_modify in H; [|reflexivity]
  | H : next_envelope_with_source _ _ _ _ _ = _ |- _ => apply steps_next in H; [|reflexivity]
  | H : next_envelope_with_context _ _ _ _ = _ |- _ => apply steps_context in H; [|reflexivity]
  | H : next_envelope _ _ = _ |- _ => apply steps_signal in H; [|reflexivity]
  | H : record_tool_call _ _ _ _ = _ |- _ => apply steps_record_call in H
  | H : open_tool_call _ _ _ _ = _ |- _ => apply steps_open in H
  | H : record_tool_result _ _ _ _ = _ |- _ => apply steps_result in H
  | H : record_tool_call_arguments_delta _ _ _ = _ |- _ => apply steps_arguments in H
  | H : finish_tool_accumulator _ _ = _ |- _ => apply core_finish_accumulator, steps_silent in H
  | H : finish_pending_tool_accumulations _ = _ |- _ => apply core_finish_pending, steps_silent in H
  | H : (resolve_changed_files _) _ = _ |- _ => unfold resolve_changed_files in H
  | H : context [match ?x with _ => _ end _ = _] |- _ => destruct x
  end.

(** Chains the steps found. *)
Ltac chain_steps :=
  repeat match goal with
  | |- trace step ?n [] ?n => apply trace_nil
  | H : trace step ?n ?es ?n' |- trace step ?n ?es ?n' => exact H
  | H : trace step ?n [] _ |- trace step ?n _ _ => eapply trace_after; [exact H|clear H]
  | H : trace step ?n ?es ?n1 |- trace step ?n ?es _ => eapply trace_before; [exact H|clear H]
  | H : trace step ?n ?es ?n1 |- trace step ?n _ _ => apply (trace_app step n es n1); [exact H|clear H]
  end.

Lemma steps_close_open n es n' : close_open_final_text_block n = (es, n') -> steps n es n'.
Proof. unfold close_open_final_text_block. intros Hn. to_steps; chain_steps. Qed.

Lemma steps_ensure_open n b n' : ensure_open_final_text_block n = (b, n') -> steps n b.2 n'.
Proof. unfold ensure_open_final_text_block. intros Hn. to_steps; cbn [snd]; chain_steps. Qed.

Lemma steps_content_block b n es n' : normalize_content_block b n = (es, n') -> steps n es n'.
Proof. unfold normalize_content_block. intros Hn. to_steps; chain_steps. Qed.

Lemma steps_stream_block b n es n' : normalize_stream_block b n = (es, n') -> steps n es n'.
Proof. unfold normalize_stream_block. intros Hn. to_steps; chain_steps. Qed.

Lemma steps_grammar_call v n e n' :
  normalize_grammar_tool_call v n = (e, n') -> steps n (option_list e) n'.
Proof. unfold normalize_grammar_tool_call. intros Hn. to_steps; cbn [option_list]; chain_steps. Qed.

Lemma steps_concat {A} (f : A -> ST Norm (list RuntimeEnvelope)) l n es n' :
  (forall x n es n', f x n = (es, n') -> steps n es n') ->
  st_concat f l n = (es, n') -> steps n es n'.
Proof.
  intros Hf. revert n es. induction l as [|x l IH]; intros n es Hn; cbn [st_concat] in Hn.
  - to_steps. chain_steps.
  - to_steps. repeat match goal with
    | H : f _ _ = _ |- _ => apply Hf in H
    | H : st_concat f l _ = _ |- _ => apply IH in H
    end. chain_steps.
Qed.

Lemma steps_call_array v n es n' : normalize_tool_call_array v n = (es, n') -> steps n es n'.
Proof.
  unfold normalize_tool_call_array. intros Hn. destruct v; to_steps; chain_steps.
  - revert Hn. apply steps_concat. intros x n1 es1 n2 Hx. to_steps.
    by eapply steps_grammar_call.
  - by eapply steps_grammar_call.
Qed.

(** Adds what is known of the block that [StreamDelta] opens. *)
Ltac to_steps_blocks :=
  to_steps;
  repeat match goal with
  | H : close_open_final_text_block _ = _ |- _ => apply steps_close_open in H
  | H : ensure_open_final_text_block _ = _ |- _ => apply steps_ensure_open in H
  | H : normalize_stream_block _ _ = _ |- _ => apply steps_stream_block in H
  end.

Lemma steps_finish_turn status te n es n' :
  finish_turn_with_status status te n = (es, n') -> steps n es n'.
Proof. unfold finish_turn_with_status. intros Hn. to_steps_blocks; chain_steps. Qed.

Lemma steps_error code message r te n es n' :
  emit_error code message r te n = (es, n') -> steps n es n'.
Proof. unfold emit_error. intros Hn. destruct r; to_steps_blocks; chain_steps. Qed.

Lemma steps_max_turns m te n es n' : emit_max_turns_reached m te n = (es, n') -> steps n es n'.
Proof. unfold emit_max_turns_reached. intros Hn. to_steps_blocks; chain_steps. Qed.

Lemma steps_modify_block block index n u n' :
  st_modify (fun n =>
    match block with
    | ToolCall id _ _ _ =>
        match im_get id (pending_tool_calls n) with
        | Some pending =>
            set_streaming_tool_call_blocks
              (<[index := runtime_id pending]> (streaming_tool_call_blocks n)) n
        | None => n
        end
    | _ => n
    end) n = (u, n') -> steps n [] n'.
Proof.
  intros Hn. eapply steps_modify; [exact Hn|]. cbn. by repeat case_match.
Qed.

Lemma steps_ui_update u te n es n' : normalize_ui_update u te n = (es, n') -> steps n es n'.
Proof.
  unfold normalize_ui_update. intros Hn. destruct u; cbv zeta in Hn.
  - to_steps_blocks; chain_steps.
  - to_steps_blocks; chain_steps.
  - repeat match goal with
    | H : (_ ≫= _) _ = (_, _) |- _ => apply st_bind_inv in H; destruct H as (? & ? & ? & ?)
    end.
    match goal with H : st_modify (fun n => match block with _ => _ end) _ = _ |- _ =>
      apply steps_modify_block in H end.
    to_steps_blocks; chain_steps.
  - to_steps_blocks; chain_steps.
  - to_steps_blocks; chain_steps.
  - to_steps_blocks; chain_steps.
  - to_steps_blocks; chain_steps.
  - to_steps_blocks; chain_steps.
  - to_steps; chain_steps.
  - to_steps; chain_steps.
  - to_steps; chain_steps.
  - to_steps; chain_steps.
  - by eapply steps_finish_turn.
  - by eapply steps_error.
  - to_steps; chain_steps.
Qed.

Lemma steps_request r n es n' : normalize_runtime_request r n = (es, n') -> steps n es n'.
Proof.
  unfold normalize_runtime_request. intros Hn. destruct r; cbn [approval_resolution_signal] in Hn;
    to_steps; chain_steps.
Qed.
End steps.

(** ** Every step is numbered *)
Section numbered_steps.
Context {clk : Clock} {ord : HashOrder} {js : SerdeJson}.

Lemma numbered_core n n' : core n' = core n -> numbered n [] n'.
Proof. intros [= Ht Hp Hs _ _ _]. apply numbered_silent. unfold numbering. congruence. Qed.

Lemma numbered_next signal req par src n e n' :
  next_envelope_with_source signal req par src n = (e, n') -> numbered n [e] n'.
Proof.
  unfold next_envelope_with_source. intros Hn. st_inv.
  match goal with H : now _ = _ |- _ => injection H as <- <- end.
  match goal with H : st_state _ _ = _ |- _ => injection H as <- <- end.
  split; try done; cbn.
  - intros. apply sat_add_le.
  - intros ? [|i] e; [|done]. intros [= <-]. cbn. split; [done|]. unfold sat_add. lia.
Qed.
Lemma numbered_signal signal n e n' : next_envelope signal n = (e, n') -> numbered n [e] n'.
Proof. apply numbered_next. Qed.
Lemma numbered_context signal req par n e n' :
  next_envelope_with_context signal req par n = (e, n') -> numbered n [e] n'.
Proof. apply numbered_next. Qed.

Lemma numbered_modify (f : Norm -> Norm) n u n' :
  st_modify f n = (u, n') -> numbering (f n) = numbering n -> numbered n [] n'.
Proof. intros ->%st_modify_inv Hc. by apply numbered_silent. Qed.

Lemma numbered_call_id n id n' : next_tool_call_id n = (id, n') -> numbered n [] n'.
Proof.
  unfold next_tool_call_id. intros Hn. st_inv.
  match goal with H : now _ = _ |- _ => injection H as <- <- end.
  match goal with H : st_state _ _ = _ |- _ => injection H as <- <- end.
  by apply numbered_silent.
Qed.

Lemma numbered_append id delta n v n' :
  append_pending_tool_delta id delta n = (v, n') -> numbered n [] n'.
Proof.
  unfold append_pending_tool_delta. destruct (append_delta_first _ _ _). intros [= _ <-].
  by apply numbered_silent.
Qed.

Ltac to_numbered :=
  repeat match goal with
  | H : (_ ≫= _) _ = (_, _) |- _ =>
      apply st_bind_inv in H; destruct H as (? & ? & ? & ?)
  | H : mret _ _ = (_, _) |- _ => apply st_ret_inv in H; destruct H; subst
  | H : st_gets _ _ = (_, _) |- _ => apply st_gets_inv in H; destruct H; subst
  | H : st_modify _ _ = _ |- _ => apply numbered_modify in H; [|reflexivity]
  | H : now _ = _ |- _ => apply core_now, numbered_core in H
  | H : next_envelope_with_context _ _ _ _ = _ |- _ => apply numbered_context in H
  | H : next_envelope _ _ = _ |- _ => apply numbered_signal in H
  | H : next_tool_call_id _ = _ |- _ => apply numbered_call_id in H
  | H : start_tool_accumulator _ _ _ = _ |- _ => apply core_start_accumulator, numbered_core in H
  | H : seed_tool_accumulator _ _ _ = _ |- _ => apply core_seed_accumulator, numbered_core in H
  | H : accumulate_tool_delta _ _ _ = _ |- _ => apply core_accumulate, numbered_core in H
  | H : finish_tool_accumulator _ _ = _ |- _ => apply core_finish_accumulator, numbered_core in H
  | H : append_pending_tool_delta _ _ _ = _ |- _ => apply numbered_append in H
  | H : context [match ?x with _ => _ end _ = _] |- _ => destruct x
  end.
Ltac chain_numbered :=
  repeat match goal with
  | H : numbered ?n ?es ?n' |- numbered ?n ?es ?n' => exact H
  | H : numbered ?n [] _ |- numbered ?n _ _ => eapply numbered_after; [exact H|clear H]
  | H : numbered ?n ?es ?n1 |- numbered ?n ?es ?n2 =>
      rewrite <- (app_nil_r es); apply (numbered_app n es n1); [exact H|clear H]
  end.

Lemma numbered_open source name args n e n' :
  open_tool_call source name args n = (e, n') -> numbered n [e] n'.
Proof. unfold open_tool_call. intros Hn. to_numbered. chain_numbered. Qed.

Lemma numbered_result source output is_error n e n' :
  record_tool_result source output is_error n = (e, n') -> numbered n [e] n'.
Proof.
  unfold record_tool_result. intros Hn. destruct is_error; to_numbered; chain_numbered.
Qed.

Lemma numbered_arguments id delta n e n' :
  record_tool_call_arguments_delta id delta n = (e, n') -> numbered n [e] n'.
Proof. unfold record_tool_call_arguments_delta. intros Hn. to_numbered. chain_numbered. Qed.

Lemma numbered_steps n es n' : trace step n es n' -> numbered n es n'.
Proof.
  apply trace_rel; clear.
  - intros n. by apply numbered_silent.
  - apply numbered_app.
  - intros n es n' []; eauto using numbered_core, numbered_next, numbered_open,
      numbered_arguments, numbered_result. by apply numbered_silent.
Qed.
End numbered_steps.

(** ** Runs: any operations, in any order *)
Inductive op : Type :=
| OStart (pulse : N) (input : option str)
| OContent (block : ContentBlock)
| OBlock (block : StreamBlock)
| OArray (v : value)
| OUpdate (update : UiUpdate) (turn_end : option PulseEndContext)
| ORequest (request : RuntimeRequest)
| OError (code message : str) (recoverable : bool) (turn_end : PulseEndContext)
| OMaxTurns (max_turns : N) (turn_end : PulseEndContext)
| OCancelled (turn_end : PulseEndContext)
| OSignal (signal : RuntimeSignal).

Section runs.
Context {clk : Clock} {ord : HashOrder} {js : SerdeJson}.

Definition run_op (o : op) : ST Norm (list RuntimeEnvelope) :=
  match o with
  | OStart p input => e ← start_pulse p input; mret [e]
  | OContent block => normalize_content_block block
  | OBlock block => normalize_stream_block block
  | OArray v => normalize_tool_call_array v
  | OUpdate update turn_end => normalize_ui_update update turn_end
  | ORequest request => normalize_runtime_request request
  | OError code message recoverable turn_end => emit_error code message recoverable turn_end
  | OMaxTurns max_turns turn_end => emit_max_turns_reached max_turns turn_end
  | OCancelled turn_end => emit_cancelled turn_end
  | OSignal signal => e ← emit_signal signal; mret [e]
  end.
Definition run_ops : list op -> ST Norm (list RuntimeEnvelope) := st_concat run_op.

Lemma start_pulse_inv p input n e n' :
  start_pulse p input n = (e, n') ->
  exists n1, next_envelope (PulseStart input) n1 = (e, n')
    /\ n1 = set_protocol_ingress ProtocolIngressState_default
         (set_next_synthetic_block_index SYNTHETIC_FINAL_TEXT_BLOCK_START
           (set_open_final_text_block None
             (set_turn_changed_files [] (clear_pulse (set_pulse p n))))).
Proof. unfold start_pulse. intros Hn. st_inv. eauto. Qed.

(** An operation other than a start, and any signal but those of tool calls, is made of
    steps. *)
Definition op_internal (o : op) : bool :=
  match o with
  | OStart _ _ => false
  | OSignal signal => negb (call_signal signal)
  | _ => true
  end.

Lemma run_op_steps o n es n' :
  op_internal o = true -> run_op o n = (es, n') -> trace step n es n'.
Proof.
  destruct o; cbn [op_internal run_op]; intros Ho Hn.
  - done.
  - by eapply steps_content_block.
  - by eapply steps_stream_block.
  - by eapply steps_call_array.
  - by eapply steps_ui_update.
  - by eapply steps_request.
  - by eapply steps_error.
  - by eapply steps_max_turns.
  - by eapply steps_finish_turn.
  - st_inv. eapply steps_signal; [eassumption|]. by apply negb_true_iff.
Qed.

(** The numbering over a run: the pulse changes at a start, the sequence does not. *)
Definition envelope_in (task : str) (e : RuntimeEnvelope) : Prop :=
  env_version e = 1 /\ env_task_id e = task
  /\ env_frame_id e = frame_id task (env_pulse e) (env_seq e).

Record sequenced (n : Norm) (es : list RuntimeEnvelope) (n' : Norm) : Prop := {
  sq_task : task_id n' = task_id n;
  sq_next : next_seq n <= u64_max ->
    next_seq n' = sat_add u64_max (next_seq n) (N.of_nat (length es));
  sq_each : next_seq n <= u64_max -> forall i e, es !! i = Some e ->
    envelope_in (task_id n) e /\ env_seq e = sat_add u64_max (next_seq n) (N.of_nat i);
}.

Lemma numbered_sequenced n es n' : numbered n es n' -> sequenced n es n'.
Proof.
  intros [Ht Hp Hl Hn He]. split; [done|done|].
  intros Hb i e Hi. destruct (He Hb i e Hi) as [(Hv & Htk & Hpl & Hf) Hs].
  split; [|done]. split; [done|]. split; [done|]. by rewrite Hf, Hpl.
Qed.

Lemma sequenced_app n es n1 es' n2 :
  sequenced n es n1 -> sequenced n1 es' n2 -> sequenced n (es ++ es') n2.
Proof.
  intros [Ht Hn He] [Ht' Hn' He'].
  assert (next_seq n <= u64_max -> next_seq n1 <= u64_max) as Hl.
  { intros Hb. rewrite Hn by done. apply sat_add_le. }
  split; [congruence| |].
  - intros Hb. rewrite Hn', Hn, sat_add_add by auto. f_equal. rewrite length_app. lia.
  - intros Hb i e Hi. apply lookup_app_Some in Hi as [Hi|[Hle Hi]]; [auto|].
    destruct (He' (Hl Hb) _ _ Hi) as [Hin Hseq]. rewrite Ht in Hin. split; [done|].
    rewrite Hseq, Hn, sat_add_add by done. f_equal. lia.
Qed.

Lemma run_op_sequenced o n es n' : run_op o n = (es, n') -> sequenced n es n'.
Proof.
  intros Hn. destruct (op_internal o) eqn:Ho.
  { by eapply numbered_sequenced, numbered_steps, run_op_steps. }
  destruct o; cbn in Ho; try done; cbn [run_op] in Hn; st_inv.
  - match goal with H : start_pulse _ _ _ = _ |- _ => apply start_pulse_inv in H as (n1 & Hn & ->) end.
    apply numbered_signal, numbered_sequenced in Hn. destruct Hn as [Ht Hn He].
    split; done.
  - eapply numbered_sequenced, numbered_signal. eassumption.
Qed.

Lemma run_ops_sequenced ops n es n' : run_ops ops n = (es, n') -> sequenced n es n'.
Proof.
  unfold run_ops. revert n es. induction ops as [|o ops IH]; cbn [st_concat]; intros n es Hn; st_inv.
  - apply numbered_sequenced. by apply numbered_silent.
  - eapply sequenced_app; [by eapply run_op_sequenced|]. by apply IH.
Qed.

Lemma frame_id_inj task p s p' s' : frame_id task p s = frame_id task p' s' -> s = s'.
Proof.
  assert (forall p s, frame_id task p s = (t!"evt:" ++ task ++ t!":" ++ fmt_N p) ++ 58 :: fmt_N s) as Heq.
  { intros. unfold frame_id. by rewrite <- !app_assoc. }
  rewrite !Heq. intros [_ Hs]%last_separator_inj; [by apply fmt_N_inj | |]; by apply fmt_N_not_in.
Qed.
End runs.

(** The numbering of a task's envelopes.  Over any sequence of operations from a new
    normalizer, starts of pulses included, the envelopes carry the task, version 1 and the
    sequence numbers 1, 2, 3, ... without gap, and below [u64::MAX] no two of them have the
    same frame id. *)
Theorem envelopes_sequenced `{!Clock} `{!HashOrder} `{!SerdeJson} task acc ops :
  let es := (run_ops ops (new_inner task acc)).1 in
  (forall i e, es !! i = Some e ->
     env_version e = 1 /\ env_task_id e = task
     /\ env_seq e = N.min u64_max (1 + N.of_nat i)
     /\ env_frame_id e = frame_id task (env_pulse e) (env_seq e))
  /\ (N.of_nat (length es) < u64_max -> NoDup (map env_frame_id es)).
Proof.
  cbv zeta. destruct (run_ops ops (new_inner task acc)) as [es n'] eqn:Hrun. cbn [fst].
  apply run_ops_sequenced in Hrun as [_ _ Heach]. specialize (Heach ltac:(done)).
  split.
  - intros i e Hi. destruct (Heach i e Hi) as [(Hv & Ht & Hf) Hs]. repeat split; done.
  - intros Hlen. apply NoDup_fmap_2_strong, NoDup_alt.
    + intros x y Hx Hy Hxy.
      apply list_elem_of_lookup in Hx as [i Hi]. apply list_elem_of_lookup in Hy as [j Hj].
      destruct (Heach _ _ Hi) as [(_ & _ & Hf) Hs]. destruct (Heach _ _ Hj) as [(_ & _ & Hf') Hs'].
      rewrite Hf, Hf' in Hxy. apply frame_id_inj in Hxy. rewrite Hs, Hs' in Hxy.
      apply lookup_lt_Some in Hi as Hli. apply lookup_lt_Some in Hj as Hlj.
      assert (i = j) as -> by (unfold sat_add in Hxy; cbn in Hxy; lia). congruence.
    + intros i j e Hi Hj. destruct (Heach _ _ Hi) as [_ Hs]. destruct (Heach _ _ Hj) as [_ Hs'].
      rewrite Hs in Hs'. apply lookup_lt_Some in Hi. apply lookup_lt_Some in Hj.
      unfold sat_add in Hs'. cbn in Hs'. lia.
Qed.

(** ** Tool calls *)
Definition tool_id (count entropy : N) : str := t!"tx_" ++ fmt_N count ++ t!"_" ++ fmt_hex4 entropy.

#[global] Arguments tool_id : simpl never.
#[global] Arguments frame_id : simpl never.

Lemma tool_id_inj c e c' e' : tool_id c e = tool_id c' e' -> c = c'.
Proof.
  unfold tool_id. intros H%app_inj_1; [|done]. destruct H as [_ H].
  apply first_separator_inj in H as [H _]; [by apply fmt_N_inj| |]; by apply fmt_N_not_in.
Qed.

Section calls.
Context {clk : Clock} {ord : HashOrder} {js : SerdeJson}.

Lemma next_call_id_inv n id n' :
  next_tool_call_id n = (id, n') ->
  exists ent, id = tool_id (sat_add u32_max (tool_id_counter n) 1) ent
    /\ tool_id_counter n' = wrap_add u32_max (tool_id_counter n) 1
    /\ pending_tool_calls n' = pending_tool_calls n
    /\ pending_tool_call_contexts n' = pending_tool_call_contexts n
    /\ numbering n' = numbering n.
Proof.
  unfold next_tool_call_id. intros Hn. st_inv.
  match goal with H : now _ = _ |- _ => injection H as <- <- end.
  match goal with H : st_state _ _ = _ |- _ => injection H as <- <- end.
  by eexists.
Qed.

Lemma next_inv signal req par src n e n' :
  next_envelope_with_source signal req par src n = (e, n') ->
  env_signal e = signal /\ env_parent_frame_id e = par
  /\ env_frame_id e = frame_id (task_id n) (pulse n) (next_seq n)
  /\ tool_id_counter n' = tool_id_counter n
  /\ pending_tool_calls n' = pending_tool_calls n
  /\ pending_tool_call_contexts n' = pending_tool_call_contexts n.
Proof.
  unfold next_envelope_with_source. intros Hn. st_inv.
  match goal with H : now _ = _ |- _ => injection H as <- <- end.
  match goal with H : st_state _ _ = _ |- _ => injection H as <- <- end.
  done.
Qed.

(** The effect of opening a call. *)
Record opened (source : option str) (name : str) (args : value) (n : Norm)
    (e : RuntimeEnvelope) (n' : Norm) (id : str) (t : Z) : Prop := {
  op_id : exists ent, id = tool_id (sat_add u32_max (tool_id_counter n) 1) ent;
  op_signal : env_signal e = ToolCallStarted id name args Pending (timestamp_string t);
  op_parent : env_parent_frame_id e = None;
  op_frame : env_frame_id e = frame_id (task_id n) (pulse n) (next_seq n);
  op_counter : tool_id_counter n' = wrap_add u32_max (tool_id_counter n) 1;
  op_pending : pending_tool_calls n' =
    im_insert (unwrap_or source id)
      (mk_PendingToolCall id name args (serialize_tool_arguments args) (env_frame_id e) t)
      (pending_tool_calls n);
  op_contexts : pending_tool_call_contexts n' =
    <[id := mk_PendingToolCallContext name (env_frame_id e)]> (pending_tool_call_contexts n);
}.

Lemma open_inv source name args n e n' :
  open_tool_call source name args n = (e, n') -> exists id t, opened source name args n e n' id t.
Proof.
  unfold open_tool_call. intros Hn. st_inv.
  match goal with H : next_tool_call_id _ = (?i, _) |- _ =>
    exists i; apply next_call_id_inv in H as (ent & Hid & Hc & Hp & Hx & Hnum) end.
  match goal with H : now _ = (?t, _) |- _ =>
    exists t; apply core_now in H as Hnow end.
  match goal with H : next_envelope _ _ = _ |- _ =>
    apply next_inv in H as (Hs & Hpar & Hf & Hc' & Hp' & Hx') end.
  match goal with H : start_tool_accumulator _ _ _ = _ |- _ => apply core_start_accumulator in H as Hst end.
  match goal with H : seed_tool_accumulator _ _ _ = _ |- _ => apply core_seed_accumulator in H as Hsd end.
  unfold core in *. cbn in *. injection Hnow as ????? ?. injection Hst as ????? ?.
  injection Hsd as ????? ?. injection Hnum as ???.
  split; [by exists ent|..]; cbn in *; congruence.
Qed.

(** The effect of a result: of a pending call, or of one the normalizer does not know. *)
Lemma result_inv source output is_error n e n' :
  record_tool_result source output is_error n = (e, n') ->
  tool_id_counter n' = tool_id_counter n
  /\ exists completed,
     match im_get source (pending_tool_calls n) with
     | Some p =>
         env_signal e = result_signal is_error (runtime_id p) (Some (ptc_name p))
           (Some (timestamp_string (started_at p))) (timestamp_string completed)
           (Some (duration_ms completed (started_at p))) output
         /\ env_parent_frame_id e = Some (start_frame_id p)
         /\ pending_tool_calls n' = im_remove source (pending_tool_calls n)
         /\ pending_tool_call_contexts n' = delete (runtime_id p) (pending_tool_call_contexts n)
     | None =>
         env_signal e = result_signal is_error source None None (timestamp_string completed)
           None output
         /\ env_parent_frame_id e = None
         /\ pending_tool_calls n' = pending_tool_calls n
         /\ pending_tool_call_contexts n' = pending_tool_call_contexts n
     end.
Proof.
  unfold record_tool_result. intros Hn.
  apply st_bind_inv in Hn as (t & n1 & Hnow & Hn).
  pose proof (core_now _ _ _ Hnow) as Hcore. injection Hcore as ??? Hp Hx Hc.
  apply st_bind_inv in Hn as (found & n2 & [-> ->]%st_gets_inv & Hn).
  rewrite <- Hp, <- Hx, <- Hc. clear Hp Hx Hc.
  destruct (im_get source (pending_tool_calls n1)) as [p|].
  - apply st_bind_inv in Hn as (? & ? & ->%st_modify_inv & Hn).
    apply st_bind_inv in Hn as (? & ? & ->%st_modify_inv & Hn).
    apply st_bind_inv in Hn as (? & n3 & Hfin%core_finish_accumulator & Hn).
    apply st_bind_inv in Hn as (? & n4 & Hnote & Hn).
    assert (core n4 = core n3) as Hcore.
    { destruct is_error; st_inv; done. }
    apply next_inv in Hn as (Hs & Hpar & _ & Hc & Hp & Hx).
    rewrite Hfin in Hcore. injection Hcore as ??? Hp' Hx' Hc'. cbn in Hp', Hx', Hc'.
    split; [congruence|]. exists t. repeat split; congruence.
  - apply next_inv in Hn as (Hs & Hpar & _ & Hc & Hp & Hx).
    split; [done|]. exists t. done.
Qed.

Lemma arguments_inv id delta n e n' :
  record_tool_call_arguments_delta id delta n = (e, n') ->
  tool_id_counter n' = tool_id_counter n
  /\ pending_tool_calls n' = (append_delta_first id delta (pending_tool_calls n)).2
  /\ pending_tool_call_contexts n' = pending_tool_call_contexts n
  /\ env_parent_frame_id e = ctx_start_frame_id <$> pending_tool_call_contexts n !! id
  /\ exists invalid,
     env_signal e = ToolCallArgumentsDelta id (ctx_name <$> pending_tool_call_contexts n !! id)
       delta Pending (append_delta_first id delta (pending_tool_calls n)).1 invalid.
Proof.
  unfold record_tool_call_arguments_delta. intros Hn.
  apply st_bind_inv in Hn as (? & ? & [-> ->]%st_gets_inv & Hn).
  apply st_bind_inv in Hn as (err & n1 & Hacc%core_accumulate & Hn).
  apply st_bind_inv in Hn as (v & n2 & Happ & Hn).
  injection Hacc as ??? Hp Hx Hc. unfold append_pending_tool_delta in Happ.
  rewrite Hp in Happ. destruct (append_delta_first _ _ _) as [w l]. injection Happ as <- <-.
  apply next_inv in Hn as (Hs & Hpar & _ & Hc' & Hp' & Hx'). cbn in *.
  repeat split; try congruence. eexists. exact Hs.
Qed.

(** An update in place keeps the keys and what identifies each call. *)
Definition same_call (p p' : PendingToolCall) : Prop :=
  runtime_id p' = runtime_id p /\ ptc_name p' = ptc_name p
  /\ start_frame_id p' = start_frame_id p /\ started_at p' = started_at p.

Lemma append_delta_first_get id delta l k :
  match im_get k l with
  | Some p => exists p', im_get k (append_delta_first id delta l).2 = Some p' /\ same_call p p'
  | None => im_get k (append_delta_first id delta l).2 = None
  end.
Proof.
  induction l as [|[k' p] l IH]; [done|]. cbn [im_get append_delta_first].
  destruct (str_eqb (runtime_id p) id).
  - cbn [append_delta snd im_get]. case_decide as Hk; [by eexists|].
    destruct (im_get k l); [by eexists|done].
  - destruct (append_delta_first id delta l) as [v l'] eqn:E. cbn [snd im_get] in *.
    case_decide as Hk; [by eexists|]. exact IH.
Qed.
End calls.

(** *** Every result refers to its start *)
Definition started (h : list RuntimeEnvelope) (id name frame : str) : Prop :=
  exists e args status at_, e ∈ h /\ env_signal e = ToolCallStarted id name args status at_
    /\ env_frame_id e = frame.

(** An envelope with a parent concerns the tool call that the parent started. *)
Definition parent_started (h : list RuntimeEnvelope) (e : RuntimeEnvelope) : Prop :=
  forall frame, env_parent_frame_id e = Some frame ->
    match env_signal e with
    | ToolCallCompleted id name _ _ _ _ _ | ToolCallFailed id name _ _ _ _ _
    | ToolCallArgumentsDelta id name _ _ _ _ => exists nm, name = Some nm /\ started h id nm frame
    | _ => False
    end.
Definition parents_started (h es : list RuntimeEnvelope) : Prop :=
  forall i e, es !! i = Some e -> parent_started (h ++ take i es) e.

Lemma started_mono h h' id name frame : started h id name frame -> started (h ++ h') id name frame.
Proof.
  intros (e & args & st & at_ & Hin & He). exists e, args, st, at_. split; [|done].
  apply elem_of_app. by left.
Qed.

Lemma parents_started_app h es es' :
  parents_started h es -> parents_started (h ++ es) es' -> parents_started h (es ++ es').
Proof.
  intros H1 H2 i e [Hi|[Hle Hi]]%lookup_app_Some.
  - rewrite take_app_le by (apply lookup_lt_Some in Hi; lia). by apply H1.
  - rewrite take_app_ge, app_assoc by done. by apply H2.
Qed.

Lemma parents_started_one h e : parent_started h e -> parents_started h [e].
Proof. intros Hp [|i] e'; [|done]. intros [= <-]. cbn. by rewrite app_nil_r. Qed.

Section history.
Context {clk : Clock} {ord : HashOrder} {js : SerdeJson}.

Definition calls_recorded (h : list RuntimeEnvelope) (n : Norm) : Prop :=
  (forall k p, im_get k (pending_tool_calls n) = Some p ->
     started h (runtime_id p) (ptc_name p) (start_frame_id p))
  /\ (forall id c, pending_tool_call_contexts n !! id = Some c ->
     started h id (ctx_name c) (ctx_start_frame_id c)).

Lemma calls_recorded_mono h h' n n' :
  pending_tool_calls n' = pending_tool_calls n ->
  pending_tool_call_contexts n' = pending_tool_call_contexts n ->
  calls_recorded h n -> calls_recorded (h ++ h') n'.
Proof.
  unfold calls_recorded. intros -> -> [Hp Hc]. split; intros; apply started_mono; eauto.
Qed.

Lemma open_recorded h source name args n e n' :
  open_tool_call source name args n = (e, n') -> calls_recorded h n ->
  calls_recorded (h ++ [e]) n' /\ parent_started h e.
Proof.
  intros (id & t & Ho)%open_inv [Hp Hc]. destruct Ho as [_ Hs Hpar _ _ Hpend Hctx].
  assert (started (h ++ [e]) id name (env_frame_id e)) as Hst.
  { exists e, args, Pending, (timestamp_string t). split; [|done]. apply elem_of_app. right. left. }
  split; [|intros frame; congruence]. split.
  - rewrite Hpend. intros k p. destruct (decide (k = unwrap_or source id)) as [->|Hne].
    + rewrite im_get_insert_eq. by intros [= <-].
    + rewrite im_get_insert_ne by done. intros Hk. apply started_mono. eauto.
  - rewrite Hctx. intros id' c. destruct (decide (id = id')) as [<-|Hne].
    + rewrite lookup_insert_eq. by intros [= <-].
    + rewrite lookup_insert_ne by done. intros Hk. apply started_mono. eauto.
Qed.

Lemma result_recorded h source output is_error n e n' :
  record_tool_result source output is_error n = (e, n') -> calls_recorded h n ->
  calls_recorded (h ++ [e]) n' /\ parent_started h e.
Proof.
  intros [_ (t & Hr)]%result_inv Hrec.
  destruct (im_get source (pending_tool_calls n)) as [p|] eqn:Hget.
  - destruct Hr as (Hs & Hpar & Hpend & Hctx). destruct Hrec as [Hp Hc]. split; [split|].
    + rewrite Hpend. intros k q. destruct (decide (k = source)) as [->|Hne].
      * by rewrite im_get_remove_eq.
      * rewrite im_get_remove_ne by done. intros Hk. apply started_mono. eauto.
    + rewrite Hctx. intros id c [_ Hid]%lookup_delete_Some. apply started_mono. eauto.
    + intros frame Hf. rewrite Hpar in Hf. injection Hf as <-. rewrite Hs.
      unfold result_signal. destruct is_error; eauto.
  - destruct Hr as (Hs & Hpar & Hpend & Hctx).
    split; [by apply (calls_recorded_mono h _ n)|]. intros frame. congruence.
Qed.

Lemma arguments_recorded h id delta n e n' :
  record_tool_call_arguments_delta id delta n = (e, n') -> calls_recorded h n ->
  calls_recorded (h ++ [e]) n' /\ parent_started h e.
Proof.
  intros (_ & Hpend & Hctx & Hpar & invalid & Hs)%arguments_inv [Hp Hc]. split; [split|].
  - rewrite Hpend. intros k p' Hk. pose proof (append_delta_first_get id delta (pending_tool_calls n) k) as Hg.
    destruct (im_get k (pending_tool_calls n)) as [p|] eqn:Hget; [|congruence].
    destruct Hg as (q & Hq & Hid & Hnm & Hfr & _). rewrite Hk in Hq. injection Hq as <-.
    rewrite Hid, Hnm, Hfr. apply started_mono. eauto.
  - rewrite Hctx. intros. apply started_mono. eauto.
  - intros frame Hf. rewrite Hpar in Hf. rewrite Hs.
    destruct (pending_tool_call_contexts n !! id) as [c|] eqn:Hget; [|done]. cbn in *.
    injection Hf as <-. eauto.
Qed.

Definition recorded_rel (n : Norm) (es : list RuntimeEnvelope) (n' : Norm) : Prop :=
  forall h, calls_recorded h n -> calls_recorded (h ++ es) n' /\ parents_started h es.

Lemma recorded_app n es n1 es' n2 :
  recorded_rel n es n1 -> recorded_rel n1 es' n2 -> recorded_rel n (es ++ es') n2.
Proof.
  intros Ha Hb h [Hh Hp]%Ha. apply Hb in Hh as [Hh Hp']. rewrite app_assoc.
  split; [done|]. by apply parents_started_app.
Qed.

Lemma recorded_steps n es n' : trace step n es n' -> recorded_rel n es n'.
Proof.
  apply trace_rel; clear.
  - intros n h Hh. rewrite app_nil_r. by split; [|intros i e].
  - apply recorded_app.
  - intros n es n' Hs h Hh. destruct Hs as [n' Hc|signal req src e n' _ Hn|source name args e n' Hn
      |id delta e n' Hn|source output is_error e n' Hn|].
    + injection Hc as ??? Hp Hx _. split; [by apply (calls_recorded_mono h _ n)|by intros i e].
    + apply next_inv in Hn as (Hs & Hpar & _ & _ & Hp & Hx).
      split; [by apply (calls_recorded_mono h _ n)|]. apply parents_started_one.
      intros frame. congruence.
    + destruct (open_recorded h _ _ _ _ _ _ Hn Hh). split; [done|]. by apply parents_started_one.
    + destruct (arguments_recorded h _ _ _ _ _ Hn Hh). split; [done|]. by apply parents_started_one.
    + destruct (result_recorded h _ _ _ _ _ _ Hn Hh). split; [done|]. by apply parents_started_one.
    + rewrite app_nil_r. split; [|by intros i e]. by split.
Qed.

Lemma recorded_op o n es n' : run_op o n = (es, n') -> recorded_rel n es n'.
Proof.
  intros Hn. destruct (op_internal o) eqn:Ho; [by eapply recorded_steps, run_op_steps|].
  destruct o; cbn in Ho; try done; cbn [run_op] in Hn; st_inv; intros h Hh.
  - match goal with H : start_pulse _ _ _ = _ |- _ => apply start_pulse_inv in H as (n1 & Hn & ->) end.
    apply next_inv in Hn as (_ & Hpar & _ & _ & Hp & Hx). cbn in Hp, Hx. split.
    + unfold calls_recorded. by rewrite Hp, Hx.
    + apply parents_started_one. intros frame. congruence.
  - match goal with H : emit_signal _ _ = _ |- _ => apply next_inv in H as (_ & Hpar & _ & _ & Hp & Hx) end.
    split; [by apply (calls_recorded_mono h _ n)|]. apply parents_started_one. intros frame. congruence.
Qed.
End history.

(** Envelopes about a tool call refer to its start.  In any run from a new normalizer, an
    envelope that names a parent frame is a completion, a failure or an arguments delta, and
    the parent is an earlier envelope of the run that started the tool call of the same id
    and name. *)
Theorem parent_frames_started `{!Clock} `{!HashOrder} `{!SerdeJson} task acc ops :
  let es := (run_ops ops (new_inner task acc)).1 in
  forall i e, es !! i = Some e -> parent_started (take i es) e.
Proof.
  cbv zeta. destruct (run_ops ops (new_inner task acc)) as [es n'] eqn:Hrun. cbn [fst].
  assert (recorded_rel (new_inner task acc) es n') as Hrel.
  { unfold run_ops in Hrun. revert Hrun. generalize (new_inner task acc). revert es.
    induction ops as [|o ops IH]; cbn [st_concat]; intros es n Hn; st_inv.
    - intros h Hh. rewrite app_nil_r. by split; [|intros i e].
    - eapply recorded_app; [by eapply recorded_op|]. by apply IH. }
  by destruct (Hrel []) as [_ Hp]; [split|].
Qed.

Lemma parent_frames_started_witness :
  let call := OUpdate (UStreamBlockStart 1 (ToolCall t!"a" t!"ls" (Object []) Pending)) None in
  let result := OUpdate (UStreamBlockStart 2 (ToolResult t!"a" t!"ok" false)) None in
  let es := (@run_ops step_clock map_order empty_codec [OStart 1 None; call; result]
               (new_inner t!"t" None)).1 in
  exists e frame, es !! 4%nat = Some e /\ env_parent_frame_id e = Some frame
    /\ parent_started (take 4 es) e.
Proof.
  cbv zeta. do 2 eexists. split; [vm_compute; reflexivity|]. split; [reflexivity|].
  apply (@parent_frames_started step_clock map_order empty_codec t!"t" None
    [OStart 1 None; OUpdate (UStreamBlockStart 1 (ToolCall t!"a" t!"ls" (Object []) Pending)) None;
     OUpdate (UStreamBlockStart 2 (ToolResult t!"a" t!"ok" false)) None]).
  vm_compute. reflexivity.
Defined.

(** *** Every call has an id of its own and ends at most once *)
Definition started_id (e : RuntimeEnvelope) : option str :=
  match env_signal e with ToolCallStarted id _ _ _ _ => Some id | _ => None end.
Definition started_ids (es : list RuntimeEnvelope) : list str := omap started_id es.

(** The results of calls the normalizer had started: those with a parent. *)
Definition finished_id (e : RuntimeEnvelope) : option str :=
  match env_parent_frame_id e, env_signal e with
  | Some _, (ToolCallCompleted id _ _ _ _ _ _ | ToolCallFailed id _ _ _ _ _ _) => Some id
  | _, _ => None
  end.
Definition finished_ids (es : list RuntimeEnvelope) : list str := omap finished_id es.

Section once.
Context {clk : Clock} {ord : HashOrder} {js : SerdeJson}.

Record once (h : list RuntimeEnvelope) (n : Norm) : Prop := {
  on_ids : forall id, id ∈ started_ids h ->
    exists c ent, id = tool_id c ent /\ c <= tool_id_counter n;
  on_started : NoDup (started_ids h);
  on_finished : NoDup (finished_ids h);
  on_sub : forall id, id ∈ finished_ids h -> id ∈ started_ids h;
  on_pending : forall k p, im_get k (pending_tool_calls n) = Some p ->
    runtime_id p ∈ started_ids h /\ runtime_id p ∉ finished_ids h;
  on_inj : forall k k' p p', im_get k (pending_tool_calls n) = Some p ->
    im_get k' (pending_tool_calls n) = Some p' -> runtime_id p = runtime_id p' -> k = k';
}.

Definition once_rel (n : Norm) (es : list RuntimeEnvelope) (n' : Norm) : Prop :=
  forall h, once h n -> tool_id_counter n + N.of_nat (length (started_ids es)) <= u32_max ->
    once (h ++ es) n' /\ tool_id_counter n' = tool_id_counter n + N.of_nat (length (started_ids es)).

Lemma started_ids_app a b : started_ids (a ++ b) = started_ids a ++ started_ids b.
Proof. apply omap_app. Qed.
Lemma finished_ids_app a b : finished_ids (a ++ b) = finished_ids a ++ finished_ids b.
Proof. apply omap_app. Qed.

Lemma once_rel_app n es n1 es' n2 :
  once_rel n es n1 -> once_rel n1 es' n2 -> once_rel n (es ++ es') n2.
Proof.
  intros Ha Hb h Hh Hbound. rewrite started_ids_app, length_app in *.
  destruct (Ha h Hh ltac:(lia)) as [Hh1 Hc1].
  destruct (Hb _ Hh1 ltac:(lia)) as [Hh2 Hc2]. rewrite app_assoc. split; [done|lia].
Qed.

(** Envelopes that neither start nor end a call, with the calls as they were. *)
Lemma once_rel_idle n es n' :
  started_ids es = [] -> finished_ids es = [] ->
  tool_id_counter n' = tool_id_counter n ->
  (pending_tool_calls n' = pending_tool_calls n \/ pending_tool_calls n' = []) ->
  once_rel n es n'.
Proof.
  intros Hs Hf Hc Hp h [H1 H2 H3 H4 H5 H6] _. rewrite Hs, Hc. cbn. split; [|lia].
  split; rewrite ?started_ids_app, ?finished_ids_app, ?Hs, ?Hf, ?app_nil_r, ?Hc; try done;
    destruct Hp as [-> | ->]; done.
Qed.

Lemma once_rel_open source name args n e n' :
  open_tool_call source name args n = (e, n') -> once_rel n [e] n'.
Proof.
  intros (id & t & [(ent & Hid) Hs Hpar _ Hc Hp _])%open_inv h [H1 H2 H3 H4 H5 H6] Hbound.
  assert (started_ids [e] = [id]) as Hst by (cbn; unfold started_id; by rewrite Hs).
  assert (finished_ids [e] = []) as Hfi by (cbn; unfold finished_id; by rewrite Hpar).
  rewrite Hst in *. cbn [length] in *. rewrite sat_add_small in Hid by lia.
  rewrite wrap_add_small in Hc by lia. split; [|lia].
  assert (id ∉ started_ids h) as Hfresh.
  { intros (c & ent' & -> & Hle)%H1. apply tool_id_inj in Hid. lia. }
  split; rewrite ?started_ids_app, ?finished_ids_app, ?Hst, ?Hfi, ?app_nil_r.
  - intros id' [Hin|Hin]%elem_of_app.
    + destruct (H1 _ Hin) as (c & ent' & -> & Hle). exists c, ent'. split; [done|lia].
    + apply list_elem_of_singleton in Hin as ->. exists (tool_id_counter n + 1), ent. split; [done|lia].
  - apply list.NoDup_app. split; [done|]. split; [set_solver|]. apply list.NoDup_singleton.
  - done.
  - set_solver.
  - rewrite Hp. intros k p. destruct (decide (k = unwrap_or source id)) as [->|Hne].
    + rewrite im_get_insert_eq. intros [= <-]. cbn. split; [set_solver|]. intros ?%H4. done.
    + rewrite im_get_insert_ne by done. intros [? ?]%H5. set_solver.
  - rewrite Hp. intros k k' p p'.
    destruct (decide (k = unwrap_or source id)) as [->|Hne];
      destruct (decide (k' = unwrap_or source id)) as [->|Hne'];
      rewrite ?im_get_insert_eq, ?im_get_insert_ne by done; [done| | |by apply H6].
    + intros [= <-] [Hin _]%H5. cbn. congruence.
    + intros [Hin _]%H5 [= <-]. cbn. congruence.
Qed.

Lemma once_rel_result source output is_error n e n' :
  record_tool_result source output is_error n = (e, n') -> once_rel n [e] n'.
Proof.
  intros [Hc (t & Hr)]%result_inv.
  assert (started_ids [e] = []) as Hst.
  { cbn. unfold started_id. destruct (im_get _ _); destruct Hr as (-> & _); by destruct is_error. }
  destruct (im_get source (pending_tool_calls n)) as [p|] eqn:Hget.
  2:{ destruct Hr as (Hs & Hpar & Hp & _). apply once_rel_idle; try done; [|by left].
      cbn. unfold finished_id. by rewrite Hpar. }
  destruct Hr as (Hs & Hpar & Hp & _).
  assert (finished_ids [e] = [runtime_id p]) as Hfi.
  { cbn. unfold finished_id. rewrite Hpar, Hs. by destruct is_error. }
  intros h [H1 H2 H3 H4 H5 H6] _. rewrite Hst, Hc. cbn [length]. split; [|lia].
  destruct (H5 _ _ Hget) as [Hin Hnot].
  assert (forall k q, im_get k (im_remove source (pending_tool_calls n)) = Some q ->
            k <> source /\ im_get k (pending_tool_calls n) = Some q) as Hrem.
  { intros k q. destruct (decide (k = source)) as [->|Hne]; [by rewrite im_get_remove_eq|].
    by rewrite im_get_remove_ne. }
  split; rewrite ?started_ids_app, ?finished_ids_app, ?Hst, ?Hfi, ?app_nil_r, ?Hc, ?Hp; try done.
  - apply list.NoDup_app. split; [done|]. split; [set_solver|]. apply list.NoDup_singleton.
  - set_solver.
  - intros k q [Hne Hk]%Hrem. destruct (H5 _ _ Hk) as [? ?]. split; [done|].
    intros [?|Heq]%elem_of_app; [done|]. apply list_elem_of_singleton in Heq.
    apply Hne. by eapply H6.
  - intros k k' q q' [_ Hk]%Hrem [_ Hk']%Hrem. by eapply H6.
Qed.

Lemma once_rel_arguments id delta n e n' :
  record_tool_call_arguments_delta id delta n = (e, n') -> once_rel n [e] n'.
Proof.
  intros (Hc & Hp & _ & _ & invalid & Hs)%arguments_inv h [H1 H2 H3 H4 H5 H6] _.
  assert (started_ids [e] = []) as Hst by (cbn; unfold started_id; by rewrite Hs).
  assert (finished_ids [e] = []) as Hfi.
  { cbn. unfold finished_id. rewrite Hs. by destruct (env_parent_frame_id e). }
  rewrite Hst, Hc. cbn [length]. split; [|lia].
  assert (forall k q, im_get k (append_delta_first id delta (pending_tool_calls n)).2 = Some q ->
    exists p, im_get k (pending_tool_calls n) = Some p /\ runtime_id q = runtime_id p) as Hback.
  { intros k q Hq. pose proof (append_delta_first_get id delta (pending_tool_calls n) k) as Hg.
    destruct (im_get k (pending_tool_calls n)) as [p|]; [|congruence].
    destruct Hg as (q' & Hq' & Hid & _). exists p. split; [done|]. congruence. }
  split; rewrite ?started_ids_app, ?finished_ids_app, ?Hst, ?Hfi, ?app_nil_r, ?Hc, ?Hp; try done.
  - intros k q (p & Hk & ->)%Hback. eauto.
  - intros k k' q q' (p & Hk & ->)%Hback (p' & Hk' & ->)%Hback. eauto.
Qed.

Lemma call_signal_idle e : call_signal (env_signal e) = false ->
  started_ids [e] = [] /\ finished_ids [e] = [].
Proof.
  cbn. unfold started_id, finished_id.
  destruct (env_signal e), (env_parent_frame_id e); done.
Qed.

Lemma once_steps n es n' : trace step n es n' -> once_rel n es n'.
Proof.
  apply trace_rel; clear.
  - intros n. apply once_rel_idle; auto.
  - apply once_rel_app.
  - intros n es n' [n2 Hc|signal req src e n2 Hcall Hn|source name args e n2 Hn|id delta e n2 Hn
      |source output is_error e n2 Hn|].
    + injection Hc as ??? Hp ? ?. apply once_rel_idle; auto.
    + apply next_inv in Hn as (<- & _ & _ & Hc & Hp & _). apply call_signal_idle in Hcall as [? ?].
      apply once_rel_idle; auto.
    + by eapply once_rel_open.
    + by eapply once_rel_arguments.
    + by eapply once_rel_result.
    + apply once_rel_idle; auto.
Qed.

(** Only the normalizer announces tool calls. *)
Definition op_ok (o : op) : bool :=
  match o with OSignal signal => negb (call_signal signal) | _ => true end.

Lemma once_op o n es n' : op_ok o = true -> run_op o n = (es, n') -> once_rel n es n'.
Proof.
  intros Hok Hn. destruct (op_internal o) eqn:Ho; [by eapply once_steps, run_op_steps|].
  destruct o; cbn in Ho, Hok; try done; [|by rewrite Ho in Hok]. cbn [run_op] in Hn. st_inv.
  match goal with H : start_pulse _ _ _ = _ |- _ => apply start_pulse_inv in H as (n1 & Hn & ->) end.
  apply next_inv in Hn as (Hs & Hpar & _ & Hc & Hp & _). cbn in Hp, Hc.
  apply (f_equal call_signal) in Hs. apply call_signal_idle in Hs as [? ?].
  apply once_rel_idle; auto.
Qed.
End once.

(** Tool call ids are unique.  In a run that starts at most [u32::MAX] calls, no two
    starts announce the same id, each call the normalizer started ends at most once, and
    only started calls end. *)
Theorem tool_calls_once `{!Clock} `{!HashOrder} `{!SerdeJson} task acc ops :
  let es := (run_ops ops (new_inner task acc)).1 in
  forallb op_ok ops = true ->
  N.of_nat (length (started_ids es)) <= u32_max ->
  NoDup (started_ids es) /\ NoDup (finished_ids es)
  /\ forall id, id ∈ finished_ids es -> id ∈ started_ids es.
Proof.
  cbv zeta. destruct (run_ops ops (new_inner task acc)) as [es n'] eqn:Hrun. cbn [fst].
  intros Hok Hb. assert (once_rel (new_inner task acc) es n') as Hrel.
  { clear Hb. unfold run_ops in Hrun. revert Hrun. generalize (new_inner task acc). revert es.
    induction ops as [|o ops IH]; cbn [st_concat forallb] in *; intros es n Hn; st_inv.
    - apply once_rel_idle; auto.
    - apply andb_prop in Hok as [Ho Hok]. eapply once_rel_app; [by eapply once_op|]. by apply IH. }
  assert (once [] (new_inner task acc)) as Hnew.
  { split; cbn; try done; try constructor; intros id Hin; by apply not_elem_of_nil in Hin. }
  destruct (Hrel [] Hnew) as [[] _]; [cbn; lia|done].
Qed.

Lemma tool_calls_once_witness :
  let call := OUpdate (UStreamBlockStart 1 (ToolCall t!"a" t!"ls" (Object []) Pending)) None in
  let done_ := OUpdate (UStreamBlockStart 2 (ToolResult t!"a" t!"ok" false)) None in
  let es := (@run_ops step_clock map_order empty_codec [OStart 1 None; call; call; done_; done_]
               (new_inner t!"t" None)).1 in
  length (started_ids es) = 2%nat /\ length (finished_ids es) = 1%nat
  /\ NoDup (started_ids es) /\ NoDup (finished_ids es)
  /\ forall id, id ∈ finished_ids es -> id ∈ started_ids es.
Proof.
  intros call done_ es. split; [by vm_compute|]. split; [by vm_compute|].
  apply (@tool_calls_once step_clock map_order empty_codec t!"t" None
           [OStart 1 None; call; call; done_; done_]); [done|].
  apply N.leb_le. by vm_compute.
Defined.

(** *** A pending call waits for its result *)
Definition kept (src : str) (n n' : Norm) : Prop :=
  forall p, im_get src (pending_tool_calls n) = Some p ->
    exists p', im_get src (pending_tool_calls n') = Some p' /\ same_call p p'.

(** An update that neither ends the pulse nor concerns the call of this source id. *)
Definition update_keeps (src : str) (u : UiUpdate) : bool :=
  match u with
  | UStreamBlockStart _ (ToolCall id _ _ _) | UStreamBlockStart _ (ToolResult id _ _) =>
      negb (str_eqb id src)
  | UPulseComplete | UError _ => false
  | _ => true
  end.

Section keeping.
Context {clk : Clock} {ord : HashOrder} {js : SerdeJson}.

Lemma same_call_trans p q r : same_call p q -> same_call q r -> same_call p r.
Proof. unfold same_call. intuition congruence. Qed.

Lemma kept_trans src n n1 n2 : kept src n n1 -> kept src n1 n2 -> kept src n n2.
Proof.
  intros Ha Hb p (q & Hq & Hpq)%Ha. apply Hb in Hq as (r & Hr & Hqr).
  exists r. split; [done|]. by eapply same_call_trans.
Qed.

Lemma kept_same src n n' : pending_tool_calls n' = pending_tool_calls n -> kept src n n'.
Proof. intros Heq p Hp. rewrite Heq. by exists p. Qed.

Lemma kept_core src n n' : core n' = core n -> kept src n n'.
Proof. intros [= _ _ _ Hp _ _]. by apply kept_same. Qed.

Lemma kept_next src signal req par source n e n' :
  next_envelope_with_source signal req par source n = (e, n') -> kept src n n'.
Proof. intros (_ & _ & _ & _ & Hp & _)%next_inv. by apply kept_same. Qed.
Lemma kept_signal src signal n e n' : next_envelope signal n = (e, n') -> kept src n n'.
Proof. apply kept_next. Qed.

Lemma kept_modify src f n u n' :
  st_modify f n = (u, n') -> pending_tool_calls (f n) = pending_tool_calls n -> kept src n n'.
Proof. intros ->%st_modify_inv Hp. by apply kept_same. Qed.

Lemma record_call_inv source name args n e n' :
  record_tool_call source name args n = (e, n') ->
  exists id t, opened (Some source) name args n e n' id t.
Proof. exact (open_inv (Some source) name args n e n'). Qed.

Lemma kept_open src source name args n e n' :
  record_tool_call source name args n = (e, n') -> source <> src -> kept src n n'.
Proof.
  intros (id & t & [_ _ _ _ _ Hp _])%record_call_inv Hne p Hget. exists p.
  rewrite Hp, im_get_insert_ne by done. done.
Qed.

Lemma kept_result src source output is_error n e n' :
  record_tool_result source output is_error n = (e, n') -> source <> src -> kept src n n'.
Proof.
  intros [_ (t & Hr)]%result_inv Hne.
  destruct (im_get source (pending_tool_calls n)); destruct Hr as (_ & _ & Hp & _).
  - intros q Hget. exists q. rewrite Hp, im_get_remove_ne by done. done.
  - by apply kept_same.
Qed.

Lemma kept_arguments src id delta n e n' :
  record_tool_call_arguments_delta id delta n = (e, n') -> kept src n n'.
Proof.
  intros (_ & Hp & _)%arguments_inv p Hget. rewrite Hp.
  pose proof (append_delta_first_get id delta (pending_tool_calls n) src) as Hg. by rewrite Hget in Hg.
Qed.

Ltac to_kept src :=
  repeat match goal with
  | H : (_ ≫= _) _ = (_, _) |- _ =>
      apply st_bind_inv in H; destruct H as (? & ? & ? & ?)
  | H : mret _ _ = (_, _) |- _ => apply st_ret_inv in H; destruct H; subst
  | H : st_gets _ _ = (_, _) |- _ => apply st_gets_inv in H; destruct H; subst
  | H : st_modify _ _ = _ |- _ => apply (kept_modify src) in H; [|cbn; by repeat case_match]
  | H : next_envelope_with_source _ _ _ _ _ = _ |- _ => apply (kept_next src) in H
  | H : next_envelope _ _ = _ |- _ => apply (kept_signal src) in H
  | H : record_tool_call _ _ _ _ = _ |- _ => apply (kept_open src) in H; [|done]
  | H : record_tool_result _ _ _ _ = _ |- _ => apply (kept_result src) in H; [|done]
  | H : record_tool_call_arguments_delta _ _ _ = _ |- _ => apply (kept_arguments src) in H
  | H : finish_tool_accumulator _ _ = _ |- _ => apply core_finish_accumulator, (kept_core src) in H
  | H : context [match ?x with _ => _ end _ = _] |- _ => destruct x
  end.
Ltac chain_kept :=
  repeat match goal with
  | |- kept _ ?n ?n => by apply kept_same
  | H : kept _ ?n ?n' |- kept _ ?n ?n' => exact H
  | H : kept _ ?n _ |- kept _ ?n _ => eapply kept_trans; [exact H|clear H]
  end.

Lemma kept_close src n es n' : close_open_final_text_block n = (es, n') -> kept src n n'.
Proof. unfold close_open_final_text_block. intros Hn. to_kept src; chain_kept. Qed.
Lemma kept_ensure src n b n' : ensure_open_final_text_block n = (b, n') -> kept src n n'.
Proof. unfold ensure_open_final_text_block. intros Hn. to_kept src; chain_kept. Qed.

Lemma kept_stream_block src index block n es n' :
  update_keeps src (UStreamBlockStart index block) = true ->
  normalize_stream_block block n = (es, n') -> kept src n n'.
Proof.
  unfold normalize_stream_block. cbn [update_keeps]. intros Hk Hn. destruct block.
  1, 4: to_kept src; chain_kept.
  all: apply negb_true_iff in Hk; apply bool_decide_eq_false in Hk; to_kept src; chain_kept.
Qed.

Lemma kept_update src u te n es n' :
  update_keeps src u = true -> normalize_ui_update u te n = (es, n') -> kept src n n'.
Proof.
  unfold normalize_ui_update. intros Hk Hn. destruct u; cbv zeta in Hn; try done.
  all: repeat match goal with
    | H : (_ ≫= _) _ = (_, _) |- _ => apply st_bind_inv in H; destruct H as (? & ? & ? & ?)
    | H : close_open_final_text_block _ = _ |- _ => apply (kept_close src) in H
    | H : ensure_open_final_text_block _ = _ |- _ => apply (kept_ensure src) in H
    | H : normalize_stream_block _ _ = _ |- _ => apply (kept_stream_block src index) in H; [|done]
    end; to_kept src; chain_kept.
Qed.

Definition run_updates (us : list UiUpdate) : ST Norm (list RuntimeEnvelope) :=
  st_concat (fun u => normalize_ui_update u None) us.

Lemma kept_updates src us n es n' :
  forallb (update_keeps src) us = true -> run_updates us n = (es, n') -> kept src n n'.
Proof.
  unfold run_updates. revert n es. induction us as [|u us IH]; cbn [st_concat forallb]; intros n es Hk Hn.
  - st_inv. by apply kept_same.
  - apply andb_prop in Hk as [Hu Hk]. st_inv. eapply kept_trans; [by eapply kept_update|].
    by eapply IH.
Qed.
End keeping.

Section followed.
Context {clk : Clock} {ord : HashOrder} {js : SerdeJson}.

Definition calls_same (n n' : Norm) : Prop := pending_tool_calls n' = pending_tool_calls n.

Lemma close_calls n es n' : close_open_final_text_block n = (es, n') -> calls_same n n'.
Proof.
  unfold close_open_final_text_block, calls_same. intros Hn. st_inv.
  destruct (open_final_text_block _); st_inv; [|done].
  match goal with H : next_envelope_with_source _ _ _ _ _ = _ |- _ =>
    apply next_inv in H as (_ & _ & _ & _ & Hp & _) end. done.
Qed.

Lemma block_start_inv index block te n out n' :
  normalize_ui_update (UStreamBlockStart index block) te n = (out, n') ->
  exists n1 pre es n2, normalize_stream_block block n1 = (es, n2) /\ out = pre ++ es
    /\ calls_same n n1 /\ calls_same n2 n'.
Proof.
  unfold normalize_ui_update. cbv zeta. intros Hn.
  apply st_bind_inv in Hn as (pre & m1 & Hclose%close_calls & Hn).
  apply st_bind_inv in Hn as (? & m2 & ->%st_modify_inv & Hn).
  apply st_bind_inv in Hn as (e & m3 & Hnext & Hn).
  apply st_bind_inv in Hn as (es & m4 & Hblock & Hn).
  apply st_bind_inv in Hn as (? & m5 & ->%st_modify_inv & Hn). st_inv.
  apply next_inv in Hnext as (_ & _ & _ & _ & Hp & _).
  exists m3, (pre ++ [e]), es, m4. unfold calls_same in *. cbn in Hp.
  split; [done|]. split; [by rewrite <- app_assoc|]. split; [congruence|].
  by repeat case_match.
Qed.

(** The operations of a tool call are now used through their inversions only. *)
#[local] Opaque record_tool_call record_tool_result.

Lemma call_block_inv src name input status n es n' :
  normalize_stream_block (ToolCall src name input status) n = (es, n') ->
  exists s id t, es = [s] /\ opened (Some src) name input n s n' id t.
Proof.
  intros Hn. apply st_bind_inv in Hn as (s & m & Hs & Hn).
  apply st_ret_inv in Hn as [<- <-].
  apply record_call_inv in Hs as (id & t & Hs). by exists s, id, t.
Qed.

Lemma result_block_inv src output is_error n es n' :
  normalize_stream_block (ToolResult src output is_error) n = (es, n') ->
  exists f, es = [f] /\ record_tool_result src output is_error n = (f, n').
Proof.
  intros Hn. apply st_bind_inv in Hn as (s & m & Hs & Hn).
  apply st_ret_inv in Hn as [<- <-]. by exists s.
Qed.
End followed.

(** A tool call is followed from its block to its result.  When the provider's block of a
    call with source id [src] is followed by any updates that neither end the pulse nor open
    another block with that id, and then by the block of its result, the result is reported
    for the same id and name as the start, as completed or failed, from the same time and with
    the start as its parent, and the call is no longer pending. *)
Theorem tool_call_followed `{!Clock} `{!HashOrder} `{!SerdeJson}
    n src name input status index index' us output is_error :
  forallb (update_keeps src) us = true ->
  let '(out1, n1) := normalize_ui_update (UStreamBlockStart index (ToolCall src name input status)) None n in
  let '(_, n2) := run_updates us n1 in
  let '(out3, n3) := normalize_ui_update (UStreamBlockStart index' (ToolResult src output is_error)) None n2 in
  exists pre s pre' f id from_ to_ ms,
    out1 = pre ++ [s] /\ out3 = pre' ++ [f]
    /\ env_signal s = ToolCallStarted id name input Pending from_
    /\ env_signal f = result_signal is_error id (Some name) (Some from_) to_ (Some ms) output
    /\ env_parent_frame_id f = Some (env_frame_id s)
    /\ im_get src (pending_tool_calls n3) = None.
Proof.
  intros Hk.
  destruct (normalize_ui_update (UStreamBlockStart index _) None n) as [out1 n1] eqn:Hu1.
  destruct (run_updates us n1) as [es n2] eqn:Hu2.
  destruct (normalize_ui_update (UStreamBlockStart index' _) None n2) as [out3 n3] eqn:Hu3.
  apply block_start_inv in Hu1 as (m1 & pre & es1 & m2 & Hb1 & -> & Hs1 & Hs2).
  apply block_start_inv in Hu3 as (m3 & pre' & es3 & m4 & Hb3 & -> & Hs3 & Hs4).
  apply call_block_inv in Hb1 as (s & id & t & -> & [_ Hsig _ _ _ Hp _]).
  apply result_block_inv in Hb3 as (f & -> & (_ & to_ & Hr)%result_inv).
  set (call := mk_PendingToolCall id name input (serialize_tool_arguments input) (env_frame_id s) t)
    in Hp.
  destruct (kept_updates _ _ _ _ _ Hk Hu2 call) as (p & Hp2 & Hid & Hnm & Hfr & Hat).
  { by rewrite Hs2, Hp, im_get_insert_eq. }
  unfold calls_same in *. rewrite Hs3, Hp2 in Hr. destruct Hr as (Hf & Hpar & Hp' & _).
  rewrite Hid, Hnm, Hat in Hf. rewrite Hfr in Hpar.
  exists pre, s, pre', f, id, (timestamp_string t), (timestamp_string to_), (duration_ms to_ t).
  split; [done|]. split; [done|]. split; [exact Hsig|]. split; [exact Hf|].
  split; [exact Hpar|]. by rewrite Hs4, Hp', im_get_remove_eq.
Qed.

Lemma tool_call_followed_witness :
  let update u := @normalize_ui_update step_clock map_order empty_codec u None in
  let n := new_inner t!"t" None in
  let us := [UStreamDelta t!"hi"; UStreamBlockDelta 3 t!"{}"; UStreamBlockComplete 3] in
  forallb (update_keeps t!"a") us = true /\
  let '(out1, n1) := update (UStreamBlockStart 3 (ToolCall t!"a" t!"ls" (Object []) Pending)) n in
  let '(_, n2) := @run_updates step_clock map_order empty_codec us n1 in
  let '(out3, n3) := update (UStreamBlockStart 4 (ToolResult t!"a" t!"ok" false)) n2 in
  exists pre s pre' f id from_ to_ ms,
    out1 = pre ++ [s] /\ out3 = pre' ++ [f]
    /\ env_signal s = ToolCallStarted id t!"ls" (Object []) Pending from_
    /\ env_signal f = result_signal false id (Some t!"ls") (Some from_) to_ (Some ms) t!"ok"
    /\ env_parent_frame_id f = Some (env_frame_id s)
    /\ im_get t!"a" (pending_tool_calls n3) = None.
Proof.
  cbv zeta. split; [done|].
  apply (@tool_call_followed step_clock map_order empty_codec (new_inner t!"t" None) t!"a" t!"ls"
    (Object []) Pending 3 4 _ t!"ok" false). done.
Defined.

(** ** The end of a pulse *)
Definition end_status (o : op) : option (str * PulseEndContext) :=
  match o with
  | OUpdate UPulseComplete te => Some (t!"completed", unwrap_or te PulseEndContext_default)
  | OUpdate (UError _) te => Some (t!"failed", unwrap_or te PulseEndContext_default)
  | OError _ _ false te => Some (t!"failed", te)
  | OMaxTurns _ te => Some (t!"failed", te)
  | OCancelled te => Some (t!"cancelled", te)
  | _ => None
  end.

(** The files reported: those given, or else those noted from the calls of the pulse. *)
Definition reported_files (te : PulseEndContext) (n : Norm) : list str :=
  match pec_changed_files te with [] => turn_changed_files n | files => files end.

Definition pulse_cleared (n : Norm) : Prop :=
  pending_tool_calls n = [] /\ pending_tool_call_contexts n = ∅
  /\ streaming_tool_call_blocks n = ∅ /\ block_sources n = ∅ /\ open_final_text_block n = None.

(** The envelopes that close the synthetic text block, if one is open. *)
Definition closes_text_block (n : Norm) (es : list RuntimeEnvelope) : Prop :=
  match open_final_text_block n with
  | None => es = []
  | Some index => exists e, es = [e] /\ env_signal e = TranscriptBlockComplete index
  end.

Section pulse_end.
Context {clk : Clock} {ord : HashOrder} {js : SerdeJson}.

(** The fields the end of a pulse reads are left alone by what comes before it. *)
Definition text_state (n : Norm) := (open_final_text_block n, turn_changed_files n).

Lemma text_state_next signal req par src n e n' :
  next_envelope_with_source signal req par src n = (e, n') ->
  text_state n' = text_state n /\ streaming_tool_call_blocks n' = streaming_tool_call_blocks n
  /\ block_sources n' = block_sources n /\ env_signal e = signal.
Proof.
  unfold next_envelope_with_source. intros Hn. st_inv.
  match goal with H : now _ = _ |- _ => injection H as <- <- end.
  match goal with H : st_state _ _ = _ |- _ => injection H as <- <- end. done.
Qed.

Lemma text_state_finish_accumulator id n u n' :
  finish_tool_accumulator id n = (u, n') -> text_state n' = text_state n.
Proof.
  unfold finish_tool_accumulator. intros Hn. st_inv.
  match goal with H : instant _ = _ |- _ => injection H as <- <- end.
  match goal with H : on_accumulator _ _ = _ |- _ => unfold on_accumulator in H end.
  destruct (delta_accumulator _); simplify_eq; done.
Qed.

Lemma text_state_finish_pending n u n' :
  finish_pending_tool_accumulations n = (u, n') -> text_state n' = text_state n.
Proof.
  unfold finish_pending_tool_accumulations. intros Hn. st_inv.
  match goal with H : finish_accumulations ?l _ = _ |- _ => revert H; generalize l as ids end.
  match goal with |- forall ids, finish_accumulations ids ?m = _ -> _ => generalize m end.
  intros m ids. revert m. induction ids as [|id ids IH]; intros m Hn; cbn [finish_accumulations] in Hn;
    st_inv; [done|].
  match goal with H : finish_tool_accumulator _ _ = _ |- _ => apply text_state_finish_accumulator in H end.
  match goal with H : finish_accumulations _ _ = _ |- _ => apply IH in H end. congruence.
Qed.

Lemma close_text_block n es n' :
  close_open_final_text_block n = (es, n') ->
  open_final_text_block n' = None /\ turn_changed_files n' = turn_changed_files n
  /\ closes_text_block n es.
Proof.
  unfold close_open_final_text_block, closes_text_block. intros Hn. st_inv.
  destruct (open_final_text_block _) as [index|] eqn:Hopen; st_inv; [|done].
  match goal with H : next_envelope_with_source _ _ _ _ _ = _ |- _ =>
    apply text_state_next in H as (Ht & _ & _ & Hs) end.
  unfold text_state in Ht. cbn in Ht. injection Ht as -> ->. eauto.
Qed.

Lemma pulse_end_inv status usage files n e n' :
  open_final_text_block n = None ->
  next_envelope (PulseEnd status usage files) (clear_pulse n) = (e, n') ->
  env_signal e = PulseEnd status usage files /\ pulse_cleared n'.
Proof.
  intros Hopen Hn.
  pose proof (text_state_next _ _ _ _ _ _ _ Hn) as (Ht & Hstr & Hsrc & Hs).
  apply next_inv in Hn as (_ & _ & _ & _ & Hp & Hc).
  unfold text_state in Ht. cbn in *. injection Ht as Ho _.
  split; [done|]. unfold pulse_cleared. rewrite Ho. done.
Qed.

Lemma ends_error code message te n es n' :
  emit_error code message false te n = (es, n') ->
  exists pre mid e, es = pre ++ mid ++ [e] /\ closes_text_block n pre
    /\ env_signal e = PulseEnd t!"failed" (pec_usage te) (reported_files te n) /\ pulse_cleared n'.
Proof.
  unfold emit_error. intros Hn.
  apply st_bind_inv in Hn as (pre & m1 & (Ho & Hf & Hclose)%close_text_block & Hn).
  apply st_bind_inv in Hn as (e1 & m2 & Hnext & Hn).
  apply text_state_next in Hnext as (Ht & _).
  apply st_bind_inv in Hn as (files & m3 & [-> ->]%st_gets_inv & Hn).
  apply st_bind_inv in Hn as (? & m4 & Hfin%text_state_finish_pending & Hn).
  apply st_bind_inv in Hn as (? & m5 & ->%st_modify_inv & Hn).
  apply st_bind_inv in Hn as (e & m6 & Hend & Hn). apply st_ret_inv in Hn as [<- <-].
  injection Ht as Ht1 Ht2. injection Hfin as Hf1 Hf2.
  apply pulse_end_inv in Hend as [Hs Hc]; [|congruence].
  exists pre, [e1], e. split; [done|]. split; [done|]. split; [|done].
  rewrite Hs. unfold reported_files. destruct (pec_changed_files te); [|done]. by rewrite Ht2, Hf.
Qed.

Lemma ends_max_turns m te n es n' :
  emit_max_turns_reached m te n = (es, n') ->
  exists pre mid e, es = pre ++ mid ++ [e] /\ closes_text_block n pre
    /\ env_signal e = PulseEnd t!"failed" (pec_usage te) (reported_files te n) /\ pulse_cleared n'.
Proof.
  unfold emit_max_turns_reached. intros Hn.
  apply st_bind_inv in Hn as (pre & m1 & (Ho & Hf & Hclose)%close_text_block & Hn).
  apply st_bind_inv in Hn as (files & m3 & [-> ->]%st_gets_inv & Hn).
  apply st_bind_inv in Hn as (? & m4 & Hfin%text_state_finish_pending & Hn).
  apply st_bind_inv in Hn as (? & m5 & ->%st_modify_inv & Hn).
  apply st_bind_inv in Hn as (e1 & m6 & Hnext & Hn).
  apply st_bind_inv in Hn as (e & m7 & Hend & Hn). apply st_ret_inv in Hn as [<- <-].
  injection Hfin as Hf1 Hf2.
  pose proof (text_state_next _ _ _ _ _ _ _ Hnext) as (Ht & Hstr & Hsrc & _).
  apply next_inv in Hnext as (_ & _ & _ & _ & Hp & Hc). injection Ht as Ht1 Ht2.
  pose proof (text_state_next _ _ _ _ _ _ _ Hend) as (Ht' & Hstr' & Hsrc' & Hs').
  apply next_inv in Hend as (_ & _ & _ & _ & Hp' & Hc'). injection Ht' as Ht1' Ht2'.
  exists pre, [e1], e. split; [done|]. split; [done|]. split.
  - rewrite Hs'. unfold reported_files. destruct (pec_changed_files te); [|done]. by rewrite Hf.
  - unfold pulse_cleared. cbn in *. repeat split; congruence.
Qed.

Lemma ends_turn status te n es n' :
  finish_turn_with_status status te n = (es, n') ->
  exists pre mid e, es = pre ++ mid ++ [e] /\ closes_text_block n pre
    /\ env_signal e = PulseEnd status (pec_usage te) (reported_files te n) /\ pulse_cleared n'.
Proof.
  unfold finish_turn_with_status. intros Hn.
  apply st_bind_inv in Hn as (files & m3 & [-> ->]%st_gets_inv & Hn).
  apply st_bind_inv in Hn as (? & m4 & Hfin%text_state_finish_pending & Hn).
  apply st_bind_inv in Hn as (pre & m1 & (Ho & Hf & Hclose)%close_text_block & Hn).
  apply st_bind_inv in Hn as (? & m5 & ->%st_modify_inv & Hn).
  apply st_bind_inv in Hn as (e & m6 & Hend & Hn). apply st_ret_inv in Hn as [<- <-].
  injection Hfin as Hf1 Hf2. apply pulse_end_inv in Hend as [Hs Hc]; [|done].
  exists pre, [], e. split; [done|]. split.
  - unfold closes_text_block in *. by rewrite Hf1 in Hclose.
  - split; [|done]. rewrite Hs. unfold reported_files. by destruct (pec_changed_files te).
Qed.
End pulse_end.

(** Every operation that ends a pulse (completion, cancellation, an unrecoverable error,
    the turn limit) first completes the synthetic text block if one is open, emits the
    [PulseEnd] last, with the status of the operation, the usage given and the files given or
    else noted during the pulse, and leaves no pending call, block or open text behind. *)
Theorem pulse_end_complete `{!Clock} `{!HashOrder} `{!SerdeJson} o status te n :
  end_status o = Some (status, te) ->
  let '(es, n') := run_op o n in
  exists pre mid e, es = pre ++ mid ++ [e] /\ closes_text_block n pre
    /\ env_signal e = PulseEnd status (pec_usage te) (reported_files te n)
    /\ pulse_cleared n'.
Proof.
  intros Hend. destruct (run_op o n) as [es n'] eqn:Hn. destruct o; cbn in Hend; try done.
  - destruct update; try done; injection Hend as <- <-.
    + by eapply ends_turn.
    + by eapply ends_error.
  - destruct recoverable; [done|]. injection Hend as <- <-. by eapply ends_error.
  - injection Hend as <- <-. by eapply ends_max_turns.
  - injection Hend as <- <-. by eapply ends_turn.
Qed.

Lemma pulse_end_complete_witness :
  let te := mk_PulseEndContext None [] in
  let run o := @run_op step_clock map_order empty_codec o in
  let n := (run (OUpdate (UStreamDelta t!"hi") None) (new_inner t!"t" None)).2 in
  end_status (OCancelled te) = Some (t!"cancelled", te) /\
  let '(es, n') := run (OCancelled te) n in
  exists pre mid e, es = pre ++ mid ++ [e] /\ closes_text_block n pre
    /\ env_signal e = PulseEnd t!"cancelled" None (reported_files te n) /\ pulse_cleared n'.
Proof.
  intros te run n. split; [done|].
  exact (@pulse_end_complete step_clock map_order empty_codec (OCancelled te) t!"cancelled" te n eq_refl).
Defined.
