(* ===== verification/Derived.v ===== *)
(** Turn records derived back from envelopes: [derive_batch_records] of
    src/runtime/json_handoff.rs and src/runtime/json_handoff/derived.rs, and what they say of a pulse
    without updates of final blocks, as the normalizer writes it. *)
From Stdlib Require Import NArith ZArith Lia.
From stdpp Require Import base list gmap sets strings numbers.
From S2P Require Import Prelude Text Collections Json Usage Evidence DeltaAccumulator TextNormaliser Envelope Normalizer NormalizerTheory.
#[local] Open Scope N_scope.

Record DerivedTurnState := mk_DerivedTurnState {
  dts_pulse : N;
  dts_input : str;
  transcript_response : str;
  pending_final_text_blocks : list (N * str);
  dts_changed_files : list str;
  command_history : list CommandEvidence;
  tokens : PulseTokens.t;
}.
Definition DerivedTurnState_default : DerivedTurnState :=
  mk_DerivedTurnState 0 [] [] [] [] [] PulseTokens.default.

Definition set_text (response : str) (pending : list (N * str)) (d : DerivedTurnState)
    : DerivedTurnState :=
  mk_DerivedTurnState (dts_pulse d) (dts_input d) response pending (dts_changed_files d)
    (command_history d) (tokens d).

Definition start_final_text_block (index : N) (content : str) (d : DerivedTurnState) :=
  set_text (transcript_response d) (im_insert index content (pending_final_text_blocks d)) d.

Definition append_final_text_delta (index : N) (delta : str) (d : DerivedTurnState) :=
  match im_get index (pending_final_text_blocks d) with
  | Some content =>
      set_text (transcript_response d)
        (im_insert index (content ++ delta) (pending_final_text_blocks d)) d
  | None => d
  end.

Definition complete_final_text_block (index : N) (d : DerivedTurnState) :=
  match im_get index (pending_final_text_blocks d) with
  | Some content =>
      set_text (transcript_response d ++ content)
        (im_remove index (pending_final_text_blocks d)) d
  | None => d
  end.

Definition flush_open_final_text_blocks (d : DerivedTurnState) :=
  set_text (transcript_response d ++ concat (map snd (pending_final_text_blocks d))) [] d.

Definition into_record (path : option str) (d : DerivedTurnState) : TurnEvidenceRecord :=
  let d := flush_open_final_text_blocks d in
  mk_TurnEvidenceRecord (dts_pulse d) (dts_input d) (transcript_response d) path
    (dts_changed_files d) (command_history d) (tokens d).

Definition push_evidence (name : option str) (status : ToolStatus) (d : DerivedTurnState) :=
  match name ≫= (fun name => command_evidence_from_tool_result name (bool_decide (status = Error))) with
  | Some evidence =>
      mk_DerivedTurnState (dts_pulse d) (dts_input d) (transcript_response d)
        (pending_final_text_blocks d) (dts_changed_files d)
        (command_history d ++ [evidence]) (tokens d)
  | None => d
  end.

Record DerivedBatchRecords := mk_DerivedBatchRecords {
  dbr_pulses : list TurnEvidenceRecord;
  dbr_summary : option SummaryRecord;
  dbr_max_turns_reached : bool;
}.

(** The local variables of the loop. *)
Record DeriveState := mk_DeriveState {
  ds_pulses : list TurnEvidenceRecord;
  current_turn : option DerivedTurnState;
  ds_task_id : option str;
  last_status : option str;
  all_changed_files : list str;
  max_turns_reached : bool;
}.
Definition DeriveState_start : DeriveState := mk_DeriveState [] None None None [] false.

Definition on_turn (f : DerivedTurnState -> DerivedTurnState) (s : DeriveState) : DeriveState :=
  mk_DeriveState (ds_pulses s) (f <$> current_turn s) (ds_task_id s) (last_status s)
    (all_changed_files s) (max_turns_reached s).

Definition insert_all (files : list str) (set : list str) : list str :=
  fold_left (fun set path => set_insert path set) files set.

(** What an envelope does to the turn it belongs to, pulse boundaries apart. *)
Definition turn_signal (signal : RuntimeSignal) (d : DerivedTurnState) : DerivedTurnState :=
  match signal with
  | TranscriptBlockStart index (FinalText content) => start_final_text_block index content d
  | TranscriptBlockDelta index delta => append_final_text_delta index delta d
  | TranscriptBlockComplete index => complete_final_text_block index d
  | ToolCallCompleted _ name status _ _ _ _ | ToolCallFailed _ name status _ _ _ _ =>
      push_evidence name status d
  | _ => d
  end.

(** The body of the loop. *)
Definition derive_envelope (path : option str) (s : DeriveState) (e : RuntimeEnvelope)
    : DeriveState :=
  let s :=
    mk_DeriveState (ds_pulses s) (current_turn s)
      (match ds_task_id s with Some id => Some id | None => Some (env_task_id e) end)
      (last_status s) (all_changed_files s) (max_turns_reached s) in
  match env_signal e with
  | PulseStart input =>
      let pulses :=
        match current_turn s with
        | Some d => ds_pulses s ++ [into_record path d]
        | None => ds_pulses s
        end in
      mk_DeriveState pulses
        (Some (mk_DerivedTurnState (env_pulse e) (unwrap_or input []) [] [] [] []
                 PulseTokens.default))
        (ds_task_id s) (last_status s) (all_changed_files s) (max_turns_reached s)
  | PulseEnd status usage changed_files =>
      match current_turn s with
      | Some d =>
          let d :=
            mk_DerivedTurnState (dts_pulse d) (dts_input d) (transcript_response d)
              (pending_final_text_blocks d) changed_files (command_history d)
              (match usage with Some u => turn_tokens_from_usage u | None => PulseTokens.default end) in
          mk_DeriveState (ds_pulses s ++ [into_record path d]) None (ds_task_id s) (Some status)
            (insert_all changed_files (all_changed_files s)) (max_turns_reached s)
      | None => s
      end
  | MaxTurnsReached _ =>
      mk_DeriveState (ds_pulses s) (current_turn s) (ds_task_id s) (last_status s)
        (all_changed_files s) true
  | signal => on_turn (turn_signal signal) s
  end.

Definition derive_finish (path : option str) (s : DeriveState) : DerivedBatchRecords :=
  let '(pulses, files) :=
    match current_turn s with
    | Some d =>
        (ds_pulses s ++ [into_record path d],
         insert_all (dts_changed_files d) (all_changed_files s))
    | None => (ds_pulses s, all_changed_files s)
    end in
  let summary :=
    task ← ds_task_id s;
    status ← last_status s;
    Some (mk_SummaryRecord true status task (N.of_nat (length pulses)) path files []) in
  mk_DerivedBatchRecords pulses summary (max_turns_reached s).

Definition derive_batch_records (envelopes : list RuntimeEnvelope) (path : option str)
    : DerivedBatchRecords :=
  derive_finish path (fold_left (derive_envelope path) envelopes DeriveState_start).

(** ** What the normalizer writes *)

(** The text of the synthetic block: open in the normalizer under [index] when it is pending
    under [index] in the record, [text] in all. *)
Definition text_open (n : Norm) (d : DerivedTurnState) (text : str) : Prop :=
  SYNTHETIC_FINAL_TEXT_BLOCK_START <= next_synthetic_block_index n /\
  match open_final_text_block n with
  | Some index =>
      SYNTHETIC_FINAL_TEXT_BLOCK_START <= index
      /\ exists content, pending_final_text_blocks d = [(index, content)]
         /\ transcript_response d ++ content = text
  | None => pending_final_text_blocks d = [] /\ transcript_response d = text
  end.

(** Signals that do not touch the text of final blocks. *)
Definition text_signal (s : RuntimeSignal) : bool :=
  match s with
  | TranscriptBlockStart _ (FinalText _) | TranscriptBlockDelta _ _ | TranscriptBlockComplete _ => true
  | _ => false
  end.

Definition turn_signals (es : list RuntimeEnvelope) (d : DerivedTurnState) : DerivedTurnState :=
  fold_left (fun d e => turn_signal (env_signal e) d) es d.

Lemma turn_signals_app es es' d : turn_signals (es ++ es') d = turn_signals es' (turn_signals es d).
Proof. apply fold_left_app. Qed.

Lemma turn_signal_quiet s d :
  text_signal s = false ->
  pending_final_text_blocks (turn_signal s d) = pending_final_text_blocks d
  /\ transcript_response (turn_signal s d) = transcript_response d.
Proof.
  destruct s as [| |i []| | | | | | | | | | | | | | | |]; cbn; try done; intros _;
    unfold push_evidence; by destruct (_ ≫= _).
Qed.

Lemma text_open_quiet n n' es d text :
  Forall (fun e => text_signal (env_signal e) = false) es ->
  open_final_text_block n' = open_final_text_block n ->
  next_synthetic_block_index n' = next_synthetic_block_index n ->
  text_open n d text -> text_open n' (turn_signals es d) text.
Proof.
  intros Hes Ho Hn. unfold text_open. rewrite Ho, Hn.
  enough (pending_final_text_blocks (turn_signals es d) = pending_final_text_blocks d
    /\ transcript_response (turn_signals es d) = transcript_response d) as [-> ->]; [done|].
  revert d. induction Hes as [|e es He _ IH]; intros d; [done|]. cbn [turn_signals fold_left].
  destruct (turn_signal_quiet _ d He) as [<- <-]. apply IH.
Qed.

Section writing.
Context {clk : Clock} {ord : HashOrder} {js : SerdeJson}.

Definition text_pos (n : Norm) : option N * N :=
  (open_final_text_block n, next_synthetic_block_index n).
Definition pos_eq (n n' : Norm) : Prop := text_pos n' = text_pos n.

Lemma pos_eq_trans n n1 n2 : pos_eq n n1 -> pos_eq n1 n2 -> pos_eq n n2.
Proof. unfold pos_eq. congruence. Qed.
Lemma pos_next signal req par src n e n' :
  next_envelope_with_source signal req par src n = (e, n') -> pos_eq n n' /\ env_signal e = signal.
Proof.
  unfold next_envelope_with_source. intros Hn. st_inv.
  match goal with H : now _ = _ |- _ => injection H as <- <- end.
  match goal with H : st_state _ _ = _ |- _ => injection H as <- <- end. done.
Qed.
Lemma pos_modify f n u n' : st_modify f n = (u, n') -> text_pos (f n) = text_pos n -> pos_eq n n'.
Proof. by intros ->%st_modify_inv. Qed.
Lemma pos_now n t n' : now n = (t, n') -> pos_eq n n'.
Proof. by intros [= _ <-]. Qed.
Lemma pos_instant n t n' : instant n = (t, n') -> pos_eq n n'.
Proof. by intros [= _ <-]. Qed.
Lemma pos_accumulator {A} (f : Acc -> A * Acc) n a n' : on_accumulator f n = (a, n') -> pos_eq n n'.
Proof.
  unfold on_accumulator. destruct (delta_accumulator n) as [acc|]; [destruct (f acc)|];
    by intros [= _ <-].
Qed.
Lemma pos_call_id n id n' : next_tool_call_id n = (id, n') -> pos_eq n n'.
Proof.
  unfold next_tool_call_id. intros Hn. st_inv.
  match goal with H : now _ = _ |- _ => injection H as <- <- end.
  match goal with H : st_state _ _ = _ |- _ => injection H as <- <- end. done.
Qed.
Lemma pos_append id delta n v n' : append_pending_tool_delta id delta n = (v, n') -> pos_eq n n'.
Proof.
  unfold append_pending_tool_delta. destruct (append_delta_first _ _ _). by intros [= _ <-].
Qed.

Ltac to_pos :=
  repeat match goal with
  | H : (_ ≫= _) _ = (_, _) |- _ => apply st_bind_inv in H; destruct H as (? & ? & ? & ?)
  | H : mret _ _ = (_, _) |- _ => apply st_ret_inv in H; destruct H; subst
  | H : st_gets _ _ = (_, _) |- _ => apply st_gets_inv in H; destruct H; subst
  | H : st_modify _ _ = _ |- _ => apply pos_modify in H; [|cbn; by repeat case_match]
  | H : now _ = _ |- _ => apply pos_now in H
  | H : instant _ = _ |- _ => apply pos_instant in H
  | H : on_accumulator _ _ = _ |- _ => apply pos_accumulator in H
  | H : next_tool_call_id _ = _ |- _ => apply pos_call_id in H
  | H : append_pending_tool_delta _ _ _ = _ |- _ => apply pos_append in H
  | H : next_envelope_with_source _ _ _ _ _ = _ |- _ => apply pos_next in H; destruct H
  | H : next_envelope_with_context _ _ _ _ = _ |- _ => apply pos_next in H; destruct H
  | H : next_envelope _ _ = _ |- _ => apply pos_next in H; destruct H
  | H : context [match ?x with _ => _ end _ = _] |- _ => destruct x
  end.
Ltac chain_pos :=
  repeat match goal with
  | H : pos_eq ?n ?n' |- pos_eq ?n ?n' => exact H
  | |- pos_eq ?n ?n => reflexivity
  | H : pos_eq ?n _ |- pos_eq ?n _ => eapply pos_eq_trans; [exact H|clear H]
  end.

Lemma pos_start_accumulator id name n u n' :
  start_tool_accumulator id name n = (u, n') -> pos_eq n n'.
Proof. unfold start_tool_accumulator. intros Hn. to_pos. chain_pos. Qed.
Lemma pos_seed_accumulator id args n u n' : seed_tool_accumulator id args n = (u, n') -> pos_eq n n'.
Proof. unfold seed_tool_accumulator. intros Hn. repeat case_match; to_pos; chain_pos. Qed.
Lemma pos_finish_accumulator id n u n' : finish_tool_accumulator id n = (u, n') -> pos_eq n n'.
Proof. unfold finish_tool_accumulator. intros Hn. to_pos. chain_pos. Qed.
Lemma pos_accumulate id delta n r n' : accumulate_tool_delta id delta n = (r, n') -> pos_eq n n'.
Proof. unfold accumulate_tool_delta. intros Hn. to_pos. chain_pos. Qed.

(** A tool call event is quiet: it leaves the final text alone. *)
Definition quiet_one (n : Norm) (e : RuntimeEnvelope) (n' : Norm) : Prop :=
  pos_eq n n' /\ text_signal (env_signal e) = false.

Lemma quiet_call source name args n e n' :
  record_tool_call source name args n = (e, n') -> quiet_one n e n'.
Proof.
  unfold record_tool_call, open_tool_call. intros Hn. to_pos.
  match goal with H : start_tool_accumulator _ _ _ = _ |- _ => apply pos_start_accumulator in H end.
  match goal with H : seed_tool_accumulator _ _ _ = _ |- _ => apply pos_seed_accumulator in H end.
  split; [chain_pos|]. by match goal with H : env_signal _ = _ |- _ => rewrite H end.
Qed.

Lemma quiet_result source output is_error n e n' :
  record_tool_result source output is_error n = (e, n') -> quiet_one n e n'.
Proof.
  unfold record_tool_result, result_signal. intros Hn. destruct is_error; to_pos;
    repeat match goal with H : finish_tool_accumulator _ _ = _ |- _ => apply pos_finish_accumulator in H end;
    (split; [chain_pos|by match goal with H : env_signal _ = _ |- _ => rewrite H end]).
Qed.

Lemma quiet_arguments id delta n e n' :
  record_tool_call_arguments_delta id delta n = (e, n') -> quiet_one n e n'.
Proof.
  unfold record_tool_call_arguments_delta. intros Hn.
  to_pos; match goal with H : accumulate_tool_delta _ _ _ = _ |- _ => apply pos_accumulate in H end;
    (split; [chain_pos|by match goal with H : env_signal _ = _ |- _ => rewrite H end]).
Qed.
End writing.

(** ** Updates write text *)
Definition update_text (u : UiUpdate) : str := match u with UStreamDelta t => t | _ => [] end.

(** Updates that do not end the pulse, and whose blocks are the provider's: no final text, and
    indices below the synthetic ones. *)
Definition update_safe (u : UiUpdate) : bool :=
  match u with
  | UStreamBlockStart _ (FinalText _) | UPulseComplete | UError _ => false
  | UStreamBlockStart index _ | UStreamBlockDelta index _ | UStreamBlockComplete index =>
      index <? SYNTHETIC_FINAL_TEXT_BLOCK_START
  | _ => true
  end.

Definition text_step (n : Norm) (es : list RuntimeEnvelope) (n' : Norm) (delta : str) : Prop :=
  forall d text, text_open n d text -> text_open n' (turn_signals es d) (text ++ delta).

Definition quiet (n : Norm) (es : list RuntimeEnvelope) (n' : Norm) : Prop :=
  pos_eq n n' /\ Forall (fun e => text_signal (env_signal e) = false) es.

Lemma quiet_step n es n' : quiet n es n' -> text_step n es n' [].
Proof.
  intros [Hpos Hes] d text Ho. injection Hpos as Ho' Hn'. rewrite app_nil_r.
  by eapply text_open_quiet.
Qed.

Lemma quiet_silent n n' : pos_eq n n' -> quiet n [] n'.
Proof. intros Hp. split; [done|constructor]. Qed.

Lemma text_step_app n es n1 es' n2 a b :
  text_step n es n1 a -> text_step n1 es' n2 b -> text_step n (es ++ es') n2 (a ++ b).
Proof. intros Ha Hb d text Ho%Ha%Hb. by rewrite turn_signals_app, app_assoc. Qed.

Lemma text_step_after n n1 es n2 a : pos_eq n n1 -> text_step n1 es n2 a -> text_step n es n2 a.
Proof. intros Hp%quiet_silent%quiet_step Ha. exact (text_step_app _ _ _ _ _ _ _ Hp Ha). Qed.

Lemma text_step_before n es n1 n2 a : text_step n es n1 a -> pos_eq n1 n2 -> text_step n es n2 a.
Proof.
  intros Ha Hp%quiet_silent%quiet_step.
  pose proof (text_step_app _ _ _ _ _ _ _ Ha Hp) as Hab. by rewrite !app_nil_r in Hab.
Qed.

Section updates.
Context {clk : Clock} {ord : HashOrder} {js : SerdeJson}.

Lemma quiet_next signal req par src n e n' :
  next_envelope_with_source signal req par src n = (e, n') -> text_signal signal = false ->
  quiet n [e] n'.
Proof. intros [Hp <-]%pos_next Hq. split; [done|]. by constructor. Qed.

Lemma text_close n es n' : close_open_final_text_block n = (es, n') -> text_step n es n' [].
Proof.
  unfold close_open_final_text_block. intros Hn. st_inv.
  destruct (open_final_text_block _) as [index|] eqn:Hopen; st_inv.
  2:{ apply quiet_step. by split. }
  match goal with H : next_envelope_with_source _ _ _ _ _ = _ |- _ => apply pos_next in H as [Hp Hs] end.
  intros d text [Hle Ho]. rewrite Hopen in Ho. destruct Ho as (Hi & content & Hpend & Htext).
  injection Hp as Hp1 Hp2. cbn in Hp1, Hp2. unfold text_open. rewrite Hp1, Hp2. split; [done|].
  cbn [turn_signals fold_left]. rewrite Hs. cbn [turn_signal]. unfold complete_final_text_block.
  rewrite Hpend. cbn [im_get]. rewrite decide_True by done. cbn. rewrite bool_decide_eq_true_2 by done.
  cbn. by rewrite app_nil_r.
Qed.

Lemma text_ensure n b n' :
  ensure_open_final_text_block n = (b, n') ->
  text_step n b.2 n' [] /\ open_final_text_block n' = Some b.1.
Proof.
  unfold ensure_open_final_text_block. intros Hn. st_inv.
  destruct (open_final_text_block _) as [index|] eqn:Hopen; st_inv.
  { split; [|done]. apply quiet_step. by split. }
  match goal with H : next_envelope_with_source _ _ _ _ _ = _ |- _ => apply pos_next in H as [Hp Hs] end.
  injection Hp as Hp1 Hp2. cbn in Hp1, Hp2. split; [|done].
  intros d text [Hle Ho]. rewrite Hopen in Ho. destruct Ho as [Hpend Htext].
  unfold text_open. rewrite Hp1, Hp2. split.
  - unfold sat_add, usize_max, u64_max, SYNTHETIC_FINAL_TEXT_BLOCK_START in *. lia.
  - split; [done|]. exists []. cbn [turn_signals fold_left snd]. rewrite Hs.
    cbn [turn_signal]. unfold start_final_text_block. rewrite Hpend. cbn.
    split; [done|]. by rewrite Htext.
Qed.

Lemma text_delta_open signal_text index req par src n e n' :
  open_final_text_block n = Some index ->
  next_envelope_with_source (TranscriptBlockDelta index signal_text) req par src n = (e, n') ->
  text_step n [e] n' signal_text.
Proof.
  intros Hopen [Hp Hs]%pos_next d text [Hle Ho]. rewrite Hopen in Ho.
  destruct Ho as (Hi & content & Hpend & Htext). injection Hp as Hp1 Hp2.
  unfold text_open. rewrite Hp1, Hp2, Hopen. split; [done|]. split; [done|].
  exists (content ++ signal_text). cbn [turn_signals fold_left]. rewrite Hs. cbn [turn_signal].
  unfold append_final_text_delta. rewrite Hpend. cbn [im_get]. rewrite decide_True by done.
  cbn. rewrite decide_True by done. by rewrite <- Htext, app_assoc.
Qed.

(** The provider's blocks are not the synthetic one. *)
Lemma text_other_block signal index req par src n e n' :
  index <? SYNTHETIC_FINAL_TEXT_BLOCK_START = true ->
  ((exists delta, signal = TranscriptBlockDelta index delta) \/ signal = TranscriptBlockComplete index) ->
  next_envelope_with_source signal req par src n = (e, n') -> text_step n [e] n' [].
Proof.
  intros Hi%N.ltb_lt Hsig [Hp Hs]%pos_next d text [Hle Ho]. injection Hp as Hp1 Hp2.
  unfold text_open. rewrite Hp1, Hp2, app_nil_r. split; [done|].
  assert (im_get index (pending_final_text_blocks d) = None) as Hget.
  { destruct (open_final_text_block n) as [i|].
    - destruct Ho as (Hle' & content & -> & _). cbn. rewrite decide_False; [done|lia].
    - by destruct Ho as [-> _]. }
  cbn [turn_signals fold_left]. rewrite Hs.
  destruct Hsig as [[delta ->] | ->]; cbn [turn_signal];
    unfold append_final_text_delta, complete_final_text_block; by rewrite Hget.
Qed.

Lemma quiet_stream_block block n es n' :
  normalize_stream_block block n = (es, n') -> quiet n es n'.
Proof.
  unfold normalize_stream_block. intros Hn. destruct block; st_inv.
  - by apply quiet_silent.
  - match goal with H : record_tool_call _ _ _ _ = _ |- _ => apply quiet_call in H as [Hp Hq] end.
    split; [done|by constructor].
  - match goal with H : record_tool_result _ _ _ _ = _ |- _ => apply quiet_result in H as [Hp Hq] end.
    split; [done|by constructor].
  - by apply quiet_silent.
Qed.

Lemma text_update u n es n' :
  update_safe u = true -> normalize_ui_update u None n = (es, n') -> text_step n es n' (update_text u).
Proof.
  unfold normalize_ui_update. cbv zeta. intros Hu Hn.
  destruct u; cbn [update_text]; try done; try (st_inv; by apply quiet_step, quiet_silent).
  - apply st_bind_inv in Hn as (pre & m1 & Hc%text_close & Hn). st_inv.
    match goal with H : next_envelope _ _ = _ |- _ =>
      apply quiet_next, quiet_step in H; [|done]; exact (text_step_app _ _ _ _ _ _ _ Hc H) end.
  - apply st_bind_inv in Hn as (b & m1 & [Hc Ho]%text_ensure & Hn). st_inv.
    match goal with H : next_envelope_with_source _ _ _ _ _ = _ |- _ =>
      apply text_delta_open in H; [exact (text_step_app _ _ _ _ _ _ _ Hc H)|done] end.
  - apply st_bind_inv in Hn as (pre & m1 & Hc%text_close & Hn).
    apply st_bind_inv in Hn as (? & m2 & Hm & Hn). apply pos_modify in Hm; [|done].
    apply st_bind_inv in Hn as (e & m3 & He & Hn).
    apply quiet_next, quiet_step in He; [|by destruct block].
    apply st_bind_inv in Hn as (es' & m4 & Hb%quiet_stream_block%quiet_step & Hn).
    apply st_bind_inv in Hn as (? & m5 & Hm' & Hn). apply pos_modify in Hm'; [|cbn; by repeat case_match].
    st_inv. eapply (text_step_app _ _ _ _ _ [] []); [exact Hc|].
    eapply text_step_after; [exact Hm|]. eapply (text_step_app _ _ _ _ _ [] []); [exact He|].
    by eapply text_step_before.
  - st_inv. match goal with H : next_envelope_with_source _ _ _ _ _ = (_, ?m) |- _ =>
      eapply (text_other_block _ index) in H as He; [|done|eauto] end.
    destruct (streaming_tool_call_blocks _ !! index); st_inv; [|done].
    match goal with H : record_tool_call_arguments_delta _ _ _ = (?e', _) |- _ =>
      apply quiet_arguments in H as [Hp Hq];
      eapply (text_step_app _ [_] _ [_] _ [] []); [exact He|apply quiet_step; split; [done|by constructor]] end.
  - cbn in Hu. st_inv.
    match goal with H : next_envelope_with_source _ _ _ _ _ = (_, _) |- _ =>
      eapply (text_other_block _ index) in H as He; [|done|by right] end.
    eapply text_step_after; [|exact He].
    destruct (streaming_tool_call_blocks _ !! index); st_inv; [|done].
    match goal with H : finish_tool_accumulator _ _ = _ |- _ => apply pos_finish_accumulator in H; exact H end.
  - apply st_bind_inv in Hn as (pre & m1 & Hc%text_close & Hn). st_inv.
    match goal with H : next_envelope _ _ = _ |- _ =>
      apply quiet_next, quiet_step in H; [|done]; exact (text_step_app _ _ _ _ _ _ _ Hc H) end.
  - st_inv. match goal with H : next_envelope _ _ = _ |- _ => by apply quiet_next, quiet_step in H end.
Qed.

Lemma text_updates us n es n' :
  forallb update_safe us = true -> run_updates us n = (es, n') ->
  text_step n es n' (concat (map update_text us)).
Proof.
  unfold run_updates. revert n es.
  induction us as [|u us IH]; cbn [st_concat forallb map concat]; intros n es Hs Hn.
  - st_inv. by apply quiet_step, quiet_silent.
  - apply andb_prop in Hs as [Hu Hs]. st_inv.
    eapply text_step_app; [by eapply text_update | by eapply IH].
Qed.
End updates.

(** ** Pulse boundaries *)
Definition boundary_signal (s : RuntimeSignal) : bool :=
  match s with PulseStart _ | PulseEnd _ _ _ | MaxTurnsReached _ => true | _ => false end.
Definition inside (es : list RuntimeEnvelope) : Prop :=
  Forall (fun e => boundary_signal (env_signal e) = false) es.

Lemma inside_nil : inside [].
Proof. constructor. Qed.
#[local] Hint Resolve inside_nil : core.

Lemma inside_app a b : inside a -> inside b -> inside (a ++ b).
Proof. apply Forall_app_2. Qed.

Lemma derive_inside path es d pulses status files reached task :
  inside es -> Forall (fun e => env_task_id e = task) es ->
  fold_left (derive_envelope path) es (mk_DeriveState pulses (Some d) (Some task) status files reached)
  = mk_DeriveState pulses (Some (turn_signals es d)) (Some task) status files reached.
Proof.
  intros Hin Htask. revert d. induction Hin as [|e es He _ IH]; intros d; [done|].
  apply list.Forall_cons in Htask as [_ Htask]. cbn [fold_left turn_signals]. rewrite <- IH by done.
  f_equal. unfold derive_envelope. cbn [ds_task_id].
  destruct (env_signal e); cbn in He; done.
Qed.

Section boundaries.
Context {clk : Clock} {ord : HashOrder} {js : SerdeJson}.

Lemma inside_next signal req par src n e n' :
  next_envelope_with_source signal req par src n = (e, n') -> boundary_signal signal = false ->
  inside [e].
Proof. intros [_ <-]%pos_next Hb. by constructor. Qed.

Lemma inside_call source name args n e n' :
  record_tool_call source name args n = (e, n') -> inside [e].
Proof. intros (id & t & [_ Hs _ _ _ _ _])%record_call_inv. constructor; [by rewrite Hs|constructor]. Qed.

Lemma inside_result source output is_error n e n' :
  record_tool_result source output is_error n = (e, n') -> inside [e].
Proof.
  intros [_ (t & Hr)]%result_inv. constructor; [|constructor].
  destruct (im_get source (pending_tool_calls n)); destruct Hr as [-> _]; by destruct is_error.
Qed.

Lemma inside_arguments id delta n e n' :
  record_tool_call_arguments_delta id delta n = (e, n') -> inside [e].
Proof.
  intros (_ & _ & _ & _ & invalid & Hs)%arguments_inv. constructor; [by rewrite Hs|constructor].
Qed.

Lemma inside_close n es n' : close_open_final_text_block n = (es, n') -> inside es.
Proof.
  unfold close_open_final_text_block. intros Hn. st_inv.
  destruct (open_final_text_block _); st_inv; [|done]. by eapply inside_next.
Qed.

Lemma inside_ensure n b n' : ensure_open_final_text_block n = (b, n') -> inside b.2.
Proof.
  unfold ensure_open_final_text_block. intros Hn. st_inv.
  destruct (open_final_text_block _); st_inv; [done|]. by eapply inside_next.
Qed.

Lemma inside_stream_block block n es n' : normalize_stream_block block n = (es, n') -> inside es.
Proof.
  unfold normalize_stream_block. intros Hn. destruct block; st_inv; try done.
  - by eapply inside_call.
  - by eapply inside_result.
Qed.

Ltac inside_auto :=
  repeat match goal with
  | H : next_envelope_with_source _ _ _ _ _ = _ |- _ => apply inside_next in H; [|done]
  | H : next_envelope _ _ = _ |- _ => apply inside_next in H; [|done]
  | H : record_tool_call_arguments_delta _ _ _ = _ |- _ => apply inside_arguments in H
  | H : close_open_final_text_block _ = _ |- _ => apply inside_close in H
  | H : ensure_open_final_text_block _ = _ |- _ => apply inside_ensure in H
  | H : normalize_stream_block _ _ = _ |- _ => apply inside_stream_block in H
  end.

Lemma inside_update u n es n' :
  update_safe u = true -> normalize_ui_update u None n = (es, n') -> inside es.
Proof.
  unfold normalize_ui_update. cbv zeta. intros Hu Hn.
  destruct u; try done; st_inv; try done; inside_auto; try done.
  - by apply inside_app.
  - by apply inside_app.
  - do 2 (apply inside_app; [done|]). done.
  - destruct (streaming_tool_call_blocks _ !! index); st_inv; inside_auto; [|done].
    by apply (inside_app [_] [_]).
  - by apply inside_app.
Qed.

Lemma inside_updates us n es n' :
  forallb update_safe us = true -> run_updates us n = (es, n') -> inside es.
Proof.
  unfold run_updates. revert n es. induction us as [|u us IH]; cbn [st_concat forallb]; intros n es Hs Hn.
  - st_inv. done.
  - apply andb_prop in Hs as [Hu Hs]. st_inv.
    apply inside_app; [by eapply inside_update | by eapply IH].
Qed.

Lemma steps_updates us n es n' : run_updates us n = (es, n') -> trace step n es n'.
Proof. apply steps_concat. intros. by eapply steps_ui_update. Qed.

(** The envelopes of a task all carry its id. *)
Lemma numbered_task n es n' :
  numbered n es n' -> next_seq n <= u64_max -> Forall (fun e => env_task_id e = task_id n) es.
Proof.
  intros [_ _ _ _ He] Hb. apply list.Forall_forall. intros e Hin.
  apply list_elem_of_lookup in Hin as [i Hi]. by destruct (He Hb i e Hi) as [(_ & Ht & _) _].
Qed.
End boundaries.

(** ** The record of a pulse *)
Definition evidence_of (e : RuntimeEnvelope) : list CommandEvidence :=
  match env_signal e with
  | ToolCallCompleted _ name status _ _ _ _ | ToolCallFailed _ name status _ _ _ _ =>
      option_list (name ≫= (fun name =>
        command_evidence_from_tool_result name (bool_decide (status = Error))))
  | _ => []
  end.

Lemma turn_signals_frame es d :
  let d' := turn_signals es d in
  dts_pulse d' = dts_pulse d /\ dts_input d' = dts_input d
  /\ dts_changed_files d' = dts_changed_files d /\ tokens d' = tokens d
  /\ command_history d' = command_history d ++ concat (map evidence_of es).
Proof.
  cbv zeta. revert d. induction es as [|e es IH]; intros d; [by rewrite app_nil_r|].
  change (turn_signals (e :: es) d) with (turn_signals es (turn_signal (env_signal e) d)).
  cbn [map concat]. destruct (IH (turn_signal (env_signal e) d)) as (-> & -> & -> & -> & ->).
  unfold evidence_of at 2. rewrite app_assoc.
  destruct (env_signal e) as [| |i []| | | | | | | | | | | | | | | |]; cbn;
    rewrite ?app_nil_r; try done;
    unfold append_final_text_delta, complete_final_text_block, push_evidence;
    try (by destruct (im_get _ _); rewrite ?app_nil_r);
    destruct (_ ≫= _); by rewrite ?app_nil_r.
Qed.

Lemma evidence_quiet pre : Forall (fun e => evidence_of e = []) pre -> concat (map evidence_of pre) = [].
Proof. induction 1 as [|e pre He _ IH]; cbn; [done|]. by rewrite He, IH. Qed.

Section recorded.
Context {clk : Clock} {ord : HashOrder} {js : SerdeJson}.

Lemma pos_finish_pending n u n' : finish_pending_tool_accumulations n = (u, n') -> pos_eq n n'.
Proof.
  unfold finish_pending_tool_accumulations. intros Hn. st_inv.
  match goal with H : finish_accumulations ?l ?m = _ |- _ => revert H; generalize l as ids; generalize m end.
  intros m ids. revert m. induction ids as [|id ids IH]; intros m Hn; cbn [finish_accumulations] in Hn;
    st_inv; [done|].
  match goal with H : finish_tool_accumulator _ _ = _ |- _ => apply pos_finish_accumulator in H as Hp end.
  match goal with H : finish_accumulations _ _ = _ |- _ => apply IH in H as Hp' end.
  by eapply pos_eq_trans.
Qed.

Lemma turn_end_text status te n es n' :
  finish_turn_with_status status te n = (es, n') ->
  exists pre e n1, es = pre ++ [e] /\ inside pre /\ concat (map evidence_of pre) = []
    /\ text_step n pre n1 []
    /\ open_final_text_block n1 = None
    /\ env_signal e = PulseEnd status (pec_usage te) (reported_files te n).
Proof.
  unfold finish_turn_with_status. intros Hn.
  apply st_bind_inv in Hn as (files & m3 & [-> ->]%st_gets_inv & Hn).
  apply st_bind_inv in Hn as (? & m4 & Hfin & Hn).
  apply st_bind_inv in Hn as (pre & m1 & Hclose & Hn).
  apply st_bind_inv in Hn as (? & m5 & ->%st_modify_inv & Hn).
  apply st_bind_inv in Hn as (e & m6 & [_ Hs]%pos_next & Hn). apply st_ret_inv in Hn as [<- <-].
  exists pre, e, m1. split; [done|]. split; [by eapply inside_close|]. split.
  { apply close_text_block in Hclose as (_ & _ & Hclose). unfold closes_text_block in Hclose.
    destruct (open_final_text_block m4); [|by subst].
    destruct Hclose as (e' & -> & Hs'). cbn. unfold evidence_of. by rewrite Hs'. }
  split.
  - eapply text_step_after; [by eapply pos_finish_pending|]. by apply text_close.
  - split; [by apply close_text_block in Hclose as [-> _]|]. rewrite Hs.
    unfold reported_files. by destruct (pec_changed_files te).
Qed.
End recorded.

(** From updates to the record.  A pulse that is started, receives updates but those of final
    blocks ([update_safe]) and completes, is derived back as one record: its number and input, the
    streamed text in order as the response, the files it reported, the usage it was given at its
    end, and the evidence of its envelopes in order; the summary counts one completed turn of the
    task. *)
Theorem pulse_recorded `{!Clock} `{!HashOrder} `{!SerdeJson} n p input us te path :
  next_seq n <= u64_max -> forallb update_safe us = true ->
  let '(s, n1) := start_pulse p input n in
  let '(es, n2) := run_updates us n1 in
  let '(ends, _) := normalize_ui_update UPulseComplete (Some te) n2 in
  let files := reported_files te n2 in
  derive_batch_records (s :: es ++ ends) path
  = mk_DerivedBatchRecords
      [mk_TurnEvidenceRecord p (unwrap_or input []) (concat (map update_text us)) path files
         (concat (map evidence_of es))
         (match pec_usage te with Some u => turn_tokens_from_usage u | None => PulseTokens.default end)]
      (Some (mk_SummaryRecord true t!"completed" (task_id n) 1 path (insert_all files []) []))
      false.
Proof.
  intros Hseq Hs. destruct (start_pulse p input n) as [s n1] eqn:Hstart.
  destruct (run_updates us n1) as [es n2] eqn:Hrun.
  destruct (normalize_ui_update UPulseComplete (Some te) n2) as [ends n3] eqn:Hend.
  apply start_pulse_inv in Hstart as (m & Hnext & Hm).
  pose proof (numbered_signal _ _ _ _ Hnext) as Hnum.
  apply pos_next in Hnext as [Hpos Hsig].
  set (d0 := mk_DerivedTurnState p (unwrap_or input []) [] [] [] [] PulseTokens.default).
  assert (text_open n1 d0 []) as Hopen.
  { injection Hpos as Ho Hn. unfold text_open. rewrite Ho, Hn, Hm. by split. }
  apply (text_updates _ _ _ _ Hs Hrun) in Hopen. cbn [app] in Hopen.
  pose proof (inside_updates _ _ _ _ Hs Hrun) as Hin.
  pose proof (steps_finish_turn _ _ _ _ _ Hend) as Hnum3. apply numbered_steps in Hnum3.
  pose proof (numbered_steps _ _ _ (steps_updates _ _ _ _ Hrun)) as Hnum2.
  apply turn_end_text in Hend as (pre & e & n4 & -> & Hpre & Hev & Htext & Hnone & He).
  apply Htext in Hopen as [_ Hopen]. rewrite Hnone, app_nil_r in Hopen.
  destruct Hopen as [Hpend Hresp]. rewrite <- turn_signals_app in Hpend, Hresp.
  assert (task_id m = task_id n /\ pulse m = p /\ next_seq m = next_seq n) as (Hmt & Hmp & Hms)
    by (by subst m).
  pose proof (nb_le _ _ _ Hnum ltac:(by rewrite Hms)) as Hb1.
  pose proof (nb_le _ _ _ Hnum2 Hb1) as Hb2.
  apply numbered_task in Hnum3; [|done]. pose proof (numbered_task _ _ _ Hnum2 Hb1) as Ht2.
  rewrite (nb_task _ _ _ Hnum2), (nb_task _ _ _ Hnum), Hmt in Hnum3.
  rewrite (nb_task _ _ _ Hnum), Hmt in Ht2. apply Forall_app in Hnum3 as [Ht3 Ht4].
  destruct (nb_each _ _ _ Hnum ltac:(by rewrite Hms) 0%nat s eq_refl) as [(_ & Hst & Hsp & _) _].
  unfold derive_batch_records. cbn [fold_left]. rewrite app_assoc, fold_left_app.
  assert (derive_envelope path DeriveState_start s
          = mk_DeriveState [] (Some d0) (Some (task_id n)) None [] false) as ->.
  { unfold derive_envelope. rewrite Hsig. cbn. by rewrite Hst, Hsp, Hmt, Hmp. }
  rewrite derive_inside; [|by apply inside_app|by apply Forall_app].
  cbn [fold_left]. unfold derive_envelope. rewrite He. cbn [current_turn ds_task_id].
  destruct (turn_signals_frame (es ++ pre) d0) as (Hf1 & Hf2 & _ & _ & Hf3).
  rewrite map_app, concat_app, Hev, app_nil_r in Hf3.
  unfold derive_finish. cbn. unfold into_record, flush_open_final_text_blocks. cbn.
  rewrite Hf1, Hf2, Hf3, Hpend, Hresp. cbn. by rewrite app_nil_r.
Qed.

Lemma pulse_recorded_witness :
  let us := [UStreamDelta t!"Hel"; UStreamBlockStart 1 (ToolCall t!"a" t!"git_status" (Object []) Pending);
             UStreamBlockStart 2 (ToolResult t!"a" t!"ok" false); UStreamDelta t!"lo"] in
  let te := mk_PulseEndContext None [] in
  let '(s, n1) := @start_pulse step_clock 1 (Some t!"hi") (new_inner t!"t" None) in
  let '(es, n2) := @run_updates step_clock map_order empty_codec us n1 in
  let '(ends, _) := @normalize_ui_update step_clock map_order empty_codec UPulseComplete (Some te) n2 in
  derive_batch_records (s :: es ++ ends) None
  = mk_DerivedBatchRecords
      [mk_TurnEvidenceRecord 1 t!"hi" t!"Hello" None (reported_files te n2)
         (concat (map evidence_of es)) PulseTokens.default]
      (Some (mk_SummaryRecord true t!"completed" t!"t" 1 None (insert_all (reported_files te n2) []) []))
      false.
Proof.
  cbv zeta. refine (@pulse_recorded step_clock map_order empty_codec (new_inner t!"t" None) 1
    (Some t!"hi") [UStreamDelta t!"Hel"; UStreamBlockStart 1 (ToolCall t!"a" t!"git_status" (Object []) Pending);
             UStreamBlockStart 2 (ToolResult t!"a" t!"ok" false); UStreamDelta t!"lo"]
    (mk_PulseEndContext None []) None _ _); [apply N.leb_le|]; by vm_compute.
Defined.
