(* ===== verification/ProtocolIngress.v ===== *)
(** Provider and chat-compatible streams turned into envelopes:
    src/runtime/json_handoff/protocol_ingress.rs, with the payload types of
    src/api/stream/provider.rs and src/api/stream/chat_compat.rs.

    The text normaliser can panic, so the methods are actions of [PST Norm].  Log lines and
    span attributes are left out; the one log argument that can panic is kept. *)
From Stdlib Require Import NArith ZArith Lia.
From stdpp Require Import base list gmap sets strings numbers.
From S2P Require Import Prelude Text Collections Json Usage Evidence DeltaAccumulator TextNormaliser Envelope Normalizer.
#[local] Open Scope N_scope.

Definition MAX_TOOL_CALL_INDEX : N := 1024.

(** ** Payloads *)
Record ProviderMessageStartData := mk_ProviderMessageStartData {
  pms_id : str;
  pms_message_type : option str;
  pms_role : str;
  pms_model : str;
  pms_content : option (list value);
  pms_stop_reason : option str;
  pms_stop_sequence : option str;
  pms_usage : option ApiUsage;
  pms_metadata : option StreamChunkMetadata;
}.

Record ProviderMessageDelta := mk_ProviderMessageDelta {
  pmd_stop_reason : option str;
  pmd_stop_sequence : option str;
  pmd_role : option str;
  pmd_refusal : option str;
  pmd_metadata : option StreamChunkMetadata;
}.

Record ProviderApiStreamError := mk_ProviderApiStreamError {
  error_type : str;
  error_message : str;
}.

Record ProviderDelta := mk_ProviderDelta {
  pd_delta_type : option str;
  pd_text : option str;
  pd_partial_json : option str;
  pd_thinking : option str;
  pd_signature : option str;
  pd_choice_index : option N;
}.

Inductive ProviderStreamItem : Type :=
| MessageStart (message : ProviderMessageStartData)
| ContentBlockStart (index : N) (content_block : value)
| ContentBlockDelta (index : N) (delta : ProviderDelta)
| ContentBlockStop (index : N)
| MessageDelta (delta : ProviderMessageDelta) (usage : option ApiUsage)
| MessageStop
| Ping
| PError (error : ProviderApiStreamError)
| Unknown.

Inductive ChatCompatFunctionArguments : Type :=
| CString (s : str)
| CJson (v : value).

Record ChatCompatFunctionDelta := mk_ChatCompatFunctionDelta {
  fd_name : option str;
  fd_arguments : option ChatCompatFunctionArguments;
}.

Record ChatCompatToolCallDelta := mk_ChatCompatToolCallDelta {
  tcd_index : option N;
  tcd_id : option str;
  tcd_call_type : option str;
  tcd_function : option ChatCompatFunctionDelta;
}.

Record ChatCompatDelta := mk_ChatCompatDelta {
  cd_role : option str;
  cd_content : option str;
  cd_reasoning_content : option str;
  cd_refusal : option str;
  cd_tool_calls : option (list ChatCompatToolCallDelta);
}.

Record ChatCompatChoice := mk_ChatCompatChoice {
  ch_index : option N;
  ch_delta : ChatCompatDelta;
  ch_finish_reason : option str;
  ch_logprobs : option value;
}.

Record ChatCompatChunk := mk_ChatCompatChunk {
  ck_id : option str;
  ck_object : option str;
  ck_created : option N;
  ck_model : option str;
  ck_system_fingerprint : option str;
  ck_service_tier : option str;
  ck_prompt_progress : option StreamPromptProgress;
  ck_timings : option StreamTimings;
  ck_choices : list ChatCompatChoice;
  ck_usage : option ApiUsage;
}.

Inductive ChatCompatPayload : Type :=
| Done
| Chunk (chunk : ChatCompatChunk).

(** ** Content blocks *)
Inductive ProviderContentBlockCompat : Type :=
| PCText (text : str) (citations : list value)
| PCToolUse (id name : str) (input : value) (metadata : option value)
| PCToolResult (tool_use_id : str) (content : value) (is_error : bool)
| PCThinking (thinking : str) (signature : option str)
| PCThinkingData (data : str)
| PCServerToolUse (id name : str) (input : value)
| PCWebSearchToolResult (tool_use_id : str) (content : value).

Inductive ProviderContentBlock : Type :=
| PText (text : str)
| PToolUse (id name : str) (input : value)
| PToolResult
| PThinking (thinking : str)
| PThinkingData (data : str)
| PServerToolUse (id name : str) (input : value)
| PWebSearchToolResult.

Inductive ProviderBlockDelta : Type :=
| DText (text : str)
| DToolArguments (arguments : str).

(** [From<ProviderContentBlockCompat>]. *)
Definition from_compat (v : ProviderContentBlockCompat) : ProviderContentBlock :=
  match v with
  | PCText text _ => PText text
  | PCToolUse id name input _ => PToolUse id name input
  | PCToolResult _ _ _ => PToolResult
  | PCThinking thinking _ => PThinking thinking
  | PCThinkingData data => PThinkingData data
  | PCServerToolUse id name input => PServerToolUse id name input
  | PCWebSearchToolResult _ _ => PWebSearchToolResult
  end.

(** The deserialiser serde derives for [ProviderContentBlockCompat]: the block or the text of
    the error. *)
Class BlockDecoder := {
  content_block_from_value : value -> ProviderContentBlockCompat + str;
}.

Definition decode_provider_content_block `{BlockDecoder} (v : value)
    : ProviderContentBlock + str :=
  let block_type := unwrap_or (value_get t!"type" v ≫= as_str) t!"<missing>" in
  match content_block_from_value v with
  | inl block => inl (from_compat block)
  | inr err => inr (t!"type=" ++ block_type ++ t!": " ++ err)
  end.

Definition provider_stream_block (b : ProviderContentBlock) : option (StreamBlock * option str) :=
  match b with
  | PText text | PThinking text | PThinkingData text => Some (Thinking [] false, Some text)
  | PToolUse id name input | PServerToolUse id name input =>
      Some (ToolCall id name input Pending, None)
  | PToolResult | PWebSearchToolResult => None
  end.

Definition needs_text_normaliser (b : ProviderContentBlock) : bool :=
  match b with PText _ | PThinking _ | PThinkingData _ => true | _ => false end.

Definition non_empty (o : option str) : option str :=
  match o with Some (_ :: _) => o | _ => None end.

Definition provider_block_delta (d : ProviderDelta) : option ProviderBlockDelta :=
  match non_empty (pd_text d), non_empty (pd_thinking d), non_empty (pd_partial_json d) with
  | Some text, _, _ => Some (DText text)
  | None, Some thinking, _ => Some (DText thinking)
  | None, None, Some partial => Some (DToolArguments partial)
  | None, None, None => None
  end.

(** ** Metadata *)
Definition message_start_metadata (metadata : option StreamChunkMetadata)
    : option StreamChunkMetadata :=
  m ← metadata;
  let m := mk_StreamChunkMetadata (md_object m) (md_created m) (md_system_fingerprint m)
             (md_service_tier m) (md_choice_index m) (md_logprobs m) None None in
  if opt_is_some (md_object m) || opt_is_some (md_created m)
     || opt_is_some (md_system_fingerprint m) || opt_is_some (md_service_tier m)
     || opt_is_some (md_choice_index m) || opt_is_some (md_logprobs m)
  then Some m else None.

Definition chat_compat_metadata (chunk : ChatCompatChunk) (choice_index : option N)
    (logprobs : option value) : option StreamChunkMetadata :=
  let m := mk_StreamChunkMetadata (ck_object chunk) (ck_created chunk)
             (ck_system_fingerprint chunk) (ck_service_tier chunk) choice_index logprobs
             (ck_prompt_progress chunk) (ck_timings chunk) in
  if opt_is_some (md_object m) || opt_is_some (md_created m)
     || opt_is_some (md_system_fingerprint m) || opt_is_some (md_service_tier m)
     || opt_is_some (md_choice_index m) || opt_is_some (md_logprobs m)
     || opt_is_some (md_prompt_progress m) || opt_is_some (md_timings m)
  then Some m else None.

(** ** The state of a chat-compatible tool call *)
Section tool_state.
Context `{SerdeJson}.

Definition push_serialized (v : option value) (arguments : str) : str :=
  match v ≫= json_to_string with
  | Some serialized => arguments ++ serialized
  | None => arguments
  end.

Definition absorb_arguments (arguments : ChatCompatFunctionArguments)
    (c : PendingChatCompatToolState) : PendingChatCompatToolState :=
  match arguments with
  | CString s =>
      set_pending_arguments (push_serialized (materialized_arguments c) (pending_arguments c) ++ s)
        (set_materialized_arguments None c)
  | CJson v =>
      match lifecycle c, pending_arguments c with
      | Discovered, [] => set_materialized_arguments (Some v) c
      | _, _ =>
          match json_to_string v with
          | Some serialized =>
              set_pending_arguments
                (push_serialized (materialized_arguments c) (pending_arguments c) ++ serialized)
                (set_materialized_arguments None c)
          | None => c
          end
      end
  end.

(** The id, the name and the arguments of a delta. *)
Definition absorb_delta (tool_call : ChatCompatToolCallDelta) (c : PendingChatCompatToolState)
    : PendingChatCompatToolState :=
  let c := match non_empty (tcd_id tool_call) with Some id => set_cc_id id c | None => c end in
  match tcd_function tool_call with
  | None => c
  | Some f =>
      let c := match non_empty (fd_name f) with Some name => set_cc_name name c | None => c end in
      match fd_arguments f with Some a => absorb_arguments a c | None => c end
  end.

(** The block to open, once the name is known, and the arguments to pass on, once the block is
    open. *)
Definition take_start_block (block_index : N) (c : PendingChatCompatToolState)
    : option ProviderContentBlock * PendingChatCompatToolState :=
  match lifecycle c, cc_name c with
  | Discovered, _ :: _ =>
      let id := if is_empty (cc_id c) then t!"toolu_chat_compat_" ++ fmt_N block_index else cc_id c in
      (Some (PToolUse id (cc_name c) (unwrap_or (materialized_arguments c) empty_json_object)),
       set_lifecycle Opened (set_materialized_arguments None c))
  | _, _ => (None, c)
  end.

Definition take_partial_json (c : PendingChatCompatToolState)
    : option str * PendingChatCompatToolState :=
  match lifecycle c, pending_arguments c with
  | Opened, _ :: _ => (Some (pending_arguments c), set_pending_arguments [] c)
  | _, _ => (None, c)
  end.
End tool_state.

(** ** The methods *)
Section ingress.
Context {clk : Clock} {ord : HashOrder} {js : SerdeJson} {dec : BlockDecoder}.

Definition ingress {A} (f : ProtocolIngressState -> A) : PST Norm A :=
  lift (st_gets (fun n => f (protocol_ingress n))).
Definition update_ingress (f : ProtocolIngressState -> ProtocolIngressState) : PST Norm unit :=
  lift (st_modify (on_ingress f)).
Definition ui (u : UiUpdate) : PST Norm (list RuntimeEnvelope) := lift (normalize_ui_update u None).

Definition protocol_stream_terminated (n : Norm) : bool :=
  chat_compat_stream_terminated (protocol_ingress n).

Definition ensure_protocol_ingress_turn_started : PST Norm (list RuntimeEnvelope) :=
  started ← ingress turn_started;
  if started : bool then mret []
  else
    e ← lift (start_pulse 1 None);
    update_ingress (set_turn_started true);;
    mret [e].

(** The initial text goes through [apply_text]: the method below, which is defined after the
    functions it needs.  A tool block has no initial text ([open_tool_block]). *)
Definition open_provider_stream_block_with
    (apply_text : N -> str -> PST Norm (list RuntimeEnvelope))
    (index : N) (content_block : ProviderContentBlock) : PST Norm (list RuntimeEnvelope) :=
  match provider_stream_block content_block with
  | None => mret []
  | Some (block, initial_delta) =>
      started ← ensure_protocol_ingress_turn_started;
      update_ingress (fun p => set_open_blocks (set_insert index (open_blocks p)) p);;
      (if needs_text_normaliser content_block
       then update_ingress (fun p =>
              match bmap_get index (tagged_text_normalisers p) with
              | Some _ => p
              | None =>
                  set_tagged_text_normalisers (bmap_insert index [] (tagged_text_normalisers p)) p
              end)
       else mret tt);;
      opened ← ui (UStreamBlockStart index block);
      text ← match non_empty initial_delta with
             | Some delta =>
                 if needs_text_normaliser content_block then apply_text index delta
                 else ui (UStreamBlockDelta index delta)
             | None => mret []
             end;
      mret (started ++ opened ++ text)
  end.

Definition no_text (index : N) (delta : str) : PST Norm (list RuntimeEnvelope) := mret [].

(** [emit_normalised_provider_chunks], over the method that emits a tagged call. *)
Definition emit_chunks_with (emit_call : str -> value -> PST Norm (list RuntimeEnvelope))
    (index : N) (chunks : list NormalisedChunk) : PST Norm (list RuntimeEnvelope) :=
  pst_concat (fun chunk =>
    match chunk with
    | Text text => ui (UStreamBlockDelta index text)
    | TaggedToolCall name input => emit_call name input
    end) chunks.

(** [close_provider_stream_block] of a block without a text normaliser, and of any block. *)
Definition close_provider_stream_block_with
    (emit_chunks : N -> list NormalisedChunk -> PST Norm (list RuntimeEnvelope))
    (index : N) : PST Norm (list RuntimeEnvelope) :=
  blocks ← ingress open_blocks;
  let '(present, rest) := set_remove index blocks in
  update_ingress (set_open_blocks rest);;
  if present : bool then
    normaliser ← ingress (fun p => bmap_get index (tagged_text_normalisers p));
    text ← match normaliser with
           | Some pending =>
               update_ingress (fun p =>
                 set_tagged_text_normalisers (bmap_remove index (tagged_text_normalisers p)) p);;
               emit_chunks index (TextNormaliser.finish pending).1
           | None => mret []
           end;
    closed ← ui (UStreamBlockComplete index);
    mret (text ++ closed)
  else mret [].

(** A block opened and closed for a call found in a text.  Neither step emits text of the
    call's own block, and a finished normaliser yields no call ([finish_no_call]). *)
Definition no_call (name : str) (input : value) : PST Norm (list RuntimeEnvelope) := mret [].

Definition emit_tagged_tool_call_from_text (name : str) (input : value)
    : PST Norm (list RuntimeEnvelope) :=
  native ← ingress has_native_tool_calls;
  if native : bool then mret []
  else
    index ← ingress next_tagged_tool_block_index;
    update_ingress (set_next_tagged_tool_block_index (sat_add usize_max index 1));;
    opened ← open_provider_stream_block_with no_text index
               (PToolUse (t!"toolu_tagged_" ++ fmt_N index) name input);
    closed ← close_provider_stream_block_with (emit_chunks_with no_call) index;
    mret (opened ++ closed).

Definition emit_normalised_provider_chunks : N -> list NormalisedChunk ->
    PST Norm (list RuntimeEnvelope) := emit_chunks_with emit_tagged_tool_call_from_text.

(** [entry(index).or_default().normalise(delta)]. *)
Definition normalise_at (index : N) (delta : str) : PST Norm (list NormalisedChunk) := fun n =>
  let normalisers := tagged_text_normalisers (protocol_ingress n) in
  match normalise delta (unwrap_or (bmap_get index normalisers) []) with
  | Returns (chunks, pending) =>
      Returns (chunks, on_ingress (set_tagged_text_normalisers
                                     (bmap_insert index pending normalisers)) n)
  | Panics => Panics
  end.

Definition apply_normalised_provider_text (index : N) (delta : str)
    : PST Norm (list RuntimeEnvelope) :=
  chunks ← normalise_at index delta;
  emit_normalised_provider_chunks index chunks.

Definition open_provider_stream_block : N -> ProviderContentBlock ->
    PST Norm (list RuntimeEnvelope) :=
  open_provider_stream_block_with apply_normalised_provider_text.

Definition close_provider_stream_block : N -> PST Norm (list RuntimeEnvelope) :=
  close_provider_stream_block_with emit_normalised_provider_chunks.

Definition apply_provider_stream_delta (index : N) (block_delta : ProviderBlockDelta)
    : PST Norm (list RuntimeEnvelope) :=
  let '(is_text_delta, delta) :=
    match block_delta with DText t => (true, t) | DToolArguments t => (false, t) end in
  if is_empty delta then mret []
  else
    started ← ensure_protocol_ingress_turn_started;
    blocks ← ingress open_blocks;
    opened ← (if is_text_delta && negb (set_mem index blocks) then
                update_ingress (fun p => set_open_blocks (set_insert index (open_blocks p)) p);;
                ui (UStreamBlockStart index (Thinking [] false))
              else mret []);
    text ← (if is_text_delta : bool then apply_normalised_provider_text index delta
            else ui (UStreamBlockDelta index delta));
    mret (started ++ opened ++ text).

(** ** Metadata and usage *)
Definition emit_provider_metadata (metadata : StreamChunkMetadata)
    : PST Norm (list RuntimeEnvelope) :=
  started ← ensure_protocol_ingress_turn_started;
  es ← ui (UServerMetadata metadata);
  mret (started ++ es).

Definition emit_optional_metadata (metadata : option StreamChunkMetadata)
    : PST Norm (list RuntimeEnvelope) :=
  match metadata with Some m => emit_provider_metadata m | None => mret [] end.

Definition emit_provider_usage (usage : ApiUsage) : PST Norm (list RuntimeEnvelope) :=
  update_ingress (fun p => set_turn_tokens (accumulate_turn_tokens (turn_tokens p) usage) p);;
  started ← ensure_protocol_ingress_turn_started;
  match token_usage_from_api_usage usage with
  | Some u => e ← lift (emit_signal (UsageUpdated u)); mret (started ++ [e])
  | None => mret started
  end.

Definition emit_optional_usage (usage : option ApiUsage) : PST Norm (list RuntimeEnvelope) :=
  match usage with Some u => emit_provider_usage u | None => mret [] end.

(** ** Chat-compatible chunks *)
Definition emit_chat_compat_message_start (chunk : ChatCompatChunk)
    : PST Norm (list RuntimeEnvelope) :=
  message_started ← ingress chat_compat_message_started;
  if message_started : bool then mret []
  else
    let role := find_map (fun choice => cd_role (ch_delta choice)) (ck_choices chunk) in
    let metadata := chat_compat_metadata chunk None None in
    if opt_is_some (ck_id chunk) || opt_is_some (ck_model chunk) || opt_is_some role
       || opt_is_some metadata
    then
      update_ingress (set_chat_compat_message_started true);;
      (if opt_is_some role then update_ingress (set_chat_compat_stream_terminated false)
       else mret tt);;
      emit_optional_metadata (message_start_metadata metadata)
    else mret [].

Definition apply_chat_compat_tool_delta (tool_call : ChatCompatToolCallDelta)
    : PST Norm (list RuntimeEnvelope) :=
  terminated ← ingress chat_compat_stream_terminated;
  if terminated : bool then mret []
  else
    let raw_index := N.min (unwrap_or (tcd_index tool_call) 0) MAX_TOOL_CALL_INDEX in
    let block_index := sat_add usize_max raw_index 1 in
    lifecycles ← ingress chat_compat_tool_lifecycles;
    let c := unwrap_or (bmap_get block_index lifecycles) PendingChatCompatToolState_default in
    update_ingress (set_chat_compat_tool_lifecycles (bmap_insert block_index c lifecycles));;
    match lifecycle c with
    | Closed => mret []
    | _ =>
        let c := absorb_delta tool_call c in
        let '(start_block, c) := take_start_block block_index c in
        let '(partial_json, c) := take_partial_json c in
        update_ingress (set_chat_compat_tool_lifecycles (bmap_insert block_index c lifecycles));;
        opened ← match start_block with
                 | Some block =>
                     update_ingress (set_has_native_tool_calls true);;
                     open_provider_stream_block block_index block
                 | None => mret []
                 end;
        args ← match partial_json with
               | Some json => apply_provider_stream_delta block_index (DToolArguments json)
               | None => mret []
               end;
        mret (opened ++ args)
    end.

(** The [iter_mut] of [close_chat_compat_tool_blocks]. *)
Definition close_lifecycle (c : PendingChatCompatToolState) : PendingChatCompatToolState :=
  set_lifecycle Closed c.
Definition opened_indices (l : list (N * PendingChatCompatToolState)) : list N :=
  omap (fun kc => match lifecycle kc.2 with Opened => Some kc.1 | _ => None end) l.

Definition close_chat_compat_tool_blocks : PST Norm (list RuntimeEnvelope) :=
  lifecycles ← ingress chat_compat_tool_lifecycles;
  update_ingress (set_chat_compat_tool_lifecycles
    (map (fun kc => (kc.1, close_lifecycle kc.2)) lifecycles));;
  pst_concat close_provider_stream_block (opened_indices lifecycles).

(** One turn of the loop over the choices. *)
Definition normalize_chat_compat_choice (chunk : ChatCompatChunk) (choice : ChatCompatChoice)
    : PST Norm (list RuntimeEnvelope) :=
  let delta := ch_delta choice in
  content ← match cd_content delta with
            | Some text => apply_provider_stream_delta 0 (DText text)
            | None => mret []
            end;
  reasoning ← match cd_reasoning_content delta with
              | Some text => apply_provider_stream_delta 0 (DText text)
              | None => mret []
              end;
  calls ← pst_concat apply_chat_compat_tool_delta (unwrap_or (cd_tool_calls delta) []);
  let metadata := chat_compat_metadata chunk (ch_index choice) (ch_logprobs choice) in
  let has_server_progress :=
    match metadata with
    | Some md => opt_is_some (md_prompt_progress md) || opt_is_some (md_timings md)
    | None => false
    end in
  md ← (if opt_is_some (cd_refusal delta) || opt_is_some (ch_finish_reason choice)
           || opt_is_some (ch_logprobs choice) || has_server_progress
        then emit_optional_metadata metadata else mret []);
  closed ← (if opt_is_some (ch_finish_reason choice) then close_chat_compat_tool_blocks
            else mret []);
  mret (content ++ reasoning ++ calls ++ md ++ closed).

Definition normalize_chat_compat_chunk (chunk : ChatCompatChunk)
    : PST Norm (list RuntimeEnvelope) :=
  message_start ← emit_chat_compat_message_start chunk;
  usage ← match ck_usage chunk with
          | Some usage =>
              let usage := match service_tier usage with
                           | None => usage_with_service_tier (ck_service_tier chunk) usage
                           | Some _ => usage
                           end in
              md ← emit_optional_metadata (chat_compat_metadata chunk None None);
              us ← emit_provider_usage usage;
              mret (md ++ us)
          | None => mret []
          end;
  choices ← pst_concat (normalize_chat_compat_choice chunk) (ck_choices chunk);
  mret (message_start ++ usage ++ choices).

Definition normalize_chat_compat_payload (payload : ChatCompatPayload)
    : PST Norm (list RuntimeEnvelope) :=
  match payload with
  | Done =>
      envelopes ← close_chat_compat_tool_blocks;
      update_ingress (set_chat_compat_message_started false);;
      update_ingress (set_chat_compat_stream_terminated true);;
      update_ingress (set_chat_compat_tool_lifecycles []);;
      mret envelopes
  | Chunk chunk => normalize_chat_compat_chunk chunk
  end.

(** ** Provider items *)
Definition raw_payload (content_block : value) : str :=
  unwrap_or (json_to_string content_block) t!"<non-serializable>".

(** The slice [&raw[..512]] of the log line panics off a character boundary. *)
Definition log_raw_payload (raw : str) : PST Norm unit := fun n =>
  if (512 <? blen raw) && negb (opt_is_some (take_bytes 512 raw)) then Panics
  else Returns (tt, n).

Definition normalize_provider_stream_item (item : ProviderStreamItem)
    : PST Norm (list RuntimeEnvelope) :=
  match item with
  | MessageStart message =>
      md ← emit_optional_metadata (message_start_metadata (pms_metadata message));
      us ← emit_optional_usage (pms_usage message);
      mret (md ++ us)
  | ContentBlockStart index content_block =>
      match decode_provider_content_block content_block with
      | inl block => open_provider_stream_block index block
      | inr err =>
          log_raw_payload (raw_payload content_block);;
          e ← lift (emit_signal (SError t!"provider_content_block_start_decode"
                 (t!"failed to decode provider content_block_start item at index "
                    ++ fmt_N index ++ t!": " ++ err) true));
          mret [e]
      end
  | ContentBlockDelta index delta =>
      match provider_block_delta delta with
      | Some d => apply_provider_stream_delta index d
      | None => mret []
      end
  | ContentBlockStop index => close_provider_stream_block index
  | MessageDelta delta usage =>
      md ← emit_optional_metadata (pmd_metadata delta);
      us ← emit_optional_usage usage;
      mret (md ++ us)
  | MessageStop | Ping | Unknown => mret []
  | PError error =>
      e ← lift (emit_signal (SError (error_type error) (error_message error) true)); mret [e]
  end.

(** ** Errors and the end of a turn *)
Definition emit_protocol_ingress_error (code message : str) : PST Norm RuntimeEnvelope :=
  ensure_protocol_ingress_turn_started;;
  lift (emit_signal (SError code message true)).

Definition finish_protocol_ingress_turn : PST Norm (list RuntimeEnvelope) :=
  started ← ingress turn_started;
  if negb started then mret []
  else
    normalisers ← ingress tagged_text_normalisers;
    update_ingress (set_tagged_text_normalisers []);;
    text ← pst_concat (fun kn => emit_normalised_provider_chunks kn.1 (TextNormaliser.finish kn.2).1)
             normalisers;
    blocks ← ingress open_blocks;
    update_ingress (set_open_blocks []);;
    closed ← pst_concat (fun index => ui (UStreamBlockComplete index)) blocks;
    tokens ← ingress turn_tokens;
    update_ingress (set_turn_tokens PulseTokens.default);;
    ended ← lift (normalize_ui_update UPulseComplete
                    (Some (mk_PulseEndContext (token_usage_from_turn_tokens tokens) [])));
    lift (st_modify (set_protocol_ingress ProtocolIngressState_default));;
    mret (text ++ closed ++ ended).
End ingress.

(** A decoder to evaluate examples with: text blocks and tool calls without input. *)
Definition small_decoder : BlockDecoder := {|
  content_block_from_value v :=
    match value_get t!"text" v ≫= as_str, value_get t!"name" v ≫= as_str with
    | Some text, _ => inl (PCText text [])
    | None, Some name => inl (PCToolUse name name empty_json_object None)
    | None, None => inr t!"unknown variant"
    end;
|}.
