(* ===== verification/ProtocolTheory.v ===== *)
(** What the ingress of provider and chat-compatible streams guarantees: the blocks it opens
    and completes, the numbering of its envelopes, the reassembly of a tool call from its
    fragments, and what it counts. *)
From Stdlib Require Import NArith ZArith Lia.
From stdpp Require Import base list gmap sets strings numbers.
From S2P Require Import Prelude Text Collections Json Usage Evidence DeltaAccumulator TextNormaliser Envelope Normalizer NormalizerTheory ProtocolIngress.
#[local] Open Scope N_scope.

(** ** What a normalizer operation leaves alone *)
Definition frame (n : Norm) := (protocol_ingress n, open_final_text_block n).

Definition keeps {A} (m : ST Norm A) : Prop := forall n, frame (m n).2 = frame n.

Lemma keeps_inv {A} (m : ST Norm A) n a n' : keeps m -> m n = (a, n') -> frame n' = frame n.
Proof. intros Hk Hm. specialize (Hk n). by rewrite Hm in Hk. Qed.

Lemma keeps_ret {A} (a : A) : keeps (mret a).
Proof. done. Qed.
Lemma keeps_gets {A} (f : Norm -> A) : keeps (st_gets f).
Proof. done. Qed.
Lemma keeps_bind {A B} (m : ST Norm A) (f : A -> ST Norm B) :
  keeps m -> (forall a, keeps (f a)) -> keeps (m ≫= f).
Proof. intros Hm Hf n. rewrite st_bind_unfold. by rewrite Hf. Qed.
Lemma keeps_modify f : (forall n, frame (f n) = frame n) -> keeps (st_modify f).
Proof. intros Hf n. apply Hf. Qed.

Section keep.
Context {clk : Clock} {ord : HashOrder} {js : SerdeJson}.

Lemma keeps_now : keeps now.
Proof. done. Qed.
Lemma keeps_instant : keeps instant.
Proof. done. Qed.
Lemma keeps_accumulator {A} (f : Acc -> A * Acc) : keeps (on_accumulator f).
Proof.
  intros n. unfold on_accumulator. destruct (delta_accumulator n) as [acc|]; [|done].
  by destruct (f acc).
Qed.
End keep.

Ltac keeps_tac :=
  repeat first
    [ apply keeps_ret | apply keeps_gets | apply keeps_now | apply keeps_instant
    | apply keeps_accumulator
    | apply keeps_bind; [|intros ?]
    | apply keeps_modify; intros ?; done
    | match goal with |- keeps (match ?x with _ => _ end) => destruct x end ].

Section kept.
Context {clk : Clock} {ord : HashOrder} {js : SerdeJson}.

Lemma keeps_next signal req par src : keeps (next_envelope_with_source signal req par src).
Proof. unfold next_envelope_with_source. keeps_tac. Qed.
Lemma keeps_next_call_id : keeps next_tool_call_id.
Proof. unfold next_tool_call_id. keeps_tac. Qed.
Lemma keeps_open source name args : keeps (open_tool_call source name args).
Proof.
  unfold open_tool_call. apply keeps_bind; [apply keeps_next_call_id|intros id].
  apply keeps_bind; [apply keeps_now|intros t].
  apply keeps_bind; [apply keeps_next|intros e].
  unfold start_tool_accumulator, seed_tool_accumulator. keeps_tac.
Qed.
Lemma keeps_record source name args : keeps (record_tool_call source name args).
Proof. exact (keeps_open (Some source) name args). Qed.
Lemma keeps_finish_accumulator id : keeps (finish_tool_accumulator id).
Proof. unfold finish_tool_accumulator. keeps_tac. Qed.
Lemma keeps_append id delta : keeps (append_pending_tool_delta id delta).
Proof.
  intros n. unfold append_pending_tool_delta. by destruct (append_delta_first _ _ _).
Qed.
Lemma keeps_arguments id delta : keeps (record_tool_call_arguments_delta id delta).
Proof.
  unfold record_tool_call_arguments_delta, accumulate_tool_delta. keeps_tac;
    first [apply keeps_append | apply keeps_next].
Qed.
Lemma keeps_finish_pending : keeps finish_pending_tool_accumulations.
Proof.
  unfold finish_pending_tool_accumulations. keeps_tac.
  induction a as [|id ids IH]; cbn [finish_accumulations]; keeps_tac; done.
Qed.
End kept.
#[local] Hint Resolve keeps_next keeps_open keeps_arguments keeps_finish_accumulator
  keeps_finish_pending : vex.

(** ** The updates the ingress makes *)
Definition block_event (s : RuntimeSignal) : bool :=
  match s with TranscriptBlockStart _ _ | TranscriptBlockComplete _ => true | _ => false end.
Definition quiet (e : RuntimeEnvelope) : Prop := block_event (env_signal e) = false.

Definition call_env (e : RuntimeEnvelope) : Prop := call_signal (env_signal e) = true.

Lemma calls_quiet es : Forall call_env es -> Forall quiet es.
Proof.
  intros Hes. eapply list.Forall_impl; [exact Hes|]. intros e. unfold call_env, quiet.
  by destruct (env_signal e).
Qed.

Definition stream_block (b : StreamBlock) : bool :=
  match b with Thinking _ _ | ToolCall _ _ _ _ => true | _ => false end.

Section updates.
Context {clk : Clock} {ord : HashOrder} {js : SerdeJson}.

Lemma close_none n : open_final_text_block n = None -> close_open_final_text_block n = ([], n).
Proof. intros Hn. unfold close_open_final_text_block. rewrite st_bind_unfold. cbn. by rewrite Hn. Qed.

Lemma next_keeps_inv signal req par src n e n' :
  next_envelope_with_source signal req par src n = (e, n') ->
  frame n' = frame n /\ env_signal e = signal.
Proof.
  intros Hn. split; [by eapply keeps_inv; [apply keeps_next|]|]. by apply next_inv in Hn as [].
Qed.

Lemma delta_update_inv n index delta te es n' :
  normalize_ui_update (UStreamBlockDelta index delta) te n = (es, n') ->
  frame n' = frame n
  /\ exists e rest, es = e :: rest /\ env_signal e = TranscriptBlockDelta index delta
       /\ Forall call_env rest.
Proof.
  cbn [normalize_ui_update]. intros Hn.
  apply st_bind_inv in Hn as (src & ? & [-> ->]%st_gets_inv & Hn).
  apply st_bind_inv in Hn as (e & n1 & [Hf Hs]%next_keeps_inv & Hn).
  apply st_bind_inv in Hn as (call & ? & [-> ->]%st_gets_inv & Hn).
  destruct (_ !! index); st_inv; [|split; [done|]; by exists e, []].
  match goal with H : record_tool_call_arguments_delta _ _ _ = _ |- _ => rename H into Ha end.
  split; [by rewrite (keeps_inv _ _ _ _ (keeps_arguments _ _) Ha)|].
  apply arguments_inv in Ha as (_ & _ & _ & _ & ? & Hs'). eexists e, [_].
  split; [done|]. split; [done|]. repeat constructor. unfold call_env. by rewrite Hs'.
Qed.

Lemma delta_update n index delta te es n' :
  normalize_ui_update (UStreamBlockDelta index delta) te n = (es, n') ->
  frame n' = frame n /\ Forall quiet es.
Proof.
  intros (Hf & e & rest & -> & He & Hr)%delta_update_inv. split; [done|].
  constructor; [unfold quiet; by rewrite He | by apply calls_quiet].
Qed.

Lemma metadata_update n md te es n' :
  normalize_ui_update (UServerMetadata md) te n = (es, n') ->
  frame n' = frame n /\ Forall quiet es.
Proof.
  cbn [normalize_ui_update]. intros Hn.
  apply st_bind_inv in Hn as (e & n1 & [Hf Hs]%next_keeps_inv & Hn). st_inv.
  split; [done|]. repeat constructor. unfold quiet. by rewrite Hs.
Qed.

Lemma keeps_stream_block block : stream_block block = true -> keeps (normalize_stream_block block).
Proof.
  destruct block; try done. intros _. apply keeps_bind; [apply keeps_record|]. intros ?. apply keeps_ret.
Qed.

Lemma stream_block_inv block n es n' :
  normalize_stream_block block n = (es, n') -> stream_block block = true ->
  frame n' = frame n /\ Forall call_env es.
Proof.
  intros Hn Hb. split; [by eapply keeps_inv; [apply keeps_stream_block|]|].
  destruct block as [| id name input status | |]; try done; [by injection Hn as <- _|].
  apply call_block_inv in Hn as (e & i & t & -> & [_ Hs _ _ _ _ _]).
  repeat constructor. unfold call_env. by rewrite Hs.
Qed.

Lemma start_update n index block te es n' :
  normalize_ui_update (UStreamBlockStart index block) te n = (es, n') ->
  open_final_text_block n = None -> stream_block block = true ->
  frame n' = frame n
  /\ exists e rest, es = e :: rest /\ env_signal e = TranscriptBlockStart index block
       /\ Forall call_env rest.
Proof.
  cbn [normalize_ui_update]. intros Hn Hopen Hb.
  apply st_bind_inv in Hn as (pre & ? & Hpre & Hn).
  rewrite close_none in Hpre by done. injection Hpre as <- <-.
  apply st_bind_inv in Hn as (? & ? & ->%st_modify_inv & Hn).
  apply st_bind_inv in Hn as (e & n1 & [Hf Hs]%next_keeps_inv & Hn).
  apply st_bind_inv in Hn as (es' & n2 & Hblock & Hn).
  apply st_bind_inv in Hn as (? & ? & ->%st_modify_inv & Hn). st_inv.
  match goal with |- frame ?m = _ /\ _ => assert (frame m = frame n2) as Hlast end.
  { destruct block; try done. by destruct (im_get _ _). }
  apply stream_block_inv in Hblock as [Hk Hq]; [|done].
  split; [by rewrite Hlast, Hk|]. by eexists e, es'.
Qed.

Lemma complete_update n index te es n' :
  normalize_ui_update (UStreamBlockComplete index) te n = (es, n') ->
  frame n' = frame n /\ exists e, es = [e] /\ env_signal e = TranscriptBlockComplete index.
Proof.
  cbn [normalize_ui_update]. intros Hn.
  apply st_bind_inv in Hn as (call & ? & [-> ->]%st_gets_inv & Hn).
  apply st_bind_inv in Hn as (? & ? & ->%st_modify_inv & Hn).
  apply st_bind_inv in Hn as (? & n1 & Hfin & Hn).
  apply st_bind_inv in Hn as (src & ? & [-> ->]%st_gets_inv & Hn).
  apply st_bind_inv in Hn as (? & ? & ->%st_modify_inv & Hn).
  apply st_bind_inv in Hn as (e & n2 & [Hf Hs]%next_keeps_inv & Hn). st_inv.
  split; [|by eauto]. rewrite Hf.
  assert (frame n1 = frame n) as <-; [|done].
  destruct (_ !! index); [|by st_inv].
  apply (keeps_inv _ _ _ _ (keeps_finish_accumulator _)) in Hfin. done.
Qed.

Lemma pulse_complete_update n te es n' :
  normalize_ui_update UPulseComplete te n = (es, n') -> open_final_text_block n = None ->
  frame n' = frame n /\ exists e changed, es = [e]
    /\ env_signal e = PulseEnd t!"completed"
         (pec_usage (unwrap_or te PulseEndContext_default)) changed.
Proof.
  cbn [normalize_ui_update]. unfold complete_turn, finish_turn_with_status, resolve_changed_files.
  intros Hn Hopen.
  apply st_bind_inv in Hn as (files & ? & [-> ->]%st_gets_inv & Hn).
  apply st_bind_inv in Hn as (? & n1 & Hfin & Hn).
  apply (keeps_inv _ _ _ _ keeps_finish_pending) in Hfin.
  assert (open_final_text_block n1 = None) as Ho1.
  { unfold frame in Hfin. congruence. }
  apply st_bind_inv in Hn as (? & ? & Hc & Hn).
  rewrite close_none in Hc by done. injection Hc as <- <-.
  apply st_bind_inv in Hn as (? & ? & ->%st_modify_inv & Hn).
  apply st_bind_inv in Hn as (e & n2 & [Hf Hs]%next_keeps_inv & Hn). st_inv.
  split; [by rewrite Hf, <- Hfin|]. eauto.
Qed.

Lemma start_pulse_frame n e n' :
  start_pulse 1 None n = (e, n') ->
  frame n' = (ProtocolIngressState_default, None) /\ env_signal e = PulseStart None.
Proof.
  intros (n1 & Hn & ->)%start_pulse_inv. by apply next_keeps_inv in Hn as [Hf Hs].
Qed.
End updates.

(** ** Calls found in text

    [emit_tagged_tool_call_from_text] opens and closes a block, and opening and closing may emit
    text and so come back to it.  They do not: a tool block has no initial text, and what is
    left in a normaliser at the end is text only. *)
Section tagged.
Context {clk : Clock} {ord : HashOrder} {js : SerdeJson} {dec : BlockDecoder}.

Lemma finish_no_call p : exists texts, (TextNormaliser.finish p).1 = map Text texts.
Proof.
  unfold TextNormaliser.finish. cbv zeta. cbn [fst].
  destruct (is_empty _); [by exists [] | by eexists [_]].
Qed.

Lemma emit_texts f index texts n :
  emit_chunks_with f index (map Text texts) n
  = lift (st_concat (fun t => normalize_ui_update (UStreamBlockDelta index t) None) texts) n.
Proof.
  unfold emit_chunks_with. revert n. induction texts as [|t texts IH]; intros n; [done|].
  cbn [map pst_concat st_concat]. unfold lift, ui, mbind, pst_bind, st_bind.
  unfold lift in *. destruct (normalize_ui_update _ _ n) as [es n1]. rewrite IH.
  by destruct (st_concat _ texts n1).
Qed.

Lemma close_with_any f g index n :
  close_provider_stream_block_with (emit_chunks_with f) index n
  = close_provider_stream_block_with (emit_chunks_with g) index n.
Proof.
  unfold close_provider_stream_block_with, mbind, pst_bind, ingress, lift, st_gets.
  destruct (set_remove index (open_blocks (protocol_ingress n))) as [[] rest]; [|done].
  cbn -[TextNormaliser.finish]. destruct (bmap_get index _) as [p|]; [|done].
  destruct (finish_no_call p) as [texts Ht].
  rewrite !Ht, !emit_texts. done.
Qed.
End tagged.

(** A call found in a text has a block of its own, opened and closed like a block of the
    stream: the method that emits it is the one of the source, which calls the methods that
    open and close any block. *)
Theorem tagged_call_block `{!Clock} `{!HashOrder} `{!SerdeJson} name input n :
  emit_tagged_tool_call_from_text name input n
  = (native ← ingress has_native_tool_calls;
     if native : bool then mret []
     else
       index ← ingress next_tagged_tool_block_index;
       update_ingress (set_next_tagged_tool_block_index (sat_add usize_max index 1));;
       opened ← open_provider_stream_block index
                  (PToolUse (t!"toolu_tagged_" ++ fmt_N index) name input);
       closed ← close_provider_stream_block index;
       mret (opened ++ closed)) n.
Proof.
  unfold emit_tagged_tool_call_from_text, open_provider_stream_block,
    close_provider_stream_block, emit_normalised_provider_chunks.
  apply pst_bind_ext; [done|]. intros [] n1; [done|].
  apply pst_bind_ext; [done|]. intros index n2.
  apply pst_bind_ext; [done|]. intros _ n3.
  apply pst_bind_ext; [done|]. intros opened n4.
  apply pst_bind_ext; [|done]. apply close_with_any.
Qed.

(** ** The steps the ingress is made of *)
Definition live (n : Norm) : list N := open_blocks (protocol_ingress n).
Definition started (n : Norm) : bool := turn_started (protocol_ingress n).

(** At [n], the update [f] changes the open blocks by [g] and leaves the turn alone. *)
Definition rewrites (n : Norm) (g : list N -> list N)
    (f : ProtocolIngressState -> ProtocolIngressState) : Prop :=
  turn_started (f (protocol_ingress n)) = started n
  /\ open_blocks (f (protocol_ingress n)) = g (live n).

Section steps.
Context {clk : Clock} {ord : HashOrder} {js : SerdeJson} {dec : BlockDecoder}.

Definition deltas (index : N) : list str -> ST Norm (list RuntimeEnvelope) :=
  st_concat (fun t => normalize_ui_update (UStreamBlockDelta index t) None).
Definition completes : list N -> ST Norm (list RuntimeEnvelope) :=
  st_concat (fun index => normalize_ui_update (UStreamBlockComplete index) None).

Inductive istep (n : Norm) : list RuntimeEnvelope -> Norm -> Prop :=
| is_silent f : rewrites n id f -> istep n [] (on_ingress f n)
| is_start e n1 :
    started n = false -> start_pulse 1 None n = (e, n1) ->
    istep n [e] (on_ingress (set_turn_started true) n1)
| is_delta index delta es n' :
    normalize_ui_update (UStreamBlockDelta index delta) None n = (es, n') -> istep n es n'
| is_metadata md es n' :
    normalize_ui_update (UServerMetadata md) None n = (es, n') -> istep n es n'
| is_signal signal e n' :
    block_event signal = false -> call_signal signal = false ->
    emit_signal signal n = (e, n') -> istep n [e] n'
| is_open f index block es n' :
    started n = true -> rewrites n (set_insert index) f -> stream_block block = true ->
    normalize_ui_update (UStreamBlockStart index block) None (on_ingress f n) = (es, n') ->
    istep n es n'
| is_close f index texts es1 n1 es2 n' :
    index ∈ live n -> rewrites n (fun l => (set_remove index l).2) f ->
    deltas index texts (on_ingress f n) = (es1, n1) ->
    normalize_ui_update (UStreamBlockComplete index) None n1 = (es2, n') ->
    istep n (es1 ++ es2) n'
| is_end f te es1 n1 es2 n2 :
    completes (live n) (on_ingress (set_open_blocks []) n) = (es1, n1) ->
    normalize_ui_update UPulseComplete te (on_ingress f n1) = (es2, n2) ->
    istep n (es1 ++ es2) (set_protocol_ingress ProtocolIngressState_default n2).

Abbreviation isteps := (trace istep).

Lemma ingress_inv {A} (f : ProtocolIngressState -> A) n a n' :
  ingress f n = Returns (a, n') -> a = f (protocol_ingress n) /\ n' = n.
Proof. intros Hn%lift_inv. by apply st_gets_inv in Hn. Qed.
Lemma update_ingress_inv f n u n' :
  update_ingress f n = Returns (u, n') -> n' = on_ingress f n.
Proof. intros Hn%lift_inv. by apply st_modify_inv in Hn. Qed.

Lemma isteps_silent f n : rewrites n id f -> isteps n [] (on_ingress f n).
Proof. intros Hf. by apply trace_one, is_silent. Qed.

Lemma isteps_ensure n es n' :
  ensure_protocol_ingress_turn_started n = Returns (es, n') ->
  isteps n es n' /\ started n' = true.
Proof.
  unfold ensure_protocol_ingress_turn_started. intros Hn.
  apply pst_bind_inv in Hn as (b & ? & [-> ->]%ingress_inv & Hn).
  destruct (turn_started (protocol_ingress n)) eqn:Ht; pst_inv.
  - split; [constructor | done].
  - match goal with H : update_ingress _ _ = _ |- _ => apply update_ingress_inv in H as -> end.
    split; [|done]. by apply trace_one, is_start.
Qed.

Lemma isteps_ui_delta index delta n es n' :
  ui (UStreamBlockDelta index delta) n = Returns (es, n') -> isteps n es n'.
Proof. intros Hn%lift_inv. by eapply trace_one, is_delta. Qed.

Lemma isteps_deltas index texts n es n' : deltas index texts n = (es, n') -> isteps n es n'.
Proof.
  unfold deltas. revert n es. induction texts as [|t texts IH]; intros n es Hn;
    cbn [st_concat] in Hn; st_inv; [constructor|].
  econstructor; [by eapply is_delta | by apply IH].
Qed.

Lemma isteps_pst_concat {A} (f : A -> PST Norm (list RuntimeEnvelope)) l n es n' :
  (forall x n es n', f x n = Returns (es, n') -> isteps n es n') ->
  pst_concat f l n = Returns (es, n') -> isteps n es n'.
Proof.
  intros Hf. revert n es. induction l as [|x l IH]; intros n es Hn;
    cbn [pst_concat] in Hn; pst_inv; [constructor|].
  eapply trace_app; eauto.
Qed.

(** The updates of the ingress state before a block is opened or completed are one update. *)
Lemma on_ingress_comp f g n : on_ingress g (on_ingress f n) = on_ingress (fun p => g (f p)) n.
Proof. done. Qed.

Lemma isteps_close f index n es n' :
  close_provider_stream_block_with (emit_chunks_with f) index n = Returns (es, n') ->
  isteps n es n'.
Proof.
  unfold close_provider_stream_block_with. intros Hn.
  apply pst_bind_inv in Hn as (l & ? & [-> ->]%ingress_inv & Hn).
  destruct (set_remove index (open_blocks (protocol_ingress n))) as [present rest] eqn:Hrm.
  assert (present = set_mem index (live n)) as -> by (by injection Hrm as <- <-).
  assert (rest = (set_remove index (live n)).2) as -> by (unfold live; by rewrite Hrm).
  apply pst_bind_inv in Hn as (? & ? & ->%update_ingress_inv & Hn).
  destruct (set_mem index (live n)) eqn:Hmem; pst_inv.
  2: { apply isteps_silent. split; [done|]. cbn. by apply set_remove_absent. }
  apply set_mem_spec in Hmem.
  match goal with H : ingress _ _ = _ |- _ => apply ingress_inv in H as [-> ->] end.
  match goal with H : ui _ _ = _ |- _ => apply lift_inv in H as Hdone end.
  apply trace_one. destruct (bmap_get index _) as [p|]; pst_inv.
  - match goal with H : update_ingress _ _ = _ |- _ => apply update_ingress_inv in H as -> end.
    match goal with H : emit_chunks_with _ _ _ _ = _ |- _ => rename H into Htext end.
    destruct (finish_no_call p) as [texts Ht]. rewrite Ht, emit_texts in Htext.
    apply lift_inv in Htext. rewrite on_ingress_comp in Htext.
    eapply is_close; [done | | exact Htext | exact Hdone]. done.
  - eapply (is_close _ _ index []); [done | | reflexivity | exact Hdone]. done.
Qed.

Lemma isteps_open_with apply_text index block n es n' :
  (forall i t n es n', apply_text i t n = Returns (es, n') -> isteps n es n') ->
  open_provider_stream_block_with apply_text index block n = Returns (es, n') ->
  isteps n es n'.
Proof.
  unfold open_provider_stream_block_with. intros Htext Hn.
  destruct (provider_stream_block block) as [[sb initial]|] eqn:Hblock; pst_inv; [|constructor].
  match goal with H : ensure_protocol_ingress_turn_started _ = _ |- _ =>
    apply isteps_ensure in H as [Hens Hst] end.
  match goal with H : update_ingress _ _ = _ |- _ => apply update_ingress_inv in H as -> end.
  match goal with H : ui _ _ = _ |- _ => apply lift_inv in H as Hopen end.
  eapply trace_app; [exact Hens|].
  assert (stream_block sb = true) as Hsb by (by destruct block; cbn in Hblock; simplify_eq).
  eapply trace_app.
  - apply trace_one.
    match goal with H : (if needs_text_normaliser block then _ else _) _ = Returns (_, ?m) |- _ =>
      rename H into Hnorm end.
    destruct (needs_text_normaliser block).
    + apply update_ingress_inv in Hnorm as ->. rewrite on_ingress_comp in Hopen.
      eapply is_open; [exact Hst | | exact Hsb | exact Hopen].
      split; cbn; by destruct (bmap_get index _).
    + apply pst_ret_inv in Hnorm as [_ <-]. by eapply is_open; [exact Hst | | exact Hsb | exact Hopen].
  - match goal with H : match non_empty initial with _ => _ end _ = _ |- _ => rename H into Hdelta end.
    destruct (non_empty initial); pst_inv; [|constructor].
    destruct (needs_text_normaliser block); [by eapply Htext | by eapply isteps_ui_delta].
Qed.

Lemma isteps_tagged name input n es n' :
  emit_tagged_tool_call_from_text name input n = Returns (es, n') -> isteps n es n'.
Proof.
  unfold emit_tagged_tool_call_from_text. intros Hn.
  apply pst_bind_inv in Hn as (b & ? & [-> ->]%ingress_inv & Hn).
  destruct (has_native_tool_calls _); pst_inv; [constructor|].
  match goal with H : ingress _ _ = _ |- _ => apply ingress_inv in H as [-> ->] end.
  match goal with H : update_ingress _ _ = _ |- _ => apply update_ingress_inv in H as -> end.
  eapply trace_after; cycle 1.
  - eapply trace_app; [|by eapply isteps_close].
    eapply isteps_open_with; [|eassumption].
    intros i t m ms m' [<- <-]%pst_ret_inv. constructor.
  - by apply isteps_silent.
Qed.

Lemma isteps_chunks index chunks n es n' :
  emit_normalised_provider_chunks index chunks n = Returns (es, n') -> isteps n es n'.
Proof.
  apply isteps_pst_concat. intros [text|name input] m ms m'; eauto using isteps_ui_delta, isteps_tagged.
Qed.

Lemma isteps_text index delta n es n' :
  apply_normalised_provider_text index delta n = Returns (es, n') -> isteps n es n'.
Proof.
  unfold apply_normalised_provider_text, normalise_at. intros Hn.
  apply pst_bind_inv in Hn as (chunks & n1 & Hnorm & Hn%isteps_chunks).
  destruct (normalise _ _) as [[cs p]|]; simplify_eq.
  eapply trace_after; cycle 1; [exact Hn | by apply isteps_silent].
Qed.

Lemma isteps_open index block n es n' :
  open_provider_stream_block index block n = Returns (es, n') -> isteps n es n'.
Proof. apply isteps_open_with, isteps_text. Qed.

Lemma isteps_apply index d n es n' :
  apply_provider_stream_delta index d n = Returns (es, n') -> isteps n es n'.
Proof.
  unfold apply_provider_stream_delta. intros Hn.
  destruct (match d with DText t => (true, t) | DToolArguments t => (false, t) end) as [is_text delta].
  destruct (is_empty delta); pst_inv; [constructor|].
  match goal with H : ensure_protocol_ingress_turn_started _ = _ |- _ =>
    apply isteps_ensure in H as [Hens Hst] end.
  match goal with H : ingress _ _ = _ |- _ => apply ingress_inv in H as [-> ->] end.
  eapply trace_app; [exact Hens|]. eapply trace_app.
  - match goal with H : (if is_text && _ then _ else _) _ = _ |- _ => rename H into Hopen end.
    destruct (is_text && _); pst_inv; [|constructor].
    match goal with H : update_ingress _ _ = _ |- _ => apply update_ingress_inv in H as -> end.
    match goal with H : ui _ _ = _ |- _ => apply lift_inv in H as Hui end.
    eapply trace_one, is_open; [exact Hst | | | exact Hui]; done.
  - destruct is_text; [by eapply isteps_text | by eapply isteps_ui_delta].
Qed.

Lemma isteps_metadata md n es n' :
  emit_optional_metadata md n = Returns (es, n') -> isteps n es n'.
Proof.
  destruct md as [md|]; cbn [emit_optional_metadata]; unfold emit_provider_metadata; intros Hn;
    pst_inv; [|constructor].
  match goal with H : ensure_protocol_ingress_turn_started _ = _ |- _ => apply isteps_ensure in H as [Hens _] end.
  match goal with H : ui _ _ = _ |- _ => apply lift_inv in H as Hui end.
  eapply trace_app; [exact Hens|]. by eapply trace_one, is_metadata.
Qed.

Lemma isteps_signal signal n e n' :
  block_event signal = false -> call_signal signal = false ->
  emit_signal signal n = (e, n') -> isteps n [e] n'.
Proof. intros. by eapply trace_one, is_signal. Qed.

Lemma isteps_usage usage n es n' :
  emit_provider_usage usage n = Returns (es, n') -> isteps n es n'.
Proof.
  unfold emit_provider_usage. intros Hn. pst_inv.
  match goal with H : update_ingress _ _ = _ |- _ => apply update_ingress_inv in H as -> end.
  match goal with H : ensure_protocol_ingress_turn_started _ = _ |- _ => apply isteps_ensure in H as [Hens _] end.
  eapply trace_after; cycle 1.
  - destruct (token_usage_from_api_usage usage); pst_inv; [|exact Hens].
    eapply trace_app; [exact Hens|]. eapply isteps_signal; [..|eassumption]; done.
  - by apply isteps_silent.
Qed.

Lemma isteps_optional_usage usage n es n' :
  emit_optional_usage usage n = Returns (es, n') -> isteps n es n'.
Proof.
  destruct usage; cbn [emit_optional_usage]; [apply isteps_usage|].
  intros [<- <-]%pst_ret_inv. constructor.
Qed.

Lemma isteps_update f n u n' :
  update_ingress f n = Returns (u, n') -> rewrites n id f -> isteps n [] n'.
Proof. intros ->%update_ingress_inv Hf. by apply isteps_silent. Qed.

Lemma isteps_message_start chunk n es n' :
  emit_chat_compat_message_start chunk n = Returns (es, n') -> isteps n es n'.
Proof.
  unfold emit_chat_compat_message_start. intros Hn.
  apply pst_bind_inv in Hn as (b & ? & [-> ->]%ingress_inv & Hn).
  destruct (chat_compat_message_started _); pst_inv; [constructor|].
  cbv zeta in Hn. destruct (_ || _); [|pst_inv; constructor].
  apply pst_bind_inv in Hn as (? & n1 & Hset & Hn).
  apply pst_bind_inv in Hn as (? & n2 & Hreset & Hn%isteps_metadata).
  eapply trace_after; [eapply isteps_update; [eassumption | done]|].
  eapply trace_after; [|exact Hn].
  destruct (opt_is_some _); [eapply isteps_update; [eassumption | done]|]. pst_inv. constructor.
Qed.

Lemma isteps_close_block index n es n' :
  close_provider_stream_block index n = Returns (es, n') -> isteps n es n'.
Proof. apply isteps_close. Qed.

Lemma isteps_close_tools n es n' :
  close_chat_compat_tool_blocks n = Returns (es, n') -> isteps n es n'.
Proof.
  unfold close_chat_compat_tool_blocks. intros Hn.
  apply pst_bind_inv in Hn as (l & ? & [-> ->]%ingress_inv & Hn).
  apply pst_bind_inv in Hn as (? & n1 & Hset & Hn).
  eapply trace_after; [eapply isteps_update; [eassumption | done]|].
  eapply isteps_pst_concat; [|exact Hn]. apply isteps_close_block.
Qed.

Lemma isteps_tool_delta d n es n' :
  apply_chat_compat_tool_delta d n = Returns (es, n') -> isteps n es n'.
Proof.
  unfold apply_chat_compat_tool_delta. intros Hn.
  apply pst_bind_inv in Hn as (b & ? & [-> ->]%ingress_inv & Hn).
  destruct (chat_compat_stream_terminated _); [pst_inv; constructor|].
  cbv zeta in Hn.
  apply pst_bind_inv in Hn as (l & ? & [-> ->]%ingress_inv & Hn).
  apply pst_bind_inv in Hn as (? & n1 & Hset & Hn).
  eapply trace_after; [eapply isteps_update; [eassumption | done]|].
  destruct (lifecycle _); [..|pst_inv; constructor].
  all: destruct (take_start_block _ _) as [start c]; destruct (take_partial_json c) as [json c'].
  all: apply pst_bind_inv in Hn as (? & n2 & Hset' & Hn).
  all: eapply trace_after; [eapply isteps_update; [eassumption | done]|].
  all: apply pst_bind_inv in Hn as (es1 & n3 & Hopen & Hn).
  all: apply pst_bind_inv in Hn as (es2 & n4 & Hargs & [<- <-]%pst_ret_inv).
  all: eapply trace_app.
  1,3: destruct start; [|pst_inv; constructor];
    apply pst_bind_inv in Hopen as (? & n5 & Hnat & Hopen%isteps_open);
    eapply trace_after; [eapply isteps_update; [eassumption | done] | exact Hopen].
  all: destruct json; [by eapply isteps_apply | pst_inv; constructor].
Qed.

(** A part that may be skipped. *)
Lemma isteps_if (b : bool) (m : PST Norm (list RuntimeEnvelope)) n es n' :
  (forall n es n', m n = Returns (es, n') -> isteps n es n') ->
  (if b then m else mret []) n = Returns (es, n') -> isteps n es n'.
Proof. destruct b; [eauto|]. intros _ [<- <-]%pst_ret_inv. constructor. Qed.

Lemma isteps_choice chunk choice n es n' :
  normalize_chat_compat_choice chunk choice n = Returns (es, n') -> isteps n es n'.
Proof.
  unfold normalize_chat_compat_choice. cbv zeta. intros Hn.
  apply pst_bind_inv in Hn as (es1 & n1 & Hcontent & Hn).
  apply pst_bind_inv in Hn as (es2 & n2 & Hreason & Hn).
  apply pst_bind_inv in Hn as (es3 & n3 & Hcalls & Hn).
  apply pst_bind_inv in Hn as (es4 & n4 & Hmd & Hn).
  apply pst_bind_inv in Hn as (es5 & n5 & Hclose & [<- <-]%pst_ret_inv).
  eapply trace_app; [|eapply trace_app; [|eapply trace_app; [|eapply trace_app]]].
  - destruct (cd_content _); [by eapply isteps_apply | pst_inv; constructor].
  - destruct (cd_reasoning_content _); [by eapply isteps_apply | pst_inv; constructor].
  - eapply isteps_pst_concat; [|exact Hcalls]. apply isteps_tool_delta.
  - eapply isteps_if; [|exact Hmd]. apply isteps_metadata.
  - eapply isteps_if; [|exact Hclose]. apply isteps_close_tools.
Qed.

Lemma isteps_chunk chunk n es n' :
  normalize_chat_compat_chunk chunk n = Returns (es, n') -> isteps n es n'.
Proof.
  unfold normalize_chat_compat_chunk. intros Hn.
  apply pst_bind_inv in Hn as (es1 & n1 & Hstart & Hn).
  apply pst_bind_inv in Hn as (es2 & n2 & Husage & Hn).
  apply pst_bind_inv in Hn as (es3 & n3 & Hchoices & [<- <-]%pst_ret_inv).
  eapply trace_app; [by eapply isteps_message_start|]. eapply trace_app.
  - destruct (ck_usage chunk); [|pst_inv; constructor].
    apply pst_bind_inv in Husage as (es4 & n4 & Hmd & Husage).
    apply pst_bind_inv in Husage as (es5 & n5 & Hus & [<- <-]%pst_ret_inv).
    eapply trace_app; [by eapply isteps_metadata | by eapply isteps_usage].
  - eapply isteps_pst_concat; [|exact Hchoices]. apply isteps_choice.
Qed.

Lemma isteps_payload payload n es n' :
  normalize_chat_compat_payload payload n = Returns (es, n') -> isteps n es n'.
Proof.
  destruct payload as [|chunk]; cbn [normalize_chat_compat_payload]; [|apply isteps_chunk].
  intros Hn. pst_inv.
  eapply trace_before; [by eapply isteps_close_tools|].
  repeat (eapply trace_after; [eapply isteps_update; [eassumption | done]|]). constructor.
Qed.

Lemma isteps_item item n es n' :
  normalize_provider_stream_item item n = Returns (es, n') -> isteps n es n'.
Proof.
  destruct item; cbn [normalize_provider_stream_item]; intros Hn;
    try (pst_inv; solve [constructor | eapply isteps_signal; [..|eassumption]; done]).
  - pst_inv. eapply trace_app; [by eapply isteps_metadata | by eapply isteps_optional_usage].
  - destruct (decode_provider_content_block _) as [block|err]; [by eapply isteps_open|].
    apply pst_bind_inv in Hn as (? & n1 & Hlog & Hn). unfold log_raw_payload in Hlog.
    destruct (_ && _); simplify_eq. pst_inv.
    eapply isteps_signal; [..|eassumption]; done.
  - destruct (provider_block_delta _); [by eapply isteps_apply | pst_inv; constructor].
  - by eapply isteps_close_block.
  - pst_inv. eapply trace_app; [by eapply isteps_metadata | by eapply isteps_optional_usage].
Qed.
End steps.

(** ** Runs of the ingress *)
Inductive iop : Type :=
| IItem (item : ProviderStreamItem)
| IPayload (payload : ChatCompatPayload)
| IError (code message : str)
| IFinish.

Section runs.
Context {clk : Clock} {ord : HashOrder} {js : SerdeJson} {dec : BlockDecoder}.

Definition run_iop (o : iop) : PST Norm (list RuntimeEnvelope) :=
  match o with
  | IItem item => normalize_provider_stream_item item
  | IPayload payload => normalize_chat_compat_payload payload
  | IError code message => e ← emit_protocol_ingress_error code message; mret [e]
  | IFinish => finish_protocol_ingress_turn
  end.
Definition run_iops : list iop -> PST Norm (list RuntimeEnvelope) := pst_concat run_iop.

Lemma completes_eq l n :
  pst_concat (fun index => ui (UStreamBlockComplete index)) l n = Returns (completes l n).
Proof.
  unfold completes. revert n. induction l as [|i l IH]; intros n; [done|].
  cbn [pst_concat st_concat]. unfold ui, lift, mbind, pst_bind, st_bind.
  destruct (normalize_ui_update _ _ n) as [es n1]. rewrite IH. by destruct (st_concat _ l n1).
Qed.

Lemma isteps_finish n es n' :
  finish_protocol_ingress_turn n = Returns (es, n') -> trace istep n es n'.
Proof.
  unfold finish_protocol_ingress_turn. intros Hn.
  apply pst_bind_inv in Hn as (b & ? & [-> ->]%ingress_inv & Hn).
  destruct (negb _); [pst_inv; constructor|].
  apply pst_bind_inv in Hn as (l & ? & [-> ->]%ingress_inv & Hn).
  apply pst_bind_inv in Hn as (? & n1 & Hset & Hn).
  apply pst_bind_inv in Hn as (text & n2 & Htext & Hn).
  apply pst_bind_inv in Hn as (blocks & ? & [-> ->]%ingress_inv & Hn).
  apply pst_bind_inv in Hn as (? & n3 & ->%update_ingress_inv & Hn).
  apply pst_bind_inv in Hn as (closed & n4 & Hclosed & Hn).
  apply pst_bind_inv in Hn as (tokens & ? & [-> ->]%ingress_inv & Hn).
  apply pst_bind_inv in Hn as (? & n5 & ->%update_ingress_inv & Hn).
  apply pst_bind_inv in Hn as (ended & n6 & Hended%lift_inv & Hn).
  apply pst_bind_inv in Hn as (? & n7 & ->%lift_inv%st_modify_inv & [<- <-]%pst_ret_inv).
  rewrite completes_eq in Hclosed. injection Hclosed as Hclosed.
  eapply trace_after; [eapply isteps_update; [eassumption | done]|].
  eapply trace_app.
  { eapply isteps_pst_concat; [|exact Htext]. intros kn m ms m'. apply isteps_chunks. }
  eapply trace_one, is_end; [exact Hclosed | exact Hended].
Qed.

Definition is_error (o : iop) : bool := match o with IError _ _ => true | _ => false end.

Lemma isteps_op o n es n' :
  is_error o = false -> run_iop o n = Returns (es, n') -> trace istep n es n'.
Proof.
  destruct o; cbn [is_error run_iop]; intros Ho; try done;
    [apply isteps_item | apply isteps_payload | apply isteps_finish].
Qed.

(** An error raised before the turn started: the start is made but its envelope dropped. *)
Lemma error_op_inv code message n es n' :
  run_iop (IError code message) n = Returns (es, n') ->
  exists dropped n1 e, trace istep n dropped n1 /\ es = [e]
    /\ emit_signal (SError code message true) n1 = (e, n')
    /\ Forall quiet dropped /\ length dropped = (if started n then 0 else 1)%nat.
Proof.
  cbn [run_iop]. unfold emit_protocol_ingress_error. intros Hn.
  apply pst_bind_inv in Hn as (e & n2 & Hn & [<- <-]%pst_ret_inv).
  apply pst_bind_inv in Hn as (dropped & n1 & Hens & Hn%lift_inv).
  exists dropped, n1, e. apply isteps_ensure in Hens as Hst. destruct Hst as [Htr _].
  repeat (split; [done|]).
  unfold ensure_protocol_ingress_turn_started in Hens.
  apply pst_bind_inv in Hens as (b & ? & [-> ->]%ingress_inv & Hens).
  unfold started. destruct (turn_started _); pst_inv; [by split|].
  match goal with H : start_pulse _ _ _ = _ |- _ => apply start_pulse_frame in H as [_ Hs] end.
  split; [|done]. repeat constructor. unfold quiet. by rewrite Hs.
Qed.
End runs.

(** ** The blocks of a run: opened before they are completed, and none left open *)
Definition track_one (o : gset N) (e : RuntimeEnvelope) : option (gset N) :=
  match env_signal e with
  | TranscriptBlockStart i _ => Some ({[i]} ∪ o)
  | TranscriptBlockComplete i => if decide (i ∈ o) then Some (o ∖ {[i]}) else None
  | _ => Some o
  end.
Fixpoint track (o : gset N) (es : list RuntimeEnvelope) : option (gset N) :=
  match es with
  | [] => Some o
  | e :: r => match track_one o e with Some o' => track o' r | None => None end
  end.

Lemma track_app o es es' :
  track o (es ++ es') = match track o es with Some o' => track o' es' | None => None end.
Proof.
  revert o. induction es as [|e es IH]; intros o; [done|]. cbn.
  destruct (track_one o e); [apply IH | done].
Qed.

Lemma track_quiet o es : Forall quiet es -> track o es = Some o.
Proof.
  induction 1 as [|e es He Hes IH]; [done|]. cbn. unfold track_one, quiet in *.
  destruct (env_signal e); done.
Qed.

(** Where no synthetic text block is open, and the blocks of a turn are those since its
    start. *)
Record stream_ok (n : Norm) : Prop := {
  so_text : open_final_text_block n = None;
  so_sorted : sorted (live n);
  so_idle : started n = false -> live n = [];
}.

Definition live_set (n : Norm) : gset N := list_to_set (live n).

Definition balanced (n : Norm) (es : list RuntimeEnvelope) (n' : Norm) : Prop :=
  stream_ok n -> stream_ok n' /\ track (live_set n) es = Some (live_set n').

Lemma balanced_nil n : balanced n [] n.
Proof. by intros Hn. Qed.
Lemma balanced_app n es n1 es' n2 :
  balanced n es n1 -> balanced n1 es' n2 -> balanced n (es ++ es') n2.
Proof.
  intros H1 H2 Hn. destruct (H1 Hn) as [Hn1 Ht1]. destruct (H2 Hn1) as [Hn2 Ht2].
  split; [done|]. by rewrite track_app, Ht1.
Qed.

(** An operation that leaves the ingress and the text block alone and says nothing of blocks. *)
Lemma balanced_quiet n es n' : frame n' = frame n -> Forall quiet es -> balanced n es n'.
Proof.
  intros [= Hp Ho] Hq [Ht Hs Hi]. unfold live_set, live, started in *.
  split; [split|]; unfold live, started; rewrite ?Hp, ?Ho; try done. by apply track_quiet.
Qed.

Section balance.
Context {clk : Clock} {ord : HashOrder} {js : SerdeJson} {dec : BlockDecoder}.

Lemma deltas_update index texts n es n' :
  deltas index texts n = (es, n') -> frame n' = frame n /\ Forall quiet es.
Proof.
  unfold deltas. revert n es n'. induction texts as [|t texts IH]; intros n es n' Hn;
    cbn [st_concat] in Hn.
  - by apply st_ret_inv in Hn as [<- <-].
  - apply st_bind_inv in Hn as (es1 & n1 & [Hf Hq]%delta_update & Hn).
    apply st_bind_inv in Hn as (es2 & n2 & [Hf' Hq']%IH & [<- <-]%st_ret_inv).
    split; [congruence | by apply Forall_app].
Qed.

(** Completing the blocks of a list without repetition. *)
Lemma completes_track l n es n' o :
  completes l n = (es, n') -> NoDup l ->
  frame n' = frame n /\ track (list_to_set l ∪ o) es = Some (o ∖ list_to_set l).
Proof.
  unfold completes. revert n es n' o. induction l as [|i l IH]; intros n es n' o Hn Hnd;
    cbn [st_concat] in Hn.
  - apply st_ret_inv in Hn as [<- <-]. split; [done|]. cbn. f_equal. set_solver.
  - apply list.NoDup_cons in Hnd as [Hi Hnd].
    apply st_bind_inv in Hn as (es1 & n1 & (Hf & e & -> & He)%complete_update & Hn).
    apply st_bind_inv in Hn as (es2 & n2 & Hl & [<- <-]%st_ret_inv).
    destruct (IH n1 es2 n2 (o ∖ {[i]}) Hl Hnd) as [Hf' Ht].
    split; [congruence|]. cbn [app track]. unfold track_one. rewrite He.
    rewrite decide_True by set_solver.
    replace ((list_to_set (i :: l) ∪ o) ∖ {[i]}) with (list_to_set l ∪ o ∖ {[i]} : gset N)
      by (apply leibniz_equiv; set_solver).
    rewrite Ht. f_equal. apply leibniz_equiv. set_solver.
Qed.

Lemma balanced_istep n es n' : istep n es n' -> balanced n es n'.
Proof.
  intros [f [Hst Hlive]|e n1 Hidle Hstart|i d es1 n1 Hu|md es1 n1 Hu|s e n1 Hq _ Hsig
         |f i b es1 n1 Hst [Hst' Hlive] Hb Hu|f i texts es1 n1 es2 n2 Hi [Hst Hlive] Hd Hc
         |f te es1 n1 es2 n2 Hc Hu].
  - intros [Ht Hs Hi]. unfold live_set, started in *. split; [split|]; unfold live, started in *; cbn;
      rewrite ?Hlive, ?Hst; done.
  - apply start_pulse_frame in Hstart as [[= Hp Ho] Hs]. intros [Ht Hso Hi].
    unfold live_set. rewrite (Hi Hidle). unfold live. cbn. rewrite Hp. cbn.
    split; [|unfold track_one; by rewrite Hs].
    split; unfold live, started; cbn; rewrite ?Hp; [done | constructor | done].
  - apply delta_update in Hu as []. by apply balanced_quiet.
  - apply metadata_update in Hu as []. by apply balanced_quiet.
  - apply next_keeps_inv in Hsig as [Hf Hs]. apply balanced_quiet; [done|].
    repeat constructor. unfold quiet. by rewrite Hs.
  - intros [Ht Hs Hi]. apply start_update in Hu as ([= Hp Ho] & e & rest & -> & He & Hq%calls_quiet); [|done..].
    unfold live_set, live, started in *. rewrite Hp. cbn. rewrite Hlive. split.
    + split; unfold live, started; rewrite ?Hp, ?Ho; cbn; rewrite ?Hlive, ?Hst';
        [done | by apply set_insert_sorted | congruence].
    + unfold track_one. rewrite He, track_quiet by done. f_equal. apply leibniz_equiv.
      intros x. rewrite elem_of_list_to_set, elem_of_set_insert. set_solver.
  - intros [Ht Hs Hidle]. apply deltas_update in Hd as [Hf1 Hq]. cbv beta in Hlive.
    apply complete_update in Hc as (Hf2 & e & -> & He).
    rewrite Hf1 in Hf2. injection Hf2 as Hp Ho. unfold live_set, live, started in *.
    rewrite Hp. cbn. rewrite Hlive. split.
    + split; unfold live, started; rewrite ?Hp, ?Ho; cbn; rewrite ?Hlive, ?Hst;
        [done | by apply set_remove_sorted | intros Hb; by rewrite Hidle].
    + rewrite track_app, track_quiet by done. cbn [track]. unfold track_one. rewrite He.
      rewrite decide_True by set_solver. f_equal. apply leibniz_equiv.
      intros x. rewrite elem_of_difference, !elem_of_list_to_set, elem_of_set_remove. set_solver.
  - intros [Ht Hs Hidle]. destruct (completes_track _ _ _ _ ∅ Hc) as [[= Hp Ho] Htr];
      [by apply sorted_NoDup|].
    apply pulse_complete_update in Hu as ([= Hp' Ho'] & e & changed & -> & He); [|by cbn; rewrite Ho].
    unfold live_set. split.
    + split; unfold live, started; cbn; [by rewrite Ho', Ho | constructor | done].
    + rewrite track_app. rewrite union_empty_r_L in Htr. rewrite Htr. cbn.
      unfold track_one. rewrite He. f_equal. set_solver.
Qed.

Lemma balanced_run o n es n' : run_iop o n = Returns (es, n') -> balanced n es n'.
Proof.
  destruct (is_error o) eqn:Ho.
  - destruct o as [| |code message|]; try done.
    intros (dropped & n1 & e & Htr & -> & Hs & Hq & _)%error_op_inv Hn.
    apply (trace_rel _ _ balanced_nil balanced_app balanced_istep) in Htr.
    destruct (Htr Hn) as [Hn1 Ht]. rewrite track_quiet in Ht by done. injection Ht as Ht.
    apply next_keeps_inv in Hs as [Hf He]. rewrite Ht. revert Hn1. apply balanced_quiet; [done|].
    repeat constructor. unfold quiet. by rewrite He.
  - intros Hn. eapply (trace_rel _ _ balanced_nil balanced_app balanced_istep), isteps_op; done.
Qed.

Lemma balanced_runs ops n es n' : run_iops ops n = Returns (es, n') -> balanced n es n'.
Proof.
  unfold run_iops. revert n es. induction ops as [|o ops IH]; intros n es Hn;
    cbn [pst_concat] in Hn; pst_inv; [apply balanced_nil|].
  eapply balanced_app; [by eapply balanced_run | by apply IH].
Qed.

Lemma finish_idle n es n' : finish_protocol_ingress_turn n = Returns (es, n') -> started n' = false.
Proof.
  unfold finish_protocol_ingress_turn. intros Hn.
  apply pst_bind_inv in Hn as (b & ? & [-> ->]%ingress_inv & Hn).
  destruct (turn_started _) eqn:Ht; cbn [negb] in Hn; pst_inv; [|done].
  match goal with H : st_modify _ _ = _ |- _ => by apply st_modify_inv in H as -> end.
Qed.
End balance.

(** C40: the blocks of a stream.  Whatever provider items, chat-compatible payloads and errors
    a new normalizer is given, over any number of turns, a block is completed only while it is
    open, the blocks that are started and not yet completed are those the ingress has recorded
    as open, and when the turn is finished none is left. *)
Theorem stream_blocks_balanced `{!Clock} `{!HashOrder} `{!SerdeJson} `{!BlockDecoder}
    task acc ops es n es' n' :
  run_iops ops (new_inner task acc) = Returns (es, n) ->
  finish_protocol_ingress_turn n = Returns (es', n') ->
  track ∅ es = Some (list_to_set (open_blocks (protocol_ingress n)))
  /\ track ∅ (es ++ es') = Some ∅.
Proof.
  intros Hrun%balanced_runs Hfin.
  assert (stream_ok (new_inner task acc)) as Hnew by (split; [done | constructor | done]).
  destruct (Hrun Hnew) as [Hn Ht]. split; [exact Ht|].
  apply finish_idle in Hfin as Hidle.
  apply isteps_finish, (trace_rel _ _ balanced_nil balanced_app balanced_istep) in Hfin.
  destruct (Hfin Hn) as [[_ _ Hi] Ht']. rewrite track_app.
  change (track ∅ es) with (track (live_set (new_inner task acc)) es).
  rewrite Ht, Ht'. unfold live_set. by rewrite Hi.
Qed.

Definition text_delta (text : str) : ProviderDelta :=
  mk_ProviderDelta None (Some text) None None None None.
Definition text_block (text : str) : value := Object [(t!"text", String text)].

(** A turn with a call in its text, after an error of the parser. *)
Definition text_turn : list iop :=
  [IError t!"e" t!"m"; IItem (ContentBlockStart 0 (text_block t!"a"));
   IItem (ContentBlockDelta 0 (text_delta t!"b<function=ls></function>c"));
   IItem (ContentBlockStop 0); IItem (ContentBlockDelta 2 (text_delta t!"d"))].

Lemma stream_blocks_balanced_witness :
  let run := @run_iops step_clock map_order empty_codec small_decoder in
  let finish := @finish_protocol_ingress_turn step_clock map_order empty_codec in
  exists es n es' n', run text_turn (new_inner t!"t" None) = Returns (es, n)
    /\ finish n = Returns (es', n')
    /\ track ∅ es = Some (list_to_set (open_blocks (protocol_ingress n)))
    /\ track ∅ (es ++ es') = Some ∅.
Proof.
  cbv zeta. do 4 eexists. split; [vm_compute; reflexivity|]. split; [vm_compute; reflexivity|].
  eapply (@stream_blocks_balanced step_clock map_order empty_codec small_decoder t!"t" None text_turn);
    vm_compute; reflexivity.
Defined.

(** ** The numbering of a stream *)
Section sequence.
Context {clk : Clock} {ord : HashOrder} {js : SerdeJson} {dec : BlockDecoder}.

Lemma sequenced_silent n n' : numbering n' = numbering n -> sequenced n [] n'.
Proof. intros Hn. by apply numbered_sequenced, numbered_silent. Qed.

(** Silent changes before and after an operation of the normalizer. *)
Lemma sequenced_around o m n es m' n' :
  numbering m = numbering n -> run_op o m = (es, m') -> numbering n' = numbering m' ->
  sequenced n es n'.
Proof.
  intros Hm Ho%run_op_sequenced Hn.
  apply (sequenced_app n [] m es n' (sequenced_silent _ _ Hm)).
  rewrite <- (app_nil_r es). by eapply sequenced_app, sequenced_silent.
Qed.

Lemma sequenced_update u te n es n' : normalize_ui_update u te n = (es, n') -> sequenced n es n'.
Proof. exact (run_op_sequenced (OUpdate u te) n es n'). Qed.
Lemma sequenced_update_after f u te n es n' :
  normalize_ui_update u te (on_ingress f n) = (es, n') -> sequenced n es n'.
Proof.
  intros Hn%sequenced_update. refine (sequenced_app n [] _ es n' _ Hn). by apply sequenced_silent.
Qed.

Lemma sequenced_deltas index texts n es n' : deltas index texts n = (es, n') -> sequenced n es n'.
Proof.
  unfold deltas. revert n es n'. induction texts as [|t texts IH]; intros n es n' Hn;
    cbn [st_concat] in Hn; st_inv; [by apply sequenced_silent|].
  eapply sequenced_app; [|by apply IH].
  eapply sequenced_update. eassumption.
Qed.
Lemma sequenced_completes l n es n' : completes l n = (es, n') -> sequenced n es n'.
Proof.
  unfold completes. revert n es n'. induction l as [|i l IH]; intros n es n' Hn;
    cbn [st_concat] in Hn; st_inv; [by apply sequenced_silent|].
  eapply sequenced_app; [|by apply IH].
  eapply sequenced_update. eassumption.
Qed.

Lemma sequenced_istep n es n' : istep n es n' -> sequenced n es n'.
Proof.
  intros [f _|e n1 _ Hs|i d es1 n1 Hu|md es1 n1 Hu|s e n1 _ _ Hs|f i b es1 n1 _ _ _ Hu
         |f i texts es1 n1 es2 n2 _ _ Hd Hc|f te es1 n1 es2 n2 Hc Hu].
  - by apply sequenced_silent.
  - eapply (sequenced_around (OStart 1 None) n n [e] n1); [done | | done].
    cbn [run_op]. rewrite st_bind_unfold, Hs. reflexivity.
  - eapply sequenced_update. eassumption.
  - eapply sequenced_update. eassumption.
  - eapply (run_op_sequenced (OSignal s)). cbn [run_op]. rewrite st_bind_unfold, Hs. reflexivity.
  - eapply sequenced_update_after. eassumption.
  - eapply sequenced_app; [eapply (sequenced_app n []); [|by eapply sequenced_deltas]|].
    + by apply sequenced_silent.
    + eapply sequenced_update. eassumption.
  - eapply sequenced_app; [eapply (sequenced_app n []); [|by eapply sequenced_completes]|].
    + by apply sequenced_silent.
    + rewrite <- (app_nil_r es2). eapply sequenced_app; [eapply sequenced_update_after; eassumption|].
      by apply sequenced_silent.
Qed.

Lemma sequenced_iops ops n es n' :
  forallb (fun o => negb (is_error o)) ops = true ->
  run_iops ops n = Returns (es, n') -> sequenced n es n'.
Proof.
  unfold run_iops. revert n es. induction ops as [|o ops IH]; cbn [forallb pst_concat];
    intros n es Hops Hn; pst_inv; [by apply sequenced_silent|].
  apply andb_prop in Hops as [Ho%negb_true_iff Hops].
  eapply sequenced_app; [|by apply IH].
  eapply (trace_rel istep sequenced); [| apply sequenced_app | apply sequenced_istep |].
  - intros m. by apply sequenced_silent.
  - by eapply isteps_op.
Qed.
End sequence.

(** The numbering of a stream's envelopes.  As long as the parser reports no error of its
    own, the envelopes of any items and payloads from a new normalizer, over any number of
    turns, are numbered 1, 2, 3, ... without gap. *)
Theorem stream_sequenced `{!Clock} `{!HashOrder} `{!SerdeJson} `{!BlockDecoder}
    task acc ops es n :
  forallb (fun o => negb (is_error o)) ops = true ->
  run_iops ops (new_inner task acc) = Returns (es, n) ->
  forall i e, es !! i = Some e ->
    env_task_id e = task /\ env_seq e = N.min u64_max (1 + N.of_nat i).
Proof.
  intros Hops [_ _ Heach]%sequenced_iops i e Hi; [|done].
  destruct (Heach ltac:(done) i e Hi) as [(_ & Ht & _) Hs]. done.
Qed.

Definition two_turns : list iop :=
  [IItem (ContentBlockStart 0 (text_block t!"a")); IItem (ContentBlockStop 0); IFinish;
   IItem (ContentBlockDelta 2 (text_delta t!"d"))].

Lemma stream_sequenced_witness :
  let run := @run_iops step_clock map_order empty_codec small_decoder in
  exists es n, forallb (fun o => negb (is_error o)) two_turns = true
    /\ run two_turns (new_inner t!"t" None) = Returns (es, n)
    /\ forall i e, es !! i = Some e ->
         env_task_id e = t!"t" /\ env_seq e = N.min u64_max (1 + N.of_nat i).
Proof.
  cbv zeta. do 2 eexists. split; [reflexivity|]. split; [vm_compute; reflexivity|].
  eapply (@stream_sequenced step_clock map_order empty_codec small_decoder t!"t" None two_turns);
    [reflexivity | vm_compute; reflexivity].
Defined.
