(* ===== verification/ProtocolCalls.v ===== *)
(** What a reader of a stream gets back: a chat-compatible tool call put together from its
    fragments, and the tokens of a turn; and what the start of the turn forgets. *)
From Stdlib Require Import NArith ZArith Lia.
From stdpp Require Import base list gmap sets strings numbers.
From S2P Require Import Prelude Text Collections Json Usage Evidence DeltaAccumulator TextNormaliser Envelope Normalizer NormalizerTheory ProtocolIngress ProtocolTheory.
#[local] Open Scope N_scope.

(** ** The text and the starts of a block in a list of envelopes *)
Definition delta_of (i : N) (e : RuntimeEnvelope) : option str :=
  match env_signal e with
  | TranscriptBlockDelta j d => if i =? j then Some d else None
  | _ => None
  end.
Definition start_of (i : N) (e : RuntimeEnvelope) : option StreamBlock :=
  match env_signal e with
  | TranscriptBlockStart j b => if i =? j then Some b else None
  | _ => None
  end.
Definition block_text (i : N) (es : list RuntimeEnvelope) : str := concat (omap (delta_of i) es).
Definition block_starts (i : N) (es : list RuntimeEnvelope) : list StreamBlock :=
  omap (start_of i) es.

Lemma block_text_app i es es' : block_text i (es ++ es') = block_text i es ++ block_text i es'.
Proof. unfold block_text. by rewrite omap_app, concat_app. Qed.
Lemma block_starts_app i es es' :
  block_starts i (es ++ es') = block_starts i es ++ block_starts i es'.
Proof. apply omap_app. Qed.

Lemma call_env_block i es :
  Forall call_env es -> block_text i es = [] /\ block_starts i es = [].
Proof.
  unfold block_text, block_starts.
  induction 1 as [|e es He Hes [IH1 IH2]]; [done|]. cbn.
  unfold delta_of, start_of, call_env in *. by destruct (env_signal e).
Qed.

(** ** A tool delta when the turn has started *)
Record in_turn (n : Norm) : Prop := {
  it_started : started n = true;
  it_text : open_final_text_block n = None;
  it_open : chat_compat_stream_terminated (protocol_ingress n) = false;
}.

Definition call_state (i : N) (n : Norm) : PendingChatCompatToolState :=
  unwrap_or (bmap_get i (chat_compat_tool_lifecycles (protocol_ingress n)))
    PendingChatCompatToolState_default.

(** The block and the text a delta emits. *)
Definition tool_step `{SerdeJson} (i : N) (d : ChatCompatToolCallDelta)
    (c : PendingChatCompatToolState)
    : option ProviderContentBlock * option str * PendingChatCompatToolState :=
  let '(start, c) := take_start_block i (absorb_delta d c) in
  let '(json, c) := take_partial_json c in
  (start, json, c).

Definition started_blocks (start : option ProviderContentBlock) : list StreamBlock :=
  match start with
  | Some b => match provider_stream_block b with Some (sb, _) => [sb] | None => [] end
  | None => []
  end.

Section tool_delta.
Context {clk : Clock} {ord : HashOrder} {js : SerdeJson}.

Lemma ensure_started n :
  started n = true -> ensure_protocol_ingress_turn_started n = Returns ([], n).
Proof.
  unfold ensure_protocol_ingress_turn_started, started. intros Hn.
  unfold mbind, pst_bind, ingress, lift, st_gets. by rewrite Hn.
Qed.

Lemma take_start_tool i c b c' :
  take_start_block i c = (Some b, c') ->
  exists id name input, b = PToolUse id name input /\ cc_name c = name.
Proof.
  unfold take_start_block. destruct (lifecycle c), (cc_name c) eqn:Hc; intros; simplify_eq. eauto.
Qed.

Lemma open_tool_from i id name input n pre m :
  ensure_protocol_ingress_turn_started n = Returns (pre, m) ->
  block_text i pre = [] -> block_starts i pre = [] -> open_final_text_block m = None ->
  exists es n', open_provider_stream_block i (PToolUse id name input) n = Returns (es, n')
    /\ block_text i es = [] /\ block_starts i es = [ToolCall id name input Pending]
    /\ open_final_text_block n' = None
    /\ protocol_ingress n'
       = set_open_blocks (set_insert i (open_blocks (protocol_ingress m))) (protocol_ingress m).
Proof.
  intros Hens Hpt Hps Hopen. unfold open_provider_stream_block, open_provider_stream_block_with.
  cbn [provider_stream_block needs_text_normaliser non_empty].
  rewrite (pst_bind_returns _ _ _ _ _ Hens).
  unfold mbind, pst_bind, update_ingress, ui, lift, st_modify, mret, pst_ret.
  cbv beta iota.
  destruct (normalize_ui_update _ _ _) as [es n'] eqn:Hu.
  apply start_update in Hu as ([= Hp Ho] & e & rest & -> & He & Hr); [|done..].
  destruct (call_env_block i rest Hr) as [Ht Hb]. rewrite app_nil_r.
  exists (pre ++ e :: rest), n'. split; [done|].
  rewrite block_text_app, block_starts_app, Hpt, Hps.
  unfold block_text, block_starts in *. cbn. unfold delta_of at 1, start_of at 1.
  rewrite He, N.eqb_refl. cbn. by rewrite Ht, Hb, Ho, Hp.
Qed.

Lemma open_tool_inv i id name input n :
  started n = true -> open_final_text_block n = None ->
  exists es n', open_provider_stream_block i (PToolUse id name input) n = Returns (es, n')
    /\ block_text i es = [] /\ block_starts i es = [ToolCall id name input Pending]
    /\ open_final_text_block n' = None
    /\ protocol_ingress n'
       = set_open_blocks (set_insert i (open_blocks (protocol_ingress n))) (protocol_ingress n).
Proof. intros Hst Hopen. by apply (open_tool_from _ _ _ _ _ _ _ (ensure_started _ Hst)). Qed.

(** The first block of a turn starts the pulse, which resets the whole state of the ingress. *)
Lemma ensure_first n :
  started n = false ->
  exists e m, ensure_protocol_ingress_turn_started n = Returns ([e], m)
    /\ env_signal e = PulseStart None /\ open_final_text_block m = None
    /\ protocol_ingress m = set_turn_started true ProtocolIngressState_default.
Proof.
  unfold ensure_protocol_ingress_turn_started, started. intros Hn.
  rewrite (pst_bind_returns _ _ n (turn_started (protocol_ingress n)) n) by reflexivity.
  rewrite Hn. destruct (start_pulse 1 None n) as [e n1] eqn:Hs.
  exists e, (on_ingress (set_turn_started true) n1).
  split; [unfold mbind, pst_bind, lift; by rewrite Hs|].
  apply start_pulse_frame in Hs as [[= Hp Ho] Hsig]. cbn. by rewrite Hp.
Qed.

Lemma apply_args_inv i json n :
  started n = true -> json <> [] ->
  exists es n', apply_provider_stream_delta i (DToolArguments json) n = Returns (es, n')
    /\ block_text i es = json /\ block_starts i es = [] /\ frame n' = frame n.
Proof.
  intros Hst Hj. unfold apply_provider_stream_delta. destruct json as [|c json]; [done|].
  cbn [is_empty andb]. unfold mbind, pst_bind. rewrite (ensure_started _ Hst).
  unfold ingress, ui, lift, st_gets, mret, pst_ret. cbv beta iota.
  destruct (normalize_ui_update _ _ _) as [es n'] eqn:Hu.
  apply delta_update_inv in Hu as (Hf & e & rest & -> & He & Hr).
  destruct (call_env_block i rest Hr) as [Ht Hb]. cbn [app].
  exists (e :: rest), n'. split; [done|].
  unfold block_text, block_starts in *. cbn. unfold delta_of at 1, start_of at 1.
  rewrite He, N.eqb_refl. cbn. by rewrite Ht, Hb, app_nil_r.
Qed.

Definition block_index (d : ChatCompatToolCallDelta) : N :=
  sat_add usize_max (N.min (unwrap_or (tcd_index d) 0) MAX_TOOL_CALL_INDEX) 1.

Lemma update_lifecycles_in_turn f n :
  (forall p, turn_started (f p) = turn_started p
             /\ chat_compat_stream_terminated (f p) = chat_compat_stream_terminated p) ->
  in_turn n -> in_turn (on_ingress f n).
Proof.
  intros Hf [Hs Ht Ho]. destruct (Hf (protocol_ingress n)) as [H1 H2].
  split; unfold started; cbn; by rewrite ?H1, ?H2.
Qed.

Lemma call_state_insert i c n :
  call_state i (on_ingress (set_chat_compat_tool_lifecycles
    (bmap_insert i c (chat_compat_tool_lifecycles (protocol_ingress n)))) n) = c.
Proof. unfold call_state. cbn. by rewrite bmap_get_insert_eq. Qed.

(** The block of a start, opened. *)
Lemma open_start_inv i c start c' n :
  take_start_block i c = (start, c') -> in_turn n ->
  exists es n',
    match start with
    | Some block =>
        update_ingress (set_has_native_tool_calls true);;
        open_provider_stream_block i block
    | None => mret []
    end n = Returns (es, n')
    /\ block_text i es = [] /\ block_starts i es = started_blocks start
    /\ in_turn n' /\ call_state i n' = call_state i n.
Proof.
  intros Hs Hn. destruct start as [block|]; [|by exists [], n].
  apply take_start_tool in Hs as (id & name & input & -> & _).
  assert (in_turn (on_ingress (set_has_native_tool_calls true) n)) as Hn1
    by (by apply update_lifecycles_in_turn).
  destruct Hn1 as [Hst Ht Ho].
  destruct (open_tool_inv i id name input _ Hst Ht) as (es & n' & Hop & Htext & Hsb & Ht' & Hp).
  exists es, n'. unfold mbind, pst_bind, update_ingress, lift, st_modify. rewrite Hop.
  split; [done|]. split; [done|]. split; [done|]. unfold call_state.
  rewrite Hp. split; [|done]. split; unfold started; rewrite ?Hp; done.
Qed.

Lemma args_inv i c json c' n :
  take_partial_json c = (json, c') -> in_turn n ->
  exists es n',
    match json with
    | Some json => apply_provider_stream_delta i (DToolArguments json)
    | None => mret []
    end n = Returns (es, n')
    /\ block_text i es = unwrap_or json [] /\ block_starts i es = []
    /\ in_turn n' /\ call_state i n' = call_state i n.
Proof.
  intros Hj Hn. destruct json as [json|]; [|by exists [], n].
  assert (json <> []) as Hne.
  { unfold take_partial_json in Hj. destruct (lifecycle c), (pending_arguments c); by simplify_eq. }
  destruct Hn as [Hst Ht Ho].
  destruct (apply_args_inv i json n Hst Hne) as (es & n' & Hap & Htext & Hsb & [= Hp Ho']).
  exists es, n'. rewrite Hap. split; [done|]. split; [done|]. split; [done|].
  unfold call_state. rewrite Hp. split; [|done]. split; unfold started; by rewrite ?Hp, ?Ho'.
Qed.

Lemma tool_delta_inv i d n :
  in_turn n -> block_index d = i -> lifecycle (call_state i n) <> Closed ->
  exists es n', apply_chat_compat_tool_delta d n = Returns (es, n')
    /\ in_turn n'
    /\ let '(start, json, c') := tool_step i d (call_state i n) in
       block_text i es = unwrap_or json [] /\ block_starts i es = started_blocks start
       /\ call_state i n' = c'.
Proof.
  intros Hn Hi Hc. unfold apply_chat_compat_tool_delta, tool_step.
  change (sat_add usize_max (N.min (unwrap_or (tcd_index d) 0) MAX_TOOL_CALL_INDEX) 1)
    with (block_index d).
  rewrite Hi.
  destruct (take_start_block i (absorb_delta d (call_state i n))) as [start c1] eqn:Hts.
  destruct (take_partial_json c1) as [json c2] eqn:Htp.
  set (l := chat_compat_tool_lifecycles (protocol_ingress n)).
  set (n1 := on_ingress (set_chat_compat_tool_lifecycles (bmap_insert i c2 l)) n).
  assert (in_turn n1) as Hn1 by (by apply update_lifecycles_in_turn).
  destruct (open_start_inv _ _ _ _ n1 Hts Hn1) as (es1 & n2 & Hr1 & Ht1 & Hb1 & Hn2 & Hc2).
  destruct (args_inv i _ _ _ n2 Htp Hn2) as (es2 & n3 & Hr2 & Ht2 & Hb2 & Hn3 & Hc3).
  exists (es1 ++ es2), n3. split.
  - erewrite pst_bind_returns by reflexivity. rewrite (it_open n Hn). cbv zeta.
    erewrite pst_bind_returns by reflexivity. fold (call_state i n) l.
    erewrite pst_bind_returns by reflexivity.
    destruct (lifecycle (call_state i n)); [..|done].
    all: rewrite Hts, Htp; cbv beta iota.
    all: rewrite (pst_bind_returns _ _ _ tt n1) by reflexivity.
    all: rewrite (pst_bind_returns _ _ _ _ _ Hr1), (pst_bind_returns _ _ _ _ _ Hr2); done.
  - split; [done|]. rewrite block_text_app, block_starts_app, Ht1, Ht2, Hb1, Hb2, app_nil_r.
    split; [done|]. split; [done|]. rewrite Hc3, Hc2. apply call_state_insert.
Qed.
End tool_delta.

(** ** A call from its fragments *)
Definition name_of (d : ChatCompatToolCallDelta) : option str :=
  tcd_function d ≫= fun f => non_empty (fd_name f).
Definition id_of (d : ChatCompatToolCallDelta) : option str := non_empty (tcd_id d).
Definition fragment (d : ChatCompatToolCallDelta) : str :=
  match tcd_function d ≫= fd_arguments with Some (CString s) => s | _ => [] end.
(** The arguments, if any, are a string: the form of every streamed call. *)
Definition textual (d : ChatCompatToolCallDelta) : bool :=
  match tcd_function d ≫= fd_arguments with Some (CJson _) => false | _ => true end.
Definition arguments_of (ds : list ChatCompatToolCallDelta) : str := concat (map fragment ds).

(** The state of a call whose arguments are all text. *)
Definition text_state (id name pending : str) (l : ToolCallLifecycle)
    : PendingChatCompatToolState := mk_PendingChatCompatToolState id name pending None l.

Section fragments.
Context {clk : Clock} {ord : HashOrder} {js : SerdeJson}.

Lemma absorb_textual d id name pending l :
  textual d = true ->
  absorb_delta d (text_state id name pending l)
  = text_state (unwrap_or (id_of d) id) (unwrap_or (name_of d) name) (pending ++ fragment d) l.
Proof.
  unfold textual, absorb_delta, id_of, name_of, fragment.
  destruct (tcd_function d) as [[n [[s|]|]]|], (non_empty (tcd_id d)); cbn; try done; intros _;
    try destruct (non_empty n); cbn; by rewrite ?app_nil_r.
Qed.

Lemma step_opened i d id name :
  textual d = true ->
  exists id' name' json, tool_step i d (text_state id name [] Opened)
    = (None, json, text_state id' name' [] Opened) /\ unwrap_or json [] = fragment d.
Proof.
  intros Ht. unfold tool_step. rewrite absorb_textual by done. cbn.
  destruct (fragment d) eqn:Hf; cbn; do 3 eexists; done.
Qed.

Lemma step_unnamed i d id pending :
  textual d = true -> name_of d = None ->
  tool_step i d (text_state id [] pending Discovered)
  = (None, None, text_state (unwrap_or (id_of d) id) [] (pending ++ fragment d) Discovered).
Proof. intros Ht Hn. unfold tool_step. rewrite absorb_textual by done. by rewrite Hn. Qed.

Definition call_id (i : N) (id : str) : str :=
  if is_empty id then t!"toolu_chat_compat_" ++ fmt_N i else id.

Lemma step_named i d id pending name :
  textual d = true -> name_of d = Some name -> name <> [] ->
  exists json, tool_step i d (text_state id [] pending Discovered)
    = (Some (PToolUse (call_id i (unwrap_or (id_of d) id)) name empty_json_object), json,
       text_state (unwrap_or (id_of d) id) name [] Opened)
    /\ unwrap_or json [] = pending ++ fragment d.
Proof.
  intros Ht Hn Hne. unfold tool_step. rewrite absorb_textual by done. rewrite Hn.
  destruct name as [|x name]; [done|]. cbn.
  destruct (pending ++ fragment d) eqn:Hf; cbn; by eexists.
Qed.

Lemma name_of_nonempty d name : name_of d = Some name -> name <> [].
Proof.
  unfold name_of. destruct (tcd_function d) as [f|]; [|done]. cbn.
  destruct (fd_name f) as [[|x nm]|]; cbn; intros; by simplify_eq.
Qed.

Abbreviation tool_deltas := (pst_concat apply_chat_compat_tool_delta).

(** Once the block is open every fragment is passed on. *)
Lemma opened_deltas i ds n id name :
  in_turn n -> forallb textual ds = true -> Forall (fun d => block_index d = i) ds ->
  call_state i n = text_state id name [] Opened ->
  exists es n', tool_deltas ds n = Returns (es, n')
    /\ block_text i es = arguments_of ds /\ block_starts i es = [].
Proof.
  revert n id name. induction ds as [|d ds IH]; intros n id name Hn Htx Hix Hc.
  { by exists [], n. }
  cbn [forallb] in Htx. apply andb_prop in Htx as [Hd Htx]. inversion_clear Hix as [|?? Hi Hix'].
  destruct (tool_delta_inv i d n Hn Hi) as (es & n1 & Hr & Hn1 & Hs); [by rewrite Hc|].
  rewrite Hc in Hs. destruct (step_opened i d id name Hd) as (id' & name' & json & Hst & Hj).
  rewrite Hst in Hs. destruct Hs as (Htext & Hsb & Hc1).
  destruct (IH n1 _ _ Hn1 Htx Hix' Hc1) as (es' & n2 & Hr' & Ht' & Hb').
  exists (es ++ es'), n2. cbn [pst_concat].
  rewrite (pst_bind_returns _ _ _ _ _ Hr), (pst_bind_returns _ _ _ _ _ Hr').
  split; [done|]. rewrite block_text_app, block_starts_app, Htext, Hj, Ht', Hsb, Hb'. done.
Qed.

(** The id a call gets from the deltas up to its name. *)
Definition last_id (id : str) (ds : list ChatCompatToolCallDelta) : str :=
  foldl (fun id d => unwrap_or (id_of d) id) id ds.

(** Before the name is known every fragment is kept. *)
Lemma unnamed_deltas i pre n id pending :
  in_turn n -> forallb textual pre = true -> Forall (fun d => block_index d = i) pre ->
  Forall (fun d => name_of d = None) pre ->
  call_state i n = text_state id [] pending Discovered ->
  exists es n', tool_deltas pre n = Returns (es, n')
    /\ block_text i es = [] /\ block_starts i es = [] /\ in_turn n'
    /\ call_state i n' = text_state (last_id id pre) [] (pending ++ arguments_of pre) Discovered.
Proof.
  revert n id pending. induction pre as [|d pre IH]; intros n id pending Hn Htx Hix Hun Hc.
  { exists [], n. unfold arguments_of. cbn. by rewrite app_nil_r. }
  cbn [forallb] in Htx. apply andb_prop in Htx as [Hd Htx]. inversion_clear Hix as [|?? Hi Hix'].
  inversion_clear Hun as [|?? Hu Hun'].
  destruct (tool_delta_inv i d n Hn Hi) as (es & n1 & Hr & Hn1 & Hs); [by rewrite Hc|].
  rewrite Hc, step_unnamed in Hs by done. destruct Hs as (Htext & Hsb & Hc1).
  destruct (IH n1 _ _ Hn1 Htx Hix' Hun' Hc1) as (es' & n2 & Hr' & Ht' & Hb' & Hn2 & Hc2).
  exists (es ++ es'), n2. cbn [pst_concat].
  rewrite (pst_bind_returns _ _ _ _ _ Hr), (pst_bind_returns _ _ _ _ _ Hr').
  split; [done|]. rewrite block_text_app, block_starts_app, Htext, Ht', Hsb, Hb'.
  split; [done|]. split; [done|]. split; [done|]. rewrite Hc2. cbn.
  unfold arguments_of. cbn. by rewrite app_assoc.
Qed.

Lemma pst_concat_app {S A B} (f : A -> PST S (list B)) l l' s es s1 es' s2 :
  pst_concat f l s = Returns (es, s1) -> pst_concat f l' s1 = Returns (es', s2) ->
  pst_concat f (l ++ l') s = Returns (es ++ es', s2).
Proof.
  revert s es. induction l as [|x l IH]; intros s es Hl Hl'; cbn [pst_concat app] in *.
  - by apply pst_ret_inv in Hl as [<- <-].
  - apply pst_bind_inv in Hl as (e1 & m & Hx & Hl).
    apply pst_bind_inv in Hl as (e2 & m' & Hr & [<- <-]%pst_ret_inv).
    rewrite (pst_bind_returns _ _ _ _ _ Hx), (pst_bind_returns _ _ _ _ _ (IH _ _ Hr Hl')).
    by rewrite <- app_assoc.
Qed.
End fragments.

(** A tool call is put together from its fragments.  In a started turn, whatever ids, names
    and pieces of argument text the deltas of one index carry, and wherever the name first
    comes, one block is started, with that name and the last id given up to it (or a synthetic
    one), and the text of the block is the whole of the argument text, in order: the pieces
    before the name are kept back and none is lost. *)
Theorem tool_call_reassembled `{!Clock} `{!HashOrder} `{!SerdeJson} n i pre d post name :
  in_turn n -> call_state i n = PendingChatCompatToolState_default ->
  forallb textual (pre ++ d :: post) = true ->
  Forall (fun d => block_index d = i) (pre ++ d :: post) ->
  Forall (fun d => name_of d = None) pre -> name_of d = Some name ->
  exists es n', pst_concat apply_chat_compat_tool_delta (pre ++ d :: post) n = Returns (es, n')
    /\ block_starts i es
       = [ToolCall (call_id i (last_id [] (pre ++ [d]))) name empty_json_object Pending]
    /\ block_text i es = arguments_of (pre ++ d :: post).
Proof.
  intros Hn Hc Htx Hix Hun Hname.
  rewrite forallb_app in Htx. apply andb_prop in Htx as [Hpre Htx].
  cbn [forallb] in Htx. apply andb_prop in Htx as [Hd Hpost].
  apply list.Forall_app in Hix as [Hixp Hix]. inversion_clear Hix as [|?? Hi Hixs].
  destruct (unnamed_deltas i pre n [] [] Hn Hpre Hixp Hun Hc)
    as (es1 & n1 & Hr1 & Ht1 & Hb1 & Hn1 & Hc1).
  destruct (tool_delta_inv i d n1 Hn1 Hi) as (es2 & n2 & Hr2 & Hn2 & Hs); [by rewrite Hc1|].
  destruct (step_named i d (last_id [] pre) (arguments_of pre) name Hd Hname) as (json & Hst & Hj).
  { by eapply name_of_nonempty. }
  rewrite Hc1 in Hs. cbn [app] in Hs. rewrite Hst in Hs. destruct Hs as (Ht2 & Hb2 & Hc2).
  destruct (opened_deltas i post n2 _ _ Hn2 Hpost Hixs Hc2) as (es3 & n3 & Hr3 & Ht3 & Hb3).
  exists (es1 ++ es2 ++ es3), n3. split.
  - eapply pst_concat_app; [exact Hr1|]. cbn [pst_concat].
    by rewrite (pst_bind_returns _ _ _ _ _ Hr2), (pst_bind_returns _ _ _ _ _ Hr3).
  - rewrite !block_starts_app, !block_text_app, Ht1, Hb1, Ht2, Hb2, Ht3, Hb3, Hj. cbn.
    unfold last_id. rewrite foldl_app. split; [done|].
    unfold arguments_of. by rewrite map_app, concat_app, <- app_assoc.
Qed.

Definition tool_fragment (id name args : option str) : ChatCompatToolCallDelta :=
  mk_ChatCompatToolCallDelta (Some 0) id None
    (Some (mk_ChatCompatFunctionDelta name (CString <$> args))).

Lemma tool_call_reassembled_witness :
  let n := on_ingress (set_turn_started true) (new_inner t!"t" None) in
  let deltas := @apply_chat_compat_tool_delta step_clock map_order empty_codec in
  let pre := [tool_fragment (Some t!"c1") None (Some t!"{"); tool_fragment None None (Some t!"'a")] in
  let d := tool_fragment None (Some t!"ls") (Some t!"':") in
  let post := [tool_fragment None None (Some t!"1}")] in
  exists es n', pst_concat deltas (pre ++ d :: post) n = Returns (es, n')
    /\ block_starts 1 es = [ToolCall t!"c1" t!"ls" empty_json_object Pending]
    /\ block_text 1 es = t!"{'a':1}".
Proof.
  cbv zeta. apply (@tool_call_reassembled step_clock map_order empty_codec
    (on_ingress (set_turn_started true) (new_inner t!"t" None)) 1
    [tool_fragment (Some t!"c1") None (Some t!"{"); tool_fragment None None (Some t!"'a")]
    (tool_fragment None (Some t!"ls") (Some t!"':"))
    [tool_fragment None None (Some t!"1}")] t!"ls");
    [by split | reflexivity | reflexivity | repeat constructor | repeat constructor | reflexivity].
Defined.

(** ** What the start of the turn forgets

    [start_pulse] resets the state of the ingress.  Three methods record something there before
    they start the turn: it is lost when the turn had not started. *)
Section forgets.
Context {clk : Clock} {ord : HashOrder} {js : SerdeJson} {dec : BlockDecoder}.

Lemma first_delta_inv i d n name :
  started n = false -> chat_compat_stream_terminated (protocol_ingress n) = false ->
  block_index d = i -> call_state i n = PendingChatCompatToolState_default ->
  textual d = true -> name_of d = Some name ->
  exists es n', apply_chat_compat_tool_delta d n = Returns (es, n')
    /\ block_text i es = fragment d
    /\ block_starts i es
       = [ToolCall (call_id i (unwrap_or (id_of d) [])) name empty_json_object Pending]
    /\ in_turn n' /\ call_state i n' = PendingChatCompatToolState_default.
Proof.
  intros Hst Hterm Hi Hc Htx Hname.
  destruct (step_named i d [] [] name Htx Hname) as (json & Hs & Hj).
  { by eapply name_of_nonempty. }
  cbn [app] in Hs, Hj. unfold tool_step in Hs.
  change (text_state [] [] [] Discovered) with PendingChatCompatToolState_default in Hs.
  unfold apply_chat_compat_tool_delta.
  change (sat_add usize_max (N.min (unwrap_or (tcd_index d) 0) MAX_TOOL_CALL_INDEX) 1)
    with (block_index d).
  rewrite Hi. erewrite pst_bind_returns by reflexivity. rewrite Hterm. cbv zeta.
  erewrite pst_bind_returns by reflexivity. fold (call_state i n). rewrite Hc.
  erewrite pst_bind_returns by reflexivity.
  change (lifecycle PendingChatCompatToolState_default) with Discovered. cbv iota.
  destruct (take_start_block i _) as [start c1].
  destruct (take_partial_json c1) as [json' c2] eqn:Htp. injection Hs as -> -> _.
  erewrite pst_bind_returns by reflexivity.
  match goal with |- context [(_ ≫= _) ?m] => set (n1 := m) end.
  destruct (ensure_first (on_ingress (set_has_native_tool_calls true) n1) Hst)
    as (e & m & Hens & He & Ho & Hp).
  destruct (open_tool_from i (call_id i (unwrap_or (id_of d) [])) name empty_json_object _ _ _ Hens)
    as (es1 & n2 & Hop & Ht1 & Hb1 & Ho2 & Hp2); [..|done|].
  1,2: unfold block_text, block_starts; cbn; unfold delta_of, start_of; by rewrite He.
  assert (in_turn n2) as Hn2 by (split; unfold started; rewrite ?Hp2, ?Hp; done).
  rewrite (pst_bind_returns _ _ n1 es1 n2)
    by (by rewrite (pst_bind_returns _ _ n1 tt (on_ingress (set_has_native_tool_calls true) n1))).
  assert (call_state i n2 = PendingChatCompatToolState_default) as Hc2
    by (unfold call_state; by rewrite Hp2, Hp).
  destruct (args_inv i _ _ _ n2 Htp Hn2) as (es2 & n3 & Hr & Ht2 & Hb2 & Hn3 & Hc3).
  exists (es1 ++ es2), n3. split; [by rewrite (pst_bind_returns _ _ _ _ _ Hr)|].
  rewrite block_text_app, block_starts_app, Ht1, Hb1, Ht2, Hb2, Hc3. done.
Qed.
End forgets.

(** The arguments of a call that starts its turn are lost.  When nothing has started the
    turn before the delta that names a tool call, the start of the turn forgets that the call
    was opened: the fragments that follow are kept for a name that does not come again, and the
    text of the block is that of the first delta alone. *)
Theorem first_call_arguments_lost `{!Clock} `{!HashOrder} `{!SerdeJson} task acc i d ds name :
  Forall (fun d => block_index d = i) (d :: ds) -> forallb textual (d :: ds) = true ->
  name_of d = Some name -> Forall (fun d => name_of d = None) ds ->
  exists es n', pst_concat apply_chat_compat_tool_delta (d :: ds) (new_inner task acc)
      = Returns (es, n')
    /\ block_starts i es
       = [ToolCall (call_id i (unwrap_or (id_of d) [])) name empty_json_object Pending]
    /\ block_text i es = fragment d.
Proof.
  intros Hix Htx Hname Hun. inversion_clear Hix as [|?? Hi Hixs].
  cbn [forallb] in Htx. apply andb_prop in Htx as [Hd Hds].
  destruct (first_delta_inv i d (new_inner task acc) name)
    as (es1 & n1 & Hr1 & Ht1 & Hb1 & Hn1 & Hc1); [done..|].
  destruct (unnamed_deltas i ds n1 [] [] Hn1 Hds Hixs Hun Hc1)
    as (es2 & n2 & Hr2 & Ht2 & Hb2 & _).
  exists (es1 ++ es2), n2. cbn [pst_concat].
  rewrite (pst_bind_returns _ _ _ _ _ Hr1), (pst_bind_returns _ _ _ _ _ Hr2).
  split; [done|]. by rewrite block_starts_app, block_text_app, Ht1, Ht2, Hb1, Hb2, !app_nil_r.
Qed.

Lemma first_call_arguments_lost_witness :
  let deltas := @apply_chat_compat_tool_delta step_clock map_order empty_codec in
  let ds := [tool_fragment (Some t!"c1") (Some t!"ls") None; tool_fragment None None (Some t!"{}")] in
  exists es n', pst_concat deltas ds (new_inner t!"t" None) = Returns (es, n')
    /\ block_starts 1 es = [ToolCall t!"c1" t!"ls" empty_json_object Pending]
    /\ block_text 1 es = [].
Proof.
  cbv zeta. apply (@first_call_arguments_lost step_clock map_order empty_codec t!"t" None 1
    (tool_fragment (Some t!"c1") (Some t!"ls") None) [tool_fragment None None (Some t!"{}")] t!"ls");
    [repeat constructor | reflexivity | reflexivity | repeat constructor].
Defined.

(** ** Tokens *)
Section tokens.
Context {clk : Clock} {ord : HashOrder} {js : SerdeJson} {dec : BlockDecoder}.

Lemma ensure_tokens n :
  exists es m, ensure_protocol_ingress_turn_started n = Returns (es, m)
    /\ started m = true
    /\ turn_tokens (protocol_ingress m)
       = (if started n then turn_tokens (protocol_ingress n) else PulseTokens.default)
    /\ (open_final_text_block n = None -> open_final_text_block m = None).
Proof.
  destruct (started n) eqn:Hst.
  - exists [], n. by rewrite ensure_started.
  - destruct (ensure_first n Hst) as (e & m & Hens & _ & Ho & Hp).
    exists [e], m. unfold started. by rewrite Hp.
Qed.

Lemma emit_usage_inv usage n :
  exists es n', emit_provider_usage usage n = Returns (es, n')
    /\ started n' = true
    /\ turn_tokens (protocol_ingress n')
       = (if started n then accumulate_turn_tokens (turn_tokens (protocol_ingress n)) usage
          else PulseTokens.default)
    /\ (open_final_text_block n = None -> open_final_text_block n' = None).
Proof.
  unfold emit_provider_usage. erewrite pst_bind_returns by reflexivity.
  match goal with |- context [(_ ≫= _) ?m] => set (n1 := m) end.
  destruct (ensure_tokens n1) as (es & m & Hens & Hst & Htk & Ho).
  rewrite (pst_bind_returns _ _ _ _ _ Hens).
  destruct (token_usage_from_api_usage usage) as [u|].
  - destruct (emit_signal (UsageUpdated u) m) as [e n'] eqn:Hs.
    exists (es ++ [e]), n'. unfold mbind, pst_bind, lift. rewrite Hs.
    apply next_keeps_inv in Hs as [[= Hp Hf] _]. unfold started in *. by rewrite Hp, Hf.
  - by exists es, m.
Qed.

Lemma emit_metadata_inv md n :
  started n = true ->
  exists es n', emit_optional_metadata md n = Returns (es, n') /\ frame n' = frame n.
Proof.
  intros Hst. destruct md as [md|]; [|by exists [], n].
  cbn [emit_optional_metadata]. unfold emit_provider_metadata.
  rewrite (pst_bind_returns _ _ _ _ _ (ensure_started n Hst)).
  destruct (normalize_ui_update (UServerMetadata md) None n) as [es n'] eqn:Hu.
  exists es, n'. unfold mbind, pst_bind, ui, lift. rewrite Hu.
  split; [done|]. by apply metadata_update in Hu as [Hf _].
Qed.

Lemma finish_texts l n :
  exists es n',
    pst_concat (fun kn => emit_normalised_provider_chunks kn.1 (TextNormaliser.finish kn.2).1) l n
      = Returns (es, n') /\ frame n' = frame n.
Proof.
  revert n. induction l as [|[k p] l IH]; intros n; [by exists [], n|]. cbn [pst_concat fst snd].
  destruct (finish_no_call p) as [texts Ht]. rewrite Ht.
  destruct (deltas k texts n) as [es1 n1] eqn:Hd.
  destruct (IH n1) as (es2 & n2 & Hr & Hf). exists (es1 ++ es2), n2.
  rewrite (pst_bind_returns _ _ _ es1 n1).
  - rewrite (pst_bind_returns _ _ _ _ _ Hr). split; [done|].
    apply deltas_update in Hd as [Hf1 _]. congruence.
  - unfold emit_normalised_provider_chunks. rewrite emit_texts. unfold lift.
    unfold deltas in Hd. by rewrite Hd.
Qed.

Lemma completes_frame l n es n' : completes l n = (es, n') -> frame n' = frame n.
Proof.
  unfold completes. revert n es n'. induction l as [|i l IH]; intros n es n' Hn;
    cbn [st_concat] in Hn; [by apply st_ret_inv in Hn as [_ <-]|].
  apply st_bind_inv in Hn as (es1 & n1 & [Hf _]%complete_update & Hn).
  apply st_bind_inv in Hn as (es2 & n2 & Hf'%IH & [_ <-]%st_ret_inv). congruence.
Qed.

Lemma finish_inv n :
  started n = true -> open_final_text_block n = None ->
  exists es e changed n', finish_protocol_ingress_turn n = Returns (es ++ [e], n')
    /\ env_signal e = PulseEnd t!"completed"
         (token_usage_from_turn_tokens (turn_tokens (protocol_ingress n))) changed
    /\ protocol_ingress n' = ProtocolIngressState_default.
Proof.
  intros Hst Ho. unfold finish_protocol_ingress_turn.
  rewrite (pst_bind_returns _ _ n (started n) n) by reflexivity. rewrite Hst. cbn [negb].
  erewrite pst_bind_returns by reflexivity.
  rewrite (pst_bind_returns _ _ n tt (on_ingress (set_tagged_text_normalisers []) n)) by reflexivity.
  destruct (finish_texts (tagged_text_normalisers (protocol_ingress n))
    (on_ingress (set_tagged_text_normalisers []) n)) as (es1 & n1 & Hr1 & [= Hp1 Ho1]).
  rewrite (pst_bind_returns _ _ _ _ _ Hr1).
  erewrite pst_bind_returns by reflexivity.
  rewrite (pst_bind_returns _ _ n1 tt (on_ingress (set_open_blocks []) n1)) by reflexivity.
  destruct (completes (live n1) (on_ingress (set_open_blocks []) n1)) as [es2 n2] eqn:Hc.
  rewrite (pst_bind_returns _ _ _ es2 n2) by (by rewrite completes_eq, <- Hc).
  apply completes_frame in Hc as [= Hp2 Ho2].
  erewrite pst_bind_returns by reflexivity.
  rewrite (pst_bind_returns _ _ n2 tt (on_ingress (set_turn_tokens PulseTokens.default) n2))
    by reflexivity.
  destruct (normalize_ui_update UPulseComplete
    (Some (mk_PulseEndContext (token_usage_from_turn_tokens (turn_tokens (protocol_ingress n2))) []))
    (on_ingress (set_turn_tokens PulseTokens.default) n2)) as [es3 n3] eqn:Hu.
  apply pulse_complete_update in Hu as Hend; [|cbn; congruence].
  destruct Hend as (_ & e & changed & -> & He).
  exists (es1 ++ es2), e, changed, (set_protocol_ingress ProtocolIngressState_default n3).
  split; [unfold mbind, pst_bind, lift; rewrite Hu; cbn; by rewrite app_assoc|].
  split; [|done]. rewrite He. cbn. by rewrite Hp2, Hp1.
Qed.
End tokens.

Section runs.
Context {clk : Clock} {ord : HashOrder} {js : SerdeJson} {dec : BlockDecoder}.

Lemma run_iops_cons o ops n es n1 es' n2 :
  run_iop o n = Returns (es, n1) -> run_iops ops n1 = Returns (es', n2) ->
  run_iops (o :: ops) n = Returns (es ++ es', n2).
Proof.
  intros Ho Hr. unfold run_iops in *. cbn [pst_concat].
  by rewrite (pst_bind_returns _ _ _ _ _ Ho), (pst_bind_returns _ _ _ _ _ Hr).
Qed.

Lemma run_both (a b : PST Norm (list RuntimeEnvelope)) n es n1 es' n2 :
  a n = Returns (es, n1) -> b n1 = Returns (es', n2) ->
  (x ← a; y ← b; mret (x ++ y)) n = Returns (es ++ es', n2).
Proof.
  intros Ha Hb. by rewrite (pst_bind_returns _ _ _ _ _ Ha), (pst_bind_returns _ _ _ _ _ Hb).
Qed.
End runs.

(** The usage of a turn.  The usage of an item is added to the turn when the turn has
    started; an item that is the first of its turn starts it, and then the tokens just added
    are gone, and the pulse ends without them. *)
Theorem usage_counted `{!Clock} `{!HashOrder} `{!SerdeJson} usage n :
  open_final_text_block n = None ->
  let total := if started n then accumulate_turn_tokens (turn_tokens (protocol_ingress n)) usage
               else PulseTokens.default in
  exists es n' es' e changed n'',
    emit_provider_usage usage n = Returns (es, n')
    /\ turn_tokens (protocol_ingress n') = total
    /\ finish_protocol_ingress_turn n' = Returns (es' ++ [e], n'')
    /\ env_signal e = PulseEnd t!"completed" (token_usage_from_turn_tokens total) changed.
Proof.
  intros Ho. cbv zeta. destruct (emit_usage_inv usage n) as (es & n' & Hr & Hst & Htk & Ho').
  destruct (finish_inv n' Hst (Ho' Ho)) as (es' & e & changed & n'' & Hf & He & _).
  rewrite Htk in He. by exists es, n', es', e, changed, n''.
Qed.

Lemma usage_counted_witness :
  let usage := mk_ApiUsage (Some 25) (Some 1) None None None None None None None None None None in
  let emit := @emit_provider_usage step_clock in
  let finish := @finish_protocol_ingress_turn step_clock map_order empty_codec in
  exists es n' es' e changed n'',
    emit usage (new_inner t!"t" None) = Returns (es, n')
    /\ turn_tokens (protocol_ingress n') = PulseTokens.default
    /\ finish n' = Returns (es' ++ [e], n'')
    /\ env_signal e = PulseEnd t!"completed" None changed.
Proof.
  cbv zeta. apply (@usage_counted step_clock map_order empty_codec
    (mk_ApiUsage (Some 25) (Some 1) None None None None None None None None None None)
    (new_inner t!"t" None)). reflexivity.
Defined.

(** The input tokens of a provider's turn are lost.  A turn that begins with a
    [message_start] item, whose usage holds the input tokens, and that has no metadata, ends
    with the usage of its [message_delta] alone. *)
Theorem message_start_usage_lost `{!Clock} `{!HashOrder} `{!SerdeJson} `{!BlockDecoder}
    task acc message usage delta usage' :
  pms_metadata message = None -> pms_usage message = Some usage ->
  exists es e changed n',
    run_iops [IItem (MessageStart message); IItem (MessageDelta delta (Some usage')); IFinish]
      (new_inner task acc) = Returns (es ++ [e], n')
    /\ env_signal e = PulseEnd t!"completed"
         (token_usage_from_turn_tokens (accumulate_turn_tokens PulseTokens.default usage')) changed.
Proof.
  intros Hmd Hus.
  destruct (emit_usage_inv usage (new_inner task acc)) as (es1 & n1 & Hr1 & Hst1 & Htk1 & Ho1).
  destruct (emit_metadata_inv (pmd_metadata delta) n1 Hst1) as (es2 & n2 & Hr2 & [= Hp2 Ho2]).
  destruct (emit_usage_inv usage' n2) as (es3 & n3 & Hr3 & Hst3 & Htk3 & Ho3).
  assert (started n2 = true) as Hst2 by (unfold started; by rewrite Hp2).
  destruct (finish_inv n3 Hst3) as (es4 & e & changed & n4 & Hr4 & He & _).
  { apply Ho3. rewrite Ho2. by apply Ho1. }
  exists (es1 ++ (es2 ++ es3) ++ es4), e, changed, n4. split.
  - rewrite <- !app_assoc. eapply (run_iops_cons _ _ _ es1).
    { cbn [run_iop normalize_provider_stream_item]. rewrite Hmd, Hus. by apply (run_both _ _ _ [] _ es1 n1 eq_refl). }
    rewrite (app_assoc es2). eapply (run_iops_cons _ _ _ (es2 ++ es3)); [by eapply run_both|].
    rewrite <- (app_nil_r (es4 ++ [e])). by eapply run_iops_cons.
  - rewrite He, Htk3, Hst2. rewrite Hp2, Htk1. done.
Qed.

Lemma message_start_usage_lost_witness :
  let usage i o := mk_ApiUsage i o None None None None None None None None None None in
  let message := mk_ProviderMessageStartData t!"m" None t!"assistant" t!"x" None None None
                   (Some (usage (Some 25) (Some 1))) None in
  let delta := mk_ProviderMessageDelta None None None None None in
  let run := @run_iops step_clock map_order empty_codec small_decoder in
  exists es e changed n',
    run [IItem (MessageStart message); IItem (MessageDelta delta (Some (usage None (Some 15)))); IFinish]
      (new_inner t!"t" None) = Returns (es ++ [e], n')
    /\ env_signal e = PulseEnd t!"completed" (Some (mk_TokenUsageEnvelope 0 15 false 0 0)) changed.
Proof.
  cbv zeta. eapply (@message_start_usage_lost step_clock map_order empty_codec small_decoder);
    reflexivity.
Defined.

(** ** The index of a call found in text *)
Section collision.
Context {clk : Clock} {ord : HashOrder} {js : SerdeJson} {dec : BlockDecoder}.

Lemma deltas_starts i j texts n es n' :
  deltas j texts n = (es, n') -> block_starts i es = [].
Proof.
  unfold deltas. revert n es n'. induction texts as [|t texts IH]; intros n es n' Hn;
    cbn [st_concat] in Hn; [by apply st_ret_inv in Hn as [<- _]|].
  apply st_bind_inv in Hn as (es1 & n1 & (_ & e & rest & -> & He & Hr)%delta_update_inv & Hn).
  apply st_bind_inv in Hn as (es2 & n2 & Hs%IH & [<- _]%st_ret_inv).
  rewrite block_starts_app, Hs, app_nil_r. destruct (call_env_block i rest Hr) as [_ Hb].
  unfold block_starts in *. cbn. unfold start_of at 1. by rewrite He.
Qed.

Lemma close_block_inv index n :
  index ∈ live n ->
  exists es n', close_provider_stream_block index n = Returns (es, n')
    /\ live n' = (set_remove index (live n)).2
    /\ block_starts index es = []
    /\ exists pre e, es = pre ++ [e] /\ env_signal e = TranscriptBlockComplete index.
Proof.
  intros Hin%set_mem_spec. unfold close_provider_stream_block, close_provider_stream_block_with.
  erewrite pst_bind_returns by reflexivity.
  destruct (set_remove index (open_blocks (protocol_ingress n))) as [present rest] eqn:Hrm.
  assert (present = true) as -> by (injection Hrm as <- _; exact Hin).
  assert (rest = (set_remove index (live n)).2) as -> by (unfold live; by rewrite Hrm).
  clear Hrm. erewrite pst_bind_returns by reflexivity.
  erewrite pst_bind_returns by reflexivity.
  set (rest := (set_remove index (live n)).2).
  set (n1 := on_ingress (set_open_blocks rest) n).
  assert (exists texts f, live (on_ingress f n1) = rest /\
    (match bmap_get index (tagged_text_normalisers (protocol_ingress n1)) with
     | Some pending =>
         update_ingress (fun p =>
           set_tagged_text_normalisers (bmap_remove index (tagged_text_normalisers p)) p);;
         emit_normalised_provider_chunks index (TextNormaliser.finish pending).1
     | None => mret []
     end) n1 = lift (deltas index texts) (on_ingress f n1))
    as (texts & f & Hlive & Hk).
  { destruct (bmap_get index _) as [p|]; [|by exists [], id].
    destruct (finish_no_call p) as [texts Ht].
    exists texts, (fun p => set_tagged_text_normalisers (bmap_remove index (tagged_text_normalisers p)) p).
    split; [done|]. rewrite Ht.
    erewrite pst_bind_returns by reflexivity. unfold emit_normalised_provider_chunks.
    apply emit_texts. }
  destruct (deltas index texts (on_ingress f n1)) as [es1 n2] eqn:Hd.
  rewrite (pst_bind_returns _ _ n1 es1 n2) by (rewrite Hk; unfold lift; by rewrite Hd).
  apply deltas_starts with (i := index) in Hd as Hs. apply deltas_update in Hd as [[= Hp _] _].
  destruct (normalize_ui_update (UStreamBlockComplete index) None n2) as [es2 n3] eqn:Hu.
  exists (es1 ++ es2), n3. split; [unfold mbind, pst_bind, ui, lift; by rewrite Hu|].
  apply complete_update in Hu as ([= Hp' _] & e & -> & He).
  split; [unfold live; by rewrite Hp', Hp|]. rewrite block_starts_app, Hs.
  split; [unfold block_starts; cbn; unfold start_of; by rewrite He|]. eauto.
Qed.
End collision.

(** The index of a call found in text.  A call found in the text of a started turn takes the
    next index from one on, whatever blocks the stream has open: the block of the call is
    started and completed at that index, and a block of the stream with the same index, which
    may be the one whose text is being read, is completed with it. *)
Theorem tagged_call_ends_block `{!Clock} `{!HashOrder} `{!SerdeJson} name input n :
  let index := next_tagged_tool_block_index (protocol_ingress n) in
  started n = true -> open_final_text_block n = None ->
  has_native_tool_calls (protocol_ingress n) = false ->
  exists es e n', emit_tagged_tool_call_from_text name input n = Returns (es ++ [e], n')
    /\ block_starts index (es ++ [e])
       = [ToolCall (t!"toolu_tagged_" ++ fmt_N index) name input Pending]
    /\ env_signal e = TranscriptBlockComplete index
    /\ forall i, i ∈ open_blocks (protocol_ingress n') <->
         i <> index /\ i ∈ open_blocks (protocol_ingress n).
Proof.
  cbv zeta. set (index := next_tagged_tool_block_index (protocol_ingress n)).
  intros Hst Ho Hnat. rewrite tagged_call_block.
  erewrite pst_bind_returns by reflexivity. rewrite Hnat.
  erewrite pst_bind_returns by reflexivity. erewrite pst_bind_returns by reflexivity. fold index.
  match goal with |- context [(_ ≫= _) ?m] => set (n1 := m) end.
  destruct (open_tool_inv index (t!"toolu_tagged_" ++ fmt_N index) name input n1 Hst Ho)
    as (es1 & n2 & Hr1 & _ & Hb1 & _ & Hp1).
  assert (live n2 = set_insert index (live n)) as Hl2 by (unfold live; by rewrite Hp1).
  destruct (close_block_inv index n2) as (es2 & n3 & Hr2 & Hl3 & Hb2 & pre & e & -> & He).
  { rewrite Hl2, elem_of_set_insert. by left. }
  exists (es1 ++ pre), e, n3.
  rewrite (pst_bind_returns _ _ _ _ _ Hr1), (pst_bind_returns _ _ _ _ _ Hr2), <- app_assoc.
  split; [done|]. rewrite block_starts_app, Hb1, Hb2. split; [done|]. split; [done|].
  intros i. change (open_blocks (protocol_ingress n3)) with (live n3).
  rewrite Hl3, Hl2, elem_of_set_remove, elem_of_set_insert. unfold live. naive_solver.
Qed.

(** A turn whose second block is text: the call found in it ends that block. *)
Lemma tagged_call_ends_block_witness :
  let n := on_ingress (fun p => set_open_blocks [0; 1] (set_turn_started true p))
             (new_inner t!"t" None) in
  exists es e n', @emit_tagged_tool_call_from_text step_clock map_order empty_codec t!"ls" Null n
      = Returns (es ++ [e], n')
    /\ block_starts 1 (es ++ [e]) = [ToolCall t!"toolu_tagged_1" t!"ls" Null Pending]
    /\ env_signal e = TranscriptBlockComplete 1
    /\ forall i, i ∈ open_blocks (protocol_ingress n') <-> i <> 1 /\ i ∈ [0; 1].
Proof.
  cbv zeta. apply (@tagged_call_ends_block step_clock map_order empty_codec t!"ls" Null
    (on_ingress (fun p => set_open_blocks [0; 1] (set_turn_started true p)) (new_inner t!"t" None)));
    reflexivity.
Defined.

(** The first error of a parser skips a number.  An error reported before the turn has
    started starts it but drops the envelope of the start: from a new normalizer the first
    envelope a reader sees is the error, with sequence number 2. *)
Theorem first_error_unnumbered `{!Clock} `{!HashOrder} `{!SerdeJson} `{!BlockDecoder}
    task acc code message :
  exists e n', run_iops [IError code message] (new_inner task acc) = Returns ([e], n')
    /\ env_signal e = SError code message true /\ env_seq e = 2 /\ started n' = true.
Proof.
  do 2 eexists. split; [reflexivity|]. done.
Qed.

(** An undecodable block can panic.  When a provider's block cannot be decoded, the error is
    reported exactly when its JSON text is at most 512 bytes long or has a character boundary
    at byte 512; otherwise the slice of the log line panics. *)
Theorem undecodable_block_panics_iff `{!Clock} `{!HashOrder} `{!SerdeJson} `{!BlockDecoder}
    index v err n :
  content_block_from_value v = inr err ->
  normalize_provider_stream_item (ContentBlockStart index v) n = Panics
  <-> 512 < blen (raw_payload v) /\ take_bytes 512 (raw_payload v) = None.
Proof.
  intros Herr. cbn [normalize_provider_stream_item]. unfold decode_provider_content_block.
  rewrite Herr. unfold mbind, pst_bind, log_raw_payload.
  destruct (512 <? blen (raw_payload v)) eqn:Hlen; cbn [andb].
  - apply N.ltb_lt in Hlen. destruct (take_bytes 512 (raw_payload v)); cbn [opt_is_some negb].
    + unfold lift. destruct (emit_signal _ n). split; [done | by intros []].
    + by split.
  - apply N.ltb_ge in Hlen. unfold lift. destruct (emit_signal _ n). split; [done | lia].
Qed.

(** A codec that prints a string as its characters, enough to make a long payload. *)
Definition text_codec : SerdeJson := {|
  json_from_str _ := None;
  json_to_string v := as_str v;
  parse_f64 _ := None;
|}.

Lemma undecodable_block_panics_iff_witness :
  let v := String (replicate 511 97 ++ [233]) in
  @content_block_from_value small_decoder v = inr t!"unknown variant" /\
  (@normalize_provider_stream_item step_clock map_order text_codec small_decoder
     (ContentBlockStart 0 v) (new_inner t!"t" None) = Panics
   <-> 512 < blen (@raw_payload text_codec v) /\ take_bytes 512 (@raw_payload text_codec v) = None)
  /\ 512 < blen (@raw_payload text_codec v) /\ take_bytes 512 (@raw_payload text_codec v) = None.
Proof.
  cbv zeta. split; [reflexivity|].
  split; [by apply (@undecodable_block_panics_iff step_clock map_order text_codec small_decoder
            0 _ t!"unknown variant")|].
  split; vm_compute; reflexivity.
Defined.
