(* ===== verification/StreamParser.v ===== *)
(** The parser of a server-sent event stream: src/api/stream.rs, src/api/stream/sse_framing.rs
    and src/api/stream/ingress_adapter.rs.

    [serde_json]'s typed decoders are operations of a class.  The methods can panic where the
    ingress can, and fail on a frame that is not UTF-8: their result is [None] then.  The
    log file an undecodable frame is written to is left out. *)
From Stdlib Require Import NArith ZArith Lia.
From stdpp Require Import base list gmap sets strings numbers.
From S2P Require Import Prelude Text Utf8 Collections Json Usage Evidence DeltaAccumulator TextNormaliser Envelope Normalizer ProtocolIngress.
#[local] Open Scope N_scope.

Definition MAX_SSE_BUFFER_BYTES : N := 1048576.

Inductive IngressPayload : Type :=
| Provider (item : ProviderStreamItem)
| ChatCompat (payload : ChatCompatPayload).

Inductive StreamOutputMode : Type := Undecided | EnvelopeMode | ProtocolAdapter.

#[global] Instance StreamOutputMode_eq_dec : EqDecision StreamOutputMode.
Proof. solve_decision. Defined.

(** [next_stream_task] is the static counter of ingress_adapter.rs, not a field. *)
Record StreamParser := mk_StreamParser {
  buffer : bytes;
  bom_checked : bool;
  overflowed : bool;
  last_frame_id : option str;
  reconnect_delay_ms : option N;
  output_mode : StreamOutputMode;
  protocol_adapter : option Norm;
  next_stream_task : N;
}.

Definition parser_new (task : N) : StreamParser :=
  mk_StreamParser [] false false None None Undecided None task.

Definition set_buffer (v : bytes) (p : StreamParser) : StreamParser :=
  mk_StreamParser v (bom_checked p) (overflowed p) (last_frame_id p) (reconnect_delay_ms p)
    (output_mode p) (protocol_adapter p) (next_stream_task p).
Definition set_bom_checked (v : bool) (p : StreamParser) : StreamParser :=
  mk_StreamParser (buffer p) v (overflowed p) (last_frame_id p) (reconnect_delay_ms p)
    (output_mode p) (protocol_adapter p) (next_stream_task p).
Definition set_overflowed (v : bool) (p : StreamParser) : StreamParser :=
  mk_StreamParser (buffer p) (bom_checked p) v (last_frame_id p) (reconnect_delay_ms p)
    (output_mode p) (protocol_adapter p) (next_stream_task p).
Definition set_frame_fields (id : option str) (delay : option N) (p : StreamParser) : StreamParser :=
  mk_StreamParser (buffer p) (bom_checked p) (overflowed p) id delay (output_mode p)
    (protocol_adapter p) (next_stream_task p).
Definition set_output_mode (v : StreamOutputMode) (p : StreamParser) : StreamParser :=
  mk_StreamParser (buffer p) (bom_checked p) (overflowed p) (last_frame_id p)
    (reconnect_delay_ms p) v (protocol_adapter p) (next_stream_task p).
Definition set_adapter (v : option Norm) (task : N) (p : StreamParser) : StreamParser :=
  mk_StreamParser (buffer p) (bom_checked p) (overflowed p) (last_frame_id p)
    (reconnect_delay_ms p) (output_mode p) v task.

(** ** Bytes *)
Definition sse_line_terminator_len (s : bytes) : option nat :=
  match s with
  | [] => None
  | b :: r =>
      if b =? LF then Some 1%nat
      else if b =? CR then
        match r with
        | c :: _ => if c =? LF then Some 2%nat else Some 1%nat
        | [] => Some 1%nat
        end
      else None
  end.

Definition shift (k : nat) (d : nat * nat) : nat * nat := ((k + d.1)%nat, d.2).

(** The search of the [while] loop from the position of [s] on; positions are relative to it. *)
Fixpoint find_sse_frame_delimiter (s : bytes) : option (nat * nat) :=
  match s with
  | [] => None
  | b :: r =>
      match sse_line_terminator_len s with
      | None => shift 1 <$> find_sse_frame_delimiter r
      | Some 2%nat =>
          match r with
          | _ :: next =>
              match sse_line_terminator_len next with
              | Some second => Some (0%nat, (2 + second)%nat)
              | None => shift 2 <$> find_sse_frame_delimiter next
              end
          | [] => None
          end
      | Some _ =>
          match sse_line_terminator_len r with
          | Some second => Some (0%nat, (1 + second)%nat)
          | None => shift 1 <$> find_sse_frame_delimiter r
          end
      end
  end.

Definition UTF8_BOM : bytes := [239; 187; 191].

Definition strip_utf8_bom_once (p : StreamParser) : StreamParser :=
  if bom_checked p then p
  else
    match strip_prefix UTF8_BOM (buffer p) with
    | Some rest => set_bom_checked true (set_buffer rest p)
    | None =>
        match buffer p with
        | [] => p
        | buf =>
            let prefix_len := Nat.min (length buf) (length UTF8_BOM) in
            if (prefix_len =? length UTF8_BOM)%nat
               || negb (bool_decide (take prefix_len buf = take prefix_len UTF8_BOM))
            then set_bom_checked true p else p
        end
    end.

(** ** Lines of a frame *)
Definition strip_single_leading_space (v : str) : str := unwrap_or (strip_prefix [SPACE] v) v.

Definition normalise_sse_line_endings (frame : str) : str :=
  replace [CR] [LF] (replace [CR; LF] [LF] frame).

Record FrameFields := mk_FrameFields {
  frame_kind : option str;
  data_lines : list str;
  ff_last_frame_id : option str;
  ff_reconnect_delay_ms : option N;
}.

Definition parse_line (f : FrameFields) (line : str) : FrameFields :=
  if is_empty line || starts_with t!":" line then f
  else match strip_prefix t!"event:" line with
  | Some rest =>
      mk_FrameFields (Some (strip_single_leading_space rest)) (data_lines f)
        (ff_last_frame_id f) (ff_reconnect_delay_ms f)
  | None =>
  match strip_prefix t!"data:" line with
  | Some rest =>
      mk_FrameFields (frame_kind f) (data_lines f ++ [strip_single_leading_space rest])
        (ff_last_frame_id f) (ff_reconnect_delay_ms f)
  | None =>
  match strip_prefix t!"id:" line with
  | Some rest =>
      let val := strip_single_leading_space rest in
      if contains_char 0 val then f
      else mk_FrameFields (frame_kind f) (data_lines f) (Some val) (ff_reconnect_delay_ms f)
  | None =>
  if str_eqb line t!"id" then
    mk_FrameFields (frame_kind f) (data_lines f) (Some []) (ff_reconnect_delay_ms f)
  else
  match strip_prefix t!"retry:" line ≫= fun rest =>
          parse_uint u64_max (strip_single_leading_space rest) with
  | Some ms => mk_FrameFields (frame_kind f) (data_lines f) (ff_last_frame_id f) (Some ms)
  | None => f
  end end end end.

Section raw_json.
Context `{SerdeJson}.
Definition looks_like_raw_json_payload (text : str) : bool :=
  let trimmed := trim text in
  negb (is_empty trimmed)
  && (str_eqb trimmed t!"[DONE]"
      || ((starts_with t!"{" trimmed || starts_with t!"[" trimmed)
          && opt_is_some (json_from_str trimmed))).

Definition sse_frame_without_data_should_error (frame : str) : bool :=
  existsb looks_like_raw_json_payload
    (List.filter (fun line => negb (is_empty line) && negb (starts_with t!":" line))
       (map trim (split_on LF frame))).
End raw_json.

(** ** The typed decoders of [serde_json] *)
Class FrameDecoders := {
  runtime_envelope_from_str : str -> option RuntimeEnvelope;
  (** The item, or the text of the error. *)
  provider_item_from_str : str -> ProviderStreamItem + str;
  chat_compat_chunk_from_str : str -> option ChatCompatChunk;
}.

Definition parse_chat_compat_chunk `{FrameDecoders} (json_data : str) : option ChatCompatPayload :=
  if str_eqb json_data t!"[DONE]" then Some Done
  else Chunk <$> chat_compat_chunk_from_str json_data.

Definition decode_protocol_frame `{FrameDecoders} (kind : option str) (json_data : str)
    : IngressPayload :=
  if bool_decide (kind = Some t!"ping") then Provider Ping
  else match provider_item_from_str json_data with
  | inl item => Provider item
  | inr err =>
      match parse_chat_compat_chunk json_data with
      | Some payload => ChatCompat payload
      | None => Provider (PError (mk_ProviderApiStreamError t!"sse_parse_error" err))
      end
  end.

(** ** The adapter *)
Section parser.
Context {clk : Clock} {ord : HashOrder} {js : SerdeJson} {dec : BlockDecoder} {frd : FrameDecoders}.

Definition stream_task_id (id : N) : str := t!"api_stream_" ++ fmt_N id.

(** [protocol_adapter_mut], and the method called on it. *)
Definition with_adapter {A} (m : PST Norm A) : PST StreamParser A := fun p =>
  let '(adapter, task) :=
    match protocol_adapter p with
    | Some adapter => (adapter, next_stream_task p)
    | None => (new_inner (stream_task_id (next_stream_task p)) None,
               wrap_add u64_max (next_stream_task p) 1)
    end in
  match m adapter with
  | Returns (a, adapter) => Returns (a, set_adapter (Some adapter) task p)
  | Panics => Panics
  end.

Definition adapt_payload (payload : IngressPayload) : PST Norm (list RuntimeEnvelope) :=
  match payload with
  | Provider item => normalize_provider_stream_item item
  | ChatCompat payload => normalize_chat_compat_payload payload
  end.

Definition parser_gets {A} (f : StreamParser -> A) : PST StreamParser A := lift (st_gets f).
Definition parser_modify (f : StreamParser -> StreamParser) : PST StreamParser unit :=
  lift (st_modify f).

Definition protocol_stream_error_envelope (code message : str)
    : PST StreamParser RuntimeEnvelope :=
  mode ← parser_gets output_mode;
  match mode with
  | EnvelopeMode =>
      task ← parser_gets next_stream_task;
      parser_modify (fun p => set_adapter (protocol_adapter p) (wrap_add u64_max task 1) p);;
      let '(_, n) := start_pulse 1 None (new_inner (stream_task_id task) None) in
      mret (emit_signal (SError code message true) n).1
  | _ =>
      parser_modify (set_output_mode ProtocolAdapter);;
      with_adapter (emit_protocol_ingress_error code message)
  end.

Definition adapt_protocol_payload (payload : IngressPayload)
    : PST StreamParser (list RuntimeEnvelope) :=
  mode ← parser_gets output_mode;
  match mode with
  | EnvelopeMode =>
      e ← protocol_stream_error_envelope t!"mixed_sse_protocol"
            t!"received provider or chat-compatible stream data after RuntimeEnvelope passthrough began";
      mret [e]
  | _ =>
      parser_modify (set_output_mode ProtocolAdapter);;
      with_adapter (adapt_payload payload)
  end.

Definition enter_runtime_envelope_mode (envelope : RuntimeEnvelope)
    : PST StreamParser (list RuntimeEnvelope) :=
  mode ← parser_gets output_mode;
  match mode with
  | ProtocolAdapter =>
      e ← protocol_stream_error_envelope t!"mixed_sse_protocol"
            t!"received RuntimeEnvelope passthrough after provider or chat-compatible adaptation began";
      mret [e]
  | _ =>
      parser_modify (set_output_mode EnvelopeMode);;
      mret [envelope]
  end.

Definition protocol_stream_terminated (p : StreamParser) : bool :=
  match protocol_adapter p with
  | Some adapter => ProtocolIngress.protocol_stream_terminated adapter
  | None => false
  end.

Definition finish : PST StreamParser (list RuntimeEnvelope) :=
  mode ← parser_gets output_mode;
  match mode with
  | ProtocolAdapter => with_adapter finish_protocol_ingress_turn
  | _ => mret []
  end.

(** ** Frames *)
Definition decode_frame_payload (kind : option str) (json_data : str)
    : PST StreamParser (list RuntimeEnvelope) :=
  if is_empty json_data then mret []
  else match runtime_envelope_from_str json_data with
  | Some envelope => enter_runtime_envelope_mode envelope
  | None => adapt_protocol_payload (decode_protocol_frame kind json_data)
  end.

Definition process_sse_frame (kind data : str) : PST StreamParser (list RuntimeEnvelope) :=
  decode_frame_payload (if is_empty kind then None else Some kind) data.

(** The frame once it is text. *)
Definition parse_sse_frame_text (frame_text : str) : PST StreamParser (list RuntimeEnvelope) :=
  let normalised_frame := normalise_sse_line_endings frame_text in
  id ← parser_gets last_frame_id;
  delay ← parser_gets reconnect_delay_ms;
  let fields :=
    fold_left parse_line (split_on LF normalised_frame) (mk_FrameFields None [] id delay) in
  parser_modify (set_frame_fields (ff_last_frame_id fields) (ff_reconnect_delay_ms fields));;
  match data_lines fields with
  | [] =>
      if sse_frame_without_data_should_error normalised_frame then
        e ← protocol_stream_error_envelope t!"sse_parse_error"
              t!"received a non-SSE payload without a data field; raw JSON chunk streams are unsupported";
        mret [e]
      else mret []
  | lines => decode_frame_payload (frame_kind fields) (join [LF] lines)
  end.

Definition parse_sse_frame_bytes (frame_bytes : bytes)
    : PST StreamParser (option (list RuntimeEnvelope)) :=
  match from_utf8 frame_bytes with
  | None => mret None
  | Some frame_text => es ← parse_sse_frame_text frame_text; mret (Some es)
  end.

Definition sse_overflow_frame : PST StreamParser RuntimeEnvelope :=
  protocol_stream_error_envelope t!"sse_buffer_overflow"
    (t!"SSE intra-frame buffer exceeded " ++ fmt_N MAX_SSE_BUFFER_BYTES
     ++ t!" bytes without a frame delimiter; the upstream stream may be malformed").

(** The [while let] loop: every turn takes at least one byte off the buffer. *)
Fixpoint process_frames (fuel : nat) : PST StreamParser (option (list RuntimeEnvelope)) :=
  match fuel with
  | O => mret (Some [])
  | S fuel =>
      buf ← parser_gets buffer;
      match find_sse_frame_delimiter buf with
      | None => mret (Some [])
      | Some (pos, delim_len) =>
          parser_modify (set_buffer (drop (pos + delim_len) buf));;
          frame ← parse_sse_frame_bytes (take pos buf);
          match frame with
          | None => mret None
          | Some es =>
              rest ← process_frames fuel;
              mret (app es <$> rest)
          end
      end
  end.

Definition process (chunk : bytes) : PST StreamParser (option (list RuntimeEnvelope)) :=
  over ← parser_gets overflowed;
  if over : bool then e ← sse_overflow_frame; mret (Some [e])
  else
    buf ← parser_gets buffer;
    if MAX_SSE_BUFFER_BYTES <? sat_add usize_max (N.of_nat (length buf)) (N.of_nat (length chunk)) then
      parser_modify (set_overflowed true);;
      e ← sse_overflow_frame;
      mret (Some [e])
    else
      parser_modify (fun p => set_buffer (buffer p ++ chunk) p);;
      parser_modify strip_utf8_bom_once;;
      buf ← parser_gets buffer;
      process_frames (S (length buf)).
End parser.

(** A decoder to evaluate examples with: JSON text beginning with a brace is a text delta, with
    a bracket a runtime envelope. *)
Definition small_frames : FrameDecoders := {|
  runtime_envelope_from_str s :=
    if starts_with t!"[" s then
      Some (mk_RuntimeEnvelope 1 s 1 1 [] [] Runtime None None (TranscriptLine s))
    else None;
  provider_item_from_str s :=
    if starts_with t!"{" s then
      inl (ContentBlockDelta 0 (mk_ProviderDelta None (Some s) None None None None))
    else inr t!"expected value";
  chat_compat_chunk_from_str _ := None;
|}.
