(* ===== verification/StreamParserTheory.v ===== *)
(** What the parser of an event stream guarantees: where the bytes are cut into chunks does not
    matter, a rendered frame is read back, and a stream is of one protocol; the bounds of the
    buffer, and the two protocols the parser tells apart. *)
From Stdlib Require Import NArith ZArith Lia.
From stdpp Require Import base list gmap sets strings numbers.
From S2P Require Import Prelude Text Utf8 Collections Json Usage Evidence DeltaAccumulator TextNormaliser Envelope Normalizer NormalizerTheory ProtocolIngress ProtocolTheory StreamParser.
#[local] Open Scope N_scope.

(** ** Frames of a byte string *)
Definition terminator (b : byte) : bool := (b =? 10) || (b =? 13).
Definition strip_blank (s : bytes) : bytes := drop_while terminator s.

(** The first frame and what follows its delimiter. *)
Definition next_frame (s : bytes) : option (bytes * bytes) :=
  match find_sse_frame_delimiter s with
  | Some (pos, len) => Some (take pos s, drop (pos + len) s)
  | None => None
  end.

Abbreviation term_len := sse_line_terminator_len.

(** The four ways a position can begin. *)
Inductive term_view : bytes -> option nat -> Prop :=
| tv_nil : term_view [] None
| tv_other b r : terminator b = false -> term_view (b :: r) None
| tv_lf r : term_view (LF :: r) (Some 1%nat)
| tv_crlf r : term_view (CR :: LF :: r) (Some 2%nat)
| tv_cr r : head r <> Some LF -> term_view (CR :: r) (Some 1%nat).

Lemma term_len_view s : term_view s (term_len s).
Proof.
  destruct s as [|b r]; [constructor|]. unfold term_len.
  destruct (N.eqb_spec b LF) as [->|Hlf]; [constructor|].
  destruct (N.eqb_spec b CR) as [->|Hcr].
  - destruct r as [|c r]; [by constructor|].
    destruct (N.eqb_spec c LF) as [->|]; constructor. cbn. congruence.
  - constructor. unfold terminator. apply N.eqb_neq in Hlf, Hcr. unfold LF, CR in *.
    by rewrite Hlf, Hcr.
Qed.

(** The frame goes on behind a line terminator [t] unless another follows. *)
Definition after_terminator (t s : bytes) : option (bytes * bytes) :=
  match term_len s with
  | Some k => Some ([], drop k s)
  | None => prod_map (app t) id <$> next_frame s
  end.

Lemma next_frame_view s :
  next_frame s
  = match s, term_len s with
    | [], _ => None
    | b :: r, None => prod_map (cons b) id <$> next_frame r
    | _, Some k => after_terminator (take k s) (drop k s)
    end.
Proof.
  unfold next_frame, after_terminator. destruct (term_len_view s) as [|b r Hb|r|r|r Hr]; [done|..].
  - assert (term_len (b :: r) = None) as Ht.
    { unfold terminator in Hb. apply orb_false_elim in Hb as [H1 H2]. cbn. unfold LF, CR. by rewrite H1, H2. }
    cbn [find_sse_frame_delimiter]. rewrite Ht.
    by destruct (find_sse_frame_delimiter r) as [[pos len]|].
  - cbn -[term_len]. change (term_len (LF :: r)) with (Some 1%nat).
    cbn [take drop Nat.add]. rewrite ?drop_0. change (drop 1 (LF :: r)) with r.
    unfold next_frame. destruct (term_len r); [done|].
    by destruct (find_sse_frame_delimiter r) as [[pos len]|].
  - cbn -[term_len]. change (term_len (CR :: LF :: r)) with (Some 2%nat).
    cbn iota. change (drop 2 (CR :: LF :: r)) with r. unfold next_frame. destruct (term_len r); [done|].
    by destruct (find_sse_frame_delimiter r) as [[pos len]|].
  - assert (term_len (CR :: r) = Some 1%nat) as Ht.
    { cbn. destruct r as [|c r]; [done|]. destruct (N.eqb_spec c LF) as [->|]; [|done]. by destruct Hr. }
    cbn [find_sse_frame_delimiter]. rewrite Ht. change (drop 1 (CR :: r)) with r.
    unfold next_frame. destruct (term_len r); [done|].
    by destruct (find_sse_frame_delimiter r) as [[pos len]|].
Qed.

Lemma term_len_drop s k : term_len s = Some k -> (0 < k <= length s)%nat.
Proof. destruct (term_len_view s); intros [= <-]; cbn; lia. Qed.

(** A frame and the rest are shorter than the text by the delimiter. *)
Lemma next_frame_length s f r :
  next_frame s = Some (f, r) -> (length f + length r < length s)%nat.
Proof.
  revert f r. induction s as [s IH] using (induction_ltof1 _ length). unfold ltof in IH.
  intros f r. rewrite next_frame_view. destruct s as [|b s']; [done|].
  destruct (term_len (b :: s')) as [k|] eqn:Hk.
  - apply term_len_drop in Hk. unfold after_terminator.
    set (s := b :: s') in *. assert (length (drop k s) < length s)%nat as Hlt
      by (rewrite length_drop; lia).
    destruct (term_len (drop k s)) as [k2|] eqn:Hk2.
    + intros [= <- <-]. rewrite !length_drop. cbn [length]. lia.
    + destruct (next_frame (drop k s)) as [[f' r']|] eqn:Hn; [|done]. intros [= <- <-].
      apply IH in Hn; [|done]. rewrite length_app, length_take. rewrite length_drop in Hn.
      unfold id. lia.
  - destruct (next_frame s') as [[f' r']|] eqn:Hn; [|done]. intros [= <- <-].
    apply IH in Hn; cbn in *; lia.
Qed.

Lemma term_len_app s t :
  s <> [] ->
  term_len (s ++ t) = term_len s \/ (s = [CR] /\ exists t', t = LF :: t').
Proof.
  intros Hs. destruct s as [|b [|c s]]; [done| |by left]. cbn.
  destruct (N.eqb_spec b LF); [by left|]. destruct (N.eqb_spec b CR) as [->|]; [|by left].
  destruct t as [|c t]; [by left|]. destruct (N.eqb_spec c LF) as [->|]; [right|by left].
  eauto.
Qed.

(** More bytes do not move the first frame; they can only turn the carriage return that ends its
    delimiter into half of a terminator. *)
Lemma next_frame_app s t f r :
  next_frame s = Some (f, r) ->
  next_frame (s ++ t) = Some (f, r ++ t)
  \/ (r = [] /\ exists t', t = LF :: t' /\ next_frame (s ++ t) = Some (f, t')).
Proof.
  revert f r. induction s as [s IH] using (induction_ltof1 _ length). unfold ltof in IH.
  intros f r Hn. rewrite next_frame_view in Hn. rewrite (next_frame_view (s ++ t)).
  destruct s as [|b s']; [done|]. cbn [app]. change (b :: s' ++ t) with ((b :: s') ++ t).
  set (s := b :: s') in *.
  assert (s <> []) as Hne by done.
  destruct (term_len s) as [k|] eqn:Hk.
  - pose proof (term_len_drop _ _ Hk) as Hkl. unfold after_terminator in Hn.
    assert (drop k s <> []) as Hdn.
    { intros Hd. rewrite Hd in Hn. done. }
    assert (term_len (s ++ t) = Some k) as Hk'.
    { destruct (term_len_app s t Hne) as [->|[Hs _]]; [done|]. exfalso. rewrite Hs in Hk, Hdn.
      injection Hk as <-. done. }
    rewrite Hk'. unfold after_terminator.
    assert (k <= length s)%nat as Hle by lia.
    rewrite take_app_le, drop_app_le by done.
    assert (length (drop k s) < length s)%nat as Hlt by (rewrite length_drop; lia).
    destruct (term_len (drop k s)) as [k2|] eqn:Hk2.
    + injection Hn as <- <-. pose proof (term_len_drop _ _ Hk2) as Hk2l.
      destruct (term_len_app (drop k s) t Hdn) as [->|[Hs [t' ->]]].
      * left. rewrite Hk2, drop_app_le by lia. done.
      * right. rewrite Hs in Hk2 |- *. injection Hk2 as <-. split; [done|]. by exists t'.
    + assert (term_len (drop k s ++ t) = None) as ->.
      { destruct (term_len_app (drop k s) t Hdn) as [->|[Hs _]]; [done|]. by rewrite Hs in Hk2. }
      destruct (next_frame (drop k s)) as [[f' r']|] eqn:Hn'; [|done]. injection Hn as <- <-.
      destruct (IH _ Hlt _ _ Hn') as [->|[-> (t' & -> & ->)]]; [by left|].
      right. split; [done|]. by exists t'.
  - assert (term_len (s ++ t) = None) as ->.
    { destruct (term_len_app s t Hne) as [->|[Hs _]]; [done|]. by rewrite Hs in Hk. }
    destruct (next_frame s') as [[f' r']|] eqn:Hn'; [|done]. injection Hn as <- <-.
    assert (length s' < length s)%nat as Hlt by (cbn; lia).
    destruct (IH _ Hlt _ _ Hn') as [->|[-> (t' & -> & ->)]]; [by left|].
    right. split; [done|]. by exists t'.
Qed.

(** ** All frames *)
Fixpoint frames_of (fuel : nat) (s : bytes) : list bytes * bytes :=
  match fuel with
  | O => ([], s)
  | S fuel =>
      match next_frame s with
      | None => ([], s)
      | Some (f, r) => let '(fs, rest) := frames_of fuel r in (f :: fs, rest)
      end
  end.

(** Blank lines around a frame say nothing. *)
Definition essential (fs : list bytes) : list bytes :=
  List.filter (fun f => negb (is_empty f)) (map strip_blank fs).

(** The frames of a text, and what is left of it: the specification of the framing. *)
Definition frames (s : bytes) : list bytes * bytes :=
  let '(fs, rest) := frames_of (S (length s)) s in (essential fs, strip_blank rest).

Lemma frames_of_fuel k k' s :
  (length s < k)%nat -> (length s < k')%nat -> frames_of k s = frames_of k' s.
Proof.
  revert k' s. induction k as [|k IH]; intros [|k'] s Hk Hk'; try lia. cbn [frames_of].
  destruct (next_frame s) as [[f r]|] eqn:Hn; [|done].
  apply next_frame_length in Hn. rewrite (IH k' r) by lia. done.
Qed.

Lemma frames_view s :
  frames s = match next_frame s with
             | None => ([], strip_blank s)
             | Some (f, r) => let '(fs, rest) := frames r in (essential [f] ++ fs, rest)
             end.
Proof.
  unfold frames at 1. cbn [frames_of]. destruct (next_frame s) as [[f r]|] eqn:Hn; [|done].
  apply next_frame_length in Hn. unfold frames.
  rewrite (frames_of_fuel (length s) (S (length r)) r) by lia.
  destruct (frames_of _ r) as [fs rest]. f_equal. unfold essential. cbn.
  by destruct (negb _).
Qed.

Lemma essential_app fs fs' : essential (fs ++ fs') = essential fs ++ essential fs'.
Proof. unfold essential. by rewrite map_app, List.filter_app. Qed.

Lemma strip_blank_app s t : strip_blank (s ++ t) = strip_blank (strip_blank s ++ t).
Proof.
  unfold strip_blank. destruct (drop_while_suffix terminator s) as (w & Hs & Hw).
  rewrite Hs at 1. rewrite <- app_assoc. by apply drop_while_app_all.
Qed.

Lemma strip_blank_term k s : term_len s = Some k -> strip_blank s = strip_blank (drop k s).
Proof. destruct (term_len_view s); by intros [= <-]. Qed.
Lemma strip_blank_none s : term_len s = None -> strip_blank s = s.
Proof.
  destruct (term_len_view s) as [|b r Hb| | |]; try done.
  intros _. unfold strip_blank. cbn. by rewrite Hb.
Qed.
Lemma strip_blank_take k s : term_len s = Some k -> forall f, strip_blank (take k s ++ f) = strip_blank f.
Proof. destruct (term_len_view s); by intros [= <-]. Qed.

Lemma essential_blank f : strip_blank f = [] -> essential [f] = [].
Proof. intros Hf. unfold essential. cbn. by rewrite Hf. Qed.
Lemma essential_strip f g : strip_blank f = strip_blank g -> essential [f] = essential [g].
Proof. intros Hf. unfold essential. cbn. by rewrite Hf. Qed.

(** Leading blank lines are no frames. *)
Lemma frames_strip s : frames s = frames (strip_blank s).
Proof.
  induction s as [s IH] using (induction_ltof1 _ length). unfold ltof in IH.
  destruct (term_len s) as [k|] eqn:Hk; [|by rewrite strip_blank_none].
  pose proof (term_len_drop _ _ Hk) as Hkl.
  rewrite (strip_blank_term _ _ Hk), <- (IH (drop k s)) by (rewrite length_drop; lia).
  rewrite (frames_view s), next_frame_view. destruct s as [|b s']; [done|]. rewrite Hk.
  set (s := b :: s') in *. unfold after_terminator.
  destruct (term_len (drop k s)) as [k2|] eqn:Hk2.
  - pose proof (term_len_drop _ _ Hk2) as Hk2l.
    rewrite (IH (drop k s)), (strip_blank_term _ _ Hk2), <- (IH (drop k2 (drop k s)))
      by (rewrite ?length_drop in *; lia).
    rewrite essential_blank by done. by destruct (frames _).
  - rewrite (frames_view (drop k s)). destruct (next_frame (drop k s)) as [[f r]|]; cbn -[take essential].
    + rewrite (essential_strip (take k s ++ f) f) by by apply strip_blank_take. done.
    + f_equal. exact (strip_blank_term _ _ Hk).
Qed.

(** The frames of two pieces are those of the first, and those of what it left together with
    the second. *)
Lemma frames_app s t :
  frames (s ++ t)
  = let '(fs, rest) := frames s in
    let '(fs', rest') := frames (rest ++ t) in (fs ++ fs', rest').
Proof.
  induction s as [s IH] using (induction_ltof1 _ length). unfold ltof in IH.
  rewrite (frames_view s). destruct (next_frame s) as [[f r]|] eqn:Hn.
  - pose proof (next_frame_length _ _ _ Hn) as Hl. specialize (IH r ltac:(lia)).
    rewrite (frames_view (s ++ t)).
    destruct (next_frame_app s t f r Hn) as [->|[-> (t' & -> & ->)]].
    + rewrite IH. destruct (frames r) as [fs rest]. destruct (frames (rest ++ t)) as [fs' rest'].
      by rewrite app_assoc.
    + change (frames []) with ([] : list bytes, [] : bytes). cbn [app].
      rewrite (frames_strip (LF :: t')). change (strip_blank (LF :: t')) with (strip_blank t').
      rewrite <- frames_strip. destruct (frames t') as [fs' rest']. by rewrite app_nil_r.
  - rewrite (frames_strip (strip_blank s ++ t)), <- strip_blank_app, <- frames_strip.
    by destruct (frames (s ++ t)).
Qed.

(** ** What is done with a frame does not depend on the framing *)
Definition set_framing (b : bytes) (c o : bool) (p : StreamParser) : StreamParser :=
  set_overflowed o (set_bom_checked c (set_buffer b p)).

Definition independent {A} (m : PST StreamParser A) : Prop := forall b c o p,
  m (set_framing b c o p)
  = match m p with Returns (a, p') => Returns (a, set_framing b c o p') | Panics => Panics end.

Lemma independent_ret {A} (a : A) : independent (mret a).
Proof. done. Qed.
Lemma independent_bind {A B} (m : PST StreamParser A) (f : A -> PST StreamParser B) :
  independent m -> (forall a, independent (f a)) -> independent (m ≫= f).
Proof.
  intros Hm Hf b c o p. unfold mbind, pst_bind. rewrite Hm.
  destruct (m p) as [[a p']|]; [apply Hf | done].
Qed.
Lemma independent_gets {A} (f : StreamParser -> A) :
  (forall b c o p, f (set_framing b c o p) = f p) -> independent (parser_gets f).
Proof. intros Hf b c o p. unfold parser_gets, lift, st_gets. by rewrite Hf. Qed.
Lemma independent_modify f :
  (forall b c o p, f (set_framing b c o p) = set_framing b c o (f p)) ->
  independent (parser_modify f).
Proof. intros Hf b c o p. unfold parser_modify, lift, st_modify. by rewrite Hf. Qed.
Lemma independent_adapter `{!Clock} {A} (m : PST Norm A) : independent (with_adapter m).
Proof.
  intros b c o p. unfold with_adapter.
  change (protocol_adapter (set_framing b c o p)) with (protocol_adapter p).
  change (next_stream_task (set_framing b c o p)) with (next_stream_task p).
  destruct (protocol_adapter p) as [n|]; destruct (m _) as [[a n']|]; done.
Qed.

Ltac independent_tac :=
  repeat first
    [ apply independent_ret | apply independent_adapter
    | apply independent_gets; done
    | apply independent_modify; done
    | apply independent_bind; [|intros ?]
    | match goal with
      | |- independent (match ?x with _ => _ end) => destruct x
      | |- independent (let '(_, _) := ?x in _) => destruct x
      end ].

Section handler.
Context {clk : Clock} {ord : HashOrder} {js : SerdeJson} {dec : BlockDecoder} {frd : FrameDecoders}.

Lemma independent_error code message : independent (protocol_stream_error_envelope code message).
Proof. unfold protocol_stream_error_envelope. independent_tac. Qed.
Lemma independent_decode kind data : independent (decode_frame_payload kind data).
Proof.
  unfold decode_frame_payload, enter_runtime_envelope_mode, adapt_protocol_payload.
  independent_tac; apply independent_error.
Qed.
Lemma independent_frame_text t : independent (parse_sse_frame_text t).
Proof.
  unfold parse_sse_frame_text. cbv zeta. independent_tac;
    first [apply independent_error | apply independent_decode].
Qed.
Lemma independent_frame f : independent (parse_sse_frame_bytes f).
Proof.
  unfold parse_sse_frame_bytes. destruct (from_utf8 f); [|apply independent_ret].
  apply independent_bind; [apply independent_frame_text|]. intros. apply independent_ret.
Qed.

(** *** Leading blank lines do not change what a frame says *)
Lemma normalise_blank x t :
  terminator x = true ->
  normalise_sse_line_endings (x :: t) = LF :: normalise_sse_line_endings t
  \/ (exists u, t = LF :: u) /\ normalise_sse_line_endings (x :: t) = normalise_sse_line_endings t.
Proof.
  unfold normalise_sse_line_endings, terminator. intros [Hx|Hx]%orb_prop; apply N.eqb_eq in Hx as ->.
  - by left.
  - destruct t as [|c u]; [by left|].
    destruct (N.eqb_spec c LF) as [->|Hc].
    + right. split; [by exists u|]. done.
    + left. unfold replace. cbn [replace_from]. unfold starts_with at 1. cbn [strip_prefix].
      change (13 =? CR) with true. cbn iota. apply N.eqb_neq in Hc. rewrite N.eqb_sym in Hc.
      rewrite Hc. cbn. done.
Qed.

Lemma parse_frame_text_blank x t :
  terminator x = true -> parse_sse_frame_text (x :: t) = parse_sse_frame_text t.
Proof.
  intros Hx. unfold parse_sse_frame_text.
  destruct (normalise_blank x t Hx) as [->|[_ ->]]; [|done].
  cbn [split_on]. change (LF =? LF) with true. cbn iota.
  unfold sse_frame_without_data_should_error. cbn [split_on]. change (LF =? LF) with true. done.
Qed.

Lemma parse_frame_strip f : parse_sse_frame_bytes f = parse_sse_frame_bytes (strip_blank f).
Proof.
  unfold strip_blank. induction f as [|x f IH]; [done|]. cbn [drop_while].
  destruct (terminator x) eqn:Hx; [|done]. rewrite <- IH. unfold parse_sse_frame_bytes.
  assert (from_utf8 (x :: f) = cons x <$> from_utf8 f) as ->.
  { cbn [from_utf8]. unfold terminator in Hx.
    assert (x <? 128 = true) as ->; [|by destruct (from_utf8 f)].
    apply orb_prop in Hx as [Hx|Hx]; apply N.eqb_eq in Hx as ->; done. }
  destruct (from_utf8 f); [|done]. cbn. by rewrite parse_frame_text_blank.
Qed.

Lemma parse_frame_empty p : parse_sse_frame_bytes [] p = Returns (Some [], p).
Proof. by destruct p. Qed.

(** The frames of a list, one after the other. *)
Fixpoint run_frames (fs : list bytes) : PST StreamParser (option (list RuntimeEnvelope)) :=
  match fs with
  | [] => mret (Some [])
  | f :: r =>
      frame ← parse_sse_frame_bytes f;
      match frame with
      | None => mret None
      | Some es => rest ← run_frames r; mret (app es <$> rest)
      end
  end.

Lemma independent_run fs : independent (run_frames fs).
Proof.
  induction fs as [|f fs IH]; [apply independent_ret|]. cbn [run_frames].
  apply independent_bind; [apply independent_frame|]. intros [es|]; [|apply independent_ret].
  apply independent_bind; [exact IH|]. intros ?. apply independent_ret.
Qed.

Lemma run_frames_essential fs p : run_frames (essential fs) p = run_frames fs p.
Proof.
  revert p. induction fs as [|f fs IH]; intros p; [done|].
  change (f :: fs) with ([f] ++ fs). rewrite essential_app. cbn [app run_frames].
  rewrite (parse_frame_strip f). unfold essential at 1. cbn [map List.filter].
  destruct (strip_blank f) as [|x g] eqn:Hf; cbn [is_empty negb app].
  - unfold mbind at 1, pst_bind at 1. rewrite parse_frame_empty, IH.
    unfold mbind, pst_bind. by destruct (run_frames fs p) as [[[rest|] q]|].
  - cbn [run_frames]. apply pst_bind_ext; [done|].
    intros [es|] s'; [|done]. apply pst_bind_ext; [apply IH | done].
Qed.

Lemma set_framing_own p : set_framing (buffer p) (bom_checked p) (overflowed p) p = p.
Proof. by destruct p. Qed.

Lemma independent_inv {A} (m : PST StreamParser A) p a p' b :
  independent m -> m p = Returns (a, p') ->
  m (set_buffer b p) = Returns (a, set_buffer b p')
  /\ buffer p' = buffer p /\ bom_checked p' = bom_checked p /\ overflowed p' = overflowed p.
Proof.
  intros Hm Hp.
  assert (p' = set_framing (buffer p) (bom_checked p) (overflowed p) p') as Hown.
  { specialize (Hm (buffer p) (bom_checked p) (overflowed p) p).
    rewrite set_framing_own, Hp in Hm. congruence. }
  assert (bom_checked p' = bom_checked p /\ overflowed p' = overflowed p /\ buffer p' = buffer p)
    as (Hb & Ho & Hf) by (by rewrite Hown).
  split; [|done].
  specialize (Hm b (bom_checked p) (overflowed p) p). rewrite Hp in Hm.
  change (set_framing b (bom_checked p) (overflowed p) p) with (set_buffer b p) in Hm.
  rewrite Hm, <- Hb, <- Ho. done.
Qed.

Lemma process_frames_run fuel p es p' :
  process_frames fuel p = Returns (Some es, p') <->
  exists q, run_frames (frames_of fuel (buffer p)).1 p = Returns (Some es, q)
    /\ p' = set_buffer (frames_of fuel (buffer p)).2 q.
Proof.
  revert p es p'. induction fuel as [|fuel IH]; intros p es p'.
  { cbn. split; [intros [= <- <-]; exists p; by destruct p | intros (q & [= <- <-] & ->); by destruct p]. }
  cbn [process_frames frames_of].
  rewrite (pst_bind_returns _ _ p (buffer p) p) by done. unfold next_frame.
  destruct (find_sse_frame_delimiter (buffer p)) as [[pos len]|]; cycle 1.
  { cbn. split; [intros [= <- <-]; exists p; by destruct p | intros (q & [= <- <-] & ->); by destruct p]. }
  set (f := take pos (buffer p)). set (r := drop (pos + len) (buffer p)).
  rewrite (pst_bind_returns _ _ p tt (set_buffer r p)) by done.
  destruct (frames_of fuel r) as [fs rest] eqn:Hfr. cbn [fst snd run_frames].
  unfold mbind at 1 3, pst_bind at 1 3.
  destruct (parse_sse_frame_bytes f p) as [[frame p1]|] eqn:Hp; cycle 1.
  { assert (parse_sse_frame_bytes f (set_buffer r p) = Panics) as ->; [|naive_solver].
    change (set_buffer r p) with (set_framing r (bom_checked p) (overflowed p) p).
    by rewrite independent_frame, Hp. }
  destruct (independent_inv _ _ _ _ r (independent_frame f) Hp) as (-> & Hb & _).
  destruct frame as [es1|]; [|naive_solver].
  unfold mbind, pst_bind.
  specialize (IH (set_buffer r p1)). change (buffer (set_buffer r p1)) with r in IH.
  rewrite Hfr in IH. cbn [fst snd] in IH.
  split.
  - destruct (process_frames fuel (set_buffer r p1)) as [[[es2|] q]|] eqn:Hq; try done.
    intros [= <- <-]. destruct (proj1 (IH es2 q) eq_refl) as (q' & Hrun & ->).
    destruct (independent_inv _ _ _ _ (buffer p1) (independent_run fs) Hrun) as (Hrun' & _).
    assert (set_buffer (buffer p1) (set_buffer r p1) = p1) as Hown by (by destruct p1).
    rewrite Hown in Hrun'. rewrite Hrun'. eexists. split; [done|]. done.
  - intros (q & Hq & ->). destruct (run_frames fs p1) as [[[es2|] q']|] eqn:Hrun; try done.
    injection Hq as <- <-.
    destruct (independent_inv _ _ _ _ r (independent_run fs) Hrun) as (Hrun' & _).
    rewrite (proj2 (IH es2 (set_buffer rest q'))); [done|]. by eexists.
Qed.
End handler.

(** ** The byte-order mark *)
Definition bom_prefix (b : bytes) : bool :=
  bool_decide (b = [] \/ b = [239] \/ b = [239; 187]).

(** What is left of a text once it is known whether it begins with the mark. *)
Definition after_bom (b : bytes) : bytes := unwrap_or (strip_prefix UTF8_BOM b) b.

Definition bom_ok (p : StreamParser) : bool := bom_checked p || bom_prefix (buffer p).

Lemma after_bom_app b c : bom_prefix b = false -> after_bom (b ++ c) = after_bom b ++ c.
Proof.
  unfold bom_prefix, after_bom, UTF8_BOM. intros Hb%bool_decide_eq_false.
  destruct b as [|x [|y [|z r]]]; cbn [app strip_prefix].
  - naive_solver.
  - destruct (N.eqb_spec 239 x) as [<-|]; naive_solver.
  - destruct (N.eqb_spec 239 x) as [<-|]; [|done].
    destruct (N.eqb_spec 187 y) as [<-|]; naive_solver.
  - destruct (239 =? x), (187 =? y), (191 =? z); done.
Qed.

Lemma strip_bom_spec p :
  strip_utf8_bom_once p
  = if bom_checked p || bom_prefix (buffer p) then p
    else set_bom_checked true (set_buffer (after_bom (buffer p)) p).
Proof.
  unfold strip_utf8_bom_once, bom_prefix, after_bom, UTF8_BOM.
  destruct p as [b [] o id de m a t]; cbn [bom_checked buffer orb]; [done|].
  destruct b as [|x [|y [|z r]]]; cbn [strip_prefix].
  - done.
  - destruct (N.eqb_spec 239 x) as [<-|Hx]; cbn.
    + done.
    + rewrite !bool_decide_eq_false_2 by naive_solver. done.
  - destruct (N.eqb_spec 239 x) as [<-|Hx], (N.eqb_spec 187 y) as [<-|Hy]; cbn.
    + done.
    + rewrite !bool_decide_eq_false_2 by naive_solver. done.
    + rewrite !bool_decide_eq_false_2 by naive_solver. done.
    + rewrite !bool_decide_eq_false_2 by naive_solver. done.
  - rewrite (bool_decide_eq_false_2 (x :: y :: z :: r = [] \/ _)) by naive_solver.
    replace (Nat.min (length (x :: y :: z :: r)) (length [239; 187; 191])) with 3%nat
      by (cbn [length]; lia).
    destruct (N.eqb_spec 239 x) as [<-|Hx], (N.eqb_spec 187 y) as [<-|Hy], (N.eqb_spec 191 z) as [<-|Hz]; done.
Qed.

(** ** Where a stream is cut does not matter *)
Definition ingest (chunk : bytes) (p : StreamParser) : StreamParser :=
  strip_utf8_bom_once (set_buffer (buffer p ++ chunk) p).

(** The same parser up to blank lines at the front of the buffer. *)
Definition same_stream (p q : StreamParser) : Prop :=
  exists rest, q = set_buffer rest p /\ strip_blank rest = strip_blank (buffer p).

Definition fits (p : StreamParser) (chunk : bytes) : Prop :=
  N.of_nat (length (buffer p)) + N.of_nat (length chunk) <= MAX_SSE_BUFFER_BYTES.

Section chunks.
Context {clk : Clock} {ord : HashOrder} {js : SerdeJson} {dec : BlockDecoder} {frd : FrameDecoders}.

#[global] Instance fits_dec p chunk : Decision (fits p chunk).
Proof. unfold fits. apply _. Defined.

Lemma process_fits chunk p :
  overflowed p = false -> fits p chunk ->
  process chunk p
  = process_frames (S (length (buffer (ingest chunk p)))) (ingest chunk p).
Proof.
  intros Ho Hf. unfold process. rewrite (pst_bind_returns _ _ p (overflowed p) p) by done.
  rewrite Ho, (pst_bind_returns _ _ p (buffer p) p) by done.
  unfold fits in Hf. rewrite (proj2 (N.ltb_ge _ _)); [done|]. unfold sat_add. lia.
Qed.

Definition leftover (s : bytes) : bytes := (frames_of (S (length s)) s).2.

Lemma frames_leftover s :
  (frames s).2 = strip_blank (leftover s) /\ (length (leftover s) <= length s)%nat.
Proof.
  split; [unfold frames, leftover; by destruct (frames_of _ s)|].
  unfold leftover. generalize (S (length s)). intros k. revert s.
  induction k as [|k IH]; intros s; [done|]. cbn [frames_of].
  destruct (next_frame s) as [[f r]|] eqn:Hn; [|done].
  apply next_frame_length in Hn. specialize (IH r). destruct (frames_of k r). cbn in *. lia.
Qed.

Lemma process_frames_spec p es p' :
  process_frames (S (length (buffer p))) p = Returns (Some es, p') <->
  exists q, run_frames (frames (buffer p)).1 p = Returns (Some es, q)
    /\ p' = set_buffer (leftover (buffer p)) q.
Proof.
  rewrite process_frames_run. unfold leftover.
  assert (forall q, run_frames (frames (buffer p)).1 p = q
    <-> run_frames (frames_of (S (length (buffer p))) (buffer p)).1 p = q) as Hrun.
  { intros q. unfold frames. destruct (frames_of _ (buffer p)) as [fs rest]. cbn [fst].
    by rewrite run_frames_essential. }
  split; intros (q & Hq & ->); exists q; split; try done; by apply Hrun.
Qed.

Lemma run_frames_app fs fs' p es q :
  run_frames (fs ++ fs') p = Returns (Some es, q) ->
  exists es1 m es2, run_frames fs p = Returns (Some es1, m)
    /\ run_frames fs' m = Returns (Some es2, q) /\ es = es1 ++ es2.
Proof.
  revert p es. induction fs as [|f fs IH]; intros p es Hr; [by exists [], p, es|].
  cbn [app run_frames] in *. apply pst_bind_inv in Hr as ([es1|] & m & Hp & Hr); [|by pst_inv].
  apply pst_bind_inv in Hr as ([es2|] & m' & Hq & [Hr <-]%pst_ret_inv); [|done].
  injection Hr as <-. destruct (IH _ _ Hq) as (e1 & m1 & e2 & H1 & H2 & ->).
  exists (es1 ++ e1), m1, e2. rewrite (pst_bind_returns _ _ _ _ _ Hp), (pst_bind_returns _ _ _ _ _ H1).
  by rewrite app_assoc.
Qed.

Lemma ingest_checked p c : bom_checked p = true -> ingest c p = set_buffer (buffer p ++ c) p.
Proof. intros Hb. unfold ingest. rewrite strip_bom_spec. cbn. by rewrite Hb. Qed.

(** Once the mark is decided, more bytes only extend the buffer. *)
Lemma ingest_app p c c' :
  bom_ok p = true ->
  (bom_checked (ingest c p) = true
   /\ ingest (c ++ c') p = set_buffer (buffer (ingest c p) ++ c') (ingest c p))
  \/ (ingest c p = set_buffer (buffer p ++ c) p /\ bom_checked p = false
      /\ bom_prefix (buffer p ++ c) = true).
Proof.
  intros Hok. destruct (bom_checked p) eqn:Hb.
  { left. rewrite !ingest_checked by done. cbn. by rewrite Hb, app_assoc. }
  unfold ingest. rewrite !strip_bom_spec. cbn [bom_checked set_buffer buffer]. rewrite Hb. cbn [orb].
  destruct (bom_prefix (buffer p ++ c)) eqn:Hp; [by right|].
  left. split; [done|].
  assert (bom_prefix (buffer p ++ c ++ c') = false) as ->.
  { unfold bom_prefix in *. apply bool_decide_eq_false in Hp. apply bool_decide_eq_false.
    rewrite app_assoc. intros Hq. apply Hp.
    destruct (buffer p ++ c) as [|x [|y [|z r]]]; naive_solver. }
  rewrite app_assoc, after_bom_app by done. done.
Qed.

Lemma bom_prefix_no_frames b : bom_prefix b = true -> frames b = ([], b) /\ leftover b = b.
Proof. by intros [->|[->| ->]]%bool_decide_eq_true. Qed.

Lemma ingest_inv c p :
  overflowed (ingest c p) = overflowed p
  /\ (length (buffer (ingest c p)) <= length (buffer p) + length c)%nat.
Proof.
  unfold ingest. rewrite strip_bom_spec. cbn [bom_checked set_buffer buffer].
  destruct (_ || _); cbn; (split; [done|]); rewrite <- length_app; [done|].
  unfold after_bom. destruct (strip_prefix UTF8_BOM _) as [r|] eqn:Hs; cbn; [|done].
  apply strip_prefix_Some in Hs. rewrite Hs, length_app. lia.
Qed.

Lemma frames_rest_app s t : frames ((frames s).2 ++ t) = frames (leftover s ++ t).
Proof.
  destruct (frames_leftover s) as [-> _].
  by rewrite frames_strip, (frames_strip (leftover s ++ t)), <- strip_blank_app.
Qed.

Lemma process_cut_checked c c' p es p' :
  bom_checked (ingest c p) = true ->
  ingest (c ++ c') p = set_buffer (buffer (ingest c p) ++ c') (ingest c p) ->
  overflowed p = false -> fits p (c ++ c') -> process (c ++ c') p = Returns (Some es, p') ->
  exists es1 p1 es2 p2,
    process c p = Returns (Some es1, p1) /\ process c' p1 = Returns (Some es2, p2)
    /\ es = es1 ++ es2 /\ same_stream p' p2
    /\ bom_ok p1 = true /\ overflowed p1 = false /\ fits p1 c'.
Proof.
  intros Hbom Hin Hov Hfit Hproc. set (q := ingest c p) in *. set (b := buffer q) in *.
  destruct (ingest_inv c p) as [Hoq Hlq]. fold q in Hoq, Hlq. fold b in Hlq.
  destruct (frames_leftover b) as [Hrest Hleft].
  assert (fits p c) as Hfc by (unfold fits in *; rewrite length_app in Hfit; lia).
  rewrite process_fits, Hin in Hproc by done.
  apply process_frames_spec in Hproc as (r & Hrun & ->). cbn [buffer set_buffer] in *.
  destruct (independent_inv _ _ _ _ b (independent_run _) Hrun) as [Hrun' _].
  assert (set_buffer b (set_buffer (b ++ c') q) = q) as Hq by (by destruct q).
  rewrite Hq in Hrun'. rewrite frames_app in Hrun'.
  destruct (frames b) as [fs rest] eqn:Hfb. cbn [snd] in Hrest.
  destruct (frames (rest ++ c')) as [fs' rest'] eqn:Hfr. cbn [fst] in Hrun'.
  apply run_frames_app in Hrun' as (es1 & m & es2 & Hr1 & Hr2 & ->).
  assert (frames (leftover b ++ c') = (fs', rest')) as Hfl
    by (rewrite <- frames_rest_app, Hfb; exact Hfr).
  destruct (independent_inv _ _ _ _ b (independent_run _) Hr1) as (_ & Hbm & Hcm & Hom).
  set (p1 := set_buffer (leftover b) m).
  assert (fits p1 c') as Hf1.
  { unfold fits in *. rewrite length_app in Hfit. cbn. lia. }
  assert (overflowed p1 = false) as Ho1 by (cbn; congruence).
  assert (bom_checked p1 = true) as Hb1 by (cbn; congruence).
  assert (ingest c' p1 = set_buffer (leftover b ++ c') m) as Hi1 by (by rewrite ingest_checked).
  destruct (independent_inv _ _ _ _ (leftover b ++ c') (independent_run _) Hr2) as [Hr2' _].
  exists es1, p1, es2, (set_buffer (leftover (leftover b ++ c')) r). split; [|split].
  - rewrite process_fits by done. fold q. apply process_frames_spec. fold b. rewrite Hfb. by exists m.
  - rewrite process_fits, Hi1 by done. apply process_frames_spec. cbn [buffer set_buffer].
    rewrite Hfl. by exists (set_buffer (leftover b ++ c') (set_buffer b r)).
  - split; [done|]. split; [|by unfold bom_ok; rewrite Hb1].
    exists (leftover (leftover b ++ c')). split; [done|]. cbn [buffer set_buffer].
    destruct (frames_leftover (leftover b ++ c')) as [<- _].
    destruct (frames_leftover (b ++ c')) as [<- _]. by rewrite Hfl, frames_app, Hfb, Hfr.
Qed.

Lemma process_cut c c' p es p' :
  bom_ok p = true -> overflowed p = false -> fits p (c ++ c') ->
  process (c ++ c') p = Returns (Some es, p') ->
  exists es1 p1 es2 p2,
    process c p = Returns (Some es1, p1) /\ process c' p1 = Returns (Some es2, p2)
    /\ es = es1 ++ es2 /\ same_stream p' p2
    /\ bom_ok p1 = true /\ overflowed p1 = false /\ fits p1 c'.
Proof.
  intros Hok Hov Hfit Hproc.
  destruct (ingest_app p c c' Hok) as [[Hb Hin]|(Hin & Hb & Hpre)];
    [by eapply process_cut_checked|].
  assert (fits p c) as Hfc by (unfold fits in *; rewrite length_app in Hfit; lia).
  set (p1 := set_buffer (buffer p ++ c) p).
  assert (fits p1 c') as Hf1 by (unfold fits in *; cbn; rewrite length_app in *; lia).
  assert (ingest c' p1 = ingest (c ++ c') p) as Hi by (unfold ingest; cbn; by rewrite app_assoc).
  destruct (bom_prefix_no_frames _ Hpre) as [Hfr Hl].
  exists [], p1, es, p'. split; [|split].
  - rewrite process_fits, Hin by done. apply process_frames_spec. cbn [buffer set_buffer].
    rewrite Hfr, Hl. by exists p1.
  - rewrite process_fits, Hi by done. by rewrite process_fits in Hproc.
  - split; [done|]. split; [by exists (buffer p'); destruct p'|].
    split; [|done]. unfold bom_ok. cbn. by rewrite Hpre, orb_true_r.
Qed.

(** The chunks of a stream, one after the other; an error ends it. *)
Fixpoint process_all (chunks : list bytes) : PST StreamParser (option (list RuntimeEnvelope)) :=
  match chunks with
  | [] => mret (Some [])
  | c :: r =>
      es ← process c;
      match es with
      | None => mret None
      | Some es => rest ← process_all r; mret (app es <$> rest)
      end
  end.
End chunks.

Lemma same_stream_trans p q r : same_stream p q -> same_stream q r -> same_stream p r.
Proof. intros (b & -> & Hb) (b' & -> & Hb'). exists b'. split; [done|]. by rewrite Hb'. Qed.
Lemma same_stream_refl p : same_stream p p.
Proof. exists (buffer p). by destruct p. Qed.

(** Where a stream is cut into chunks does not matter.  If the whole of some bytes, at most as
    many as the buffer holds, is read without error, then so are any chunks they are cut into,
    through a line ending, a character or the byte-order mark: the same envelopes come out in
    the same order, and the parsers left behind differ at most in blank lines at the front of
    their buffers. *)
Theorem chunks_irrelevant `{!Clock} `{!HashOrder} `{!SerdeJson} `{!BlockDecoder} `{!FrameDecoders}
    task chunk chunks es p :
  N.of_nat (length (concat (chunk :: chunks))) <= MAX_SSE_BUFFER_BYTES ->
  process (concat (chunk :: chunks)) (parser_new task) = Returns (Some es, p) ->
  exists q, process_all (chunk :: chunks) (parser_new task) = Returns (Some es, q)
    /\ same_stream p q.
Proof.
  intros Hlen. assert (fits (parser_new task) (concat (chunk :: chunks))) as Hfit by exact Hlen.
  clear Hlen. revert Hfit. assert (bom_ok (parser_new task) = true) as Hok by done.
  assert (overflowed (parser_new task) = false) as Hov by done. revert Hok Hov.
  generalize (parser_new task). revert chunk es p.
  induction chunks as [|c' chunks IH]; intros c es p p0 Hok Hov Hfit Hproc.
  - cbn [concat] in Hproc. rewrite app_nil_r in Hproc. exists p. cbn [process_all].
    split; [|apply same_stream_refl].
    rewrite (pst_bind_returns _ _ _ _ _ Hproc), (pst_bind_returns _ _ p (Some []) p) by done.
    unfold mret, pst_ret. cbn. by rewrite app_nil_r.
  - change (concat (c :: c' :: chunks)) with (c ++ concat (c' :: chunks)) in *.
    destruct (process_cut _ _ _ _ _ Hok Hov Hfit Hproc)
      as (es1 & p1 & es2 & p2 & Hp1 & Hp2 & -> & Hs & Hok1 & Hov1 & Hfit1).
    destruct (IH c' es2 p2 p1 Hok1 Hov1 Hfit1 Hp2) as (q & Hq & Hs').
    exists q. split; [|by eapply same_stream_trans].
    change (process_all (c :: c' :: chunks)) with
      (es ← process c;
       match es with
       | None => mret None
       | Some es => rest ← process_all (c' :: chunks); mret (app es <$> rest)
       end).
    by rewrite (pst_bind_returns _ _ _ _ _ Hp1), (pst_bind_returns _ _ _ _ _ Hq).
Qed.

(** ** A rendered frame is read back *)
Definition text_line (l : str) : Prop :=
  Forall (fun c => is_scalar c = true /\ terminator c = false) l.

Definition render_lines (kind : option str) (lines : list str) : list str :=
  match kind with Some k => [t!"event: " ++ k] | None => [] end ++ map (app t!"data: ") lines.
Definition render_frame (kind : option str) (lines : list str) : str :=
  join [LF] (render_lines kind lines) ++ [LF; LF].

Section lines.
Lemma encode_char_no_term c : terminator c = false -> Forall (fun b => terminator b = false) (encode_char c).
Proof.
  unfold encode_char, terminator. intros Hc.
  destruct (c <? 128) eqn:H1; [by apply list.Forall_singleton|].
  assert (forall b, 128 <= b -> (b =? 10) || (b =? 13) = false) as Hb.
  { intros b Hb. apply orb_false_intro; apply N.eqb_neq; lia. }
  destruct (c <? 2048); [|destruct (c <? 65536)]; rewrite ?list.Forall_cons, ?list.Forall_nil;
    repeat split; apply Hb; lia.
Qed.

Lemma encode_no_term s :
  Forall (fun c => terminator c = false) s -> Forall (fun b => terminator b = false) (utf8_encode s).
Proof.
  induction 1 as [|c s Hc Hs IH]; [constructor|]. cbn. apply list.Forall_app.
  split; [by apply encode_char_no_term | exact IH].
Qed.

Lemma encode_app s t : utf8_encode (s ++ t) = utf8_encode s ++ utf8_encode t.
Proof. induction s as [|c s IH]; [done|]. cbn. by rewrite IH, app_assoc. Qed.

Lemma encode_nonempty c s : utf8_encode (c :: s) <> [].
Proof. cbn. unfold encode_char. by destruct (c <? 128), (c <? 2048), (c <? 65536). Qed.

(** The bytes of a line do not hide a terminator. *)
Lemma next_frame_line l s :
  Forall (fun b => terminator b = false) l ->
  next_frame (l ++ s) = prod_map (app l) id <$> next_frame s.
Proof.
  induction 1 as [|b l Hb Hl IH]; [cbn [app]; by destruct (next_frame s) as [[]|]|].
  cbn [app]. rewrite next_frame_view.
  assert (term_len (b :: l ++ s) = None) as ->.
  { unfold terminator in Hb. apply orb_false_elim in Hb as [H1 H2]. cbn. unfold LF, CR. by rewrite H1, H2. }
  rewrite IH. by destruct (next_frame s) as [[f r]|].
Qed.

Lemma next_frame_lf b l s :
  terminator b = false -> next_frame (LF :: b :: l ++ s) = prod_map (cons LF) id <$> next_frame (b :: l ++ s).
Proof.
  intros Hb. rewrite next_frame_view. change (term_len (LF :: b :: l ++ s)) with (Some 1%nat).
  unfold after_terminator. change (drop 1 (LF :: b :: l ++ s)) with (b :: l ++ s).
  assert (term_len (b :: l ++ s) = None) as ->; [|done].
  unfold terminator in Hb. apply orb_false_elim in Hb as [H1 H2]. cbn. unfold LF, CR. by rewrite H1, H2.
Qed.

Definition byte_line (l : bytes) : Prop := l <> [] /\ Forall (fun b => terminator b = false) l.

Lemma next_frame_lines ls :
  Forall byte_line ls -> ls <> [] ->
  next_frame (join [LF] ls ++ [LF; LF]) = Some (join [LF] ls, []).
Proof.
  induction 1 as [|l ls [Hne Hl] Hls IH]; [done|]. intros _.
  destruct ls as [|l' ls].
  - cbn [join]. rewrite next_frame_line by done. cbn. by rewrite app_nil_r.
  - rewrite join_cons by done. rewrite <- !app_assoc, next_frame_line by done.
    specialize (IH ltac:(done)). inversion Hls as [|?? [Hne' Hl'] _]; subst.
    destruct l' as [|b l']; [done|]. inversion Hl' as [|?? Hb _]; subst.
    assert (exists u, join [LF] ((b :: l') :: ls) = b :: u) as [u Hu].
    { destruct ls; [by exists l'|]. rewrite join_cons by done. by eexists. }
    rewrite Hu in IH |- *. cbn [app] in *. rewrite next_frame_lf by done. by rewrite IH.
Qed.
End lines.

Section read_back.
Context {clk : Clock} {ord : HashOrder} {js : SerdeJson} {dec : BlockDecoder} {frd : FrameDecoders}.

Lemma text_line_in c l : text_line l -> terminator c = true -> c ∉ l.
Proof.
  intros Hl Hc Hin. unfold text_line in Hl. rewrite list.Forall_forall in Hl.
  destruct (Hl c Hin) as [_ Hn]. congruence.
Qed.

Lemma render_text_lines kind lines :
  (forall k, kind = Some k -> text_line k) -> Forall text_line lines ->
  Forall text_line (render_lines kind lines).
Proof.
  intros Hk Hl. unfold render_lines. apply list.Forall_app. split.
  - destruct kind as [k|]; [|constructor]. constructor; [|constructor].
    apply list.Forall_app. split; [by repeat constructor | by apply Hk].
  - apply List.Forall_map. eapply list.Forall_impl; [exact Hl|]. intros l Hll.
    apply list.Forall_app. split; [by repeat constructor | done].
Qed.

Lemma join_elem c ls : c ∈ join [LF] ls -> c = LF \/ exists l, l ∈ ls /\ c ∈ l.
Proof.
  induction ls as [|l ls IH]; [by intros Hc%not_elem_of_nil|].
  destruct ls as [|l' ls]; cbn [join].
  - intros Hc. right. exists l. split; [constructor | done].
  - rewrite !elem_of_app. intros [Hc|[Hc|Hc]].
    + right. exists l. split; [constructor | done].
    + left. by apply list_elem_of_singleton in Hc.
    + destruct (IH Hc) as [|(m & Hm & Hcm)]; [by left|]. right. exists m. split; [by constructor | done].
Qed.

Lemma parse_rendered_frame kind lines p :
  (forall k, kind = Some k -> text_line k) -> Forall text_line lines -> lines <> [] ->
  parse_sse_frame_text (join [LF] (render_lines kind lines)) p
  = decode_frame_payload kind (join [LF] lines) p.
Proof.
  intros Hk Hl Hne. pose proof (render_text_lines _ _ Hk Hl) as Hr.
  set (ls := render_lines kind lines) in *.
  assert (CR ∉ join [LF] ls) as Hcr.
  { intros [Hc|(l & Hin & Hc)]%join_elem; [done|].
    rewrite list.Forall_forall in Hr. by apply (text_line_in CR l (Hr l Hin)) in Hc. }
  assert (normalise_sse_line_endings (join [LF] ls) = join [LF] ls) as Hnorm.
  { unfold normalise_sse_line_endings.
    assert (find_str [CR] (join [LF] ls) = None) as H1 by (by apply find_str_absent).
    assert (find_str [CR; LF] (join [LF] ls) = None) as H2 by (by apply find_str_absent).
    rewrite (replace_absent [CR; LF]) by done. by rewrite (replace_absent [CR]). }
  assert (split_on LF (join [LF] ls) = ls) as Hsplit.
  { apply split_on_join.
    - eapply list.Forall_impl; [exact Hr|]. intros l Hll. by apply text_line_in.
    - unfold ls, render_lines. destruct kind; [done|]. by destruct lines. }
  assert (forall a id delay k, fold_left parse_line (map (app t!"data: ") a) (mk_FrameFields kind k id delay)
    = mk_FrameFields kind (k ++ a) id delay) as Hdata.
  { induction a as [|l a IH]; intros; cbn [map fold_left]; [by rewrite app_nil_r|].
    assert (parse_line (mk_FrameFields kind k id delay) (t!"data: " ++ l)
      = mk_FrameFields kind (k ++ [l]) id delay) as -> by done.
    by rewrite IH, <- app_assoc. }
  assert (forall id delay, fold_left parse_line ls (mk_FrameFields None [] id delay)
    = mk_FrameFields kind lines id delay) as Hfold.
  { intros id delay. unfold ls, render_lines. rewrite fold_left_app.
    destruct kind as [k|]; cbn [fold_left]; [|apply Hdata].
    assert (parse_line (mk_FrameFields None [] id delay) (t!"event: " ++ k)
      = mk_FrameFields (Some k) [] id delay) as -> by done.
    apply Hdata. }
  unfold parse_sse_frame_text. rewrite Hnorm, Hsplit.
  rewrite (pst_bind_returns _ _ p (last_frame_id p) p) by done.
  rewrite (pst_bind_returns _ _ p (reconnect_delay_ms p) p) by done. rewrite Hfold. cbn.
  destruct lines as [|l lines]; [done|].
  rewrite (pst_bind_returns _ _ p tt p); [done|]. by destruct p.
Qed.

Lemma encode_join ls : utf8_encode (join [LF] ls) = join [LF] (map utf8_encode ls).
Proof.
  induction ls as [|l ls IH]; [done|]. destruct ls as [|l' ls]; [done|].
  cbn [map] in *. rewrite !join_cons by done. by rewrite !encode_app, IH.
Qed.

Lemma process_one_frame fuel p f :
  next_frame (buffer p) = Some (f, []) ->
  process_frames (S (S fuel)) p
  = match parse_sse_frame_bytes f (set_buffer [] p) with
    | Returns (r, q) => Returns (r, q)
    | Panics => Panics
    end.
Proof.
  intros Hn. cbn [process_frames]. rewrite (pst_bind_returns _ _ p (buffer p) p) by done.
  unfold next_frame in Hn. destruct (find_sse_frame_delimiter (buffer p)) as [[pos len]|]; [|done].
  injection Hn as -> ->. rewrite (pst_bind_returns _ _ p tt (set_buffer [] p)) by done.
  unfold mbind at 1, pst_bind at 1.
  destruct (parse_sse_frame_bytes f (set_buffer [] p)) as [[[es|] q]|] eqn:Hf; try done.
  destruct (independent_inv _ _ _ _ [] (independent_frame f) Hf) as (_ & Hb & _).
  cbn in Hb. unfold mbind, pst_bind.
  assert (parser_gets buffer q = Returns ([], q)) as ->
    by (unfold parser_gets, lift, st_gets; by rewrite Hb).
  cbn. by rewrite app_nil_r.
Qed.
(** The bytes of a rendered frame begin with no byte-order mark, are one frame, and say what
    they should. *)
Section rendered.
Context (kind : option str) (lines : list str).
Context (Hk : forall k, kind = Some k -> text_line k) (Hl : Forall text_line lines) (Hne : lines <> []).
Let bs := utf8_encode (render_frame kind lines).
Let frame := join [LF] (map utf8_encode (render_lines kind lines)).

Lemma rendered_first : exists b u, bs = b :: u /\ b <> 239.
Proof using Hk Hl Hne.
  unfold bs, render_frame, render_lines. destruct kind as [k|].
  - destruct lines; [done|]. by eexists _, _.
  - destruct lines as [|l [|l' r]]; [done| |]; by eexists _, _.
Qed.

Lemma rendered_next : next_frame bs = Some (frame, []).
Proof using Hk Hl Hne.
  pose proof (render_text_lines _ _ Hk Hl) as Hr.
  unfold bs, render_frame. rewrite encode_app, encode_join. apply next_frame_lines.
  - apply List.Forall_map. rewrite list.Forall_forall in Hr |- *. intros l Hlin. split.
    + destruct l as [|c l]; [|apply encode_nonempty].
      unfold render_lines in Hlin. apply elem_of_app in Hlin as [Hlin|Hlin].
      * destruct kind; [|by apply not_elem_of_nil in Hlin].
        by apply list_elem_of_singleton in Hlin.
      * by apply list_elem_of_In, in_map_iff in Hlin as (? & ? & _).
    + apply encode_no_term. eapply list.Forall_impl; [exact (Hr l Hlin)|]. by intros c [].
  - unfold render_lines. destruct kind; [done|]. by destruct lines.
Qed.

Lemma rendered_parse p :
  parse_sse_frame_bytes frame p
  = match decode_frame_payload kind (join [LF] lines) p with
    | Returns (es, p') => Returns (Some es, p')
    | Panics => Panics
    end.
Proof using Hk Hl Hne.
  pose proof (render_text_lines _ _ Hk Hl) as Hr.
  unfold frame. rewrite <- encode_join. unfold parse_sse_frame_bytes. rewrite from_utf8_encode.
  - unfold mbind at 1, pst_bind at 1. rewrite parse_rendered_frame by done.
    by destruct (decode_frame_payload _ _ _) as [[es q]|].
  - apply forallb_forall. intros c [->|(l & Hlin & Hc)]%list_elem_of_In%join_elem; [done|].
    rewrite list.Forall_forall in Hr. specialize (Hr l Hlin). unfold text_line in Hr.
    rewrite list.Forall_forall in Hr. by apply Hr.
Qed.

Lemma rendered_ingest t p :
  buffer p = [] -> ingest (bs ++ t) p = set_bom_checked true (set_buffer (bs ++ t) p).
Proof using Hk Hl Hne.
  intros Hbuf. destruct rendered_first as (b & u & Hbu & Hb239).
  unfold ingest. rewrite strip_bom_spec, Hbuf. cbn [app bom_checked set_buffer buffer].
  unfold bom_prefix, after_bom. rewrite bool_decide_eq_false_2 by (rewrite Hbu; naive_solver).
  assert (strip_prefix UTF8_BOM (bs ++ t) = None) as ->.
  { rewrite Hbu. cbn [app strip_prefix UTF8_BOM]. destruct (N.eqb_spec 239 b); congruence. }
  by destruct p as [? [] ? ? ? ? ? ?].
Qed.

Lemma chunks_irrelevant_witness :
  let run := @process_all step_clock map_order empty_codec small_decoder small_frames in
  let a := utf8_encode t!"data: {a" ++ [13] in
  let b := [10; 13; 10] ++ utf8_encode t!"data: {b" ++ [10; 10] in
  exists es q, run [a; b] (parser_new 1) = Returns (Some es, q) /\ length es = 4%nat.
Proof.
  cbv zeta.
  edestruct (@chunks_irrelevant step_clock map_order empty_codec small_decoder small_frames 1
    (utf8_encode t!"data: {a" ++ [13]) [[10; 13; 10] ++ utf8_encode t!"data: {b" ++ [10; 10]])
    as (q & Hq & _); [vm_compute; congruence | vm_compute; reflexivity |].
  do 2 eexists. split; [exact Hq | reflexivity].
Defined.

End rendered.
End read_back.

(** A rendered frame is read back.  A frame with an event name and any number of data lines,
    rendered as the protocol says and encoded in UTF-8, gives exactly what its event name and
    its lines, joined by line feeds, decode to, and leaves the buffer empty. *)
Theorem frame_read_back `{!Clock} `{!HashOrder} `{!SerdeJson} `{!BlockDecoder} `{!FrameDecoders}
    kind lines p :
  (forall k, kind = Some k -> text_line k) -> Forall text_line lines -> lines <> [] ->
  buffer p = [] -> overflowed p = false ->
  fits p (utf8_encode (render_frame kind lines)) ->
  process (utf8_encode (render_frame kind lines)) p
  = match decode_frame_payload kind (join [LF] lines) (set_bom_checked true p) with
    | Returns (es, p') => Returns (Some es, p')
    | Panics => Panics
    end.
Proof.
  intros Hk Hl Hne Hbuf Hov Hfit. rewrite process_fits by done.
  pose proof (rendered_ingest kind lines Hk Hl Hne [] p Hbuf) as Hin. rewrite app_nil_r in Hin.
  rewrite Hin. set (bs := utf8_encode (render_frame kind lines)) in *.
  cbn [buffer set_bom_checked set_buffer].
  destruct (rendered_first kind lines Hk Hl Hne) as (b & u & Hbu & _). fold bs in Hbu.
  rewrite Hbu at 1. cbn [length].
  rewrite (process_one_frame _ (set_bom_checked true (set_buffer bs p)) _ (rendered_next kind lines Hk Hl Hne)).
  assert (set_buffer [] (set_bom_checked true (set_buffer bs p)) = set_bom_checked true p) as ->
    by (destruct p; cbn in *; by subst).
  rewrite rendered_parse by done. by destruct (decode_frame_payload _ _ _) as [[es q]|].
Qed.

Lemma frame_read_back_witness :
  let run := @process step_clock map_order empty_codec small_decoder small_frames in
  let decode := @decode_frame_payload step_clock map_order empty_codec small_decoder small_frames in
  run (utf8_encode (render_frame (Some t!"delta") [t!"{a"; t!"b}"])) (parser_new 1)
  = match decode (Some t!"delta") t!"{a
b}" (set_bom_checked true (parser_new 1)) with
    | Returns (es, p') => Returns (Some es, p')
    | Panics => Panics
    end.
Proof.
  cbv zeta.
  apply (@frame_read_back step_clock map_order empty_codec small_decoder small_frames
    (Some t!"delta") [t!"{a"; t!"b}"] (parser_new 1)).
  - intros k [= <-]. repeat constructor; done.
  - repeat constructor; done.
  - done.
  - reflexivity.
  - reflexivity.
  - vm_compute. congruence.
Defined.

(** An invalid frame discards what was read before it.  A chunk whose first frame decodes and
    whose second is not UTF-8 fails as a whole: the envelopes of the first frame are returned
    to nobody, although the parser has gone on to the state behind them. *)
Theorem invalid_frame_discards `{!Clock} `{!HashOrder} `{!SerdeJson} `{!BlockDecoder} `{!FrameDecoders}
    kind lines p es p' :
  (forall k, kind = Some k -> text_line k) -> Forall text_line lines -> lines <> [] ->
  buffer p = [] -> overflowed p = false ->
  fits p (utf8_encode (render_frame kind lines) ++ [255; 10; 10]) ->
  decode_frame_payload kind (join [LF] lines) (set_bom_checked true p) = Returns (es, p') ->
  process (utf8_encode (render_frame kind lines) ++ [255; 10; 10]) p = Returns (None, p').
Proof.
  intros Hk Hl Hne Hbuf Hov Hfit Hdec. rewrite process_fits by done.
  rewrite (rendered_ingest kind lines Hk Hl Hne _ p Hbuf).
  set (bs := utf8_encode (render_frame kind lines)) in *.
  set (frame := join [LF] (map utf8_encode (render_lines kind lines))).
  assert (next_frame (bs ++ [255; 10; 10]) = Some (frame, [255; 10; 10])) as Hn.
  { destruct (next_frame_app bs [255; 10; 10] _ _ (rendered_next kind lines Hk Hl Hne))
      as [Hn|(_ & t & Ht & _)]; [exact Hn | done]. }
  cbn [buffer set_bom_checked set_buffer]. set (whole := bs ++ [255; 10; 10]) in *.
  cbn [process_frames]. erewrite pst_bind_returns by reflexivity.
  cbn [buffer set_bom_checked set_buffer]. unfold next_frame in Hn.
  destruct (find_sse_frame_delimiter whole) as [[pos len]|]; [|done]. injection Hn as -> ->.
  erewrite pst_bind_returns by reflexivity.
  assert (set_buffer [255; 10; 10] (set_bom_checked true (set_buffer whole p))
    = set_buffer [255; 10; 10] (set_bom_checked true p)) as -> by done.
  destruct (independent_inv _ _ _ _ [255; 10; 10] (independent_decode kind (join [LF] lines)) Hdec)
    as (Hdec' & Hb & _).
  unfold mbind at 1, pst_bind at 1. unfold frame. rewrite rendered_parse, Hdec' by done.
  assert (exists m, length whole = S m) as [m ->].
  { unfold whole. rewrite length_app. cbn. exists (length bs + 2)%nat. lia. }
  unfold mbind at 1, pst_bind at 1.
  assert (process_frames (S m) (set_buffer [255; 10; 10] p') = Returns (None, set_buffer [] p')) as ->
    by done.
  cbn. cbn in Hb. rewrite Hbuf in Hb. unfold mret, pst_ret. by destruct p'; cbn in *; subst.
Qed.

Lemma invalid_frame_discards_witness :
  let run := @process step_clock map_order empty_codec small_decoder small_frames in
  exists p', run (utf8_encode (render_frame None [t!"{a"]) ++ [255; 10; 10]) (parser_new 1)
    = Returns (None, p') /\ output_mode p' = ProtocolAdapter.
Proof.
  cbv zeta. eexists. split.
  - eapply (@invalid_frame_discards step_clock map_order empty_codec small_decoder small_frames
      None [t!"{a"] (parser_new 1)).
    + discriminate.
    + repeat constructor; done.
    + done.
    + reflexivity.
    + reflexivity.
    + vm_compute. congruence.
    + vm_compute. reflexivity.
  - reflexivity.
Defined.

(** ** The bounds of the buffer, and the two protocols *)
Section modes.
Context {clk : Clock} {ord : HashOrder} {js : SerdeJson} {dec : BlockDecoder} {frd : FrameDecoders}.

Definition error_mode (m : StreamOutputMode) : StreamOutputMode :=
  match m with EnvelopeMode => EnvelopeMode | _ => ProtocolAdapter end.

(** An error of the parser is always reported, by a normalizer of its own once the stream is one
    of envelopes. *)
Lemma error_envelope_inv code message p :
  exists e q, protocol_stream_error_envelope code message p = Returns (e, q)
    /\ env_signal e = SError code message true
    /\ output_mode q = error_mode (output_mode p)
    /\ (output_mode p = EnvelopeMode -> protocol_adapter q = protocol_adapter p).
Proof.
  unfold protocol_stream_error_envelope.
  rewrite (pst_bind_returns _ _ p (output_mode p) p) by done.
  assert (forall n, exists e n', emit_protocol_ingress_error code message n = Returns (e, n')
    /\ env_signal e = SError code message true) as Hemit.
  { intros n. unfold emit_protocol_ingress_error, ensure_protocol_ingress_turn_started.
    unfold mbind, pst_bind, ingress, lift, st_gets, update_ingress, st_modify, mret, pst_ret.
    destruct (turn_started _); [|destruct (start_pulse 1 None n) as [e0 n0]];
      unfold lift; cbv beta iota.
    all: destruct (emit_signal (SError code message true) _) as [e n'] eqn:Hs.
    all: exists e, n'; split; [done|]; by apply next_keeps_inv in Hs as []. }
  destruct (output_mode p) eqn:Hm.
  2: { erewrite pst_bind_returns by reflexivity. erewrite pst_bind_returns by reflexivity.
       destruct (start_pulse 1 None _) as [e0 n0].
       destruct (emit_signal (SError code message true) n0) as [e n'] eqn:Hs.
       do 2 eexists. split; [reflexivity|]. cbn. split; [by apply next_keeps_inv in Hs as []|].
       by rewrite Hm. }
  all: rewrite (pst_bind_returns _ _ p tt (set_output_mode ProtocolAdapter p)) by done.
  all: unfold with_adapter; cbn [protocol_adapter next_stream_task set_output_mode].
  all: destruct (protocol_adapter p) as [n|].
  all: match goal with |- context [emit_protocol_ingress_error _ _ ?n] =>
         destruct (Hemit n) as (e & n' & -> & He) end.
  all: do 2 eexists; split; [reflexivity|]; by split.
Qed.

(** What the mode becomes: it is chosen by the first frame and kept. *)
Definition keeps_mode {A} (m : PST StreamParser A) : Prop := forall p a q,
  m p = Returns (a, q) ->
  (output_mode p <> Undecided -> output_mode q = output_mode p)
  /\ (output_mode p = EnvelopeMode -> protocol_adapter q = protocol_adapter p).

Lemma keeps_mode_ret {A} (a : A) : keeps_mode (mret a).
Proof. by intros p b q [_ <-]%pst_ret_inv. Qed.
Lemma keeps_mode_bind {A B} (m : PST StreamParser A) (f : A -> PST StreamParser B) :
  keeps_mode m -> (forall a, keeps_mode (f a)) -> keeps_mode (m ≫= f).
Proof.
  intros Hm Hf p b q (a & p1 & H1 & H2)%pst_bind_inv.
  destruct (Hm _ _ _ H1) as [Ha Hb]. destruct (Hf _ _ _ _ H2) as [Hc Hd].
  split; intros Hp; [rewrite Hc; rewrite Ha | rewrite Hd, Hb]; auto; rewrite Ha; auto; congruence.
Qed.
Lemma keeps_mode_gets {A} (f : StreamParser -> A) : keeps_mode (parser_gets f).
Proof. by intros p a q [= _ <-]. Qed.
Lemma keeps_mode_modify f :
  (forall p, output_mode (f p) = output_mode p /\ protocol_adapter (f p) = protocol_adapter p) ->
  keeps_mode (parser_modify f).
Proof. intros Hf p a q [= _ <-]. by destruct (Hf p) as [-> ->]. Qed.
Lemma keeps_mode_error code message : keeps_mode (protocol_stream_error_envelope code message).
Proof.
  intros p a q Hr. destruct (error_envelope_inv code message p) as (e & q' & Hr' & _ & Hm & Ha).
  rewrite Hr in Hr'. injection Hr' as <- <-. split; [|exact Ha].
  rewrite Hm. by destruct (output_mode p).
Qed.

Lemma adapter_mode {A} (m : PST Norm A) p a q :
  with_adapter m p = Returns (a, q) -> output_mode q = output_mode p.
Proof.
  unfold with_adapter. destruct (protocol_adapter p) as [n|]; destruct (m _) as [[]|]; by intros [= _ <-].
Qed.

Lemma keeps_mode_adapt payload : keeps_mode (adapt_protocol_payload payload).
Proof.
  intros p a q Hr. unfold adapt_protocol_payload in Hr.
  rewrite (pst_bind_returns _ _ p (output_mode p) p) in Hr by done.
  destruct (output_mode p) eqn:Hm.
  2: { pose proof (keeps_mode_bind _ _ (keeps_mode_error _ _) (fun e => keeps_mode_ret [e]) p a q Hr) as Hk.
       by rewrite Hm in Hk. }
  all: rewrite (pst_bind_returns _ _ p tt (set_output_mode ProtocolAdapter p)) in Hr by done.
  all: apply adapter_mode in Hr; by rewrite Hr.
Qed.

Lemma keeps_mode_enter e : keeps_mode (enter_runtime_envelope_mode e).
Proof.
  intros p a q Hr. unfold enter_runtime_envelope_mode in Hr.
  rewrite (pst_bind_returns _ _ p (output_mode p) p) in Hr by done.
  destruct (output_mode p) eqn:Hm.
  3: { pose proof (keeps_mode_bind _ _ (keeps_mode_error _ _) (fun e => keeps_mode_ret [e]) p a q Hr) as Hk.
       by rewrite Hm in Hk. }
  all: rewrite (pst_bind_returns _ _ p tt (set_output_mode EnvelopeMode p)) in Hr by done.
  all: by apply pst_ret_inv in Hr as [_ <-].
Qed.

Lemma keeps_mode_decode kind data : keeps_mode (decode_frame_payload kind data).
Proof.
  unfold decode_frame_payload. destruct (is_empty data); [apply keeps_mode_ret|].
  destruct (runtime_envelope_from_str data); [apply keeps_mode_enter | apply keeps_mode_adapt].
Qed.

Lemma keeps_mode_frame f : keeps_mode (parse_sse_frame_bytes f).
Proof.
  unfold parse_sse_frame_bytes, parse_sse_frame_text. destruct (from_utf8 f); [|apply keeps_mode_ret].
  cbv zeta.
  repeat first [ apply keeps_mode_ret | apply keeps_mode_gets | apply keeps_mode_error
               | apply keeps_mode_decode | apply keeps_mode_modify; done
               | apply keeps_mode_bind; [|intros ?]
               | match goal with |- keeps_mode (match ?x with _ => _ end) => destruct x end ].
Qed.

Lemma keeps_mode_frames fuel : keeps_mode (process_frames fuel).
Proof.
  induction fuel as [|fuel IH]; cbn [process_frames]; [apply keeps_mode_ret|].
  apply keeps_mode_bind; [apply keeps_mode_gets|]. intros buf.
  destruct (find_sse_frame_delimiter buf) as [[pos len]|]; [|apply keeps_mode_ret].
  apply keeps_mode_bind; [by apply keeps_mode_modify|]. intros _.
  apply keeps_mode_bind; [apply keeps_mode_frame|]. intros [es|]; [|apply keeps_mode_ret].
  apply keeps_mode_bind; [exact IH|]. intros ?. apply keeps_mode_ret.
Qed.

Lemma strip_bom_mode p :
  output_mode (strip_utf8_bom_once p) = output_mode p
  /\ protocol_adapter (strip_utf8_bom_once p) = protocol_adapter p.
Proof. rewrite strip_bom_spec. by destruct (_ || _). Qed.

Lemma keeps_mode_process chunk : keeps_mode (process chunk).
Proof.
  unfold process, sse_overflow_frame.
  repeat first [ apply keeps_mode_ret | apply keeps_mode_gets | apply keeps_mode_error
               | apply keeps_mode_frames | apply keeps_mode_modify; first [done | apply strip_bom_mode]
               | apply keeps_mode_bind; [|intros ?]
               | match goal with |- keeps_mode (if ?x then _ else _) => destruct x end ].
Qed.

Lemma keeps_mode_finish : keeps_mode finish.
Proof.
  intros p a q Hr. unfold finish in Hr.
  rewrite (pst_bind_returns _ _ p (output_mode p) p) in Hr by done.
  destruct (output_mode p) eqn:Hm; [by apply pst_ret_inv in Hr as [_ <-].. |].
  apply adapter_mode in Hr. by rewrite Hr, Hm.
Qed.
End modes.

(** A stream is of one protocol.  The first frame with data decides whether a stream passes
    runtime envelopes through or adapts a provider's protocol: whatever chunks follow, and
    whatever frames a client hands over, the choice stays, and while envelopes are passed
    through the adapter is not touched and has nothing to finish. *)
Theorem first_frame_decides `{!Clock} `{!HashOrder} `{!SerdeJson} `{!BlockDecoder} `{!FrameDecoders}
    chunks p r q :
  output_mode p <> Undecided -> process_all chunks p = Returns (r, q) ->
  output_mode q = output_mode p
  /\ (output_mode p = EnvelopeMode ->
        protocol_adapter q = protocol_adapter p /\ finish q = Returns ([], q)).
Proof.
  intros Hm Hr. assert (keeps_mode (process_all chunks)) as Hk.
  { clear. induction chunks as [|c chunks IH]; cbn [process_all]; [apply keeps_mode_ret|].
    apply keeps_mode_bind; [apply keeps_mode_process|]. intros [es|]; [|apply keeps_mode_ret].
    apply keeps_mode_bind; [exact IH|]. intros ?. apply keeps_mode_ret. }
  destruct (Hk _ _ _ Hr) as [Hmode Ha]. split; [auto|]. intros He. split; [auto|].
  unfold finish. rewrite (pst_bind_returns _ _ q (output_mode q) q) by done.
  by rewrite Hmode, He by done.
Qed.

Lemma first_frame_decides_witness :
  let run := @process_all step_clock map_order empty_codec small_decoder small_frames in
  let p := set_output_mode EnvelopeMode (parser_new 1) in
  let chunks := [utf8_encode t!"data: [a" ++ [10]; [10] ++ utf8_encode t!"data: {b" ++ [10; 10]] in
  exists r q, run chunks p = Returns (r, q) /\ output_mode q = EnvelopeMode
    /\ protocol_adapter q = None.
Proof.
  cbv zeta. do 2 eexists. split; [vm_compute; reflexivity|].
  edestruct (@first_frame_decides step_clock map_order empty_codec small_decoder small_frames
    [utf8_encode t!"data: [a" ++ [10]; [10] ++ utf8_encode t!"data: {b" ++ [10; 10]]
    (set_output_mode EnvelopeMode (parser_new 1))) as [Hm Ha];
    [done | vm_compute; reflexivity | done].
Defined.

(** Frames of the other protocol are refused.  A frame that is a runtime envelope is passed
    through unchanged unless the stream is already adapted; the other frames are adapted unless
    envelopes are already passed through.  A frame of the wrong kind becomes one error,
    [mixed_sse_protocol], and the stream goes on as before. *)
Theorem mixed_frames_refused `{!Clock} `{!HashOrder} `{!SerdeJson} `{!BlockDecoder} `{!FrameDecoders}
    kind data p :
  data <> [] ->
  let wrong := match runtime_envelope_from_str data, output_mode p with
               | Some _, ProtocolAdapter | None, EnvelopeMode => true
               | _, _ => false
               end in
  if wrong then
    exists e message q, decode_frame_payload kind data p = Returns ([e], q)
      /\ env_signal e = SError t!"mixed_sse_protocol" message true
      /\ output_mode q = output_mode p
      /\ (output_mode p = EnvelopeMode -> protocol_adapter q = protocol_adapter p)
  else
    decode_frame_payload kind data p
    = match runtime_envelope_from_str data with
      | Some e => Returns ([e], set_output_mode EnvelopeMode p)
      | None => with_adapter (adapt_payload (decode_protocol_frame kind data))
                  (set_output_mode ProtocolAdapter p)
      end.
Proof.
  intros Hd. cbv zeta. unfold decode_frame_payload. destruct data as [|c data]; [done|].
  cbn [is_empty]. unfold enter_runtime_envelope_mode, adapt_protocol_payload.
  destruct (runtime_envelope_from_str (c :: data)) as [e|];
    rewrite (pst_bind_returns _ _ p (output_mode p) p) by done;
    destruct (output_mode p) eqn:Hm; try done.
  all: match goal with |- context [protocol_stream_error_envelope ?code ?m] =>
         destruct (error_envelope_inv code m p) as (e' & q & Hr & He & Hq & Ha) end.
  all: eexists e', _, q; rewrite (pst_bind_returns _ _ _ _ _ Hr), Hq, Hm; rewrite Hm in Ha.
  all: done.
Qed.

Lemma mixed_frames_refused_witness :
  let decode := @decode_frame_payload step_clock map_order empty_codec small_decoder small_frames in
  let p := set_output_mode EnvelopeMode (parser_new 1) in
  t!"{}" <> [] /\
  exists e message q, decode None t!"{}" p = Returns ([e], q)
    /\ env_signal e = SError t!"mixed_sse_protocol" message true
    /\ output_mode q = EnvelopeMode /\ protocol_adapter q = None.
Proof.
  cbv zeta. split; [done|].
  destruct (@mixed_frames_refused step_clock map_order empty_codec small_decoder small_frames
    None t!"{}" (set_output_mode EnvelopeMode (parser_new 1))) as (e & m & q & H1 & H2 & H3 & H4);
    [done|].
  exists e, m, q. split; [exact H1|]. split; [exact H2|]. split; [exact H3 | exact (H4 eq_refl)].
Defined.

(** ** The buffer *)
Section bounds.
Context {clk : Clock} {ord : HashOrder} {js : SerdeJson} {dec : BlockDecoder} {frd : FrameDecoders}.

Lemma process_frames_shrinks fuel p r q :
  process_frames fuel p = Returns (r, q) ->
  (length (buffer q) <= length (buffer p))%nat /\ overflowed q = overflowed p.
Proof.
  revert p r q. induction fuel as [|fuel IH]; intros p r q; cbn [process_frames].
  { by intros [_ <-]%pst_ret_inv. }
  rewrite (pst_bind_returns _ _ p (buffer p) p) by done.
  destruct (find_sse_frame_delimiter (buffer p)) as [[pos len]|]; [|by intros [_ <-]%pst_ret_inv].
  rewrite (pst_bind_returns _ _ p tt (set_buffer (drop (pos + len) (buffer p)) p)) by done.
  intros (frame & p1 & Hf & Hr)%pst_bind_inv.
  destruct (independent_inv _ _ _ _ [] (independent_frame _) Hf) as (_ & Hb & _ & Ho).
  cbn in Hb, Ho.
  assert (length (buffer p1) <= length (buffer p))%nat as Hl by (rewrite Hb, length_drop; lia).
  destruct frame as [es|]; [|by apply pst_ret_inv in Hr as [_ <-]].
  apply pst_bind_inv in Hr as (rest & p2 & Hr & [_ <-]%pst_ret_inv).
  apply IH in Hr as [Hl' Ho']. split; [lia | congruence].
Qed.

(** The two ways a chunk goes. *)
Lemma process_inv chunk p r q :
  process chunk p = Returns (r, q) ->
  (length (buffer q) <= length (buffer p)
   \/ fits p chunk /\ length (buffer q) <= length (buffer p) + length chunk)%nat
  /\ overflowed q = overflowed p || negb (bool_decide (fits p chunk))
  /\ (overflowed q = true ->
        exists e message, r = Some [e] /\ env_signal e = SError t!"sse_buffer_overflow" message true).
Proof.
  intros Hr.
  assert (forall p0 q, sse_overflow_frame p0 = q -> exists e message q', q = Returns (e, q')
    /\ env_signal e = SError t!"sse_buffer_overflow" message true
    /\ buffer q' = buffer p0 /\ overflowed q' = overflowed p0) as Hover.
  { intros p0 q0 <-. unfold sse_overflow_frame.
    match goal with |- context [protocol_stream_error_envelope ?c ?m p0] =>
      destruct (error_envelope_inv c m p0) as (e & q' & Hr' & He & _);
      destruct (independent_inv _ _ _ _ [] (independent_error c m) Hr') as (_ & Hb & _ & Ho);
      exists e, m, q' end. done. }
  destruct (decide (fits p chunk)) as [Hfit|Hfit]; destruct (overflowed p) eqn:Ho.
  2: { rewrite process_fits in Hr by done. apply process_frames_shrinks in Hr as [Hl Ho'].
       destruct (ingest_inv chunk p) as [Hi Hli]. rewrite bool_decide_eq_true_2 by done.
       rewrite Ho', Hi, Ho. split; [right; split; [done | lia] | done]. }
  1,2: unfold process in Hr; rewrite (pst_bind_returns _ _ p (overflowed p) p), Ho in Hr by done;
    destruct (Hover p _ eq_refl) as (e & m & q' & Hq & He & Hb & Ho');
    rewrite (pst_bind_returns _ _ _ _ _ Hq) in Hr; apply pst_ret_inv in Hr as [<- <-];
    rewrite Hb, Ho', Ho; split; [by left|]; split; [done|]; by exists e, m.
  unfold process in Hr. rewrite (pst_bind_returns _ _ p (overflowed p) p), Ho in Hr by done.
  rewrite (pst_bind_returns _ _ p (buffer p) p) in Hr by done.
  assert (MAX_SSE_BUFFER_BYTES <? sat_add usize_max (N.of_nat (length (buffer p)))
            (N.of_nat (length chunk)) = true) as Hlt.
  { apply N.ltb_lt. unfold fits, sat_add, MAX_SSE_BUFFER_BYTES, usize_max, u64_max in *. lia. }
  rewrite Hlt, (pst_bind_returns _ _ p tt (set_overflowed true p)) in Hr by done.
  destruct (Hover (set_overflowed true p) _ eq_refl) as (e & m & q' & Hq & He & Hb & Ho').
  rewrite (pst_bind_returns _ _ _ _ _ Hq) in Hr. apply pst_ret_inv in Hr as [<- <-].
  rewrite Hb, Ho'. cbn. rewrite bool_decide_eq_false_2 by done.
  split; [by left|]. split; [done|]. by exists e, m.
Qed.
End bounds.

(** The buffer is bounded.  However a stream is cut and whatever it holds, the parser never
    keeps more than [MAX_SSE_BUFFER_BYTES] bytes between two chunks. *)
Theorem buffer_bounded `{!Clock} `{!HashOrder} `{!SerdeJson} `{!BlockDecoder} `{!FrameDecoders}
    task chunks r q :
  process_all chunks (parser_new task) = Returns (r, q) ->
  N.of_nat (length (buffer q)) <= MAX_SSE_BUFFER_BYTES.
Proof.
  assert (N.of_nat (length (buffer (parser_new task))) <= MAX_SSE_BUFFER_BYTES) as Hp by done.
  revert Hp. generalize (parser_new task). revert r.
  induction chunks as [|c chunks IH]; intros r p Hp; cbn [process_all].
  { by intros [_ <-]%pst_ret_inv. }
  intros (es & p1 & (Hl & _)%process_inv & Hr)%pst_bind_inv.
  assert (N.of_nat (length (buffer p1)) <= MAX_SSE_BUFFER_BYTES) as Hp1.
  { destruct Hl as [Hl|[Hf Hl]]; [lia|]. unfold fits in Hf. lia. }
  destruct es as [es|]; [|by apply pst_ret_inv in Hr as [_ <-]].
  apply pst_bind_inv in Hr as (rest & p2 & Hr & [_ <-]%pst_ret_inv). by eapply IH.
Qed.

Lemma buffer_bounded_witness :
  let run := @process_all step_clock map_order empty_codec small_decoder small_frames in
  exists r q, run [utf8_encode t!"data: {a"; [10; 10; 100]] (parser_new 1) = Returns (r, q)
    /\ length (buffer q) = 1%nat /\ N.of_nat (length (buffer q)) <= MAX_SSE_BUFFER_BYTES.
Proof.
  cbv zeta. do 2 eexists. split; [vm_compute; reflexivity|]. split; [reflexivity|].
  eapply (@buffer_bounded step_clock map_order empty_codec small_decoder small_frames 1
    [utf8_encode t!"data: {a"; [10; 10; 100]]). vm_compute. reflexivity.
Defined.

(** When a stream overflows.  A chunk is refused exactly when it and the bytes kept are more
    than the buffer holds, whether or not it completes frames; from then on every chunk gives
    the overflow error and nothing else. *)
Theorem overflow_exact `{!Clock} `{!HashOrder} `{!SerdeJson} `{!BlockDecoder} `{!FrameDecoders}
    chunk p r q :
  process chunk p = Returns (r, q) ->
  (overflowed q = true <->
     overflowed p = true
     \/ MAX_SSE_BUFFER_BYTES < N.of_nat (length (buffer p)) + N.of_nat (length chunk))
  /\ (overflowed q = true ->
        exists e message, r = Some [e] /\ env_signal e = SError t!"sse_buffer_overflow" message true).
Proof.
  intros (_ & Ho & He)%process_inv. split; [|done]. rewrite Ho, orb_true_iff.
  rewrite negb_true_iff, bool_decide_eq_false. unfold fits. naive_solver lia.
Qed.

(** A chunk of complete, empty frames that is one byte too long. *)
Lemma overflow_exact_witness :
  let run := @process step_clock map_order empty_codec small_decoder small_frames in
  exists r q, run [10; 10] (set_buffer [] (set_overflowed true (parser_new 1))) = Returns (r, q)
    /\ overflowed q = true
    /\ exists e message, r = Some [e] /\ env_signal e = SError t!"sse_buffer_overflow" message true.
Proof.
  cbv zeta. do 2 eexists. split; [vm_compute; reflexivity|].
  edestruct (@overflow_exact step_clock map_order empty_codec small_decoder small_frames
    [10; 10] (set_buffer [] (set_overflowed true (parser_new 1)))) as [_ Hover];
    [vm_compute; reflexivity|].
  split; [reflexivity|]. by apply Hover.
Defined.
