(* ===== verification/ByteIndex.v ===== *)
(** Byte positions in a string: [str::is_char_boundary], [&s[a..b]], [String::insert_str] and
    [String::replace_range], which panic off a character boundary, and the splitting of a
    string at a position. *)
From Stdlib Require Import NArith ZArith Lia ZifyN.
From stdpp Require Import base list strings numbers.
From S2P Require Import Prelude Text.
#[local] Open Scope N_scope.

Definition is_char_boundary (s : str) (k : N) : bool := opt_is_some (take_bytes k s).

(** [s.get(k..)]. *)
Fixpoint drop_bytes (k : N) (s : str) : option str :=
  if k =? 0 then Some s
  else match s with
       | [] => None
       | c :: r => if k <? len_utf8 c then None else drop_bytes (k - len_utf8 c) r
       end.

Definition or_panic {A} (o : option A) : outcome A :=
  match o with Some a => Returns a | None => Panics end.

(** [&s[a..]] and [&s[a..b]]. *)
Definition slice_from (a : N) (s : str) : outcome str := or_panic (drop_bytes a s).
Definition byte_slice (a b : N) (s : str) : outcome str :=
  if a <=? b then
    p ← or_panic (take_bytes b s);
    or_panic (drop_bytes a p)
  else Panics.

(** [String::insert_str] and [String::replace_range(a..b, v)]. *)
Definition string_insert (k : N) (v s : str) : outcome str :=
  a ← or_panic (take_bytes k s);
  b ← or_panic (drop_bytes k s);
  mret (a ++ v ++ b).
Definition string_replace_range (a b : N) (v s : str) : outcome str :=
  if a <=? b then
    p ← or_panic (take_bytes a s);
    r ← or_panic (drop_bytes b s);
    mret (p ++ v ++ r)
  else Panics.

(** [str::char_indices], from position [i] on. *)
Fixpoint char_indices (i : N) (s : str) : list (N * char) :=
  match s with [] => [] | c :: r => (i, c) :: char_indices (i + len_utf8 c) r end.

(** ** Splitting *)
Lemma take_bytes_Some k s a :
  take_bytes k s = Some a <-> exists b, s = a ++ b /\ blen a = k.
Proof.
  revert k a. induction s as [|c r IH]; intros k a; cbn [take_bytes]; destruct (N.eqb_spec k 0) as [->|Hk].
  1,3: split; [intros [= <-]; by eexists | intros (b & Hs & ->%blen_zero); done].
  - split; [done|]. intros (b & Hs & Hb). destruct a; cbn in Hb; [lia | done].
  - pose proof (len_utf8_pos c). destruct (N.ltb_spec k (len_utf8 c)) as [Hc|Hc].
    + split; [done|]. intros (b & Hs & Hb). destruct a as [|d a]; [cbn in Hb; lia|].
      injection Hs as -> ->. cbn in Hb. lia.
    + split.
      * intros (a' & Ha & ->)%fmap_Some. apply IH in Ha as (b & -> & Hb).
        exists b. cbn. split; [done | lia].
      * intros (b & Hs & Hb). destruct a as [|d a]; [cbn in Hb; lia|].
        injection Hs as -> ->. cbn in Hb. rewrite (proj2 (IH (k - len_utf8 d) a)); [done|].
        exists b. split; [done | lia].
Qed.

Lemma drop_bytes_Some k s b :
  drop_bytes k s = Some b <-> exists a, s = a ++ b /\ blen a = k.
Proof.
  revert k. induction s as [|c r IH]; intros k; cbn [drop_bytes]; destruct (N.eqb_spec k 0) as [->|Hk].
  1,3: split; [intros [= <-]; by exists [] | intros (a & Hs & ->%blen_zero); by rewrite Hs].
  - split; [done|]. intros (a & Hs & Hb). destruct a; cbn in Hb; [lia | done].
  - pose proof (len_utf8_pos c). destruct (N.ltb_spec k (len_utf8 c)) as [Hc|Hc].
    + split; [done|]. intros (a & Hs & Hb). destruct a as [|d a]; [cbn in Hb; lia|].
      injection Hs as -> ->. cbn in Hb. lia.
    + rewrite IH. split.
      * intros (a & -> & Ha). exists (c :: a). cbn. split; [done | lia].
      * intros (a & Hs & Hb). destruct a as [|d a]; [cbn in Hb; lia|].
        injection Hs as -> ->. cbn in Hb. exists a. split; [done | lia].
Qed.

Lemma take_bytes_app a b : take_bytes (blen a) (a ++ b) = Some a.
Proof. apply take_bytes_Some. by exists b. Qed.
Lemma drop_bytes_app a b : drop_bytes (blen a) (a ++ b) = Some b.
Proof. apply drop_bytes_Some. by exists a. Qed.

Lemma boundary_spec s k :
  is_char_boundary s k = true <-> exists a b, s = a ++ b /\ blen a = k.
Proof.
  unfold is_char_boundary. destruct (take_bytes k s) as [a|] eqn:E; cbn.
  - apply take_bytes_Some in E as (b & Hs & Ha). split; [by exists a, b | done].
  - split; [done|]. intros (a & b & Hs & Ha).
    enough (take_bytes k s = Some a) by congruence. apply take_bytes_Some. by exists b.
Qed.

Lemma boundary_app a b : is_char_boundary (a ++ b) (blen a) = true.
Proof. apply boundary_spec. by exists a, b. Qed.
Lemma boundary_zero s : is_char_boundary s 0 = true.
Proof. apply (boundary_app [] s). Qed.
Lemma boundary_len s : is_char_boundary s (blen s) = true.
Proof. apply boundary_spec. exists s, []. by rewrite app_nil_r. Qed.

Lemma boundary_le s k : is_char_boundary s k = true -> k <= blen s.
Proof. intros (a & b & -> & <-)%boundary_spec. rewrite blen_app. lia. Qed.

(** Prefixes are ordered by their length. *)
Lemma split_le a b a' b' :
  a ++ b = a' ++ b' -> blen a <= blen a' -> exists m, a' = a ++ m /\ b = m ++ b'.
Proof.
  revert a'. induction a as [|c a IH]; intros a' Hs Hl.
  - exists a'. by cbn in *.
  - destruct a' as [|c' a']; cbn in Hl; [pose proof (len_utf8_pos c); lia|].
    injection Hs as <- Hs. destruct (IH a' Hs) as (m & -> & ->); [lia|]. by exists m.
Qed.

Lemma split_eq_blen a b a' b' : a ++ b = a' ++ b' -> blen a = blen a' -> a = a' /\ b = b'.
Proof.
  intros Hs Hl. destruct (split_le a b a' b' Hs) as (m & -> & ->); [lia|].
  rewrite blen_app in Hl. assert (m = []) as -> by (apply blen_zero; lia).
  by rewrite app_nil_r.
Qed.

Lemma byte_slice_app a m b : byte_slice (blen a) (blen a + blen m) (a ++ m ++ b) = Returns m.
Proof.
  unfold byte_slice. rewrite (proj2 (N.leb_le _ _)) by lia.
  rewrite app_assoc, <- blen_app, take_bytes_app. cbn. by rewrite drop_bytes_app.
Qed.
Lemma slice_from_app a b : slice_from (blen a) (a ++ b) = Returns b.
Proof. unfold slice_from. by rewrite drop_bytes_app. Qed.
Lemma string_insert_app a b v : string_insert (blen a) v (a ++ b) = Returns (a ++ v ++ b).
Proof. unfold string_insert. by rewrite take_bytes_app, drop_bytes_app. Qed.
Lemma string_replace_app a m b v :
  string_replace_range (blen a) (blen a + blen m) v (a ++ m ++ b) = Returns (a ++ v ++ b).
Proof.
  unfold string_replace_range. rewrite (proj2 (N.leb_le _ _)) by lia.
  rewrite take_bytes_app. cbn. by rewrite app_assoc, <- blen_app, drop_bytes_app.
Qed.

(** ** The last boundary at or before a position

    [boundary_left] is the loop [while k > 0 && !s.is_char_boundary(k) { k -= 1 }]. *)
Fixpoint boundary_back (fuel : nat) (s : str) (k : N) : N :=
  match fuel with
  | O => k
  | S fuel =>
      if (0 <? k) && negb (is_char_boundary s k) then boundary_back fuel s (k - 1) else k
  end.
Definition boundary_left (s : str) (k : N) : N := boundary_back (N.to_nat k) s k.

(** The characters that end at or before a position. *)
Fixpoint floor_split (k : N) (s : str) : str * str :=
  match s with
  | [] => ([], [])
  | c :: r =>
      if len_utf8 c <=? k then
        let '(a, b) := floor_split (k - len_utf8 c) r in (c :: a, b)
      else ([], s)
  end.

Lemma floor_split_spec k s :
  let '(a, b) := floor_split k s in
  s = a ++ b /\ blen a <= k /\ match b with [] => True | c :: _ => k < blen a + len_utf8 c end.
Proof.
  revert k. induction s as [|c r IH]; intros k; cbn [floor_split]; [cbn; split_and!; [done | lia | done]|].
  destruct (N.leb_spec (len_utf8 c) k) as [Hc|Hc].
  - specialize (IH (k - len_utf8 c)). destruct (floor_split (k - len_utf8 c) r) as [a b].
    destruct IH as (-> & Ha & Hb). cbn. split_and!; [done | lia|]. destruct b; lia.
  - cbn. split_and!; [done | lia | lia].
Qed.

Lemma floor_split_unique k a b :
  blen a <= k -> match b with [] => True | c :: _ => k < blen a + len_utf8 c end ->
  floor_split k (a ++ b) = (a, b).
Proof.
  revert k. induction a as [|c a IH]; intros k Ha Hb.
  - destruct b as [|c b]; [done|]. cbn in *. by rewrite (proj2 (N.leb_gt _ _)).
  - cbn in *. rewrite (proj2 (N.leb_le _ _)) by lia. rewrite IH; [done | lia | destruct b; lia].
Qed.

Lemma floor_boundary s k j :
  is_char_boundary s j = true -> j <= k -> j <= blen (floor_split k s).1.
Proof.
  intros (a & b & -> & <-)%boundary_spec Hj.
  pose proof (floor_split_spec k (a ++ b)) as H. destruct (floor_split k (a ++ b)) as [a' b'].
  destruct H as (Hs & Ha & Hb). cbn.
  destruct (N.le_gt_cases (blen a) (blen a')) as [|Hl]; [done|exfalso].
  destruct (split_le a' b' a b) as (m & -> & ->); [done | lia|].
  destruct m as [|c m]; rewrite blen_app in *; cbn in *; lia.
Qed.

Lemma boundary_back_spec fuel s k j :
  (N.to_nat k <= fuel)%nat -> is_char_boundary s j = true -> j <= k ->
  (forall i, j < i -> i <= k -> is_char_boundary s i = false) -> boundary_back fuel s k = j.
Proof.
  revert k. induction fuel as [|fuel IH]; intros k Hf Hj Hk Hno; cbn; [lia|].
  destruct (N.eq_dec j k) as [->|Hne].
  - rewrite Hj. by destruct (0 <? k).
  - rewrite (Hno k), (proj2 (N.ltb_lt 0 k)) by lia. cbn. apply IH; [lia | done | lia|].
    intros i Hi Hi'. apply Hno; lia.
Qed.

Lemma boundary_left_floor s k : boundary_left s k = blen (floor_split k s).1.
Proof.
  apply boundary_back_spec; [done| | |].
  - pose proof (floor_split_spec k s) as H. destruct (floor_split k s) as [a b].
    destruct H as (-> & _). apply boundary_app.
  - pose proof (floor_split_spec k s) as H. destruct (floor_split k s) as [a b]. cbn. apply H.
  - intros i Hi Hk. destruct (is_char_boundary s i) eqn:E; [|done].
    pose proof (floor_boundary s k i E Hk). lia.
Qed.

Lemma floor_split_min k s : floor_split (N.min k (blen s)) s = floor_split k s.
Proof.
  pose proof (floor_split_spec k s) as H. destruct (floor_split k s) as [a b].
  destruct H as (-> & Ha & Hb). apply floor_split_unique; rewrite blen_app.
  - lia.
  - destruct b as [|c b]; [done|]. cbn. lia.
Qed.

Lemma floor_split_app a b : floor_split (blen a) (a ++ b) = (a, b).
Proof.
  apply floor_split_unique; [lia|]. destruct b as [|c b]; [done|].
  pose proof (len_utf8_pos c). lia.
Qed.

(** A position inside the last character of a prefix. *)
Lemma floor_split_pred a c b k :
  k + 1 = blen a + len_utf8 c -> floor_split k (a ++ c :: b) = (a, c :: b).
Proof. intros Hk. pose proof (len_utf8_pos c). apply floor_split_unique; lia. Qed.

Lemma char_indices_app i a b :
  char_indices i (a ++ b) = char_indices i a ++ char_indices (i + blen a) b.
Proof.
  revert i. induction a as [|c a IH]; intros i; cbn; [by rewrite N.add_0_r|].
  rewrite IH. by rewrite N.add_assoc.
Qed.

Lemma byte_slice_Returns a b s m :
  byte_slice a b s = Returns m <-> exists p q, s = p ++ m ++ q /\ blen p = a /\ b = a + blen m.
Proof.
  split.
  - unfold byte_slice. destruct (N.leb_spec a b) as [Hab|]; [|done].
    destruct (take_bytes b s) as [t|] eqn:Ht; cbn; [|done].
    destruct (drop_bytes a t) as [m'|] eqn:Hd; cbn; intros [= <-].
    apply take_bytes_Some in Ht as (q & -> & <-). apply drop_bytes_Some in Hd as (p & -> & <-).
    exists p, q. rewrite <- app_assoc. split_and!; [done | done |]. by rewrite blen_app.
  - intros (p & q & -> & <- & ->). apply byte_slice_app.
Qed.
