(* ===== verification/InputMetrics.v ===== *)
(** The rows of the input area and the place of the cursor in them:
    src/ui/input_metrics.rs.

    The tables of the crates [unicode-width] and [unicode-segmentation] are operations of
    classes. *)
From Stdlib Require Import NArith ZArith Lia.
From stdpp Require Import base list strings numbers.
From S2P Require Import Prelude Text ByteIndex.
#[local] Open Scope N_scope.

(** [UnicodeWidthChar::width]: [None] for a control character. *)
Class CharWidth := char_width : char -> option N.
(** [UnicodeSegmentation::graphemes(true)] and [UnicodeWidthStr::width]. *)
Class Segmentation := {
  graphemes : str -> list str;
  str_width : str -> N;
}.

Record VisualLayout := mk_VisualLayout {
  spans : list (N * N);
  cursor_row : N;
  cursor_col : N;
}.

Definition row_count (l : VisualLayout) : N := N.max (N.of_nat (length (spans l))) 1.

Definition row_bounds (l : VisualLayout) (target_row : N) : N * N :=
  match spans l !! N.to_nat target_row with
  | Some b => b
  | None => unwrap_or (list.last (spans l)) (0, 0)
  end.

Definition clamp_to_char_boundary_left (input : str) (cursor : N) : N :=
  boundary_left input (N.min cursor (blen input)).

(** [last_mut], and the assignment through it. *)
Definition update_last {A} (f : A -> A) (l : list A) : list A := alter f (pred (length l)) l.

Section metrics.
Context {cw : CharWidth}.

Definition char_display_width (ch : char) : N := unwrap_or (char_width ch) 0.

(** ** Wrapping the text that is drawn *)
Definition wrap_char (width : N) (st : list str * list N) (ch : char) : list str * list N :=
  let '(lines, line_widths) := st in
  if ch =? CR then (lines, line_widths)
  else if ch =? LF then (lines ++ [[]], line_widths ++ [0])
  else
    let ch_width := char_display_width ch in
    let current_width := unwrap_or (list.last line_widths) 0 in
    let '(lines, line_widths) :=
      if (width <? current_width + ch_width) && (0 <? current_width)
      then (lines ++ [[]], line_widths ++ [0]) else (lines, line_widths) in
    (update_last (fun line => line ++ [ch]) lines,
     update_last (fun line_width => line_width + ch_width) line_widths).

Definition wrap_input_lines (input : str) (width : N) : list str :=
  let width := N.max width 1 in
  match (foldl (wrap_char width) ([[]], [0]) input).1 with
  | [] => [[]]
  | lines => lines
  end.

(** ** The layout *)
Record LayoutState := mk_LayoutState {
  ls_spans : list (N * N);
  row_start : N;
  row : N;
  col : N;
  (** The variables [cursor_row] and [cursor_col] once [cursor_set]. *)
  ls_cursor : option (N * N);
}.

(** [if !cursor_set && idx >= cursor_byte { ... }]. *)
Definition set_cursor (cursor_byte idx : N) (at_ : N * N) (cur : option (N * N)) : option (N * N) :=
  match cur with
  | Some _ => cur
  | None => if cursor_byte <=? idx then Some at_ else None
  end.

Definition layout_char (width cursor_byte : N) (st : LayoutState) (ic : N * char) : LayoutState :=
  let '(idx, ch) := ic in
  let '(mk_LayoutState spans row_start row col cursor) := st in
  if ch =? CR then
    mk_LayoutState spans row_start row col (set_cursor cursor_byte idx (row, col) cursor)
  else if ch =? LF then
    mk_LayoutState (spans ++ [(row_start, idx)]) (idx + len_utf8 ch) (row + 1) 0
      (set_cursor cursor_byte idx (row, col) cursor)
  else
    let ch_width := char_display_width ch in
    let wraps_before := (width <? col + ch_width) && (0 <? col) in
    let cursor :=
      set_cursor cursor_byte idx
        (if (idx =? cursor_byte) && wraps_before then (row + 1, 0) else (row, col)) cursor in
    if wraps_before then
      mk_LayoutState (spans ++ [(row_start, idx)]) idx (row + 1) ch_width cursor
    else mk_LayoutState spans row_start row (col + ch_width) cursor.

Definition visual_layout (input : str) (cursor_byte width : N) : VisualLayout :=
  let width := N.max width 1 in
  let cursor_byte := clamp_to_char_boundary_left input cursor_byte in
  let '(mk_LayoutState spans row_start row col cursor) :=
    foldl (layout_char width cursor_byte) (mk_LayoutState [] 0 0 0 None) (char_indices 0 input) in
  let '(cursor_row, cursor_col) := unwrap_or cursor (row, col) in
  let len := blen input in
  let spans := spans ++ [(N.min row_start len, len)] in
  if width <=? col then
    let '(cursor_row, cursor_col) :=
      if cursor_byte =? len then (cursor_row + 1, 0) else (cursor_row, cursor_col) in
    mk_VisualLayout (spans ++ [(len, len)]) cursor_row cursor_col
  else mk_VisualLayout spans cursor_row cursor_col.

Definition cursor_row_col (input : str) (cursor_byte width : N) : N * N :=
  let layout := visual_layout input cursor_byte width in (cursor_row layout, cursor_col layout).

Definition visual_row_count (input : str) (width : N) : N :=
  row_count (visual_layout input (blen input) width).

Definition visual_row_bounds (input : str) (target_row width : N) : N * N :=
  row_bounds (visual_layout input (blen input) width) target_row.

(** The [for] loop over the characters of a row. *)
Fixpoint byte_for_col (target_col col idx : N) (s : str) : option N :=
  match s with
  | [] => None
  | ch :: r =>
      if target_col <=? col then Some idx
      else
        let next_col := col + char_display_width ch in
        if target_col <? next_col then Some idx
        else byte_for_col target_col next_col (idx + len_utf8 ch) r
  end.

Definition byte_for_row_col_in_span (input : str) (start stop target_col : N) : outcome N :=
  if stop <=? start then mret (N.min start (blen input))
  else
    text ← byte_slice start stop input;
    mret (unwrap_or (byte_for_col target_col 0 start text) stop).

Definition byte_for_row_col (l : VisualLayout) (input : str) (target_row target_col : N) : outcome N :=
  let '(start, stop) := row_bounds l target_row in
  byte_for_row_col_in_span input start stop target_col.

Definition cursor_byte_for_row_col (input : str) (target_row target_col width : N) : outcome N :=
  byte_for_row_col (visual_layout input (blen input) width) input target_row target_col.

Definition visual_window_start (cursor_row visible_rows : N) : N :=
  sat_sub (sat_add usize_max cursor_row 1) (N.max visible_rows 1).

(** ** Truncation *)
Context {seg : Segmentation}.

Fixpoint truncate_graphemes (max_width used : N) (gs : list str) : str :=
  match gs with
  | [] => []
  | g :: r =>
      let g_width := str_width g in
      if (max_width <? used + g_width) && (0 <? used) then []
      else g ++ truncate_graphemes max_width (used + g_width) r
  end.

Definition truncate_to_display_width (text : str) (max_width : N) : str :=
  truncate_graphemes max_width 0 (graphemes text).

Definition display_width (text : str) : N := sum_N (map str_width (graphemes text)).
End metrics.

(** Widths to evaluate examples with: control characters have none, CJK ideographs are two
    columns wide. *)
Definition simple_width : CharWidth := fun c =>
  if c <? 32 then None else if (19968 <=? c) && (c <? 40960) then Some 2 else Some 1.
