(* ===== verification/MetricsTheory.v ===== *)
(** The rows the cursor moves in are the rows that are drawn, and the cursor is where its row
    and column say. *)
From Stdlib Require Import NArith ZArith Lia.
From stdpp Require Import base list strings numbers sets.
From S2P Require Import Prelude Text ByteIndex InputMetrics.
#[local] Open Scope N_scope.

Lemma update_last_snoc {A} (f : A -> A) l x : update_last f (l ++ [x]) = l ++ [f x].
Proof.
  unfold update_last. rewrite length_app. cbn [length]. rewrite Nat.add_1_r. cbn [pred].
  by rewrite <- (Nat.add_0_r (length l)), list.alter_app_r.
Qed.

Lemma clamp_boundary s k : is_char_boundary s (clamp_to_char_boundary_left s k) = true.
Proof.
  unfold clamp_to_char_boundary_left. rewrite boundary_left_floor, floor_split_min.
  pose proof (floor_split_spec k s) as H. destruct (floor_split k s) as [a b].
  destruct H as (-> & _). apply boundary_app.
Qed.

(** Carriage returns are not drawn. *)
Definition drawn (s : str) : str := filter (fun c => c <> CR) s.

Lemma drawn_app a b : drawn (a ++ b) = drawn a ++ drawn b.
Proof. apply list.filter_app. Qed.

Section rows.
Context {cw : CharWidth}.

Definition line_width (s : str) : N := sum_N (map char_display_width (drawn s)).

Lemma line_width_app a b : line_width (a ++ b) = line_width a + line_width b.
Proof. unfold line_width. by rewrite drawn_app, map_app, sum_N_app. Qed.

Lemma drawn_idem s : drawn (drawn s) = drawn s.
Proof.
  unfold drawn. induction s as [|c s IH]; [done|]. rewrite filter_cons.
  destruct (decide (c <> CR)); [rewrite filter_cons, decide_True by done; by rewrite IH | done].
Qed.

(** The text of [input] between two positions is [line], up to carriage returns. *)
Definition row_text (input line : str) (b : N * N) : Prop :=
  exists text, byte_slice b.1 b.2 input = Returns text /\ line = drawn text /\ LF ∉ text.

(** A place: its row is the last that starts at or before it, and its column is the width of
    the row before it. *)
Definition placed (input : str) (spans : list (N * N)) (k : N) (p : N * N) : Prop :=
  exists a b text, spans !! N.to_nat p.1 = Some (a, b) /\ a <= k <= b
    /\ byte_slice a k input = Returns text /\ p.2 = line_width text /\ LF ∉ text
    /\ (forall next, spans !! S (N.to_nat p.1) = Some next -> k < next.1).

(** The cursor, after the part [p] of the input: placed as soon as it is passed. *)
Definition cursor_ok (k : N) (input p : str) (rows : list (N * N)) (cursor : option (N * N)) : Prop :=
  (blen p <= k -> cursor = None)
  /\ (k < blen p -> exists pos, cursor = Some pos /\ placed input rows k pos).

(** The two loops side by side, after the part [p] of the input [p ++ r]: [pre] is in the rows
    that are complete, [cur] in the current one. *)
Definition in_step (k : N) (input p : str) (w : list str * list N) (l : LayoutState) : Prop :=
  exists pre cur done_ widths,
    p = pre ++ cur /\ LF ∉ cur
    /\ w = (done_ ++ [drawn cur], widths ++ [line_width cur])
    /\ Forall2 (row_text input) done_ (ls_spans l)
    /\ row_start l = blen pre /\ row l = N.of_nat (length (ls_spans l)) /\ col l = line_width cur
    /\ cursor_ok k input p (ls_spans l ++ [(row_start l, blen p)]) (ls_cursor l).

(** No row starts at or before [k]. *)
Definition later (k : N) (rows : list (N * N)) : Prop :=
  forall next, rows !! 0%nat = Some next -> k < next.1.

Lemma later_nil k : later k [].
Proof. done. Qed.
Lemma later_one k a b rows : k < a -> later k ((a, b) :: rows).
Proof. by intros Hk next [= <-]. Qed.

Lemma placed_extend input spans a b b' more k pos :
  b <= b' -> later k more -> placed input (spans ++ [(a, b)]) k pos ->
  placed input (spans ++ (a, b') :: more) k pos.
Proof.
  intros Hb Hmore (x & y & text & Hl & Hk & Ht & Hc & Hlf & Hn).
  destruct (decide (N.to_nat pos.1 < length spans)%nat) as [Hlt|Hge].
  - exists x, y, text. rewrite lookup_app_l in Hl by done. rewrite lookup_app_l by done.
    split_and!; try done; try lia. intros next Hnext.
    destruct (decide (S (N.to_nat pos.1) < length spans)%nat) as [Hlt'|Hge'].
    + apply Hn. rewrite lookup_app_l in Hnext by done. by rewrite lookup_app_l.
    + rewrite lookup_app_r in Hnext, Hn by lia.
      replace (S (N.to_nat pos.1) - length spans)%nat with 0%nat in * by lia.
      injection Hnext as <-. by apply (Hn (a, b)).
  - rewrite lookup_app_r in Hl by lia. rewrite list_lookup_singleton in Hl.
    destruct (N.to_nat pos.1 - length spans)%nat eqn:E; [|done]. injection Hl as -> ->.
    exists x, b', text. rewrite lookup_app_r, E by lia. split_and!; try done; try lia.
    intros next Hnext. rewrite lookup_app_r, Nat.sub_succ_l, E in Hnext by lia. by apply Hmore.
Qed.

Lemma placed_here input spans more pre cur r e :
  input = pre ++ cur ++ r -> LF ∉ cur -> blen (pre ++ cur) <= e -> later (blen (pre ++ cur)) more ->
  placed input (spans ++ (blen pre, e) :: more) (blen (pre ++ cur))
    (N.of_nat (length spans), line_width cur).
Proof.
  intros -> Hlf He Hmore. exists (blen pre), e, cur. cbn [fst snd].
  rewrite lookup_app_r, Nat2N.id, Nat.sub_diag by (rewrite Nat2N.id; lia).
  rewrite blen_app in *. split_and!; [done | lia | lia | apply byte_slice_app | done | done |].
  intros next Hnext. rewrite lookup_app_r, Nat.sub_succ_l, Nat.sub_diag in Hnext by lia. by apply Hmore.
Qed.

Lemma cursor_step k input p c r cursor at_ rows rows' :
  input = p ++ c :: r -> is_char_boundary input k = true ->
  cursor_ok k input p rows cursor ->
  (forall pos, k < blen p -> placed input rows k pos -> placed input rows' k pos) ->
  (k = blen p -> placed input rows' k at_) ->
  cursor_ok k input (p ++ [c]) rows' (set_cursor k (blen p) at_ cursor).
Proof.
  intros Hin Hb [Hnone Hsome] Hkeep Hnow. unfold cursor_ok, set_cursor.
  rewrite blen_app. cbn [blen]. pose proof (len_utf8_pos c) as Hc. split.
  - intros Hk. rewrite Hnone by lia. by rewrite (proj2 (N.leb_gt _ _)) by lia.
  - intros Hk. destruct (N.lt_ge_cases k (blen p)) as [Hlt|Hge].
    + destruct (Hsome Hlt) as (pos & -> & Hp). eauto.
    + rewrite Hnone by lia.
      assert (k = blen p) as ->.
      { assert (is_char_boundary (p ++ c :: r) k = true) as Hb' by (by rewrite <- Hin).
        pose proof (floor_boundary _ k _ Hb' (N.le_refl k)) as Hf.
        rewrite floor_split_unique in Hf by lia. cbn in Hf. lia. }
      rewrite N.leb_refl. eauto.
Qed.

Lemma drawn_one c : c <> CR -> drawn [c] = [c].
Proof. intros Hc. unfold drawn. by rewrite filter_cons_True. Qed.
Lemma line_width_one c : c <> CR -> line_width [c] = char_display_width c.
Proof. intros Hc. unfold line_width. rewrite drawn_one by done. cbn. lia. Qed.

(** One character of both loops. *)
Lemma in_step_char width k input p c r w l :
  input = p ++ c :: r -> is_char_boundary input k = true -> in_step k input p w l ->
  in_step k input (p ++ [c]) (wrap_char width w c) (layout_char width k l (blen p, c)).
Proof.
  intros Hin Hb (pre & cur & don & widths & -> & Hlf & -> & Hrows & Hstart & Hrow & Hcol & Hok).
  assert (input = pre ++ cur ++ c :: r) as Hin' by (by rewrite Hin, <- app_assoc).
  assert (row_text input (drawn cur) (blen pre, blen (pre ++ cur))) as Htext.
  { exists cur. rewrite Hin'. cbn [fst snd]. rewrite blen_app. split; [apply byte_slice_app | done]. }
  pose proof (len_utf8_pos c) as Hc.
  assert (blen (pre ++ cur) <= blen ((pre ++ cur) ++ [c])) as Hle by (rewrite (blen_app _ [c]); lia).
  destruct l as [sp rs rw cl cu]; cbn [ls_spans row_start row col ls_cursor] in *. subst rs rw cl.
  unfold wrap_char, layout_char.
  pose proof (fun rows' at_ => cursor_step k input (pre ++ cur) c r cu at_ _ rows' Hin Hb Hok) as Hcur.
  destruct (N.eqb_spec c CR) as [->|Hcr]; [|destruct (N.eqb_spec c LF) as [->|Hclf]].
  - exists pre, (cur ++ [CR]), don, widths. cbn [ls_spans row_start row col ls_cursor].
    rewrite drawn_app, line_width_app. change (drawn [CR]) with (@nil char).
    change (line_width [CR]) with 0. rewrite app_nil_r, N.add_0_r, app_assoc.
    split_and!; try done; [set_solver|]. apply Hcur.
    { intros pos Hk Hp. eapply placed_extend; [exact Hle | apply later_nil | exact Hp]. }
    intros ->. eapply placed_here; [done.. | apply later_nil].
  - exists (pre ++ cur ++ [LF]), [], (don ++ [drawn cur]), (widths ++ [line_width cur]).
    cbn [ls_spans row_start row col ls_cursor].
    rewrite app_nil_r, app_assoc, length_app. cbn [length].
    split_and!; try done; [set_solver| |by rewrite (blen_app _ [LF])|lia|].
    { apply Forall2_app; [done|]. by constructor. }
    apply Hcur; [intros pos Hk Hp | intros ->]; rewrite <- (app_assoc sp).
    + eapply placed_extend; [apply N.le_refl | apply later_one; lia | exact Hp].
    + eapply placed_here; [done | done | done | apply later_one; lia].
  - rewrite list.last_snoc. cbn [unwrap_or].
    destruct ((width <? line_width cur + char_display_width c) && (0 <? line_width cur)) eqn:Hwrap.
    + rewrite !update_last_snoc, andb_true_r. cbn [app].
      exists (pre ++ cur), [c], (don ++ [drawn cur]), (widths ++ [line_width cur]).
      cbn [ls_spans row_start row col ls_cursor].
      rewrite drawn_one, line_width_one, length_app by done. cbn [length].
      split_and!; try done; [set_solver| |lia|].
      { apply Forall2_app; [done|]. by constructor. }
      apply Hcur; [intros pos Hk Hp | intros ->].
      { rewrite <- (app_assoc sp).
        eapply placed_extend; [apply N.le_refl | by apply later_one | exact Hp]. }
      rewrite N.eqb_refl.
      replace (N.of_nat (length sp) + 1)
        with (N.of_nat (length (sp ++ [(blen pre, blen (pre ++ cur))])))
        by (rewrite length_app; cbn; lia).
      rewrite <- (app_nil_r (pre ++ cur)) at 4. change 0 with (line_width []).
      apply (placed_here _ _ _ _ _ (c :: r)); [done | apply not_elem_of_nil | by rewrite app_nil_r | apply later_nil].
    + rewrite !update_last_snoc, andb_false_r.
      exists pre, (cur ++ [c]), don, widths. cbn [ls_spans row_start row col ls_cursor].
      rewrite drawn_app, line_width_app, drawn_one, line_width_one, app_assoc by done.
      split_and!; try done; [set_solver|]. apply Hcur.
      { intros pos Hk Hp. eapply placed_extend; [exact Hle | apply later_nil | exact Hp]. }
      intros ->. eapply placed_here; [done.. | apply later_nil].
Qed.

Lemma in_step_all width k input r : forall p w l,
  input = p ++ r -> is_char_boundary input k = true -> in_step k input p w l ->
  in_step k input input (foldl (wrap_char width) w r)
    (foldl (layout_char width k) l (char_indices (blen p) r)).
Proof.
  induction r as [|c r IH]; intros p w l Hin Hb Hs; cbn [foldl char_indices].
  { by rewrite Hin, app_nil_r in *. }
  replace (blen p + len_utf8 c) with (blen (p ++ [c])) by (rewrite blen_app; cbn; lia).
  apply IH; [by rewrite <- app_assoc | done | by eapply in_step_char].
Qed.

(** What the two functions return: the rows drawn are [don] and the drawn part of [cur]. *)
Lemma layout_inv input cursor width :
  exists pre cur don sp pos,
    let k := clamp_to_char_boundary_left input cursor in
    let full := N.max width 1 <=? line_width cur in
    let sp := sp ++ [(blen pre, blen input)] in
    input = pre ++ cur /\ LF ∉ cur
    /\ wrap_input_lines input width = don ++ [drawn cur]
    /\ Forall2 (row_text input) (don ++ [drawn cur]) sp
    /\ visual_layout input cursor width
      = mk_VisualLayout (sp ++ (if full then [(blen input, blen input)] else [])) pos.1 pos.2
    /\ placed input (sp ++ (if full then [(blen input, blen input)] else [])) k pos.
Proof.
  set (k := clamp_to_char_boundary_left input cursor).
  assert (is_char_boundary input k = true) as Hb by apply clamp_boundary.
  pose proof (in_step_all (N.max width 1) k input input [] ([[]], [0]) (mk_LayoutState [] 0 0 0 None)
    eq_refl Hb) as Hs.
  destruct Hs as (pre & cur & don & widths & Hin & Hlf & Hw & Hrows & Hstart & Hrow & Hcol & Hok).
  { exists [], [], [], []. cbn. split_and!; try done; [apply not_elem_of_nil|].
    split; cbn; [done | lia]. }
  unfold visual_layout, wrap_input_lines. fold k. change (char_indices (blen []) input) with (char_indices 0 input) in *.
  rewrite Hw. destruct (foldl (layout_char _ _) _ _) as [sp rs rw cl cu] eqn:Hfold.
  cbn [ls_spans row_start row col ls_cursor fst] in *. subst rs rw cl.
  assert (N.min (blen pre) (blen input) = blen pre) as -> by (rewrite Hin, blen_app; lia).
  assert (row_text input (drawn cur) (blen pre, blen input)) as Htext.
  { exists cur. rewrite Hin, blen_app. cbn [fst snd]. rewrite <- (app_nil_r cur) at 2. split; [|done].
    apply byte_slice_app. }
  assert (match don ++ [drawn cur] with [] => [[]] | lines => lines end = don ++ [drawn cur]) as ->
    by (by destruct don).
  assert (Forall2 (row_text input) (don ++ [drawn cur]) (sp ++ [(blen pre, blen input)])) as Hrows'.
  { apply Forall2_app; [done|]. by constructor. }
  destruct Hok as [Hnone Hsome]. pose proof (boundary_le _ _ Hb) as Hk.
  destruct (N.lt_ge_cases k (blen input)) as [Hlt|Hge].
  - destruct (Hsome Hlt) as (pos & -> & Hp). cbn [unwrap_or].
    rewrite (proj2 (N.eqb_neq k (blen input))) by lia.
    exists pre, cur, don, sp, pos. cbv zeta. destruct pos as [pr pc].
    split_and!; try done; [destruct (N.max width 1 <=? line_width cur); [done | by rewrite app_nil_r]|].
    rewrite <- app_assoc. cbn [app]. eapply placed_extend; [apply N.le_refl | | exact Hp].
    destruct (_ <=? _); [by apply later_one | apply later_nil].
  - assert (k = blen input) as -> by lia. rewrite Hnone, N.eqb_refl by done. cbn [unwrap_or].
    destruct (N.max width 1 <=? line_width cur) eqn:Hfull.
    + exists pre, cur, don, sp, (N.of_nat (length sp) + 1, 0). cbv zeta. rewrite Hfull.
      split_and!; try done.
      exists (blen input), (blen input), []. cbn [fst snd].
      replace (N.to_nat (N.of_nat (length sp) + 1)) with (length (sp ++ [(blen pre, blen input)]) + 0)%nat
        by (rewrite length_app; cbn; lia).
      rewrite lookup_app_r, Nat.add_comm, Nat.add_sub by lia.
      split_and!; try done; [|apply not_elem_of_nil|].
      { pose proof (byte_slice_app input [] []) as Hsl. cbn [blen] in Hsl.
        by rewrite N.add_0_r, !app_nil_r in Hsl. }
      intros next Hnext%lookup_lt_Some. rewrite !length_app in Hnext. cbn in Hnext. lia.
    + exists pre, cur, don, sp, (N.of_nat (length sp), line_width cur). cbv zeta. rewrite Hfull.
      split_and!; try done; [by rewrite app_nil_r|].
      rewrite <- app_assoc. rewrite Hin at 3. apply (placed_here _ _ _ _ _ []); [by rewrite app_nil_r | done | | apply later_nil].
      by rewrite <- Hin.
Qed.
End rows.

Lemma empty_slice s : byte_slice (blen s) (blen s) s = Returns [].
Proof. apply byte_slice_Returns. exists s, []. by rewrite app_nil_r, N.add_0_r. Qed.

Lemma spans_slices `{!CharWidth} input cursor width i a b :
  spans (visual_layout input cursor width) !! i = Some (a, b) ->
  exists text, byte_slice a b input = Returns text.
Proof.
  destruct (layout_inv input cursor width) as (pre & cur & don & sp & pos & _ & _ & _ & Hrows & -> & _).
  cbv zeta in *. cbn [spans]. intros [Hi|[_ Hi]]%lookup_app_Some.
  - destruct (Forall2_lookup_r _ _ _ _ _ Hrows Hi) as (line & _ & row & Hs & _). by exists row.
  - destruct (_ <=? _); [|done]. apply list_lookup_singleton_Some in Hi as [_ [= <- <-]].
    eexists. apply empty_slice.
Qed.

(** The rows of the layout are the rows that are drawn.  Each row's byte range holds, up to
    carriage returns, the text of the line that [wrap_input_lines] draws there; only when the
    last line is full does the layout have one more, empty row, where the cursor goes. *)
Theorem rows_drawn `{!CharWidth} input cursor width :
  let lines := wrap_input_lines input width in
  let full := N.max width 1 <=? line_width (unwrap_or (list.last lines) []) in
  Forall2 (row_text input) (lines ++ if full then [[]] else [])
    (spans (visual_layout input cursor width)).
Proof.
  destruct (layout_inv input cursor width)
    as (pre & cur & don & sp & pos & Hin & Hlf & Hw & Hrows & Hl & _).
  cbv zeta in *. rewrite Hw, Hl, list.last_snoc. cbn [unwrap_or spans].
  assert (line_width (drawn cur) = line_width cur) as -> by (unfold line_width; by rewrite drawn_idem).
  apply Forall2_app; [done|]. destruct (_ <=? _); [|done]. constructor; [|done].
  exists []. split; [apply empty_slice|]. split; [done | apply not_elem_of_nil].
Qed.

Lemma byte_for_col_at `{!CharWidth} col idx text rest :
  (forall c, c ∈ text -> c <> CR /\ 0 < char_display_width c) ->
  byte_for_col (col + line_width text) col idx (text ++ rest)
  = match rest with [] => None | _ => Some (idx + blen text) end.
Proof.
  revert col idx. induction text as [|c text IH]; intros col idx Hpos; cbn [app byte_for_col blen].
  - change (line_width []) with 0. destruct rest as [|d rest]; [done|]. cbn [byte_for_col].
    rewrite (proj2 (N.leb_le _ _)) by lia. by rewrite N.add_0_r.
  - destruct (Hpos c) as [Hc Hw]; [by left|].
    change (c :: text) with ([c] ++ text). rewrite line_width_app, line_width_one by done.
    rewrite (proj2 (N.leb_gt _ _)), (proj2 (N.ltb_ge _ _)) by lia.
    replace (col + (char_display_width c + line_width text))
      with (col + char_display_width c + line_width text) by lia.
    rewrite IH by (intros d Hd; apply Hpos; by right). destruct rest; [done|]. f_equal. lia.
Qed.

(** The cursor is where its row and column say.  Its row is the last that starts at or
    before it and ends at or after it, its column is the width of the part of the row before
    it; and, when every character of that part is drawn with a width, looking up that row and
    column gives the cursor back. *)
Theorem cursor_placed `{!CharWidth} input cursor width :
  let l := visual_layout input cursor width in
  let k := clamp_to_char_boundary_left input cursor in
  exists a b text,
    spans l !! N.to_nat (cursor_row l) = Some (a, b) /\ a <= k <= b
    /\ (forall next, spans l !! S (N.to_nat (cursor_row l)) = Some next -> k < next.1)
    /\ byte_slice a k input = Returns text /\ cursor_col l = line_width text
    /\ ((forall c, c ∈ text -> c <> CR /\ 0 < char_display_width c) ->
        byte_for_row_col l input (cursor_row l) (cursor_col l) = Returns k).
Proof.
  pose proof (spans_slices input cursor width) as Hrows. cbv zeta in *.
  destruct (layout_inv input cursor width) as (pre & cur & don & sp & pos & _ & _ & _ & _ & Hl & Hp).
  cbv zeta in Hp. rewrite Hl in *. cbn [spans cursor_row cursor_col] in *.
  destruct Hp as (a & b & text & Hrow & Hk & Ht & Hc & _ & Hn).
  exists a, b, text. split_and!; try done; try lia. intros Hpos.
  unfold byte_for_row_col, row_bounds, byte_for_row_col_in_span. cbn [spans]. rewrite Hrow.
  destruct (Hrows _ _ _ Hrow) as [row Hslice]. rewrite Hslice.
  apply byte_slice_Returns in Ht as (p & q & Hin & Hpa & Hpk).
  apply byte_slice_Returns in Hslice as (p' & q' & Hin' & Hpa' & Hpb).
  set (k := clamp_to_char_boundary_left input cursor) in *.
  assert (k <= blen input) as Hlen by (apply boundary_le, clamp_boundary).
  destruct (N.leb_spec b a) as [Hba|Hab].
  { cbn. unfold mret, outcome_ret. f_equal. lia. }
  assert (p = p' /\ text ++ q = row ++ q') as [<- Htq].
  { apply split_eq_blen; [by rewrite <- Hin | lia]. }
  destruct (split_le text q row q' Htq) as (rest & -> & _); [lia|].
  cbn. rewrite Hc. pose proof (byte_for_col_at 0 a text rest Hpos) as Hbc.
  rewrite N.add_0_l in Hbc. rewrite Hbc. rewrite blen_app in Hpb.
  destruct rest as [|d rest]; cbn in Hpb |- *; unfold mret, outcome_ret; f_equal; lia.
Qed.

(** The loop that wraps, after the part [p] of the input. *)
Definition wrapped `{!CharWidth} (width : N) (p : str) (w : list str * list N) : Prop :=
  exists don cur widths,
    w = (don ++ [cur], widths ++ [line_width cur])
    /\ concat (don ++ [cur]) = filter (fun c => c <> CR /\ c <> LF) p
    /\ Forall (fun line => line_width line <= width
                \/ exists c, c ∈ line /\ width < char_display_width c
                             /\ line_width line = char_display_width c) (don ++ [cur]).

Lemma wrapped_char `{!CharWidth} width p w c :
  wrapped width p w -> wrapped width (p ++ [c]) (wrap_char width w c).
Proof.
  intros (don & cur & widths & -> & Hcat & Hfit). unfold wrap_char, wrapped.
  rewrite list.filter_app.
  destruct (N.eqb_spec c CR) as [->|Hcr]; [|destruct (N.eqb_spec c LF) as [->|Hlf]].
  - exists don, cur, widths. rewrite filter_cons_False, app_nil_r by naive_solver. done.
  - exists (don ++ [cur]), [], (widths ++ [line_width cur]).
    rewrite filter_cons_False, app_nil_r, concat_app by naive_solver. cbn [concat].
    rewrite !app_nil_r. split_and!; [done | done |]. apply list.Forall_app. split; [done|].
    constructor; [left; cbn; lia | done].
  - rewrite list.last_snoc. cbn [unwrap_or]. rewrite filter_cons_True by done.
    change (filter _ []) with (@nil char).
    assert (forall w0, w0 = char_display_width c -> w0 <= width \/ exists c', c' ∈ [c]
      /\ width < char_display_width c' /\ w0 = char_display_width c') as Hone.
    { intros w0 ->. destruct (N.le_gt_cases (char_display_width c) width); [by left | right].
      exists c. by rewrite list_elem_of_singleton. }
    destruct ((width <? line_width cur + char_display_width c) && (0 <? line_width cur)) eqn:Hwrap.
    + rewrite !update_last_snoc. cbn [app].
      exists (don ++ [cur]), [c], (widths ++ [line_width cur]).
      rewrite line_width_one, concat_app by done. cbn [concat]. rewrite Hcat.
      split_and!; [done | done |]. apply list.Forall_app. split; [done|]. constructor; [|done].
      apply Hone. by rewrite line_width_one.
    + rewrite !update_last_snoc.
      exists don, (cur ++ [c]), widths. rewrite line_width_app, line_width_one by done.
      rewrite <- Hcat, !concat_app. cbn [concat]. rewrite !app_nil_r, <- app_assoc.
      split_and!; [done | done |].
      apply list.Forall_app in Hfit as [Hdon Hcur]. apply list.Forall_app. split; [done|].
      constructor; [|done]. rewrite line_width_app, line_width_one by done.
      apply andb_false_iff in Hwrap as [Hw%N.ltb_ge|Hz%N.ltb_ge]; [by left|].
      destruct (Hone (line_width cur + char_display_width c)) as [Hle|(c' & Hin & Hlt & He)]; [lia | by left |].
      right. exists c'. split; [|done]. apply elem_of_app. by right.
Qed.

(** Wrapping loses nothing and fits.  The lines drawn are, one after another, the input
    without its line breaks, and no line is wider than the area, unless one character alone
    is and the rest of its line has no width. *)
Theorem wrapped_lines_fit `{!CharWidth} input width :
  let lines := wrap_input_lines input width in
  concat lines = filter (fun c => c <> CR /\ c <> LF) input
  /\ Forall (fun line => line_width line <= N.max width 1
              \/ exists c, c ∈ line /\ N.max width 1 < char_display_width c
                           /\ line_width line = char_display_width c) lines.
Proof.
  assert (forall r p w, wrapped (N.max width 1) p w ->
    wrapped (N.max width 1) (p ++ r) (foldl (wrap_char (N.max width 1)) w r)) as Hall.
  { induction r as [|c r IH]; intros p w Hw; cbn; [by rewrite app_nil_r|].
    change (c :: r) with ([c] ++ r). rewrite app_assoc. by apply IH, wrapped_char. }
  destruct (Hall input [] ([[]], [0])) as (don & cur & widths & Hw & Hcat & Hfit).
  { exists [], [], []. split_and!; [done | done |]. constructor; [left; cbn; lia | done]. }
  cbv zeta. unfold wrap_input_lines. rewrite Hw. cbn [fst].
  assert (match don ++ [cur] with [] => [[]] | lines => lines end = don ++ [cur]) as ->
    by (by destruct don). by split.
Qed.
