(* ===== verification/Editor.v ===== *)
(** The line editor: src/ui/editor/mod.rs.

    A stack is a list with its top last, as the source's vectors.  The length of a buffer
    and of a pasted text together stay below [usize::MAX], so their sum is not wrapped.  A
    method that can panic has an [outcome]. *)
From Stdlib Require Import NArith ZArith Lia.
From stdpp Require Import base list strings numbers.
From S2P Require Import Prelude Text ByteIndex InputMetrics.
#[local] Open Scope N_scope.

Definition MAX_INPUT_BYTES : N := 1048576.

Definition prev_char_boundary_in (buffer : str) (idx : N) : N :=
  let normalized := boundary_left buffer (N.min idx (blen buffer)) in
  if normalized =? 0 then 0 else boundary_left buffer (normalized - 1).

(** ** The file mention at the cursor *)
(** [s.chars().next().is_some_and(char::is_whitespace)]. *)
Definition begins_blank (s : str) : bool :=
  match s with c :: _ => is_whitespace c | [] => false end.

(** [while start > 0 { ... }], at most once per byte. *)
Fixpoint mention_start (fuel : nat) (buffer : str) (start : N) : outcome N :=
  match fuel with
  | O => mret start
  | S fuel =>
      if start =? 0 then mret start
      else
        let prev := prev_char_boundary_in buffer start in
        text ← byte_slice prev start buffer;
        if begins_blank text then mret start else mention_start fuel buffer prev
  end.

(** [while end < buffer.len() { ... }]. *)
Fixpoint mention_end (fuel : nat) (buffer : str) (stop : N) : outcome N :=
  match fuel with
  | O => mret stop
  | S fuel =>
      if blen buffer <=? stop then mret stop
      else
        text ← slice_from stop buffer;
        let next := match text with ch :: _ => stop + len_utf8 ch | [] => blen buffer end in
        text ← byte_slice stop next buffer;
        if begins_blank text then mret stop else mention_end fuel buffer next
  end.

Definition file_mention_range (buffer : str) (cursor : N) : outcome (option (N * N)) :=
  if is_empty buffer then mret None
  else
    let probe := boundary_left buffer (N.min cursor (blen buffer)) in
    at_probe ← (if probe =? blen buffer then mret true else begins_blank <$> slice_from probe buffer);
    probe ← (if at_probe : bool then
               if probe =? 0 then mret None
               else
                 let probe := prev_char_boundary_in buffer probe in
                 text ← slice_from probe buffer;
                 mret (if begins_blank text then None else Some probe)
             else mret (Some probe));
    match probe with
    | None => mret None
    | Some probe =>
        start ← mention_start (N.to_nat probe) buffer probe;
        stop ← mention_end (N.to_nat (blen buffer)) buffer probe;
        token ← byte_slice start stop buffer;
        mret (if starts_with t!"@" token then Some (start, stop) else None)
    end.

(** ** The state *)
Record EditorRollup := mk_EditorRollup {
  snap_buffer : str;
  snap_cursor : N;
}.

Record InputState := mk_InputState {
  buffer : str;
  cursor : N;
  history : list str;
  history_index : option N;
  history_stash : option EditorRollup;
  undo_stack : list EditorRollup;
  redo_stack : list EditorRollup;
}.

Inductive InputAction : Type :=
| NoAction
| Submit (value : str)
| Interrupt
| QuitAction.

Definition editor_new : InputState := mk_InputState [] 0 [] None None [] [].

Definition set_text (b : str) (c : N) (s : InputState) : InputState :=
  mk_InputState b c (history s) (history_index s) (history_stash s) (undo_stack s) (redo_stack s).
Definition set_cursor (c : N) (s : InputState) : InputState := set_text (buffer s) c s.
Definition set_recall (i : option N) (stash : option EditorRollup) (s : InputState) : InputState :=
  mk_InputState (buffer s) (cursor s) (history s) i stash (undo_stack s) (redo_stack s).
Definition set_stacks (u r : list EditorRollup) (s : InputState) : InputState :=
  mk_InputState (buffer s) (cursor s) (history s) (history_index s) (history_stash s) u r.
Definition push_history (value : str) (s : InputState) : InputState :=
  mk_InputState (buffer s) (cursor s) (history s ++ [value]) (history_index s) (history_stash s)
    (undo_stack s) (redo_stack s).

(** [Vec::pop]. *)
Definition pop {A} (l : list A) : option (list A * A) :=
  match reverse l with [] => None | x :: r => Some (reverse r, x) end.

Definition editor_is_empty (s : InputState) : bool := is_empty (buffer s).

Definition clamp_cursor_to_boundary_left (s : InputState) (idx : N) : N :=
  boundary_left (buffer s) (N.min idx (blen (buffer s))).

Definition prev_char_boundary (s : InputState) (idx : N) : N := prev_char_boundary_in (buffer s) idx.

Definition next_char_boundary (s : InputState) (idx : N) : outcome N :=
  let i := clamp_cursor_to_boundary_left s idx in
  if blen (buffer s) <=? i then mret (blen (buffer s))
  else
    text ← slice_from i (buffer s);
    mret (match text with ch :: _ => i + len_utf8 ch | [] => blen (buffer s) end).

Definition rollup (s : InputState) : EditorRollup := mk_EditorRollup (buffer s) (cursor s).

Definition push_undo (s : InputState) : InputState :=
  set_stacks (undo_stack s ++ [rollup s]) [] s.

Definition restore (snap : EditorRollup) (s : InputState) : InputState :=
  let s := set_text (snap_buffer snap) (cursor s) s in
  set_cursor (clamp_cursor_to_boundary_left s (snap_cursor snap)) s.

(** [history_index = None; history_stash = None]. *)
Definition leave_history (s : InputState) : InputState := set_recall None None s.

(** ** Editing *)
Definition insert_str (value : str) (s : InputState) : outcome InputState :=
  let s := leave_history s in
  let cursor := clamp_cursor_to_boundary_left s (cursor s) in
  if MAX_INPUT_BYTES <? blen (buffer s) + blen value then mret s
  else
    let s := push_undo s in
    b ← string_insert cursor value (buffer s);
    mret (set_text b (cursor + blen value) s).

Definition replace_range (start stop : N) (value : str) (s : InputState) : outcome InputState :=
  let start := clamp_cursor_to_boundary_left s (N.min start stop) in
  let stop := clamp_cursor_to_boundary_left s (N.max stop start) in
  let s := push_undo (leave_history s) in
  b ← string_replace_range start stop value (buffer s);
  mret (set_text b (start + blen value) s).

Definition backspace (s : InputState) : outcome InputState :=
  let stop := clamp_cursor_to_boundary_left s (cursor s) in
  if stop =? 0 then mret s
  else
    let s := leave_history s in
    let start := prev_char_boundary s stop in
    let s := push_undo s in
    b ← string_replace_range start stop [] (buffer s);
    mret (set_text b start s).

Definition delete (s : InputState) : outcome InputState :=
  let start := clamp_cursor_to_boundary_left s (cursor s) in
  if blen (buffer s) <=? start then mret s
  else
    let s := leave_history s in
    stop ← next_char_boundary s start;
    let s := push_undo s in
    b ← string_replace_range start stop [] (buffer s);
    mret (set_text b start s).

Definition submit (s : InputState) : option str * InputState :=
  let value := trim_end_char CR (trim_end_char LF (buffer s)) in
  if is_empty value then (None, s)
  else (Some value, set_text [] 0 (push_undo (leave_history (push_history value s)))).

(** ** History *)
(** [buffer = history[index].clone(); cursor = buffer.len()]. *)
Definition recall (index : N) (s : InputState) : outcome InputState :=
  match history s !! N.to_nat index with
  | Some entry => mret (set_text entry (blen entry) (set_recall (Some index) (history_stash s) s))
  | None => Panics
  end.

Definition history_up (s : InputState) : outcome InputState :=
  match history s with
  | [] => mret s
  | _ =>
      let s :=
        match history_index s with
        | None => set_recall (history_index s) (Some (rollup s)) s
        | Some _ => s
        end in
      let next_index :=
        match history_index s with
        | Some idx => if 0 <? idx then idx - 1 else 0
        | None => sat_sub (N.of_nat (length (history s))) 1
        end in
      recall next_index s
  end.

Definition history_down (s : InputState) : outcome InputState :=
  match history_index s with
  | None => mret s
  | Some idx =>
      if N.of_nat (length (history s)) <=? idx + 1 then
        let stash := history_stash s in
        let s := set_recall None None s in
        mret (match stash with Some stash => restore stash s | None => set_text [] 0 s end)
      else recall (idx + 1) s
  end.

(** ** Undo and redo *)
Definition undo (s : InputState) : InputState :=
  match pop (undo_stack s) with
  | Some (rest, previous) => restore previous (set_stacks rest (redo_stack s ++ [rollup s]) s)
  | None => s
  end.

Definition redo (s : InputState) : InputState :=
  match pop (redo_stack s) with
  | Some (rest, next) => restore next (set_stacks (undo_stack s ++ [rollup s]) rest s)
  | None => s
  end.

(** ** Moving between rows *)
Section visual.
Context {cw : CharWidth}.

Definition move_cursor_visual_up (width : N) (s : InputState) : outcome (bool * InputState) :=
  let width := N.max width 1 in
  let layout := visual_layout (buffer s) (cursor s) width in
  if cursor_row layout =? 0 then mret (false, s)
  else
    c ← byte_for_row_col layout (buffer s) (cursor_row layout - 1) (cursor_col layout);
    mret (true, set_cursor c s).

Definition move_cursor_visual_down (width : N) (s : InputState) : outcome (bool * InputState) :=
  let width := N.max width 1 in
  let layout := visual_layout (buffer s) (cursor s) width in
  let last_row := sat_sub (row_count layout) 1 in
  if last_row <=? cursor_row layout then mret (false, s)
  else
    c ← byte_for_row_col layout (buffer s) (cursor_row layout + 1) (cursor_col layout);
    mret (true, set_cursor c s).

Definition move_cursor_visual_home (width : N) (s : InputState) : bool * InputState :=
  let width := N.max width 1 in
  let '(row, _) := cursor_row_col (buffer s) (cursor s) width in
  let '(start, _) := visual_row_bounds (buffer s) row width in
  if cursor s =? start then (false, s) else (true, set_cursor start s).

Definition move_cursor_visual_end (width : N) (s : InputState) : bool * InputState :=
  let width := N.max width 1 in
  let '(row, _) := cursor_row_col (buffer s) (cursor s) width in
  let '(_, stop) := visual_row_bounds (buffer s) row width in
  if cursor s =? stop then (false, s) else (true, set_cursor stop s).
End visual.

(** ** Keys

    The keys the editor names; [OtherKey] is any other of crossterm's key codes, and a stroke
    keeps the two modifiers that are looked at. *)
Inductive KeyCode : Type :=
| KChar (c : char) | KEnter | KBackspace | KDelete | KLeft | KRight | KHome | KEnd | KUp | KDown
| KEsc | OtherKey.

Record KeyStroke := mk_KeyStroke {
  code : KeyCode;
  control : bool;
  shift : bool;
}.

Inductive Event : Type := Paste (text : str) | Key (key : KeyStroke) | OtherEvent.

Definition silent (m : outcome InputState) : outcome (InputAction * InputState) :=
  s ← m; mret (NoAction, s).

Definition apply_key (key : KeyStroke) (s : InputState) : outcome (InputAction * InputState) :=
  let typed (c : char) :=
    match c, control key with
    | 100 (* d *), true =>
        if is_empty (buffer s) then mret (QuitAction, s) else silent (delete s)
    | 99 (* c *), true => mret (Interrupt, s)
    | 106 (* j *), true => silent (insert_str [LF] s)
    | 122 (* z *), true => silent (mret (undo s))
    | 121 (* y *), true => silent (mret (redo s))
    | _, _ => silent (insert_str [c] s)
    end in
  match code key with
  | KChar c => typed c
  | KEnter =>
      if shift key then silent (insert_str [LF] s)
      else match submit s with
           | (Some value, s) => mret (Submit value, s)
           | (None, s) => mret (NoAction, s)
           end
  | KBackspace => silent (backspace s)
  | KDelete => silent (delete s)
  | KLeft => silent (mret (set_cursor (prev_char_boundary s (cursor s)) s))
  | KRight => silent (c ← next_char_boundary s (cursor s); mret (set_cursor c s))
  | KHome => silent (mret (set_cursor 0 s))
  | KEnd => silent (mret (set_cursor (blen (buffer s)) s))
  | KUp => silent (history_up s)
  | KDown => silent (history_down s)
  | KEsc => if is_empty (buffer s) then mret (Submit t!"esc", s) else mret (NoAction, s)
  | OtherKey => mret (NoAction, s)
  end.

Definition apply_input (occurrence : Event) (s : InputState) : outcome (InputAction * InputState) :=
  match occurrence with
  | Paste text => silent (insert_str text s)
  | Key key => apply_key key s
  | OtherEvent => mret (NoAction, s)
  end.
