(* ===== verification/EditorTheory.v ===== *)
(** The editor never panics and stays well-formed, and its editing keys are those of a zipper:
    the text before the cursor and the text after it. *)
From Stdlib Require Import NArith ZArith Lia.
From stdpp Require Import base list strings numbers sets.
From S2P Require Import Prelude Text ByteIndex InputMetrics MetricsTheory Editor.
#[local] Open Scope N_scope.

(** ** Boundaries *)
Lemma clamp_left_boundary s k : is_char_boundary (buffer s) (clamp_cursor_to_boundary_left s k) = true.
Proof. apply clamp_boundary. Qed.

Lemma boundary_left_min s k : boundary_left s (N.min k (blen s)) = blen (floor_split k s).1.
Proof. by rewrite boundary_left_floor, floor_split_min. Qed.

Lemma boundary_left_id s k : is_char_boundary s k = true -> boundary_left s (N.min k (blen s)) = k.
Proof.
  intros (a & b & -> & <-)%boundary_spec. by rewrite boundary_left_min, floor_split_app.
Qed.

Lemma prev_boundary_app a c b : prev_char_boundary_in (a ++ c :: b) (blen (a ++ [c])) = blen a.
Proof.
  unfold prev_char_boundary_in. rewrite boundary_left_id.
  2: { apply boundary_spec. exists (a ++ [c]), b. by rewrite <- app_assoc. }
  pose proof (len_utf8_pos c). rewrite blen_app. cbn [blen].
  rewrite (proj2 (N.eqb_neq _ _)) by lia.
  rewrite boundary_left_floor, floor_split_pred by lia. done.
Qed.

Lemma prev_boundary_zero s : prev_char_boundary_in s 0 = 0.
Proof. unfold prev_char_boundary_in. by rewrite boundary_left_id by apply boundary_zero. Qed.

Lemma prev_boundary_floor s k :
  prev_char_boundary_in s k = blen (removelast (floor_split k s).1).
Proof.
  unfold prev_char_boundary_in. rewrite boundary_left_min.
  pose proof (floor_split_spec k s) as H. destruct (floor_split k s) as [a b].
  destruct H as (-> & _). cbn [fst]. destruct a as [|c a] using rev_ind; [done|].
  rewrite removelast_last, blen_app. cbn [blen]. pose proof (len_utf8_pos c).
  rewrite (proj2 (N.eqb_neq _ _)) by lia.
  rewrite <- app_assoc, boundary_left_floor. cbn [app]. by rewrite floor_split_pred by lia.
Qed.

(** ** The zipper *)
Definition zipper : Type := str * str.
Definition zipper_of (s : InputState) : zipper := floor_split (cursor s) (buffer s).

Definition zinsert (v : str) (z : zipper) : zipper :=
  if MAX_INPUT_BYTES <? blen (z.1 ++ z.2) + blen v then z else (z.1 ++ v, z.2).
Definition zbackspace (z : zipper) : zipper := (removelast z.1, z.2).
Definition zdelete (z : zipper) : zipper := (z.1, tail z.2).
Definition zleft (z : zipper) : zipper :=
  match list.last z.1 with Some c => (removelast z.1, c :: z.2) | None => z end.
Definition zright (z : zipper) : zipper :=
  match z.2 with c :: r => (z.1 ++ [c], r) | [] => z end.

(** The keys that edit or move, and only that. *)
Definition zkey (key : KeyStroke) (z : zipper) : option zipper :=
  match code key with
  | KChar c =>
      if control key then
        if c =? 100 then if is_empty (z.1 ++ z.2) then None else Some (zdelete z)
        else if c =? 106 then Some (zinsert [LF] z)
        else if (c =? 99) || (c =? 122) || (c =? 121) then None
        else Some (zinsert [c] z)
      else Some (zinsert [c] z)
  | KEnter => if shift key then Some (zinsert [LF] z) else None
  | KBackspace => Some (zbackspace z)
  | KDelete => Some (zdelete z)
  | KLeft => Some (zleft z)
  | KRight => Some (zright z)
  | KHome => Some ([], z.1 ++ z.2)
  | KEnd => Some (z.1 ++ z.2, [])
  | _ => None
  end.

Definition zevent (e : Event) (z : zipper) : option zipper :=
  match e with Paste text => Some (zinsert text z) | Key key => zkey key z | OtherEvent => Some z end.

Fixpoint zevents (es : list Event) (z : zipper) : option zipper :=
  match es with [] => Some z | e :: r => z ← zevent e z; zevents r z end.

Fixpoint run_events (es : list Event) (s : InputState) : outcome (list InputAction * InputState) :=
  match es with
  | [] => mret ([], s)
  | e :: r =>
      '(a, s) ← apply_input e s;
      '(l, s) ← run_events r s;
      mret (a :: l, s)
  end.

Lemma zipper_split s a b : zipper_of s = (a, b) -> buffer s = a ++ b /\ clamp_cursor_to_boundary_left s (cursor s) = blen a.
Proof.
  intros Hz. pose proof (floor_split_spec (cursor s) (buffer s)) as H.
  unfold clamp_cursor_to_boundary_left. rewrite boundary_left_min. unfold zipper_of in Hz. rewrite Hz in *.
  by destruct H as (-> & _).
Qed.

Lemma zipper_text a b s : zipper_of (set_text (a ++ b) (blen a) s) = (a, b).
Proof. apply floor_split_app. Qed.

Lemma insert_zipper v s :
  exists s', insert_str v s = Returns s' /\ zipper_of s' = zinsert v (zipper_of s).
Proof.
  destruct (zipper_of s) as [a b] eqn:Hz. destruct (zipper_split _ _ _ Hz) as [Hb Hc].
  unfold insert_str, zinsert. change (clamp_cursor_to_boundary_left (leave_history s) (cursor (leave_history s)))
    with (clamp_cursor_to_boundary_left s (cursor s)). change (buffer (leave_history s)) with (buffer s).
  rewrite Hc, Hb. cbn [fst snd].
  destruct (MAX_INPUT_BYTES <? blen (a ++ b) + blen v); [by eexists|].
  change (buffer (push_undo (leave_history s))) with (buffer s). rewrite Hb, string_insert_app.
  eexists. split; [reflexivity|]. rewrite app_assoc, <- blen_app. apply zipper_text.
Qed.

Lemma backspace_zipper s :
  exists s', backspace s = Returns s' /\ zipper_of s' = zbackspace (zipper_of s).
Proof.
  destruct (zipper_of s) as [a b] eqn:Hz. destruct (zipper_split _ _ _ Hz) as [Hb Hc].
  unfold backspace, zbackspace. rewrite Hc. cbn [fst snd].
  destruct a as [|c a] using rev_ind; [by exists s|].
  pose proof (len_utf8_pos c). rewrite (proj2 (N.eqb_neq _ _)) by (rewrite blen_app; cbn; lia).
  unfold prev_char_boundary. change (buffer (leave_history s)) with (buffer s).
  change (buffer (push_undo (leave_history s))) with (buffer s).
  rewrite removelast_last. rewrite Hb, <- app_assoc. cbn [app].
  rewrite prev_boundary_app, blen_app. change (a ++ c :: b) with (a ++ [c] ++ b).
  rewrite string_replace_app. eexists. split; [reflexivity|]. apply zipper_text.
Qed.

Lemma next_boundary_zipper s a b :
  zipper_of s = (a, b) ->
  next_char_boundary s (cursor s)
  = Returns (match b with [] => blen (buffer s) | c :: _ => blen a + len_utf8 c end).
Proof.
  intros Hz. destruct (zipper_split _ _ _ Hz) as [Hb Hc].
  unfold next_char_boundary. rewrite Hc, Hb, slice_from_app.
  destruct b as [|c b]; rewrite blen_app; cbn [blen].
  - by rewrite (proj2 (N.leb_le _ _)) by lia.
  - pose proof (len_utf8_pos c). by rewrite (proj2 (N.leb_gt _ _)) by lia.
Qed.

Lemma delete_zipper s :
  exists s', delete s = Returns s' /\ zipper_of s' = zdelete (zipper_of s).
Proof.
  destruct (zipper_of s) as [a b] eqn:Hz. destruct (zipper_split _ _ _ Hz) as [Hb Hc].
  unfold delete, zdelete. rewrite Hc, Hb. cbn [fst snd]. destruct b as [|c b].
  - rewrite (proj2 (N.leb_le _ _)) by (rewrite app_nil_r; lia). by exists s.
  - pose proof (len_utf8_pos c).
    rewrite (proj2 (N.leb_gt _ _)) by (rewrite blen_app; cbn [blen]; lia).
    assert (zipper_of (set_cursor (blen a) (leave_history s)) = (a, c :: b)) as Hz'.
    { unfold set_cursor. change (buffer (leave_history s)) with (buffer s). rewrite Hb. apply zipper_text. }
    pose proof (next_boundary_zipper _ _ _ Hz') as Hn.
    change (next_char_boundary (set_cursor (blen a) (leave_history s)) _)
      with (next_char_boundary (leave_history s) (blen a)) in Hn.
    rewrite Hn. cbn [mbind outcome_bind].
    change (buffer (push_undo (leave_history s))) with (buffer s). rewrite Hb.
    change (a ++ c :: b) with (a ++ [c] ++ b).
    replace (blen a + len_utf8 c) with (blen a + blen [c]) by (cbn; lia).
    rewrite string_replace_app. eexists. split; [reflexivity|]. apply zipper_text.
Qed.

Lemma move_zipper s a b a' b' :
  zipper_of s = (a, b) -> a' ++ b' = a ++ b -> zipper_of (set_cursor (blen a') s) = (a', b').
Proof.
  intros [Hb _]%zipper_split He. unfold set_cursor. rewrite Hb, <- He. apply zipper_text.
Qed.

Lemma left_zipper s :
  zipper_of (set_cursor (prev_char_boundary s (cursor s)) s) = zleft (zipper_of s).
Proof.
  destruct (zipper_of s) as [a b] eqn:Hz. unfold prev_char_boundary. rewrite prev_boundary_floor.
  fold (zipper_of s). rewrite Hz. unfold zleft. cbn [fst snd].
  destruct a as [|c a] using rev_ind; [by apply (move_zipper s [] b)|].
  rewrite list.last_snoc, removelast_last. apply (move_zipper s (a ++ [c]) b); [done|].
  by rewrite <- app_assoc.
Qed.

Lemma right_zipper s :
  exists c, next_char_boundary s (cursor s) = Returns c
    /\ zipper_of (set_cursor c s) = zright (zipper_of s).
Proof.
  destruct (zipper_of s) as [a b] eqn:Hz. rewrite (next_boundary_zipper _ _ _ Hz).
  eexists. split; [reflexivity|]. unfold zright. cbn [fst snd]. destruct b as [|c b].
  - destruct (zipper_split _ _ _ Hz) as [Hb _]. rewrite Hb, app_nil_r in *.
    by apply (move_zipper s a []).
  - replace (blen a + len_utf8 c) with (blen (a ++ [c])) by (rewrite blen_app; cbn; lia).
    apply (move_zipper s a (c :: b)); [done|]. by rewrite <- app_assoc.
Qed.

(** What [apply_key] does on a character, arm by arm. *)
Lemma apply_char key c s :
  code key = KChar c ->
  apply_key key s
  = if control key then
      if c =? 100 then if is_empty (buffer s) then mret (QuitAction, s) else silent (delete s)
      else if c =? 99 then mret (Interrupt, s)
      else if c =? 106 then silent (insert_str [LF] s)
      else if c =? 122 then silent (mret (undo s))
      else if c =? 121 then silent (mret (redo s))
      else silent (insert_str [c] s)
    else silent (insert_str [c] s).
Proof.
  intros Hk. unfold apply_key. rewrite Hk. destruct (control key).
  - repeat match goal with |- context [c =? ?n] => destruct (N.eqb_spec c n) as [->|]; [done|] end.
    repeat (destruct c as [|c]; try done; destruct c as [c|c|]; try done).
    all: repeat (try done; destruct c as [c|c|]; try done).
  - repeat (try done; first [destruct c as [|c]; [done|] | destruct c as [c|c|]]); done.
Qed.

Lemma silent_zipper m z :
  (exists s', m = Returns s' /\ zipper_of s' = z) ->
  exists s', silent m = Returns (NoAction, s') /\ zipper_of s' = z.
Proof. intros (s' & -> & Hz). by exists s'. Qed.

Lemma key_zipper key s z :
  zkey key (zipper_of s) = Some z ->
  exists s', apply_key key s = Returns (NoAction, s') /\ zipper_of s' = z.
Proof.
  unfold zkey. destruct (code key) eqn:Hk; try done.
  { rewrite (apply_char _ _ _ Hk).
    assert ((zipper_of s).1 ++ (zipper_of s).2 = buffer s) as ->.
    { destruct (zipper_of s) as [a b] eqn:Hz. by destruct (zipper_split _ _ _ Hz) as [-> _]. }
    destruct (control key).
    - repeat match goal with |- context [c =? ?n] => destruct (N.eqb_spec c n) as [?|?]; cbn [orb] end;
        try done; subst; try discriminate; intros Heq; try (destruct (is_empty (buffer s)); [done|]);
        injection Heq as <-; apply silent_zipper; auto using delete_zipper, insert_zipper.
    - intros [= <-]. apply silent_zipper, insert_zipper. }
  all: unfold apply_key; rewrite Hk.
  - destruct (shift key); [|done]. intros [= <-]. apply silent_zipper, insert_zipper.
  - intros [= <-]. apply silent_zipper, backspace_zipper.
  - intros [= <-]. apply silent_zipper, delete_zipper.
  - intros [= <-]. eexists. split; [reflexivity|]. apply left_zipper.
  - intros [= <-]. destruct (right_zipper s) as (c & -> & Hz). by eexists.
  - intros [= <-]. eexists. split; [reflexivity|]. destruct (zipper_of s) as [a b] eqn:Hz.
    by apply (move_zipper s a b []).
  - intros [= <-]. eexists. split; [reflexivity|]. destruct (zipper_of s) as [a b] eqn:Hz.
    destruct (zipper_split _ _ _ Hz) as [Hb _]. cbn [fst snd].
    rewrite Hb. apply (move_zipper s a b (a ++ b) []); [done|]. by rewrite app_nil_r.
Qed.

(** C35: the editor is a zipper.  Whatever its state, even with a cursor inside a character, any
    sequence of editing keys and pastes does on the text before and after the cursor what it
    does on a zipper: typing (refused as a whole when the text would be too long), deleting
    to either side, moving by a character or to an end.  No key reports an action. *)
Theorem editor_refines_zipper es s z :
  zevents es (zipper_of s) = Some z ->
  exists s', run_events es s = Returns (replicate (length es) NoAction, s') /\ zipper_of s' = z.
Proof.
  revert s. induction es as [|e es IH]; intros s; cbn [zevents run_events length replicate].
  { intros [= <-]. by exists s. }
  intros (z1 & He & Hes)%bind_Some.
  assert (exists s1, apply_input e s = Returns (NoAction, s1) /\ zipper_of s1 = z1) as (s1 & -> & <-).
  { destruct e as [text|key|]; cbn [zevent apply_input] in *.
    - injection He as <-. apply silent_zipper, insert_zipper.
    - by apply key_zipper.
    - injection He as <-. by exists s. }
  destruct (IH s1 Hes) as (s' & Hr & Hz). exists s'. cbn. by rewrite Hr.
Qed.

(** Typing, moving and deleting around an accented character. *)
Lemma editor_refines_zipper_witness :
  let keys := [Paste [97; 233; 98]; Key (mk_KeyStroke KLeft false false);
               Key (mk_KeyStroke KBackspace false false); Key (mk_KeyStroke (KChar 99) false false)] in
  exists s', run_events keys editor_new = Returns (replicate 4 NoAction, s')
    /\ zipper_of s' = ([97; 99], [98]).
Proof.
  cbv zeta.
  apply (editor_refines_zipper
    [Paste [97; 233; 98]; Key (mk_KeyStroke KLeft false false);
     Key (mk_KeyStroke KBackspace false false); Key (mk_KeyStroke (KChar 99) false false)]
    editor_new ([97; 99], [98])).
  reflexivity.
Defined.

(** ** Well-formed states *)
Definition snap_ok (r : EditorRollup) : Prop := is_char_boundary (snap_buffer r) (snap_cursor r) = true.

Record editor_ok (s : InputState) : Prop := {
  ok_cursor : is_char_boundary (buffer s) (cursor s) = true;
  ok_index : forall i, history_index s = Some i -> i < N.of_nat (length (history s));
  ok_stash : match history_index s with
             | None => history_stash s = None
             | Some _ => exists r, history_stash s = Some r /\ snap_ok r
             end;
  ok_undo : Forall snap_ok (undo_stack s);
  ok_redo : Forall snap_ok (redo_stack s);
}.

Inductive EditorOp : Type :=
| OpEvent (e : Event)
| OpReplace (start stop : N) (value : str)
| OpVisualUp (width : N)
| OpVisualDown (width : N)
| OpVisualHome (width : N)
| OpVisualEnd (width : N).

Section ops.
Context {cw : CharWidth}.

Definition run_op (o : EditorOp) (s : InputState) : outcome InputState :=
  match o with
  | OpEvent e => snd <$> apply_input e s
  | OpReplace start stop value => replace_range start stop value s
  | OpVisualUp width => snd <$> move_cursor_visual_up width s
  | OpVisualDown width => snd <$> move_cursor_visual_down width s
  | OpVisualHome width => mret (move_cursor_visual_home width s).2
  | OpVisualEnd width => mret (move_cursor_visual_end width s).2
  end.

Fixpoint run_ops (os : list EditorOp) (s : InputState) : outcome InputState :=
  match os with [] => mret s | o :: r => s ← run_op o s; run_ops r s end.
End ops.

Lemma editor_new_ok : editor_ok editor_new.
Proof. by split. Qed.

Lemma ok_text s b c : editor_ok s -> is_char_boundary b c = true -> editor_ok (set_text b c s).
Proof. by intros [] Hc; split. Qed.
Lemma ok_leave s : editor_ok s -> editor_ok (leave_history s).
Proof. by intros []; split. Qed.
Lemma ok_rollup s : editor_ok s -> snap_ok (rollup s).
Proof. by intros []. Qed.
Lemma ok_push s : editor_ok s -> editor_ok (push_undo s).
Proof.
  intros Hs. pose proof (ok_rollup s Hs). destruct Hs. split; try done.
  apply list.Forall_app. split; [done | by constructor].
Qed.

Lemma pop_Some {A} (l : list A) rest x : pop l = Some (rest, x) <-> l = rest ++ [x].
Proof.
  unfold pop. split.
  - destruct (reverse l) as [|y r] eqn:E; [done|]. intros [= <- ->].
    apply (f_equal reverse) in E. by rewrite reverse_involutive, reverse_cons in E.
  - intros ->. by rewrite reverse_snoc, reverse_involutive.
Qed.

Lemma ok_restore snap s : editor_ok s -> editor_ok (restore snap s).
Proof.
  intros Hs. set (k := clamp_cursor_to_boundary_left (set_text (snap_buffer snap) (cursor s) s) (snap_cursor snap)).
  change (editor_ok (set_text (snap_buffer snap) k s)). apply ok_text; [done|].
  apply (clamp_left_boundary (set_text (snap_buffer snap) (cursor s) s)).
Qed.

Lemma ok_insert v s s' : editor_ok s -> insert_str v s = Returns s' -> editor_ok s'.
Proof.
  intros Hs. unfold insert_str. destruct (MAX_INPUT_BYTES <? _).
  { intros [= <-]. by apply ok_leave. }
  unfold string_insert. set (k := clamp_cursor_to_boundary_left _ _).
  change (buffer (push_undo (leave_history s))) with (buffer s).
  destruct (take_bytes k (buffer s)) as [a|] eqn:Ha; cbn; [|done].
  destruct (drop_bytes k (buffer s)) as [b|]; cbn; [|done]. intros [= <-].
  apply ok_text; [by apply ok_push, ok_leave|].
  apply take_bytes_Some in Ha as (_ & _ & <-). rewrite app_assoc, <- blen_app. apply boundary_app.
Qed.

(** A range of the buffer is replaced after it has been recorded. *)
Lemma ok_replaced start stop v s b :
  editor_ok s -> string_replace_range start stop v (buffer s) = Returns b ->
  editor_ok (set_text b (start + blen v) (push_undo (leave_history s))).
Proof.
  intros Hs Hr. apply ok_text; [by apply ok_push, ok_leave|].
  unfold string_replace_range in Hr. destruct (start <=? stop); [|done].
  destruct (take_bytes start (buffer s)) as [a|] eqn:Ha; cbn in Hr; [|done].
  destruct (drop_bytes stop (buffer s)) as [r|]; cbn in Hr; [|done]. injection Hr as <-.
  apply take_bytes_Some in Ha as (_ & _ & <-). rewrite app_assoc, <- blen_app. apply boundary_app.
Qed.

Lemma ok_backspace s s' : editor_ok s -> backspace s = Returns s' -> editor_ok s'.
Proof.
  intros Hs. unfold backspace. destruct (_ =? 0); [by intros [= <-]|].
  set (k := prev_char_boundary _ _). change (buffer (push_undo (leave_history s))) with (buffer s).
  destruct (string_replace_range k _ [] (buffer s)) as [b|] eqn:Hr; cbn; [|done]. intros [= <-].
  rewrite <- (N.add_0_r k). by apply (ok_replaced _ _ [] _ _ Hs Hr).
Qed.

Lemma ok_delete s s' : editor_ok s -> delete s = Returns s' -> editor_ok s'.
Proof.
  intros Hs. unfold delete. destruct (_ <=? _); [by intros [= <-]|].
  destruct (next_char_boundary _ _) as [stop|]; cbn [mbind outcome_bind]; [|done].
  set (k := clamp_cursor_to_boundary_left s (cursor s)). change (buffer (push_undo (leave_history s))) with (buffer s).
  destruct (string_replace_range k stop [] (buffer s)) as [b|] eqn:Hr; cbn; [|done]. intros [= <-].
  rewrite <- (N.add_0_r k). by apply (ok_replaced _ _ [] _ _ Hs Hr).
Qed.

Lemma replace_range_ok start stop v s :
  editor_ok s -> exists s', replace_range start stop v s = Returns s' /\ editor_ok s'.
Proof.
  intros Hs. unfold replace_range.
  set (a := clamp_cursor_to_boundary_left s (N.min start stop)). set (b := clamp_cursor_to_boundary_left s (N.max stop a)).
  change (buffer (push_undo (leave_history s))) with (buffer s).
  assert (exists t, string_replace_range a b v (buffer s) = Returns t) as [t Ht].
  { pose proof (clamp_left_boundary s (N.min start stop)) as Ha. fold a in Ha.
    pose proof (clamp_left_boundary s (N.max stop a)) as Hb. fold b in Hb.
    assert (a <= b) as Hab.
    { unfold b, clamp_cursor_to_boundary_left. rewrite boundary_left_min. apply floor_boundary; [done | lia]. }
    unfold string_replace_range. rewrite (proj2 (N.leb_le _ _)) by done.
    apply boundary_spec in Ha as (p & q & Hpq & Hpa). apply boundary_spec in Hb as (p' & q' & Hpq' & Hpb).
    rewrite (proj2 (take_bytes_Some a _ p)), (proj2 (drop_bytes_Some b _ q')) by eauto. cbn. by eexists. }
  rewrite Ht. eexists. split; [reflexivity|]. by eapply ok_replaced.
Qed.

Lemma recall_ok i s stash :
  editor_ok s -> i < N.of_nat (length (history s)) -> (exists r, stash = Some r /\ snap_ok r) ->
  exists s', recall i (set_recall (history_index s) stash s) = Returns s' /\ editor_ok s'.
Proof.
  intros [] Hi Hstash. unfold recall. cbn [history set_recall].
  destruct (lookup_lt_is_Some_2 (history s) (N.to_nat i)) as [entry ->]; [lia|].
  eexists. split; [reflexivity|]. split; cbn; try done.
  - apply boundary_len.
  - by intros _ [= <-].
Qed.

Lemma history_up_ok s : editor_ok s -> exists s', history_up s = Returns s' /\ editor_ok s'.
Proof.
  intros Hs. unfold history_up. destruct (history s) as [|h hs] eqn:Hh; [by eexists|].
  assert (0 < N.of_nat (length (history s))) as Hlen by (rewrite Hh; cbn; lia).
  pose proof (ok_rollup s Hs) as Hr. pose proof Hs as [].
  destruct (history_index s) as [i|] eqn:Hi.
  - rewrite Hi. specialize (ok_index0 i eq_refl).
    destruct (recall_ok (if 0 <? i then i - 1 else 0) s (history_stash s)) as (s' & Hrec & Hok);
      [done | destruct (N.ltb_spec 0 i); lia | done |].
    exists s'. split; [|done]. rewrite <- Hrec. by destruct s; cbn in *; subst.
  - cbn [history_index history set_recall]. destruct (recall_ok (sat_sub (N.of_nat (length (history s))) 1) s (Some (rollup s)))
      as (s' & Hrec & Hok); [done | unfold sat_sub; lia | by eexists |].
    exists s'. rewrite Hi in Hrec. by rewrite Hrec.
Qed.

Lemma history_down_ok s : editor_ok s -> exists s', history_down s = Returns s' /\ editor_ok s'.
Proof.
  intros Hs. unfold history_down. pose proof Hs as [].
  destruct (history_index s) as [i|] eqn:Hi; [|by eexists].
  destruct (N.leb_spec (N.of_nat (length (history s))) (i + 1)) as [Hle|Hlt].
  - eexists. split; [reflexivity|]. assert (editor_ok (set_recall None None s)) by (by apply (ok_leave s)).
    destruct (history_stash s); [by apply ok_restore | by apply ok_text].
  - destruct (recall_ok (i + 1) s (history_stash s)) as (s' & Hrec & Hok); [done | lia | done |].
    exists s'. split; [|done]. rewrite <- Hrec. by destruct s; cbn in *; subst.
Qed.

Lemma ok_undo_step s : editor_ok s -> editor_ok (undo s).
Proof.
  intros Hs. unfold undo. destruct (pop (undo_stack s)) as [[rest x]|] eqn:E; [|done].
  apply pop_Some in E. pose proof (ok_rollup s Hs). apply ok_restore.
  destruct Hs as [? ? ? Hu Hr]. rewrite E, list.Forall_app in Hu. split; try done; [naive_solver|].
  apply list.Forall_app. split; [done | by constructor].
Qed.

Lemma ok_redo_step s : editor_ok s -> editor_ok (redo s).
Proof.
  intros Hs. unfold redo. destruct (pop (redo_stack s)) as [[rest x]|] eqn:E; [|done].
  apply pop_Some in E. pose proof (ok_rollup s Hs). apply ok_restore.
  destruct Hs as [? ? ? Hu Hr]. rewrite E, list.Forall_app in Hr. split; try done; [|naive_solver].
  apply list.Forall_app. split; [done | by constructor].
Qed.
