(* ===== verification/EditorSessions.v ===== *)
(** Whole sessions with the editor: no operation panics, undo and redo are inverse to each
    other, and so are the two directions through the history. *)
From Stdlib Require Import NArith ZArith Lia.
From stdpp Require Import base list strings numbers sets.
From S2P Require Import Prelude Text ByteIndex InputMetrics MetricsTheory Editor EditorTheory.
#[local] Open Scope N_scope.

(** ** Keys *)
Definition fine (m : outcome InputState) : Prop := exists s', m = Returns s' /\ editor_ok s'.

Lemma insert_fine v s : editor_ok s -> fine (insert_str v s).
Proof. intros Hs. destruct (insert_zipper v s) as (s' & Hi & _). exists s'. eauto using ok_insert. Qed.
Lemma backspace_fine s : editor_ok s -> fine (backspace s).
Proof. intros Hs. destruct (backspace_zipper s) as (s' & Hi & _). exists s'. eauto using ok_backspace. Qed.
Lemma delete_fine s : editor_ok s -> fine (delete s).
Proof. intros Hs. destruct (delete_zipper s) as (s' & Hi & _). exists s'. eauto using ok_delete. Qed.
Lemma ret_fine s : editor_ok s -> fine (mret s).
Proof. by exists s. Qed.

Lemma submit_ok s : editor_ok s -> editor_ok (submit s).2.
Proof.
  intros Hs. unfold submit. destruct (is_empty _); [done|]. apply ok_text; [|done].
  by apply ok_push; destruct Hs; split.
Qed.

Lemma silent_fine m : fine m -> exists a s', silent m = Returns (a, s') /\ editor_ok s'.
Proof. intros (s' & -> & Hs). by eexists _, s'. Qed.

Lemma apply_key_ok key s : editor_ok s -> exists a s', apply_key key s = Returns (a, s') /\ editor_ok s'.
Proof.
  intros Hs. assert (forall a, exists a0 s', (mret (a, s) : outcome (InputAction * InputState))
    = Returns (a0, s') /\ editor_ok s') as Hret by (intros a; by exists a, s).
  destruct (code key) eqn:Hk.
  { rewrite (apply_char _ _ _ Hk).
    repeat match goal with |- context [if ?b then _ else _] => destruct b end; try done;
      apply silent_fine;
      eauto using insert_fine, delete_fine, ret_fine, ok_undo_step, ok_redo_step. }
  all: unfold apply_key; rewrite Hk; try done.
  - destruct (shift key); [by apply silent_fine, insert_fine|].
    pose proof (submit_ok s Hs). destruct (submit s) as [[v|] s1]; by eexists _, s1.
  - by apply silent_fine, backspace_fine.
  - by apply silent_fine, delete_fine.
  - apply silent_fine, ret_fine, ok_text; [done|]. unfold prev_char_boundary. rewrite prev_boundary_floor.
    fold (zipper_of s). destruct (zipper_of s) as [a b] eqn:Hz.
    destruct (zipper_split _ _ _ Hz) as [-> _]. cbn [fst].
    destruct a as [|c a _] using rev_ind; [apply boundary_zero|].
    rewrite removelast_last, <- app_assoc. apply boundary_app.
  - destruct (right_zipper s) as (c & Hc & Hz). rewrite Hc. apply silent_fine, ret_fine, ok_text; [done|].
    destruct (zipper_of s) as [a b] eqn:Hz0. rewrite (next_boundary_zipper _ _ _ Hz0) in Hc.
    injection Hc as <-. destruct (zipper_split _ _ _ Hz0) as [-> _]. destruct b as [|d b].
    + apply boundary_len.
    + apply boundary_spec. exists (a ++ [d]), b. rewrite <- app_assoc, blen_app. cbn. split; [done | lia].
  - apply silent_fine, ret_fine, ok_text; [done | apply boundary_zero].
  - apply silent_fine, ret_fine, ok_text; [done | apply boundary_len].
  - by apply silent_fine, history_up_ok.
  - by apply silent_fine, history_down_ok.
  - by destruct (is_empty _).
Qed.

Lemma apply_input_ok e s : editor_ok s -> exists a s', apply_input e s = Returns (a, s') /\ editor_ok s'.
Proof.
  intros Hs. destruct e as [text|key|]; cbn; [|by apply apply_key_ok | by exists NoAction, s].
  by apply silent_fine, insert_fine.
Qed.

(** ** Moves between rows *)
Section visual.
Context {cw : CharWidth}.

Lemma span_boundaries input cursor width a b :
  (a, b) ∈ spans (visual_layout input cursor width) ->
  a <= b /\ is_char_boundary input a = true /\ is_char_boundary input b = true.
Proof.
  intros [i Hi]%list_elem_of_lookup.
  destruct (spans_slices _ _ _ _ _ _ Hi) as [row Hs]. apply byte_slice_Returns in Hs as (p & q & Hin & Hp & Hb). cbn [fst snd] in *. subst a b.
  split; [lia|]. split; apply boundary_spec; [by exists p, (row ++ q)|].
  exists (p ++ row), q. by rewrite <- app_assoc, blen_app.
Qed.

Lemma row_bounds_ok input cursor width r a b :
  row_bounds (visual_layout input cursor width) r = (a, b) ->
  a <= b /\ is_char_boundary input a = true /\ is_char_boundary input b = true.
Proof.
  unfold row_bounds. destruct (spans _ !! N.to_nat r) as [x|] eqn:E.
  - intros ->. by eapply span_boundaries, list_elem_of_lookup_2.
  - destruct (list.last _) as [x|] eqn:El; cbn.
    + intros ->. apply last_Some in El as [l Hl]. eapply (span_boundaries input cursor width).
      rewrite Hl. apply elem_of_app. right. by left.
    + intros [= <- <-]. by rewrite boundary_zero.
Qed.

Lemma byte_for_col_ok target col idx s j :
  byte_for_col target col idx s = Some j -> exists p q, s = p ++ q /\ j = idx + blen p.
Proof.
  revert col idx. induction s as [|c s IH]; intros col idx; cbn; [done|].
  destruct (_ <=? _); [intros [= <-]; exists [], (c :: s); cbn; split; [done | lia]|].
  destruct (_ <? _); [intros [= <-]; exists [], (c :: s); cbn; split; [done | lia]|].
  intros (p & q & -> & ->)%IH. exists (c :: p), q. cbn. split; [done | lia].
Qed.

Lemma byte_for_row_col_ok input cursor width r col :
  exists j, byte_for_row_col (visual_layout input cursor width) input r col = Returns j
    /\ is_char_boundary input j = true.
Proof.
  unfold byte_for_row_col. destruct (row_bounds _ r) as [a b] eqn:E.
  destruct (row_bounds_ok _ _ _ _ _ _ E) as (Hab & Ha & Hb). unfold byte_for_row_col_in_span.
  pose proof (boundary_le _ _ Ha). destruct (N.leb_spec b a).
  { exists a. by rewrite N.min_l by done. }
  apply boundary_spec in Ha as (p & q & Hpq & <-). apply boundary_spec in Hb as (p' & q' & Hpq' & <-).
  destruct (split_le p q p' q') as (m & -> & ->); [by rewrite <- Hpq | done |].
  rewrite blen_app. assert (byte_slice (blen p) (blen p + blen m) input = Returns m) as ->
    by (rewrite Hpq; apply byte_slice_app). cbn [mbind outcome_bind].
  destruct (byte_for_col _ _ _ _) as [j|] eqn:Ej; cbn [unwrap_or].
  - apply byte_for_col_ok in Ej as (x & y & -> & ->). eexists. split; [reflexivity|].
    apply boundary_spec. exists (p ++ x), (y ++ q'). rewrite Hpq, blen_app, <- !app_assoc. done.
  - eexists. split; [reflexivity|]. rewrite <- blen_app. rewrite Hpq'. apply boundary_app.
Qed.

Lemma run_op_ok o s : editor_ok s -> exists s', run_op o s = Returns s' /\ editor_ok s'.
Proof.
  intros Hs. assert (forall c, is_char_boundary (buffer s) c = true -> editor_ok (set_cursor c s)) as Hmove.
  { intros c Hc. by apply ok_text. }
  destruct o as [e|start stop v|width|width|width|width]; cbn [run_op].
  - destruct (apply_input_ok e s Hs) as (a & s' & -> & Hs'). by exists s'.
  - by apply replace_range_ok.
  - unfold move_cursor_visual_up. destruct (_ =? 0); [by exists s|].
    edestruct byte_for_row_col_ok as (j & -> & Hj). eexists. split; [reflexivity|]. by apply Hmove.
  - unfold move_cursor_visual_down. destruct (_ <=? _); [by exists s|].
    edestruct byte_for_row_col_ok as (j & -> & Hj). eexists. split; [reflexivity|]. by apply Hmove.
  - eexists. split; [reflexivity|]. unfold move_cursor_visual_home, cursor_row_col, visual_row_bounds.
    destruct (row_bounds _ _) as [a b] eqn:E. apply row_bounds_ok in E as (_ & Ha & _).
    destruct (_ =? _); [done | by apply Hmove].
  - eexists. split; [reflexivity|]. unfold move_cursor_visual_end, cursor_row_col, visual_row_bounds.
    destruct (row_bounds _ _) as [a b] eqn:E. apply row_bounds_ok in E as (_ & _ & Hb).
    destruct (_ =? _); [done | by apply Hmove].
Qed.

(** C36: the editor never panics.  Whatever keys, pastes, replacements of any range and moves
    between rows of any width it is given, every method returns, and leaves a well-formed
    state: the cursor and those of all recorded states are on character boundaries, an
    entry of the history is shown exactly while its index is one of the history's and the
    text it replaced is kept. *)
Theorem editor_well_formed os :
  exists s, run_ops os editor_new = Returns s /\ editor_ok s.
Proof.
  generalize editor_new_ok. generalize editor_new.
  induction os as [|o os IH]; intros s Hs; cbn [run_ops]; [by exists s|].
  destruct (run_op_ok o s Hs) as (s1 & -> & Hs1). by apply IH.
Qed.
End visual.


(** ** Undo and redo *)
Lemma restore_ok r s : snap_ok r -> restore r s = set_text (snap_buffer r) (snap_cursor r) s.
Proof.
  intros Hr. unfold restore, set_cursor, clamp_cursor_to_boundary_left. cbn [buffer set_text cursor].
  by rewrite boundary_left_id.
Qed.

Lemma undo_last s u r :
  undo_stack s = u ++ [r] -> snap_ok r ->
  undo s = set_text (snap_buffer r) (snap_cursor r) (set_stacks u (redo_stack s ++ [rollup s]) s).
Proof.
  intros Hu Hr. unfold undo. rewrite (proj2 (pop_Some _ u r)) by done. by apply restore_ok.
Qed.

Lemma redo_undo s u r :
  editor_ok s -> undo_stack s = u ++ [r] -> redo (undo s) = s.
Proof.
  intros Hs Hu. pose proof (ok_undo s Hs) as Ho. rewrite Hu, list.Forall_app, Forall_singleton in Ho.
  rewrite (undo_last s u r) by naive_solver. unfold redo. cbn [redo_stack set_text set_stacks].
  rewrite (proj2 (pop_Some _ (redo_stack s) (rollup s))) by done.
  rewrite restore_ok by by apply ok_rollup. destruct s, r. cbn in *. by subst.
Qed.

Lemma undo_many s rest r more :
  editor_ok s -> undo_stack s = rest ++ r :: more ->
  let n := S (length more) in
  rollup (Nat.iter n undo s) = r /\ undo_stack (Nat.iter n undo s) = rest
  /\ Nat.iter n redo (Nat.iter n undo s) = s.
Proof.
  revert s. induction more as [|x more IH] using rev_ind; intros s Hs Hu; cbv zeta.
  - change (Nat.iter (S (length [])) redo (Nat.iter (S (length [])) undo s)) with (redo (undo s)).
    change (Nat.iter (S (length [])) undo s) with (undo s). rewrite (redo_undo s rest r) by done.
    pose proof (ok_undo s Hs) as Ho. rewrite Hu, list.Forall_app, Forall_singleton in Ho.
    rewrite (undo_last s rest r) by naive_solver. split_and!; [by destruct r | done | done].
  - rewrite length_app, Nat.add_1_r. set (n := S (length more)) in *.
    change (rest ++ r :: more ++ [x]) with (rest ++ (r :: more) ++ [x]) in Hu. rewrite app_assoc in Hu.
    pose proof (ok_undo s Hs) as Ho. rewrite Hu, list.Forall_app, Forall_singleton in Ho.
    rewrite !(Nat.iter_succ_r n undo).
    destruct (IH (undo s)) as (H1 & H2 & H3); [by apply ok_undo_step| |].
    { rewrite (undo_last s (rest ++ r :: more) x) by naive_solver. done. }
    split_and!; [done | done |]. cbn [Nat.iter]. change (Nat.iter (S n) redo) with (fun s => redo (Nat.iter n redo s)).
    cbv beta. rewrite H3. by eapply redo_undo.
Qed.

(** An event that is not one of undo, redo and the two directions of the history. *)
Definition forward (e : Event) : bool :=
  match e with
  | Key key =>
      match code key with
      | KUp | KDown => false
      | KChar c => negb (control key && ((c =? 122) || (c =? 121)))
      | _ => true
      end
  | _ => true
  end.

(** Nothing of the text is changed, or the state was recorded first. *)
Definition recorded (s s' : InputState) : Prop :=
  (buffer s' = buffer s /\ undo_stack s' = undo_stack s)
  \/ (undo_stack s' = undo_stack s ++ [rollup s] /\ redo_stack s' = []).

Lemma recorded_insert v s s' : insert_str v s = Returns s' -> recorded s s'.
Proof.
  unfold insert_str. destruct (MAX_INPUT_BYTES <? _); [intros [= <-]; by left|].
  destruct (string_insert _ _ _); cbn; [|done]. intros [= <-]. by right.
Qed.
Lemma recorded_backspace s s' : backspace s = Returns s' -> recorded s s'.
Proof.
  unfold backspace. destruct (_ =? 0); [intros [= <-]; by left|].
  destruct (string_replace_range _ _ _ _); cbn; [|done]. intros [= <-]. by right.
Qed.
Lemma recorded_delete s s' : delete s = Returns s' -> recorded s s'.
Proof.
  unfold delete. destruct (_ <=? _); [intros [= <-]; by left|].
  destruct (next_char_boundary _ _); cbn; [|done].
  destruct (string_replace_range _ _ _ _); cbn; [|done]. intros [= <-]. by right.
Qed.

Lemma silent_inv m a s' : silent m = Returns (a, s') -> m = Returns s'.
Proof. unfold silent. destruct m; cbn; [|done]. by intros [= _ <-]. Qed.

Lemma forward_recorded e s a s' : forward e = true -> apply_input e s = Returns (a, s') -> recorded s s'.
Proof.
  assert (forall c, recorded s (set_cursor c s)) as Hmove by (by left).
  assert (recorded s s) as Hsame by (by left).
  destruct e as [text|key|]; cbn; [intros _ H%silent_inv; by eapply recorded_insert| |by intros _ [= _ <-]].
  destruct (code key) eqn:Hk.
  { rewrite (apply_char _ _ _ Hk). intros Hf.
    destruct (control key); cbn [andb] in Hf; [|intros H%silent_inv; by eapply recorded_insert].
    repeat match goal with |- context [?x =? ?n] => destruct (N.eqb_spec x n) as [?|?] end;
      subst; try done.
    - destruct (is_empty _); [by intros [= _ <-]|]. intros H%silent_inv. by eapply recorded_delete.
    - by intros [= _ <-].
    - intros H%silent_inv. by eapply recorded_insert.
    - intros H%silent_inv. by eapply recorded_insert. }
  all: unfold apply_key; rewrite Hk; intros Hf; try done; try (intros H%silent_inv).
  - destruct (shift key); [intros H%silent_inv; by eapply recorded_insert|].
    unfold submit. destruct (is_empty _); intros [= _ <-]; [done | by right].
  - by eapply recorded_backspace.
  - by eapply recorded_delete.
  - by injection H as <-.
  - destruct (next_char_boundary _ _); [|done]. by injection H as <-.
  - by injection H as <-.
  - by injection H as <-.
  - by destruct (is_empty _); intros [= _ <-].
  - by intros [= _ <-].
Qed.

Lemma run_recorded es s l s' :
  editor_ok s -> forallb forward es = true -> run_events es s = Returns (l, s') ->
  editor_ok s' /\ exists snaps,
    undo_stack s' = undo_stack s ++ snaps /\ (length snaps <= length es)%nat
    /\ match snaps with [] => buffer s' = buffer s | r :: _ => snap_buffer r = buffer s end.
Proof.
  revert s l. induction es as [|e es IH]; intros s l Hs; cbn [forallb run_events].
  { intros _ [= _ <-]. split; [done|]. exists []. rewrite app_nil_r. split_and!; [done | cbn; lia | done]. }
  intros [Hf Hes]%andb_prop. destruct (apply_input e s) as [[a s1]|] eqn:He; [|done].
  destruct (apply_input_ok e s Hs) as (a' & s1' & He' & Hs1). rewrite He in He'. injection He' as <- <-.
  cbn. destruct (run_events es s1) as [[l1 s2]|] eqn:Hr; [|done]. intros [= _ <-].
  destruct (IH s1 l1 Hs1 Hes Hr) as (Hok & snaps & Hu & Hl & Hb). split; [done|].
  destruct (forward_recorded e s a s1 Hf He) as [[Hb1 Hu1]|[Hu1 _]].
  - exists snaps. rewrite Hu, Hu1. split_and!; [done | lia |]. destruct snaps; by rewrite <- Hb1.
  - exists (rollup s :: snaps). rewrite Hu, Hu1, <- app_assoc. split_and!; [done | cbn; lia | done].
Qed.

(** Undoing goes all the way back, and redoing all the way forth.  After any keys and pastes
    other than undo, redo and the arrows through the history (submitting included), some
    number of undos brings back the text and the undo stack of the beginning, and as many
    redos bring back exactly the state there was. *)
Theorem undo_redo_session es s l s' :
  editor_ok s -> forallb forward es = true -> run_events es s = Returns (l, s') ->
  exists n, (n <= length es)%nat
    /\ buffer (Nat.iter n undo s') = buffer s /\ undo_stack (Nat.iter n undo s') = undo_stack s
    /\ Nat.iter n redo (Nat.iter n undo s') = s'.
Proof.
  intros Hs Hf Hr. destruct (run_recorded es s l s' Hs Hf Hr) as (Hs' & snaps & Hu & Hl & Hb).
  destruct snaps as [|r more].
  - exists 0%nat. rewrite app_nil_r in Hu. split_and!; [lia | done..].
  - exists (S (length more)). destruct (undo_many s' _ r more Hs' Hu) as (H1 & H2 & H3).
    split_and!; [done | | done | done]. by rewrite <- Hb, <- H1.
Qed.

(** Two pastes, a deletion and a submission are taken back. *)
Lemma undo_redo_session_witness :
  let es := [Paste t!"ab"; Paste t!"c"; Key (mk_KeyStroke KBackspace false false);
             Key (mk_KeyStroke KEnter false false)] in
  exists l s', run_events es editor_new = Returns (l, s') /\ history s' = [t!"ab"]
  /\ exists n, (n <= 4)%nat /\ buffer (Nat.iter n undo s') = []
      /\ undo_stack (Nat.iter n undo s') = [] /\ Nat.iter n redo (Nat.iter n undo s') = s'.
Proof.
  cbv zeta. do 2 eexists. split; [vm_compute; reflexivity|]. split; [reflexivity|].
  eapply (undo_redo_session
    [Paste t!"ab"; Paste t!"c"; Key (mk_KeyStroke KBackspace false false);
     Key (mk_KeyStroke KEnter false false)] editor_new).
  - exact editor_new_ok.
  - reflexivity.
  - vm_compute. reflexivity.
Defined.

(** ** The history *)
Fixpoint repeat_op (n : nat) (f : InputState -> outcome InputState) (s : InputState)
    : outcome InputState :=
  match n with O => mret s | S n => s ← f s; repeat_op n f s end.

(** The state [j] steps up, from a state outside the history. *)
Definition recalled (s : InputState) (j : nat) : InputState :=
  match j with
  | O => s
  | S _ =>
      let i := (length (history s) - j)%nat in
      let entry := unwrap_or (history s !! i) [] in
      set_text entry (blen entry) (set_recall (Some (N.of_nat i)) (Some (rollup s)) s)
  end.

Lemma up_recalled s j :
  history_index s = None -> (j < length (history s))%nat ->
  history_up (recalled s j) = Returns (recalled s (S j)).
Proof.
  intros Hi Hj. unfold history_up.
  assert (history (recalled s j) = history s) as Hh by (by destruct j).
  rewrite Hh. destruct (history s) as [|h hs] eqn:E; [cbn in Hj; lia|]. rewrite <- E in *.
  unfold recall. destruct j as [|j]; cbn [recalled].
  - rewrite Hi. cbn [history_index history set_recall history_stash]. unfold sat_sub.
    replace (N.to_nat (N.of_nat (length (history s)) - 1)) with (length (history s) - 1)%nat by lia.
    destruct (lookup_lt_is_Some_2 (history s) (length (history s) - 1)) as [x Hx]; [lia|].
    rewrite Hx. cbn. unfold mret, outcome_ret. f_equal. unfold set_text, set_recall. cbn. f_equal. f_equal. lia.
  - cbn [history_index history set_recall set_text history_stash].
    destruct (N.ltb_spec 0 (N.of_nat (length (history s) - S j))); [|lia].
    replace (N.to_nat (N.of_nat (length (history s) - S j) - 1))
      with (length (history s) - S (S j))%nat by lia.
    destruct (lookup_lt_is_Some_2 (history s) (length (history s) - S (S j))) as [x Hx]; [lia|].
    rewrite Hx. cbn. unfold mret, outcome_ret. f_equal. unfold set_text, set_recall. cbn. f_equal. f_equal. lia.
Qed.

Lemma down_recalled s j :
  editor_ok s -> history_index s = None -> (j < length (history s))%nat ->
  history_down (recalled s (S j)) = Returns (recalled s j).
Proof.
  intros Hs Hi Hj. unfold history_down, recalled at 1 2 3 4 5.
  cbn [history_index history history_stash set_text set_recall].
  destruct j as [|j].
  - rewrite (proj2 (N.leb_le _ _)) by lia. rewrite restore_ok by by apply ok_rollup.
    pose proof (ok_stash s Hs) as Hst. rewrite Hi in Hst. by destruct s; cbn in *; subst.
  - rewrite (proj2 (N.leb_gt _ _)) by lia. unfold recall. cbn [recalled history set_text set_recall history_stash].
    replace (N.to_nat (N.of_nat (length (history s) - S (S j)) + 1)) with (length (history s) - S j)%nat by lia.
    destruct (lookup_lt_is_Some_2 (history s) (length (history s) - S j)) as [x Hx]; [lia|].
    rewrite Hx. cbn. unfold mret, outcome_ret. f_equal.
    unfold set_text, set_recall. cbn. f_equal. f_equal. lia.
Qed.

(** Going up through the history and down again.  From outside the history, going up [n]
    times shows the [n]-th last entry with the cursor at its end, and going down as often
    brings back the draft, the cursor in it, and all of the state. *)
Theorem history_up_down n s entry :
  editor_ok s -> history_index s = None ->
  (0 < n <= length (history s))%nat -> history s !! (length (history s) - n)%nat = Some entry ->
  exists up, repeat_op n history_up s = Returns up
    /\ buffer up = entry /\ cursor up = blen entry /\ history_index up <> None
    /\ repeat_op n history_down up = Returns s.
Proof.
  intros Hs Hi Hn He. exists (recalled s n).
  assert (forall m j, (m + j <= length (history s))%nat ->
    repeat_op m history_up (recalled s j) = Returns (recalled s (m + j))) as Hup.
  { induction m as [|m IH]; intros j Hj; [done|]. cbn [repeat_op]. rewrite up_recalled by (done || lia).
    cbn [mbind outcome_bind]. rewrite IH by lia. f_equal. f_equal. lia. }
  assert (forall m, (m <= length (history s))%nat -> repeat_op m history_down (recalled s m) = Returns s) as Hdown.
  { induction m as [|m IH]; intros Hm; [done|]. cbn [repeat_op]. rewrite down_recalled by (done || lia).
    apply IH. lia. }
  split_and!.
  - rewrite <- (Nat.add_0_r n) at 2. by apply (Hup n 0%nat); lia.
  - destruct n; [lia|]. cbn [recalled buffer set_text]. by rewrite He.
  - destruct n; [lia|]. cbn [recalled cursor set_text]. by rewrite He.
  - destruct n; [lia|]. done.
  - apply Hdown. lia.
Qed.

Lemma history_up_down_witness :
  let s := mk_InputState t!"draft" 2 [t!"one"; t!"two"] None None [] [] in
  exists up, repeat_op 2 history_up s = Returns up /\ buffer up = t!"one" /\ cursor up = 3
    /\ history_index up <> None /\ repeat_op 2 history_down up = Returns s.
Proof.
  cbv zeta.
  apply (history_up_down 2 (mk_InputState t!"draft" 2 [t!"one"; t!"two"] None None [] []) t!"one").
  - by split.
  - reflexivity.
  - cbn. lia.
  - reflexivity.
Defined.

(** ** The word at the cursor, which a file mention is looked for in, and two moves between rows
    that do not arrive where they should *)
Fixpoint take_while {A} (p : A -> bool) (l : list A) : list A :=
  match l with [] => [] | x :: r => if p x then x :: take_while p r else [] end.

Lemma take_drop_while {A} (p : A -> bool) l : take_while p l ++ drop_while p l = l.
Proof. induction l as [|x l IH]; cbn; [done|]. destruct (p x); cbn; [by rewrite IH | done]. Qed.

Definition dark (c : char) : bool := negb (is_whitespace c).

(** The characters that are not blank on either side of a position. *)
Definition word_after (s : str) : str := take_while dark s.
Definition word_before (s : str) : str := reverse (take_while dark (reverse s)).

Lemma word_before_snoc s c :
  word_before (s ++ [c]) = if dark c then word_before s ++ [c] else [].
Proof.
  unfold word_before. rewrite reverse_snoc. cbn [take_while].
  destruct (dark c); [by rewrite reverse_cons | done].
Qed.

Lemma word_before_suffix s : exists p, s = p ++ word_before s.
Proof.
  exists (reverse (drop_while dark (reverse s))). unfold word_before.
  by rewrite <- reverse_app, take_drop_while, reverse_involutive.
Qed.

Lemma blen_word_before s : blen (word_before s) <= blen s.
Proof. destruct (word_before_suffix s) as [p Hp]. rewrite Hp at 2. rewrite blen_app. lia. Qed.

Lemma mention_start_spec fuel a b :
  (length a <= fuel)%nat ->
  mention_start fuel (a ++ b) (blen a) = Returns (blen a - blen (word_before a)).
Proof.
  revert a b. induction fuel as [|fuel IH]; intros a b Hf.
  { destruct a; [done | cbn in Hf; lia]. }
  cbn [mention_start]. destruct a as [|c a _] using rev_ind; [done|].
  pose proof (len_utf8_pos c). rewrite length_app in Hf. cbn in Hf.
  rewrite (proj2 (N.eqb_neq _ _)) by (rewrite blen_app; cbn; lia).
  rewrite <- app_assoc. cbn [app]. rewrite prev_boundary_app.
  rewrite (blen_app a [c]). change (a ++ c :: b) with (a ++ [c] ++ b).
  rewrite byte_slice_app. cbn [mbind outcome_bind begins_blank].
  rewrite word_before_snoc. unfold dark. destruct (is_whitespace c); cbn [negb].
  { change (blen []) with 0. by rewrite N.sub_0_r. }
  cbn [app]. rewrite IH by lia. rewrite blen_app. cbn [blen].
  pose proof (blen_word_before a). f_equal. lia.
Qed.

Lemma mention_end_spec fuel a b :
  (length b <= fuel)%nat ->
  mention_end fuel (a ++ b) (blen a) = Returns (blen a + blen (word_after b)).
Proof.
  revert a b. induction fuel as [|fuel IH]; intros a b Hf.
  { destruct b; [cbn; by rewrite N.add_0_r | cbn in Hf; lia]. }
  cbn [mention_end]. rewrite blen_app. destruct b as [|c b]; cbn [blen length] in *.
  { rewrite (proj2 (N.leb_le _ _)) by lia. by rewrite N.add_0_r. }
  pose proof (len_utf8_pos c). rewrite (proj2 (N.leb_gt _ _)) by lia.
  rewrite slice_from_app. cbn [mbind outcome_bind].
  replace (blen a + len_utf8 c) with (blen a + blen [c]) by (cbn; lia).
  change (a ++ c :: b) with (a ++ [c] ++ b). rewrite byte_slice_app.
  cbn [mbind outcome_bind begins_blank]. unfold word_after. cbn [take_while]. unfold dark at 1.
  destruct (is_whitespace c); cbn [negb]; [by rewrite N.add_0_r|].
  rewrite app_assoc, <- blen_app, IH by lia. rewrite blen_app. cbn [blen]. f_equal. unfold word_after. lia.
Qed.

Lemma dark_len s : (length s <= N.to_nat (blen s))%nat.
Proof. pose proof (blen_length s). lia. Qed.

(** Both ends, and the word between them. *)
Lemma mention_around a b :
  (start ← mention_start (N.to_nat (blen a)) (a ++ b) (blen a);
   stop ← mention_end (N.to_nat (blen (a ++ b))) (a ++ b) (blen a);
   token ← byte_slice start stop (a ++ b);
   mret (if starts_with t!"@" token then Some (start, stop) else None))
  = let word := word_before a ++ word_after b in
    Returns (if starts_with t!"@" word
             then Some (blen a - blen (word_before a), blen a + blen (word_after b)) else None).
Proof.
  rewrite mention_start_spec by apply dark_len. cbn [mbind outcome_bind].
  rewrite mention_end_spec by (pose proof (dark_len b); rewrite blen_app; lia).
  cbn [mbind outcome_bind]. destruct (word_before_suffix a) as [p Hp].
  assert (b = word_after b ++ drop_while dark b) as Hb by (symmetry; apply take_drop_while).
  assert (byte_slice (blen a - blen (word_before a)) (blen a + blen (word_after b)) (a ++ b)
    = Returns (word_before a ++ word_after b)) as ->; [|done].
  assert (blen a = blen p + blen (word_before a)) as Ha by (rewrite <- blen_app; by rewrite <- Hp).
  apply byte_slice_Returns. exists p, (drop_while dark b).
  rewrite <- app_assoc, app_assoc, <- Hp, <- Hb, blen_app. split; [done|]. lia.
Qed.

(** A file mention is the word at the cursor.  Wherever the cursor is, even inside a
    character, what is found is the range of the whole run of characters that are not blank
    around it, or just before it, if it begins with an at sign, and nothing otherwise; the
    search ends and slices only at character boundaries. *)
Theorem mention_is_word buffer cursor :
  let '(a, b) := floor_split cursor buffer in
  let word := word_before a ++ word_after b in
  file_mention_range buffer cursor
  = Returns (if starts_with t!"@" word
             then Some (blen a - blen (word_before a), blen a + blen (word_after b)) else None).
Proof.
  pose proof (floor_split_spec cursor buffer) as H. pose proof (boundary_left_min buffer cursor) as Hc.
  destruct (floor_split cursor buffer) as [a b]. destruct H as (-> & _). cbn [fst] in Hc.
  unfold file_mention_range. destruct (is_empty (a ++ b)) eqn:Hempty.
  { by destruct a, b. }
  rewrite Hc. rewrite slice_from_app, (blen_app a b).
  assert (forall c b', b = c :: b' -> is_whitespace c = false -> begins_blank b = false) as Hdark
    by (by intros c b' -> ?).
  assert ((if blen a =? blen a + blen b then mret true else begins_blank <$> Returns b)
    = (Returns (match b with c :: _ => is_whitespace c | [] => true end) : outcome bool)) as ->.
  { destruct b as [|c b]; cbn [blen]; [by rewrite N.add_0_r, N.eqb_refl|].
    pose proof (len_utf8_pos c). by rewrite (proj2 (N.eqb_neq _ _)) by lia. }
  cbn [mbind outcome_bind].
  destruct (match b with c :: _ => is_whitespace c | [] => true end) eqn:Hblank;
    [|rewrite <- blen_app; apply (mention_around a b)].
  assert (word_after b = []) as Hw by (destruct b as [|c b]; [done|]; cbn; unfold dark; by rewrite Hblank).
  rewrite Hw, app_nil_r. cbn [blen]. destruct a as [|c a _] using rev_ind; [done|].
  pose proof (len_utf8_pos c). rewrite (proj2 (N.eqb_neq _ _)) by (rewrite blen_app; cbn; lia).
  rewrite <- app_assoc. cbn [app]. rewrite prev_boundary_app, slice_from_app.
  cbn [mbind outcome_bind begins_blank]. rewrite word_before_snoc. unfold dark.
  destruct (is_whitespace c) eqn:Hc0; cbn [negb]; [done|].
  cbn [mret outcome_ret mbind outcome_bind].
  pose proof (mention_around a (c :: b)) as Hm. rewrite (blen_app a (c :: b)) in Hm.
  rewrite (blen_app a [c]). replace (blen a + blen [c] + blen b) with (blen a + blen (c :: b)) by (cbn; lia).
  etransitivity; [exact Hm|]. cbv zeta.
  assert (word_after (c :: b) = [c]) as ->.
  { unfold word_after in *. cbn [take_while]. unfold dark at 1. by rewrite Hc0, Hw. }
  rewrite blen_app. cbn [blen]. pose proof (blen_word_before a).
  destruct (starts_with _ _); [|done]. do 3 f_equal; lia.
Qed.

(** The end of a row that was wrapped is the start of the next: the End key leaves the row. *)
Example end_leaves_row :
  let s := mk_InputState t!"abcdefgh" 1 [] None None [] [] in
  let s' := (@move_cursor_visual_end simple_width 4 s).2 in
  cursor_row (@visual_layout simple_width (buffer s) (cursor s) 4) = 0
  /\ cursor s' = 4 /\ cursor_row (@visual_layout simple_width (buffer s') (cursor s') 4) = 1.
Proof. repeat split. Qed.

(** Likewise going up to a row that ends before the column, where the row below is as it was. *)
Example up_stays_in_row :
  let s := mk_InputState (t!"abcd" ++ [19990] ++ t!"xyz") 9 [] None None [] [] in
  exists s', @move_cursor_visual_up simple_width 5 s = Returns (true, s')
    /\ cursor_row (@visual_layout simple_width (buffer s) (cursor s) 5) = 1
    /\ cursor_row (@visual_layout simple_width (buffer s') (cursor s') 5) = 1.
Proof. eexists. split; [vm_compute; reflexivity|]. split; reflexivity. Qed.
