(* ===== verification/ToolPreview.v ===== *)
(** What is shown of a tool call's input, and of a file that is read again: src/tool_preview.rs
    and [format_edit_hunks] of src/edit_diff.rs.

    The line diff of the crate [similar], the pretty printer of [serde_json] and the standard
    library's hasher are operations of classes. *)
From Stdlib Require Import NArith ZArith Lia.
From stdpp Require Import base list gmap strings numbers.
From S2P Require Import Prelude Text Collections Json Evidence.
#[local] Open Scope N_scope.

(** ** Line diffs *)
Inductive ChangeTag : Type := Equal | Delete | Insert.

Record Change := mk_Change {
  tag : ChangeTag;
  change_value : str;
  old_index : option N;
  new_index : option N;
}.

Record DiffOp := mk_DiffOp {
  old_range : N * N;
  new_range : N * N;
  (** [diff.iter_changes(op)]. *)
  changes : list Change;
}.

(** [TextDiff::from_lines(old, new).grouped_ops(context)]: a group is never empty, it has a
    first operation and others. *)
Class LineDiff := grouped_ops : str -> str -> N -> list (DiffOp * list DiffOp).

(** [serde_json::to_string_pretty]. *)
Class PrettyJson := json_to_string_pretty : value -> option str.

(** [DefaultHasher] over a string. *)
Class ContentHash := hash_content : str -> N.

Definition NL : str := [LF].

(** [str::trim_end_matches] for line feeds and carriage returns. *)
Definition trim_line_end (s : str) : str :=
  reverse (drop_while (fun c => (c =? LF) || (c =? CR)) (reverse s)).

Definition format_change (indent : str) (change : Change) : str :=
  let text := trim_line_end (change_value change) in
  let text := if is_empty text then t!"<empty>" else text in
  let line_no (i : option N) := fmt_N (unwrap_or i 0 + 1) in
  match tag change with
  | Equal => indent ++ line_no (old_index change) ++ t!"   " ++ text ++ NL
  | Delete => indent ++ line_no (old_index change) ++ t!" - " ++ text ++ NL
  | Insert => indent ++ line_no (new_index change) ++ t!" + " ++ text ++ NL
  end.

Definition format_hunk (indent : str) (group_idx : nat) (group : DiffOp * list DiffOp) : str :=
  let '(first, others) := group in
  let last_op := unwrap_or (list.last others) first in
  let old_start := (old_range first).1 + 1 in
  let new_start := (new_range first).1 + 1 in
  let old_len := (old_range last_op).2 - (old_range first).1 in
  let new_len := (new_range last_op).2 - (new_range first).1 in
  (if (0 <? group_idx)%nat then indent ++ t!"..." ++ NL else [])
  ++ indent ++ t!"@@ -" ++ fmt_N old_start ++ t!"," ++ fmt_N old_len ++ t!" +" ++ fmt_N new_start
  ++ t!"," ++ fmt_N new_len ++ t!" @@" ++ NL
  ++ concat (map (fun op => concat (map (format_change indent) (changes op))) (first :: others)).

Definition format_edit_hunks `{LineDiff} (old_str new_str indent : str) (context_lines : N) : str :=
  if is_empty old_str && is_empty new_str then indent ++ t!"1   <empty>" ++ NL
  else
    match grouped_ops old_str new_str context_lines with
    | [] => indent ++ t!"... no modified lines ..." ++ NL
    | groups => concat (imap (format_hunk indent) groups)
    end.

Definition DEFAULT_EDIT_DIFF_CONTEXT_LINES : N := 2.

(** ** Reading a file again *)
Inductive ToolPreviewStyle : Type := Compact | Structured.

Inductive ReadFileRollupSummary : Type :=
| FirstRead (chars lines_ : N)
| Unchanged (chars lines_ : N)
| Changed (before_chars before_lines after_chars after_lines : N).

Inductive ReadFileSummaryMessageStyle : Type := HistoryStyle | StreamingStyle.

Record ReadFileRollupCache := mk_ReadFileRollupCache {
  entries : gmap str (N * N * N);
}.

Definition cache_new : ReadFileRollupCache := mk_ReadFileRollupCache ∅.

Definition line_count (text : str) : N :=
  N.max (N.of_nat (length (lines text))) (if is_empty text then 0 else 1).

Definition content_stats (content : str) : N * N := (chars_count content, line_count content).

Definition summarize `{ContentHash} (path content : str) (c : ReadFileRollupCache)
    : ReadFileRollupSummary * ReadFileRollupCache :=
  let '(after_chars, after_lines) := content_stats content in
  let after_hash := hash_content content in
  let insert_ := mk_ReadFileRollupCache (<[path := (after_hash, after_chars, after_lines)]> (entries c)) in
  match entries c !! path with
  | None => (FirstRead after_chars after_lines, insert_)
  | Some (prev_hash, prev_chars, prev_lines) =>
      if prev_hash =? after_hash then (Unchanged prev_chars prev_lines, c)
      else (Changed prev_chars prev_lines after_chars after_lines, insert_)
  end.

Definition format_read_file_rollup_message (path : str) (summary : ReadFileRollupSummary)
    (style : ReadFileSummaryMessageStyle) : str :=
  match style, summary with
  | HistoryStyle, FirstRead chars lines_ =>
      t!"Read " ++ path ++ t!": " ++ fmt_N chars ++ t!" chars, " ++ fmt_N lines_
      ++ t!" lines. Full content omitted; use search_files for targeted string matches."
  | HistoryStyle, Unchanged chars lines_ =>
      t!"No changes since last read of " ++ path ++ t!" (" ++ fmt_N chars ++ t!" chars, "
      ++ fmt_N lines_ ++ t!" lines)."
  | HistoryStyle, Changed bc bl ac al =>
      t!"Read " ++ path ++ t!": content changed (" ++ fmt_N bc ++ t!" chars/" ++ fmt_N bl
      ++ t!" lines -> " ++ fmt_N ac ++ t!" chars/" ++ fmt_N al
      ++ t!" lines). Full content omitted; use search_files for targeted string matches."
  | StreamingStyle, FirstRead chars lines_ =>
      t!"content: " ++ fmt_N chars ++ t!" chars, " ++ fmt_N lines_ ++ t!" lines (hidden)"
  | StreamingStyle, Unchanged chars lines_ =>
      t!"no changes since last read (" ++ fmt_N chars ++ t!" chars, " ++ fmt_N lines_ ++ t!" lines)"
  | StreamingStyle, Changed bc bl ac al =>
      t!"content changed: " ++ fmt_N bc ++ t!" chars/" ++ fmt_N bl ++ t!" lines -> "
      ++ fmt_N ac ++ t!" chars/" ++ fmt_N al ++ t!" lines"
  end.

(** ** Inputs *)
(** [Value::as_u64]. *)
Definition as_u64 (v : value) : option N :=
  match v with Number (PosInt n) => Some n | _ => None end.

Definition first_input_str (input : value) (keys : list str) : option str :=
  find_map (fun key => v ← value_get key input; as_str v) keys.
Definition first_input_u64 (input : value) (keys : list str) : option N :=
  find_map (fun key => v ← value_get key input; as_u64 v) keys.

Definition read_file_path (input : value) : option str :=
  first_input_str input [t!"path"; t!"file_path"; t!"file"].

(** [max_lines] is [None] for [usize::MAX]: a text has fewer lines. *)
Definition preview_lines (marker : option char) (text : str) (max_lines : option nat)
    (start_line : N) (indent : str) : str :=
  let mark := match marker with Some m => [SPACE; m; SPACE] | None => t!"   " end in
  if is_empty text then indent ++ fmt_N start_line ++ mark ++ t!"<empty>" ++ NL
  else
    let ls := lines text in
    let shown := match max_lines with Some n => take n ls | None => ls end in
    concat (imap (fun idx line => indent ++ fmt_N (start_line + N.of_nat idx) ++ mark ++ line ++ NL) shown)
    ++ (if (length shown <? length ls)%nat then
          indent ++ t!"... (" ++ fmt_N (N.of_nat (length ls - length shown)) ++ t!" more lines)" ++ NL
        else []).

Definition preview_edit_file_input `{LineDiff} (input : value) (summary_indent diff_indent : str)
    (diff_context_lines : N) : str :=
  let path := unwrap_or (first_input_str input [t!"path"; t!"file_path"; t!"file"; t!"filename"]) t!"<missing>" in
  let old_str :=
    unwrap_or (first_input_str input [t!"old_str"; t!"old_text"; t!"old_string"; t!"find"; t!"search"]) [] in
  let new_str :=
    unwrap_or (first_input_str input [t!"new_str"; t!"new_text"; t!"new_string"; t!"replace";
                                      t!"replace_with"; t!"replacement"]) [] in
  let '(old_chars, old_lines) := content_stats old_str in
  let '(new_chars, new_lines) := content_stats new_str in
  t!"path: " ++ path ++ NL
  ++ summary_indent ++ t!"change: " ++ fmt_N old_chars ++ t!" chars/" ++ fmt_N old_lines
  ++ t!" lines -> " ++ fmt_N new_chars ++ t!" chars/" ++ fmt_N new_lines ++ t!" lines" ++ NL
  ++ format_edit_hunks old_str new_str diff_indent diff_context_lines.

Definition preview_write_file_input (input : value) (line_indent : str) (marker : option char)
    (max_lines : option nat) : str :=
  let path := unwrap_or (first_input_str input [t!"path"; t!"file_path"; t!"file"]) t!"<missing>" in
  let content := unwrap_or (first_input_str input [t!"content"; t!"text"]) [] in
  let '(chars, lines_) := content_stats content in
  t!"path: " ++ path ++ NL
  ++ t!"content: " ++ fmt_N chars ++ t!" chars, " ++ fmt_N lines_ ++ t!" lines" ++ NL
  ++ preview_lines marker content max_lines 1 line_indent.

Section preview.
Context {js : SerdeJson} {pretty : PrettyJson} {diff : LineDiff}.

(** [to_string_pretty(input).unwrap_or_else(|_| input.to_string())]. *)
Definition pretty_or_plain (input : value) : str :=
  unwrap_or (json_to_string_pretty input) (unwrap_or (json_to_string input) []).

Definition preview_tool_input (tool_name : str) (input : value) (style : ToolPreviewStyle)
    (diff_context_lines : N) : str :=
  let named (n : str) := str_eqb tool_name n in
  let first_str keys d := unwrap_or (first_input_str input keys) d in
  let first_u64 keys d := fmt_N (unwrap_or (first_input_u64 input keys) d) in
  match input, style with
  | Object [], _ => t!"..."
  | _, Compact =>
      if named t!"edit_file" then preview_edit_file_input input [] t!"  " diff_context_lines
      else if named t!"write_file" then preview_write_file_input input t!"  " (Some 43) None
      else pretty_or_plain input
  | _, Structured =>
      if named t!"edit_file" then preview_edit_file_input input [] t!"    " diff_context_lines
      else if named t!"write_file" then preview_write_file_input input t!"    " (Some 43) None
      else if named t!"read_file" then
        t!"path: " ++ first_str [t!"path"; t!"file_path"; t!"file"] t!"<missing>"
        ++ match first_input_u64 input [t!"offset"] with
           | Some offset => NL ++ t!"offset: " ++ fmt_N offset | None => [] end
        ++ match first_input_u64 input [t!"limit"] with
           | Some limit => NL ++ t!"limit: " ++ fmt_N limit | None => [] end
      else if named t!"rename_file" then
        t!"old_path: " ++ first_str [t!"old_path"; t!"from"; t!"source_path"] t!"<missing>" ++ NL
        ++ t!"new_path: " ++ first_str [t!"new_path"; t!"to"; t!"target_path"] t!"<missing>"
      else if str_in tool_name [t!"list_files"; t!"list_directory"; t!"list_dir"] then
        t!"path: " ++ first_str [t!"path"; t!"dir"; t!"directory"; t!"root"] t!"." ++ NL
        ++ t!"max_entries: " ++ first_u64 [t!"max_entries"; t!"max_results"; t!"limit"] 100
      else if named t!"glob_files" then
        t!"pattern: " ++ first_str [t!"pattern"; t!"glob"; t!"query"] t!"<missing>" ++ NL
        ++ t!"max_results: " ++ first_u64 [t!"max_results"; t!"limit"; t!"max_entries"] 50
      else if str_in tool_name [t!"search_files"; t!"search"] then
        t!"query: " ++ first_str [t!"query"; t!"pattern"; t!"text"; t!"search"; t!"needle"] t!"<missing>" ++ NL
        ++ match first_input_str input [t!"path"; t!"dir"; t!"directory"; t!"root"] with
           | Some path => t!"path: " ++ path ++ NL | None => [] end
        ++ t!"max_results: " ++ first_u64 [t!"max_results"; t!"limit"; t!"max_entries"] 30
      else pretty_or_plain input
  end.
End preview.

Definition PARTIAL_TOOL_INPUT_PREVIEW_CHAR_LIMIT : nat := 240.

Definition preview_partial_tool_input (tool_name raw_input : str) : str :=
  let compact := trim raw_input in
  if is_empty compact then tool_name ++ t!": waiting for streamed input"
  else
    tool_name ++ t!": partial streamed input" ++ NL
    ++ take PARTIAL_TOOL_INPUT_PREVIEW_CHAR_LIMIT compact
    ++ (if (PARTIAL_TOOL_INPUT_PREVIEW_CHAR_LIMIT <? length compact)%nat then t!"..." else [])
    ++ NL ++ t!"(awaiting valid JSON)".
