(* ===== verification/History.v ===== *)
(** The message history of a conversation, what is kept of it and what is written into it:
    src/state/conversation/history.rs.

    The record holds the fields of [ConversationManager] that the file uses; the environment
    is a function.  Positions in the history are [nat].  Token budgets are far below the
    machine width, so their products are not wrapped. *)
From Stdlib Require Import NArith ZArith Lia.
From stdpp Require Import base list gmap strings numbers.
From S2P Require Import Prelude Text Collections Json Usage Evidence Envelope ToolPreview.
#[local] Open Scope N_scope.

Inductive Content : Type :=
| TextContent (text : str)
| Blocks (blocks : list ContentBlock).

Record ApiMessage := mk_ApiMessage {
  role : str;
  content : Content;
  cache_hint : option str;
}.

Record CompactionConfig := mk_CompactionConfig {
  enabled : bool;
  threshold_percent : N;
  keep_recent_turns : nat;
  summary_max_tokens : N;
}.

Record Conversation := mk_Conversation {
  api_messages : list ApiMessage;
  read_file_history_cache : ReadFileRollupCache;
  compaction_config : CompactionConfig;
  (** [client.is_local_endpoint()]. *)
  is_local_endpoint : bool;
}.

Definition set_messages (l : list ApiMessage) (c : Conversation) : Conversation :=
  mk_Conversation l (read_file_history_cache c) (compaction_config c) (is_local_endpoint c).
Definition set_cache (r : ReadFileRollupCache) (c : Conversation) : Conversation :=
  mk_Conversation (api_messages c) r (compaction_config c) (is_local_endpoint c).

Definition set_content (v : Content) (m : ApiMessage) : ApiMessage :=
  mk_ApiMessage (role m) v (cache_hint m).

Definition USER : str := t!"user".

(** ** Tool results in a message *)
Definition text_protocol_tool_result_message (text : str) : bool :=
  existsb (fun line =>
      let trimmed := trim_start line in
      starts_with t!"tool_result " trimmed || starts_with t!"tool_error " trimmed)
    (lines text).

Definition message_contains_tool_result (message : ApiMessage) : bool :=
  match content message with
  | Blocks blocks =>
      existsb (fun b => match b with CToolResult _ _ _ => true | _ => false end) blocks
  | TextContent text => text_protocol_tool_result_message text
  end.

(** [message.role == "user" && !message_contains_tool_result(message)]. *)
Definition is_request (message : ApiMessage) : bool :=
  str_eqb (role message) USER && negb (message_contains_tool_result message).

(** ** Shortening texts *)
Definition CONDENSED_TOOL_RESULT_LINES : nat := 5.
Definition ENRICHED_TOOL_RESULT_PREVIEW_LINES : nat := 5.
Definition ENRICHED_TOOL_RESULT_INLINE_CHARS : N := 240.
Definition ENRICHED_TOOL_RESULT_PREVIEW_LINE_CHARS : nat := 160.

(** ["\n({n} more lines)"]. *)
Definition more_lines (n : nat) : str := [LF] ++ t!"(" ++ fmt_N (N.of_nat n) ++ t!" more lines)".

Definition truncate_to_lines (text : str) (max_lines : nat) : str :=
  if match list.last (lines text) with Some l => ends_with t!"more lines)" l | None => false end
  then text
  else
    let ls := lines text in
    if (length ls <=? max_lines)%nat then text
    else join [LF] (take max_lines ls) ++ more_lines (length ls - max_lines).

Definition truncate_for_history (text : str) (max_chars : nat) : str :=
  if (max_chars =? 0)%nat then []
  else if (length text <=? max_chars)%nat then text
  else
    let total := length text in
    let indicator :=
      [LF] ++ t!"...[" ++ fmt_N (N.of_nat (total - max_chars)) ++ t!" chars omitted]..." ++ [LF] in
    let indicator_len := length indicator in
    if (max_chars <=? indicator_len)%nat then take max_chars text
    else
      let available := (max_chars - indicator_len)%nat in
      let keep_head := (available / 2)%nat in
      let keep_suffix := (available - keep_head)%nat in
      take keep_head text ++ indicator ++ drop (total - keep_suffix) text.

(** The variables of the loop over the lines. *)
Record CondenseState := mk_CondenseState {
  out : str;
  content_lines_since_header : nat;
  total_remaining : nat;
  in_tool_result : bool;
}.

Definition flush_remaining (st : CondenseState) : str :=
  if in_tool_result st && (0 <? total_remaining st)%nat then out st ++ more_lines (total_remaining st)
  else out st.

Definition condense_line (st : CondenseState) (line : str) : CondenseState :=
  let is_header := starts_with t!"tool_result " line || starts_with t!"tool_error " line in
  let append :=
    if in_tool_result st || negb (is_empty (out st)) then out st ++ [LF] ++ line
    else out st ++ line in
  if ends_with t!"more lines)" line && starts_with t!"(" line then
    mk_CondenseState append (content_lines_since_header st) (total_remaining st) (in_tool_result st)
  else if is_header then
    mk_CondenseState (flush_remaining st ++ [LF] ++ line) 0
      (if in_tool_result st && (0 <? total_remaining st)%nat then 0%nat else total_remaining st) true
  else if in_tool_result st then
    let n := S (content_lines_since_header st) in
    if (n <=? CONDENSED_TOOL_RESULT_LINES)%nat then
      mk_CondenseState append n (total_remaining st) true
    else mk_CondenseState (out st) n (S (total_remaining st)) true
  else mk_CondenseState append (content_lines_since_header st) (total_remaining st) false.

Definition condense_text_protocol_tool_results (text : str) : str :=
  let st := foldl condense_line (mk_CondenseState [] 0 0 false) (lines text) in
  let result := flush_remaining st in
  if starts_with [LF] result && negb (starts_with [LF] text) then drop 1 result else result.

(** [if let ToolResult { content, .. } = block { *content = truncate_to_lines(...) }]. *)
Definition condense_block (block : ContentBlock) : ContentBlock :=
  match block with
  | CToolResult id result is_error =>
      CToolResult id (truncate_to_lines result CONDENSED_TOOL_RESULT_LINES) is_error
  | b => b
  end.

Definition condense_message (text_has_result : str -> bool) (message : ApiMessage) : ApiMessage :=
  if str_eqb (role message) USER then
    match content message with
    | Blocks blocks => set_content (Blocks (map condense_block blocks)) message
    | TextContent text =>
        if text_has_result text
        then set_content (TextContent (condense_text_protocol_tool_results text)) message
        else message
    end
  else message.

Definition condense_all_tool_results_for_overflow (c : Conversation) : Conversation :=
  set_messages (map (condense_message text_protocol_tool_result_message) (api_messages c)) c.

(** ** Dropping the oldest messages *)
(** [while keep_start < len { ...; keep_start += 1 }], from position [keep_start] on. *)
Fixpoint scan_keep_start (anchor : option nat) (rest : list ApiMessage) (keep_start : nat) : nat :=
  match rest with
  | [] => keep_start
  | message :: rest =>
      if bool_decide (anchor = Some keep_start) || is_request message then keep_start
      else scan_keep_start anchor rest (S keep_start)
  end.

Definition prune_message_history_preserving (max_api_messages preserve_index : nat)
    (c : Conversation) : nat * Conversation :=
  let messages := api_messages c in
  let len := length messages in
  if (len =? 0)%nat then (0%nat, c)
  else if (len <=? max_api_messages)%nat then (Nat.min preserve_index (len - 1), c)
  else
    let target_keep_start := (len - max_api_messages)%nat in
    let preserve_distance := (target_keep_start - preserve_index)%nat in
    let keep_preserve_anchor :=
      (preserve_index <? target_keep_start)%nat && (preserve_distance <=? 2)%nat in
    let keep_start := if keep_preserve_anchor then preserve_index else target_keep_start in
    let fallback_keep_start := keep_start in
    let keep_start :=
      scan_keep_start (if keep_preserve_anchor then Some preserve_index else None)
        (drop keep_start messages) keep_start in
    let keep_start := Nat.max keep_start target_keep_start in
    let keep_start :=
      if (len <=? keep_start)%nat then Nat.min fallback_keep_start (len - 1) else keep_start in
    if (0 <? keep_start)%nat then
      ((preserve_index - keep_start)%nat, set_messages (drop keep_start messages) c)
    else (preserve_index, c).

Definition compact_for_context_overflow_inner (keep_messages : nat) (preserve_index : option nat)
    (c : Conversation) : nat * Conversation :=
  if (length (api_messages c) =? 0)%nat then (0%nat, c)
  else
    let keep_messages := Nat.max keep_messages 1 in
    let c := condense_all_tool_results_for_overflow c in
    let messages := api_messages c in
    let len := length messages in
    if (len <=? keep_messages)%nat then (Nat.min (unwrap_or preserve_index 0%nat) (len - 1), c)
    else
      let target_keep_start := (len - keep_messages)%nat in
      let preserve_index := (fun index => Nat.min index (len - 1)) <$> preserve_index in
      let anchor :=
        match preserve_index with
        | Some index => if (index <? target_keep_start)%nat then Some index else None
        | None => None
        end in
      let keep_start := unwrap_or anchor target_keep_start in
      let fallback_keep_start := keep_start in
      let keep_start := scan_keep_start anchor (drop keep_start messages) keep_start in
      let keep_start :=
        if (len <=? keep_start)%nat then Nat.min fallback_keep_start (len - 1) else keep_start in
      if (0 <? keep_start)%nat && (keep_start <? len)%nat then
        ((unwrap_or preserve_index 0 - keep_start)%nat, set_messages (drop keep_start messages) c)
      else (unwrap_or preserve_index 0%nat, c).

Definition compact_for_context_overflow_preserving (keep_messages preserve_index : nat)
    (c : Conversation) : nat * Conversation :=
  compact_for_context_overflow_inner keep_messages (Some preserve_index) c.

(** ** Size, and compaction before the window is full *)
Section codec.
Context {js : SerdeJson} {pretty : PrettyJson} {diff : LineDiff} {hash : ContentHash}.

Definition block_bytes (b : ContentBlock) : N :=
  match b with
  | CText text _ => blen text
  | CToolUse _ _ input _ => blen (unwrap_or (json_to_string input) [])
  | CToolResult _ result _ => blen result
  | _ => 0
  end.

Definition message_bytes (msg : ApiMessage) : N :=
  match content msg with
  | TextContent t => blen t
  | Blocks blocks => sum_N (map block_bytes blocks)
  end.

Definition estimate_history_tokens (c : Conversation) : N :=
  sum_N (map message_bytes (api_messages c)) / 4.

Definition should_compact_proactively (config : CompactionConfig) (context_window_tokens : N)
    (c : Conversation) : bool :=
  if negb (enabled config) || (context_window_tokens =? 0) then false
  else context_window_tokens * threshold_percent config / 100 <? estimate_history_tokens c.

Definition LOCAL_IMPLICIT_COMPACTION_THRESHOLD_PERCENT : N := 60.
Definition LOCAL_IMPLICIT_COMPACTION_KEEP_RECENT_TURNS : nat := 1.
Definition LOCAL_IMPLICIT_COMPACTION_SUMMARY_MAX_TOKENS : N := 384.

Definition effective_proactive_compaction_config (requires_tool_evidence : bool) (c : Conversation)
    : CompactionConfig :=
  if enabled (compaction_config c) || negb (is_local_endpoint c) || negb requires_tool_evidence
  then compaction_config c
  else mk_CompactionConfig true LOCAL_IMPLICIT_COMPACTION_THRESHOLD_PERCENT
         LOCAL_IMPLICIT_COMPACTION_KEEP_RECENT_TURNS LOCAL_IMPLICIT_COMPACTION_SUMMARY_MAX_TOKENS.

Definition should_force_local_handoff_compaction (requires_tool_evidence : bool) (c : Conversation)
    : bool :=
  negb (enabled (compaction_config c)) && is_local_endpoint c && requires_tool_evidence
  && (2 <=? length (api_messages c))%nat.

(** [for i in (0..len).rev()]: the position of the message that is the [keep]-th from the end
    of those that satisfy [p], on the reversed list. *)
Fixpoint nth_last (p : ApiMessage -> bool) (keep user_count : nat) (rev : list ApiMessage)
    : option nat :=
  match rev with
  | [] => None
  | message :: r =>
      if p message then
        if (keep <=? S user_count)%nat then Some (length r) else nth_last p keep (S user_count) r
      else nth_last p keep user_count r
  end.

Definition request_boundary (keep_recent_turns : nat) (messages : list ApiMessage) : nat :=
  unwrap_or (nth_last is_request keep_recent_turns 0 (reverse messages)) 0%nat.

Definition summary_preamble (summary_text text : str) : str :=
  t!"[conversation summary] " ++ summary_text ++ [LF; LF]
  ++ t!"Use the summary only as background context. Treat the current request below as authoritative and do not continue earlier file targets unless the current request asks for them."
  ++ [LF; LF] ++ t!"[current request]" ++ [LF] ++ text.

Definition compact_with_summary (keep_recent_turns : nat) (summary_text : str) (c : Conversation)
    : nat * Conversation :=
  let boundary := request_boundary keep_recent_turns (api_messages c) in
  if (boundary =? 0)%nat then (0%nat, c)
  else
    let kept := drop boundary (api_messages c) in
    let kept :=
      match kept with
      | first_message :: rest =>
          if negb (is_empty summary_text) && is_request first_message then
            match content first_message with
            | TextContent text =>
                set_content (TextContent (summary_preamble summary_text text)) first_message :: rest
            | Blocks _ => kept
            end
          else kept
      | [] => kept
      end in
    (boundary, set_messages kept c).

(** *** The summary *)
Definition summary_user_text_line (text : str) : option str :=
  match split_once (t!"[current request]" ++ [LF]) text with
  | Some (_, current_request) =>
      find_map (fun line => if is_empty line then None else Some line) (map trim (lines current_request))
  | None =>
      find_map (fun line =>
          if is_empty line || starts_with t!"[conversation summary]" line
             || starts_with t!"Use the summary only as background context." line
             || starts_with t!"Treat the current request below as authoritative" line
          then None else Some line) (map trim (lines text))
  end.

Definition summary_first_line (msg : ApiMessage) : str :=
  match content msg with
  | TextContent t => unwrap_or (summary_user_text_line t) []
  | Blocks blocks =>
      unwrap_or (find_map (fun b =>
        match b with
        | CText text _ => head (lines text)
        | CToolUse _ name _ _ => Some (t!"[tool: " ++ name ++ t!"]")
        | CToolResult _ result _ => head (lines result)
        | _ => None
        end) blocks) []
  end.

(** The loop over the messages before the boundary, which stops at the first entry that no
    longer fits. *)
Fixpoint summary_parts (max_bytes total_bytes : N) (messages : list ApiMessage) : list str :=
  match messages with
  | [] => []
  | msg :: r =>
      if negb (is_request msg) then summary_parts max_bytes total_bytes r
      else
        let first_line := summary_first_line msg in
        if is_empty first_line then summary_parts max_bytes total_bytes r
        else
          let entry := t!"- " ++ role msg ++ t!": " ++ first_line in
          let total_bytes := total_bytes + blen entry in
          if max_bytes <? total_bytes then [] else entry :: summary_parts max_bytes total_bytes r
  end.

Definition build_heuristic_summary (messages : list ApiMessage) (keep_recent_turns : nat)
    (max_tokens : N) : str :=
  let boundary := request_boundary keep_recent_turns messages in
  if (boundary =? 0)%nat then []
  else join [LF] (summary_parts (max_tokens * 4) 0 (take boundary messages)).

Definition run_proactive_compaction (context_window_tokens : N) (requires_tool_evidence : bool)
    (c : Conversation) : option (nat * nat * str) * Conversation :=
  let config := effective_proactive_compaction_config requires_tool_evidence c in
  let force_local_handoff := should_force_local_handoff_compaction requires_tool_evidence c in
  if negb force_local_handoff && negb (should_compact_proactively config context_window_tokens c)
  then (None, c)
  else
    let messages_before := length (api_messages c) in
    let keep := keep_recent_turns config in
    let summary := build_heuristic_summary (api_messages c) keep (summary_max_tokens config) in
    let '(removed, c) := compact_with_summary keep summary c in
    if (removed =? 0)%nat then (None, c)
    else (Some (messages_before, length (api_messages c), summary), c).

Definition condense_old_tool_results (keep_turns : nat) (c : Conversation) : Conversation :=
  let messages := api_messages c in
  let len := length messages in
  let boundary :=
    unwrap_or (nth_last (fun m => str_eqb (role m) USER) keep_turns 0 (reverse messages)) len in
  if (len <=? boundary)%nat || (boundary =? 0)%nat then c
  else
    let has_result text := contains t!"tool_result " text || contains t!"tool_error " text in
    set_messages (map (condense_message has_result) (take boundary messages) ++ drop boundary messages) c.

(** ** What is written of a tool's result *)
Definition indent_block (text indent : str) : str :=
  join [LF] (map (fun line => indent ++ line) (lines text)).

Definition truncate_preview_line (line : str) (max_chars : nat) : str :=
  if (length line <=? max_chars)%nat then line else take max_chars line ++ t!"...".

Definition preview_tool_output (output : str) : str :=
  let ls := lines output in
  match ls with
  | [] => t!"<empty>"
  | _ =>
      join [LF] (map (fun line => truncate_preview_line line ENRICHED_TOOL_RESULT_PREVIEW_LINE_CHARS)
                   (take ENRICHED_TOOL_RESULT_PREVIEW_LINES ls))
      ++ (if (ENRICHED_TOOL_RESULT_PREVIEW_LINES <? length ls)%nat then
            [LF] ++ t!"... (" ++ fmt_N (N.of_nat (length ls - ENRICHED_TOOL_RESULT_PREVIEW_LINES))
            ++ t!" more lines)"
          else [])
  end.

Definition tool_error_hint (name : str) : option str :=
  if str_in name [t!"read_file"; t!"list_files"; t!"list_directory"; t!"list_dir"; t!"glob_files"] then
    Some t!"Locate the workspace-relative target first, then retry with an explicit path or pattern."
  else if str_in name [t!"search_files"; t!"search"; t!"search_content"; t!"codebase_search"] then
    Some t!"Retry with a focused query or a concrete path scope so the next search result is easier to use."
  else if str_in name [t!"write_file"; t!"apply_patch"; t!"edit_file"; t!"rename_file"] then
    Some t!"Re-read the target path and retry with a streamlined file edit or patch that preserves local style; for Rust, keep the diff rustfmt-consistent."
  else if str_in name [t!"git_status"; t!"git_diff"; t!"git_log"; t!"git_show"] then
    Some t!"Retry with a focused git target if the repository state is larger than expected."
  else None.

Definition missing_read_only_location_prompt (name : str) (input : value) : option str :=
  let missing keys :=
    match first_input_str input keys with Some v => is_empty (trim v) | None => true end in
  if str_eqb name t!"read_file" then
    if missing [t!"path"; t!"file_path"; t!"file"; t!"filename"] then
      Some t!"I need an explicit file path before reading a file. If the user referenced a file with `@` or a `[file: ...]` block, extract that exact path and reuse the embedded content when it is sufficient; otherwise call `read_file` or `search_files` with that concrete path for targeted inspection. Do not invent a substitute filename or retry without a non-empty `path`. No file changes were made."
    else None
  else None.

Definition preferred_tool_error_message (name : str) (input : value) (error : str) : str :=
  unwrap_or (missing_read_only_location_prompt name input) error.

(** ["\nRequest:\n"] and the request, unless it is blank. *)
Definition request_section (name : str) (input : value) : str :=
  let request := preview_tool_input name input Structured DEFAULT_EDIT_DIFF_CONTEXT_LINES in
  if is_empty (trim request) then []
  else [LF] ++ t!"Request:" ++ [LF] ++ indent_block request t!"  ".

Definition format_tool_error_for_model_context (name : str) (input : value) (error : str) : str :=
  let preserve_full_error := opt_is_some (missing_read_only_location_prompt name input) in
  let normalized_error := preferred_tool_error_message name input error in
  let error_body :=
    if preserve_full_error then normalized_error else preview_tool_output normalized_error in
  t!"Tool " ++ name ++ t!" failed." ++ request_section name input
  ++ [LF] ++ t!"Error:" ++ [LF] ++ indent_block error_body t!"  "
  ++ match tool_error_hint name with
     | Some hint => [LF] ++ t!"Suggested next step:" ++ [LF] ++ t!"  " ++ hint
     | None => []
     end.

Definition text_stats (text : str) : N * N := (chars_count text, line_count text).

Definition format_generic_tool_result_for_model_context (name : str) (input : value) (output : str)
    : str :=
  let '(chars, lines_) := text_stats output in
  t!"Tool " ++ name ++ t!" completed." ++ request_section name input
  ++ [LF] ++ t!"Result: " ++ fmt_N chars ++ t!" chars, " ++ fmt_N lines_ ++ t!" lines."
  ++ (if is_empty (trim output) then []
      else [LF] ++ t!"Output preview:" ++ [LF] ++ indent_block (preview_tool_output output) t!"  ").

Definition should_enrich_tool_result (name output : str) : bool :=
  if (ENRICHED_TOOL_RESULT_INLINE_CHARS <? chars_count output) || contains_char LF output then true
  else str_in name [t!"list_files"; t!"list_directory"; t!"list_dir"; t!"glob_files"; t!"find_files";
                    t!"search_files"; t!"search"; t!"search_content"; t!"codebase_search";
                    t!"git_status"; t!"git_diff"; t!"git_log"; t!"git_show"].

Definition format_read_file_result_for_model_context (path output : str)
    (summary : ReadFileRollupSummary) : str :=
  let with_content summary_message :=
    summary_message ++ [LF] ++ t!"Content for model context:" ++ [LF] ++ t!"--- " ++ path ++ t!" ---"
    ++ [LF] ++ output ++ [LF] ++ t!"--- end " ++ path ++ t!" ---" in
  match summary with
  | Unchanged _ _ => format_read_file_rollup_message path summary HistoryStyle
  | FirstRead chars lines_ =>
      with_content (t!"Read " ++ path ++ t!": " ++ fmt_N chars ++ t!" chars, " ++ fmt_N lines_
                    ++ t!" lines. Snapshot included below for model context.")
  | Changed bc bl ac al =>
      with_content (t!"Read " ++ path ++ t!": content changed (" ++ fmt_N bc ++ t!" chars/" ++ fmt_N bl
                    ++ t!" lines -> " ++ fmt_N ac ++ t!" chars/" ++ fmt_N al
                    ++ t!" lines). Snapshot included below for model context.")
  end.

(** [result] is [inr] with the text of an error. *)
Definition format_tool_result_for_history (name : str) (input : value) (result : str + str)
    (c : Conversation) : str * Conversation :=
  match result with
  | inr error => (format_tool_error_for_model_context name input error, c)
  | inl output =>
      if str_eqb name t!"read_file" then
        let path := unwrap_or (read_file_path input) t!"<missing>" in
        let '(summary, cache) := summarize path output (read_file_history_cache c) in
        (format_read_file_result_for_model_context path output summary, set_cache cache c)
      else if should_enrich_tool_result name output then
        (format_generic_tool_result_for_model_context name input output, c)
      else (output, c)
  end.
End codec.

(** ** Limits *)
Record HistoryLimits := mk_HistoryLimits {
  max_assistant_history_chars : N;
  max_tool_result_history_chars : N;
  max_api_messages : N;
}.

Section environment.
(** [std::env::var(key).ok()]. *)
Context (env_var : str -> option str).

(** [.trim().parse::<usize>().ok()]. *)
Definition env_number (key : str) : option N := v ← env_var key; parse_uint usize_max (trim v).

Definition env_override_usize (key : str) (default min max : N) : N :=
  match env_number key with Some v => clamp min max v | None => default end.

Definition resolve_history_limits (is_local : bool) : HistoryLimits :=
  let defaults :=
    if is_local then mk_HistoryLimits 1200 2500 14 else mk_HistoryLimits 3000 6000 32 in
  mk_HistoryLimits
    (env_override_usize t!"VEX_MAX_ASSISTANT_HISTORY_CHARS" (max_assistant_history_chars defaults) 200 20000)
    (env_override_usize t!"VEX_MAX_TOOL_RESULT_HISTORY_CHARS" (max_tool_result_history_chars defaults) 200 40000)
    (env_override_usize t!"VEX_MAX_API_MESSAGES" (max_api_messages defaults) 4 128).

(** In seconds. *)
Definition resolve_tool_timeout (is_local : bool) : N :=
  clamp 2 300 (unwrap_or (env_number t!"VEX_TOOL_TIMEOUT_SECS") (if is_local then 20 else 60)).

Definition resolve_max_tool_rounds (is_local : bool) : N :=
  clamp 2 64 (unwrap_or (env_number t!"VEX_MAX_TOOL_ROUNDS") (if is_local then 12 else 24)).

Definition DEFAULT_HISTORY_KEEP_TURNS : N := 10.
Definition resolve_history_keep_turns : N :=
  env_override_usize t!"VEX_HISTORY_KEEP_TURNS" DEFAULT_HISTORY_KEEP_TURNS 2 64.
End environment.
