(* ===== verification/HistoryTheory.v ===== *)
(** What pruning, compaction and shortening keep of a conversation. *)
From Stdlib Require Import NArith ZArith Lia.
From stdpp Require Import base list gmap strings numbers sets.
From S2P Require Import Prelude Text Collections Json Usage Evidence Envelope ToolPreview History.
#[local] Open Scope N_scope.

(** A text written into the history is exactly as long as allowed.  It is the text itself if
    that fits; otherwise something in the middle is replaced, and what is left out is longer
    than the excess by as much as what is put in. *)
Theorem truncated_to_size text max_chars :
  length (truncate_for_history text max_chars) = Nat.min (length text) max_chars
  /\ exists head_ middle tail_ mark,
       text = head_ ++ middle ++ tail_ /\ truncate_for_history text max_chars = head_ ++ mark ++ tail_
       /\ (length middle = (length text - max_chars) + length mark)%nat
       /\ ((length text <= max_chars)%nat -> mark = []).
Proof.
  unfold truncate_for_history. destruct (Nat.eqb_spec max_chars 0) as [->|Hm].
  { split; [cbn; lia|]. exists [], text, [], []. rewrite app_nil_r. split_and!; try done. cbn. lia. }
  destruct (Nat.leb_spec (length text) max_chars) as [Hle|Hgt].
  { split; [lia|]. exists text, [], [], []. rewrite !app_nil_r. split_and!; try done. cbn. lia. }
  set (ind := [LF] ++ t!"...[" ++ fmt_N (N.of_nat (length text - max_chars)) ++ t!" chars omitted]..." ++ [LF]).
  destruct (Nat.leb_spec max_chars (length ind)) as [Hi|Hi].
  - split; [rewrite length_take; lia|]. exists (take max_chars text), (drop max_chars text), [], [].
    rewrite !app_nil_r, take_drop. split_and!; try done; rewrite ?length_drop; cbn; lia.
  - set (available := (max_chars - length ind)%nat). set (h := (available / 2)%nat).
    assert (h <= available)%nat as Hh by (apply Nat.Div0.div_le_upper_bound; lia).
    set (k := (length text - (available - h))%nat). split.
    + rewrite !length_app, length_take, length_drop. lia.
    + exists (take h text), (drop h (take k text)), (drop k text), ind. split_and!; try done.
      * assert (take h (take k text) = take h text) as <- by (rewrite take_take; f_equal; lia).
        by rewrite app_assoc, !take_drop.
      * rewrite length_drop, length_take. lia.
      * lia.
Qed.

(** ** Pruning *)
Lemma scan_spec anchor rest k :
  let k' := scan_keep_start anchor rest k in
  (k <= k' <= k + length rest)%nat
  /\ Forall (fun m => is_request m = false) (take (k' - k) rest)
  /\ ((k' < k + length rest)%nat ->
        anchor = Some k' \/ exists m, rest !! (k' - k)%nat = Some m /\ is_request m = true).
Proof.
  revert k. induction rest as [|m rest IH]; intros k; cbn [scan_keep_start length].
  { cbn. split_and!; [lia | lia | by rewrite Nat.sub_diag | lia]. }
  destruct (bool_decide (anchor = Some k) || is_request m) eqn:E.
  - rewrite Nat.sub_diag. split_and!; [lia | lia | done |]. intros _.
    apply orb_true_iff in E as [E%bool_decide_eq_true|E]; [by left | right; by exists m].
  - specialize (IH (S k)). cbv zeta in IH. destruct IH as ([Hl1 Hl2] & Hf & Hs).
    apply orb_false_iff in E as [_ Em]. split_and!; [lia | lia | |].
    + replace (scan_keep_start anchor rest (S k) - k)%nat
        with (S (scan_keep_start anchor rest (S k) - S k)) by lia.
      cbn [take]. by constructor.
    + intros Hlt. destruct Hs as [Ha|(m' & Hm & Hr)]; [lia | by left | right].
      exists m'. replace (scan_keep_start anchor rest (S k) - k)%nat
        with (S (scan_keep_start anchor rest (S k) - S k)) by lia. done.
Qed.

Lemma scan_anchor rest k : rest <> [] -> scan_keep_start (Some k) rest k = k.
Proof. destruct rest; [done|]. intros _. cbn. by rewrite bool_decide_eq_true_2. Qed.

(** Pruning keeps at most the limit, from the end.  What is kept is a suffix of the history of
    at most [max] messages, and the index returned points at the message it pointed at, if
    that is kept.  When messages are dropped, the first one kept is a request of the user, or
    there is none to begin with; but if the request to preserve was among the two messages
    just before the limit, exactly [max] messages are kept, whatever the first one is. *)
Theorem prune_keeps_limit max preserve c :
  (0 < max)%nat -> (preserve < length (api_messages c))%nat ->
  let '(index, c') := prune_message_history_preserving max preserve c in
  let target := (length (api_messages c) - max)%nat in
  exists dropped, api_messages c = dropped ++ api_messages c'
    /\ (length (api_messages c') <= max)%nat
    /\ (dropped <> [] -> (max < length (api_messages c))%nat)
    /\ ((length dropped <= preserve)%nat -> api_messages c' !! index = api_messages c !! preserve)
    /\ (dropped <> [] ->
          if (preserve <? target)%nat && (target - preserve <=? 2)%nat
          then length (api_messages c') = max
          else (exists m, head (api_messages c') = Some m /\ is_request m = true)
               \/ length (api_messages c') = max
                  /\ Forall (fun m => is_request m = false) (api_messages c')).
Proof.
  intros Hmax Hp. unfold prune_message_history_preserving. set (ms := api_messages c) in *.
  rewrite (proj2 (Nat.eqb_neq (length ms) 0)) by lia.
  destruct (Nat.leb_spec (length ms) max) as [Hle|Hgt].
  { exists []. fold ms. split_and!; try done. intros _. f_equal. lia. }
  set (target := (length ms - max)%nat).
  set (anchored := (preserve <? target)%nat && (target - preserve <=? 2)%nat).
  set (start := if anchored then preserve else target).
  set (k := Nat.max (scan_keep_start (if anchored then Some preserve else None) (drop start ms) start) target).
  assert (0 < target < length ms)%nat as Ht by lia.
  assert (exists j, (if (length ms <=? k)%nat then Nat.min start (length ms - 1) else k) = j
    /\ (target <= j < length ms)%nat
    /\ if anchored then j = target
       else (exists m, head (drop j ms) = Some m /\ is_request m = true)
            \/ j = target /\ Forall (fun m => is_request m = false) (drop j ms)) as (j & -> & Hj & Hspec).
  { eexists. split; [reflexivity|]. destruct anchored eqn:Ha; cbn in start.
    - unfold k. rewrite scan_anchor by (intros He%(f_equal length); rewrite length_drop in He; cbn in He; lia).
      apply andb_prop in Ha as [Ha%Nat.ltb_lt _]. rewrite Nat.max_r by (unfold start; lia).
      rewrite (proj2 (Nat.leb_gt _ _)) by lia. lia.
    - pose proof (scan_spec None (drop start ms) start) as (Hb & Hno & Hyes). unfold start in *.
      rewrite length_drop in *. unfold k.
      set (i := scan_keep_start None (drop target ms) target) in *. rewrite Nat.max_l by lia.
      destruct (Nat.leb_spec (length ms) i) as [Hi|Hi].
      + split; [lia|]. right. split; [lia|]. rewrite Nat.min_l by lia.
        by rewrite take_ge in Hno by (rewrite length_drop; lia).
      + split; [lia|]. left. destruct Hyes as [|(m & Hm & Hr)]; [lia | done |].
        exists m. split; [|done]. rewrite <- Hm, head_lookup, !lookup_drop.
        f_equal. lia. }
  rewrite (proj2 (Nat.ltb_lt 0 j)) by lia. cbn [api_messages set_messages].
  exists (take j ms). rewrite take_drop, length_take, length_drop. fold target anchored.
  split_and!; [done | lia | lia | |].
  - intros Hl. rewrite lookup_drop. f_equal. lia.
  - intros _. destruct anchored; [lia|]. destruct Hspec as [H|[-> H]]; [by left | right].
    split; [lia | done].
Qed.

Definition said (r : str) (text : str) : ApiMessage := mk_ApiMessage r (TextContent text) None.
Definition conversation (l : list ApiMessage) : Conversation :=
  mk_Conversation l cache_new (mk_CompactionConfig true 80 1 100) false.

(** With the request two messages before the limit the answer to it comes first. *)
Lemma prune_keeps_limit_witness :
  let ms := [said USER t!"a"; said t!"assistant" t!"b"; said USER t!"tool_result c"; said USER t!"d"] in
  let '(index, c') := prune_message_history_preserving 3 0 (conversation ms) in
  let target := 1%nat in
  exists dropped, ms = dropped ++ api_messages c'
    /\ (length (api_messages c') <= 3)%nat /\ (dropped <> [] -> (3 < 4)%nat)
    /\ ((length dropped <= 0)%nat -> api_messages c' !! index = Some (said USER t!"a"))
    /\ (dropped <> [] -> length (api_messages c') = 3%nat).
Proof.
  exact (prune_keeps_limit 3 0
    (conversation [said USER t!"a"; said t!"assistant" t!"b"; said USER t!"tool_result c"; said USER t!"d"])
    ltac:(lia) ltac:(cbn; lia)).
Defined.

(** ** Compaction *)
Definition count_requests (l : list ApiMessage) : nat := length (List.filter is_request l).

Lemma nth_last_spec p keep count rev i :
  nth_last p keep count rev = Some i ->
  (i < length rev)%nat
  /\ length (List.filter p (take (length rev - i) rev)) = (Nat.max keep (S count) - count)%nat
  /\ exists m, rev !! (length rev - 1 - i)%nat = Some m /\ p m = true.
Proof.
  revert count. induction rev as [|m rev IH]; intros count; cbn [nth_last]; [done|].
  cbn [length]. destruct (p m) eqn:Hp.
  - destruct (Nat.leb_spec keep (S count)) as [Hk|Hk].
    + intros [= <-]. split; [lia|]. replace (S (length rev) - length rev)%nat with 1%nat by lia.
      cbn [take List.filter]. rewrite Hp, take_0. cbn.
      replace (length rev - 0 - length rev)%nat with 0%nat by lia. split; [lia | by exists m].
    + intros (Hi & Hc & m' & Hm & Hpm)%IH.
      replace (S (length rev) - i)%nat with (S (length rev - i)) by lia. cbn [take List.filter].
      rewrite Hp. cbn [length]. rewrite Hc.
      replace (S (length rev) - 1 - i)%nat with (S (length rev - 1 - i)) by lia.
      split_and!; [lia | lia | by exists m'].
  - intros (Hi & Hc & m' & Hm & Hpm)%IH.
    replace (S (length rev) - i)%nat with (S (length rev - i)) by lia. cbn [take List.filter].
    rewrite Hp, Hc. replace (S (length rev) - 1 - i)%nat with (S (length rev - 1 - i)) by lia.
    split_and!; [lia | lia | by exists m'].
Qed.

Lemma filter_reverse (p : ApiMessage -> bool) l :
  length (List.filter p (reverse l)) = length (List.filter p l).
Proof.
  induction l as [|x l IH]; [done|].
  rewrite reverse_cons, List.filter_app, length_app, IH. cbn. destruct (p x); cbn; lia.
Qed.

(** The boundary is the position of the request that is the [keep]-th from the end. *)
Lemma request_boundary_spec keep ms :
  request_boundary keep ms <> 0%nat ->
  exists m rest, drop (request_boundary keep ms) ms = m :: rest /\ is_request m = true
    /\ count_requests (m :: rest) = Nat.max keep 1.
Proof.
  unfold request_boundary. destruct (nth_last is_request keep 0 (reverse ms)) as [i|] eqn:E; [|done].
  cbn [unwrap_or]. intros _. apply nth_last_spec in E as (Hi & Hc & m & Hm & Hp).
  rewrite length_reverse in *. rewrite reverse_lookup in Hm by lia.
  replace (length ms - S (length ms - 1 - i))%nat with i in Hm by lia.
  exists m, (drop (S i) ms). rewrite (drop_S ms m i Hm). split_and!; [done | done |].
  unfold count_requests. rewrite <- (drop_S ms m i Hm), <- filter_reverse.
  rewrite take_reverse in Hc. replace (length ms - (length ms - i))%nat with i in Hc by lia. lia.
Qed.

Section compaction.
Context {js : SerdeJson}.

(** Compaction keeps whole turns.  It either changes nothing, or drops the messages before
    a request of the user so that exactly the configured number of requests (one, if that is
    zero) is left, and puts the summary before the text of the first of them; every other
    message is kept as it was, and the counts reported are those before and after. *)
Theorem compaction_keeps_turns window evidence c :
  let '(report, c') := run_proactive_compaction window evidence c in
  let keep := keep_recent_turns (effective_proactive_compaction_config evidence c) in
  match report with
  | None => c' = c
  | Some (before, after, summary) =>
      exists dropped m m' rest,
        api_messages c = dropped ++ m :: rest /\ api_messages c' = m' :: rest
        /\ dropped <> [] /\ before = length (api_messages c) /\ after = length (api_messages c')
        /\ is_request m = true /\ count_requests (m :: rest) = Nat.max keep 1
        /\ role m' = role m /\ cache_hint m' = cache_hint m
        /\ content m' = match content m with
                        | TextContent text =>
                            TextContent (if is_empty summary then text else summary_preamble summary text)
                        | Blocks blocks => Blocks blocks
                        end
  end.
Proof.
  unfold run_proactive_compaction. destruct (negb _ && negb _); [done|].
  set (keep := keep_recent_turns _). set (summary := build_heuristic_summary _ _ _).
  unfold compact_with_summary. destruct (Nat.eqb_spec (request_boundary keep (api_messages c)) 0) as [|Hb];
    [done|].
  rewrite (proj2 (Nat.eqb_neq _ _)) by done.
  destruct (request_boundary_spec _ _ Hb) as (m & rest & Hd & Hm & Hc). rewrite Hd, Hm, andb_true_r.
  exists (take (request_boundary keep (api_messages c)) (api_messages c)), m.
  assert (take (request_boundary keep (api_messages c)) (api_messages c) <> []) as Hne.
  { intros [H|H]%take_nil_inv; [done|]. by rewrite H in Hd; rewrite drop_nil in Hd. }
  assert (api_messages c = take (request_boundary keep (api_messages c)) (api_messages c) ++ m :: rest) as Hms
    by (by rewrite <- Hd, take_drop).
  destruct (is_empty summary) eqn:He; cbn [negb].
  - exists m, rest. split_and!; try done. by destruct (content m).
  - destruct (content m) eqn:Hcm.
    + eexists (set_content _ m), rest. split_and!; try done.
    + exists m, rest. split_and!; done.
Qed.
End compaction.

(** ** Reading a file again *)
Section reread.
Context {hash : ContentHash}.

Fixpoint read_all (reads : list (str * str)) (c : ReadFileRollupCache) : ReadFileRollupCache :=
  match reads with [] => c | (path, text) :: r => read_all r (summarize path text c).2 end.

(** The last text read from a path. *)
Definition last_read (path : str) (reads : list (str * str)) : option str :=
  list.last (map snd (List.filter (fun r => str_eqb r.1 path) reads)).

Lemma last_read_snoc path p text reads :
  last_read path (reads ++ [(p, text)]) = if str_eqb p path then Some text else last_read path reads.
Proof.
  unfold last_read. rewrite List.filter_app, map_app. cbn [List.filter fst].
  destruct (str_eqb p path); cbn [map snd]; [apply list.last_snoc | by rewrite app_nil_r].
Qed.

Lemma last_read_in path reads text : last_read path reads = Some text -> text ∈ map snd reads.
Proof.
  intros [l Hl]%last_Some. assert (text ∈ map snd (List.filter (fun r => str_eqb r.1 path) reads)) as Hin
    by (rewrite Hl; apply elem_of_app; right; by left).
  apply list_elem_of_In, List.in_map_iff in Hin as (x & <- & [Hx _]%List.filter_In).
  by apply list_elem_of_In, List.in_map.
Qed.

(** No two texts read have the same hash. *)
Definition no_collision (texts : list str) : Prop :=
  forall a b, a ∈ texts -> b ∈ texts -> hash_content a = hash_content b -> a = b.

Lemma read_all_app rs rs' c : read_all (rs ++ rs') c = read_all rs' (read_all rs c).
Proof. revert c. induction rs as [|[q t] rs IH]; intros c; cbn; [done | apply IH]. Qed.

Lemma cache_last reads :
  no_collision (map snd reads) -> forall path,
  entries (read_all reads cache_new) !! path
  = (fun text => (hash_content text, chars_count text, line_count text)) <$> last_read path reads.
Proof.
  induction reads as [|[p text] reads IH] using rev_ind; intros Hinj path; [done|].
  rewrite map_app in Hinj. cbn [map snd] in Hinj. rewrite read_all_app, last_read_snoc. cbn [read_all].
  assert (no_collision (map snd reads)) as Hinj'.
  { intros a b Ha Hb. apply Hinj; apply elem_of_app; by left. }
  specialize (IH Hinj'). unfold summarize, content_stats. rewrite IH. unfold str_eqb.
  destruct (last_read p reads) as [old|] eqn:Hold; cbn [fmap option_fmap option_map].
  - destruct (N.eqb_spec (hash_content old) (hash_content text)) as [Hh|Hh]; cbn [snd entries].
    + assert (old = text) as ->.
      { apply Hinj; [|apply elem_of_app; right; by left | done].
        apply elem_of_app. left. by eapply last_read_in. }
      destruct (bool_decide_reflect (p = path)) as [<-|]; [by rewrite IH, Hold | apply IH].
    + destruct (bool_decide_reflect (p = path)) as [<-|]; [by rewrite lookup_insert_eq|].
      by rewrite lookup_insert_ne.
  - cbn [snd entries]. destruct (bool_decide_reflect (p = path)) as [<-|];
      [by rewrite lookup_insert_eq | by rewrite lookup_insert_ne].
Qed.

(** A file that is read again is compared with what was read last.  After any reads, and as
    long as no two of the texts have the same hash, a read is announced as the first, as
    unchanged or as changed exactly if no text, the same text or another text was read last
    from that path, with the sizes of the one and the other. *)
Theorem reread_summary reads path text :
  no_collision (text :: map snd reads) ->
  (summarize path text (read_all reads cache_new)).1
  = match last_read path reads with
    | None => FirstRead (chars_count text) (line_count text)
    | Some old =>
        if str_eqb old text then Unchanged (chars_count text) (line_count text)
        else Changed (chars_count old) (line_count old) (chars_count text) (line_count text)
    end.
Proof.
  intros Hinj. unfold summarize, content_stats. rewrite cache_last.
  2: { intros a b Ha Hb. apply Hinj; by right. }
  destruct (last_read path reads) as [old|] eqn:Hold; cbn [fmap option_fmap option_map]; [|done].
  unfold str_eqb. destruct (bool_decide_reflect (old = text)) as [->|Hne].
  - by rewrite N.eqb_refl.
  - rewrite (proj2 (N.eqb_neq _ _)); [done|]. intros Hh. apply Hne, Hinj; [|by left | done].
    right. by eapply last_read_in.
Qed.
End reread.

(** A hash to evaluate the example with. *)
Definition length_hash : ContentHash := fun s => N.of_nat (length s).

Lemma reread_summary_witness :
  let reads := [(t!"a", t!"one"); (t!"b", t!"three"); (t!"a", t!"two!")] in
  @no_collision length_hash (t!"two!" :: map snd reads)
  /\ (@summarize length_hash t!"a" t!"two!" (@read_all length_hash reads cache_new)).1 = Unchanged 4 1.
Proof.
  cbv zeta. assert (@no_collision length_hash
    (t!"two!" :: map snd [(t!"a", t!"one"); (t!"b", t!"three"); (t!"a", t!"two!")])) as Hn.
  { intros a b Ha Hb Hh. cbn [map snd] in Ha, Hb.
    repeat (apply elem_of_cons in Ha as [->|Ha]); try (by apply elem_of_nil in Ha).
    all: repeat (apply elem_of_cons in Hb as [->|Hb]); try (by apply elem_of_nil in Hb).
    all: try done; discriminate Hh. }
  split; [exact Hn|].
  exact (@reread_summary length_hash [(t!"a", t!"one"); (t!"b", t!"three"); (t!"a", t!"two!")]
    t!"a" t!"two!" Hn).
Defined.

(** ** Condensing *)
(** The line feeds of a text. *)
Definition line_feeds (s : str) : nat := length (List.filter (N.eqb LF) s).

Lemma line_feeds_app a b : line_feeds (a ++ b) = (line_feeds a + line_feeds b)%nat.
Proof. unfold line_feeds. by rewrite List.filter_app, length_app. Qed.
Lemma line_feeds_none l : LF ∉ l -> line_feeds l = 0%nat.
Proof.
  unfold line_feeds. induction l as [|c l IH]; [done|]. intros [Hc Hl]%not_elem_of_cons.
  cbn [List.filter]. rewrite (proj2 (N.eqb_neq LF c)) by done. auto.
Qed.

Lemma lines_bound s : (length (lines s) <= S (line_feeds s))%nat.
Proof.
  unfold lines. rewrite length_map. induction s as [|c s IH]; [cbn; lia|].
  cbn [split_inclusive]. change (c :: s) with ([c] ++ s). rewrite line_feeds_app.
  destruct (N.eqb_spec c LF) as [->|Hc]; cbn [length].
  - change (line_feeds [LF]) with 1%nat. lia.
  - destruct (split_inclusive s) as [|[y b] t]; cbn [length] in *; lia.
Qed.

Lemma lines_no_feed s l : l ∈ lines s -> LF ∉ l.
Proof.
  unfold lines. intros Hl. apply list_elem_of_In, List.in_map_iff in Hl as ([y b] & <- & Hin).
  assert (LF ∉ y) as Hy.
  { clear -Hin. revert y b Hin. induction s as [|c s IH]; intros y b Hin; cbn [split_inclusive] in Hin; [done|].
    destruct (N.eqb_spec c LF) as [->|Hc].
    - destruct Hin as [[= <- <-]|Hin]; [apply not_elem_of_nil | by eapply IH].
    - destruct (split_inclusive s) as [|[z b'] t].
      + destruct Hin as [[= <- <-]|[]]. apply not_elem_of_cons. split; [done | apply not_elem_of_nil].
      + destruct Hin as [[= <- <-]|Hin].
        * apply not_elem_of_cons. split; [done|]. apply (IH z b'). by left.
        * apply (IH y b). by right. }
  destruct b; [|done]. unfold strip_cr. destruct (reverse y) as [|c r] eqn:E; [done|].
  destruct (c =? CR); [|done]. intros Hin'. apply Hy. rewrite <- (reverse_involutive y), E.
  apply list.elem_of_reverse, elem_of_cons. right. by apply list.elem_of_reverse.
Qed.

Lemma line_feeds_join ls : Forall (fun l => LF ∉ l) ls -> line_feeds (join [LF] ls) = pred (length ls).
Proof.
  induction ls as [|l ls IH]; [done|]. intros [Hl Hls]%list.Forall_cons. destruct ls as [|l' ls].
  - by apply line_feeds_none.
  - rewrite join_cons, !line_feeds_app, IH, line_feeds_none by done. cbn. lia.
Qed.

Lemma more_lines_line n : exists l, more_lines n = LF :: l /\ LF ∉ l /\ l <> []
  /\ ends_with t!"more lines)" l = true.
Proof.
  exists (t!"(" ++ fmt_N (N.of_nat n) ++ t!" more lines)"). split_and!; try done.
  - rewrite !not_elem_of_app. split_and!; [| by apply fmt_N_not_in |].
    all: cbv; set_solver.
  - unfold ends_with. rewrite !reverse_app. apply starts_with_spec. by eexists.
Qed.

(** Condensing once is enough.  Cutting a tool result to its first lines leaves at most one
    line more than was asked for, unless the text already ends like a cut one, and cutting
    it again changes nothing: the results in older messages are not cut further each turn. *)
Theorem condensing_stable text n :
  let r := truncate_to_lines text n in
  truncate_to_lines r n = r
  /\ ((length (lines r) <= S (Nat.max n 1))%nat
      \/ r = text /\ exists l, list.last (lines text) = Some l /\ ends_with t!"more lines)" l = true).
Proof.
  cbv zeta. unfold truncate_to_lines at 2 3 4 5.
  destruct (match list.last (lines text) with Some l => ends_with t!"more lines)" l | None => false end) eqn:E.
  { split; [unfold truncate_to_lines; by rewrite E|]. right. split; [done|].
    destruct (list.last (lines text)) as [l|]; [by exists l | done]. }
  destruct (Nat.leb_spec (length (lines text)) n) as [Hle|Hgt].
  { split; [|left; lia]. unfold truncate_to_lines. rewrite E. by rewrite (proj2 (Nat.leb_le _ _)). }
  destruct (more_lines_line (length (lines text) - n)) as (l & -> & Hlf & Hne & He). split.
  - unfold truncate_to_lines. by rewrite last_line, He.
  - left. etransitivity; [apply lines_bound|]. rewrite line_feeds_app, line_feeds_join.
    + change (LF :: l) with ([LF] ++ l). rewrite line_feeds_app, (line_feeds_none l) by done.
      rewrite length_take. change (line_feeds [LF]) with 1%nat. lia.
    + apply list.Forall_forall. intros y Hy. eapply lines_no_feed.
      by eapply elem_of_sublist, sublist_take.
Qed.
