(* ===== verification/PeerChannel.v ===== *)
(** The channel that the agents of one task write messages to:
    src/runtime/task_state/peer_channel.rs, the facade src/app/task_facade/peer.rs and the
    session tasks of src/runtime/session_task.rs.

    A channel file holds the text written to it.  The locks make an append and a read atomic,
    so a history of the channel is a sequence of them.  File operations succeed;
    [serde_json]'s codec of a message is a class. *)
From Stdlib Require Import NArith ZArith Lia.
From stdpp Require Import base list gmap strings numbers.
From S2P Require Import Prelude Text Collections Evidence.
#[local] Open Scope N_scope.

(** ** Session tasks *)
Inductive SessionTaskStatus : Type :=
| Pending | Running | Blocked | Failed | Cancelled | Completed.

Definition is_live (s : SessionTaskStatus) : bool :=
  match s with Pending | Running | Blocked => true | _ => false end.

Definition status_name (s : SessionTaskStatus) : str :=
  match s with
  | Pending => t!"pending" | Running => t!"running" | Blocked => t!"blocked"
  | Failed => t!"failed" | Cancelled => t!"cancelled" | Completed => t!"completed"
  end.

Record SessionTask := mk_SessionTask {
  st_id : str;
  st_parent_task_id : str;
  agent_id : str;
  prompt : str;
  lifecycle_state : SessionTaskStatus;
  worktree_path : option str;
  started_at : option N;
  updated_at : N;
  last_heartbeat : option N;
  handoff_summary : option str;
  supersedes : list str;
}.

(** [Utc::now().timestamp_millis().try_into().unwrap_or(u64::MAX)]. *)
Definition now_millis (timestamp_millis : Z) : N :=
  if (timestamp_millis <? 0)%Z then u64_max else Z.to_N timestamp_millis.

(** [uuid] is the fresh identifier, [now] the clock. *)
Definition session_task_new (parent_task_id agent_id prompt : str) (worktree_path : option str)
    (uuid : str) (now : N) : SessionTask :=
  mk_SessionTask (parent_task_id ++ t!"-" ++ agent_id ++ t!"-" ++ uuid) parent_task_id agent_id prompt
    Pending worktree_path None now None None [].

Definition stamp_join_supersedes (existing : list SessionTask) (sequential_continuation : bool)
    (t : SessionTask) : SessionTask :=
  let ids :=
    if sequential_continuation then map st_id existing
    else map st_id (List.filter (fun task => str_eqb (agent_id task) (agent_id t)) existing) in
  mk_SessionTask (st_id t) (st_parent_task_id t) (agent_id t) (prompt t) (lifecycle_state t)
    (worktree_path t) (started_at t) (updated_at t) (last_heartbeat t) (handoff_summary t) ids.

(** [started] and [now] are the two readings of the clock. *)
Definition transition_to (status : SessionTaskStatus) (started now : N) (t : SessionTask) : SessionTask :=
  let started_at :=
    match started_at t, status with None, Running => Some started | s, _ => s end in
  mk_SessionTask (st_id t) (st_parent_task_id t) (agent_id t) (prompt t) status
    (worktree_path t) started_at now (last_heartbeat t) (handoff_summary t) (supersedes t).

Definition record_heartbeat (now : N) (t : SessionTask) : SessionTask :=
  mk_SessionTask (st_id t) (st_parent_task_id t) (agent_id t) (prompt t) (lifecycle_state t)
    (worktree_path t) (started_at t) now (Some now) (handoff_summary t) (supersedes t).

Definition set_handoff_summary (summary : str) (now : N) (t : SessionTask) : SessionTask :=
  mk_SessionTask (st_id t) (st_parent_task_id t) (agent_id t) (prompt t) (lifecycle_state t)
    (worktree_path t) (started_at t) now (last_heartbeat t) (Some summary) (supersedes t).

(** ** Messages *)
Definition MAX_PEER_MESSAGE_BYTES : N := 4096.
Definition MAX_CHANNEL_DEPTH : nat := 256.
Definition MAX_CHANNEL_READ_BATCH : nat := 64.
Definition MAX_CHANNEL_FILE_BYTES : N := 1048576.
Definition MAX_LINE_BYTES : N := 8192.

Inductive PeerMessageKind : Type := StatusNote | Correction | Question | Acknowledgement.

Definition kind_name (k : PeerMessageKind) : str :=
  match k with
  | StatusNote => t!"observation" | Correction => t!"correction"
  | Question => t!"question" | Acknowledgement => t!"acknowledgement"
  end.

Definition parse_peer_message_kind (s : str) : option PeerMessageKind :=
  if str_in s [t!"observation"; t!"Observation"; t!"status-note"; t!"StatusNote"] then Some StatusNote
  else if str_in s [t!"correction"; t!"Correction"] then Some Correction
  else if str_in s [t!"question"; t!"Question"] then Some Question
  else if str_in s [t!"acknowledgement"; t!"Acknowledgement"] then Some Acknowledgement
  else None.

Record PeerMessage := mk_PeerMessage {
  pm_id : str;
  sent_at : N;
  sender_id : str;
  sender_agent_id : str;
  recipient : str;
  kind : PeerMessageKind;
  pm_content : str;
  parent_task_id : str;
}.

Definition peer_message_new (sender_id sender_agent_id parent_task_id recipient : str)
    (kind : PeerMessageKind) (content uuid : str) (now : N) : PeerMessage :=
  mk_PeerMessage uuid now sender_id sender_agent_id recipient kind content parent_task_id.

Class PeerCodec := {
  (** [serde_json::to_string(message).ok()] and [serde_json::from_str(line).ok()]. *)
  peer_to_string : PeerMessage -> option str;
  peer_from_str : str -> option PeerMessage;
}.

Inductive AppendMessageError : Type := ChannelFull | InternalError.

(** The channel files, by the task they belong to. *)
Abbreviation Channels := (gmap str str).

(** [read_line]: the lines of a file with their line feeds. *)
Fixpoint raw_lines (s : str) : list str :=
  match s with
  | [] => []
  | c :: r =>
      if c =? LF then [c] :: raw_lines r
      else match raw_lines r with [] => [[c]] | l :: t => (c :: l) :: t end
  end.

Definition count_lines (file : option str) : nat :=
  match file with
  | None => 0
  | Some text => length (List.filter (fun l => negb (is_empty (trim l))) (lines text))
  end.

Section channel.
Context {codec : PeerCodec}.

Definition append_message_inner (message : PeerMessage) (fs : Channels)
    : option AppendMessageError * Channels :=
  let file := fs !! parent_task_id message in
  if (MAX_CHANNEL_DEPTH <=? count_lines file)%nat then (Some ChannelFull, fs)
  else if match file with Some text => MAX_CHANNEL_FILE_BYTES <=? blen text | None => false end
  then (Some ChannelFull, fs)
  else match peer_to_string message with
  | None => (Some InternalError, fs)
  | Some line =>
      (None, <[parent_task_id message := unwrap_or file [] ++ line ++ [LF]]> fs)
  end.

(** Under the exclusive lock. *)
Definition append_message (message : PeerMessage) (fs : Channels)
    : option AppendMessageError * Channels := append_message_inner message fs.

(** What the loop does with a line: the message, if it is to be returned. *)
Definition read_line_message (after_ms : N) (recipient_filter : option str) (line_buf : str)
    : option PeerMessage :=
  if (MAX_LINE_BYTES <? blen line_buf) || is_empty (trim line_buf) then None
  else match peer_from_str (trim line_buf) with
  | None => None
  | Some msg =>
      if sent_at msg <=? after_ms then None
      else match recipient_filter with
      | Some agent_id =>
          if negb (str_eqb (recipient msg) t!"*") && negb (str_eqb (recipient msg) agent_id)
          then None else Some msg
      | None => Some msg
      end
  end.

Fixpoint read_loop (after_ms : N) (recipient_filter : option str) (results : list PeerMessage)
    (ls : list str) : list PeerMessage :=
  match ls with
  | [] => results
  | line_buf :: r =>
      match read_line_message after_ms recipient_filter line_buf with
      | None => read_loop after_ms recipient_filter results r
      | Some msg =>
          let results := results ++ [msg] in
          if (MAX_CHANNEL_READ_BATCH <=? length results)%nat then results
          else read_loop after_ms recipient_filter results r
      end
  end.

Definition read_messages (parent_task_id : str) (after_ms : N) (recipient_filter : option str)
    (fs : Channels) : list PeerMessage :=
  match fs !! parent_task_id with
  | None => []
  | Some text => read_loop after_ms recipient_filter [] (raw_lines text)
  end.

(** ** The facade *)
Inductive PeerChannelError : Type :=
| InvalidKind | ContentTooLong | ParentTaskNotFound | SenderNotInTask | PeerChannelFull | PeerInternal.

(** [session_tasks] are those of the parent task's state, if there is one. *)
Definition facade_post_peer_message (session_tasks : option (list SessionTask))
    (parent sender_id sender_agent_id recipient kind content uuid : str) (now : N) (fs : Channels)
    : (PeerMessage + PeerChannelError) * Channels :=
  match parse_peer_message_kind kind with
  | None => (inr InvalidKind, fs)
  | Some kind =>
      if MAX_PEER_MESSAGE_BYTES <? blen content then (inr ContentTooLong, fs)
      else match session_tasks with
      | None => (inr ParentTaskNotFound, fs)
      | Some tasks =>
          match List.find (fun task => str_eqb (st_id task) sender_id) tasks with
          | None => (inr SenderNotInTask, fs)
          | Some sender_task =>
              let message :=
                peer_message_new sender_id (agent_id sender_task) parent recipient kind content uuid now in
              match append_message message fs with
              | (None, fs) => (inl message, fs)
              | (Some ChannelFull, fs) => (inr PeerChannelFull, fs)
              | (Some InternalError, fs) => (inr PeerInternal, fs)
              end
          end
      end
  end.

Definition facade_read_peer_messages (parent_task_id : str) (after_ms : N)
    (recipient_filter : option str) (fs : Channels) : list PeerMessage :=
  read_messages parent_task_id after_ms recipient_filter fs.
End channel.
