(* ===== verification/PeerChannelTheory.v ===== *)
(** A channel is a bounded log of messages that is read in batches. *)
From Stdlib Require Import NArith ZArith Lia Sorted.
From stdpp Require Import base list gmap strings numbers sets.
From S2P Require Import Prelude Text Collections Evidence PeerChannel.
#[local] Open Scope N_scope.

(** ** Lines of a file *)
Lemma raw_lines_line l s : LF ∉ l -> raw_lines (l ++ LF :: s) = (l ++ [LF]) :: raw_lines s.
Proof.
  induction l as [|c l IH]; cbn [app raw_lines]; [by rewrite N.eqb_refl|].
  intros [Hc Hl]%not_elem_of_cons. rewrite (proj2 (N.eqb_neq c LF)) by done. by rewrite IH.
Qed.

(** What the code relies on of the text of a message: it is read back, and it is an object on
    one line. *)
Definition codec_ok `{PeerCodec} (m : PeerMessage) : Prop :=
  exists body, peer_to_string m = Some ([123] ++ body ++ [125]) /\ LF ∉ body
    /\ peer_from_str ([123] ++ body ++ [125]) = Some m.

(** ** The abstract log *)
Section log.
Context {codec : PeerCodec}.

Definition line_of (m : PeerMessage) : str := unwrap_or (peer_to_string m) [] ++ [LF].
Definition file_text (ms : list PeerMessage) : str := concat (map line_of ms).

Abbreviation Logs := (gmap str (list PeerMessage)).

Definition log_append (m : PeerMessage) (logs : Logs) : option AppendMessageError * Logs :=
  let ms := logs !!! parent_task_id m in
  if (256 <=? length ms)%nat || (1048576 <=? blen (file_text ms)) then (Some ChannelFull, logs)
  else (None, <[parent_task_id m := ms ++ [m]]> logs).

Definition wanted (after_ms : N) (recipient_filter : option str) (m : PeerMessage) : bool :=
  (after_ms <? sent_at m)
  && match recipient_filter with
     | Some id => str_eqb (recipient m) t!"*" || str_eqb (recipient m) id
     | None => true
     end.
(** The lines that are short enough to be read. *)
Definition readable (m : PeerMessage) : bool := blen (line_of m) <=? 8192.

Definition log_read (p : str) (after_ms : N) (recipient_filter : option str) (logs : Logs)
    : list PeerMessage :=
  take 64 (List.filter (fun m => readable m && wanted after_ms recipient_filter m) (logs !!! p)).

(** The file holds the log, one line for each message. *)
Definition stores (fs : Channels) (logs : Logs) : Prop :=
  forall p, Forall codec_ok (logs !!! p)
    /\ match logs !!! p with [] => fs !! p = None | ms => fs !! p = Some (file_text ms) end.

Lemma line_shape m : codec_ok m ->
  exists body, line_of m = ([123] ++ body ++ [125]) ++ [LF] /\ LF ∉ body
    /\ peer_from_str ([123] ++ body ++ [125]) = Some m.
Proof. intros (body & Hs & Hlf & Hp). exists body. unfold line_of. by rewrite Hs. Qed.

Lemma object_no_feed body : LF ∉ body -> LF ∉ [123] ++ body ++ [125].
Proof. intros Hb. rewrite !not_elem_of_app. split; [cbv; set_solver|]. split; [done | cbv; set_solver]. Qed.

Lemma trim_object body rest : forallb is_whitespace rest = true ->
  trim (([123] ++ body ++ [125]) ++ rest) = [123] ++ body ++ [125].
Proof.
  intros Hr. unfold trim, trim_start, trim_end. cbn [app drop_while]. change (is_whitespace 123) with false.
  cbn iota. rewrite app_comm_cons, reverse_app.
  rewrite drop_while_app_all.
  - rewrite app_comm_cons, reverse_app. cbn [reverse rev_append app drop_while].
    change (is_whitespace 125) with false. cbn iota.
    rewrite <- (reverse_involutive (123 :: body ++ [125])). f_equal.
    by rewrite app_comm_cons, reverse_app.
  - apply forallb_forall. intros c Hc. rewrite forallb_forall in Hr. apply Hr.
    apply list_elem_of_In, list.elem_of_reverse. by apply list_elem_of_In.
Qed.

Lemma raw_lines_text ms : Forall codec_ok ms -> raw_lines (file_text ms) = map line_of ms.
Proof.
  induction ms as [|m ms IH]; [done|]. intros [Hm Hms]%list.Forall_cons.
  unfold file_text in *. cbn [map concat]. destruct (line_shape m Hm) as (body & -> & Hlf & _).
  rewrite <- app_assoc. cbn [app]. rewrite (app_comm_cons (body ++ [125])).
  change (123 :: body ++ [125]) with ([123] ++ body ++ [125]).
  rewrite raw_lines_line by by apply object_no_feed. by rewrite IH.
Qed.

Lemma count_lines_text ms : Forall codec_ok ms -> count_lines (Some (file_text ms)) = length ms.
Proof.
  cbn [count_lines]. unfold lines. induction ms as [|m ms IH]; [done|]. intros [Hm Hms]%list.Forall_cons.
  unfold file_text in *. cbn [map concat]. destruct (line_shape m Hm) as (body & -> & Hlf & _).
  rewrite <- app_assoc. cbn [app]. rewrite (app_comm_cons (body ++ [125])).
  change (123 :: body ++ [125]) with ([123] ++ body ++ [125]).
  rewrite split_inclusive_cons by by apply object_no_feed. cbn [map List.filter].
  assert (strip_cr ([123] ++ body ++ [125]) = [123] ++ body ++ [125]) as ->.
  { unfold strip_cr. rewrite app_assoc, reverse_snoc. done. }
  pose proof (trim_object body [] eq_refl) as Ht. rewrite app_nil_r in Ht. rewrite Ht. cbn [app is_empty negb length].
  f_equal. by apply IH.
Qed.

Lemma read_line_spec after rf m :
  codec_ok m ->
  read_line_message after rf (line_of m) = if readable m && wanted after rf m then Some m else None.
Proof.
  intros Hm. unfold read_line_message, readable, MAX_LINE_BYTES.
  destruct (line_shape m Hm) as (body & Hl & Hlf & Hp).
  assert (trim (line_of m) = [123] ++ body ++ [125]) as -> by (rewrite Hl; by apply trim_object).
  rewrite Hp. cbn [app is_empty]. rewrite orb_false_r, N.ltb_antisym. destruct (blen (line_of m) <=? 8192); cbn [negb andb]; [|done].
  unfold wanted. rewrite N.ltb_antisym. destruct (sent_at m <=? after); cbn [negb andb]; [done|].
  destruct rf as [id|]; [|done]. by destruct (str_eqb (recipient m) t!"*"), (str_eqb (recipient m) id).
Qed.

Lemma read_loop_spec after rf ms results :
  Forall codec_ok ms -> (length results < 64)%nat ->
  read_loop after rf results (map line_of ms)
  = take 64 (results ++ List.filter (fun m => readable m && wanted after rf m) ms).
Proof.
  revert results. induction ms as [|m ms IH]; intros results Hms Hl; cbn [map read_loop List.filter].
  { rewrite app_nil_r, take_ge by lia. done. }
  apply list.Forall_cons in Hms as [Hm Hms]. rewrite (read_line_spec after rf m Hm).
  destruct (readable m && wanted after rf m); [|by apply IH].
  unfold MAX_CHANNEL_READ_BATCH. destruct (Nat.leb_spec 64 (length (results ++ [m]))) as [Hf|Hf].
  - rewrite length_app in Hf. cbn in Hf.
    set (fs := List.filter _ ms). change (m :: fs) with ([m] ++ fs).
    rewrite (app_assoc results [m] fs), take_app_le.
    + rewrite take_ge; [done|]. rewrite length_app. cbn. lia.
    + rewrite length_app. cbn. lia.
  - rewrite IH by done. by rewrite <- app_assoc.
Qed.

Lemma read_stores fs logs p after rf :
  stores fs logs -> read_messages p after rf fs = log_read p after rf logs.
Proof.
  intros Hst. destruct (Hst p) as [Hok Hf]. unfold read_messages, log_read.
  destruct (logs !!! p) as [|m ms] eqn:E; rewrite Hf; [done|].
  rewrite raw_lines_text by done. by rewrite read_loop_spec by (done || (cbn; lia)).
Qed.

Lemma append_stores fs logs m :
  stores fs logs -> codec_ok m ->
  let '(r, fs') := append_message m fs in
  let '(r', logs') := log_append m logs in
  r = r' /\ stores fs' logs'.
Proof.
  intros Hst Hm. unfold append_message, append_message_inner, log_append, MAX_CHANNEL_DEPTH, MAX_CHANNEL_FILE_BYTES.
  set (p := parent_task_id m). destruct (Hst p) as [Hok Hf].
  assert (count_lines (fs !! p) = length (logs !!! p)
    /\ match fs !! p with Some text => 1048576 <=? blen text | None => false end
       = (1048576 <=? blen (file_text (logs !!! p)))
    /\ unwrap_or (fs !! p) [] = file_text (logs !!! p)) as (Hc & Hb & Ht).
  { destruct (logs !!! p) as [|m0 ms] eqn:E; rewrite Hf; [done|].
    split; [by apply count_lines_text | done]. }
  rewrite Hc, Hb, Ht. destruct (256 <=? length (logs !!! p))%nat; cbn [orb]; [done|].
  destruct (1048576 <=? _); [done|].
  pose proof Hm as (body & Hs & _). rewrite Hs. split; [done|]. intros q.
  destruct (decide (q = p)) as [->|Hne].
  - rewrite lookup_total_insert_eq, lookup_insert_eq. split; [by apply list.Forall_app; split; [|constructor]|].
    destruct (logs !!! p ++ [m]) as [|m1 ms1] eqn:E; [by apply app_nil in E as [_ ?]|]. rewrite <- E.
    unfold file_text. rewrite map_app, concat_app. cbn [map concat]. rewrite app_nil_r.
    unfold line_of. by rewrite Hs.
  - rewrite lookup_total_insert_ne, lookup_insert_ne by done. apply Hst.
Qed.

(** ** Histories *)
Inductive ChannelOp : Type :=
| Post (m : PeerMessage)
| Read (p : str) (after_ms : N) (recipient_filter : option str).

Inductive ChannelResult : Type :=
| Posted (e : option AppendMessageError)
| Got (ms : list PeerMessage).

Definition op_ok (o : ChannelOp) : Prop := match o with Post m => codec_ok m | Read _ _ _ => True end.

Fixpoint run_channel (os : list ChannelOp) (fs : Channels) : list ChannelResult * Channels :=
  match os with
  | [] => ([], fs)
  | Post m :: r =>
      let '(e, fs) := append_message m fs in
      let '(l, fs) := run_channel r fs in (Posted e :: l, fs)
  | Read p after rf :: r =>
      let '(l, fs') := run_channel r fs in (Got (read_messages p after rf fs) :: l, fs')
  end.

Fixpoint run_log (os : list ChannelOp) (logs : Logs) : list ChannelResult * Logs :=
  match os with
  | [] => ([], logs)
  | Post m :: r =>
      let '(e, logs) := log_append m logs in
      let '(l, logs) := run_log r logs in (Posted e :: l, logs)
  | Read p after rf :: r =>
      let '(l, logs') := run_log r logs in (Got (log_read p after rf logs) :: l, logs')
  end.

Definition deep (logs : Logs) : Prop := forall p, (length (logs !!! p) <= 256)%nat.

Lemma append_deep m logs : deep logs -> deep (log_append m logs).2.
Proof.
  intros Hd. unfold log_append. destruct (_ || _) eqn:E; [done|]. intros q.
  apply orb_false_iff in E as [Hl%Nat.leb_gt _]. cbn [snd].
  destruct (decide (q = parent_task_id m)) as [->|Hne].
  - rewrite lookup_total_insert_eq, length_app. cbn. lia.
  - by rewrite lookup_total_insert_ne.
Qed.

Lemma run_channel_log os fs logs :
  Forall op_ok os -> stores fs logs -> deep logs ->
  (run_channel os fs).1 = (run_log os logs).1 /\ stores (run_channel os fs).2 (run_log os logs).2
  /\ deep (run_log os logs).2.
Proof.
  revert fs logs. induction os as [|[m|p after rf] os IH]; intros fs logs Hok Hst Hd; [done| |];
    apply list.Forall_cons in Hok as [Ho Hok]; cbn [run_channel run_log].
  - pose proof (append_stores fs logs m Hst Ho) as Ha. pose proof (append_deep m logs Hd) as Hd'.
    destruct (append_message m fs) as [e fs'], (log_append m logs) as [e' logs']. destruct Ha as [-> Hst'].
    specialize (IH fs' logs' Hok Hst' Hd').
    destruct (run_channel os fs') as [l fs2], (run_log os logs') as [l' logs2]. cbn in *.
    destruct IH as (-> & ? & ?). done.
  - specialize (IH fs logs Hok Hst Hd). rewrite (read_stores fs logs) by done.
    destruct (run_channel os fs) as [l fs2], (run_log os logs) as [l' logs2]. cbn in *.
    destruct IH as (-> & ? & ?). done.
Qed.
End log.

(** C38: a channel is a bounded log.  Whatever posts and reads of whatever channels follow one
    another, each post is accepted or refused and each read returns what it would on logs
    that a message is appended to unless there are 256 of them or a mebibyte of lines, and of
    which a read gives the first 64 that are newer, addressed to the reader and short enough
    as a line.  No log ever holds more than 256 messages. *)
Theorem channel_refines_log `{!PeerCodec} os :
  Forall op_ok os ->
  (run_channel os ∅).1 = (run_log os ∅).1 /\ deep (run_log os ∅).2.
Proof.
  intros Hok. destruct (run_channel_log os ∅ ∅) as (H1 & _ & H2); [done | | |done].
  - intros p. rewrite lookup_total_empty, lookup_empty. done.
  - intros p. rewrite lookup_total_empty. cbn. lia.
Qed.

(** A codec to evaluate examples with: the content in braces, with the time a function of it. *)
Definition brace_codec (time : str -> N) : PeerCodec := {|
  peer_to_string m := Some ([123] ++ pm_content m ++ [125]);
  peer_from_str s :=
    let c := reverse (drop 1 (reverse (drop 1 s))) in
    Some (mk_PeerMessage [] (time c) [] [] t!"*" Question c t!"task");
|}.
Definition brace_message (time : str -> N) (c : str) : PeerMessage :=
  mk_PeerMessage [] (time c) [] [] t!"*" Question c t!"task".

Lemma brace_codec_ok time c : LF ∉ c -> @codec_ok (brace_codec time) (brace_message time c).
Proof.
  intros Hc. exists c. split_and!; [done | done |].
  assert (reverse (drop 1 (reverse (drop 1 ([123] ++ c ++ [125])))) = c) as Hr.
  { change (drop 1 ([123] ++ c ++ [125])) with (drop 0 (c ++ [125])). rewrite drop_0, reverse_snoc.
    change (drop 1 (125 :: reverse c)) with (drop 0 (reverse c)). by rewrite drop_0, reverse_involutive. }
  unfold peer_from_str, brace_codec. cbv zeta. by rewrite Hr.
Qed.

Lemma channel_refines_log_witness :
  let time c := N.of_nat (length c) in
  let os := [Post (brace_message time t!"a"); Post (brace_message time t!"bb"); Read t!"task" 1 None] in
  (@run_channel (brace_codec time) os ∅).1
  = [Posted None; Posted None; Got [brace_message time t!"bb"]].
Proof.
  cbv zeta. set (time := fun c : str => N.of_nat (length c)).
  destruct (@channel_refines_log (brace_codec time)
    [Post (brace_message time t!"a"); Post (brace_message time t!"bb"); Read t!"task" 1 None]) as [H _].
  { repeat constructor; apply brace_codec_ok; cbv; set_solver. }
  rewrite H. vm_compute. reflexivity.
Defined.

(** ** Polling *)
Section polling.
Context {codec : PeerCodec}.

(** A reader that asks again for what is newer than the last message it got. *)
Fixpoint poll (n : nat) (p : str) (after_ms : N) (rf : option str) (fs : Channels) : list PeerMessage :=
  match n with
  | O => []
  | S n =>
      let batch := read_messages p after_ms rf fs in
      batch ++ poll n p (match list.last batch with Some m => sent_at m | None => after_ms end) rf fs
  end.

Definition earlier (a b : PeerMessage) : Prop := sent_at a < sent_at b.

Lemma filter_after ms after rf x B R :
  StronglySorted earlier ms ->
  List.filter (fun m => readable m && wanted after rf m) ms = (B ++ [x]) ++ R ->
  List.filter (fun m => readable m && wanted (sent_at x) rf m) ms = R.
Proof.
  set (f := fun a m => readable m && wanted a rf m). intros Hs Hf.
  change (List.filter (f (sent_at x)) ms = R). change (List.filter (f after) ms = (B ++ [x]) ++ R) in Hf.
  assert (after < sent_at x) as Hx.
  { assert (x ∈ List.filter (f after) ms) as Hin by (rewrite Hf, !elem_of_app; left; right; by left).
    apply list_elem_of_In, List.filter_In in Hin as [_ Hin]. unfold f, wanted in Hin.
    apply andb_prop in Hin as [_ [Hin _]%andb_prop]. by apply N.ltb_lt. }
  assert (forall l, List.filter (f (sent_at x)) l
    = List.filter (fun m => sent_at x <? sent_at m) (List.filter (f after) l)) as Hff.
  { assert (forall m, f (sent_at x) m = f after m && (sent_at x <? sent_at m)) as Hm.
    { intros m. unfold f, wanted. destruct (readable m); cbn [andb]; [|done].
      destruct (N.ltb_spec (sent_at x) (sent_at m)) as [Hlt|Hge]; cbn [andb].
      - by rewrite (proj2 (N.ltb_lt after (sent_at m))), andb_true_r by lia.
      - by rewrite andb_false_r. }
    induction l as [|m l IH]; [done|]. cbn [List.filter]. rewrite Hm.
    destruct (f after m); cbn [andb List.filter]; [|exact IH].
    by destruct (sent_at x <? sent_at m); rewrite IH. }
  rewrite Hff, Hf. assert (StronglySorted earlier ((B ++ [x]) ++ R)) as Hs'.
  { rewrite <- Hf. clear -Hs. induction Hs as [|m l Hl IH Hm]; cbn [List.filter]; [constructor|].
    destruct (f after m); [|done]. constructor; [done|]. apply list.Forall_forall. intros y Hy.
    apply list_elem_of_In, List.filter_In in Hy as [Hy _]. rewrite list.Forall_forall in Hm.
    by apply Hm, list_elem_of_In. }
  clear -Hs'. rewrite List.filter_app.
  assert (List.filter (fun m => sent_at x <? sent_at m) (B ++ [x]) = []) as ->.
  { induction B as [|b B IH]; cbn [app List.filter] in *.
    - by rewrite N.ltb_irrefl.
    - inversion Hs' as [|? ? Hs Hb]; subst. rewrite IH by done.
      rewrite list.Forall_forall in Hb. rewrite (proj2 (N.ltb_ge _ _)); [done|].
      apply N.lt_le_incl, (Hb x). rewrite !elem_of_app. left. right. by left. }
  cbn [app]. induction B as [|b B IH]; cbn [app] in Hs'; [|by inversion Hs'; subst; apply IH].
  inversion Hs' as [|? ? Hs Hb]; subst. clear -Hb. induction Hb as [|y R Hy HR IH]; [done|].
  cbn [List.filter]. unfold earlier in Hy. rewrite (proj2 (N.ltb_lt _ _)) by done. by rewrite IH.
Qed.
End polling.

(** Polling delivers everything, once.  In a channel whose messages were sent at increasing
    times, a reader that always asks for what is newer than the last message it got receives,
    in enough polls of 64, every message newer than where it began that is for it and short
    enough to be read, in the order they were sent and each exactly once. *)
Theorem poll_delivers `{!PeerCodec} n p after rf fs logs :
  stores fs logs -> StronglySorted earlier (logs !!! p) ->
  let due := List.filter (fun m => readable m && wanted after rf m) (logs !!! p) in
  (length due <= 64 * n)%nat -> poll n p after rf fs = due.
Proof.
  intros Hst Hs. cbv zeta. revert after. induction n as [|n IH]; intros after Hl; cbn [poll].
  { destruct (List.filter _ _); [done | cbn in Hl; lia]. }
  rewrite (read_stores fs logs) by done. unfold log_read.
  set (due := List.filter _ _) in *. destruct (list.last (take 64 due)) as [x|] eqn:Hx.
  - apply last_Some in Hx as [B HB]. assert (due = (B ++ [x]) ++ drop 64 due) as Hd
      by (by rewrite <- HB, take_drop).
    pose proof (filter_after _ after rf x B _ Hs Hd) as Hf.
    rewrite IH; rewrite Hf; [by rewrite take_drop|]. rewrite length_drop. lia.
  - apply last_None in Hx. rewrite Hx. cbn [app].
    assert (due = []) as Hd by (destruct due; done).
    rewrite IH; fold due; [done|]. rewrite Hd. cbn. lia.
Qed.

Definition clock_of (c : str) : N := N.of_nat (length c).

Lemma poll_delivers_witness :
  let ms := map (brace_message clock_of) [t!"a"; t!"bb"; t!"ccc"] in
  @poll (brace_codec clock_of) 1 t!"task" 1 None
    {[ t!"task" := @file_text (brace_codec clock_of) ms ]}
  = map (brace_message clock_of) [t!"bb"; t!"ccc"].
Proof.
  cbv zeta. set (ms := map (brace_message clock_of) [t!"a"; t!"bb"; t!"ccc"]).
  rewrite (@poll_delivers (brace_codec clock_of) 1 t!"task" 1 None _ {[ t!"task" := ms ]}).
  - rewrite lookup_total_singleton_eq. vm_compute. reflexivity.
  - intros q. destruct (decide (q = t!"task")) as [->|Hne].
    + rewrite lookup_total_singleton_eq, lookup_singleton_eq. split; [|done].
      repeat constructor; apply brace_codec_ok; cbv; set_solver.
    + rewrite lookup_total_singleton_ne, lookup_singleton_ne by done. done.
  - rewrite lookup_total_singleton_eq. repeat constructor.
  - rewrite lookup_total_singleton_eq. vm_compute. lia.
Defined.

(** Of 65 messages sent in the same millisecond such a reader never gets the last. *)
Example same_instant_lost :
  let time (c : str) := 5 in
  let ms := map (fun i => brace_message time (fmt_N (N.of_nat i))) (seq 0 65) in
  @poll (brace_codec time) 10 t!"task" 0 None {[ t!"task" := @file_text (brace_codec time) ms ]}
  = take 64 ms.
Proof. vm_compute. reflexivity. Qed.
