(* ===== verification/MultiplexPrefix.v ===== *)
(** The prefix that the agents of a team share, its canonical text and the cache of it:
    src/runtime/multiplex_prefix.rs.

    The printer of [serde_json] and the hash [xxh3_128] are parameters.  An object's keys are
    distinct. *)
From Stdlib Require Import NArith ZArith Lia.
From stdpp Require Import base list gmap strings numbers sets.
From S2P Require Import Prelude Text Utf8 Collections Json Evidence.
#[local] Open Scope N_scope.

Record ToolDescriptor := mk_ToolDescriptor {
  tool_name : str;
  schema : value;
}.

Record SharedPrefix := mk_SharedPrefix {
  system_prompt : str;
  tools : list ToolDescriptor;
  workspace_context : str;
}.

Definition FINGERPRINT_VERSION : N := 2.

(** Sorting the keys of an object, after its entries. *)
Definition sort_entries (m : list (str * value)) : list (str * value) :=
  foldl (fun sorted key =>
      match im_get key m with Some entry => im_insert key entry sorted | None => sorted end)
    [] (sort_by str_ltb (map fst m)).

Fixpoint thin_json_value (v : value) : value :=
  match v with
  | Array items => Array (map thin_json_value items)
  | Object m => Object (sort_entries (map (fun kv => (kv.1, thin_json_value kv.2)) m))
  | v => v
  end.

Definition normalise_prompt (input : str) : str := join [LF] (map trim_end (lines input)).

Class Xxh3 := xxh3_128 : bytes -> N.

(** [{:032x}]. *)
Fixpoint hex_digits (n : nat) (x : N) : str :=
  match n with O => [] | S n => hex_digits n (x / 16) ++ [hex_digit (x mod 16)] end.

Section prefix.
Context {js : SerdeJson} {xxh : Xxh3}.

Definition thin_json_string (v : value) : str :=
  unwrap_or (json_to_string (thin_json_value v)) t!"null".

Record ImplementedTool := mk_ImplementedTool {
  it_name : str;
  it_schema : value;
  schema_json : str;
}.

Definition implement_tool (tool : ToolDescriptor) : ImplementedTool :=
  let schema := thin_json_value (schema tool) in
  mk_ImplementedTool (tool_name tool) schema (thin_json_string schema).

Definition tool_before (a b : ImplementedTool) : bool :=
  str_ltb (it_name a) (it_name b)
  || str_eqb (it_name a) (it_name b) && str_ltb (schema_json a) (schema_json b).

Definition tool_entry (tool : ImplementedTool) : value :=
  Object (im_insert t!"schema" (it_schema tool) (im_insert t!"name" (String (it_name tool)) [])).

Definition implemented_value (p : SharedPrefix) : value :=
  let tools := sort_by tool_before (map implement_tool (tools p)) in
  Object
    (im_insert t!"workspace_context" (String (trim_end (workspace_context p)))
      (im_insert t!"tools" (Array (map tool_entry tools))
        (im_insert t!"system_prompt" (String (normalise_prompt (system_prompt p))) []))).

Definition implemented_json (p : SharedPrefix) : str := thin_json_string (implemented_value p).

Definition fingerprint (p : SharedPrefix) : str :=
  t!"v" ++ fmt_N FINGERPRINT_VERSION ++ t!"-"
  ++ hex_digits 32 (xxh3_128 (utf8_encode (implemented_json p))).

(** ** The cache *)
Record MultiplexPrefixManager := mk_MultiplexPrefixManager {
  capacity : nat;
  entries : gmap str bytes;
  insertion_order : list str;
}.

Definition manager_new (capacity : nat) : MultiplexPrefixManager :=
  mk_MultiplexPrefixManager (Nat.max capacity 1) ∅ [].

(** [while insertion_order.len() >= capacity { ... }]. *)
Fixpoint evict (capacity : nat) (entries : gmap str bytes) (order : list str)
    : gmap str bytes * list str :=
  match order with
  | [] => (entries, [])
  | oldest :: rest =>
      if (capacity <=? length order)%nat then evict capacity (delete oldest entries) rest
      else (entries, order)
  end.

Definition contains (fp : str) (m : MultiplexPrefixManager) : bool := opt_is_some (entries m !! fp).

Definition insert (fp : str) (blob : bytes) (m : MultiplexPrefixManager) : MultiplexPrefixManager :=
  if contains fp m then m
  else
    let '(es, order) := evict (capacity m) (entries m) (insertion_order m) in
    mk_MultiplexPrefixManager (capacity m) (<[fp := blob]> es) (order ++ [fp]).

Definition register (prefix : SharedPrefix) (m : MultiplexPrefixManager)
    : str * MultiplexPrefixManager :=
  let fp := fingerprint prefix in
  if contains fp m then (fp, m)
  else (fp, insert fp (utf8_encode (implemented_json prefix)) m).

Definition get (fp : str) (m : MultiplexPrefixManager) : option bytes := entries m !! fp.
Definition manager_len (m : MultiplexPrefixManager) : nat := size (entries m).
Definition manager_is_empty (m : MultiplexPrefixManager) : bool := (manager_len m =? 0)%nat.
End prefix.

(** ** The cache is first in, first out *)
Record manager_ok (m : MultiplexPrefixManager) : Prop := {
  ok_capacity : (0 < capacity m)%nat;
  ok_nodup : NoDup (insertion_order m);
  ok_dom : forall fp, is_Some (entries m !! fp) <-> fp ∈ insertion_order m;
  ok_length : (length (insertion_order m) <= capacity m)%nat;
}.

Lemma manager_new_ok n : manager_ok (manager_new n).
Proof.
  split; cbn; [lia | constructor | | lia]. intros fp. rewrite lookup_empty. split.
  - by intros [? ?].
  - intros H. by apply elem_of_nil in H.
Qed.

Lemma evict_spec cap es order :
  (0 < cap)%nat -> NoDup order -> (forall fp, is_Some (es !! fp) <-> fp ∈ order) ->
  let n := (S (length order) - cap)%nat in
  let '(es', order') := evict cap es order in
  order' = drop n order
  /\ forall fp, es' !! fp = if bool_decide (fp ∈ take n order) then None else es !! fp.
Proof.
  intros Hc. revert es. induction order as [|x order IH]; intros es Hnd Hdom; cbn [evict].
  { rewrite drop_nil, take_nil. split; [done|]. intros fp. by rewrite bool_decide_eq_false_2 by apply not_elem_of_nil. }
  cbn [length]. destruct (Nat.leb_spec cap (S (length order))) as [Hle|Hgt].
  - apply NoDup_cons in Hnd as [Hx Hnd].
    assert (forall fp, is_Some (delete x es !! fp) <-> fp ∈ order) as Hdom'.
    { intros fp. destruct (decide (fp = x)) as [->|Hne].
      - rewrite lookup_delete_eq. split; [by intros [? ?] | done].
      - rewrite lookup_delete_ne, Hdom, elem_of_cons by done. naive_solver. }
    specialize (IH (delete x es) Hnd Hdom'). cbv zeta in IH.
    replace (S (S (length order)) - cap)%nat with (S (S (length order) - cap)) by lia.
    destruct (evict cap (delete x es) order) as [es' order']. destruct IH as [-> Hes].
    split; [done|]. intros fp. rewrite Hes. cbn [take].
    destruct (decide (fp = x)) as [->|Hne].
    + rewrite lookup_delete_eq, (bool_decide_eq_true_2 (x ∈ x :: _)) by (by left). by destruct (bool_decide _).
    + rewrite lookup_delete_ne by done. rewrite (bool_decide_ext (fp ∈ x :: _) (fp ∈ take (S (length order) - cap) order));
        [done|]. rewrite elem_of_cons. naive_solver.
  - replace (S (S (length order)) - cap)%nat with 0%nat by lia. split; [done|]. intros fp.
    by rewrite bool_decide_eq_false_2 by apply not_elem_of_nil.
Qed.

(** The cache is first in, first out.  Inserting a fingerprint that is cached changes nothing.
    Inserting another makes room by dropping the oldest, exactly as many as the capacity asks
    for, keeps every other blob, and the cache, never over its capacity, lists each cached
    fingerprint once, in the order of insertion. *)
Theorem cache_first_in_first_out fp blob m :
  manager_ok m ->
  let m' := insert fp blob m in
  manager_ok m'
  /\ if contains fp m then m' = m
     else
       let n := (S (length (insertion_order m)) - capacity m)%nat in
       insertion_order m' = drop n (insertion_order m) ++ [fp]
       /\ get fp m' = Some blob
       /\ forall fp', fp' <> fp ->
            get fp' m' = if bool_decide (fp' ∈ take n (insertion_order m)) then None else get fp' m.
Proof.
  intros Hm. cbv zeta. unfold insert. destruct (contains fp m) eqn:Hin; [done|].
  destruct Hm as [Hc Hnd Hdom Hl]. pose proof (evict_spec _ _ _ Hc Hnd Hdom) as He. cbv zeta in He.
  set (n := (S (length (insertion_order m)) - capacity m)%nat) in *.
  destruct (evict _ _ _) as [es order]. destruct He as [-> Hes]. unfold get. cbn [entries insertion_order capacity].
  assert (fp ∉ insertion_order m) as Hfp.
  { rewrite <- Hdom. unfold contains in Hin. destruct (entries m !! fp); [done|]. by intros [? ?]. }
  assert (NoDup (take n (insertion_order m) ++ drop n (insertion_order m))) as Hnd' by (by rewrite take_drop).
  apply NoDup_app in Hnd' as (Hnt & Hdisj & Hndd).
  split; [|split_and!; [done | apply lookup_insert_eq | intros fp' Hne; by rewrite lookup_insert_ne]].
  split; cbn [entries insertion_order capacity]; [done | | |].
  - apply NoDup_app. split_and!; [done | | apply NoDup_singleton].
    intros x Hx Hx'. apply list_elem_of_singleton in Hx' as ->. apply Hfp.
    rewrite <- (take_drop n (insertion_order m)), elem_of_app. by right.
  - intros fp'. rewrite elem_of_app, list_elem_of_singleton. destruct (decide (fp' = fp)) as [->|Hne].
    { rewrite lookup_insert_eq. split; [by right | by eexists]. }
    rewrite lookup_insert_ne, Hes by done. case_bool_decide as Ht.
    + split; [by intros [? ?] | intros [Hd|?]; [|done]]. by destruct (Hdisj fp').
    + rewrite Hdom. rewrite <- (take_drop n (insertion_order m)) at 1. rewrite elem_of_app. naive_solver.
  - rewrite length_app, length_drop. cbn. lia.
Qed.

Lemma cache_first_in_first_out_witness :
  let m := insert t!"b" [2] (insert t!"a" [1] (manager_new 2)) in
  manager_ok m
  /\ insertion_order (insert t!"c" [3] m) = [t!"b"; t!"c"]
  /\ get t!"a" (insert t!"c" [3] m) = None.
Proof.
  cbv zeta.
  destruct (cache_first_in_first_out t!"a" [1] (manager_new 2) (manager_new_ok 2)) as [Ha _].
  destruct (cache_first_in_first_out t!"b" [2] _ Ha) as [Hb _].
  destruct (cache_first_in_first_out t!"c" [3] _ Hb) as (_ & Ho & _ & Hg).
  split; [exact Hb|]. split; [exact Ho|]. rewrite Hg by done. reflexivity.
Defined.

(** ** The canonical text *)
(** Equal up to the order of the entries of objects. *)
Inductive same_json : value -> value -> Prop :=
| same_refl v : same_json v v
| same_array l l' : Forall2 same_json l l' -> same_json (Array l) (Array l')
| same_object m m1 m' :
    NoDup (map fst m) -> Permutation m m1 ->
    Forall2 (fun a b => a.1 = b.1 /\ same_json a.2 b.2) m1 m' ->
    same_json (Object m) (Object m').

Lemma im_get_in k v (m : list (str * value)) : NoDup (map fst m) -> im_get k m = Some v <-> (k, v) ∈ m.
Proof.
  induction m as [|[k' v'] m IH]; cbn [map fst im_get]; [by rewrite elem_of_nil|].
  intros [Hk Hnd]%NoDup_cons. rewrite elem_of_cons. destruct (decide (k = k')) as [->|Hne].
  - split; [intros [= ->]; by left | intros [[= ->]|Hin]; [done|]]. exfalso. apply Hk.
    apply list_elem_of_In in Hin. apply list_elem_of_In. by apply (List.in_map fst) in Hin.
  - rewrite IH by done. split; [by right | intros [[= -> ->]|?]; done].
Qed.

Lemma im_get_perm k (m m' : list (str * value)) :
  NoDup (map fst m) -> Permutation m m' -> im_get k m = im_get k m'.
Proof.
  intros Hnd Hp. assert (NoDup (map fst m')) as Hnd' by (by rewrite <- Hp).
  destruct (im_get k m) as [v|] eqn:E.
  - apply im_get_in in E; [|done]. rewrite Hp in E. symmetry. by apply im_get_in.
  - destruct (im_get k m') as [v|] eqn:E'; [|done].
    apply im_get_in in E'; [|done]. rewrite <- Hp in E'. apply im_get_in in E'; [congruence | done].
Qed.

Lemma sort_entries_perm m m' :
  NoDup (map fst m) -> Permutation m m' -> sort_entries m = sort_entries m'.
Proof.
  intros Hnd Hp. unfold sort_entries.
  rewrite (sort_by_perm str_ltb str_ltb_asym str_ltb_weak (map fst m) (map fst m')).
  - generalize (@nil (str * value)). induction (sort_by str_ltb (map fst m')) as [|k ks IH]; intros acc; [done|].
    cbn [foldl]. rewrite (im_get_perm k m m') by done. apply IH.
  - by rewrite Hp.
  - intros x y _ _. apply str_ltb_total.
Qed.

Lemma thin_same : forall v w, same_json v w -> thin_json_value v = thin_json_value w.
Proof.
  fix IH 3. intros v w [v0|l l' Hl|m m1 m' Hnd Hp Hm]; [done| |].
  - cbn [thin_json_value]. f_equal. induction Hl as [|a b l l' Hab Hl IHl]; [done|].
    cbn [map]. by rewrite IHl, (IH a b Hab).
  - cbn [thin_json_value]. f_equal. set (f := fun kv : str * value => (kv.1, thin_json_value kv.2)).
    assert (map f m1 = map f m') as <-.
    { clear Hp. induction Hm as [|a b m1 m' [Hk Hab] Hm IHm]; [done|].
      cbn [map]. rewrite IHm. unfold f at 1 3. by rewrite Hk, (IH a.2 b.2 Hab). }
    apply sort_entries_perm; [|by apply Permutation_map].
    rewrite map_map. exact Hnd.
Qed.

Section canonical.
Context {js : SerdeJson} {xxh : Xxh3}.

Lemma tool_before_asym a b : tool_before a b = true -> tool_before b a = false.
Proof.
  unfold tool_before, str_eqb. intros [Hn|[Hn Hs]%andb_prop]%orb_prop.
  - rewrite (str_ltb_asym _ _ Hn). case_bool_decide as He; [|done].
    by rewrite He, str_ltb_irrefl in Hn.
  - apply bool_decide_eq_true in Hn as He; rewrite (bool_decide_eq_true_2 _ (eq_sym He)).
    by rewrite <- He, str_ltb_irrefl, (str_ltb_asym _ _ Hs), andb_false_r.
Qed.

Lemma tool_before_weak x y z :
  tool_before z y = true -> tool_before z x = false -> tool_before x y = true.
Proof.
  unfold tool_before, str_eqb. intros Hzy [Hn Hs]%orb_false_elim.
  case_bool_decide as He; cbn in Hs.
  - rewrite <- He. apply orb_prop in Hzy as [->|[-> H]%andb_prop]; [done|].
    by rewrite (str_ltb_weak _ _ _ H Hs), orb_true_r.
  - assert (str_ltb (it_name x) (it_name z) = true) as Hxz.
    { destruct (str_ltb (it_name x) (it_name z)) eqn:E; [done|]. by destruct He; apply str_ltb_total. }
    apply orb_prop in Hzy as [H|[H _]%andb_prop].
    + by rewrite (str_ltb_trans _ _ _ Hxz H).
    + apply bool_decide_eq_true in H as <-. by rewrite Hxz.
Qed.

Lemma tool_before_total x y :
  tool_before x y = false -> tool_before y x = false ->
  it_name x = it_name y /\ schema_json x = schema_json y.
Proof.
  unfold tool_before, str_eqb. intros [Hn Hs]%orb_false_elim [Hn' Hs']%orb_false_elim.
  pose proof (str_ltb_total _ _ Hn Hn') as He. split; [done|].
  rewrite He, (bool_decide_eq_true_2 _ eq_refl) in Hs, Hs'. by apply str_ltb_total.
Qed.

(** The same tools up to their order and the order of the keys of their schemas. *)
Definition same_tools (ts ts' : list ToolDescriptor) : Prop :=
  exists us, Permutation ts us
    /\ Forall2 (fun a b => tool_name a = tool_name b /\ same_json (schema a) (schema b)) us ts'.

(** Tools that print alike are alike, as they are for a printer that is injective on the
    schemas. *)
Definition tools_told_apart (ts : list ToolDescriptor) : Prop :=
  forall a b, a ∈ ts -> b ∈ ts -> tool_name a = tool_name b ->
    thin_json_string (thin_json_value (schema a)) = thin_json_string (thin_json_value (schema b)) ->
    thin_json_value (schema a) = thin_json_value (schema b).

Lemma same_tools_implemented ts ts' :
  same_tools ts ts' -> Permutation (map implement_tool ts) (map implement_tool ts').
Proof.
  intros (us & Hp & Hf). rewrite Hp. clear Hp. match goal with |- Permutation ?a ?b => enough (a = b) as -> by done end.
  induction Hf as [|a b us ts' [Hn Hs] Hf IH]; [done|]. cbn [map]. rewrite IH. f_equal.
  unfold implement_tool. by rewrite Hn, (thin_same _ _ Hs).
Qed.

(** The fingerprint is canonical.  Two prefixes whose prompts agree line by line up to
    trailing whitespace, whose contexts agree up to trailing whitespace and whose tools agree up
    to their order and to the order of the keys of their schemas, at any depth, have the same
    fingerprint, so that registering the second after the first finds the cached text and leaves
    the cache as it is. *)
Theorem fingerprint_canonical p q m :
  normalise_prompt (system_prompt p) = normalise_prompt (system_prompt q) ->
  trim_end (workspace_context p) = trim_end (workspace_context q) ->
  same_tools (tools p) (tools q) -> tools_told_apart (tools p) ->
  fingerprint p = fingerprint q
  /\ register q (register p m).2 = (fingerprint p, (register p m).2)
  /\ contains (fingerprint q) (register p m).2 = true.
Proof.
  intros Hp Hc Ht Htot.
  assert (implemented_json p = implemented_json q) as Hj.
  { unfold implemented_json, implemented_value. do 2 f_equal. rewrite Hp, Hc.
    rewrite (sort_by_perm tool_before tool_before_asym tool_before_weak _ (map implement_tool (tools q)));
      [done | by apply same_tools_implemented |].
    intros x y (a & -> & Ha)%list_elem_of_fmap (b & -> & Hb)%list_elem_of_fmap Hxy Hyx.
    destruct (tool_before_total _ _ Hxy Hyx) as [Hn Hs]. cbn in Hn, Hs.
    unfold implement_tool. by rewrite Hn, (Htot a b Ha Hb Hn Hs). }
  assert (fingerprint p = fingerprint q) as Hf by (unfold fingerprint; by rewrite Hj).
  assert (contains (fingerprint q) (register p m).2 = true) as Hin.
  { rewrite <- Hf. unfold register, insert. destruct (contains (fingerprint p) m) eqn:E; [done|].
    destruct (evict _ _ _). unfold contains. cbn [snd entries]. by rewrite lookup_insert_eq. }
  split_and!; [done | | done]. unfold register at 1. cbv zeta. by rewrite Hin, Hf.
Qed.
End canonical.

(** A printer of objects: the keys, each after a comma, with the printed values. *)
Fixpoint keys_print (v : value) : str :=
  match v with
  | String s => t!"s" ++ s
  | Array l => t!"[" ++ concat (map keys_print l) ++ t!"]"
  | Object m => t!"{" ++ concat (map (fun kv => t!"," ++ kv.1 ++ t!":" ++ keys_print kv.2) m) ++ t!"}"
  | _ => t!"-"
  end.
Definition keys_codec : SerdeJson := {|
  json_from_str _ := None;
  json_to_string v := Some (keys_print v);
  parse_f64 _ := None;
|}.

Lemma fingerprint_canonical_witness :
  let listing := mk_ToolDescriptor t!"list_files" Null in
  let p := mk_SharedPrefix t!"a b  " [mk_ToolDescriptor t!"read_file" (Object [(t!"b", Null); (t!"a", Array [])]); listing] t!"cwd" in
  let q := mk_SharedPrefix t!"a b" [listing; mk_ToolDescriptor t!"read_file" (Object [(t!"a", Array []); (t!"b", Null)])] t!"cwd " in
  @fingerprint keys_codec (foldr N.add 0) p = @fingerprint keys_codec (foldr N.add 0) q.
Proof.
  cbv zeta. eapply (@fingerprint_canonical keys_codec (foldr N.add 0) _ _ (manager_new 2)).
  - reflexivity.
  - reflexivity.
  - eexists. split; [apply perm_swap|]. repeat constructor; cbn.
    eapply same_object; [| apply perm_swap |].
    + apply NoDup_cons. split; [by intros ?%list_elem_of_singleton | apply NoDup_singleton].
    + repeat constructor; apply same_refl.
  - intros a b Ha Hb. cbn in Ha, Hb.
    rewrite !elem_of_cons, elem_of_nil in Ha, Hb.
    destruct Ha as [->|[->|[]]], Hb as [->|[->|[]]]; done.
Defined.
