(* ===== verification/FileSystem.v ===== *)
(** The paths and the files of the Rust standard library, as src/tools/operator uses them:
    [std::path] and [std::fs] on Unix.

    A path is the list of its components.  The file system maps the names from the root to a
    file, a directory or a symbolic link; an operation fails for the reasons the tree gives
    (nothing there, not a directory, a loop of links), not for the permissions or the device,
    and no other process runs. *)
From Stdlib Require Import NArith ZArith Lia.
From stdpp Require Import base list gmap strings numbers sets.
From S2P Require Import Prelude Text Utf8 Collections.
#[local] Open Scope N_scope.

(** ** [std::path] *)
Inductive Component : Type :=
| RootDir
| CurDir
| ParentDir
| Normal (seg : str).

#[export] Instance Component_eq_dec : EqDecision Component.
Proof. solve_decision. Defined.

Abbreviation path := (list Component).
Abbreviation names := (list str).

Definition SLASH : char := 47.
Definition DOT : char := 46.

Definition component_of (seg : str) : list Component :=
  if bool_decide (seg = []) || bool_decide (seg = [DOT]) then []
  else if bool_decide (seg = [DOT; DOT]) then [ParentDir] else [Normal seg].

(** [Path::new(s).components()]: repeated separators and [.] disappear, except a [.] that comes
    first. *)
Definition components (s : str) : path :=
  let pieces := split_on SLASH s in
  (if starts_with [SLASH] s then [RootDir]
   else match pieces with p :: _ => if bool_decide (p = [DOT]) then [CurDir] else [] | [] => [] end)
  ++ List.flat_map component_of pieces.

(** [Path::join]. *)
Definition path_join (p q : path) : path :=
  match q with
  | RootDir :: _ => q
  | CurDir :: r => match p with [] => q | _ => p ++ r end
  | _ => p ++ q
  end.

(** [Path::parent] and [PathBuf::pop]. *)
Definition parent (p : path) : option path :=
  match list.last p with
  | None | Some RootDir => None
  | Some _ => Some (removelast p)
  end.

Definition path_starts_with (base p : path) : bool := bool_decide (base `prefix_of` p).

Fixpoint strip_path (base p : path) : option path :=
  match base, p with
  | [], _ => Some p
  | a :: base', b :: p' => if bool_decide (a = b) then strip_path base' p' else None
  | _ :: _, [] => None
  end.

Definition seg_text (c : Component) : str :=
  match c with RootDir => [] | CurDir => [DOT] | ParentDir => [DOT; DOT] | Normal s => s end.
(** [Path::display] and [to_string_lossy]. *)
Definition display (p : path) : str :=
  match p with [RootDir] => [SLASH] | _ => join [SLASH] (map seg_text p) end.

(** [file_stem] of a name: what is before the last dot, unless that is empty. *)
Definition file_stem (name : str) : str :=
  match rfind_char DOT name with
  | Some (S i) => take (S i) name
  | _ => name
  end.

(** [Path::with_extension]. *)
Definition with_extension (p : path) (ext : str) : path :=
  match list.last p with
  | Some (Normal name) => removelast p ++ [Normal (file_stem name ++ [DOT] ++ ext)]
  | _ => p
  end.

Definition abs_path (q : names) : path := RootDir :: map Normal q.

(** ** The tree *)
Inductive Node : Type :=
| File (data : bytes) (modified : N)
| Dir
| Link (target : path).

Inductive ErrorKind : Type :=
| NotFound
| NotADirectory
| IsADirectory
| AlreadyExists
| FilesystemLoop
| InvalidInput
| InvalidData
| DirectoryNotEmpty.

Record FileSystem := mk_FileSystem {
  nodes : gmap names Node;
  cwd : names;
  clock : N;
}.

(** The root is a directory. *)
Definition node_at (m : gmap names Node) (q : names) : option Node :=
  match q with [] => Some Dir | _ => m !! q end.

(** Where a path leads: to a node, to a free name in a directory, or nowhere. *)
Inductive Walk : Type :=
| At (q : names)
| Free (q : names)
| Fault (e : ErrorKind).

(** As many links as Linux follows. *)
Definition MAXSYMLINKS : nat := 40.

Fixpoint walk (m : gmap names Node) (links : nat) : names -> path -> Walk :=
  fix go (dir : names) (p : path) {struct p} : Walk :=
    match p with
    | [] => At dir
    | RootDir :: r => go [] r
    | c :: r =>
        match node_at m dir with
        | Some Dir =>
            match c with
            | RootDir | CurDir => go dir r
            | ParentDir => go (removelast dir) r
            | Normal s =>
                match node_at m (dir ++ [s]) with
                | None => match r with [] => Free (dir ++ [s]) | _ => Fault NotFound end
                | Some (Link t) =>
                    match links with
                    | O => Fault FilesystemLoop
                    | S links => walk m links dir (t ++ r)
                    end
                | Some _ => go (dir ++ [s]) r
                end
            end
        | _ => Fault NotADirectory
        end
    end.

Definition lookup_path (fs : FileSystem) (p : path) : Walk :=
  match p with
  | [] => Fault NotFound
  | _ => walk (nodes fs) MAXSYMLINKS (cwd fs) p
  end.

Definition with_nodes (fs : FileSystem) (m : gmap names Node) : FileSystem :=
  mk_FileSystem m (cwd fs) (clock fs).

(** ** [std::fs] *)
Definition exists_ (fs : FileSystem) (p : path) : bool :=
  match lookup_path fs p with At _ => true | _ => false end.
Definition metadata (fs : FileSystem) (p : path) : option Node :=
  match lookup_path fs p with At q => node_at (nodes fs) q | _ => None end.
Definition is_dir (fs : FileSystem) (p : path) : bool :=
  match metadata fs p with Some Dir => true | _ => false end.
Definition is_file (fs : FileSystem) (p : path) : bool :=
  match metadata fs p with Some (File _ _) => true | _ => false end.

Definition canonicalize (fs : FileSystem) (p : path) : ErrorKind + path :=
  match lookup_path fs p with
  | At q => inr (abs_path q)
  | Free _ => inl NotFound
  | Fault e => inl e
  end.

Definition read_to_string (fs : FileSystem) (p : path) : ErrorKind + str :=
  match lookup_path fs p with
  | At q =>
      match node_at (nodes fs) q with
      | Some (File data _) => match from_utf8 data with Some s => inr s | None => inl InvalidData end
      | _ => inl IsADirectory
      end
  | Free _ => inl NotFound
  | Fault e => inl e
  end.

(** Creates or truncates the file, following the links of the path to its end. *)
Definition fs_write (fs : FileSystem) (p : path) (content : str) : ErrorKind + FileSystem :=
  let put q := inr (with_nodes fs (<[q := File (utf8_encode content) (clock fs)]> (nodes fs))) in
  match lookup_path fs p with
  | At q => match node_at (nodes fs) q with Some (File _ _) => put q | _ => inl IsADirectory end
  | Free q => put q
  | Fault e => inl e
  end.

(** The entry that a path names, a link at its end not followed. *)
Definition entry_of (fs : FileSystem) (p : path) : ErrorKind + names :=
  match list.last p with
  | Some (Normal s) =>
      match walk (nodes fs) MAXSYMLINKS (cwd fs) (removelast p) with
      | At d =>
          match node_at (nodes fs) d with Some Dir => inr (d ++ [s]) | _ => inl NotADirectory end
      | Free _ => inl NotFound
      | Fault e => inl e
      end
  | _ => match lookup_path fs p with At _ => inl AlreadyExists | Free _ => inl NotFound | Fault e => inl e end
  end.

Definition mkdir (fs : FileSystem) (p : path) : ErrorKind + FileSystem :=
  match entry_of fs p with
  | inl e => inl e
  | inr q =>
      match node_at (nodes fs) q with
      | Some _ => inl AlreadyExists
      | None => inr (with_nodes fs (<[q := Dir]> (nodes fs)))
      end
  end.

(** [create_dir_all], on the components from the last: what is created before a failure stays. *)
Fixpoint create_dirs (rp : path) (fs : FileSystem) : (ErrorKind + unit) * FileSystem :=
  let p := reverse rp in
  match rp with
  | [] => (inr tt, fs)
  | _ :: up =>
      match mkdir fs p with
      | inr fs => (inr tt, fs)
      | inl NotFound =>
          match create_dirs up fs with
          | (inl e, fs) => (inl e, fs)
          | (inr _, fs) =>
              match mkdir fs p with
              | inr fs => (inr tt, fs)
              | inl e => (if is_dir fs p then inr tt else inl e, fs)
              end
          end
      | inl e => (if is_dir fs p then inr tt else inl e, fs)
      end
  end.
Definition create_dir_all (fs : FileSystem) (p : path) : (ErrorKind + unit) * FileSystem :=
  create_dirs (reverse p) fs.

Definition under (base q : names) : bool := bool_decide (base `prefix_of` q).
Definition children (m : gmap names Node) (q : names) : list str :=
  omap (fun kv =>
      match list.last kv.1 with
      | Some s => if bool_decide (kv.1 = q ++ [s]) then Some s else None
      | None => None
      end)
    (map_to_list m).

(** The nodes of a tree, moved from [src] to [dst]. *)
Definition move_tree (src dst : names) (m : gmap names Node) : gmap names Node :=
  let keep := filter (fun kv => ~ src `prefix_of` kv.1 /\ ~ dst `prefix_of` kv.1) m in
  let moved := omap (fun kv => if under src kv.1 then Some (dst ++ drop (length src) kv.1, kv.2) else None)
                 (map_to_list m) in
  list_to_map moved ∪ keep.

(** [rename]: the entry itself moves; a file takes the place of a file, a directory that of an
    empty directory. *)
Definition rename (fs : FileSystem) (from to : path) : ErrorKind + FileSystem :=
  match entry_of fs from with
  | inl e => inl (match e with AlreadyExists => InvalidInput | e => e end)
  | inr src =>
      match entry_of fs to with
      | inl e => inl (match e with AlreadyExists => InvalidInput | e => e end)
      | inr dst =>
          match node_at (nodes fs) src with
          | None => inl NotFound
          | Some n =>
              if bool_decide (src = dst) then inr fs
              else if under src dst then inl InvalidInput
              else
                let move := inr (with_nodes fs (move_tree src dst (nodes fs))) in
                match n, node_at (nodes fs) dst with
                | _, None => move
                | Dir, Some Dir =>
                    match children (nodes fs) dst with [] => move | _ => inl DirectoryNotEmpty end
                | Dir, Some _ => inl NotADirectory
                | _, Some Dir => inl IsADirectory
                | _, Some _ => move
                end
          end
      end
  end.

Definition read_dir (fs : FileSystem) (p : path) : ErrorKind + list str :=
  match lookup_path fs p with
  | At q => match node_at (nodes fs) q with Some Dir => inr (children (nodes fs) q) | _ => inl NotADirectory end
  | Free _ => inl NotFound
  | Fault e => inl e
  end.
