(* ===== verification/FileSystemTheory.v ===== *)
(** How a path is walked: composition, more links, more nodes, and the tree that no link of a
    directory leads out of. *)
From Stdlib Require Import NArith ZArith Lia.
From stdpp Require Import base list gmap strings numbers sets.
From S2P Require Import Prelude Text Utf8 Collections FileSystem.

Definition loops (r : Walk) : bool := match r with Fault FilesystemLoop => true | _ => false end.

Section walks.
Implicit Types (m : gmap names Node) (dir q : names) (p : path) (links : nat).

Lemma walk_nil m links dir : walk m links dir [] = At dir.
Proof. by destruct links. Qed.

Lemma walk_cons m links dir c r :
  walk m links dir (c :: r) =
  match c with
  | RootDir => walk m links [] r
  | _ =>
      match node_at m dir with
      | Some Dir =>
          match c with
          | RootDir | CurDir => walk m links dir r
          | ParentDir => walk m links (removelast dir) r
          | Normal s =>
              match node_at m (dir ++ [s]) with
              | None => match r with [] => Free (dir ++ [s]) | _ => Fault NotFound end
              | Some (Link t) =>
                  match links with O => Fault FilesystemLoop | S links => walk m links dir (t ++ r) end
              | Some _ => walk m links (dir ++ [s]) r
              end
          end
      | _ => Fault NotADirectory
      end
  end.
Proof. destruct links, c; done. Qed.

#[global] Opaque walk.

(** Induction on the links left, then on the path. *)
Lemma walk_ind_lex (P : nat -> names -> path -> Prop) :
  (forall links dir p,
    (forall links' dir' p', (links' < links)%nat -> P links' dir' p') ->
    (forall dir' p', (length p' < length p)%nat -> P links dir' p') -> P links dir p) ->
  forall links dir p, P links dir p.
Proof.
  intros Hstep links. induction (lt_wf links) as [links _ IHl]. intros dir p.
  revert dir. induction p as [p IHp] using (induction_ltof1 _ (@length _)). intros dir.
  apply Hstep; [intros; by apply IHl | intros; by apply IHp].
Qed.

(** A path in two parts. *)
Lemma walk_app m links dir p p' :
  match walk m links dir p with
  | At q => exists links', (links' <= links)%nat /\ walk m links dir (p ++ p') = walk m links' q p'
  | Free q => walk m links dir (p ++ p') = match p' with [] => Free q | _ => Fault NotFound end
  | Fault e => walk m links dir (p ++ p') = Fault e
  end.
Proof.
  revert links dir p. refine (walk_ind_lex _ _). intros links dir p IHl IHp.
  destruct p as [|c r]; [rewrite walk_nil; by exists links|].
  cbn [app]. rewrite !walk_cons.
  destruct c as [| | |s]; [apply IHp; cbn; lia | destruct (node_at m dir) as [[]|]; try done..];
    try (apply IHp; cbn; lia).
  destruct (node_at m (dir ++ [s])) as [[| |t]|].
  - apply IHp; cbn; lia.
  - apply IHp; cbn; lia.
  - destruct links as [|links]; [done|]. specialize (IHl links dir (t ++ r) ltac:(lia)).
    rewrite <- app_assoc in IHl. destruct (walk m links dir (t ++ r)); [|done|done].
    destruct IHl as (l & Hl & Heq). exists l. split; [lia | done].
  - destruct r as [|? r]; [by destruct p' | done].
Qed.

(** More links lead to the same place, unless there were too few. *)
Lemma walk_mono m links dir p links' :
  (links <= links')%nat -> loops (walk m links dir p) = false -> walk m links' dir p = walk m links dir p.
Proof.
  revert links dir p links'. refine (walk_ind_lex _ _). intros links dir p IHl IHp links' Hle.
  destruct p as [|c r]; [by rewrite !walk_nil|]. rewrite !walk_cons.
  destruct c as [| | |s]; [apply IHp; [cbn; lia | done] | destruct (node_at m dir) as [[]|]; try done..];
    try (apply IHp; [cbn; lia | done]).
  destruct (node_at m (dir ++ [s])) as [[| |t]|]; try (apply IHp; [cbn; lia | done]); [|done].
  destruct links as [|links]; [done|]. destruct links' as [|links']; [lia|]. apply IHl; lia.
Qed.

(** What was found is found again among more nodes. *)
Lemma walk_weaken m m' links dir p :
  m ⊆ m' ->
  match walk m links dir p with
  | At q => walk m' links dir p = At q
  | r => loops r = true -> walk m' links dir p = r
  end.
Proof.
  intros Hsub. assert (forall q n, node_at m q = Some n -> node_at m' q = Some n) as Hn.
  { intros [|x q] n; [done|]. intros Hq. by apply (lookup_weaken m m' (x :: q) n). }
  revert links dir p. refine (walk_ind_lex _ _). intros links dir p IHl IHp.
  destruct p as [|c r]; [by rewrite !walk_nil|]. rewrite !walk_cons.
  destruct c as [| | |s]; [apply IHp; cbn; lia | destruct (node_at m dir) as [[]|] eqn:Hd; try done; rewrite (Hn _ _ Hd)..];
    try (apply IHp; cbn; lia).
  destruct (node_at m (dir ++ [s])) as [n|] eqn:Hs; [rewrite (Hn _ _ Hs) | by destruct r].
  destruct n as [| |t]; try (apply IHp; cbn; lia).
  destruct links as [|links]; [done|]. apply IHl; lia.
Qed.

(** A free name is free, in a directory. *)
Lemma walk_free m links dir p q :
  walk m links dir p = Free q ->
  node_at m q = None /\ exists d s, q = d ++ [s] /\ node_at m d = Some Dir.
Proof.
  revert links dir p. refine (walk_ind_lex _ _). intros links dir p IHl IHp.
  destruct p as [|c r]; [by rewrite walk_nil|]. rewrite walk_cons.
  destruct c as [| | |s]; [apply IHp; cbn; lia | destruct (node_at m dir) as [[]|] eqn:Hd; try done..];
    try (apply IHp; cbn; lia).
  destruct (node_at m (dir ++ [s])) as [[| |t]|] eqn:Hs; try (apply IHp; cbn; lia).
  - destruct links as [|links]; [done|]. apply IHl; lia.
  - destruct r; [|done]. intros [= <-]. split; [done|]. by exists dir, s.
Qed.

(** A directory all of whose ancestors are directories: its own name leads to it. *)
Definition real_dir m q : Prop := forall q', q' `prefix_of` q -> node_at m q' = Some Dir.

Lemma walk_names m links dir q p :
  real_dir m (dir ++ q) -> walk m links dir (map Normal q ++ p) = walk m links (dir ++ q) p.
Proof.
  revert dir. induction q as [|s q IH]; intros dir Hr; cbn [map app]; [by rewrite app_nil_r|].
  assert (node_at m dir = Some Dir) as Hd by (apply Hr; by exists (s :: q)).
  assert (node_at m (dir ++ [s]) = Some Dir) as Hs by (apply Hr; exists q; by rewrite <- app_assoc).
  rewrite walk_cons, Hd, Hs. replace (dir ++ s :: q) with ((dir ++ [s]) ++ q) by (by rewrite <- app_assoc).
  apply IH. by rewrite <- app_assoc.
Qed.

Lemma walk_abs m links dir base q :
  real_dir m base -> walk m links dir (abs_path (base ++ q)) = walk m links base (map Normal q).
Proof.
  intros Hr. unfold abs_path. rewrite walk_cons, map_app. by apply walk_names.
Qed.

(** ** Links that stay inside *)
Definition links_inside (base : names) m : Prop :=
  forall dir s t, base `prefix_of` dir -> node_at m (dir ++ [s]) = Some (Link t) ->
    match walk m MAXSYMLINKS dir t with
    | At q => base `prefix_of` q
    | r => loops r = true
    end.

Lemma prefix_snoc (base dir : names) s : base `prefix_of` dir -> base `prefix_of` dir ++ [s].
Proof. apply prefix_app_r. Qed.

Lemma walk_inside base m links dir q :
  links_inside base m -> (links <= MAXSYMLINKS)%nat -> base `prefix_of` dir ->
  match walk m links dir (map Normal q) with
  | At a => base `prefix_of` a
  | Free a => base `prefix_of` a
  | Fault _ => True
  end.
Proof.
  intros Hin. enough (forall p, Forall (fun c => is_Some (match c with Normal s => Some s | _ => None end)) p ->
      (links <= MAXSYMLINKS)%nat -> base `prefix_of` dir ->
      match walk m links dir p with At a => base `prefix_of` a | Free a => base `prefix_of` a | Fault _ => True end) as H.
  { intros Hl Hb. apply H; [|done|done]. apply Forall_fmap, Forall_true. by eexists. }
  intros p. revert links dir p. refine (walk_ind_lex _ _). intros links dir p IHl IHp Hp Hl Hb.
  destruct p as [|c r]; [by rewrite walk_nil|]. rewrite walk_cons.
  apply list.Forall_cons in Hp as [[s' Hc] Hp]. destruct c as [| | |s]; try done. clear s' Hc.
  destruct (node_at m dir) as [[]|] eqn:Hd; try done.
  destruct (node_at m (dir ++ [s])) as [[| |t]|] eqn:Hs.
  - apply IHp; [cbn; lia | done | done | by apply prefix_snoc].
  - apply IHp; [cbn; lia | done | done | by apply prefix_snoc].
  - destruct links as [|links]; [done|]. specialize (Hin _ _ _ Hb Hs).
    pose proof (walk_app m links dir t r) as Happ.
    assert (match walk m links dir t with At a => base `prefix_of` a | r => loops r = true end) as Ht.
    { destruct (loops (walk m links dir t)) eqn:E; [by destruct (walk m links dir t)|].
      rewrite (walk_mono m links dir t MAXSYMLINKS) in Hin by (done || lia).
      destruct (walk m links dir t); [done | by rewrite Hin in E..]. }
    destruct (walk m links dir t) as [a| |e]; [|done|].
    + destruct Happ as (l & Hle & ->). apply IHl; [lia | done | lia | done].
    + by rewrite Happ.
  - destruct r; [by apply prefix_snoc | done].
Qed.

Lemma links_inside_weaken base m m' :
  m ⊆ m' -> (forall q t, node_at m' q = Some (Link t) -> node_at m q = Some (Link t)) ->
  links_inside base m -> links_inside base m'.
Proof.
  intros Hsub Hlinks Hin dir s t Hb Hs. specialize (Hin dir s t Hb (Hlinks _ _ Hs)).
  pose proof (walk_weaken m m' MAXSYMLINKS dir t Hsub) as Hw.
  destruct (walk m MAXSYMLINKS dir t); [by rewrite Hw | done | by rewrite Hw].
Qed.
End walks.

(** ** Operations on a real directory *)
Lemma last_abs_snoc q s : list.last (abs_path (q ++ [s])) = Some (Normal s).
Proof. unfold abs_path. rewrite map_app, app_comm_cons. apply list.last_snoc. Qed.
Lemma removelast_abs_snoc q s : removelast (abs_path (q ++ [s])) = abs_path q.
Proof. unfold abs_path. rewrite map_app, app_comm_cons. apply removelast_last. Qed.

Lemma lookup_real fs q : real_dir (nodes fs) q -> lookup_path fs (abs_path q) = At q.
Proof.
  intros Hd. unfold lookup_path, abs_path at 1. fold (abs_path q). rewrite <- (app_nil_r q) at 1.
  rewrite walk_abs by done. apply walk_nil.
Qed.

Lemma exists_real fs q : real_dir (nodes fs) q -> exists_ fs (abs_path q) = true.
Proof. intros Hd. unfold exists_. by rewrite lookup_real. Qed.

Lemma is_dir_real fs q : real_dir (nodes fs) q -> is_dir fs (abs_path q) = true.
Proof. intros Hd. unfold is_dir, metadata. by rewrite lookup_real, (Hd q (reflexivity _)). Qed.

Lemma entry_real fs q :
  real_dir (nodes fs) q -> entry_of fs (abs_path q) = inr q \/ entry_of fs (abs_path q) = inl AlreadyExists.
Proof.
  intros Hd. destruct q as [|s b _] using rev_ind; [by right|]. left.
  unfold entry_of. rewrite last_abs_snoc, removelast_abs_snoc.
  assert (real_dir (nodes fs) b) as Hb by (intros q' Hq'; apply Hd; by apply prefix_app_r).
  rewrite <- (app_nil_r b) at 1. rewrite walk_abs by done. cbn [map]. rewrite walk_nil.
  by rewrite (Hb b (reflexivity _)).
Qed.

Lemma mkdir_real fs q : real_dir (nodes fs) q -> mkdir fs (abs_path q) = inl AlreadyExists.
Proof.
  intros Hd. unfold mkdir. destruct (entry_real fs q Hd) as [-> | ->]; [|done].
  by rewrite (Hd q (reflexivity _)).
Qed.

Lemma create_dir_all_real fs q : real_dir (nodes fs) q -> create_dir_all fs (abs_path q) = (inr tt, fs).
Proof.
  intros Hd. unfold create_dir_all. destruct (reverse (abs_path q)) as [|c up] eqn:Hr; [done|]. cbn [create_dirs].
  by rewrite <- Hr, reverse_involutive, (mkdir_real fs q Hd), (is_dir_real fs q Hd).
Qed.

(** ** Operations below a directory *)
Section below.
Context (base : names).

(** The directory is real and no link below it leads out of it. *)
Record sealed (fs : FileSystem) : Prop := {
  sealed_dir : real_dir (nodes fs) base;
  sealed_links : links_inside base (nodes fs);
}.

Definition same_outside (fs fs' : FileSystem) : Prop :=
  forall q, ~ base `prefix_of` q -> nodes fs' !! q = nodes fs !! q.

#[local] Instance same_outside_preorder : PreOrder same_outside.
Proof. split; [done|]. intros fs1 fs2 fs3 H1 H2 q Hq. by rewrite H2, H1. Qed.

Lemma insert_same_outside fs q n :
  base `prefix_of` q -> same_outside fs (with_nodes fs (<[q := n]> (nodes fs))).
Proof. intros Hb q' Hq'. cbn. apply lookup_insert_ne. by intros <-. Qed.

Lemma lookup_inside fs r :
  sealed fs ->
  match lookup_path fs (abs_path (base ++ r)) with
  | At a => base `prefix_of` a
  | Free a => base `prefix_of` a
  | Fault _ => True
  end.
Proof.
  intros [Hd Hl]. unfold lookup_path, abs_path at 1. fold (abs_path (base ++ r)).
  rewrite walk_abs by done. by apply walk_inside.
Qed.

Lemma entry_inside fs r s q :
  sealed fs -> entry_of fs (abs_path (base ++ r ++ [s])) = inr q -> base `prefix_of` q.
Proof.
  intros [Hd Hl]. unfold entry_of. rewrite app_assoc, last_abs_snoc, removelast_abs_snoc, walk_abs by done.
  pose proof (walk_inside base (nodes fs) MAXSYMLINKS base r Hl (le_n _) (reflexivity _)) as Hw.
  destruct (walk _ _ _ _) as [d| |]; [|done|done]. destruct (node_at _ d) as [[]|]; try done.
  intros [= <-]. by apply prefix_snoc.
Qed.

Lemma fs_write_inside fs r content fs' :
  sealed fs -> fs_write fs (abs_path (base ++ r)) content = inr fs' -> same_outside fs fs'.
Proof.
  intros Hs. pose proof (lookup_inside fs r Hs) as Hi. unfold fs_write.
  destruct (lookup_path _ _) as [q|q|]; [|intros [= <-]; by apply insert_same_outside|done].
  destruct (node_at _ q) as [[]|]; try done. intros [= <-]. by apply insert_same_outside.
Qed.

(** Making directories only adds them. *)
Lemma mkdir_inside fs r s fs' :
  sealed fs -> mkdir fs (abs_path (base ++ r ++ [s])) = inr fs' -> sealed fs' /\ same_outside fs fs'.
Proof.
  intros Hs. unfold mkdir. destruct (entry_of _ _) as [|q] eqn:He; [done|].
  pose proof (entry_inside _ _ _ _ Hs He) as Hb.
  destruct (node_at (nodes fs) q) eqn:Hn; [done|]. intros [= <-].
  split; [|by apply insert_same_outside]. destruct q as [|x q]; [done|].
  assert (nodes fs ⊆ <[x :: q := Dir]> (nodes fs)) as Hsub by (by apply insert_subseteq).
  split; cbn [with_nodes nodes].
  - intros q' Hq'. pose proof (sealed_dir _ Hs q' Hq') as Hd. destruct q'; [done|]. by eapply lookup_weaken.
  - apply (links_inside_weaken _ (nodes fs)); [done | | apply Hs].
    intros [|y q'] t; [done|]. cbn. destruct (decide (y :: q' = x :: q)) as [->|Hne].
    + by rewrite lookup_insert_eq.
    + by rewrite lookup_insert_ne.
Qed.

Lemma create_dir_all_inside r fs :
  sealed fs ->
  let fs' := (create_dir_all fs (abs_path (base ++ r))).2 in sealed fs' /\ same_outside fs fs'.
Proof.
  unfold create_dir_all. cbv zeta. induction r as [|s r IH] using rev_ind; intros Hs.
  - fold (create_dir_all fs (abs_path (base ++ []))). rewrite app_nil_r, create_dir_all_real by apply Hs. done.
  - assert (reverse (abs_path (base ++ r ++ [s])) = Normal s :: reverse (abs_path (base ++ r))) as Hr.
    { unfold abs_path. rewrite app_assoc, map_app, app_comm_cons, reverse_app. done. }
    rewrite Hr. cbn [create_dirs]. rewrite <- Hr, reverse_involutive.
    pose proof (mkdir_inside fs r s) as Hm. destruct (mkdir fs _) as [e|fs'] eqn:E; [|by apply Hm].
    assert (sealed fs /\ same_outside fs fs) as Hrefl by done.
    destruct e; try exact Hrefl.
    specialize (IH Hs). destruct (create_dirs _ fs) as [[e|[]] fs1]; [exact IH|].
    destruct IH as [Hs1 H1]. cbn [snd] in *. pose proof (mkdir_inside fs1 r s) as Hm1.
    destruct (mkdir fs1 _) as [e|fs2] eqn:E1; [done|].
    destruct (Hm1 fs2 Hs1 eq_refl) as [Hs2 H2]. split; [done|]. by etransitivity.
Qed.

Lemma move_tree_other src dst m q :
  ~ src `prefix_of` q -> ~ dst `prefix_of` q -> move_tree src dst m !! q = m !! q.
Proof.
  intros Hs Hd. unfold move_tree. rewrite lookup_union_r.
  - rewrite map_lookup_filter. destruct (m !! q); cbn; [|done]. by rewrite option_guard_True by done.
  - apply not_elem_of_list_to_map. rewrite list_elem_of_fmap. intros ([q' n] & -> & Hin).
    apply list_elem_of_omap in Hin as ([k n'] & _ & Hk). cbn in Hk.
    destruct (under src k); [|done]. injection Hk as <- <-. apply Hd. by eexists.
Qed.

Lemma rename_inside fs r r' fs' :
  sealed fs -> rename fs (abs_path (base ++ r)) (abs_path (base ++ r')) = inr fs' -> same_outside fs fs'.
Proof.
  intros Hs. unfold rename.
  assert (forall r q, entry_of fs (abs_path (base ++ r)) = inr q -> base `prefix_of` q) as Hentry.
  { intros r0 q. destruct r0 as [|s r0 _] using rev_ind; [|by apply entry_inside].
    rewrite app_nil_r. destruct (entry_real fs base (sealed_dir _ Hs)) as [-> | ->]; [by intros [= <-] | done]. }
  destruct (entry_of fs (abs_path (base ++ r))) as [|src] eqn:E; [done|]. apply Hentry in E.
  destruct (entry_of fs (abs_path (base ++ r'))) as [|dst] eqn:E'; [done|]. apply Hentry in E'.
  assert (same_outside fs (with_nodes fs (move_tree src dst (nodes fs)))) as Hmove.
  { intros q Hq. cbn. apply move_tree_other; intros Hp; apply Hq; (etransitivity; [|exact Hp]; done). }
  destruct (node_at _ src) as [n|]; [|done]. case_bool_decide; [by intros [= <-]|].
  destruct (under src dst); [done|].
  intros H'. assert (inr fs' = (inr (with_nodes fs (move_tree src dst (nodes fs))) : ErrorKind + FileSystem)) as Hfs.
  { destruct n, (node_at _ dst) as [[]|]; try done; by destruct (children _ _). }
  by injection Hfs as ->.
Qed.
End below.

(** ** Contents do not matter *)
Section shape.

(** The same tree up to what is in its files. *)
Definition shape (n : option Node) : option Node :=
  match n with Some (File _ _) => Some (File [] 0) | n => n end.

Lemma walk_shape m m' links dir p :
  (forall q, shape (node_at m q) = shape (node_at m' q)) -> walk m links dir p = walk m' links dir p.
Proof.
  intros Hm. revert links dir p. refine (walk_ind_lex _ _). intros links dir p IHl IHp.
  destruct p as [|c r]; [by rewrite !walk_nil|]. rewrite !walk_cons. pose proof (Hm dir) as Hd.
  destruct c as [| | |s]; [apply IHp; cbn; lia | destruct (node_at m dir) as [[]|], (node_at m' dir) as [[]|]; try done..];
    try (apply IHp; cbn; lia).
  pose proof (Hm (dir ++ [s])) as Hs.
  destruct (node_at m (dir ++ [s])) as [[| |t]|], (node_at m' (dir ++ [s])) as [[| |t']|]; try done;
    try (apply IHp; cbn; lia).
  injection Hs as ->. destruct links as [|links]; [done|]. apply IHl; lia.
Qed.

Lemma sealed_shape base fs fs' :
  (forall q, shape (node_at (nodes fs) q) = shape (node_at (nodes fs') q)) -> sealed base fs -> sealed base fs'.
Proof.
  intros Hm [Hd Hl]. split.
  - intros q Hq. pose proof (Hm q) as Hs. rewrite (Hd q Hq) in Hs. by destruct (node_at (nodes fs') q) as [[]|].
  - intros dir s t Hb Hs. rewrite <- (walk_shape (nodes fs)) by done. apply (Hl dir s t Hb).
    pose proof (Hm (dir ++ [s])) as Hn. rewrite Hs in Hn.
    by destruct (node_at (nodes fs) (dir ++ [s])) as [[]|].
Qed.

(** Writing a file leaves the tree sealed. *)
Lemma fs_write_sealed base fs p content fs' :
  sealed base fs -> fs_write fs p content = inr fs' -> sealed base fs'.
Proof.
  intros Hs. unfold fs_write. destruct (lookup_path fs p) as [q|q|] eqn:E; [| |done].
  - destruct (node_at _ q) as [[]|] eqn:Hq; try done. intros [= <-]. revert Hs. apply sealed_shape.
    intros [|x q']; [done|]. cbn. destruct (decide (x :: q' = q)) as [<-|Hne].
    + rewrite lookup_insert_eq. cbn in Hq. by rewrite Hq.
    + by rewrite lookup_insert_ne.
  - intros [= <-]. assert (node_at (nodes fs) q = None /\ q <> []) as [Hn Hq].
    { unfold lookup_path in E. destruct p; [done|]. apply walk_free in E as (Hn & d & s & -> & _).
      split; [done | by destruct d]. }
    destruct q as [|x q]; [done|].
    assert (nodes fs ⊆ <[x :: q := File (utf8_encode content) (clock fs)]> (nodes fs)) as Hsub by (by apply insert_subseteq).
    split; cbn [with_nodes nodes].
    + intros q' Hq'. pose proof (sealed_dir _ _ Hs q' Hq') as Hd. destruct q'; [done|]. by eapply lookup_weaken.
    + apply (links_inside_weaken _ (nodes fs)); [done | | apply Hs].
      intros [|y q'] t; [done|]. cbn. destruct (decide (y :: q' = x :: q)) as [->|Hne].
      * by rewrite lookup_insert_eq.
      * by rewrite lookup_insert_ne.
Qed.
End shape.
