(* ===== verification/Workspace.v ===== *)
(** The files of the workspace as the tools of the model see them: src/tools/operator/core.rs,
    src/tools/operator/file_ops.rs, src/tools/pulse_ledger.rs and the handler of [read_file] in
    src/state/conversation/tools/routing.rs. *)
From Stdlib Require Import NArith ZArith Lia.
From stdpp Require Import base list gmap strings numbers sets.
From S2P Require Import Prelude Text Utf8 Collections Json Evidence ToolPreview FileSystem.
#[local] Open Scope N_scope.

(** ** What has been read in this pulse *)
Record FileFingerprint := mk_FileFingerprint {
  fp_len : N;
  fp_modified : N;
}.
#[export] Instance FileFingerprint_eq_dec : EqDecision FileFingerprint.
Proof. solve_decision. Defined.

Record LocatedRead := mk_LocatedRead {
  lr_path : path;
  start_line : N;
  end_line : N;
  fingerprint : FileFingerprint;
}.

Definition MAX_PULSE_LEDGER_ENTRIES : nat := 64.
Abbreviation PulseLedger := (list LocatedRead).

(** Only asked of what is not a directory. *)
Definition file_fingerprint (fs : FileSystem) (p : path) : option FileFingerprint :=
  match metadata fs p with
  | Some (File data modified) => Some (mk_FileFingerprint (N.of_nat (length data)) modified)
  | _ => None
  end.

(** [while entries.len() > MAX { entries.remove(0) }]. *)
Fixpoint drop_oldest (entries : PulseLedger) : PulseLedger :=
  match entries with
  | [] => []
  | _ :: r => if (MAX_PULSE_LEDGER_ENTRIES <? length entries)%nat then drop_oldest r else entries
  end.

Definition record_pulse_read (read : LocatedRead) (entries : PulseLedger) : PulseLedger :=
  drop_oldest (List.filter (fun e => negb (bool_decide (lr_path e = lr_path read))) entries ++ [read]).

Definition find_pulse_read (fs : FileSystem) (p : path) (entries : PulseLedger) : option LocatedRead :=
  current ← file_fingerprint fs p;
  List.find (fun e => bool_decide (lr_path e = p) && bool_decide (fingerprint e = current)) (reverse entries).

Definition clear_pulse_ledger (entries : PulseLedger) : PulseLedger := [].

(** ** Operations on the world

    An operation returns a value or an error, in a world it may have changed either way, unless
    it panics. *)
Inductive Error : Type :=
| Bail (message : str)
| Io (e : ErrorKind)
| Context (message : str) (cause : Error).

Record World := mk_World {
  files : FileSystem;
  ledger : PulseLedger;
}.

Definition Op (A : Type) : Type := World -> outcome ((Error + A) * World).

#[export] Instance op_ret : MRet Op := fun A a w => Returns (inr a, w).
#[export] Instance op_bind : MBind Op := fun A B f m w =>
  match m w with
  | Returns (inr a, w) => f a w
  | Returns (inl e, w) => Returns (inl e, w)
  | Panics => Panics
  end.

Definition bail {A} (message : str) : Op A := fun w => Returns (inl (Bail message), w).
(** What only looks at the files. *)
Definition asks {A} (f : FileSystem -> A) : Op A := fun w => Returns (inr (f (files w)), w).
Definition asks_or {A} (f : FileSystem -> Error + A) : Op A := fun w => Returns (f (files w), w).
Definition may_panic {A} (o : outcome A) : Op A := fun w => (fun a => (inr a, w)) <$> o.
(** What changes the files: [.context(message)?]. *)
Definition change (wrap : Error -> Error) (f : FileSystem -> ErrorKind + FileSystem) : Op unit := fun w =>
  match f (files w) with
  | inr fs => Returns (inr tt, mk_World fs (ledger w))
  | inl e => Returns (inl (wrap (Io e)), w)
  end.
Definition make_dirs (wrap : Error -> Error) (p : path) : Op unit := fun w =>
  match create_dir_all (files w) p with
  | (inr _, fs) => Returns (inr tt, mk_World fs (ledger w))
  | (inl e, fs) => Returns (inl (wrap (Io e)), mk_World fs (ledger w))
  end.

Definition io_context {A} (message : str) (r : ErrorKind + A) : Error + A :=
  match r with inr a => inr a | inl e => inl (Context message (Io e)) end.

(** ** The operator: src/tools/operator/core.rs *)
Record ToolOperator := mk_ToolOperator {
  working_dir : path;
  canonical_working_dir : path;
}.

Definition operator_new (fs : FileSystem) (working_dir : path) : ToolOperator :=
  mk_ToolOperator working_dir
    (match canonicalize fs working_dir with inr p => p | inl _ => working_dir end).

Definition is_parent_dir (c : Component) : bool := match c with ParentDir => true | _ => false end.

Definition normalize_step (working_dir out : path) (c : Component) : path :=
  match c with
  | CurDir => out
  | Normal seg => out ++ [Normal seg]
  | ParentDir =>
      if (length working_dir <? length out)%nat then unwrap_or (parent out) out else out
  | RootDir => [RootDir]
  end.
Definition normalize_path (op : ToolOperator) (p : path) : path :=
  foldl (normalize_step (working_dir op)) [] p.

(** A path is at most as many steps from an ancestor without parent as it has components. *)
Fixpoint nearest_from (fuel : nat) (fs : FileSystem) (current : path) : option path :=
  if exists_ fs current then Some current
  else
    match fuel with
    | O => None
    | S fuel => up ← parent current; nearest_from fuel fs up
    end.
Definition nearest_existing_ancestor (fs : FileSystem) (p : path) : option path :=
  nearest_from (length p) fs p.

Definition ensure_path_is_within_workspace (op : ToolOperator) (p : path) (fs : FileSystem) : Error + unit :=
  match (if exists_ fs p then Some p else nearest_existing_ancestor fs p) with
  | None => inl (Bail t!"Security error: could not find an existing parent path")
  | Some guard_path =>
      match canonicalize fs guard_path with
      | inl e => inl (Context (t!"Failed to canonicalize " ++ display guard_path) (Io e))
      | inr canonical_guard =>
          if path_starts_with (canonical_working_dir op) canonical_guard then inr tt
          else inl (Bail (t!"Security error: path escapes working directory via symlink or traversal: " ++ display p))
      end
  end.

Definition BACKSLASH : char := 92.

Definition resolve_path (op : ToolOperator) (text : str) (fs : FileSystem) : Error + path :=
  let text := trim text in
  if is_empty text then inl (Bail t!"Path cannot be empty")
  else if starts_with [SLASH] text || contains_char BACKSLASH text then
    inl (Bail (t!"Security error: absolute or platform-specific path not allowed: " ++ text))
  else if existsb is_parent_dir (components text) then
    inl (Bail (t!"Security error: path traversal detected: " ++ text))
  else
    let normalized := normalize_path op (path_join (working_dir op) (components text)) in
    match ensure_path_is_within_workspace op normalized fs with
    | inl e => inl e
    | inr _ => inr normalized
    end.

Definition non_empty_trimmed (value : str) : option str :=
  let trimmed := trim value in if is_empty trimmed then None else Some trimmed.

Definition resolve_optional_path (op : ToolOperator) (p : option str) (fs : FileSystem) : Error + path :=
  match p ≫= non_empty_trimmed with
  | None => inr (working_dir op)
  | Some value => if bool_decide (value = [DOT]) then inr (working_dir op) else resolve_path op value fs
  end.

Definition path_to_repo_relative_string (p : path) : str := replace [BACKSLASH] [SLASH] (display p).

Definition to_workspace_relative_display (op : ToolOperator) (p : path) : str :=
  path_to_repo_relative_string (unwrap_or (strip_path (working_dir op) p) p).

(** ** Files: src/tools/operator/file_ops.rs *)
Definition MAX_EDIT_SNIPPET_CHARS : N := 2000.
Definition MAX_EDIT_SNIPPET_LINES : nat := 80.
Definition EDIT_ANCHOR_LINE_PAD : N := 3.

Record PendingPatch := mk_PendingPatch {
  diff : str;
  new_content : str;
  pp_path : path;
}.

Inductive WriteFileOutcome : Type :=
| Written
| Pending (pending : PendingPatch).

(** [content.match_indices(pattern)], for a pattern that is not empty: where its leftmost
    matches begin, none overlapping the one before. *)
Fixpoint match_from (skip : nat) (pattern s : str) (offset : nat) : list nat :=
  match s with
  | [] => []
  | _ :: r =>
      match skip with
      | S k => match_from k pattern r (S offset)
      | O =>
          if starts_with pattern s then offset :: match_from (length pattern - 1) pattern r (S offset)
          else match_from 0 pattern r (S offset)
      end
  end.
Definition match_indices (pattern s : str) : list nat := match_from 0 pattern s 0.

(** [content[..offset] + new + content[offset + old.len()..]]. *)
Definition splice (content : str) (offset : nat) (old new : str) : str :=
  take offset content ++ new ++ drop (offset + length old) content.

Definition count_lf (s : str) : N := N.of_nat (length (List.filter (N.eqb LF) s)).

(** The loop over the matches: [None] as soon as a second one begins inside the window. *)
Fixpoint window_matches (content : str) (lo hi : N) (offsets : list nat)
    (scanned_to : nat) (current_line : N) (candidates : list nat) : option (list nat) :=
  match offsets with
  | [] => Some candidates
  | offset :: r =>
      let current_line := current_line + count_lf (take (offset - scanned_to) (drop scanned_to content)) in
      if (lo <=? current_line) && (current_line <=? hi) then
        let candidates := candidates ++ [offset] in
        if (1 <? length candidates)%nat then None
        else window_matches content lo hi r offset current_line candidates
      else window_matches content lo hi r offset current_line candidates
  end.

Definition anchored_unique_replacement (resolved : path) (content old_str new_str : str) (w : World)
    : option str :=
  anchor ← find_pulse_read (files w) resolved (ledger w);
  let window_start := sat_sub (start_line anchor) EDIT_ANCHOR_LINE_PAD in
  let window_end := sat_add usize_max (end_line anchor) EDIT_ANCHOR_LINE_PAD in
  candidates ← window_matches content window_start window_end (match_indices old_str content) 0 1 [];
  offset ← head candidates;
  Some (splice content offset old_str new_str).

(** [{:>5}]. *)
Definition pad_left (width : nat) (s : str) : str := replicate (width - length s) SPACE ++ s.
Definition TAB : char := 9.

Definition numbered_line (start : N) (index : nat) (line : str) : str :=
  pad_left 5 (fmt_N (start + N.of_nat index + 1)) ++ [TAB] ++ line.

(** The lines [start..end]; with overflow checks [start + value] panics where here it wraps below
    [start] and the slice does. *)
Definition render_range (content : str) (offset limit : option N) : outcome str :=
  let user_offset := unwrap_or offset 1 in
  let start := sat_sub user_offset 1 in
  let ls := lines content in
  let total := N.of_nat (length ls) in
  if total <=? start then
    Returns (t!"(file has " ++ fmt_N total ++ t!" lines, offset " ++ fmt_N user_offset ++ t!" is past end)")
  else
    let end_ := match limit with Some value => N.min (wrap_add usize_max start value) total | None => total end in
    if end_ <? start then Panics
    else
      let selected := take (N.to_nat (end_ - start)) (drop (N.to_nat start) ls) in
      let header :=
        if (0 <? start) || (end_ <? total) then
          t!"(showing lines " ++ fmt_N (start + 1) ++ t!"-" ++ fmt_N end_ ++ t!" of " ++ fmt_N total ++ t!")" ++ NL
        else [] in
      Returns (header ++ join NL (imap (numbered_line start) selected)).

Definition should_skip_list_entry (root working_dir : path) (name : str) : bool :=
  if starts_with [DOT] name then true
  else if negb (bool_decide (root = working_dir)) then false
  else str_in name [t!"target"; t!"node_modules"; t!"__pycache__"; t!".venv"; t!"venv"; t!"build"; t!"dist"].

Section operator.
Context `{LineDiff}.
Variable op : ToolOperator.

Definition resolve (text : str) : Op path := asks_or (resolve_path op text).
Definition dir_error (tool text : str) : str := tool ++ t!" expected a file path, got a directory: " ++ text.

(** The path of a tool that expects a file. *)
Definition resolve_file (tool text : str) : Op path :=
  resolved ← resolve text;
  directory ← asks (fun fs => is_dir fs resolved);
  if directory : bool then bail (dir_error tool text) else mret resolved.

Definition read_file (text : str) : Op str :=
  resolved ← resolve_file t!"read_file" text;
  asks_or (fun fs => io_context t!"Failed to read file" (read_to_string fs resolved)).

Definition read_file_range (text : str) (offset limit : option N) : Op str :=
  content ← read_file text;
  may_panic (render_range content offset limit).

Definition read_file_if_exists (text : str) : Op (option str) :=
  resolved ← resolve_file t!"read_file" text;
  asks_or (fun fs =>
    match read_to_string fs resolved with
    | inr content => inr (Some content)
    | inl NotFound => inr None
    | inl e => inl (Context t!"Failed to read file" (Io e))
    end).

Definition existing_path (text : str) : Op (option path) :=
  resolved ← resolve text;
  asks (fun fs => if exists_ fs resolved then Some resolved else None).

Definition propose_patch (text old_content new_content : str) : Op PendingPatch :=
  resolved ← resolve_file t!"propose_patch" text;
  mret (mk_PendingPatch (format_edit_hunks old_content new_content [] 2) new_content resolved).

Definition make_parents (wrap : Error -> Error) (p : path) : Op unit :=
  match parent p with Some up => make_dirs wrap up | None => mret tt end.

Definition write_file (text content : str) : Op WriteFileOutcome :=
  resolved ← resolve_file t!"write_file" text;
  present ← asks (fun fs => exists_ fs resolved);
  if present : bool then
    old_content ← asks (fun fs => match read_to_string fs resolved with inr s => s | inl _ => [] end);
    pending ← propose_patch text old_content content;
    mret (Pending pending)
  else
    make_parents id resolved ≫= fun _ =>
    change (Context t!"Failed to write file") (fun fs => fs_write fs resolved content) ≫= fun _ =>
    mret Written.

Definition apply_patch (pending : PendingPatch) : Op unit :=
  asks_or (ensure_path_is_within_workspace op (pp_path pending)) ≫= fun _ =>
  let temp_path := with_extension (pp_path pending) t!"tmp" in
  change (Context (t!"Failed to write temp file: " ++ display temp_path))
    (fun fs => fs_write fs temp_path (new_content pending)) ≫= fun _ =>
  change (Context (t!"Failed to apply patch to: " ++ display (pp_path pending)))
    (fun fs => rename fs temp_path (pp_path pending)).

Definition snippet_too_large (s : str) : bool :=
  (MAX_EDIT_SNIPPET_CHARS <? chars_count s) || (MAX_EDIT_SNIPPET_LINES <? length (lines s))%nat.

Definition edit_file (text old_str new_str : str) : Op unit :=
  resolved ← resolve_file t!"edit_file" text;
  content ← asks_or (fun fs => io_context t!"Failed to read file for edit" (read_to_string fs resolved));
  let write_back s := change (Context t!"Failed to edit file") (fun fs => fs_write fs resolved s) in
  if is_empty (trim old_str) then bail t!"edit_file requires a non-empty old_str"
  else if snippet_too_large old_str || snippet_too_large new_str then
    bail (t!"edit_file requires focused snippets; old_str/new_str are too large (max "
          ++ fmt_N MAX_EDIT_SNIPPET_CHARS ++ t!" chars or " ++ fmt_N (N.of_nat MAX_EDIT_SNIPPET_LINES) ++ t!" lines each)")
  else if str_eqb old_str content then
    bail t!"edit_file refuses full-file replacement; provide a focused old_str snippet instead"
  else
    match match_indices old_str content with
    | [] => bail (t!"String '" ++ old_str ++ t!"' not found in file")
    | [offset] => write_back (splice content offset old_str new_str)
    | occurrences =>
        fun w =>
          match anchored_unique_replacement resolved content old_str new_str w with
          | Some anchored => write_back anchored w
          | None =>
              bail (t!"String '" ++ old_str ++ t!"' appears " ++ fmt_N (N.of_nat (length occurrences))
                    ++ t!" times; must be unique") w
          end
    end.

Definition rename_file (old_path new_path : str) : Op str :=
  from ← resolve old_path;
  to ← resolve new_path;
  present ← asks (fun fs => exists_ fs from);
  if negb present then bail (t!"Failed to rename file: source '" ++ old_path ++ t!"' does not exist")
  else if bool_decide (from = to) then mret (t!"Source and target are the same: " ++ old_path)
  else
    make_parents (Context t!"Failed to create destination directory") to ≫= fun _ =>
    change (Context t!"Failed to rename file") (fun fs => rename fs from to) ≫= fun _ =>
    mret (t!"Renamed " ++ old_path ++ t!" -> " ++ new_path).

Definition list_entry (root : path) (fs : FileSystem) (name : str) : str :=
  let p := path_join root [Normal name] in
  let directory := match lookup_path fs root with
                   | At q => match node_at (nodes fs) (q ++ [name]) with Some Dir => true | _ => false end
                   | _ => false
                   end in
  to_workspace_relative_display op p ++ (if directory then [SLASH] else []).

Definition list_files (p : option str) (max_entries : N) : Op str :=
  root ← asks_or (resolve_optional_path op p);
  let limit := clamp 1 2000 max_entries in
  entries ← asks_or (fun fs =>
    if is_file fs root then inr [to_workspace_relative_display op root]
    else
      match read_dir fs root with
      | inl e => inl (Context (t!"Failed to read directory " ++ display root) (Io e))
      | inr found =>
          inr (take (N.to_nat limit)
                (map (list_entry root fs)
                  (List.filter (fun name => negb (should_skip_list_entry root (working_dir op) name))
                    (sort_by str_ltb found))))
      end);
  mret (match entries with [] => t!"(no files found)" | _ => join NL entries end).

(** ** The handler of [read_file]: src/state/conversation/tools/routing.rs *)
Variable env : str -> option str.

Definition read_file_max_lines : N :=
  match env t!"VEX_READ_FILE_MAX_LINES" ≫= parse_uint usize_max with
  | Some explicit => explicit
  | None =>
      let max_tokens := unwrap_or (env t!"VEX_MAX_TOKENS" ≫= parse_uint usize_max) 4096 in
      clamp 50 10000 (max_tokens / 200)
  end.

Definition first_tool_string (input : value) (keys : list str) : option str :=
  find_map (fun key => value_get key input ≫= as_str) keys.

Definition required_tool_string_any (input : value) (tool accepted_key : str) (keys : list str) : Op str :=
  let value := unwrap_or (option_map trim (first_tool_string input keys)) [] in
  if is_empty value then bail (tool ++ t!" requires a non-empty '" ++ accepted_key ++ t!"' string argument")
  else mret value.

Definition note_read (text : str) (offset : option N) (effective_limit : N) : Op unit := fun w =>
  match existing_path text w with
  | Returns (inr (Some resolved), _) =>
      if is_dir (files w) resolved then Returns (inr tt, w)
      else
        match file_fingerprint (files w) resolved with
        | Some fp =>
            let first := N.max (unwrap_or offset 1) 1 in
            let last_ := sat_add usize_max first (sat_sub effective_limit 1) in
            Returns (inr tt, mk_World (files w) (record_pulse_read (mk_LocatedRead resolved first last_ fp) (ledger w)))
        | None => Returns (inr tt, w)
        end
  | _ => Returns (inr tt, w)
  end.

Definition read_file_handler (input : value) : Op str :=
  text ← required_tool_string_any input t!"read_file" t!"path" [t!"path"; t!"file_path"; t!"file"];
  let offset := value_get t!"offset" input ≫= as_u64 in
  let effective_limit := unwrap_or (value_get t!"limit" input ≫= as_u64) read_file_max_lines in
  rendered ← read_file_range text offset (Some effective_limit);
  (if starts_with t!"(file has " rendered then mret tt else note_read text offset effective_limit) ≫= fun _ =>
  mret rendered.
End operator.
