(* ===== verification/WorkspaceTheory.v ===== *)
(** What the tools may do to the files: the workspace and the rest of the tree, edits, patches,
    ranges of lines, and the reads of a pulse. *)
From Stdlib Require Import NArith ZArith Lia Sorted.
From stdpp Require Import base list gmap strings numbers sets.
From S2P Require Import Prelude Text Utf8 Collections Json Evidence ToolPreview FileSystem FileSystemTheory Workspace.
#[local] Open Scope N_scope.

(** ** Operations with a postcondition *)
Lemma op_bind_inv {A B} (m : Op A) (f : A -> Op B) w r w' :
  (m ≫= f) w = Returns (r, w') ->
  (exists e, r = inl e /\ m w = Returns (inl e, w'))
  \/ exists a w1, m w = Returns (inr a, w1) /\ f a w1 = Returns (r, w').
Proof.
  unfold mbind, op_bind. destruct (m w) as [[[e|a] w1]|]; [|by eauto|done].
  intros [= <- <-]. left. by eexists.
Qed.

Lemma op_bind_ok {A B} (m : Op A) (f : A -> Op B) w b w' :
  (m ≫= f) w = Returns (inr b, w') -> exists a w1, m w = Returns (inr a, w1) /\ f a w1 = Returns (inr b, w').
Proof. intros [(e & [=] & _)|H]%op_bind_inv. exact H. Qed.

Lemma asks_inv {A} (f : FileSystem -> A) w a w' :
  asks f w = Returns (inr a, w') -> w' = w /\ a = f (files w).
Proof. by intros [= <- <-]. Qed.
Lemma asks_or_inv {A} (f : FileSystem -> Error + A) w r w' :
  asks_or f w = Returns (r, w') -> w' = w /\ r = f (files w).
Proof. by intros [= <- <-]. Qed.

Section triples.
Context (R : FileSystem -> FileSystem -> Prop) `{!PreOrder R}.

(** From a world of [P], the files change by [R], and a result leaves a world of [Q]. *)
Definition triple {A} (P : World -> Prop) (m : Op A) (Q : A -> World -> Prop) : Prop :=
  forall w r w', P w -> m w = Returns (r, w') -> R (files w) (files w') /\ forall a, r = inr a -> Q a w'.

Lemma triple_bind {A B} P (m : Op A) Q (f : A -> Op B) Q' :
  triple P m Q -> (forall a, triple (Q a) (f a) Q') -> triple P (m ≫= f) Q'.
Proof using Type*.
  intros Hm Hf w r w' Hw [(e & -> & H)|(a & w1 & H1 & H2)]%op_bind_inv.
  - destruct (Hm _ _ _ Hw H) as [HR _]. by split.
  - destruct (Hm _ _ _ Hw H1) as [HR Ha]. destruct (Hf a _ _ _ (Ha a eq_refl) H2) as [HR' Hb].
    split; [by etransitivity | done].
Qed.

Lemma triple_ret {A} (P : World -> Prop) (a : A) (Q : A -> World -> Prop) :
  (forall w, P w -> Q a w) -> triple P (mret a) Q.
Proof using Type*. intros HQ w r w' Hw [= <- <-]. split; [reflexivity|]. intros b [= ->]. by apply HQ. Qed.

Lemma triple_bail {A} P s (Q : A -> World -> Prop) : triple P (bail s) Q.
Proof using Type*. intros w r w' Hw [= <- <-]. split; [reflexivity | done]. Qed.

Lemma triple_asks {A} (P : World -> Prop) (f : FileSystem -> A) (Q : A -> World -> Prop) :
  (forall w, P w -> Q (f (files w)) w) -> triple P (asks f) Q.
Proof using Type*. intros HQ w r w' Hw [= <- <-]. split; [reflexivity|]. intros b [= <-]. by apply HQ. Qed.

Lemma triple_asks_or {A} (P : World -> Prop) (f : FileSystem -> Error + A) (Q : A -> World -> Prop) :
  (forall w a, P w -> f (files w) = inr a -> Q a w) -> triple P (asks_or f) Q.
Proof using Type*. intros HQ w r w' Hw [= <- <-]. split; [reflexivity|]. intros b Hb. by apply HQ. Qed.

Lemma triple_change (P : World -> Prop) wrap f (Q : unit -> World -> Prop) :
  (forall w fs, P w -> f (files w) = inr fs -> R (files w) fs /\ Q tt (mk_World fs (ledger w))) ->
  triple P (change wrap f) Q.
Proof using Type*.
  intros HQ w r w' Hw. unfold change. destruct (f (files w)) as [e|fs] eqn:E; intros [= <- <-].
  - split; [reflexivity | done].
  - destruct (HQ _ _ Hw E). split; [done | by intros [] _].
Qed.

Lemma triple_dirs (P : World -> Prop) wrap p (Q : unit -> World -> Prop) :
  (forall w, P w -> let fs := (create_dir_all (files w) p).2 in R (files w) fs /\ Q tt (mk_World fs (ledger w))) ->
  triple P (make_dirs wrap p) Q.
Proof using Type*.
  intros HQ w r w' Hw. specialize (HQ w Hw). revert HQ. unfold make_dirs.
  destruct (create_dir_all _ _) as [[e|[]] fs]; cbn; intros [HR Hq] [= <- <-]; split; try done.
  by intros [] _.
Qed.

Lemma triple_pre {A} (P P' : World -> Prop) (m : Op A) Q :
  (forall w, P w -> P' w) -> triple P' m Q -> triple P m Q.
Proof using Type*. intros HP Hm w r w' Hw. apply Hm. by apply HP. Qed.
End triples.

(** ** Resolved paths *)
Lemma components_relative s c : starts_with [SLASH] s = false -> c ∈ components s -> c <> RootDir.
Proof.
  intros Hs. unfold components. rewrite Hs, elem_of_app. intros [Hc|Hc] ->.
  - destruct (split_on SLASH s) as [|p ?]; [by apply elem_of_nil in Hc|].
    case_bool_decide; [|by apply elem_of_nil in Hc]. by apply list_elem_of_singleton in Hc.
  - apply list_elem_of_In, in_flat_map in Hc as (seg & _ & Hc%list_elem_of_In).
    unfold component_of in Hc. destruct (_ || _); [by apply elem_of_nil in Hc|].
    case_bool_decide; by apply list_elem_of_singleton in Hc.
Qed.

Lemma normalize_names wd names out :
  foldl (normalize_step wd) out (map Normal names) = out ++ map Normal names.
Proof.
  revert out. induction names as [|s r IH]; intros out; cbn; [by rewrite app_nil_r|].
  by rewrite IH, <- app_assoc.
Qed.

Lemma normalize_relative wd p out :
  (forall c, c ∈ p -> c <> RootDir /\ c <> ParentDir) ->
  exists r, foldl (normalize_step wd) out p = out ++ map Normal r.
Proof.
  revert out. induction p as [|c p IH]; intros out Hp; cbn [foldl]; [exists []; by rewrite app_nil_r|].
  destruct (IH (normalize_step wd out c)) as [r ->]; [intros c' Hc'; apply Hp; by right|].
  destruct (Hp c) as [Hc Hc']; [by left|]. destruct c as [| | |s]; try done; cbn [normalize_step].
  - by exists r.
  - exists (s :: r). by rewrite <- app_assoc.
Qed.

Lemma resolve_below op base text fs p :
  working_dir op = abs_path base -> resolve_path op text fs = inr p -> exists r, p = abs_path (base ++ r).
Proof.
  intros Hwd. unfold resolve_path. cbv zeta. destruct (is_empty (trim text)); [done|].
  destruct (starts_with [SLASH] (trim text)) eqn:Hs; [done|]. cbn [orb].
  destruct (contains_char _ _); [done|]. destruct (existsb is_parent_dir _) eqn:Hp; [done|].
  destruct (ensure_path_is_within_workspace _ _ _); [done|]. intros [= <-].
  assert (forall c, c ∈ components (trim text) -> c <> RootDir /\ c <> ParentDir) as Hc.
  { intros c Hc. split; [by eapply components_relative|]. intros ->.
    apply list_elem_of_In in Hc. apply not_true_iff_false in Hp. apply Hp, existsb_exists. by exists ParentDir. }
  unfold normalize_path. rewrite Hwd. clear Hp Hs.
  set (p := components (trim text)) in *. clearbody p.
  assert (exists p', path_join (abs_path base) p = abs_path base ++ p' /\ forall c, c ∈ p' -> c ∈ p) as (p' & -> & Hsub).
  { destruct p as [|[| | |s] p]; cbn [path_join].
    - by exists [].
    - by destruct (Hc RootDir ltac:(by left)).
    - exists p. split; [done|]. by right.
    - by destruct (Hc ParentDir ltac:(by left)).
    - by exists (Normal s :: p). }
  assert (foldl (normalize_step (abs_path base)) [] (abs_path base) = abs_path base) as Hb
    by apply (normalize_names (abs_path base) base [RootDir]).
  rewrite foldl_app, Hb. destruct (normalize_relative (abs_path base) p' (abs_path base)) as [r ->].
  { intros c Hin. apply Hc. by apply Hsub. }
  exists r. unfold abs_path. by rewrite map_app.
Qed.

(** ** Nothing outside the workspace changes *)
Section confined.
Context `{LineDiff}.
Context (base : names) (op : ToolOperator) (Hwd : working_dir op = abs_path base).

#[local] Notation R := (same_outside base).
Definition ok (w : World) : Prop := sealed base (files w).
Definition below (p : path) (w : World) : Prop := ok w /\ exists r, p = abs_path (base ++ r).
#[local] Existing Instance same_outside_preorder.

Lemma resolve_triple text (P : World -> Prop) :
  (forall w, P w -> ok w) -> triple R P (resolve op text) (fun p w => P w /\ below p w).
Proof using Type*.
  intros HP. apply (triple_asks_or R). intros w p Hw Hp. split; [done|]. split; [by apply HP|].
  by eapply resolve_below.
Qed.

Lemma resolve_file_triple tool text (P : World -> Prop) :
  (forall w, P w -> ok w) ->
  triple R P (resolve_file op tool text) (fun p w => (P w /\ below p w) /\ is_dir (files w) p = false).
Proof using Type*.
  intros HP. eapply (triple_bind R); [by apply resolve_triple|]. intros p. cbv beta.
  eapply (triple_bind R) with (Q := fun d w => (P w /\ below p w) /\ is_dir (files w) p = d).
  - by apply (triple_asks R).
  - intros []; [apply (triple_bail R) | by apply (triple_ret R)].
Qed.

(** The parents of a path below the directory: the path itself is not the directory. *)
Lemma parent_below r p :
  parent (abs_path (base ++ r)) = Some p -> r <> [] -> exists r', p = abs_path (base ++ r').
Proof using Type*.
  destruct r as [|s r _] using rev_ind; [done|]. unfold parent. rewrite app_assoc, last_abs_snoc, removelast_abs_snoc.
  intros [= <-] _. by exists r.
Qed.

(** The directories above a path that is not there. *)
Lemma make_parents_triple wrap p (P : World -> Prop) :
  (forall w, P w -> below p w /\ p <> abs_path base) -> triple R P (make_parents wrap p) (fun _ w => below p w).
Proof using Type*.
  intros HP. unfold make_parents. destruct (parent p) as [up|] eqn:E.
  - apply (triple_dirs R). intros w Hw. destruct (HP w Hw) as [[Hok [r ->]] Hne].
    destruct (parent_below r up E) as [r' ->]; [intros ->; by rewrite app_nil_r in Hne|].
    pose proof (create_dir_all_inside base r' (files w) Hok) as [Hs Ho].
    split; [exact Ho|]. split; [exact Hs | by exists r].
  - apply (triple_ret R). intros w Hw. by destruct (HP w Hw).
Qed.

Lemma write_triple wrap p content (P : World -> Prop) :
  (forall w, P w -> below p w) ->
  triple R P (change wrap (fun fs => fs_write fs p content)) (fun _ w => ok w).
Proof using Type*.
  intros HP. apply (triple_change R). intros w fs Hw Hf. destruct (HP w Hw) as [Hok [r ->]].
  split; [by eapply fs_write_inside | by eapply fs_write_sealed].
Qed.

Lemma propose_triple text old new (P : World -> Prop) :
  (forall w, P w -> ok w) ->
  triple R P (propose_patch op text old new) (fun pp w => P w /\ below (pp_path pp) w /\ is_dir (files w) (pp_path pp) = false).
Proof using Type*.
  intros HP. eapply (triple_bind R); [by apply resolve_file_triple|]. intros p.
  apply (triple_ret R). by intros w [[? ?] ?].
Qed.

Lemma write_file_triple text content : triple R ok (write_file op text content) (fun _ _ => True).
Proof using Type*.
  unfold write_file.
  eapply (triple_bind R); [by apply (resolve_file_triple _ _ ok)|]. intros p.
  eapply (triple_bind R) with (Q := fun present w => (ok w /\ below p w) /\ exists_ (files w) p = present).
  { apply (triple_asks R). by intros w [[? ?] _]. }
  intros [].
  - eapply (triple_bind R); [apply (triple_asks R) with (Q := fun _ w => ok w); by intros w [[? ?] _]|].
    intros old. eapply (triple_bind R); [by apply propose_triple|]. intros pp. by apply (triple_ret R).
  - eapply (triple_bind R).
    { apply make_parents_triple. intros w [[Hok Hp] Hex]. split; [done|]. intros ->.
      by rewrite (exists_real _ _ (sealed_dir _ _ Hok)) in Hex. }
    intros []. eapply (triple_bind R); [by apply write_triple|]. intros []. by apply (triple_ret R).
Qed.

Lemma with_extension_below r ext :
  r <> [] -> exists r', with_extension (abs_path (base ++ r)) ext = abs_path (base ++ r').
Proof using Type*.
  destruct r as [|s r _] using rev_ind; [done|]. intros _. unfold with_extension.
  rewrite app_assoc, last_abs_snoc, removelast_abs_snoc. exists (r ++ [file_stem s ++ [DOT] ++ ext]).
  unfold abs_path. rewrite (app_assoc base r), (map_app Normal (base ++ r)). reflexivity.
Qed.

Lemma apply_patch_triple pending (P : World -> Prop) :
  (forall w, P w -> below (pp_path pending) w /\ is_dir (files w) (pp_path pending) = false) ->
  triple R P (apply_patch op pending) (fun _ _ => True).
Proof using Type*.
  intros HP. unfold apply_patch.
  eapply (triple_bind R) with (Q := fun _ w => ok w /\ exists r r', pp_path pending = abs_path (base ++ r)
      /\ with_extension (pp_path pending) t!"tmp" = abs_path (base ++ r')).
  { apply (triple_asks_or R). intros w [] Hw _. destruct (HP w Hw) as [[Hok [r Hr]] Hd]. split; [done|].
    exists r. destruct (with_extension_below r t!"tmp") as [r' Hr'].
    - intros ->. rewrite app_nil_r in Hr. by rewrite Hr, (is_dir_real _ _ (sealed_dir _ _ Hok)) in Hd.
    - exists r'. by rewrite Hr. }
  intros []. eapply (triple_bind R) with (Q := fun _ w => ok w /\ exists r r', pp_path pending = abs_path (base ++ r)
      /\ with_extension (pp_path pending) t!"tmp" = abs_path (base ++ r')).
  - apply (triple_change R). intros w fs (Hok & r & r' & Hr & Hr') Hf.
    split; [rewrite Hr' in Hf; by eapply fs_write_inside|]. split; [by eapply fs_write_sealed|]. by exists r, r'.
  - intros []. apply (triple_change R). intros w fs (Hok & r & r' & Hr & Hr') Hf.
    split; [|done]. rewrite Hr', Hr in Hf. by eapply rename_inside.
Qed.

Lemma edit_file_triple text old new : triple R ok (edit_file op text old new) (fun _ _ => True).
Proof using Type*.
  unfold edit_file.
  eapply (triple_bind R); [by apply (resolve_file_triple _ _ ok)|]. intros p.
  eapply (triple_bind R) with (Q := fun _ w => below p w); [apply (triple_asks_or R); by intros w a [[? ?] _]|].
  intros content. cbv zeta.
  assert (forall s, triple R (below p) (change (Context t!"Failed to edit file") (fun fs => fs_write fs p s)) (fun _ _ => True)) as Hw.
  { intros s w r w' Hb Hr. by destruct (write_triple _ p s (below p) (fun w Hw => Hw) w r w' Hb Hr). }
  destruct (is_empty _); [apply (triple_bail R)|]. destruct (_ || _); [apply (triple_bail R)|].
  destruct (str_eqb _ _); [apply (triple_bail R)|].
  destruct (match_indices old content) as [|o [|o' os]]; [apply (triple_bail R) | apply Hw |].
  intros w r w' Hb Hr. destruct (anchored_unique_replacement _ _ _ _ _); [exact (Hw _ w r w' Hb Hr)|].
  exact (triple_bail R (below p) _ (fun _ _ => True) w r w' Hb Hr).
Qed.

Lemma create_dirs_above up fs :
  parent (abs_path base) = Some up -> real_dir (nodes fs) base -> create_dir_all fs up = (inr tt, fs).
Proof using Type*.
  intros E Hd. destruct base as [|s b _] using rev_ind; [done|]. revert E. unfold parent.
  rewrite last_abs_snoc, removelast_abs_snoc. intros [= <-].
  apply create_dir_all_real. intros q Hq. apply Hd. by apply prefix_app_r.
Qed.

Lemma rename_file_triple old_path new_path : triple R ok (rename_file op old_path new_path) (fun _ _ => True).
Proof using Type*.
  unfold rename_file.
  eapply (triple_bind R); [by apply (resolve_triple _ ok)|]. intros from.
  eapply (triple_bind R); [apply (resolve_triple _ (fun w => ok w /\ below from w)); by intros w [? ?]|]. intros to.
  eapply (triple_bind R) with (Q := fun present w => (below from w /\ below to w) /\ exists_ (files w) from = present).
  { apply (triple_asks R). by intros w [[? ?] ?]. }
  intros []; cbn [negb]; [|apply (triple_bail R)].
  case_bool_decide as Hne; [by apply (triple_ret R)|].
  eapply (triple_bind R) with (Q := fun _ w => below from w /\ below to w).
  - destruct (decide (to = abs_path base)) as [->|Hto].
    + unfold make_parents. destruct (parent (abs_path base)) as [up|] eqn:E; [|apply (triple_ret R); by intros w [[? ?] ?]].
      apply (triple_dirs R). intros [fs led] [[Hf Ht] _]. cbn [files ledger].
      rewrite (create_dirs_above up fs E (sealed_dir _ _ (proj1 Hf))). split; [reflexivity | done].
    + intros w r w' [[Hf Ht] _] Hr.
      destruct (make_parents_triple _ to (below to) (fun w Hw => conj Hw Hto) w r w' Ht Hr) as [HR Hq].
      split; [done|]. intros [] ->. destruct (Hq tt eq_refl) as [Hok Hex]. split; [|done].
      destruct Hf as [_ Hf]. by split.
  - intros []. eapply (triple_bind R) with (Q := fun _ _ => True); [|intros []; by apply (triple_ret R)].
    apply (triple_change R). intros w fs [[Hok [r ->]] [_ [r' ->]]] Hf. split; [by eapply rename_inside | done].
Qed.

(** What [apply_patch] does for a call: the old text, the patch, and its application. *)
Lemma patch_call_triple text content :
  triple R ok
    (old ← read_file_if_exists op text; pending ← propose_patch op text (unwrap_or old []) content; apply_patch op pending)
    (fun _ _ => True).
Proof using Type*.
  eapply (triple_bind R) with (Q := fun _ => ok).
  { unfold read_file_if_exists. eapply (triple_bind R); [by apply (resolve_file_triple _ _ ok)|]. intros p.
    apply (triple_asks_or R). by intros w0 a [[? ?] _] _. }
  intros old. eapply (triple_bind R); [by apply propose_triple|]. intros pp.
  apply apply_patch_triple. by intros w0 (_ & ? & ?).
Qed.
End confined.

(** A workspace with a file and a link to it, and a file outside. *)
Definition small_tree : FileSystem :=
  mk_FileSystem (list_to_map [([t!"ws"], Dir); ([t!"ws"; t!"a.rs"], File t!"one two" 1);
    ([t!"ws"; t!"l"], Link (components t!"a.rs")); ([t!"o"], File t!"out" 1)]) [] 7.
Definition no_diff : LineDiff := fun _ _ _ => [].

Lemma small_tree_sealed : sealed [t!"ws"] small_tree.
Proof.
  split.
  - intros q [k Hk]. destruct q as [|a [|b q]]; [done | | done]. cbn in Hk. by injection Hk as <- _.
  - intros dir s t [k ->] Hn. cbn [app node_at] in Hn. apply elem_of_list_to_map_2 in Hn.
    rewrite !elem_of_cons, elem_of_nil in Hn. destruct Hn as [[=]|[[=]|[[= Hk ->]|[[=]|[]]]]].
    destruct k as [|x k]; [|by destruct k]. vm_compute. by exists [t!"a.rs"].
Qed.

(** ** A link to nothing *)
Lemma starts_without_slash s : SLASH ∉ s -> starts_with [SLASH] s = false.
Proof.
  destruct s as [|x s]; [done|]. intros [Hx _]%not_elem_of_cons.
  unfold starts_with. cbn [strip_prefix]. destruct (N.eqb_spec SLASH x) as [<-|]; [by destruct Hx | done].
Qed.

Lemma components_name s :
  s <> [] -> s <> [DOT] -> s <> [DOT; DOT] -> SLASH ∉ s -> components s = [Normal s].
Proof.
  intros H1 H2 H3 Hs. unfold components.
  assert (split_on SLASH s = [s]) as ->.
  { clear H2 H3. induction s as [|x s IH]; [done|]. apply not_elem_of_cons in Hs as [Hx Hs].
    cbn [split_on]. destruct (N.eqb_spec x SLASH) as [->|]; [done|].
    destruct s as [|y s]; [done|]. by rewrite IH. }
  rewrite starts_without_slash by done.
  rewrite (bool_decide_eq_false_2 (s = [DOT])) by done. cbn [app List.flat_map].
  unfold component_of. rewrite !bool_decide_eq_false_2 by done. done.
Qed.

Section dangling.
Context `{LineDiff}.

(** A link to nothing leads out.  Where a name of the workspace is a symbolic link to a path
    outside it at which there is no file yet, in a directory that exists, the guard looks at the
    workspace, the nearest directory that exists, and lets [write_file] create the file outside. *)
Theorem dangling_link_escapes op base name target q content w :
  working_dir op = abs_path base -> canonical_working_dir op = abs_path base ->
  real_dir (nodes (files w)) base -> nodes (files w) !! (base ++ [name]) = Some (Link target) ->
  walk (nodes (files w)) 39 base target = Free q ->
  trim name = name -> SLASH ∉ name -> BACKSLASH ∉ name -> name <> [] -> name <> [DOT] -> name <> [DOT; DOT] ->
  exists w', write_file op name content w = Returns (inr Written, w')
    /\ nodes (files w') !! q = Some (File (utf8_encode content) (clock (files w)))
    /\ nodes (files w) !! q = None.
Proof.
  intros Hwd Hcd Hd Hl Hq Htrim Hs Hb H1 H2 H3.
  set (p := abs_path (base ++ [name])).
  assert (lookup_path (files w) p = Free q) as Hp.
  { unfold lookup_path, p, abs_path at 1. fold (abs_path (base ++ [name])). rewrite walk_abs by done.
    cbn [map]. rewrite walk_cons, (Hd base (reflexivity _)).
    assert (node_at (nodes (files w)) (base ++ [name]) = Some (Link target)) as -> by (by destruct base).
    change MAXSYMLINKS with (S 39). cbv iota. by rewrite app_nil_r. }
  assert (parent p = Some (abs_path base)) as Hup.
  { unfold parent, p. by rewrite last_abs_snoc, removelast_abs_snoc. }
  assert (exists_ (files w) p = false) as Hex by (unfold exists_; by rewrite Hp).
  assert (resolve_path op name (files w) = inr p) as Hr.
  { unfold resolve_path. cbv zeta. rewrite Htrim, components_name by done.
    assert (is_empty name = false) as -> by (by destruct name).
    rewrite starts_without_slash by done.
    assert (contains_char BACKSLASH name = false) as ->.
    { apply not_true_iff_false. unfold contains_char. rewrite existsb_exists.
      intros (x & Hx%list_elem_of_In & <-%N.eqb_eq). by destruct Hb. }
    cbn [orb existsb is_parent_dir path_join]. unfold normalize_path. rewrite Hwd.
    assert (abs_path base ++ [Normal name] = p) as -> by (unfold p, abs_path; by rewrite map_app).
    assert (foldl (normalize_step (abs_path base)) [] p = p) as ->
      by apply (normalize_names (abs_path base) (base ++ [name]) [RootDir]).
    unfold ensure_path_is_within_workspace, nearest_existing_ancestor. rewrite Hex.
    assert (exists n, length p = S n) as [n ->] by (by eexists).
    cbn [nearest_from]. rewrite Hex, Hup. cbn. destruct n; cbn [nearest_from].
    all: rewrite exists_real by done; unfold canonicalize; rewrite lookup_real by done.
    all: unfold path_starts_with; rewrite Hcd, bool_decide_eq_true_2 by reflexivity; done. }
  eexists (mk_World (with_nodes (files w) (<[q := File (utf8_encode content) (clock (files w))]> (nodes (files w)))) (ledger w)).
  split; [|split; [apply lookup_insert_eq|]].
  - unfold write_file, resolve_file, resolve, mbind, op_bind, asks_or, asks. rewrite Hr.
    unfold is_dir, metadata. rewrite Hp. cbv beta iota. unfold mret, op_ret. rewrite Hex.
    unfold make_parents, make_dirs. rewrite Hup, create_dir_all_real by done. unfold change, fs_write. cbn [files].
    by rewrite Hp.
  - unfold lookup_path in Hp. destruct p; [done|]. apply walk_free in Hp as (Hn & d & s & -> & _). by destruct d.
Qed.

End dangling.

Lemma dangling_link_escapes_witness :
  let fs := mk_FileSystem (list_to_map [([t!"ws"], Dir); ([t!"etc"], Dir); ([t!"ws"; t!"notes"], Link (components t!"/etc/x"))]) [] 7 in
  let op := operator_new fs (components t!"/ws") in
  exists w', @write_file no_diff op t!"notes" t!"hi" (mk_World fs []) = Returns (inr Written, w')
    /\ nodes (files w') !! [t!"etc"; t!"x"] = Some (File [104; 105] 7)
    /\ nodes fs !! [t!"etc"; t!"x"] = None.
Proof.
  cbv zeta. apply (@dangling_link_escapes no_diff _ [t!"ws"] t!"notes" (components t!"/etc/x")).
  - vm_compute. reflexivity.
  - vm_compute. reflexivity.
  - intros q [k Hk]. destruct q as [|a [|b q]]; [done | | done]. cbn in Hk. by injection Hk as <- _.
  - vm_compute. reflexivity.
  - vm_compute. reflexivity.
  - vm_compute. reflexivity.
  - apply (bool_decide_unpack _). vm_compute. exact I.
  - apply (bool_decide_unpack _). vm_compute. exact I.
  - done.
  - done.
  - done.
Defined.
(** ** Edits *)
Lemma match_from_spec skip p s i o :
  o ∈ match_from skip p s i -> (i + skip <= o)%nat /\ exists r, drop (o - i) s = p ++ r.
Proof.
  revert skip i. induction s as [|x s IH]; intros skip i; cbn [match_from]; [by intros ?%elem_of_nil|].
  assert (forall k, o ∈ match_from k p s (S i) -> (i + S k <= o)%nat /\ exists r, drop (o - i) (x :: s) = p ++ r) as Hr.
  { intros k [Ho [r Hr]]%IH. split; [lia|]. exists r. replace (o - i)%nat with (S (o - S i)) by lia. done. }
  destruct skip as [|k]; [|apply Hr].
  destruct (starts_with p (x :: s)) eqn:E; [rewrite elem_of_cons; intros [->|Ho]|].
  - split; [lia|]. rewrite Nat.sub_diag. apply starts_with_spec in E as [r E]. by exists r.
  - destruct (Hr _ Ho) as [? ?]. split; [lia | done].
  - intros Ho. destruct (Hr _ Ho) as [? ?]. split; [lia | done].
Qed.

Lemma match_from_sorted skip p s i : StronglySorted le (match_from skip p s i).
Proof.
  revert skip i. induction s as [|x s IH]; intros skip i; cbn [match_from]; [constructor|].
  destruct skip as [|k]; [|apply IH]. destruct (starts_with p (x :: s)); [|apply IH].
  constructor; [apply IH|]. apply list.Forall_forall. intros o [Ho _]%match_from_spec. lia.
Qed.

(** The line on which an offset lies. *)
Definition line_of (content : str) (offset : nat) : N := 1 + count_lf (take offset content).

Lemma count_lf_app a b : count_lf (a ++ b) = count_lf a + count_lf b.
Proof. unfold count_lf. rewrite List.filter_app, length_app. lia. Qed.

Lemma line_of_step content a b :
  (a <= b)%nat -> line_of content b = line_of content a + count_lf (take (b - a) (drop a content)).
Proof.
  intros Hab. unfold line_of. rewrite <- N.add_assoc, <- count_lf_app. do 2 f_equal.
  rewrite take_take_drop. f_equal. lia.
Qed.

Definition in_window (content : str) (lo hi : N) (offset : nat) : bool :=
  (lo <=? line_of content offset) && (line_of content offset <=? hi).

Lemma window_matches_filter content lo hi offsets sc acc r :
  StronglySorted le offsets -> Forall (le sc) offsets ->
  (length acc <= 1)%nat -> window_matches content lo hi offsets sc (line_of content sc) acc = Some r ->
  r = acc ++ List.filter (in_window content lo hi) offsets /\ (length r <= 1)%nat.
Proof.
  revert sc acc. induction offsets as [|o os IH]; intros sc acc Hs Hle Hacc; cbn [window_matches List.filter].
  { intros [= <-]. by rewrite app_nil_r. }
  apply StronglySorted_inv in Hs as [Hs Hos]. apply list.Forall_cons in Hle as [Ho _].
  rewrite <- line_of_step by done. unfold in_window at 1.
  destruct (_ && _); [|by apply IH]. destruct (Nat.ltb_spec 1 (length (acc ++ [o]))) as [|Hlen]; [done|].
  intros Hr. apply IH in Hr as [-> Hr]; [|done|done|done]. by rewrite <- app_assoc in *.
Qed.

Lemma resolve_file_inv op tool text w r w' :
  resolve_file op tool text w = Returns (r, w') ->
  w' = w /\ forall p, r = inr p -> resolve_path op text (files w) = inr p /\ is_dir (files w) p = false.
Proof.
  unfold resolve_file, resolve. intros [(e & -> & [-> _]%asks_or_inv)|(p & w1 & [-> Hp]%asks_or_inv & H)]%op_bind_inv; [done|].
  apply op_bind_inv in H as [(e & -> & [=])|(d & w2 & [-> ->]%asks_inv & H)].
  destruct (is_dir (files w) p) eqn:E; injection H as <- <-; [done|]. split; [done|]. by intros ? [= <-].
Qed.

(** A path that the guard lets pass leads below the workspace, if it leads anywhere. *)
Lemma resolve_found op base text fs p q :
  canonical_working_dir op = abs_path base -> resolve_path op text fs = inr p ->
  lookup_path fs p = At q -> base `prefix_of` q.
Proof.
  intros Hcd Hr Hq. assert (ensure_path_is_within_workspace op p fs = inr tt) as Hg.
  { revert Hr. unfold resolve_path. cbv zeta. destruct (is_empty _); [done|].
    destruct (_ || _); [done|]. destruct (existsb _ _); [done|].
    destruct (ensure_path_is_within_workspace _ _ _) as [|[]] eqn:E; [done|]. by intros [= <-]. }
  revert Hg. unfold ensure_path_is_within_workspace, exists_. rewrite Hq. unfold canonicalize. rewrite Hq.
  destruct (path_starts_with _ _) eqn:E; [|done]. intros _. unfold path_starts_with in E.
  apply bool_decide_eq_true in E. rewrite Hcd in E. destruct E as [k Hk]. injection Hk as Hk.
  clear Hq Hr Hcd. revert q Hk. induction base as [|s b IH]; intros q Hk; [by exists q|].
  destruct q as [|s' q]; [done|]. injection Hk as -> Hk. apply prefix_cons. by apply IH.
Qed.

Section edits.
Context `{LineDiff}.

(** The place that an edit replaces: the only match of the old text, or the only one that begins
    in the lines of a read of this pulse, three more on either side. *)
Definition edit_place (p : path) (content old : str) (w : World) (offset : nat) : Prop :=
  match_indices old content = [offset]
  \/ exists anchor, find_pulse_read (files w) p (ledger w) = Some anchor
     /\ List.filter (in_window content (start_line anchor - EDIT_ANCHOR_LINE_PAD)
                      (sat_add usize_max (end_line anchor) EDIT_ANCHOR_LINE_PAD))
          (match_indices old content) = [offset].

Lemma anchored_place p content old new w s :
  anchored_unique_replacement p content old new w = Some s ->
  exists offset, edit_place p content old w offset /\ s = splice content offset old new.
Proof.
  unfold anchored_unique_replacement. destruct (find_pulse_read _ _ _) as [anchor|] eqn:Ha; [|done].
  cbn [mbind option_bind]. destruct (window_matches _ _ _ _ _ _ _) as [cs|] eqn:Hw; [|done].
  cbn [mbind option_bind]. change 1 with (line_of content 0) in Hw.
  apply window_matches_filter in Hw as [Hw Hlen]; [| apply match_from_sorted | | cbn; lia].
  2: { apply list.Forall_forall. intros o _. lia. }
  destruct cs as [|o [|? cs]]; [by intros [=] | intros [= <-] | cbn in Hlen; lia]. exists o. split; [|done]. right.
  exists anchor. split; [done|]. symmetry. exact Hw.
Qed.

Lemma edit_place_match p content old w offset :
  edit_place p content old w offset ->
  content = take offset content ++ old ++ drop (offset + length old) content.
Proof.
  intros Hp. assert (offset ∈ match_indices old content) as [_ [r Hr]]%match_from_spec.
  { destruct Hp as [-> | (anchor & _ & Hf)]; [by left|].
    assert (offset ∈ [offset]) as Hin by (by left). rewrite <- Hf in Hin.
    by apply list_elem_of_In, List.filter_In in Hin as [Hin%list_elem_of_In _]. }
  rewrite Nat.sub_0_r in Hr. rewrite <- drop_drop, Hr, drop_app_length, <- Hr. symmetry. apply take_drop.
Qed.

(** C8: what an edit does.  [edit_file] fails and leaves everything as it was, or it replaces, in
    one file below the workspace, wherever the links of the path lead, one occurrence of the old
    text by the new: the only one there is, or the only one near the lines that were read from
    this file in this pulse.  The old text is then neither blank nor the whole file, and nothing
    else changes. *)
Theorem edit_file_replaces op base text old new w r w' :
  canonical_working_dir op = abs_path base ->
  edit_file op text old new w = Returns (r, w') ->
  match r with
  | inl _ => w' = w
  | inr _ =>
      exists p q data modified content offset,
        resolve_path op text (files w) = inr p
        /\ base `prefix_of` q /\ node_at (nodes (files w)) q = Some (File data modified)
        /\ from_utf8 data = Some content /\ edit_place p content old w offset
        /\ content = take offset content ++ old ++ drop (offset + length old) content
        /\ old <> content /\ trim old <> []
        /\ w' = mk_World (with_nodes (files w)
                   (<[q := File (utf8_encode (take offset content ++ new ++ drop (offset + length old) content))
                             (clock (files w))]> (nodes (files w)))) (ledger w)
  end.
Proof.
  intros Hcd. unfold edit_file.
  intros [(e & -> & [-> _]%resolve_file_inv)|(p & w1 & [-> Hp]%resolve_file_inv & H2)]%op_bind_inv; [done|].
  destruct (Hp p eq_refl) as [Hr _]. clear Hp.
  apply op_bind_inv in H2 as [(e & -> & [-> _]%asks_or_inv)|(content & w1 & [-> Hc]%asks_or_inv & H2)]; [done|].
  cbv zeta in H2. destruct (is_empty (trim old)) eqn:Hb; [by injection H2 as <- <-|].
  destruct (_ || _); [by injection H2 as <- <-|].
  unfold str_eqb in H2. case_bool_decide as Hne; [by injection H2 as <- <-|].
  assert (exists q data modified, lookup_path (files w) p = At q
    /\ node_at (nodes (files w)) q = Some (File data modified) /\ from_utf8 data = Some content) as (q & data & modified & Hq & Hn & Hd).
  { revert Hc. unfold io_context, read_to_string. destruct (lookup_path _ _) as [q| |]; [|done|done].
    destruct (node_at _ q) as [[data modified| |]|] eqn:Hn; try done.
    destruct (from_utf8 data) eqn:Hd; [|done]. intros [= ->]. by exists q, data, modified. }
  match goal with |- ?g => set (goal := g) end.
  assert (forall offset, edit_place p content old w offset ->
      change (Context t!"Failed to edit file") (fun fs => fs_write fs p (splice content offset old new)) w
      = Returns (r, w') -> goal) as Hdone.
  { intros offset Hplace. unfold change, fs_write. rewrite Hq, Hn. intros [= <- <-].
    unfold goal. exists p, q, data, modified, content, offset. split_and!; try done.
    - by eapply resolve_found.
    - by eapply edit_place_match.
    - by destruct (trim old). }
  destruct (match_indices old content) as [|o [|o' os]] eqn:Hm; [by injection H2 as <- <- | |].
  - apply (Hdone o); [by left | done].
  - destruct (anchored_unique_replacement p content old new w) as [s|] eqn:Ha; [|by injection H2 as <- <-].
    apply anchored_place in Ha as (offset & Hplace & ->). by apply (Hdone offset).
Qed.
End edits.

Lemma edit_file_replaces_witness :
  let op := operator_new small_tree (components t!"/ws") in
  exists w', edit_file op t!"l" t!"one" t!"1" (mk_World small_tree []) = Returns (inr tt, w')
    /\ exists q, [t!"ws"] `prefix_of` q /\ exists data, nodes (files w') !! q = Some (File data 7).
Proof.
  cbv zeta. set (op := operator_new small_tree (components t!"/ws")).
  destruct (edit_file op t!"l" t!"one" t!"1" (mk_World small_tree [])) as [[r w']|] eqn:E.
  - pose proof (edit_file_replaces op [t!"ws"] _ _ _ _ _ _ eq_refl E) as H. destruct r as [e|[]].
    + vm_compute in E. done.
    + exists w'. split; [done|]. destruct H as (p & q & data & modified & content & offset & _ & Hq & _ & _ & _ & _ & _ & _ & ->).
      exists q. split; [done|]. eexists. cbn [files nodes with_nodes]. apply lookup_insert_eq.
  - vm_compute in E. done.
Defined.

(** ** Patches *)
Section patches.
Implicit Types (src dst q : names).

Lemma move_tree_at src dst m n : m !! src = Some n -> move_tree src dst m !! dst = Some n.
Proof.
  intros Hn. unfold move_tree. apply lookup_union_Some_l, elem_of_list_to_map_1'.
  - intros n' Hin. apply list_elem_of_omap in Hin as ([k v] & Hkv & Hf). cbn in Hf.
    unfold under in Hf. case_bool_decide as Hp; [|done]. destruct Hp as [t ->].
    rewrite drop_app_length in Hf. injection Hf as Ht <-. rewrite <- (app_nil_r dst) in Ht at 2.
    apply app_inv_head in Ht as ->. rewrite app_nil_r in Hkv. apply elem_of_map_to_list in Hkv. congruence.
  - apply list_elem_of_omap. exists (src, n). split; [by apply elem_of_map_to_list|]. cbn.
    unfold under. rewrite bool_decide_eq_true_2 by reflexivity.
    by rewrite drop_all, app_nil_r.
Qed.

Lemma move_tree_gone src dst m : ~ dst `prefix_of` src -> move_tree src dst m !! src = None.
Proof.
  intros Hd. unfold move_tree. apply lookup_union_None. split.
  - apply not_elem_of_list_to_map. rewrite list_elem_of_fmap. intros ([q' n] & Hq & Hin).
    apply list_elem_of_omap in Hin as ([k n'] & _ & Hk). cbn in Hk.
    destruct (under src k); [|done]. injection Hk as Hk <-. apply Hd. rewrite Hq, <- Hk. by eexists.
  - apply map_lookup_filter_None. right. intros n _ [Hs _]. by apply Hs.
Qed.

Lemma snoc_prefix (d : names) a b : d ++ [a] `prefix_of` d ++ [b] -> a = b.
Proof. intros [k Hk]. rewrite <- app_assoc in Hk. apply app_inv_head in Hk. by injection Hk as ->. Qed.

(** In a real directory, a name at which there is no link or directory. *)
Definition plain_name (m : gmap names Node) (d : names) (s : str) : Prop :=
  match m !! (d ++ [s]) with None | Some (File _ _) => True | _ => False end.

Lemma node_at_snoc m (d : names) s : node_at m (d ++ [s]) = m !! (d ++ [s]).
Proof. by destruct d. Qed.

Lemma lookup_plain fs d s :
  real_dir (nodes fs) d -> plain_name (nodes fs) d s ->
  lookup_path fs (abs_path (d ++ [s])) = match nodes fs !! (d ++ [s]) with Some _ => At (d ++ [s]) | None => Free (d ++ [s]) end.
Proof.
  intros Hd Hp. unfold lookup_path, abs_path at 1. fold (abs_path (d ++ [s])). rewrite walk_abs by done.
  cbn [map]. rewrite walk_cons, (Hd d (reflexivity _)), node_at_snoc. unfold plain_name in Hp.
  destruct (nodes fs !! (d ++ [s])) as [[]|]; try done; by rewrite walk_nil.
Qed.

Lemma write_plain fs d s content :
  real_dir (nodes fs) d -> plain_name (nodes fs) d s ->
  fs_write fs (abs_path (d ++ [s])) content
  = inr (with_nodes fs (<[d ++ [s] := File (utf8_encode content) (clock fs)]> (nodes fs))).
Proof.
  intros Hd Hp. unfold fs_write. rewrite lookup_plain by done. unfold plain_name in Hp.
  destruct (nodes fs !! (d ++ [s])) as [[]|] eqn:E; try done. by rewrite node_at_snoc, E.
Qed.

Lemma real_dir_insert m d s n : real_dir m d -> real_dir (<[d ++ [s] := n]> m) d.
Proof.
  intros Hd q Hq. specialize (Hd q Hq). destruct q as [|x q]; [done|]. cbn.
  rewrite lookup_insert_ne; [done|]. intros He. rewrite <- He in Hq. destruct Hq as [k Hk].
  apply (f_equal length) in Hk. rewrite !length_app in Hk. cbn in Hk. lia.
Qed.

Lemma entry_plain fs d s : real_dir (nodes fs) d -> entry_of fs (abs_path (d ++ [s])) = inr (d ++ [s]).
Proof.
  intros Hd. unfold entry_of. rewrite last_abs_snoc, removelast_abs_snoc, <- (app_nil_r d), walk_abs by (by rewrite ?app_nil_r).
  cbn [map]. rewrite walk_nil, app_nil_r. by rewrite (Hd d (reflexivity _)).
Qed.

Lemma with_extension_snoc d s ext :
  with_extension (abs_path (d ++ [s])) ext = abs_path (d ++ [file_stem s ++ [DOT] ++ ext]).
Proof.
  unfold with_extension. rewrite last_abs_snoc, removelast_abs_snoc. unfold abs_path. by rewrite (map_app Normal d [_]).
Qed.

(** The guard lets a plain name of a directory of the workspace pass. *)
Lemma guard_plain op base fs d s :
  canonical_working_dir op = abs_path base -> base `prefix_of` d ->
  real_dir (nodes fs) d -> plain_name (nodes fs) d s ->
  ensure_path_is_within_workspace op (abs_path (d ++ [s])) fs = inr tt.
Proof.
  intros Hcd Hb Hd Hp. unfold ensure_path_is_within_workspace, exists_.
  assert (forall q, base `prefix_of` q -> path_starts_with (abs_path base) (abs_path q) = true) as Hpre.
  { intros q [k ->]. apply bool_decide_eq_true_2. exists (map Normal k). unfold abs_path. by rewrite map_app. }
  rewrite Hcd, lookup_plain by done. destruct (nodes fs !! (d ++ [s])) eqn:E.
  - unfold canonicalize. rewrite lookup_plain, E by done. rewrite Hpre; [done|]. by apply prefix_app_r.
  - unfold nearest_existing_ancestor. assert (exists n, length (abs_path (d ++ [s])) = S n) as [n ->] by (by eexists).
    assert (exists_ fs (abs_path (d ++ [s])) = false) as Hex by (unfold exists_; by rewrite lookup_plain, E by done).
    assert (parent (abs_path (d ++ [s])) = Some (abs_path d)) as Hup.
    { unfold parent. by rewrite last_abs_snoc, removelast_abs_snoc. }
    cbn [nearest_from]. rewrite Hex, Hup. cbn [mbind option_bind].
    assert (nearest_from n fs (abs_path d) = Some (abs_path d)) as ->.
    { destruct n; cbn [nearest_from]; by rewrite exists_real. }
    unfold canonicalize. rewrite lookup_real by done. by rewrite Hpre.
Qed.

(** Applying a patch replaces one file, and loses another.  For a path in a real directory of
    the workspace, at which there is a file or nothing, [apply_patch] succeeds: the path then holds
    the new content and all else is as it was, but for the file of the same stem with the
    extension [tmp] beside it: the patch is written there first, whatever that file held, and
    moved from there. *)
Theorem apply_patch_replaces op base d name patch w :
  canonical_working_dir op = abs_path base -> base `prefix_of` d ->
  real_dir (nodes (files w)) d ->
  pp_path patch = abs_path (d ++ [name]) ->
  let temp := file_stem name ++ [DOT] ++ t!"tmp" in
  plain_name (nodes (files w)) d name -> plain_name (nodes (files w)) d temp ->
  exists w', apply_patch op patch w = Returns (inr tt, w')
    /\ nodes (files w') !! (d ++ [name]) = Some (File (utf8_encode (new_content patch)) (clock (files w)))
    /\ (temp <> name -> nodes (files w') !! (d ++ [temp]) = None)
    /\ (forall q, ~ d ++ [name] `prefix_of` q -> ~ d ++ [temp] `prefix_of` q ->
          nodes (files w') !! q = nodes (files w) !! q)
    /\ ledger w' = ledger w.
Proof.
  intros Hcd Hb Hd Hpath temp Hn Ht. set (fs := files w) in *.
  set (n := File (utf8_encode (new_content patch)) (clock fs)).
  set (m := <[d ++ [temp] := n]> (nodes fs)).
  assert (real_dir m d) as Hdm by (by apply real_dir_insert).
  assert (rename (with_nodes fs m) (abs_path (d ++ [temp])) (abs_path (d ++ [name]))
    = inr (with_nodes fs (if bool_decide (temp = name) then m else move_tree (d ++ [temp]) (d ++ [name]) m))) as Hren.
  { unfold rename. rewrite !entry_plain by done. cbn [nodes with_nodes].
    rewrite !node_at_snoc. unfold m at 1. rewrite lookup_insert_eq. case_bool_decide as He.
    - apply app_inv_head in He. injection He as He. by rewrite bool_decide_eq_true_2.
    - assert (temp <> name) as Hne by congruence. rewrite (bool_decide_eq_false_2 (temp = name)) by done.
      unfold under. rewrite bool_decide_eq_false_2 by (by intros ?%snoc_prefix).
      assert (m !! (d ++ [name]) = nodes fs !! (d ++ [name])) as ->.
      { apply lookup_insert_ne. intros He'. apply app_inv_head in He'. congruence. }
      unfold plain_name in Hn. destruct (nodes fs !! (d ++ [name])) as [[]|]; done. }
  exists (mk_World (with_nodes fs (if bool_decide (temp = name) then m else move_tree (d ++ [temp]) (d ++ [name]) m)) (ledger w)).
  split.
  { unfold apply_patch, mbind, op_bind, asks_or. fold fs. rewrite Hpath, (guard_plain _ base) by done.
    cbv zeta. rewrite with_extension_snoc. fold temp. unfold change. fold fs.
    rewrite write_plain by done. fold n m. cbn [files]. by rewrite Hren. }
  cbn [files ledger nodes with_nodes]. case_bool_decide as He.
  - rewrite <- He. split_and!; [apply lookup_insert_eq | done | | done].
    intros q Hq _. apply lookup_insert_ne. by intros <-.
  - assert (~ d ++ [name] `prefix_of` d ++ [temp]) as Hnp by (by intros ?%snoc_prefix; congruence).
    split_and!; [apply move_tree_at, lookup_insert_eq | intros _; by apply move_tree_gone | | done].
    intros q Hq Hq'. rewrite move_tree_other by done. apply lookup_insert_ne. by intros <-.
Qed.

Lemma apply_patch_replaces_witness :
  let fs := mk_FileSystem (list_to_map [([t!"ws"], Dir); ([t!"ws"; t!"notes.md"], File (t!"old") 1);
              ([t!"ws"; t!"notes.tmp"], File (t!"mine") 1)]) [] 7 in
  let patch := mk_PendingPatch [] t!"new" (components t!"/ws/notes.md") in
  exists w', apply_patch (operator_new fs (components t!"/ws")) patch (mk_World fs []) = Returns (inr tt, w')
    /\ nodes (files w') !! [t!"ws"; t!"notes.md"] = Some (File (t!"new") 7)
    /\ nodes (files w') !! [t!"ws"; t!"notes.tmp"] = None.
Proof.
  cbv zeta.
  set (fs := mk_FileSystem _ [] 7). set (patch := mk_PendingPatch _ _ _).
  destruct (apply_patch_replaces (operator_new fs (components t!"/ws")) [t!"ws"] [t!"ws"] t!"notes.md" patch (mk_World fs []))
    as (w' & H1 & H2 & H3 & _).
  - vm_compute. reflexivity.
  - reflexivity.
  - intros q [k Hk]. destruct q as [|a [|b q]]; [done | | done]. cbn in Hk. by injection Hk as <- _.
  - vm_compute. reflexivity.
  - vm_compute. exact I.
  - vm_compute. exact I.
  - exists w'. split; [exact H1|]. split; [exact H2|]. apply H3. by vm_compute.
Defined.
End patches.

(** ** Ranges of lines *)

(** When reading a range panics.  [read_file] with a range panics exactly when the range
    begins inside the file and its first line and the number of lines asked for are together
    beyond the largest [usize], as the model is free to ask. *)
Theorem range_panics_iff content offset limit :
  (forall o, offset = Some o -> o <= usize_max) -> (forall v, limit = Some v -> v <= usize_max) ->
  let start := unwrap_or offset 1 - 1 in
  render_range content offset limit = Panics
  <-> start < N.of_nat (length (lines content)) /\ exists v, limit = Some v /\ usize_max < start + v.
Proof.
  intros Ho Hv start. unfold render_range, sat_sub. fold start. cbv zeta.
  set (total := N.of_nat (length (lines content))).
  assert (start <= usize_max) as Hs.
  { unfold start. destruct offset as [o|]; cbn [unwrap_or]; [specialize (Ho o eq_refl); lia | by compute]. }
  destruct (N.leb_spec total start) as [Hle|Hlt]; [split; [done|]; intros [? _]; lia|].
  destruct limit as [v|].
  2: { destruct (N.ltb_spec total start); [lia|]. split; [done|]. by intros (_ & v & [=] & _). }
  specialize (Hv v eq_refl). destruct (decide (start + v <= usize_max)) as [Hsum|Hsum].
  - rewrite wrap_add_small by done. destruct (N.ltb_spec (N.min (start + v) total) start); [lia|].
    split; [done|]. intros (_ & v' & [= <-] & ?). lia.
  - assert (wrap_add usize_max start v = start + v - (usize_max + 1)) as ->.
    { unfold wrap_add. replace (start + v) with (start + v - (usize_max + 1) + 1 * (usize_max + 1)) at 1 by lia.
      rewrite N.Div0.mod_add. apply N.mod_small. lia. }
    destruct (N.ltb_spec (N.min (start + v - (usize_max + 1)) total) start); [|lia].
    split; [|done]. intros _. split; [done|]. exists v. split; [done | lia].
Qed.

Lemma range_panics_iff_witness :
  render_range t!"one" (Some 1) (Some 2) <> Panics
  /\ render_range (t!"one" ++ NL ++ t!"two") (Some 2) (Some usize_max) = Panics.
Proof.
  split.
  - intros H. apply range_panics_iff in H as (_ & v & [= <-] & Hv).
    + by vm_compute in Hv.
    + intros o [= <-]. by compute.
    + intros v [= <-]. by compute.
  - apply range_panics_iff.
    + intros o [= <-]. by compute.
    + intros v [= <-]. by compute.
    + split; [by compute|]. exists usize_max. by split; [|compute].
Defined.

(** ** The reads of a pulse *)
Definition same_path (a b : LocatedRead) : bool := bool_decide (lr_path a = lr_path b).

(** The reads that no later one of the same path has replaced. *)
Fixpoint latest (reads : list LocatedRead) : list LocatedRead :=
  match reads with
  | [] => []
  | r :: rest => if existsb (same_path r) rest then latest rest else r :: latest rest
  end.

Definition lastn {A} (n : nat) (l : list A) : list A := drop (length l - n) l.
Definition other_path (r e : LocatedRead) : bool := negb (bool_decide (lr_path e = lr_path r)).

Lemma drop_oldest_lastn l : drop_oldest l = lastn MAX_PULSE_LEDGER_ENTRIES l.
Proof.
  induction l as [|x l IH]; [done|]. cbn [drop_oldest]. unfold lastn in *.
  destruct (Nat.ltb_spec MAX_PULSE_LEDGER_ENTRIES (length (x :: l))) as [Hlt|Hge].
  - rewrite IH. cbn [length] in *. by replace (S (length l) - MAX_PULSE_LEDGER_ENTRIES)%nat
      with (S (length l - MAX_PULSE_LEDGER_ENTRIES)) by lia.
  - by replace (length (x :: l) - MAX_PULSE_LEDGER_ENTRIES)%nat with 0%nat by lia.
Qed.

Lemma latest_snoc reads r : latest (reads ++ [r]) = List.filter (other_path r) (latest reads) ++ [r].
Proof.
  induction reads as [|x l IH]; [done|]. cbn [app latest]. rewrite existsb_app. cbn [existsb].
  rewrite orb_false_r. destruct (existsb (same_path x) l); [exact IH|]. cbn [orb List.filter].
  unfold same_path, other_path at 1. case_bool_decide; cbn [negb]; rewrite IH; done.
Qed.

Lemma latest_in reads e : e ∈ latest reads -> e ∈ reads.
Proof.
  induction reads as [|x l IH]; cbn [latest]; [done|]. destruct (existsb _ _); rewrite ?elem_of_cons; naive_solver.
Qed.

Lemma latest_nodup reads : NoDup (map lr_path (latest reads)).
Proof.
  induction reads as [|x l IH]; cbn [latest]; [constructor|].
  destruct (existsb (same_path x) l) eqn:E; [done|]. cbn [map]. constructor; [|done].
  intros (e & He & Hin%latest_in)%list_elem_of_fmap. apply not_true_iff_false in E. apply E, existsb_exists.
  exists e. split; [by apply list_elem_of_In|]. unfold same_path. by apply bool_decide_eq_true_2.
Qed.

(** Of entries with distinct paths at most one has a given path. *)
Lemma filter_other_length r l :
  NoDup (map lr_path l) -> (length l <= S (length (List.filter (other_path r) l)))%nat.
Proof.
  induction l as [|x l IH]; cbn [map List.filter length]; [lia|]. intros [Hx Hnd]%NoDup_cons.
  unfold other_path at 1. case_bool_decide as Hp; cbn [negb length]; [|specialize (IH Hnd); lia].
  enough (List.filter (other_path r) l = l) as -> by lia.
  clear IH Hnd. induction l as [|y l IH]; [done|]. cbn [List.filter map] in *. apply not_elem_of_cons in Hx as [Hy Hx].
  unfold other_path at 1. rewrite bool_decide_eq_false_2 by congruence. cbn [negb]. by rewrite IH.
Qed.

Lemma lastn_snoc {A} n (l : list A) x : lastn (S n) (l ++ [x]) = lastn n l ++ [x].
Proof.
  unfold lastn. rewrite length_app. cbn [length]. replace (length l + 1 - S n)%nat with (length l - n)%nat by lia.
  rewrite drop_app_le by lia. done.
Qed.

Lemma lastn_filter n r l :
  NoDup (map lr_path l) ->
  lastn n (List.filter (other_path r) (lastn (S n) l)) = lastn n (List.filter (other_path r) l).
Proof.
  intros Hnd. destruct (decide (length l <= S n)%nat) as [Hle|Hgt].
  { unfold lastn at 2. by replace (length l - S n)%nat with 0%nat by lia. }
  rewrite <- (take_drop (length l - S n) l) at 2. fold (lastn (S n) l). rewrite List.filter_app.
  assert (length (lastn (S n) l) = S n) as Hl by (unfold lastn; rewrite length_drop; lia).
  assert (NoDup (map lr_path (lastn (S n) l))) as Hnd'.
  { rewrite <- (take_drop (length l - S n) l), map_app in Hnd. by apply NoDup_app in Hnd as (_ & _ & ?). }
  pose proof (filter_other_length r _ Hnd') as Hf. rewrite Hl in Hf.
  set (a := List.filter _ (take _ _)). set (b := List.filter _ (lastn _ _)) in *.
  unfold lastn. rewrite length_app, drop_app_ge by lia. f_equal. lia.
Qed.

Lemma ledger_lastn reads :
  foldl (fun l r => record_pulse_read r l) [] reads = lastn MAX_PULSE_LEDGER_ENTRIES (latest reads).
Proof.
  induction reads as [|r reads IH] using rev_ind; [done|]. rewrite foldl_app, IH, latest_snoc. cbn [foldl].
  unfold record_pulse_read. rewrite drop_oldest_lastn. change MAX_PULSE_LEDGER_ENTRIES with (S 63).
  rewrite !lastn_snoc. f_equal. apply (lastn_filter 63 r), latest_nodup.
Qed.

(** What the ledger of a pulse knows.  After any reads, it finds for a file the last read of
    that file, provided that at most 63 other files have been read since and that the file still
    has the length and the time it had then; it finds nothing else. *)
Theorem ledger_finds_latest fs reads p r :
  find_pulse_read fs p (foldl (fun l r => record_pulse_read r l) [] reads) = Some r
  <-> r ∈ lastn MAX_PULSE_LEDGER_ENTRIES (latest reads) /\ lr_path r = p
      /\ file_fingerprint fs p = Some (fingerprint r).
Proof.
  rewrite ledger_lastn. assert (NoDup (map lr_path (lastn MAX_PULSE_LEDGER_ENTRIES (latest reads)))) as Hnd.
  { pose proof (latest_nodup reads) as Hnd. unfold lastn. set (k := (_ - _)%nat).
    rewrite <- (take_drop k (latest reads)), map_app in Hnd. by apply NoDup_app in Hnd as (_ & _ & ?). }
  set (l := lastn _ _) in *. clearbody l. unfold find_pulse_read.
  destruct (file_fingerprint fs p) as [current|] eqn:Hc; cbn [mbind option_bind]; [|split; [done | by intros (_ & _ & [=])]].
  split.
  - intros [Hin Hf]%List.find_some. apply andb_prop in Hf as [Hp Hf].
    apply bool_decide_eq_true in Hp, Hf. rewrite <- Hf. split_and!; [|done | done].
    apply list_elem_of_In in Hin. by rewrite elem_of_reverse in Hin.
  - intros (Hin & Hp & [= ->]). destruct (List.find _ _) as [r'|] eqn:E.
    + apply List.find_some in E as [Hin' Hf]. apply andb_prop in Hf as [Hp' _]. apply bool_decide_eq_true in Hp'.
      apply list_elem_of_In in Hin'. rewrite elem_of_reverse in Hin'. f_equal.
      apply list_elem_of_lookup in Hin as [i Hi], Hin' as [j Hj].
      assert (i = j) as <-; [|congruence].
      apply (NoDup_lookup (map lr_path l) i j p); [done | |]; rewrite list_lookup_fmap.
      * rewrite Hi. cbn. by rewrite Hp.
      * rewrite Hj. cbn. by rewrite Hp'.
    + exfalso. pose proof (List.find_none _ _ E r) as Hn. rewrite <- list_elem_of_In, elem_of_reverse in Hn.
      specialize (Hn Hin). by rewrite !bool_decide_eq_true_2 in Hn by done.
Qed.
