(* ===== verification/TaskDocument.v ===== *)
(** The document of a task and what the signals of the runtime do to it:
    src/runtime/task_document/model.rs, src/runtime/task_document/condenser.rs and the
    capabilities of src/runtime/approval.rs.

    The clock is an argument. *)
From Stdlib Require Import NArith ZArith Lia.
From stdpp Require Import base list gmap strings numbers sets.
From S2P Require Import Prelude Text Collections Json Usage Evidence PeerChannel Envelope Derived.
#[local] Open Scope N_scope.

(** ** Approvals: src/runtime/approval.rs *)
Inductive Capability : Type :=
| ReadFile | WriteFile | ApplyPatch | RunCommand | McpTool | Network | Browser.
Inductive ApprovalScope : Type := Once | Task | Session.

#[export] Instance Capability_eq_dec : EqDecision Capability.
Proof. solve_decision. Defined.
#[export] Instance ApprovalScope_eq_dec : EqDecision ApprovalScope.
Proof. solve_decision. Defined.

Definition capability_number (c : Capability) : N :=
  match c with
  | ReadFile => 0 | WriteFile => 1 | ApplyPatch => 2 | RunCommand => 3
  | McpTool => 4 | Network => 5 | Browser => 6
  end.
Definition number_capability (n : N) : option Capability :=
  match n with
  | 0 => Some ReadFile | 1 => Some WriteFile | 2 => Some ApplyPatch | 3 => Some RunCommand
  | 4 => Some McpTool | 5 => Some Network | 6 => Some Browser | _ => None
  end.
#[export] Instance Capability_countable : Countable Capability.
Proof. apply (inj_countable capability_number number_capability). by intros []. Defined.

Definition parse_capability (s : str) : option Capability :=
  let s := trim s in
  if str_in s [t!"read_file"; t!"read-file"] then Some ReadFile
  else if str_in s [t!"write_file"; t!"write-file"] then Some WriteFile
  else if str_in s [t!"apply_patch"; t!"apply-patch"] then Some ApplyPatch
  else if str_in s [t!"run_command"; t!"run-command"] then Some RunCommand
  else if str_in s [t!"mcp_tool"; t!"mcp-tool"] then Some McpTool
  else if str_eqb s t!"network" then Some Network
  else if str_eqb s t!"browser" then Some Browser
  else None.

Definition parse_scope (s : str) : option ApprovalScope :=
  let s := trim s in
  if str_eqb s t!"once" then Some Once
  else if str_eqb s t!"task" then Some Task
  else if str_eqb s t!"session" then Some Session
  else None.

(** ** The document: src/runtime/task_document/model.rs *)
Inductive TaskStatus : Type :=
| TReady | TRunning | TAwaitingApproval | TCancelling | TCompleted | TFailed | TCancelled | TMaxTurnsReached.
Inductive ModelBackendKind : Type := LocalRuntime | ApiServer.
Inductive PulseToolPolicy : Type := DefaultPolicy | TestsOnlyMutations.
Inductive NoticeSeverity : Type := Info | Warning | SevereError.

Record AssistantBlockEntry := mk_AssistantBlockEntry {
  block_index : N;
  phase : AssistantPhase;
  content : str;
  collapsed : bool;
  streaming : bool;
}.

Record ApprovalDocument := mk_ApprovalDocument {
  ad_step_id : N;
  ad_capability : Capability;
  ad_scope : ApprovalScope;
  ad_tool_name : option str;
  input_preview : str;
}.

Record CommandSessionDocument := mk_CommandSessionDocument {
  session_id : N;
  command : str;
  pid : option N;
  cs_status : str;
  output_tail : list str;
}.

Inductive PulseEntry : Type :=
| EUserInput (step_id : N) (text : str)
| EAssistantBlock (step_id : N) (block : AssistantBlockEntry)
| EToolCall (step_id : N) (id name : str) (input : value) (status : ToolStatus)
| EToolResult (step_id : N) (tool_call_id : str) (tool_name : option str) (output : str) (is_error : bool)
| EApprovalRequest (step_id : N) (approval : ApprovalDocument)
| EApprovalResolved (step_id : N) (capability : Capability) (scope : ApprovalScope) (approved : bool)
| ECommandSession (step_id : N) (session : CommandSessionDocument)
| ESystemNotice (step_id : N) (message : str) (severity : NoticeSeverity).

Inductive PulseOutcome : Type :=
| OutcomeCompleted | OutcomeFailed (message : str) | OutcomeCancelled | OutcomeMaxTurnsReached.

Record TaskErrorState := mk_TaskErrorState { te_message : str; recoverable : bool }.
Record SessionNote := mk_SessionNote { sn_content : str; created_at_turn : N }.
Record ContextCompactionRecord := mk_ContextCompactionRecord {
  cc_turn_index : N;
  messages_before : N;
  messages_after : N;
  cc_summary : str;
}.

Record ActiveTurnDocument := mk_ActiveTurnDocument {
  at_turn_index : N;
  at_input : str;
  at_entries : list PulseEntry;
  at_started_at_ms : N;
  at_ttft_ms : option N;
  prompt_progress : option StreamPromptProgress;
  at_timings : option StreamTimings;
  pending_approval : option ApprovalDocument;
  command_sessions : gmap N CommandSessionDocument;
  (** A [BTreeSet]. *)
  at_changed_files : list str;
  at_command_history : list CommandEvidence;
  tool_policy : PulseToolPolicy;
  cancel_pending : bool;
}.

Record TurnDocument := mk_TurnDocument {
  td_turn_index : N;
  td_input : str;
  td_entries : list PulseEntry;
  td_outcome : PulseOutcome;
  td_changed_files : list str;
  td_command_history : list CommandEvidence;
  td_tokens : PulseTokens.t;
  td_started_at_ms : N;
  completed_at_ms : N;
  td_ttft_ms : option N;
  td_timings : option StreamTimings;
}.

Record TaskInfo := mk_TaskInfo {
  ti_id : str;
  ti_status : TaskStatus;
  ti_parent_task_id : option str;
  ti_agent_id : option str;
  ti_worktree_path : option str;
  ti_branch_name : option str;
  ti_instructions_path : option str;
  model_name : str;
  model_backend : ModelBackendKind;
  model_url : str;
  ti_started_at_ms : option N;
  ti_updated_at_ms : N;
  ti_last_heartbeat_ms : option N;
  active_grants : gmap Capability ApprovalScope;
  next_step_id : N;
}.

Record TaskDocument := mk_TaskDocument {
  info : TaskInfo;
  completed_turns : list TurnDocument;
  active_pulse : option ActiveTurnDocument;
  session_notes : list SessionNote;
  context_compaction : list ContextCompactionRecord;
  session_tasks : list SessionTask;
  last_error : option TaskErrorState;
}.

(** *** One field of a record replaced *)
Definition set_status (s : TaskStatus) (i : TaskInfo) : TaskInfo :=
  mk_TaskInfo (ti_id i) s (ti_parent_task_id i) (ti_agent_id i) (ti_worktree_path i) (ti_branch_name i)
    (ti_instructions_path i) (model_name i) (model_backend i) (model_url i) (ti_started_at_ms i)
    (ti_updated_at_ms i) (ti_last_heartbeat_ms i) (active_grants i) (next_step_id i).
Definition set_updated (now : N) (i : TaskInfo) : TaskInfo :=
  mk_TaskInfo (ti_id i) (ti_status i) (ti_parent_task_id i) (ti_agent_id i) (ti_worktree_path i) (ti_branch_name i)
    (ti_instructions_path i) (model_name i) (model_backend i) (model_url i) (ti_started_at_ms i)
    now (ti_last_heartbeat_ms i) (active_grants i) (next_step_id i).
Definition set_grants (g : gmap Capability ApprovalScope) (i : TaskInfo) : TaskInfo :=
  mk_TaskInfo (ti_id i) (ti_status i) (ti_parent_task_id i) (ti_agent_id i) (ti_worktree_path i) (ti_branch_name i)
    (ti_instructions_path i) (model_name i) (model_backend i) (model_url i) (ti_started_at_ms i)
    (ti_updated_at_ms i) (ti_last_heartbeat_ms i) g (next_step_id i).
Definition set_next_step (n : N) (i : TaskInfo) : TaskInfo :=
  mk_TaskInfo (ti_id i) (ti_status i) (ti_parent_task_id i) (ti_agent_id i) (ti_worktree_path i) (ti_branch_name i)
    (ti_instructions_path i) (model_name i) (model_backend i) (model_url i) (ti_started_at_ms i)
    (ti_updated_at_ms i) (ti_last_heartbeat_ms i) (active_grants i) n.

Definition with_info (f : TaskInfo -> TaskInfo) (d : TaskDocument) : TaskDocument :=
  mk_TaskDocument (f (info d)) (completed_turns d) (active_pulse d) (session_notes d)
    (context_compaction d) (session_tasks d) (last_error d).
Definition set_active (a : option ActiveTurnDocument) (d : TaskDocument) : TaskDocument :=
  mk_TaskDocument (info d) (completed_turns d) a (session_notes d) (context_compaction d)
    (session_tasks d) (last_error d).
Definition set_error (e : TaskErrorState) (d : TaskDocument) : TaskDocument :=
  mk_TaskDocument (info d) (completed_turns d) (active_pulse d) (session_notes d) (context_compaction d)
    (session_tasks d) (Some e).

Definition set_entries (es : list PulseEntry) (a : ActiveTurnDocument) : ActiveTurnDocument :=
  mk_ActiveTurnDocument (at_turn_index a) (at_input a) es (at_started_at_ms a) (at_ttft_ms a)
    (prompt_progress a) (at_timings a) (pending_approval a) (command_sessions a) (at_changed_files a)
    (at_command_history a) (tool_policy a) (cancel_pending a).
Definition set_ttft (t : option N) (a : ActiveTurnDocument) : ActiveTurnDocument :=
  mk_ActiveTurnDocument (at_turn_index a) (at_input a) (at_entries a) (at_started_at_ms a) t
    (prompt_progress a) (at_timings a) (pending_approval a) (command_sessions a) (at_changed_files a)
    (at_command_history a) (tool_policy a) (cancel_pending a).
Definition set_metadata (p : option StreamPromptProgress) (t : option StreamTimings) (a : ActiveTurnDocument)
    : ActiveTurnDocument :=
  mk_ActiveTurnDocument (at_turn_index a) (at_input a) (at_entries a) (at_started_at_ms a) (at_ttft_ms a)
    p t (pending_approval a) (command_sessions a) (at_changed_files a)
    (at_command_history a) (tool_policy a) (cancel_pending a).
Definition set_pending_approval (p : option ApprovalDocument) (a : ActiveTurnDocument) : ActiveTurnDocument :=
  mk_ActiveTurnDocument (at_turn_index a) (at_input a) (at_entries a) (at_started_at_ms a) (at_ttft_ms a)
    (prompt_progress a) (at_timings a) p (command_sessions a) (at_changed_files a)
    (at_command_history a) (tool_policy a) (cancel_pending a).
Definition set_changed_files (fs : list str) (a : ActiveTurnDocument) : ActiveTurnDocument :=
  mk_ActiveTurnDocument (at_turn_index a) (at_input a) (at_entries a) (at_started_at_ms a) (at_ttft_ms a)
    (prompt_progress a) (at_timings a) (pending_approval a) (command_sessions a) fs
    (at_command_history a) (tool_policy a) (cancel_pending a).

(** ** The condenser: src/runtime/task_document/condenser.rs *)
Record TaskMutationSummary := mk_TaskMutationSummary {
  task_status_changed : bool;
  active_turn_changed : bool;
  appended_rows : N;
  selected_step_id : option N;
  approval_changed : bool;
}.
Definition no_mutation : TaskMutationSummary := mk_TaskMutationSummary false false 0 None false.
Definition turn_changed (rows : N) (selected : option N) : TaskMutationSummary :=
  mk_TaskMutationSummary false true rows selected false.

Definition begin_task (i : TaskInfo) : TaskDocument := mk_TaskDocument i [] None [] [] [] None.

(** [alloc_step(&mut doc.info.next_step_id)]. *)
Definition alloc_step (d : TaskDocument) : N * TaskDocument :=
  let id := next_step_id (info d) in (id, with_info (set_next_step (sat_add u64_max id 1)) d).

Definition begin_turn (input : str) (started_at_ms : N) (policy : PulseToolPolicy) (d : TaskDocument)
    : outcome TaskDocument :=
  match active_pulse d with
  | Some _ => Panics
  | None =>
      let turn_index := N.of_nat (length (completed_turns d)) in
      let '(step_id, d) := alloc_step d in
      let d := with_info (fun i => set_updated started_at_ms (set_status TRunning i)) d in
      Returns (set_active (Some (mk_ActiveTurnDocument turn_index input [EUserInput step_id input]
                 started_at_ms None None None None ∅ [] [] policy false)) d)
  end.

(** [for entry in active.entries.iter_mut().rev()]: the last block with the index. *)
Fixpoint update_last_block (index : N) (mutate : AssistantBlockEntry -> AssistantBlockEntry)
    (entries : list PulseEntry) : option (list PulseEntry) :=
  match entries with
  | [] => None
  | e :: r =>
      match update_last_block index mutate r with
      | Some r => Some (e :: r)
      | None =>
          match e with
          | EAssistantBlock step_id block =>
              if block_index block =? index then Some (EAssistantBlock step_id (mutate block) :: r) else None
          | _ => None
          end
      end
  end.

Definition update_block_content (index : N) (mutate : AssistantBlockEntry -> AssistantBlockEntry)
    (a : ActiveTurnDocument) : ActiveTurnDocument :=
  set_entries (unwrap_or (update_last_block index mutate (at_entries a)) (at_entries a)) a.

(** The first call with the identifier. *)
Fixpoint update_call_status (call_id : str) (status : ToolStatus) (entries : list PulseEntry)
    : option (list PulseEntry) :=
  match entries with
  | [] => None
  | EToolCall step_id id name input old :: r =>
      if str_eqb id call_id then Some (EToolCall step_id id name input status :: r)
      else cons (EToolCall step_id id name input old) <$> update_call_status call_id status r
  | e :: r => cons e <$> update_call_status call_id status r
  end.

Definition set_call_status (call_id : str) (status : ToolStatus) (a : ActiveTurnDocument) : ActiveTurnDocument :=
  set_entries (unwrap_or (update_call_status call_id status (at_entries a)) (at_entries a)) a.

(** A new entry with the next step. *)
Definition push_entry (entry : N -> PulseEntry) (a : ActiveTurnDocument) (d : TaskDocument) : N * TaskDocument :=
  let '(step_id, d) := alloc_step d in
  (step_id, set_active (Some (set_entries (at_entries a ++ [entry step_id]) a)) d).

Definition tool_finished (call_id : str) (name : option str) (status : ToolStatus) (output : str) (is_error : bool)
    (a : ActiveTurnDocument) (d : TaskDocument) : TaskMutationSummary * TaskDocument :=
  let '(_, d) := push_entry (fun step => EToolResult step call_id name output is_error) (set_call_status call_id status a) d in
  (turn_changed 1 None, d).

Definition approval_mutation : TaskMutationSummary := mk_TaskMutationSummary true true 0 None true.

(** What the signal does to an active pulse; [None] where the handler returns at once.
    [first_token] is the clock at the first text of the pulse. *)
Definition apply_to_active (signal : RuntimeSignal) (first_token : N) (a : ActiveTurnDocument) (d : TaskDocument)
    : option (TaskMutationSummary * TaskDocument) :=
  let put a := set_active (Some a) d in
  match signal with
  | TranscriptLine line =>
      let '(_, d) := push_entry (fun step => ESystemNotice step line Info) a d in Some (turn_changed 1 None, d)
  | TranscriptBlockStart index block =>
      let start phase content collapsed :=
        let '(_, d) := push_entry (fun step => EAssistantBlock step (mk_AssistantBlockEntry index phase content collapsed true)) a d in
        Some (turn_changed 1 None, d) in
      match block with
      | Thinking content collapsed => start PhaseThinking content collapsed
      | FinalText content => start PhaseFinal content false
      | _ => None
      end
  | TranscriptBlockDelta index delta =>
      let a := update_block_content index (fun b =>
          mk_AssistantBlockEntry (block_index b) (phase b) (content b ++ delta) (collapsed b) (streaming b)) a in
      let a := match at_ttft_ms a with
               | None => set_ttft (Some (sat_sub first_token (at_started_at_ms a))) a
               | Some _ => a
               end in
      Some (turn_changed 0 None, put a)
  | TranscriptBlockComplete index =>
      let a := update_block_content index (fun b =>
          mk_AssistantBlockEntry (block_index b) (phase b) (content b) (collapsed b) false) a in
      Some (turn_changed 0 None, put a)
  | ToolCallStatusUpdated call_id status =>
      match update_call_status call_id status (at_entries a) with
      | Some entries => Some (turn_changed 0 None, put (set_entries entries a))
      | None => Some (no_mutation, d)
      end
  | TranscriptBlockPhaseUpdated index phase streaming =>
      let a := update_block_content index (fun b =>
          mk_AssistantBlockEntry (block_index b) phase (content b) (collapsed b) streaming) a in
      Some (turn_changed 0 None, put a)
  | ToolCallStarted call_id name arguments status _ =>
      let '(step_id, d) := push_entry (fun step => EToolCall step call_id name arguments status) a d in
      Some (turn_changed 1 (Some step_id), d)
  | ToolCallCompleted call_id name status _ _ _ output =>
      Some (tool_finished call_id name status output false a d)
  | ToolCallFailed call_id name status _ _ _ output =>
      Some (tool_finished call_id name status output true a d)
  | ApprovalRequest capability scope tool_name =>
      match parse_capability capability, parse_scope scope with
      | Some capability, Some scope =>
          let approval := mk_ApprovalDocument (next_step_id (info d)) capability scope tool_name [] in
          let '(_, d) := push_entry (fun step => EApprovalRequest step approval)
                           (set_pending_approval (Some approval) a) d in
          Some (approval_mutation, with_info (set_status TAwaitingApproval) d)
      | _, _ => Some (no_mutation, d)
      end
  | ApprovalResolved capability scope approved =>
      match parse_capability capability, parse_scope scope with
      | Some capability, Some scope =>
          let '(_, d) := push_entry (fun step => EApprovalResolved step capability scope approved)
                           (set_pending_approval None a) d in
          let grants := active_grants (info d) in
          let grants :=
            if approved then
              match scope with Once => grants | Task | Session => <[capability := scope]> grants end
            else delete capability grants in
          Some (approval_mutation, with_info (fun i => set_status TRunning (set_grants grants i)) d)
      | _, _ => Some (no_mutation, d)
      end
  | ServerMetadata metadata =>
      let a := set_metadata
                 (match md_prompt_progress metadata with Some p => Some p | None => prompt_progress a end)
                 (match md_timings metadata with Some t => Some t | None => at_timings a end) a in
      Some (turn_changed 0 None, put a)
  | PulseEnd _ _ changed_files =>
      let files := insert_all changed_files (at_changed_files a) in
      Some (mk_TaskMutationSummary false (negb (length files =? length (at_changed_files a))%nat) 0 None false,
            put (set_changed_files files a))
  | _ => Some (no_mutation, d)
  end.

Definition apply_runtime_signal (signal : RuntimeSignal) (first_token now : N) (d : TaskDocument)
    : TaskMutationSummary * TaskDocument :=
  let applied :=
    match signal with
    | SError _ message recoverable =>
        let d := set_error (mk_TaskErrorState message recoverable) d in
        if recoverable then Some (no_mutation, d)
        else Some (mk_TaskMutationSummary true false 0 None false, with_info (set_status TFailed) d)
    | MaxTurnsReached _ =>
        Some (mk_TaskMutationSummary true false 0 None false, with_info (set_status TMaxTurnsReached) d)
    | _ =>
        match active_pulse d with
        | Some a => apply_to_active signal first_token a d
        | None => Some (no_mutation, d)
        end
    end in
  match applied with
  | Some (summary, d) => (summary, with_info (set_updated now) d)
  | None => (no_mutation, d)
  end.

Definition stop_streaming (e : PulseEntry) : PulseEntry :=
  match e with
  | EAssistantBlock step b =>
      EAssistantBlock step (mk_AssistantBlockEntry (block_index b) (phase b) (content b) (collapsed b) false)
  | e => e
  end.

Definition outcome_status (o : PulseOutcome) : TaskStatus :=
  match o with
  | OutcomeCompleted => TReady
  | OutcomeFailed _ => TFailed
  | OutcomeCancelled => TCancelled
  | OutcomeMaxTurnsReached => TMaxTurnsReached
  end.

Definition finish_turn (o : PulseOutcome) (tokens : PulseTokens.t) (completed_at_ms : N) (d : TaskDocument)
    : TaskMutationSummary * TaskDocument :=
  match active_pulse d with
  | None => (no_mutation, d)
  | Some a =>
      let turn := mk_TurnDocument (at_turn_index a) (at_input a) (map stop_streaming (at_entries a)) o
                    (at_changed_files a) (at_command_history a) tokens (at_started_at_ms a) completed_at_ms
                    (at_ttft_ms a) (at_timings a) in
      (mk_TaskMutationSummary true true 0 None false,
       mk_TaskDocument (set_updated completed_at_ms (set_status (outcome_status o) (info d)))
         (completed_turns d ++ [turn]) None (session_notes d) (context_compaction d) (session_tasks d) (last_error d))
  end.

(** [entry_step_id] of task_state_bridge.rs. *)
Definition entry_step_id (e : PulseEntry) : N :=
  match e with
  | EUserInput s _ | EAssistantBlock s _ | EToolCall s _ _ _ _ | EToolResult s _ _ _ _
  | EApprovalRequest s _ | EApprovalResolved s _ _ _ | ECommandSession s _ | ESystemNotice s _ _ => s
  end.
