(* ===== verification/TaskDocumentTheory.v ===== *)
(** What holds of a task's document after any signals: its steps, its turns, its approvals and
    its grants. *)
From Stdlib Require Import NArith ZArith Lia Sorted.
From stdpp Require Import base list gmap strings numbers sets.
From S2P Require Import Prelude Text Collections Json Usage Evidence PeerChannel Envelope Derived TaskDocument.
#[local] Open Scope N_scope.

(** ** Entries without what may still change in them *)
Definition frame (e : PulseEntry) : PulseEntry :=
  match e with
  | EAssistantBlock step _ => EAssistantBlock step (mk_AssistantBlockEntry 0 PhaseFinal [] false false)
  | EToolCall step id name input _ => EToolCall step id name input Envelope.Pending
  | e => e
  end.

Lemma frame_step_id e : entry_step_id (frame e) = entry_step_id e.
Proof. by destruct e. Qed.

Lemma frames_step_ids es es' :
  map frame es = map frame es' -> map entry_step_id es = map entry_step_id es'.
Proof.
  intros H. assert (forall l, map entry_step_id l = map entry_step_id (map frame l)) as Hf.
  { intros l. rewrite map_map. apply map_ext. intros e. symmetry. apply frame_step_id. }
  by rewrite (Hf es), (Hf es'), H.
Qed.

Lemma update_last_block_frames index mutate es es' :
  update_last_block index mutate es = Some es' -> map frame es' = map frame es.
Proof.
  revert es'. induction es as [|e es IH]; intros es'; cbn [update_last_block]; [done|].
  destruct (update_last_block index mutate es) as [r|] eqn:E.
  - intros [= <-]. cbn [map]. f_equal. by apply IH.
  - destruct e as [| step b | | | | | |]; try done. destruct (_ =? _); [|done]. by intros [= <-].
Qed.

Lemma update_call_status_frames call_id status es es' :
  update_call_status call_id status es = Some es' -> map frame es' = map frame es.
Proof.
  revert es'. induction es as [|e es IH]; intros es'; cbn [update_call_status]; [done|].
  assert (cons e <$> update_call_status call_id status es = Some es' -> map frame es' = map frame (e :: es)) as Hr.
  { destruct (update_call_status _ _ es) as [r|] eqn:E; [|done]. cbn. intros [= <-]. cbn [map]. f_equal. by apply IH. }
  destruct e; try exact Hr. destruct (str_eqb _ _); [|exact Hr]. by intros [= <-].
Qed.

Lemma update_block_content_frames index mutate a :
  map frame (at_entries (update_block_content index mutate a)) = map frame (at_entries a).
Proof.
  unfold update_block_content. cbn [set_entries at_entries].
  destruct (update_last_block _ _ _) eqn:E; [by apply update_last_block_frames in E | done].
Qed.

Lemma set_call_status_frames call_id status a :
  map frame (at_entries (set_call_status call_id status a)) = map frame (at_entries a).
Proof.
  unfold set_call_status. cbn [set_entries at_entries].
  destruct (update_call_status _ _ _) eqn:E; [by apply update_call_status_frames in E | done].
Qed.

(** ** Grants *)
Definition resolve_grant (g : gmap Capability ApprovalScope) (e : PulseEntry) : gmap Capability ApprovalScope :=
  match e with
  | EApprovalResolved _ capability scope approved =>
      if approved then match scope with Once => g | _ => <[capability := scope]> g end
      else delete capability g
  | _ => g
  end.
Definition replay_grants (g : gmap Capability ApprovalScope) (es : list PulseEntry) : gmap Capability ApprovalScope :=
  foldl resolve_grant g es.

Lemma replay_frames g es es' : map frame es = map frame es' -> replay_grants g es = replay_grants g es'.
Proof.
  assert (forall l g, replay_grants g l = replay_grants g (map frame l)) as Hf.
  { unfold replay_grants. intros l. induction l as [|e l IH]; intros g0; [done|]. cbn [foldl map].
    rewrite IH. by destruct e. }
  intros H. by rewrite (Hf es), (Hf es'), H.
Qed.

(** ** The effect of a signal *)
Definition active_entries (d : TaskDocument) : list PulseEntry :=
  match active_pulse d with Some a => at_entries a | None => [] end.
Definition completed_entries (d : TaskDocument) : list PulseEntry :=
  List.flat_map td_entries (completed_turns d).
Definition all_entries (d : TaskDocument) : list PulseEntry := completed_entries d ++ active_entries d.
Definition pending_of (d : TaskDocument) : option ApprovalDocument := active_pulse d ≫= pending_approval.

(** [new]: what a signal appends, an entry at most, with the next step. *)
Record effect (d : TaskDocument) (new : list PulseEntry) (d' : TaskDocument) : Prop := {
  ef_completed : completed_turns d' = completed_turns d;
  ef_active :
    match active_pulse d, active_pulse d' with
    | Some a, Some a' =>
        at_turn_index a' = at_turn_index a /\ at_input a' = at_input a
        /\ (sorted (at_changed_files a) -> sorted (at_changed_files a'))
    | None, None => new = []
    | _, _ => False
    end;
  ef_frames : map frame (active_entries d') = map frame (active_entries d) ++ map frame new;
  ef_next :
    match new with
    | [] => next_step_id (info d') = next_step_id (info d)
    | [e] => entry_step_id e = next_step_id (info d)
             /\ next_step_id (info d') = sat_add u64_max (next_step_id (info d)) 1
    | _ => False
    end;
  ef_grants : active_grants (info d') = replay_grants (active_grants (info d)) new;
  ef_pending :
    pending_of d' = pending_of d \/ pending_of d' = None
    \/ exists ad, pending_of d' = Some ad /\ new = [EApprovalRequest (ad_step_id ad) ad];
  ef_waiting :
    ti_status (info d') = TAwaitingApproval ->
    is_Some (pending_of d') \/ ti_status (info d) = TAwaitingApproval /\ pending_of d' = pending_of d;
}.

Lemma insert_all_sorted files l : sorted l -> sorted (insert_all files l).
Proof.
  unfold insert_all. revert l. induction files as [|f files IH]; intros l Hl; [done|]. cbn [fold_left].
  apply IH. by apply set_insert_sorted.
Qed.

Lemma effect_refl d : effect d [] d.
Proof.
  split; try done; [by destruct (active_pulse d) | by rewrite app_nil_r | by left | by right].
Qed.

Lemma effect_updated d new d' now : effect d new d' -> effect d new (with_info (set_updated now) d').
Proof. by intros []. Qed.

(** The active pulse replaced by one with the same entries, up to frames. *)
Lemma effect_put d a a' :
  active_pulse d = Some a -> at_turn_index a' = at_turn_index a -> at_input a' = at_input a ->
  (sorted (at_changed_files a) -> sorted (at_changed_files a')) ->
  map frame (at_entries a') = map frame (at_entries a) -> pending_approval a' = pending_approval a ->
  effect d [] (set_active (Some a') d).
Proof.
  intros Ha Hi Hin Hs Hf Hp. split; unfold active_entries, pending_of; cbn; rewrite ?Ha; cbn; try done.
  - by rewrite app_nil_r.
  - by left.
  - intros Hw. right. split; [done|]. done.
Qed.

(** An entry appended, to an active pulse with the same entries up to frames. *)
Lemma effect_push d a a' (entry : N -> PulseEntry) :
  active_pulse d = Some a -> at_turn_index a' = at_turn_index a -> at_input a' = at_input a ->
  at_changed_files a' = at_changed_files a -> map frame (at_entries a') = map frame (at_entries a) ->
  (forall n, entry_step_id (entry n) = n) -> (forall n g, resolve_grant g (entry n) = g) ->
  pending_approval a' = pending_approval a ->
  effect d [entry (next_step_id (info d))] (push_entry entry a' d).2.
Proof.
  intros Ha Hi Hin Hs Hf Hid Hg Hp. split; unfold active_entries, pending_of; cbn; rewrite ?Ha; cbn; try done.
  - by rewrite Hs.
  - by rewrite map_app, Hf.
  - by left.
  - intros Hw. by right.
Qed.

Ltac pushed H :=
  match type of H with
  | context [push_entry ?e ?a ?d] =>
      let E := fresh "E" in destruct (push_entry e a d) as [? ?] eqn:E; injection H as _ <-
  end.

Lemma signal_effect s ft now d : exists new, effect d new (apply_runtime_signal s ft now d).2.
Proof.
  assert (forall applied, (forall m d', applied = Some (m, d') -> exists new, effect d new d') ->
    exists new, effect d new (match applied with
      | Some (summary, d) => (summary, with_info (set_updated now) d)
      | None => (no_mutation, d) end).2) as Hdone.
  { intros [[m d']|] H; [|exists []; apply effect_refl]. destruct (H m d' eq_refl) as [new He].
    exists new. by apply effect_updated. }
  unfold apply_runtime_signal. cbv zeta. apply Hdone. clear Hdone. intros m d' H.
  assert (forall a, active_pulse d = Some a -> apply_to_active s ft a d = Some (m, d') -> exists new, effect d new d') as Hact.
  { clear H. intros a Ha H.
    assert (forall a', at_turn_index a' = at_turn_index a -> at_input a' = at_input a ->
      (sorted (at_changed_files a) -> sorted (at_changed_files a')) ->
      map frame (at_entries a') = map frame (at_entries a) -> pending_approval a' = pending_approval a ->
      d' = set_active (Some a') d -> exists new, effect d new d') as Hput.
    { intros a' H1 H2 H3 H4 H5 ->. exists []. by apply (effect_put d a a'). }
    assert (d' = d -> exists new, effect d new d') as Hsame by (intros ->; exists []; apply effect_refl).
    assert (forall a' entry, at_turn_index a' = at_turn_index a -> at_input a' = at_input a ->
      at_changed_files a' = at_changed_files a -> map frame (at_entries a') = map frame (at_entries a) ->
      (forall n, entry_step_id (entry n) = n) -> (forall n g, resolve_grant g (entry n) = g) ->
      pending_approval a' = pending_approval a ->
      d' = (push_entry entry a' d).2 -> exists new, effect d new d') as Hpush.
    { intros a' entry H1 H2 H3 H4 H5 H6 H7 ->. eexists. by apply (effect_push d a a' entry). }
    destruct s; cbn [apply_to_active] in H; unfold tool_finished in H; cbv zeta in H;
      try (injection H as _ <-; by apply Hsame).
    - pushed H. by eapply Hpush; [..|by rewrite E].
    - destruct block; try done; pushed H; by eapply Hpush; [..|by rewrite E].
    - injection H as _ <-. eapply Hput; [..|reflexivity]; destruct (at_ttft_ms _); try done; apply update_block_content_frames.
    - injection H as _ <-. eapply Hput; [..|reflexivity]; try done. apply update_block_content_frames.
    - destruct (update_call_status _ _ _) eqn:E; injection H as _ <-; [|by apply Hsame].
      eapply Hput; [..|reflexivity]; try done. by eapply update_call_status_frames.
    - injection H as _ <-. eapply Hput; [..|reflexivity]; try done. apply update_block_content_frames.
    - pushed H. by eapply Hpush; [..|by rewrite E].
    - pushed H. eapply Hpush; [..|by rewrite E]; try done. apply set_call_status_frames.
    - pushed H. eapply Hpush; [..|by rewrite E]; try done. apply set_call_status_frames.
    - destruct (parse_capability capability) as [c|]; [|by injection H as _ <-; apply Hsame].
      destruct (parse_scope scope) as [sc|]; injection H as _ <-; [|by apply Hsame].
      exists [EApprovalRequest (next_step_id (info d)) (mk_ApprovalDocument (next_step_id (info d)) c sc tool_name [])].
      split; unfold active_entries, pending_of; cbn; rewrite ?Ha; cbn; try done.
      + by rewrite map_app.
      + right. right. by eexists.
      + intros _. left. by eexists.
    - destruct (parse_capability capability) as [c|]; [|by injection H as _ <-; apply Hsame].
      destruct (parse_scope scope) as [sc|]; injection H as _ <-; [|by apply Hsame].
      exists [EApprovalResolved (next_step_id (info d)) c sc approved].
      split; unfold active_entries, pending_of; cbn; rewrite ?Ha; cbn; try done.
      + by rewrite map_app.
      + by right; left.
    - injection H as _ <-. by eapply Hput; [..|reflexivity].
    - injection H as _ <-. eapply Hput; [..|reflexivity]; try done. apply insert_all_sorted. }
  assert (forall st, st <> TAwaitingApproval -> effect d [] (with_info (set_status st) d)) as Hstatus.
  { intros st Hst. destruct (effect_refl d). by split. }
  assert (forall e, effect d [] (set_error e d)) as Herror by (intros e; destruct (effect_refl d); by split).
  destruct s; try (destruct (active_pulse d) as [a|] eqn:Ha; [by eapply Hact | injection H as _ <-; exists []; apply effect_refl]).
  - exists []. destruct recoverable; injection H as _ <-; [apply Herror|].
    destruct (Herror (mk_TaskErrorState message false)). by split.
  - exists []. injection H as _ <-. by apply Hstatus.
Qed.

(** ** Any signals *)
Inductive DocOp : Type :=
| BeginTurn (input : str) (started_at_ms : N) (policy : PulseToolPolicy)
| ApplySignal (signal : RuntimeSignal) (first_token now : N)
| FinishTurn (o : PulseOutcome) (tokens : PulseTokens.t) (completed_at_ms : N).

Definition doc_op (op : DocOp) (d : TaskDocument) : outcome TaskDocument :=
  match op with
  | BeginTurn input t policy => begin_turn input t policy d
  | ApplySignal s ft now => Returns (apply_runtime_signal s ft now d).2
  | FinishTurn o tokens t => Returns (finish_turn o tokens t d).2
  end.

Fixpoint run_ops (ops : list DocOp) (d : TaskDocument) : outcome TaskDocument :=
  match ops with
  | [] => Returns d
  | op :: ops => d ← doc_op op d; run_ops ops d
  end.

Definition settled (e : PulseEntry) : bool :=
  match e with EAssistantBlock _ b => negb (streaming b) | _ => true end.
Definition begins_with (input : str) (es : list PulseEntry) : Prop :=
  exists step r, es = EUserInput step input :: r.

Record doc_ok (grants : gmap Capability ApprovalScope) (d : TaskDocument) : Prop := {
  ok_steps : StronglySorted N.lt (map entry_step_id (all_entries d));
  ok_below : Forall (fun step => step < next_step_id (info d)) (map entry_step_id (all_entries d));
  ok_turns : forall i t, completed_turns d !! i = Some t ->
    td_turn_index t = N.of_nat i /\ begins_with (td_input t) (td_entries t)
    /\ forallb settled (td_entries t) = true /\ sorted (td_changed_files t);
  ok_active : forall a, active_pulse d = Some a ->
    at_turn_index a = N.of_nat (length (completed_turns d)) /\ begins_with (at_input a) (at_entries a)
    /\ sorted (at_changed_files a);
  ok_pending : forall ad, pending_of d = Some ad -> EApprovalRequest (ad_step_id ad) ad ∈ active_entries d;
  ok_waiting : ti_status (info d) = TAwaitingApproval -> is_Some (pending_of d);
  ok_grants : active_grants (info d) = replay_grants grants (all_entries d);
}.

Lemma sorted_snoc l n : StronglySorted N.lt l -> Forall (fun s => s < n) l -> StronglySorted N.lt (l ++ [n]).
Proof.
  induction 1 as [|x l Hs IH Hx]; intros Hl; cbn; [by repeat constructor|].
  apply list.Forall_cons in Hl as [Hxn Hl]. constructor; [by apply IH|].
  apply list.Forall_app. split; [done | by repeat constructor].
Qed.

(** Steps and grants, of entries extended by one with the next step. *)
Lemma append_steps n es new :
  StronglySorted N.lt (map entry_step_id es) -> Forall (fun s => s < n) (map entry_step_id es) -> n < u64_max ->
  entry_step_id new = n ->
  StronglySorted N.lt (map entry_step_id (es ++ [new]))
  /\ Forall (fun s => s < sat_add u64_max n 1) (map entry_step_id (es ++ [new])).
Proof.
  intros Hs Hb Hn <-. rewrite map_app. cbn [map]. split; [by apply sorted_snoc|].
  rewrite sat_add_small by lia. apply list.Forall_app. split; [|repeat constructor; lia].
  eapply Forall_impl; [exact Hb|]. cbn. lia.
Qed.

Lemma frame_approval ad step es es' :
  map frame es' = map frame es -> EApprovalRequest step ad ∈ es -> EApprovalRequest step ad ∈ es'.
Proof.
  intros Hf Hin. assert (EApprovalRequest step ad ∈ map frame es') as Hin'.
  { rewrite Hf. apply list_elem_of_fmap. by exists (EApprovalRequest step ad). }
  apply list_elem_of_fmap in Hin' as (e & He & Hin'). by destruct e; try done; rewrite He.
Qed.

Lemma frame_begins input es es' new :
  map frame es' = map frame es ++ new -> begins_with input es -> begins_with input es'.
Proof.
  intros Hf (step & r & ->). destruct es' as [|e es']; [done|]. injection Hf as He _.
  exists step, es'. f_equal. by destruct e.
Qed.

Lemma signal_ok grants s ft now d :
  doc_ok grants d -> next_step_id (info (apply_runtime_signal s ft now d).2) < u64_max ->
  doc_ok grants (apply_runtime_signal s ft now d).2.
Proof.
  intros Hok. destruct (signal_effect s ft now d) as [new He]. set (d' := (apply_runtime_signal s ft now d).2) in *.
  clearbody d'. intros Hmax. destruct He as [Hc Ha Hf Hn Hg Hp Hw].
  assert (map frame (all_entries d') = map frame (all_entries d ++ new)) as Hall.
  { unfold all_entries, completed_entries. by rewrite Hc, !map_app, Hf, app_assoc. }
  assert (StronglySorted N.lt (map entry_step_id (all_entries d'))
    /\ Forall (fun step => step < next_step_id (info d')) (map entry_step_id (all_entries d'))) as [Hs Hb].
  { rewrite (frames_step_ids _ _ Hall). destruct new as [|e [|? ?]]; [| |done].
    - rewrite app_nil_r, Hn. split; apply Hok.
    - destruct Hn as [Hid Hn]. rewrite Hn in *. apply append_steps; [apply Hok | apply Hok | | done].
      unfold sat_add in Hmax. lia. }
  split; [exact Hs | exact Hb | | | | |].
  - rewrite Hc. apply Hok.
  - intros a' Ea'. destruct (active_pulse d) as [a|] eqn:Ea; rewrite Ea' in Ha; [|done].
    destruct Ha as (Hi & Hin & Hsort). destruct (ok_active _ _ Hok a Ea) as (Hti & Hbeg & Hfiles).
    rewrite Hi, Hin, Hc. split_and!; [done | | by apply Hsort].
    unfold active_entries in Hf. rewrite Ea, Ea' in Hf. by eapply frame_begins.
  - intros ad Had. assert (forall e, e ∈ active_entries d -> map frame (active_entries d') = map frame (active_entries d ++ new)) as Hsub.
    { intros _ _. by rewrite map_app. }
    destruct Hp as [Hp|[Hp|(ad' & Hp & ->)]]; rewrite Had in Hp; [|done|].
    + symmetry in Hp. apply (ok_pending _ _ Hok) in Hp.
      apply (frame_approval _ _ (active_entries d ++ new)); [by rewrite map_app|]. apply elem_of_app. by left.
    + injection Hp as <-. apply (frame_approval _ _ (active_entries d ++ [EApprovalRequest (ad_step_id ad) ad])).
      * by rewrite map_app.
      * apply elem_of_app. right. by left.
  - intros Hwait. destruct (Hw Hwait) as [Hsome|[Hst Heq]]; [done|]. rewrite Heq. by apply Hok.
  - rewrite Hg, (ok_grants _ _ Hok), (replay_frames _ _ _ Hall). unfold replay_grants. by rewrite foldl_app.
Qed.

Lemma begin_ok grants input t policy d d' :
  doc_ok grants d -> begin_turn input t policy d = Returns d' -> next_step_id (info d') < u64_max ->
  doc_ok grants d'.
Proof.
  intros Hok. unfold begin_turn. destruct (active_pulse d) eqn:Ha; [done|]. cbn. intros [= <-]. cbn. intros Hmax.
  match goal with |- doc_ok _ ?x => set (d' := x) end.
  assert (all_entries d' = all_entries d ++ [EUserInput (next_step_id (info d)) input]) as Hall.
  { unfold all_entries, active_entries, completed_entries. cbn. by rewrite Ha, app_nil_r. }
  destruct (append_steps (next_step_id (info d)) (all_entries d) (EUserInput (next_step_id (info d)) input)) as [Hs Hb];
    [apply Hok | apply Hok | unfold sat_add in Hmax; lia | done |].
  split; rewrite ?Hall; try done.
  - apply Hok.
  - intros a [= <-]. cbn. split_and!; [done | by eexists _, _ | constructor].
  - rewrite (ok_grants _ _ Hok : active_grants (info d') = _). unfold replay_grants. by rewrite foldl_app.
Qed.

Lemma stop_streaming_frames es : map frame (map stop_streaming es) = map frame es.
Proof. rewrite map_map. apply map_ext. by intros []. Qed.

Lemma finish_turn_ok grants o tokens t d : doc_ok grants d -> doc_ok grants (finish_turn o tokens t d).2.
Proof.
  intros Hok. unfold finish_turn. destruct (active_pulse d) as [a|] eqn:Ha; [|done]. cbn [snd].
  match goal with |- doc_ok _ ?x => set (d' := x) end.
  destruct (ok_active _ _ Hok a Ha) as (Hi & (step & r & Hbeg) & Hfiles).
  assert (map frame (all_entries d') = map frame (all_entries d)) as Hall.
  { unfold all_entries, active_entries, completed_entries. cbn. rewrite Ha, app_nil_r, List.flat_map_app, !map_app.
    cbn [List.flat_map td_entries]. by rewrite app_nil_r, stop_streaming_frames. }
  pose proof (frames_step_ids _ _ Hall) as Hids.
  split; [rewrite Hids; apply Hok | rewrite Hids; apply Hok | | done | done | cbn; by destruct o |].
  - intros i t' Hlook. cbn in Hlook. apply lookup_app_Some in Hlook as [Hlook|[Hle Hlook]]; [by apply Hok|].
    apply list_lookup_singleton_Some in Hlook as [Hi' <-]. cbn. split_and!; [rewrite Hi; f_equal; lia | | | done].
    + exists step, (map stop_streaming r). by rewrite Hbeg.
    + apply forallb_forall. intros e (e' & <- & _)%in_map_iff. by destruct e'.
  - rewrite (replay_frames _ _ _ Hall). cbn. by rewrite (ok_grants _ _ Hok).
Qed.

(** Steps are only ever taken. *)
Lemma doc_op_next op d d' :
  doc_op op d = Returns d' -> next_step_id (info d) <= u64_max -> next_step_id (info d) <= next_step_id (info d') <= u64_max.
Proof.
  intros H Hle. destruct op as [input t policy|s ft now|o tokens t]; cbn in H.
  - unfold begin_turn in H. destruct (active_pulse d); [done|]. injection H as <-. cbn. unfold sat_add. lia.
  - injection H as <-. destruct (signal_effect s ft now d) as [new [_ _ _ Hn _ _ _]].
    destruct new as [|e [|? ?]]; [rewrite Hn; lia | | done]. destruct Hn as [_ ->]. unfold sat_add. lia.
  - injection H as <-. unfold finish_turn. destruct (active_pulse d); cbn; lia.
Qed.

Lemma run_ops_next ops d d' :
  run_ops ops d = Returns d' -> next_step_id (info d) <= u64_max -> next_step_id (info d) <= next_step_id (info d') <= u64_max.
Proof.
  revert d. induction ops as [|op ops IH]; intros d; cbn; [intros [= <-]; lia|].
  destruct (doc_op op d) as [d1|] eqn:E; cbn; [|done]. intros H Hle.
  pose proof (doc_op_next _ _ _ E Hle). specialize (IH _ H). lia.
Qed.

Lemma run_ops_ok grants ops d d' :
  doc_ok grants d -> run_ops ops d = Returns d' -> next_step_id (info d) <= u64_max ->
  next_step_id (info d') < u64_max -> doc_ok grants d'.
Proof.
  revert d. induction ops as [|op ops IH]; intros d Hok; cbn; [by intros [= <-]|].
  destruct (doc_op op d) as [d1|] eqn:E; cbn; [|done]. intros H Hle Hmax.
  pose proof (doc_op_next _ _ _ E Hle) as [_ Hle1]. pose proof (run_ops_next _ _ _ H Hle1) as [Hmono _].
  apply (IH d1); [|done..]. destruct op as [input t policy|s ft now|o tokens t]; cbn in E.
  - eapply begin_ok; [done.. | lia].
  - injection E as <-. apply signal_ok; [done | lia].
  - injection E as <-. by apply finish_turn_ok.
Qed.

(** C17: the document of a task is well-formed.  Whatever turns, signals and endings follow one
    another from a new document that waits for no approval, short of 2{^64} steps: the steps of
    its entries, over all turns and in order, strictly increase and are below the next; the turns
    are numbered in order, each begins with its input, keeps its changed files in order and once,
    and when it is over none of its blocks is still streaming; a pending approval is a request
    among the entries of the turn, there is one when the task waits; and the grants in force are
    those that the resolutions among the entries, replayed in order, leave. *)
Theorem document_well_formed ops i d :
  ti_status i <> TAwaitingApproval -> run_ops ops (begin_task i) = Returns d ->
  next_step_id i <= u64_max -> next_step_id (info d) < u64_max ->
  doc_ok (active_grants i) d.
Proof.
  intros Hst Hr Hle Hmax. apply (run_ops_ok _ ops (begin_task i)); [|done..].
  split; cbn; try done; constructor.
Qed.

Definition new_info : TaskInfo :=
  mk_TaskInfo t!"t" TReady None None None None None t!"m" LocalRuntime [] None 0 None ∅ 1.

Definition some_turn : list DocOp :=
  [BeginTurn t!"hi" 5 DefaultPolicy;
   ApplySignal (TranscriptBlockStart 0 (FinalText t!"Hel")) 6 6;
   ApplySignal (TranscriptBlockDelta 0 t!"lo") 7 7;
   ApplySignal (ApprovalRequest t!"write_file" t!"session" None) 8 8;
   ApplySignal (ApprovalResolved t!"write_file" t!"session" true) 9 9;
   FinishTurn OutcomeCompleted PulseTokens.default 10].

Lemma document_well_formed_witness :
  exists d,
    run_ops some_turn (begin_task new_info) = Returns d
    /\ doc_ok ∅ d /\ active_grants (info d) !! WriteFile = Some Session.
Proof.
  eexists. split; [vm_compute; reflexivity|]. split; [|vm_compute; reflexivity].
  eapply (document_well_formed some_turn new_info).
  - discriminate.
  - vm_compute. reflexivity.
  - vm_compute. discriminate.
  - vm_compute. reflexivity.
Defined.
