(* ===== verification/TaskSnapshot.v ===== *)
(** What of a task is saved, restored and remembered: src/runtime/task_document/task_state_bridge.rs,
    the state of src/runtime/task_state/mod.rs and the working set of
    src/runtime/task_state/working_set.rs.

    A path is its text.  The file of a working set is absent, cannot be loaded, or holds the
    record that was saved; saving succeeds. *)
From Stdlib Require Import NArith ZArith Lia.
From stdpp Require Import base list gmap strings numbers sets.
From S2P Require Import Prelude Text Collections Json Usage Evidence PeerChannel Envelope FileSystem TaskDocument.
#[local] Open Scope N_scope.

(** ** The saved state: src/runtime/task_state/mod.rs *)
Record ConversationCheckpoint := mk_ConversationCheckpoint { message_count : N; ck_summary : str }.
Record InterruptedCommand := mk_InterruptedCommand { ic_program : str; interrupted_at : str }.
Record CacheUsageStats := mk_CacheUsageStats {
  total_cache_creation_tokens : N;
  total_cache_read_tokens : N;
}.

Record TaskState := mk_TaskState {
  ts_id : str;
  ts_status : TaskStatus;
  ts_parent_task_id : option str;
  ts_agent_id : option str;
  ts_worktree_path : option str;
  ts_started_at : option N;
  ts_updated_at : N;
  ts_last_heartbeat : option N;
  ts_handoff_summary : option str;
  ts_active_grants : gmap Capability ApprovalScope;
  ts_changed_files : list str;
  ts_command_history : list CommandEvidence;
  conversation_snapshot : ConversationCheckpoint;
  interrupted_sessions : list InterruptedCommand;
  ts_branch_name : option str;
  ts_instructions_path : option str;
  ts_pulses : list TurnEvidenceState;
  plan : option str;
  ts_session_notes : list SessionNote;
  ts_context_compaction : list ContextCompactionRecord;
  cache_usage : CacheUsageStats;
  ts_session_tasks : list SessionTask;
}.

(** ** From the document and back: src/runtime/task_document/task_state_bridge.rs *)
Definition final_text (e : PulseEntry) : str :=
  match e with
  | EAssistantBlock _ b => match phase b with PhaseFinal => content b | PhaseThinking => [] end
  | _ => []
  end.
Definition extract_final_text (entries : list PulseEntry) : str := concat (map final_text entries).

Definition summarize_tool_outcome (output : str) (is_error : bool) : str :=
  if negb is_error then t!"ok"
  else
    let lowered := to_ascii_lowercase output in
    if contains t!"denied" lowered then t!"denied"
    else if contains t!"cancel" lowered then t!"cancelled"
    else t!"error".

Definition outcome_from_status (status : ToolStatus) : str :=
  match status with
  | Complete => t!"ok"
  | Envelope.Cancelled => t!"cancelled"
  | Error => t!"error"
  | Envelope.Pending | WaitingApproval | Executing => t!"pending"
  end.

Definition tool_status_from_outcome (outcome : str) : ToolStatus :=
  let lowered := to_ascii_lowercase outcome in
  if contains t!"cancel" lowered then Envelope.Cancelled
  else if contains t!"denied" lowered || contains t!"error" lowered || contains t!"fail" lowered then Error
  else if str_eqb lowered t!"ok" then Complete
  else Envelope.Pending.

(** The calls without a result yet, by identifier.  The order of a [HashMap]'s values shows only
    among equal steps. *)
Abbreviation OpenCalls := (list (str * (N * str * ToolStatus))).

Definition note_entry (st : OpenCalls * list ToolInvocationSummary) (e : PulseEntry)
    : OpenCalls * list ToolInvocationSummary :=
  let '(calls, invocations) := st in
  match e with
  | EToolCall step id name _ status => (im_insert id (step, name, status) calls, invocations)
  | EToolResult _ call_id _ output is_error =>
      match im_get call_id calls with
      | Some (step, name, _) =>
          (im_remove call_id calls,
           invocations ++ [mk_ToolInvocationSummary step name (summarize_tool_outcome output is_error)])
      | None => (calls, invocations)
      end
  | _ => (calls, invocations)
  end.

Definition step_before (a b : ToolInvocationSummary) : bool := step_id a <? step_id b.

Definition extract_tool_invocations (entries : list PulseEntry) : list ToolInvocationSummary :=
  let '(calls, invocations) := foldl note_entry ([], []) entries in
  let unfinished := map (fun c => let '(_, (step, name, status)) := c in
                                 mk_ToolInvocationSummary step name (outcome_from_status status)) calls in
  sort_by step_before (invocations ++ unfinished).

Definition pulse_evidence (t : TurnDocument) : TurnEvidenceState :=
  mk_TurnEvidenceState (td_input t) (extract_final_text (td_entries t)) (td_changed_files t)
    (td_command_history t) (extract_tool_invocations (td_entries t)) (td_tokens t).

Definition persistable_snapshot (d : TaskDocument) : TaskState :=
  let i := info d in
  mk_TaskState (ti_id i) (ti_status i) (ti_parent_task_id i) (ti_agent_id i) (ti_worktree_path i)
    (ti_started_at_ms i) (ti_updated_at_ms i) (ti_last_heartbeat_ms i) None (active_grants i)
    (List.flat_map td_changed_files (completed_turns d))
    (List.flat_map td_command_history (completed_turns d))
    (mk_ConversationCheckpoint (N.of_nat (length (completed_turns d))) []) []
    (ti_branch_name i) (ti_instructions_path i) (map pulse_evidence (completed_turns d)) None
    (session_notes d) (context_compaction d) (mk_CacheUsageStats 0 0) (session_tasks d).

(** [saturating_mul] and [saturating_add] of [u64]. *)
Definition sat_mul (a b : N) : N := N.min u64_max (a * b).

Fixpoint restored_calls (step : N) (invocations : list ToolInvocationSummary) : list PulseEntry :=
  match invocations with
  | [] => []
  | i :: r =>
      let step := N.max (step_id i) (sat_add u64_max step 1) in
      EToolCall step (t!"restored-" ++ fmt_N (step_id i)) (inv_name i) (Object [])
        (tool_status_from_outcome (inv_outcome i))
      :: restored_calls step r
  end.

Definition entries_from_evidence (base_step : N) (ev : TurnEvidenceState) : list PulseEntry :=
  let step := sat_mul base_step 1000 in
  let after := sat_add u64_max step 1 in
  [EUserInput step (tes_input ev)]
  ++ (if is_empty (tes_response ev) then []
      else [EAssistantBlock after (mk_AssistantBlockEntry 0 PhaseFinal (tes_response ev) false false)])
  ++ restored_calls after (tes_tool_invocations ev).

Definition restored_turn (turn_index : nat) (ev : TurnEvidenceState) : TurnDocument :=
  mk_TurnDocument (N.of_nat turn_index) (tes_input ev) (entries_from_evidence (N.of_nat turn_index) ev)
    OutcomeCompleted (tes_changed_files ev) (tes_command_history ev) (tes_tokens ev) 0 0 None None.

Definition restore_from_snapshot (s : TaskState) : TaskDocument :=
  let turns := imap restored_turn (ts_pulses s) in
  let highest := foldr N.max 0 (map entry_step_id (List.flat_map td_entries turns)) in
  mk_TaskDocument
    (mk_TaskInfo (ts_id s) (ts_status s) (ts_parent_task_id s) (ts_agent_id s) (ts_worktree_path s)
       (ts_branch_name s) (ts_instructions_path s) [] LocalRuntime [] (ts_started_at s) (ts_updated_at s)
       (ts_last_heartbeat s) (ts_active_grants s) (sat_add u64_max highest 1))
    turns None (ts_session_notes s) (ts_context_compaction s) (ts_session_tasks s) None.

(** ** The working set: src/runtime/task_state/working_set.rs *)
Definition WORKING_SET_SCHEMA_VERSION : N := 1.

Record RecordedDecision := mk_RecordedDecision { rationale : str; source_reference : str }.
Record PathChange := mk_PathChange { pc_path : str; git_identity : str }.

Record WorkingSetRecord := mk_WorkingSetRecord {
  schema_version : N;
  wsr_updated_at : N;
  objective : str;
  constraints : list str;
  decisions : list RecordedDecision;
  changed_paths : list PathChange;
  verified_results : list str;
  unresolved_questions : list str;
  active_plan : str;
  next_action : str;
}.

Definition working_set_new (objective : str) (now : N) : WorkingSetRecord :=
  mk_WorkingSetRecord WORKING_SET_SCHEMA_VERSION now objective [] [] [] [] [] [] [].

Definition set_objective (o : str) (r : WorkingSetRecord) : WorkingSetRecord :=
  mk_WorkingSetRecord (schema_version r) (wsr_updated_at r) o (constraints r) (decisions r) (changed_paths r)
    (verified_results r) (unresolved_questions r) (active_plan r) (next_action r).
Definition set_decisions (ds : list RecordedDecision) (r : WorkingSetRecord) : WorkingSetRecord :=
  mk_WorkingSetRecord (schema_version r) (wsr_updated_at r) (objective r) (constraints r) ds (changed_paths r)
    (verified_results r) (unresolved_questions r) (active_plan r) (next_action r).

Definition retain_durable_objective (prior r : WorkingSetRecord) : WorkingSetRecord :=
  if is_empty (trim (objective prior)) then r else set_objective (objective prior) r.

(** A decision added unless its reference is blank or already there. *)
Definition add_decision (blank_reference : bool) (ds : list RecordedDecision) (d : RecordedDecision)
    : list RecordedDecision :=
  if blank_reference then ds
  else if existsb (fun e => str_eqb (source_reference e) (source_reference d)) ds then ds
  else ds ++ [d].

Definition retain_referenced_decisions (prior r : WorkingSetRecord) : WorkingSetRecord :=
  set_decisions
    (foldl (fun ds d => add_decision (is_empty (trim (source_reference d))) ds d) (decisions r) (decisions prior)) r.

Definition push_labeled_line (label value : str) : str :=
  let value := trim value in
  if is_empty value then [] else label ++ t!": " ++ value ++ [LF].

Definition push_string_list (label : str) (values : list str) : str :=
  let values := List.filter (fun v => negb (is_empty v)) (map trim values) in
  match values with
  | [] => []
  | _ => label ++ t!":" ++ [LF] ++ concat (map (fun v => t!"- " ++ v ++ [LF]) values)
  end.

Definition referenced_line (text reference : str) : str :=
  let reference := trim reference in
  t!"- " ++ text ++ (if is_empty reference then [] else t!" (" ++ reference ++ t!")") ++ [LF].

Definition as_prompt_block (r : WorkingSetRecord) : str :=
  t!"[working-set record: start]" ++ [LF]
  ++ push_labeled_line t!"objective" (objective r)
  ++ push_string_list t!"constraints" (constraints r)
  ++ (match decisions r with
      | [] => []
      | ds => t!"decisions:" ++ [LF]
              ++ concat (map (fun d => referenced_line (trim (rationale d)) (source_reference d)) ds)
      end)
  ++ (match changed_paths r with
      | [] => []
      | ps => t!"changed_paths:" ++ [LF] ++ concat (map (fun p => referenced_line (pc_path p) (git_identity p)) ps)
      end)
  ++ push_string_list t!"verified_results" (verified_results r)
  ++ push_string_list t!"unresolved_questions" (unresolved_questions r)
  ++ push_labeled_line t!"active_plan" (active_plan r)
  ++ push_labeled_line t!"next_action" (next_action r)
  ++ t!"[working-set record: end]".

(** *** Projected from the document *)
Definition nonempty_trimmed (s : str) : option str :=
  let s := trim s in if is_empty s then None else Some s.
Definition nonempty_active_input (d : TaskDocument) : option str :=
  a ← active_pulse d; nonempty_trimmed (at_input a).

Definition first_user_input (d : TaskDocument) : str :=
  match find_map (fun t => nonempty_trimmed (td_input t)) (completed_turns d) with
  | Some input => input
  | None => unwrap_or (nonempty_active_input d) []
  end.
Definition last_user_input (d : TaskDocument) : str :=
  match nonempty_active_input d with
  | Some input => input
  | None => unwrap_or (find_map (fun t => nonempty_trimmed (td_input t)) (reverse (completed_turns d))) []
  end.

(** The order of components, and of paths by their components. *)
Definition component_ltb (a b : Component) : bool :=
  match a, b with
  | Normal s, Normal s' => str_ltb s s'
  | RootDir, (CurDir | ParentDir | Normal _) | CurDir, (ParentDir | Normal _) | ParentDir, Normal _ => true
  | _, _ => false
  end.
Fixpoint components_ltb (a b : path) : bool :=
  match a, b with
  | _, [] => false
  | [], _ :: _ => true
  | x :: a, y :: b => component_ltb x y || (negb (component_ltb y x) && components_ltb a b)
  end.
Definition path_ltb (p q : str) : bool := components_ltb (components p) (components q).

(** A key of the [BTreeMap], which keeps the first of equal paths. *)
Fixpoint path_insert (p : str) (l : list str) : list str :=
  match l with
  | [] => [p]
  | q :: r => if path_ltb p q then p :: l else if path_ltb q p then q :: path_insert p r else l
  end.

Definition unique_changed_paths (d : TaskDocument) : list PathChange :=
  let active := match active_pulse d with Some a => at_changed_files a | None => [] end in
  map (fun p => mk_PathChange p [])
    (foldl (fun l p => path_insert p l) [] (List.flat_map td_changed_files (completed_turns d) ++ active)).

Definition verified_results_of (d : TaskDocument) : list str :=
  let active := match active_pulse d with Some a => [extract_final_text (at_entries a)] | None => [] end in
  List.filter (fun text => negb (is_empty (trim text)))
    (map (fun t => extract_final_text (td_entries t)) (completed_turns d) ++ active).

Definition plan_note (n : SessionNote) : option str :=
  plan ← strip_prefix t!"[plan]" (trim (sn_content n)); nonempty_trimmed plan.
Definition active_plan_of (d : TaskDocument) : str :=
  match find_map plan_note (reverse (session_notes d)) with
  | Some plan => plan
  | None => unwrap_or (list.last (verified_results_of d)) []
  end.

Definition project_working_set (d : TaskDocument) (now : N) : WorkingSetRecord :=
  mk_WorkingSetRecord WORKING_SET_SCHEMA_VERSION now (first_user_input d)
    (List.filter (fun c => negb (is_empty c)) (map (fun n => trim (sn_content n)) (session_notes d)))
    [] (unique_changed_paths d) (verified_results_of d) [] (active_plan_of d) (last_user_input d).

(** *** The file *)
Inductive Sidecar : Type := Absent | Unloadable | Saved (record : WorkingSetRecord).

(** [None]: loading failed, and the file is as it was. *)
Definition write_working_set (d : TaskDocument) (now : N) (file : Sidecar) : option WorkingSetRecord * Sidecar :=
  let record := project_working_set d now in
  match file with
  | Unloadable => (None, file)
  | Absent => (Some record, Saved record)
  | Saved prior =>
      let record := retain_referenced_decisions prior (retain_durable_objective prior record) in
      (Some record, Saved record)
  end.

Record LiveJoinEntry := mk_LiveJoinEntry {
  lj_id : str;
  lj_agent_id : str;
  body : str;
  lj_supersedes : list str;
}.

Definition join_decision (e : LiveJoinEntry) : RecordedDecision := mk_RecordedDecision (body e) (lj_id e).

Definition record_join_evidence (entries : list LiveJoinEntry) (now : N) (file : Sidecar)
    : option WorkingSetRecord * Sidecar :=
  match file with
  | Unloadable => (None, file)
  | _ =>
      let record := match file with Saved prior => prior | _ => working_set_new [] now end in
      let record := set_decisions
        (foldl (fun ds e => add_decision (is_empty (trim (lj_id e))) ds (join_decision e)) (decisions record) entries)
        record in
      (Some record, Saved record)
  end.
