(* ===== verification/TaskSnapshotTheory.v ===== *)
(** What survives saving and restoring a task, and what the working set keeps. *)
From Stdlib Require Import NArith ZArith Lia Sorted.
From stdpp Require Import base list gmap strings numbers sets.
From S2P Require Import Prelude Text Collections Json Usage Evidence PeerChannel Envelope FileSystem TaskDocument TaskSnapshot.
#[local] Open Scope N_scope.

(** ** The working set *)
Inductive FileOp : Type :=
| WriteSet (d : TaskDocument) (now : N)
| RecordJoin (entries : list LiveJoinEntry) (now : N).

Definition file_op (file : Sidecar) (op : FileOp) : Sidecar :=
  match op with
  | WriteSet d now => (write_working_set d now file).2
  | RecordJoin entries now => (record_join_evidence entries now file).2
  end.

(** Each decision has a reference of its own. *)
Definition well_referenced (ds : list RecordedDecision) : Prop :=
  NoDup (map source_reference ds) /\ Forall (fun d => trim (source_reference d) <> []) ds.

Lemma add_decision_ok ds d :
  well_referenced ds ->
  let ds' := add_decision (is_empty (trim (source_reference d))) ds d in
  well_referenced ds' /\ ds `prefix_of` ds'.
Proof.
  intros [Hnd Hb]. unfold add_decision. destruct (is_empty (trim (source_reference d))) eqn:E; [done|].
  destruct (existsb _ ds) eqn:Hex; [done|]. cbv zeta. split; [|by apply prefix_app_r]. split.
  - rewrite map_app. apply NoDup_app. split_and!; [done | | apply NoDup_singleton].
    intros x Hx ->%list_elem_of_singleton. apply list_elem_of_fmap in Hx as (e & He & Hin).
    apply not_true_iff_false in Hex. apply Hex, existsb_exists. exists e.
    split; [by apply list_elem_of_In|]. unfold str_eqb. by apply bool_decide_eq_true_2.
  - apply list.Forall_app. split; [done|]. repeat constructor. by intros H; rewrite H in E.
Qed.

Lemma add_decisions_ok {A} (f : A -> RecordedDecision) l ds :
  well_referenced ds ->
  let ds' := foldl (fun ds x => add_decision (is_empty (trim (source_reference (f x)))) ds (f x)) ds l in
  well_referenced ds' /\ ds `prefix_of` ds'.
Proof.
  cbv zeta. revert ds. induction l as [|x l IH]; intros ds Hds; [done|]. cbn [foldl].
  destruct (add_decision_ok ds (f x) Hds) as [H1 H2]. destruct (IH _ H1) as [H3 H4].
  split; [exact H3|]. by etransitivity.
Qed.

(** Decisions that have a reference each are all retained, in order. *)
Lemma retain_decisions_all ds kept :
  well_referenced (kept ++ ds) ->
  foldl (fun ds d => add_decision (is_empty (trim (source_reference d))) ds d) kept ds = kept ++ ds.
Proof.
  revert kept. induction ds as [|d ds IH]; intros kept Hds; cbn [foldl]; [by rewrite app_nil_r|].
  replace (kept ++ d :: ds) with ((kept ++ [d]) ++ ds) in * by (by rewrite <- app_assoc).
  assert (add_decision (is_empty (trim (source_reference d))) kept d = kept ++ [d]) as ->; [|by apply IH].
  destruct Hds as [Hnd Hb]. apply list.Forall_app in Hb as [Hb _]. apply list.Forall_app in Hb as [_ Hb].
  apply list.Forall_cons in Hb as [Hb _]. rewrite !map_app in Hnd. apply NoDup_app in Hnd as [Hnd _].
  apply NoDup_app in Hnd as (_ & Hnd & _). unfold add_decision.
  destruct (is_empty (trim (source_reference d))) eqn:E; [by destruct (trim (source_reference d))|].
  destruct (existsb _ kept) eqn:Hex; [|done]. apply existsb_exists in Hex as (e & He & Heq).
  unfold str_eqb in Heq. apply bool_decide_eq_true in Heq. exfalso. apply (Hnd (source_reference e)).
  - apply list_elem_of_fmap. exists e. by rewrite list_elem_of_In.
  - rewrite Heq. by left.
Qed.

Definition file_ok (file : Sidecar) : Prop :=
  match file with Saved r => well_referenced (decisions r) | _ => True end.

Lemma file_op_ok file op :
  file_ok file ->
  file_ok (file_op file op)
  /\ match file with
     | Absent => exists r, file_op file op = Saved r
     | Unloadable => file_op file op = Unloadable
     | Saved r => exists r', file_op file op = Saved r' /\ decisions r `prefix_of` decisions r'
                    /\ (trim (objective r) <> [] -> objective r' = objective r)
     end.
Proof.
  intros Hok. destruct op as [d now|entries now]; cbn [file_op].
  - destruct file as [| |prior]; cbn [write_working_set snd file_ok] in *.
    + split; [|by eexists]. split; constructor.
    + done.
    + cbn [decisions retain_referenced_decisions retain_durable_objective set_decisions].
      assert (foldl (fun ds d => add_decision (is_empty (trim (source_reference d))) ds d)
        (decisions (retain_durable_objective prior (project_working_set d now))) (decisions prior) = decisions prior) as Hd.
      { assert (decisions (retain_durable_objective prior (project_working_set d now)) = []) as ->.
        { unfold retain_durable_objective. by destruct (is_empty _). }
        by apply (retain_decisions_all (decisions prior) []). }
      rewrite Hd. split; [done|]. eexists. split; [reflexivity|]. cbn. split; [by rewrite Hd|].
      unfold retain_durable_objective. destruct (trim (objective prior)); done.
  - assert (forall r, well_referenced (decisions r) ->
      let r' := set_decisions (foldl (fun ds e => add_decision (is_empty (trim (lj_id e))) ds (join_decision e)) (decisions r) entries) r in
      well_referenced (decisions r') /\ decisions r `prefix_of` decisions r' /\ objective r' = objective r) as Hjoin.
    { intros r Hr. destruct (add_decisions_ok join_decision entries (decisions r) Hr) as [H1 H2]. done. }
    destruct file as [| |prior]; cbn [record_join_evidence snd file_ok] in *.
    + split; [|by eexists]. apply Hjoin. split; constructor.
    + done.
    + destruct (Hjoin prior Hok) as (H1 & H2 & H3). split; [exact H1|]. eexists. split; [reflexivity|]. by split.
Qed.

(** C22: what is once in the working set stays.  From no file, after any writes of the working set
    and records of join evidence, the file holds a record whose decisions each have a reference of
    their own, not blank; and after any more of them its decisions are those and perhaps others
    after them, and an objective that was not blank is the same. *)
Theorem working_set_durable op ops ops' :
  exists r r',
    foldl file_op Absent (op :: ops) = Saved r
    /\ foldl file_op Absent ((op :: ops) ++ ops') = Saved r'
    /\ decisions r `prefix_of` decisions r'
    /\ NoDup (map source_reference (decisions r'))
    /\ Forall (fun d => trim (source_reference d) <> []) (decisions r')
    /\ (trim (objective r) <> [] -> objective r' = objective r).
Proof.
  assert (forall ops r, well_referenced (decisions r) -> exists r', foldl file_op (Saved r) ops = Saved r'
    /\ well_referenced (decisions r') /\ decisions r `prefix_of` decisions r'
    /\ (trim (objective r) <> [] -> objective r' = objective r)) as Hrun.
  { intros l. induction l as [|o l IH]; intros r Hr; cbn [foldl]; [by exists r|].
    destruct (file_op_ok (Saved r) o Hr) as [Hok (r1 & Heq & Hp & Ho)]. rewrite Heq in *.
    destruct (IH r1 Hok) as (r' & -> & Hr' & Hp' & Ho'). exists r'. split_and!; [done | done | by etransitivity |].
    intros Hb. rewrite <- (Ho Hb). apply Ho'. by rewrite (Ho Hb). }
  destruct (file_op_ok Absent op I) as [Hok [r0 Heq]]. cbn [foldl app]. rewrite Heq in *.
  destruct (Hrun ops r0 Hok) as (r & Hr & Hok1 & _ & _). destruct (Hrun ops' r Hok1) as (r' & Hr' & [Hnd Hb] & Hp & Ho).
  exists r, r'. by rewrite foldl_app, Hr.
Qed.

(** ** Saving and restoring *)
(** The outcomes a restored call can be saved with. *)
Definition known_outcome (o : str) : str := outcome_from_status (tool_status_from_outcome o).

Lemma known_outcome_idem o : known_outcome (known_outcome o) = known_outcome o.
Proof. unfold known_outcome. by destruct (tool_status_from_outcome o). Qed.

Fixpoint restep (step : N) (invocations : list ToolInvocationSummary) : list ToolInvocationSummary :=
  match invocations with
  | [] => []
  | i :: r =>
      let step := N.max (step_id i) (sat_add u64_max step 1) in
      mk_ToolInvocationSummary step (inv_name i) (known_outcome (inv_outcome i)) :: restep step r
  end.

Definition first_step (i : nat) : N := sat_add u64_max (sat_mul (N.of_nat i) 1000) 1.
(** What is saved of a restored pulse. *)
Definition restored_evidence (i : nat) (ev : TurnEvidenceState) : TurnEvidenceState :=
  mk_TurnEvidenceState (tes_input ev) (tes_response ev) (tes_changed_files ev) (tes_command_history ev)
    (restep (first_step i) (tes_tool_invocations ev)) (tes_tokens ev).

(** The steps stay below 2{^64}. *)
Definition room (step : N) (l : list ToolInvocationSummary) : Prop :=
  exists bound, step <= bound /\ Forall (fun i => step_id i <= bound) l /\ bound + N.of_nat (length l) <= u64_max.

Lemma room_cons step i l : room step (i :: l) -> room (N.max (step_id i) (sat_add u64_max step 1)) l.
Proof.
  intros (b & Hs & Hf & Hb). apply list.Forall_cons in Hf as [Hi Hf]. cbn [length] in Hb. exists (b + 1).
  split; [unfold sat_add; lia|]. split; [|lia]. eapply Forall_impl; [exact Hf|]. cbn. lia.
Qed.

Lemma restep_after step l :
  room step l ->
  StronglySorted (fun a b => step_id a < step_id b) (restep step l) /\ Forall (fun i => step < step_id i) (restep step l).
Proof.
  revert step. induction l as [|i l IH]; intros step Hr; cbn [restep]; [by split; constructor|].
  destruct (IH _ (room_cons _ _ _ Hr)) as [Hs Hf]. destruct Hr as (b & Hb & Hi & Hroom). cbn [length] in Hroom.
  assert (step < N.max (step_id i) (sat_add u64_max step 1)) as Hlt by (rewrite sat_add_small by lia; lia).
  split; [by constructor|]. constructor; [done|]. eapply Forall_impl; [exact Hf|]. cbn. lia.
Qed.

Lemma restep_idem step l : room step l -> restep step (restep step l) = restep step l.
Proof.
  revert step. induction l as [|i l IH]; intros step Hr; cbn [restep]; [done|].
  cbn [step_id inv_name inv_outcome]. rewrite known_outcome_idem, N.max_l by lia. f_equal.
  apply IH. by apply room_cons.
Qed.

Lemma restep_length step l : length (restep step l) = length l.
Proof. revert step. induction l as [|i l IH]; intros step; cbn; [done|]. by rewrite IH. Qed.

(** The open calls of restored entries: all of them, as no identifier is used twice. *)
Definition restored_open (step : N) (l : list ToolInvocationSummary) : OpenCalls :=
  map (fun '(i, i') => (t!"restored-" ++ fmt_N (step_id i),
                        (step_id i', inv_name i', tool_status_from_outcome (inv_outcome i)))) (zip l (restep step l)).

Lemma restored_calls_open step l calls invocations :
  NoDup (map step_id l) ->
  (forall i, i ∈ l -> im_get (t!"restored-" ++ fmt_N (step_id i)) calls = None) ->
  foldl note_entry (calls, invocations) (restored_calls step l) = (calls ++ restored_open step l, invocations).
Proof.
  revert step calls. induction l as [|i l IH]; intros step calls Hnd Hfresh;
    cbn [restored_calls foldl note_entry]; [by rewrite app_nil_r|].
  cbn [map] in Hnd. apply NoDup_cons in Hnd as [Hi Hnd].
  rewrite im_insert_fresh by (apply Hfresh; by left). rewrite IH; [|done|].
  - rewrite <- app_assoc. reflexivity.
  - intros j Hj. rewrite <- (im_insert_fresh _ (N.max (step_id i) (sat_add u64_max step 1), inv_name i, tool_status_from_outcome (inv_outcome i)) calls) by (apply Hfresh; by left).
    rewrite im_get_insert_ne; [apply Hfresh; by right|]. intros He. apply app_inv_head, fmt_N_inj in He.
    apply Hi. rewrite <- He. apply list_elem_of_fmap. by exists j.
Qed.

Abbreviation increasing := (StronglySorted (fun a b => step_id a < step_id b)).

Lemma increasing_NoDup l : increasing l -> NoDup (map step_id l).
Proof.
  induction 1 as [|x l _ IH Hx]; cbn; constructor; [|done].
  intros (y & Hy & Hin)%list_elem_of_fmap. rewrite list.Forall_forall in Hx. specialize (Hx y Hin). lia.
Qed.

Lemma sort_increasing l : increasing l -> sort_by step_before l = l.
Proof.
  intros H. apply sort_by_in_order. induction H as [|x l _ IH Hx]; constructor; [done|].
  eapply Forall_impl; [exact Hx|]. intros y Hy. apply N.ltb_ge. cbn in *. lia.
Qed.

Lemma restored_invocations i ev :
  NoDup (map step_id (tes_tool_invocations ev)) -> increasing (restep (first_step i) (tes_tool_invocations ev)) ->
  extract_tool_invocations (entries_from_evidence (N.of_nat i) ev)
  = restep (first_step i) (tes_tool_invocations ev).
Proof.
  intros Hnd Hsorted. unfold extract_tool_invocations, entries_from_evidence. fold (first_step i).
  set (l := tes_tool_invocations ev) in *. rewrite !foldl_app. cbn [foldl note_entry].
  assert (foldl note_entry ([], []) (if is_empty (tes_response ev) then []
    else [EAssistantBlock (first_step i) (mk_AssistantBlockEntry 0 PhaseFinal (tes_response ev) false false)]) = ([], [])) as ->
    by (by destruct (is_empty _)).
  rewrite restored_calls_open; [|done|done]. cbn [app].
  assert (forall step l, map (fun c => let '(_, (step, name, status)) := c in
      mk_ToolInvocationSummary step name (outcome_from_status status)) (restored_open step l) = restep step l) as ->.
  { clear. intros step l. unfold restored_open. revert step. induction l as [|i l IH]; intros step; [done|].
    cbn [restep zip map]. cbn. f_equal. apply IH. }
  by apply sort_increasing.
Qed.

Lemma restored_text i ev : extract_final_text (entries_from_evidence (N.of_nat i) ev) = tes_response ev.
Proof.
  unfold extract_final_text, entries_from_evidence. rewrite !map_app, !concat_app. cbn [map concat final_text app].
  assert (forall step l, concat (map final_text (restored_calls step l)) = []) as ->.
  { intros step l. revert step. induction l as [|x l IH]; intros step; [done|]. cbn. apply IH. }
  rewrite app_nil_r. destruct (tes_response ev); [done|]. cbn. by rewrite app_nil_r.
Qed.

Definition restorable (s : TaskState) : Prop :=
  forall i ev, ts_pulses s !! i = Some ev ->
    NoDup (map step_id (tes_tool_invocations ev)) /\ room (first_step i) (tes_tool_invocations ev).

Lemma saved_pulses s :
  (forall i ev, ts_pulses s !! i = Some ev ->
     NoDup (map step_id (tes_tool_invocations ev)) /\ increasing (restep (first_step i) (tes_tool_invocations ev))) ->
  ts_pulses (persistable_snapshot (restore_from_snapshot s)) = imap restored_evidence (ts_pulses s).
Proof.
  intros Hs. cbn. apply list_eq. intros i. rewrite list_lookup_fmap, !list_lookup_imap.
  destruct (ts_pulses s !! i) as [ev|] eqn:E; [|done]. cbn [fmap option_fmap option_map]. f_equal.
  destruct (Hs i ev E) as [Hnd Hr]. unfold restored_evidence.
  rewrite <- (restored_text i ev) at 1. rewrite <- (restored_invocations i ev Hnd Hr). reflexivity.
Qed.

Lemma flat_map_imap {A B C} (g : B -> list C) (h : A -> list C) (f : nat -> A -> B) l :
  (forall i x, g (f i x) = h x) -> List.flat_map g (imap f l) = List.flat_map h l.
Proof.
  intros Hg. revert f Hg. induction l as [|x l IH]; intros f Hg; [done|]. cbn [imap List.flat_map]. rewrite Hg. f_equal.
  apply (IH (f ∘ S)). intros i y. apply Hg.
Qed.
Lemma evidence_kept {C} (g : TurnEvidenceState -> list C) l :
  (forall i ev, g (restored_evidence i ev) = g ev) -> List.flat_map g (imap restored_evidence l) = List.flat_map g l.
Proof. apply flat_map_imap. Qed.

(** The whole of it, with the pulses as they are saved. *)
Lemma saved_state s :
  (forall i ev, ts_pulses s !! i = Some ev ->
     NoDup (map step_id (tes_tool_invocations ev)) /\ increasing (restep (first_step i) (tes_tool_invocations ev))) ->
  persistable_snapshot (restore_from_snapshot s)
  = mk_TaskState (ts_id s) (ts_status s) (ts_parent_task_id s) (ts_agent_id s) (ts_worktree_path s) (ts_started_at s)
      (ts_updated_at s) (ts_last_heartbeat s) None (ts_active_grants s) (List.flat_map tes_changed_files (ts_pulses s))
      (List.flat_map tes_command_history (ts_pulses s)) (mk_ConversationCheckpoint (N.of_nat (length (ts_pulses s))) []) []
      (ts_branch_name s) (ts_instructions_path s) (imap restored_evidence (ts_pulses s)) None (ts_session_notes s)
      (ts_context_compaction s) (mk_CacheUsageStats 0 0) (ts_session_tasks s).
Proof.
  intros Hs. apply saved_pulses in Hs. unfold persistable_snapshot, restore_from_snapshot in *. cbn in Hs |- *. rewrite Hs, length_imap.
  by rewrite (flat_map_imap td_changed_files tes_changed_files restored_turn),
    (flat_map_imap td_command_history tes_command_history restored_turn) by done.
Qed.

(** C19: what is left of a task that is saved, restored into a document and saved again, field by
    field.  Identity, parent, agent, worktree, branch, instructions, status, times, grants, notes,
    compactions and session tasks are those saved before.  So are of every pulse the input, the
    answer, the files, the commands and the tokens, and its tool calls in order, but for their steps,
    which are counted up from a thousand times the number of the pulse, and for their outcomes, of
    which four are known.  The files and the commands of the task are those of its pulses, and its
    checkpoint counts the pulses, without a summary, whatever was saved there.  The plan, the summary
    of the handoff, the interrupted sessions and the use of the cache are lost.  After that, restoring
    and saving changes nothing more.  The saved calls have steps of their own in each pulse, with room
    for them below 2{^64}. *)
Theorem saved_task_restored s :
  restorable s ->
  let s' := persistable_snapshot (restore_from_snapshot s) in
  s' = {|
    ts_id := ts_id s; ts_status := ts_status s; ts_parent_task_id := ts_parent_task_id s; ts_agent_id := ts_agent_id s;
    ts_worktree_path := ts_worktree_path s; ts_started_at := ts_started_at s; ts_updated_at := ts_updated_at s;
    ts_last_heartbeat := ts_last_heartbeat s; ts_handoff_summary := None; ts_active_grants := ts_active_grants s;
    ts_changed_files := List.flat_map tes_changed_files (ts_pulses s);
    ts_command_history := List.flat_map tes_command_history (ts_pulses s);
    conversation_snapshot := mk_ConversationCheckpoint (N.of_nat (length (ts_pulses s))) [];
    interrupted_sessions := []; ts_branch_name := ts_branch_name s; ts_instructions_path := ts_instructions_path s;
    ts_pulses := imap restored_evidence (ts_pulses s); plan := None; ts_session_notes := ts_session_notes s;
    ts_context_compaction := ts_context_compaction s; cache_usage := mk_CacheUsageStats 0 0;
    ts_session_tasks := ts_session_tasks s;
  |}
  /\ persistable_snapshot (restore_from_snapshot s') = s'.
Proof.
  intros Hs s'.
  assert (forall i ev, ts_pulses s !! i = Some ev ->
    NoDup (map step_id (tes_tool_invocations ev)) /\ increasing (restep (first_step i) (tes_tool_invocations ev))) as Hinc.
  { intros i ev E. destruct (Hs i ev E) as [Hnd Hr]. split; [done|]. apply restep_after, Hr. }
  pose proof (saved_state s Hinc) as E. fold s' in E. rewrite E. split; [done|].
  assert (forall i ev, imap restored_evidence (ts_pulses s) !! i = Some ev ->
    exists ev0, room (first_step i) (tes_tool_invocations ev0) /\ ev = restored_evidence i ev0) as Hlook.
  { intros i ev. rewrite list_lookup_imap. destruct (ts_pulses s !! i) as [ev0|] eqn:Ei; [|done].
    intros [= <-]. exists ev0. split; [apply (Hs i ev0 Ei) | done]. }
  rewrite saved_state; cbn [ts_id ts_status ts_parent_task_id ts_agent_id ts_worktree_path ts_started_at ts_updated_at ts_last_heartbeat
    ts_active_grants ts_branch_name ts_instructions_path ts_pulses ts_session_notes ts_context_compaction ts_session_tasks].
  - rewrite length_imap, !evidence_kept by done. f_equal. apply list_eq. intros i. rewrite list_lookup_imap.
    destruct (imap restored_evidence (ts_pulses s) !! i) as [ev|] eqn:Ei; [|done].
    cbn. f_equal. destruct (Hlook i ev Ei) as (ev0 & Hr & ->). unfold restored_evidence. cbn. by rewrite restep_idem.
  - intros i ev (ev0 & Hr & ->)%Hlook. cbn. rewrite restep_idem by done. destruct (restep_after _ _ Hr) as [H _].
    split; [by apply increasing_NoDup | done].
Qed.

Definition saved_sample : TaskState :=
  mk_TaskState t!"task-1" TFailed None None None (Some 1) 2 None None ∅ [] []
    (mk_ConversationCheckpoint 0 []) [] None None
    [mk_TurnEvidenceState t!"list files" t!"done" [] [] [mk_ToolInvocationSummary 0 t!"list_files" t!"ok";
       mk_ToolInvocationSummary 7 t!"run_command" t!"denied"] (PulseTokens.mk 5 3 false 0 0);
     mk_TurnEvidenceState t!"again" [] [] [] [mk_ToolInvocationSummary 3 t!"read_file" t!"pending"] (PulseTokens.mk 1 1 true 0 0)]
    None [] [] (mk_CacheUsageStats 0 0) [].

Lemma saved_task_restored_witness :
  let s' := persistable_snapshot (restore_from_snapshot saved_sample) in
  map (fun ev => map (fun i => (step_id i, inv_outcome i)) (tes_tool_invocations ev)) (ts_pulses s')
    = [[(2, t!"ok"); (7, t!"error")]; [(1002, t!"pending")]]
  /\ persistable_snapshot (restore_from_snapshot s') = s'.
Proof.
  split; [vm_compute; reflexivity|]. apply (saved_task_restored saved_sample).
  intros i ev Hi. destruct i as [|[|i]]; cbn in Hi; [injection Hi as <- | injection Hi as <- | discriminate Hi].
  - split.
    + apply (bool_decide_unpack _). vm_compute. exact I.
    + exists 7. vm_compute. split; [discriminate|]. split; [repeat constructor; discriminate | discriminate].
  - split; [apply NoDup_singleton|]. exists 1001. vm_compute. split; [discriminate|].
    split; [repeat constructor; discriminate | discriminate].
Defined.
