(* ===== verification/ToolRules.v ===== *)
(** The rules about tools: which only read, which need an approval, which calls are refused, and
    how calls are written into the history: src/state/conversation/tools/formatting.rs and
    validation.rs, src/runtime/policy.rs, the prompts of routing.rs, the aliases of mod.rs and the
    list of src/api/client/tools.rs. *)
From Stdlib Require Import NArith ZArith Lia.
From stdpp Require Import base list gmap strings numbers.
From S2P Require Import Prelude Text Collections Json Usage Evidence Envelope ByteIndex ToolPreview History FileSystem Workspace TaskDocument.
#[local] Open Scope N_scope.

(** ** Names of tools: formatting.rs, mod.rs *)
Definition is_read_only_tool_name (name : str) : bool :=
  str_in name [t!"read_file"; t!"search"; t!"search_files"; t!"search_content"; t!"find_files"; t!"codebase_search";
               t!"list_files"; t!"list_directory"; t!"list_dir"; t!"glob_files"; t!"git_status"; t!"git_diff";
               t!"git_log"; t!"git_show"].
Definition tool_can_run_in_parallel (name : str) : bool := is_read_only_tool_name name.

Definition tool_requires_confirmation (name : str) : bool :=
  if starts_with t!"mcp." name then true
  else str_in name [t!"write_file"; t!"apply_patch"; t!"edit_file"; t!"rename_file"; t!"git_add"; t!"git_commit";
                    t!"run_command"; t!"run_shell_command"; t!"bash"; t!"call_command"; t!"call_bash"].

Definition normalize_shell_tool_alias (name : str) : str :=
  if str_in name [t!"run_shell_command"; t!"bash"; t!"call_command"; t!"call_bash"] then t!"run_command" else name.

(** *** src/api/client/tools.rs *)
Definition READONLY_TOOL_NAMES : list str :=
  [t!"read_file"; t!"list_files"; t!"list_directory"; t!"list_dir"; t!"glob_files"; t!"search_files"; t!"search";
   t!"git_status"; t!"git_diff"; t!"git_log"; t!"git_show"; t!"search_content"; t!"find_files"; t!"codebase_search"].
Definition is_readonly_tool (name : str) : bool := str_in name READONLY_TOOL_NAMES.

(** ** Rounds of calls: formatting.rs *)
Definition all_tool_uses (p : str -> bool) (blocks : list ContentBlock) : bool :=
  forallb (fun b => match b with CToolUse _ name _ _ => p name | _ => false end) blocks.

Definition is_read_only_tool_round (blocks : list ContentBlock) : bool := all_tool_uses is_read_only_tool_name blocks.
Definition is_parallel_safe_tool_round (blocks : list ContentBlock) : bool :=
  match blocks with [] => false | _ => all_tool_uses tool_can_run_in_parallel blocks end.
Definition should_parallelize_tool_round (blocks : list ContentBlock) (require_tool_approval : bool) : bool :=
  negb require_tool_approval && (1 <? length blocks)%nat && is_parallel_safe_tool_round blocks.
Definition is_mutating_tool_round (blocks : list ContentBlock) : bool :=
  existsb (fun b => match b with CToolUse _ name _ _ => tool_requires_confirmation name | _ => false end) blocks.

(** ** Messages of the guards *)
Definition loop_guard_mark : str := t!"[loop guard]".
Definition render_loop_guard_message (last_assistant_text reason : str) : str :=
  let summary := if is_empty (trim last_assistant_text) then t!"No final assistant answer was produced."
                 else last_assistant_text in
  summary ++ [LF; LF] ++ loop_guard_mark ++ [SPACE] ++ reason.
Definition render_loop_limit_guard_message (last_assistant_text : str) (max_rounds : N) : str :=
  render_loop_guard_message last_assistant_text
    (t!"Stopped after " ++ fmt_N max_rounds ++ t!" tool rounds to prevent an infinite loop.").
Definition render_repeated_tool_guard_message (last_assistant_text : str) : str :=
  render_loop_guard_message last_assistant_text
    t!"Repeated identical read/search tool calls detected; stopped to prevent an infinite loop.".
Definition render_repeated_mutating_tool_guard_message (last_assistant_text : str) : str :=
  render_loop_guard_message last_assistant_text
    t!"Repeated identical mutating tool calls detected; stopped to prevent an infinite loop. Verify edit_file arguments include path, old_str, and new_str.".
Definition render_missing_tool_evidence_guard_message (last_assistant_text : str) : str :=
  render_loop_guard_message last_assistant_text
    t!"Model did not call any tool call required to answer this request with workspace evidence.".
Definition render_tool_denied_message (tool_name : str) : str :=
  t!"Stopped: approval denied for " ++ tool_name
  ++ (if tool_requires_confirmation tool_name then t!". No file changes were made."
      else t!". No tool actions were performed.").

Definition builtin_supported_git_tools_response (input : str) : option str :=
  let normalized := to_ascii_lowercase input in
  let says (p : str) := contains p normalized in
  let asks_git_capabilities :=
    (says t!"git tool" || says t!"git tools" || says t!"git command" || says t!"git commands")
    && (says t!"what" || says t!"which" || says t!"can you" || says t!"available") in
  if negb asks_git_capabilities then None
  else Some t!"Built-in git tools available here: git_status, git_diff, git_log, git_show, git_add, git_commit.".

(** ** Calls written as text *)
Section codec.
Context {js : SerdeJson} {pretty : PrettyJson} {diff : LineDiff}.

Definition tool_input_preview (tool_name : str) (input : value) : str :=
  preview_tool_input tool_name input Compact DEFAULT_EDIT_DIFF_CONTEXT_LINES.

Definition json_value_to_text_protocol_value (v : value) : str :=
  match v with String text => text | _ => unwrap_or (json_to_string v) [] end.

Definition text_protocol_parameters (input : value) : str :=
  match input with
  | Object m =>
      concat (map (fun key =>
          t!"<parameter=" ++ key ++ t!">" ++ [LF]
          ++ unwrap_or (option_map json_value_to_text_protocol_value (im_get key m)) []
          ++ [LF] ++ t!"</parameter>" ++ [LF])
        (sort_by str_ltb (map fst m)))
  | _ => []
  end.

(** One text per call, with a line break before each but the first. *)
Definition render_calls (render : str -> value -> str) (blocks : list ContentBlock) : str :=
  foldl (fun out b =>
      match b with
      | CToolUse _ name input _ => (if is_empty out then out else out ++ [LF]) ++ render name input
      | _ => out
      end) [] blocks.

Definition render_tool_calls_for_text_protocol (blocks : list ContentBlock) : str :=
  render_calls (fun name input =>
      t!"<function=" ++ name ++ t!">" ++ [LF] ++ text_protocol_parameters input ++ t!"</function>") blocks.

Definition render_tool_calls_for_history (blocks : list ContentBlock) : str :=
  render_calls (fun name input =>
      let preview := tool_input_preview name input in
      t!"[tool call] " ++ name ++ (if is_empty (trim preview) then [] else t!": " ++ preview)) blocks.

Definition tool_round_signature (blocks : list ContentBlock) : list str :=
  List.flat_map (fun b =>
      match b with
      | CToolUse _ name input _ => [name ++ t!":" ++ unwrap_or (json_to_string input) []]
      | _ => []
      end) blocks.
End codec.

(** ** Refused calls: validation.rs, routing.rs *)
Definition is_ascii_alphanumeric (c : char) : bool :=
  is_ascii_digit c || ((65 <=? c) && (c <=? 90)) || ((97 <=? c) && (c <=? 122)).
Definition at_word_edge (c : option char) : bool :=
  match c with Some c => negb (is_ascii_alphanumeric c) | None => true end.

Definition contains_hint (normalized hint : str) : bool :=
  existsb (fun start =>
      at_word_edge (list.last (take start normalized)) && at_word_edge (head (drop (start + length hint) normalized)))
    (match_indices hint normalized).

Definition READ_ONLY_HINTS : list str :=
  [t!"show"; t!"read"; t!"list"; t!"count"; t!"how many"; t!"read-only"; t!"read only"; t!"readonly"; t!"review only";
   t!"no changes"; t!"without changes"; t!"do not change"; t!"don't change"; t!"do not modify"; t!"don't modify";
   t!"what is in"; t!"what's in"; t!"whats in"; t!"content of"; t!"status"; t!"diff"; t!"log"; t!"cat"; t!"display";
   t!"print"].
Definition MUTATING_HINTS : list str :=
  [t!"write"; t!"edit"; t!"update"; t!"create"; t!"add"; t!"delete"; t!"remove"; t!"rename"; t!"move"; t!"commit";
   t!"stage"; t!"patch"; t!"apply"; t!"implement"; t!"refactor"; t!"fix"; t!"push"; t!"rebase"].

Section environment.
Context (env : str -> option str).

Definition parse_bool_str (s : str) : option bool :=
  (** Only ASCII letters have the lower-case letters of these words. *)
  let s := to_ascii_lowercase (trim s) in
  if str_in s [t!"true"; t!"1"; t!"yes"; t!"on"] then Some true
  else if str_in s [t!"false"; t!"0"; t!"no"; t!"off"] then Some false
  else None.

Definition default_tool_approval_enabled (is_local : bool) : bool := negb is_local.
Definition tool_approval_enabled (is_local : bool) : bool :=
  unwrap_or (v ← env t!"VEX_TOOL_CONFIRM"; parse_bool_str v) (default_tool_approval_enabled is_local).

Definition is_read_only_user_request (input : str) : bool :=
  if bool_decide (env t!"VEX_FORCE_MUTATING_TURN" = Some t!"1") then false
  else
    let normalized := to_ascii_lowercase input in
    existsb (contains_hint normalized) READ_ONLY_HINTS && negb (existsb (contains_hint normalized) MUTATING_HINTS).

Definition mutating_tool_read_only_conflict_prompt (user_input tool_name : str) : option str :=
  if negb (tool_requires_confirmation tool_name) || negb (is_read_only_user_request user_input) then None
  else Some (t!"Blocked mutating tool call `" ++ tool_name ++ t!"` because this request appears read-only. Use read-only tools (`read_file`, `search_files`, `list_files`, `list_dir`, `glob_files`, `git_status`, `git_diff`, `git_log`, `git_show`) and answer from those results. No file changes were made.").
End environment.

(** The line names a file: [+++ b/], [--- a/] or [diff --git a/ b/]. *)
Definition patch_line_path (line : str) : option str :=
  let path :=
    match strip_prefix t!"+++ b/" line with
    | Some p => Some p
    | None =>
        match strip_prefix t!"--- a/" line with
        | Some p => Some p
        | None => rest ← strip_prefix t!"diff --git a/" line; snd <$> split_once t!" b/" rest
        end
    end in
  path ← path;
  let normalized := trim path in
  if is_empty normalized || str_eqb normalized t!"/dev/null" then None else Some normalized.
Definition extract_apply_patch_target_path (content : str) : option str := find_map patch_line_path (lines content).

Definition opt_list {A} (o : option A) : list A := match o with Some a => [a] | None => [] end.

Definition mutating_tool_target_paths (tool_name : str) (input : value) : list str :=
  let path := first_tool_string input [t!"path"; t!"file_path"; t!"file"; t!"filename"] in
  if str_in tool_name [t!"write_file"; t!"edit_file"] then opt_list path
  else if str_eqb tool_name t!"apply_patch" then
    opt_list path
    ++ opt_list (first_tool_string input [t!"content"; t!"patch"; t!"diff"] ≫= extract_apply_patch_target_path)
  else if str_eqb tool_name t!"rename_file" then
    opt_list (first_tool_string input [t!"old_path"; t!"from"; t!"source_path"])
    ++ opt_list (first_tool_string input [t!"new_path"; t!"to"; t!"target_path"])
  else [].

Definition is_test_target_path (path : str) : bool :=
  let normalized := to_ascii_lowercase (replace [BACKSLASH] [SLASH] (trim path)) in
  if is_empty normalized then false
  else if existsb (fun segment => str_in segment [t!"test"; t!"tests"; t!"__tests__"]) (split_on SLASH normalized) then true
  else
    let file_name := unwrap_or (list.last (split_on SLASH normalized)) normalized in
    str_in file_name [t!"test.rs"; t!"tests.rs"]
    || starts_with t!"test_" file_name || starts_with t!"spec_" file_name
    || contains t!".test." file_name || contains t!".spec." file_name
    || ends_with t!"_test.rs" file_name || ends_with t!"_tests.rs" file_name || ends_with t!"_test.py" file_name
    || ends_with t!"_test.go" file_name || ends_with t!"_test.js" file_name || ends_with t!"_test.jsx" file_name
    || ends_with t!"_test.ts" file_name || ends_with t!"_test.tsx" file_name || ends_with t!"_spec.rb" file_name.

Definition tests_only_mutation_conflict_prompt (policy : PulseToolPolicy) (tool_name : str) (input : value) : option str :=
  match policy with
  | DefaultPolicy => None
  | TestsOnlyMutations =>
      let target_paths := mutating_tool_target_paths tool_name input in
      if match target_paths with [] => true | _ => false end || forallb is_test_target_path target_paths then None
      else
        let blocked_path := unwrap_or (List.find (fun p => negb (is_test_target_path p)) target_paths) [] in
        Some (t!"Dropped non-test patch target `" ++ blocked_path ++ t!"` for /generate-tests. This command may only modify test files or paths under `test/` or `tests/`. Use `/edit` for source-file changes.")
  end.

Definition missing_mutating_location_prompt (name : str) (input : value) : option str :=
  let missing keys :=
    match first_tool_string input keys with Some v => is_empty (trim v) | None => true end in
  let no_path := missing [t!"path"; t!"file_path"; t!"file"; t!"filename"] in
  let ask doing := Some (t!"I need the target file path before " ++ doing ++ t!". Please provide an explicit path like `src/calculator.rs`. No file changes were made.") in
  if str_eqb name t!"write_file" then if no_path then ask t!"creating a file" else None
  else if str_eqb name t!"apply_patch" then if no_path then ask t!"applying a patch" else None
  else if str_eqb name t!"edit_file" then if no_path then ask t!"editing a file" else None
  else if str_eqb name t!"rename_file" then
    if missing [t!"old_path"; t!"from"; t!"source_path"] || missing [t!"new_path"; t!"to"; t!"target_path"] then
      Some t!"I need both source and destination file paths before renaming. Please provide `old_path` and `new_path`. No file changes were made."
    else None
  else None.

(** ** The core policy: src/runtime/policy.rs *)
Definition TOOL_RETRY_INSTRUCTION : str :=
  t!"Your previous answer did not call any tool call. This request requires tool-backed evidence from the workspace. Call the appropriate tool now before answering.".
Definition REPEATED_TOOL_ROUND_INSTRUCTION : str :=
  t!"You repeated the same read/search tool call with unchanged arguments. Do not repeat identical tool calls. Use existing tool results to answer now. Only call a different tool if new evidence is required.".
Definition FINAL_ANSWER_INSTRUCTION : str :=
  t!"You have reached the tool-call budget for this turn. Stop calling tools and write your final answer now using the information already gathered. Summarize the relevant findings and respond directly to the user's request.".
Definition TOOL_REQUIRED_HINTS : list str :=
  [t!"file"; t!"files"; t!"directory"; t!"directories"; t!"tree"; t!"repo"; t!"repository"; t!"cargo.toml"; t!"readme";
   t!"docs/"; t!"src/"; t!"tests/"; t!"version"; t!"versions"; t!"pinned"; t!"count"; t!"how many"; t!"list"; t!"show";
   t!"search"; t!"find"; t!"path"; t!"line"; t!"content of"; t!"what's in"; t!"whats in"; t!"what is in";
   t!"read it again"; t!"read again"].
Definition request_requires_tool_evidence (input : str) : bool :=
  let normalized := to_ascii_lowercase input in existsb (fun hint => contains hint normalized) TOOL_REQUIRED_HINTS.

(** ** Texts: src/state/transcript_delta.rs, src/state/conversation/tools/config.rs, src/api/client/mod.rs *)
(** What the texts' bytes say their characters do, as both are UTF-8. *)
Definition bounded_incremental_suffix (existing incoming : str) : str :=
  if is_empty incoming then []
  else
    match strip_prefix existing incoming with
    | Some rest => rest
    | None => if starts_with incoming existing then [] else incoming
    end.

(** [buf.drain(..drain_end)] panics inside a character. *)
Definition append_capped (buf text : str) (cap : N) : outcome str :=
  let buf := buf ++ text in
  if cap <? blen buf then
    let excess := blen buf - cap in
    let drain_end := unwrap_or (List.find (fun i => excess <=? i) (map fst (char_indices 0 buf))) excess in
    match drop_bytes drain_end buf with Some rest => Returns rest | None => Panics end
  else Returns buf.

Definition is_context_overflow (body : str) : bool :=
  let lower := to_ascii_lowercase body in
  contains t!"exceeds the available context size" lower || contains t!"exceeds context" lower
  || contains t!"context length exceeded" lower || contains t!"maximum context length" lower
  || contains t!"context window" lower.
