(* ===== verification/ConversationState.v ===== *)
(** The manager of a conversation: its state, what it tells the document and the frontend while
    an answer streams, and how it runs a tool: src/state/conversation/state.rs, streaming.rs,
    core.rs and tools/mod.rs.

    What surrounds the manager is a parameter: the model server, the user who answers an
    approval, the tools and the commands of hooks (class [Surroundings], with a state of its
    own).  The stream of a request and a call of a tool are code of other files, which can panic:
    they have an [outcome].  The updates sent to the frontend are a list; without a channel none are sent.
    Warnings on standard error are left out.  The n-th reading of the clock is [utc_now n].
    Block indices stay below [usize::MAX]. *)
From Stdlib Require Import NArith ZArith Lia.
From stdpp Require Import base list gmap strings numbers sets.
From S2P Require Import Prelude Text Collections Json Usage Evidence PeerChannel Envelope ToolPreview History FileSystem Workspace TaskDocument ToolRules.
#[local] Open Scope N_scope.

(** ** Types *)
Record UndoCheckpoint := mk_UndoCheckpoint {
  uc_tool_name : str;
  uc_path : path;
  cleanup_path : option path;
  (** Bytes. *)
  previous_content : option (list N);
}.

Inductive ConversationStreamUpdate : Type :=
| UDelta (text : str)
| UBlockStart (index : N) (block : StreamBlock)
| UBlockDelta (index : N) (delta : str)
| UToolCallArgumentsUpdated (tool_call_id : str) (tool_name : option str) (arguments : value)
| UBlockComplete (index : N)
| UToolApprovalRequest (request : ToolApprovalRequest)
| UTranscriptLine (line : str)
| UServerMetadata (metadata : StreamChunkMetadata)
| UCommandSessionStarted (session_id : N) (command : str)
| UCommandSessionAttached (session_id : N) (pid : option N)
| UCommandSessionFinished (session_id : N)
| UContextCompacted (messages_before messages_after : N) (summary : str)
| UStreamError (message : str).

Inductive ToolPolicy : Type := Full | Plan | Chat.
Inductive HookTrigger : Type := PreTool | PostTool.
Inductive HookOnFail : Type := Warn | OnFailAbort | Ignore.

#[export] Instance HookTrigger_eq_dec : EqDecision HookTrigger.
Proof. solve_decision. Defined.

Record HookConfig := mk_HookConfig {
  hk_trigger : HookTrigger;
  hk_tool : str;
  hk_command : str;
  hk_args : list str;
  hk_on_fail : HookOnFail;
}.
Record HttpHookConfig := mk_HttpHookConfig {
  hh_trigger : HookTrigger;
  hh_tool : str;
  url : str;
  hh_on_fail : HookOnFail;
}.

(** How the command of a hook ended: the sandbox refused it, it could not be started, or its
    exit code. *)
Inductive HookRun : Type := NotWrapped (error : str) | NotStarted (error : str) | Exited (code : Z).
(** How a request of a hook ended. *)
Inductive HttpRun : Type := Answered (success : bool) (status : str) | TimedOut (ms : N) | NotSent (error : str).

(** ** The surroundings *)
(** [Ok] is [inl], [Err] is [inr] with the text of the error.  The client of the model server and the
    tools can panic in the task of the message, and are then [Panics]: the client's reading of the
    stream does for some texts of the model, and a tool that does not run in a task of its own
    (a command, a search of the codebase, a tool of an MCP server) may.  A panic of another tool
    is the error of its task. *)
Class Surroundings (W : Type) := {
  (** The signals of the stream until it ends, or the error that ends it; [Panics] when making
      the stream panics, or reading it to its end or its first error. *)
  create_stream : list ApiMessage -> W -> outcome ((list (RuntimeSignal + str) + str) * W);
  (** [false] also when the frontend is gone. *)
  answer_approval : ToolApprovalRequest -> W -> bool * W;
  run_hook_command : str -> list str -> W -> HookRun * W;
  post_hook : HttpHookConfig -> str -> str -> W -> HttpRun * W;
  (** A tool that is allowed to run, with the updates it sends. *)
  call_tool : str -> value -> W -> outcome ((str + str) * list ConversationStreamUpdate * W);
  (** [std::fs::read(path).ok()]. *)
  read_bytes : path -> W -> option (list N) * W;
  clear_ledger : W -> W;
  new_uuid : W -> str * W;
}.

(** chrono's [DateTime::parse_from_rfc3339] and [timestamp_millis]. *)
Class Chrono := {
  parse_from_rfc3339 : str -> option Z;
  timestamp_millis : Z -> Z;
}.

(** What of the manager, its client and the process does not change while a message is
    answered. *)
Record Settings := mk_Settings {
  env : str -> option str;
  supports_structured_tool_protocol : bool;
  context_window_tokens : N;
  tool_policy : ToolPolicy;
  client_model_name : str;
  shared_prefix_fingerprint : str -> option str;
  operator_working_dir : path;
  hooks : list HookConfig;
  http_hooks : list HttpHookConfig;
  (** [reqwest::Client::builder().build()]. *)
  http_client_error : option str;
  (** [stream_delta_tx.is_some()]. *)
  has_channel : bool;
  max_undo_checkpoints : nat;
  undo_enabled : bool;
}.

Record ConversationManager (W : Type) := mk_Manager {
  conv : Conversation;
  task_doc : option TaskDocument;
  current_round_entry_start : nat;
  current_round_stream_block_count : N;
  (** A [HashMap], looked up only. *)
  tool_call_started_at : gmap str Z;
  last_turn_tokens : PulseTokens.t;
  undo_stack : list UndoCheckpoint;
  updates : list ConversationStreamUpdate;
  reads : nat;
  world : W;
}.
Arguments mk_Manager {_} _ _ _ _ _ _ _ _ _ _.
Arguments conv {_} _.
Arguments task_doc {_} _.
Arguments current_round_entry_start {_} _.
Arguments current_round_stream_block_count {_} _.
Arguments tool_call_started_at {_} _.
Arguments last_turn_tokens {_} _.
Arguments undo_stack {_} _.
Arguments updates {_} _.
Arguments reads {_} _.
Arguments world {_} _.

(** *** One field replaced *)
Definition set_conv {W : Type} (v : Conversation) (m : ConversationManager W) : ConversationManager W :=
  mk_Manager v (task_doc m) (current_round_entry_start m)
    (current_round_stream_block_count m) (tool_call_started_at m) (last_turn_tokens m) (undo_stack m) (updates m) (reads m) (world m).
Definition set_task_doc {W : Type} (v : option TaskDocument) (m : ConversationManager W) : ConversationManager W :=
  mk_Manager (conv m) v (current_round_entry_start m)
    (current_round_stream_block_count m) (tool_call_started_at m) (last_turn_tokens m) (undo_stack m) (updates m) (reads m) (world m).
Definition set_current_round_entry_start {W : Type} (v : nat) (m : ConversationManager W) : ConversationManager W :=
  mk_Manager (conv m) (task_doc m) v (current_round_stream_block_count m) (tool_call_started_at m) (last_turn_tokens m) (undo_stack m) (updates m) (reads m) (world m).
Definition set_current_round_stream_block_count {W : Type} (v : N) (m : ConversationManager W) : ConversationManager W :=
  mk_Manager (conv m) (task_doc m) (current_round_entry_start m) v (tool_call_started_at m) (last_turn_tokens m) (undo_stack m) (updates m) (reads m) (world m).
Definition set_tool_call_started_at {W : Type} (v : gmap str Z) (m : ConversationManager W) : ConversationManager W :=
  mk_Manager (conv m) (task_doc m) (current_round_entry_start m) (current_round_stream_block_count m) v (last_turn_tokens m) (undo_stack m) (updates m) (reads m) (world m).
Definition set_last_turn_tokens {W : Type} (v : PulseTokens.t) (m : ConversationManager W) : ConversationManager W :=
  mk_Manager (conv m) (task_doc m) (current_round_entry_start m)
    (current_round_stream_block_count m) (tool_call_started_at m) v (undo_stack m) (updates m) (reads m) (world m).
Definition set_undo_stack {W : Type} (v : list UndoCheckpoint) (m : ConversationManager W) : ConversationManager W :=
  mk_Manager (conv m) (task_doc m) (current_round_entry_start m)
    (current_round_stream_block_count m) (tool_call_started_at m) (last_turn_tokens m) v (updates m) (reads m) (world m).
Definition set_updates {W : Type} (v : list ConversationStreamUpdate) (m : ConversationManager W) : ConversationManager W :=
  mk_Manager (conv m) (task_doc m) (current_round_entry_start m)
    (current_round_stream_block_count m) (tool_call_started_at m) (last_turn_tokens m) (undo_stack m) v (reads m) (world m).
Definition set_reads {W : Type} (v : nat) (m : ConversationManager W) : ConversationManager W :=
  mk_Manager (conv m) (task_doc m) (current_round_entry_start m)
    (current_round_stream_block_count m) (tool_call_started_at m) (last_turn_tokens m) (undo_stack m) (updates m) v (world m).
Definition set_world {W : Type} (v : W) (m : ConversationManager W) : ConversationManager W :=
  mk_Manager (conv m) (task_doc m) (current_round_entry_start m)
    (current_round_stream_block_count m) (tool_call_started_at m) (last_turn_tokens m) (undo_stack m) (updates m) (reads m) v.

Abbreviation M W := (PST (ConversationManager W)).

Definition gets {W A : Type} (f : ConversationManager W -> A) : M W A := lift (st_gets f).
Definition modify {W : Type} (f : ConversationManager W -> ConversationManager W) : M W unit := lift (st_modify f).
(** An action of the surroundings. *)
Definition in_world {W A : Type} (f : W -> A * W) : M W A := fun m =>
  let '(a, w) := f (world m) in Returns (a, set_world w m).
(** One that can panic, and unwinds through the manager then. *)
Definition try_world {W A : Type} (f : W -> outcome (A * W)) : M W A := fun m =>
  '(a, w) ← f (world m); Returns (a, set_world w m).
(** An operation on the history. *)
Definition on_conv {W A : Type} (f : Conversation -> A * Conversation) : M W A := fun m =>
  let '(a, c) := f (conv m) in Returns (a, set_conv c m).
Definition push_message {W : Type} (msg : ApiMessage) : M W unit :=
  modify (fun m => set_conv (set_messages (api_messages (conv m) ++ [msg]) (conv m)) m).

(** The panic of an operation on a value unwinds through the manager. *)
Definition unwind {W A : Type} (o : outcome A) : M W A := fun m => (fun a => (a, m)) <$> o.

Fixpoint for_each {S A : Type} (f : A -> PST S unit) (l : list A) : PST S unit :=
  match l with [] => mret tt | x :: r => f x;; for_each f r end.

Section manager.
Context {W : Type} `{Surroundings W} {clock : Clock} {chrono : Chrono}.
Context {js : SerdeJson} {pretty : PrettyJson} {diff : LineDiff} {hash : ContentHash}.
Variable s : Settings.

(** ** The document: state.rs *)
(** [Utc::now()]. *)
Definition now : M W Z := fun m => Returns (utc_now (reads m), set_reads (S (reads m)) m).
Definition now_ms : M W N := t ← now; mret (now_millis (timestamp_millis t)).

(** [emit_stream_update]. *)
Definition emit (u : ConversationStreamUpdate) : M W unit :=
  if has_channel s then modify (fun m => set_updates (updates m ++ [u]) m) else mret tt.

Definition active (m : ConversationManager W) : option ActiveTurnDocument := task_doc m ≫= active_pulse.

Definition apply_doc_delta (signal : RuntimeSignal) : M W unit :=
  doc ← gets task_doc;
  match doc with
  | None => mret tt
  | Some doc =>
      first_token ← now_ms; t ← now_ms;
      modify (set_task_doc (Some (apply_runtime_signal signal first_token t doc).2))
  end.

Definition ensure_task_doc : M W unit :=
  doc ← gets task_doc;
  match doc with
  | Some _ => mret tt
  | None =>
      is_local ← gets (fun m => is_local_endpoint (conv m));
      t ← now_ms;
      id ← in_world new_uuid;
      modify (set_task_doc (Some (begin_task
        (mk_TaskInfo id TReady None None None None None (client_model_name s)
           (if is_local : bool then LocalRuntime else ApiServer) [] (Some t) t None ∅ 0))))
  end.

Definition begin_turn_doc (input : str) (policy : PulseToolPolicy) : M W unit :=
  doc ← gets task_doc;
  match doc with
  | None => mret tt
  | Some doc =>
      t ← now_ms;
      doc ← unwind (begin_turn input t policy doc);
      modify (set_task_doc (Some doc))
  end;;
  modify (set_current_round_stream_block_count 0);;
  modify (set_tool_call_started_at ∅).

Definition finish_turn_doc (o : PulseOutcome) (tokens : PulseTokens.t) : M W unit :=
  doc ← gets task_doc;
  match doc with
  | None => mret tt
  | Some doc => t ← now_ms; modify (set_task_doc (Some (finish_turn o tokens t doc).2))
  end;;
  modify (set_tool_call_started_at ∅).

Definition advance_round_start : M W unit :=
  modify (fun m =>
    set_current_round_stream_block_count 0
      (set_current_round_entry_start (match active m with Some a => length (at_entries a) | None => 0%nat end) m)).

Definition shared_prefix_cache_hint (shared_prefix_context : option str) : option str :=
  context ← shared_prefix_context;
  let context := trim context in
  if is_empty context then None else shared_prefix_fingerprint s context.

Definition user_text (text : str) (hint : option str) : ApiMessage := mk_ApiMessage USER (TextContent text) hint.
Definition ASSISTANT : str := t!"assistant".
Definition assistant_message (c : Content) : ApiMessage := mk_ApiMessage ASSISTANT c None.
Definition push_user_message (input : str) (hint : option str) : M W unit := push_message (user_text input hint).

Definition is_turn_mutation_tool (name : str) : bool :=
  str_in name [t!"write_file"; t!"apply_patch"; t!"edit_file"; t!"rename_file"].

Definition current_turn_has_successful_mutation (m : ConversationManager W) : bool :=
  match task_doc m with
  | None => false
  | Some doc =>
      let entries :=
        match active_pulse doc with
        | Some a => at_entries a
        | None => match list.last (completed_turns doc) with Some t => td_entries t | None => [] end
        end in
      let mutating_tool_ids :=
        List.flat_map (fun e => match e with
                                | EToolCall _ id name _ _ => if is_turn_mutation_tool name then [id] else []
                                | _ => []
                                end) entries in
      existsb (fun e => match e with
                        | EToolResult _ call_id _ _ is_error => negb is_error && str_in call_id mutating_tool_ids
                        | _ => false
                        end) entries
  end.

(** *** Undo *)
Definition push_undo_checkpoint (checkpoint : UndoCheckpoint) : M W unit :=
  if (max_undo_checkpoints s =? 0)%nat then mret tt
  else modify (fun m =>
    let stack := undo_stack m in
    let stack := if (max_undo_checkpoints s <=? length stack)%nat then drop 1 stack else stack in
    set_undo_stack (stack ++ [checkpoint]) m).

Definition undo_paths (tool_name : str) (input : value) : option (str * option str) :=
  if str_in tool_name [t!"write_file"; t!"apply_patch"; t!"edit_file"] then
    p ← first_tool_string input [t!"path"; t!"file_path"; t!"file"]; Some (p, None)
  else if str_eqb tool_name t!"rename_file" then
    p ← first_tool_string input [t!"old_path"; t!"from"; t!"source_path"];
    Some (p, first_tool_string input [t!"new_path"; t!"to"; t!"dest_path"])
  else None.

Definition capture_undo_snapshot (tool_name : str) (input : value) : M W (option UndoCheckpoint) :=
  match undo_paths tool_name input with
  | None => mret None
  | Some (path_str, cleanup_path_str) =>
      let abs := path_join (operator_working_dir s) (components path_str) in
      let cleanup := (fun v => path_join (operator_working_dir s) (components v)) <$> cleanup_path_str in
      previous ← in_world (read_bytes abs);
      mret (Some (mk_UndoCheckpoint tool_name abs cleanup previous))
  end.
(** ** Streaming: streaming.rs *)
Definition MAX_INLINE_PAD_GAP : N := 2048.
Definition placeholder : StreamBlock := Thinking [] true.

(** [while self.current_round_stream_block_count < index { ... }], [n] times. *)
Fixpoint pad_blocks (n : nat) : M W unit :=
  match n with
  | O => mret tt
  | S n =>
      pad_index ← gets current_round_stream_block_count;
      apply_doc_delta (TranscriptBlockStart pad_index placeholder);;
      modify (set_current_round_stream_block_count (pad_index + 1));;
      emit (UBlockStart pad_index placeholder);;
      pad_blocks n
  end.

Definition emit_stream_block_start_update (index : N) (block : StreamBlock) : M W unit :=
  count ← gets current_round_stream_block_count;
  let gap := sat_sub index count in
  (if gap <=? MAX_INLINE_PAD_GAP then pad_blocks (N.to_nat gap) else mret tt);;
  modify (set_current_round_stream_block_count (index + 1));;
  emit (UBlockStart index block).

Definition record_tool_call_started_at (tool_call_id : str) (started_at : Z) : M W unit :=
  modify (fun m => set_tool_call_started_at (<[tool_call_id := started_at]> (tool_call_started_at m)) m).

Definition take_tool_call_timing (tool_call_id : str) (completed_at : Z) : M W (option str * option N) :=
  started ← gets tool_call_started_at;
  match started !! tool_call_id with
  | None => mret (None, None)
  | Some started_at =>
      modify (set_tool_call_started_at (delete tool_call_id started));;
      mret (Some (timestamp_string started_at), Some (Z.to_N (num_milliseconds completed_at started_at)))
  end.

Definition tool_result_signal (tool_call_id : str) (tool_name : option str) (output : str) (is_error : bool)
    (completed_at : Z) : M W RuntimeSignal :=
  '(started_at, duration_ms) ← take_tool_call_timing tool_call_id completed_at;
  let completed_at := timestamp_string completed_at in
  mret (if is_error
        then ToolCallFailed tool_call_id tool_name Envelope.Error started_at completed_at duration_ms output
        else ToolCallCompleted tool_call_id tool_name Complete started_at completed_at duration_ms output).

Definition upsert_turn_block (index : N) (block : StreamBlock) : M W unit :=
  match block with
  | Thinking _ _ | FinalText _ => apply_doc_delta (TranscriptBlockStart index block)
  | ToolCall id name input status =>
      started_at ← now;
      record_tool_call_started_at id started_at;;
      apply_doc_delta (ToolCallStarted id name input status (timestamp_string started_at))
  | ToolResult _ _ _ => mret tt
  end;;
  emit_stream_block_start_update index block.

(** The last block with the index. *)
Definition block_content (index : N) (entries : list PulseEntry) : option str :=
  find_map (fun e => match e with
                     | EAssistantBlock _ b => if block_index b =? index then Some (TaskDocument.content b) else None
                     | _ => None
                     end) (reverse entries).

Definition append_text_delta (index : N) (text : str) : M W str :=
  a ← gets active;
  match a ≫= (fun a => block_content index (at_entries a)) with
  | None => upsert_turn_block index (Thinking text false);; mret text
  | Some existing =>
      let delta := bounded_incremental_suffix existing text in
      if is_empty delta then mret []
      else
        apply_doc_delta (TranscriptBlockDelta index delta);;
        emit (UBlockDelta index delta);;
        mret delta
  end.

(** The first call with the identifier, and its position. *)
Fixpoint find_call (tool_call_id : str) (position : N) (entries : list PulseEntry) : option (N * (str * value)) :=
  match entries with
  | [] => None
  | EToolCall _ id name input _ :: r =>
      if str_eqb id tool_call_id then Some (position, (name, input)) else find_call tool_call_id (position + 1) r
  | _ :: r => find_call tool_call_id (position + 1) r
  end.

Definition set_tool_call_status (tool_call_id : str) (status : ToolStatus) : M W unit :=
  a ← gets active;
  match a ≫= (fun a => find_call tool_call_id 0 (at_entries a)) with
  | None => mret tt
  | Some (index, (name, input)) =>
      apply_doc_delta (ToolCallStatusUpdated tool_call_id status);;
      emit (UBlockStart index (ToolCall tool_call_id name input status))
  end.

(** The name of the last call with the identifier. *)
Definition called_name (tool_call_id : str) (entries : list PulseEntry) : option str :=
  find_map (fun e => match e with
                     | EToolCall _ id name _ _ => if str_eqb id tool_call_id then Some name else None
                     | _ => None
                     end) (reverse entries).

(** The block is a [ToolResult]. *)
Definition push_tool_result_block (tool_call_id output : str) (is_error : bool) : M W unit :=
  a ← gets active;
  let tool_name := a ≫= (fun a => called_name tool_call_id (at_entries a)) in
  completed_at ← now;
  signal ← tool_result_signal tool_call_id tool_name output is_error completed_at;
  apply_doc_delta signal;;
  a ← gets active;
  let index := match a with Some a => sat_sub (N.of_nat (length (at_entries a))) 1 | None => 0 end in
  emit (UBlockStart index (ToolResult tool_call_id output is_error));;
  emit (UBlockComplete index).

Definition promotable (e : PulseEntry) : option N :=
  match e with
  | EAssistantBlock _ b =>
      match phase b with
      | PhaseThinking => if collapsed b then None else Some (block_index b)
      | PhaseFinal => None
      end
  | _ => None
  end.

Definition promote_thinking_blocks_to_final_text : M W unit :=
  round_start ← gets current_round_entry_start;
  a ← gets active;
  match a with
  | None => mret tt
  | Some a =>
      entries ← unwind (if (round_start <=? length (at_entries a))%nat
                        then Returns (drop round_start (at_entries a)) else Panics);
      for_each (fun block_index =>
          apply_doc_delta (TranscriptBlockPhaseUpdated block_index PhaseFinal false);;
          emit (UBlockStart block_index (FinalText [])))
        (omap promotable entries)
  end.

(** ** Running a tool: tools/mod.rs *)
Definition request_tool_approval (name : str) (input : value) : M W bool :=
  if negb (has_channel s) then mret true
  else
    let request := mk_ToolApprovalRequest name (tool_input_preview name input) in
    emit (UToolApprovalRequest request);;
    in_world (answer_approval request).

(** The first of the keys that is there, if it is a string. *)
Definition primary_path (input : value) : str :=
  unwrap_or (find_map (fun key => value_get key input)
               [t!"path"; t!"file_path"; t!"file"; t!"filename"; t!"old_path"; t!"from"] ≫= as_str) [].

Definition expand_hook_arg (tool_name path arg : str) : str :=
  replace t!"{{path}}" path (replace t!"{{tool}}" tool_name arg).

(** What a failed hook does: [Some] is the error that ends the tool. *)
Definition on_fail (what : HookOnFail) (msg : str) : option str :=
  match what with OnFailAbort => Some msg | Warn | Ignore => None end.

Definition run_hook (tool_name : str) (input : value) (hook : HookConfig) : M W (option str) :=
  let args := map (expand_hook_arg tool_name (primary_path input)) (hk_args hook) in
  let approval_input := Object [(t!"command", String (hk_command hook)); (t!"args", Array (map String args));
                                (t!"tool", String tool_name)] in
  approved ← (if has_channel s then request_tool_approval t!"run_command" approval_input else mret false);
  if negb approved then mret None
  else
    result ← in_world (run_hook_command (hk_command hook) args);
    mret match result with
         | NotWrapped error => Some error
         | Exited code =>
             if (code =? 0)%Z then None
             else on_fail (hk_on_fail hook)
                    (t!"hook '" ++ hk_command hook ++ t!"' failed with exit code " ++ fmt_Z code)
         | NotStarted _ => on_fail (hk_on_fail hook) (t!"hook '" ++ hk_command hook ++ t!"' failed to call")
         end.

Definition run_http_hook (tool_name : str) (input : value) (hook : HttpHookConfig) : M W (option str) :=
  result ← in_world (post_hook hook tool_name (primary_path input));
  mret match result with
       | Answered true _ => None
       | Answered false status =>
           on_fail (hh_on_fail hook) (t!"http_hook '" ++ url hook ++ t!"' responded with status " ++ status)
       | TimedOut ms =>
           on_fail (hh_on_fail hook) (t!"http_hook '" ++ url hook ++ t!"' timed out after " ++ fmt_N ms ++ t!"ms")
       | NotSent error =>
           on_fail (hh_on_fail hook) (t!"http_hook '" ++ url hook ++ t!"' failed to send: " ++ error)
       end.

(** Hooks in order, until one ends the tool. *)
Fixpoint each_hook {A} (run : A -> M W (option str)) (hooks : list A) : M W (option str) :=
  match hooks with
  | [] => mret None
  | hook :: r =>
      error ← run hook;
      match error with Some e => mret (Some e) | None => each_hook run r end
  end.

Definition run_hooks (trigger : HookTrigger) (tool_name : str) (input : value) : M W (option str) :=
  each_hook (run_hook tool_name input)
    (List.filter (fun h => bool_decide (hk_trigger h = trigger) && str_eqb (hk_tool h) tool_name) (hooks s)).

Definition run_http_hooks (trigger : HookTrigger) (tool_name : str) (input : value) : M W (option str) :=
  match http_hooks s, http_client_error s with
  | [], _ => mret None
  | _, Some error => mret (Some error)
  | hooks, None =>
      each_hook (run_http_hook tool_name input)
        (List.filter (fun h => bool_decide (hh_trigger h = trigger) && str_eqb (hh_tool h) tool_name) hooks)
  end.

Definition all_hooks (trigger : HookTrigger) (tool_name : str) (input : value) : M W (option str) :=
  error ← run_hooks trigger tool_name input;
  match error with Some e => mret (Some e) | None => run_http_hooks trigger tool_name input end.

Definition refused_by_policy (name : str) : option str :=
  match tool_policy s with
  | Chat => Some t!"tool use is disabled in chat mode"
  | Plan => if is_readonly_tool name then None
            else Some (t!"tool '" ++ name ++ t!"' is not available in plan (read-only) mode")
  | Full => None
  end.

Definition execute_tool_with_timeout_with_updates (name : str) (input : value) : M W (str + str) :=
  let name := normalize_shell_tool_alias name in
  match refused_by_policy name with
  | Some error => mret (inr error)
  | None =>
      error ← all_hooks PreTool name input;
      match error with
      | Some e => mret (inr e)
      | None =>
          '(tool_result, sent) ← try_world (call_tool name input);
          for_each emit sent;;
          match tool_result with
          | inr e => mret (inr e)
          | inl output =>
              error ← all_hooks PostTool name input;
              mret match error with Some e => inr e | None => inl output end
          end
      end
  end.

(** ** A round of calls at once: core.rs *)
Record CompletedToolCall := mk_CompletedToolCall {
  ctc_id : str;
  ctc_name : str;
  ctc_input : value;
  ctc_result : str + str;
}.

Definition emit_server_metadata_update (metadata : StreamChunkMetadata) : M W unit :=
  match md_prompt_progress metadata, md_timings metadata with
  | None, None => mret tt
  | _, _ => emit (UServerMetadata metadata)
  end.

Definition tool_uses (blocks : list ContentBlock) : list (str * str * value) :=
  omap (fun b => match b with CToolUse id name input _ => Some (id, name, input) | _ => None end) blocks.

Fixpoint map_M {A B} (f : A -> M W B) (l : list A) : M W (list B) :=
  match l with [] => mret [] | x :: r => y ← f x; ys ← map_M f r; mret (y :: ys) end.

(** The prompt that refuses the call, if one does. *)
Definition location_or_read_only_prompt (user_input name : str) (input : value) : option str :=
  match missing_read_only_location_prompt name input with
  | Some p => Some p
  | None =>
      match missing_mutating_location_prompt name input with
      | Some p => Some p
      | None => mutating_tool_read_only_conflict_prompt (env s) user_input name
      end
  end.

(** The calls of a round that runs at once only read; they run in the order of their blocks. *)
Definition execute_parallel_tool_round (blocks : list ContentBlock) (original_user_input : str)
    (use_structured_blocks : bool) : M W (list CompletedToolCall) :=
  let calls := tool_uses blocks in
  (if use_structured_blocks then for_each (fun '(id, _, _) => set_tool_call_status id Executing) calls
   else mret tt);;
  undo_snapshots ←
    (if undo_enabled s then
       snapshots ← map_M (fun '(id, name, input) => c ← capture_undo_snapshot name input; mret (pair id <$> c)) calls;
       mret (list_to_map (reverse (omap id snapshots)) : gmap str UndoCheckpoint)
     else mret ∅);
  completed ← map_M (fun '(id, name, input) =>
      result ← match location_or_read_only_prompt original_user_input name input with
               | Some message => mret (inr message)
               | None => execute_tool_with_timeout_with_updates name input
               end;
      mret (mk_CompletedToolCall id name input result)) calls;
  foldl (fun (rest : M W (gmap str UndoCheckpoint)) call =>
      snapshots ← rest;
      match ctc_result call, snapshots !! ctc_id call with
      | inl _, Some cp => push_undo_checkpoint cp
      | _, _ => mret tt
      end;;
      mret (delete (ctc_id call) snapshots)) (mret undo_snapshots) completed;;
  mret completed.
End manager.
