(* ===== verification/ConversationTurn.v ===== *)
(** Answering a message: the rounds of requests to the model and of tool calls of
    [send_message_with_policy], src/state/conversation/send_message.rs.

    A stream that does not end is not modelled, and a caller that drops the future is, as a
    stop at the first wait.  The loop has fuel; [ConversationTheory] shows how much is enough. *)
From Stdlib Require Import NArith ZArith Lia.
From stdpp Require Import base list gmap strings numbers sets.
From S2P Require Import Prelude Text Collections Json Usage Evidence PeerChannel Envelope ToolPreview History FileSystem Workspace TaskDocument ToolRules ConversationState.
#[local] Open Scope N_scope.

(** ** The variables of the turn *)
Record TurnVars := mk_TurnVars {
  anchor_index : nat;
  rounds : N;
  forced_tool_retry_count : N;
  saw_any_tool_round : bool;
  previous_round_signature : option (list str);
  seen_read_only_signatures : gset (list str);
  repeated_read_only_rounds : N;
  repeated_mutating_rounds : N;
  repeated_round_nudge_used : bool;
  final_answer_attempted : bool;
  last_read_file_anchor : option (str * option N);
  last_assistant_text : str;
  turn_tokens : PulseTokens.t;
  overflow_retry_count : N;
  preserve_current_user_on_overflow : bool;
}.

Definition with_anchor_index (x : nat) (v : TurnVars) : TurnVars :=
  mk_TurnVars x (rounds v) (forced_tool_retry_count v) (saw_any_tool_round v) (previous_round_signature v)
    (seen_read_only_signatures v) (repeated_read_only_rounds v) (repeated_mutating_rounds v)
    (repeated_round_nudge_used v) (final_answer_attempted v) (last_read_file_anchor v) (last_assistant_text v)
    (turn_tokens v) (overflow_retry_count v) (preserve_current_user_on_overflow v).
Definition with_rounds (x : N) (v : TurnVars) : TurnVars :=
  mk_TurnVars (anchor_index v) x (forced_tool_retry_count v) (saw_any_tool_round v) (previous_round_signature v)
    (seen_read_only_signatures v) (repeated_read_only_rounds v) (repeated_mutating_rounds v)
    (repeated_round_nudge_used v) (final_answer_attempted v) (last_read_file_anchor v) (last_assistant_text v)
    (turn_tokens v) (overflow_retry_count v) (preserve_current_user_on_overflow v).
Definition with_forced_tool_retry_count (x : N) (v : TurnVars) : TurnVars :=
  mk_TurnVars (anchor_index v) (rounds v) x (saw_any_tool_round v) (previous_round_signature v)
    (seen_read_only_signatures v) (repeated_read_only_rounds v) (repeated_mutating_rounds v)
    (repeated_round_nudge_used v) (final_answer_attempted v) (last_read_file_anchor v) (last_assistant_text v)
    (turn_tokens v) (overflow_retry_count v) (preserve_current_user_on_overflow v).
Definition with_saw_any_tool_round (x : bool) (v : TurnVars) : TurnVars :=
  mk_TurnVars (anchor_index v) (rounds v) (forced_tool_retry_count v) x (previous_round_signature v)
    (seen_read_only_signatures v) (repeated_read_only_rounds v) (repeated_mutating_rounds v)
    (repeated_round_nudge_used v) (final_answer_attempted v) (last_read_file_anchor v) (last_assistant_text v)
    (turn_tokens v) (overflow_retry_count v) (preserve_current_user_on_overflow v).
Definition with_repeated_round_nudge_used (x : bool) (v : TurnVars) : TurnVars :=
  mk_TurnVars (anchor_index v) (rounds v) (forced_tool_retry_count v) (saw_any_tool_round v)
    (previous_round_signature v) (seen_read_only_signatures v) (repeated_read_only_rounds v)
    (repeated_mutating_rounds v) x (final_answer_attempted v) (last_read_file_anchor v) (last_assistant_text v)
    (turn_tokens v) (overflow_retry_count v) (preserve_current_user_on_overflow v).
Definition with_final_answer_attempted (x : bool) (v : TurnVars) : TurnVars :=
  mk_TurnVars (anchor_index v) (rounds v) (forced_tool_retry_count v) (saw_any_tool_round v)
    (previous_round_signature v) (seen_read_only_signatures v) (repeated_read_only_rounds v)
    (repeated_mutating_rounds v) (repeated_round_nudge_used v) x (last_read_file_anchor v) (last_assistant_text
    v) (turn_tokens v) (overflow_retry_count v) (preserve_current_user_on_overflow v).
Definition with_last_read_file_anchor (x : option (str * option N)) (v : TurnVars) : TurnVars :=
  mk_TurnVars (anchor_index v) (rounds v) (forced_tool_retry_count v) (saw_any_tool_round v)
    (previous_round_signature v) (seen_read_only_signatures v) (repeated_read_only_rounds v)
    (repeated_mutating_rounds v) (repeated_round_nudge_used v) (final_answer_attempted v) x
    (last_assistant_text v) (turn_tokens v) (overflow_retry_count v) (preserve_current_user_on_overflow v).
Definition with_last_assistant_text (x : str) (v : TurnVars) : TurnVars :=
  mk_TurnVars (anchor_index v) (rounds v) (forced_tool_retry_count v) (saw_any_tool_round v)
    (previous_round_signature v) (seen_read_only_signatures v) (repeated_read_only_rounds v)
    (repeated_mutating_rounds v) (repeated_round_nudge_used v) (final_answer_attempted v)
    (last_read_file_anchor v) x (turn_tokens v) (overflow_retry_count v) (preserve_current_user_on_overflow v).
Definition with_turn_tokens (x : PulseTokens.t) (v : TurnVars) : TurnVars :=
  mk_TurnVars (anchor_index v) (rounds v) (forced_tool_retry_count v) (saw_any_tool_round v)
    (previous_round_signature v) (seen_read_only_signatures v) (repeated_read_only_rounds v)
    (repeated_mutating_rounds v) (repeated_round_nudge_used v) (final_answer_attempted v)
    (last_read_file_anchor v) (last_assistant_text v) x (overflow_retry_count v)
    (preserve_current_user_on_overflow v).
Definition with_overflow_retry_count (x : N) (v : TurnVars) : TurnVars :=
  mk_TurnVars (anchor_index v) (rounds v) (forced_tool_retry_count v) (saw_any_tool_round v)
    (previous_round_signature v) (seen_read_only_signatures v) (repeated_read_only_rounds v)
    (repeated_mutating_rounds v) (repeated_round_nudge_used v) (final_answer_attempted v)
    (last_read_file_anchor v) (last_assistant_text v) (turn_tokens v) x (preserve_current_user_on_overflow v).
Definition with_preserve_current_user_on_overflow (x : bool) (v : TurnVars) : TurnVars :=
  mk_TurnVars (anchor_index v) (rounds v) (forced_tool_retry_count v) (saw_any_tool_round v)
    (previous_round_signature v) (seen_read_only_signatures v) (repeated_read_only_rounds v)
    (repeated_mutating_rounds v) (repeated_round_nudge_used v) (final_answer_attempted v)
    (last_read_file_anchor v) (last_assistant_text v) (turn_tokens v) (overflow_retry_count v) x.

(** What the guards against repetition count. *)
Definition with_repeats (previous : option (list str)) (seen : gset (list str)) (read_only mutating : N)
    (v : TurnVars) : TurnVars :=
  mk_TurnVars (anchor_index v) (rounds v) (forced_tool_retry_count v) (saw_any_tool_round v) previous seen
    read_only mutating (repeated_round_nudge_used v) (final_answer_attempted v) (last_read_file_anchor v)
    (last_assistant_text v) (turn_tokens v) (overflow_retry_count v) (preserve_current_user_on_overflow v).

(** What the loop goes on with, or returns. *)
Inductive Step : Type :=
| Continue (v : TurnVars)
| Done (result : str + str).

(** *** The variables of one stream *)
Record RoundVars := mk_RoundVars {
  assistant_text : str;
  tool_use_blocks : list ContentBlock;
  tool_use_positions : gmap str nat;
  pending_tool_block_indices : list N;
  tool_block_indices : gmap str N;
  block_tool_call_ids : gmap N str;
  completed_tool_call_ids : gset str;
  saw_usage_update : bool;
  saw_native_tool_call_block : bool;
  round_tokens : PulseTokens.t;
}.
Definition round_start (tokens : PulseTokens.t) : RoundVars := mk_RoundVars [] [] ∅ [] ∅ ∅ ∅ false false tokens.

Definition add_assistant_text (text : str) (r : RoundVars) : RoundVars :=
  mk_RoundVars (assistant_text r ++ text) (tool_use_blocks r) (tool_use_positions r) (pending_tool_block_indices r)
    (tool_block_indices r) (block_tool_call_ids r) (completed_tool_call_ids r) (saw_usage_update r)
    (saw_native_tool_call_block r) (round_tokens r).
Definition with_tool_uses (blocks : list ContentBlock) (positions : gmap str nat) (r : RoundVars) : RoundVars :=
  mk_RoundVars (assistant_text r) blocks positions (pending_tool_block_indices r)
    (tool_block_indices r) (block_tool_call_ids r) (completed_tool_call_ids r) (saw_usage_update r)
    (saw_native_tool_call_block r) (round_tokens r).
Definition with_block_indices (pending : list N) (indices : gmap str N) (ids : gmap N str) (native : bool)
    (r : RoundVars) : RoundVars :=
  mk_RoundVars (assistant_text r) (tool_use_blocks r) (tool_use_positions r) pending indices ids
    (completed_tool_call_ids r) (saw_usage_update r) native (round_tokens r).
Definition call_completed (id : str) (r : RoundVars) : RoundVars :=
  mk_RoundVars (assistant_text r) (tool_use_blocks r) (tool_use_positions r) (pending_tool_block_indices r)
    (tool_block_indices r) (block_tool_call_ids r) ({[id]} ∪ completed_tool_call_ids r) (saw_usage_update r)
    (saw_native_tool_call_block r) (round_tokens r).
Definition with_usage (saw : bool) (tokens : PulseTokens.t) (r : RoundVars) : RoundVars :=
  mk_RoundVars (assistant_text r) (tool_use_blocks r) (tool_use_positions r) (pending_tool_block_indices r)
    (tool_block_indices r) (block_tool_call_ids r) (completed_tool_call_ids r) saw
    (saw_native_tool_call_block r) tokens.

Definition accumulate_usage_envelope (t : PulseTokens.t) (usage : option TokenUsageEnvelope) : PulseTokens.t :=
  match usage with
  | None => t
  | Some u => {|
      PulseTokens.input := sat_add u64_max (PulseTokens.input t) (tu_input u);
      PulseTokens.output := sat_add u64_max (PulseTokens.output t) (tu_output u);
      PulseTokens.estimated := PulseTokens.estimated t || tu_estimated u;
      PulseTokens.cache_creation_input_tokens :=
        sat_add u64_max (PulseTokens.cache_creation_input_tokens t) (tu_cache_creation_input u);
      PulseTokens.cache_read_input_tokens :=
        sat_add u64_max (PulseTokens.cache_read_input_tokens t) (tu_cache_read_input u) |}
  end.

(** A call of the model, new or again. *)
Definition note_tool_use (id name : str) (arguments : value) (r : RoundVars) : RoundVars :=
  let block := CToolUse id name arguments None in
  match tool_use_positions r !! id with
  | Some position => with_tool_uses (<[position := block]> (tool_use_blocks r)) (tool_use_positions r) r
  | None =>
      with_tool_uses (tool_use_blocks r ++ [block])
        (<[id := length (tool_use_blocks r)]> (tool_use_positions r)) r
  end.

(** The block takes the new name and the new arguments that are there. *)
Definition renew_tool_use (name : option str) (arguments : option value) (block : ContentBlock) : ContentBlock :=
  match block with
  | CToolUse id old_name input metadata => CToolUse id (unwrap_or name old_name) (unwrap_or arguments input) metadata
  | b => b
  end.
Definition note_arguments (id : str) (name : option str) (arguments : option value) (r : RoundVars) : RoundVars :=
  match tool_use_positions r !! id with
  | Some position =>
      with_tool_uses (alter (renew_tool_use name arguments) position (tool_use_blocks r)) (tool_use_positions r) r
  | None => r
  end.

Definition tagged_id (id : str) : bool := starts_with t!"toolu_tagged_" id.

(** The calls that were not already answered in the stream. *)
Definition open_tool_uses (r : RoundVars) : list ContentBlock :=
  List.filter (fun b => match b with
                        | CToolUse id _ _ _ => bool_decide (id ∉ completed_tool_call_ids r)
                        | _ => true
                        end) (tool_use_blocks r).

(** What is written of an answered call: a block, or a text. *)
Abbreviation Answers := (list ContentBlock * list str)%type.

Section turn.
Context {W : Type} `{Surroundings W} {clock : Clock} {chrono : Chrono}.
Context {js : SerdeJson} {pretty : PrettyJson} {diff : LineDiff} {hash : ContentHash}.
Variable s : Settings.

(** ** The stream of one request *)
Definition handle_signal (signal : RuntimeSignal) (r : RoundVars) : M W RoundVars :=
  match signal with
  | PulseStart _ => mret r
  | TranscriptLine line => apply_doc_delta signal;; emit s (UTranscriptLine line);; mret r
  | TranscriptBlockStart index block =>
      match block with
      | Thinking _ _ | FinalText _ => upsert_turn_block s index block;; mret r
      | ToolCall id _ _ _ =>
          mret (with_block_indices (pending_tool_block_indices r ++ [index]) (tool_block_indices r)
                  (block_tool_call_ids r) (saw_native_tool_call_block r || negb (tagged_id id)) r)
      | ToolResult _ _ _ => emit_stream_block_start_update s index block;; mret r
      end
  | TranscriptBlockDelta index delta =>
      if bool_decide (is_Some (block_tool_call_ids r !! index)) then mret r
      else appended ← append_text_delta s index delta; mret (add_assistant_text appended r)
  | TranscriptBlockComplete index =>
      (if bool_decide (is_Some (block_tool_call_ids r !! index)) then mret tt else apply_doc_delta signal);;
      emit s (UBlockComplete index);; mret r
  | TranscriptBlockPhaseUpdated _ _ _ | ToolCallStatusUpdated _ _ | ApprovalRequest _ _ _
  | ApprovalResolved _ _ _ | SValidationResult _ _ | MaxTurnsReached _ => apply_doc_delta signal;; mret r
  | ToolCallStarted id name arguments _ started_at =>
      match parse_from_rfc3339 started_at with
      | Some t => record_tool_call_started_at id t
      | None => mret tt
      end;;
      r ← match pending_tool_block_indices r with
          | [] => mret r
          | index :: pending =>
              emit_stream_block_start_update s index (ToolCall id name arguments Envelope.Pending);;
              mret (with_block_indices pending (<[id := index]> (tool_block_indices r))
                      (<[index := id]> (block_tool_call_ids r)) (saw_native_tool_call_block r) r)
          end;
      apply_doc_delta signal;;
      mret (note_tool_use id name arguments r)
  | ToolCallArgumentsDelta id name delta _ arguments _ =>
      match tool_block_indices r !! id with Some index => emit s (UBlockDelta index delta) | None => mret tt end;;
      match arguments with
      | Some arguments => emit s (UToolCallArgumentsUpdated id name arguments)
      | None => mret tt
      end;;
      apply_doc_delta signal;;
      mret (note_arguments id name arguments r)
  | ToolCallCompleted id _ _ _ _ _ output =>
      apply_doc_delta signal;; push_tool_result_block s id output false;; mret (call_completed id r)
  | ToolCallFailed id _ _ _ _ _ output =>
      apply_doc_delta signal;; push_tool_result_block s id output true;; mret (call_completed id r)
  | ServerMetadata metadata => emit_server_metadata_update s metadata;; apply_doc_delta signal;; mret r
  | UsageUpdated usage => mret (with_usage true (accumulate_usage_envelope (round_tokens r) (Some usage)) r)
  | PulseEnd _ usage _ =>
      mret (if saw_usage_update r then r
            else with_usage false (accumulate_usage_envelope (round_tokens r) usage) r)
  | SError code message _ =>
      emit s (UStreamError (t!"stream error (" ++ code ++ t!"): " ++ message));; mret r
  end.

(** [while let Some(signal_outcome) = stream.next().await]: the variables at the end, or at the
    error that ends the stream. *)
Fixpoint drain (stream : list (RuntimeSignal + str)) (r : RoundVars) : M W (RoundVars + str * RoundVars) :=
  match stream with
  | [] => mret (inl r)
  | inr error :: _ => mret (inr (error, r))
  | inl signal :: rest => r ← handle_signal signal r; drain rest r
  end.

(** ** The steps of a round *)
Definition guard_line (msg : str) : M W unit :=
  match List.find (starts_with loop_guard_mark) (lines msg) with
  | Some line => emit s (UTranscriptLine line)
  | None => mret tt
  end.

Definition stop_with (msg : str) (o : PulseOutcome) (tokens : PulseTokens.t) : M W Step :=
  guard_line msg;; finish_turn_doc o tokens;; mret (Done (inl msg)).
(** [self.finish_turn_doc(PulseOutcome::Completed, self.last_turn_tokens)]. *)
Definition stop_completed (msg : str) : M W Step :=
  tokens ← gets last_turn_tokens; stop_with msg OutcomeCompleted tokens.

Definition tell_model (text : str) : M W unit := push_message (user_text text None).

Definition begin_round (limits : HistoryLimits) (max_tool_rounds : N) (v : TurnVars) : M W Step :=
  advance_round_start;;
  index ← on_conv (prune_message_history_preserving (N.to_nat (max_api_messages limits)) (anchor_index v));
  let v := with_rounds (rounds v + 1) (with_anchor_index index v) in
  if rounds v <=? max_tool_rounds then mret (Continue v)
  else if negb (final_answer_attempted v) then
    tell_model FINAL_ANSWER_INSTRUCTION;; mret (Continue (with_final_answer_attempted true v))
  else
    stop_with (render_loop_limit_guard_message (last_assistant_text v) max_tool_rounds)
      OutcomeMaxTurnsReached PulseTokens.default.

Definition ARROW : str := [SPACE; 8594; SPACE].
Definition overflow_summary (before after keep : nat) : str :=
  t!"compacted " ++ fmt_N (N.of_nat before) ++ ARROW ++ fmt_N (N.of_nat after)
  ++ t!" messages to fit server window (keep " ++ fmt_N (N.of_nat keep) ++ t!")".

(** The request did not fit: fewer messages, and again. *)
Definition retry_after_overflow (v : TurnVars) : M W TurnVars :=
  let keep_messages := match overflow_retry_count v with 0 => 4%nat | 1 => 2%nat | _ => 1%nat end in
  before ← gets (fun m => length (api_messages (conv m)));
  index ← (if preserve_current_user_on_overflow v
           then on_conv (compact_for_context_overflow_preserving keep_messages (anchor_index v))
           else on_conv (compact_for_context_overflow_preserving keep_messages before);; mret (anchor_index v));
  after ← gets (fun m => length (api_messages (conv m)));
  emit s (UContextCompacted (N.of_nat before) (N.of_nat after) (overflow_summary before after keep_messages));;
  mret (with_rounds (rounds v - 1) (with_overflow_retry_count (overflow_retry_count v + 1)
          (with_anchor_index index v))).

(** The stream and the variables, or the end of the iteration. *)
Definition request_stream (v : TurnVars) : M W (list (RuntimeSignal + str) * TurnVars + Step) :=
  messages ← gets (fun m => api_messages (conv m));
  answer ← try_world (create_stream messages);
  match answer with
  | inl stream => mret (inl (stream, with_overflow_retry_count 0 v))
  | inr error =>
      if (overflow_retry_count v <? 3) && is_context_overflow error then
        v ← retry_after_overflow v; mret (inr (Continue v))
      else
        finish_turn_doc (OutcomeFailed error) (turn_tokens v);; mret (inr (Done (inr error)))
  end.

(** *** Guards against repetition *)
Definition has_empty_path_call (blocks : list ContentBlock) : bool :=
  existsb (fun '(_, name, input) =>
      str_in name [t!"read_file"; t!"list_files"] && opt_is_some (missing_read_only_location_prompt name input))
    (tool_uses blocks).

Definition note_repeats (blocks : list ContentBlock) (v : TurnVars) : TurnVars :=
  let current_signature := tool_round_signature blocks in
  let repeated_signature := bool_decide (previous_round_signature v = Some current_signature) in
  let seen := seen_read_only_signatures v in
  let '(seen, read_only) :=
    if is_read_only_tool_round blocks then
      ({[current_signature]} ∪ seen,
       if bool_decide (current_signature ∈ seen) then repeated_read_only_rounds v + 1 else 0)
    else (seen, 0) in
  let mutating :=
    if is_mutating_tool_round blocks && repeated_signature then repeated_mutating_rounds v + 1 else 0 in
  with_repeats (Some current_signature) seen read_only mutating v.

(** The variables and whether the model is told that it repeats itself, or the end. *)
Definition guard_repeats (is_local : bool) (max_tool_rounds : N) (text : str) (blocks : list ContentBlock)
    (v : TurnVars) : M W (TurnVars * bool + Step) :=
  match blocks with
  | [] => mret (inl (with_repeats None (seen_read_only_signatures v) 0 0 v, false))
  | _ =>
      let v := note_repeats blocks (with_saw_any_tool_round true v) in
      if 1 <=? repeated_mutating_rounds v then
        stop ← stop_completed (render_repeated_mutating_tool_guard_message text); mret (inr stop)
      else
        let empty_path := has_empty_path_call blocks in
        let repeat_threshold := if empty_path || is_local then 1 else 2 in
        if repeat_threshold <=? repeated_read_only_rounds v then
          if negb (repeated_round_nudge_used v) && (rounds v <? max_tool_rounds) && negb empty_path
          then mret (inl (with_repeated_round_nudge_used true v, true))
          else stop ← stop_completed (render_repeated_tool_guard_message text); mret (inr stop)
        else mret (inl (v, false))
  end.

(** *** The answer of the model, written into the history *)
Definition assistant_history_source (structured : bool) (text : str) (blocks : list ContentBlock) : str :=
  match blocks with
  | [] => text
  | _ =>
      if negb structured then
        let rendered_tool_calls := render_tool_calls_for_history blocks in
        if is_empty text then rendered_tool_calls else text ++ [LF] ++ rendered_tool_calls
      else if is_empty text then render_tool_calls_for_text_protocol blocks
      else text
  end.

Definition assistant_content (limits : HistoryLimits) (structured : bool) (text : str) (blocks : list ContentBlock)
    : Content :=
  let limit := N.to_nat (max_assistant_history_chars limits) in
  if structured then
    Blocks ((if is_empty text then [] else [CText (truncate_for_history text limit) None]) ++ blocks)
  else TextContent (truncate_for_history (assistant_history_source structured text blocks) limit).

(** *** The calls *)
Definition tool_error_text (name text : str) : str := t!"tool_error " ++ name ++ t!":" ++ [LF] ++ text.
Definition tool_result_text (name text : str) : str := t!"tool_result " ++ name ++ t!":" ++ [LF] ++ text.

Definition emit_tool_error (structured : bool) (limit : nat) (id name clarification : str) : M W Answers :=
  emit s (UDelta clarification);;
  mret (if structured then ([CToolResult id (truncate_for_history clarification limit) true], [])
        else ([], [truncate_for_history (tool_error_text name clarification) limit])).

Definition answer_call (structured : bool) (limit : nat) (id name : str) (input : value) (result : str + str)
    : M W Answers :=
  let is_error := match result with inl _ => false | inr _ => true end in
  set_tool_call_status s id (if is_error then Envelope.Error else Complete);;
  push_tool_result_block s id (match result with inl t | inr t => t end) is_error;;
  formatted ← on_conv (format_tool_result_for_history name input result);
  let history_content := truncate_for_history formatted limit in
  mret (if structured then ([CToolResult id history_content is_error], [])
        else ([], [truncate_for_history
                     (if is_error then tool_error_text name history_content else tool_result_text name history_content)
                     limit])).

(** The path and the offset of a file that was read. *)
Definition read_anchor (name : str) (input : value) (result : str + str) (old : option (str * option N))
    : option (str * option N) :=
  match result, value_get t!"path" input ≫= as_str with
  | inl _, Some p => if str_eqb name t!"read_file" then Some (p, value_get t!"offset" input ≫= as_u64) else old
  | _, _ => old
  end.

Definition recent_read_hint (name : str) (anchor : option (str * option N)) : str :=
  match anchor with
  | Some (last_path, last_offset) =>
      if str_eqb name t!"read_file" then
        t!" You were most recently reading '" ++ last_path ++ t!"'"
        ++ match last_offset with Some off => t!" at offset " ++ fmt_N off | None => [] end
        ++ [SPACE; 8212; SPACE] ++ t!"specify that path to continue."
      else []
  | None => []
  end.

(** The prompt that refuses a call, if one does. *)
Definition refusal (user_input : str) (policy : PulseToolPolicy) (anchor : option (str * option N)) (name : str)
    (input : value) : option str :=
  match missing_read_only_location_prompt name input with
  | Some clarification => Some (clarification ++ recent_read_hint name anchor)
  | None =>
      match missing_mutating_location_prompt name input with
      | Some clarification => Some clarification
      | None =>
          match mutating_tool_read_only_conflict_prompt (env s) user_input name with
          | Some guard => Some guard
          | None => tests_only_mutation_conflict_prompt policy name input
          end
      end
  end.

(** A call that is not run. *)
Definition refuse (structured : bool) (limit : nat) (id name text : str) : M W Answers :=
  push_tool_result_block s id text true;; emit_tool_error structured limit id name text.

Definition run_one_call (user_input : str) (policy : PulseToolPolicy) (require_tool_approval structured : bool)
    (limit : nat) (anchor : option (str * option N)) (id name : str) (input : value)
    : M W (option (str * option N) * Answers) :=
  match refusal user_input policy anchor name input with
  | Some text =>
      set_tool_call_status s id Cancelled;;
      a ← refuse structured limit id name text; mret (anchor, a)
  | None =>
      approved ← (if require_tool_approval || tool_requires_confirmation name then
                    set_tool_call_status s id WaitingApproval;;
                    request_tool_approval s name input
                  else mret true);
      set_tool_call_status s id (if approved : bool then Executing else Cancelled);;
      if negb approved then
        a ← refuse structured limit id name (render_tool_denied_message name); mret (anchor, a)
      else
        undo_snapshot ← capture_undo_snapshot s name input;
        result ← execute_tool_with_timeout_with_updates s name input;
        match result, undo_snapshot with
        | inl _, Some cp => push_undo_checkpoint s cp
        | _, _ => mret tt
        end;;
        a ← answer_call structured limit id name input result;
        mret (read_anchor name input result anchor, a)
  end.

Definition add_answers (a b : Answers) : Answers := (a.1 ++ b.1, a.2 ++ b.2).

Fixpoint run_calls (user_input : str) (policy : PulseToolPolicy) (require_tool_approval structured : bool)
    (limit : nat) (calls : list (str * str * value)) (anchor : option (str * option N)) (answers : Answers)
    : M W (option (str * option N) * Answers) :=
  match calls with
  | [] => mret (anchor, answers)
  | (id, name, input) :: rest =>
      '(anchor, a) ← run_one_call user_input policy require_tool_approval structured limit anchor id name input;
      run_calls user_input policy require_tool_approval structured limit rest anchor (add_answers answers a)
  end.

Fixpoint answer_completed (structured : bool) (limit : nat) (completed : list CompletedToolCall)
    (anchor : option (str * option N)) (answers : Answers) : M W (option (str * option N) * Answers) :=
  match completed with
  | [] => mret (anchor, answers)
  | c :: rest =>
      a ← answer_call structured limit (ctc_id c) (ctc_name c) (ctc_input c) (ctc_result c);
      answer_completed structured limit rest (read_anchor (ctc_name c) (ctc_input c) (ctc_result c) anchor)
        (add_answers answers a)
  end.

Definition run_tool_round (user_input : str) (policy : PulseToolPolicy) (require_tool_approval structured : bool)
    (limit : nat) (blocks : list ContentBlock) (anchor : option (str * option N))
    : M W (option (str * option N) * Answers) :=
  if should_parallelize_tool_round blocks require_tool_approval then
    completed ← execute_parallel_tool_round s blocks user_input true;
    answer_completed structured limit completed anchor ([], [])
  else run_calls user_input policy require_tool_approval structured limit (tool_uses blocks) anchor ([], []).

(** *** A round *)
(** What is fixed for the rounds of a message. *)
Record TurnPlan := mk_TurnPlan {
  user_input : str;
  turn_tool_policy : PulseToolPolicy;
  requires_tool_evidence : bool;
  limits : HistoryLimits;
  max_tool_rounds : N;
  require_tool_approval : bool;
}.

(** There is no call to run: the answer, or a request to use the tools. *)
Definition answer_without_calls (plan : TurnPlan) (is_local : bool) (text : str) (v : TurnVars) : M W Step :=
  let no_evidence := is_local && requires_tool_evidence plan && negb (saw_any_tool_round v) in
  if no_evidence && (forced_tool_retry_count v <? 2) && (rounds v <? max_tool_rounds plan) then
    tell_model TOOL_RETRY_INSTRUCTION;;
    mret (Continue (with_forced_tool_retry_count (forced_tool_retry_count v + 1) v))
  else if no_evidence then stop_completed (render_missing_tool_evidence_guard_message text)
  else
    promote_thinking_blocks_to_final_text s;;
    modify (set_last_turn_tokens (turn_tokens v));;
    finish_turn_doc OutcomeCompleted (turn_tokens v);;
    mret (Done (inl text)).

(** The calls are run and their answers told to the model. *)
Definition answer_calls (plan : TurnPlan) (structured : bool) (blocks : list ContentBlock) (v : TurnVars) : M W Step :=
  '(anchor, answers) ← run_tool_round (user_input plan) (turn_tool_policy plan) (require_tool_approval plan) structured
                         (N.to_nat (max_tool_result_history_chars (limits plan))) blocks (last_read_file_anchor v);
  push_message (mk_ApiMessage USER
    (if structured then Blocks answers.1 else TextContent (join [LF; LF] answers.2)) None);;
  mret (Continue (with_last_read_file_anchor anchor v)).

(** The round after its stream has ended. *)
Definition close_round (plan : TurnPlan) (v : TurnVars) (r : RoundVars) : M W Step :=
  is_local ← gets (fun m => is_local_endpoint (conv m));
  let blocks := open_tool_uses r in
  let text := assistant_text r in
  let structured := supports_structured_tool_protocol s && (negb is_local || saw_native_tool_call_block r) in
  guarded ← guard_repeats is_local (max_tool_rounds plan) text blocks (with_turn_tokens (round_tokens r) v);
  match guarded with
  | inr stop => mret stop
  | inl (v, nudge) =>
      push_message (assistant_message (assistant_content (limits plan) structured text blocks));;
      let v := with_last_assistant_text text v in
      if nudge : bool then tell_model REPEATED_TOOL_ROUND_INSTRUCTION;; mret (Continue v)
      else
        match blocks with
        | [] => answer_without_calls plan is_local text v
        | _ => answer_calls plan structured blocks v
        end
  end.

Definition turn_round (plan : TurnPlan) (v : TurnVars) : M W Step :=
  step ← begin_round (limits plan) (max_tool_rounds plan) v;
  match step with
  | Done result => mret (Done result)
  | Continue v =>
      opened ← request_stream v;
      match opened with
      | inr step => mret step
      | inl (stream, v) =>
          drained ← drain stream (round_start (turn_tokens v));
          match drained with
          | inr (error, r) =>
              finish_turn_doc (OutcomeFailed error) (round_tokens r);; mret (Done (inr error))
          | inl r => close_round plan v r
          end
      end
  end.

(** The loop; [None] when the fuel is used up. *)
Fixpoint turn_loop (fuel : nat) (plan : TurnPlan) (v : TurnVars) : M W (option (str + str)) :=
  match fuel with
  | O => mret None
  | S fuel =>
      step ← turn_round plan v;
      match step with
      | Done result => mret (Some result)
      | Continue v => turn_loop fuel plan v
      end
  end.

(** ** The message *)
Definition make_plan (content : str) (policy : PulseToolPolicy) (is_local : bool) : TurnPlan :=
  mk_TurnPlan content policy (request_requires_tool_evidence content) (resolve_history_limits (env s) is_local)
    (resolve_max_tool_rounds (env s) is_local) (tool_approval_enabled (env s) is_local).

Definition first_vars (anchor : nat) (preserve : bool) : TurnVars :=
  mk_TurnVars anchor 0 0 false None ∅ 0 0 false false None [] PulseTokens.default 0 preserve.

Definition proactive_summary (before after : nat) : str :=
  fmt_N (N.of_nat before) ++ ARROW ++ fmt_N (N.of_nat after) ++ t!" messages (proactive)".

(** What is done before the first request: the answer, if none is needed, or the variables. *)
Definition open_message (content : str) (policy : PulseToolPolicy) (shared_prefix_context : option str)
    : M W (str + TurnPlan * TurnVars) :=
  modify (set_last_turn_tokens PulseTokens.default);;
  in_world (fun w => (tt, clear_ledger w));;
  ensure_task_doc s;;
  begin_turn_doc content policy;;
  push_user_message content (shared_prefix_cache_hint s shared_prefix_context);;
  match builtin_supported_git_tools_response content with
  | Some response =>
      push_message (assistant_message (TextContent response));;
      emit s (UDelta response);;
      finish_turn_doc OutcomeCompleted PulseTokens.default;;
      mret (inl response)
  | None =>
      anchor ← gets (fun m => (length (api_messages (conv m)) - 1)%nat);
      is_local ← gets (fun m => is_local_endpoint (conv m));
      let plan := make_plan content policy is_local in
      on_conv (fun c => (tt, condense_old_tool_results (N.to_nat (resolve_history_keep_turns (env s))) c));;
      compacted ← on_conv (run_proactive_compaction (context_window_tokens s) (requires_tool_evidence plan));
      match compacted with
      | Some (before, after, _) =>
          emit s (UContextCompacted (N.of_nat before) (N.of_nat after) (proactive_summary before after));;
          mret (inr (plan, first_vars anchor true))
      | None => mret (inr (plan, first_vars anchor false))
      end
  end.

(** Enough for [max_tool_rounds] rounds with three retries each. *)
Definition turn_fuel (plan : TurnPlan) : nat := (4 * N.to_nat (max_tool_rounds plan) + 12)%nat.

Definition send_message_with_policy (content : str) (policy : PulseToolPolicy) (shared_prefix_context : option str)
    : M W (option (str + str)) :=
  opened ← open_message content policy shared_prefix_context;
  match opened with
  | inl response => mret (Some (inl response))
  | inr (plan, v) => turn_loop (turn_fuel plan) plan v
  end.

Definition send_message (content : str) : M W (option (str + str)) :=
  send_message_with_policy content DefaultPolicy None.
End turn.

(** ** A script to evaluate messages with: what the model streams and what the user answers *)
(** Every tool succeeds. *)
Record Script := mk_Script {
  script_streams : list (list (RuntimeSignal + str) + str);
  script_answers : list bool;
}.
Definition scripted : Surroundings Script := {|
  create_stream _ w :=
    match script_streams w with
    | answer :: rest => Returns (answer, mk_Script rest (script_answers w))
    | [] => Returns (inl [], w)
    end;
  answer_approval _ w :=
    match script_answers w with
    | answer :: rest => (answer, mk_Script (script_streams w) rest)
    | [] => (false, w)
    end;
  run_hook_command _ _ w := (Exited 0, w);
  post_hook _ _ _ w := (Answered true t!"200 OK", w);
  call_tool name _ w := Returns (inl (t!"done: " ++ name), [], w);
  read_bytes _ w := (None, w);
  clear_ledger w := w;
  new_uuid w := (t!"task-1", w);
|}.
Definition plain_chrono : Chrono := {| parse_from_rfc3339 _ := None; timestamp_millis t := t |}.
Definition plain_pretty : PrettyJson := fun _ => None.
Definition plain_hash : ContentHash := fun t => N.of_nat (length t).
Definition plain_diff : LineDiff := fun _ _ _ => [].

Definition sample_settings (structured channel : bool) : Settings :=
  mk_Settings (fun _ => None) structured 100000 Full t!"model" (fun _ => None) [] [] [] None channel 8 false.
Definition sample_config : CompactionConfig := mk_CompactionConfig false 80 2 300.
Definition sample_manager {W} (w : W) : ConversationManager W :=
  mk_Manager (mk_Conversation [] cache_new sample_config false) None 0 0 ∅ PulseTokens.default [] [] 0 w.

(** The signals of one call, and of an answer. *)
Definition call_signals (id name : str) (input : value) : list (RuntimeSignal + str) :=
  map inl [TranscriptBlockStart 0 (ToolCall id name (Object []) Envelope.Pending);
           ToolCallStarted id name input Envelope.Pending t!"now"; TranscriptBlockComplete 0].
Definition text_signals (text : str) : list (RuntimeSignal + str) :=
  map inl [TranscriptBlockStart 0 (Thinking [] false); TranscriptBlockDelta 0 text; TranscriptBlockComplete 0].

(** A file is written, and the model says so. *)
Definition sample_write : value := Object [(t!"path", String t!"a.txt"); (t!"content", String t!"x")].
Definition sample_script : Script :=
  mk_Script [inl (call_signals t!"c1" t!"write_file" sample_write); inl (text_signals t!"Written.")] [true].
