(* ===== verification/ConversationTheory.v ===== *)
(** A message is answered: the loop ends, the document has one turn more, no call is run that
    was not allowed, and only a stream or a tool that panics makes it panic.

    The operations of the manager are composed of few that change it.  [respects R] says that an
    operation returns and relates the managers before and after by a preorder; it is shown once
    for every operation, from what the relation holds of the few. *)
From Stdlib Require Import NArith ZArith Lia.
From stdpp Require Import base list gmap strings numbers sets.
From S2P Require Import Prelude Text Collections Json Usage Evidence PeerChannel Envelope ToolPreview History FileSystem Workspace TaskDocument TaskDocumentTheory ToolRules ConversationState ConversationTurn.
#[local] Open Scope N_scope.

Lemma for_each_app {S A} (f : A -> PST S unit) l k st : for_each f (l ++ k) st = (for_each f l;; for_each f k) st.
Proof.
  revert st. induction l as [|x l IH]; intros st; [done|]. cbn [app for_each]. unfold mbind, pst_bind.
  destruct (f x st) as [[[] st']|]; [|done]. rewrite IH. unfold mbind, pst_bind. done.
Qed.

(** Runs the operations of the monad. *)
Ltac run :=
  unfold gets, modify, unwind, on_conv, in_world, try_world, now_ms, now, lift, st_gets, st_modify;
  repeat (unfold mbind, pst_bind, mret, pst_ret, fmap, outcome_fmap; cbn beta iota).

(** ** Operations that return *)
Section respects.
Context {W : Type}.
Notation Mgr := (ConversationManager W).
Variable s : Settings.

(** The slice of [promote_thinking_blocks_to_final_text] is in range. *)
Definition sane (m : Mgr) : Prop :=
  forall a, active m = Some a -> (current_round_entry_start m <= length (at_entries a))%nat.

Variable R : Mgr -> Mgr -> Prop.
Context `{!PreOrder R}.

Definition respects {A} (op : M W A) : Prop :=
  forall m, sane m -> exists a m', op m = Returns (a, m') /\ sane m' /\ R m m'.

Lemma respects_ret {A} (a : A) : respects (mret a).
Proof. intros m Hm. by exists a, m. Qed.

Lemma respects_bind {A B} (op : M W A) (f : A -> M W B) :
  respects op -> (forall a, respects (f a)) -> respects (op ≫= f).
Proof.
  intros Hop Hf m Hm. destruct (Hop m Hm) as (a & m1 & E1 & Hm1 & HR1). destruct (Hf a m1 Hm1) as (b & m2 & E2 & Hm2 & HR2).
  exists b, m2. rewrite (pst_bind_returns _ _ _ _ _ E1), E2. split; [done|]. split; [done|]. by etransitivity.
Qed.

Lemma respects_gets {A} (f : Mgr -> A) : respects (gets f).
Proof. intros m Hm. by exists (f m), m. Qed.

Lemma respects_for_each {A} (f : A -> M W unit) l : (forall x, x ∈ l -> respects (f x)) -> respects (for_each f l).
Proof.
  induction l as [|x l IH]; intros Hf; cbn [for_each]; [apply respects_ret|].
  apply respects_bind; [apply Hf; by left|]. intros _. apply IH. intros y Hy. apply Hf. by right.
Qed.

Lemma respects_map_M {A B} (f : A -> M W B) l : (forall x, x ∈ l -> respects (f x)) -> respects (map_M f l).
Proof.
  induction l as [|x l IH]; intros Hf; cbn [map_M]; [apply respects_ret|].
  apply respects_bind; [apply Hf; by left|]. intros y. apply respects_bind; [|intros; apply respects_ret].
  apply IH. intros z Hz. apply Hf. by right.
Qed.

Lemma respects_each_hook {A} (run : A -> M W (option str)) l :
  (forall x, x ∈ l -> respects (run x)) -> respects (each_hook run l).
Proof.
  induction l as [|x l IH]; intros Hf; cbn [each_hook]; [apply respects_ret|].
  apply respects_bind; [apply Hf; by left|]. intros [e|]; [apply respects_ret|]. apply IH. intros y Hy. apply Hf. by right.
Qed.

(** An update of a field the slice does not depend on. *)
Lemma respects_modify (f : Mgr -> Mgr) :
  (forall m, task_doc (f m) = task_doc m) ->
  (forall m, current_round_entry_start (f m) = current_round_entry_start m) ->
  (forall m, R m (f m)) -> respects (modify f).
Proof.
  intros Hd Hs HR m Hm. exists tt, (f m). split; [done|]. split; [|done].
  intros a. unfold active. rewrite Hd, Hs. apply Hm.
Qed.

(** An operation of the surroundings, or on the history. *)
Lemma respects_world {A} (f : W -> A * W) : (forall m, R m (set_world (f (world m)).2 m)) -> respects (in_world f).
Proof.
  intros HR m Hm. unfold in_world. specialize (HR m). destruct (f (world m)) as [a w]. exists a, (set_world w m). done.
Qed.
Lemma respects_try {A} (f : W -> outcome (A * W)) :
  (forall w, f w <> Panics) -> (forall w a w' m, f w = Returns (a, w') -> world m = w -> R m (set_world w' m)) -> respects (try_world f).
Proof.
  intros Hf HR m Hm. unfold try_world. specialize (Hf (world m)).
  destruct (f (world m)) as [[a w]|] eqn:E; [|done]. exists a, (set_world w m). split; [done|]. split; [done|]. by eapply HR.
Qed.
Lemma respects_conv {A} (f : Conversation -> A * Conversation) :
  (forall m, R m (set_conv (f (conv m)).2 m)) -> respects (on_conv f).
Proof.
  intros HR m Hm. unfold on_conv. specialize (HR m). destruct (f (conv m)) as [a c]. exists a, (set_conv c m). done.
Qed.
End respects.

(** Composition is followed to the operations that [respects] lemmas are declared for. *)
Create HintDb respects discriminated.
#[export] Hint Extern 0 (respects _ (mret _)) => apply respects_ret; exact _ : respects.
#[export] Hint Extern 0 (respects _ (gets _)) => apply respects_gets; exact _ : respects.
#[export] Hint Extern 1 (respects _ (_ ≫= _)) => apply respects_bind; [exact _ | | intros ?] : respects.
#[export] Hint Extern 1 (respects _ (for_each _ _)) => apply respects_for_each; [exact _ | intros ? ?] : respects.
#[export] Hint Extern 1 (respects _ (map_M _ _)) => apply respects_map_M; [exact _ | intros ? ?] : respects.
#[export] Hint Extern 1 (respects _ (each_hook _ _)) => apply respects_each_hook; [exact _ | intros ? ?] : respects.
#[export] Hint Extern 2 (respects _ (match ?x with _ => _ end)) => destruct x : respects.

(** ** The open turn of the document *)
Lemma frames_length es es' new : map frame es' = map frame (es ++ new) -> (length es <= length es')%nat.
Proof. intros H. apply (f_equal length) in H. rewrite !length_map, length_app in H. lia. Qed.

Section kept.
Context {W : Type}.
Notation Mgr := (ConversationManager W).

(** The turn of [m] is still open in [m'], with its entries and perhaps more. *)
Record turn_kept (m m' : Mgr) : Prop := {
  kept_open : forall d a, task_doc m = Some d -> active_pulse d = Some a ->
    exists d' a', task_doc m' = Some d' /\ active_pulse d' = Some a'
      /\ completed_turns d' = completed_turns d /\ at_input a' = at_input a /\ at_turn_index a' = at_turn_index a
      /\ (length (at_entries a) <= length (at_entries a'))%nat;
  kept_tokens : last_turn_tokens m' = last_turn_tokens m;
}.

#[export] Instance turn_kept_preorder : PreOrder turn_kept.
Proof.
  split.
  - intros m. split; [|done]. intros d a Hd Ha. exists d, a. by split_and!.
  - intros m1 m2 m3 [H12 T12] [H23 T23]. split; [|congruence]. intros d a Hd Ha.
    destruct (H12 d a Hd Ha) as (d' & a' & Hd' & Ha' & Hc & Hi & Hn & Hl).
    destruct (H23 d' a' Hd' Ha') as (d'' & a'' & Hd'' & Ha'' & Hc' & Hi' & Hn' & Hl').
    exists d'', a''. split_and!; try done; [congruence | congruence | congruence | lia].
Qed.

Lemma turn_kept_same (m m' : Mgr) :
  task_doc m' = task_doc m -> last_turn_tokens m' = last_turn_tokens m -> turn_kept m m'.
Proof. intros Hd Ht. split; [|done]. intros d a Ed Ea. exists d, a. rewrite Hd. by split_and!. Qed.

Lemma signal_keeps signal t1 t2 d a :
  active_pulse d = Some a ->
  exists a', active_pulse (apply_runtime_signal signal t1 t2 d).2 = Some a'
    /\ completed_turns (apply_runtime_signal signal t1 t2 d).2 = completed_turns d
    /\ at_input a' = at_input a /\ at_turn_index a' = at_turn_index a /\ (length (at_entries a) <= length (at_entries a'))%nat.
Proof.
  intros Ha. destruct (signal_effect signal t1 t2 d) as [new [Hc Hact Hf _ _ _ _]].
  destruct (active_pulse (apply_runtime_signal signal t1 t2 d).2) as [a'|] eqn:Ea'; rewrite Ha in Hact; [|done].
  destruct Hact as (Hi & Hin & _). exists a'. split_and!; try done.
  unfold active_entries in Hf. rewrite Ea', Ha, <- map_app in Hf. by eapply frames_length.
Qed.

Lemma signal_no_turn signal t1 t2 d :
  active_pulse d = None -> active_pulse (apply_runtime_signal signal t1 t2 d).2 = None.
Proof.
  intros Ha. destruct (signal_effect signal t1 t2 d) as [new [_ Hact _ _ _ _ _]]. rewrite Ha in Hact.
  by destruct (active_pulse (apply_runtime_signal signal t1 t2 d).2).
Qed.
End kept.

(** ** Every operation of the manager *)
Lemma format_keeps_messages {js : SerdeJson} {pretty : PrettyJson} {diff : LineDiff} {hash : ContentHash} name input result c :
  api_messages (format_tool_result_for_history name input result c).2 = api_messages c.
Proof.
  unfold format_tool_result_for_history. destruct result as [output|error]; [|done].
  destruct (str_eqb _ _); [by destruct (summarize _ _ _) | by destruct (should_enrich_tool_result _ _)].
Qed.

(** A relation that holds of the operations that change one field, other than the turn, the round,
    the history and the surroundings; of the history, the cache of reads may change. *)
Class Tracks {W : Type} (R : ConversationManager W -> ConversationManager W -> Prop) : Prop := {
  tracks_preorder :: PreOrder R;
  tracks_reads : forall n m, R m (set_reads n m);
  tracks_updates : forall us m, R m (set_updates us m);
  tracks_count : forall n m, R m (set_current_round_stream_block_count n m);
  tracks_started : forall g m, R m (set_tool_call_started_at g m);
  tracks_undo : forall u m, R m (set_undo_stack u m);
  tracks_cache : forall c m, api_messages c = api_messages (conv m) -> R m (set_conv c m);
  tracks_doc : forall signal t1 t2 d m,
    task_doc m = Some d -> R m (set_task_doc (Some (apply_runtime_signal signal t1 t2 d).2) m);
}.

(** And of those on the history. *)
Class TracksConv {W : Type} (R : ConversationManager W -> ConversationManager W -> Prop) : Prop :=
  tracks_conv : forall c m, R m (set_conv c m).

Ltac field_update tracks := apply respects_modify; [done | done | intros; apply tracks].

Section operations.
Context {W : Type} `{Surroundings W} {clock : Clock} {chrono : Chrono}.
Context {js : SerdeJson} {pretty : PrettyJson} {diff : LineDiff} {hash : ContentHash}.
Notation Mgr := (ConversationManager W).
Variable s : Settings.
Variable R : Mgr -> Mgr -> Prop.
Context `{HR : !Tracks R}.

Notation ok := (respects R).

Lemma ok_now : ok now.
Proof. intros m Hm. exists (utc_now (reads m)), (set_reads (S (reads m)) m). split; [done|]. split; [exact Hm | apply tracks_reads]. Qed.
Hint Resolve ok_now : respects.

Lemma ok_now_ms : ok now_ms.
Proof. unfold now_ms. auto with respects. Qed.
Hint Resolve ok_now_ms : respects.

Lemma ok_emit u : ok (emit s u).
Proof. unfold emit. destruct (has_channel s); [|auto with respects]. field_update tracks_updates. Qed.
Hint Resolve ok_emit : respects.

Lemma ok_set_count n : ok (modify (set_current_round_stream_block_count n)).
Proof. field_update tracks_count. Qed.
Lemma ok_set_started (f : Mgr -> gmap str Z) : ok (modify (fun m => set_tool_call_started_at (f m) m)).
Proof. field_update tracks_started. Qed.
Lemma ok_format name input result : ok (on_conv (format_tool_result_for_history name input result)).
Proof. apply respects_conv. intros m. apply tracks_cache, format_keeps_messages. Qed.
Lemma ok_push_undo cp : ok (push_undo_checkpoint s cp).
Proof. unfold push_undo_checkpoint. destruct (_ =? 0)%nat; [auto with respects|]. field_update tracks_undo. Qed.
Hint Resolve ok_set_count ok_format ok_push_undo : respects.

Lemma sane_doc signal t1 t2 d (m : Mgr) :
  task_doc m = Some d -> sane m -> sane (set_task_doc (Some (apply_runtime_signal signal t1 t2 d).2) m).
Proof.
  intros Hd Hm a'. unfold sane, active in *. rewrite Hd in Hm. cbn. intros Ha'.
  destruct (active_pulse d) as [a|] eqn:Ha.
  - destruct (signal_keeps signal t1 t2 d a Ha) as (a'' & Ea & _ & _ & _ & Hl). rewrite Ea in Ha'. injection Ha' as <-.
    specialize (Hm a Ha). lia.
  - by rewrite (signal_no_turn signal t1 t2 d Ha) in Ha'.
Qed.

Lemma ok_apply_doc_delta signal : ok (apply_doc_delta signal).
Proof.
  unfold apply_doc_delta. intros m Hm. run. destruct (task_doc m) as [d|] eqn:Hd.
  - run. eexists _, _. split; [reflexivity|].
    set (m2 := set_reads _ (set_reads _ m)). assert (R m m2) as Hreads by (etransitivity; apply tracks_reads).
    assert (task_doc m2 = Some d) as Hd2 by exact Hd. split; [apply (sane_doc _ _ _ d m2 Hd2 Hm)|].
    etransitivity; [exact Hreads|]. by apply (tracks_doc _ _ _ d m2).
  - by exists tt, m.
Qed.
Hint Resolve ok_apply_doc_delta : respects.

Lemma ok_pad_blocks n : ok (pad_blocks s n).
Proof. induction n as [|n IH]; cbn [pad_blocks]; auto 10 with respects. Qed.
Hint Resolve ok_pad_blocks : respects.

Lemma ok_emit_start index block : ok (emit_stream_block_start_update s index block).
Proof. unfold emit_stream_block_start_update. auto 10 with respects. Qed.
Hint Resolve ok_emit_start : respects.

Lemma ok_record_started id t : ok (record_tool_call_started_at id t).
Proof. apply (ok_set_started (fun m => <[id := t]> (tool_call_started_at m))). Qed.
Hint Resolve ok_record_started : respects.

Lemma ok_result_signal id name output e t : ok (tool_result_signal id name output e t).
Proof.
  unfold tool_result_signal, take_tool_call_timing. apply respects_bind; [exact _| |intros [? ?]; auto with respects].
  apply respects_bind; [exact _ | auto with respects |]. intros g. destruct (g !! id); [|auto with respects].
  apply respects_bind; [exact _ | apply (ok_set_started (fun _ => delete id g)) | auto with respects].
Qed.
Hint Resolve ok_result_signal : respects.

Lemma ok_upsert index block : ok (upsert_turn_block s index block).
Proof. unfold upsert_turn_block. auto 10 with respects. Qed.
Lemma ok_append_text index text : ok (append_text_delta s index text).
Proof. unfold append_text_delta. pose proof ok_upsert. auto 12 with respects. Qed.
Lemma ok_set_status id status : ok (set_tool_call_status s id status).
Proof. unfold set_tool_call_status. auto 10 with respects. Qed.
Lemma ok_push_result id output e : ok (push_tool_result_block s id output e).
Proof. unfold push_tool_result_block. auto 12 with respects. Qed.
Hint Resolve ok_upsert ok_append_text ok_set_status ok_push_result : respects.

Lemma ok_promote : ok (promote_thinking_blocks_to_final_text s).
Proof.
  unfold promote_thinking_blocks_to_final_text. intros m Hm. run. destruct (active m) as [a|] eqn:Ha; [|by exists tt, m].
  pose proof (Hm a Ha) as Hle. apply Nat.leb_le in Hle. rewrite Hle. run.
  assert (ok (for_each (fun block_index => apply_doc_delta (TranscriptBlockPhaseUpdated block_index PhaseFinal false);;
    emit s (UBlockStart block_index (FinalText []))) (omap promotable (drop (current_round_entry_start m) (at_entries a))))) as Hok
    by auto 10 with respects.
  apply Hok, Hm.
Qed.
Hint Resolve ok_promote : respects.

Lemma ok_metadata md : ok (emit_server_metadata_update s md).
Proof. unfold emit_server_metadata_update. auto 10 with respects. Qed.
Hint Resolve ok_metadata : respects.

(** *** The stream *)
Lemma ok_handle_signal signal r : ok (handle_signal s signal r).
Proof. destruct signal; cbn [handle_signal]; auto 15 with respects. Qed.
Hint Resolve ok_handle_signal : respects.

Lemma ok_drain stream r : ok (drain s stream r).
Proof. revert r. induction stream as [|[signal|error] stream IH]; intros r; cbn [drain]; auto with respects. Qed.

(** *** Answers of calls *)
Lemma ok_emit_tool_error structured limit id name text : ok (emit_tool_error s structured limit id name text).
Proof. unfold emit_tool_error. auto 10 with respects. Qed.
Lemma ok_answer_call structured limit id name input result : ok (answer_call s structured limit id name input result).
Proof. unfold answer_call. auto 12 with respects. Qed.
Lemma ok_refuse structured limit id name text : ok (refuse s structured limit id name text).
Proof. unfold refuse. pose proof ok_emit_tool_error. auto 10 with respects. Qed.
Lemma ok_answer_completed structured limit completed anchor answers :
  ok (answer_completed s structured limit completed anchor answers).
Proof.
  pose proof ok_answer_call. revert anchor answers.
  induction completed as [|c rest IH]; intros anchor answers; cbn [answer_completed]; auto 10 with respects.
Qed.

(** *** Guards *)
Lemma ok_guard_line msg : ok (guard_line s msg).
Proof. unfold guard_line. auto with respects. Qed.
End operations.
#[export] Hint Resolve ok_now ok_now_ms ok_emit ok_set_count ok_format ok_push_undo ok_apply_doc_delta
  ok_emit_start ok_record_started ok_result_signal ok_upsert ok_append_text ok_set_status ok_push_result ok_promote
  ok_metadata ok_handle_signal ok_drain ok_emit_tool_error ok_answer_call ok_refuse ok_answer_completed ok_guard_line
  : respects.

(** *** On the history *)
Section history_operations.
Context {W : Type} (R : ConversationManager W -> ConversationManager W -> Prop) `{HC : !TracksConv R}.
Lemma ok_on_conv {A} (f : Conversation -> A * Conversation) : respects R (on_conv f).
Proof. apply respects_conv. intros m. apply tracks_conv. Qed.
Lemma ok_push_message msg : respects R (push_message msg).
Proof. unfold push_message. field_update tracks_conv. Qed.
End history_operations.
#[export] Hint Resolve ok_on_conv ok_push_message : respects.

(** *** With the surroundings *)
Class TracksWorld {W : Type} (R : ConversationManager W -> ConversationManager W -> Prop) : Prop :=
  tracks_world : forall w m, R m (set_world w m).

(** The client or a tool can panic. *)
Definition surroundings_panic {W} `{Surroundings W} : Prop :=
  (exists messages w, create_stream messages w = Panics) \/ (exists name input w, call_tool name input w = Panics).
(** Surroundings that do not. *)
Class Steady (W : Type) `{Surroundings W} : Prop := steady : ~ surroundings_panic.

Section world_operations.
Context {W : Type} `{Surroundings W} `{!Steady W} {clock : Clock} {chrono : Chrono}.
Context {js : SerdeJson} {pretty : PrettyJson} {diff : LineDiff} {hash : ContentHash}.
Notation Mgr := (ConversationManager W).
Variable s : Settings.
Variable R : Mgr -> Mgr -> Prop.
Context `{HR : !Tracks R} `{HW : !TracksWorld R}.
Notation ok := (respects R).

Lemma ok_in_world {A} (f : W -> A * W) : ok (in_world f).
Proof. apply respects_world. intros m. apply tracks_world. Qed.
Hint Resolve ok_in_world : respects.

Lemma ok_create_stream messages : ok (try_world (create_stream messages)).
Proof.
  apply respects_try; [|intros; apply tracks_world]. intros w E. apply steady. left. by exists messages, w.
Qed.
Lemma ok_call_tool name input : ok (try_world (call_tool name input)).
Proof.
  apply respects_try; [|intros; apply tracks_world]. intros w E. apply steady. right. by exists name, input, w.
Qed.
Hint Resolve ok_create_stream ok_call_tool : respects.

Lemma ok_request_approval name input : ok (request_tool_approval s name input).
Proof. unfold request_tool_approval. auto 10 with respects. Qed.
Hint Resolve ok_request_approval : respects.
Lemma ok_capture_undo name input : ok (capture_undo_snapshot s name input).
Proof. unfold capture_undo_snapshot. auto 10 with respects. Qed.
Hint Resolve ok_capture_undo : respects.

Lemma ok_all_hooks trigger name input : ok (all_hooks s trigger name input).
Proof.
  unfold all_hooks, run_hooks, run_http_hooks, run_hook, run_http_hook. auto 20 with respects.
Qed.
Hint Resolve ok_all_hooks : respects.

Lemma ok_execute name input : ok (execute_tool_with_timeout_with_updates s name input).
Proof. unfold execute_tool_with_timeout_with_updates. auto 20 with respects. Qed.
Hint Resolve ok_execute : respects.

Lemma ok_run_one_call user policy req structured limit anchor id name input :
  ok (run_one_call s user policy req structured limit anchor id name input).
Proof. unfold run_one_call. auto 20 with respects. Qed.
Hint Resolve ok_run_one_call : respects.

Lemma ok_run_calls user policy req structured limit calls anchor answers :
  ok (run_calls s user policy req structured limit calls anchor answers).
Proof.
  revert anchor answers. induction calls as [|[[id name] input] calls IH]; intros anchor answers;
    cbn [run_calls]; auto 10 with respects.
Qed.

Lemma ok_parallel blocks user structured : ok (execute_parallel_tool_round s blocks user structured).
Proof.
  unfold execute_parallel_tool_round. apply respects_bind; [exact _ | auto 10 with respects | intros _].
  apply respects_bind; [exact _ | auto 12 with respects | intros snapshots].
  apply respects_bind; [exact _ | auto 12 with respects | intros completed].
  apply respects_bind; [exact _ | | auto with respects].
  assert (ok (mret snapshots)) as Hrest by auto with respects. revert Hrest.
  generalize (mret snapshots : M W (gmap str UndoCheckpoint)). clear -HR HW.
  induction completed as [|c completed IH]; intros rest Hrest; cbn [foldl]; [done|]. apply IH. auto 12 with respects.
Qed.
Hint Resolve ok_run_calls ok_parallel : respects.

Lemma ok_tool_round user policy req structured limit blocks anchor :
  ok (run_tool_round s user policy req structured limit blocks anchor).
Proof. unfold run_tool_round. auto 12 with respects. Qed.
End world_operations.
#[export] Hint Resolve ok_in_world ok_create_stream ok_call_tool ok_request_approval ok_capture_undo ok_all_hooks ok_execute ok_run_one_call ok_run_calls
  ok_parallel ok_tool_round : respects.

#[export] Instance turn_kept_tracks {W} : Tracks (@turn_kept W).
Proof.
  split; [exact _ | by intros; apply turn_kept_same ..|]. intros signal t1 t2 d m Hd. split; [|done].
  intros d0 a Hd0 Ha. assert (d0 = d) as -> by congruence.
  destruct (signal_keeps signal t1 t2 d a Ha) as (a' & Ha' & Hc & Hi & Hn & Hl). by exists (apply_runtime_signal signal t1 t2 d).2, a'.
Qed.
#[export] Instance turn_kept_conv {W} : TracksConv (@turn_kept W).
Proof. intros c m. by apply turn_kept_same. Qed.
#[export] Instance turn_kept_world {W} : TracksWorld (@turn_kept W).
Proof. intros w m. by apply turn_kept_same. Qed.
#[export] Hint Resolve turn_kept_tracks turn_kept_conv turn_kept_world : respects.

(** ** The end of a turn *)
Section finished.
Context {W : Type}.
Notation Mgr := (ConversationManager W).

Definition in_turn (m : Mgr) : Prop := exists d a, task_doc m = Some d /\ active_pulse d = Some a.

(** The turn that was open in [m] is over in [m'], with this result. *)
Definition finished (m m' : Mgr) (result : str + str) : Prop :=
  forall d a, task_doc m = Some d -> active_pulse d = Some a ->
  exists d' turn, task_doc m' = Some d' /\ active_pulse d' = None
    /\ completed_turns d' = completed_turns d ++ [turn] /\ td_input turn = at_input a
    /\ match result with
       | inr error => td_outcome turn = OutcomeFailed error
       | inl _ => (td_outcome turn = OutcomeCompleted \/ td_outcome turn = OutcomeMaxTurnsReached)
                  /\ td_tokens turn = last_turn_tokens m'
       end.

Lemma kept_finished m1 m2 m3 result : turn_kept m1 m2 -> finished m2 m3 result -> finished m1 m3 result.
Proof.
  intros [Hk _] Hf d a Hd Ha. destruct (Hk d a Hd Ha) as (d2 & a2 & Hd2 & Ha2 & Hc & Hi & _).
  destruct (Hf d2 a2 Hd2 Ha2) as (d3 & turn & Hd3 & Ha3 & Hc3 & Hi3 & Hr). exists d3, turn.
  split_and!; try done; congruence.
Qed.

Lemma kept_in_turn m m' : turn_kept m m' -> in_turn m -> in_turn m'.
Proof. intros [Hk _] (d & a & Hd & Ha). destruct (Hk d a Hd Ha) as (d' & a' & ? & ? & _). by exists d', a'. Qed.
End finished.

Section loop.
Context {W : Type} `{Surroundings W} `{!Steady W} {clock : Clock} {chrono : Chrono}.
Context {js : SerdeJson} {pretty : PrettyJson} {diff : LineDiff} {hash : ContentHash}.
Notation Mgr := (ConversationManager W).
Variable s : Settings.

(** Runs an operation that keeps the turn. *)
Ltac keep lem m :=
  let x := fresh "x" in let m' := fresh "m" in let E := fresh "E" in
  destruct (lem m) as (x & m' & E & ? & ?); [assumption|]; rewrite (pst_bind_returns _ _ _ _ _ E); clear E.

Lemma finish_result o tokens (m : Mgr) :
  exists m', finish_turn_doc o tokens m = Returns (tt, m') /\ last_turn_tokens m' = last_turn_tokens m
    /\ forall d a, task_doc m = Some d -> active_pulse d = Some a ->
       exists d' turn, task_doc m' = Some d' /\ active_pulse d' = None
         /\ completed_turns d' = completed_turns d ++ [turn] /\ td_input turn = at_input a
         /\ td_outcome turn = o /\ td_tokens turn = tokens.
Proof.
  unfold finish_turn_doc. run. destruct (task_doc m) as [d|] eqn:Hd; run.
  - eexists. split; [reflexivity|]. split; [done|]. intros d0 a [= <-] Ha. unfold finish_turn. rewrite Ha. cbn.
    eexists _, _. by split_and!.
  - eexists. split; [reflexivity|]. split; [done|]. done.
Qed.

Lemma stop_with_result msg o (m : Mgr) :
  sane m -> o = OutcomeCompleted \/ o = OutcomeMaxTurnsReached -> 
  exists m', stop_with s msg o (last_turn_tokens m) m = Returns (Done (inl msg), m') /\ finished m m' (inl msg).
Proof.
  intros Hm Ho. unfold stop_with. destruct (ok_guard_line s turn_kept msg m Hm) as ([] & m1 & E1 & Hm1 & K1).
  rewrite (pst_bind_returns _ _ _ _ _ E1). destruct (finish_result o (last_turn_tokens m) m1) as (m2 & E2 & T2 & F2).
  rewrite (pst_bind_returns _ _ _ _ _ E2). exists m2. split; [done|]. apply (kept_finished m m1); [done|].
  intros d a Hd Ha. destruct (F2 d a Hd Ha) as (d' & turn & ? & ? & ? & ? & ? & Ht). exists d', turn.
  split_and!; try done; [by subst o|]. rewrite Ht, T2. symmetry. apply K1.
Qed.

Lemma stop_completed_result msg (m : Mgr) :
  sane m -> exists m', stop_completed s msg m = Returns (Done (inl msg), m') /\ finished m m' (inl msg).
Proof. intros Hm. unfold stop_completed. run. apply stop_with_result; [done | by left]. Qed.

(** What counts of the variables. *)
Definition same_count (v v' : TurnVars) : Prop :=
  rounds v' = rounds v /\ overflow_retry_count v' = overflow_retry_count v
  /\ final_answer_attempted v' = final_answer_attempted v.

(** The step goes on with the same count, or has ended the turn. *)
Definition stepped (m : Mgr) (v : TurnVars) (step : Step) (m' : Mgr) : Prop :=
  match step with
  | Continue v' => sane m' /\ turn_kept m m' /\ same_count v v'
  | Done result => finished m m' result
  end.

Lemma kept_stepped (m1 m2 : Mgr) v step m3 : turn_kept m1 m2 -> stepped m2 v step m3 -> stepped m1 v step m3.
Proof.
  intros Hk. destruct step as [v'|result]; cbn.
  - intros (Hs & Hk' & Hc). split_and!; [done | by etransitivity | done].
  - by apply kept_finished.
Qed.

Lemma guard_repeats_result is_local max text blocks v (m : Mgr) :
  sane m ->
  exists r m', guard_repeats s is_local max text blocks v m = Returns (r, m')
    /\ match r with
       | inl (v', _) => m' = m /\ same_count v v'
       | inr step => stepped m v step m'
       end.
Proof.
  intros Hm. unfold guard_repeats. destruct blocks as [|b blocks]; [by eexists _, m|].
  set (v1 := note_repeats (b :: blocks) (with_saw_any_tool_round true v)).
  assert (same_count v v1) as Hv1 by (unfold v1, note_repeats; by destruct (is_read_only_tool_round _)).
  destruct (1 <=? repeated_mutating_rounds v1).
  { destruct (stop_completed_result (render_repeated_mutating_tool_guard_message text) m Hm) as (m' & E & Hf).
    rewrite (pst_bind_returns _ _ _ _ _ E). by eexists _, m'. }
  cbv zeta. destruct (_ <=? _); [|by eexists _, m]. destruct (_ && _ && _); [by eexists _, m|].
  destruct (stop_completed_result (render_repeated_tool_guard_message text) m Hm) as (m' & E & Hf).
  rewrite (pst_bind_returns _ _ _ _ _ E). by eexists _, m'.
Qed.

Lemma answer_without_calls_result plan is_local text v (m : Mgr) :
  sane m -> exists step m', answer_without_calls s plan is_local text v m = Returns (step, m') /\ stepped m v step m'.
Proof.
  intros Hm. unfold answer_without_calls. cbv zeta. destruct (_ && _ && _).
  { destruct (ok_push_message turn_kept (user_text TOOL_RETRY_INSTRUCTION None) m Hm) as ([] & m1 & E1 & Hm1 & K1).
    unfold tell_model. rewrite (pst_bind_returns _ _ _ _ _ E1). by eexists _, m1. }
  destruct (_ && _ && _).
  { destruct (stop_completed_result (render_missing_tool_evidence_guard_message text) m Hm) as (m' & E & Hf). by eexists _, m'. }
  destruct (ok_promote s turn_kept m Hm) as ([] & m1 & E1 & Hm1 & K1). rewrite (pst_bind_returns _ _ _ _ _ E1).
  set (m2 := set_last_turn_tokens (turn_tokens v) m1).
  rewrite (pst_bind_returns _ _ m1 tt m2) by done.
  destruct (finish_result OutcomeCompleted (turn_tokens v) m2) as (m3 & E3 & T3 & F3). rewrite (pst_bind_returns _ _ _ _ _ E3).
  eexists _, m3. split; [done|]. apply (kept_finished m m1); [done|]. intros d a Hd Ha.
  destruct (F3 d a Hd Ha) as (d' & turn & ? & ? & ? & ? & ? & Ht). exists d', turn. split_and!; try done; [by left|].
  by rewrite Ht, T3.
Qed.

Lemma answer_calls_result plan structured blocks v (m : Mgr) :
  sane m -> exists step m', answer_calls s plan structured blocks v m = Returns (step, m') /\ stepped m v step m'.
Proof.
  intros Hm. unfold answer_calls.
  assert (respects turn_kept (answer_calls s plan structured blocks v)) as Hok by (unfold answer_calls; auto 10 with respects).
  destruct (Hok m Hm) as (step & m' & E & Hm' & K). exists step, m'. split; [exact E|].
  unfold answer_calls in E. pst_inv. destruct x as [anchor answers]. pst_inv. by split_and!.
Qed.

Lemma close_round_result plan v r (m : Mgr) :
  sane m -> exists step m', close_round s plan v r m = Returns (step, m') /\ stepped m v step m'.
Proof.
  intros Hm. unfold close_round. run. cbv zeta. set (v0 := with_turn_tokens (round_tokens r) v).
  set (blocks := open_tool_uses r). set (text := assistant_text r). set (structured := _ && _).
  destruct (guard_repeats_result (is_local_endpoint (conv m)) (max_tool_rounds plan) text blocks v0 m Hm) as (g & m1 & E1 & Hg).
  rewrite E1. destruct g as [[v1 nudge]|step]; [|by eexists _, m1].
  destruct Hg as [-> Hc]. assert (same_count v v1) as Hv1 by (by destruct Hc as (? & ? & ?)).
  set (msg := assistant_message _). set (m2 := set_conv (set_messages (api_messages (conv m) ++ [msg]) (conv m)) m).
  destruct (ok_push_message turn_kept msg m Hm) as ([] & m3 & E3 & Hm3 & K3).
  change (push_message msg m) with (Returns (tt, m2)) in E3. injection E3 as <-. 
  destruct nudge.
  { eexists _, _. split; [reflexivity|]. split; [exact Hm3|]. split; [|by destruct Hv1 as (? & ? & ?)]. 
    etransitivity; [exact K3|]. apply tracks_conv. }
  set (v2 := with_last_assistant_text text v1). assert (same_count v v2) as Hv2 by (by destruct Hv1 as (? & ? & ?)).
  assert (forall step m', stepped m2 v2 step m' -> stepped m v step m') as Hcompose.
  { intros step m' Hstep. apply (kept_stepped m m2); [done|]. destruct step as [v'|]; [|done].
    destruct Hstep as (? & ? & ? & ? & ?), Hv2 as (? & ? & ?). split_and!; try done; unfold same_count; split_and!; congruence. }
  destruct blocks as [|b blocks'].
  - destruct (answer_without_calls_result plan (is_local_endpoint (conv m)) text v2 m2 Hm3) as (step & m' & E & Hs).
    exists step, m'. split; [exact E | by apply Hcompose].
  - destruct (answer_calls_result plan structured (b :: blocks') v2 m2 Hm3) as (step & m' & E & Hs).
    exists step, m'. split; [exact E | by apply Hcompose].
Qed.

(** *** The count of rounds *)
Definition counted (max : N) (v : TurnVars) : Prop :=
  rounds v <= max + 1 /\ overflow_retry_count v <= 3 /\ (max < rounds v -> final_answer_attempted v = true).

(** What is left of the budget. *)
Definition budget (max : N) (v : TurnVars) : N := 4 * (max + 2 - rounds v) + (3 - overflow_retry_count v).

Lemma begin_round_result limits max v (m : Mgr) :
  counted max v -> last_turn_tokens m = PulseTokens.default ->
  exists step m', begin_round s limits max v m = Returns (step, m')
    /\ match step with
       | Continue v' => sane m' /\ turn_kept m m' /\ rounds v' = rounds v + 1 /\ overflow_retry_count v' = overflow_retry_count v
                        /\ counted max v'
       | Done result => finished m m' result
       end.
Proof.
  intros (Hr & Ho & Hf) Ht. unfold begin_round.
  set (m1 := set_current_round_stream_block_count 0
      (set_current_round_entry_start (match active m with Some a => length (at_entries a) | None => 0%nat end) m)).
  assert (sane m1) as Hm1 by (intros a Ha; unfold m1 in *; unfold active in Ha; cbn in *; unfold active; by rewrite Ha).
  assert (turn_kept m m1) as K1 by by apply turn_kept_same.
  rewrite (pst_bind_returns _ _ m tt m1) by done.
  destruct (ok_on_conv turn_kept (prune_message_history_preserving (N.to_nat (max_api_messages limits)) (anchor_index v)) m1 Hm1)
    as (index & m2 & E2 & Hm2 & K2).
  rewrite (pst_bind_returns _ _ _ _ _ E2). cbv zeta. cbn [rounds with_rounds with_anchor_index].
  assert (turn_kept m m2) as K by (by etransitivity).
  destruct (N.leb_spec (rounds v + 1) max) as [Hle|Hgt].
  { eexists _, m2. split; [reflexivity|]. split_and!; try done; unfold counted; cbn; split_and!; lia || done. }
  cbn [final_answer_attempted with_rounds with_anchor_index]. destruct (final_answer_attempted v) eqn:Hfin; cbn [negb].
  - destruct (stop_with_result (render_loop_limit_guard_message (last_assistant_text v) max) OutcomeMaxTurnsReached m2 Hm2) as (m' & E & F);
      [by right|].
    destruct (K) as [_ HT]. cbn [last_assistant_text with_rounds with_anchor_index].
    rewrite HT, Ht in E. eexists _, m'. split; [exact E|]. by apply (kept_finished m m2).
  - destruct (ok_push_message turn_kept (user_text FINAL_ANSWER_INSTRUCTION None) m2 Hm2) as ([] & m3 & E3 & Hm3 & K3).
    unfold tell_model. rewrite (pst_bind_returns _ _ _ _ _ E3). eexists _, m3. split; [reflexivity|].
    split_and!; [done | by etransitivity | done | done |]. split_and!; cbn; [|done|done].
    destruct (N.leb_spec (rounds v) max) as [Hle|Hgt']; [lia|]. specialize (Hf Hgt'). congruence.
Qed.

Lemma retry_result v (m : Mgr) :
  sane m -> exists v' m', retry_after_overflow s v m = Returns (v', m') /\ sane m' /\ turn_kept m m'
    /\ rounds v' = rounds v - 1 /\ overflow_retry_count v' = overflow_retry_count v + 1
    /\ final_answer_attempted v' = final_answer_attempted v.
Proof.
  intros Hm. assert (respects (@turn_kept W) (retry_after_overflow s v)) as Hok.
  { unfold retry_after_overflow. auto 12 with respects. }
  destruct (Hok m Hm) as (v' & m' & E & Hm' & K). exists v', m'. split_and!; try done.
  all: unfold retry_after_overflow in E; pst_inv; done.
Qed.

Lemma request_stream_result v (m : Mgr) :
  sane m ->
  exists r m', request_stream s v m = Returns (r, m')
    /\ match r with
       | inl (_, v') => sane m' /\ turn_kept m m' /\ v' = with_overflow_retry_count 0 v
       | inr (Continue v') => sane m' /\ turn_kept m m' /\ rounds v' = rounds v - 1
           /\ overflow_retry_count v' = overflow_retry_count v + 1 /\ overflow_retry_count v < 3
           /\ final_answer_attempted v' = final_answer_attempted v
       | inr (Done result) => finished m m' result
       end.
Proof.
  intros Hm. unfold request_stream. rewrite (pst_bind_returns _ _ m (api_messages (conv m)) m) by done.
  destruct (ok_create_stream turn_kept (api_messages (conv m)) m Hm) as (answer & m1 & E1 & Hm1 & K1).
  rewrite (pst_bind_returns _ _ _ _ _ E1). destruct answer as [stream|error]; [by eexists _, m1|].
  destruct (_ && _) eqn:Hretry.
  - apply andb_true_iff in Hretry as [Hlt%N.ltb_lt _]. destruct (retry_result v m1 Hm1) as (v' & m2 & E2 & Hm2 & K2 & Hr & Ho & Hf).
    rewrite (pst_bind_returns _ _ _ _ _ E2). eexists _, m2. split; [reflexivity|]. split_and!; try done. by etransitivity.
  - destruct (finish_result (OutcomeFailed error) (turn_tokens v) m1) as (m2 & E2 & T2 & F2).
    rewrite (pst_bind_returns _ _ _ _ _ E2). eexists _, m2. split; [reflexivity|]. apply (kept_finished m m1); [done|].
    intros d a Hd Ha. destruct (F2 d a Hd Ha) as (d' & turn & ? & ? & ? & ? & ? & _). by exists d', turn.
Qed.

Lemma turn_round_result plan v (m : Mgr) :
  counted (max_tool_rounds plan) v -> last_turn_tokens m = PulseTokens.default ->
  exists step m', turn_round s plan v m = Returns (step, m')
    /\ match step with
       | Continue v' => turn_kept m m' /\ counted (max_tool_rounds plan) v'
                        /\ budget (max_tool_rounds plan) v' < budget (max_tool_rounds plan) v
       | Done result => finished m m' result
       end.
Proof.
  intros Hc Ht. unfold turn_round. set (max := max_tool_rounds plan) in *.
  destruct (begin_round_result (limits plan) max v m Hc Ht) as (step & m1 & E1 & H1). rewrite (pst_bind_returns _ _ _ _ _ E1).
  destruct step as [v1|result]; [|by eexists _, m1].
  destruct H1 as (Hm1 & K1 & Hr1 & Ho1 & Hc1).
  destruct (request_stream_result v1 m1 Hm1) as (r & m2 & E2 & H2). rewrite (pst_bind_returns _ _ _ _ _ E2).
  destruct Hc as (Hr & Ho & Hf), Hc1 as (Hr1' & Ho1' & Hf1).
  destruct r as [[stream v2]|[v2|result]].
  - destruct H2 as (Hm2 & K2 & ->).
    destruct (ok_drain s turn_kept stream (round_start (turn_tokens (with_overflow_retry_count 0 v1))) m2 Hm2) as (dr & m3 & E3 & Hm3 & K3).
    rewrite (pst_bind_returns _ _ _ _ _ E3). assert (turn_kept m m3) as K by (transitivity m1; [done|]; by transitivity m2).
    destruct dr as [r|[error r]].
    + destruct (close_round_result plan (with_overflow_retry_count 0 v1) r m3 Hm3) as (step & m4 & E4 & H4).
      exists step, m4. split; [exact E4|]. destruct step as [v4|result]; [|by apply (kept_finished m m3)].
      destruct H4 as (_ & K4 & Hr4 & Ho4 & Hf4). cbn in Hr4, Ho4, Hf4. split; [by etransitivity|].
      unfold counted, budget. rewrite Hr4, Ho4, Hf4. split_and!; cbn; try done; lia.
    + destruct (finish_result (OutcomeFailed error) (round_tokens r) m3) as (m4 & E4 & T4 & F4).
      rewrite (pst_bind_returns _ _ _ _ _ E4). eexists _, m4. split; [reflexivity|]. apply (kept_finished m m3); [done|].
      intros d a Hd Ha. destruct (F4 d a Hd Ha) as (d' & turn & ? & ? & ? & ? & ? & _). by exists d', turn.
  - destruct H2 as (Hm2 & K2 & Hr2 & Ho2 & Hlt & Hf2). eexists _, m2. split; [reflexivity|]. split; [by etransitivity|].
    unfold counted, budget. rewrite Hr2, Ho2, Hf2. split_and!; try lia; try (intros ?; apply Hf1; lia).
  - eexists _, m2. split; [reflexivity|]. by apply (kept_finished m m1).
Qed.

Lemma turn_loop_result fuel plan v (m : Mgr) :
  counted (max_tool_rounds plan) v -> last_turn_tokens m = PulseTokens.default ->
  budget (max_tool_rounds plan) v < N.of_nat fuel ->
  exists result m', turn_loop s fuel plan v m = Returns (Some result, m') /\ finished m m' result.
Proof.
  revert v m. induction fuel as [|fuel IH]; intros v m Hc Ht Hb; [lia|]. cbn [turn_loop].
  destruct (turn_round_result plan v m Hc Ht) as (step & m1 & E1 & H1). rewrite (pst_bind_returns _ _ _ _ _ E1).
  destruct step as [v1|result]; [|by eexists _, m1]. destruct H1 as (K1 & Hc1 & Hlt).
  destruct (IH v1 m1) as (result & m2 & E2 & F2); [done | by rewrite (kept_tokens _ _ K1) | lia|].
  exists result, m2. split; [exact E2 | by apply (kept_finished m m1)].
Qed.
End loop.

(** ** A whole message *)
Section message.
Context {W : Type} `{Surroundings W} `{!Steady W} {clock : Clock} {chrono : Chrono}.
Context {js : SerdeJson} {pretty : PrettyJson} {diff : LineDiff} {hash : ContentHash}.
Notation Mgr := (ConversationManager W).
Variable s : Settings.

Definition turns_of (m : Mgr) : list TurnDocument :=
  match task_doc m with Some d => completed_turns d | None => [] end.

(** The turn of the message is open, after those of [m]. *)
Definition opened (m : Mgr) (content : str) (m' : Mgr) : Prop :=
  last_turn_tokens m' = PulseTokens.default
  /\ exists d a, task_doc m' = Some d /\ active_pulse d = Some a /\ at_input a = content /\ completed_turns d = turns_of m.

Lemma ensure_result (m : Mgr) :
  active m = None ->
  exists d m', ensure_task_doc s m = Returns (tt, m') /\ task_doc m' = Some d /\ active_pulse d = None
    /\ completed_turns d = turns_of m /\ last_turn_tokens m' = last_turn_tokens m.
Proof.
  unfold ensure_task_doc, turns_of, active. run. destruct (task_doc m) as [d|] eqn:Hd; intros Ha.
  - exists d, m. by split_and!.
  - unfold now_ms, now. run. cbn. destruct (new_uuid (world m)) as [id w]. cbn. eexists _, _. split; [reflexivity|]. by split_and!.
Qed.

Lemma begin_result content policy d (m : Mgr) :
  task_doc m = Some d -> active_pulse d = None ->
  exists m', begin_turn_doc content policy m = Returns (tt, m') /\ last_turn_tokens m' = last_turn_tokens m
    /\ exists d' a, task_doc m' = Some d' /\ active_pulse d' = Some a /\ at_input a = content
       /\ completed_turns d' = completed_turns d.
Proof.
  intros Hd Ha. unfold begin_turn_doc. run. rewrite Hd. unfold begin_turn. rewrite Ha. run. cbn.
  eexists. split; [reflexivity|]. split; [done|]. eexists _, _. by split_and!.
Qed.

Lemma opening_result content policy shared (m : Mgr) :
  active m = None ->
  exists m', (modify (set_last_turn_tokens PulseTokens.default);;
              in_world (fun w => (tt, clear_ledger w));;
              ensure_task_doc s;; begin_turn_doc content policy;;
              push_user_message content (shared_prefix_cache_hint s shared)) m = Returns (tt, m')
    /\ opened m content m'.
Proof.
  intros Ha. set (m0 := set_world (clear_ledger (world m)) (set_last_turn_tokens PulseTokens.default m)).
  rewrite (pst_bind_returns _ _ m tt (set_last_turn_tokens PulseTokens.default m)) by done.
  rewrite (pst_bind_returns _ _ _ tt m0) by done.
  destruct (ensure_result m0 Ha) as (d & m1 & E1 & Hd & Hd' & Hc & Ht). rewrite (pst_bind_returns _ _ _ _ _ E1).
  destruct (begin_result content policy d m1 Hd Hd') as (m2 & E2 & Ht2 & d' & a & Hd2 & Ha2 & Hi & Hc2).
  rewrite (pst_bind_returns _ _ _ _ _ E2). eexists. split; [reflexivity|]. split; [by cbn; rewrite Ht2, Ht|].
  exists d', a. split_and!; try done. by rewrite Hc2.
Qed.

Lemma open_message_result content policy shared (m : Mgr) :
  active m = None ->
  exists r m', open_message s content policy shared m = Returns (r, m')
    /\ match r with
       | inl response => exists m1, opened m content m1 /\ finished m1 m' (inl response)
       | inr (plan, v) => opened m content m' /\ counted (max_tool_rounds plan) v
                          /\ budget (max_tool_rounds plan) v = 4 * max_tool_rounds plan + 11
       end.
Proof.
  intros Ha. unfold open_message. destruct (opening_result content policy shared m Ha) as (m1 & E1 & H1).
  assert (forall B (f : M W B), (modify (set_last_turn_tokens PulseTokens.default);;
              in_world (fun w => (tt, clear_ledger w));; ensure_task_doc s;; begin_turn_doc content policy;;
              push_user_message content (shared_prefix_cache_hint s shared);; f) m = f m1) as Hseq.
  { intros B f. revert E1. unfold mbind, pst_bind.
    repeat (match goal with |- match ?x with _ => _ end = _ -> _ => destruct x as [[? ?]|] end; [|done]).
    by intros ->. }
  rewrite Hseq. destruct (builtin_supported_git_tools_response content) as [response|].
  - unfold push_message. run. set (m2 := set_conv (set_messages _ (conv m1)) m1). assert (exists m3, emit s (UDelta response) m2 = Returns (tt, m3) /\ task_doc m3 = task_doc m1
      /\ last_turn_tokens m3 = last_turn_tokens m1) as (m3 & E3 & Hd3 & Ht3).
    { unfold emit. destruct (has_channel s); by eexists. }
    rewrite E3.
    destruct (finish_result OutcomeCompleted PulseTokens.default m3) as (m4 & E4 & T4 & F4). rewrite E4.
    eexists _, m4. split; [reflexivity|]. exists m1. split; [done|]. intros d a Hd Hact. rewrite <- Hd3 in Hd.
    destruct (F4 d a Hd Hact) as (d' & turn & ? & ? & ? & ? & ? & Ht). exists d', turn. split_and!; try done; [by left|].
    destruct H1 as [Ht1 _]. by rewrite Ht, T4, Ht3, Ht1.
  - run. cbv zeta. set (plan := make_plan _ _ _ _). set (m2 := set_conv (condense_old_tool_results _ _) m1).
    destruct (run_proactive_compaction _ _ _) as [[[[before after] summary]|] c]; cbn.
    + assert (exists m3, emit s (UContextCompacted (N.of_nat before) (N.of_nat after) (proactive_summary before after)) (set_conv c m2)
        = Returns (tt, m3) /\ task_doc m3 = task_doc m1 /\ last_turn_tokens m3 = last_turn_tokens m1) as (m3 & E3 & Hd3 & Ht3).
      { unfold emit. destruct (has_channel s); by eexists. }
      rewrite E3. eexists _, m3. split; [reflexivity|]. cbn. split; [unfold opened in *; by rewrite Hd3, Ht3|].
      split; [|unfold budget; cbn; lia]. unfold counted. cbn. split_and!; lia.
    + eexists _, _. split; [reflexivity|]. cbn. split; [exact H1|].
      split; [|unfold budget; cbn; lia]. unfold counted. cbn. split_and!; lia.
Qed.
(** The message opens a turn and ends it. *)
Lemma message_result content policy shared (m : Mgr) :
  active m = None ->
  exists result m1 m', send_message_with_policy s content policy shared m = Returns (Some result, m')
    /\ opened m content m1 /\ finished m1 m' result.
Proof.
  intros Ha. unfold send_message_with_policy.
  destruct (open_message_result content policy shared m Ha) as (r & m1 & E1 & H1). rewrite (pst_bind_returns _ _ _ _ _ E1).
  destruct r as [response|[plan v]].
  - destruct H1 as (m0 & Hopen & Hf). by exists (inl response), m0, m1.
  - destruct H1 as (Hopen & Hc & Hb).
    destruct (turn_loop_result s (turn_fuel plan) plan v m1 Hc) as (result & m2 & E2 & Hf).
    + by destruct Hopen.
    + rewrite Hb. unfold turn_fuel. lia.
    + by exists result, m1, m2.
Qed.
End message.

(** ** Surroundings that panic *)
(** The same surroundings, with another client and other tools. *)
Definition with_stream_and_tools {W} (stream : list ApiMessage -> W -> outcome ((list (RuntimeSignal + str) + str) * W))
    (tool : str -> value -> W -> outcome ((str + str) * list ConversationStreamUpdate * W)) (H : Surroundings W) : Surroundings W := {|
  create_stream := stream;
  answer_approval := @answer_approval W H;
  run_hook_command := @run_hook_command W H;
  post_hook := @post_hook W H;
  call_tool := tool;
  read_bytes := @read_bytes W H;
  clear_ledger := @clear_ledger W H;
  new_uuid := @new_uuid W H;
|}.

(** [o'] where [o] does not panic. *)
Definition unless_panics {A} (o o' : outcome A) : Prop := o = o' \/ o = Panics.

(** What the manager asks of code that can panic: an answer of the model to a history, and a call of
    a tool, each in a state of the surroundings. *)
Inductive Call (W : Type) :=
  | Requesting (messages : list ApiMessage) (w : W)
  | Running (name : str) (input : value) (w : W).
Arguments Requesting {W}.
Arguments Running {W}.
Definition panics_at {W} (K : Surroundings W) (call : Call W) : Prop :=
  match call with
  | Requesting messages w => create_stream messages w = Panics
  | Running name input w => call_tool name input w = Panics
  end.
(** Surroundings that answer everything as [K'] does, but for panics. *)
Definition answers_as {W} (K K' : Surroundings W) : Prop :=
  exists stream tool, K = with_stream_and_tools stream tool K'
    /\ (forall messages w, unless_panics (stream messages w) (@create_stream W K' messages w))
    /\ (forall name input w, unless_panics (tool name input w) (@call_tool W K' name input w)).
(** What is run comes to the call, when everything is answered as [K'] does: with a panic there it panics. *)
Definition comes_to {W A} (op : Surroundings W -> outcome A) (K' : Surroundings W) (call : Call W) : Prop :=
  forall K, answers_as K K' -> panics_at K call -> op K = Panics.

Section follows.
Context {W : Type} (K' : Surroundings W) {clock : Clock} {chrono : Chrono}.
Context {js : SerdeJson} {pretty : PrettyJson} {diff : LineDiff} {hash : ContentHash}.
Variable s : Settings.
#[local] Existing Instance K'.
Notation other stream tool := (with_stream_and_tools stream tool K').

Lemma with_own_stream_and_tools : other create_stream call_tool = K'.
Proof. by destruct K'. Qed.

(** The operation does what it does with [K'], or it has come to a call that panics. *)
Definition follows {A} (op : Surroundings W -> M W A) : Prop := forall K m,
  answers_as K K' -> op K m = op K' m \/ op K m = Panics /\ exists call, panics_at K call /\ comes_to (fun K => op K m) K' call.

(** An operation that asks neither for a stream nor for a tool. *)
Lemma follows_same {A} (op : Surroundings W -> M W A) :
  (forall stream tool, op (other stream tool) = op (other create_stream call_tool)) -> follows op.
Proof. intros Hop K m (stream & tool & -> & _). left. by rewrite Hop, with_own_stream_and_tools. Qed.
Lemma follows_bind {A B} (op : Surroundings W -> M W A) (f : Surroundings W -> A -> M W B) :
  follows op -> (forall a, follows (fun K => f K a)) -> follows (fun K => op K ≫= f K).
Proof.
  intros Hop Hf K m HK. unfold mbind, pst_bind, comes_to. destruct (Hop K m HK) as [->|(-> & call & Hc & Hpanics)].
  - destruct (op K' m) as [[a m1]|] eqn:E; [|by left]. destruct (Hf a K m1 HK) as [->|(-> & call & Hc & Hpanics)]; [by left|].
    right. split; [done|]. exists call. split; [done|]. intros K2 HK2 Hc2.
    destruct (Hop K2 m HK2) as [->|[-> _]]; [|done]. by rewrite E, (Hpanics K2 HK2 Hc2).
  - right. split; [done|]. exists call. split; [done|]. intros K2 HK2 Hc2. by rewrite (Hpanics K2 HK2 Hc2).
Qed.
Lemma follows_then {A B} (op : Surroundings W -> M W A) (f : Surroundings W -> A -> M W B) :
  (forall stream tool, op (other stream tool) = op (other create_stream call_tool)) ->
  (forall a, follows (fun K => f K a)) -> follows (fun K => op K ≫= f K).
Proof. intros Hop. by apply follows_bind, follows_same. Qed.
Lemma follows_map_M {A B} (f : Surroundings W -> A -> M W B) l :
  (forall x, follows (fun K => f K x)) -> follows (fun K => map_M (f K) l).
Proof.
  intros Hf. induction l as [|x l IH]; cbn [map_M]; [by apply follows_same|].
  apply (follows_bind (fun K => f K x)); [apply Hf | intros y].
  by apply (follows_bind (fun K => map_M (f K) l)); [|intros; apply follows_same].
Qed.

Lemma follows_try_stream messages : follows (fun K => try_world (@create_stream W K messages)).
Proof.
  intros K m (stream & tool & -> & Hstream & _). unfold try_world, comes_to. cbn.
  destruct (Hstream messages (world m)) as [->|E]; [by left|]. rewrite E. right.
  split; [done|]. exists (Requesting messages (world m)). split; [exact E|]. by intros K _ ->.
Qed.
Lemma follows_try_tool name input : follows (fun K => try_world (@call_tool W K name input)).
Proof.
  intros K m (stream & tool & -> & _ & Htool). unfold try_world, comes_to. cbn.
  destruct (Htool name input (world m)) as [->|E]; [by left|]. rewrite E. right.
  split; [done|]. exists (Running name input (world m)). split; [exact E|]. by intros K _ ->.
Qed.

(** Takes an operation apart at its first step. *)
Ltac same := by apply follows_same.
Ltac next := apply follows_then; [done|].

Lemma follows_execute name input : follows (fun K => execute_tool_with_timeout_with_updates (H:=K) s name input).
Proof.
  unfold execute_tool_with_timeout_with_updates. cbv zeta. destruct (refused_by_policy _ _); [same|].
  next. intros [e|]; [same|]. apply follows_bind; [apply follows_try_tool | intros [r sent]; same].
Qed.

Lemma follows_run_one_call user policy req structured limit anchor id name input :
  follows (fun K => run_one_call (H:=K) s user policy req structured limit anchor id name input).
Proof.
  unfold run_one_call. destruct (refusal _ _ _ _ _ _); [same|].
  next. intros approved. next. intros []. destruct (negb approved); [same|].
  next. intros cp. apply follows_bind; [apply follows_execute | intros r; same].
Qed.

Lemma follows_run_calls user policy req structured limit calls anchor answers :
  follows (fun K => run_calls (H:=K) s user policy req structured limit calls anchor answers).
Proof.
  revert anchor answers. induction calls as [|[[id name] input] calls IH]; intros anchor answers; cbn [run_calls]; [same|].
  apply follows_bind; [apply follows_run_one_call | intros [anchor' a]; apply IH].
Qed.

Lemma follows_parallel blocks user structured :
  follows (fun K => execute_parallel_tool_round (H:=K) s blocks user structured).
Proof.
  unfold execute_parallel_tool_round. next. intros []. next. intros snapshots.
  apply follows_bind; [|intros completed; same]. apply follows_map_M. intros [[id name] input].
  apply follows_bind; [|intros r; same]. destruct (location_or_read_only_prompt _ _ _ _); [same | apply follows_execute].
Qed.

Lemma follows_tool_round user policy req structured limit blocks anchor :
  follows (fun K => run_tool_round (H:=K) s user policy req structured limit blocks anchor).
Proof.
  unfold run_tool_round. destruct (should_parallelize_tool_round _ _); [|apply follows_run_calls].
  apply follows_bind; [apply follows_parallel | intros completed; same].
Qed.

Lemma follows_answer_calls plan structured blocks v :
  follows (fun K => answer_calls (H:=K) s plan structured blocks v).
Proof. unfold answer_calls. apply follows_bind; [apply follows_tool_round | intros [anchor answers]; same]. Qed.

Lemma follows_close_round plan v r : follows (fun K => close_round (H:=K) s plan v r).
Proof.
  unfold close_round. next. intros is_local. cbv zeta. next. intros [[v1 nudge]|step]; [|same]. next. intros [].
  destruct nudge; [same|]. destruct (open_tool_uses r) as [|b blocks]; [same | apply follows_answer_calls].
Qed.

Lemma follows_request_stream v : follows (fun K => request_stream (H:=K) s v).
Proof.
  unfold request_stream. next. intros messages. apply follows_bind; [apply follows_try_stream | intros answer; same].
Qed.

Lemma follows_turn_round plan v : follows (fun K => turn_round (H:=K) s plan v).
Proof.
  unfold turn_round. next. intros [v1|result]; [|same].
  apply follows_bind; [apply follows_request_stream|]. intros [[signals v2]|step]; [|same].
  next. intros [r|[error r]]; [apply follows_close_round | same].
Qed.

Lemma follows_turn_loop fuel plan v : follows (fun K => turn_loop (H:=K) s fuel plan v).
Proof.
  revert v. induction fuel as [|fuel IH]; intros v; cbn [turn_loop]; [same|].
  apply follows_bind; [apply follows_turn_round|]. intros [v1|result]; [apply IH | same].
Qed.

Lemma follows_message content policy shared :
  follows (fun K => send_message_with_policy (H:=K) s content policy shared).
Proof.
  unfold send_message_with_policy. next. intros [response|[plan v]]; [same | apply follows_turn_loop].
Qed.
End follows.

(** An operation that returns does so with the surroundings that it follows. *)
Lemma follows_returns {W} {K K' : Surroundings W} {A} (op : Surroundings W -> M W A) m x :
  follows K' op -> answers_as K K' -> op K m = Returns x -> op K' m = Returns x.
Proof. intros Hf HK E. destruct (Hf K m HK) as [<-|[Hp _]]; congruence. Qed.

(** The same surroundings, without a panic: a stream that ends at once, and a tool that fails. *)
Definition steady_stream {W} `{Surroundings W} messages (w : W) :=
  match create_stream messages w with Panics => Returns (inl [], w) | o => o end.
Definition steady_tool {W} `{Surroundings W} name input (w : W) :=
  match call_tool name input w with Panics => Returns (inr [], [], w) | o => o end.
Definition steadied {W} `{H : Surroundings W} : Surroundings W := with_stream_and_tools steady_stream steady_tool H.

Lemma answers_as_steadied {W} (H : Surroundings W) : answers_as H steadied.
Proof.
  exists create_stream, call_tool. split; [by destruct H|]. unfold unless_panics. cbn. unfold steady_stream, steady_tool.
  split; intros; [destruct (create_stream _ _) | destruct (call_tool _ _ _)]; auto.
Qed.
#[export] Instance steadied_steady {W} {H : Surroundings W} : @Steady W steadied.
Proof.
  intros [(messages & w & E)|(name & input & w & E)]; cbn in E.
  - unfold steady_stream in E. by destruct (create_stream messages w).
  - unfold steady_tool in E. by destruct (call_tool name input w).
Qed.

#[export] Instance scripted_steady : @Steady _ scripted.
Proof. intros [(? & w & E)|(? & ? & ? & E)]; revert E; cbn; [destruct (script_streams w)|]; discriminate. Qed.

(** A message sent while no turn is open comes to a call that panics, or opens a turn and ends it. *)
Lemma message_outcome {W} {H : Surroundings W} {clock : Clock} {chrono : Chrono} {js : SerdeJson} {pretty : PrettyJson}
    {diff : LineDiff} {hash : ContentHash} s content policy shared (m : ConversationManager W) :
  active m = None ->
  send_message_with_policy s content policy shared m = Panics
    /\ (exists call, panics_at H call
          /\ comes_to (fun K => send_message_with_policy (H:=K) s content policy shared m) steadied call)
  \/ exists result m1 m', send_message_with_policy s content policy shared m = Returns (Some result, m')
       /\ opened m content m1 /\ finished m1 m' result.
Proof.
  intros Ha. destruct (follows_message steadied s content policy shared H m (answers_as_steadied H))
    as [E|HP]; [right | by left].
  destruct (message_result (H := steadied) s content policy shared m Ha) as (result & m1 & m' & E' & Hopen & Hf).
  exists result, m1, m'. split; [exact (eq_trans E E') | done].
Qed.
Lemma send_returns {W} {H : Surroundings W} {clock : Clock} {chrono : Chrono} {js : SerdeJson} {pretty : PrettyJson}
    {diff : LineDiff} {hash : ContentHash} s content policy shared (m : ConversationManager W) :
  active m = None ->
  send_message_with_policy s content policy shared m = Panics
  \/ exists result m', send_message_with_policy s content policy shared m = Returns (Some result, m').
Proof.
  intros Ha. destruct (message_outcome s content policy shared m Ha) as [[E _]|(result & m1 & m' & E & _)]; [by left|].
  right. by exists result, m'.
Qed.

(** C1: every message is answered.  Whatever the model streams, the tools return and the user
    allows, a message sent while no turn is open ends: within [4 * max_tool_rounds + 12] rounds,
    retries included, with an answer or an error.  The manager itself never panics: when the message
    panics, then at a request or a call of a tool that panics and that the message comes to, so that
    it panics with whatever surroundings panic at that call and otherwise answer the same.  When it ends, the document has one turn
    more, with the message as its input, and no turn is open; an error fails the turn with its text,
    and with an answer the tokens of the turn are those the manager reports. *)
Theorem message_answered {W} {sur : Surroundings W} {clock : Clock} {chrono : Chrono} {js : SerdeJson} {pretty : PrettyJson}
    {diff : LineDiff} {hash : ContentHash} s content policy shared (m : ConversationManager W) :
  active m = None ->
  match send_message_with_policy s content policy shared m with
  | Panics => exists call, panics_at sur call
      /\ comes_to (fun K => send_message_with_policy (H:=K) s content policy shared m) steadied call
  | Returns (answer, m') =>
      exists result d turn,
        answer = Some result
        /\ task_doc m' = Some d /\ active_pulse d = None
        /\ completed_turns d = turns_of m ++ [turn] /\ td_input turn = content
        /\ match result with
           | inr error => td_outcome turn = OutcomeFailed error
           | inl _ => (td_outcome turn = OutcomeCompleted \/ td_outcome turn = OutcomeMaxTurnsReached)
                      /\ td_tokens turn = last_turn_tokens m'
           end
  end.
Proof.
  intros Ha. destruct (message_outcome s content policy shared m Ha)
    as [[-> Hp]|(result & m1 & m' & -> & (_ & d & a & Hd & Hact & Hi & Hc) & Hf)]; [done|].
  destruct (Hf d a Hd Hact) as (d' & turn & Hd' & Ha' & Hc' & Hi' & Hr). exists result, d', turn.
  split_and!; try done; congruence.
Qed.

Lemma message_answered_witness :
  let m := sample_manager sample_script in
  active m = None
  /\ exists m' d turn,
    @send_message_with_policy _ scripted step_clock plain_chrono empty_codec plain_pretty plain_diff plain_hash
      (sample_settings true true) t!"write it" DefaultPolicy None m = Returns (Some (inl t!"Written."), m')
    /\ task_doc m' = Some d /\ active_pulse d = None
    /\ completed_turns d = turns_of m ++ [turn] /\ td_input turn = t!"write it"
    /\ (td_outcome turn = OutcomeCompleted \/ td_outcome turn = OutcomeMaxTurnsReached)
    /\ td_tokens turn = last_turn_tokens m'.
Proof.
  cbv zeta. split; [reflexivity|].
  pose proof (@message_answered _ scripted step_clock plain_chrono empty_codec plain_pretty plain_diff plain_hash
    (sample_settings true true) t!"write it" DefaultPolicy None (sample_manager sample_script) eq_refl) as Hm.
  destruct (send_message_with_policy _ _ _ _ _) as [[answer m']|] eqn:E.
  - destruct Hm as (result & d & turn & -> & Hd & Ha & Hc & Hi & Hr). exists m', d, turn.
    assert (result = inl t!"Written.") as ->.
    { apply (f_equal (fun o => match o with Returns (Some r, _) => r | _ => inr [] end)) in E. by vm_compute in E. }
    split; [reflexivity|]. clear E. destruct Hr. by split_and!.
  - destruct Hm as ([messages w|name input w] & Hp & _); destruct scripted_steady; [left | right]; eauto.
Defined.
