(* ===== verification/ConversationSafety.v ===== *)
(** What a message may do: which calls of tools are run, and with whose approval; what it writes
    into the history; and where the code does not do what it says. *)
From Stdlib Require Import NArith ZArith Lia.
From stdpp Require Import base list gmap strings numbers sets.
From S2P Require Import Prelude Text Collections Json Usage Evidence PeerChannel Envelope ToolPreview History FileSystem Workspace TaskDocument TaskDocumentTheory ToolRules ConversationState ConversationTurn ConversationTheory.
#[local] Open Scope N_scope.

(** ** A log of the surroundings *)
Inductive Event : Type :=
| Asked (request : ToolApprovalRequest) (answer : bool)
| Called (name : str) (input : value)
| HookRan (command : str) (args : list str)
| Posted (url : str)
| Requested (messages : nat).

Definition noting {W A : Type} (event : A -> list Event) (f : W -> A * W) (w : list Event * W) : A * (list Event * W) :=
  let '(a, w') := f w.2 in (a, (w.1 ++ event a, w')).

(** Of an operation that can panic; a panic leaves no log. *)
Definition noting_try {W A : Type} (event : A -> list Event) (f : W -> outcome (A * W)) (w : list Event * W)
    : outcome (A * (list Event * W)) :=
  '(a, w') ← f w.2; Returns (a, (w.1 ++ event a, w')).

(** The same surroundings, with a log of what is asked of them. *)
Definition logged {W} `{Surroundings W} : Surroundings (list Event * W) := {|
  create_stream messages := noting_try (fun _ => [Requested (length messages)]) (create_stream messages);
  answer_approval request := noting (fun answer => [Asked request answer]) (answer_approval request);
  run_hook_command command args := noting (fun _ => [HookRan command args]) (run_hook_command command args);
  post_hook hook tool file := noting (fun _ => [Posted (url hook)]) (post_hook hook tool file);
  call_tool name input := noting_try (fun _ => [Called name input]) (call_tool name input);
  read_bytes p := noting (fun _ => []) (read_bytes p);
  clear_ledger w := (w.1, clear_ledger w.2);
  new_uuid := noting (fun _ => []) new_uuid;
|}.

(** ** Names *)
Lemma alias_confirmation name : tool_requires_confirmation (normalize_shell_tool_alias name) = tool_requires_confirmation name.
Proof.
  unfold normalize_shell_tool_alias. destruct (str_in name _) eqn:E; [|done]. unfold str_in in E. cbn [existsb] in E.
  repeat (apply orb_true_iff in E as [E|E]; [apply bool_decide_eq_true in E; by subst|]). done.
Qed.

Lemma read_only_no_confirmation name : is_read_only_tool_name name = true -> tool_requires_confirmation name = false.
Proof.
  unfold is_read_only_tool_name, str_in. intros E. cbn [existsb] in E.
  repeat (apply orb_true_iff in E as [E|E]; [apply bool_decide_eq_true in E; by subst|]). done.
Qed.

#[export] Instance logged_steady {W} {H : Surroundings W} `{!Steady W} : @Steady _ logged.
Proof.
  intros [(messages & w & E)|(name & input & w & E)]; cbn in E; unfold noting_try in E; apply steady.
  - left. exists messages, w.2. by destruct (create_stream messages w.2) as [[? ?]|].
  - right. exists name, input, w.2. by destruct (call_tool name input w.2) as [[? ?]|].
Qed.

Section approvals.
Context {W : Type} {sur : Surroundings W} `{!Steady W} {clock : Clock} {chrono : Chrono}.
Context {js : SerdeJson} {pretty : PrettyJson} {diff : LineDiff} {hash : ContentHash}.
#[local] Existing Instance logged.
Notation LW := (list Event * W)%type.
Notation Mgr := (ConversationManager LW).
Variable s : Settings.
(** Whether every call needs an approval. *)
Variable all_calls : bool.

Definition is_call (e : Event) : bool := match e with Called _ _ => true | _ => false end.

(** A call that needs an approval comes after one that was given to it, and no other call comes
    between; the command of a hook comes right after its approval. *)
Record allowed (log : list Event) : Prop := {
  allowed_calls : forall before name input after,
    log = before ++ Called name input :: after -> all_calls || tool_requires_confirmation name = true ->
    exists earlier asked between,
      before = earlier ++ Asked (mk_ToolApprovalRequest asked (tool_input_preview asked input)) true :: between
      /\ normalize_shell_tool_alias asked = name /\ forallb (fun e => negb (is_call e)) between = true;
  allowed_hooks : forall before command args after,
    log = before ++ HookRan command args :: after ->
    exists earlier input,
      before = earlier ++ [Asked (mk_ToolApprovalRequest t!"run_command" (tool_input_preview t!"run_command" input)) true]
      /\ value_get t!"command" input = Some (String command) /\ value_get t!"args" input = Some (Array (map String args));
}.

Lemma allowed_app log log' : allowed log -> allowed log' -> allowed (log ++ log').
Proof.
  intros H1 H2. split.
  - intros before name input after Heq Hn.
    destruct (app_eq_app _ _ _ _ Heq) as [l [[Hl Hr]|[Hl Hr]]].
    + destruct l as [|e l]; cbn in Hr.
      * rewrite app_nil_r in Hl. subst log. destruct (allowed_calls _ H2 [] name input after) as (e & a & b & He & ?); [by rewrite <- Hr | done |].
        by destruct e.
      * injection Hr as <- ->. destruct (allowed_calls _ H1 before name input l) as (e & a & b & -> & Ha & Hb); [done | done |].
        by exists e, a, b.
    + subst. destruct (allowed_calls _ H2 l name input after) as (e & a & b & -> & Ha & Hb); [done | done |].
      exists (log ++ e), a, b. by rewrite <- app_assoc.
  - intros before command args after Heq.
    destruct (app_eq_app _ _ _ _ Heq) as [l [[Hl Hr]|[Hl Hr]]].
    + destruct l as [|e l]; cbn in Hr.
      * rewrite app_nil_r in Hl. subst log. destruct (allowed_hooks _ H2 [] command args after) as (e & i & He & ?); [by rewrite <- Hr |].
        by destruct e.
      * injection Hr as <- ->. destruct (allowed_hooks _ H1 before command args l) as (e & i & -> & Ha); [done |].
        by exists e, i.
    + subst. destruct (allowed_hooks _ H2 l command args after) as (e & i & -> & Ha); [done |].
      exists (log ++ e), i. by rewrite <- app_assoc.
Qed.

Lemma allowed_plain e :
  match e with Called _ _ | HookRan _ _ => False | _ => True end -> allowed [e].
Proof.
  intros He. split; intros before ? ? after Heq; destruct before as [|x [|? ?]]; cbn in Heq; try done; by injection Heq as ->.
Qed.
Lemma allowed_nil : allowed [].
Proof. split; intros before ? ? after Heq; by destruct before. Qed.

(** What a hook's approval and its run write. *)
Definition hook_pair (input : value) (command : str) (args : list str) : list Event :=
  [Asked (mk_ToolApprovalRequest t!"run_command" (tool_input_preview t!"run_command" input)) true; HookRan command args].

Lemma allowed_hook input command args :
  value_get t!"command" input = Some (String command) -> value_get t!"args" input = Some (Array (map String args)) ->
  allowed (hook_pair input command args).
Proof.
  intros Hc Ha. split; intros before ? ? after Heq; destruct before as [|x [|y [|? ?]]]; cbn in Heq; try done.
  injection Heq as <- <- <- <-. by exists [], input.
Qed.

(** A log without calls. *)
Definition quiet (log : list Event) : Prop := allowed log /\ forallb (fun e => negb (is_call e)) log = true.

(** What holds of logs that are composed of the events around calls. *)
Class LogRule (P : list Event -> Prop) : Prop := {
  rule_nil : P [];
  rule_app : forall l l', P l -> P l' -> P (l ++ l');
  rule_plain : forall e, match e with Called _ _ | HookRan _ _ => False | _ => True end -> P [e];
  rule_hook : forall input command args,
    value_get t!"command" input = Some (String command) -> value_get t!"args" input = Some (Array (map String args)) ->
    P (hook_pair input command args);
}.
#[export] Instance allowed_rule : LogRule allowed.
Proof. split; [apply allowed_nil | apply allowed_app | apply allowed_plain | apply allowed_hook]. Qed.
#[export] Instance quiet_rule : LogRule quiet.
Proof.
  split.
  - split; [apply allowed_nil | done].
  - intros l l' [H1 Q1] [H2 Q2]. split; [by apply allowed_app | by rewrite forallb_app, Q1, Q2].
  - intros e He. split; [by apply allowed_plain | by destruct e].
  - intros. split; [by apply allowed_hook | done].
Qed.

Section rule.
Variable P : list Event -> Prop.
Context `{!LogRule P}.

(** The log is extended by one that the rule holds of. *)
Definition extends (m m' : Mgr) : Prop := exists log, (world m').1 = (world m).1 ++ log /\ P log.

#[export] Instance extends_preorder : PreOrder extends.
Proof.
  split.
  - intros m. exists []. rewrite app_nil_r. split; [done | apply rule_nil].
  - intros m1 m2 m3 (l1 & E1 & H1) (l2 & E2 & H2). exists (l1 ++ l2). rewrite E2, E1, app_assoc. split; [done | by apply rule_app].
Qed.

Lemma extends_same (m m' : Mgr) : world m' = world m -> extends m m'.
Proof. intros E. exists []. rewrite E, app_nil_r. split; [done | apply rule_nil]. Qed.

#[export] Instance extends_tracks : Tracks extends.
Proof. split; [exact _ | by intros; apply extends_same ..]. Qed.
#[export] Instance extends_conv : TracksConv extends.
Proof. intros c m. by apply extends_same. Qed.
Hint Resolve extends_tracks extends_conv : respects.

Lemma extends_noting {A} (event : A -> list Event) (f : W -> A * W) :
  (forall a, P (event a)) -> respects extends (in_world (noting event f)).
Proof.
  intros He. apply respects_world. intros m. unfold noting. destruct (f (world m).2) as [a w].
  by exists (event a).
Qed.
Lemma extends_stream messages : respects extends (try_world (create_stream messages)).
Proof.
  apply respects_try.
  - intros w E. apply (steady (H := logged)). left. by exists messages, w.
  - intros w a w' m E Hw. cbn in E. unfold noting_try in E. destruct (create_stream messages w.2) as [[b w1]|]; [|done].
    cbn in E. injection E as -> <-. exists [Requested (length messages)]. cbn. rewrite Hw. split; [done|]. by apply rule_plain.
Qed.
Lemma extends_read p : respects extends (in_world (read_bytes p)).
Proof. apply extends_noting. intros a. apply rule_nil. Qed.
Lemma extends_ask request : respects extends (in_world (answer_approval request)).
Proof. apply extends_noting. intros a. by apply rule_plain. Qed.
Lemma extends_post hook tool file : respects extends (in_world (post_hook hook tool file)).
Proof. apply extends_noting. intros a. by apply rule_plain. Qed.
Hint Resolve extends_stream extends_read extends_ask extends_post : respects.

Lemma extends_undo name input : respects extends (capture_undo_snapshot s name input).
Proof. unfold capture_undo_snapshot. auto 10 with respects. Qed.

Lemma extends_hook tool input hook : respects extends (run_hook s tool input hook).
Proof.
  unfold run_hook, request_tool_approval. cbv zeta. set (approval_input := Object _). set (args := map _ (hk_args hook)).
  destruct (has_channel s) eqn:Hch; cbn [negb]; [|intros m Hm; by exists None, m]. intros m Hm.
  destruct (ok_emit s extends (UToolApprovalRequest (mk_ToolApprovalRequest t!"run_command" (tool_input_preview t!"run_command" approval_input))) m Hm)
    as ([] & m1 & E1 & Hm1 & X1).
  set (request := mk_ToolApprovalRequest _ _) in *.
  assert (forall (f : bool -> M LW (option str)) b w, answer_approval request (world m1).2 = (b, w) ->
    ((emit s (UToolApprovalRequest request);; in_world (@answer_approval _ logged request)) ≫= f) m
    = f b (set_world ((world m1).1 ++ [Asked request b], w) m1)) as Hask.
  { intros f b w Eb. rewrite (pst_bind_returns _ _ m b (set_world ((world m1).1 ++ [Asked request b], w) m1)); [done|].
    rewrite (pst_bind_returns _ _ _ _ _ E1). unfold in_world. cbn. unfold noting. by rewrite Eb. }
  destruct (answer_approval request (world m1).2) as [b w] eqn:Eb. rewrite (Hask _ b w eq_refl). clear Hask.
  set (m2 := set_world _ m1). assert (sane m2) as Hm2 by exact Hm1. destruct b; cbn [negb].
  - unfold in_world. cbn. unfold noting. destruct (run_hook_command (hk_command hook) args w) as [result w'] eqn:Er.
    unfold mbind, pst_bind, mret, pst_ret. cbn. rewrite Er. eexists _, _. split; [reflexivity|]. split; [exact Hm1|].
    destruct X1 as (l1 & El1 & P1). exists (l1 ++ hook_pair approval_input (hk_command hook) args).
    cbn. rewrite El1, <- !app_assoc. split; [done|]. apply rule_app; [done|]. by apply rule_hook.
  - eexists _, m2. split; [reflexivity|]. split; [done|]. destruct X1 as (l1 & El1 & P1). exists (l1 ++ [Asked request false]).
    cbn. rewrite El1, app_assoc. split; [done|]. apply rule_app; [done|]. by apply rule_plain.
Qed.

Lemma extends_http_hook tool input hook : respects extends (run_http_hook tool input hook).
Proof. unfold run_http_hook. auto 10 with respects. Qed.
Hint Resolve extends_hook extends_http_hook : respects.

Lemma extends_all_hooks trigger tool input : respects extends (all_hooks s trigger tool input).
Proof. unfold all_hooks, run_hooks, run_http_hooks. auto 20 with respects. Qed.
End rule.
Hint Resolve extends_tracks extends_conv extends_stream extends_read extends_ask extends_post extends_undo extends_all_hooks
  allowed_rule quiet_rule : respects.

(** *** A call *)
(** The log of a tool that is run: its call, perhaps, between hooks. *)
Definition call_log (name : str) (input : value) (log : list Event) : Prop :=
  quiet log \/ exists before after, log = before ++ Called name input :: after /\ quiet before /\ quiet after.

Lemma execute_log name input (m : Mgr) :
  sane m -> exists r m', execute_tool_with_timeout_with_updates s name input m = Returns (r, m') /\ sane m'
    /\ extends (call_log (normalize_shell_tool_alias name) input) m m'.
Proof.
  intros Hm. unfold execute_tool_with_timeout_with_updates. cbv zeta. set (tool := normalize_shell_tool_alias name).
  destruct (refused_by_policy s tool) as [error|].
  { exists (inr error), m. split; [done|]. split; [done|]. exists []. rewrite app_nil_r. split; [done|]. left. apply rule_nil. }
  destruct (extends_all_hooks quiet PreTool tool input m Hm) as (e1 & m1 & E1 & Hm1 & l1 & L1 & Q1).
  rewrite (pst_bind_returns _ _ _ _ _ E1). destruct e1 as [error|].
  { exists (inr error), m1. split; [done|]. split; [done|]. exists l1. split; [done|]. by left. }
  destruct (call_tool tool input (world m1).2) as [[[result sent] w]|] eqn:Ec; [|exfalso; apply steady; right; by eexists _, _, _].
  unfold try_world. cbn. unfold noting_try.
  unfold mbind at 1, pst_bind at 1. cbn. rewrite Ec. cbn. set (m2 := set_world ((world m1).1 ++ [Called tool input], w) m1).
  assert (respects (extends quiet) (for_each (emit s) sent)) as Hsend by auto 10 with respects.
  destruct (Hsend m2 Hm1) as ([] & m3 & E3 & Hm3 & l3 & L3 & Q3). rewrite (pst_bind_returns _ _ _ _ _ E3).
  assert (forall (m' : Mgr) l, (world m').1 = (world m3).1 ++ l -> quiet l ->
    exists log, (world m').1 = (world m).1 ++ log /\ call_log tool input log) as Hlog.
  { intros m' l Hl Hq. exists (l1 ++ Called tool input :: (l3 ++ l)). split.
    - rewrite Hl, L3. unfold m2. cbn. rewrite L1, <- !app_assoc. done.
    - right. exists l1, (l3 ++ l). split; [done|]. split; [done|]. by apply rule_app. }
  destruct result as [output|error].
  - destruct (extends_all_hooks quiet PostTool tool input m3 Hm3) as (e4 & m4 & E4 & Hm4 & l4 & L4 & Q4).
    rewrite (pst_bind_returns _ _ _ _ _ E4). eexists _, m4. split; [reflexivity|]. split; [done|]. by apply (Hlog m4 l4).
  - eexists _, m3. split; [reflexivity|]. split; [done|]. apply (Hlog m3 []); [by rewrite app_nil_r | apply rule_nil].
Qed.

(** A call that needs no approval, or one that was just given. *)
Lemma allowed_call_free name input log :
  all_calls || tool_requires_confirmation name = false -> call_log name input log -> allowed log.
Proof.
  intros Hn [[H _]|(before & after & -> & [H1 _] & [H2 _])]; [done|]. apply allowed_app; [done|].
  change (Called name input :: after) with ([Called name input] ++ after). apply allowed_app; [|done].
  split; intros b ? ? aft Heq; destruct b as [|? [|? ?]]; cbn in Heq; try done.
  injection Heq as <- <- <-. by rewrite Hn.
Qed.

Lemma allowed_call_asked asked input log :
  call_log (normalize_shell_tool_alias asked) input log ->
  allowed (Asked (mk_ToolApprovalRequest asked (tool_input_preview asked input)) true :: log).
Proof.
  intros [[H _]|(before & after & -> & [H1 Q1] & [H2 _])].
  - by apply (allowed_app [_]); [apply allowed_plain|].
  - set (a := Asked _ true). change (a :: before ++ Called (normalize_shell_tool_alias asked) input :: after)
      with ((a :: before) ++ [Called (normalize_shell_tool_alias asked) input] ++ after).
    rewrite app_assoc. apply allowed_app; [|done]. assert (allowed (a :: before)) as H0 by (by apply (allowed_app [_]); [apply allowed_plain|]).
    split.
    + intros b name i aft Heq Hn. destruct (app_eq_app _ _ _ _ Heq) as [l [[Hl Hr]|[Hl Hr]]].
      * destruct l as [|e l]; cbn in Hr.
        -- injection Hr as -> -> ->. rewrite app_nil_r in Hl. exists [], asked, before. by rewrite <- Hl.
        -- injection Hr as <- ->. by apply (allowed_calls _ H0 b name i l).
      * destruct l as [|e [|? ?]]; cbn in Hr; [|by injection Hr as ? ?; by destruct aft|by injection Hr].
        injection Hr as <- <- <-. rewrite app_nil_r in Hl. exists [], asked, before. by rewrite Hl.
    + intros b command args aft Heq. destruct (app_eq_app _ _ _ _ Heq) as [l [[Hl Hr]|[Hl Hr]]].
      * destruct l as [|e l]; cbn in Hr; [done|]. injection Hr as <- ->. by apply (allowed_hooks _ H0 b command args l).
      * destruct l as [|e [|? ?]]; cbn in Hr; [done | by injection Hr as ? ?; by destruct aft | by injection Hr].
Qed.

Lemma call_log_around name input l1 l l2 : quiet l1 -> call_log name input l -> quiet l2 -> call_log name input (l1 ++ l ++ l2).
Proof.
  intros H1 [Hq|(b & a & -> & Hb & Ha)] H2.
  - left. apply rule_app; [done|]. by apply rule_app.
  - right. exists (l1 ++ b), (a ++ l2). split; [by rewrite <- !app_assoc|]. split; by apply rule_app.
Qed.

(** The call once it is approved, or not. *)
Definition go_on (structured : bool) (limit : nat) (anchor : option (str * option N)) (id name : str) (input : value)
    (approved : bool) : M LW (option (str * option N) * Answers) :=
  set_tool_call_status s id (if approved : bool then Executing else Cancelled);;
  if negb approved then
    a ← refuse s structured limit id name (render_tool_denied_message name); mret (anchor, a)
  else
    undo_snapshot ← capture_undo_snapshot s name input;
    result ← execute_tool_with_timeout_with_updates s name input;
    match result, undo_snapshot with
    | inl _, Some cp => push_undo_checkpoint s cp
    | _, _ => mret tt
    end;;
    a ← answer_call s structured limit id name input result;
    mret (read_anchor name input result anchor, a).

Lemma go_on_log structured limit anchor id name input (m : Mgr) :
  sane m -> exists a m', go_on structured limit anchor id name input true m = Returns (a, m') /\ sane m'
    /\ extends (call_log (normalize_shell_tool_alias name) input) m m'.
Proof.
  intros Hm. unfold go_on. cbn [negb].
  destruct (ok_set_status s (extends quiet) id Executing m Hm) as ([] & m1 & E1 & Hm1 & l1 & L1 & Q1).
  rewrite (pst_bind_returns _ _ _ _ _ E1).
  destruct (extends_undo quiet name input m1 Hm1) as (cp & m2 & E2 & Hm2 & l2 & L2 & Q2).
  rewrite (pst_bind_returns _ _ _ _ _ E2).
  destruct (execute_log name input m2 Hm2) as (r & m3 & E3 & Hm3 & l3 & L3 & C3). rewrite (pst_bind_returns _ _ _ _ _ E3).
  match goal with |- exists a m', ?op m3 = _ /\ _ => assert (respects (extends quiet) op) as Hrest by (auto 10 with respects) end.
  destruct (Hrest m3 Hm3) as (a & m4 & E4 & Hm4 & l4 & L4 & Q4). exists a, m4. split; [exact E4|]. split; [done|].
  exists ((l1 ++ l2) ++ l3 ++ l4). split; [by rewrite L4, L3, L2, L1, <- !app_assoc|].
  apply call_log_around; [by apply rule_app | done | done].
Qed.

Hypothesis channel : has_channel s = true.

Lemma extends_one_call user policy structured limit anchor id name input :
  respects (extends allowed) (run_one_call s user policy all_calls structured limit anchor id name input).
Proof.
  unfold run_one_call. destruct (refusal s user policy anchor name input); [auto 10 with respects|].
  fold (go_on structured limit anchor id name input).
  change (respects (extends allowed) ((if all_calls || tool_requires_confirmation name
    then set_tool_call_status s id WaitingApproval;; request_tool_approval s name input else mret true) ≫= go_on structured limit anchor id name input)).
  destruct (all_calls || tool_requires_confirmation name) eqn:Hneed.
  - unfold request_tool_approval. rewrite channel. cbn [negb]. intros m Hm.
    destruct (ok_set_status s (extends allowed) id WaitingApproval m Hm) as ([] & m1 & E1 & Hm1 & X1).
    set (request := mk_ToolApprovalRequest name (tool_input_preview name input)).
    destruct (ok_emit s (extends allowed) (UToolApprovalRequest request) m1 Hm1) as ([] & m2 & E2 & Hm2 & X2).
    destruct (answer_approval request (world m2).2) as [b w] eqn:Eb.
    set (m3 := set_world ((world m2).1 ++ [Asked request b], w) m2).
    assert ((set_tool_call_status s id WaitingApproval;; emit s (UToolApprovalRequest request);; in_world (@answer_approval _ logged request)) m
      = Returns (b, m3)) as Hask.
    { rewrite (pst_bind_returns _ _ _ _ _ E1), (pst_bind_returns _ _ _ _ _ E2). unfold in_world. cbn. unfold noting. by rewrite Eb. }
    rewrite (pst_bind_returns _ _ _ _ _ Hask). assert (extends allowed m m2) as (l2 & L2 & P2) by (by transitivity m1).
    assert (sane m3) as Hm3 by exact Hm2. destruct b.
    + destruct (go_on_log structured limit anchor id name input m3 Hm3) as (a & m4 & E4 & Hm4 & l4 & L4 & C4).
      exists a, m4. split; [exact E4|]. split; [done|]. exists (l2 ++ Asked request true :: l4).
      split; [rewrite L4; unfold m3; cbn; by rewrite L2, <- !app_assoc|]. apply allowed_app; [done|]. by apply allowed_call_asked.
    + assert (respects (extends allowed) (go_on structured limit anchor id name input false)) as Hno by (unfold go_on; cbn [negb]; auto 10 with respects).
      destruct (Hno m3 Hm3) as (a & m4 & E4 & Hm4 & l4 & L4 & P4). exists a, m4. split; [exact E4|]. split; [done|].
      exists (l2 ++ [Asked request false] ++ l4). split; [rewrite L4; unfold m3; cbn; by rewrite L2, <- !app_assoc|].
      apply allowed_app; [done|]. apply allowed_app; [by apply allowed_plain | done].
  - intros m Hm. destruct (go_on_log structured limit anchor id name input m Hm) as (a & m' & E & Hm' & l & L & C).
    exists a, m'. split; [exact E|]. split; [done|]. exists l. split; [done|]. apply (allowed_call_free (normalize_shell_tool_alias name) input); [|done].
    by rewrite alias_confirmation.
Qed.
Hint Resolve extends_one_call : respects.

Lemma extends_calls user policy structured limit calls anchor answers :
  respects (extends allowed) (run_calls s user policy all_calls structured limit calls anchor answers).
Proof.
  revert anchor answers. induction calls as [|[[id name] input] calls IH]; intros anchor answers; cbn [run_calls];
    auto 10 with respects.
Qed.

Lemma tool_uses_names blocks p id name input :
  all_tool_uses p blocks = true -> (id, name, input) ∈ tool_uses blocks -> p name = true.
Proof.
  unfold all_tool_uses, tool_uses. intros Hall Hin. apply list_elem_of_omap in Hin as (b & Hb & Heq).
  rewrite forallb_forall in Hall. specialize (Hall b). rewrite <- list_elem_of_In in Hall. specialize (Hall Hb).
  destruct b; try done. by injection Heq as <- <- <-.
Qed.

Lemma extends_execute_read_only name input :
  all_calls = false -> is_read_only_tool_name name = true ->
  respects (extends allowed) (execute_tool_with_timeout_with_updates s name input).
Proof.
  intros Hall Hn m Hm. destruct (execute_log name input m Hm) as (r & m' & E & Hm' & l & L & C).
  exists r, m'. split; [done|]. split; [done|]. exists l. split; [done|].
  apply (allowed_call_free (normalize_shell_tool_alias name) input); [|done].
  by rewrite Hall, alias_confirmation, read_only_no_confirmation.
Qed.

Lemma extends_parallel blocks user structured :
  all_calls = false -> all_tool_uses is_read_only_tool_name blocks = true ->
  respects (extends allowed) (execute_parallel_tool_round s blocks user structured).
Proof.
  intros Hall Hnames. unfold execute_parallel_tool_round. apply respects_bind; [exact _ | auto 10 with respects | intros _].
  apply respects_bind; [exact _ | auto 12 with respects | intros snapshots].
  apply respects_bind; [exact _ | | intros completed].
  - apply respects_map_M; [exact _|]. intros [[id name] input] Hin. apply respects_bind; [exact _ | | auto with respects].
    destruct (location_or_read_only_prompt _ _ _ _); [auto with respects|]. apply extends_execute_read_only; [done|].
    by eapply tool_uses_names.
  - apply respects_bind; [exact _ | | auto with respects].
    assert (respects (extends allowed) (mret snapshots)) as Hrest by auto with respects. revert Hrest.
    generalize (mret snapshots : M LW (gmap str UndoCheckpoint)).
    induction completed as [|c completed IH]; intros rest Hrest; cbn [foldl]; [done|]. apply IH. auto 12 with respects.
Qed.

Lemma extends_tool_round user policy structured limit blocks anchor :
  respects (extends allowed) (run_tool_round s user policy all_calls structured limit blocks anchor).
Proof.
  unfold run_tool_round. destruct (should_parallelize_tool_round blocks all_calls) eqn:Hp; [|apply extends_calls].
  unfold should_parallelize_tool_round in Hp. apply andb_true_iff in Hp as [[Hp _]%andb_true_iff Hsafe].
  apply negb_true_iff in Hp. assert (all_tool_uses is_read_only_tool_name blocks = true) as Hr.
  { unfold is_parallel_safe_tool_round in Hsafe. by destruct blocks. }
  apply respects_bind; [exact _ | by apply extends_parallel | auto with respects].
Qed.
Hint Resolve extends_tool_round : respects.

(** *** A message *)
Notation ext := (extends allowed).

Lemma bind_assoc_at {S A B C} (op : PST S A) (f : A -> PST S B) (g : B -> PST S C) st :
  ((op ≫= f) ≫= g) st = (op ≫= (fun a => f a ≫= g)) st.
Proof. unfold mbind, pst_bind. by destruct (op st) as [[a st']|]. Qed.

Lemma extends_finish o tokens : respects ext (finish_turn_doc o tokens).
Proof.
  intros m Hm. unfold finish_turn_doc. run. destruct (task_doc m) as [d|] eqn:Hd; run; eexists _, _; (split; [reflexivity|]).
  - split; [|apply extends_same; [exact _ | done]]. intros a. unfold active. cbn. unfold finish_turn.
    destruct (active_pulse d) eqn:Ha; cbn; [done|by rewrite Ha].
  - split; [exact Hm | apply extends_same; [exact _ | done]].
Qed.
Hint Resolve extends_finish : respects.

Lemma extends_set_tokens tokens : respects ext (modify (set_last_turn_tokens tokens)).
Proof. apply respects_modify; [done | done | intros; apply extends_same; [exact _ | done]]. Qed.
Hint Resolve extends_set_tokens : respects.

Lemma extends_stop_with msg o tokens : respects ext (stop_with s msg o tokens).
Proof. unfold stop_with. auto 10 with respects. Qed.
Hint Resolve extends_stop_with : respects.
Lemma extends_stop msg : respects ext (stop_completed s msg).
Proof. unfold stop_completed. auto 10 with respects. Qed.
Hint Resolve extends_stop : respects.
Lemma extends_guard is_local max text blocks v : respects ext (guard_repeats s is_local max text blocks v).
Proof. unfold guard_repeats. cbv zeta. auto 20 with respects. Qed.
Lemma extends_without_calls plan is_local text v : respects ext (answer_without_calls s plan is_local text v).
Proof. unfold answer_without_calls, tell_model. cbv zeta. auto 20 with respects. Qed.
Lemma extends_answer_calls plan structured blocks v :
  require_tool_approval plan = all_calls -> respects ext (answer_calls s plan structured blocks v).
Proof. intros Hp. unfold answer_calls. rewrite Hp. auto 20 with respects. Qed.
Hint Resolve extends_guard extends_without_calls extends_answer_calls : respects.

Lemma extends_close_round plan v r : require_tool_approval plan = all_calls -> respects ext (close_round s plan v r).
Proof. intros Hp. unfold close_round, tell_model. cbv zeta. auto 20 with respects. Qed.
Hint Resolve extends_close_round : respects.

Lemma extends_request_stream v : respects ext (request_stream s v).
Proof. unfold request_stream, retry_after_overflow. auto 30 with respects. Qed.
Hint Resolve extends_request_stream : respects.

Lemma extends_turn_round plan v (m : Mgr) :
  require_tool_approval plan = all_calls ->
  exists step m', turn_round s plan v m = Returns (step, m') /\ sane m' /\ ext m m'.
Proof.
  intros Hp. unfold turn_round, begin_round.
  set (m1 := set_current_round_stream_block_count 0
      (set_current_round_entry_start (match active m with Some a => length (at_entries a) | None => 0%nat end) m)).
  assert (sane m1) as Hm1 by (intros a Ha; unfold m1 in *; unfold active in Ha; cbn in *; unfold active; by rewrite Ha).
  rewrite bind_assoc_at, (pst_bind_returns _ _ m tt m1) by done.
  match goal with |- exists step m', ?op m1 = _ /\ _ => assert (respects ext op) as Hop end.
  { unfold stop_with, tell_model. auto 30 with respects. }
  destruct (Hop m1 Hm1) as (step & m' & E & Hm' & X). exists step, m'. split_and!; [done | done |].
  etransitivity; [|exact X]. apply extends_same; [exact _ | done].
Qed.

Lemma extends_turn_loop fuel plan v (m : Mgr) :
  require_tool_approval plan = all_calls ->
  exists result m', turn_loop s fuel plan v m = Returns (result, m') /\ ext m m'.
Proof.
  intros Hp. revert v m. induction fuel as [|fuel IH]; intros v m; cbn [turn_loop]; [by exists None, m|].
  destruct (extends_turn_round plan v m Hp) as (step & m1 & E1 & _ & X1). rewrite (pst_bind_returns _ _ _ _ _ E1).
  destruct step as [v1|result]; [|by exists (Some result), m1]. destruct (IH v1 m1) as (result & m2 & E2 & X2).
  exists result, m2. split; [done | by etransitivity].
Qed.
End approvals.

(** *** What is done before the first request *)
Section opening.
Context {W : Type} {sur : Surroundings W} {clock : Clock} {chrono : Chrono}.
Context {js : SerdeJson} {pretty : PrettyJson} {diff : LineDiff} {hash : ContentHash}.
#[local] Existing Instance logged.
Notation LW := (list Event * W)%type.
Notation Mgr := (ConversationManager LW).
Variable s : Settings.

(** An operation that writes no log and keeps the kind of the endpoint. *)
Definition silent {A} (op : M LW A) : Prop := forall m a m',
  op m = Returns (a, m') -> (world m').1 = (world m).1 /\ is_local_endpoint (conv m') = is_local_endpoint (conv m).

Lemma silent_ret {A} (a : A) : silent (mret a).
Proof. intros m b m' [= <- <-]. done. Qed.
Lemma silent_bind {A B} (op : M LW A) (f : A -> M LW B) : silent op -> (forall a, silent (f a)) -> silent (op ≫= f).
Proof.
  intros Hop Hf m b m' E. pst_inv.
  match goal with H1 : op m = _, H2 : f _ _ = _ |- _ => apply Hop in H1 as [<- <-]; by apply Hf in H2 end.
Qed.
Lemma silent_gets {A} (f : Mgr -> A) : silent (gets f).
Proof. intros m b m' [= <- <-]. done. Qed.
Lemma silent_modify (f : Mgr -> Mgr) :
  (forall m, (world (f m)).1 = (world m).1) -> (forall m, is_local_endpoint (conv (f m)) = is_local_endpoint (conv m)) ->
  silent (modify f).
Proof. intros Hw Hl m b m' [= <- <-]. done. Qed.
Lemma silent_world {A} (f : LW -> A * LW) : (forall w, (f w).2.1 = w.1) -> silent (in_world f).
Proof.
  intros Hf m b m' E. unfold in_world in E. specialize (Hf (world m)). destruct (f (world m)) as [a w]. by injection E as <- <-.
Qed.
Lemma silent_conv {A} (f : Conversation -> A * Conversation) :
  (forall c, is_local_endpoint (f c).2 = is_local_endpoint c) -> silent (on_conv f).
Proof.
  intros Hf m b m' E. unfold on_conv in E. specialize (Hf (conv m)). destruct (f (conv m)) as [a c]. by injection E as <- <-.
Qed.
Lemma silent_now : silent now.
Proof. intros m b m' [= <- <-]. done. Qed.
Lemma silent_unwind {A} (o : outcome A) : silent (unwind o).
Proof. intros m b m' E. unfold unwind in E. destruct o; [|done]. by injection E as <- <-. Qed.
Lemma silent_emit u : silent (emit s u).
Proof. unfold emit. destruct (has_channel s); [by apply silent_modify | apply silent_ret]. Qed.

Lemma local_compact keep summary c : is_local_endpoint (compact_with_summary keep summary c).2 = is_local_endpoint c.
Proof. unfold compact_with_summary. repeat (case_match; try done). Qed.
Lemma local_proactive window evidence c : is_local_endpoint (run_proactive_compaction window evidence c).2 = is_local_endpoint c.
Proof.
  unfold run_proactive_compaction. destruct (_ && _); [done|].
  destruct (compact_with_summary _ _ c) as [removed c'] eqn:E. apply (f_equal (fun x => is_local_endpoint x.2)) in E.
  rewrite local_compact in E. by destruct (removed =? 0)%nat.
Qed.
Lemma local_condense keep c : is_local_endpoint (condense_old_tool_results keep c) = is_local_endpoint c.
Proof. unfold condense_old_tool_results. by destruct (_ || _). Qed.

Lemma silent_prologue content policy hint :
  silent (modify (set_last_turn_tokens PulseTokens.default);; in_world (fun w => (tt, clear_ledger w));;
          ensure_task_doc s;; begin_turn_doc content policy;; push_user_message content hint).
Proof.
  apply silent_bind; [by apply silent_modify | intros []]. apply silent_bind; [by apply silent_world | intros []].
  apply silent_bind.
  { unfold ensure_task_doc, now_ms. apply silent_bind; [apply silent_gets|]. intros [d|]; [apply silent_ret|].
    apply silent_bind; [apply silent_gets | intros l]. apply silent_bind; [apply silent_bind; [apply silent_now | intros; apply silent_ret] | intros t].
    apply silent_bind; [|intros i; by apply silent_modify]. apply silent_world. intros w. cbn. unfold noting.
    destruct (new_uuid w.2). cbn. by rewrite app_nil_r. }
  intros []. apply silent_bind; [|intros []; by apply silent_modify].
  unfold begin_turn_doc, now_ms. apply silent_bind; [apply silent_gets | intros d].
  apply silent_bind; [|intros []; apply silent_bind; [by apply silent_modify | intros []; by apply silent_modify]].
  destruct d as [d|]; [|apply silent_ret].
  apply silent_bind; [apply silent_bind; [apply silent_now | intros; apply silent_ret] | intros t].
  apply silent_bind; [apply silent_unwind | intros d'; by apply silent_modify].
Qed.

Lemma silent_finish o tokens : silent (finish_turn_doc o tokens).
Proof.
  unfold finish_turn_doc, now_ms. apply silent_bind; [apply silent_gets | intros d].
  apply silent_bind; [|intros []; by apply silent_modify]. destruct d as [d|]; [|apply silent_ret].
  apply silent_bind; [apply silent_bind; [apply silent_now | intros; apply silent_ret] | intros t; by apply silent_modify].
Qed.

Lemma open_message_silent content policy shared (m : Mgr) r m' :
  open_message s content policy shared m = Returns (r, m') ->
  (world m').1 = (world m).1
  /\ match r with
     | inl _ => True
     | inr (plan, _) => require_tool_approval plan = tool_approval_enabled (env s) (is_local_endpoint (conv m))
     end.
Proof.
  unfold open_message. intros E.
  apply pst_bind_inv in E as ([] & m1 & E1 & E). apply pst_bind_inv in E as ([] & m2 & E2 & E).
  apply pst_bind_inv in E as ([] & m3 & E3 & E). apply pst_bind_inv in E as ([] & m4 & E4 & E).
  apply pst_bind_inv in E as ([] & m5 & E5 & Hrest).
  destruct (silent_prologue content policy (shared_prefix_cache_hint s shared) m tt m5) as [Hw Hl].
  { by rewrite (pst_bind_returns _ _ _ _ _ E1), (pst_bind_returns _ _ _ _ _ E2), (pst_bind_returns _ _ _ _ _ E3), (pst_bind_returns _ _ _ _ _ E4). }
  rewrite <- Hw, <- Hl. clear - Hrest. destruct (builtin_supported_git_tools_response content) as [response|].
  - assert (silent (push_message (assistant_message (TextContent response));; emit s (UDelta response);;
        finish_turn_doc OutcomeCompleted PulseTokens.default;; mret (inl response : str + TurnPlan * TurnVars))) as Hs.
    { apply silent_bind; [by apply silent_modify | intros []]. apply silent_bind; [apply silent_emit | intros []].
      apply silent_bind; [apply silent_finish | intros []; apply silent_ret]. }
    destruct (Hs _ _ _ Hrest) as [-> _]. split; [done|]. by pst_inv.
  - apply pst_bind_inv in Hrest as (anchor & m6 & E6 & Hrest). injection E6 as <- <-.
    apply pst_bind_inv in Hrest as (is_local & m6 & E6 & Hrest). injection E6 as <- <-. 
    set (plan := make_plan _ _ _ _) in Hrest. apply pst_bind_inv in Hrest as ([] & m6 & E6 & Hrest). injection E6 as <-.
    apply pst_bind_inv in Hrest as (compacted & m7 & E7 & Hrest).
    destruct (silent_conv _ (local_proactive _ _) _ _ _ E7) as [Hw _]. cbn in Hw. rewrite <- Hw.
    destruct compacted as [[[before after] summary]|].
    + apply pst_bind_inv in Hrest as (? & m8 & E8 & Hrest). destruct (silent_emit _ _ _ _ E8) as [<- _]. by pst_inv.
    + by pst_inv.
Qed.
End opening.

(** With a log, surroundings answer as those that cannot panic. *)
Lemma logged_answers_as {W} (sur : Surroundings W) : answers_as (@logged W sur) (@logged W steadied).
Proof.
  exists (@create_stream _ (@logged W sur)), (@call_tool _ (@logged W sur)). split; [reflexivity|]. unfold unless_panics. cbn.
  unfold noting_try, steady_stream, steady_tool. split.
  - intros messages w. destruct (create_stream messages w.2); [by left | by right].
  - intros name input w. destruct (call_tool name input w.2); [by left | by right].
Qed.

(** C2: no call goes around the user.  Whatever the model streams and the tools and hooks return,
    while a message is answered over a frontend's channel: every tool that needs confirmation, and
    every tool at all when the settings ask for approval of each, is run only after the user has
    said yes to a request for that name and its preview, with no other call since; and the command
    of a hook runs right after a yes to a request that names it and its arguments.  Calls at once
    are among these. *)
Theorem calls_approved {W} {sur : Surroundings W} {clock : Clock} {chrono : Chrono} {js : SerdeJson} {pretty : PrettyJson}
    {diff : LineDiff} {hash : ContentHash} s content policy shared (m : ConversationManager (list Event * W)) result m' :
  has_channel s = true ->
  @send_message_with_policy _ logged clock chrono js pretty diff hash s content policy shared m = Returns (result, m') ->
  exists log, (world m').1 = (world m).1 ++ log
    /\ allowed (tool_approval_enabled (env s) (is_local_endpoint (conv m))) log.
Proof.
  intros Hc E. unfold send_message_with_policy in E. apply pst_bind_inv in E as (opened & m1 & E1 & E).
  destruct (open_message_silent s content policy shared m opened m1 E1) as [<- Hp]. destruct opened as [response|[plan v]].
  - pst_inv. exists []. rewrite app_nil_r. split; [done | apply allowed_nil].
  - apply (follows_returns _ _ _ (follows_turn_loop (@logged W steadied) s (turn_fuel plan) plan v) (logged_answers_as sur)) in E.
    destruct (extends_turn_loop (sur := steadied) s _ Hc (turn_fuel plan) plan v m1 Hp) as (r & m2 & E2 & X).
    rewrite E2 in E. by injection E as <- <-.
Qed.

Lemma calls_approved_witness :
  let s := sample_settings true true in
  let m := sample_manager ([], sample_script) in
  exists result m',
    @send_message_with_policy _ (@logged _ scripted) step_clock plain_chrono empty_codec plain_pretty plain_diff plain_hash
      s t!"write it" DefaultPolicy None m = Returns (result, m')
    /\ (exists before request after, (world m').1 = before ++ Asked request true :: Called t!"write_file" sample_write :: after)
    /\ exists log, (world m').1 = (world m).1 ++ log
       /\ @allowed empty_codec plain_pretty plain_diff (tool_approval_enabled (env s) (is_local_endpoint (conv m))) log.
Proof.
  cbv zeta. eexists _, _. match goal with |- ?E /\ _ => assert E as Hrun by (vm_compute; reflexivity) end.
  split; [exact Hrun|]. split; [by eexists [_], _, _|].
  exact (@calls_approved _ scripted step_clock plain_chrono empty_codec plain_pretty plain_diff plain_hash
    (sample_settings true true) _ _ _ _ _ _ eq_refl Hrun).
Defined.
