(* ===== verification/ConversationReplies.v ===== *)
(** What is written into the history for the calls of a round, and what a message that was cut off
    leaves behind. *)
From Stdlib Require Import NArith ZArith Lia.
From stdpp Require Import base list gmap strings numbers sets.
From S2P Require Import Prelude Text Collections Json Usage Evidence PeerChannel Envelope ToolPreview History FileSystem Workspace TaskDocument TaskDocumentTheory ToolRules ConversationState ConversationTurn ConversationTheory.
#[local] Open Scope N_scope.

Section replies.
Context {W : Type} `{Surroundings W} {clock : Clock} {chrono : Chrono}.
Context {js : SerdeJson} {pretty : PrettyJson} {diff : LineDiff} {hash : ContentHash}.
Notation Mgr := (ConversationManager W).
Variable s : Settings.

(** What the result of an operation satisfies, whenever it returns. *)
Definition gives {A} (op : M W A) (P : A -> Prop) : Prop := forall m a m', op m = Returns (a, m') -> P a.

Lemma gives_ret {A} (a : A) (P : A -> Prop) : P a -> gives (mret a) P.
Proof. intros HP m b m' E. by pst_inv. Qed.
Lemma gives_bind {A B} (op : M W A) (f : A -> M W B) P : (forall a, gives (f a) P) -> gives (op ≫= f) P.
Proof. intros Hf m b m' E. apply pst_bind_inv in E as (a & m1 & _ & E). by apply Hf in E. Qed.
Lemma gives_bind_with {A B} (op : M W A) (f : A -> M W B) Q P :
  gives op Q -> (forall a, Q a -> gives (f a) P) -> gives (op ≫= f) P.
Proof. intros Hop Hf m b m' E. apply pst_bind_inv in E as (a & m1 & E1 & E). by eapply Hf; [eapply Hop|]. Qed.

Lemma gives_runs {A} (op : M W A) : gives op (fun a => exists m m', op m = Returns (a, m')).
Proof. intros m a m' E. by exists m, m'. Qed.

(** ** Answers of calls *)
Section answers.
(** The input of the message, its policy, and the limit of a result in the history. *)
Variables (user : str) (policy : PulseToolPolicy) (limit : nat).

(** What the model is told of a call: the text of its result, the text under the heading of the text
    protocol, and whether it is an error.  A call is refused with the text that says why, denied by
    the user, not run at once for a prompt, or run, and told what its result comes to. *)
Inductive told (name : str) (input : value) : str -> str -> bool -> Prop :=
| told_refused anchor text :
    refusal s user policy anchor name input = Some text -> told name input (truncate_for_history text limit) text true
| told_denied m m' :
    request_tool_approval s name input m = Returns (false, m') ->
    told name input (truncate_for_history (render_tool_denied_message name) limit) (render_tool_denied_message name) true
| told_prompt text c :
    location_or_read_only_prompt s user name input = Some text ->
    let told_text := truncate_for_history (format_tool_result_for_history name input (inr text) c).1 limit in
    told name input told_text told_text true
| told_result m result m' c :
    execute_tool_with_timeout_with_updates s name input m = Returns (result, m') ->
    let told_text := truncate_for_history (format_tool_result_for_history name input result c).1 limit in
    told name input told_text told_text (match result with inl _ => false | inr _ => true end).

(** The result that answers a call, and its text in the text protocol. *)
Definition answered_by_block (call : str * str * value) (b : ContentBlock) : Prop :=
  exists text shown e, told call.1.2 call.2 text shown e /\ b = CToolResult call.1.1 text e.
Definition answered_by_text (call : str * str * value) (t : str) : Prop :=
  exists text shown e, told call.1.2 call.2 text shown e
    /\ t = truncate_for_history ((if e : bool then tool_error_text else tool_result_text) call.1.2 shown) limit.

(** What is written for the calls, one for each, in order. *)
Definition answers_of (structured : bool) (calls : list (str * str * value)) (a : Answers) : Prop :=
  if structured then a.2 = [] /\ Forall2 answered_by_block calls a.1 else a.1 = [] /\ Forall2 answered_by_text calls a.2.

Variable structured : bool.

Lemma answers_nil : answers_of structured [] ([], []).
Proof. by destruct structured. Qed.

Lemma answers_app calls1 calls2 a1 a2 :
  answers_of structured calls1 a1 -> answers_of structured calls2 a2 ->
  answers_of structured (calls1 ++ calls2) (add_answers a1 a2).
Proof.
  unfold answers_of. destruct structured; intros [H1 H1'] [H2 H2']; (split; [cbn; by rewrite H1, H2 | by apply Forall2_app]).
Qed.

Lemma answers_one id name input text shown e :
  told name input text shown e ->
  answers_of structured [(id, name, input)]
    (if structured then ([CToolResult id text e], [])
     else ([], [truncate_for_history ((if e : bool then tool_error_text else tool_result_text) name shown) limit])).
Proof.
  intros Ht. unfold answers_of. destruct structured; (split; [done|]; constructor; [by exists text, shown, e | done]).
Qed.

Lemma refuse_answers id name input text :
  told name input (truncate_for_history text limit) text true ->
  gives (refuse s structured limit id name text) (answers_of structured [(id, name, input)]).
Proof. intros Ht. apply gives_bind. intros []. apply gives_bind. intros []. apply gives_ret. exact (answers_one id name input _ _ _ Ht). Qed.

(** How a call at once, or one that was allowed, came to its result. *)
Definition came_to (name : str) (input : value) (result : str + str) : Prop :=
  (exists m m', execute_tool_with_timeout_with_updates s name input m = Returns (result, m'))
  \/ exists text, location_or_read_only_prompt s user name input = Some text /\ result = inr text.

Lemma call_answers id name input result :
  came_to name input result ->
  gives (answer_call s structured limit id name input result) (answers_of structured [(id, name, input)]).
Proof.
  intros Hr. unfold answer_call. apply gives_bind. intros []. apply gives_bind. intros [].
  apply (gives_bind_with _ _ (fun text => exists c, text = (format_tool_result_for_history name input result c).1)).
  { intros m text m' E. exists (conv m). unfold on_conv in E. destruct (format_tool_result_for_history _ _ _ _). by injection E as <- <-. }
  intros text [c ->]. apply gives_ret. set (text := truncate_for_history _ limit).
  assert (told name input text text (match result with inl _ => false | inr _ => true end)) as Ht.
  { destruct Hr as [(m & m' & E)|(prompt & E & ->)]; [by eapply told_result | by eapply (told_prompt _ _ prompt)]. }
  pose proof (answers_one id name input _ _ _ Ht) as Ha. by destruct result.
Qed.

Lemma one_call_answers req anchor id name input :
  gives (run_one_call s user policy req structured limit anchor id name input)
    (fun x => answers_of structured [(id, name, input)] x.2).
Proof.
  unfold run_one_call. destruct (refusal s user policy anchor name input) as [text|] eqn:Hrefused.
  - apply gives_bind. intros []. eapply gives_bind_with; [eapply refuse_answers, told_refused, Hrefused|]. intros a Ha. by apply gives_ret.
  - apply (gives_bind_with _ _ (fun approved => approved = false -> exists m m', request_tool_approval s name input m = Returns (false, m'))).
    { destruct (_ || _); [|by apply gives_ret]. apply gives_bind. intros [] m b m' E ->. by exists m, m'. }
    intros approved Happroved. apply gives_bind. intros []. destruct approved; cbn [negb].
    + apply gives_bind. intros cp. eapply gives_bind_with; [apply gives_runs|]. intros result Hr.
      apply gives_bind. intros []. eapply gives_bind_with; [apply call_answers; by left|]. intros a' Ha. by apply gives_ret.
    + destruct (Happroved eq_refl) as (m & m' & E).
      eapply gives_bind_with; [eapply refuse_answers, told_denied, E|]. intros a Ha. by apply gives_ret.
Qed.

Lemma calls_answers req done_calls calls anchor answers :
  answers_of structured done_calls answers ->
  gives (run_calls s user policy req structured limit calls anchor answers)
    (fun x => answers_of structured (done_calls ++ calls) x.2).
Proof.
  revert done_calls anchor answers. induction calls as [|[[id name] input] calls IH]; intros done_calls anchor answers Ha; cbn [run_calls].
  - apply gives_ret. by rewrite app_nil_r.
  - eapply gives_bind_with; [apply one_call_answers|]. intros [anchor' a] Ha'. rewrite cons_middle, app_assoc.
    apply IH. by apply answers_app.
Qed.

Lemma completed_answers done_calls completed anchor answers :
  answers_of structured done_calls answers -> Forall (fun c => came_to (ctc_name c) (ctc_input c) (ctc_result c)) completed ->
  gives (answer_completed s structured limit completed anchor answers)
    (fun x => answers_of structured (done_calls ++ map (fun c => (ctc_id c, ctc_name c, ctc_input c)) completed) x.2).
Proof.
  revert done_calls anchor answers.
  induction completed as [|c completed IH]; intros done_calls anchor answers Ha Hall; cbn [answer_completed].
  - apply gives_ret. by rewrite app_nil_r.
  - inversion_clear Hall. eapply gives_bind_with; [by apply call_answers|]. intros a Ha'. cbn [map]. rewrite cons_middle, app_assoc.
    apply IH; [by apply answers_app | done].
Qed.

Lemma gives_map_M {A B} (f : A -> M W B) (g : B -> A) (P : B -> Prop) l :
  (forall x, gives (f x) (fun y => g y = x /\ P y)) -> gives (map_M f l) (fun ys => map g ys = l /\ Forall P ys).
Proof.
  intros Hf. induction l as [|x l IH]; cbn [map_M]; [by apply gives_ret|].
  eapply gives_bind_with; [apply Hf|]. intros y [Hy Py]. eapply gives_bind_with; [apply IH|]. intros ys [Hys Pys].
  apply gives_ret. cbn. rewrite Hy, Hys. split; [done | by constructor].
Qed.

Lemma parallel_calls blocks b :
  gives (execute_parallel_tool_round s blocks user b)
    (fun completed => map (fun c => (ctc_id c, ctc_name c, ctc_input c)) completed = tool_uses blocks
                      /\ Forall (fun c => came_to (ctc_name c) (ctc_input c) (ctc_result c)) completed).
Proof.
  unfold execute_parallel_tool_round. apply gives_bind. intros []. apply gives_bind. intros snapshots.
  eapply gives_bind_with; [|intros completed Hc; apply gives_bind; intros ?; apply gives_ret; exact Hc].
  apply gives_map_M. intros [[id name] input].
  apply (gives_bind_with _ _ (came_to name input)); [|intros result Hr; by apply gives_ret].
  destruct (location_or_read_only_prompt s user name input) as [text|] eqn:E.
  - apply gives_ret. right. by exists text.
  - intros m a m' Er. left. by exists m, m'.
Qed.

Lemma round_answers req blocks anchor :
  gives (run_tool_round s user policy req structured limit blocks anchor)
    (fun x => answers_of structured (tool_uses blocks) x.2).
Proof.
  unfold run_tool_round. destruct (should_parallelize_tool_round blocks req).
  - eapply gives_bind_with; [apply parallel_calls|]. intros completed [<- Hall].
    apply (completed_answers [] completed anchor ([], [])); [apply answers_nil | done].
  - apply (calls_answers req [] (tool_uses blocks) anchor ([], [])), answers_nil.
Qed.
End answers.
End replies.

(** ** The history of a round *)
Definition same_messages {W} (m m' : ConversationManager W) : Prop := api_messages (conv m') = api_messages (conv m).

#[export] Instance same_messages_tracks {W} : Tracks (@same_messages W).
Proof.
  split; [|done ..]. split; [done|]. intros m1 m2 m3 H12 H23. unfold same_messages in *. congruence.
Qed.
#[export] Instance same_messages_world {W} : TracksWorld (@same_messages W).
Proof. by intros w m. Qed.
#[export] Hint Resolve same_messages_tracks same_messages_world : respects.

(** The message that answers the calls of a round. *)
Definition answers_message {W} `{Surroundings W} {clock : Clock} {js : SerdeJson} {pretty : PrettyJson} {diff : LineDiff}
    {hash : ContentHash} s (plan : TurnPlan) (structured : bool) (calls : list (str * str * value)) (msg : ApiMessage) : Prop :=
  let limit := N.to_nat (max_tool_result_history_chars (limits plan)) in
  role msg = USER
  /\ if structured then
       exists results, History.content msg = Blocks results
         /\ Forall2 (answered_by_block s (user_input plan) (turn_tool_policy plan) limit) calls results
     else exists texts, History.content msg = TextContent (join [LF; LF] texts)
         /\ Forall2 (answered_by_text s (user_input plan) (turn_tool_policy plan) limit) calls texts.

Lemma guard_repeats_goes {W} `{Surroundings W} {clock : Clock} {chrono : Chrono} {js : SerdeJson} s is_local max text blocks v (m : ConversationManager W) g m' :
  guard_repeats s is_local max text blocks v m = Returns (g, m') ->
  match g with
  | inl (v', true) => m' = m /\ repeated_round_nudge_used v = false /\ repeated_round_nudge_used v' = true
  | inl (v', false) => m' = m /\ repeated_round_nudge_used v' = repeated_round_nudge_used v
  | inr (Continue _) => False
  | inr (Done _) => True
  end.
Proof.
  assert (forall msg (m1 : ConversationManager W) step m2, stop_completed s msg m1 = Returns (step, m2) -> step = Done (inl msg)) as Hstop.
  { intros msg m1 step m2 E. unfold stop_completed, stop_with in E. by pst_inv. }
  unfold guard_repeats. destruct blocks as [|b blocks]; [intros E; by pst_inv|].
  set (v1 := note_repeats _ _). assert (repeated_round_nudge_used v1 = repeated_round_nudge_used v) as Hv1.
  { unfold v1, note_repeats. by destruct (is_read_only_tool_round _). }
  destruct (1 <=? repeated_mutating_rounds v1).
  { intros E. apply pst_bind_inv in E as (step & m1 & E1 & E). apply Hstop in E1 as ->. by pst_inv. }
  cbv zeta. destruct (_ <=? _); [|intros E; by pst_inv]. destruct (negb (repeated_round_nudge_used v1)) eqn:Hused; cbn [andb].
  - apply negb_true_iff in Hused. destruct (_ && _).
    + intros E. pst_inv. by rewrite <- Hv1.
    + intros E. apply pst_bind_inv in E as (step & m1 & E1 & E). apply Hstop in E1 as ->. by pst_inv.
  - intros E. apply pst_bind_inv in E as (step & m1 & E1 & E). apply Hstop in E1 as ->. by pst_inv.
Qed.

(** C5: a round that goes on answers its calls.  When the model has made calls and the loop goes on
    after them (a round that a guard against repetition stops ends the message instead), the history
    has two messages more: the model's, with its text and exactly the calls that were not answered in
    the stream, and one that answers them, one for each call and in their order.  The answer of a
    call is what [told] says of that call, cut to the limit of the history: why it was refused, that
    the user denied it, or what the tool returned for its name and input, with the flag of an error.
    In the structured protocol it is a result with the identifier of the call, in the text protocol a
    text that names the tool.  The one exception is the round in which the model is told that it
    repeats itself, which happens once: its calls stay without results. *)
Theorem calls_answered {W} `{Surroundings W} {clock : Clock} {chrono : Chrono} {js : SerdeJson} {pretty : PrettyJson}
    {diff : LineDiff} {hash : ContentHash} s plan v r (m : ConversationManager W) v' m' :
  sane m -> open_tool_uses r <> [] ->
  close_round s plan v r m = Returns (Continue v', m') ->
  let structured := supports_structured_tool_protocol s
                    && (negb (is_local_endpoint (conv m)) || saw_native_tool_call_block r) in
  exists answer,
    api_messages (conv m') = api_messages (conv m)
      ++ [assistant_message (assistant_content (limits plan) structured (assistant_text r) (open_tool_uses r)); answer]
    /\ (answers_message s plan structured (tool_uses (open_tool_uses r)) answer
          /\ repeated_round_nudge_used v' = repeated_round_nudge_used v
        \/ answer = user_text REPEATED_TOOL_ROUND_INSTRUCTION None
          /\ repeated_round_nudge_used v = false /\ repeated_round_nudge_used v' = true).
Proof.
  intros Hm Hcalls E structured. unfold close_round in E. apply pst_bind_inv in E as (is_local & m1 & E1 & E).
  injection E1 as <- <-. cbv zeta in E. fold structured in E. apply pst_bind_inv in E as (guarded & m1 & E1 & E).
  pose proof (guard_repeats_goes _ _ _ _ _ _ _ _ _ E1) as Hg. destruct guarded as [[v1 nudge]|[v1|result]]; [|done | by pst_inv].
  assert (m1 = m) as -> by by destruct nudge, Hg. apply pst_bind_inv in E as ([] & m2 & E2 & E). injection E2 as <-. set (m2 := set_conv _ m) in E.
  assert (api_messages (conv m2) = api_messages (conv m)
    ++ [assistant_message (assistant_content (limits plan) structured (assistant_text r) (open_tool_uses r))]) as E2 by done.
  destruct nudge; destruct Hg as [_ Hn].
  - apply pst_bind_inv in E as ([] & m3 & E3 & E). injection E3 as <-. pst_inv. injection H0 as <-. exists (user_text REPEATED_TOOL_ROUND_INSTRUCTION None).
    split; [|by right]. change (api_messages (conv m2) ++ [user_text REPEATED_TOOL_ROUND_INSTRUCTION None] = api_messages (conv m)
      ++ [assistant_message (assistant_content (limits plan) structured (assistant_text r) (open_tool_uses r));
          user_text REPEATED_TOOL_ROUND_INSTRUCTION None]). by rewrite E2, <- app_assoc.
  - destruct (open_tool_uses r) as [|b blocks] eqn:Hblocks; [done|]. rewrite <- Hblocks in E, E2 |- *. clear Hblocks Hcalls.
    unfold answer_calls in E. apply pst_bind_inv in E as ([anchor answers] & m3 & E3 & E).
    pose proof (round_answers _ _ _ _ _ _ _ _ _ _ _ E3) as Ha. cbn [snd] in Ha.
    apply (follows_returns _ _ _ (follows_tool_round steadied s _ _ _ _ _ _ _) (answers_as_steadied _)) in E3.
    destruct (ok_tool_round (H := steadied) s same_messages (user_input plan) (turn_tool_policy plan) (require_tool_approval plan) structured
      (N.to_nat (max_tool_result_history_chars (limits plan))) (open_tool_uses r) (last_read_file_anchor (with_last_assistant_text (assistant_text r) v1))
      m2 Hm) as (x & m3' & E3' & _ & Hk).
    apply (eq_trans (eq_sym E3')) in E3. injection E3 as -> ->. apply pst_bind_inv in E as ([] & m4 & E4 & E). injection E4 as <-. pst_inv.
    injection H0 as <-. eexists. split; [cbn [set_conv conv set_messages api_messages]; unfold same_messages in Hk; rewrite Hk, E2, <- app_assoc; reflexivity|]. left.
    split; [|exact Hn]. clear -Ha. clearbody structured. split; [done|].
    destruct structured, Ha as [_ Ha]; [by exists answers.1 | by exists answers.2].
Qed.

(** ** A message that is cut off *)
Section cut_off.
Context {W : Type} {H : Surroundings W} {clock : Clock} {chrono : Chrono}.
Context {js : SerdeJson} {pretty : PrettyJson} {diff : LineDiff} {hash : ContentHash}.
Notation Mgr := (ConversationManager W).
Variable s : Settings.

(** The managers at which the loop waits for the model: for the answer to a request, or for the
    next signal of a stream. *)
Inductive suspended (plan : TurnPlan) : TurnVars -> Mgr -> Mgr -> Prop :=
| suspended_request v m v1 m1 :
    begin_round s (limits plan) (max_tool_rounds plan) v m = Returns (Continue v1, m1) -> suspended plan v m m1
| suspended_stream v m v1 m1 early late v2 m2 r m3 :
    begin_round s (limits plan) (max_tool_rounds plan) v m = Returns (Continue v1, m1) ->
    request_stream s v1 m1 = Returns (inl (early ++ late, v2), m2) ->
    drain s early (round_start (turn_tokens v2)) m2 = Returns (inl r, m3) -> suspended plan v m m3
| suspended_later v m v1 m1 m2 :
    turn_round s plan v m = Returns (Continue v1, m1) -> suspended plan v1 m1 m2 -> suspended plan v m m2.

Lemma open_message_blocked content policy shared (m : Mgr) :
  in_turn m -> open_message s content policy shared m = Panics.
Proof.
  intros (d & a & Hd & Ha). unfold open_message.
  rewrite (pst_bind_returns _ _ m tt (set_last_turn_tokens PulseTokens.default m)) by done.
  set (m1 := set_last_turn_tokens _ m). rewrite (pst_bind_returns _ _ m1 tt (set_world (clear_ledger (world m1)) m1)) by done.
  set (m2 := set_world _ m1). assert (task_doc m2 = Some d) as Hd2 by done.
  rewrite (pst_bind_returns _ _ m2 tt m2) by (unfold ensure_task_doc; run; by rewrite Hd2).
  unfold begin_turn_doc. run. rewrite Hd2. unfold begin_turn. by rewrite Ha.
Qed.

Lemma suspended_in_turn `{!Steady W} plan v (m m' : Mgr) :
  suspended plan v m m' -> counted (max_tool_rounds plan) v -> last_turn_tokens m = PulseTokens.default ->
  in_turn m -> in_turn m'.
Proof.
  induction 1 as [v m v1 m1 E1|v m v1 m1 early late v2 m2 r m3 E1 E2 E3|v m v1 m1 m2 E1 _ IH]; intros Hc Ht Hin.
  - destruct (begin_round_result s (limits plan) _ v m Hc Ht) as (step & m1' & E1' & H1). rewrite E1' in E1.
    injection E1 as -> ->. destruct H1 as (_ & K & _). by apply (kept_in_turn m).
  - destruct (begin_round_result s (limits plan) _ v m Hc Ht) as (step & m1' & E1' & H1). rewrite E1' in E1.
    injection E1 as -> ->. destruct H1 as (Hm1 & K1 & _).
    destruct (request_stream_result s v1 m1 Hm1) as (x & m2' & E2' & H2). rewrite E2' in E2. injection E2 as -> ->.
    destruct H2 as (Hm2 & K2 & _).
    destruct (ok_drain s turn_kept early (round_start (turn_tokens v2)) m2 Hm2) as (y & m3' & E3' & _ & K3).
    rewrite E3' in E3. injection E3 as -> ->. apply (kept_in_turn m2); [done|]. apply (kept_in_turn m1); [done|]. by apply (kept_in_turn m).
  - destruct (turn_round_result s plan v m Hc Ht) as (step & m1' & E1' & H1). rewrite E1' in E1. injection E1 as -> ->.
    destruct H1 as (K & Hc1 & _). apply IH; [done | by rewrite (kept_tokens _ _ K) | by apply (kept_in_turn m)].
Qed.
End cut_off.

(** What was returned so far was returned by surroundings that cannot panic. *)
Lemma suspended_steadied {W} {H : Surroundings W} {clock : Clock} {chrono : Chrono} {js : SerdeJson} {pretty : PrettyJson}
    {diff : LineDiff} {hash : ContentHash} s plan v (m m' : ConversationManager W) :
  suspended s plan v m m' -> suspended (H := steadied) s plan v m m'.
Proof.
  induction 1 as [v m v1 m1 E1|v m v1 m1 early late v2 m2 r m3 E1 E2 E3|v m v1 m1 m2 E1 _ IH].
  - by eapply suspended_request.
  - eapply (suspended_stream (H := steadied)); [exact E1 | | exact E3].
    by apply (follows_returns _ _ _ (follows_request_stream steadied s v1) (answers_as_steadied _)).
  - eapply (suspended_later (H := steadied)); [|exact IH].
    by apply (follows_returns _ _ _ (follows_turn_round steadied s plan v) (answers_as_steadied _)).
Qed.

(** A message that is cut off blocks the conversation.  The task that awaits the answer is
    aborted when the user cancels; the manager keeps what it had then.  Wherever the loop waits for
    the model, for a stream or for its next signal, the turn is open, and every message sent later
    panics in [begin_turn], before it is part of the history. *)
Theorem cancelled_message_blocks {W} `{Surroundings W} {clock : Clock} {chrono : Chrono} {js : SerdeJson} {pretty : PrettyJson}
    {diff : LineDiff} {hash : ContentHash} s content policy shared (m : ConversationManager W) plan v m1 m2 content' policy' shared' :
  open_message s content policy shared m = Returns (inr (plan, v), m1) -> suspended s plan v m1 m2 ->
  send_message_with_policy s content' policy' shared' m2 = Panics.
Proof.
  intros Hopen Hs. unfold send_message_with_policy, mbind, pst_bind. enough (in_turn m2) as Hin by by rewrite open_message_blocked.
  destruct (active m) as [a|] eqn:Ha.
  { unfold active in Ha. destruct (task_doc m) as [d|] eqn:Hd; [|done]. rewrite open_message_blocked in Hopen; [done|]. by exists d, a. }
  destruct (open_message_result (H := steadied) s content policy shared m Ha) as (r & m1' & E1 & H1).
  change (open_message s content policy shared m = Returns (r, m1')) in E1. rewrite E1 in Hopen. injection Hopen as -> ->.
  destruct H1 as ((Ht & d & a & Hd & Hact & _) & Hc & _).
  apply (suspended_in_turn (H := steadied) s plan v m1 m2 (suspended_steadied _ _ _ _ _ Hs) Hc Ht). by exists d, a.
Qed.

(** ** Witnesses *)
#[local] Existing Instances scripted step_clock plain_chrono empty_codec plain_pretty plain_diff plain_hash.

Lemma calls_answered_witness :
  let s := sample_settings true true in
  let m := sample_manager (mk_Script [] [true]) in
  let plan := make_plan s t!"write it" DefaultPolicy false in
  let r := mk_RoundVars t!"I write it." [CToolUse t!"c1" t!"write_file" sample_write None] ∅ [] ∅ ∅ ∅ false true PulseTokens.default in
  exists v' m' answer,
    close_round s plan (first_vars 0 false) r m
      = Returns (Continue v', m')
    /\ api_messages (conv m') = api_messages (conv m)
      ++ [assistant_message (assistant_content (limits plan) true (assistant_text r) (open_tool_uses r)); answer]
    /\ (answers_message s plan true (tool_uses (open_tool_uses r)) answer /\ repeated_round_nudge_used v' = false
        \/ answer = user_text REPEATED_TOOL_ROUND_INSTRUCTION None /\ false = false /\ repeated_round_nudge_used v' = true).
Proof.
  cbv zeta. set (s := sample_settings true true). set (plan := make_plan _ _ _ _). set (r := mk_RoundVars _ _ _ _ _ _ _ _ _ _).
  set (m := sample_manager _).
  destruct (close_round s plan (first_vars 0 false) r m)
    as [[[v'|result] m']|] eqn:E; [|exfalso; revert E; vm_compute; discriminate ..].
  destruct (calls_answered s plan (first_vars 0 false) r m v' m')
    as (answer & Ha); [done | done | exact E |]. by exists v', m', answer.
Defined.

Lemma cancelled_message_blocks_witness :
  let s := sample_settings true true in
  let m := sample_manager sample_script in
  exists plan v m1 m2,
    open_message s t!"write it" DefaultPolicy None m = Returns (inr (plan, v), m1)
    /\ suspended s plan v m1 m2
    /\ send_message_with_policy
         s t!"again" DefaultPolicy None m2 = Panics.
Proof.
  cbv zeta. eexists _, _, _, _.
  match goal with |- ?E /\ _ => assert E as Hopen by (vm_compute; reflexivity) end.
  split; [exact Hopen|].
  match goal with |- suspended ?s ?plan ?v ?m1 _ /\ _ => assert (suspended s plan v m1 _) as Hs by (eapply suspended_request; vm_compute; reflexivity) end.
  split; [exact Hs|]. exact (cancelled_message_blocks _ _ _ _ _ _ _ _ _ _ _ _ Hopen Hs).
Defined.
