(* ===== verification/Validation.v ===== *)
(** The validation of an edit: the commands of a suite, their results and what is told to the
    model of them: src/runtime/validation.rs and src/runtime/text_util.rs.

    Running a command, wrapping it in the sandbox and reading a file are operations of a class;
    the commands of a suite run at once in the code, in their order here.  The TOML of the
    configuration is parsed by a parameter.  Messages on standard error are left out. *)
From Stdlib Require Import NArith ZArith Lia.
From stdpp Require Import base list strings numbers.
From S2P Require Import Prelude Text ByteIndex FileSystem.
#[local] Open Scope N_scope.

(** ** Shortening a text: text_util.rs *)
Definition truncate_head_bytes (text : str) (max_bytes : N) : outcome (str * bool) :=
  if blen text <=? max_bytes then Returns (text, false)
  else t ← byte_slice 0 (boundary_left text max_bytes) text; Returns (t, true).

(** [while start < text.len() && !text.is_char_boundary(start) { start += 1 }]. *)
Fixpoint boundary_forth (fuel : nat) (text : str) (start : N) : N :=
  match fuel with
  | O => start
  | S fuel =>
      if (start <? blen text) && negb (is_char_boundary text start)
      then boundary_forth fuel text (start + 1) else start
  end.
Definition boundary_right (text : str) (start : N) : N :=
  boundary_forth (N.to_nat (blen text - start)) text start.

Definition truncate_tail_bytes (text : str) (max_bytes : N) : outcome (str * bool) :=
  if blen text <=? max_bytes then Returns (text, false)
  else t ← slice_from (boundary_right text (sat_sub (blen text) max_bytes)) text; Returns (t, true).

(** ** The suite *)
Definition DEFAULT_TIMEOUT_SECS : N := 60.
Definition VALIDATION_TAIL_BYTES : N := 8192.

Record ValidationCommand := mk_ValidationCommand {
  vc_label : str;
  vc_program : str;
  vc_args : list str;
  timeout_secs : N;
}.
Record ValidationOutput := mk_ValidationOutput {
  vo_label : str;
  exit_code : Z;
  stdout_tail : str;
  stderr_tail : str;
  stdout_tail_limited : bool;
  stderr_tail_limited : bool;
}.
Record ValidationResult := mk_ValidationResult {
  passed : bool;
  outputs : list ValidationOutput;
}.
Abbreviation ValidationSuite := (list ValidationCommand).

Record CommandRequest := mk_CommandRequest {
  cr_program : str;
  cr_args : list str;
  working_dir : option path;
}.
Record CommandResult := mk_CommandResult {
  cr_exit_code : Z;
  cr_stdout : str;
  cr_stderr : str;
}.
(** How a command ends within its time. *)
Inductive CommandEnd : Type := Ran (r : CommandResult) | NotRun (error : str) | OutOfTime.

(** The processes and the files.  [Ok] is [inl], [Err] is [inr] with the text of the error. *)
Class Machine (W : Type) := {
  (** [timeout(Duration::from_secs(n), runner.run_one_shot(req))]. *)
  run_within : N -> CommandRequest -> W -> CommandEnd * W;
  sandbox_wrap : CommandRequest -> W -> (CommandRequest + str) * W;
  is_file : path -> W -> bool;
  read_to_string : path -> W -> str + str;
}.

(** [toml::from_str::<ValidateConfig>], with the default of [timeout_secs]. *)
Class Toml := parse_validate_config : str -> ValidationSuite + str.

Definition normalize_timeout (timeout_secs : N) : N :=
  if timeout_secs =? 0 then DEFAULT_TIMEOUT_SECS else timeout_secs.

(** The output of a command that is not run. *)
Definition not_run (label : str) (stderr : str) : ValidationOutput :=
  mk_ValidationOutput label (-1) [] stderr false false.

Definition load_validate_toml {toml : Toml} (raw : str) : ValidationSuite + str :=
  match parse_validate_config raw with
  | inr e => inr e
  | inl commands =>
      inl (omap (fun c =>
             if is_empty (trim (vc_label c)) || is_empty (trim (vc_program c)) then None
             else Some (mk_ValidationCommand (vc_label c) (vc_program c) (vc_args c) (normalize_timeout (timeout_secs c))))
           commands)
  end.

Section machine.
Context {W : Type} `{Machine W} {toml : Toml}.

Definition tails (label : str) (code : Z) (stdout stderr : str) : outcome ValidationOutput :=
  '(out, out_limited) ← truncate_tail_bytes stdout VALIDATION_TAIL_BYTES;
  '(err, err_limited) ← truncate_tail_bytes stderr VALIDATION_TAIL_BYTES;
  Returns (mk_ValidationOutput label code out err out_limited err_limited).

Definition in_machine {A} (f : W -> A * W) : PST W A := fun w => Returns (f w).
Definition settled {A} (o : outcome A) : PST W A := fun w => (fun a => (a, w)) <$> o.

Definition run_validation_command (dir : option path) (c : ValidationCommand) : PST W ValidationOutput :=
  let secs := normalize_timeout (timeout_secs c) in
  if is_empty (trim (vc_program c)) then
    mret (not_run (vc_label c) t!"validation command program cannot be empty")
  else
    ended ← in_machine (run_within secs (mk_CommandRequest (vc_program c) (vc_args c) dir));
    match ended with
    | Ran r => settled (tails (vc_label c) (cr_exit_code r) (cr_stdout r) (cr_stderr r))
    | NotRun error => settled (tails (vc_label c) (-1) [] error)
    | OutOfTime => mret (not_run (vc_label c) (t!"validation command timed out after " ++ fmt_N secs ++ t!"s"))
    end.

Definition run_validation_command_with_sandbox (dir : option path) (c : ValidationCommand) : PST W ValidationOutput :=
  let secs := normalize_timeout (timeout_secs c) in
  wrapped ← in_machine (sandbox_wrap (mk_CommandRequest (vc_program c) (vc_args c) dir));
  match wrapped with
  | inr error => mret (not_run (vc_label c) error)
  | inl request =>
      ended ← in_machine (run_within secs request);
      match ended with
      | Ran r => settled (tails (vc_label c) (cr_exit_code r) (cr_stdout r) (cr_stderr r))
      | NotRun error => mret (not_run (vc_label c) error)
      | OutOfTime => mret (not_run (vc_label c) (t!"timed out after " ++ fmt_N secs ++ t!"s"))
      end
  end.

(** [join_all], whose commands run at the same time: here one after the other, in the order of the
    suite. *)
Fixpoint run_all (run : ValidationCommand -> PST W ValidationOutput) (suite : ValidationSuite)
    : PST W (list ValidationOutput) :=
  match suite with
  | [] => mret []
  | c :: r => o ← run c; os ← run_all run r; mret (o :: os)
  end.

Definition result_of (outputs : list ValidationOutput) : ValidationResult :=
  mk_ValidationResult (forallb (fun o => (exit_code o =? 0)%Z) outputs) outputs.

Definition run_in_dir (suite : ValidationSuite) (dir : option path) : PST W ValidationResult :=
  os ← run_all (run_validation_command dir) suite; mret (result_of os).
Definition run_in_dir_with_sandbox (suite : ValidationSuite) (dir : option path) : PST W ValidationResult :=
  os ← run_all (run_validation_command_with_sandbox dir) suite; mret (result_of os).

(** ** What the model is told *)
Definition fenced (name tail : str) (limited : bool) : str :=
  if is_empty tail then []
  else (if limited then t!"[showing last 8192 bytes of " ++ name ++ t!"]" ++ [LF] else [])
       ++ name ++ t!":" ++ [LF] ++ t!"```text" ++ [LF] ++ tail ++ (if ends_with [LF] tail then [] else [LF])
       ++ t!"```" ++ [LF].

Definition format_failure (o : ValidationOutput) : str :=
  if (exit_code o =? 0)%Z then []
  else [LF] ++ t!"[command: " ++ vo_label o ++ t!"]" ++ [LF] ++ t!"exit_code: " ++ fmt_Z (exit_code o) ++ [LF]
       ++ fenced t!"stdout" (stdout_tail o) (stdout_tail_limited o)
       ++ fenced t!"stderr" (stderr_tail o) (stderr_tail_limited o).

Definition format_for_retry (r : ValidationResult) : str :=
  if passed r then t!"[validation passed]"
  else t!"[validation failed]" ++ [LF] ++ List.flat_map format_failure (outputs r).

(** ** Which suite *)
Definition makefile_has_test_target (root : path) (w : W) : bool :=
  let makefile := path_join root (components t!"Makefile") in
  if negb (is_file makefile w) then false
  else match read_to_string makefile w with
       | inl content => existsb (starts_with t!"test:") (lines content)
       | inr _ => false
       end.

Definition plain_command (program arg : str) : ValidationCommand :=
  mk_ValidationCommand (program ++ [SPACE] ++ arg) program [arg] DEFAULT_TIMEOUT_SECS.

Definition infer_from_repo (root : path) (w : W) : ValidationSuite :=
  (if is_file (path_join root (components t!"Cargo.toml")) w
   then [plain_command t!"cargo" t!"check"; plain_command t!"cargo" t!"test"] else [])
  ++ (if is_file (path_join root (components t!"package.json")) w then [plain_command t!"npm" t!"test"] else [])
  ++ (if makefile_has_test_target root w then [plain_command t!"make" t!"test"] else []).

Definition load_or_infer (root : path) (w : W) : ValidationSuite :=
  let config_path := path_join root (components t!".vex/validate.toml") in
  if is_file config_path w then
    match read_to_string config_path w with
    | inl raw =>
        match load_validate_toml raw with
        | inl (_ :: _ as commands) => commands
        | inl [] | inr _ => infer_from_repo root w
        end
    | inr _ => infer_from_repo root w
    end
  else infer_from_repo root w.
End machine.

(** ** Lemmas *)
Lemma boundary_forth_spec fuel text k j :
  (N.to_nat (blen text - k) <= fuel)%nat -> k <= j -> is_char_boundary text j = true ->
  (forall i, k <= i -> i < j -> is_char_boundary text i = false) -> boundary_forth fuel text k = j.
Proof.
  revert k. induction fuel as [|fuel IH]; intros k Hf Hk Hj Hno; cbn; pose proof (boundary_le text j Hj).
  - lia.
  - destruct (N.eq_dec k j) as [->|Hne]; [by rewrite Hj, andb_false_r|].
    rewrite (Hno k), (proj2 (N.ltb_lt k (blen text))) by lia. cbn. apply IH; [lia | lia | done |].
    intros i Hi Hi'. apply Hno; lia.
Qed.

(** The first boundary at or after a position. *)
Lemma boundary_right_spec text k :
  k <= blen text ->
  exists a b, text = a ++ b /\ boundary_right text k = blen a /\ k <= blen a /\ blen a < k + 4.
Proof.
  intros Hk. pose proof (floor_split_spec k text) as Hs. destruct (floor_split k text) as [a b] eqn:E.
  destruct Hs as (-> & Ha & Hb). destruct (N.eq_dec (blen a) k) as [<-|Hne].
  - exists a, b. split_and!; [done | | lia | lia]. apply boundary_forth_spec; [done | lia | apply boundary_app |]. lia.
  - destruct b as [|c b]; [rewrite app_nil_r in Hk; lia|].
    assert (len_utf8 c <= 4) by (unfold len_utf8; repeat (case_match; try lia)).
    exists (a ++ [c]), b. rewrite <- app_assoc. assert (blen (a ++ [c]) = blen a + len_utf8 c) as Hl by (rewrite blen_app; cbn; lia).
    split_and!; [done | | lia | lia]. apply boundary_forth_spec; [done | lia | |].
    + replace (a ++ c :: b) with ((a ++ [c]) ++ b) by (by rewrite <- app_assoc). apply boundary_app.
    + intros i Hi Hi'. destruct (is_char_boundary (a ++ c :: b) i) eqn:Hc; [|done].
      assert (floor_split i (a ++ c :: b) = (a, c :: b)) as Hf by (apply floor_split_unique; lia).
      pose proof (floor_boundary (a ++ c :: b) i i Hc). rewrite Hf in *. cbn in *. lia.
Qed.

(** Never a panic: the end of the text, at most as long as allowed and at most three bytes
    shorter. *)
Lemma truncate_tail_result text max :
  exists kept limited, truncate_tail_bytes text max = Returns (kept, limited)
    /\ (exists before, text = before ++ kept) /\ blen kept <= max /\ (limited = true -> max < blen kept + 4)
    /\ (limited = false -> kept = text).
Proof.
  unfold truncate_tail_bytes. destruct (N.leb_spec (blen text) max) as [Hle|Hgt].
  - exists text, false. split_and!; try done. by exists [].
  - destruct (boundary_right_spec text (sat_sub (blen text) max)) as (a & b & -> & Hb & Hl & Hu); [unfold sat_sub; lia|].
    unfold sat_sub in *. rewrite Hb, slice_from_app. exists b, true. rewrite blen_app in *. split_and!; try done; [by exists a | lia | lia].
Qed.

Lemma truncate_head_result text max :
  exists kept limited, truncate_head_bytes text max = Returns (kept, limited)
    /\ (exists after, text = kept ++ after) /\ blen kept <= max /\ (limited = true -> max < blen kept + 4)
    /\ (limited = false -> kept = text).
Proof.
  unfold truncate_head_bytes. destruct (N.leb_spec (blen text) max) as [Hle|Hgt].
  - exists text, false. split_and!; try done. exists []. by rewrite app_nil_r.
  - rewrite boundary_left_floor. pose proof (floor_split_spec max text) as Hs. destruct (floor_split max text) as [a b].
    destruct Hs as (-> & Ha & Hb). pose proof (byte_slice_app [] a b) as Hs. cbn [blen fst app] in *. rewrite N.add_0_l in Hs. rewrite Hs. cbn. exists a, true. split_and!; try done; [by exists b|].
    intros _. destruct b as [|c b]; [rewrite app_nil_r in Hgt; lia|].
    assert (len_utf8 c <= 4) by (unfold len_utf8; repeat (case_match; try lia)). lia.
Qed.

Lemma tails_result label code out err :
  exists o, tails label code out err = Returns o /\ vo_label o = label /\ exit_code o = code
    /\ blen (stdout_tail o) <= VALIDATION_TAIL_BYTES /\ blen (stderr_tail o) <= VALIDATION_TAIL_BYTES.
Proof.
  unfold tails. destruct (truncate_tail_result out VALIDATION_TAIL_BYTES) as (o1 & l1 & -> & _ & H1 & _).
  destruct (truncate_tail_result err VALIDATION_TAIL_BYTES) as (o2 & l2 & -> & _ & H2 & _). cbn.
  eexists. split; [reflexivity|]. by split_and!.
Qed.
