(* ===== verification/RuntimeContext.v ===== *)
(** What a frontend is told of a conversation: the updates of the manager forwarded with the tool
    calls taken out of the text, a pulse and an edit turn, and the prompt and the tokens kept
    beside them: src/runtime/context.rs, src/runtime/update.rs and the prompt of
    src/state/conversation/state.rs.

    The tasks of a pulse are run one after the other: the message first, then what was sent over
    its channel.  A pulse that is cancelled is the subject of [ConversationReplies].  The order in
    which a hash map is drained is an operation of a class.

    What a frontend shows of a block is what was streamed into it, without the tool calls,
    however the updates of other blocks come in between. *)
From Stdlib Require Import NArith ZArith Lia.
From stdpp Require Import base list gmap strings numbers sets.
From S2P Require Import Prelude Text Collections Json Usage Evidence PeerChannel Envelope ToolPreview History FileSystem Workspace TextNormaliser TaskDocument TaskSnapshot ToolRules ConversationState ConversationTurn Validation.
#[local] Open Scope N_scope.

Inductive EditLoopOutcome : Type :=
| Success (patch_applied validate_passed : bool)
| LoopMaxTurnsReached (last_error : option str)
| ApprovalDenied
| Cancelled.

Inductive UiUpdate : Type :=
| UiTranscriptLine (line : str)
| UiStreamDelta (text : str)
| UiBlockStart (index : N) (block : StreamBlock)
| UiBlockDelta (index : N) (delta : str)
| UiToolCallArgumentsUpdated (tool_call_id : str) (tool_name : option str) (arguments : value)
| UiBlockComplete (index : N)
| UiToolApprovalRequest (request : ToolApprovalRequest)
| UiServerMetadata (metadata : StreamChunkMetadata)
| UiCommandSessionStarted (session_id : N) (command : str)
| UiCommandSessionAttached (session_id : N) (pid : option N)
| UiEditLoopComplete (outcome : EditLoopOutcome) (last_validation_result : option ValidationResult)
| UiCommandSessionFinished (session_id : N)
| UiPulseComplete
| UiError (message : str)
| UiContextCompacted (messages_before messages_after : N) (summary : str).

(** ** Forwarding *)
Record Forwarding := mk_Forwarding {
  textual_block_by_index : gmap N StreamTextNormaliser;
  normaliser : StreamTextNormaliser;
}.
Definition no_forwarding : Forwarding := mk_Forwarding ∅ [].

Definition set_block (index : N) (pending : StreamTextNormaliser) (f : Forwarding) : Forwarding :=
  mk_Forwarding (<[index := pending]> (textual_block_by_index f)) (normaliser f).
Definition drop_block (index : N) (f : Forwarding) : Forwarding :=
  mk_Forwarding (delete index (textual_block_by_index f)) (normaliser f).

Definition emit_normalised_chunks (chunks : list NormalisedChunk) (block_index : option N) : list UiUpdate :=
  omap (fun chunk => match chunk with
                     | Text text => Some match block_index with
                                         | Some index => UiBlockDelta index text
                                         | None => UiStreamDelta text
                                         end
                     | TaggedToolCall _ _ => None
                     end) chunks.

Section forward.
Context {js : SerdeJson}.

Definition emit_normalised_text (text : str) : PST Forwarding (list UiUpdate) := fun f =>
  '(chunks, pending) ← normalise text (normaliser f);
  Returns (emit_normalised_chunks chunks None, mk_Forwarding (textual_block_by_index f) pending).

(** The block has a normaliser, whose text is [pending]. *)
Definition emit_normalised_block_text (index : N) (text pending : str) : PST Forwarding (list UiUpdate) := fun f =>
  '(chunks, pending) ← normalise text pending;
  Returns (emit_normalised_chunks chunks (Some index), set_block index pending f).

Definition start_text_block (index : N) (block : StreamBlock) (content : str) : PST Forwarding (list UiUpdate) := fun f =>
  let f := set_block index [] f in
  if is_empty content then Returns ([UiBlockStart index block], f)
  else '(us, f) ← emit_normalised_block_text index content [] f; Returns (UiBlockStart index block :: us, f).

Definition forward_conversation_update (u : ConversationStreamUpdate) : PST Forwarding (list UiUpdate) := fun f =>
  match u with
  | UDelta text => emit_normalised_text text f
  | UBlockStart index (Thinking content collapsed) => start_text_block index (Thinking [] collapsed) content f
  | UBlockStart index (FinalText content) => start_text_block index (FinalText []) content f
  | UBlockStart index block => Returns ([UiBlockStart index block], f)
  | UBlockDelta index delta =>
      match textual_block_by_index f !! index with
      | Some pending => emit_normalised_block_text index delta pending f
      | None => Returns ([UiBlockDelta index delta], f)
      end
  | UToolCallArgumentsUpdated id name arguments => Returns ([UiToolCallArgumentsUpdated id name arguments], f)
  | UBlockComplete index =>
      Returns (match textual_block_by_index f !! index with
               | Some pending => emit_normalised_chunks (finish pending).1 (Some index)
               | None => []
               end ++ [UiBlockComplete index], drop_block index f)
  | UToolApprovalRequest request => Returns ([UiToolApprovalRequest request], f)
  | UTranscriptLine line => Returns ([UiTranscriptLine line], f)
  | UServerMetadata metadata => Returns ([UiServerMetadata metadata], f)
  | UCommandSessionStarted id command => Returns ([UiCommandSessionStarted id command], f)
  | UCommandSessionAttached id pid => Returns ([UiCommandSessionAttached id pid], f)
  | UCommandSessionFinished id => Returns ([UiCommandSessionFinished id], f)
  | UContextCompacted before after summary => Returns ([UiContextCompacted before after summary], f)
  | UStreamError msg => Returns ([UiError msg], f)
  end.

Definition forward_all (us : list ConversationStreamUpdate) : PST Forwarding (list UiUpdate) :=
  pst_concat forward_conversation_update us.
End forward.

(** [HashMap::drain]: every entry once, in some order. *)
Class HashOrder := drained : gmap N StreamTextNormaliser -> list (N * StreamTextNormaliser).
Class HashOrderLaws `{HashOrder} : Prop := drained_permutation : forall m, drained m ≡ₚ map_to_list m.

(** The blocks that are still open when the channel is closed: at the end of a pulse, and of an
    edit turn. *)
Definition finish_blocks `{HashOrder} (f : Forwarding) : list UiUpdate :=
  List.flat_map (fun '(index, pending) =>
      emit_normalised_chunks (finish pending).1 (Some index) ++ [UiBlockComplete index])
    (drained (textual_block_by_index f)).
Definition complete_blocks `{HashOrder} (f : Forwarding) : list UiUpdate :=
  map (fun '(index, _) => UiBlockComplete index) (drained (textual_block_by_index f)).

(** ** The context *)
Record RuntimeContext (W : Type) := mk_RuntimeContext {
  manager : ConversationManager W;
  (** Of the manager. *)
  working_set : option WorkingSetRecord;
  (** Of the client. *)
  supplementary_system_prompt : option str;
  session_tokens : SessionTokens.t;
  sent : list UiUpdate;
}.
Arguments mk_RuntimeContext {_} _ _ _ _ _.
Arguments manager {_} _.
Arguments working_set {_} _.
Arguments supplementary_system_prompt {_} _.
Arguments session_tokens {_} _.
Arguments sent {_} _.

Definition with_manager {W : Type} (m : ConversationManager W) (c : RuntimeContext W) : RuntimeContext W :=
  mk_RuntimeContext m (working_set c) (supplementary_system_prompt c) (session_tokens c) (sent c).
Definition with_prompt {W : Type} (p : option str) (c : RuntimeContext W) : RuntimeContext W :=
  mk_RuntimeContext (manager c) (working_set c) p (session_tokens c) (sent c).
Definition with_tokens {W : Type} (t : SessionTokens.t) (c : RuntimeContext W) : RuntimeContext W :=
  mk_RuntimeContext (manager c) (working_set c) (supplementary_system_prompt c) t (sent c).
Definition send {W : Type} (us : list UiUpdate) (c : RuntimeContext W) : RuntimeContext W :=
  mk_RuntimeContext (manager c) (working_set c) (supplementary_system_prompt c) (session_tokens c) (sent c ++ us).

Definition merge_supplementary_prompt (extra working_set_block : option str) : option str :=
  let clean v := match v with
                 | Some v => let v := trim v in if is_empty v then None else Some v
                 | None => None
                 end in
  match clean extra, clean working_set_block with
  | Some extra, Some block => Some (extra ++ [LF; LF] ++ block)
  | Some extra, None => Some extra
  | None, block => block
  end.

Definition set_runtime_prompt {W : Type} (supplementary : option str) (c : RuntimeContext W) : RuntimeContext W :=
  with_prompt (merge_supplementary_prompt supplementary (as_prompt_block <$> working_set c)) c.

Definition normalize_turn_tokens (input response : str) (tokens : PulseTokens.t) : PulseTokens.t :=
  if PulseTokens.is_zero tokens
  then PulseTokens.mk (estimate_tokens input) (estimate_tokens response) true 0 0
  else tokens.

(** [clear_messages] and [seed_from_working_set]. *)
Definition clear_messages {W : Type} (c : RuntimeContext W) : RuntimeContext W :=
  let m := manager c in
  mk_RuntimeContext
    (mk_Manager (mk_Conversation [] cache_new (compaction_config (conv m)) (is_local_endpoint (conv m))) None 0 0 ∅
       PulseTokens.default (undo_stack m) (updates m) (reads m) (world m))
    None None (session_tokens c) (sent c).
Definition seed_from_working_set {W : Type} (record : WorkingSetRecord) (c : RuntimeContext W) : RuntimeContext W :=
  let c := clear_messages c in
  mk_RuntimeContext (manager c) (Some record) (Some (as_prompt_block record)) (session_tokens c) (sent c).

Definition pop_undo_checkpoint {W : Type} (c : RuntimeContext W) : option UndoCheckpoint * RuntimeContext W :=
  (list.last (undo_stack (manager c)),
   with_manager (set_undo_stack (removelast (undo_stack (manager c))) (manager c)) c).

(** The manager with the channel of a pulse. *)
Definition with_channel (s : Settings) : Settings :=
  mk_Settings (env s) (supports_structured_tool_protocol s) (context_window_tokens s) (tool_policy s)
    (client_model_name s) (shared_prefix_fingerprint s) (operator_working_dir s) (hooks s) (http_hooks s)
    (http_client_error s) true (max_undo_checkpoints s) (undo_enabled s).

(** What a panic of the client or of a tool leaves of a manager whose turn for the message had been
    opened, with the updates that were sent before it: wherever it unwinds from. *)
Class PanicState (W : Type) := {
  left_by_panic : str -> PulseToolPolicy -> option str -> ConversationManager W -> ConversationManager W;
}.

(** Nothing done: for examples. *)
Definition as_before {W} : PanicState W := {| left_by_panic _ _ _ m := m |}.

Section pulse.
Context {W : Type} `{Surroundings W} `{PanicState W} {clock : Clock} {chrono : Chrono}.
Context {js : SerdeJson} {pretty : PrettyJson} {diff : LineDiff} {hash : ContentHash} `{HashOrder}.
Variable s : Settings.
(** The text of a [JoinError] of a task that panicked. *)
Variable join_error : str.

(** What the task that answers a message returns, with the manager it leaves.  With a turn open,
    the panic of a message is that of [begin_turn]; before it the tokens and the ledger are reset.
    Without one, it is a panic of the client or of a tool ([ConversationTheory.message_answered]). *)
Definition spawn_message (content : str) (policy : PulseToolPolicy) (shared : option str) (m : ConversationManager W)
    : option (option (str + str)) * ConversationManager W :=
  let m := set_updates [] m in
  match send_message_with_policy (with_channel s) content policy shared m with
  | Returns (result, m') => (Some result, m')
  | Panics => (None, match active m with
                     | Some _ => set_world (clear_ledger (world m)) (set_last_turn_tokens PulseTokens.default m)
                     | None => left_by_panic content policy shared m
                     end)
  end.

(** The task of [start_pulse_with_system_prompt_and_policy], not cancelled. *)
Definition run_pulse (input : str) (prompt : option str) (policy : PulseToolPolicy) (shared : option str)
    (c : RuntimeContext W) : outcome (RuntimeContext W) :=
  let shared := match shared with
                | Some v => let v := trim v in if is_empty v then None else Some v
                | None => None
                end in
  let c := set_runtime_prompt prompt c in
  let '(answer, m) := spawn_message input policy shared (manager c) in
  let tokens := last_turn_tokens m in
  '(shown, f) ← forward_all (updates m) no_forwarding;
  let c := send (shown ++ finish_blocks f) (with_manager (match answer with
             | Some _ => set_last_turn_tokens PulseTokens.default m
             | None => m
             end) c) in
  let c := set_runtime_prompt None c in
  Returns match answer with
          | Some (Some (inl response)) =>
              send [UiPulseComplete]
                (with_tokens (SessionTokens.record_pulse (session_tokens c) (normalize_turn_tokens input response tokens)) c)
          | Some (Some (inr error)) => send [UiError error] c
          | Some None => c
          | None => send [UiError join_error] c
          end.

(** The result is whether a patch was applied, or the error. *)
Definition drive_edit_turn (input : str) : PST (RuntimeContext W) (bool + str) := fun c =>
  let '(answer, m) := spawn_message input DefaultPolicy None (manager c) in
  '(shown, f) ← forward_all (updates m) no_forwarding;
  Returns (match answer with
           | Some (Some (inl _)) => inl (current_turn_has_successful_mutation m)
           | Some (Some (inr error)) => inr error
           | Some None => inr []
           | None => inr (t!"edit pulse task failed: " ++ join_error)
           end, send (shown ++ complete_blocks f) (with_manager m c)).
End pulse.

(** [estimated_conversation_tokens]: a quarter of the bytes. *)
Definition block_bytes {js : SerdeJson} (b : ContentBlock) : N :=
  let json v := match json_to_string v with Some t => blen t | None => 0 end in
  match b with
  | CText text _ => blen text
  | CToolUse id name input _ => blen id + blen name + json input
  | CToolResult id c _ => blen id + blen c
  | CThinking thinking signature => blen thinking + blen signature
  | CThinkingData data => blen data
  | CServerToolUse id name input => blen id + blen name + json input
  | CWebSearchToolResult id c => blen id + json c
  end.
Definition estimate_char_count {js : SerdeJson} (messages : list ApiMessage) : N :=
  sum_N (map (fun m => blen (role m) + match History.content m with
                                       | TextContent t => blen t
                                       | Blocks bs => sum_N (map block_bytes bs)
                                       end) messages).
Definition estimate_token_count {js : SerdeJson} (messages : list ApiMessage) : N := estimate_char_count messages / 4.

(** * What it promises *)

(** ** Updates of one block *)
Definition about_block (index : N) (u : ConversationStreamUpdate) : bool :=
  match u with
  | UBlockStart i _ | UBlockDelta i _ | UBlockComplete i => i =? index
  | _ => false
  end.

(** The text a frontend was given for a block. *)
Definition shown (index : N) (us : list UiUpdate) : str :=
  concat (omap (fun u => match u with UiBlockDelta i d => if i =? index then Some d else None | _ => None end) us).

(** The characters of a transcript, without its calls. *)
Definition plain_text (t : list (char + str * value)) : str :=
  omap (fun x => match x with inl c => Some c | inr _ => None end) t.

Lemma shown_app index us vs : shown index (us ++ vs) = shown index us ++ shown index vs.
Proof. unfold shown. by rewrite omap_app, concat_app. Qed.

Lemma plain_text_app t u : plain_text (t ++ u) = plain_text t ++ plain_text u.
Proof. apply omap_app. Qed.
Lemma plain_text_chars s : plain_text (map inl s) = s.
Proof. induction s as [|c s IH]; [done|]. cbn. by rewrite <- IH at 2. Qed.

Lemma shown_chunks index chunks : shown index (emit_normalised_chunks chunks (Some index)) = plain_text (transcript chunks).
Proof.
  induction chunks as [|[t|name input] chunks IH]; [done| |].
  - unfold transcript in *. cbn [map concat chunk_items]. rewrite plain_text_app, plain_text_chars, <- IH.
    unfold shown, emit_normalised_chunks. cbn. by rewrite N.eqb_refl.
  - unfold transcript in *. cbn [map concat chunk_items]. rewrite plain_text_app, <- IH. done.
Qed.

Lemma shown_other index i chunks :
  i <> index -> shown index (emit_normalised_chunks chunks (Some i)) = [].
Proof.
  intros Hne. apply N.eqb_neq in Hne. induction chunks as [|[t|name input] chunks IH]; [done| |done].
  unfold shown, emit_normalised_chunks in *. cbn. by rewrite Hne.
Qed.
Lemma shown_plain index chunks : shown index (emit_normalised_chunks chunks None) = [].
Proof. induction chunks as [|[t|name input] chunks IH]; done. Qed.

(** A block by itself: the text shown, and what is held back, if the block is open. *)
Definition block_step {js : SerdeJson} (u : ConversationStreamUpdate) (state : option StreamTextNormaliser)
    : outcome (str * option StreamTextNormaliser) :=
  let read text pending :=
    '(chunks, pending) ← normalise text pending; Returns (plain_text (transcript chunks), Some pending) in
  match u, state with
  | UBlockStart _ (Thinking content _), _ | UBlockStart _ (FinalText content), _ =>
      if is_empty content then Returns ([], Some []) else read content []
  | UBlockDelta _ delta, Some pending => read delta pending
  | UBlockDelta _ delta, None => Returns (delta, None)
  | UBlockComplete _, Some pending => Returns (plain_text (transcript (finish pending).1), None)
  | _, state => Returns ([], state)
  end.

Fixpoint block_run {js : SerdeJson} (us : list ConversationStreamUpdate) (state : option StreamTextNormaliser)
    : outcome (str * option StreamTextNormaliser) :=
  match us with
  | [] => Returns ([], state)
  | u :: us => '(t, state) ← block_step u state; '(t', state) ← block_run us state; Returns (t ++ t', state)
  end.

Section blocks.
Context {js : SerdeJson}.
Notation state_of i f := (textual_block_by_index f !! i).

(** An update of another kind, or of another block. *)
Lemma forward_other index u f out f' :
  about_block index u = false -> forward_conversation_update u f = Returns (out, f') ->
  shown index out = [] /\ state_of index f' = state_of index f.
Proof.
  destruct u; cbn [about_block forward_conversation_update]; intros Hi E; try (by injection E as <- <-).
  - unfold emit_normalised_text in E. destruct (normalise text (normaliser f)) as [[chunks pending]|]; [|done].
    injection E as <- <-. split; [apply shown_plain | done].
  - apply N.eqb_neq in Hi. destruct block; cbn in E; try (by injection E as <- <-);
      unfold start_text_block, emit_normalised_block_text in E; destruct (is_empty _);
      try (injection E as <- <-; split; [done | cbn; by rewrite lookup_insert_ne]);
      destruct (normalise _ []) as [[chunks pending]|]; try done; injection E as <- <-; (split; [by apply shown_other|]);
      cbn; by rewrite !lookup_insert_ne.
  - apply N.eqb_neq in Hi. destruct (state_of index0 f) as [p|].
    + unfold emit_normalised_block_text in E. destruct (normalise delta p) as [[chunks pending]|]; [|done].
      injection E as <- <-. split; [by apply shown_other | cbn; by rewrite lookup_insert_ne].
    + injection E as <- <-. split; [|done]. unfold shown. cbn. by rewrite (proj2 (N.eqb_neq _ _) Hi).
  - apply N.eqb_neq in Hi. injection E as <- <-. split; [|cbn; by rewrite lookup_delete_ne].
    rewrite shown_app. destruct (state_of index0 f); [|done]. by rewrite shown_other.
Qed.

Lemma forward_block index u f out f' :
  about_block index u = true -> forward_conversation_update u f = Returns (out, f') ->
  block_step u (state_of index f) = Returns (shown index out, state_of index f').
Proof.
  destruct u; cbn [about_block forward_conversation_update block_step]; intros Hi E; try done; apply N.eqb_eq in Hi as ->.
  - destruct block; cbn in E; try (injection E as <- <-; done);
      unfold start_text_block, emit_normalised_block_text in E; destruct (is_empty _);
      try (injection E as <- <-; cbn; by rewrite lookup_insert_eq);
      destruct (normalise _ []) as [[chunks pending]|]; try done; injection E as <- <-; cbn [mbind outcome_bind];
      rewrite <- shown_chunks with (index := index); cbn; by rewrite lookup_insert_eq.
  - destruct (state_of index f) as [p|] eqn:Hp.
    + unfold emit_normalised_block_text in E. destruct (normalise delta p) as [[chunks pending]|]; [|done].
      injection E as <- <-. cbn. rewrite lookup_insert_eq. by rewrite shown_chunks.
    + simplify_eq. unfold shown. cbn. rewrite N.eqb_refl. cbn. rewrite app_nil_r. do 2 f_equal. symmetry. exact Hp.
  - injection E as <- <-. cbn. rewrite lookup_delete_eq, shown_app. destruct (state_of index f) as [p|]; [|done].
    rewrite shown_chunks. cbn. by rewrite app_nil_r.
Qed.

Lemma forward_blocks index us f out f' :
  forward_all us f = Returns (out, f') ->
  block_run (List.filter (about_block index) us) (state_of index f) = Returns (shown index out, state_of index f').
Proof.
  unfold forward_all. revert f out. induction us as [|u us IH]; intros f out E; cbn [pst_concat] in E.
  { by pst_inv. }
  apply pst_bind_inv in E as (out1 & f1 & E1 & E). apply pst_bind_inv in E as (out2 & f2 & E2 & E).
  apply pst_ret_inv in E as [<- ->]. apply IH in E2. cbn [List.filter]. rewrite shown_app. destruct (about_block index u) eqn:Hu.
  - cbn [block_run]. rewrite (forward_block index u f out1 f1 Hu E1). cbn. by rewrite E2.
  - destruct (forward_other index u f out1 f1 Hu E1) as [-> <-]. exact E2.
Qed.

Lemma normalise_nil p : normalise [] p = Returns ([], p).
Proof. done. Qed.

Lemma block_run_deltas index ds p :
  block_run (map (UBlockDelta index) ds ++ [UBlockComplete index]) (Some p)
  = (fun x => (plain_text (close_out x), None)) <$> pst_concat normalise ds p.
Proof.
  revert p. induction ds as [|d ds IH]; intros p; cbn [map app block_run pst_concat].
  - cbn. unfold close_out. cbn. by rewrite app_nil_r.
  - cbn [block_step]. unfold mbind, pst_bind, outcome_bind in *. destruct (normalise d p) as [[chunks p']|]; [|done].
    rewrite IH. destruct (pst_concat normalise ds p') as [[chunks' p'']|]; [|done]. unfold close_out, fmap, outcome_fmap, mret, pst_ret.
    cbn [fst snd]. by rewrite <- app_assoc, (transcript_app chunks), plain_text_app.
Qed.
End blocks.

(** C14: what is shown of a block is what was streamed into it.  Whatever other updates come in
    between: when the updates of a block are its start, as thinking or final text, its deltas and
    its completion, and the frontend was told without a panic, then the text it was given for the
    block is what the normaliser reads from the content and the deltas, in order, with the calls
    written as text left out; and the block holds nothing back. *)
Theorem block_shown {js : SerdeJson} index us f out f' block content ds :
  (exists collapsed, block = Thinking content collapsed) \/ block = FinalText content ->
  List.filter (about_block index) us = UBlockStart index block :: map (UBlockDelta index) ds ++ [UBlockComplete index] ->
  forward_all us f = Returns (out, f') ->
  exists t, stream (content :: ds) = Returns t /\ shown index out = plain_text t
    /\ textual_block_by_index f' !! index = None.
Proof.
  intros Hblock Hus E. apply (forward_blocks index) in E. rewrite Hus in E. cbn [block_run] in E.
  assert (block_step (UBlockStart index block) (textual_block_by_index f !! index)
    = '(chunks, pending) ← normalise content []; Returns (plain_text (transcript chunks), Some pending)) as Hstart.
  { destruct Hblock as [[collapsed ->]| ->]; cbn [block_step]; by destruct content. }
  rewrite Hstart in E. clear Hstart Hblock Hus. unfold stream. cbn [pst_concat].
  unfold mbind, pst_bind, outcome_bind in *. destruct (normalise content []) as [[chunks p]|]; [|done].
  rewrite block_run_deltas in E. destruct (pst_concat normalise ds p) as [[chunks' p']|]; [|done].
  unfold fmap, outcome_fmap, close_out, mret, pst_ret in *. cbn [fst snd] in *. injection E as <- <-.
  eexists. split; [reflexivity|]. split; [|done]. by rewrite <- app_assoc, (transcript_app chunks), plain_text_app.
Qed.

Lemma block_shown_witness :
  let us := [UBlockStart 0 (Thinking t!"Let me " false); UBlockStart 1 (ToolResult t!"c" t!"x" false); UBlockDelta 0 t!"look<func";
             UDelta t!"!"; UBlockDelta 0 t!"tion=ls></function>."; UBlockComplete 1; UBlockComplete 0] in
  exists out f', @forward_all empty_codec us no_forwarding = Returns (out, f')
    /\ (exists t, @stream empty_codec [t!"Let me "; t!"look<func"; t!"tion=ls></function>."] = Returns t
         /\ shown 0 out = plain_text t /\ textual_block_by_index f' !! 0 = None)
    /\ shown 0 out = t!"Let me look.".
Proof.
  cbv zeta. eexists _, _. match goal with |- ?E /\ _ => assert E as Hrun by (vm_compute; reflexivity) end.
  split; [exact Hrun|]. split; [|by vm_compute].
  refine (@block_shown empty_codec 0 _ _ _ _ (Thinking t!"Let me " false) t!"Let me " [t!"look<func"; t!"tion=ls></function>."] _ _ Hrun);
    [left; by exists false | by vm_compute].
Defined.
