(* ===== verification/EditLoop.v ===== *)
(** The edit loop: pulses of an instruction, each followed by the validation of what it changed,
    until the validation passes or the pulses are used up: src/runtime/edit_loop.rs and
    [start_edit_loop] of src/runtime/context.rs.

    The commands of git and whether the user has cancelled are operations of a class.  The profile
    and the sandbox do not take part in the loop; they are behind the operations.

    What the edit loop promises: how many pulses it drives, what it sends, and that it only
    succeeds when a patch was applied and every command of the suite passed after it. *)
From Stdlib Require Import NArith ZArith Lia.
From stdpp Require Import base list gmap strings numbers sets.
From S2P Require Import Prelude Text Collections Json Usage Evidence PeerChannel Envelope ToolPreview History FileSystem Workspace TextNormaliser TaskDocument TaskSnapshot ToolRules ConversationState ConversationTurn ConversationTheory Validation RuntimeContext.
#[local] Open Scope N_scope.

Definition DEFAULT_MAX_TURNS : N := 6.
Definition HARD_MAX_TURNS : N := 12.

Definition clamp_turns (pulses : N) : N := clamp 1 HARD_MAX_TURNS pulses.

Record EditLoop := mk_EditLoop {
  max_turns : N;
  stop_on_clean_validate : bool;
  loop_dir : path;
  last_validation_result : option ValidationResult;
}.
Definition edit_loop_new (dir : path) : EditLoop := mk_EditLoop DEFAULT_MAX_TURNS true dir None.
Definition with_max_turns (n : N) (e : EditLoop) : EditLoop :=
  mk_EditLoop (clamp_turns n) (stop_on_clean_validate e) (loop_dir e) (last_validation_result e).
Definition set_last_validation_result (r : ValidationResult) (e : EditLoop) : EditLoop :=
  mk_EditLoop (max_turns e) (stop_on_clean_validate e) (loop_dir e) (Some r).

Definition last_validation_error (e : EditLoop) : option str :=
  match last_validation_result e with
  | None => None
  | Some r =>
      if passed r then None
      else match List.find (fun o => negb (exit_code o =? 0)%Z) (outputs r) with
           | Some o => Some (vo_label o ++ t!" exited with " ++ fmt_Z (exit_code o))
           | None => Some t!"validation failed"
           end
  end.

(** How [git status --porcelain] ended. *)
Inductive GitStatus : Type :=
| GitNotFound
| GitNotStarted (error : str)
| GitExited (success : bool) (stdout stderr : str).

Class EditWorld (W : Type) := {
  git_status : path -> W -> GitStatus * W;
  is_cancelled : W -> bool * W;
}.

Definition workspace_dirty (s : GitStatus) : bool + str :=
  match s with
  | GitNotFound => inl false
  | GitNotStarted _ => inr t!"failed to call git status for workspace-dirty check"
  | GitExited false _ stderr =>
      let stderr := to_ascii_lowercase stderr in
      if contains t!"not a git repository" stderr then inl false
      else inr (t!"git status failed for workspace-dirty check: " ++ trim stderr)
  | GitExited true stdout _ => inl (negb (is_empty (trim stdout)))
  end.

Section loop.
Context {W : Type} `{Surroundings W} `{PanicState W} `{Machine W} `{EditWorld W} {toml : Toml}.
Context {clock : Clock} {chrono : Chrono} {js : SerdeJson} {pretty : PrettyJson} {diff : LineDiff} {hash : ContentHash} `{HashOrder}.
Variable s : Settings.
Variable join_error : str.

(** The loop and the context it runs in. *)
Abbreviation E := (PST (EditLoop * RuntimeContext W)).

Definition in_ctx {A} (op : PST (RuntimeContext W) A) : E A := fun '(e, c) =>
  '(a, c) ← op c; Returns (a, (e, c)).
Definition emit_transcript_line (line : str) : E unit := fun '(e, c) =>
  Returns (tt, (e, send [UiTranscriptLine line] c)).
(** On what surrounds the manager. *)
Definition on_world {A} (op : PST W A) : E A := fun '(e, c) =>
  '(a, w) ← op (world (manager c)); Returns (a, (e, with_manager (set_world w (manager c)) c)).
Definition note_validation (r : ValidationResult) : E unit := fun '(e, c) =>
  Returns (tt, (set_last_validation_result r e, c)).

Definition check_workspace_dirty (root : path) : E (bool + str) :=
  status ← on_world (in_machine (git_status root)); mret (workspace_dirty status).

(** The message of a pulse. *)
Definition pulse_message (instruction retry_context : str) : str :=
  if is_empty retry_context then instruction else instruction ++ [LF; LF] ++ retry_context.

Definition NO_PATCH : str := t!"[previous pulse produced no patch; propose and apply a concrete edit]".

(** [for pulse in pulse..pulse + remaining]. *)
Fixpoint edit_pulses (remaining : nat) (pulse : N) (root : path) (suite : ValidationSuite) (instruction retry_context : str)
    : E EditLoopOutcome :=
  match remaining with
  | O => fun '(e, c) => Returns (LoopMaxTurnsReached (last_validation_error e), (e, c))
  | S remaining =>
      cancelled ← on_world (in_machine is_cancelled);
      if cancelled : bool then mret Cancelled
      else
        turns ← (fun '(e, c) => Returns (max_turns e, (e, c)) : outcome (N * _));
        emit_transcript_line (t!"[edit loop pulse " ++ fmt_N (pulse + 1) ++ t!"/" ++ fmt_N turns ++ t!"]");;
        answer ← in_ctx (drive_edit_turn s join_error (pulse_message instruction retry_context));
        match answer with
        | inr err =>
            emit_transcript_line (t!"[edit loop pulse error: " ++ err ++ t!"]");;
            edit_pulses remaining (pulse + 1) root suite instruction (t!"[previous pulse failed: " ++ err ++ t!"]")
        | inl patch_applied =>
            cancelled ← on_world (in_machine is_cancelled);
            if cancelled : bool then mret Cancelled
            else if negb patch_applied then
              emit_transcript_line t!"[edit loop: no patch applied, retrying]";;
              edit_pulses remaining (pulse + 1) root suite instruction NO_PATCH
            else
              emit_transcript_line t!"[edit loop: running validation]";;
              result ← on_world (run_in_dir_with_sandbox suite (Some root));
              note_validation result;;
              if passed result then
                emit_transcript_line t!"[edit loop: validation passed]";;
                stop ← (fun '(e, c) => Returns (stop_on_clean_validate e, (e, c)) : outcome (bool * _));
                if stop : bool then mret (Success patch_applied true)
                else edit_pulses remaining (pulse + 1) root suite instruction retry_context
              else
                emit_transcript_line t!"[edit loop: validation failed, retrying]";;
                edit_pulses remaining (pulse + 1) root suite instruction (format_for_retry result)
        end
  end.

Definition run_edit_loop (instruction : str) : E EditLoopOutcome := fun '(e, c) =>
  let root := loop_dir e in
  (dirty ← check_workspace_dirty root;
   match dirty with
   | inl true =>
       emit_transcript_line
         t!"[edit loop warning: workspace has uncommitted changes; proceeding without mutating git state]"
   | inl false => mret tt
   | inr error =>
       emit_transcript_line (t!"[edit loop warning: skipped workspace-dirty check: " ++ error ++ t!"]")
   end;;
   suite ← (fun '(e, c) => Returns (load_or_infer root (world (manager c)), (e, c)) : outcome (ValidationSuite * _));
   edit_pulses (N.to_nat (max_turns e)) 0 root suite instruction []) (e, c).

(** The task of [start_edit_loop], with the text of the profile's prompt. *)
Definition start_edit_loop (e : EditLoop) (prompt : str + str) (instruction : str) (c : RuntimeContext W)
    : outcome (RuntimeContext W) :=
  match prompt with
  | inr error => Returns (send [UiError (t!"edit loop profile error: " ++ error)] c)
  | inl prompt =>
      '(outcome, (e, c)) ← run_edit_loop instruction (e, set_runtime_prompt (Some prompt) c);
      Returns (send [UiEditLoopComplete outcome (last_validation_result e)] (set_runtime_prompt None c))
  end.
End loop.

(** * What it promises *)

(** ** The validation *)
Section validation.
Context {W : Type} `{Machine W}.

(** What the machine does for a command: the exit code, or [None] when the sandbox refuses it, it
    cannot be started or runs out of time. *)
Inductive command_ran (dir : option path) (c : ValidationCommand) (w : W) : option Z -> W -> Prop :=
| command_refused error w1 :
    sandbox_wrap (mk_CommandRequest (vc_program c) (vc_args c) dir) w = (inr error, w1) -> command_ran dir c w None w1
| command_exited request w1 r w2 :
    sandbox_wrap (mk_CommandRequest (vc_program c) (vc_args c) dir) w = (inl request, w1) ->
    run_within (normalize_timeout (timeout_secs c)) request w1 = (Ran r, w2) -> command_ran dir c w (Some (cr_exit_code r)) w2
| command_not_run request w1 ended w2 :
    sandbox_wrap (mk_CommandRequest (vc_program c) (vc_args c) dir) w = (inl request, w1) ->
    run_within (normalize_timeout (timeout_secs c)) request w1 = (ended, w2) -> (forall r, ended <> Ran r) -> command_ran dir c w None w2.

(** The commands of a suite, each from the world the one before left. *)
Inductive suite_ran (dir : option path) : ValidationSuite -> W -> list (option Z) -> W -> Prop :=
| suite_done w : suite_ran dir [] w [] w
| suite_command c suite w code w1 codes w2 :
    command_ran dir c w code w1 -> suite_ran dir suite w1 codes w2 -> suite_ran dir (c :: suite) w (code :: codes) w2.

(** The machine ran the suite from [w] to [w'], and the result says how: an output for each
    command, with its exit code, and the suite passes when each command was run and exited with
    zero. *)
Definition validated (dir : option path) (suite : ValidationSuite) (r : ValidationResult) (w w' : W) : Prop :=
  exists codes, suite_ran dir suite w codes w'
    /\ map vo_label (outputs r) = map vc_label suite
    /\ map exit_code (outputs r) = map (fun code => match code with Some n => n | None => (-1)%Z end) codes
    /\ (passed r = true <-> Forall (fun code => code = Some 0%Z) codes).

Lemma sandboxed_result dir c (w : W) :
  exists o w' code, run_validation_command_with_sandbox dir c w = Returns (o, w') /\ vo_label o = vc_label c
    /\ command_ran dir c w code w' /\ exit_code o = match code with Some n => n | None => (-1)%Z end.
Proof.
  unfold run_validation_command_with_sandbox, in_machine, settled, mbind, pst_bind, mret, pst_ret, fmap, outcome_fmap.
  destruct (sandbox_wrap _ w) as [[request|error] w1] eqn:Ew; [|by eexists _, _, None; split_and!; [| |eapply command_refused|]].
  destruct (run_within _ request w1) as [[r|error|] w2] eqn:Er.
  - destruct (tails_result (vc_label c) (cr_exit_code r) (cr_stdout r) (cr_stderr r)) as (o & -> & Hl & Hc & _).
    eexists _, _, (Some _). split_and!; [done | done | by eapply command_exited | done].
  - by eexists _, _, None; split_and!; [| |eapply command_not_run|].
  - by eexists _, _, None; split_and!; [| |eapply command_not_run|].
Qed.

Lemma run_all_result dir suite (w : W) :
  exists os w' codes, run_all (run_validation_command_with_sandbox dir) suite w = Returns (os, w')
    /\ map vo_label os = map vc_label suite /\ suite_ran dir suite w codes w'
    /\ map exit_code os = map (fun code => match code with Some n => n | None => (-1)%Z end) codes.
Proof.
  revert w. induction suite as [|c suite IH]; intros w; cbn [run_all].
  { exists [], w, []. split_and!; [done | done | constructor | done]. }
  destruct (sandboxed_result dir c w) as (o & w1 & code & E1 & Hl & Hr & Hc). rewrite (pst_bind_returns _ _ _ _ _ E1).
  destruct (IH w1) as (os & w2 & codes & E2 & Hls & Hrs & Hcs). rewrite (pst_bind_returns _ _ _ _ _ E2).
  exists (o :: os), w2, (code :: codes). cbn. rewrite Hl, Hls, Hc, Hcs. split_and!; [done | done | by econstructor | done].
Qed.

Lemma validation_result suite dir (w : W) :
  exists r w', run_in_dir_with_sandbox suite dir w = Returns (r, w') /\ validated dir suite r w w'.
Proof.
  unfold run_in_dir_with_sandbox. destruct (run_all_result dir suite w) as (os & w1 & codes & E1 & Hl & Hr & Hc).
  rewrite (pst_bind_returns _ _ _ _ _ E1). eexists _, w1. split; [reflexivity|]. exists codes. split_and!; [done | done | done |].
  cbn. clear -Hc. revert codes Hc. induction os as [|o os IH]; intros [|code codes] Hc; try done. cbn in Hc |- *.
  injection Hc as Ho Hc. specialize (IH codes Hc). rewrite andb_true_iff, Z.eqb_eq, Forall_cons, IH, Ho.
  destruct code as [n|]; [|by split; [intros [? _]|intros [? _]]]. split; intros [H0 ?]; (split; [congruence | done]).
Qed.
End validation.

(** ** The turns *)
(** A tool that changes files has succeeded in the turn. *)
Definition mutated (turn : TurnDocument) : Prop :=
  exists step id name input status step' tool output,
    EToolCall step id name input status ∈ td_entries turn /\ is_turn_mutation_tool name = true
    /\ EToolResult step' id tool output false ∈ td_entries turn.

(** The turn did not fail, and one has. *)
Definition applied (turn : TurnDocument) : Prop := mutated turn /\ forall error, td_outcome turn <> OutcomeFailed error.

Section loop.
Context {W : Type} `{Surroundings W} `{PanicState W} `{Machine W} `{EditWorld W} {toml : Toml}.
Context {clock : Clock} {chrono : Chrono} {js : SerdeJson} {pretty : PrettyJson} {diff : LineDiff} {hash : ContentHash} `{HashOrder}.
Variable s : Settings.
Variable join_error : str.
Notation Mgr := (ConversationManager W).

Lemma mutation_of_turn (m : Mgr) d turns turn :
  task_doc m = Some d -> active_pulse d = None -> completed_turns d = turns ++ [turn] ->
  current_turn_has_successful_mutation m = true <-> mutated turn.
Proof.
  intros Hd Ha Hc. unfold current_turn_has_successful_mutation. rewrite Hd, Ha, Hc, last_snoc. split.
  - intros (e & He & Hm)%existsb_exists. destruct e as [| | |step' id tool output [|]| | | |]; try done.
    unfold str_in in Hm. cbn [negb andb] in Hm. apply existsb_exists in Hm as (id' & Hin & Heq). apply bool_decide_eq_true in Heq as <-.
    apply in_flat_map in Hin as (c & Hc' & Hid). destruct c as [| |step id'' name input status| | | | |]; try done.
    destruct (is_turn_mutation_tool name) eqn:Hname; [|done]. destruct Hid as [->|[]].
    exists step, id, name, input, status, step', tool, output. rewrite !list_elem_of_In. by split_and!.
  - intros (step & id & name & input & status & step' & tool & output & Hcall & Hname & Hres).
    rewrite list_elem_of_In in Hcall, Hres. apply existsb_exists. exists (EToolResult step' id tool output false). split; [done|].
    cbn [negb andb]. unfold str_in. apply existsb_exists. exists id. split; [|by apply bool_decide_eq_true].
    apply in_flat_map. exists (EToolCall step id name input status). split; [done|]. rewrite Hname. by left.
Qed.

(** An edit turn, with no turn open: one turn more, with the message as its input; the answer says
    whether it has applied a patch. *)
Lemma drive_result `{!Steady W} input (c : RuntimeContext W) r c' :
  active (manager c) = None -> drive_edit_turn s join_error input c = Returns (r, c') ->
  active (manager c') = None
  /\ exists turn, turns_of (manager c') = turns_of (manager c) ++ [turn] /\ td_input turn = input
       /\ (r = inl true <-> applied turn).
Proof.
  intros Ha. unfold drive_edit_turn, spawn_message. set (m0 := set_updates [] (manager c)).
  destruct (message_result (with_channel s) input DefaultPolicy None m0 Ha) as (result & m1 & m' & E & (_ & d & a & Hd & Hact & Hi & Hc) & Hf).
  rewrite E. destruct (Hf d a Hd Hact) as (d' & turn & Hd' & Ha' & Hc' & Hi' & Ho).
  destruct (forward_all (updates m') no_forwarding) as [[shown f]|]; [|done]. cbn. intros [= <- <-]. cbn.
  split; [unfold active; by rewrite Hd'|]. exists turn. unfold turns_of at 1. rewrite Hd', Hc', Hc. split_and!; [done | by rewrite Hi' |].
  pose proof (mutation_of_turn m' d' (completed_turns d) turn Hd' Ha' Hc') as Hm. unfold applied.
  destruct result as [response|error].
  - rewrite <- Hm. destruct Ho as [Ho _]. split; [intros [= Hp]; split; [done|]; intros error; destruct Ho; congruence | by intros [-> _]].
  - split; [done|]. intros [_ Hne]. by destruct (Hne error).
Qed.

Notation St := (EditLoop * RuntimeContext W)%type.

(** The turns that were driven since. *)
Definition driven (instruction : str) (st st' : St) (new : list TurnDocument) : Prop :=
  active (manager st'.2) = None
  /\ turns_of (manager st'.2) = turns_of (manager st.2) ++ new
  /\ Forall (fun turn => exists context, td_input turn = pulse_message instruction context) new
  /\ max_turns st'.1 = max_turns st.1 /\ stop_on_clean_validate st'.1 = stop_on_clean_validate st.1.

Lemma driven_app instruction st1 st2 st3 new new' :
  driven instruction st1 st2 new -> driven instruction st2 st3 new' -> driven instruction st1 st3 (new ++ new').
Proof.
  intros (_ & T1 & F1 & N1 & S1) (A2 & T2 & F2 & N2 & S2). split_and!; try congruence.
  - by rewrite T2, T1, app_assoc.
  - by apply Forall_app.
Qed.

(** An operation that drives no turn. *)
Lemma driven_same instruction (st st' : St) :
  active (manager st.2) = None -> manager st'.2 = manager st.2 \/ (exists w, manager st'.2 = set_world w (manager st.2)) ->
  max_turns st'.1 = max_turns st.1 -> stop_on_clean_validate st'.1 = stop_on_clean_validate st.1 -> driven instruction st st' [].
Proof.
  intros Ha Hm Hn Hs. assert (active (manager st'.2) = None /\ turns_of (manager st'.2) = turns_of (manager st.2)) as [Ha' Ht].
  { destruct Hm as [->|[w ->]]; done. }
  split_and!; try done. by rewrite app_nil_r.
Qed.

(** The suite was run in the world that the last of the turns left, of which a patch was applied,
    after the question whether the user has cancelled; it left [w']. *)
Definition validated_after (root : path) (suite : ValidationSuite) (turns : list TurnDocument) (r : ValidationResult)
    (w' : W) : Prop :=
  exists input (c1 c2 : RuntimeContext W) w,
    drive_edit_turn s join_error input c1 = Returns (inl true, c2) /\ turns_of (manager c2) = turns
    /\ is_cancelled (world (manager c2)) = (false, w) /\ validated (Some root) suite r w w'.

Definition outcome_holds (root : path) (suite : ValidationSuite) (remaining : nat) (outcome : EditLoopOutcome) (st st' : St)
    (new : list TurnDocument) : Prop :=
  let past := turns_of (manager st.2) in
  match outcome with
  | Success patch_applied validate_passed =>
      patch_applied = true /\ validate_passed = true
      /\ exists earlier turn r, new = earlier ++ [turn] /\ applied turn
         /\ last_validation_result st'.1 = Some r /\ passed r = true
         /\ validated_after root suite (past ++ new) r (world (manager st'.2))
  | LoopMaxTurnsReached last_error =>
      length new = remaining /\ last_error = last_validation_error st'.1
      /\ (Forall (fun turn => ~ applied turn) new /\ last_validation_result st'.1 = last_validation_result st.1
          \/ exists earlier turn later r w', new = earlier ++ turn :: later
             /\ applied turn /\ Forall (fun turn => ~ applied turn) later
             /\ last_validation_result st'.1 = Some r /\ validated_after root suite (past ++ earlier ++ [turn]) r w'
             /\ (stop_on_clean_validate st.1 = true -> passed r = false))
  | ApprovalDenied => False
  | Cancelled => exists w, is_cancelled w = (true, world (manager st'.2))
  end.

Lemma on_world_inv {A} (op : PST W A) (st : St) a st' :
  on_world op st = Returns (a, st') -> exists w', op (world (manager st.2)) = Returns (a, w')
    /\ st' = (st.1, with_manager (set_world w' (manager st.2)) st.2).
Proof.
  destruct st as [e c]. unfold on_world. destruct (op (world (manager c))) as [[x w']|] eqn:E; [|done]. cbn.
  intros [= <- <-]. by exists w'.
Qed.
Lemma in_machine_inv {A} (f : W -> A * W) (w : W) a w' : in_machine f w = Returns (a, w') -> f w = (a, w').
Proof. unfold in_machine. by intros [= ->]. Qed.

(** What follows the first turn of [new], with the result of its validation if it had one. *)
Lemma outcome_later root suite remaining outcome (st st1 st' : St) turn new :
  turns_of (manager st1.2) = turns_of (manager st.2) ++ [turn] ->
  stop_on_clean_validate st1.1 = stop_on_clean_validate st.1 ->
  (~ applied turn /\ last_validation_result st1.1 = last_validation_result st.1
   \/ applied turn /\ exists r w', last_validation_result st1.1 = Some r
       /\ validated_after root suite (turns_of (manager st1.2)) r w' /\ (stop_on_clean_validate st.1 = true -> passed r = false)) ->
  outcome_holds root suite remaining outcome st1 st' new ->
  outcome_holds root suite (S remaining) outcome st st' (turn :: new).
Proof.
  intros Ht Hs Hfirst. unfold outcome_holds. cbv zeta. rewrite Ht, Hs. destruct outcome as [pa vp|le| |]; try done.
  - intros (-> & -> & earlier & last & r & -> & Hl & Hr & Hp & Hv). split_and!; try done.
    exists (turn :: earlier), last, r. rewrite <- app_assoc in Hv. by split_and!.
  - intros (<- & -> & Hlater). split_and!; try done.
    destruct Hlater as [[Hnone Hlast]|(earlier & turn' & later & r & w' & -> & Ha & Hla & Hr & Hv & Hp)].
    + destruct Hfirst as [[Hna Hsame]|(Ha & r & w' & Hr & Hv & Hp)].
      * left. split; [by constructor | congruence].
      * right. exists [], turn, new, r, w'. rewrite Ht in Hv. cbn [app]. split_and!; try done. congruence.
    + right. exists (turn :: earlier), turn', later, r, w'. rewrite <- app_assoc in Hv. by split_and!.
Qed.

Lemma pulses_result `{!Steady W} remaining pulse root suite instruction context (st : St) outcome st' :
  active (manager st.2) = None ->
  edit_pulses s join_error remaining pulse root suite instruction context st = Returns (outcome, st') ->
  exists new, driven instruction st st' new /\ (length new <= remaining)%nat
    /\ outcome_holds root suite remaining outcome st st' new.
Proof.
  revert pulse context st. induction remaining as [|remaining IH]; intros pulse context [e c] Ha E; cbn [edit_pulses] in E.
  { injection E as <- <-. exists []. split; [apply driven_same; auto|]. split; [done|]. split_and!; auto. }
  apply pst_bind_inv in E as (cancelled & st1 & E1 & E). apply on_world_inv in E1 as (w1 & Ec1%in_machine_inv & ->). cbn [fst snd] in E, Ec1.
  destruct cancelled.
  { pst_inv. exists []. split; [apply driven_same; cbn; eauto|]. split; [cbn; lia|]. cbn. eauto. }
  set (c1 := with_manager _ c) in E. apply pst_bind_inv in E as (turns & st2 & E2 & E). injection E2 as <- <-.
  apply pst_bind_inv in E as ([] & st2 & E2 & E). injection E2 as <-. apply pst_bind_inv in E as (answer & st3 & E3 & E).
  unfold in_ctx in E3. set (c2 := send _ c1) in E3.
  destruct (drive_edit_turn s join_error (pulse_message instruction context) c2) as [[answer' c3]|] eqn:Ed; [|done].
  cbn in E3. injection E3 as -> <-. destruct (drive_result _ c2 answer c3 Ha Ed) as (Ha3 & turn & Ht & Hi & Hm).
  assert (forall (st3 : St), active (manager st3.2) = None -> turns_of (manager st3.2) = turns_of (manager c3) ->
    max_turns st3.1 = max_turns e -> stop_on_clean_validate st3.1 = stop_on_clean_validate e ->
    driven instruction (e, c) st3 [turn]) as Hdriven.
  { intros st3 A3 T3 N3 S3. split_and!; try done; [by rewrite T3, Ht|]. constructor; [by exists context | done]. }
  (* What follows the turn. *)
  assert (forall context' st3, active (manager st3.2) = None -> turns_of (manager st3.2) = turns_of (manager c) ++ [turn] ->
    driven instruction (e, c) st3 [turn] ->
    (~ applied turn /\ last_validation_result st3.1 = last_validation_result e
     \/ applied turn /\ exists r w', last_validation_result st3.1 = Some r
         /\ validated_after root suite (turns_of (manager st3.2)) r w' /\ (stop_on_clean_validate e = true -> passed r = false)) ->
    edit_pulses s join_error remaining (pulse + 1) root suite instruction context' st3 = Returns (outcome, st') ->
    exists new, driven instruction (e, c) st' new /\ (length new <= S remaining)%nat
      /\ outcome_holds root suite (S remaining) outcome (e, c) st' new) as Hnext.
  { intros context' st3 A3 T3 D3 V3 E'. destruct (IH _ _ st3 A3 E') as (new & D & L & O). exists (turn :: new).
    split; [exact (driven_app _ _ _ _ [turn] new D3 D)|]. split; [cbn; lia|]. eapply outcome_later; try done. by destruct D3 as (_ & _ & _ & _ & S3). }
  destruct answer as [patch_applied|err].
  2:{ apply pst_bind_inv in E as ([] & st4 & E4 & E). injection E4 as <-. eapply Hnext, E; [done | done | by apply Hdriven |].
      left. split; [by intros Hp%Hm | done]. }
  apply pst_bind_inv in E as (cancelled & st4 & E4 & E). apply on_world_inv in E4 as (w3 & Ec3%in_machine_inv & ->). cbn [fst snd] in E, Ec3.
  set (c4 := with_manager _ c3) in E. destruct cancelled.
  { pst_inv. exists [turn]. split; [by apply Hdriven|]. split; [cbn; lia|]. cbn. eauto. }
  destruct patch_applied; cbn [negb] in E.
  2:{ apply pst_bind_inv in E as ([] & st5 & E5 & E). injection E5 as <-. eapply Hnext, E; [done | done | by apply Hdriven |].
      left. split; [by intros Hp%Hm | done]. }
  assert (applied turn) as Happ by by apply Hm.
  apply pst_bind_inv in E as ([] & st5 & E5 & E). injection E5 as <-.
  apply pst_bind_inv in E as (result & st6 & E6 & E). apply on_world_inv in E6 as (w5 & Ew & ->). cbn [fst snd] in E, Ew.
  assert (validated_after root suite (turns_of (manager c3)) result w5) as Hv.
  { exists (pulse_message instruction context), c2, c3, w3. split_and!; try done.
    destruct (validation_result suite (Some root) w3) as (r & w5' & Ew' & Hr).
    apply (eq_trans (eq_sym Ew)) in Ew'. by injection Ew' as <- <-. }
  apply pst_bind_inv in E as ([] & st7 & E7 & E). injection E7 as <-. destruct (passed result) eqn:Hp.
  - apply pst_bind_inv in E as ([] & st8 & E8 & E). injection E8 as <-. apply pst_bind_inv in E as (stop & st9 & E9 & E).
    injection E9 as <- <-. cbn [stop_on_clean_validate set_last_validation_result] in E. destruct (stop_on_clean_validate e) eqn:Hs.
    + pst_inv. exists [turn]. split; [by apply Hdriven|]. split; [cbn; lia|]. split_and!; try done.
      exists [], turn, result. change (turns_of (manager c3) = turns_of (manager c) ++ [turn]) in Ht. rewrite Ht in Hv. by split_and!.
    + eapply Hnext, E; [done | done | by apply Hdriven |]. right. split; [done|]. by exists result, w5.
  - apply pst_bind_inv in E as ([] & st8 & E8 & E). injection E8 as <-. eapply Hnext, E; [done | done | by apply Hdriven |].
    right. split; [done|]. by exists result, w5.
Qed.
End loop.

(** C6: what an edit loop does, when neither the client nor a tool panics.  Started with no turn open,
    it drives at most [max_turns] turns, each with the instruction as its message, after the first
    perhaps followed by what went wrong before, and leaves none open.  A turn has applied a patch when
    it did not fail and a tool that changes files has succeeded in it.  The loop succeeds only when
    its last turn has applied one, and the machine then ran the commands of the suite, in the world
    that this turn left (after the question whether the user has cancelled): every one was run and
    exited with zero, and nothing was done after it.  It gives up only after exactly [max_turns]
    turns, with the error of the last validation, which is the one that was run in the world left by
    the last turn that applied a patch, or the one from before the loop when none did.  It is
    cancelled only when the user has cancelled, at its end; and it never ends for a denied
    approval.  The commands of a suite are run one after the other here. *)
Theorem edit_loop_outcome {W} `{Surroundings W} `{!Steady W} `{PanicState W} `{Machine W} `{EditWorld W} {toml : Toml}
    {clock : Clock} {chrono : Chrono} {js : SerdeJson} {pretty : PrettyJson} {diff : LineDiff} {hash : ContentHash} `{HashOrder}
    s join_error instruction e (c : RuntimeContext W) outcome e' c' :
  active (manager c) = None ->
  run_edit_loop s join_error instruction (e, c) = Returns (outcome, (e', c')) ->
  exists status (w : W) new,
    git_status (loop_dir e) (world (manager c)) = (status, w) /\
    let suite := load_or_infer (loop_dir e) w in
    active (manager c') = None /\ turns_of (manager c') = turns_of (manager c) ++ new
    /\ (length new <= N.to_nat (max_turns e))%nat
    /\ Forall (fun turn => exists context, td_input turn = pulse_message instruction context) new
    /\ outcome_holds s join_error (loop_dir e) suite (N.to_nat (max_turns e)) outcome (e, c) (e', c') new.
Proof.
  intros Ha E. unfold run_edit_loop in E. apply pst_bind_inv in E as (dirty & st1 & E1 & E).
  unfold check_workspace_dirty in E1. apply pst_bind_inv in E1 as (status & st1' & E1 & E1').
  apply on_world_inv in E1 as (w & Ew%in_machine_inv & ->). apply pst_ret_inv in E1' as [<- <-]. cbn [fst snd] in E, Ew.
  match type of E with (_ ≫= _) ?st = _ => set (st1 := st) in E end.
  assert (world (manager st1.2) = w) as W1 by done.
  assert (driven instruction (e, c) st1 []) as D1 by (apply driven_same; cbn; eauto).
  assert (last_validation_result st1.1 = last_validation_result e) as V1 by done.
  apply pst_bind_inv in E as ([] & st2 & E2 & E).
  assert (driven instruction (e, c) st2 [] /\ last_validation_result st2.1 = last_validation_result e /\ world (manager st2.2) = w)
    as (D2 & V2 & W2).
  { destruct (workspace_dirty status) as [[|]|error]; [injection E2 as <- | injection E2 as <- | injection E2 as <-]; done. }
  clearbody st1. clear D1 V1 W1 E2 st1. destruct st2 as [e2 c2]. cbn [fst snd] in *.
  apply pst_bind_inv in E as (suite & st3 & E3 & E). injection E3 as <- <-.
  destruct D2 as (A2 & T2 & _ & N2 & S2). cbn [fst snd] in *. rewrite app_nil_r in T2.
  destruct (pulses_result s join_error _ _ _ _ _ _ (e2, c2) _ _ A2 E) as (new & (A & T & F & N & S) & L & O). cbn [fst snd] in *.
  exists status, w, new. rewrite W2 in O. split_and!; try done; [by rewrite T, T2|].
  unfold outcome_holds in *. cbv zeta in *. cbn [fst snd] in *. by rewrite T2, V2, S2 in O.
Qed.

(** ** A witness *)
Definition passing_machine : Machine Script := {|
  run_within _ _ w := (Ran (mk_CommandResult 0 t!"ok" []), w);
  sandbox_wrap request w := (inl request, w);
  is_file p w := bool_decide (p = components t!"/w/Cargo.toml");
  read_to_string _ _ := inr t!"no such file";
|}.
Definition clean_world : EditWorld Script := {|
  git_status _ w := (GitExited true [] [], w);
  is_cancelled w := (false, w);
|}.
Definition listed_order : HashOrder := map_to_list.
#[local] Existing Instances scripted step_clock plain_chrono empty_codec plain_pretty plain_diff plain_hash.
#[local] Existing Instances passing_machine clean_world listed_order as_before.

Lemma edit_loop_outcome_witness :
  let _ : Toml := fun _ => inr t!"no TOML" in
  let e := edit_loop_new (components t!"/w") in
  let c := mk_RuntimeContext (sample_manager sample_script) None None SessionTokens.default [] in
  exists outcome e' c',
    run_edit_loop (sample_settings true true) t!"panicked" t!"write it" (e, c) = Returns (outcome, (e', c'))
    /\ outcome = Success true true
    /\ exists status (w : Script) new,
      git_status (loop_dir e) (world (manager c)) = (status, w) /\
      let suite := load_or_infer (loop_dir e) w in
      active (manager c') = None /\ turns_of (manager c') = turns_of (manager c) ++ new
      /\ (length new <= N.to_nat (max_turns e))%nat
      /\ Forall (fun turn => exists context, td_input turn = pulse_message t!"write it" context) new
      /\ outcome_holds (sample_settings true true) t!"panicked" (loop_dir e) suite (N.to_nat (max_turns e)) outcome (e, c) (e', c') new.
Proof.
  cbv zeta. set (no_toml := fun _ => inr t!"no TOML").
  eexists _, _, _. match goal with |- ?E /\ _ => assert E as Hrun by (vm_compute; reflexivity) end.
  split; [exact Hrun|]. split; [reflexivity|].
  refine (@edit_loop_outcome _ _ _ _ _ _ no_toml _ _ _ _ _ _ _ (sample_settings true true) _ _ _ _ _ _ _ _ Hrun). reflexivity.
Defined.
