(* ===== verification/Memory.v ===== *)
(** What is remembered from one session to the next: the notes found in an answer, the candidates
    that are reviewed, the markdown file that shows them, and what of them a client is given:
    src/auto_memory.rs, src/runtime/memory_candidates.rs and src/session_notes.rs.

    The counter of tokens is a library's, and an argument; the Unicode tables are a class. *)
From Stdlib Require Import NArith ZArith Lia.
From stdpp Require Import base list strings numbers.
From S2P Require Import Prelude Text Collections.
#[local] Open Scope N_scope.

(** [char::is_alphanumeric]. *)
Class Alphanumeric := is_alphanumeric : char -> bool.

(** ** The notes of an answer: src/auto_memory.rs *)
Section extraction.
Context `{Alphanumeric}.

Definition strip_bullet_prefix (line : str) : option str :=
  match strip_prefix t!"- " line with
  | Some rest => Some rest
  | None =>
      match strip_prefix t!"* " line with
      | Some rest => Some rest
      | None =>
          match line with
          | [] => None
          | first :: rest =>
              if negb (is_alphanumeric first) && negb (is_whitespace first) && starts_with t!" " rest
              then Some (trim_start rest) else None
          end
      end
  end.

Definition is_numbered (trimmed : str) : bool :=
  match split_once t!". " trimmed with
  | Some (prefix, _) => forallb is_ascii_digit prefix
  | None => false
  end.

Definition is_key_value (trimmed : str) : bool :=
  contains t!": " trimmed && negb (starts_with t!"//" trimmed) && negb (contains t!"::" trimmed)
  && forallb (fun c => negb (contains_char c trimmed)) t!"{}[]`;".

Definition looks_structured (content : str) : bool :=
  contains t!"```" content || existsb (fun c => contains_char c content) t!"{}[]`"
  || existsb (fun p => starts_with p content) [t!"fn "; t!"let "; t!"pub "; t!"impl "]
  || contains t!"::" content || contains_char 59 content.

(** The note of a line that is neither empty nor code. *)
Definition line_note (trimmed : str) : option str :=
  let bullet := strip_bullet_prefix trimmed in
  if opt_is_some bullet || is_numbered trimmed || is_key_value trimmed then
    let content := match bullet with Some b => trim b | None => trimmed end in
    if negb (is_empty content) && negb (looks_structured content) then Some content else None
  else None.

Fixpoint notes_of_lines (max_notes : N) (in_code_block : bool) (notes : list str) (ls : list str) : list str :=
  match ls with
  | [] => notes
  | line :: r =>
      let trimmed := trim line in
      if starts_with t!"```" trimmed then notes_of_lines max_notes (negb in_code_block) notes r
      else if in_code_block || is_empty trimmed then notes_of_lines max_notes in_code_block notes r
      else
        let notes := notes ++ match line_note trimmed with Some note => [note] | None => [] end in
        if max_notes <=? N.of_nat (length notes) then notes
        else notes_of_lines max_notes in_code_block notes r
  end.

Definition extract_notes_from_turn (input response : str) (max_notes : N) : list str :=
  if max_notes =? 0 then [] else notes_of_lines max_notes false [] (lines response).
End extraction.

Definition format_auto_notes (notes : list str) (timestamp_seconds : N) : list str :=
  map (fun note => t!"[" ++ fmt_N timestamp_seconds ++ t!"] [auto] " ++ note) notes.

Definition nonempty_digits (s : str) : bool := negb (is_empty s) && forallb is_ascii_digit s.

Definition is_auto_note_line (line : str) : bool :=
  match strip_prefix t!"[" (trim_start line) with
  | None => false
  | Some rest =>
      match split_once t!"] " rest with
      | None => false
      | Some (timestamp, suffix) => nonempty_digits timestamp && starts_with t!"[auto] " suffix
      end
  end.

(** [remove_auto_notes]: the count removed and the text written back. *)
Definition remove_auto_notes (content : str) : N * str :=
  let kept := List.filter (fun line => negb (is_auto_note_line line)) (lines content) in
  let removed := List.filter is_auto_note_line (lines content) in
  let new_content := join [LF] kept in
  (N.of_nat (length removed), if is_empty new_content then [] else new_content ++ [LF]).

(** ** The candidates: src/runtime/memory_candidates.rs *)
Inductive CandidateSource : Type := SourceUser | SourceFeedback | SourceProject | SourceReference.
Inductive CandidateStatus : Type := CandidatePending | CandidateAccepted.

#[export] Instance CandidateSource_eq_dec : EqDecision CandidateSource.
Proof. solve_decision. Defined.
#[export] Instance CandidateStatus_eq_dec : EqDecision CandidateStatus.
Proof. solve_decision. Defined.

Record MemoryCandidate := mk_MemoryCandidate {
  mc_source : CandidateSource;
  mc_topic : str;
  mc_body : str;
  mc_status : CandidateStatus;
  source_reference : str;
}.

(** [schema_version] is always written as 1 and is not looked at when it is read. *)
Abbreviation Store := (list MemoryCandidate).

Definition topic_from (body : str) : str :=
  let trimmed := trim body in
  if chars_count trimmed <=? 48 then trimmed else take 48 trimmed ++ t!"...".

Definition strip_auto_note_body (line : str) : str :=
  let trimmed := trim_start line in
  match strip_prefix t!"[" trimmed with
  | Some rest =>
      match split_once t!"] " rest with
      | Some (_, suffix) => unwrap_or (strip_prefix t!"[auto] " suffix) trimmed
      | None => trimmed
      end
  | None => trimmed
  end.

Definition parse_auto_timestamp (line : str) : str :=
  match strip_prefix t!"[" (trim_start line) with
  | Some rest =>
      match split_once t!"]" rest with
      | Some (timestamp, _) => if nonempty_digits timestamp then timestamp else t!"0"
      | None => t!"0"
      end
  | None => t!"0"
  end.

Definition feedback_candidate (line : str) : MemoryCandidate :=
  let body := strip_auto_note_body line in
  mk_MemoryCandidate SourceFeedback (topic_from body) body CandidatePending
    (t!"auto:" ++ parse_auto_timestamp line).

Definition migrate_line (line : str) : option MemoryCandidate :=
  let trimmed := trim line in
  if is_empty trimmed then None
  else Some (if is_auto_note_line trimmed then feedback_candidate trimmed
             else mk_MemoryCandidate SourceUser (topic_from trimmed) trimmed CandidateAccepted t!"memory.md").
Definition migrate_markdown_lines (content : str) : Store := omap migrate_line (lines content).

Definition render_candidate (c : MemoryCandidate) : str :=
  match mc_source c with
  | SourceFeedback =>
      match strip_prefix t!"auto:" (source_reference c) with
      | Some timestamp => t!"[" ++ timestamp ++ t!"] [auto] " ++ mc_body c ++ [LF]
      | None => t!"[0] [auto] " ++ mc_body c ++ [LF]
      end
  | _ => mc_body c ++ [LF]
  end.
Definition render_notes_markdown (candidates : Store) : str := concat (map render_candidate candidates).

(** ** The two files *)
Inductive NotesFile : Type :=
| NoNotes
| UnreadableNotes (error : str)
| NotesText (content : str).
Inductive StoreFile : Type :=
| NoStore
| UnreadableStore (error : str)
| StoredCandidates (store : Store).

(** The sidecar and the notes file, and what writing them fails with.  The sidecar is replaced in
    one step; a notes file that cannot be written is one that cannot be opened. *)
Record NotesDisk := mk_NotesDisk {
  sidecar : StoreFile;
  notes : NotesFile;
  directory_error : option str;
  sidecar_error : option str;
  notes_error : option str;
}.

Definition set_sidecar (f : StoreFile) (d : NotesDisk) : NotesDisk :=
  mk_NotesDisk f (notes d) (directory_error d) (sidecar_error d) (notes_error d).
Definition set_notes (f : NotesFile) (d : NotesDisk) : NotesDisk :=
  mk_NotesDisk (sidecar d) f (directory_error d) (sidecar_error d) (notes_error d).

(** The error, if any. *)
Definition persist_store (store : Store) : ST NotesDisk (option str) := fun d =>
  match directory_error d, sidecar_error d, notes_error d with
  | Some e, _, _ => (Some e, d)
  | None, Some e, _ => (Some e, d)
  | None, None, Some e => (Some e, set_sidecar (StoredCandidates store) d)
  | None, None, None =>
      (None, set_notes (NotesText (render_notes_markdown store)) (set_sidecar (StoredCandidates store) d))
  end.

Definition load_or_migrate : ST NotesDisk (Store + str) := fun d =>
  match sidecar d with
  | StoredCandidates store => (inl store, d)
  | UnreadableStore e => (inr e, d)
  | NoStore =>
      match notes d with
      | NoNotes => (inl [], d)
      | UnreadableNotes e => (inr e, d)
      | NotesText content =>
          let store := migrate_markdown_lines content in
          match store with
          | [] => (inl [], d)
          | _ => match persist_store store d with
                 | (None, d) => (inl store, d)
                 | (Some e, d) => (inr e, d)
                 end
          end
      end
  end.

(** The store loaded, changed and written. *)
Definition change_store {A} (change : Store -> A * Store) : ST NotesDisk (A + str) := fun d =>
  match load_or_migrate d with
  | (inr e, d) => (inr e, d)
  | (inl store, d) =>
      let '(result, store) := change store in
      match persist_store store d with
      | (None, d) => (inl result, d)
      | (Some e, d) => (inr e, d)
      end
  end.

Definition add_user_note (note : str) : ST NotesDisk (unit + str) :=
  change_store (fun store =>
    (tt, store ++ [mk_MemoryCandidate SourceUser (topic_from note) note CandidateAccepted t!"/memory add"])).

Definition append_feedback_notes (formatted_auto_lines : list str) : ST NotesDisk (unit + str) :=
  change_store (fun store => (tt, store ++ map feedback_candidate formatted_auto_lines)).

Definition clear_store : ST NotesDisk (option str) := persist_store [].

Definition remove_feedback_candidates : ST NotesDisk (N + str) := fun d =>
  match notes d, sidecar d with
  | NoNotes, NoStore => (inl 0, d)
  | _, _ =>
      change_store (fun store =>
        let kept := List.filter (fun c => bool_decide (mc_source c <> SourceFeedback)) store in
        (N.of_nat (length store) - N.of_nat (length kept), kept)) d
  end.

Definition is_pending (c : MemoryCandidate) : bool := bool_decide (mc_status c = CandidatePending).
Definition is_accepted (c : MemoryCandidate) : bool := bool_decide (mc_status c = CandidateAccepted).

Fixpoint pending_indices_from (i : nat) (store : Store) : list nat :=
  match store with
  | [] => []
  | c :: r => (if is_pending c then [i] else []) ++ pending_indices_from (S i) r
  end.
Definition pending_indices (store : Store) : list nat := pending_indices_from 0 store.

Definition accept (c : MemoryCandidate) : MemoryCandidate :=
  mk_MemoryCandidate (mc_source c) (mc_topic c) (mc_body c) CandidateAccepted (source_reference c).

(** The index of the candidate that is selected. *)
Definition selected_candidate (selector : str) (store : Store) : option nat :=
  let indices := pending_indices store in
  match parse_uint usize_max selector with
  | Some number =>
      if (number =? 0) || (N.of_nat (length indices) <? number) then None
      else indices !! N.to_nat (number - 1)
  | None =>
      let needle := to_ascii_lowercase selector in
      List.find (fun i => match store !! i with
                          | Some c => contains needle (to_ascii_lowercase (mc_topic c))
                                      || contains needle (to_ascii_lowercase (mc_body c))
                          | None => false
                          end) indices
  end.

Definition accept_pending (selector : str) : ST NotesDisk (option str + str) := fun d =>
  match load_or_migrate d with
  | (inr e, d) => (inr e, d)
  | (inl store, d) =>
      match selected_candidate selector store with
      | None => (inl None, d)
      | Some target =>
          let store := alter accept target store in
          match persist_store store d with
          | (None, d) => (inl (mc_body <$> store !! target), d)
          | (Some e, d) => (inr e, d)
          end
      end
  end.

(** ** What a client is given *)
Definition source_priority (s : CandidateSource) : N :=
  match s with SourceUser => 0 | SourceFeedback => 1 | SourceProject => 2 | SourceReference => 3 end.

Definition before_by_priority (a b : MemoryCandidate) : bool :=
  source_priority (mc_source a) <? source_priority (mc_source b).

Section injection.
Variable token_count : str -> N.

Definition total_tokens (cs : list MemoryCandidate) : N := sum_N (map (fun c => token_count (mc_body c)) cs).

(** [while total > token_budget { selected.pop() .. }] on the reversed list. *)
Fixpoint drop_lowest (token_budget total dropped : N) (reversed : list MemoryCandidate)
    : list MemoryCandidate * N :=
  match reversed with
  | [] => ([], dropped)
  | c :: r =>
      if token_budget <? total
      then drop_lowest token_budget (sat_sub total (token_count (mc_body c))) (dropped + 1) r
      else (reversed, dropped)
  end.

Definition select_accepted (store : Store) (token_budget : N) : list MemoryCandidate * N :=
  let selected := sort_by before_by_priority (List.filter is_accepted store) in
  let '(remaining, dropped) := drop_lowest token_budget (total_tokens selected) 0 (reverse selected) in
  (reverse remaining, dropped).

Definition inject_accepted (store : Store) (token_budget : N) : option str * option str :=
  let '(selected, dropped) := select_accepted store token_budget in
  match selected with
  | [] =>
      if 0 <? dropped
      then (None, Some (t!"[memory] notes exceed token budget (dropped " ++ fmt_N dropped
                        ++ t!" accepted candidate(s) above " ++ fmt_N token_budget ++ t!")"))
      else (None, None)
  | _ =>
      (Some (join [LF] (map mc_body selected)),
       if 0 <? dropped
       then Some (t!"[memory] dropped " ++ fmt_N dropped ++ t!" accepted candidate(s) over token budget ("
                  ++ fmt_N token_budget ++ t!")")
       else None)
  end.

(** [resolve_notes_for_injection], where there is a path to read from. *)
Definition resolve_notes_for_injection (token_budget : N) : ST NotesDisk (option str * option str) := fun d =>
  match load_or_migrate d with
  | (inl store, d) => (inject_accepted store token_budget, d)
  | (inr _, d) => ((None, None), d)
  end.
End injection.

(** ** Where the notes are: src/session_notes.rs

    The two variables as they are read, and whether the file at a path exists. *)
Definition NOTES_SUBPATH : str := t!"/vex/memory.md".

Definition resolve_notes_path_for_read (explicit_path xdg_config_home home : option str) (exists_ : str -> bool)
    : option str :=
  match explicit_path with
  | Some path => Some path
  | None =>
      let at_ root := let path := root ++ NOTES_SUBPATH in if exists_ path then Some path else None in
      match match xdg_config_home with
            | Some root => if is_empty (trim root) then None else at_ root
            | None => None
            end with
      | Some path => Some path
      | None => match home with
                | Some home => if is_empty home then None else at_ (home ++ t!"/.config")
                | None => None
                end
      end
  end.

Definition resolve_notes_path_for_write (explicit_path xdg_config_home home : option str) : option str :=
  match explicit_path with
  | Some path => Some path
  | None =>
      match xdg_config_home, home with
      | Some root, _ =>
          if is_empty (trim root) then
            match home with
            | Some home => if is_empty home then None else Some (home ++ t!"/.config" ++ NOTES_SUBPATH)
            | None => None
            end
          else Some (root ++ NOTES_SUBPATH)
      | None, Some home => if is_empty home then None else Some (home ++ t!"/.config" ++ NOTES_SUBPATH)
      | None, None => None
      end
  end.
