(* ===== verification/MemoryTheory.v ===== *)
(** What is kept of the notes: the markdown file and the candidates, the notes of an answer that
    nobody has accepted, and the budget of what a client is given. *)
From Stdlib Require Import NArith ZArith Lia.
From stdpp Require Import base list strings numbers sorting.
From S2P Require Import Prelude Text Collections Memory.
#[local] Open Scope N_scope.

(** ** Lines of the notes file *)
Definition auto_line (timestamp body : str) : str := t!"[" ++ timestamp ++ t!"] [auto] " ++ body.

Lemma digits_not_in (c : char) s : is_ascii_digit c = false -> forallb is_ascii_digit s = true -> c ∉ s.
Proof.
  intros Hc Hs Hin. rewrite forallb_forall in Hs. apply list_elem_of_In, Hs in Hin. congruence.
Qed.

Lemma auto_line_parts timestamp body :
  nonempty_digits timestamp = true ->
  is_auto_note_line (auto_line timestamp body) = true
  /\ strip_auto_note_body (auto_line timestamp body) = body
  /\ parse_auto_timestamp (auto_line timestamp body) = timestamp.
Proof.
  intros Hts. pose proof Hts as Hd. unfold nonempty_digits in Hd. apply andb_true_iff in Hd as [_ Hd].
  assert (93 ∉ timestamp) as Hin by by apply digits_not_in.
  assert (split_once t!"] " (timestamp ++ t!"] [auto] " ++ body) = Some (timestamp, t!"[auto] " ++ body)) as E1.
  { unfold split_once. change (t!"] [auto] " ++ body) with ((93 :: t!" ") ++ t!"[auto] " ++ body).
    change t!"] " with (93 :: t!" ").
    rewrite find_str_at by done. f_equal. f_equal; [by rewrite take_app_length|].
    rewrite <- drop_drop, drop_app_length. done. }
  assert (split_once t!"]" (timestamp ++ t!"] [auto] " ++ body) = Some (timestamp, t!" [auto] " ++ body)) as E2.
  { unfold split_once. change (t!"] [auto] " ++ body) with ((93 :: []) ++ t!" [auto] " ++ body).
    change t!"]" with ([93] : str). rewrite find_str_at by done. f_equal. f_equal; [by rewrite take_app_length|].
    rewrite <- drop_drop, drop_app_length. done. }
  unfold is_auto_note_line, strip_auto_note_body, parse_auto_timestamp, auto_line.
  change (trim_start (t!"[" ++ timestamp ++ t!"] [auto] " ++ body)) with (t!"[" ++ timestamp ++ t!"] [auto] " ++ body).
  rewrite !strip_prefix_app, E1, E2, Hts, starts_with_app, strip_prefix_app. done.
Qed.

(** What a candidate needs for its line to be read back. *)
Definition plain_candidate (c : MemoryCandidate) : Prop :=
  solid (mc_body c) /\ mc_body c <> [] /\ LF ∉ mc_body c
  /\ match mc_source c with
     | SourceFeedback => exists timestamp, nonempty_digits timestamp = true /\ source_reference c = t!"auto:" ++ timestamp
     | _ => is_auto_note_line (mc_body c) = false
     end.

(** What is read back of it: a note of an answer waits to be accepted again, and of the others
    the text only is kept. *)
Definition recovered (c : MemoryCandidate) : MemoryCandidate :=
  match mc_source c with
  | SourceFeedback =>
      mk_MemoryCandidate SourceFeedback (topic_from (mc_body c)) (mc_body c) CandidatePending (source_reference c)
  | _ => mk_MemoryCandidate SourceUser (topic_from (mc_body c)) (mc_body c) CandidateAccepted t!"memory.md"
  end.

Lemma plain_line c : plain_candidate c ->
  exists line, render_candidate c = line ++ [LF] /\ solid line /\ LF ∉ line /\ migrate_line line = Some (recovered c).
Proof.
  intros (Hs & Hne & Hlf & Hsrc).
  assert (is_auto_note_line (mc_body c) = false -> migrate_line (mc_body c)
          = Some (mk_MemoryCandidate SourceUser (topic_from (mc_body c)) (mc_body c) CandidateAccepted t!"memory.md")) as Huser.
  { intros Ha. unfold migrate_line. rewrite Hs, Ha. by destruct (mc_body c). }
  unfold render_candidate, recovered. destruct (mc_source c); [by exists (mc_body c); rewrite Huser| |by exists (mc_body c); rewrite Huser..].
  destruct Hsrc as (timestamp & Hts & ->). rewrite strip_prefix_app.
  exists (auto_line timestamp (mc_body c)). unfold auto_line. rewrite <- !app_assoc. split_and!; [done| | |].
  - change t!"[" with ([91] : str). cbn [app]. rewrite app_assoc. by apply solid_between.
  - pose proof Hts as Hd. unfold nonempty_digits in Hd. apply andb_true_iff in Hd as [_ Hd].
    rewrite !not_elem_of_app. split_and!; [| by apply digits_not_in | | done]; by apply (bool_decide_unpack _).
  - destruct (auto_line_parts timestamp (mc_body c) Hts) as (Ha & Hb & Ht).
    assert (solid (auto_line timestamp (mc_body c))) as Hsol.
    { unfold auto_line. change t!"[" with ([91] : str). cbn [app]. rewrite app_assoc. by apply solid_between. }
    change (t!"[" ++ timestamp ++ t!"] [auto] " ++ mc_body c) with (auto_line timestamp (mc_body c)).
    unfold migrate_line. rewrite Hsol, Ha. unfold feedback_candidate. by rewrite Hb, Ht.
Qed.

Lemma migrate_render cs : Forall plain_candidate cs -> migrate_markdown_lines (render_notes_markdown cs) = map recovered cs.
Proof.
  unfold migrate_markdown_lines, render_notes_markdown. induction 1 as [|c cs Hc Hcs IH]; [done|].
  destruct (plain_line c Hc) as (line & E & Hsol & Hlf & Hm). cbn [map concat]. rewrite E.
  rewrite <- app_assoc. cbn [app]. rewrite solid_line by done. cbn. by rewrite Hm, IH.
Qed.

(** The sidecar written and lost. *)
Lemma persisted d store d' : persist_store store d = (None, d') ->
  sidecar d' = StoredCandidates store /\ notes d' = NotesText (render_notes_markdown store)
  /\ directory_error d' = None /\ sidecar_error d' = None /\ notes_error d' = None.
Proof.
  unfold persist_store. destruct (directory_error d) eqn:E1, (sidecar_error d) eqn:E2, (notes_error d) eqn:E3; try done.
  intros [= <-]. cbn. by rewrite E1, E2, E3.
Qed.

(** The candidates survive the loss of the sidecar through the markdown file that shows them:
    for candidates of one line each, a store that was written and whose sidecar is then removed is
    read back with the same bodies in the same order; what a model wrote keeps its source and its
    timestamp but waits to be accepted again, and everything else comes back as an accepted note of
    the user.  The sidecar is written again, so that what is read the next time is the same. *)
Theorem notes_survive_markdown d store d' :
  Forall plain_candidate store -> persist_store store d = (None, d') ->
  exists d'', load_or_migrate (set_sidecar NoStore d') = (inl (map recovered store), d'')
    /\ load_or_migrate d'' = (inl (map recovered store), d'').
Proof.
  intros Hp (Hs & Hn & E1 & E2 & E3)%persisted. unfold load_or_migrate at 1. cbn [set_sidecar sidecar notes].
  rewrite Hn, migrate_render by done.
  destruct store as [|c store]; [exists (set_sidecar NoStore d'); cbn; by rewrite Hn|].
  cbn [map]. unfold persist_store. cbn. rewrite E1, E2, E3. eexists. split; [done|]. by unfold load_or_migrate.
Qed.

(** ** The notes of an answer *)
Section extraction.
Context `{Alphanumeric}.

Definition note_text (s : str) : Prop := solid s /\ s <> [] /\ LF ∉ s.

Lemma strip_bullet_subset c s b : strip_bullet_prefix s = Some b -> c ∈ b -> c ∈ s.
Proof.
  unfold strip_bullet_prefix. destruct (strip_prefix t!"- " s) eqn:E1; [intros [= <-]; by eapply strip_prefix_subset|].
  destruct (strip_prefix t!"* " s) eqn:E2; [intros [= <-]; by eapply strip_prefix_subset|].
  destruct s as [|d r]; [done|]. destruct (_ && _); [|done]. intros [= <-] Hc. right. by apply trim_start_subset.
Qed.

Lemma line_note_text line note : LF ∉ line -> line_note (trim line) = Some note -> note_text note.
Proof.
  intros Hlf. unfold line_note. destruct (_ || _); [|done].
  destruct (negb (is_empty _) && _) eqn:E; [|done]. apply andb_true_iff in E as [Hne _]. intros Hn.
  destruct (strip_bullet_prefix (trim line)) as [b|] eqn:Eb; injection Hn as <-.
  all: split_and!; [apply trim_solid | by intros E; rewrite E in Hne |].
  - intros Hin%trim_subset. by apply (strip_bullet_subset _ _ _ Eb), trim_subset in Hin.
  - by intros Hin%trim_subset.
Qed.

Lemma notes_of_lines_spec max_notes in_code notes ls :
  N.of_nat (length notes) < max_notes -> Forall note_text notes -> Forall (fun l => LF ∉ l) ls ->
  N.of_nat (length (notes_of_lines max_notes in_code notes ls)) <= max_notes
  /\ Forall note_text (notes_of_lines max_notes in_code notes ls).
Proof.
  intros Hlen Hnotes Hls. revert in_code notes Hlen Hnotes.
  induction Hls as [|l ls Hl Hls IH]; intros in_code notes Hlen Hnotes; cbn [notes_of_lines]; [split; [lia | done]|].
  destruct (starts_with _ _); [by apply IH|]. destruct (_ || _); [by apply IH|].
  set (added := match line_note (trim l) with Some note => [note] | None => [] end).
  assert (Forall note_text (notes ++ added) /\ (length (notes ++ added) <= S (length notes))%nat) as [Ha Hl'].
  { subst added. rewrite length_app. destruct (line_note (trim l)) as [note|] eqn:E; cbn; (split; [|lia]).
    - apply Forall_app. split; [done|]. constructor; [by eapply line_note_text | constructor].
    - by rewrite app_nil_r. }
  destruct (N.leb_spec max_notes (N.of_nat (length (notes ++ added)))); [split; [lia | done]|]. by apply IH.
Qed.

Lemma extracted_notes input response max_notes :
  N.of_nat (length (extract_notes_from_turn input response max_notes)) <= max_notes
  /\ Forall note_text (extract_notes_from_turn input response max_notes).
Proof.
  unfold extract_notes_from_turn. destruct (N.eqb_spec max_notes 0); [by split; [cbn; lia | constructor]|].
  apply notes_of_lines_spec; [cbn; lia | constructor |]. apply list.Forall_forall. intros l. apply lines_no_LF.
Qed.

Lemma fmt_N_nonempty_digits n : nonempty_digits (fmt_N n) = true.
Proof.
  unfold nonempty_digits. apply andb_true_iff. split.
  - unfold fmt_N. destruct (N.to_uint n) eqn:E; try done. exfalso.
    pose proof (DecimalN.Unsigned.of_to n) as Hn. rewrite E in Hn. cbn in Hn. subst n. discriminate E.
  - apply forallb_forall. intros c Hc%list_elem_of_In. by eapply fmt_N_digits.
Qed.

(** What is added for an answer is read back from the markdown file unchanged. *)
Lemma feedback_recovered note timestamp : note_text note ->
  plain_candidate (feedback_candidate (auto_line (fmt_N timestamp) note))
  /\ recovered (feedback_candidate (auto_line (fmt_N timestamp) note))
     = feedback_candidate (auto_line (fmt_N timestamp) note)
  /\ mc_body (feedback_candidate (auto_line (fmt_N timestamp) note)) = note.
Proof.
  intros (Hs & Hne & Hlf). destruct (auto_line_parts (fmt_N timestamp) note (fmt_N_nonempty_digits timestamp)) as (_ & Hb & Ht).
  unfold feedback_candidate. rewrite Hb, Ht. split_and!; [|done..]. split_and!; [done..|]. cbn.
  exists (fmt_N timestamp). split; [apply fmt_N_nonempty_digits | done].
Qed.

(** What is taken from an answer is at most the number of notes that is allowed, and after it
    has been added to plain candidates it survives the loss of the sidecar: what is read back from
    the markdown file ends with exactly the notes taken, each waiting to be accepted. *)
Theorem extracted_notes_kept input response max_notes timestamp d d' store d1 :
  load_or_migrate d = (inl store, d1) -> Forall plain_candidate store ->
  append_feedback_notes (format_auto_notes (extract_notes_from_turn input response max_notes) timestamp) d = (inl tt, d') ->
  let taken := map feedback_candidate (format_auto_notes (extract_notes_from_turn input response max_notes) timestamp) in
  N.of_nat (length taken) <= max_notes
  /\ map mc_body taken = extract_notes_from_turn input response max_notes
  /\ Forall (fun c => mc_status c = CandidatePending /\ mc_source c = SourceFeedback) taken
  /\ (load_or_migrate d').1 = inl (store ++ taken)
  /\ (load_or_migrate (set_sidecar NoStore d')).1 = inl (map recovered store ++ taken).
Proof.
  intros Hload Hplain Happ. cbn zeta. destruct (extracted_notes input response max_notes) as [Hmax Hnotes].
  set (ns := extract_notes_from_turn input response max_notes) in *. clearbody ns.
  unfold append_feedback_notes, change_store in Happ. rewrite Hload in Happ.
  destruct (persist_store _ d1) as [[e|] d2] eqn:Ep; [done|]. injection Happ as ->.
  apply persisted in Ep as (Hs & Hn & E1 & E2 & E3).
  set (taken := map feedback_candidate (format_auto_notes ns timestamp)) in *.
  assert (Forall plain_candidate taken /\ map recovered taken = taken /\ map mc_body taken = ns) as (Hp & Hr & Hb).
  { subst taken. unfold format_auto_notes. clear -Hnotes. induction Hnotes as [|n ns Hn Hns (IH1 & IH2 & IH3)]; [done|].
    destruct (feedback_recovered n timestamp Hn) as (H1 & H2 & H3). cbn [map].
    split_and!; [by constructor | by f_equal | by f_equal]. }
  split_and!.
  - subst taken. unfold format_auto_notes. by rewrite !length_map.
  - done.
  - apply list.Forall_forall. intros c (l & -> & _)%list_elem_of_fmap. done.
  - unfold load_or_migrate. by rewrite Hs.
  - unfold load_or_migrate. cbn [set_sidecar sidecar notes]. rewrite Hn, migrate_render by by apply Forall_app.
    rewrite map_app, Hr. destruct (map recovered store ++ taken) eqn:E; [done|].
    unfold persist_store. cbn. by rewrite E1, E2, E3.
Qed.
End extraction.

(** ** What a client is given *)
Section injection.
Variable token_count : str -> N.

(** Candidates that are not accepted are not looked at. *)
Lemma inject_pending store pending budget :
  Forall (fun c => mc_status c = CandidatePending) pending ->
  inject_accepted token_count (store ++ pending) budget = inject_accepted token_count store budget.
Proof.
  intros Hp. unfold inject_accepted, select_accepted. rewrite List.filter_app.
  replace (List.filter is_accepted pending) with (@nil MemoryCandidate); [by rewrite app_nil_r|].
  induction Hp as [|c r Hc Hr IH]; [done|]. cbn. unfold is_accepted at 1. by rewrite Hc.
Qed.

Lemma change_store_ok {A} (change : Store -> A * Store) d d' r :
  change_store change d = (inl r, d') ->
  exists store d1, load_or_migrate d = (inl store, d1) /\ r = (change store).1
    /\ sidecar d' = StoredCandidates (change store).2.
Proof.
  unfold change_store. destruct (load_or_migrate d) as [[store|e] d1] eqn:E1; [|done].
  destruct (change store) as [x store'] eqn:E2.
  destruct (persist_store store' d1) as [[e|] d2] eqn:E3; [done|]. intros [= -> ->].
  exists store, d1. rewrite E2. split_and!; [done..|]. by apply persisted in E3 as [-> _].
Qed.

(** C23: What a model wrote is not given to a client unless somebody accepts it: after any number of
    the notes found in answers have been added to the file, the next session is given what it would
    have been given without them, whatever the budget. *)
Theorem unreviewed_never_injected formatted d d' budget :
  append_feedback_notes formatted d = (inl tt, d') ->
  (resolve_notes_for_injection token_count budget d').1 = (resolve_notes_for_injection token_count budget d).1
  /\ (sidecar d' = StoredCandidates (unwrap_or (match (load_or_migrate d).1 with inl s => Some s | inr _ => None end) []
                                     ++ map feedback_candidate formatted)).
Proof.
  intros H. apply change_store_ok in H as (store & d1 & E & _ & Hs). cbn in Hs. rewrite Hs, E. split; [|done].
  unfold resolve_notes_for_injection. rewrite E. unfold load_or_migrate. rewrite Hs. cbn.
  apply inject_pending. apply list.Forall_forall. intros c (line & -> & _)%list_elem_of_fmap. done.
Qed.

Lemma total_tokens_app a b : total_tokens token_count (a ++ b) = total_tokens token_count a + total_tokens token_count b.
Proof. unfold total_tokens. induction a as [|c a IH]; cbn; [done|]. unfold sum_N in *. cbn. lia. Qed.

Lemma drop_lowest_spec budget reversed dropped :
  exists gone kept, reversed = gone ++ kept
    /\ drop_lowest token_count budget (total_tokens token_count reversed) dropped reversed
       = (kept, dropped + N.of_nat (length gone))
    /\ total_tokens token_count kept <= budget
    /\ forall g c, gone = g ++ [c] -> budget < total_tokens token_count (c :: kept).
Proof.
  revert dropped. induction reversed as [|c r IH]; intros dropped.
  { exists [], []. cbn. split_and!; [done | by rewrite N.add_0_r | lia | by intros [] ?]. }
  cbn [drop_lowest]. destruct (N.ltb_spec budget (total_tokens token_count (c :: r))) as [Hb|Hb].
  - destruct (IH (dropped + 1)) as (gone & kept & -> & E & Hk & Hlast). exists (c :: gone), kept.
    replace (sat_sub (total_tokens token_count (c :: gone ++ kept)) (token_count (mc_body c)))
      with (total_tokens token_count (gone ++ kept)) by (unfold sat_sub, total_tokens, sum_N; cbn; lia).
    rewrite E. split_and!; [done | f_equal; cbn [length]; lia | done|]. intros g d Hg.
    destruct (decide (gone = [])) as [->|Hne].
    + destruct g as [|? [|]]; [|done..]. injection Hg as <-. done.
    + destruct g as [|? g]; [by injection Hg as _ ->|]. injection Hg as _ Hg. by apply (Hlast g).
  - exists [], (c :: r). split_and!; [done | f_equal; cbn; lia | done | by intros [] ?].
Qed.

(** The accepted candidates, those of the user first. *)
Definition by_priority (store : Store) : list MemoryCandidate := sort_by before_by_priority (List.filter is_accepted store).

Lemma by_priority_sorted store :
  by_priority store ≡ₚ List.filter is_accepted store
  /\ StronglySorted (fun a b => source_priority (mc_source a) <= source_priority (mc_source b)) (by_priority store).
Proof.
  split; [apply sort_by_permutes|].
  assert (StronglySorted (fun a b => before_by_priority b a = false) (by_priority store)) as Hs.
  { apply sort_by_sorted; unfold before_by_priority; intros *; rewrite ?N.ltb_lt, ?N.ltb_ge; lia. }
  clear -Hs. induction Hs as [|c r Hr IH Hc]; constructor; [done|]. eapply Forall_impl; [exact Hc|].
  intros d. unfold before_by_priority. by rewrite N.ltb_ge.
Qed.

(** A client is given the longest list of accepted candidates that fits the budget, taken in
    the order of their source: they are a prefix of all that are accepted, ordered by source; their
    tokens are within the budget; one more would not have fitted; and the warning counts those that
    are left out. *)
Theorem injection_within_budget store budget :
  exists selected gone, by_priority store = selected ++ gone
    /\ by_priority store ≡ₚ List.filter is_accepted store
    /\ StronglySorted (fun a b => source_priority (mc_source a) <= source_priority (mc_source b)) (by_priority store)
    /\ total_tokens token_count selected <= budget
    /\ match gone with [] => True | c :: _ => budget < total_tokens token_count (selected ++ [c]) end
    /\ select_accepted token_count store budget = (selected, N.of_nat (length gone))
    /\ (inject_accepted token_count store budget).1
       = (if decide (selected = []) then None else Some (join [LF] (map mc_body selected))).
Proof.
  destruct (drop_lowest_spec budget (reverse (by_priority store)) 0) as (gone & kept & Er & E & Hk & Hlast).
  exists (reverse kept), (reverse gone).
  assert (forall l, total_tokens token_count (reverse l) = total_tokens token_count l) as Hrev.
  { intros l. induction l as [|c l IH]; [done|]. rewrite reverse_cons, total_tokens_app, IH.
    unfold total_tokens, sum_N. cbn. lia. }
  assert (by_priority store = reverse kept ++ reverse gone) as Es.
  { by rewrite <- reverse_app, <- Er, reverse_involutive. }
  assert (select_accepted token_count store budget = (reverse kept, N.of_nat (length (reverse gone)))) as Hsel.
  { unfold select_accepted. fold (by_priority store). rewrite <- (Hrev (by_priority store)), E.
    by rewrite length_reverse, N.add_0_l. }
  destruct (by_priority_sorted store) as [Hp Hs]. split_and!; [done..| by rewrite Hrev | | done |].
  - destruct (reverse gone) as [|c g] eqn:Eg; [done|]. apply (f_equal reverse) in Eg.
    rewrite reverse_involutive, reverse_cons in Eg. apply Hlast in Eg.
    rewrite total_tokens_app, Hrev. unfold total_tokens, sum_N in *. cbn in *. lia.
  - unfold inject_accepted. rewrite Hsel. destruct (reverse kept) as [|c r]; [|done]. by destruct (0 <? _).
Qed.
End injection.

(** ** Accepting a candidate *)
Lemma pending_indices_from_spec i n store :
  n ∈ pending_indices_from i store ->
  (i <= n)%nat /\ exists c, store !! (n - i)%nat = Some c /\ mc_status c = CandidatePending.
Proof.
  revert i. induction store as [|c store IH]; intros i; cbn [pending_indices_from]; [by intros ?%elem_of_nil|].
  rewrite elem_of_app. intros [Hin|(Hle & d & Hd & Hp)%IH].
  - unfold is_pending in Hin. destruct (bool_decide _) eqn:E; [|by apply elem_of_nil in Hin].
    apply list_elem_of_singleton in Hin as ->. apply bool_decide_eq_true in E.
    split; [lia|]. exists c. by rewrite Nat.sub_diag.
  - split; [lia|]. exists d. split; [|done]. replace (n - i)%nat with (S (n - S i)) by lia. done.
Qed.

Lemma selected_pending selector store target :
  selected_candidate selector store = Some target ->
  exists c, store !! target = Some c /\ mc_status c = CandidatePending.
Proof.
  intros H. assert (target ∈ pending_indices store) as Hin.
  { unfold selected_candidate in H. destruct (parse_uint usize_max selector).
    - destruct (_ || _); [done|]. by eapply list_elem_of_lookup_2.
    - apply List.find_some in H as [H _]. by apply list_elem_of_In. }
  apply pending_indices_from_spec in Hin as (_ & c & Hc & Hp). rewrite Nat.sub_0_r in Hc. by exists c.
Qed.

(** Accepting changes the status of one candidate, one that was waiting, and nothing else: the
    other candidates stay as they are, in their place, and the text that is reported is that of the
    candidate.  A selection that names none leaves the files alone. *)
Theorem accepted_one selector d result d' store d1 :
  load_or_migrate d = (inl store, d1) -> accept_pending selector d = (inl result, d') ->
  match result with
  | None => d' = d1 /\ selected_candidate selector store = None
  | Some body =>
      exists a c z, store = a ++ c :: z /\ mc_status c = CandidatePending /\ mc_body c = body
        /\ sidecar d' = StoredCandidates (a ++ accept c :: z)
        /\ selected_candidate selector store = Some (length a)
  end.
Proof.
  intros Hload. unfold accept_pending. rewrite Hload.
  destruct (selected_candidate selector store) as [target|] eqn:Es; [|by intros [= <- <-]].
  destruct (selected_pending _ _ _ Es) as (c & Hc & Hp).
  destruct (persist_store _ d1) as [[e|] d2] eqn:Ew; [done|]. intros [= <- <-].
  rewrite list_lookup_alter_eq, Hc. cbn. apply persisted in Ew as [Hs _].
  apply list_elem_of_split_length in Hc as (a & z & -> & ->). exists a, c, z.
  rewrite Hs, alter_app_r_alt by done. by rewrite Nat.sub_diag.
Qed.

Section witnesses.
#[local] Instance ascii_alphanumeric : Alphanumeric := fun c =>
  is_ascii_digit c || ((65 <=? c) && (c <=? 90)) || ((97 <=? c) && (c <=? 122)).

Definition empty_disk : NotesDisk := mk_NotesDisk NoStore NoNotes None None None.
Definition shown_disk : NotesDisk :=
  mk_NotesDisk NoStore (NotesText (t!"uses tabs" ++ [LF] ++ t!"[17] [auto] runs on CI" ++ [LF])) None None None.

Example extraction_example :
  extract_notes_from_turn [] (t!"- the port is 8080" ++ [LF] ++ t!"```" ++ [LF] ++ t!"- code" ++ [LF] ++ t!"```" ++ [LF]
                              ++ t!"owner: ops" ++ [LF] ++ t!"plain" ++ [LF] ++ t!"- `x`") 5
  = [t!"the port is 8080"; t!"owner: ops"].
Proof. vm_compute. reflexivity. Qed.

Lemma notes_survive_markdown_witness :
  exists store d' d'', persist_store store empty_disk = (None, d')
    /\ load_or_migrate (set_sidecar NoStore d') = (inl (map recovered store), d'') /\ length store = 2%nat.
Proof.
  set (store := migrate_markdown_lines (t!"uses tabs" ++ [LF] ++ t!"[17] [auto] runs on CI" ++ [LF])).
  destruct (persist_store store empty_disk) as [e d'] eqn:E.
  assert (e = None) as -> by (vm_compute in E; injection E as <- _; reflexivity).
  destruct (notes_survive_markdown empty_disk store d') as (d'' & H & _); [|exact E|].
  - repeat constructor; try done; try (by apply (bool_decide_unpack _)). exists t!"17". done.
  - exists store, d', d''. split_and!; [exact E | exact H | reflexivity].
Defined.

Lemma unreviewed_never_injected_witness :
  exists d', append_feedback_notes [auto_line t!"18" t!"trust me"] shown_disk = (inl tt, d')
    /\ (resolve_notes_for_injection blen 100 d').1 = (Some t!"uses tabs", None).
Proof.
  destruct (append_feedback_notes [auto_line t!"18" t!"trust me"] shown_disk) as [r d'] eqn:E. exists d'.
  assert (r = inl tt) as -> by (vm_compute in E; injection E as <- _; reflexivity).
  split; [done|]. rewrite (proj1 (unreviewed_never_injected blen _ _ _ 100 E)). vm_compute. reflexivity.
Defined.

Lemma extracted_notes_kept_witness :
  exists d' , append_feedback_notes (format_auto_notes (extract_notes_from_turn [] t!"- listens on 80" 3) 7) shown_disk = (inl tt, d')
    /\ exists store, (load_or_migrate (set_sidecar NoStore d')).1 = inl store /\ length store = 3%nat.
Proof.
  destruct (append_feedback_notes (format_auto_notes (extract_notes_from_turn [] t!"- listens on 80" 3) 7) shown_disk) as [r d'] eqn:E.
  exists d'. assert (r = inl tt) as -> by (vm_compute in E; injection E as <- _; reflexivity). split; [done|].
  destruct (load_or_migrate shown_disk) as [[store|e] d1] eqn:El; [|vm_compute in El; discriminate El].
  assert (Forall plain_candidate store /\ length store = 2%nat) as [Hp Hl].
  { vm_compute in El. injection El as <- _. split; [|done].
    repeat constructor; try done; try (by apply (bool_decide_unpack _)). by exists t!"17". }
  pose proof (extracted_notes_kept [] t!"- listens on 80" 3 7 shown_disk d' store d1 El Hp E) as (_ & _ & _ & _ & H).
  eexists. split; [exact H|]. rewrite length_app, !length_map, Hl. vm_compute. reflexivity.
Defined.

Lemma accepted_one_witness :
  exists body d', accept_pending t!"1" shown_disk = (inl (Some body), d') /\ body = t!"runs on CI"
    /\ exists store, sidecar d' = StoredCandidates store /\ Forall (fun c => mc_status c = CandidateAccepted) store.
Proof.
  destruct (accept_pending t!"1" shown_disk) as [r d'] eqn:E.
  destruct (load_or_migrate shown_disk) as [[store|e] d1] eqn:El; [|vm_compute in El; discriminate El].
  assert (r = inl (Some t!"runs on CI")) as -> by (vm_compute in E; injection E as <- _; reflexivity).
  exists t!"runs on CI", d'. split_and!; [done..|].
  destruct (accepted_one t!"1" shown_disk _ d' store d1 El E) as (a & c & z & Es & _ & _ & Hd & Hi).
  eexists. split; [exact Hd|]. vm_compute in El. injection El as <- _. vm_compute in Hi. injection Hi as Hi.
  destruct a as [|x [|]]; try discriminate Hi. injection Es as <- <- <-. by repeat constructor.
Defined.
End witnesses.
