(* ===== verification/Transcript.v ===== *)
(** What a task looks like on the screen: the rows of its document, and the rows of the screen they
    take: src/app/transcript_projection.rs, src/app/transcript_row.rs, src/status_contract.rs and
    the wrapping of src/ui/render/transcript.rs.

    The wrapping of words and the decoding of escape sequences are libraries', and operations of
    classes. *)
From Stdlib Require Import NArith ZArith Lia.
From stdpp Require Import base list gmap strings numbers sets.
From S2P Require Import Prelude Text ByteIndex InputMetrics Collections Json Usage Evidence PeerChannel Envelope ToolPreview TaskDocument.
#[local] Open Scope N_scope.

(** [textwrap::wrap] without hyphenation and without breaking words. *)
Class TextWrap := wrap_words : N -> str -> list str.
(** The lines and the texts of their spans that ansi-to-tui reads; [None] for an error. *)
Class AnsiText := into_text : str -> option (list (list str)).

(** ** Rows: src/app/transcript_row.rs *)
Inductive TranscriptRow : Type :=
| RowUserInput (text : str)
| RowAssistantText (text : str) (streaming : bool)
| RowToolHeader (text : str)
| RowToolDetail (text : str)
| RowEvidence (text : str)
| RowError (text : str)
| RowWaitingPlaceholder (text : str)
| RowPlain (text : str).

Definition as_display_str (r : TranscriptRow) : str :=
  match r with
  | RowAssistantText text _ => text
  | RowUserInput s | RowToolHeader s | RowToolDetail s | RowEvidence s | RowError s
  | RowWaitingPlaceholder s | RowPlain s => s
  end.

Definition clone_with_text (r : TranscriptRow) (text : str) : TranscriptRow :=
  match r with
  | RowUserInput _ => RowUserInput text
  | RowAssistantText _ streaming => RowAssistantText text streaming
  | RowToolHeader _ => RowToolHeader text
  | RowToolDetail _ => RowToolDetail text
  | RowEvidence _ => RowEvidence text
  | RowError _ => RowError text
  | RowWaitingPlaceholder _ => RowWaitingPlaceholder text
  | RowPlain _ => RowPlain text
  end.

Definition to_history_string (r : TranscriptRow) : str :=
  match r with
  | RowUserInput s => t!"> " ++ s
  | RowAssistantText text _ => text
  | RowToolHeader s => t!"[tool] " ++ s
  | RowToolDetail s => t!"[detail] " ++ s
  | RowEvidence s => t!"[evidence] " ++ s
  | RowError s => t!"[error] " ++ s
  | RowWaitingPlaceholder s | RowPlain s => s
  end.

(** ** Statuses: src/status_contract.rs *)
Definition pending_status_label : str := t!"Mapping adjacent sectors...".
Definition completed_status_label : str := t!"Response complete.".
Definition WAITING_FOR_RESPONSE_LINE : str := t!"[thinking] Mapping adjacent sectors...".

(** ** The row of a tool call *)
Definition first_nonempty_line (text : str) : option str :=
  List.find (fun line => negb (is_empty (trim line))) (map trim_end (lines text)).

Definition preview_rows (preview : str) : list str :=
  List.filter (fun line => negb (is_empty (trim line))) (map trim_end (lines preview)).

Definition input_rows (rows : list str) : list TranscriptRow :=
  match rows with
  | [] => []
  | first :: r => RowToolDetail (t!"Input: " ++ first) :: map RowEvidence r
  end.

(** The middle dot and the ellipsis are not ASCII. *)
Definition DOT : str := [SPACE; 183; SPACE].
Definition ELLIPSIS : char := 8230.

Definition tool_header_summary (name : str) (target : option str) (status : str) : str :=
  match target with
  | Some target => if is_empty target then name ++ DOT ++ status else name ++ DOT ++ target ++ DOT ++ status
  | None => name ++ DOT ++ status
  end.

(** A line cut after at most 60 bytes, at a blank if there is one in its second half. *)
Definition cut_summary (text : str) : str :=
  let head := (floor_split 60 text).1 in
  let head := match rfind_char SPACE head with
              | Some i => if 30 <? blen (take i head) then take i head else head
              | None => head
              end in
  head ++ [ELLIPSIS].
Definition compact_outcome_summary (line : str) : str :=
  let trimmed := trim line in
  if blen trimmed <=? 60 then trimmed else cut_summary trimmed.

(** [rsplit_once('.')] with both parts not empty. *)
Definition has_extension (candidate : str) : bool :=
  match rfind_char 46 candidate with
  | Some i => negb (is_empty (take i candidate)) && negb (is_empty (drop (S i) candidate))
  | None => false
  end.

(** [str::split_whitespace]. *)
Fixpoint words_from (word s : str) : list str :=
  match s with
  | [] => if is_empty word then [] else [reverse word]
  | c :: r =>
      if is_whitespace c then (if is_empty word then [] else [reverse word]) ++ words_from [] r
      else words_from (c :: word) r
  end.
Definition split_whitespace (s : str) : list str := words_from [] s.

Definition is_quoting (c : char) : bool := contains_char c (DQUOTE :: t!"'`()[]{},;:").
Definition trim_quoting (s : str) : str :=
  reverse (drop_while is_quoting (reverse (drop_while is_quoting s))).

Definition pathish_token (token : str) : option str :=
  let candidate := trim_quoting token in
  if is_empty candidate then None
  else if contains_char 47 candidate || contains_char 92 candidate || has_extension candidate
       then Some candidate else None.
Definition first_pathish_token (text : str) : option str := find_map pathish_token (split_whitespace text).

(** The bytes of the lowered text are those of the text, so its offsets are offsets of both. *)
Definition tool_target_summary (line : str) : option str :=
  let trimmed := trim line in
  if is_empty trimmed then None
  else
    let lowered := to_ascii_lowercase trimmed in
    find_map (fun marker =>
        match find_str marker lowered with
        | Some index => first_pathish_token (drop (index + length marker) trimmed)
        | None => None
        end) [t!" from "; t!" to "; t!" in "; t!" at "; t!" into "; t!" on "].

Definition pending_label (status : ToolStatus) : str :=
  match status with WaitingApproval => t!"awaiting approval" | _ => pending_status_label end.

Section projection.
Context {js : SerdeJson} {pretty : PrettyJson} {diff : LineDiff}.

Definition structured_preview (name : str) (input : value) : str :=
  preview_tool_input name input Structured DEFAULT_EDIT_DIFF_CONTEXT_LINES.

Definition pending_tool_paragraph_rows (name input_preview : str) (status : ToolStatus) : list TranscriptRow :=
  RowToolHeader (tool_header_summary name (tool_target_summary input_preview) (pending_label status))
  :: input_rows (preview_rows input_preview).

Definition MAX_EVIDENCE_LINES : nat := 3.
Definition evidence_lines (output : str) : list str :=
  List.filter (fun line => let t := trim line in negb (is_empty t) && negb (forallb is_ascii_digit t))
    (map (fun line => replace [9] t!" " (trim_end line)) (lines output)).

Definition completed_label (is_error : bool) : str := if is_error then t!"failed" else completed_status_label.

Definition completed_header (name : str) (input : value) (output : str) (is_error : bool) : str :=
  let first_line := unwrap_or (first_nonempty_line output) (completed_label is_error) in
  let target := match tool_target_summary first_line with
                | Some t => Some t
                | None => tool_target_summary (structured_preview name input)
                end in
  tool_header_summary name target (completed_label is_error).

Definition completed_tool_paragraph_rows (name : str) (input : value) (output : str) (is_error : bool)
    : list TranscriptRow :=
  let first_line := unwrap_or (first_nonempty_line output) (completed_label is_error) in
  let inputs := preview_rows (structured_preview name input) in
  let nonempty := evidence_lines output in
  [RowToolHeader (completed_header name input output is_error)]
  ++ match inputs with
     | [] => []
     | first :: _ => if str_eqb first t!"(no arguments)" then [] else input_rows inputs
     end
  ++ [RowToolDetail (t!"Result: " ++ compact_outcome_summary first_line)]
  ++ map RowEvidence (take MAX_EVIDENCE_LINES nonempty)
  ++ (if (MAX_EVIDENCE_LINES <? length nonempty)%nat
      then [RowEvidence (t!"+" ++ fmt_N (N.of_nat (length nonempty - MAX_EVIDENCE_LINES)) ++ t!" more lines")]
      else []).

(** ** The rows of a turn *)
(** The last result of a call: the map is filled in the order of the entries. *)
Definition tool_result (entries : list PulseEntry) (call_id : str) : option (str * bool) :=
  find_map (fun e => match e with
                     | EToolResult _ id _ output is_error => if str_eqb id call_id then Some (output, is_error) else None
                     | _ => None
                     end) (reverse entries).

Record RowsState := mk_RowsState {
  rows : list TranscriptRow;
  last_tool_header : option str;
  repeat_count : N;
}.

Definition plain_rows (more : list TranscriptRow) (st : RowsState) : RowsState :=
  mk_RowsState (rows st ++ more) None 0.

Definition is_fold_line (r : TranscriptRow) : bool :=
  match r with RowToolDetail s => starts_with t!"(repeated" s | _ => false end.

(** The multiplication sign is not ASCII. *)
Definition fold_line (repeat_count : N) : TranscriptRow :=
  RowToolDetail (t!"(repeated " ++ [215] ++ fmt_N (repeat_count + 1) ++ t!", same call)").

(** A call whose header is the one before is counted, on one row. *)
Definition push_call (header : str) (paragraph : list TranscriptRow) (st : RowsState) : RowsState :=
  if bool_decide (last_tool_header st = Some header) then
    let count := repeat_count st + 1 in
    let replaced := match list.last (rows st) with
                    | Some r => if is_fold_line r then removelast (rows st) else rows st
                    | None => rows st
                    end in
    mk_RowsState (replaced ++ [fold_line count]) (last_tool_header st) count
  else mk_RowsState (rows st ++ paragraph) (Some header) 0.

Definition block_rows (b : AssistantBlockEntry) : list TranscriptRow :=
  let texts := map (fun line => RowAssistantText line false) (lines (content b)) in
  if streaming b && negb (is_empty (content b)) && negb (ends_with [LF] (content b)) then
    match list.last texts with
    | Some (RowAssistantText text _) => removelast texts ++ [RowAssistantText (text ++ t!"|") true]
    | _ => texts
    end
  else texts.

Definition phase_is_thinking (b : AssistantBlockEntry) : bool :=
  match phase b with PhaseThinking => true | PhaseFinal => false end.

Definition entry_rows (entries : list PulseEntry) (st : RowsState) (e : PulseEntry) : RowsState :=
  match e with
  | EUserInput _ text => plain_rows (if is_empty (trim text) then [] else [RowUserInput text]) st
  | EAssistantBlock _ b =>
      if phase_is_thinking b && collapsed b then st
      else if is_empty (trim (content b))
           then mk_RowsState (rows st ++ block_rows b) (last_tool_header st) (repeat_count st)
           else plain_rows (block_rows b) st
  | EToolCall _ call_id name input status =>
      match tool_result entries call_id with
      | Some (output, is_error) =>
          push_call (completed_header name input output is_error)
            (completed_tool_paragraph_rows name input output is_error) st
      | None =>
          let preview := structured_preview name input in
          push_call (tool_header_summary name (tool_target_summary preview) pending_status_label)
            (pending_tool_paragraph_rows name preview status) st
      end
  | ESystemNotice _ message SevereError => plain_rows [RowError message] st
  | ESystemNotice _ message _ => plain_rows [RowPlain message] st
  | EToolResult _ _ _ _ _ | EApprovalRequest _ _ | EApprovalResolved _ _ _ _ | ECommandSession _ _ => st
  end.

Definition append_turn_rows (before : list TranscriptRow) (entries : list PulseEntry) : list TranscriptRow :=
  rows (foldl (entry_rows entries) (mk_RowsState before None 0) entries).

Definition is_streamed (e : PulseEntry) : bool :=
  match e with EAssistantBlock _ _ | EToolCall _ _ _ _ _ | EToolResult _ _ _ _ _ => true | _ => false end.

Definition append_active_turn_rows (before : list TranscriptRow) (a : ActiveTurnDocument) : list TranscriptRow :=
  append_turn_rows before (at_entries a)
  ++ (if existsb is_streamed (at_entries a) then []
      else [RowWaitingPlaceholder (WAITING_FOR_RESPONSE_LINE
              ++ match prompt_progress a with
                 | Some p => match pp_processed p, pp_total p with
                             | Some processed, Some total => t!" progress:" ++ fmt_N processed ++ t!"/" ++ fmt_N total
                             | _, _ => []
                             end
                 | None => []
                 end)]).

Definition compaction_row (r : ContextCompactionRecord) : TranscriptRow :=
  RowPlain (t!"[context compacted: " ++ cc_summary r ++ t!"]").

(** The records up to a turn, and those after it. *)
Fixpoint due (turn_idx : N) (records : list ContextCompactionRecord)
    : list ContextCompactionRecord * list ContextCompactionRecord :=
  match records with
  | [] => ([], [])
  | r :: rs =>
      if cc_turn_index r <=? turn_idx then let '(now, later) := due turn_idx rs in (r :: now, later)
      else ([], records)
  end.

(** The rows of the records up to a turn are put before it. *)
Fixpoint committed_rows (before : list TranscriptRow) (records : list ContextCompactionRecord) (turn_idx : N)
    (turns : list TurnDocument) : list TranscriptRow :=
  match turns with
  | [] => before ++ map compaction_row records
  | t :: r =>
      let '(now, later) := due turn_idx records in
      committed_rows (append_turn_rows (before ++ map compaction_row now) (td_entries t)) later (turn_idx + 1) r
  end.

Definition project_committed_transcript_rows (d : TaskDocument) (pre_session_notices : list str) : list TranscriptRow :=
  committed_rows (map RowPlain pre_session_notices) (context_compaction d) 0 (completed_turns d).

Definition project_active_transcript_rows (a : option ActiveTurnDocument) : list TranscriptRow :=
  match a with Some a => append_active_turn_rows [] a | None => [] end.

Definition project_transcript_rows (d : TaskDocument) (pre_session_notices : list str) : list TranscriptRow :=
  project_committed_transcript_rows d pre_session_notices ++ project_active_transcript_rows (active_pulse d).

Definition extract_assistant_response (entries : list PulseEntry) : str :=
  join [LF] (omap (fun e => match e with
                            | EAssistantBlock _ b => if phase_is_thinking b then None else Some (content b)
                            | _ => None
                            end) entries).
End projection.

(** ** The rows of the screen: src/ui/render/transcript.rs *)
Definition ESC : char := 27.
Definition contains_ansi_escape (text : str) : bool := contains_char ESC text.

Definition ERROR_MARKER : str := t!"  x ".
Definition TOOL_MARKER : str := t!"  * ".
Definition EVIDENCE_MARKER : str := t!"      - ".

(** What the last carriage return of each line leaves. *)
Definition after_cr (segment : str) : str := List.last (split_on CR segment) segment.
Definition strip_overstrike (text : str) : str :=
  if contains_char CR text then join [LF] (map after_cr (split_on LF text)) else text.

Definition digits_prefix (s : str) : nat := length s - length (drop_while is_ascii_digit s).

Definition parse_command_session_started (line : str) : option (str * option str) :=
  rest ← strip_prefix t!"[command session started" line;
  '(prefix, command) ← split_once t!"] " rest;
  Some (command, match strip_prefix t!" pid=" prefix with
                 | Some pid => let pid := trim pid in if is_empty pid then None else Some pid
                 | None => None
                 end).

(** The offset is in bytes, and digits are one byte each. *)
Definition parse_numbered_list_item (line : str) : option (str * str) :=
  let index := digits_prefix line in
  if (index =? 0)%nat || (blen line - 1 <=? N.of_nat index) then None
  else match drop index line with
       | d :: SP :: rest => if ((d =? 46) || (d =? 41)) && (SP =? SPACE) then Some (take (index + 2) line, rest) else None
       | _ => None
       end.

(** [*ch as u8] keeps the low byte of a character. *)
Definition is_horizontal_rule (line : str) : bool :=
  let trimmed := trim line in
  match trimmed with
  | [] => false
  | first :: _ =>
      if (blen trimmed <? 3) || negb (contains_char first t!"-*_") then false
      else
        let marks := N.of_nat (length (List.filter (fun ch => ch mod 256 =? first) trimmed)) in
        let spaces := N.of_nat (length (List.filter (N.eqb SPACE) trimmed)) in
        (3 <=? marks) && (marks + spaces =? blen trimmed)
  end.

Definition is_inline_telemetry_summary (line : str) : bool :=
  starts_with t!"[" line && ends_with t!"]" line && contains t!"total:" line.
Definition is_telemetry_summary (line : str) : bool :=
  let trimmed := trim line in
  starts_with t!"[" trimmed && ends_with t!"]" trimmed && (contains t!"total:" trimmed || contains t!"ttft:" trimmed).

Definition is_structural_plain_str (line : str) : bool :=
  existsb (fun p => starts_with p line) [t!"["; t!"    "; t!"  "; t!"```"]
  || (starts_with t!"--- " line && ends_with t!" ---" line)
  || is_horizontal_rule line || starts_with t!"> " line
  || is_telemetry_summary line || is_inline_telemetry_summary line
  || existsb (fun p => starts_with p line) [t!"# "; t!"## "; t!"### "; t!"- "; t!"* "]
  || opt_is_some (parse_numbered_list_item line).

Definition is_structural_transcript_row (r : TranscriptRow) : bool :=
  match r with
  | RowWaitingPlaceholder _ => true
  | RowPlain s => is_structural_plain_str s
  | _ => false
  end.

(** The lines of the files that were put into a message are not shown: one line stands for each.
    The line after the line of a file is consumed, whatever it is. *)
Definition EM_DASH : char := 8212.
Definition block_name (kind line : str) : option str :=
  rest ← strip_prefix kind line;
  match reverse rest with 93 :: r => Some (reverse r) | _ => None end.
Fixpoint collapse_lines (in_code_fence : bool) (ls : list str) : list str :=
  match ls with
  | [] => []
  | line :: r =>
      if in_code_fence then collapse_lines (negb (str_eqb line t!"```")) r
      else if (starts_with t!"[file: " line || starts_with t!"[dir: " line)
              && contains_char EM_DASH line && ends_with t!"]" line
      then collapse_lines false r
      else
        let shown := match block_name t!"[file: " line with
                     | Some rest => Some (t!"@" ++ rest)
                     | None => match block_name t!"[dir: " line with
                               | Some rest => Some (t!"@" ++ rest ++ t!"/")
                               | None => None
                               end
                     end in
        match shown with
        | Some shown => shown :: match r with
                                 | next :: r => collapse_lines (str_eqb next t!"```text") r
                                 | [] => []
                                 end
        | None => line :: collapse_lines false r
        end
  end.
Definition collapse_file_blocks_for_display (text : str) : str :=
  if contains t!"[file: " text || contains t!"[dir: " text then join [LF] (collapse_lines false (lines text)) else text.

Section wrapping.
Context {cw : CharWidth} {seg : Segmentation} {wrap : TextWrap} {ansi : AnsiText}.

Definition visible_display_width (text : str) : N :=
  if contains_ansi_escape text then
    let cleaned := strip_overstrike text in
    match into_text cleaned with
    | Some ls => foldr N.max 0 (map (fun spans => sum_N (map display_width spans)) ls)
    | None => display_width cleaned
    end
  else display_width text.

(** The characters that fit, and whether some did not. *)
Fixpoint fitting_chars (width used : N) (s : str) : str * bool :=
  match s with
  | [] => ([], false)
  | c :: r =>
      if width <? used + char_display_width c then ([], true)
      else let '(out, clipped) := fitting_chars width (used + char_display_width c) r in (c :: out, clipped)
  end.
Definition truncate_line (input : str) (width : N) : str :=
  let width := N.max width 1 in
  let '(out, clipped) := fitting_chars width 0 input in
  if clipped && (4 <=? width) then truncate_to_display_width out (width - 3) ++ t!"..." else out.

Definition word_wrap_to_cols (text : str) (cols : N) : list str :=
  if cols =? 0 then [text]
  else match wrap_words cols text with
       | [] => [[]]
       | wrapped => map (fun segment => if cols <? display_width segment then truncate_line segment cols else segment) wrapped
       end.

Definition word_wrap_plain_row (line : str) (cols : N) : list str :=
  if (cols <? 4) || is_empty line then [line]
  else if contains_ansi_escape line then [line]
  else if (visible_display_width line <=? cols) || is_structural_plain_str line then [line]
  else word_wrap_to_cols line cols.

Definition plain_row_prefix_width (line : str) : N :=
  if starts_with t!"[approval] " line then display_width t!"  ? "
  else if starts_with t!"[approval_detail] " line then display_width t!"    "
  else if opt_is_some (parse_command_session_started line) then display_width TOOL_MARKER
  else if starts_with t!"[command session exit: " line || str_eqb line t!"[command session cancelled]"
          || str_eqb line t!"[command session cancellation requested]" then display_width t!"    "
  else if starts_with t!"[command session] error: " line then display_width ERROR_MARKER
  else if starts_with t!"[stderr] " line then display_width EVIDENCE_MARKER
  else 0.

Definition transcript_row_prefix_width (r : TranscriptRow) : N :=
  match r with
  | RowToolHeader _ => display_width TOOL_MARKER
  | RowToolDetail _ => display_width t!"    "
  | RowEvidence _ => display_width EVIDENCE_MARKER
  | RowError _ => display_width ERROR_MARKER
  | RowUserInput _ => display_width t!"> "
  | RowPlain line => plain_row_prefix_width line
  | RowAssistantText _ _ | RowWaitingPlaceholder _ => 0
  end.

Definition transcript_row_wrap_width (r : TranscriptRow) (cols : N) : N :=
  N.max (sat_sub cols (transcript_row_prefix_width r)) 1.

Definition word_wrap_transcript_row (r : TranscriptRow) (cols : N) : list str :=
  let text := as_display_str r in
  match r with
  | RowWaitingPlaceholder _ => [text]
  | _ =>
      if contains_ansi_escape text then [text]
      else
        let wrap_cols := transcript_row_wrap_width r cols in
        if (visible_display_width text <=? wrap_cols) || is_structural_transcript_row r then [text]
        else word_wrap_plain_row text wrap_cols
  end.

Definition is_user_input (r : TranscriptRow) : bool := match r with RowUserInput _ => true | _ => false end.

Definition expand_row (cols : N) (r : TranscriptRow) : list TranscriptRow :=
  let text := as_display_str r in
  map (clone_with_text r)
    (if contains_char LF text then
       let text := if is_user_input r then collapse_file_blocks_for_display text else text in
       List.flat_map (fun sub => word_wrap_plain_row sub cols) (split_on LF text)
     else word_wrap_transcript_row r cols).

Definition expand_rows_for_display (rows : list TranscriptRow) (cols : N) : list TranscriptRow :=
  if cols <? 4 then rows else List.flat_map (expand_row cols) rows.
End wrapping.

(** ** The window *)
Inductive OutputScrollAnchor : Type := AnchorTop | AnchorBottom.

(** The rows of [total] that a screen of [viewport_height] rows shows, from the first to the one before
    the last. *)
Definition INSPECTOR_VIEWPORT_ROWS : N := 6.
Definition task_output_window_with_total (anchor : OutputScrollAnchor) (output_scroll_offset total viewport_height : N)
    : N * N :=
  if (viewport_height =? 0) || (total =? 0) then (0, 0)
  else match anchor with
       | AnchorBottom =>
           let max_offset := sat_sub total viewport_height in
           let offset := N.min output_scroll_offset max_offset in
           let start := sat_sub total (sat_add usize_max viewport_height offset) in
           (start, N.min (start + viewport_height) total)
       | AnchorTop =>
           let inspector_height := clamp 1 INSPECTOR_VIEWPORT_ROWS viewport_height in
           let start := N.min output_scroll_offset (sat_sub total 1) in
           (start, N.min (start + inspector_height) total)
       end.
