(* ===== verification/TerminalState.v ===== *)
(** The state of the terminal interface, what it shows of a task, and the keys that move in it:
    src/app.rs, src/app/layout.rs, src/app/queries.rs, src/app/scroll.rs and the approvals of
    src/app/overlay.rs.

    A [oneshot] channel on which a tool waits for its approval is a number; what the interface asks
    of the conversation, of the disk and of the processes is logged, in order. *)
From Stdlib Require Import NArith ZArith Lia.
From stdpp Require Import base list gmap strings numbers sets.
From S2P Require Import Prelude Text ByteIndex InputMetrics Collections Json Usage Evidence PeerChannel Envelope ToolPreview TaskDocument TaskSnapshot Memory Transcript EditLoop.
#[local] Open Scope N_scope.

(** ** Data: src/app.rs *)
Inductive PendingApprovalAction : Type :=
| ApproveTool (response : N)
| ApproveInlineCommand (command : str).

Record PendingApproval := mk_PendingApproval {
  pa_step_id : option N;
  pa_tool_name : str;
  pa_input_preview : str;
  pa_action : PendingApprovalAction;
}.

Record PendingPatchApproval := mk_PendingPatchApproval {
  patch_preview : str;
  patch_scroll_offset : N;
  patch_response : option N;
}.

Record ResumeTaskEntry := mk_ResumeTaskEntry {
  rt_dir : str;
  rt_id : str;
  rt_status : str;
}.

Inductive ApprovalSelection : Type := ApproveOnce | ApproveSession | Deny.

Record OverlayState := mk_OverlayState {
  ov_pending_approval : option PendingApproval;
  ov_pending_patch_approval : option PendingPatchApproval;
  ov_pending_resume_selection : option (list ResumeTaskEntry);
  approved_tool_steps : gset N;
  auto_approve_session : bool;
  pending_memory_clear : bool;
}.

Inductive StepLifecycle : Type :=
| StepRunning | StepCompleted | StepFailed | StepAwaitingApproval | StepApproved | StepUserInput | StepCommandSession.

#[export] Instance StepLifecycle_eq_dec : EqDecision StepLifecycle.
Proof. solve_decision. Defined.

Record TimelineEntry := mk_TimelineEntry {
  te_step_id : N;
  te_lifecycle : StepLifecycle;
  te_label : str;
  te_detail : str;
  te_session_id : option N;
}.

Inductive ScrollAction : Type := LineUp | LineDown | PageUp (step : N) | PageDown (step : N) | Home | End_.

(** What is asked of what surrounds the interface. *)
Inductive Effect : Type :=
| Answered (response : N) (approved : bool)
| CommandSpawned (session_id : N) (command : str)
| ReindexSpawned (session_id : N)
| PulseStarted (input : str) (prompt : option str) (policy : PulseToolPolicy) (shared : option str)
| EditLoopStarted (edit_loop : EditLoop) (instruction : str)
| PulseCancelled
| TaskSaved (snapshot : TaskState)
| ConversationCleared
| ConversationSeeded (record : WorkingSetRecord)
| SessionTokensReset.

Record TuiMode := mk_TuiMode {
  overlay : OverlayState;
  task_doc : TaskDocument;
  pre_session_notices : list str;
  instructions_path : option str;
  tui_model_name : str;
  tui_model_backend : ModelBackendKind;
  tui_model_url : str;
  (** [usize::MAX] until the screen has told its width. *)
  display_column_width : N;
  file_prompt_entries : option (list str);
  stream_uses_structured_final_output : bool;
  read_only_turn_active : bool;
  active_edit_loop : option EditLoop;
  selected_timeline_index : N;
  timeline_follow_mode : bool;
  transcript_scroll_offset : N;
  inspector_scroll_offset : N;
  (** Instants and durations are in nanoseconds. *)
  turn_started_at : option N;
  ttft : option N;
  last_turn_ttft : option N;
  last_turn_duration : option N;
  last_error_message : option str;
  turn_completion_pending : bool;
  plan_turn_active : bool;
  auto_memory_enabled : bool;
  auto_memory_max_notes : N;
  pending_quit : bool;
  quit_requested : bool;
  (** What the paths of the notes resolve to. *)
  notes_path : option str;
  (** Outside: the notes, the working set of the task, and what was asked of the rest. *)
  notes_disk : NotesDisk;
  working_set_file : Sidecar;
  effects : list Effect;
}.

(** *** One field replaced *)
Definition set_overlay (v : OverlayState) (s : TuiMode) : TuiMode :=
  mk_TuiMode v (task_doc s) (pre_session_notices s) (instructions_path s) (tui_model_name s)
    (tui_model_backend s) (tui_model_url s) (display_column_width s) (file_prompt_entries s)
    (stream_uses_structured_final_output s) (read_only_turn_active s) (active_edit_loop s)
    (selected_timeline_index s) (timeline_follow_mode s) (transcript_scroll_offset s)
    (inspector_scroll_offset s) (turn_started_at s) (ttft s) (last_turn_ttft s) (last_turn_duration s)
    (last_error_message s) (turn_completion_pending s) (plan_turn_active s) (auto_memory_enabled s)
    (auto_memory_max_notes s) (pending_quit s) (quit_requested s) (notes_path s) (notes_disk s)
    (working_set_file s) (effects s).
Definition set_task_doc (v : TaskDocument) (s : TuiMode) : TuiMode :=
  mk_TuiMode (overlay s) v (pre_session_notices s) (instructions_path s) (tui_model_name s)
    (tui_model_backend s) (tui_model_url s) (display_column_width s) (file_prompt_entries s)
    (stream_uses_structured_final_output s) (read_only_turn_active s) (active_edit_loop s)
    (selected_timeline_index s) (timeline_follow_mode s) (transcript_scroll_offset s)
    (inspector_scroll_offset s) (turn_started_at s) (ttft s) (last_turn_ttft s) (last_turn_duration s)
    (last_error_message s) (turn_completion_pending s) (plan_turn_active s) (auto_memory_enabled s)
    (auto_memory_max_notes s) (pending_quit s) (quit_requested s) (notes_path s) (notes_disk s)
    (working_set_file s) (effects s).
Definition set_pre_session_notices (v : list str) (s : TuiMode) : TuiMode :=
  mk_TuiMode (overlay s) (task_doc s) v (instructions_path s) (tui_model_name s) (tui_model_backend s)
    (tui_model_url s) (display_column_width s) (file_prompt_entries s) (stream_uses_structured_final_output s)
    (read_only_turn_active s) (active_edit_loop s) (selected_timeline_index s) (timeline_follow_mode s)
    (transcript_scroll_offset s) (inspector_scroll_offset s) (turn_started_at s) (ttft s) (last_turn_ttft s)
    (last_turn_duration s) (last_error_message s) (turn_completion_pending s) (plan_turn_active s)
    (auto_memory_enabled s) (auto_memory_max_notes s) (pending_quit s) (quit_requested s) (notes_path s)
    (notes_disk s) (working_set_file s) (effects s).
Definition set_instructions_path (v : option str) (s : TuiMode) : TuiMode :=
  mk_TuiMode (overlay s) (task_doc s) (pre_session_notices s) v (tui_model_name s) (tui_model_backend s)
    (tui_model_url s) (display_column_width s) (file_prompt_entries s) (stream_uses_structured_final_output s)
    (read_only_turn_active s) (active_edit_loop s) (selected_timeline_index s) (timeline_follow_mode s)
    (transcript_scroll_offset s) (inspector_scroll_offset s) (turn_started_at s) (ttft s) (last_turn_ttft s)
    (last_turn_duration s) (last_error_message s) (turn_completion_pending s) (plan_turn_active s)
    (auto_memory_enabled s) (auto_memory_max_notes s) (pending_quit s) (quit_requested s) (notes_path s)
    (notes_disk s) (working_set_file s) (effects s).
Definition set_tui_model_name (v : str) (s : TuiMode) : TuiMode :=
  mk_TuiMode (overlay s) (task_doc s) (pre_session_notices s) (instructions_path s) v (tui_model_backend s)
    (tui_model_url s) (display_column_width s) (file_prompt_entries s) (stream_uses_structured_final_output s)
    (read_only_turn_active s) (active_edit_loop s) (selected_timeline_index s) (timeline_follow_mode s)
    (transcript_scroll_offset s) (inspector_scroll_offset s) (turn_started_at s) (ttft s) (last_turn_ttft s)
    (last_turn_duration s) (last_error_message s) (turn_completion_pending s) (plan_turn_active s)
    (auto_memory_enabled s) (auto_memory_max_notes s) (pending_quit s) (quit_requested s) (notes_path s)
    (notes_disk s) (working_set_file s) (effects s).
Definition set_tui_model_backend (v : ModelBackendKind) (s : TuiMode) : TuiMode :=
  mk_TuiMode (overlay s) (task_doc s) (pre_session_notices s) (instructions_path s) (tui_model_name s) v
    (tui_model_url s) (display_column_width s) (file_prompt_entries s) (stream_uses_structured_final_output s)
    (read_only_turn_active s) (active_edit_loop s) (selected_timeline_index s) (timeline_follow_mode s)
    (transcript_scroll_offset s) (inspector_scroll_offset s) (turn_started_at s) (ttft s) (last_turn_ttft s)
    (last_turn_duration s) (last_error_message s) (turn_completion_pending s) (plan_turn_active s)
    (auto_memory_enabled s) (auto_memory_max_notes s) (pending_quit s) (quit_requested s) (notes_path s)
    (notes_disk s) (working_set_file s) (effects s).
Definition set_tui_model_url (v : str) (s : TuiMode) : TuiMode :=
  mk_TuiMode (overlay s) (task_doc s) (pre_session_notices s) (instructions_path s) (tui_model_name s)
    (tui_model_backend s) v (display_column_width s) (file_prompt_entries s)
    (stream_uses_structured_final_output s) (read_only_turn_active s) (active_edit_loop s)
    (selected_timeline_index s) (timeline_follow_mode s) (transcript_scroll_offset s)
    (inspector_scroll_offset s) (turn_started_at s) (ttft s) (last_turn_ttft s) (last_turn_duration s)
    (last_error_message s) (turn_completion_pending s) (plan_turn_active s) (auto_memory_enabled s)
    (auto_memory_max_notes s) (pending_quit s) (quit_requested s) (notes_path s) (notes_disk s)
    (working_set_file s) (effects s).
Definition set_display_column_width (v : N) (s : TuiMode) : TuiMode :=
  mk_TuiMode (overlay s) (task_doc s) (pre_session_notices s) (instructions_path s) (tui_model_name s)
    (tui_model_backend s) (tui_model_url s) v (file_prompt_entries s) (stream_uses_structured_final_output s)
    (read_only_turn_active s) (active_edit_loop s) (selected_timeline_index s) (timeline_follow_mode s)
    (transcript_scroll_offset s) (inspector_scroll_offset s) (turn_started_at s) (ttft s) (last_turn_ttft s)
    (last_turn_duration s) (last_error_message s) (turn_completion_pending s) (plan_turn_active s)
    (auto_memory_enabled s) (auto_memory_max_notes s) (pending_quit s) (quit_requested s) (notes_path s)
    (notes_disk s) (working_set_file s) (effects s).
Definition set_file_prompt_entries (v : option (list str)) (s : TuiMode) : TuiMode :=
  mk_TuiMode (overlay s) (task_doc s) (pre_session_notices s) (instructions_path s) (tui_model_name s)
    (tui_model_backend s) (tui_model_url s) (display_column_width s) v (stream_uses_structured_final_output s)
    (read_only_turn_active s) (active_edit_loop s) (selected_timeline_index s) (timeline_follow_mode s)
    (transcript_scroll_offset s) (inspector_scroll_offset s) (turn_started_at s) (ttft s) (last_turn_ttft s)
    (last_turn_duration s) (last_error_message s) (turn_completion_pending s) (plan_turn_active s)
    (auto_memory_enabled s) (auto_memory_max_notes s) (pending_quit s) (quit_requested s) (notes_path s)
    (notes_disk s) (working_set_file s) (effects s).
Definition set_stream_uses_structured_final_output (v : bool) (s : TuiMode) : TuiMode :=
  mk_TuiMode (overlay s) (task_doc s) (pre_session_notices s) (instructions_path s) (tui_model_name s)
    (tui_model_backend s) (tui_model_url s) (display_column_width s) (file_prompt_entries s) v
    (read_only_turn_active s) (active_edit_loop s) (selected_timeline_index s) (timeline_follow_mode s)
    (transcript_scroll_offset s) (inspector_scroll_offset s) (turn_started_at s) (ttft s) (last_turn_ttft s)
    (last_turn_duration s) (last_error_message s) (turn_completion_pending s) (plan_turn_active s)
    (auto_memory_enabled s) (auto_memory_max_notes s) (pending_quit s) (quit_requested s) (notes_path s)
    (notes_disk s) (working_set_file s) (effects s).
Definition set_read_only_turn_active (v : bool) (s : TuiMode) : TuiMode :=
  mk_TuiMode (overlay s) (task_doc s) (pre_session_notices s) (instructions_path s) (tui_model_name s)
    (tui_model_backend s) (tui_model_url s) (display_column_width s) (file_prompt_entries s)
    (stream_uses_structured_final_output s) v (active_edit_loop s) (selected_timeline_index s)
    (timeline_follow_mode s) (transcript_scroll_offset s) (inspector_scroll_offset s) (turn_started_at s)
    (ttft s) (last_turn_ttft s) (last_turn_duration s) (last_error_message s) (turn_completion_pending s)
    (plan_turn_active s) (auto_memory_enabled s) (auto_memory_max_notes s) (pending_quit s) (quit_requested s)
    (notes_path s) (notes_disk s) (working_set_file s) (effects s).
Definition set_active_edit_loop (v : option EditLoop) (s : TuiMode) : TuiMode :=
  mk_TuiMode (overlay s) (task_doc s) (pre_session_notices s) (instructions_path s) (tui_model_name s)
    (tui_model_backend s) (tui_model_url s) (display_column_width s) (file_prompt_entries s)
    (stream_uses_structured_final_output s) (read_only_turn_active s) v (selected_timeline_index s)
    (timeline_follow_mode s) (transcript_scroll_offset s) (inspector_scroll_offset s) (turn_started_at s)
    (ttft s) (last_turn_ttft s) (last_turn_duration s) (last_error_message s) (turn_completion_pending s)
    (plan_turn_active s) (auto_memory_enabled s) (auto_memory_max_notes s) (pending_quit s) (quit_requested s)
    (notes_path s) (notes_disk s) (working_set_file s) (effects s).
Definition set_selected_timeline_index (v : N) (s : TuiMode) : TuiMode :=
  mk_TuiMode (overlay s) (task_doc s) (pre_session_notices s) (instructions_path s) (tui_model_name s)
    (tui_model_backend s) (tui_model_url s) (display_column_width s) (file_prompt_entries s)
    (stream_uses_structured_final_output s) (read_only_turn_active s) (active_edit_loop s) v
    (timeline_follow_mode s) (transcript_scroll_offset s) (inspector_scroll_offset s) (turn_started_at s)
    (ttft s) (last_turn_ttft s) (last_turn_duration s) (last_error_message s) (turn_completion_pending s)
    (plan_turn_active s) (auto_memory_enabled s) (auto_memory_max_notes s) (pending_quit s) (quit_requested s)
    (notes_path s) (notes_disk s) (working_set_file s) (effects s).
Definition set_timeline_follow_mode (v : bool) (s : TuiMode) : TuiMode :=
  mk_TuiMode (overlay s) (task_doc s) (pre_session_notices s) (instructions_path s) (tui_model_name s)
    (tui_model_backend s) (tui_model_url s) (display_column_width s) (file_prompt_entries s)
    (stream_uses_structured_final_output s) (read_only_turn_active s) (active_edit_loop s)
    (selected_timeline_index s) v (transcript_scroll_offset s) (inspector_scroll_offset s) (turn_started_at s)
    (ttft s) (last_turn_ttft s) (last_turn_duration s) (last_error_message s) (turn_completion_pending s)
    (plan_turn_active s) (auto_memory_enabled s) (auto_memory_max_notes s) (pending_quit s) (quit_requested s)
    (notes_path s) (notes_disk s) (working_set_file s) (effects s).
Definition set_transcript_scroll_offset (v : N) (s : TuiMode) : TuiMode :=
  mk_TuiMode (overlay s) (task_doc s) (pre_session_notices s) (instructions_path s) (tui_model_name s)
    (tui_model_backend s) (tui_model_url s) (display_column_width s) (file_prompt_entries s)
    (stream_uses_structured_final_output s) (read_only_turn_active s) (active_edit_loop s)
    (selected_timeline_index s) (timeline_follow_mode s) v (inspector_scroll_offset s) (turn_started_at s)
    (ttft s) (last_turn_ttft s) (last_turn_duration s) (last_error_message s) (turn_completion_pending s)
    (plan_turn_active s) (auto_memory_enabled s) (auto_memory_max_notes s) (pending_quit s) (quit_requested s)
    (notes_path s) (notes_disk s) (working_set_file s) (effects s).
Definition set_inspector_scroll_offset (v : N) (s : TuiMode) : TuiMode :=
  mk_TuiMode (overlay s) (task_doc s) (pre_session_notices s) (instructions_path s) (tui_model_name s)
    (tui_model_backend s) (tui_model_url s) (display_column_width s) (file_prompt_entries s)
    (stream_uses_structured_final_output s) (read_only_turn_active s) (active_edit_loop s)
    (selected_timeline_index s) (timeline_follow_mode s) (transcript_scroll_offset s) v (turn_started_at s)
    (ttft s) (last_turn_ttft s) (last_turn_duration s) (last_error_message s) (turn_completion_pending s)
    (plan_turn_active s) (auto_memory_enabled s) (auto_memory_max_notes s) (pending_quit s) (quit_requested s)
    (notes_path s) (notes_disk s) (working_set_file s) (effects s).
Definition set_turn_started_at (v : option N) (s : TuiMode) : TuiMode :=
  mk_TuiMode (overlay s) (task_doc s) (pre_session_notices s) (instructions_path s) (tui_model_name s)
    (tui_model_backend s) (tui_model_url s) (display_column_width s) (file_prompt_entries s)
    (stream_uses_structured_final_output s) (read_only_turn_active s) (active_edit_loop s)
    (selected_timeline_index s) (timeline_follow_mode s) (transcript_scroll_offset s)
    (inspector_scroll_offset s) v (ttft s) (last_turn_ttft s) (last_turn_duration s) (last_error_message s)
    (turn_completion_pending s) (plan_turn_active s) (auto_memory_enabled s) (auto_memory_max_notes s)
    (pending_quit s) (quit_requested s) (notes_path s) (notes_disk s) (working_set_file s) (effects s).
Definition set_ttft (v : option N) (s : TuiMode) : TuiMode :=
  mk_TuiMode (overlay s) (task_doc s) (pre_session_notices s) (instructions_path s) (tui_model_name s)
    (tui_model_backend s) (tui_model_url s) (display_column_width s) (file_prompt_entries s)
    (stream_uses_structured_final_output s) (read_only_turn_active s) (active_edit_loop s)
    (selected_timeline_index s) (timeline_follow_mode s) (transcript_scroll_offset s)
    (inspector_scroll_offset s) (turn_started_at s) v (last_turn_ttft s) (last_turn_duration s)
    (last_error_message s) (turn_completion_pending s) (plan_turn_active s) (auto_memory_enabled s)
    (auto_memory_max_notes s) (pending_quit s) (quit_requested s) (notes_path s) (notes_disk s)
    (working_set_file s) (effects s).
Definition set_last_turn_ttft (v : option N) (s : TuiMode) : TuiMode :=
  mk_TuiMode (overlay s) (task_doc s) (pre_session_notices s) (instructions_path s) (tui_model_name s)
    (tui_model_backend s) (tui_model_url s) (display_column_width s) (file_prompt_entries s)
    (stream_uses_structured_final_output s) (read_only_turn_active s) (active_edit_loop s)
    (selected_timeline_index s) (timeline_follow_mode s) (transcript_scroll_offset s)
    (inspector_scroll_offset s) (turn_started_at s) (ttft s) v (last_turn_duration s) (last_error_message s)
    (turn_completion_pending s) (plan_turn_active s) (auto_memory_enabled s) (auto_memory_max_notes s)
    (pending_quit s) (quit_requested s) (notes_path s) (notes_disk s) (working_set_file s) (effects s).
Definition set_last_turn_duration (v : option N) (s : TuiMode) : TuiMode :=
  mk_TuiMode (overlay s) (task_doc s) (pre_session_notices s) (instructions_path s) (tui_model_name s)
    (tui_model_backend s) (tui_model_url s) (display_column_width s) (file_prompt_entries s)
    (stream_uses_structured_final_output s) (read_only_turn_active s) (active_edit_loop s)
    (selected_timeline_index s) (timeline_follow_mode s) (transcript_scroll_offset s)
    (inspector_scroll_offset s) (turn_started_at s) (ttft s) (last_turn_ttft s) v (last_error_message s)
    (turn_completion_pending s) (plan_turn_active s) (auto_memory_enabled s) (auto_memory_max_notes s)
    (pending_quit s) (quit_requested s) (notes_path s) (notes_disk s) (working_set_file s) (effects s).
Definition set_last_error_message (v : option str) (s : TuiMode) : TuiMode :=
  mk_TuiMode (overlay s) (task_doc s) (pre_session_notices s) (instructions_path s) (tui_model_name s)
    (tui_model_backend s) (tui_model_url s) (display_column_width s) (file_prompt_entries s)
    (stream_uses_structured_final_output s) (read_only_turn_active s) (active_edit_loop s)
    (selected_timeline_index s) (timeline_follow_mode s) (transcript_scroll_offset s)
    (inspector_scroll_offset s) (turn_started_at s) (ttft s) (last_turn_ttft s) (last_turn_duration s) v
    (turn_completion_pending s) (plan_turn_active s) (auto_memory_enabled s) (auto_memory_max_notes s)
    (pending_quit s) (quit_requested s) (notes_path s) (notes_disk s) (working_set_file s) (effects s).
Definition set_turn_completion_pending (v : bool) (s : TuiMode) : TuiMode :=
  mk_TuiMode (overlay s) (task_doc s) (pre_session_notices s) (instructions_path s) (tui_model_name s)
    (tui_model_backend s) (tui_model_url s) (display_column_width s) (file_prompt_entries s)
    (stream_uses_structured_final_output s) (read_only_turn_active s) (active_edit_loop s)
    (selected_timeline_index s) (timeline_follow_mode s) (transcript_scroll_offset s)
    (inspector_scroll_offset s) (turn_started_at s) (ttft s) (last_turn_ttft s) (last_turn_duration s)
    (last_error_message s) v (plan_turn_active s) (auto_memory_enabled s) (auto_memory_max_notes s)
    (pending_quit s) (quit_requested s) (notes_path s) (notes_disk s) (working_set_file s) (effects s).
Definition set_plan_turn_active (v : bool) (s : TuiMode) : TuiMode :=
  mk_TuiMode (overlay s) (task_doc s) (pre_session_notices s) (instructions_path s) (tui_model_name s)
    (tui_model_backend s) (tui_model_url s) (display_column_width s) (file_prompt_entries s)
    (stream_uses_structured_final_output s) (read_only_turn_active s) (active_edit_loop s)
    (selected_timeline_index s) (timeline_follow_mode s) (transcript_scroll_offset s)
    (inspector_scroll_offset s) (turn_started_at s) (ttft s) (last_turn_ttft s) (last_turn_duration s)
    (last_error_message s) (turn_completion_pending s) v (auto_memory_enabled s) (auto_memory_max_notes s)
    (pending_quit s) (quit_requested s) (notes_path s) (notes_disk s) (working_set_file s) (effects s).
Definition set_auto_memory_enabled (v : bool) (s : TuiMode) : TuiMode :=
  mk_TuiMode (overlay s) (task_doc s) (pre_session_notices s) (instructions_path s) (tui_model_name s)
    (tui_model_backend s) (tui_model_url s) (display_column_width s) (file_prompt_entries s)
    (stream_uses_structured_final_output s) (read_only_turn_active s) (active_edit_loop s)
    (selected_timeline_index s) (timeline_follow_mode s) (transcript_scroll_offset s)
    (inspector_scroll_offset s) (turn_started_at s) (ttft s) (last_turn_ttft s) (last_turn_duration s)
    (last_error_message s) (turn_completion_pending s) (plan_turn_active s) v (auto_memory_max_notes s)
    (pending_quit s) (quit_requested s) (notes_path s) (notes_disk s) (working_set_file s) (effects s).
Definition set_auto_memory_max_notes (v : N) (s : TuiMode) : TuiMode :=
  mk_TuiMode (overlay s) (task_doc s) (pre_session_notices s) (instructions_path s) (tui_model_name s)
    (tui_model_backend s) (tui_model_url s) (display_column_width s) (file_prompt_entries s)
    (stream_uses_structured_final_output s) (read_only_turn_active s) (active_edit_loop s)
    (selected_timeline_index s) (timeline_follow_mode s) (transcript_scroll_offset s)
    (inspector_scroll_offset s) (turn_started_at s) (ttft s) (last_turn_ttft s) (last_turn_duration s)
    (last_error_message s) (turn_completion_pending s) (plan_turn_active s) (auto_memory_enabled s) v
    (pending_quit s) (quit_requested s) (notes_path s) (notes_disk s) (working_set_file s) (effects s).
Definition set_pending_quit (v : bool) (s : TuiMode) : TuiMode :=
  mk_TuiMode (overlay s) (task_doc s) (pre_session_notices s) (instructions_path s) (tui_model_name s)
    (tui_model_backend s) (tui_model_url s) (display_column_width s) (file_prompt_entries s)
    (stream_uses_structured_final_output s) (read_only_turn_active s) (active_edit_loop s)
    (selected_timeline_index s) (timeline_follow_mode s) (transcript_scroll_offset s)
    (inspector_scroll_offset s) (turn_started_at s) (ttft s) (last_turn_ttft s) (last_turn_duration s)
    (last_error_message s) (turn_completion_pending s) (plan_turn_active s) (auto_memory_enabled s)
    (auto_memory_max_notes s) v (quit_requested s) (notes_path s) (notes_disk s) (working_set_file s)
    (effects s).
Definition set_quit_requested (v : bool) (s : TuiMode) : TuiMode :=
  mk_TuiMode (overlay s) (task_doc s) (pre_session_notices s) (instructions_path s) (tui_model_name s)
    (tui_model_backend s) (tui_model_url s) (display_column_width s) (file_prompt_entries s)
    (stream_uses_structured_final_output s) (read_only_turn_active s) (active_edit_loop s)
    (selected_timeline_index s) (timeline_follow_mode s) (transcript_scroll_offset s)
    (inspector_scroll_offset s) (turn_started_at s) (ttft s) (last_turn_ttft s) (last_turn_duration s)
    (last_error_message s) (turn_completion_pending s) (plan_turn_active s) (auto_memory_enabled s)
    (auto_memory_max_notes s) (pending_quit s) v (notes_path s) (notes_disk s) (working_set_file s) (effects s).
Definition set_notes_path (v : option str) (s : TuiMode) : TuiMode :=
  mk_TuiMode (overlay s) (task_doc s) (pre_session_notices s) (instructions_path s) (tui_model_name s)
    (tui_model_backend s) (tui_model_url s) (display_column_width s) (file_prompt_entries s)
    (stream_uses_structured_final_output s) (read_only_turn_active s) (active_edit_loop s)
    (selected_timeline_index s) (timeline_follow_mode s) (transcript_scroll_offset s)
    (inspector_scroll_offset s) (turn_started_at s) (ttft s) (last_turn_ttft s) (last_turn_duration s)
    (last_error_message s) (turn_completion_pending s) (plan_turn_active s) (auto_memory_enabled s)
    (auto_memory_max_notes s) (pending_quit s) (quit_requested s) v (notes_disk s) (working_set_file s)
    (effects s).
Definition set_notes_disk (v : NotesDisk) (s : TuiMode) : TuiMode :=
  mk_TuiMode (overlay s) (task_doc s) (pre_session_notices s) (instructions_path s) (tui_model_name s)
    (tui_model_backend s) (tui_model_url s) (display_column_width s) (file_prompt_entries s)
    (stream_uses_structured_final_output s) (read_only_turn_active s) (active_edit_loop s)
    (selected_timeline_index s) (timeline_follow_mode s) (transcript_scroll_offset s)
    (inspector_scroll_offset s) (turn_started_at s) (ttft s) (last_turn_ttft s) (last_turn_duration s)
    (last_error_message s) (turn_completion_pending s) (plan_turn_active s) (auto_memory_enabled s)
    (auto_memory_max_notes s) (pending_quit s) (quit_requested s) (notes_path s) v (working_set_file s)
    (effects s).
Definition set_working_set_file (v : Sidecar) (s : TuiMode) : TuiMode :=
  mk_TuiMode (overlay s) (task_doc s) (pre_session_notices s) (instructions_path s) (tui_model_name s)
    (tui_model_backend s) (tui_model_url s) (display_column_width s) (file_prompt_entries s)
    (stream_uses_structured_final_output s) (read_only_turn_active s) (active_edit_loop s)
    (selected_timeline_index s) (timeline_follow_mode s) (transcript_scroll_offset s)
    (inspector_scroll_offset s) (turn_started_at s) (ttft s) (last_turn_ttft s) (last_turn_duration s)
    (last_error_message s) (turn_completion_pending s) (plan_turn_active s) (auto_memory_enabled s)
    (auto_memory_max_notes s) (pending_quit s) (quit_requested s) (notes_path s) (notes_disk s) v (effects s).
Definition set_effects (v : list Effect) (s : TuiMode) : TuiMode :=
  mk_TuiMode (overlay s) (task_doc s) (pre_session_notices s) (instructions_path s) (tui_model_name s)
    (tui_model_backend s) (tui_model_url s) (display_column_width s) (file_prompt_entries s)
    (stream_uses_structured_final_output s) (read_only_turn_active s) (active_edit_loop s)
    (selected_timeline_index s) (timeline_follow_mode s) (transcript_scroll_offset s)
    (inspector_scroll_offset s) (turn_started_at s) (ttft s) (last_turn_ttft s) (last_turn_duration s)
    (last_error_message s) (turn_completion_pending s) (plan_turn_active s) (auto_memory_enabled s)
    (auto_memory_max_notes s) (pending_quit s) (quit_requested s) (notes_path s) (notes_disk s)
    (working_set_file s) v.

Definition with_overlay (f : OverlayState -> OverlayState) (s : TuiMode) : TuiMode := set_overlay (f (overlay s)) s.
Definition with_doc (f : TaskDocument -> TaskDocument) (s : TuiMode) : TuiMode := set_task_doc (f (task_doc s)) s.
Definition with_active (f : ActiveTurnDocument -> ActiveTurnDocument) (s : TuiMode) : TuiMode :=
  match active_pulse (task_doc s) with
  | Some a => with_doc (set_active (Some (f a))) s
  | None => s
  end.
Definition log (e : Effect) (s : TuiMode) : TuiMode := set_effects (effects s ++ [e]) s.

Definition set_ov_pending_approval (v : option PendingApproval) (o : OverlayState) : OverlayState :=
  mk_OverlayState v (ov_pending_patch_approval o) (ov_pending_resume_selection o) (approved_tool_steps o)
    (auto_approve_session o) (pending_memory_clear o).
Definition set_ov_pending_patch_approval (v : option PendingPatchApproval) (o : OverlayState) : OverlayState :=
  mk_OverlayState (ov_pending_approval o) v (ov_pending_resume_selection o) (approved_tool_steps o)
    (auto_approve_session o) (pending_memory_clear o).
Definition set_ov_pending_resume_selection (v : option (list ResumeTaskEntry)) (o : OverlayState) : OverlayState :=
  mk_OverlayState (ov_pending_approval o) (ov_pending_patch_approval o) v (approved_tool_steps o)
    (auto_approve_session o) (pending_memory_clear o).
Definition set_approved_tool_steps (v : gset N) (o : OverlayState) : OverlayState :=
  mk_OverlayState (ov_pending_approval o) (ov_pending_patch_approval o) (ov_pending_resume_selection o) v
    (auto_approve_session o) (pending_memory_clear o).
Definition set_auto_approve_session (v : bool) (o : OverlayState) : OverlayState :=
  mk_OverlayState (ov_pending_approval o) (ov_pending_patch_approval o) (ov_pending_resume_selection o)
    (approved_tool_steps o) v (pending_memory_clear o).
Definition set_pending_memory_clear (v : bool) (o : OverlayState) : OverlayState :=
  mk_OverlayState (ov_pending_approval o) (ov_pending_patch_approval o) (ov_pending_resume_selection o)
    (approved_tool_steps o) (auto_approve_session o) v.

Definition set_command_sessions (v : gmap N CommandSessionDocument) (a : ActiveTurnDocument) : ActiveTurnDocument :=
  mk_ActiveTurnDocument (at_turn_index a) (at_input a) (at_entries a) (at_started_at_ms a) (at_ttft_ms a)
    (prompt_progress a) (at_timings a) (pending_approval a) v (at_changed_files a)
    (at_command_history a) (tool_policy a) (cancel_pending a).
Definition set_cancel_pending (v : bool) (a : ActiveTurnDocument) : ActiveTurnDocument :=
  mk_ActiveTurnDocument (at_turn_index a) (at_input a) (at_entries a) (at_started_at_ms a) (at_ttft_ms a)
    (prompt_progress a) (at_timings a) (pending_approval a) (command_sessions a) (at_changed_files a)
    (at_command_history a) (tool_policy a) v.

(** ** The start: src/app/ctor.rs *)
(** What the interface takes from the settings of the program. *)
Record TuiSettings := mk_TuiSettings {
  ts_force : bool;
  ts_model_name : str;
  ts_model_backend : ModelBackendKind;
  ts_model_url : str;
  ts_auto_memory : bool;
  ts_max_notes : N;
}.

Definition DISPLAY_COLUMN_WIDTH_FALLBACK : N := usize_max.

(** [id] is that of the new task, [now] the instant, and the rest is what is outside. *)
Definition new_with_config (notes_path : option str) (config : TuiSettings) (id : str) (now : N)
    (disk : NotesDisk) (file : Sidecar) : TuiMode :=
  let overlay_state := mk_OverlayState None None None ∅ (ts_force config) false in
  let initial_meta := mk_TaskInfo id TReady None None None None None (ts_model_name config) (ts_model_backend config)
    (ts_model_url config) None now None ∅ 0 in
  mk_TuiMode overlay_state (begin_task initial_meta) [] None (ts_model_name config) (ts_model_backend config)
    (ts_model_url config) DISPLAY_COLUMN_WIDTH_FALLBACK None false false None 0 true 0 0 None None None None None
    false false (ts_auto_memory config) (ts_max_notes config) false false notes_path disk file [].

(** ** Questions: src/app/queries.rs *)
Definition opt_b {A} (p : A -> bool) (o : option A) : bool := match o with Some x => p x | None => false end.

Definition is_pulse_in_progress (s : TuiMode) : bool := opt_is_some (active_pulse (task_doc s)).
Definition is_cancel_pending (s : TuiMode) : bool := opt_b cancel_pending (active_pulse (task_doc s)).
Definition command_session_active (s : TuiMode) : bool :=
  opt_b (fun a => negb (bool_decide (command_sessions a = ∅))) (active_pulse (task_doc s)).

Definition overlay_active (s : TuiMode) : bool :=
  let o := overlay s in
  opt_is_some (ov_pending_approval o) || opt_is_some (ov_pending_patch_approval o)
  || opt_is_some (ov_pending_resume_selection o) || pending_memory_clear o.

Definition mode_status_label (s : TuiMode) : str :=
  if overlay_active s then t!"overlay"
  else if command_session_active s then t!"command-session"
  else if pending_quit s then t!"quit-arm"
  else if is_cancel_pending s then t!"cancelling"
  else if is_pulse_in_progress s then t!"streaming"
  else t!"ready".

Definition approval_status_label (s : TuiMode) : str :=
  if overlay_active s then t!"pending" else if auto_approve_session (overlay s) then t!"auto" else t!"none".

Definition is_tool_call (e : PulseEntry) : bool := match e with EToolCall _ _ _ _ _ => true | _ => false end.

Definition timeline_entry_count (s : TuiMode) : N :=
  let count input entries sessions :=
    (if is_empty (trim input) then 0 else 1) + N.of_nat (length (List.filter is_tool_call entries)) + sessions in
  N.max (match active_pulse (task_doc s) with
         | Some a => count (at_input a) (at_entries a) (N.of_nat (size (command_sessions a)))
         | None => match list.last (completed_turns (task_doc s)) with
                   | Some t => count (td_input t) (td_entries t) 0
                   | None => 0
                   end
         end) 1.

(** ** The steps of a turn: src/app/layout.rs *)
Definition display_status_text (status : str) : str :=
  if str_eqb status t!"running" then pending_status_label
  else if str_eqb status t!"completed" then completed_status_label
  else status.

(** The values of a [BTreeMap]. *)
Definition sessions_in_order (m : gmap N CommandSessionDocument) : list CommandSessionDocument :=
  map snd (sort_by (fun a b => a.1 <? b.1) (map_to_list m)).

Definition session_step (step : N) (session : CommandSessionDocument) : TimelineEntry :=
  let status := display_status_text (cs_status session) in
  let pid := match pid session with Some p => fmt_N p | None => t!"pending" end in
  mk_TimelineEntry step StepCommandSession (command session ++ t!": " ++ status)
    (t!"command: " ++ command session ++ [LF] ++ t!"pid: " ++ pid ++ [LF] ++ t!"status: " ++ status) (Some step).

Definition lifecycle_of_status (status : ToolStatus) : StepLifecycle :=
  match status with
  | Complete => StepCompleted
  | Envelope.Error | Envelope.Cancelled => StepFailed
  | Envelope.Pending | WaitingApproval | Executing => StepRunning
  end.
Definition call_lifecycle (o : OverlayState) (step_id : N) (status : ToolStatus) : StepLifecycle :=
  if bool_decide ((p ← ov_pending_approval o; pa_step_id p) = Some step_id) then StepAwaitingApproval
  else if bool_decide (step_id ∈ approved_tool_steps o) then StepApproved
  else lifecycle_of_status status.
Definition lifecycle_label (l : StepLifecycle) : str :=
  match l with
  | StepAwaitingApproval => t!"awaiting approval"
  | StepApproved => t!"approved"
  | StepCompleted => t!"done"
  | StepFailed => t!"failed"
  | _ => pending_status_label
  end.

Definition first_line (s : str) : str := match lines s with l :: _ => l | [] => [] end.

Section views.
Context {js : SerdeJson} {pretty : PrettyJson} {diff : LineDiff}.
Context {cw : CharWidth} {seg : Segmentation} {wrap : TextWrap} {ansi : AnsiText}.

Definition entry_step (o : OverlayState) (e : PulseEntry) : option TimelineEntry :=
  match e with
  | EToolCall step_id _ name input status =>
      let lifecycle := call_lifecycle o step_id status in
      Some (mk_TimelineEntry step_id lifecycle (name ++ t!": " ++ lifecycle_label lifecycle)
              (t!"Tool: " ++ name ++ [LF] ++ t!"Input:" ++ [LF] ++ pretty_or_plain input) None)
  | ECommandSession step_id session => Some (session_step step_id session)
  | _ => None
  end.

Definition task_step_views (s : TuiMode) : list TimelineEntry :=
  let of_turn input entries :=
    (if is_empty (trim input) then [] else [mk_TimelineEntry 0 StepUserInput (first_line input) input None])
    ++ omap (entry_step (overlay s)) entries in
  match active_pulse (task_doc s) with
  | Some a => of_turn (at_input a) (at_entries a)
              ++ map (fun c => session_step (session_id c) c) (sessions_in_order (command_sessions a))
  | None => match list.last (completed_turns (task_doc s)) with
            | Some t => of_turn (td_input t) (td_entries t)
            | None => []
            end
  end.

(** The step whose details are shown instead of the transcript. *)
Definition inspected_step (s : TuiMode) (entries : list TimelineEntry) : option (N * TimelineEntry) :=
  if timeline_follow_mode s then None
  else
    let idx := N.min (selected_timeline_index s) (sat_sub (N.of_nat (length entries)) 1) in
    match entries !! N.to_nat idx with
    | Some e => if negb (bool_decide (te_lifecycle e = StepUserInput)) && negb (is_empty (te_detail e))
                then Some (idx, e) else None
    | None => None
    end.

Definition task_output_view (s : TuiMode) : str * list TranscriptRow * OutputScrollAnchor :=
  let entries := task_step_views s in
  match inspected_step s entries with
  | Some (idx, e) =>
      let rows := map RowPlain (lines (te_detail e)) in
      (t!"Inspector" ++ DOT ++ fmt_N (idx + 1) ++ t!"/" ++ fmt_N (N.of_nat (length entries)) ++ DOT ++ te_label e
       ++ DOT ++ fmt_N (N.of_nat (length rows)) ++ t!" rows", rows, AnchorTop)
  | None => (t!"Transcript", project_transcript_rows (task_doc s) (pre_session_notices s), AnchorBottom)
  end.

(** [self.display_column_width.get() as u16]. *)
Definition columns (s : TuiMode) : N := display_column_width s mod 65536.
Definition expanded_output_row_count (s : TuiMode) : N :=
  let '(_, rows, _) := task_output_view s in N.of_nat (length (expand_rows_for_display rows (columns s))).
Definition output_anchor (s : TuiMode) : OutputScrollAnchor := let '(_, _, anchor) := task_output_view s in anchor.

Definition update_display_column_width (width : N) (s : TuiMode) : TuiMode := set_display_column_width (N.max width 1) s.

(** ** Moving: src/app/scroll.rs *)
Definition clamp_transcript_scroll_offset (total_rows : N) (s : TuiMode) : TuiMode :=
  set_transcript_scroll_offset (N.min (transcript_scroll_offset s) (sat_sub total_rows 1)) s.
Definition clamp_inspector_scroll_offset (total_rows : N) (s : TuiMode) : TuiMode :=
  set_inspector_scroll_offset (N.min (inspector_scroll_offset s) (sat_sub total_rows 1)) s.

(** The rows that are added below keep the rows on the screen where they are. *)
Definition preserve_transcript_scroll_on_growth (previous_expanded_rows : N) (s : TuiMode) : TuiMode :=
  if transcript_scroll_offset s =? 0 then s
  else
    let expanded := expanded_output_row_count s in
    let offset :=
      match output_anchor s with
      | AnchorBottom =>
          if previous_expanded_rows <? expanded
          then sat_add usize_max (transcript_scroll_offset s) (expanded - previous_expanded_rows)
          else transcript_scroll_offset s
      | AnchorTop => transcript_scroll_offset s
      end in
    set_transcript_scroll_offset (N.min offset (sat_sub expanded 1)) s.

Definition clamp_transcript_after_mutation (s : TuiMode) : TuiMode :=
  let total_rows := expanded_output_row_count s in
  match output_anchor s with
  | AnchorBottom => clamp_transcript_scroll_offset total_rows s
  | AnchorTop => clamp_inspector_scroll_offset total_rows s
  end.

Definition select_step (index : N) (follow : bool) (s : TuiMode) : TuiMode :=
  set_inspector_scroll_offset 0 (set_timeline_follow_mode follow (set_selected_timeline_index index s)).

Definition apply_timeline_scroll_action (action : ScrollAction) (total_entries : N) (s : TuiMode) : TuiMode :=
  let max := sat_sub total_entries 1 in
  let index := selected_timeline_index s in
  match action with
  | LineUp => select_step (sat_sub index 1) false s
  | LineDown => let i := N.min (index + 1) max in select_step i (max <=? i) s
  | PageUp step => select_step (sat_sub index (N.max step 1)) false s
  | PageDown step => let i := N.min (sat_add usize_max index (N.max step 1)) max in select_step i (max <=? i) s
  | Home => select_step 0 false s
  | End_ => select_step max true s
  end.

Definition apply_bounded_scroll (offset : N) (action : ScrollAction) (max : N) : N :=
  match action with
  | LineUp => sat_sub offset 1
  | LineDown => N.min (sat_add usize_max offset 1) max
  | PageUp step => sat_sub offset (N.max step 1)
  | PageDown step => N.min (sat_add usize_max offset (N.max step 1)) max
  | Home => 0
  | End_ => max
  end.

Definition transcript_offset (offset : N) (action : ScrollAction) (total_rows : N) : N :=
  match action with
  | LineUp => sat_add usize_max offset 1
  | LineDown => sat_sub offset 1
  | PageUp step => sat_add usize_max offset (N.max step 1)
  | PageDown step => sat_sub offset (N.max step 1)
  | Home => sat_sub total_rows 1
  | End_ => 0
  end.

Definition apply_output_scroll_action (action : ScrollAction) (s : TuiMode) : TuiMode :=
  let total_rows := expanded_output_row_count s in
  match output_anchor s with
  | AnchorBottom =>
      clamp_transcript_scroll_offset total_rows
        (set_transcript_scroll_offset (transcript_offset (transcript_scroll_offset s) action total_rows) s)
  | AnchorTop =>
      clamp_inspector_scroll_offset total_rows
        (set_inspector_scroll_offset
           (apply_bounded_scroll (inspector_scroll_offset s) action (sat_sub total_rows 1)) s)
  end.
End views.

Definition apply_patch_overlay_scroll_action (action : ScrollAction) (s : TuiMode) : TuiMode :=
  match ov_pending_patch_approval (overlay s) with
  | Some p =>
      let max := sat_sub (N.of_nat (length (lines (patch_preview p)))) 1 in
      with_overlay (set_ov_pending_patch_approval (Some (mk_PendingPatchApproval (patch_preview p)
        (apply_bounded_scroll (patch_scroll_offset p) action max) (patch_response p)))) s
  | None => s
  end.

(** ** Approvals: src/app/overlay.rs and src/app/util.rs *)
(** [to_lowercase]: no character that is not ASCII is lowered to one of these words. *)
Definition parse_approval_selection (input : str) : option ApprovalSelection :=
  let normalized := to_ascii_lowercase (trim input) in
  if str_in normalized [t!"1"; t!"y"; t!"yes"] then Some ApproveOnce
  else if str_in normalized [t!"2"; t!"a"; t!"always"] then Some ApproveSession
  else if str_in normalized [t!"3"; t!"n"; t!"no"; t!"esc"] then Some Deny
  else None.

Fixpoint approval_context (path summary : option str) (ls : list str) : option str * option str :=
  match ls with
  | [] => (path, summary)
  | line :: r =>
      let trimmed := trim line in
      if is_empty trimmed then approval_context path summary r
      else if negb (opt_is_some path) && starts_with t!"path:" trimmed then approval_context (Some trimmed) summary r
      else if opt_is_some summary then approval_context path summary r
      else approval_context path (Some trimmed) r
  end.
Definition summarize_tool_approval_context (tool_name input_preview : str) : str :=
  match approval_context None None (take 8 (lines input_preview)) with
  | (Some path, Some summary) => tool_name ++ t!" " ++ path ++ t!" " ++ summary
  | (Some path, None) => tool_name ++ t!" " ++ path
  | (None, Some summary) => tool_name ++ t!" " ++ summary
  | (None, None) => tool_name
  end.

Definition capability_to_kebab (c : Capability) : str :=
  match c with
  | ReadFile => t!"read-file" | WriteFile => t!"write-file" | ApplyPatch => t!"apply-patch"
  | RunCommand => t!"run-command" | McpTool => t!"mcp-tool" | Network => t!"network" | Browser => t!"browser"
  end.
Definition ALL_CAPABILITIES : list Capability := [ApplyPatch; Browser; McpTool; Network; ReadFile; RunCommand; WriteFile].
Definition kebab_to_capability (s : str) : option Capability :=
  List.find (fun c => str_eqb s (capability_to_kebab c)) ALL_CAPABILITIES.

Definition capability_for_tool_name (tool_name : str) : option Capability :=
  if str_in tool_name [t!"read_file"; t!"list_files"; t!"list_directory"; t!"list_dir"; t!"glob_files"; t!"search";
                       t!"search_files"; t!"search_content"; t!"find_files"; t!"git_status"; t!"git_diff";
                       t!"git_log"; t!"git_show"] then Some ReadFile
  else if str_in tool_name [t!"write_file"; t!"edit_file"; t!"rename_file"] then Some WriteFile
  else if str_in tool_name [t!"apply_patch"; t!"git_add"; t!"git_commit"] then Some ApplyPatch
  else if str_in tool_name [t!"run_command"] then Some RunCommand
  else if starts_with t!"mcp." tool_name then Some McpTool
  else None.

Definition scope_to_label (s : ApprovalScope) : str :=
  match s with Once => t!"once" | Task => t!"task" | Session => t!"session" end.
Definition kebab_to_scope (s : str) : option ApprovalScope :=
  if str_eqb s t!"once" then Some Once else if str_eqb s t!"session" then Some Session else None.
