(* ===== verification/Terminal.v ===== *)
(** What the terminal interface does with the updates of a pulse, with the answers to its
    questions and with an interrupt: src/app/model_update.rs, src/app/overlay.rs, src/app/pulse.rs,
    src/app/shell.rs and src/app/input.rs.

    What the clock and the counters of the session say during a step is a [Moment]; how seconds are
    printed is an operation of a class. *)
From Stdlib Require Import NArith ZArith Lia.
From stdpp Require Import base list gmap strings numbers sets.
From S2P Require Import Prelude Text ByteIndex InputMetrics Collections Json Usage Evidence PeerChannel Envelope ToolPreview TaskDocument TaskSnapshot ToolRules ConversationState Validation RuntimeContext EditLoop Memory Transcript TerminalState.
#[local] Open Scope N_scope.

Record Moment := mk_Moment {
  instant : N;
  now_millis : N;
  timestamp_seconds : N;
  (** [ctx.session_tokens_rollup().last_pulse()]. *)
  last_pulse : PulseTokens.t;
}.

(** [{:.1}] of the seconds of a duration in nanoseconds, and of a thousandth of a float. *)
Class TimeText := {
  seconds_text : N -> str;
  milliseconds_text : f64 -> str;
}.

Definition elapsed (t : Moment) (started : N) : N := sat_sub (instant t) started.
(** [as_millis().try_into().unwrap_or(u64::MAX)]. *)
Definition as_millis (nanos : N) : N := N.min u64_max (nanos / 1000000).

Abbreviation T A := (PST TuiMode A).

(** ** The document *)
Definition alloc_step_id (s : TuiMode) : N * TuiMode :=
  let '(id, d) := alloc_step (task_doc s) in (id, set_task_doc d s).

Definition append_turn_entry (e : PulseEntry) (s : TuiMode) : TuiMode :=
  with_active (fun a => set_entries (at_entries a ++ [e]) a) s.
(** A step is taken whether there is a pulse or not. *)
Definition append_step (entry : N -> PulseEntry) (s : TuiMode) : TuiMode :=
  let '(step_id, s) := alloc_step_id s in append_turn_entry (entry step_id) s.

Definition push_document_notice (message : str) (severity : NoticeSeverity) (s : TuiMode) : TuiMode :=
  if is_pulse_in_progress s then append_step (fun step => ESystemNotice step message severity) s
  else set_pre_session_notices (pre_session_notices s ++ [message]) s.
Definition push_history_line (line : str) (s : TuiMode) : TuiMode := push_document_notice line Info s.

Definition persist_task_document (s : TuiMode) : TuiMode := log (TaskSaved (persistable_snapshot (task_doc s))) s.
Definition set_doc_status (status : TaskStatus) (s : TuiMode) : TuiMode := with_doc (with_info (set_status status)) s.
Definition set_task_status (status : TaskStatus) (s : TuiMode) : TuiMode := persist_task_document (set_doc_status status s).

(** ** Turns: src/app/pulse.rs *)
Definition clear_approved_steps (s : TuiMode) : TuiMode := with_overlay (set_approved_tool_steps ∅) s.

Definition reset_turn_capture (s : TuiMode) : TuiMode :=
  let s := with_doc (set_active None) s in
  let s := set_stream_uses_structured_final_output false s in
  let s := clear_approved_steps s in
  let s := set_selected_timeline_index 0 s in
  let s := set_timeline_follow_mode true s in
  let s := set_inspector_scroll_offset 0 s in
  let s := set_turn_started_at None s in
  let s := set_ttft None s in
  let s := set_turn_completion_pending false s in
  set_plan_turn_active false s.

Definition begin_turn_capture_with_policy (input : str) (policy : PulseToolPolicy) (t : Moment) : T unit := fun s =>
  let s := reset_turn_capture s in
  d ← begin_turn input (now_millis t) policy (task_doc s);
  let s := set_task_status TRunning (set_task_doc d s) in
  let s := set_transcript_scroll_offset 0 s in
  let s := set_turn_started_at (Some (instant t)) s in
  Returns (tt, set_last_error_message None s).
Definition begin_turn_capture (input : str) (t : Moment) : T unit := begin_turn_capture_with_policy input DefaultPolicy t.

Definition begin_command_session_with_id (session_id : N) (command : str) (s : TuiMode) : TuiMode :=
  let s := with_active (fun a =>
      match command_sessions a !! session_id with
      | Some _ => a
      | None => set_command_sessions
                  (<[session_id := mk_CommandSessionDocument session_id command None t!"running" []]> (command_sessions a)) a
      end) s in
  set_task_status TRunning s.

(** [next_step_id += 1], which wraps in a release build. *)
Definition begin_command_session (command : str) (s : TuiMode) : N * TuiMode :=
  let id := next_step_id (info (task_doc s)) in
  (id, begin_command_session_with_id id command
         (with_doc (with_info (set_next_step (wrap_add u64_max id 1))) s)).

Definition start_command_session (command : str) (t : Moment) : T unit := fun s =>
  '(_, s) ← (if command_session_active s then Returns (tt, s) else begin_turn_capture (t!"!" ++ command) t s);
  let '(session_id, s) := begin_command_session command s in
  Returns (tt, log (CommandSpawned session_id command) s).

(** ** Approvals: src/app/overlay.rs *)
Definition mark_tool_step_approved (step_id : option N) (s : TuiMode) : TuiMode :=
  let s := match step_id with
           | Some step => with_overlay (fun o => set_approved_tool_steps ({[step]} ∪ approved_tool_steps o) o) s
           | None => s
           end in
  set_task_status TRunning s.

Definition resolve_pending_approval (approved : bool) (t : Moment) : T unit := fun s =>
  match ov_pending_approval (overlay s) with
  | None => Returns (tt, s)
  | Some pending =>
      let s := with_overlay (set_ov_pending_approval None) s in
      let s := if approved then mark_tool_step_approved (pa_step_id pending) s else s in
      match pa_action pending with
      | ApproveTool response => Returns (tt, log (Answered response approved) s)
      | ApproveInlineCommand command => if approved then start_command_session command t s else Returns (tt, s)
      end
  end.

Definition resolve_pending_patch_approval (approved : bool) (s : TuiMode) : TuiMode :=
  match ov_pending_patch_approval (overlay s) with
  | None => s
  | Some pending =>
      let s := with_overlay (set_ov_pending_patch_approval None) s in
      let s := match patch_response pending with Some response => log (Answered response approved) s | None => s end in
      push_document_notice (t!"[patch approval " ++ (if approved then t!"accepted" else t!"denied") ++ t!"]") Info s
  end.

Definition pending_context (s : TuiMode) : str :=
  match ov_pending_approval (overlay s) with
  | Some p => summarize_tool_approval_context (pa_tool_name p) (pa_input_preview p)
  | None => t!"unknown"
  end.

(** Without a resume selection, which [handle_resume_selection_input] answers. *)
Definition handle_approval_input (input : str) (t : Moment) : T unit := fun s =>
  let noted message := push_document_notice (message ++ t!": " ++ pending_context s ++ t!"]") Info in
  match parse_approval_selection input with
  | Some ApproveOnce => resolve_pending_approval true t (noted t!"[tool approval accepted once" s)
  | Some ApproveSession =>
      resolve_pending_approval true t
        (noted t!"[tool approval enabled for session" (with_overlay (set_auto_approve_session true) s))
  | Some Deny => resolve_pending_approval false t (noted t!"[tool approval denied" s)
  | None => Returns (tt, push_document_notice t!"[invalid selection, expected 1/2/3]" Info s)
  end.

Definition handle_patch_overlay_input (input : str) (s : TuiMode) : TuiMode :=
  match ov_pending_patch_approval (overlay s) with
  | None => s
  | Some _ =>
      match parse_approval_selection input with
      | Some ApproveOnce => resolve_pending_patch_approval true s
      | Some Deny => resolve_pending_patch_approval false s
      | Some ApproveSession | None => s
      end
  end.

(** *** Commands of the shell: src/app/shell.rs *)
Definition handle_bang_command (command : str) (t : Moment) : T unit := fun s =>
  let command := trim command in
  if is_empty command then Returns (tt, push_history_line t!"[shell] usage: !<command>" s)
  else if auto_approve_session (overlay s) then
    start_command_session command t (push_history_line t!"[auto-approved tool: run_command session]" s)
  else match active_grants (info (task_doc s)) !! RunCommand with
       | Some scope =>
           let s := if bool_decide (scope = Once)
                    then with_doc (with_info (fun i => set_grants (delete RunCommand (active_grants i)) i)) s else s in
           start_command_session command t
             (push_history_line (t!"[auto-approved tool: run_command " ++ scope_to_label scope ++ t!" grant]") s)
       | None =>
           let summary := summarize_tool_approval_context t!"run_command" command in
           let s := push_history_line (t!"[tool approval requested: " ++ summary ++ t!"]") s in
           let s := with_overlay (set_ov_pending_approval (Some (mk_PendingApproval None t!"run_command" command
                                                                  (ApproveInlineCommand command)))) s in
           Returns (tt, set_task_status TAwaitingApproval s)
       end.

(** ** The end of a turn *)
Section ends.
Context {alnum : Alphanumeric} {time : TimeText}.

Definition append_turn_timing_line (s : TuiMode) : TuiMode :=
  match last_turn_duration s with
  | None => s
  | Some total =>
      let tokens n := match n with Some n => t!" (" ++ fmt_N n ++ t!" tok)" | None => [] end in
      let timed arrow ms n := match ms with
                              | Some ms => [[arrow] ++ t!":" ++ milliseconds_text ms ++ t!"s" ++ tokens n]
                              | None => []
                              end in
      let parts :=
        match last_turn_ttft s with Some ttft => [t!"ttft:" ++ seconds_text ttft ++ t!"s"] | None => [] end
        ++ match t ← list.last (completed_turns (task_doc s)); td_timings t with
           | Some timings => timed 8593 (prompt_ms timings) (prompt_n timings)
                             ++ timed 8595 (predicted_ms timings) (predicted_n timings)
           | None => []
           end
        ++ [t!"total:" ++ seconds_text total ++ t!"s"] in
      push_document_notice (t!"[" ++ join t!" | " parts ++ t!"]") Info s
  end.

Definition push_session_note (content : str) (d : TaskDocument) : TaskDocument :=
  mk_TaskDocument (info d) (completed_turns d) (active_pulse d)
    (session_notes d ++ [mk_SessionNote content (N.of_nat (length (completed_turns d)))]) (context_compaction d)
    (session_tasks d) (last_error d).

(** The last final block with something in it. *)
Definition plan_text (entries : list PulseEntry) : option str :=
  find_map (fun e => match e with
                     | EAssistantBlock _ b =>
                         if negb (phase_is_thinking b) && negb (is_empty (trim (content b))) then Some (content b) else None
                     | _ => None
                     end) (reverse entries).

Definition is_notice (e : PulseEntry) : bool := match e with ESystemNotice _ _ _ => true | _ => false end.
Definition has_content (a : ActiveTurnDocument) : bool :=
  negb (is_empty (trim (at_input a))) || existsb (fun e => negb (is_notice e)) (at_entries a).

Definition write_working_set_sidecar (t : Moment) (s : TuiMode) : option WorkingSetRecord * TuiMode :=
  let '(record, file) := write_working_set (task_doc s) (now_millis t) (working_set_file s) in
  (record, set_working_set_file file s).

Definition note_plan (s : TuiMode) : TuiMode :=
  if plan_turn_active s then
    match a ← active_pulse (task_doc s); plan_text (at_entries a) with
    | Some plan => with_doc (push_session_note (t!"[plan] " ++ plan)) s
    | None => s
    end
  else s.

Definition commit_completed_turn (t : Moment) (s : TuiMode) : TuiMode :=
  let s := note_plan s in
  if negb (opt_b has_content (active_pulse (task_doc s))) then
    reset_turn_capture (set_task_status TCompleted s)
  else
    let s := set_last_turn_duration (elapsed t <$> turn_started_at s) s in
    let s := set_last_turn_ttft (ttft s) s in
    let s := set_last_error_message None s in
    let s := with_doc (fun d => (finish_turn OutcomeCompleted (last_pulse t) (now_millis t) d).2) s in
    let s := persist_task_document s in
    let s := (write_working_set_sidecar t s).2 in
    let s := set_transcript_scroll_offset 0 s in
    let s := set_inspector_scroll_offset 0 s in
    reset_turn_capture s.

Definition maybe_extract_auto_memory (t : Moment) (s : TuiMode) : TuiMode :=
  if negb (auto_memory_enabled s) then s
  else match list.last (completed_turns (task_doc s)) with
       | None => s
       | Some turn =>
           let input := td_input turn in
           let response := extract_assistant_response (td_entries turn) in
           if is_empty (trim input) && is_empty (trim response) then s
           else
             let found := extract_notes_from_turn input response (auto_memory_max_notes s) in
             if bool_decide (found = []) then s
             else
               let formatted := format_auto_notes found (timestamp_seconds t) in
               match notes_path s with
               | None => s
               | Some _ =>
                   let '(result, disk) := append_feedback_notes formatted (notes_disk s) in
                   let s := set_notes_disk disk s in
                   match result with
                   | inl _ =>
                       let turn_index := N.of_nat (length (completed_turns (task_doc s))) in
                       let s := with_doc (fun d => foldl (fun d note => push_session_note note d) d formatted) s in
                       let s := persist_task_document s in
                       push_document_notice (t!"[memory] auto: " ++ fmt_N (N.of_nat (length formatted)) ++ t!" note(s) saved") Info s
                   | inr e => push_document_notice (t!"[memory] auto extraction error: " ++ e) Warning s
                   end
               end
       end.

(** What is left of [complete_turn_if_idle] once what was asked is denied. *)
Definition complete_turn (t : Moment) (s : TuiMode) : TuiMode :=
  let s := maybe_extract_auto_memory t (append_turn_timing_line (commit_completed_turn t s)) in
  let s := set_read_only_turn_active false (with_active (set_cancel_pending false) s) in
  set_inspector_scroll_offset 0 (set_transcript_scroll_offset 0 (set_turn_completion_pending false s)).

(** The result is whether the turn was completed. *)
Definition complete_turn_if_idle (t : Moment) : T bool := fun s =>
  if negb (turn_completion_pending s) || command_session_active s then Returns (false, s)
  else
    '(_, s) ← resolve_pending_approval false t (set_last_error_message None s);
    Returns (true, complete_turn t (resolve_pending_patch_approval false s)).
End ends.
