(* ===== verification/TerminalUpdates.v ===== *)
(** The updates of a pulse as the terminal interface takes them, and the interrupt of the user:
    [on_model_update] of src/app/model_update.rs and [on_interrupt] of src/app/input.rs. *)
From Stdlib Require Import NArith ZArith Lia.
From stdpp Require Import base list gmap strings numbers sets.
From S2P Require Import Prelude Text ByteIndex InputMetrics Collections Json Usage Evidence PeerChannel Envelope ToolPreview TaskDocument TaskSnapshot ToolRules ConversationState Validation RuntimeContext EditLoop Memory Transcript TerminalState Terminal.
#[local] Open Scope N_scope.

(** ** Entries *)
Definition set_block_content (c : str) (b : AssistantBlockEntry) : AssistantBlockEntry :=
  mk_AssistantBlockEntry (block_index b) (phase b) c (collapsed b) (streaming b).
Definition set_block_streaming (v : bool) (b : AssistantBlockEntry) : AssistantBlockEntry :=
  mk_AssistantBlockEntry (block_index b) (phase b) (content b) (collapsed b) v.
Definition push_content (delta : str) (b : AssistantBlockEntry) : AssistantBlockEntry :=
  set_block_content (content b ++ delta) b.

(** [entries.iter_mut().rev().any(..)]: the last entry that is changed. *)
Fixpoint update_last_entry (f : PulseEntry -> option PulseEntry) (entries : list PulseEntry) : option (list PulseEntry) :=
  match entries with
  | [] => None
  | e :: r =>
      match update_last_entry f r with
      | Some r => Some (e :: r)
      | None => match f e with Some e => Some (e :: r) | None => None end
      end
  end.

Definition on_block (p : AssistantBlockEntry -> bool) (f : AssistantBlockEntry -> AssistantBlockEntry) (e : PulseEntry)
    : option PulseEntry :=
  match e with
  | EAssistantBlock step b => if p b then Some (EAssistantBlock step (f b)) else None
  | _ => None
  end.
Definition on_call (call_id : str) (name : option str) (arguments : value) (e : PulseEntry) : option PulseEntry :=
  match e with
  | EToolCall step id old _ status =>
      if str_eqb id call_id then Some (EToolCall step id (unwrap_or name old) arguments status) else None
  | _ => None
  end.

Definition is_final (b : AssistantBlockEntry) : bool := negb (phase_is_thinking b).

(** The block that a block that starts takes over: the last entry. *)
Definition continue_last_block (takes : AssistantBlockEntry -> bool) (f : AssistantBlockEntry -> AssistantBlockEntry)
    (entries : list PulseEntry) : option (list PulseEntry) :=
  match reverse entries with
  | e :: r => match on_block takes f e with Some e => Some (reverse r ++ [e]) | None => None end
  | [] => None
  end.

(** [if !content.is_empty() { block.content = content }]. *)
Definition start_block (index : N) (phase : AssistantPhase) (collapsed : bool) (c : str) (b : AssistantBlockEntry)
    : AssistantBlockEntry :=
  mk_AssistantBlockEntry index phase (if is_empty c then content b else c) collapsed true.

(** Changes the entries of the pulse, and says whether there was something to change. *)
Definition try_entries (f : list PulseEntry -> option (list PulseEntry)) (s : TuiMode) : bool * TuiMode :=
  match active_pulse (task_doc s) with
  | Some a => match f (at_entries a) with
              | Some entries => (true, with_active (set_entries entries) s)
              | None => (false, s)
              end
  | None => (false, s)
  end.

Section updates.
Context {js : SerdeJson} {pretty : PrettyJson} {diff : LineDiff}.
Context {cw : CharWidth} {seg : Segmentation} {wrap : TextWrap} {ansi : AnsiText}.
Context {alnum : Alphanumeric} {time : TimeText}.

(** [pending_tool_step_id]: the call that is previewed like this, or else the first of its name. *)
Definition call_step (tool_name : str) (accept : str -> value -> bool) (e : PulseEntry) : option N :=
  match e with
  | EToolCall step_id _ name input _ => if str_eqb name tool_name && accept name input then Some step_id else None
  | _ => None
  end.
Definition min_step (steps : list N) : option N :=
  match steps with [] => None | x :: r => Some (foldr N.min x r) end.
Definition pending_tool_step_id (tool_name input_preview : str) (s : TuiMode) : option N :=
  a ← active_pulse (task_doc s);
  match find_map (call_step tool_name (fun name input => str_eqb (structured_preview name input) input_preview)) (at_entries a) with
  | Some step => Some step
  | None => min_step (omap (call_step tool_name (fun _ _ => true)) (at_entries a))
  end.

Definition running_if_active (s : TuiMode) : TuiMode := if is_pulse_in_progress s then set_doc_status TRunning s else s.

(** [ttft] is kept of the first text. *)
Definition note_first_text (t : Moment) (s : TuiMode) : TuiMode :=
  match ttft s, turn_started_at s with
  | None, Some started =>
      with_active (TaskDocument.set_ttft (Some (as_millis (elapsed t started)))) (set_ttft (Some (elapsed t started)) s)
  | _, _ => s
  end.

Definition grown (previous_output_len : N) (s : TuiMode) : TuiMode :=
  preserve_transcript_scroll_on_growth previous_output_len (clamp_transcript_after_mutation s).

Definition MAX_TRANSCRIPT_LINE_CHARS : N := 512.

Definition on_transcript_line (line : str) : T unit := fun s =>
  let previous_output_len := expanded_output_row_count s in
  let s := running_if_active s in
  clipped ← (if MAX_TRANSCRIPT_LINE_CHARS <? blen line then
               head ← byte_slice 0 MAX_TRANSCRIPT_LINE_CHARS line;
               Returns (head ++ t!"... (+" ++ fmt_N (blen line - MAX_TRANSCRIPT_LINE_CHARS) ++ t!" more chars omitted)")
             else Returns line);
  Returns (tt, preserve_transcript_scroll_on_growth previous_output_len (push_document_notice clipped Info s)).

Definition on_stream_delta (text : str) (t : Moment) (s : TuiMode) : TuiMode :=
  let previous_output_len := expanded_output_row_count s in
  if is_cancel_pending s || stream_uses_structured_final_output s then s
  else
    let s := note_first_text t (running_if_active s) in
    let '(appended, s) := try_entries (update_last_entry (on_block (fun b => streaming b && is_final b) (push_content text))) s in
    let s := if negb appended && is_pulse_in_progress s
             then append_step (fun step => EAssistantBlock step (mk_AssistantBlockEntry usize_max PhaseFinal text false true)) s
             else s in
    grown previous_output_len s.

Definition on_server_metadata (metadata : StreamChunkMetadata) (s : TuiMode) : TuiMode :=
  if is_cancel_pending s then s
  else with_active (fun a =>
      set_metadata
        match md_prompt_progress metadata with Some p => Some p | None => prompt_progress a end
        match md_timings metadata with Some p => Some p | None => at_timings a end a) s.

(** *** Blocks that start *)
Definition start_or_append (takes : AssistantBlockEntry -> bool) (index : N) (phase : AssistantPhase) (collapsed : bool)
    (content : str) (s : TuiMode) : TuiMode :=
  let '(updated, s) := try_entries (continue_last_block takes (start_block index phase collapsed content)) s in
  if updated then s
  else append_step (fun step => EAssistantBlock step (mk_AssistantBlockEntry index phase content collapsed true)) s.

Definition start_tool_call (id name : str) (input : value) (status : ToolStatus) (s : TuiMode) : TuiMode :=
  let '(exists_, s) := try_entries (update_call_status id status) s in
  if exists_ then s
  else
    let s := append_step (fun step => EToolCall step id name input Envelope.Pending) s in
    if timeline_follow_mode s
    then set_inspector_scroll_offset 0 (set_selected_timeline_index (sat_sub (timeline_entry_count s) 1) s)
    else s.

(** The call a result belongs to, from the end. *)
Definition call_of (call_id : str) (e : PulseEntry) : option (str * value) :=
  match e with EToolCall _ id name input _ => if str_eqb id call_id then Some (name, input) else None | _ => None end.

Definition finish_tool_call (call_id output : str) (is_error : bool) (s : TuiMode) : TuiMode :=
  let s := (try_entries (update_call_status call_id (if is_error then Envelope.Error else Complete)) s).2 in
  let s :=
    if is_error then s
    else match a ← active_pulse (task_doc s); find_map (call_of call_id) (reverse (at_entries a)) with
         | Some (name, input) =>
             let changed := note_changed_files_from_tool_call [] name input in
             if bool_decide (changed = []) then s
             else with_active (fun a => set_changed_files (foldl (fun l p => set_insert p l) (at_changed_files a) changed) a)
                    (set_file_prompt_entries None s)
         | None => s
         end in
  append_step (fun step => EToolResult step call_id None output is_error) s.

Definition on_block_start (index : N) (block : StreamBlock) (t : Moment) (s : TuiMode) : TuiMode :=
  let s := running_if_active s in
  let previous_output_len := expanded_output_row_count s in
  grown previous_output_len
    match block with
    | FinalText content =>
        let s := note_first_text t (set_stream_uses_structured_final_output true s) in
        start_or_append (fun b => (block_index b =? index) || ((block_index b =? usize_max) && is_final b))
          index PhaseFinal false content s
    | Thinking content collapsed =>
        start_or_append (fun b => block_index b =? index) index PhaseThinking collapsed content s
    | ToolCall id name input status => start_tool_call id name input status s
    | ToolResult call_id output is_error => finish_tool_call call_id output is_error s
    end.

Definition on_block_delta (index : N) (delta : str) (s : TuiMode) : TuiMode :=
  let '(found, s) := try_entries (update_last_entry (on_block (fun b => block_index b =? index) (push_content delta))) s in
  clamp_transcript_after_mutation (if found then set_stream_uses_structured_final_output true s else s).

Definition on_arguments (call_id : str) (name : option str) (arguments : value) (s : TuiMode) : TuiMode :=
  let previous_output_len := expanded_output_row_count s in
  grown previous_output_len (try_entries (update_last_entry (on_call call_id name arguments)) s).2.

Definition on_block_complete (index : N) (s : TuiMode) : TuiMode :=
  (try_entries (update_last_entry (on_block (fun b => block_index b =? index) (set_block_streaming false))) s).2.

(** *** Requests for an approval *)
Definition deny_pending (t : Moment) : T unit := fun s =>
  '(_, s) ← resolve_pending_approval false t s; Returns (tt, resolve_pending_patch_approval false s).

Definition auto_approve (tool_name input_preview how : str) (response : N) (s : TuiMode) : TuiMode :=
  let s := mark_tool_step_approved (pending_tool_step_id tool_name input_preview s) s in
  push_document_notice (t!"[approval] " ++ tool_name ++ t!" auto-approved " ++ how) Info (log (Answered response true) s).

(** The grant that covers a tool. *)
Definition grant_for (tool_name : str) (s : TuiMode) : option (Capability * ApprovalScope) :=
  capability ← capability_for_tool_name tool_name;
  scope ← active_grants (info (task_doc s)) !! capability;
  Some (capability, scope).

(** [compact_preview_text]. *)
Definition compact_preview_text (text : str) : str :=
  let compact := join t!" " (List.filter (fun line => negb (is_empty line)) (map trim (lines text))) in
  if is_empty compact || (blen compact <=? 60) then compact else cut_summary compact.

Definition ask_approval (tool_name input_preview : str) (response : N) (s : TuiMode) : TuiMode :=
  let summary := summarize_tool_approval_context tool_name input_preview in
  let step_id := pending_tool_step_id tool_name input_preview s in
  let previous_output_len := expanded_output_row_count s in
  let s := push_document_notice (t!"[approval] " ++ summary ++ DOT ++ t!"awaiting approval") Info s in
  let compact := compact_preview_text input_preview in
  let s := if is_empty compact then s else push_document_notice (t!"[approval_detail] Input: " ++ compact) Info s in
  let s := preserve_transcript_scroll_on_growth previous_output_len s in
  let s := with_overlay (set_ov_pending_approval (Some (mk_PendingApproval step_id tool_name input_preview
                                                          (ApproveTool response)))) s in
  set_task_status TAwaitingApproval s.

Definition on_tool_approval_request (request : ToolApprovalRequest) (response : N) (t : Moment) : T unit := fun s =>
  let tool_name := tar_tool_name request in
  let input_preview := tar_input_preview request in
  if is_cancel_pending s then Returns (tt, log (Answered response false) s)
  else
    '(_, s) ← deny_pending t s;
    Returns (tt,
      if read_only_turn_active s then log (Answered response false) s
      else if auto_approve_session (overlay s) then auto_approve tool_name input_preview t!"for session" response s
      else match grant_for tool_name s with
           | Some (capability, scope) =>
               let s := if bool_decide (scope = Once)
                        then with_doc (with_info (fun i => set_grants (delete capability (active_grants i)) i)) s else s in
               auto_approve tool_name input_preview (t!"via " ++ scope_to_label scope ++ t!" grant") response s
           | None => ask_approval tool_name input_preview response s
           end).

(** *** The ends of a pulse *)
Definition outcome_line (outcome : EditLoopOutcome) : str * NoticeSeverity :=
  match outcome with
  | Success patch_applied validate_passed =>
      let show (b : bool) := if b then t!"true" else t!"false" in
      (t!"[edit loop complete: patch_applied=" ++ show patch_applied ++ t!" validate_passed=" ++ show validate_passed ++ t!"]", Info)
  | LoopMaxTurnsReached (Some e) =>
      (t!"[edit loop reached max pulses " ++ [EM_DASH] ++ t!" last error: " ++ e ++ t!"]", Warning)
  | LoopMaxTurnsReached None => (t!"[edit loop reached max pulses]", Warning)
  | ApprovalDenied => (t!"[edit loop aborted: approval denied]", Warning)
  | Cancelled => (t!"[edit loop cancelled]", Info)
  end.
Definition pulse_outcome (outcome : EditLoopOutcome) : PulseOutcome :=
  match outcome with
  | Success _ _ => OutcomeCompleted
  | LoopMaxTurnsReached _ => OutcomeMaxTurnsReached
  | ApprovalDenied | Cancelled => OutcomeCancelled
  end.

Definition clear_sessions (s : TuiMode) : TuiMode := with_active (set_command_sessions ∅) s.
Definition note_duration (t : Moment) (s : TuiMode) : TuiMode :=
  set_last_turn_duration (elapsed t <$> turn_started_at s) s.
Definition finish_pulse (outcome : PulseOutcome) (t : Moment) (s : TuiMode) : TuiMode :=
  with_doc (fun d => (finish_turn outcome (last_pulse t) (now_millis t) d).2) s.

Definition note_validation (result : option ValidationResult) (s : TuiMode) : TuiMode :=
  match result, active_edit_loop s with
  | Some result, Some edit_loop => set_active_edit_loop (Some (set_last_validation_result result edit_loop)) s
  | _, _ => s
  end.

(** What is left once what was asked is denied. *)
Definition close_edit_loop (outcome : EditLoopOutcome) (t : Moment) (s : TuiMode) : TuiMode :=
  let s := with_active (set_cancel_pending false) s in
  let '(line, severity) := outcome_line outcome in
  let s := note_duration t (push_document_notice line severity s) in
  let s := append_turn_timing_line (set_last_turn_ttft (ttft s) s) in
  let s := if is_pulse_in_progress s then
             let s := finish_pulse (pulse_outcome outcome) t s in
             let s := match outcome with Success _ _ => set_doc_status TCompleted s | _ => s end in
             reset_turn_capture (persist_task_document s)
           else s in
  let s := set_inspector_scroll_offset 0 (set_transcript_scroll_offset 0 (clamp_transcript_after_mutation s)) in
  set_turn_completion_pending false (set_read_only_turn_active false s).

Definition on_edit_loop_complete (outcome : EditLoopOutcome) (last_validation_result : option ValidationResult) (t : Moment)
    : T unit := fun s =>
  '(_, s) ← deny_pending t (note_validation last_validation_result (set_last_error_message None (clear_sessions s)));
  Returns (tt, close_edit_loop outcome t s).

Definition close_failed (message : str) (t : Moment) (s : TuiMode) : TuiMode :=
  let s := set_last_error_message (Some message) (note_duration t s) in
  let s := with_active (set_cancel_pending false) (push_document_notice message SevereError s) in
  let s := set_inspector_scroll_offset 0 (set_transcript_scroll_offset 0 (set_read_only_turn_active false s)) in
  let s := set_task_status TFailed (finish_pulse (OutcomeFailed message) t s) in
  reset_turn_capture (set_turn_completion_pending false s).

Definition on_error (message : str) (t : Moment) : T unit := fun s =>
  '(_, s) ← deny_pending t (clear_sessions s); Returns (tt, close_failed message t s).

Definition push_compaction (r : ContextCompactionRecord) (d : TaskDocument) : TaskDocument :=
  mk_TaskDocument (info d) (completed_turns d) (active_pulse d) (session_notes d) (context_compaction d ++ [r])
    (session_tasks d) (last_error d).

(** [response] is the channel of a request for an approval. *)
Definition on_model_update (update : UiUpdate) (response : N) (t : Moment) : T unit := fun s =>
  match update with
  | UiTranscriptLine line => on_transcript_line line s
  | UiStreamDelta text => Returns (tt, on_stream_delta text t s)
  | UiServerMetadata metadata => Returns (tt, on_server_metadata metadata s)
  | UiBlockStart index block => Returns (tt, on_block_start index block t s)
  | UiBlockDelta index delta => Returns (tt, on_block_delta index delta s)
  | UiToolCallArgumentsUpdated call_id name arguments => Returns (tt, on_arguments call_id name arguments s)
  | UiBlockComplete index => Returns (tt, on_block_complete index s)
  | UiToolApprovalRequest request => on_tool_approval_request request response t s
  | UiEditLoopComplete outcome result => on_edit_loop_complete outcome result t s
  | UiCommandSessionStarted session_id command => Returns (tt, begin_command_session_with_id session_id command s)
  | UiCommandSessionAttached session_id pid =>
      Returns (tt, with_active (fun a => set_command_sessions
        (alter (fun c => mk_CommandSessionDocument (TaskDocument.session_id c) (TaskDocument.command c) pid (cs_status c) (output_tail c))
           session_id (command_sessions a)) a) s)
  | UiCommandSessionFinished session_id =>
      '(_, s) ← complete_turn_if_idle t (with_active (fun a => set_command_sessions (delete session_id (command_sessions a)) a) s);
      Returns (tt, s)
  | UiPulseComplete =>
      '(_, s) ← complete_turn_if_idle t (set_turn_completion_pending true s); Returns (tt, s)
  | UiContextCompacted before after summary =>
      Returns (tt, with_doc (fun d => push_compaction
        (mk_ContextCompactionRecord (N.of_nat (length (completed_turns d))) before after summary) d) s)
  | UiError message => on_error message t s
  end.

(** ** Interrupts: [on_interrupt] of src/app/input.rs *)
Definition request_cancel (s : TuiMode) : TuiMode :=
  let s := with_active (set_cancel_pending true) s in
  let s :=
    if command_session_active s then
      let cancelling c := mk_CommandSessionDocument (TaskDocument.session_id c) (TaskDocument.command c) (pid c)
                            t!"cancelling" (output_tail c) in
      let s := with_active (fun a => set_command_sessions (cancelling <$> command_sessions a) a) s in
      push_history_line t!"[command session cancellation requested]" (set_task_status TCancelling s)
    else push_history_line t!"[pulse cancellation requested]" s in
  set_quit_requested false (set_pending_quit false s).

Definition on_interrupt (t : Moment) : T unit := fun s =>
  if is_pulse_in_progress s then
    if is_cancel_pending s then Returns (tt, s)
    else '(_, s) ← deny_pending t (log PulseCancelled s); Returns (tt, request_cancel s)
  else if pending_quit s then Returns (tt, set_quit_requested true s)
  else Returns (tt, push_history_line t!"[press Ctrl+C again to exit]" (set_pending_quit true s)).
End updates.
