(* ===== verification/TerminalCommands.v ===== *)
(** The commands of the terminal interface that change the session: turns that are started,
    grants, sessions that are opened, resumed, forked and compacted, notes, the validation that is
    shown, and the answers to an overlay: src/app/commands/*.rs, src/app/pulse.rs,
    src/app/pulse_start.rs, src/app/overlay.rs, src/app/input.rs and src/app/util.rs.

    What is read from the disk, the identifiers that are made from the clock and the prompts that
    are rendered from files are arguments. *)
From Stdlib Require Import NArith ZArith Lia.
From stdpp Require Import base list gmap strings numbers sets.
From S2P Require Import Prelude Text ByteIndex InputMetrics Collections Json Usage Evidence PeerChannel Envelope ToolPreview TaskDocument TaskSnapshot ToolRules ConversationState Validation RuntimeContext EditLoop Memory Transcript TerminalState Terminal TerminalUpdates.
#[local] Open Scope N_scope.

(** ** Turns: src/app/pulse_start.rs and src/app/commands/code.rs *)
Definition start_single_turn_with_policy (rendered : str) (read_only : bool) (prompt : option str) (policy : PulseToolPolicy)
    (shared : option str) (t : Moment) : T unit := fun s =>
  '(_, s) ← begin_turn_capture_with_policy rendered policy t (set_read_only_turn_active read_only s);
  Returns (tt, log (PulseStarted rendered prompt policy shared) s).
Definition start_single_turn (rendered : str) (read_only : bool) (prompt shared : option str) (t : Moment) : T unit :=
  start_single_turn_with_policy rendered read_only prompt DefaultPolicy shared t.

(** [handle_plan_command] from an instruction whose prompt is rendered. *)
Definition start_plan (prompt : str) (system_prompt shared : option str) (t : Moment) : T unit := fun s =>
  start_single_turn prompt true system_prompt shared t (set_plan_turn_active true s).

Definition grant_task (granted : list str * TaskDocument) (capability : Capability) : list str * TaskDocument :=
  let '(names, d) := granted in
  match active_grants (info d) !! capability with
  | Some Task | Some Session => granted
  | Some Once | None =>
      (names ++ [capability_to_kebab capability],
       with_info (fun i => set_grants (<[capability := Task]> (active_grants i)) i) d)
  end.
Definition grant_task_capabilities (capabilities : list Capability) (source : str) (s : TuiMode) : TuiMode :=
  let '(names, d) := foldl grant_task ([], task_doc s) capabilities in
  let s := set_task_doc d s in
  if bool_decide (names = []) then s
  else push_history_line (t!"[permissions: " ++ source ++ t!" task grants " ++ join t!", " names ++ t!"]") s.

Definition EDIT_CAPABILITIES : list Capability := [WriteFile; ApplyPatch; RunCommand].
Definition EDIT_ACTIVE : str :=
  t!"[edit loop already active " ++ [EM_DASH] ++ t!" cancel with Ctrl+C before starting a new task]".

Definition edit_loop_running (s : TuiMode) : bool := opt_is_some (active_edit_loop s) && is_pulse_in_progress s.

Definition begin_edit (instruction source : str) (edit_loop : EditLoop) (t : Moment) : T unit := fun s =>
  let s := grant_task_capabilities EDIT_CAPABILITIES source s in
  '(_, s) ← begin_turn_capture instruction t (set_active_edit_loop (Some edit_loop) s);
  Returns (tt, log (EditLoopStarted edit_loop instruction) s).

(** [expanded] is the instruction with its files put in, and [edit_loop] the new loop. *)
Definition handle_edit_command (instruction expanded : str) (edit_loop : EditLoop) (t : Moment) : T unit := fun s =>
  if edit_loop_running s then Returns (tt, push_history_line EDIT_ACTIVE s)
  else if is_empty instruction then Returns (tt, push_history_line t!"[edit] usage: /edit <instruction>" s)
  else begin_edit expanded t!"/edit" edit_loop t s.

Definition fix_instruction (r : ValidationResult) : str :=
  match List.find (fun o => negb (exit_code o =? 0)%Z) (outputs r) with
  | Some o => t!"fix the " ++ Validation.vo_label o ++ t!" failure"
  | None => t!"fix the validation failure"
  end.
Definition handle_fix_command (edit_loop : EditLoop) (t : Moment) : T unit := fun s =>
  if edit_loop_running s then Returns (tt, push_history_line EDIT_ACTIVE s)
  else
    let last_result := l ← active_edit_loop s; last_validation_result l in
    match last_result with
    | Some result =>
        if passed result
        then Returns (tt, push_history_line (t!"[no recent validation failure in this session " ++ [EM_DASH]
                                             ++ t!" run /edit or /test first]") s)
        else begin_edit (fix_instruction result) t!"/fix" edit_loop t s
    | None => Returns (tt, push_history_line (t!"[no recent validation failure in this session " ++ [EM_DASH]
                                              ++ t!" run /edit or /test first]") s)
    end.

(** ** Grants: src/app/commands/session.rs *)
Definition handle_permissions_command (s : TuiMode) : TuiMode :=
  foldl (fun s cap =>
      let scope_label := match active_grants (info (task_doc s)) !! cap with
                         | Some scope => scope_to_label scope | None => t!"(none)" end in
      push_history_line (t!"  " ++ capability_to_kebab cap ++ t!"  " ++ scope_label) s)
    (push_history_line t!"[permissions]" s) ALL_CAPABILITIES.

(** [splitn(2, ' ')], trimmed. *)
Definition two_words (rest : str) : str * str :=
  match split_once t!" " rest with Some (a, b) => (trim a, trim b) | None => (trim rest, []) end.

Definition handle_allow_command (rest : str) (s : TuiMode) : TuiMode :=
  if is_empty rest then push_history_line t!"[allow: usage: /allow <capability> [once|session]]" s
  else
    let '(cap_str, scope_str) := two_words rest in
    match kebab_to_capability cap_str with
    | None => push_history_line (t!"[allow: unknown capability '" ++ cap_str ++ t!"']") s
    | Some cap =>
        match (if is_empty scope_str then Some Once else kebab_to_scope scope_str) with
        | None => push_history_line (t!"[allow: unknown scope '" ++ scope_str ++ t!"'; valid: once | session]") s
        | Some scope =>
            push_history_line (t!"[allow: " ++ cap_str ++ t!" granted for " ++ scope_to_label scope ++ t!"]")
              (with_doc (with_info (fun i => set_grants (<[cap := scope]> (active_grants i)) i)) s)
        end
    end.

Definition handle_deny_command (rest : str) (s : TuiMode) : TuiMode :=
  if is_empty rest then push_history_line t!"[deny: usage: /deny <capability>]" s
  else
    let cap_str := trim rest in
    match kebab_to_capability cap_str with
    | None => push_history_line (t!"[deny: unknown capability '" ++ cap_str ++ t!"']") s
    | Some cap =>
        match active_grants (info (task_doc s)) !! cap with
        | Some _ => push_history_line (t!"[deny: " ++ cap_str ++ t!" removed]")
                      (with_doc (with_info (fun i => set_grants (delete cap (active_grants i)) i)) s)
        | None => push_history_line (t!"[deny: " ++ cap_str ++ t!" not in active grants]") s
        end
    end.

(** [handle_model_command]; [busy] is the error of a conversation that is in use. *)
Definition handle_model_command (name : str) (busy : option str) (s : TuiMode) : TuiMode :=
  if is_empty name then push_history_line (t!"[model] " ++ tui_model_name s) s
  else
    let target_is_local := starts_with t!"local/" name in
    let current_is_local := match tui_model_backend s with LocalRuntime => true | ApiServer => false end in
    if negb (Bool.eqb target_is_local current_is_local) then
      push_history_line (t!"[model] rejected: '" ++ name ++ t!"' requires "
        ++ (if target_is_local then t!"local-runtime" else t!"api-server") ++ t!" backend (current: "
        ++ (if current_is_local then t!"LocalRuntime" else t!"ApiServer")
        ++ t!"). Restart vex with the desired backend.") s
    else match busy with
         | Some error => push_history_line (t!"[model] error: " ++ error) s
         | None => push_history_line (t!"[model] " ++ tui_model_name s ++ t!" -> " ++ name) (set_tui_model_name name s)
         end.

(** ** Sessions *)
Definition reset_session_surface (s : TuiMode) : TuiMode :=
  let s := clear_sessions (set_pre_session_notices [] s) in
  let s := set_inspector_scroll_offset 0 (set_transcript_scroll_offset 0 s) in
  reset_turn_capture (set_turn_completion_pending false (set_read_only_turn_active false s)).

Definition reset_conversation_window (s : TuiMode) : TuiMode := reset_session_surface (log ConversationCleared s).

(** A task that has just been made has no working set. *)
Definition open_task (i : TaskInfo) (s : TuiMode) : TuiMode := set_working_set_file Absent (set_task_doc (begin_task i) s).

Definition handle_new_command (new_id : str) (started updated : N) (s : TuiMode) : TuiMode :=
  let s := persist_task_document s in
  let s := open_task (mk_TaskInfo new_id TRunning None None None None (instructions_path s) (tui_model_name s)
             (tui_model_backend s) (tui_model_url s) (Some started) updated None ∅ 0) s in
  let s := log SessionTokensReset (set_active_edit_loop None s) in
  push_history_line (t!"[new session: " ++ new_id ++ t!"]") (reset_conversation_window s).

(** [sanitize_task_label]: the state is the text and whether it ends in a dash that was put there. *)
Definition label_char (st : str * bool) (ch : char) : str * bool :=
  let '(out, last_was_dash) := st in
  let normalized :=
    if is_ascii_alphanumeric ch then Some (to_ascii_lower ch)
    else if contains_char ch t!"-_ " then Some 45 else None in
  match normalized with
  | None => st
  | Some ch =>
      if ch =? 45 then if is_empty out || last_was_dash then st else (out ++ [ch], true)
      else (out ++ [ch], false)
  end.
Definition sanitize_task_label (label : str) : str := trim_char 45 (foldl label_char ([], false) (trim label)).1.

(** [save_error] is that of the parent, and [new_task] the identifier made from the clock. *)
Definition handle_fork_command (label new_task : str) (save_error : option str) (started updated : N) (s : TuiMode) : TuiMode :=
  let s := persist_task_document s in
  match save_error with
  | Some error => push_history_line (t!"[fork] save failed: " ++ error) s
  | None =>
      let sanitized_label := sanitize_task_label label in
      let new_id := new_task ++ t!"-" ++ (if is_empty sanitized_label then t!"fork" else sanitized_label) in
      let i := info (task_doc s) in
      let parent_id := ti_id i in
      let s := open_task (mk_TaskInfo new_id (ti_status i) (Some parent_id) None None None (instructions_path s)
                 (tui_model_name s) (tui_model_backend s) (tui_model_url s) (Some started) updated None
                 (active_grants i) (next_step_id i)) s in
      push_history_line (t!"[fork: " ++ new_id ++ t!" branched from " ++ parent_id ++ t!"]") (reset_conversation_window s)
  end.

Definition clear_completed_turns (d : TaskDocument) : TaskDocument :=
  mk_TaskDocument (info d) [] (active_pulse d) (session_notes d) (context_compaction d) (session_tasks d) (last_error d).

Definition handle_compact_command (t : Moment) (s : TuiMode) : TuiMode :=
  let task_id := ti_id (info (task_doc s)) in
  let turns_before := N.of_nat (length (completed_turns (task_doc s))) in
  let s := log SessionTokensReset (set_active_edit_loop None s) in
  let '(written, s) := write_working_set_sidecar t s in
  let s := with_doc (push_compaction (mk_ContextCompactionRecord turns_before turns_before 0
             (t!"/compact: cleared " ++ fmt_N turns_before ++ t!" completed pulse(s)"))) s in
  let s := persist_task_document (with_doc clear_completed_turns s) in
  let s := log (match written with Some record => ConversationSeeded record | None => ConversationCleared end) s in
  push_history_line (t!"[compacted: " ++ fmt_N turns_before ++ t!" pulse(s) cleared; task " ++ task_id ++ t!" continues]")
    (reset_session_surface s).

(** [{:?}] of a status. *)
Definition status_debug (status : TaskStatus) : str :=
  match status with
  | TReady => t!"Ready" | TRunning => t!"Running" | TAwaitingApproval => t!"AwaitingApproval"
  | TCancelling => t!"Cancelling" | TCompleted => t!"Completed" | TFailed => t!"Failed"
  | TCancelled => t!"Cancelled" | TMaxTurnsReached => t!"MaxTurnsReached"
  end.

Definition set_doc_instructions (p : option str) (i : TaskInfo) : TaskInfo :=
  mk_TaskInfo (ti_id i) (ti_status i) (ti_parent_task_id i) (ti_agent_id i) (ti_worktree_path i) (ti_branch_name i)
    p (model_name i) (model_backend i) (model_url i) (ti_started_at_ms i)
    (ti_updated_at_ms i) (ti_last_heartbeat_ms i) (active_grants i) (next_step_id i).

(** The working set that is found for the task, and the text of the error of one that cannot be
    loaded. *)
Definition seed_next_request_from_working_set (found : Sidecar) (load_error : str) (s : TuiMode) : TuiMode :=
  let s := log (match found with Saved record => ConversationSeeded record | Absent | Unloadable => ConversationCleared end)
             (set_working_set_file found s) in
  let s := reset_session_surface s in
  match found with
  | Unloadable => push_document_notice (t!"[resume] working-set load failed: " ++ load_error) Warning s
  | Absent | Saved _ => s
  end.

Definition apply_resumed_task (state : TaskState) (found : Sidecar) (load_error : str) (s : TuiMode) : TuiMode :=
  let s := set_task_doc (restore_from_snapshot state) s in
  let s := match ti_instructions_path (info (task_doc s)) with
           | Some path => set_instructions_path (Some path) s
           | None => with_doc (with_info (set_doc_instructions (instructions_path s))) s
           end in
  let s := log SessionTokensReset (set_active_edit_loop None s) in
  push_document_notice (t!"[resumed: " ++ ts_id state ++ t!" status=" ++ status_debug (ts_status state) ++ t!"]") Info
    (seed_next_request_from_working_set found load_error s).

Definition prompt_resume_selection (entries : list ResumeTaskEntry) (s : TuiMode) : TuiMode :=
  let s := push_document_notice t!"[resume] choose a task to resume:" Info s in
  let lines := imap (fun index e => t!"  " ++ fmt_N (N.of_nat index + 1) ++ t!". " ++ rt_id e ++ t!" (" ++ rt_status e ++ t!")") entries in
  let s := foldl (fun s line => push_document_notice line Info s) s lines in
  with_overlay (set_ov_pending_resume_selection (Some entries))
    (push_document_notice t!"[resume] type 1-5 to select or n to cancel" Info s).

(** What is on the disk: the tasks that are saved last, a task and its working set, and the error
    of one that cannot be loaded. *)
Record SavedTasks := mk_SavedTasks {
  recent_entries : list ResumeTaskEntry;
  load_from : str -> str -> option TaskState;
  load_from_search_dirs : str -> option TaskState;
  find_working_set : str -> Sidecar;
  working_set_error : str;
}.

Definition resume (disk : SavedTasks) (state : TaskState) : TuiMode -> TuiMode :=
  apply_resumed_task state (find_working_set disk (ts_id state)) (working_set_error disk).

Definition INVALID_SELECTION : str := t!"[resume] invalid selection, expected 1-5 or n".

(** [entries.get(selection.saturating_sub(1))]. *)
Definition handle_resume_selection_input (disk : SavedTasks) (input : str) (s : TuiMode) : TuiMode :=
  let trimmed := trim input in
  let close := with_overlay (set_ov_pending_resume_selection None) in
  if str_in (to_ascii_lowercase trimmed) [t!"n"; t!"no"; t!"esc"] then
    push_document_notice t!"[resume] cancelled" Info (close s)
  else match parse_uint usize_max trimmed with
       | None => push_document_notice INVALID_SELECTION Info s
       | Some selection =>
           match entries ← ov_pending_resume_selection (overlay s); entries !! N.to_nat (sat_sub selection 1) with
           | None => push_document_notice INVALID_SELECTION Info s
           | Some entry =>
               let s := close s in
               match load_from disk (rt_dir entry) (rt_id entry) with
               | Some state => resume disk state s
               | None => push_document_notice (t!"[resume: task '" ++ rt_id entry ++ t!"' not found]") Warning s
               end
           end
       end.

Definition handle_resume_command (disk : SavedTasks) (task_id : str) (s : TuiMode) : TuiMode :=
  if is_empty task_id then
    match recent_entries disk with
    | [] => push_history_line t!"[resume] no saved tasks found" s
    | entries => prompt_resume_selection entries s
    end
  else match load_from_search_dirs disk task_id with
       | Some state => resume disk state s
       | None => push_history_line (t!"[resume: task '" ++ task_id ++ t!"' not found]") s
       end.

Definition handle_quit_command (s : TuiMode) : TuiMode := set_quit_requested true s.

(** ** Notes: src/app/commands/memory.rs *)
Definition NO_NOTES_PATH : str := t!"[memory] error resolving notes path".

Definition handle_memory_add (note : str) (s : TuiMode) : TuiMode :=
  if is_empty note then push_history_line t!"[memory] usage: /memory add <note>" s
  else match notes_path s with
       | None => push_history_line NO_NOTES_PATH s
       | Some _ =>
           let '(result, disk) := add_user_note note (notes_disk s) in
           let s := set_notes_disk disk s in
           match result with
           | inl _ => push_history_line t!"[memory: note added]" (persist_task_document (with_doc (push_session_note note) s))
           | inr e => push_history_line (t!"[memory] error writing: " ++ e) s
           end
       end.

Definition handle_memory_accept (selector : str) (s : TuiMode) : TuiMode :=
  let selector := trim selector in
  if is_empty selector then push_history_line t!"[memory] usage: /memory accept <n|topic>" s
  else match notes_path s with
       | None => push_history_line NO_NOTES_PATH s
       | Some _ =>
           let '(result, disk) := accept_pending selector (notes_disk s) in
           push_history_line
             match result with
             | inl (Some body) => t!"[memory] accepted: " ++ body
             | inl None => t!"[memory] no matching pending candidate"
             | inr e => t!"[memory] error accepting: " ++ e
             end (set_notes_disk disk s)
       end.

Definition handle_memory_clear_command (s : TuiMode) : TuiMode :=
  push_history_line t!"[memory] clear all notes? type y to confirm or n to cancel"
    (with_overlay (set_pending_memory_clear true) s).

Definition set_session_notes (notes : list SessionNote) (d : TaskDocument) : TaskDocument :=
  mk_TaskDocument (info d) (completed_turns d) (active_pulse d) notes (context_compaction d) (session_tasks d) (last_error d).

Definition handle_memory_clear_input (input : str) (s : TuiMode) : TuiMode :=
  let s := with_overlay (set_pending_memory_clear false) s in
  if str_in (to_ascii_lowercase (trim input)) [t!"y"; t!"yes"] then
    match notes_path s with
    | None => push_history_line NO_NOTES_PATH s
    | Some _ =>
        let '(error, disk) := clear_store (notes_disk s) in
        let s := set_notes_disk disk s in
        match error with
        | Some e => push_history_line (t!"[memory] error clearing: " ++ e) s
        | None => push_history_line t!"[memory: cleared]" (persist_task_document (with_doc (set_session_notes []) s))
        end
    end
  else push_history_line t!"[memory: cancelled]" s.

Definition handle_memory_auto (enabled : bool) (s : TuiMode) : TuiMode :=
  push_history_line (t!"[memory] auto extraction " ++ if enabled then t!"enabled" else t!"disabled")
    (set_auto_memory_enabled enabled s).

Definition handle_memory_auto_clear (s : TuiMode) : TuiMode :=
  match notes_path s with
  | None => push_history_line t!"[memory] no notes file to clear auto entries from" s
  | Some _ =>
      let '(result, disk) := remove_feedback_candidates (notes_disk s) in
      let s := set_notes_disk disk s in
      match result with
      | inl removed =>
          if 0 <? removed then
            let kept := List.filter (fun n => negb (is_auto_note_line (sn_content n))) (session_notes (task_doc s)) in
            push_history_line (t!"[memory] removed " ++ fmt_N removed ++ t!" auto note(s)")
              (persist_task_document (with_doc (set_session_notes kept) s))
          else push_history_line t!"[memory] no auto notes found" s
      | inr e => push_history_line (t!"[memory] error removing auto notes: " ++ e) s
      end
  end.

(** ** Validation: src/app/commands/run.rs *)
Definition stream_lines (name tail : str) (limited : bool) : list str :=
  if is_empty (trim tail) then []
  else map (fun line => t!"  " ++ name ++ t!": " ++ line) (lines tail)
       ++ (if limited then [t!"  " ++ name ++ t!": [earlier output omitted]"] else []).
Definition output_lines (label : str) (o : ValidationOutput) : list str :=
  [t!"[" ++ label ++ t!"] " ++ Validation.vo_label o ++ t!" ["
   ++ (if (exit_code o =? 0)%Z then t!"ok" else t!"exit " ++ fmt_Z (exit_code o)) ++ t!"]"]
  ++ stream_lines t!"stdout" (stdout_tail o) (stdout_tail_limited o)
  ++ stream_lines t!"stderr" (stderr_tail o) (stderr_tail_limited o)
  ++ (if is_empty (trim (stdout_tail o)) && is_empty (trim (stderr_tail o))
      then [t!"  output: [no captured output]"] else []).
Definition push_validation_result_lines (label : str) (result : ValidationResult) (s : TuiMode) : TuiMode :=
  foldl (fun s line => push_history_line line s) s
    (List.flat_map (output_lines label) (outputs result)
     ++ [t!"[" ++ label ++ t!"] " ++ (if passed result then t!"all commands passed" else t!"one or more commands failed")]).

(** [new_loop] is the loop that is made when there is none, and [result] what the suite gave. *)
Definition run_validation_suite_to_transcript (suite : ValidationSuite) (label : str) (remember_for_fix : bool)
    (new_loop : EditLoop) (result : ValidationResult + str) (s : TuiMode) : TuiMode :=
  match suite with
  | [] => push_history_line (t!"[" ++ label ++ t!"] no commands configured") s
  | _ =>
      match result with
      | inr error => push_history_line (t!"[" ++ label ++ t!"] error: " ++ error) s
      | inl result =>
          let s := if remember_for_fix
                   then set_active_edit_loop (Some (set_last_validation_result result (unwrap_or (active_edit_loop s) new_loop))) s
                   else s in
          push_validation_result_lines label result s
      end
  end.

(** ** Arguments: src/app/util.rs *)
Record GenerateTestsArgs := mk_GenerateTestsArgs { gt_path : option str; framework : option str }.
Definition GENERATE_TESTS_USAGE : str := t!"[generate-tests] usage: /generate-tests [path] [--framework <name>]".
Fixpoint generate_tests_tokens (parsed : GenerateTestsArgs) (tokens : list str) : GenerateTestsArgs + str :=
  match tokens with
  | [] => inl parsed
  | token :: r =>
      if str_eqb token t!"--framework" then
        match r with
        | [] => inr GENERATE_TESTS_USAGE
        | name :: r => generate_tests_tokens (mk_GenerateTestsArgs (gt_path parsed) (Some name)) r
        end
      else if opt_is_some (gt_path parsed) then inr GENERATE_TESTS_USAGE
      else generate_tests_tokens (mk_GenerateTestsArgs (Some token) (framework parsed)) r
  end.
Definition parse_generate_tests_args (input : str) : GenerateTestsArgs + str :=
  generate_tests_tokens (mk_GenerateTestsArgs None None) (split_whitespace input).

Record ReviewArgs := mk_ReviewArgs { base : option str; files : option str; instruction : option str }.
Definition REVIEW_USAGE : str := t!"[review] usage: /review [--base <git-ref>] [--files <glob>] [<instruction>]".
Fixpoint review_tokens (parsed : ReviewArgs) (tokens : list str) : ReviewArgs + str :=
  match tokens with
  | [] => inl parsed
  | token :: r =>
      if str_eqb token t!"--base" then
        match r with
        | value :: r => match base parsed with
                        | Some _ => inr REVIEW_USAGE
                        | None => review_tokens (mk_ReviewArgs (Some value) (files parsed) None) r
                        end
        | [] => inr REVIEW_USAGE
        end
      else if str_eqb token t!"--files" then
        match r with
        | value :: r => match files parsed with
                        | Some _ => inr REVIEW_USAGE
                        | None => review_tokens (mk_ReviewArgs (base parsed) (Some value) None) r
                        end
        | [] => inr REVIEW_USAGE
        end
      else inl (mk_ReviewArgs (base parsed) (files parsed) (Some (join t!" " (token :: r))))
  end.
Definition parse_review_args (input : str) : ReviewArgs + str :=
  match review_tokens (mk_ReviewArgs None None None) (split_whitespace input) with
  | inr e => inr e
  | inl parsed => if opt_is_some (base parsed) && opt_is_some (files parsed)
                  then inr t!"[review: --base and --files are mutually exclusive]" else inl parsed
  end.

(** ** Input while something is asked: the first part of [on_user_input] *)
Definition on_overlay_input (disk : SavedTasks) (input : str) (t : Moment) : T unit := fun s =>
  let o := overlay s in
  if pending_memory_clear o then Returns (tt, handle_memory_clear_input input s)
  else match ov_pending_resume_selection o, ov_pending_patch_approval o with
       | Some _, _ => Returns (tt, handle_resume_selection_input disk input s)
       | None, Some _ => Returns (tt, handle_patch_overlay_input input s)
       | None, None => handle_approval_input input t s
       end.
