(* ===== verification/TerminalInput.v ===== *)
(** What the user types into the terminal interface: the table of its commands, what each of them
    does to the session, and the whole of [on_user_input]: src/app/slash_commands.rs,
    src/app/commands/mod.rs, src/app/input.rs and the dispatch of src/app.rs.

    What a command reads from the disk and the clock, the prompts it renders and the lines it only
    shows are a record, [CommandEnv]. *)
From Stdlib Require Import NArith ZArith Lia.
From stdpp Require Import base list gmap strings numbers sets.
From S2P Require Import Prelude Text ByteIndex InputMetrics Collections Json Usage Evidence PeerChannel Envelope ToolPreview TaskDocument TaskSnapshot ToolRules ConversationState Validation RuntimeContext EditLoop Memory Transcript TerminalState Terminal TerminalUpdates TerminalCommands.
#[local] Open Scope N_scope.

(** ** The table: src/app/slash_commands.rs *)
Inductive SlashCommandId : Type :=
| CmdQuit | CmdExit | CmdAbout | CmdMemoryShow | CmdMemoryAdd | CmdMemoryClear | CmdMemoryAccept
| CmdMemoryAutoOn | CmdMemoryAutoOff | CmdMemoryAutoClear | CmdNew | CmdResume | CmdCompact | CmdFork
| CmdPermissions | CmdAllow | CmdDeny | CmdModel | CmdDiff | CmdEdit | CmdFix | CmdExplain | CmdReview
| CmdPlan | CmdInit | CmdRun | CmdTest | CmdContext | CmdMcp | CmdTools | CmdUsage | CmdGenerateTests
| CmdAgents | CmdDelegate | CmdWatch | CmdUndo | CmdCommands | CmdHelp | CmdReindex | CmdCopy.

#[export] Instance SlashCommandId_eq_dec : EqDecision SlashCommandId.
Proof. solve_decision. Defined.

Inductive SlashCommandPattern : Type :=
| Exact (command : str)
| ExactOrPrefix (exact prefix : str).

Definition parse_pattern (p : SlashCommandPattern) (input : str) : option str :=
  match p with
  | Exact command => if str_eqb input command then Some [] else None
  | ExactOrPrefix exact prefix => if str_eqb input exact then Some [] else trim <$> strip_prefix prefix input
  end.

Record SlashCommandSpec := mk_SlashCommandSpec {
  sc_id : SlashCommandId;
  sc_pattern : SlashCommandPattern;
  sc_display : str;
}.

Definition SLASH_COMMANDS : list SlashCommandSpec := [
  mk_SlashCommandSpec CmdEdit (ExactOrPrefix t!"/edit" t!"/edit ") t!"/edit <instruction>";
  mk_SlashCommandSpec CmdFix (ExactOrPrefix t!"/fix" t!"/fix ") t!"/fix";
  mk_SlashCommandSpec CmdExplain (ExactOrPrefix t!"/explain" t!"/explain ") t!"/explain [path]";
  mk_SlashCommandSpec CmdReview (ExactOrPrefix t!"/review" t!"/review ") t!"/review [--base <git-ref>] [--files <glob>] [<instruction>]";
  mk_SlashCommandSpec CmdPlan (ExactOrPrefix t!"/plan" t!"/plan ") t!"/plan <instruction>";
  mk_SlashCommandSpec CmdInit (ExactOrPrefix t!"/init" t!"/init ") t!"/init [environment]";
  mk_SlashCommandSpec CmdRun (ExactOrPrefix t!"/run" t!"/run ") t!"/run [command]";
  mk_SlashCommandSpec CmdTest (Exact t!"/test") t!"/test";
  mk_SlashCommandSpec CmdContext (Exact t!"/context") t!"/context";
  mk_SlashCommandSpec CmdMcp (ExactOrPrefix t!"/mcp" t!"/mcp ") t!"/mcp [list|show <server>]";
  mk_SlashCommandSpec CmdTools (ExactOrPrefix t!"/tools" t!"/tools ") t!"/tools [desc]";
  mk_SlashCommandSpec CmdUsage (Exact t!"/usage") t!"/usage";
  mk_SlashCommandSpec CmdGenerateTests (ExactOrPrefix t!"/generate-tests" t!"/generate-tests ") t!"/generate-tests [path] [--framework <name>]";
  mk_SlashCommandSpec CmdModel (ExactOrPrefix t!"/model" t!"/model ") t!"/model [<n>]";
  mk_SlashCommandSpec CmdPermissions (Exact t!"/permissions") t!"/permissions";
  mk_SlashCommandSpec CmdAllow (ExactOrPrefix t!"/allow" t!"/allow ") t!"/allow <cap> [once|session]";
  mk_SlashCommandSpec CmdDeny (ExactOrPrefix t!"/deny" t!"/deny ") t!"/deny <cap>";
  mk_SlashCommandSpec CmdNew (Exact t!"/new") t!"/new";
  mk_SlashCommandSpec CmdResume (ExactOrPrefix t!"/resume" t!"/resume ") t!"/resume [<task-id>]";
  mk_SlashCommandSpec CmdCompact (Exact t!"/compact") t!"/compact";
  mk_SlashCommandSpec CmdFork (ExactOrPrefix t!"/fork" t!"/fork ") t!"/fork [<label>]";
  mk_SlashCommandSpec CmdMemoryShow (Exact t!"/memory") t!"/memory [add <note>|accept <n>|clear]";
  mk_SlashCommandSpec CmdMemoryAdd (ExactOrPrefix t!"/memory add" t!"/memory add ") t!"/memory [add <note>|accept <n>|clear]";
  mk_SlashCommandSpec CmdMemoryAccept (ExactOrPrefix t!"/memory accept" t!"/memory accept ") t!"/memory [add <note>|accept <n>|clear]";
  mk_SlashCommandSpec CmdMemoryClear (Exact t!"/memory clear") t!"/memory [add <note>|accept <n>|clear]";
  mk_SlashCommandSpec CmdMemoryAutoOn (Exact t!"/memory auto on") t!"/memory auto [on|off|clear]";
  mk_SlashCommandSpec CmdMemoryAutoOff (Exact t!"/memory auto off") t!"/memory auto [on|off|clear]";
  mk_SlashCommandSpec CmdMemoryAutoClear (Exact t!"/memory auto clear") t!"/memory auto [on|off|clear]";
  mk_SlashCommandSpec CmdAgents (Exact t!"/agents") t!"/agents";
  mk_SlashCommandSpec CmdDelegate (ExactOrPrefix t!"/delegate" t!"/delegate ") t!"/delegate <agent> <prompt>";
  mk_SlashCommandSpec CmdWatch (ExactOrPrefix t!"/watch" t!"/watch ") t!"/watch [task-id|agent-id]";
  mk_SlashCommandSpec CmdUndo (Exact t!"/undo") t!"/undo";
  mk_SlashCommandSpec CmdCommands (Exact t!"/commands") t!"/commands";
  mk_SlashCommandSpec CmdHelp (Exact t!"/help") t!"/help";
  mk_SlashCommandSpec CmdReindex (Exact t!"/reindex") t!"/reindex";
  mk_SlashCommandSpec CmdQuit (Exact t!"/quit") t!"/quit";
  mk_SlashCommandSpec CmdExit (Exact t!"/exit") t!"/exit";
  mk_SlashCommandSpec CmdAbout (Exact t!"/about") t!"/about";
  mk_SlashCommandSpec CmdCopy (Exact t!"/copy") t!"/copy";
  mk_SlashCommandSpec CmdDiff (ExactOrPrefix t!"/diff" t!"/diff ") t!"/diff [--staged]"
].

Definition registered_slash_command (input : str) : option (SlashCommandSpec * str) :=
  let trimmed := trim input in
  find_map (fun spec => match parse_pattern (sc_pattern spec) trimmed with
                        | Some args => Some (spec, args)
                        | None => None
                        end) SLASH_COMMANDS.

Definition is_edit (id : SlashCommandId) : bool := bool_decide (id = CmdEdit \/ id = CmdFix).
Definition is_reentrant_edit_command (input : str) : bool :=
  match registered_slash_command input with Some (spec, _) => is_edit (sc_id spec) | None => false end.

Record CustomCommand := mk_CustomCommand { custom_name : str; custom_template : str }.

(** The name ends at the first blank. *)
Definition custom_parts (raw : str) : str * str :=
  match find_index is_whitespace raw with
  | Some i => (take i raw, trim (drop i raw))
  | None => (raw, [])
  end.
Definition registered_custom_command (customs : list CustomCommand) (input : str) : option (CustomCommand * str) :=
  raw ← strip_prefix t!"/" (trim input);
  let '(name, args) := custom_parts raw in
  command ← List.find (fun c => str_eqb (custom_name c) name) customs;
  Some (command, args).

(** ** What surrounds a command *)
Record CommandEnv := mk_CommandEnv {
  disk : SavedTasks;
  (** A new identifier, the instants of its making, the error of saving the parent of a fork. *)
  new_task : str;
  made_at : N;
  updated_at : N;
  save_error : option str;
  (** The error of a conversation that is in use. *)
  model_busy : option str;
  (** An instruction with its files put in, the prompt of the profile. *)
  expand : str -> str;
  system_prompt : str;
  (** A loop for the task, with its directory and its profile. *)
  new_edit_loop : EditLoop;
  (** The prompt and the shared context of a command that starts a turn, or the lines it shows
      instead. *)
  rendered : SlashCommandId -> str -> (str * option str) + list str;
  rendered_custom : CustomCommand -> str -> str * option str;
  custom_commands : list CustomCommand;
  (** The suite of a command that validates, and its result. *)
  validation_suite : SlashCommandId -> str -> ValidationSuite;
  validation_result : ValidationSuite -> ValidationResult + str;
  (** The lines of a command that only shows something. *)
  shown : SlashCommandId -> str -> list str;
  (** The tasks of the session on the disk, after one has been delegated. *)
  delegated : str -> option (list SessionTask);
  search_enabled : bool;
}.

Section commands.
Context {js : SerdeJson} {pretty : PrettyJson} {diff : LineDiff}.
Context {cw : CharWidth} {seg : Segmentation} {wrap : TextWrap} {ansi : AnsiText}.
Context {alnum : Alphanumeric} {time : TimeText}.

Definition push_lines (ls : list str) (s : TuiMode) : TuiMode := foldl (fun s line => push_history_line line s) s ls.

Definition handle_reindex_command (enabled : bool) (t : Moment) : T unit := fun s =>
  if negb enabled then
    Returns (tt, push_history_line t!"[search] /reindex unavailable: search is disabled by [search].enabled=false" s)
  else
    '(_, s) ← (if command_session_active s then Returns (tt, s) else begin_turn_capture t!"/reindex" t s);
    let '(session_id, s) := begin_command_session t!"/reindex" s in
    Returns (tt, log (ReindexSpawned session_id) s).

(** The commands that read the repository and ask the model. *)
Definition start_rendered (id : SlashCommandId) (e : CommandEnv) (args : str) (t : Moment) : T unit := fun s =>
  match rendered e id args with
  | inr ls => Returns (tt, push_lines ls s)
  | inl (prompt, shared) =>
      let system := Some (system_prompt e) in
      match id with
      | CmdPlan => start_plan prompt system shared t s
      | CmdGenerateTests => start_single_turn_with_policy prompt false system TestsOnlyMutations shared t s
      | _ => start_single_turn prompt true system shared t s
      end
  end.

Definition validate (id : SlashCommandId) (label : str) (remember : bool) (e : CommandEnv) (args : str) : TuiMode -> TuiMode :=
  let suite := validation_suite e id args in
  run_validation_suite_to_transcript suite label remember (new_edit_loop e) (validation_result e suite).

(** [sync_session_tasks_from_disk]. *)
Definition sync_session_tasks (saved : option (list SessionTask)) (s : TuiMode) : TuiMode :=
  match saved with
  | Some tasks => with_doc (fun d => mk_TaskDocument (info d) (completed_turns d) (active_pulse d) (session_notes d)
                                       (context_compaction d) tasks (last_error d)) s
  | None => s
  end.

(** The dispatch of [try_handle_slash_command]. *)
Definition run_command (id : SlashCommandId) (args : str) (e : CommandEnv) (t : Moment) : T unit := fun s =>
  match id with
  | CmdQuit | CmdExit => Returns (tt, handle_quit_command s)
  | CmdMemoryAdd => Returns (tt, handle_memory_add args s)
  | CmdMemoryAccept => Returns (tt, handle_memory_accept args s)
  | CmdMemoryClear => Returns (tt, handle_memory_clear_command s)
  | CmdMemoryAutoOn => Returns (tt, handle_memory_auto true s)
  | CmdMemoryAutoOff => Returns (tt, handle_memory_auto false s)
  | CmdMemoryAutoClear => Returns (tt, handle_memory_auto_clear s)
  | CmdNew => Returns (tt, handle_new_command (new_task e) (made_at e) (updated_at e) s)
  | CmdResume => Returns (tt, handle_resume_command (disk e) args s)
  | CmdCompact => Returns (tt, handle_compact_command t s)
  | CmdFork => Returns (tt, handle_fork_command args (new_task e) (save_error e) (made_at e) (updated_at e) s)
  | CmdPermissions => Returns (tt, handle_permissions_command s)
  | CmdAllow => Returns (tt, handle_allow_command args s)
  | CmdDeny => Returns (tt, handle_deny_command args s)
  | CmdModel => Returns (tt, handle_model_command args (model_busy e) s)
  | CmdEdit => handle_edit_command args (expand e args) (new_edit_loop e) t s
  | CmdFix => handle_fix_command (new_edit_loop e) t s
  | CmdPlan | CmdExplain | CmdReview | CmdGenerateTests => start_rendered id e args t s
  | CmdRun => Returns (tt, validate id t!"run" false e args s)
  | CmdTest => Returns (tt, validate id t!"test" true e args s)
  | CmdDelegate => Returns (tt, sync_session_tasks (delegated e args) (push_lines (shown e id args) s))
  | CmdReindex => handle_reindex_command (search_enabled e) t s
  | CmdAbout | CmdMemoryShow | CmdDiff | CmdInit | CmdContext | CmdMcp | CmdTools | CmdUsage | CmdAgents
  | CmdWatch | CmdUndo | CmdCommands | CmdHelp | CmdCopy => Returns (tt, push_lines (shown e id args) s)
  end.

(** The result is whether the text is a command. *)
Definition try_handle_slash_command (input : str) (e : CommandEnv) (t : Moment) : T bool := fun s =>
  match registered_slash_command input with
  | Some (spec, args) => '(_, s) ← run_command (sc_id spec) args e t s; Returns (true, s)
  | None =>
      match registered_custom_command (custom_commands e) input with
      | Some (command, args) =>
          let '(prompt, shared) := rendered_custom e command args in
          '(_, s) ← start_single_turn prompt false None shared t s; Returns (true, s)
      | None => Returns (false, s)
      end
  end.

(** ** [on_user_input] *)
Definition echo (input : str) (s : TuiMode) : TuiMode := push_history_line [] (push_history_line (t!"> " ++ input) s).

(** Input while a pulse runs and nothing is asked. *)
Definition on_busy_input (input : str) (e : CommandEnv) (t : Moment) : T unit := fun s =>
  if opt_is_some (active_edit_loop s) && is_reentrant_edit_command (trim input) then
    '(_, s) ← try_handle_slash_command input e t (echo input s); Returns (tt, s)
  else if is_cancel_pending s
  then Returns (tt, push_history_line t!"[busy - cancelling current pulse, input ignored]" s)
  else match strip_prefix t!"!" (trim input) with
       | Some command =>
           if command_session_active s && negb (is_empty (trim command))
           then handle_bang_command command t (echo input s)
           else Returns (tt, push_history_line t!"[busy - pulse in progress, input ignored]" s)
       | None => Returns (tt, push_history_line t!"[busy - pulse in progress, input ignored]" s)
       end.

Definition start_message (turn_input : str) (t : Moment) : T unit := fun s =>
  '(_, s) ← begin_turn_capture turn_input t s;
  Returns (tt, log (PulseStarted turn_input None DefaultPolicy None) s).

(** [turn_input] is the input with the files it names put in. *)
Definition on_idle_input (input turn_input : str) (e : CommandEnv) (t : Moment) : T unit := fun s =>
  let s := set_quit_requested false (set_pending_quit false s) in
  match strip_prefix t!"!" (trim turn_input) with
  | Some command => handle_bang_command command t (echo input s)
  | None =>
      if starts_with t!"/" turn_input then
        '(handled, s) ← try_handle_slash_command turn_input e t (echo input s);
        if handled : bool then Returns (tt, s) else start_message turn_input t s
      else start_message turn_input t s
  end.

Definition on_user_input (input turn_input : str) (e : CommandEnv) (t : Moment) : T unit := fun s =>
  if overlay_active s then on_overlay_input (disk e) input t s
  else if is_pulse_in_progress s then on_busy_input input e t s
  else on_idle_input input turn_input e t s.

(** ** Keys: [on_frontend_signal] of src/app.rs *)
Inductive ScrollTarget : Type := OnOverlay | OnOutput | OnTimeline.
Definition on_scroll (target : ScrollTarget) (action : ScrollAction) (s : TuiMode) : TuiMode :=
  if overlay_active s then
    match target with OnOverlay => apply_patch_overlay_scroll_action action s | _ => s end
  else match target with
       | OnTimeline => apply_timeline_scroll_action action (timeline_entry_count s) s
       | OnOutput => apply_output_scroll_action action s
       | OnOverlay => s
       end.

(** ** What can happen *)
Inductive Happening : Type :=
| Updated (update : UiUpdate) (response : N)
| Typed (input turn_input : str) (e : CommandEnv)
| Interrupted
| Scrolled (target : ScrollTarget) (action : ScrollAction).

Definition step (h : Happening) (t : Moment) : T unit := fun s =>
  match h with
  | Updated u response => on_model_update u response t s
  | Typed input turn_input e => on_user_input input turn_input e t s
  | Interrupted => on_interrupt t s
  | Scrolled target action => Returns (tt, on_scroll target action s)
  end.

Fixpoint run (hs : list (Happening * Moment)) : T unit := fun s =>
  match hs with
  | [] => Returns (tt, s)
  | (h, t) :: r => '(_, s) ← step h t s; run r s
  end.
End commands.
