(* ===== verification/TerminalTheory.v ===== *)
(** The approvals a terminal interface is asked for: none is lost, none is answered twice, and
    nothing is approved without a reason. *)
From Stdlib Require Import NArith ZArith Lia.
From stdpp Require Import base list gmap strings numbers sets.
From S2P Require Import Prelude Text ByteIndex InputMetrics Collections Json Usage Evidence PeerChannel Envelope ToolPreview TaskDocument TaskSnapshot ToolRules ConversationState Validation RuntimeContext EditLoop Memory Transcript TerminalState Terminal TerminalUpdates TerminalCommands.
#[local] Open Scope N_scope.

(** ** What is asked and what has been answered *)
Definition answer_of (e : Effect) : option (N * bool) :=
  match e with Answered response approved => Some (response, approved) | _ => None end.
Definition answers (s : TuiMode) : list (N * bool) := omap answer_of (effects s).

Definition asked_tool (o : OverlayState) : list N :=
  match ov_pending_approval o with
  | Some p => match pa_action p with ApproveTool response => [response] | ApproveInlineCommand _ => [] end
  | None => []
  end.
Definition asked_patch (o : OverlayState) : list N :=
  match ov_pending_patch_approval o with
  | Some p => match patch_response p with Some response => [response] | None => [] end
  | None => []
  end.
Definition waiting (s : TuiMode) : list N := asked_tool (overlay s) ++ asked_patch (overlay s).

(** Everything an operation that is not about approvals leaves alone. *)
Definition asks (s : TuiMode) : option PendingApproval * option PendingPatchApproval * list (N * bool) :=
  (ov_pending_approval (overlay s), ov_pending_patch_approval (overlay s), answers s).

Lemma asks_waiting s s' : asks s' = asks s -> waiting s' = waiting s /\ answers s' = answers s.
Proof. unfold asks, waiting, asked_tool, asked_patch. by intros [= -> -> ->]. Qed.

Lemma asks_same s s' : asks s' = asks s ->
  ov_pending_approval (overlay s') = ov_pending_approval (overlay s)
  /\ ov_pending_patch_approval (overlay s') = ov_pending_patch_approval (overlay s) /\ answers s' = answers s.
Proof. unfold asks. by intros [= -> -> ->]. Qed.

Lemma asks_log e s : answer_of e = None -> asks (log e s) = asks s.
Proof. intros He. unfold asks, answers, log. cbn. rewrite omap_app. cbn. by rewrite He, app_nil_r. Qed.

Lemma asks_log_mono e s s' : asks s' = asks s -> asks (log e s') = asks (log e s).
Proof.
  intros (E1 & E2 & E3)%asks_same. unfold asks. f_equal; [by f_equal|]. unfold answers, log in *. cbn.
  by rewrite !omap_app, E3.
Qed.

Lemma answers_log r b s : answers (log (Answered r b) s) = answers s ++ [(r, b)].
Proof. unfold answers, log. cbn. by rewrite omap_app. Qed.

Lemma asks_with_active f s : asks (with_active f s) = asks s.
Proof. unfold with_active. by destruct (active_pulse (task_doc s)). Qed.
Lemma asks_with_doc f s : asks (with_doc f s) = asks s.
Proof. done. Qed.
Lemma asks_append_step e s : asks (append_step e s) = asks s.
Proof. unfold append_step, append_turn_entry. destruct (alloc_step_id s) eqn:E. rewrite asks_with_active.
  unfold alloc_step_id in E. destruct (alloc_step (task_doc s)). by injection E as _ <-. Qed.
Lemma asks_notice m v s : asks (push_document_notice m v s) = asks s.
Proof. unfold push_document_notice. destruct (is_pulse_in_progress s); [apply asks_append_step | done]. Qed.
Lemma asks_persist s : asks (persist_task_document s) = asks s.
Proof. by apply asks_log. Qed.
Lemma asks_status v s : asks (set_task_status v s) = asks s.
Proof. unfold set_task_status. by rewrite asks_persist. Qed.
Lemma asks_reset s : asks (reset_turn_capture s) = asks s.
Proof. done. Qed.
Lemma asks_approved step s : asks (mark_tool_step_approved step s) = asks s.
Proof. unfold mark_tool_step_approved. rewrite asks_status. by destruct step. Qed.
Lemma asks_session id command s : asks (begin_command_session_with_id id command s) = asks s.
Proof. unfold begin_command_session_with_id. by rewrite asks_status, asks_with_active. Qed.
Create HintDb asks discriminated.
#[export] Hint Rewrite asks_with_active asks_with_doc asks_append_step asks_notice asks_persist asks_status asks_reset
  asks_approved asks_session : asks.

Lemma begin_turn_capture_spec input policy t s :
  exists s', begin_turn_capture_with_policy input policy t s = Returns (tt, s') /\ asks s' = asks s
    /\ plan_turn_active s' = false /\ read_only_turn_active s' = read_only_turn_active s
    /\ is_cancel_pending s' = false /\ is_pulse_in_progress s' = true.
Proof.
  unfold begin_turn_capture_with_policy, begin_turn. cbn. eexists. split; [reflexivity|].
  split_and!; [|done..]. unfold asks, answers. cbn. rewrite omap_app. by rewrite app_nil_r.
Qed.

Lemma start_command_session_spec command t s :
  exists s', start_command_session command t s = Returns (tt, s') /\ asks s' = asks s.
Proof.
  unfold start_command_session.
  assert (exists s1, (if command_session_active s then Returns (tt, s) else begin_turn_capture (t!"!" ++ command) t s)
                     = Returns (tt, s1) /\ asks s1 = asks s) as (s1 & -> & E).
  { destruct (command_session_active s); [by exists s|].
    destruct (begin_turn_capture_spec (t!"!" ++ command) DefaultPolicy t s) as (s1 & H1 & H2 & _). by exists s1. }
  cbn. eexists. split; [reflexivity|]. rewrite asks_log by done. by autorewrite with asks.
Qed.

(** Fields that have nothing to do with approvals. *)
Lemma asks_set_inspector_scroll_offset v s : asks (set_inspector_scroll_offset v s) = asks s. Proof. done. Qed.
Lemma asks_set_transcript_scroll_offset v s : asks (set_transcript_scroll_offset v s) = asks s. Proof. done. Qed.
Lemma asks_set_turn_completion_pending v s : asks (set_turn_completion_pending v s) = asks s. Proof. done. Qed.
Lemma asks_set_read_only_turn_active v s : asks (set_read_only_turn_active v s) = asks s. Proof. done. Qed.
Lemma asks_set_quit_requested v s : asks (set_quit_requested v s) = asks s. Proof. done. Qed.
Lemma asks_set_pending_quit v s : asks (set_pending_quit v s) = asks s. Proof. done. Qed.
Lemma asks_set_last_error_message v s : asks (set_last_error_message v s) = asks s. Proof. done. Qed.
Lemma asks_set_last_turn_ttft v s : asks (set_last_turn_ttft v s) = asks s. Proof. done. Qed.
Lemma asks_set_stream_uses_structured_final_output v s : asks (set_stream_uses_structured_final_output v s) = asks s. Proof. done. Qed.
Lemma asks_set_active_edit_loop v s : asks (set_active_edit_loop v s) = asks s. Proof. done. Qed.
Lemma asks_set_pre_session_notices v s : asks (set_pre_session_notices v s) = asks s. Proof. done. Qed.
Lemma asks_set_working_set_file v s : asks (set_working_set_file v s) = asks s. Proof. done. Qed.
Lemma asks_set_instructions_path v s : asks (set_instructions_path v s) = asks s. Proof. done. Qed.
Lemma asks_set_notes_disk v s : asks (set_notes_disk v s) = asks s. Proof. done. Qed.
Lemma asks_set_plan_turn_active v s : asks (set_plan_turn_active v s) = asks s. Proof. done. Qed.
Lemma asks_set_tui_model_name v s : asks (set_tui_model_name v s) = asks s. Proof. done. Qed.
Lemma asks_set_auto_memory_enabled v s : asks (set_auto_memory_enabled v s) = asks s. Proof. done. Qed.
Lemma asks_set_doc_status v s : asks (set_doc_status v s) = asks s. Proof. done. Qed.
Lemma asks_note_duration v s : asks (note_duration v s) = asks s. Proof. done. Qed.
Lemma asks_finish_pulse o t s : asks (finish_pulse o t s) = asks s. Proof. done. Qed.
#[export] Hint Rewrite asks_set_inspector_scroll_offset asks_set_transcript_scroll_offset
  asks_set_turn_completion_pending asks_set_read_only_turn_active asks_set_quit_requested
  asks_set_pending_quit asks_set_last_error_message asks_set_last_turn_ttft
  asks_set_stream_uses_structured_final_output asks_set_active_edit_loop asks_set_pre_session_notices
  asks_set_working_set_file asks_set_instructions_path asks_set_notes_disk asks_set_plan_turn_active
  asks_set_tui_model_name asks_set_auto_memory_enabled asks_set_doc_status asks_note_duration
  asks_finish_pulse : asks.

(** ** Resolving what is asked *)
Lemma resolve_spec approved t s :
  exists s', resolve_pending_approval approved t s = Returns (tt, s')
    /\ ov_pending_approval (overlay s') = None
    /\ ov_pending_patch_approval (overlay s') = ov_pending_patch_approval (overlay s)
    /\ answers s' = answers s ++ map (fun r => (r, approved)) (asked_tool (overlay s)).
Proof.
  unfold resolve_pending_approval, asked_tool. destruct (ov_pending_approval (overlay s)) as [p|] eqn:Ep.
  2: { exists s. split_and!; [done..|]. cbn. by rewrite app_nil_r. }
  set (s1 := with_overlay (set_ov_pending_approval None) s).
  assert (asks (if approved then mark_tool_step_approved (pa_step_id p) s1 else s1) = asks s1) as E1.
  { destruct approved; [apply asks_approved | done]. }
  set (s2 := if approved then _ else _) in *. destruct (pa_action p) as [r|command].
  - exists (log (Answered r approved) s2). split; [done|]. apply asks_same in E1 as (E1 & E2 & E3).
    split_and!; [done..|]. rewrite answers_log, E3. done.
  - destruct approved.
    + destruct (start_command_session_spec command t s2) as (s3 & -> & E3). exists s3. split; [done|].
      rewrite E1 in E3. apply asks_same in E3 as (-> & -> & ->). cbn. by rewrite app_nil_r.
    + exists s2. split; [done|]. apply asks_same in E1 as (-> & -> & ->). cbn. by rewrite app_nil_r.
Qed.

Lemma resolve_patch_spec approved s :
  let s' := resolve_pending_patch_approval approved s in
  ov_pending_approval (overlay s') = ov_pending_approval (overlay s)
  /\ ov_pending_patch_approval (overlay s') = None
  /\ answers s' = answers s ++ map (fun r => (r, approved)) (asked_patch (overlay s)).
Proof.
  cbn zeta. unfold resolve_pending_patch_approval, asked_patch.
  destruct (ov_pending_patch_approval (overlay s)) as [p|] eqn:Ep; [|split_and!; [done..|]; cbn; by rewrite app_nil_r].
  pose proof (asks_notice (t!"[patch approval " ++ (if approved then t!"accepted" else t!"denied") ++ t!"]") Info
    (match patch_response p with
     | Some response => log (Answered response approved) (with_overlay (set_ov_pending_patch_approval None) s)
     | None => with_overlay (set_ov_pending_patch_approval None) s
     end)) as E.
  apply asks_same in E as (-> & -> & ->). destruct (patch_response p) as [r|].
  - by rewrite answers_log.
  - cbn. by rewrite app_nil_r.
Qed.

Lemma deny_spec t s :
  exists s', deny_pending t s = Returns (tt, s') /\ waiting s' = []
    /\ answers s' = answers s ++ map (fun r => (r, false)) (waiting s).
Proof.
  unfold deny_pending. destruct (resolve_spec false t s) as (s1 & -> & Ha & Hp & Hans). cbn.
  destruct (resolve_patch_spec false s1) as (Ha2 & Hp2 & Hans2). eexists. split; [done|].
  unfold waiting, asked_tool, asked_patch in *. rewrite Ha2, Ha, Hp2. split; [done|].
  rewrite Hans2, Hans, Hp, <- app_assoc, <- map_app. done.
Qed.

(** ** What decides on an approval *)
Definition policy (s : TuiMode) : bool * bool * gmap Capability ApprovalScope :=
  (read_only_turn_active s, auto_approve_session (overlay s), active_grants (info (task_doc s))).

Lemma policy_notice m v s : policy (push_document_notice m v s) = policy s.
Proof.
  unfold push_document_notice. destruct (is_pulse_in_progress s); [|done].
  unfold append_step, alloc_step_id, append_turn_entry, with_active. cbn. by destruct (active_pulse (task_doc s)).
Qed.

Lemma policy_deny t s s' : deny_pending t s = Returns (tt, s') -> policy s' = policy s.
Proof.
  unfold deny_pending, resolve_pending_approval. intros H.
  assert (exists s1, s' = resolve_pending_patch_approval false s1 /\ policy s1 = policy s) as (s1 & -> & <-).
  { destruct (ov_pending_approval (overlay s)) as [p|]; [|injection H as <-; by exists s].
    cbn in H. destruct (pa_action p); injection H as <-; by eexists. }
  unfold resolve_pending_patch_approval. destruct (ov_pending_patch_approval (overlay s1)) as [p|]; [|done].
  rewrite policy_notice. by destruct (patch_response p).
Qed.

Lemma grant_policy tool s s' : policy s' = policy s -> grant_for tool s' = grant_for tool s.
Proof. unfold policy, grant_for. by intros [= _ _ ->]. Qed.

(** ** Updates *)
Section updates.
Context {js : SerdeJson} {pretty : PrettyJson} {diff : LineDiff}.
Context {cw : CharWidth} {seg : Segmentation} {wrap : TextWrap} {ansi : AnsiText}.
Context {alnum : Alphanumeric} {time : TimeText}.

Lemma asks_try_entries f s : asks (try_entries f s).2 = asks s.
Proof.
  unfold try_entries. destruct (active_pulse (task_doc s)) as [a|]; [|done].
  destruct (f (at_entries a)); [apply asks_with_active | done].
Qed.
Lemma asks_preserve n s : asks (preserve_transcript_scroll_on_growth n s) = asks s.
Proof. unfold preserve_transcript_scroll_on_growth. by destruct (_ =? _). Qed.
Lemma asks_clamp s : asks (clamp_transcript_after_mutation s) = asks s.
Proof. unfold clamp_transcript_after_mutation. by destruct (output_anchor s). Qed.
Lemma asks_grown n s : asks (grown n s) = asks s.
Proof. unfold grown. by rewrite asks_preserve, asks_clamp. Qed.
Lemma asks_running s : asks (running_if_active s) = asks s.
Proof. unfold running_if_active. by destruct (is_pulse_in_progress s). Qed.
Lemma asks_first_text t s : asks (note_first_text t s) = asks s.
Proof. unfold note_first_text. destruct (ttft s), (turn_started_at s); try done. by rewrite asks_with_active. Qed.
#[local] Hint Rewrite asks_try_entries asks_preserve asks_clamp asks_grown asks_running asks_first_text : asks.

Lemma asks_stream_delta text t s : asks (on_stream_delta text t s) = asks s.
Proof.
  unfold on_stream_delta. destruct (_ || _); [done|].
  set (s1 := note_first_text t (running_if_active s)).
  pose proof (asks_try_entries (update_last_entry (on_block (fun b => streaming b && is_final b) (push_content text))) s1) as E.
  destruct (try_entries _ s1) as [appended s2]. cbn in E. rewrite asks_grown.
  destruct (negb appended && _); autorewrite with asks; rewrite E; subst s1; by autorewrite with asks.
Qed.

Lemma asks_start_or_append takes index phase collapsed content s :
  asks (start_or_append takes index phase collapsed content s) = asks s.
Proof.
  unfold start_or_append. pose proof (asks_try_entries (continue_last_block takes (start_block index phase collapsed content)) s) as E.
  destruct (try_entries _ s) as [[] s1]; cbn in E; autorewrite with asks; done.
Qed.

Lemma asks_start_tool_call id name input status s : asks (start_tool_call id name input status s) = asks s.
Proof.
  unfold start_tool_call. pose proof (asks_try_entries (update_call_status id status) s) as E.
  destruct (try_entries _ s) as [[] s1]; cbn in E; [done|].
  rewrite <- E, <- (asks_append_step (fun step => EToolCall step id name input Envelope.Pending) s1).
  by destruct (timeline_follow_mode _).
Qed.

Lemma asks_finish_tool_call id output is_error s : asks (finish_tool_call id output is_error s) = asks s.
Proof.
  unfold finish_tool_call. rewrite asks_append_step. set (s1 := (try_entries _ s).2).
  assert (asks s1 = asks s) as E by apply asks_try_entries. destruct is_error; [done|].
  destruct (active_pulse (task_doc s1) ≫= _) as [[name input]|]; [|done].
  destruct (bool_decide _); [done|]. by rewrite asks_with_active.
Qed.

Lemma asks_block_start index block t s : asks (on_block_start index block t s) = asks s.
Proof.
  unfold on_block_start. rewrite asks_grown.
  destruct block; [rewrite asks_start_or_append | rewrite asks_start_tool_call | rewrite asks_finish_tool_call
    | rewrite asks_start_or_append, asks_first_text]; [by autorewrite with asks..|].
  rewrite <- (asks_running s). done.
Qed.

Lemma asks_block_delta index delta s : asks (on_block_delta index delta s) = asks s.
Proof.
  unfold on_block_delta. pose proof (asks_try_entries (update_last_entry (on_block (fun b => block_index b =? index) (push_content delta))) s) as E.
  destruct (try_entries _ s) as [[] s1]; cbn in E; rewrite asks_clamp; done.
Qed.

Lemma asks_timing s : asks (append_turn_timing_line s) = asks s.
Proof. unfold append_turn_timing_line. destruct (last_turn_duration s); [apply asks_notice | done]. Qed.

Lemma asks_commit t s : asks (commit_completed_turn t s) = asks s.
Proof.
  unfold commit_completed_turn. assert (asks (note_plan s) = asks s) as E.
  { unfold note_plan. destruct (plan_turn_active s); [|done]. by destruct (active_pulse (task_doc s) ≫= _). }
  destruct (negb _); [by rewrite asks_reset, asks_status|]. rewrite asks_reset.
  unfold write_working_set_sidecar. destruct (write_working_set _ _ _) as [record file] eqn:Ew. cbn.
  rewrite <- E. unfold asks, answers. cbn. rewrite omap_app. cbn. by rewrite app_nil_r.
Qed.

Lemma asks_auto_memory t s : asks (maybe_extract_auto_memory t s) = asks s.
Proof.
  unfold maybe_extract_auto_memory. destruct (negb _); [done|].
  destruct (list.last _) as [turn|]; [|done]. destruct (_ && _); [done|]. destruct (bool_decide _); [done|].
  destruct (notes_path s); [|done]. destruct (append_feedback_notes _ _) as [[u|e] disk]; by autorewrite with asks.
Qed.

Lemma asks_complete t s : asks (complete_turn t s) = asks s.
Proof.
  change (asks (with_active (set_cancel_pending false)
    (maybe_extract_auto_memory t (append_turn_timing_line (commit_completed_turn t s)))) = asks s).
  by rewrite asks_with_active, asks_auto_memory, asks_timing, asks_commit.
Qed.

(** A turn that is completed has denied what was asked. *)
Lemma complete_spec t s :
  exists b s', complete_turn_if_idle t s = Returns (b, s')
    /\ if b then turn_completion_pending s = true /\ command_session_active s = false
               /\ exists s1, deny_pending t (set_last_error_message None s) = Returns (tt, s1) /\ s' = complete_turn t s1
       else s' = s.
Proof.
  unfold complete_turn_if_idle, deny_pending.
  destruct (negb (turn_completion_pending s) || command_session_active s) eqn:Eb; [by exists false, s|].
  apply orb_false_iff in Eb as [Hp%negb_false_iff Hc].
  destruct (resolve_spec false t (set_last_error_message None s)) as (s0 & -> & _).
  eexists true, _. split; [reflexivity|]. split_and!; [done..|]. by eexists.
Qed.

Lemma complete_answers t s s' : complete_turn_if_idle t s = Returns (true, s') ->
  waiting s' = [] /\ answers s' = answers s ++ map (fun r => (r, false)) (waiting s).
Proof.
  destruct (complete_spec t s) as (b & s1 & -> & H). intros [= -> ->]. destruct H as (_ & _ & s2 & E & ->).
  destruct (deny_spec t (set_last_error_message None s)) as (s3 & E3 & Hw & Ha).
  rewrite E in E3. injection E3 as <-. destruct (asks_waiting _ _ (asks_complete t s2)) as [-> ->]. done.
Qed.

(** ** What an update answers *)
Definition requested (u : UiUpdate) (response : N) : list N :=
  match u with UiToolApprovalRequest _ => [response] | _ => [] end.

(** Why a tool may be used without asking. *)
Definition allowed (tool_name : str) (s : TuiMode) : Prop :=
  is_cancel_pending s = false /\ read_only_turn_active s = false
  /\ (auto_approve_session (overlay s) = true \/ grant_for tool_name s <> None).

(** The answers of a step, what is still asked after it, and why an answer may be a yes. *)
Definition step_answers (s s' : TuiMode) (asked : list N) (why : N -> Prop) : Prop :=
  exists answered, answers s' = answers s ++ answered
    /\ map fst answered ++ waiting s' ≡ₚ waiting s ++ asked
    /\ Forall (fun a => a.2 = true -> why a.1) answered.

Lemma step_same s s' why : asks s' = asks s -> step_answers s s' [] why.
Proof.
  intros [Hw Ha]%asks_waiting. exists []. rewrite Hw, Ha, !app_nil_r. split_and!; [done | done | constructor].
Qed.

Lemma denials_why (why : N -> Prop) (l : list N) : Forall (fun a : N * bool => a.2 = true -> why a.1) (map (fun r => (r, false)) l).
Proof. apply list.Forall_forall. intros a (r & -> & _)%list_elem_of_fmap. done. Qed.

Lemma map_fst_answers (b : bool) (l : list N) : map fst (map (fun r => (r, b)) l) = l.
Proof. rewrite map_map. cbn. apply map_id. Qed.

Lemma step_denied s s1 s' asked_after why :
  waiting s1 = [] -> answers s1 = answers s ++ map (fun r => (r, false)) (waiting s) ->
  step_answers s1 s' asked_after why -> step_answers s s' asked_after why.
Proof.
  intros Hw Ha (answered & E & Hp & Hwhy). rewrite Hw in Hp. cbn in Hp.
  exists (map (fun r => (r, false)) (waiting s) ++ answered). split_and!.
  - by rewrite E, Ha, app_assoc.
  - rewrite map_app, map_fst_answers, <- app_assoc, Hp. done.
  - apply Forall_app. split; [apply denials_why | done].
Qed.

Lemma step_log response b s why : (b = true -> why response) -> step_answers s (log (Answered response b) s) [response] why.
Proof.
  intros Hb. exists [(response, b)]. rewrite answers_log. split_and!; [done | | by repeat constructor].
  cbn. change (waiting (log (Answered response b) s)) with (waiting s). apply Permutation_cons_append.
Qed.

Lemma step_log_same response b s s' why :
  asks s' = asks (log (Answered response b) s) -> (b = true -> why response) -> step_answers s s' [response] why.
Proof.
  intros [Hw Ha]%asks_waiting Hb. destruct (step_log response b s why Hb) as (l & E & Hp & Hwhy).
  exists l. rewrite Ha, Hw. done.
Qed.

Lemma answers_auto tool preview how response s :
  asks (auto_approve tool preview how response s) = asks (log (Answered response true) s).
Proof.
  unfold auto_approve. rewrite asks_notice. apply asks_log_mono, asks_approved.
Qed.

Lemma step_asked tool preview response s why : waiting s = [] ->
  step_answers s (ask_approval tool preview response s) [response] why.
Proof.
  intros Hw. unfold ask_approval. set (s1 := preserve_transcript_scroll_on_growth _ _).
  assert (asks s1 = asks s) as E1.
  { subst s1. rewrite asks_preserve. destruct (is_empty _); by autorewrite with asks. }
  clearbody s1. match goal with |- step_answers _ (set_task_status _ ?x) _ _ => set (s2 := x) end.
  destruct (asks_waiting _ _ (asks_status TAwaitingApproval s2)) as [Ew Ea].
  apply asks_same in E1 as (_ & Hpatch & Hans). exists []. rewrite Ew, Ea, app_nil_r. split_and!; [exact Hans | | constructor].
  unfold waiting, asked_patch in Hw |- *. cbn. rewrite Hpatch. apply app_nil in Hw as [Ht Hp]. rewrite Ht, Hp. done.
Qed.

Lemma request_answers request response t s :
  exists s', on_tool_approval_request request response t s = Returns (tt, s')
    /\ step_answers s s' [response] (fun r => r = response /\ allowed (tar_tool_name request) s).
Proof.
  unfold on_tool_approval_request. destruct (is_cancel_pending s) eqn:Ec.
  { eexists. split; [done|]. by apply step_log. }
  destruct (deny_spec t s) as (s1 & E1 & Hw & Ha). pose proof (policy_deny _ _ _ E1) as Hpol. rewrite E1.
  eexists. split; [reflexivity|]. apply (step_denied _ _ _ _ _ Hw Ha).
  destruct (read_only_turn_active s1) eqn:Er; [by apply step_log|].
  pose proof (grant_policy (tar_tool_name request) _ _ Hpol) as Hg. unfold policy in Hpol. injection Hpol as Hr Ho _.
  assert (read_only_turn_active s = false) as Hro by congruence.
  destruct (auto_approve_session (overlay s1)) eqn:Eo.
  { eapply step_log_same; [apply answers_auto|]. intros _. repeat split; [done..|]. left. congruence. }
  destruct (grant_for (tar_tool_name request) s1) as [[capability scope]|] eqn:Eg; [|by apply step_asked].
  eapply step_log_same; [rewrite answers_auto; by destruct (bool_decide (scope = Once))|].
  intros _. repeat split; [done..|]. right. congruence.
Qed.

Lemma denied_then s0 s s1 s' t :
  asks s0 = asks s -> deny_pending t s0 = Returns (tt, s1) -> asks s' = asks s1 ->
  waiting s' = [] /\ answers s' = answers s ++ map (fun r => (r, false)) (waiting s).
Proof.
  intros [Hw0 Ha0]%asks_waiting E [Hw Ha]%asks_waiting. destruct (deny_spec t s0) as (s2 & E2 & Hw2 & Ha2).
  rewrite E in E2. injection E2 as <-. rewrite Hw, Ha, Hw2, Ha2, Hw0, Ha0. done.
Qed.

Lemma asks_clear_sessions s : asks (clear_sessions s) = asks s.
Proof. apply asks_with_active. Qed.
Lemma asks_note_validation r s : asks (note_validation r s) = asks s.
Proof. unfold note_validation. by destruct r, (active_edit_loop s). Qed.

Lemma asks_close_edit_loop outcome t s : asks (close_edit_loop outcome t s) = asks s.
Proof.
  unfold close_edit_loop. destruct (outcome_line outcome) as [line severity].
  set (s1 := append_turn_timing_line _).
  assert (asks s1 = asks s) as E1 by (subst s1; rewrite asks_timing; by autorewrite with asks).
  clearbody s1. autorewrite with asks. destruct (is_pulse_in_progress s1); [|done]. destruct outcome; by autorewrite with asks.
Qed.

Lemma asks_close_failed message t s : asks (close_failed message t s) = asks s.
Proof. unfold close_failed. by autorewrite with asks. Qed.

Lemma asks_request_cancel s : asks (request_cancel s) = asks s.
Proof. unfold request_cancel, push_history_line. autorewrite with asks. destruct (command_session_active _); by autorewrite with asks. Qed.

(** The ends of a pulse deny what is asked. *)
Lemma end_answers u response t s s' :
  match u with UiEditLoopComplete _ _ | UiError _ => True | _ => False end ->
  on_model_update u response t s = Returns (tt, s') ->
  waiting s' = [] /\ answers s' = answers s ++ map (fun r => (r, false)) (waiting s).
Proof.
  destruct u; try done; intros _; unfold on_model_update, on_edit_loop_complete, on_error.
  all: destruct (deny_pending t _) as [[[] s1]|] eqn:E; [|done]; intros [= <-].
  - eapply denied_then; [|exact E | apply asks_close_edit_loop]. by rewrite asks_note_validation, <- (asks_clear_sessions s).
  - eapply denied_then; [|exact E | apply asks_close_failed]. apply asks_clear_sessions.
Qed.

Lemma step_of_denials s s' why :
  waiting s' = [] /\ answers s' = answers s ++ map (fun r => (r, false)) (waiting s) -> step_answers s s' [] why.
Proof.
  intros [Hw Ha]. exists (map (fun r => (r, false)) (waiting s)). rewrite Hw, map_fst_answers, !app_nil_r.
  split_and!; [done | done | apply denials_why].
Qed.

Lemma step_weaken s s' asked (why why' : N -> Prop) :
  (forall r, why r -> why' r) -> step_answers s s' asked why -> step_answers s s' asked why'.
Proof.
  intros Hw (answered & E & Hp & Hwhy). exists answered. split_and!; [done..|].
  eapply Forall_impl; [exact Hwhy|]. intros a Ha Hb. by apply Hw, Ha.
Qed.

Lemma finished_answers t s0 s s' b why :
  asks s0 = asks s -> complete_turn_if_idle t s0 = Returns (b, s') -> step_answers s s' [] why.
Proof.
  intros Hs E. destruct (asks_waiting _ _ Hs) as [Hw Ha]. destruct b.
  - apply complete_answers in E as [Hw' Ha']. apply step_of_denials. by rewrite Ha', Hw, Ha.
  - destruct (complete_spec t s0) as (b & s1 & E1 & H). rewrite E in E1. injection E1 as <- <-. subst s'.
    by apply step_same.
Qed.

(** Every update answers what it ends or replaces with a no, and a request with a yes only if the
    tool is allowed. *)
Lemma update_answers u response t s s' :
  on_model_update u response t s = Returns (tt, s') ->
  step_answers s s' (requested u response)
    (fun r => exists request, u = UiToolApprovalRequest request /\ r = response /\ allowed (tar_tool_name request) s).
Proof.
  destruct u; cbn [requested].
  all: try (intros E; apply step_of_denials; refine (end_answers _ response t s s' _ E); done).
  all: unfold on_model_update.
  - unfold on_transcript_line. destruct (if _ <? _ then _ else _) as [clipped|]; [|done]. intros [= <-].
    apply step_same. by rewrite asks_preserve, asks_notice, asks_running.
  - intros [= <-]. apply step_same, asks_stream_delta.
  - intros [= <-]. apply step_same, asks_block_start.
  - intros [= <-]. apply step_same, asks_block_delta.
  - intros [= <-]. apply step_same. unfold on_arguments. by rewrite asks_grown, asks_try_entries.
  - intros [= <-]. apply step_same, asks_try_entries.
  - intros E. destruct (request_answers request response t s) as (s1 & E1 & H). rewrite E in E1. injection E1 as <-.
    eapply step_weaken; [|exact H]. intros r [-> Hal]. by exists request.
  - intros [= <-]. apply step_same. unfold on_server_metadata. destruct (is_cancel_pending s); [done | apply asks_with_active].
  - intros [= <-]. apply step_same, asks_session.
  - intros [= <-]. apply step_same, asks_with_active.
  - destruct (complete_turn_if_idle t _) as [[b s1]|] eqn:E; [|done]. intros [= <-].
    eapply finished_answers; [|exact E]. apply asks_with_active.
  - destruct (complete_turn_if_idle t _) as [[b s1]|] eqn:E; [|done]. intros [= <-].
    eapply finished_answers; [|exact E]. apply asks_set_turn_completion_pending.
  - intros [= <-]. by apply step_same.
Qed.

(** The only panic. *)
Lemma update_returns u response t s :
  (exists s', on_model_update u response t s = Returns (tt, s'))
  \/ (on_model_update u response t s = Panics
      /\ exists line, u = UiTranscriptLine line /\ 512 < blen line /\ is_char_boundary line 512 = false).
Proof.
  destruct u; unfold on_model_update; try (left; eexists; reflexivity).
  - unfold on_transcript_line. change MAX_TRANSCRIPT_LINE_CHARS with 512.
    destruct (N.ltb_spec 512 (blen line)) as [Hl|Hl]; [|left; eexists; reflexivity].
    destruct (byte_slice 0 512 line) as [head|] eqn:Eb; [left; eexists; reflexivity|].
    right. split; [done|]. exists line. split_and!; [done..|]. destruct (is_char_boundary line 512) eqn:E; [|done].
    apply boundary_spec in E as (a & b & -> & Ea). exfalso.
    pose proof (byte_slice_app [] a b) as H. cbn [app blen] in H. rewrite N.add_0_l, Ea in H. congruence.
  - left. destruct (request_answers request response t s) as (s' & H & _). by exists s'.
  - left. unfold on_edit_loop_complete.
    destruct (deny_spec t (note_validation last_validation_result (set_last_error_message None (clear_sessions s)))) as (s1 & -> & _).
    eexists. reflexivity.
  - left. destruct (complete_spec t (with_active (fun a => set_command_sessions (delete session_id (command_sessions a)) a) s)) as (b & s1 & -> & _).
    eexists. reflexivity.
  - left. destruct (complete_spec t (set_turn_completion_pending true s)) as (b & s1 & -> & _). eexists. reflexivity.
  - left. unfold on_error. destruct (deny_spec t (clear_sessions s)) as (s1 & -> & _). eexists. reflexivity.
Qed.

Lemma interrupt_answers t s :
  exists s', on_interrupt t s = Returns (tt, s') /\ step_answers s s' [] (fun _ => False)
    /\ (is_pulse_in_progress s = true -> is_cancel_pending s = false -> waiting s' = []).
Proof.
  unfold on_interrupt. destruct (is_pulse_in_progress s); [|destruct (pending_quit s)].
  - destruct (is_cancel_pending s); [exists s; split_and!; [done | by apply step_same | done]|].
    destruct (deny_pending t (log PulseCancelled s)) as [[[] s1]|] eqn:E;
      [|by destruct (deny_spec t (log PulseCancelled s)) as (? & E' & _); rewrite E in E'].
    eexists. split; [reflexivity|].
    assert (waiting (request_cancel s1) = [] /\ answers (request_cancel s1) = answers s ++ map (fun r => (r, false)) (waiting s)) as H.
    { eapply denied_then; [|exact E | apply asks_request_cancel]. by apply asks_log. }
    split; [by apply step_of_denials | by destruct H].
  - eexists. split; [reflexivity|]. split; [by apply step_same | done].
  - eexists. split; [reflexivity|]. split; [|done]. apply step_same. unfold push_history_line. by autorewrite with asks.
Qed.

(** ** Answers of the user *)
Definition accepts (input : str) : Prop :=
  parse_approval_selection input = Some ApproveOnce \/ parse_approval_selection input = Some ApproveSession.

Lemma step_resolved s s0 s' approved t why :
  asks s0 = asks s -> resolve_pending_approval approved t s0 = Returns (tt, s') ->
  (approved = true -> forall r, r ∈ asked_tool (overlay s) -> why r) -> step_answers s s' [] why.
Proof.
  intros (Ha0 & Hp0 & Hans0)%asks_same E Hwhy. destruct (resolve_spec approved t s0) as (s1 & E1 & Ha & Hp & Hans).
  rewrite E in E1. injection E1 as <-.
  assert (asked_tool (overlay s0) = asked_tool (overlay s)) as Et by (unfold asked_tool; by rewrite Ha0).
  exists (map (fun r => (r, approved)) (asked_tool (overlay s))). rewrite app_nil_r, map_fst_answers. split_and!.
  - by rewrite Hans, Hans0, Et.
  - unfold waiting, asked_patch. unfold asked_tool at 2. by rewrite Ha, Hp, Hp0.
  - apply list.Forall_forall. intros a (r & -> & Hr)%list_elem_of_fmap Hb. by apply Hwhy.
Qed.

Lemma approval_input_answers input t s :
  exists s', handle_approval_input input t s = Returns (tt, s')
    /\ step_answers s s' [] (fun r => r ∈ asked_tool (overlay s) /\ accepts input).
Proof.
  assert (forall b x, asks x = asks s -> (b = true -> accepts input) ->
    exists s', resolve_pending_approval b t x = Returns (tt, s')
      /\ step_answers s s' [] (fun r => r ∈ asked_tool (overlay s) /\ accepts input)) as H.
  { intros b x Hx Hb. destruct (resolve_spec b t x) as (s1 & E & _). exists s1. split; [done|].
    eapply step_resolved; [exact Hx | exact E |]. intros Hok r Hr. auto. }
  unfold handle_approval_input, accepts in *. destruct (parse_approval_selection input) as [[]|].
  1, 2, 3: apply H; [by autorewrite with asks | by auto].
  eexists. split; [done|]. apply step_same. by autorewrite with asks.
Qed.

Lemma patch_input_answers input s :
  step_answers s (handle_patch_overlay_input input s) []
    (fun r => r ∈ asked_patch (overlay s) /\ parse_approval_selection input = Some ApproveOnce).
Proof.
  unfold handle_patch_overlay_input. destruct (ov_pending_patch_approval (overlay s)) as [p|] eqn:Ep; [|by apply step_same].
  assert (forall b, step_answers s (resolve_pending_patch_approval b s) []
            (fun r => r ∈ asked_patch (overlay s) /\ b = true)) as H.
  { intros b. destruct (resolve_patch_spec b s) as (Ha & Hp & Hans).
    exists (map (fun r => (r, b)) (asked_patch (overlay s))). rewrite app_nil_r, map_fst_answers. split_and!.
    - done.
    - unfold waiting. unfold asked_patch at 2. rewrite Hp, app_nil_r. unfold asked_tool. rewrite Ha. apply Permutation_app_comm.
    - apply list.Forall_forall. intros a (r & -> & Hr)%list_elem_of_fmap Hb. done. }
  destruct (parse_approval_selection input) as [[]|].
  - eapply step_weaken; [|apply (H true)]. by intros r [Hr _].
  - by apply step_same.
  - eapply step_weaken; [|apply (H false)]. by intros r [_ ?].
  - by apply step_same.
Qed.
End updates.
