(* ===== verification/TerminalRuns.v ===== *)
(** A session of the terminal interface: whatever the user types, whatever the model does and in
    whatever order, every tool that asks for an approval gets one answer, and a yes has a reason. *)
From Stdlib Require Import NArith ZArith Lia.
From stdpp Require Import base list gmap strings numbers sets.
From S2P Require Import Prelude Text ByteIndex InputMetrics Collections Json Usage Evidence PeerChannel Envelope ToolPreview TaskDocument TaskSnapshot ToolRules ConversationState Validation RuntimeContext EditLoop Memory Transcript TerminalState Terminal TerminalUpdates TerminalCommands TerminalInput TerminalTheory ConversationTurn.
#[local] Open Scope N_scope.

Section runs.
Context {js : SerdeJson} {pretty : PrettyJson} {diff : LineDiff}.
Context {cw : CharWidth} {seg : Segmentation} {wrap : TextWrap} {ansi : AnsiText}.
Context {alnum : Alphanumeric} {time : TimeText}.

(** ** Commands are not about approvals *)
Lemma asks_history line s : asks (push_history_line line s) = asks s.
Proof. apply asks_notice. Qed.
#[local] Hint Rewrite asks_history @asks_clear_sessions @asks_note_validation : asks.

Lemma asks_lines ls s : asks (push_lines ls s) = asks s.
Proof.
  unfold push_lines. revert s. induction ls as [|l ls IH]; intros s; [done|]. cbn [foldl].
  by rewrite IH, asks_history.
Qed.
Lemma asks_echo input s : asks (echo input s) = asks s.
Proof. unfold echo. by autorewrite with asks. Qed.
Lemma asks_log_other e s : match e with Answered _ _ => False | _ => True end -> asks (log e s) = asks s.
Proof. intros He. apply asks_log. by destruct e. Qed.
#[local] Hint Rewrite asks_lines asks_echo : asks.
#[local] Hint Rewrite asks_log_other using exact I : asks.

Lemma asks_begin input policy t s s' :
  begin_turn_capture_with_policy input policy t s = Returns (tt, s') -> asks s' = asks s.
Proof. destruct (begin_turn_capture_spec input policy t s) as (s1 & -> & E & _). by intros [= <-]. Qed.

(** An operation that returns and asks nothing. *)
Definition quiet (m : T unit) : Prop := forall s, exists s', m s = Returns (tt, s') /\ asks s' = asks s.

Lemma quiet_turn rendered ro prompt policy shared t : quiet (start_single_turn_with_policy rendered ro prompt policy shared t).
Proof.
  intros s. unfold start_single_turn_with_policy.
  destruct (begin_turn_capture_spec rendered policy t (set_read_only_turn_active ro s)) as (s1 & -> & E & _).
  eexists. split; [reflexivity|]. by autorewrite with asks in *; rewrite E; autorewrite with asks.
Qed.

Lemma asks_open i s : asks (open_task i s) = asks s.
Proof. done. Qed.
Lemma asks_surface s : asks (reset_session_surface s) = asks s.
Proof. unfold reset_session_surface. by autorewrite with asks. Qed.
Lemma asks_window s : asks (reset_conversation_window s) = asks s.
Proof. unfold reset_conversation_window. by rewrite asks_surface, asks_log_other. Qed.
#[local] Hint Rewrite asks_open asks_surface asks_window : asks.

Lemma asks_seed found e s : asks (seed_next_request_from_working_set found e s) = asks s.
Proof. unfold seed_next_request_from_working_set. destruct found; by autorewrite with asks. Qed.
Lemma asks_resumed state found e s : asks (apply_resumed_task state found e s) = asks s.
Proof.
  unfold apply_resumed_task. rewrite asks_notice, asks_seed. autorewrite with asks. by destruct (ti_instructions_path _).
Qed.
#[local] Hint Rewrite asks_seed asks_resumed : asks.

Lemma asks_prompt_resume entries s : asks (prompt_resume_selection entries s) = asks s.
Proof.
  unfold prompt_resume_selection. set (s1 := foldl _ _ _).
  assert (asks s1 = asks s) as E1.
  { subst s1. rewrite <- (asks_notice t!"[resume] choose a task to resume:" Info s).
    generalize (push_document_notice t!"[resume] choose a task to resume:" Info s) as x.
    generalize (imap (fun index e => t!"  " ++ fmt_N (N.of_nat index + 1) ++ t!". " ++ rt_id e ++ t!" (" ++ rt_status e ++ t!")") entries) as ls.
    induction ls as [|l ls IH]; intros x; [done|]. cbn [foldl]. by rewrite IH, asks_notice. }
  rewrite <- E1, <- (asks_notice t!"[resume] type 1-5 to select or n to cancel" Info s1). done.
Qed.

Lemma asks_resume_input disk input s : asks (handle_resume_selection_input disk input s) = asks s.
Proof.
  unfold handle_resume_selection_input. destruct (str_in _ _); [by autorewrite with asks|].
  destruct (parse_uint _ _); [|by autorewrite with asks]. destruct (ov_pending_resume_selection _ ≫= _); [|by autorewrite with asks].
  unfold resume. destruct (load_from _ _ _); by autorewrite with asks.
Qed.

Lemma asks_memory_clear_input input s : asks (handle_memory_clear_input input s) = asks s.
Proof.
  unfold handle_memory_clear_input. destruct (str_in _ _); [|by autorewrite with asks].
  destruct (notes_path _); [|by autorewrite with asks]. destruct (clear_store _) as [[e|] disk]; by autorewrite with asks.
Qed.

Lemma asks_validation suite label remember l result s :
  asks (run_validation_suite_to_transcript suite label remember l result s) = asks s.
Proof.
  unfold run_validation_suite_to_transcript. destruct suite; [by autorewrite with asks|].
  destruct result as [r|e]; [|by autorewrite with asks]. unfold push_validation_result_lines.
  match goal with |- asks (foldl _ ?x ?ls) = _ => change (asks (push_lines ls x) = asks s) end.
  rewrite asks_lines. by destruct remember.
Qed.

Lemma asks_compact t s : asks (handle_compact_command t s) = asks s.
Proof.
  unfold handle_compact_command, write_working_set_sidecar. destruct (write_working_set _ _ _) as [written file].
  autorewrite with asks. by destruct written; autorewrite with asks.
Qed.

Lemma asks_grants caps source s : asks (grant_task_capabilities caps source s) = asks s.
Proof.
  unfold grant_task_capabilities. destruct (foldl grant_task _ _) as [names d].
  destruct (bool_decide _); [done|]. by autorewrite with asks.
Qed.

Lemma quiet_edit instruction source l t : quiet (begin_edit instruction source l t).
Proof.
  intros s. unfold begin_edit.
  destruct (begin_turn_capture_spec instruction DefaultPolicy t (set_active_edit_loop (Some l) (grant_task_capabilities EDIT_CAPABILITIES source s)))
    as (s1 & E1 & E & _). unfold begin_turn_capture. rewrite E1. eexists. split; [reflexivity|].
  rewrite asks_log_other, E by exact I. rewrite asks_set_active_edit_loop. apply asks_grants.
Qed.

(** Cases on what an operation looks at, then the fields it leaves alone. *)
Ltac asks_cases :=
  repeat (autorewrite with asks;
          match goal with
          | |- asks match ?x with _ => _ end = _ => destruct x
          | |- asks (let '(_, _) := ?x in _) = _ => destruct x
          | |- asks (push_history_line match ?x with _ => _ end _) = _ => destruct x
          end);
  autorewrite with asks; try reflexivity.

Lemma asks_with_notes disk s : asks (set_notes_disk disk s) = asks s.
Proof. done. Qed.
Lemma asks_file file s : asks (set_working_set_file file s) = asks s.
Proof. done. Qed.

Lemma asks_memory_add note s : asks (handle_memory_add note s) = asks s.
Proof. unfold handle_memory_add. asks_cases. Qed.
Lemma asks_memory_accept selector s : asks (handle_memory_accept selector s) = asks s.
Proof. unfold handle_memory_accept. asks_cases. Qed.
Lemma asks_memory_auto_clear s : asks (handle_memory_auto_clear s) = asks s.
Proof. unfold handle_memory_auto_clear. asks_cases. Qed.
Lemma asks_memory_clear s : asks (handle_memory_clear_command s) = asks s.
Proof. unfold handle_memory_clear_command. rewrite asks_history. done. Qed.
Lemma asks_resume_command disk task_id s : asks (handle_resume_command disk task_id s) = asks s.
Proof. unfold handle_resume_command, resume. asks_cases. apply asks_prompt_resume. Qed.
Lemma asks_new id started updated s : asks (handle_new_command id started updated s) = asks s.
Proof. unfold handle_new_command. asks_cases. Qed.
Lemma asks_fork label id error started updated s : asks (handle_fork_command label id error started updated s) = asks s.
Proof. unfold handle_fork_command. asks_cases. Qed.
Lemma asks_permissions s : asks (handle_permissions_command s) = asks s.
Proof.
  unfold handle_permissions_command. rewrite <- (asks_history t!"[permissions]" s).
  generalize (push_history_line t!"[permissions]" s) as x. induction ALL_CAPABILITIES as [|c l IH]; intros x; [done|].
  cbn [foldl]. by rewrite IH, asks_history.
Qed.
Lemma asks_allow rest s : asks (handle_allow_command rest s) = asks s.
Proof. unfold handle_allow_command. asks_cases. Qed.
Lemma asks_deny rest s : asks (handle_deny_command rest s) = asks s.
Proof. unfold handle_deny_command. asks_cases. Qed.
Lemma asks_model name busy s : asks (handle_model_command name busy s) = asks s.
Proof. unfold handle_model_command. asks_cases. Qed.

Lemma asks_quit s : asks (handle_quit_command s) = asks s.
Proof. done. Qed.
Lemma asks_memory_auto b s : asks (handle_memory_auto b s) = asks s.
Proof. unfold handle_memory_auto. by rewrite asks_history. Qed.
Lemma asks_sync saved s : asks (sync_session_tasks saved s) = asks s.
Proof. by destruct saved. Qed.
Lemma asks_validate id label remember e args s : asks (validate id label remember e args s) = asks s.
Proof. apply asks_validation. Qed.
#[local] Hint Rewrite asks_memory_add asks_memory_accept asks_memory_auto_clear asks_memory_clear asks_resume_command asks_new
  asks_fork asks_permissions asks_allow asks_deny asks_model asks_quit asks_memory_auto asks_sync asks_validate asks_compact : asks.

Lemma quiet_pure (f : TuiMode -> TuiMode) : (forall s, asks (f s) = asks s) -> quiet (fun s => Returns (tt, f s)).
Proof. intros Hf s. eexists. split; [reflexivity | apply Hf]. Qed.

Lemma quiet_edit_command instruction expanded l t : quiet (handle_edit_command instruction expanded l t).
Proof.
  intros s. unfold handle_edit_command. destruct (edit_loop_running s); [|destruct (is_empty instruction); [|apply quiet_edit]].
  all: eexists; (split; [reflexivity | apply asks_history]).
Qed.

Lemma quiet_fix l t : quiet (handle_fix_command l t).
Proof.
  intros s. unfold handle_fix_command. cbn zeta. destruct (edit_loop_running s); [|destruct (active_edit_loop s ≫= _) as [r|]; [destruct (passed r); [|apply quiet_edit]|]].
  all: eexists; (split; [reflexivity | apply asks_history]).
Qed.

Lemma quiet_reindex enabled t : quiet (handle_reindex_command enabled t).
Proof.
  intros s. unfold handle_reindex_command. destruct (negb enabled); [eexists; split; [reflexivity | apply asks_history]|].
  assert (exists s1, (if command_session_active s then Returns (tt, s) else begin_turn_capture t!"/reindex" t s)
                     = Returns (tt, s1) /\ asks s1 = asks s) as (s1 & -> & E).
  { destruct (command_session_active s); [by exists s|].
    destruct (begin_turn_capture_spec t!"/reindex" DefaultPolicy t s) as (s1 & H1 & H2 & _). by exists s1. }
  eexists. split; [reflexivity|]. rewrite asks_log_other by exact I. unfold begin_command_session. cbn [snd]. by rewrite asks_session, asks_with_doc.
Qed.

Lemma quiet_rendered id e args t : quiet (start_rendered id e args t).
Proof.
  intros s. unfold start_rendered, start_plan, start_single_turn. destruct (rendered e id args) as [[prompt shared]|ls].
  - destruct id; try apply quiet_turn.
    destruct (quiet_turn prompt true (Some (system_prompt e)) DefaultPolicy shared t (set_plan_turn_active true s)) as (s1 & E1 & E2).
    by exists s1.
  - eexists. split; [reflexivity | apply asks_lines].
Qed.

Lemma quiet_command id args e t : quiet (run_command id args e t).
Proof.
  unfold run_command. destruct id.
  all: first [ apply quiet_rendered | apply quiet_edit_command | apply quiet_fix | apply quiet_reindex | apply quiet_pure ]; intros s.
  all: by autorewrite with asks.
Qed.

Lemma slash_quiet input e t s :
  exists b s', try_handle_slash_command input e t s = Returns (b, s') /\ asks s' = asks s.
Proof.
  unfold try_handle_slash_command. destruct (registered_slash_command input) as [[spec args]|].
  - destruct (quiet_command (sc_id spec) args e t s) as (s1 & -> & E). by exists true, s1.
  - destruct (registered_custom_command (custom_commands e) input) as [[command args]|]; [|by exists false, s].
    destruct (rendered_custom e command args) as [prompt shared]. unfold start_single_turn.
    destruct (quiet_turn prompt false None DefaultPolicy shared t s) as (s1 & -> & E). by exists true, s1.
Qed.

(** ** What the user types *)
Lemma not_overlay s : overlay_active s = false ->
  ov_pending_approval (overlay s) = None /\ ov_pending_patch_approval (overlay s) = None.
Proof.
  unfold overlay_active. intros H. apply orb_false_iff in H as [H _]. apply orb_false_iff in H as [H _].
  apply orb_false_iff in H as [Ha Hp]. split; [by destruct (ov_pending_approval (overlay s)) | by destruct (ov_pending_patch_approval (overlay s))].
Qed.

(** A command that waits to be approved has no channel, and is only asked for when nothing else is. *)
Lemma bang_answers command t s why :
  ov_pending_approval (overlay s) = None -> ov_pending_patch_approval (overlay s) = None ->
  exists s', handle_bang_command command t s = Returns (tt, s') /\ step_answers s s' [] why.
Proof.
  intros Ha Hp. unfold handle_bang_command.
  destruct (is_empty (trim command)); [eexists; split; [reflexivity|]; apply step_same; by autorewrite with asks|].
  destruct (auto_approve_session (overlay s)).
  { destruct (start_command_session_spec (trim command) t (push_history_line t!"[auto-approved tool: run_command session]" s)) as (s1 & -> & E).
    exists s1. split; [done|]. apply step_same. by rewrite E, asks_history. }
  destruct (active_grants (info (task_doc s)) !! RunCommand) as [scope|].
  { match goal with |- context [start_command_session _ _ ?x] =>
      destruct (start_command_session_spec (trim command) t x) as (s1 & -> & E) end.
    exists s1. split; [done|]. apply step_same. rewrite E, asks_history. by destruct (bool_decide (scope = Once)). }
  eexists. split; [reflexivity|].
  set (s1 := push_history_line _ s). assert (asks s1 = asks s) as (E1 & E2 & E3)%asks_same by apply asks_history.
  match goal with |- step_answers _ (set_task_status _ ?x) _ _ => set (s2 := x) end.
  destruct (asks_waiting _ _ (asks_status TAwaitingApproval s2)) as [Ew Ea].
  exists []. rewrite Ew, Ea, !app_nil_r. split_and!; [exact E3 | | constructor].
  unfold waiting, asked_tool, asked_patch. cbn. by rewrite E2, Ha, Hp.
Qed.

Definition confirms (input : str) (s : TuiMode) (r : N) : Prop := r ∈ waiting s /\ accepts input.

Lemma overlay_input_answers disk input t s :
  exists s', on_overlay_input disk input t s = Returns (tt, s') /\ step_answers s s' [] (confirms input s).
Proof.
  unfold on_overlay_input. destruct (pending_memory_clear (overlay s)).
  { eexists. split; [reflexivity|]. apply step_same, asks_memory_clear_input. }
  destruct (ov_pending_resume_selection (overlay s)).
  { eexists. split; [reflexivity|]. apply step_same, asks_resume_input. }
  unfold confirms, waiting. destruct (ov_pending_patch_approval (overlay s)).
  - eexists. split; [reflexivity|]. eapply step_weaken; [|apply patch_input_answers].
    intros r [Hr Hi]. split; [apply elem_of_app; by right | by left].
  - destruct (approval_input_answers input t s) as (s' & E & H). exists s'. split; [done|].
    eapply step_weaken; [|exact H]. intros r [Hr Hi]. split; [apply elem_of_app; by left | done].
Qed.

Lemma message_quiet turn_input t : quiet (start_message turn_input t).
Proof.
  intros s. unfold start_message. destruct (begin_turn_capture_spec turn_input DefaultPolicy t s) as (s1 & E1 & E & _).
  unfold begin_turn_capture. rewrite E1. eexists. split; [reflexivity|]. by rewrite asks_log_other.
Qed.

Lemma step_from s s0 s' asked why : asks s0 = asks s -> step_answers s0 s' asked why -> step_answers s s' asked why.
Proof. intros [Hw Ha]%asks_waiting (l & E & Hp & Hl). exists l. by rewrite <- Ha, <- Hw. Qed.

Lemma busy_input_answers input e t s why : overlay_active s = false ->
  exists s', on_busy_input input e t s = Returns (tt, s') /\ step_answers s s' [] why.
Proof.
  intros [Ha Hp]%not_overlay. unfold on_busy_input. destruct (_ && is_reentrant_edit_command _).
  { destruct (slash_quiet input e t (echo input s)) as (b & s1 & -> & E). eexists. split; [reflexivity|].
    apply step_same. by rewrite E, asks_echo. }
  assert (forall line, step_answers s (push_history_line line s) [] why) as Hline by (intros line; apply step_same, asks_history).
  destruct (is_cancel_pending s); [eexists; split; [reflexivity | apply Hline]|].
  destruct (strip_prefix t!"!" (trim input)) as [command|]; [|eexists; split; [reflexivity | apply Hline]].
  destruct (_ && _); [|eexists; split; [reflexivity | apply Hline]].
  pose proof (asks_echo input s) as E. apply asks_same in E as E'. destruct E' as (E1 & E2 & _).
  destruct (bang_answers command t (echo input s) why) as (s1 & H1 & H2); [by rewrite E1 | by rewrite E2|].
  exists s1. split; [done | by eapply step_from].
Qed.

Lemma idle_input_answers input turn_input e t s why : overlay_active s = false ->
  exists s', on_idle_input input turn_input e t s = Returns (tt, s') /\ step_answers s s' [] why.
Proof.
  intros [Ha Hp]%not_overlay. unfold on_idle_input.
  set (s0 := set_quit_requested false (set_pending_quit false s)).
  assert (asks s0 = asks s) as E0 by done. clearbody s0.
  pose proof (asks_echo input s0) as E. rewrite E0 in E. apply asks_same in E as E'. destruct E' as (E1 & E2 & _).
  destruct (strip_prefix t!"!" (trim turn_input)) as [command|].
  { destruct (bang_answers command t (echo input s0) why) as (s1 & H1 & H2); [by rewrite E1 | by rewrite E2|].
    exists s1. split; [done | by eapply step_from]. }
  destruct (starts_with t!"/" turn_input).
  - destruct (slash_quiet turn_input e t (echo input s0)) as (b & s1 & -> & E3). unfold mbind, outcome_bind. destruct b.
    + exists s1. split; [done|]. apply step_same. by rewrite E3.
    + destruct (message_quiet turn_input t s1) as (s2 & -> & E4). exists s2. split; [done|]. apply step_same. by rewrite E4, E3.
  - destruct (message_quiet turn_input t s0) as (s2 & -> & E4). exists s2. split; [done|]. apply step_same. by rewrite E4.
Qed.

Lemma asks_scroll target action s : asks (on_scroll target action s) = asks s \/
  (asks (on_scroll target action s)).1.1 = (asks s).1.1 /\ waiting (on_scroll target action s) = waiting s
  /\ answers (on_scroll target action s) = answers s.
Proof.
  unfold on_scroll. destruct (overlay_active s).
  - destruct target; [|by left..]. unfold apply_patch_overlay_scroll_action.
    destruct (ov_pending_patch_approval (overlay s)) as [p|] eqn:Ep; [|by left]. right.
    split_and!; [done | | done]. unfold waiting, asked_patch. cbn. by rewrite Ep.
  - left. destruct target; [done | |].
    + unfold apply_output_scroll_action. by destruct (output_anchor s).
    + unfold apply_timeline_scroll_action. by destruct action.
Qed.

(** ** Sessions *)
Definition requested_by (h : Happening) : list N :=
  match h with Updated u response => requested u response | _ => [] end.

(** Why a step may answer with a yes. *)
Definition reason (h : Happening) (s : TuiMode) (r : N) : Prop :=
  match h with
  | Updated u response => exists request, u = UiToolApprovalRequest request /\ r = response /\ allowed (tar_tool_name request) s
  | Typed input _ _ => confirms input s r
  | Interrupted | Scrolled _ _ => False
  end.

Definition is_cut_line (h : Happening) : Prop :=
  match h with
  | Updated (UiTranscriptLine line) _ => 512 < blen line /\ is_char_boundary line 512 = false
  | _ => False
  end.

Lemma step_spec h t s :
  (exists s', step h t s = Returns (tt, s') /\ step_answers s s' (requested_by h) (reason h s))
  \/ (step h t s = Panics /\ is_cut_line h).
Proof.
  destruct h as [u response|input turn_input e| |target action]; cbn [step requested_by reason is_cut_line].
  - destruct (update_returns u response t s) as [(s' & E)|(E & line & -> & Hl)]; [left | by right].
    exists s'. split; [done | by apply (update_answers u response t)].
  - left. unfold on_user_input. destruct (overlay_active s) eqn:Eo; [apply overlay_input_answers|].
    destruct (is_pulse_in_progress s); [by apply busy_input_answers | by apply idle_input_answers].
  - left. destruct (interrupt_answers t s) as (s' & E & H & _). by exists s'.
  - left. eexists. split; [reflexivity|]. destruct (asks_scroll target action s) as [E|(_ & Hw & Ha)]; [by apply step_same|].
    exists []. rewrite Hw, Ha, !app_nil_r. split_and!; [done | done | constructor].
Qed.

Lemma run_app h1 h2 s : run (h1 ++ h2) s = ('(_, s) ← run h1 s; run h2 s).
Proof.
  revert s. induction h1 as [|[h t] r IH]; intros s; [done|]. cbn [app run]. destruct (step h t s) as [[[] s1]|]; [|done].
  apply IH.
Qed.

Lemma run_conserves hs s s' : run hs s = Returns (tt, s') ->
  map fst (answers s') ++ waiting s' ≡ₚ map fst (answers s) ++ waiting s ++ List.flat_map (fun ht => requested_by ht.1) hs.
Proof.
  revert s. induction hs as [|[h t] r IH]; intros s; cbn [run List.flat_map].
  { intros [= ->]. by rewrite app_nil_r. }
  destruct (step_spec h t s) as [(s1 & -> & (l & El & Hp & _))|[-> _]]; [|done]. intros H%IH.
  rewrite H, El, map_app, <- app_assoc, (app_assoc (map fst l)), Hp, <- app_assoc. done.
Qed.
End runs.

Section sessions.
Context {js : SerdeJson} {pretty : PrettyJson} {diff : LineDiff}.
Context {cw : CharWidth} {seg : Segmentation} {wrap : TextWrap} {ansi : AnsiText}.
Context {alnum : Alphanumeric} {time : TimeText}.

Definition requests (hs : list (Happening * Moment)) : list N := List.flat_map (fun ht => requested_by ht.1) hs.

(** What ends a pulse, whatever the state: an error, an edit loop that is over, and the message
    that a pulse is complete when no command runs any more. *)
Definition ends_pulse (h : Happening) (s : TuiMode) : Prop :=
  match h with
  | Updated (UiEditLoopComplete _ _) _ | Updated (UiError _) _ => True
  | Updated UiPulseComplete _ => command_session_active s = false
  | Interrupted => is_pulse_in_progress s = true /\ is_cancel_pending s = false
  | _ => False
  end.

Lemma end_denies h t s s' : ends_pulse h s -> step h t s = Returns (tt, s') -> waiting s' = [].
Proof.
  destruct h as [u response|input turn_input e| |target action]; cbn [ends_pulse step]; [|done| |done].
  - destruct u; try done.
    1, 3: intros _ E; by apply end_answers in E as [Hw _].
    intros Hc. unfold on_model_update.
    destruct (complete_turn_if_idle t (set_turn_completion_pending true s)) as [[b s1]|] eqn:E; [|done]. intros [= <-].
    destruct b; [by apply complete_answers in E as [Hw _]|].
    unfold complete_turn_if_idle in E. cbn [turn_completion_pending set_turn_completion_pending] in E.
    replace (command_session_active (set_turn_completion_pending true s)) with (command_session_active s) in E by done.
    rewrite Hc in E. cbn in E. by destruct (resolve_pending_approval false t _) as [[[] ?]|].
  - intros [Hp Hc] E. destruct (interrupt_answers t s) as (s1 & E1 & _ & Hw). rewrite E in E1. injection E1 as <-. auto.
Qed.

(** C4: In a session of the terminal interface, in which the user types anything at any time, the
    model streams anything and the updates of tools, commands and edit loops come in any order:
    every tool that asks for an approval is answered or still asked, never both and never twice, and
    once a pulse has ended (an error, an edit loop that is over, an interrupt, or a completed pulse
    with no command running) every tool that has asked has its one answer. *)
Theorem approvals_answered_once hs h t s0 s s' :
  waiting s0 = [] -> answers s0 = [] -> NoDup (requests (hs ++ [(h, t)])) ->
  run hs s0 = Returns (tt, s) -> step h t s = Returns (tt, s') ->
  NoDup (map fst (answers s)) /\ (forall r, r ∈ requests hs <-> r ∈ map fst (answers s) \/ r ∈ waiting s)
  /\ (forall r, r ∈ map fst (answers s) -> r ∉ waiting s)
  /\ (ends_pulse h s -> map fst (answers s') ≡ₚ requests (hs ++ [(h, t)])).
Proof.
  intros Hw0 Ha0 Hnd Hrun Hstep. pose proof (run_conserves _ _ _ Hrun) as Hp. fold (requests hs) in Hp.
  rewrite Ha0, Hw0 in Hp. cbn [map app] in Hp. unfold requests in Hnd. rewrite List.flat_map_app in Hnd. fold (requests hs) in Hnd.
  apply NoDup_app in Hnd as (Hnd & _ & _). rewrite <- Hp in Hnd. apply NoDup_app in Hnd as (Hnd & Hdis & _).
  split_and!; [done | | done |].
  - intros r. by rewrite <- Hp, elem_of_app.
  - intros He. pose proof (end_denies h t s s' He Hstep) as Hw'.
    assert (run (hs ++ [(h, t)]) s0 = Returns (tt, s')) as Hrun'.
    { rewrite run_app, Hrun. cbn. by rewrite Hstep. }
    pose proof (run_conserves _ _ _ Hrun') as Hp'. fold (requests (hs ++ [(h, t)])) in Hp'.
    by rewrite Ha0, Hw0, Hw', app_nil_r in Hp'.
Qed.

(** C3: A tool is approved only for a reason: in a session of the terminal interface, whenever a tool
    has been answered yes, either the user had been asked for it and typed an answer that accepts,
    or it had asked while its pulse was neither being cancelled nor read-only and the user had
    approved the session or granted the capability of the tool. *)
Theorem approvals_have_reasons hs s0 s r :
  answers s0 = [] -> run hs s0 = Returns (tt, s) -> (r, true) ∈ answers s ->
  exists before h t after s1, hs = before ++ (h, t) :: after /\ run before s0 = Returns (tt, s1)
    /\ (r, true) ∉ answers s1 /\ reason h s1 r.
Proof.
  intros Ha0. assert ((r, true) ∉ answers s0) as Hout by (rewrite Ha0; apply not_elem_of_nil). clear Ha0.
  revert s0 Hout. induction hs as [|[h t] hs IH]; intros s0 Hout; cbn [run]; [by intros [= ->]|].
  destruct (step_spec h t s0) as [(s1 & E & (l & El & _ & Hwhy))|[-> _]]; [|done]. rewrite E. intros Hrun Hin.
  destruct (decide ((r, true) ∈ l)) as [Hl|Hl].
  - exists [], h, t, hs, s0. split_and!; [done..|]. rewrite list.Forall_forall in Hwhy. by apply (Hwhy (r, true)).
  - destruct (IH s1) as (before & h' & t' & after & s2 & -> & Hb & Ho & Hr); [|done|done|].
    + rewrite El. intros [|]%elem_of_app; done.
    + exists ((h, t) :: before), h', t', after, s2. split_and!; [done| |done|done]. cbn [run]. by rewrite E.
Qed.

(** C26: A session of the terminal interface stops in one case only: a tool or a command shows a line
    of more than 512 bytes whose 512th byte is inside a character. *)
Theorem session_panics_iff hs s : run hs s = Panics <-> exists ht, ht ∈ hs /\ is_cut_line ht.1.
Proof.
  revert s. induction hs as [|[h t] hs IH]; intros s; cbn [run].
  { split; [done|]. by intros (ht & ?%elem_of_nil & _). }
  destruct (step_spec h t s) as [(s1 & E & _)|[E Hc]]; rewrite E.
  - cbn [mbind outcome_bind]. rewrite IH. split.
    + intros (ht & Hin & Hc). exists ht. split; [by right | done].
    + intros (ht & [->|Hin]%elem_of_cons & Hc); [|by exists ht]. exfalso. revert E Hc. clear.
      destruct h as [[]|input turn_input e| |]; cbn [step is_cut_line fst]; try done. intros E [Hl Hb].
      unfold on_model_update, on_transcript_line in E. change MAX_TRANSCRIPT_LINE_CHARS with 512 in E.
      rewrite (proj2 (N.ltb_lt _ _) Hl) in E. destruct (byte_slice 0 512 line) as [m|] eqn:Em; [|done].
      apply byte_slice_Returns in Em as (p & q & -> & Hp & Hm). apply blen_zero in Hp as ->. cbn [app] in *.
      rewrite N.add_0_l in Hm. rewrite Hm, boundary_app in Hb. done.
  - cbn [mbind outcome_bind]. split; [|done]. intros _. exists (h, t). split; [by left | done].
Qed.
End sessions.

(** ** Witnesses *)
Definition spaced_words : TextWrap := fun _ text => [text].
Definition unstyled : AnsiText := fun text => Some (map (fun l => [l]) (lines text)).
Definition single_characters : Segmentation := {| graphemes := map (fun c => [c]); str_width := fun s => N.of_nat (length s) |}.
Definition ascii_alphanumeric : Alphanumeric := fun c =>
  is_ascii_digit c || ((65 <=? c) && (c <=? 90)) || ((97 <=? c) && (c <=? 122)).
Definition plain_time : TimeText := {| seconds_text := fmt_N; milliseconds_text := fun _ => t!"1" |}.

Definition sample_mode : TuiMode :=
  new_with_config None (mk_TuiSettings false t!"m" LocalRuntime t!"http://localhost" false 5) t!"task-1" 0
    (mk_NotesDisk NoStore NoNotes None None None) Absent.
Definition sample_env : CommandEnv := {|
  disk := {| recent_entries := []; load_from _ _ := None; load_from_search_dirs _ := None;
             find_working_set _ := Absent; working_set_error := [] |};
  new_task := t!"task-2"; made_at := 0; updated_at := 0; save_error := None; model_busy := None;
  expand := id; system_prompt := []; new_edit_loop := edit_loop_new (FileSystem.components t!"/w");
  rendered _ _ := inr []; rendered_custom _ _ := ([], None); custom_commands := [];
  validation_suite _ _ := []; validation_result _ := inr []; shown _ _ := [];
  delegated _ := None; search_enabled := false;
|}.
Definition instant_of (n : N) : Moment := mk_Moment n n n PulseTokens.default.
Definition a_tool : UiUpdate := UiToolApprovalRequest (mk_ToolApprovalRequest t!"write_file" t!"{}").
(** A message, a tool that the user approves, another that waits. *)
Definition sample_run : list (Happening * Moment) :=
  [ (Typed t!"hello" t!"hello" sample_env, instant_of 1); (Updated a_tool 7, instant_of 2);
    (Typed t!"y" t!"y" sample_env, instant_of 3); (Updated a_tool 8, instant_of 4) ].

#[local] Existing Instances empty_codec plain_pretty plain_diff simple_width single_characters spaced_words unstyled
  ascii_alphanumeric plain_time.

Lemma approvals_answered_once_witness :
  exists s s', run sample_run sample_mode = Returns (tt, s) /\ step (Updated UiPulseComplete 0) (instant_of 5) s = Returns (tt, s')
    /\ answers s = [(7, true)] /\ waiting s = [8] /\ map fst (answers s') ≡ₚ [7; 8].
Proof.
  destruct (run sample_run sample_mode) as [[[] s]|] eqn:E; [|vm_compute in E; discriminate E].
  destruct (step (Updated UiPulseComplete 0) (instant_of 5) s) as [[[] s']|] eqn:E1;
    [|vm_compute in E; injection E as <-; vm_compute in E1; discriminate E1].
  exists s, s'. split; [done|]. split; [done|].
  assert (answers s = [(7, true)] /\ waiting s = [8] /\ command_session_active s = false) as (Ha & Hw & Hc).
  { vm_compute in E. injection E as <-. by vm_compute. }
  split_and!; [exact Ha | exact Hw|].
  destruct (approvals_answered_once sample_run (Updated UiPulseComplete 0) (instant_of 5) sample_mode s s') as (_ & _ & _ & H);
    [reflexivity | reflexivity | | exact E | exact E1 | exact (H Hc)].
  apply (bool_decide_unpack _). by vm_compute.
Defined.

Lemma approvals_have_reasons_witness :
  exists before h t after s1, sample_run = before ++ (h, t) :: after /\ run before sample_mode = Returns (tt, s1)
    /\ (7, true) ∉ answers s1 /\ reason h s1 7.
Proof.
  destruct (run sample_run sample_mode) as [[[] s]|] eqn:E; [|vm_compute in E; discriminate E].
  refine (approvals_have_reasons sample_run sample_mode s 7 eq_refl E _).
  vm_compute in E. injection E as <-. vm_compute. left.
Defined.
