(* ===== verification/TaskStore.v ===== *)
(** The files of tasks: src/runtime/task_state/persist.rs and mod.rs, the headers of task_header.rs,
    the join index of join_index.rs and the worktrees of src/runtime/worktree_lease.rs.

    A directory is the list of its entries in the order in which they are read, a file the state
    that [serde_json] reads from it or, when it reads none, the header it may still read.  A name
    with a separator is a file somewhere else: it is found by its name and never listed.  The
    readings of the clock in one operation are one instant; what the file system and git refuse is
    part of the surroundings. *)
From Stdlib Require Import NArith ZArith Lia.
From stdpp Require Import base list gmap strings numbers sets.
From S2P Require Import Prelude Text Collections Usage Evidence PeerChannel TaskDocument TaskSnapshot.
#[local] Open Scope N_scope.

(** ** Task states: mod.rs *)
Definition task_state_new (id : str) (now : N) : TaskState :=
  mk_TaskState id TReady None None None (Some now) now None None ∅ [] [] (mk_ConversationCheckpoint 0 []) [] None
    None [] None [] [] (mk_CacheUsageStats 0 0) [].

Definition ts_with_session_tasks (v : list SessionTask) (s : TaskState) : TaskState :=
  mk_TaskState (ts_id s) (ts_status s) (ts_parent_task_id s) (ts_agent_id s) (ts_worktree_path s) (ts_started_at s)
    (ts_updated_at s) (ts_last_heartbeat s) (ts_handoff_summary s) (ts_active_grants s) (ts_changed_files s)
    (ts_command_history s) (conversation_snapshot s) (interrupted_sessions s) (ts_branch_name s)
    (ts_instructions_path s) (ts_pulses s) (plan s) (ts_session_notes s) (ts_context_compaction s) (cache_usage s) v.
Definition ts_with_handoff (v : str) (s : TaskState) : TaskState :=
  mk_TaskState (ts_id s) (ts_status s) (ts_parent_task_id s) (ts_agent_id s) (ts_worktree_path s) (ts_started_at s)
    (ts_updated_at s) (ts_last_heartbeat s) (Some v) (ts_active_grants s) (ts_changed_files s)
    (ts_command_history s) (conversation_snapshot s) (interrupted_sessions s) (ts_branch_name s)
    (ts_instructions_path s) (ts_pulses s) (plan s) (ts_session_notes s) (ts_context_compaction s) (cache_usage s)
    (ts_session_tasks s).
Definition ts_touch (now : N) (s : TaskState) : TaskState :=
  mk_TaskState (ts_id s) (ts_status s) (ts_parent_task_id s) (ts_agent_id s) (ts_worktree_path s) (ts_started_at s)
    now (ts_last_heartbeat s) (ts_handoff_summary s) (ts_active_grants s) (ts_changed_files s)
    (ts_command_history s) (conversation_snapshot s) (interrupted_sessions s) (ts_branch_name s)
    (ts_instructions_path s) (ts_pulses s) (plan s) (ts_session_notes s) (ts_context_compaction s) (cache_usage s)
    (ts_session_tasks s).

Definition add_session_task (t : SessionTask) (now : N) (s : TaskState) : TaskState :=
  ts_touch now (ts_with_session_tasks (ts_session_tasks s ++ [t]) s).

Definition has_id (id : str) (t : SessionTask) : bool := str_eqb (st_id t) id.
Definition session_task (id : str) (s : TaskState) : option SessionTask := List.find (has_id id) (ts_session_tasks s).

(** The first task of an identifier changed, as [iter_mut().find] does. *)
Fixpoint update_task (id : str) (f : SessionTask -> SessionTask) (l : list SessionTask) : option (list SessionTask) :=
  match l with
  | [] => None
  | t :: r => if has_id id t then Some (f t :: r)
              else match update_task id f r with Some r => Some (t :: r) | None => None end
  end.

Definition update_session_task_status (id : str) (status : SessionTaskStatus) (now : N) (s : TaskState) : bool * TaskState :=
  match update_task id (transition_to status now now) (ts_session_tasks s) with
  | None => (false, s)
  | Some tasks => (true, ts_touch now (ts_with_session_tasks tasks s))
  end.

(** ** The headers: task_header.rs *)
Record SessionTaskSummary := mk_SessionTaskSummary { su_agent_id : str; su_status : SessionTaskStatus }.
Record TaskStateHeader := mk_TaskStateHeader {
  th_id : str;
  th_modified_millis : N;
  th_session_tasks : option (list SessionTaskSummary);
}.

(** ** Files and directories *)
Inductive StateFile : Type := FileState (s : TaskState) | FileOther (header : option TaskStateHeader).
Record Entry := mk_Entry { e_name : str; e_modified : N; e_file : StateFile }.
Definition Dir : Type := list Entry.

Definition summary_of (t : SessionTask) : SessionTaskSummary := mk_SessionTaskSummary (agent_id t) (lifecycle_state t).
Definition header_of (f : StateFile) : option TaskStateHeader :=
  match f with
  | FileState s => Some (mk_TaskStateHeader (ts_id s) (ts_updated_at s) (Some (map summary_of (ts_session_tasks s))))
  | FileOther h => h
  end.

Definition state_file_name (id : str) : str := id ++ t!".json".
Definition SLASH : char := 47.
Definition DOT_CHAR : char := 46.

(** [Path::extension] and [Path::file_stem] of a name. *)
Definition stem_and_extension (name : str) : option (str * str) :=
  match rfind_char DOT_CHAR name with
  | Some (S n) => Some (take (S n) name, drop (S (S n)) name)
  | _ => None
  end.

Definition is_join_index_filename (name : str) : bool := ends_with t!".join.json" name.
Definition is_working_set_filename (name : str) : bool := ends_with t!".working-set.json" name || is_join_index_filename name.

(** The task of a name that is listed. *)
Definition listed_id (name : str) : option str :=
  if contains_char SLASH name then None
  else match stem_and_extension name with
       | Some (stem, ext) => if negb (str_eqb ext t!"json") || is_working_set_filename name then None else Some stem
       | None => None
       end.

Definition find_file (name : str) (d : Dir) : option StateFile :=
  e_file <$> List.find (fun e => str_eqb (e_name e) name) d.
Fixpoint write_file (name : str) (now : N) (f : StateFile) (d : Dir) : Dir :=
  match d with
  | [] => [mk_Entry name now f]
  | e :: r => if str_eqb (e_name e) name then mk_Entry name now f :: r else e :: write_file name now f r
  end.

(** [load]: commands without an exit code were interrupted, the steps get distinct numbers. *)
Definition mark_interrupted (c : CommandEvidence) : CommandEvidence :=
  match ce_exit_code c with
  | None => mk_CommandEvidence (ce_program c) None true
  | Some _ => c
  end.
Definition repaired (now : N) (s : TaskState) : TaskState :=
  mk_TaskState (ts_id s) (ts_status s) (ts_parent_task_id s) (ts_agent_id s) (ts_worktree_path s) (ts_started_at s)
    (if ts_updated_at s =? 0 then now else ts_updated_at s) (ts_last_heartbeat s) (ts_handoff_summary s)
    (ts_active_grants s) (ts_changed_files s) (map mark_interrupted (ts_command_history s)) (conversation_snapshot s)
    (interrupted_sessions s) (ts_branch_name s) (ts_instructions_path s)
    (normalize_tool_invocation_step_ids (ts_pulses s)) (plan s) (ts_session_notes s) (ts_context_compaction s)
    (cache_usage s) (ts_session_tasks s).
Definition load (now : N) (d : Dir) (id : str) : option TaskState :=
  match find_file (state_file_name id) d with
  | Some (FileState s) => Some (repaired now s)
  | _ => None
  end.

(** ** Listing: persist.rs *)
(** [tf_legacy]: of the directory that was used before the workspace had a root. *)
Record TaskStateFile := mk_TaskStateFile { tf_legacy : bool; tf_id : str; tf_modified_millis : N }.

(** The index of the first of the least, [min_by_key]. *)
Fixpoint oldest_from (i : nat) (best : nat * N) (l : list TaskStateFile) : nat :=
  match l with
  | [] => best.1
  | f :: r => oldest_from (S i) (if tf_modified_millis f <? best.2 then (i, tf_modified_millis f) else best) r
  end.
Definition oldest (l : list TaskStateFile) : option nat :=
  match l with [] => None | f :: r => Some (oldest_from 1 (0%nat, tf_modified_millis f) r) end.

(** The file of the same task, replaced by a newer one. *)
Fixpoint replace_same (file : TaskStateFile) (l : list TaskStateFile) : option (list TaskStateFile) :=
  match l with
  | [] => None
  | f :: r =>
      if str_eqb (tf_id f) (tf_id file)
      then Some ((if tf_modified_millis f <? tf_modified_millis file then file else f) :: r)
      else match replace_same file r with Some r => Some (f :: r) | None => None end
  end.

Definition insert_bounded_state_file (cap : N) (selected : list TaskStateFile) (file : TaskStateFile) : list TaskStateFile :=
  if cap =? 0 then selected
  else match replace_same file selected with
       | Some replaced => replaced
       | None =>
           if N.of_nat (length selected) <? cap then selected ++ [file]
           else match oldest selected with
                | Some i =>
                    match selected !! i with
                    | Some f => if tf_modified_millis f <? tf_modified_millis file then <[i := file]> selected else selected
                    | None => selected
                    end
                | None => selected
                end
       end.

Definition visit_state_files_in_dir (legacy : bool) (d : Dir) : list TaskStateFile :=
  omap (fun e => id ← listed_id (e_name e); Some (mk_TaskStateFile legacy id (e_modified e))) d.

(** The worktree of a task. *)
Record WorktreeLease := mk_WorktreeLease {
  wl_task_id : str;
  wl_parent_task_id : option str;
  wl_path : str;
  acquired_at : N;
}.

(** [None]: the join index cannot be read. *)
Record LiveIndex := mk_LiveIndex { schema_version : N; entries : list (str * LiveJoinEntry) }.

Record TaskStore := mk_TaskStore {
  state_dir : Dir;
  legacy_dir : option Dir;
  join_indexes : gmap str (option LiveIndex);
  working_sets : gmap str Sidecar;
  leases : gmap str WorktreeLease;
}.

(** What surrounds an operation: the instant, the identifiers that are fresh, the number of files
    that are scanned, and what fails. *)
Record StoreEnv := mk_StoreEnv {
  now : N;
  uuid : nat -> str;
  max_scans : N;
  save_error : option str;
  lease_error : str -> option str;
  release_error : str -> option str;
}.

Definition newer (a b : TaskStateFile) : bool := tf_modified_millis b <? tf_modified_millis a.
Definition search_dirs (w : TaskStore) : list (bool * Dir) :=
  (false, state_dir w) :: match legacy_dir w with Some d => [(true, d)] | None => [] end.

Definition state_files_from_with_limit (w : TaskStore) (cap : N) : list TaskStateFile :=
  sort_by newer
    (foldl (insert_bounded_state_file cap) [] (List.flat_map (fun ld => visit_state_files_in_dir ld.1 ld.2) (search_dirs w))).
Definition state_files_from (o : StoreEnv) (w : TaskStore) : list TaskStateFile :=
  state_files_from_with_limit w (max_scans o).

Definition dir_of (legacy : bool) (w : TaskStore) : Dir :=
  if legacy then default [] (legacy_dir w) else state_dir w.
Definition load_file (o : StoreEnv) (w : TaskStore) (f : TaskStateFile) : option TaskState :=
  load (now o) (dir_of (tf_legacy f) w) (tf_id f).
(** [cached_task_header]: the cache answers what reading the file answers. *)
Definition header_of_file (w : TaskStore) (f : TaskStateFile) : option TaskStateHeader :=
  find_file (state_file_name (tf_id f)) (dir_of (tf_legacy f) w) ≫= header_of.

Definition load_from_search_dirs (o : StoreEnv) (id : str) (w : TaskStore) : option TaskState :=
  match List.find (fun f => str_eqb (tf_id f) id) (state_files_from o w) with
  | Some f => load_file o w f
  | None => None
  end.

(** Whether a task of the header may have the identifier. *)
Definition is_candidate (session_task_id : str) (h : TaskStateHeader) : bool :=
  match th_session_tasks h with
  | None => true
  | Some tasks => existsb (fun t => starts_with (th_id h ++ t!"-" ++ su_agent_id t ++ t!"-") session_task_id) tasks
  end.

(** The error is that of a candidate that cannot be loaded. *)
Fixpoint find_in_files (o : StoreEnv) (w : TaskStore) (session_task_id : str) (files : list TaskStateFile)
    : option (TaskState * SessionTask) + str :=
  match files with
  | [] => inl None
  | f :: r =>
      match header_of_file w f with
      | None => find_in_files o w session_task_id r
      | Some h =>
          if negb (is_candidate session_task_id h) then find_in_files o w session_task_id r
          else match load_file o w f with
               | None => inr (tf_id f)
               | Some s => match session_task session_task_id s with
                           | Some t => inl (Some (s, t))
                           | None => find_in_files o w session_task_id r
                           end
               end
      end
  end.
Definition find_session_task_in_saved_states (o : StoreEnv) (session_task_id : str) (w : TaskStore)
    : option (TaskState * SessionTask) + str :=
  find_in_files o w session_task_id (state_files_from o w).

Definition count_agent (counts : gmap str N) (t : SessionTaskSummary) : gmap str N :=
  if is_live (su_status t) then <[su_agent_id t := default 0 (counts !! su_agent_id t) + 1]> counts else counts.
Definition count_file (w : TaskStore) (counts : gmap str N) (f : TaskStateFile) : gmap str N :=
  match header_of_file w f with
  | Some h => foldl count_agent counts (default [] (th_session_tasks h))
  | None => counts
  end.
Definition live_session_task_counts_from (o : StoreEnv) (w : TaskStore) : gmap str N :=
  foldl (count_file w) ∅ (state_files_from o w).

(** ** Saving *)
Definition set_state_dir (d : Dir) (w : TaskStore) : TaskStore :=
  mk_TaskStore d (legacy_dir w) (join_indexes w) (working_sets w) (leases w).
Definition set_join_indexes (v : gmap str (option LiveIndex)) (w : TaskStore) : TaskStore :=
  mk_TaskStore (state_dir w) (legacy_dir w) v (working_sets w) (leases w).
Definition set_working_sets (v : gmap str Sidecar) (w : TaskStore) : TaskStore :=
  mk_TaskStore (state_dir w) (legacy_dir w) (join_indexes w) v (leases w).
Definition set_leases (v : gmap str WorktreeLease) (w : TaskStore) : TaskStore :=
  mk_TaskStore (state_dir w) (legacy_dir w) (join_indexes w) (working_sets w) v.

(** An operation on the store gives a value or an error. *)
Definition SR (E A : Type) : Type := TaskStore -> (A + E) * TaskStore.
#[export] Instance sr_ret E : MRet (SR E) := fun A a w => (inl a, w).
#[export] Instance sr_bind E : MBind (SR E) := fun A B f m w =>
  match m w with (inl a, w') => f a w' | (inr e, w') => (inr e, w') end.
Definition fail {E A} (e : E) : SR E A := fun w => (inr e, w).
(** [?] on an error that is wrapped in another. *)
Definition wrapped {E E' A} (g : E -> E') (m : SR E A) : SR E' A := fun w =>
  match m w with (inl a, w') => (inl a, w') | (inr e, w') => (inr (g e), w') end.
Definition or_fail {E A} (e : E) (a : option A) : SR E A := fun w =>
  (match a with Some a => inl a | None => inr e end, w).

Definition save (o : StoreEnv) (s : TaskState) : SR str unit := fun w =>
  match save_error o with
  | Some e => (inr e, w)
  | None => (inl tt, set_state_dir (write_file (state_file_name (ts_id s)) (now o) (FileState s) (state_dir w)) w)
  end.

(** ** The join index: join_index.rs *)
Definition JOIN_INDEX_SCHEMA_VERSION : N := 1.
Definition live_index_new : LiveIndex := mk_LiveIndex JOIN_INDEX_SCHEMA_VERSION [].

Definition add_superseded (ids : list str) (id : str) : list str := if str_in id ids then ids else ids ++ [id].
Definition post (id agent_id text : str) (supersedes : list str) (x : LiveIndex) : LiveIndex :=
  let entry := default (mk_LiveJoinEntry id agent_id text []) (bmap_get id (entries x)) in
  let entry := mk_LiveJoinEntry (lj_id entry) agent_id text (foldl add_superseded (lj_supersedes entry) supersedes) in
  mk_LiveIndex (schema_version x) (bmap_insert id entry (entries x)).

(** The entries that no entry supersedes. *)
Definition live_entries (x : LiveIndex) : list LiveJoinEntry :=
  let all := map snd (entries x) in
  List.filter (fun e => negb (existsb (fun other => str_in (lj_id e) (lj_supersedes other)) all)) all.

Definition load_or_new (id : str) : SR str LiveIndex := fun w =>
  (match join_indexes w !! id with
   | None => inl live_index_new
   | Some (Some x) => inl x
   | Some None => inr t!"join index"
   end, w).
Definition save_index (o : StoreEnv) (id : str) (x : LiveIndex) : SR str unit := fun w =>
  match save_error o with
  | Some e => (inr e, w)
  | None => (inl tt, set_join_indexes (<[id := Some x]> (join_indexes w)) w)
  end.

(** ** Worktrees: worktree_lease.rs *)
(** git, or else a directory, makes the worktree, and the lease is written; a path is relative to the
    state directory. *)
Definition lease_for_task (o : StoreEnv) (task_id : str) (parent_task_id : option str) : SR str WorktreeLease := fun w =>
  match lease_error o task_id with
  | Some e => (inr e, w)
  | None =>
      let lease := mk_WorktreeLease task_id parent_task_id (t!"worktrees/" ++ task_id) (now o) in
      (inl lease, set_leases (<[task_id := lease]> (leases w)) w)
  end.
Definition release (o : StoreEnv) (task_id : str) : SR str unit := fun w =>
  match leases w !! task_id with
  | None => (inl tt, w)
  | Some _ => match release_error o task_id with
              | Some e => (inr e, w)
              | None => (inl tt, set_leases (delete task_id (leases w)) w)
              end
  end.
