(* ===== verification/TaskStoreTheory.v ===== *)
(** What the store of task files keeps: listing, counting and saving. *)
From Stdlib Require Import NArith ZArith Lia.
From stdpp Require Import base list gmap strings numbers sets.
From S2P Require Import Prelude Text Collections Evidence PeerChannel TaskDocument TaskSnapshot TaskStore.
#[local] Open Scope N_scope.

(** ** Operations that may fail *)
Lemma sr_bind_inv {E A B} (m : SR E A) (f : A -> SR E B) w b w' :
  (m ≫= f) w = (inl b, w') -> exists a w1, m w = (inl a, w1) /\ f a w1 = (inl b, w').
Proof. unfold mbind, sr_bind. destruct (m w) as [[a|e] w1]; [|done]. eauto. Qed.
Lemma sr_bind_run {E A B} (m : SR E A) (f : A -> SR E B) w :
  (m ≫= f) w = match m w with (inl a, w1) => f a w1 | (inr e, w1) => (inr e, w1) end.
Proof. done. Qed.

(** ** Names *)
Lemma state_file_name_inj a b : state_file_name a = state_file_name b -> a = b.
Proof. apply app_inj_2. done. Qed.

Lemma listed_name name id : listed_id name = Some id -> name = state_file_name id.
Proof.
  unfold listed_id, stem_and_extension. destruct (contains_char _ _); [done|].
  destruct (rfind_char DOT_CHAR name) as [[|n]|] eqn:E; [done| |done].
  apply rfind_char_Some in E as (a & b & -> & Hl & _). rewrite <- Hl, take_app_length.
  replace (drop (S (length a)) (a ++ DOT_CHAR :: b)) with b.
  2: { rewrite <- (drop_app_length (a ++ [DOT_CHAR]) b) at 1. rewrite length_app, <- app_assoc. cbn. f_equal. lia. }
  destruct (negb _ || _) eqn:Eb; [done|]. intros [= <-].
  apply orb_false_iff in Eb as [Ee _]. apply negb_false_iff, str_eqb_iff in Ee as ->. done.
Qed.

(** ** Files *)
Section files.
Implicit Types (d : Dir) (name : str).

Lemma find_file_cons name e d :
  find_file name (e :: d) = if str_eqb (e_name e) name then Some (e_file e) else find_file name d.
Proof. unfold find_file. cbn. by destruct (str_eqb _ _). Qed.

Lemma find_write name now f d : find_file name (write_file name now f d) = Some f.
Proof.
  induction d as [|e d IH]; cbn [write_file]; [by rewrite find_file_cons, str_eqb_same|].
  destruct (str_eqb (e_name e) name) eqn:E; rewrite find_file_cons; cbn [e_name e_file]; [by rewrite str_eqb_same | by rewrite E].
Qed.
Lemma find_write_other name name' now f d : name <> name' -> find_file name' (write_file name now f d) = find_file name' d.
Proof.
  intros Hn. induction d as [|e d IH]; cbn [write_file]; [by rewrite find_file_cons, str_eqb_other|].
  destruct (str_eqb (e_name e) name) eqn:E; rewrite !find_file_cons; cbn [e_name e_file].
  - apply str_eqb_iff in E as ->. by rewrite !str_eqb_other.
  - by destruct (str_eqb (e_name e) name').
Qed.

Lemma find_file_Some name d f : find_file name d = Some f -> exists e, e ∈ d /\ e_name e = name /\ e_file e = f.
Proof.
  unfold find_file. destruct (List.find _ d) as [e|] eqn:E; [|done]. intros [= <-].
  apply List.find_some in E as [Hin E]. apply str_eqb_iff in E. exists e. by rewrite list_elem_of_In.
Qed.
Lemma find_file_entry d e : NoDup (map e_name d) -> e ∈ d -> find_file (e_name e) d = Some (e_file e).
Proof.
  induction d as [|e' d IH]; cbn [map]; [by intros _ ?%elem_of_nil|]. intros [Hn Hd]%NoDup_cons Hin.
  rewrite find_file_cons. apply elem_of_cons in Hin as [->|Hin]; [by rewrite str_eqb_same|].
  rewrite str_eqb_other; [by apply IH|]. intros E. apply Hn. rewrite E. apply list_elem_of_fmap. eauto.
Qed.
Lemma find_file_fresh name d : find_file name d = None -> name ∉ map e_name d.
Proof.
  induction d as [|e d IH]; cbn [map]; [intros _; apply not_elem_of_nil|]. rewrite find_file_cons.
  destruct (str_eqb _ _) eqn:E; [done|]. intros H%IH. apply not_elem_of_cons. split; [|done].
  intros ->. by rewrite str_eqb_same in E.
Qed.

Lemma write_file_names name now f d :
  map e_name (write_file name now f d) = map e_name d \/
  find_file name d = None /\ map e_name (write_file name now f d) = map e_name d ++ [name].
Proof.
  induction d as [|e d IH]; cbn [write_file map]; [by right|]. rewrite find_file_cons.
  destruct (str_eqb (e_name e) name) eqn:E; cbn [map e_name].
  - apply str_eqb_iff in E as ->. by left.
  - destruct IH as [->|[Hn ->]]; [by left | by right].
Qed.
Lemma write_file_NoDup name now f d : NoDup (map e_name d) -> NoDup (map e_name (write_file name now f d)).
Proof.
  intros H. destruct (write_file_names name now f d) as [->|[Hn ->]]; [done|]. apply NoDup_app. split; [done|].
  split; [|apply NoDup_singleton]. intros x Hx ->%list_elem_of_singleton. by apply find_file_fresh in Hn.
Qed.
Lemma write_file_length name now f d : (length (write_file name now f d) <= S (length d))%nat.
Proof. induction d as [|e d IH]; cbn [write_file]; [done|]. destruct (str_eqb _ _); cbn; lia. Qed.
Lemma elem_of_write name now f d e :
  e ∈ write_file name now f d -> e ∈ d \/ e = mk_Entry name now f.
Proof.
  induction d as [|e' d IH]; cbn [write_file]; [intros ->%list_elem_of_singleton; by right|].
  destruct (str_eqb _ _); rewrite !elem_of_cons; naive_solver.
Qed.

(** A sum over the files changes by the one that is written. *)
Definition over_files (g : StateFile -> N) (d : Dir) : N := sum_N (map (fun e => g (e_file e)) d).
Definition old_file (g : StateFile -> N) name d : N := match find_file name d with Some f => g f | None => 0 end.
Lemma over_files_write g name now f d :
  over_files g (write_file name now f d) + old_file g name d = over_files g d + g f.
Proof.
  unfold over_files, old_file, sum_N. induction d as [|e d IH]; cbn [write_file map foldr]; [cbn; lia|].
  rewrite find_file_cons. destruct (str_eqb (e_name e) name) eqn:E; cbn [map foldr e_file]; [lia|]. lia.
Qed.
End files.

(** ** The listing *)
Lemma replace_same_fresh file l : tf_id file ∉ map tf_id l -> replace_same file l = None.
Proof.
  induction l as [|f l IH]; cbn; [done|]. intros [Hf Hl]%not_elem_of_cons.
  rewrite str_eqb_other by congruence. by rewrite IH.
Qed.

(** Under the limit nothing is left out. *)
Lemma bounded_listing cap l acc :
  NoDup (map tf_id (acc ++ l)) -> N.of_nat (length (acc ++ l)) <= cap ->
  foldl (insert_bounded_state_file cap) acc l = acc ++ l.
Proof.
  revert acc. induction l as [|f l IH]; intros acc Hnd Hl; cbn [foldl]; [by rewrite app_nil_r|].
  assert (insert_bounded_state_file cap acc f = acc ++ [f]) as ->.
  { unfold insert_bounded_state_file. rewrite length_app in Hl. cbn in Hl. rewrite (proj2 (N.eqb_neq cap 0)) by lia.
    rewrite map_app in Hnd. cbn in Hnd. apply NoDup_app in Hnd as (_ & Hd & _).
    rewrite replace_same_fresh by (intros Hin; apply (Hd _ Hin); by left).
    by rewrite (proj2 (N.ltb_lt _ _)) by lia. }
  replace (acc ++ f :: l) with ((acc ++ [f]) ++ l) in * by (by rewrite <- app_assoc).
  by apply IH.
Qed.

(** ** A store as the operations leave it: one directory, every state under its own name *)
Record store_ok (w : TaskStore) : Prop := {
  one_dir : legacy_dir w = None;
  names_once : NoDup (map e_name (state_dir w));
  ids_kept : forall e s, e ∈ state_dir w -> e_file e = FileState s -> listed_id (e_name e) = Some (ts_id s);
  headers_listed : forall e h, e ∈ state_dir w -> e_file e = FileOther (Some h) -> is_Some (listed_id (e_name e));
}.

(** How many tasks of an agent work, in the whole store. *)
Definition summaries_in (f : StateFile) : list SessionTaskSummary := default [] (header_of f ≫= th_session_tasks).
Definition works (a : str) (t : SessionTaskSummary) : bool := is_live (su_status t) && str_eqb (su_agent_id t) a.
Definition live_here (a : str) (l : list SessionTaskSummary) : N := N.of_nat (length (List.filter (works a) l)).
Definition live_in (a : str) (f : StateFile) : N := live_here a (summaries_in f).
Definition live_of (a : str) (w : TaskStore) : N := over_files (live_in a) (state_dir w).

Lemma live_here_app a l l' : live_here a (l ++ l') = live_here a l + live_here a l'.
Proof. unfold live_here. rewrite List.filter_app, length_app. lia. Qed.
Lemma live_here_cons a t l : live_here a (t :: l) = (if works a t then 1 else 0) + live_here a l.
Proof. unfold live_here. cbn. destruct (works a t); cbn [length]; lia. Qed.

Lemma count_agents a l m : default 0 (foldl count_agent m l !! a) = default 0 (m !! a) + live_here a l.
Proof.
  revert m. induction l as [|t l IH]; intros m; cbn [foldl]; [unfold live_here; cbn; lia|].
  rewrite IH, live_here_cons. unfold count_agent, works. destruct (is_live (su_status t)); cbn [andb]; [|lia].
  destruct (decide (su_agent_id t = a)) as [<-|Hn].
  - rewrite str_eqb_same, lookup_insert_eq. cbn. lia.
  - rewrite str_eqb_other, lookup_insert_ne by done. lia.
Qed.

Definition live_listed (w : TaskStore) (a : str) (f : TaskStateFile) : N :=
  match header_of_file w f with Some h => live_here a (default [] (th_session_tasks h)) | None => 0 end.
Lemma count_files w a l m :
  default 0 (foldl (count_file w) m l !! a) = default 0 (m !! a) + sum_N (map (live_listed w a) l).
Proof.
  revert m. induction l as [|f l IH]; intros m; cbn [foldl map]; [unfold sum_N; cbn; lia|].
  rewrite IH. unfold count_file, live_listed at 2, sum_N. cbn [foldr]. destruct (header_of_file w f); [rewrite count_agents; lia | lia].
Qed.

Lemma visit_ids legacy d : NoDup (map e_name d) -> NoDup (map tf_id (visit_state_files_in_dir legacy d)).
Proof.
  unfold visit_state_files_in_dir. induction d as [|e d IH]; cbn; [intros _; apply NoDup_nil_2|].
  intros [Hn Hd]%NoDup_cons. destruct (listed_id (e_name e)) as [id|] eqn:E; cbn; [|by apply IH].
  apply NoDup_cons. split; [|by apply IH]. intros (f & -> & Hf)%list_elem_of_fmap.
  apply list_elem_of_omap in Hf as (e' & Hin & Hf). destruct (listed_id (e_name e')) as [id|] eqn:E'; [|done].
  injection Hf as <-. cbn in E. apply listed_name in E, E'. apply Hn. rewrite E, <- E'. apply list_elem_of_fmap. eauto.
Qed.

Lemma visit_length legacy d : (length (visit_state_files_in_dir legacy d) <= length d)%nat.
Proof. unfold visit_state_files_in_dir. induction d as [|e d IH]; cbn; [done|]. destruct (listed_id _); cbn; lia. Qed.

Lemma listing w cap :
  store_ok w -> N.of_nat (length (state_dir w)) <= cap ->
  state_files_from_with_limit w cap ≡ₚ visit_state_files_in_dir false (state_dir w).
Proof.
  intros [H1 H2 _ _] Hl. unfold state_files_from_with_limit, search_dirs. rewrite H1, sort_by_permutes. cbn [List.flat_map fst snd].
  rewrite app_nil_r, bounded_listing; [done | by apply visit_ids |]. cbn [app].
  pose proof (visit_length false (state_dir w)). lia.
Qed.

Lemma sum_N_omap {A B} (g : B -> N) (h : A -> option B) l :
  sum_N (map g (omap h l)) = sum_N (map (fun x => match h x with Some y => g y | None => 0 end) l).
Proof. unfold sum_N. induction l as [|x l IH]; cbn; [done|]. destruct (h x); cbn; lia. Qed.
Lemma sum_N_ext {A} (g h : A -> N) l : (forall x, x ∈ l -> g x = h x) -> sum_N (map g l) = sum_N (map h l).
Proof.
  unfold sum_N. induction l as [|x l IH]; cbn; [done|]. intros H. rewrite (H x) by (by left).
  rewrite IH; [done|]. intros y Hy. apply H. by right.
Qed.

(** The count that a delegation looks at is the count of the store. *)
Lemma counts_all o w a :
  store_ok w -> N.of_nat (length (state_dir w)) <= max_scans o ->
  default 0 (live_session_task_counts_from o w !! a) = live_of a w.
Proof.
  intros Hok Hl. unfold live_session_task_counts_from. rewrite count_files, lookup_empty. cbn [default]. rewrite N.add_0_l.
  unfold state_files_from. rewrite (sum_N_perm _ _ (Permutation_map _ (listing w _ Hok Hl))).
  unfold visit_state_files_in_dir, live_of, over_files. rewrite sum_N_omap. apply sum_N_ext. intros e He.
  destruct Hok as [_ H2 H3 H4]. destruct (listed_id (e_name e)) as [id|] eqn:E; cbn.
  - apply listed_name in E as E'. unfold live_listed, header_of_file, dir_of, live_in, summaries_in. cbn [tf_id tf_legacy].
    rewrite <- E', find_file_entry by done. cbn. destruct (header_of (e_file e)); done.
  - unfold live_in, summaries_in. destruct (e_file e) as [s|[h|]] eqn:Ef; cbn; [| |done].
    + by rewrite (H3 e s He Ef) in E.
    + destruct (H4 e h He Ef) as [? Hs]. by rewrite Hs in E.
Qed.

(** ** Saving keeps a store well-formed *)
Lemma save_run o s w u w' : save o s w = (inl u, w') ->
  w' = set_state_dir (write_file (state_file_name (ts_id s)) (now o) (FileState s) (state_dir w)) w.
Proof. unfold save. destruct (save_error o); [done|]. by intros [= _ <-]. Qed.

Lemma save_ok o s w : listed_id (state_file_name (ts_id s)) = Some (ts_id s) -> store_ok w -> store_ok (save o s w).2.
Proof.
  intros Hs [H1 H2 H3 H4]. unfold save. destruct (save_error o); [by split|]. cbn [snd]. split; cbn [legacy_dir state_dir set_state_dir].
  - done.
  - by apply write_file_NoDup.
  - intros e s' [He| ->]%elem_of_write; [by apply H3|]. cbn. by intros [= <-].
  - intros e h [He| ->]%elem_of_write; [by apply H4|]. done.
Qed.


(** What a state adds to its file is what the save adds to the store. *)
Definition live_state (a : str) (s : TaskState) : N := live_here a (map summary_of (ts_session_tasks s)).
Lemma save_live o s w a k :
  live_state a s <= old_file (live_in a) (state_file_name (ts_id s)) (state_dir w) + k ->
  live_of a (save o s w).2 <= live_of a w + k.
Proof.
  unfold save. destruct (save_error o); [cbn; lia|]. intros H. unfold live_of. cbn [snd state_dir set_state_dir].
  pose proof (over_files_write (live_in a) (state_file_name (ts_id s)) (now o) (FileState s) (state_dir w)) as E.
  change (live_in a (FileState s)) with (live_state a s) in E. lia.
Qed.

Lemma save_length o s w : (length (state_dir (save o s w).2) <= S (length (state_dir w)))%nat.
Proof. unfold save. destruct (save_error o); cbn; [lia | apply write_file_length]. Qed.

(** What is loaded has the tasks of the file, and its name. *)
Lemma load_Some o w id s :
  store_ok w -> load (now o) (state_dir w) id = Some s ->
  ts_id s = id /\ listed_id (state_file_name id) = Some id
  /\ forall a, old_file (live_in a) (state_file_name id) (state_dir w) = live_state a s.
Proof.
  intros [_ _ H3 _]. unfold load, old_file. destruct (find_file _ _) as [[s0|h]|] eqn:E; [|done..]. intros [= <-].
  apply find_file_Some in E as (e & He & En & Ef). pose proof (H3 e s0 He Ef) as Hl. apply listed_name in Hl as Hn.
  rewrite En in Hn, Hl. apply state_file_name_inj in Hn as ->. done.
Qed.

Lemma load_file_Some o w f s :
  store_ok w -> load_file o w f = Some s -> load (now o) (state_dir w) (ts_id s) = Some s.
Proof.
  intros Hok. unfold load_file, dir_of. rewrite (one_dir w Hok). destruct (tf_legacy f); [done|].
  intros Hs. by destruct (load_Some o w _ s Hok Hs) as (-> & _).
Qed.

Lemma find_in_files_Some o w id files s t :
  store_ok w -> find_in_files o w id files = inl (Some (s, t)) ->
  load (now o) (state_dir w) (ts_id s) = Some s /\ session_task id s = Some t.
Proof.
  intros Hok. induction files as [|f r IH]; cbn [find_in_files]; [done|].
  destruct (header_of_file w f); [|done]. destruct (negb _); [done|].
  destruct (load_file o w f) as [s'|] eqn:El; [|done]. destruct (session_task id s') as [t'|] eqn:Et; [|done].
  intros [= <- <-]. split; [by apply (load_file_Some o w f) | done].
Qed.

(** A task that works, given another status, adds no task that works. *)
Lemma update_live id status now a s t :
  session_task id s = Some t -> is_live (lifecycle_state t) = true ->
  live_state a (update_session_task_status id status now s).2 <= live_state a s
  /\ ts_id (update_session_task_status id status now s).2 = ts_id s.
Proof.
  unfold session_task, update_session_task_status, live_state. intros Ht Hl.
  assert (exists r, update_task id (transition_to status now now) (ts_session_tasks s) = Some r
    /\ live_here a (map summary_of r) <= live_here a (map summary_of (ts_session_tasks s))) as (r & -> & Hr); [|done].
  revert Ht. generalize (ts_session_tasks s) as l. intros l. induction l as [|t' l IH]; cbn [List.find update_task]; [done|].
  destruct (has_id id t').
  - intros [= ->]. eexists. split; [reflexivity|]. cbn [map]. rewrite !live_here_cons. unfold works. cbn.
    rewrite Hl. cbn. destruct (is_live status), (str_eqb _ a); cbn; lia.
  - intros H. destruct (IH H) as (r & -> & Hr). eexists. split; [reflexivity|]. cbn [map]. rewrite !live_here_cons. lia.
Qed.
