(* ===== verification/Agents.v ===== *)
(** Agents and teams: the configuration of src/agents.rs, the orchestrator
    src/app/subtask_orchestrator/mod.rs and the facade src/app/task_facade.rs with its modules
    agents.rs, schedule.rs, query.rs and projection.rs.

    Each operation is one step.  The lock of a delegation makes it one; the change of a status, the
    release and the join do not take it, and other requests may write between what they read and
    what they write, which the halves of a change of status show ([status_update_loses_delegation]). *)
From Stdlib Require Import NArith ZArith Lia.
From stdpp Require Import base list gmap strings numbers sets.
From S2P Require Import Prelude Text Collections Evidence PeerChannel TaskDocument TaskSnapshot TaskStore.
#[local] Open Scope N_scope.

(** ** The configuration: agents.rs *)
Inductive IsolationPolicy : Type := Worktree | Shared.
Inductive TeamScheduler : Type := FanOutJoin | Sequential.
#[export] Instance IsolationPolicy_eq_dec : EqDecision IsolationPolicy.
Proof. solve_decision. Defined.

Record AgentProfile := mk_AgentProfile {
  ap_name : str;
  ap_profile : str;
  isolation : IsolationPolicy;
  max_parallel_tasks : N;
  allowed_capabilities : list str;
}.
Record TeamDefinition := mk_TeamDefinition { td_name : str; members : list str; scheduler : TeamScheduler }.
Record AgentsConfig := mk_AgentsConfig { agent_profiles : list AgentProfile; team_definitions : list TeamDefinition }.

(** The messages of the errors are left out. *)
Inductive ConfigError : Type :=
| EmptyAgentName | LongAgentName (name : str) | UnsafeAgentName (name : str) | DuplicateAgent (name : str)
| EmptyTeamName | LongTeamName (name : str) | UnsafeTeamName (name : str) | DuplicateTeam (name : str)
| NoMembers (team : str) | DuplicateMember (team member : str) | UnknownMember (team member : str)
| SharedParallel (agent : str) | SharedMutable (agent capability : str).

Definition MAX_CONFIG_NAME_LEN : N := 64.
Definition WINDOWS_RESERVED_DEVICE_NAMES : list str :=
  [t!"CON"; t!"PRN"; t!"AUX"; t!"NUL"; t!"COM1"; t!"COM2"; t!"COM3"; t!"COM4"; t!"COM5"; t!"COM6"; t!"COM7"; t!"COM8";
   t!"COM9"; t!"LPT1"; t!"LPT2"; t!"LPT3"; t!"LPT4"; t!"LPT5"; t!"LPT6"; t!"LPT7"; t!"LPT8"; t!"LPT9"].

Definition is_control (c : char) : bool := (c <? 32) || ((127 <=? c) && (c <=? 159)).
Definition to_ascii_upper (c : char) : char := if (97 <=? c) && (c <=? 122) then c - 32 else c.
Definition to_ascii_uppercase (s : str) : str := map to_ascii_upper s.
Definition is_forbidden (c : char) : bool := is_control c || contains_char c (DQUOTE :: t!"/\:*?<>|").

Definition is_filesystem_safe (name : str) : bool :=
  negb (is_empty name || str_eqb name t!"." || str_eqb name t!".." || ends_with t!" " name || ends_with t!"." name)
  && negb (existsb is_forbidden name)
  && negb (str_in (to_ascii_uppercase (match split_on DOT_CHAR name with stem :: _ => stem | [] => name end))
             WINDOWS_RESERVED_DEVICE_NAMES).

(** The first error, if any. *)
Fixpoint first_error {A} (check : list A -> A -> option ConfigError) (seen l : list A) : option ConfigError :=
  match l with
  | [] => None
  | x :: r => match check seen x with Some e => Some e | None => first_error check (seen ++ [x]) r end
  end.
Definition unless (ok : bool) (e : ConfigError) (rest : option ConfigError) : option ConfigError :=
  if ok then rest else Some e.

Definition check_agent_name (seen : list AgentProfile) (a : AgentProfile) : option ConfigError :=
  let name := ap_name a in
  unless (negb (is_empty name)) EmptyAgentName
    (unless (blen name <=? MAX_CONFIG_NAME_LEN) (LongAgentName name)
       (unless (is_filesystem_safe name) (UnsafeAgentName name)
          (unless (negb (str_in name (map ap_name seen))) (DuplicateAgent name) None))).
Definition validate_agent_names (c : AgentsConfig) : option ConfigError := first_error check_agent_name [] (agent_profiles c).

Definition check_member (agents : list str) (team : str) (seen : list str) (member : str) : option ConfigError :=
  unless (negb (str_in member seen)) (DuplicateMember team member)
    (unless (str_in member agents) (UnknownMember team member) None).
Definition check_team (agents : list str) (seen : list TeamDefinition) (t : TeamDefinition) : option ConfigError :=
  let name := td_name t in
  unless (negb (is_empty name)) EmptyTeamName
    (unless (blen name <=? MAX_CONFIG_NAME_LEN) (LongTeamName name)
       (unless (is_filesystem_safe name) (UnsafeTeamName name)
          (unless (negb (str_in name (map td_name seen))) (DuplicateTeam name)
             (unless (match members t with [] => false | _ => true end) (NoMembers name)
                (first_error (check_member agents name) [] (members t)))))).
Definition validate_team_members (c : AgentsConfig) : option ConfigError :=
  first_error (check_team (map ap_name (agent_profiles c))) [] (team_definitions c).

Definition MUTABLE_CAPABILITIES : list str := [t!"apply-patch"; t!"run-command"; t!"write-file"].
Definition check_isolation (_ : list AgentProfile) (a : AgentProfile) : option ConfigError :=
  match isolation a with
  | Worktree => None
  | Shared =>
      unless (max_parallel_tasks a <=? 1) (SharedParallel (ap_name a))
        (match List.find (fun cap => str_in cap MUTABLE_CAPABILITIES) (allowed_capabilities a) with
         | Some cap => Some (SharedMutable (ap_name a) cap)
         | None => None
         end)
  end.
Definition validate_isolation_invariants (c : AgentsConfig) : option ConfigError :=
  first_error check_isolation [] (agent_profiles c).

Definition validate (c : AgentsConfig) : option ConfigError :=
  match validate_agent_names c with
  | Some e => Some e
  | None => match validate_team_members c with Some e => Some e | None => validate_isolation_invariants c end
  end.

(** The directories from the working directory up; [exists_] is of the file in one of them. *)
Fixpoint find_agents_config {P} (exists_ : P -> bool) (dirs : list P) : option P :=
  match dirs with
  | [] => None
  | d :: r => if exists_ d then Some d else find_agents_config exists_ r
  end.

(** What reading and parsing the file give: nothing when there is none, or an error. *)
Inductive AgentsFile : Type := NoAgentsFile | AgentsFileError (message : str) | AgentsFileRead (c : AgentsConfig).
Inductive LoadError : Type := BadFile (message : str) | BadConfig (e : ConfigError).
Definition load_agents_config (f : AgentsFile) : option AgentsConfig + LoadError :=
  match f with
  | NoAgentsFile => inl None
  | AgentsFileError e => inr (BadFile e)
  | AgentsFileRead c => match validate c with Some e => inr (BadConfig e) | None => inl (Some c) end
  end.

Definition find_agent (agents : list AgentProfile) (name : str) : option AgentProfile :=
  List.find (fun a => str_eqb (ap_name a) name) agents.

(** ** The orchestrator: subtask_orchestrator/mod.rs *)
Record TeamDecomposition := mk_TeamDecomposition {
  dc_parent_task_id : str;
  session_task_ids : list str;
  dc_scheduler : TeamScheduler;
}.
Record JoinSummary := mk_JoinSummary { message_id : str; js_agent_id : str; js_summary : str; js_supersedes : list str }.
Record JoinOutcome := mk_JoinOutcome {
  all_done : bool;
  completed : N;
  failed : N;
  cancelled : N;
  summaries : list JoinSummary;
}.

Definition set_worktree_path (p : str) (t : SessionTask) : SessionTask :=
  mk_SessionTask (st_id t) (st_parent_task_id t) (agent_id t) (prompt t) (lifecycle_state t) (Some p) (started_at t)
    (updated_at t) (last_heartbeat t) (handoff_summary t) (supersedes t).

Definition is_sequential (s : TeamScheduler) : bool := match s with Sequential => true | FanOutJoin => false end.
Definition members_to_create (t : TeamDefinition) : list str :=
  match scheduler t with FanOutJoin => members t | Sequential => take 1 (members t) end.

(** A task for a member, with its worktree, put into the state of the parent. *)
Definition spawn (o : StoreEnv) (sequential : bool) (a : AgentProfile) (parent_task_id agent prompt uuid : str)
    (parent : TaskState) : SR str (str * TaskState) :=
  let t := stamp_join_supersedes (ts_session_tasks parent) sequential
             (session_task_new parent_task_id agent prompt None uuid (now o)) in
  t ← (if bool_decide (isolation a = Worktree) then
         lease ← lease_for_task o (st_id t) (Some parent_task_id); mret (set_worktree_path (wl_path lease) t)
       else mret t);
  mret (st_id t, add_session_task t (now o) parent).

Fixpoint spawn_members (o : StoreEnv) (sequential : bool) (agents : list AgentProfile) (parent_task_id prompt : str)
    (i : nat) (names : list str) (parent : TaskState) : SR str (list str * TaskState) :=
  match names with
  | [] => mret ([], parent)
  | name :: r =>
      a ← or_fail (t!"agent '" ++ name ++ t!"' not found in provided agent list") (find_agent agents name);
      '(id, parent) ← spawn o sequential a parent_task_id name prompt (uuid o i) parent;
      '(ids, parent) ← spawn_members o sequential agents parent_task_id prompt (S i) r parent;
      mret (id :: ids, parent)
  end.

Definition load_parent (o : StoreEnv) (id : str) : SR str TaskState := fun w =>
  (match load (now o) (state_dir w) id with Some s => inl s | None => inr t!"task state" end, w).
(** A file that is there has to be one of a task. *)
Definition load_or_new_parent (o : StoreEnv) (id : str) : SR str TaskState := fun w =>
  match find_file (state_file_name id) (state_dir w) with
  | Some _ => load_parent o id w
  | None => (inl (task_state_new id (now o)), w)
  end.

Definition schedule_team (o : StoreEnv) (parent_task_id : str) (team : TeamDefinition) (agents : list AgentProfile)
    (prompt : str) : SR str TeamDecomposition :=
  match members team with
  | [] => fail (t!"team '" ++ td_name team ++ t!"' has no members")
  | _ =>
      parent ← load_or_new_parent o parent_task_id;
      '(ids, parent) ← spawn_members o (is_sequential (scheduler team)) agents parent_task_id prompt 0
                         (members_to_create team) parent;
      _ ← save o parent;
      mret (mk_TeamDecomposition parent_task_id ids (scheduler team))
  end.

(** What the summary of a task replaces: what it was made with, and the earlier ones of its agent. *)
Definition is_completed (s : SessionTaskStatus) : bool := match s with Completed => true | _ => false end.
Definition add_prior (t : SessionTask) (ids : list str) (prior : SessionTask) : list str :=
  if is_completed (lifecycle_state prior) && opt_is_some (handoff_summary prior)
     && str_eqb (agent_id prior) (agent_id t) && negb (str_in (st_id prior) ids)
  then ids ++ [st_id prior] else ids.
Fixpoint before_task (id : str) (all : list SessionTask) : option (list SessionTask) :=
  match all with
  | [] => None
  | t :: r => if has_id id t then Some [] else match before_task id r with Some l => Some (t :: l) | None => None end
  end.
Definition production_supersedes (t : SessionTask) (all : list SessionTask) : list str :=
  match before_task (st_id t) all with
  | Some prior => foldl (add_prior t) (supersedes t) prior
  | None => supersedes t
  end.

Fixpoint join_tasks (all tasks : list SessionTask) (acc : JoinOutcome) : option JoinOutcome :=
  match tasks with
  | [] => Some acc
  | t :: r =>
      match lifecycle_state t with
      | Completed =>
          let more := match handoff_summary t with
                      | Some s => [mk_JoinSummary (st_id t) (agent_id t) s (production_supersedes t all)]
                      | None => []
                      end in
          join_tasks all r (mk_JoinOutcome (all_done acc) (completed acc + 1) (failed acc) (cancelled acc) (summaries acc ++ more))
      | Failed => join_tasks all r (mk_JoinOutcome (all_done acc) (completed acc) (failed acc + 1) (cancelled acc) (summaries acc))
      | Cancelled => join_tasks all r (mk_JoinOutcome (all_done acc) (completed acc) (failed acc) (cancelled acc + 1) (summaries acc))
      | _ => None
      end
  end.

Definition poll_fan_out_join (o : StoreEnv) (parent_task_id : str) : SR str (option JoinOutcome) :=
  state ← load_parent o parent_task_id;
  mret (match ts_session_tasks state with
        | [] => None
        | tasks => join_tasks tasks tasks (mk_JoinOutcome true 0 0 0 [])
        end).

(** The first member without a task, unless one before it still works. *)
Fixpoint next_member (tasks : list SessionTask) (names : list str) : option str :=
  match names with
  | [] => None
  | name :: r =>
      match List.find (fun t => str_eqb (agent_id t) name) tasks with
      | None => Some name
      | Some t => if is_live (lifecycle_state t) then None else next_member tasks r
      end
  end.
Definition advance_sequential (o : StoreEnv) (parent_task_id : str) (team : TeamDefinition) (agents : list AgentProfile)
    (prompt : str) : SR str (option str) :=
  parent ← load_parent o parent_task_id;
  match next_member (ts_session_tasks parent) (members team) with
  | None => mret None
  | Some name =>
      a ← or_fail (t!"agent '" ++ name ++ t!"' not found in provided agent list") (find_agent agents name);
      '(id, parent) ← spawn o true a parent_task_id name prompt (uuid o 0) parent;
      _ ← save o parent;
      mret (Some id)
  end.

Definition format_live_handoff (l : list LiveJoinEntry) : str :=
  join [LF] (map (fun e => if is_empty (lj_agent_id e) then body e
                           else t!"[" ++ lj_agent_id e ++ t!"]: " ++ body e) l).

Definition record_evidence (o : StoreEnv) (parent_task_id : str) (live : list LiveJoinEntry) : SR str unit := fun w =>
  let file := default Absent (working_sets w !! parent_task_id) in
  match record_join_evidence live (now o) file with
  | (Some _, file) =>
      match save_error o with
      | Some e => (inr e, w)
      | None => (inl tt, set_working_sets (<[parent_task_id := file]> (working_sets w)) w)
      end
  | (None, _) => (inr t!"working set", w)
  end.

Definition post_summary (x : LiveIndex) (s : JoinSummary) : LiveIndex :=
  post (message_id s) (js_agent_id s) (js_summary s) (js_supersedes s) x.
Definition apply_join_outcome (o : StoreEnv) (parent_task_id : str) (outcome : JoinOutcome) : SR str (list LiveJoinEntry) :=
  match summaries outcome with
  | [] => mret []
  | _ =>
      index ← load_or_new parent_task_id;
      let index := foldl post_summary index (summaries outcome) in
      _ ← save_index o parent_task_id index;
      let live := live_entries index in
      state ← load_parent o parent_task_id;
      _ ← save o (ts_touch (now o) (ts_with_handoff (format_live_handoff live) state));
      _ ← record_evidence o parent_task_id live;
      mret live
  end.

Definition live_session_task_count (o : StoreEnv) (parent_task_id : str) : SR str N :=
  state ← load_parent o parent_task_id;
  mret (N.of_nat (length (List.filter (fun t => is_live (lifecycle_state t)) (ts_session_tasks state)))).
Definition is_team_schedule_exhausted (o : StoreEnv) (parent_task_id : str) (team : TeamDefinition) : SR str bool :=
  state ← load_parent o parent_task_id;
  mret (forallb (fun name => existsb (fun t => str_eqb (agent_id t) name && negb (is_live (lifecycle_state t)))
                               (ts_session_tasks state)) (members team)).

(** ** The facade *)
Definition MAX_DELEGATE_PROMPT_BYTES : N := 65536.
Definition team_scheduler_name (s : TeamScheduler) : str :=
  match s with FanOutJoin => t!"fan_out_join" | Sequential => t!"sequential" end.

Inductive DelegateError : Type :=
| AgentNotFound | AgentsConfigMissing | ParentTaskIdRequired | ConcurrencyLimitReached | PromptTooLong
| DelegateInternal (message : str).
Record FacadeDelegateResult := mk_FacadeDelegateResult { dr_parent_task_id : str; dr_session_task_id : str }.

Definition load_message (e : LoadError) : str :=
  match e with BadFile m => m | BadConfig _ => t!"invalid agents config" end.
Definition read_config {E} (internal : str -> E) (missing : E) (f : AgentsFile) : SR E AgentsConfig := fun w =>
  (match load_agents_config f with
   | inl (Some c) => inl c
   | inl None => inr missing
   | inr e => inr (internal (load_message e))
   end, w).

Definition agent_count (counts : gmap str N) (name : str) : N := default 0 (counts !! name).

(** What fails after a worktree was leased gives it back. *)
Definition save_or_release (o : StoreEnv) (isolation : IsolationPolicy) (session_task_id : str) (parent : TaskState)
    : SR DelegateError unit := fun w =>
  match save o parent w with
  | (inl u, w) => (inl u, w)
  | (inr e, w) =>
      let w := if bool_decide (isolation = Worktree) then (release o session_task_id w).2 else w in
      (inr (DelegateInternal e), w)
  end.

(** The part under the lock. *)
Definition delegate_locked (o : StoreEnv) (a : AgentProfile) (parent_task_id agent_id prompt : str)
    : SR DelegateError FacadeDelegateResult := fun w =>
  if max_parallel_tasks a <=? agent_count (live_session_task_counts_from o w) agent_id
  then (inr ConcurrencyLimitReached, w)
  else
    let parent := default (task_state_new parent_task_id (now o)) (load (now o) (state_dir w) parent_task_id) in
    ('(id, parent) ← wrapped DelegateInternal (spawn o false a parent_task_id agent_id prompt (uuid o 0) parent);
     _ ← save_or_release o (isolation a) id parent;
     mret (mk_FacadeDelegateResult parent_task_id id)) w.

Definition facade_delegate_session_task (o : StoreEnv) (f : AgentsFile) (parent_task_id : option str)
    (agent_id prompt : str) : SR DelegateError FacadeDelegateResult :=
  match parent_task_id with
  | Some id =>
      if is_empty (trim id) then fail ParentTaskIdRequired
      else if MAX_DELEGATE_PROMPT_BYTES <? blen prompt then fail PromptTooLong
      else
        c ← read_config DelegateInternal AgentsConfigMissing f;
        a ← or_fail AgentNotFound (find_agent (agent_profiles c) agent_id);
        delegate_locked o a id agent_id prompt
  | None => fail ParentTaskIdRequired
  end.

Inductive ScheduleTeamError : Type :=
| TeamConfigMissing | TeamNotFound | TeamParentRequired | PromptRequired | TeamLimitReached | TeamPromptTooLong
| ScheduleInternal (message : str).
Record FacadeScheduleTeamResult := mk_FacadeScheduleTeamResult {
  sr_parent_task_id : str;
  sr_session_task_ids : list str;
  sr_scheduler : str;
}.

(** Every member is known and may take one more task. *)
Fixpoint members_free (counts : gmap str N) (agents : list AgentProfile) (team : str) (names : list str)
    : option ScheduleTeamError :=
  match names with
  | [] => None
  | name :: r =>
      match find_agent agents name with
      | None => Some (ScheduleInternal (t!"team '" ++ team ++ t!"' references unknown agent member '" ++ name ++ t!"'"))
      | Some a => if max_parallel_tasks a <=? agent_count counts name then Some TeamLimitReached
                  else members_free counts agents team r
      end
  end.

(** The part under the lock. *)
Definition schedule_locked (o : StoreEnv) (c : AgentsConfig) (team : TeamDefinition) (parent_task_id team_name prompt : str)
    : SR ScheduleTeamError FacadeScheduleTeamResult := fun w =>
  match members_free (live_session_task_counts_from o w) (agent_profiles c) team_name (members_to_create team) with
  | Some e => (inr e, w)
  | None =>
      (d ← wrapped ScheduleInternal (schedule_team o parent_task_id team (agent_profiles c) prompt);
       mret (mk_FacadeScheduleTeamResult (dc_parent_task_id d) (session_task_ids d) (team_scheduler_name (dc_scheduler d)))) w
  end.

Definition facade_schedule_team (o : StoreEnv) (f : AgentsFile) (parent_task_id team_name prompt : str)
    : SR ScheduleTeamError FacadeScheduleTeamResult :=
  if is_empty (trim parent_task_id) then fail TeamParentRequired
  else if is_empty (trim prompt) then fail PromptRequired
  else if MAX_DELEGATE_PROMPT_BYTES <? blen prompt then fail TeamPromptTooLong
  else
    c ← read_config ScheduleInternal TeamConfigMissing f;
    team ← or_fail TeamNotFound (List.find (fun t => str_eqb (td_name t) team_name) (team_definitions c));
    schedule_locked o c team parent_task_id team_name prompt.

Record FacadeJoinOutcome := mk_FacadeJoinOutcome {
  fj_all_done : bool;
  fj_completed : N;
  fj_failed : N;
  fj_cancelled : N;
  fj_summaries : list (str * str);
}.
Definition facade_poll_join (o : StoreEnv) (parent_task_id : str) : SR str (option FacadeJoinOutcome) :=
  outcome ← poll_fan_out_join o parent_task_id;
  match outcome with
  | None => mret None
  | Some j =>
      live ← apply_join_outcome o parent_task_id j;
      mret (Some (mk_FacadeJoinOutcome (all_done j) (completed j) (failed j) (cancelled j)
                    (map (fun e => (lj_agent_id e, body e)) live)))
  end.

(** *** Tasks of the session: query.rs and agents.rs *)
Inductive SessionTaskStatusError : Type := TaskNotFound | InvalidStatus | TransitionNotAllowed | StatusInternal (message : str).

Record FacadeSessionTaskRollup := mk_FacadeSessionTaskRollup {
  ro_id : str;
  ro_parent_task_id : str;
  ro_agent_id : str;
  ro_lifecycle_state : str;
  ro_worktree_path : option str;
  ro_started_at_ms : option N;
  ro_updated_at_ms : N;
  ro_handoff_summary : option str;
}.
Definition session_task_to_rollup (t : SessionTask) : FacadeSessionTaskRollup :=
  mk_FacadeSessionTaskRollup (st_id t) (st_parent_task_id t) (agent_id t) (status_name (lifecycle_state t))
    (worktree_path t) (started_at t) (updated_at t) (handoff_summary t).

Definition parse_session_task_status (s : str) : option SessionTaskStatus :=
  List.find (fun status => str_eqb s (status_name status)) [Pending; Running; Blocked; Failed; Cancelled; Completed].

(** What an update of a status reads: the state that it is going to write. *)
Definition read_status_update (o : StoreEnv) (session_task_id status_str : str)
    : SR SessionTaskStatusError TaskState := fun w =>
  (match parse_session_task_status status_str with
   | None => inr InvalidStatus
   | Some status =>
       match find_session_task_in_saved_states o session_task_id w with
       | inr e => inr (StatusInternal e)
       | inl None => inr TaskNotFound
       | inl (Some (parent, existing)) =>
           if is_live (lifecycle_state existing)
           then inl (update_session_task_status session_task_id status (now o) parent).2
           else inr TransitionNotAllowed
       end
   end, w).
(** The status of a task is changed.  The parent is read and written back in one step here, and so it
    is below for a release; the code does both without the lock of the delegation, so that between
    them other requests may write ([status_update_loses_delegation] shows the two halves apart). *)
Definition facade_update_session_task_status (o : StoreEnv) (session_task_id status_str : str)
    : SR SessionTaskStatusError FacadeSessionTaskRollup :=
  parent ← read_status_update o session_task_id status_str;
  _ ← wrapped StatusInternal (save o parent);
  t ← or_fail (StatusInternal t!"session task missing after save") (session_task session_task_id parent);
  mret (session_task_to_rollup t).

Definition facade_get_session_task (o : StoreEnv) (session_task_id : str) : SR str (option FacadeSessionTaskRollup) := fun w =>
  (match find_session_task_in_saved_states o session_task_id w with
   | inr e => inr e
   | inl found => inl ((fun st => session_task_to_rollup st.2) <$> found)
   end, w).

Definition release_held (o : StoreEnv) (session_task_id : str) : SR str unit := fun w =>
  match leases w !! session_task_id with
  | Some _ => release o session_task_id w
  | None => (inl tt, w)
  end.
(** A task that works is completed; its worktree is given back. *)
Definition facade_release_session_task (o : StoreEnv) (session_task_id : str) : SR str bool := fun w =>
  match find_session_task_in_saved_states o session_task_id w with
  | inr e => (inr e, w)
  | inl None => (inl false, w)
  | inl (Some (parent, _)) =>
      let working := match session_task session_task_id parent with
                     | Some t => is_live (lifecycle_state t)
                     | None => false
                     end in
      (_ ← (if working then save o (update_session_task_status session_task_id Completed (now o) parent).2 else mret tt);
       _ ← release_held o session_task_id; mret true) w
  end.

(** *** Lists over the files of tasks: one that cannot be loaded is an error *)
Fixpoint load_all (o : StoreEnv) (w : TaskStore) (files : list TaskStateFile) : list TaskState + str :=
  match files with
  | [] => inl []
  | f :: r =>
      match load_file o w f with
      | None => inr (tf_id f)
      | Some s => match load_all o w r with inl l => inl (s :: l) | inr e => inr e end
      end
  end.
Definition over_states {A} (o : StoreEnv) (g : list TaskState -> A) : SR str A := fun w =>
  (match load_all o w (state_files_from o w) with inl l => inl (g l) | inr e => inr e end, w).

Definition task_status_name (s : TaskStatus) : str :=
  match s with
  | TReady => t!"ready" | TRunning => t!"running" | TAwaitingApproval => t!"awaiting_approval"
  | TCancelling => t!"cancelling" | TCompleted => t!"completed" | TFailed => t!"failed" | TCancelled => t!"cancelled"
  | TMaxTurnsReached => t!"max_turns_reached"
  end.
Definition live_tasks (s : TaskState) : list SessionTask := List.filter (fun t => is_live (lifecycle_state t)) (ts_session_tasks s).

Record FacadeTaskSummary := mk_FacadeTaskSummary {
  fs_id : str;
  fs_status : str;
  fs_parent_task_id : option str;
  fs_agent_id : option str;
  session_task_count : N;
  live_count : N;
}.
Definition facade_list_tasks (o : StoreEnv) : SR str (list FacadeTaskSummary) :=
  over_states o (map (fun s => mk_FacadeTaskSummary (ts_id s) (task_status_name (ts_status s)) (ts_parent_task_id s)
                                 (ts_agent_id s) (N.of_nat (length (ts_session_tasks s))) (N.of_nat (length (live_tasks s))))).
Definition facade_list_session_tasks (o : StoreEnv) : SR str (list FacadeSessionTaskRollup) :=
  over_states o (List.flat_map (fun s => map session_task_to_rollup (ts_session_tasks s))).

Record FacadeTaskGraphNode := mk_FacadeTaskGraphNode {
  gn_id : str;
  gn_status : str;
  gn_agent_id : option str;
  gn_session_tasks : list FacadeSessionTaskRollup;
}.
Definition graph_node (s : TaskState) : FacadeTaskGraphNode :=
  mk_FacadeTaskGraphNode (ts_id s) (task_status_name (ts_status s)) (ts_agent_id s)
    (map session_task_to_rollup (ts_session_tasks s)).
Definition facade_task_graph (o : StoreEnv) : SR str (list FacadeTaskGraphNode) := over_states o (map graph_node).

Record FacadeTodoItem := mk_FacadeTodoItem { todo_id : str; todo_parent : str; todo_agent : str; todo_state : str }.
Definition todo_item (t : SessionTask) : FacadeTodoItem :=
  mk_FacadeTodoItem (st_id t) (st_parent_task_id t) (agent_id t) (status_name (lifecycle_state t)).
Definition todos_of (l : list TaskState) : list FacadeTodoItem := List.flat_map (fun s => map todo_item (live_tasks s)) l.
Definition facade_list_todos (o : StoreEnv) : SR str (list FacadeTodoItem) := over_states o todos_of.

(** The files written after a change skip the states that cannot be loaded: projection.rs. *)
Definition projection_rollup (o : StoreEnv) (w : TaskStore) : list FacadeTaskGraphNode * list FacadeTodoItem :=
  let l := omap (load_file o w) (state_files_from o w) in (map graph_node l, todos_of l).

Record FacadeAgentDescriptor := mk_FacadeAgentDescriptor {
  ad_name : str;
  ad_profile : str;
  ad_isolation : str;
  ad_max_parallel_tasks : N;
  live_session_tasks : N;
}.
Definition isolation_name (i : IsolationPolicy) : str := match i with Worktree => t!"worktree" | Shared => t!"shared" end.
Definition facade_list_agents (o : StoreEnv) (f : AgentsFile)
    : SR str (option (list FacadeAgentDescriptor * list (str * list str * str))) := fun w =>
  match load_agents_config f with
  | inr e => (inr (load_message e), w)
  | inl None => (inl None, w)
  | inl (Some c) =>
      let counts := live_session_task_counts_from o w in
      (inl (Some (map (fun a => mk_FacadeAgentDescriptor (ap_name a) (ap_profile a) (isolation_name (isolation a))
                                  (max_parallel_tasks a) (agent_count counts (ap_name a))) (agent_profiles c),
                  map (fun t => (td_name t, members t, team_scheduler_name (scheduler t))) (team_definitions c))), w)
  end.

Record FacadeWatchRollup := mk_FacadeWatchRollup {
  wr_kind : str;
  wr_id : str;
  wr_parent_task_id : option str;
  wr_agent_id : option str;
  wr_status : str;
  wr_worktree_path : option str;
}.
Definition facade_watch_rollup (o : StoreEnv) (id : str) : SR str (option FacadeWatchRollup) := fun w =>
  match load_from_search_dirs o id w with
  | Some s => (inl (Some (mk_FacadeWatchRollup t!"task" (ts_id s) (ts_parent_task_id s) (ts_agent_id s)
                            (task_status_name (ts_status s)) (ts_worktree_path s))), w)
  | None =>
      match find_session_task_in_saved_states o id w with
      | inr e => (inr e, w)
      | inl None => (inl None, w)
      | inl (Some (parent, t)) =>
          (inl (Some (mk_FacadeWatchRollup t!"session-task" (st_id t) (Some (ts_id parent)) (Some (agent_id t))
                        (status_name (lifecycle_state t)) (worktree_path t))), w)
      end
  end.
