(* ===== verification/AgentsTheory.v ===== *)
(** What agents and teams promise: which configurations are accepted, how many tasks of an agent
    work at once, what is lost between a read and a write, and which summaries a join reports. *)
From Stdlib Require Import NArith ZArith Lia.
From stdpp Require Import base list gmap strings numbers sets.
From S2P Require Import Prelude Text Collections Evidence PeerChannel TaskDocument TaskSnapshot TaskStore TaskStoreTheory Agents.
#[local] Open Scope N_scope.

(** ** The configuration *)
Lemma unless_None ok e rest : unless ok e rest = None <-> ok = true /\ rest = None.
Proof. unfold unless. destruct ok; naive_solver. Qed.

Lemma first_error_None {A} (check : list A -> A -> option ConfigError) l seen :
  first_error check seen l = None <-> forall before x after, l = before ++ x :: after -> check (seen ++ before) x = None.
Proof.
  revert seen. induction l as [|y l IH]; intros seen; cbn [first_error].
  { split; [|done]. intros _ [|] x after; done. }
  destruct (check seen y) as [e|] eqn:E.
  - split; [done|]. intros H. specialize (H [] y l eq_refl). rewrite app_nil_r in H. congruence.
  - rewrite IH. split.
    + intros H [|z before] x after [= -> ->]; [by rewrite app_nil_r|].
      specialize (H before x after eq_refl). by rewrite <- app_assoc in H.
    + intros H before x after ->. specialize (H (y :: before) x after eq_refl). by rewrite <- app_assoc.
Qed.

(** Checks that compare a name with those before, and look at the rest by itself. *)
Lemma first_error_names {A} (name : A -> str) (check : list A -> A -> option ConfigError) (good : A -> Prop) l :
  (forall seen x, check seen x = None <-> name x ∉ map name seen /\ good x) ->
  first_error check [] l = None <-> NoDup (map name l) /\ Forall good l.
Proof.
  intros Hc. rewrite first_error_None. setoid_rewrite Hc. cbn [app]. split.
  - intros H. assert (forall before, (exists after, l = before ++ after) -> NoDup (map name before) /\ Forall good before) as Hp.
    { intros before. induction before as [|x before IH] using rev_ind; intros [after ->].
      { split; constructor. }
      rewrite <- app_assoc in H. destruct (H before x after eq_refl) as [Hn Hg].
      destruct IH as [H1 H2]; [exists (x :: after); by rewrite <- app_assoc|].
      rewrite map_app, Forall_app. split; [|split; [done | by constructor]].
      apply NoDup_app. split; [done|]. split; [|apply NoDup_singleton].
      intros y Hy ->%list_elem_of_singleton. done. }
    apply Hp. exists []. by rewrite app_nil_r.
  - intros [Hn Hg] before x after ->. rewrite map_app in Hn. cbn in Hn. apply NoDup_app in Hn as (_ & Hd & _).
    split; [intros Hin; apply (Hd _ Hin); by left|]. rewrite list.Forall_forall in Hg. apply Hg, elem_of_app. right. by left.
Qed.

Definition good_name (name : str) : Prop := name <> [] /\ blen name <= MAX_CONFIG_NAME_LEN /\ is_filesystem_safe name = true.
Definition good_team (agents : list str) (t : TeamDefinition) : Prop :=
  good_name (td_name t) /\ members t <> [] /\ NoDup (members t) /\ Forall (fun m => m ∈ agents) (members t).
Definition good_isolation (a : AgentProfile) : Prop :=
  isolation a = Shared -> max_parallel_tasks a <= 1 /\ Forall (fun cap => cap ∉ MUTABLE_CAPABILITIES) (allowed_capabilities a).

Lemma negb_empty s : negb (is_empty s) = true <-> s <> [].
Proof. by destruct s. Qed.
Lemma negb_in x l : negb (str_in x l) = true <-> x ∉ l.
Proof. by rewrite negb_true_iff, str_in_not. Qed.

Lemma check_agent_name_None seen a : check_agent_name seen a = None <-> ap_name a ∉ map ap_name seen /\ good_name (ap_name a).
Proof. unfold check_agent_name, good_name. rewrite !unless_None, negb_empty, negb_in, N.leb_le. naive_solver. Qed.

Lemma check_members agents team l : first_error (check_member agents team) [] l = None <-> NoDup l /\ Forall (fun m => m ∈ agents) l.
Proof.
  rewrite (first_error_names id _ (fun m => m ∈ agents)).
  - by rewrite map_id.
  - intros seen x. unfold check_member. rewrite !unless_None, negb_in, str_in_iff, map_id. naive_solver.
Qed.

Lemma check_team_None agents seen t : check_team agents seen t = None <-> td_name t ∉ map td_name seen /\ good_team agents t.
Proof.
  unfold check_team, good_team, good_name. rewrite !unless_None, negb_empty, negb_in, N.leb_le, check_members.
  destruct (members t); naive_solver.
Qed.

Lemma check_isolation_None seen a : check_isolation seen a = None <-> good_isolation a.
Proof.
  unfold check_isolation, good_isolation. destruct (isolation a); [done|]. rewrite unless_None, N.leb_le.
  destruct (List.find _ _) as [cap|] eqn:E.
  - apply List.find_some in E as [Hin Hc]. apply str_in_iff in Hc. split; [naive_solver|]. intros H.
    destruct (H eq_refl) as [_ Hf]. rewrite list.Forall_forall in Hf. by destruct (Hf cap (proj2 (list_elem_of_In _ _) Hin)).
  - split; [|naive_solver]. intros [Hm _] _. split; [done|]. apply list.Forall_forall. intros cap Hin%list_elem_of_In Hc.
    apply str_in_iff in Hc. by rewrite (List.find_none _ _ E cap Hin) in Hc.
Qed.

Lemma validate_None c : validate c = None <->
  (NoDup (map ap_name (agent_profiles c)) /\ Forall (fun a => good_name (ap_name a)) (agent_profiles c))
  /\ (NoDup (map td_name (team_definitions c)) /\ Forall (good_team (map ap_name (agent_profiles c))) (team_definitions c))
  /\ Forall good_isolation (agent_profiles c).
Proof.
  assert (forall a b : option ConfigError, match a with Some e => Some e | None => b end = None <-> a = None /\ b = None) as Hm.
  { intros [|] ?; naive_solver. }
  unfold validate. rewrite !Hm. unfold validate_agent_names, validate_team_members, validate_isolation_invariants.
  rewrite (first_error_names ap_name _ (fun a => good_name (ap_name a))) by apply check_agent_name_None.
  rewrite (first_error_names td_name _ (good_team (map ap_name (agent_profiles c)))) by apply check_team_None.
  rewrite first_error_None. setoid_rewrite check_isolation_None. rewrite (list.Forall_forall good_isolation).
  split; intros (H1 & H2 & H3); (split; [done|]; split; [done|]).
  - intros x (a & b & E)%list_elem_of_split. by apply (H3 a x b).
  - intros a x b E. apply H3. rewrite E. apply elem_of_app. right. by left.
Qed.

Lemma find_agent_Some c a : validate c = None -> a ∈ agent_profiles c -> find_agent (agent_profiles c) (ap_name a) = Some a.
Proof.
  intros ((Hn & _) & _)%validate_None. unfold find_agent. induction (agent_profiles c) as [|b l IH]; [by intros ?%elem_of_nil|].
  cbn in Hn |- *. apply NoDup_cons in Hn as [Hb Hn]. intros [->|Hin]%elem_of_cons; [by rewrite str_eqb_same|].
  rewrite str_eqb_other; [by apply IH|]. intros E. apply Hb. rewrite E. apply list_elem_of_fmap. eauto.
Qed.
Lemma find_agent_inv l name a : find_agent l name = Some a -> ap_name a = name /\ a ∈ l.
Proof. unfold find_agent. intros [Hin E]%List.find_some. apply str_eqb_iff in E. by rewrite list_elem_of_In. Qed.

(** ** How many tasks work at once *)
Definition same_files (w w' : TaskStore) : Prop := state_dir w' = state_dir w /\ legacy_dir w' = legacy_dir w.
#[export] Instance same_files_preorder : PreOrder same_files.
Proof. split; [done | unfold same_files; intros ???; intuition congruence]. Qed.
Lemma same_files_ok w w' : same_files w w' -> store_ok w -> store_ok w'.
Proof. intros [Hs Hl] []. split; rewrite ?Hs, ?Hl; done. Qed.
Lemma same_files_live a w w' : same_files w w' -> live_of a w' = live_of a w.
Proof. intros [Hs _]. unfold live_of. by rewrite Hs. Qed.

Definition reads {E A} (m : SR E A) : Prop := forall w, same_files w (m w).2.
Lemma reads_bind {E A B} (m : SR E A) (f : A -> SR E B) : reads m -> (forall a, reads (f a)) -> reads (m ≫= f).
Proof.
  intros Hm Hf w. rewrite sr_bind_run. specialize (Hm w). destruct (m w) as [[a|e] w1]; [|done].
  etrans; [exact Hm | apply Hf].
Qed.
Lemma reads_pure {E A} (m : SR E A) : (forall w, (m w).2 = w) -> reads m.
Proof. intros H w. by rewrite H. Qed.
Lemma reads_ret {E A} (a : A) : reads (E := E) (mret a).
Proof. by apply reads_pure. Qed.
Lemma reads_lease o id p : reads (lease_for_task o id p).
Proof. intros w. unfold lease_for_task. by destruct (lease_error o id). Qed.
Lemma reads_release o id : reads (release o id).
Proof. intros w. unfold release. destruct (leases w !! id); [|done]. by destruct (release_error o id). Qed.

Lemma reads_spawn o sequential a parent_task_id agent prompt uuid parent :
  reads (spawn o sequential a parent_task_id agent prompt uuid parent).
Proof.
  apply reads_bind; [|intros; apply reads_ret]. destruct (bool_decide _); [|apply reads_ret].
  apply reads_bind; [apply reads_lease | intros; apply reads_ret].
Qed.
Lemma reads_members o sequential agents parent_task_id prompt names i parent :
  reads (spawn_members o sequential agents parent_task_id prompt i names parent).
Proof.
  revert i parent. induction names as [|name r IH]; intros i parent; cbn [spawn_members]; [apply reads_ret|].
  apply reads_bind; [by apply reads_pure|]. intros a. apply reads_bind; [apply reads_spawn|].
  intros [id p]. apply reads_bind; [apply IH|]. intros [ids p']. apply reads_ret.
Qed.

(** A new task works for its agent. *)
Definition occurs (a : str) (names : list str) : N := N.of_nat (length (List.filter (str_eqb a) names)).
Lemma occurs_cons a x l : occurs a (x :: l) = (if str_eqb a x then 1 else 0) + occurs a l.
Proof. unfold occurs. cbn. destruct (str_eqb a x); cbn [length]; lia. Qed.
Lemma occurs_absent a l : a ∉ l -> occurs a l = 0.
Proof.
  induction l as [|x l IH]; [done|]. intros [Hx Hl]%not_elem_of_cons. rewrite occurs_cons, str_eqb_other, IH by done. done.
Qed.
Lemma occurs_once a l : NoDup l -> occurs a l <= 1.
Proof.
  induction l as [|x l IH]; [unfold occurs; cbn; lia|]. intros [Hx Hl]%NoDup_cons. rewrite occurs_cons. destruct (str_eqb a x) eqn:E.
  - apply str_eqb_iff in E as ->. rewrite occurs_absent by done. lia.
  - specialize (IH Hl). lia.
Qed.

Lemma spawn_run o sequential a parent_task_id agent prompt uuid parent w id parent' w' :
  spawn o sequential a parent_task_id agent prompt uuid parent w = (inl (id, parent'), w') ->
  ts_id parent' = ts_id parent
  /\ exists t, ts_session_tasks parent' = ts_session_tasks parent ++ [t] /\ st_id t = id
       /\ id = parent_task_id ++ t!"-" ++ agent ++ t!"-" ++ uuid /\ agent_id t = agent /\ lifecycle_state t = Pending
       /\ supersedes t = supersedes (stamp_join_supersedes (ts_session_tasks parent) sequential
                            (session_task_new parent_task_id agent prompt None uuid (now o))).
Proof.
  intros (t & w1 & Ht & [= <- <- _])%sr_bind_inv. split; [done|]. exists t. split; [done|].
  destruct (bool_decide _).
  - apply sr_bind_inv in Ht as (lease & w2 & _ & [= <- _]). done.
  - by injection Ht as <- _.
Qed.

Lemma spawn_live o sequential a parent_task_id agent prompt uuid parent w id parent' w' b :
  spawn o sequential a parent_task_id agent prompt uuid parent w = (inl (id, parent'), w') ->
  live_state b parent' = live_state b parent + (if str_eqb b agent then 1 else 0).
Proof.
  intros (_ & t & E & _ & _ & Ha & Hl & _)%spawn_run. unfold live_state. rewrite E, map_app, live_here_app.
  cbn [map]. rewrite live_here_cons. unfold works, summary_of. cbn. rewrite Hl, Ha. cbn.
  assert (str_eqb agent b = str_eqb b agent) as -> by (apply eq_true_iff_eq; rewrite !str_eqb_iff; naive_solver).
  destruct (str_eqb b agent); unfold live_here; cbn; lia.
Qed.

Lemma members_live o sequential agents parent_task_id prompt names i parent w ids parent' w' b :
  spawn_members o sequential agents parent_task_id prompt i names parent w = (inl (ids, parent'), w') ->
  ts_id parent' = ts_id parent /\ live_state b parent' = live_state b parent + occurs b names.
Proof.
  revert i parent w ids parent' w'. induction names as [|name r IH]; intros i parent w ids parent' w'; cbn [spawn_members].
  { intros [= _ -> _]. split; [done|]. unfold occurs. cbn. lia. }
  intros (a & w1 & _ & ([id p] & w2 & Hs & ([ids' p'] & w3 & Hm & [= _ <- _])%sr_bind_inv)%sr_bind_inv)%sr_bind_inv.
  apply IH in Hm as [-> ->]. rewrite (spawn_live _ _ _ _ _ _ _ _ _ _ _ _ b Hs), occurs_cons.
  apply spawn_run in Hs as [-> _]. split; [done | lia].
Qed.

(** What an operation may add to the count of an agent. *)
Definition adds {E A} (k : str -> N) (m : SR E A) (w : TaskStore) : Prop :=
  store_ok (m w).2 /\ (forall a, live_of a (m w).2 <= live_of a w + k a)
  /\ (length (state_dir (m w).2) <= S (length (state_dir w)))%nat.

Lemma adds_same {E A} (m : SR E A) k w : store_ok w -> same_files w (m w).2 -> adds k m w.
Proof.
  intros Hok Hs. split; [by eapply same_files_ok|]. split; [intros a; rewrite (same_files_live a _ _ Hs); lia|].
  destruct Hs as [-> _]. lia.
Qed.
Lemma adds_save o s k w : store_ok w -> listed_id (state_file_name (ts_id s)) = Some (ts_id s) ->
  (forall a, live_state a s <= old_file (live_in a) (state_file_name (ts_id s)) (state_dir w) + k a) -> adds k (save o s) w.
Proof. intros Hok Hl Hs. split; [by apply save_ok|]. split; [intros a; by apply save_live | apply save_length]. Qed.

(** What comes before a save reads, and what comes after it too. *)
Lemma adds_after {E A B} (m : SR E A) (f : A -> SR E B) k w :
  store_ok w -> reads m -> (forall a w1, m w = (inl a, w1) -> same_files w w1 -> store_ok w1 -> adds k (f a) w1) -> adds k (m ≫= f) w.
Proof.
  intros Hok Hm Hf. specialize (Hm w). unfold adds. rewrite sr_bind_run. destruct (m w) as [[a|e] w1] eqn:Em; cbn [snd] in *.
  - assert (store_ok w1) as Hok1 by (by eapply same_files_ok). destruct (Hf a w1 eq_refl Hm Hok1) as (H1 & H2 & H3).
    split; [done|]. destruct Hm as [Es El]. unfold live_of in *. rewrite Es in *. done.
  - by apply (adds_same (E := E) (A := B) (fun _ => (inr e, w1)) k w).
Qed.
Lemma adds_then {E A B} (m : SR E A) (f : A -> SR E B) k w :
  adds k m w -> (forall a, reads (f a)) -> adds k (m ≫= f) w.
Proof.
  intros (H1 & H2 & H3) Hf. unfold adds. rewrite sr_bind_run. destruct (m w) as [[a|e] w1]; [|done]. cbn [snd] in *.
  pose proof (Hf a w1) as Hs. split; [by eapply same_files_ok|]. split.
  - intros b. rewrite (same_files_live b _ _ Hs). apply H2.
  - by destruct Hs as [-> _].
Qed.
Lemma adds_wrapped {E E' A} (g : E -> E') (m : SR E A) k w : adds k m w -> adds k (wrapped g m) w.
Proof. unfold adds, wrapped. by destruct (m w) as [[a|e] w1]. Qed.

Definition one (agent b : str) : N := if str_eqb b agent then 1 else 0.
Definition none (b : str) : N := 0.
Definition good_parent (id : str) : Prop := listed_id (state_file_name id) = Some id.

Lemma parent_state o w id : store_ok w ->
  let p := default (task_state_new id (now o)) (load (now o) (state_dir w) id) in
  ts_id p = id /\ forall a, live_state a p <= old_file (live_in a) (state_file_name id) (state_dir w).
Proof.
  intros Hok p. subst p. destruct (load (now o) (state_dir w) id) as [s|] eqn:E; cbn [default].
  - destruct (load_Some o w id s Hok E) as (<- & _ & H). split; [done|]. intros a. by rewrite H.
  - split; [done|]. intros a. unfold live_state, live_here. cbn. lia.
Qed.

Lemma same_old g name w w' : same_files w w' -> old_file g name (state_dir w') = old_file g name (state_dir w).
Proof. by intros [-> _]. Qed.

Lemma adds_save_or_release o i id p k w : adds k (save o p) w -> adds k (save_or_release o i id p) w.
Proof.
  unfold adds, save_or_release. destruct (save o p w) as [[u|e] w1]; [done|]. cbn [snd]. intros (H1 & H2 & H3).
  destruct (bool_decide _); [|done]. pose proof (reads_release o id w1) as Hs. split; [by eapply same_files_ok|]. split.
  - intros a. rewrite (same_files_live a _ _ Hs). apply H2.
  - by destruct Hs as [-> _].
Qed.

Lemma delegate_adds o a id agent prompt w : store_ok w -> good_parent id ->
  adds (one agent) (delegate_locked o a id agent prompt) w.
Proof.
  intros Hok Hg. unfold adds, delegate_locked.
  destruct (max_parallel_tasks a <=? _); [by apply (adds_same (fun w => (inr ConcurrencyLimitReached, w) : _ * TaskStore))|].
  set (p := default (task_state_new id (now o)) (load (now o) (state_dir w) id)). destruct (parent_state o w id Hok) as [Hid Hlive]. fold p in Hid, Hlive. clearbody p.
  match goal with |- context [?m w] => change (adds (one agent) m w) end. apply adds_after; [done| |].
  { intros w1. unfold wrapped. pose proof (reads_spawn o false a id agent prompt (uuid o 0) p w1) as H.
    by destruct (spawn _ _ _ _ _ _ _ _ _) as [[?|?] ?]. }
  intros [tid p'] w1 Hs Hsame Hok1. unfold wrapped in Hs.
  destruct (spawn o false a id agent prompt (uuid o 0) p w) as [[x|?] w2] eqn:E; [|done]. injection Hs as -> ->.
  apply spawn_run in E as Hrun. destruct Hrun as [Hid' _].
  apply adds_then; [|intros; apply reads_ret]. apply adds_save_or_release, adds_save; [done|by rewrite Hid', Hid|].
  intros b. rewrite (spawn_live _ _ _ _ _ _ _ _ _ _ _ _ b E), Hid', Hid, (same_old _ _ _ _ Hsame).
  specialize (Hlive b). unfold one. lia.
Qed.

Lemma load_or_new_run o id w p w1 :
  load_or_new_parent o id w = (inl p, w1) -> p = default (task_state_new id (now o)) (load (now o) (state_dir w) id).
Proof.
  unfold load_or_new_parent, load_parent, load.
  destruct (find_file (state_file_name id) (state_dir w)) as [[s|h]|]; [by intros [= <- _] | done | by intros [= <- _]].
Qed.

Lemma schedule_adds o id team agents prompt w : store_ok w -> good_parent id ->
  adds (fun b => occurs b (members_to_create team)) (schedule_team o id team agents prompt) w.
Proof.
  intros Hok Hg. unfold schedule_team. destruct (members team) as [|m0 ms]; [by apply adds_same|].
  apply adds_after; [done| |].
  { intros w1. unfold load_or_new_parent, load_parent. destruct (find_file _ _); [|done]. done. }
  intros p w1 Hp Hsame Hok1.
  assert (ts_id p = id /\ forall a, live_state a p <= old_file (live_in a) (state_file_name id) (state_dir w1)) as [Hid Hlive].
  { rewrite (proj1 Hsame), (load_or_new_run o id w p w1 Hp). by apply parent_state. }
  apply adds_after; [done | apply reads_members |]. intros [ids p'] w2 Hm Hsame2 Hok2.
  apply adds_then; [|intros; apply reads_ret]. 
  assert (ts_id p' = id) as Hid' by (by destruct (members_live _ _ _ _ _ _ _ _ _ _ _ _ id Hm) as [-> _]).
  apply adds_save; [done | by rewrite Hid' |]. intros b.
  destruct (members_live _ _ _ _ _ _ _ _ _ _ _ _ b Hm) as [_ ->]. rewrite Hid', (same_old _ _ _ _ Hsame2).
  specialize (Hlive b). lia.
Qed.

(** A state that was loaded and is saved with no more tasks that work. *)
Lemma adds_resave o p s w : store_ok w -> load (now o) (state_dir w) (ts_id p) = Some p ->
  ts_id s = ts_id p -> (forall a, live_state a s <= live_state a p) -> adds none (save o s) w.
Proof.
  intros Hok Hl Hid Hs. destruct (load_Some o w _ p Hok Hl) as (_ & Hg & Ho).
  apply adds_save; [done | by rewrite Hid |]. intros a. rewrite Hid, Ho. specialize (Hs a). unfold none. lia.
Qed.

Lemma found_update o w id s t status : store_ok w ->
  find_session_task_in_saved_states o id w = inl (Some (s, t)) -> is_live (lifecycle_state t) = true ->
  adds none (save o (update_session_task_status id status (now o) s).2) w.
Proof.
  intros Hok Hf Hl. destruct (find_in_files_Some o w id _ s t Hok Hf) as [Hs Ht].
  apply (adds_resave o s); [done | done | by destruct (update_live id status (now o) id s t Ht Hl) |].
  intros a. by destruct (update_live id status (now o) a s t Ht Hl).
Qed.

Lemma update_adds o id status w : store_ok w -> adds none (facade_update_session_task_status o id status) w.
Proof.
  intros Hok. apply adds_after; [done | by apply reads_pure |]. intros s w1 Hr Hsame Hok1.
  apply adds_then; [|intros; apply reads_bind; [by apply reads_pure | intros; apply reads_ret]].
  apply adds_wrapped. unfold read_status_update in Hr. injection Hr as Hr <-.
  destruct (parse_session_task_status status) as [st|]; [|done].
  destruct (find_session_task_in_saved_states o id w) as [[[p t]|]|] eqn:Ef; [|done..].
  destruct (is_live (lifecycle_state t)) eqn:El; [|done]. injection Hr as <-. by apply (found_update o w id p t).
Qed.

Lemma release_adds o id w : store_ok w -> adds none (facade_release_session_task o id) w.
Proof.
  intros Hok. unfold adds, facade_release_session_task.
  destruct (find_session_task_in_saved_states o id w) as [[[p t]|]|e] eqn:Ef; [|by apply (adds_same (fun w => (inl false, w) : (bool + str) * _))|by apply (adds_same (fun w => (inr e, w) : (bool + str) * _))].
  match goal with |- context [?m w] => change (adds none m w) end.
  destruct (find_in_files_Some o w id _ p t Hok Ef) as [Hs Ht]. rewrite Ht.
  apply adds_then.
  - destruct (is_live (lifecycle_state t)) eqn:El; [by apply (found_update o w id p t) | by apply adds_same].
  - intros _. apply reads_bind; [|intros; apply reads_ret]. intros w1. unfold release_held.
    destruct (leases w1 !! id); [apply reads_release | done].
Qed.

Lemma join_adds o id w : store_ok w -> adds none (facade_poll_join o id) w.
Proof.
  intros Hok. apply adds_after; [done | |].
  { apply reads_bind; [by apply reads_pure | intros; apply reads_ret]. }
  intros [j|] w1 _ Hsame Hok1; [|by apply adds_same]. apply adds_then; [|intros; apply reads_ret].
  unfold apply_join_outcome. destruct (summaries j) as [|x l]; [by apply adds_same|].
  apply adds_after; [done | by apply reads_pure |]. intros index w2 _ _ Hok2.
  apply adds_after; [done | |].
  { intros w3. unfold save_index. by destruct (save_error o). }
  intros _ w3 _ _ Hok3. apply adds_after; [done | by apply reads_pure |]. intros s w4 Hl _ Hok4.
  apply adds_then.
  - unfold load_parent in Hl. destruct (load (now o) (state_dir w3) id) as [s'|] eqn:E; [|done]. injection Hl as <- <-.
    apply (adds_resave o s'); [done | |done|done]. by destruct (load_Some o w3 id s' Hok3 E) as (-> & _).
  - intros _. apply reads_bind; [|intros; apply reads_ret]. intros w5. unfold record_evidence.
    destruct (record_join_evidence _ _ _) as [[r|] f]; [|done]. by destruct (save_error o).
Qed.

(** ** Sequences of operations *)
Inductive AgentOp : Type :=
| OpDelegate (parent : option str) (agent prompt : str)
| OpSchedule (parent team prompt : str)
| OpUpdate (session_task_id status : str)
| OpRelease (session_task_id : str)
| OpJoin (parent : str).

Definition op_step (f : AgentsFile) (o : StoreEnv) (op : AgentOp) (w : TaskStore) : TaskStore :=
  match op with
  | OpDelegate parent agent prompt => (facade_delegate_session_task o f parent agent prompt w).2
  | OpSchedule parent team prompt => (facade_schedule_team o f parent team prompt w).2
  | OpUpdate id status => (facade_update_session_task_status o id status w).2
  | OpRelease id => (facade_release_session_task o id w).2
  | OpJoin parent => (facade_poll_join o parent w).2
  end.

(** A task is named like a file of the state directory that is listed as its own. *)
Definition names_files (op : AgentOp) : Prop :=
  match op with OpDelegate (Some parent) _ _ | OpSchedule parent _ _ => good_parent parent | _ => True end.

Definition within (c : AgentsConfig) (w : TaskStore) : Prop :=
  forall a, a ∈ agent_profiles c -> live_of (ap_name a) w <= max_parallel_tasks a.
Definition step_ok (c : AgentsConfig) (w w' : TaskStore) : Prop :=
  store_ok w' /\ within c w' /\ (length (state_dir w') <= S (length (state_dir w)))%nat.

Lemma op_reads c w w' : store_ok w -> within c w -> same_files w w' -> step_ok c w w'.
Proof.
  intros Hok Hw Hs. split; [by eapply same_files_ok|]. split; [intros a Ha; rewrite (same_files_live _ _ _ Hs); auto|].
  destruct Hs as [-> _]. lia.
Qed.
Lemma op_adds_none {E A} c (m : SR E A) w : within c w -> adds none m w -> step_ok c w (m w).2.
Proof. intros Hw (H1 & H2 & H3). split; [done|]. split; [|done]. intros a Ha. specialize (H2 (ap_name a)). specialize (Hw a Ha). unfold none in H2. lia. Qed.

Lemma step_delegate c o id agent prompt w :
  validate c = None -> store_ok w -> within c w -> N.of_nat (length (state_dir w)) <= max_scans o -> good_parent id ->
  forall a, find_agent (agent_profiles c) agent = Some a -> step_ok c w (delegate_locked o a id agent prompt w).2.
Proof.
  intros Hv Hok Hw Hl Hg a Ha. pose proof (delegate_adds o a id agent prompt w Hok Hg) as (H1 & H2 & H3).
  apply find_agent_inv in Ha as [<- Hin].
  unfold delegate_locked in *. destruct (max_parallel_tasks a <=? _) eqn:E; [by apply op_reads|].
  split; [done|]. split; [|done]. intros b Hb. specialize (H2 (ap_name b)). unfold one in H2.
  apply N.leb_gt in E. unfold agent_count in E. rewrite counts_all in E by done.
  destruct (str_eqb (ap_name b) (ap_name a)) eqn:Eb; [|specialize (Hw b Hb); lia].
  apply str_eqb_iff in Eb. pose proof (find_agent_Some c a Hv Hin) as Fa. rewrite <- Eb, (find_agent_Some c b Hv Hb) in Fa.
  injection Fa as <-. lia.
Qed.

Lemma members_free_None counts agents team names : members_free counts agents team names = None ->
  forall name, name ∈ names -> exists a, find_agent agents name = Some a /\ agent_count counts name < max_parallel_tasks a.
Proof.
  induction names as [|n r IH]; cbn [members_free]; [by intros _ ? ?%elem_of_nil|].
  destruct (find_agent agents n) as [a|] eqn:E; [|done]. destruct (_ <=? _) eqn:El; [done|]. intros H name [->|Hin]%elem_of_cons.
  - exists a. split; [done|]. by apply N.leb_gt.
  - by apply IH.
Qed.

Lemma members_NoDup t : NoDup (members t) -> NoDup (members_to_create t).
Proof. unfold members_to_create. destruct (scheduler t); [done|]. rewrite <- (take_drop 1 (members t)) at 1. by intros (H & _ & _)%NoDup_app. Qed.

Lemma step_schedule c o team parent name prompt w :
  validate c = None -> team ∈ team_definitions c -> store_ok w -> within c w ->
  N.of_nat (length (state_dir w)) <= max_scans o -> good_parent parent ->
  step_ok c w (schedule_locked o c team parent name prompt w).2.
Proof.
  intros Hv Hin Hok Hw Hl Hg. unfold schedule_locked. destruct (members_free _ _ _ _) as [e|] eqn:E; [by apply op_reads|].
  match goal with |- context [?m w] => assert (adds (fun b => occurs b (members_to_create team)) m w) as (H1 & H2 & H3) end.
  { apply adds_then; [|intros; apply reads_ret]. by apply adds_wrapped, schedule_adds. }
  split; [done|]. split; [|done]. intros b Hb. specialize (H2 (ap_name b)).
  apply validate_None in Hv as Hv'. destruct Hv' as (_ & (_ & Ht) & _). rewrite list.Forall_forall in Ht.
  destruct (Ht team Hin) as (_ & _ & Hnd & _). apply members_NoDup in Hnd.
  destruct (decide (ap_name b ∈ members_to_create team)) as [Hm|Hm].
  - destruct (members_free_None _ _ _ _ E _ Hm) as (a & Ha & Hlt). rewrite (find_agent_Some c b Hv Hb) in Ha. injection Ha as <-.
    unfold agent_count in Hlt. rewrite counts_all in Hlt by done. pose proof (occurs_once (ap_name b) _ Hnd). cbn beta in H2. lia.
  - cbn beta in H2. rewrite occurs_absent in H2 by done. specialize (Hw b Hb). lia.
Qed.

(** ** The properties *)
(** A configuration of agents is accepted exactly when every name is not empty, at most 64 bytes
    long and safe in a path, no agent and no team is named twice, every team has members, each once
    and each an agent of the configuration, and an agent without a worktree of its own runs one task
    at a time and may not change anything. *)
Theorem config_accepted_iff f c :
  load_agents_config f = inl (Some c) <->
  f = AgentsFileRead c
  /\ NoDup (map ap_name (agent_profiles c)) /\ Forall (fun a => good_name (ap_name a)) (agent_profiles c)
  /\ NoDup (map td_name (team_definitions c))
  /\ Forall (good_team (map ap_name (agent_profiles c))) (team_definitions c)
  /\ Forall good_isolation (agent_profiles c).
Proof.
  unfold load_agents_config. destruct f as [|e|c']; [naive_solver..|]. destruct (validate c') as [e|] eqn:E.
  - split; [done|]. intros ([= ->] & H1 & H2 & H3 & H4 & H5). rewrite (proj2 (validate_None c)) in E; done.
  - apply validate_None in E. naive_solver.
Qed.

Lemma step_config f c : load_agents_config f = inl (Some c) -> f = AgentsFileRead c /\ validate c = None.
Proof. unfold load_agents_config. destruct f as [|e|c']; [done..|]. destruct (validate c') eqn:E; [done|]. by intros [= ->]. Qed.

Lemma step_op f c o op w :
  load_agents_config f = inl (Some c) -> store_ok w -> within c w ->
  N.of_nat (length (state_dir w)) <= max_scans o -> names_files op -> step_ok c w (op_step f o op w).
Proof.
  intros Hf Hok Hw Hl Hg. destruct (step_config f c Hf) as [-> Hv].
  destruct op as [[id|] agent prompt|parent team prompt|id status|id|parent]; cbn [op_step names_files] in *.
  - unfold facade_delegate_session_task. destruct (is_empty _); [by apply op_reads|]. destruct (_ <? _); [by apply op_reads|].
    rewrite sr_bind_run. unfold read_config. rewrite Hf, sr_bind_run. unfold or_fail.
    destruct (find_agent _ agent) as [a|] eqn:Ea; [|by apply op_reads]. by apply step_delegate.
  - by apply op_reads.
  - unfold facade_schedule_team. destruct (is_empty (trim parent)); [by apply op_reads|]. destruct (is_empty _); [by apply op_reads|].
    destruct (_ <? _); [by apply op_reads|]. rewrite sr_bind_run. unfold read_config. rewrite Hf, sr_bind_run. unfold or_fail.
    destruct (List.find _ _) as [t|] eqn:Et; [|by apply op_reads]. apply List.find_some in Et as [Hin _].
    apply step_schedule; [done | by apply list_elem_of_In | done..].
  - by apply op_adds_none, update_adds.
  - by apply op_adds_none, release_adds.
  - by apply op_adds_none, join_adds.
Qed.


(** A status that is changed while a task is delegated to the same parent loses the task: the
    change does not take the lock, and writes the state that it had read. *)
Theorem status_update_loses_delegation o id status o' f agent prompt o'' w s w0 r w' w'' :
  store_ok w -> read_status_update o id status w = (inl s, w0) ->
  facade_delegate_session_task o' f (Some (ts_id s)) agent prompt w = (inl r, w') ->
  session_task (dr_session_task_id r) s = None -> save o'' s w' = (inl tt, w'') ->
  (exists p, load (now o'') (state_dir w') (ts_id s) = Some p /\ is_Some (session_task (dr_session_task_id r) p))
  /\ exists p, load (now o'') (state_dir w'') (ts_id s) = Some p /\ session_task (dr_session_task_id r) p = None.
Proof.
  intros Hok _ Hd Hfresh Hs. split.
  - unfold facade_delegate_session_task in Hd. destruct (is_empty _); [done|]. destruct (_ <? _); [done|].
    apply sr_bind_inv in Hd as (c & w1 & Hc & Hd). injection Hc as _ <-.
    apply sr_bind_inv in Hd as (a & w1 & Ha & Hd). injection Ha as _ <-.
    unfold delegate_locked in Hd. destruct (_ <=? _); [done|].
    apply sr_bind_inv in Hd as ([tid p] & w1 & Hp & (u & w2 & Hsv & [= <- <-])%sr_bind_inv).
    unfold wrapped in Hp. destruct (spawn _ _ _ _ _ _ _ _ w) as [[x|] w3] eqn:E; [|done]. injection Hp as -> ->.
    apply spawn_run in E as (Hid & t & Et & Htid & _). cbn [dr_session_task_id].
    unfold save_or_release in Hsv. destruct (save o' p w1) as [[u'|] w4] eqn:Esv; [|done]. injection Hsv as _ ->.
    apply save_run in Esv as ->. destruct (parent_state o' w (ts_id s) Hok) as [Hid' _]. rewrite Hid' in Hid.
    exists (repaired (now o'') p). unfold load. cbn [state_dir set_state_dir]. rewrite Hid, find_write. split; [done|].
    unfold session_task. cbn [ts_session_tasks repaired]. rewrite Et. destruct (List.find _ _) eqn:En; [done|].
    exfalso. assert (has_id tid t = true) as Hh by (unfold has_id; by rewrite Htid, str_eqb_same).
    rewrite (List.find_none _ _ En t) in Hh; [done|]. apply in_or_app. right. by left.
  - apply save_run in Hs as ->. exists (repaired (now o'') s). unfold load. cbn [state_dir set_state_dir]. by rewrite find_write.
Qed.

(** ** Concrete runs *)
Definition two_agents : AgentsConfig :=
  mk_AgentsConfig [mk_AgentProfile t!"coder" t!"dev" Worktree 2 [t!"read"; t!"write"]; mk_AgentProfile t!"reader" t!"doc" Shared 1 [t!"read"]]
    [mk_TeamDefinition t!"pair" [t!"coder"; t!"reader"] FanOutJoin].
Definition quiet_env (uuids : list str) : StoreEnv :=
  mk_StoreEnv 5 (fun i => nth i uuids []) 200 None (fun _ => None) (fun _ => None).
Definition no_tasks : TaskStore := mk_TaskStore [] None ∅ ∅ ∅.
Lemma no_tasks_ok : store_ok no_tasks.
Proof. split; cbn; [done | constructor | by intros e s ?%elem_of_nil | by intros e h ?%elem_of_nil]. Qed.


Definition one_task : TaskStore := op_step (AgentsFileRead two_agents) (quiet_env [t!"u0"]) (OpDelegate (Some t!"p") t!"coder" t!"go") no_tasks.
Lemma one_task_ok : store_ok one_task.
Proof.
  eapply (step_op (AgentsFileRead two_agents) two_agents); [vm_compute; reflexivity | exact no_tasks_ok | | | vm_compute; reflexivity].
  - intros a Ha. apply N.le_0_l.
  - vm_compute. discriminate.
Qed.

Lemma status_update_loses_delegation_witness : exists s w0 r w' w'',
  read_status_update (quiet_env []) t!"p-coder-u0" t!"running" one_task = (inl s, w0)
  /\ facade_delegate_session_task (quiet_env [t!"u1"]) (AgentsFileRead two_agents) (Some (ts_id s)) t!"coder" t!"more" one_task = (inl r, w')
  /\ save (quiet_env []) s w' = (inl tt, w'')
  /\ exists p, load 5 (state_dir w'') (ts_id s) = Some p /\ session_task (dr_session_task_id r) p = None.
Proof.
  destruct (read_status_update (quiet_env []) t!"p-coder-u0" t!"running" one_task) as [[s|] w0] eqn:E1; [|vm_compute in E1; discriminate E1].
  destruct (facade_delegate_session_task (quiet_env [t!"u1"]) (AgentsFileRead two_agents) (Some (ts_id s)) t!"coder" t!"more" one_task)
    as [[r|] w'] eqn:E2; [|vm_compute in E1; injection E1 as <- _; vm_compute in E2; discriminate E2].
  destruct (save (quiet_env []) s w') as [[[]|] w''] eqn:E3; [|unfold save in E3; discriminate E3].
  exists s, w0, r, w', w''. split; [done|]. split; [done|]. split; [done|].
  refine (proj2 (status_update_loses_delegation _ _ _ (quiet_env [t!"u1"]) _ _ _ (quiet_env []) one_task s w0 r w' w'' one_task_ok E1 E2 _ E3)).
  vm_compute in E1. injection E1 as <- _. vm_compute in E2. injection E2 as <- _. vm_compute. reflexivity.
Defined.

(** * The join of the tasks of a parent: which summaries are reported *)
(** ** What replaces what *)
Definition posted (t : SessionTask) : Prop := lifecycle_state t = Completed /\ is_Some (handoff_summary t).
#[export] Instance posted_dec t : Decision (posted t).
Proof. unfold posted. destruct (lifecycle_state t); try (by right; intros []); destruct (handoff_summary t); (by left; eauto) || (right; by intros [_ [? ?]]). Defined.

(** A task with a summary replaces the ones it was made to replace, and the earlier ones of its agent. *)
Definition replaced_by (tasks : list SessionTask) (t t' : SessionTask) : Prop :=
  posted t' /\ (st_id t ∈ supersedes t'
                \/ agent_id t = agent_id t' /\ exists a b c, tasks = a ++ t :: b ++ t' :: c).

Lemma add_prior_spec t ids prior id :
  id ∈ add_prior t ids prior <-> id ∈ ids \/ (posted prior /\ agent_id prior = agent_id t /\ id = st_id prior).
Proof.
  unfold add_prior, posted. destruct (lifecycle_state prior); cbn; try (naive_solver; done).
  destruct (handoff_summary prior) as [s|]; cbn; [|split; [by left | intros [|[[_ [? ?]] _]]; done]].
  destruct (str_eqb (agent_id prior) (agent_id t)) eqn:E; cbn; [|split; [by left|intros [|(_ & E' & _)]; [done|by rewrite E', str_eqb_same in E]]].
  apply str_eqb_iff in E. destruct (str_in (st_id prior) ids) eqn:Ei; cbn.
  - apply str_in_iff in Ei. split; [by left | intros [|(_ & _ & ->)]; done].
  - rewrite elem_of_app, list_elem_of_singleton. naive_solver.
Qed.

Lemma fold_prior_spec t prior ids id :
  id ∈ foldl (add_prior t) ids prior <-> id ∈ ids \/ exists p, p ∈ prior /\ posted p /\ agent_id p = agent_id t /\ id = st_id p.
Proof.
  revert ids. induction prior as [|p prior IH]; intros ids; cbn [foldl].
  - split; [by left | intros [|(p & ?%elem_of_nil & _)]; done].
  - rewrite IH, add_prior_spec. setoid_rewrite elem_of_cons. naive_solver.
Qed.

Lemma before_task_split t a c : NoDup (map st_id (a ++ t :: c)) -> before_task (st_id t) (a ++ t :: c) = Some a.
Proof.
  induction a as [|x a IH]; cbn [app map before_task].
  - intros _. unfold has_id. by rewrite str_eqb_same.
  - intros [Hx Hn]%NoDup_cons. unfold has_id. rewrite str_eqb_other; [by rewrite IH|].
    intros E. apply Hx. rewrite E, map_app. apply elem_of_app. right. by left.
Qed.

Lemma supersedes_spec tasks t' id :
  NoDup (map st_id tasks) -> t' ∈ tasks ->
  id ∈ production_supersedes t' tasks <->
  id ∈ supersedes t' \/ exists t, st_id t = id /\ posted t /\ agent_id t = agent_id t' /\ exists a b c, tasks = a ++ t :: b ++ t' :: c.
Proof.
  intros Hn (a & c & ->)%list_elem_of_split. unfold production_supersedes.
  rewrite before_task_split by done.
  rewrite fold_prior_spec. split; (intros [?|H]; [by left|right]).
  - destruct H as (p & (a1 & a2 & ->)%list_elem_of_split & Hp & Ha & ->). exists p. split_and!; [done..|].
    exists a1, a2, c. by rewrite <- app_assoc.
  - destruct H as (t & <- & Hp & Ha & a' & b' & c' & E). exists t. split_and!; [|done..].
    assert (a = a' ++ t :: b') as ->; [|apply elem_of_app; right; by left].
    assert (NoDup (a ++ t' :: c)) as Hnd by (by apply (NoDup_fmap_1 st_id)).
    change (a' ++ t :: b' ++ t' :: c') with (a' ++ (t :: b') ++ t' :: c') in E. rewrite app_assoc in E.
    clear -E Hnd. revert a E Hnd. generalize (a' ++ t :: b') as x. intros x a E Hnd.
    revert x E. induction a as [|y a IH]; intros [|z x]; cbn; [done| | |].
    + intros [= -> ->]. cbn in Hnd. apply NoDup_cons in Hnd as [Hx _]. exfalso. apply Hx, elem_of_app. right. by left.
    + intros [= -> <-]. cbn in Hnd. apply NoDup_cons in Hnd as [Hx _]. exfalso. apply Hx, elem_of_app. right. by left.
    + intros [= -> E]. f_equal. apply IH; [|done]. by apply NoDup_cons in Hnd as [_ ?].
Qed.

(** ** The index after the posts *)
Definition entry_of (s : JoinSummary) : LiveJoinEntry :=
  mk_LiveJoinEntry (message_id s) (js_agent_id s) (js_summary s) (foldl add_superseded [] (js_supersedes s)).

Lemma fold_superseded ids acc id : id ∈ foldl add_superseded acc ids <-> id ∈ acc \/ id ∈ ids.
Proof.
  revert acc. induction ids as [|x ids IH]; intros acc; cbn [foldl]; [set_solver|]. rewrite IH. unfold add_superseded.
  destruct (str_in x acc) eqn:E; [apply str_in_iff in E; set_solver | set_solver].
Qed.

Lemma posts_spec l x :
  sorted_keys (entries x) -> NoDup (map message_id l) -> (forall s, s ∈ l -> message_id s ∉ map fst (entries x)) ->
  let x' := foldl post_summary x l in
  sorted_keys (entries x')
  /\ forall id e, (id, e) ∈ entries x' <-> (id, e) ∈ entries x \/ exists s, s ∈ l /\ id = message_id s /\ e = entry_of s.
Proof.
  revert x. induction l as [|s l IH]; intros x Hs Hn Hf x'.
  { split; [done|]. intros id e. split; [by left | intros [|(s & ?%elem_of_nil & _)]; done]. }
  cbn in Hn. apply NoDup_cons in Hn as [Hsl Hn]. subst x'. cbn [foldl].
  assert (entries (post_summary x s) = bmap_insert (message_id s) (entry_of s) (entries x)) as E.
  { unfold post_summary, post. cbn [entries]. rewrite bmap_get_absent by (apply Hf; by left). done. }
  destruct (IH (post_summary x s)) as [Hs' Hx']; [rewrite E; by apply bmap_insert_sorted | done | |].
  { intros s' Hin. rewrite E, bmap_insert_keys. intros [Heq|Hk]; [|by apply (Hf s'); [right|]].
    apply Hsl. rewrite <- Heq. apply list_elem_of_fmap. eauto. }
  split; [done|]. intros id e. rewrite Hx', E, elem_of_bmap_insert by done. setoid_rewrite elem_of_cons. split.
  - intros [[[-> ->]|[_ ?]]|(s' & ? & -> & ->)]; [right; eauto | by left | right; eauto].
  - intros [Hin|(s' & [->|Hin] & -> & ->)]; [|by left; left | right; eauto]. left. right. split; [|done].
    intros ->. apply (Hf s); [by left|]. apply elem_of_keys. eauto.
Qed.

Lemma live_spec x e : e ∈ live_entries x <->
  (exists id, (id, e) ∈ entries x) /\ ~ exists id other, (id, other) ∈ entries x /\ lj_id e ∈ lj_supersedes other.
Proof.
  unfold live_entries. rewrite list_elem_of_In, List.filter_In, <- list_elem_of_In, negb_true_iff.
  assert (forall y, y ∈ map snd (entries x) <-> exists id, (id, y) ∈ entries x) as Hall.
  { intros y. rewrite list_elem_of_fmap. split; [intros ([id z] & -> & ?); eauto | intros (id & ?); by exists (id, y)]. }
  rewrite Hall. split; intros [H1 H2]; (split; [done|]).
  - intros (id & other & Hin & Hs). apply not_true_iff_false in H2. apply H2, existsb_exists. exists other.
    rewrite str_in_iff, <- list_elem_of_In, Hall. eauto.
  - apply not_true_iff_false. intros (other & Hin & Hs)%existsb_exists. rewrite <- list_elem_of_In, Hall in Hin.
    destruct Hin as [id Hin]. apply H2. exists id, other. by rewrite <- str_in_iff.
Qed.

(** ** Polling *)
Definition summary_of_task (all : list SessionTask) (t : SessionTask) : list JoinSummary :=
  match lifecycle_state t, handoff_summary t with
  | Completed, Some s => [mk_JoinSummary (st_id t) (agent_id t) s (production_supersedes t all)]
  | _, _ => []
  end.
Definition with_status (st : SessionTaskStatus) (tasks : list SessionTask) : N :=
  N.of_nat (length (List.filter (fun t => str_eqb (status_name (lifecycle_state t)) (status_name st)) tasks)).

Lemma with_status_cons st t r :
  with_status st (t :: r) = (if str_eqb (status_name (lifecycle_state t)) (status_name st) then 1 else 0) + with_status st r.
Proof. unfold with_status. cbn [List.filter]. destruct (str_eqb _ _); cbn [length]; lia. Qed.

Lemma join_tasks_spec all tasks acc j : join_tasks all tasks acc = Some j ->
  Forall (fun t => is_live (lifecycle_state t) = false) tasks
  /\ completed j = completed acc + with_status Completed tasks /\ failed j = failed acc + with_status Failed tasks
  /\ cancelled j = cancelled acc + with_status Cancelled tasks
  /\ summaries j = summaries acc ++ List.flat_map (summary_of_task all) tasks.
Proof.
  revert acc. induction tasks as [|t r IH]; intros acc; cbn [join_tasks].
  { intros [= <-]. unfold with_status. cbn. rewrite app_nil_r, !N.add_0_r. split_and!; [constructor|done..]. }
  rewrite !with_status_cons. unfold summary_of_task. cbn [List.flat_map].
  destruct (lifecycle_state t) eqn:El; try done; intros (H1 & H2 & H3 & H4 & H5)%IH; cbn [completed failed cancelled summaries] in *;
    (split; [constructor; [by rewrite El | done]|]); rewrite H2, H3, H4, H5, <- ?app_assoc;
    split_and!; try (match goal with |- context [str_eqb (status_name ?a) (status_name ?b)] => let v := eval vm_compute in (str_eqb (status_name a) (status_name b)) in change (str_eqb (status_name a) (status_name b)) with v end; cbn beta match; lia);
    destruct (handoff_summary t); rewrite ?app_nil_r; done.
Qed.

Lemma elem_of_summaries tasks x : x ∈ List.flat_map (summary_of_task tasks) tasks <->
  exists t s, t ∈ tasks /\ lifecycle_state t = Completed /\ handoff_summary t = Some s
    /\ x = mk_JoinSummary (st_id t) (agent_id t) s (production_supersedes t tasks).
Proof.
  rewrite list_elem_of_In, in_flat_map. setoid_rewrite <- list_elem_of_In. unfold summary_of_task. split.
  - intros (t & Hin & Hx). destruct (lifecycle_state t) eqn:El; try (by apply elem_of_nil in Hx).
    destruct (handoff_summary t) eqn:Eh; [|by apply elem_of_nil in Hx]. apply list_elem_of_singleton in Hx as ->. eauto 10.
  - intros (t & s & Hin & El & Eh & ->). exists t. rewrite El, Eh. split; [done | by left].
Qed.

Lemma summary_ids tasks l : NoDup (map st_id l) -> NoDup (map message_id (List.flat_map (summary_of_task tasks) l)).
Proof.
  induction l as [|t l IH]; cbn; [constructor|]. intros [Ht Hl]%NoDup_cons. rewrite map_app. apply NoDup_app. split; [|split; [|by apply IH]].
  - unfold summary_of_task. destruct (lifecycle_state t), (handoff_summary t); cbn; try apply NoDup_nil_2; apply NoDup_singleton.
  - intros x Hx Hx'. assert (x = st_id t) as ->.
    { unfold summary_of_task in Hx. destruct (lifecycle_state t), (handoff_summary t); cbn in Hx; try (by apply elem_of_nil in Hx).
      by apply list_elem_of_singleton in Hx. }
    apply list_elem_of_fmap in Hx' as (y & Ey & Hy). apply list_elem_of_In, in_flat_map in Hy as (t' & Hin & Hy).
    apply Ht. apply list_elem_of_fmap. exists t'. rewrite list_elem_of_In. split; [|done]. rewrite Ey.
    unfold summary_of_task in Hy. destruct (lifecycle_state t'), (handoff_summary t'); cbn in Hy; try done. by destruct Hy as [<-|[]].
Qed.


Lemma sorted_keys_NoDup {K V} `{OrdB K} (m : list (K * V)) : sorted_keys m -> NoDup (map fst m).
Proof.
  unfold sorted_keys, sorted. induction (map fst m) as [|k l IH]; intros Hs; constructor.
  - apply Sorted.StronglySorted_inv in Hs as [_ Hk]. rewrite list.Forall_forall in Hk. intros Hin.
    specialize (Hk k Hin). cbn in Hk. by rewrite ltb_irrefl in Hk.
  - apply IH. by apply Sorted.StronglySorted_inv in Hs as [? _].
Qed.

Lemma same_task tasks t t' : NoDup (map st_id tasks) -> t ∈ tasks -> t' ∈ tasks -> st_id t = st_id t' -> t = t'.
Proof.
  intros Hn (a & c & ->)%list_elem_of_split Hin E. rewrite map_app in Hn. cbn in Hn.
  apply NoDup_app in Hn as (_ & Hd & [Hc _]%NoDup_cons). apply elem_of_app in Hin as [Hin|[->|Hin]%elem_of_cons]; [|done|].
  - exfalso. apply (Hd (st_id t')); [by apply list_elem_of_fmap; eauto|]. rewrite <- E. by left.
  - exfalso. apply Hc. rewrite E. apply list_elem_of_fmap. eauto.
Qed.

(** The summaries of the tasks that nothing replaces. *)
Definition latest (tasks : list SessionTask) (t : SessionTask) : Prop :=
  t ∈ tasks /\ posted t /\ ~ exists t', t' ∈ tasks /\ replaced_by tasks t t'.

Lemma entry_replaced tasks t t' : NoDup (map st_id tasks) -> t ∈ tasks -> t' ∈ tasks -> posted t -> posted t' ->
  st_id t ∈ foldl add_superseded [] (production_supersedes t' tasks) <-> replaced_by tasks t t'.
Proof.
  intros Hn Ht Ht' Hp Hp'. rewrite fold_superseded, (supersedes_spec tasks t' _ Hn Ht'). unfold replaced_by. split.
  - intros [?%elem_of_nil|[H|(t0 & Eid & Hp0 & Ha & a & b & c & E)]]; [done | naive_solver|].
    assert (t0 = t) as ->; [|naive_solver]. apply (same_task tasks); [done| |done..].
    rewrite E. apply elem_of_app. right. by left.
  - intros [_ [H|(Ha & a & b & c & E)]]; right; [by left|]. right. exists t. naive_solver.
Qed.

Lemma live_of_posts tasks :
  NoDup (map st_id tasks) ->
  let live := live_entries (foldl post_summary live_index_new (List.flat_map (summary_of_task tasks) tasks)) in
  NoDup (map lj_id live)
  /\ forall e, e ∈ live <-> exists t, latest tasks t /\ lj_id e = st_id t /\ lj_agent_id e = agent_id t
                /\ Some (body e) = handoff_summary t /\ e = entry_of (mk_JoinSummary (st_id t) (agent_id t) (body e) (production_supersedes t tasks)).
Proof.
  intros Hn live. set (l := List.flat_map (summary_of_task tasks) tasks) in *.
  destruct (posts_spec l live_index_new) as [Hs Hx]; [constructor | by apply summary_ids | intros s _; apply not_elem_of_nil|].
  fold live_index_new in Hx. set (x := foldl post_summary live_index_new l) in *.
  assert (forall id e, (id, e) ∈ entries x <-> exists t, t ∈ tasks /\ posted t /\ id = st_id t /\ Some (body e) = handoff_summary t
            /\ e = entry_of (mk_JoinSummary (st_id t) (agent_id t) (body e) (production_supersedes t tasks))) as Hent.
  { intros id e. rewrite Hx. split.
    - intros [?%elem_of_nil|(s & Hin & -> & ->)]; [done|].
      apply elem_of_summaries in Hin as (t & txt & Ht & El & Eh & ->). exists t. unfold posted. rewrite El, Eh. cbn. eauto 10.
    - intros (t & Ht & [El _] & -> & Eb & E). right. eexists. split; [|split; [|exact E]]; [|done].
      apply elem_of_summaries. exists t, (body e). done. }
  split.
  - apply (NoDup_fmap_2_strong lj_id).
    + intros e1 e2 (id1 & H1)%live_spec%proj1 (id2 & H2)%live_spec%proj1.
      apply Hent in H1 as (t1 & Ht1 & _ & _ & Eb1 & E1), H2 as (t2 & Ht2 & _ & _ & Eb2 & E2). intros E.
      rewrite E1, E2 in E. cbn in E. apply (same_task tasks) in E as ->; [|done..]. rewrite <- Eb2 in Eb1. injection Eb1 as Eb.
      by rewrite E1, E2, Eb.
    + unfold live, live_entries. apply NoDup_ListNoDup, List.NoDup_filter, NoDup_ListNoDup, (NoDup_fmap_2_strong snd).
      * intros [id1 e1] [id2 e2] H1 H2 E. cbn in E. subst e2.
        apply Hent in H1 as (t1 & _ & _ & -> & _ & E1), H2 as (t2 & _ & _ & -> & _ & E2).
        apply (f_equal lj_id) in E1, E2. cbn in E1, E2. congruence.
      * by eapply NoDup_fmap_1, sorted_keys_NoDup.
  - intros e. unfold live. rewrite live_spec. split.
    + intros [[id H] Hno]. apply Hent in H as (t & Ht & Hp & -> & Eb & E). exists t.
      assert (lj_id e = st_id t /\ lj_agent_id e = agent_id t) as [Eid Ea] by (rewrite E; done).
      split_and!; [|done..]. split_and!; [done..|]. intros (t' & Ht' & Hr).
      assert (posted t') as Hp' by apply Hr. destruct Hp' as [El' [txt Eh']]. apply Hno.
      set (e' := entry_of (mk_JoinSummary (st_id t') (agent_id t') txt (production_supersedes t' tasks))).
      exists (st_id t'), e'. split.
      * apply Hent. exists t'. unfold posted. split_and!; [done..|by eexists|done| |done]. by rewrite Eh'.
      * rewrite Eid. subst e'. cbn. apply entry_replaced; [done..| |done]. split; [done | by eexists].
    + intros (t & (Ht & Hp & Hno) & Eid & Ea & Eb & E). split.
      * exists (st_id t). apply Hent. eauto 10.
      * intros (id & other & H & Hin). apply Hent in H as (t' & Ht' & Hp' & _ & _ & E'). apply Hno. exists t'. split; [done|].
        rewrite E', Eid in Hin. cbn in Hin. by apply entry_replaced in Hin.
Qed.

(** *** Posting again *)
Lemma superseded_again ids acc : (forall id, id ∈ ids -> id ∈ acc) -> foldl add_superseded acc ids = acc.
Proof.
  induction ids as [|x ids IH]; intros Hin; cbn [foldl]; [done|]. unfold add_superseded at 2.
  assert (str_in x acc = true) as -> by (apply str_in_iff; apply Hin; by left). apply IH. intros id Hid. apply Hin. by right.
Qed.
Lemma post_again x s : sorted_keys (entries x) -> (message_id s, entry_of s) ∈ entries x -> post_summary x s = x.
Proof.
  intros Hs Hin. unfold post_summary, post. rewrite (proj2 (bmap_get_elem _ (entry_of s) _ Hs) Hin). cbn.
  rewrite superseded_again by (intros id Hid; rewrite fold_superseded; by right).
  change (mk_LiveIndex (schema_version x) (bmap_insert (message_id s) (entry_of s) (entries x)) = x).
  rewrite bmap_insert_elem by done. by destruct x.
Qed.
Lemma posts_again l x :
  sorted_keys (entries x) -> (forall s, s ∈ l -> (message_id s, entry_of s) ∈ entries x) -> foldl post_summary x l = x.
Proof.
  intros Hs. induction l as [|s l IH]; intros Hin; cbn [foldl]; [done|]. rewrite post_again by (done || (apply Hin; by left)).
  apply IH. intros s' Hs'. apply Hin. by right.
Qed.

(** The index that a poll of tasks that have all ended leaves. *)
Definition posted_index (tasks : list SessionTask) : LiveIndex :=
  foldl post_summary live_index_new (List.flat_map (summary_of_task tasks) tasks).

Lemma posted_again tasks : NoDup (map st_id tasks) ->
  foldl post_summary (posted_index tasks) (List.flat_map (summary_of_task tasks) tasks) = posted_index tasks.
Proof.
  intros Hn. destruct (posts_spec (List.flat_map (summary_of_task tasks) tasks) live_index_new) as [Hs Hx];
    [constructor | by apply summary_ids | intros s _; apply not_elem_of_nil|].
  apply posts_again; [done|]. intros s Hin. apply Hx. right. by exists s.
Qed.

(** The join index of the parent is that of no poll yet, or of one that had these tasks. *)
Definition indexed (parent : str) (tasks : list SessionTask) (w : TaskStore) : Prop :=
  join_indexes w !! parent = None \/ join_indexes w !! parent = Some (Some (posted_index tasks)).

Lemma applied_live o parent out tasks w live w' :
  NoDup (map st_id tasks) -> summaries out = List.flat_map (summary_of_task tasks) tasks ->
  indexed parent tasks w -> apply_join_outcome o parent out w = (inl live, w') ->
  live = live_entries (posted_index tasks) /\ indexed parent tasks w'.
Proof.
  unfold apply_join_outcome. intros Hn Ho Hi. rewrite Ho. clear Ho. unfold posted_index at 1.
  destruct (List.flat_map (summary_of_task tasks) tasks) as [|x l] eqn:El; [by intros [= <- <-]|]. rewrite <- El. clear El x l.
  intros (index & w1 & Hx & (u & w2 & Hs & (s & w3 & Hl & (u' & w4 & Hs' & (u2 & w5 & He & [= <- <-])%sr_bind_inv)%sr_bind_inv)%sr_bind_inv)%sr_bind_inv)%sr_bind_inv.
  assert (foldl post_summary index (List.flat_map (summary_of_task tasks) tasks) = posted_index tasks /\ w1 = w) as [E ->].
  { unfold load_or_new in Hx. destruct Hi as [Hi|Hi]; rewrite Hi in Hx; injection Hx as <- <-; split; try done. by apply posted_again. }
  rewrite E in *. split; [done|]. right.
  unfold save_index in Hs. destruct (save_error o); [done|]. injection Hs as _ <-.
  injection Hl as _ <-. apply save_run in Hs' as ->.
  unfold record_evidence in He. destruct (record_join_evidence _ _ _) as [[?|] ?]; [|done]. destruct (save_error o); [done|].
  injection He as _ <-. cbn. by rewrite lookup_insert_eq.
Qed.

Lemma polled o parent w s out w1 :
  load (now o) (state_dir w) parent = Some s -> poll_fan_out_join o parent w = (inl (Some out), w1) ->
  join_tasks (ts_session_tasks s) (ts_session_tasks s) (mk_JoinOutcome true 0 0 0 []) = Some out /\ w1 = w.
Proof.
  intros Hl (s' & w2 & Hs & [= Eo <-])%sr_bind_inv. unfold load_parent in Hs. rewrite Hl in Hs. injection Hs as <- <-.
  split; [|done]. destruct (ts_session_tasks s); [discriminate Eo | exact Eo].
Qed.

Lemma each_agent_once tasks live : NoDup (map st_id tasks) ->
  live = live_entries (foldl post_summary live_index_new (List.flat_map (summary_of_task tasks) tasks)) ->
  NoDup (map lj_agent_id live).
Proof.
  intros Hn E. destruct (live_of_posts tasks Hn) as [Hd Hx]. rewrite <- E in Hd, Hx.
  apply (NoDup_fmap_2_strong lj_agent_id); [|by eapply NoDup_fmap_1].
  intros e1 e2 (t1 & H1 & _ & Ha1 & Hb1 & E1)%Hx (t2 & H2 & _ & Ha2 & Hb2 & E2)%Hx Ea.
  assert (t1 = t2) as <-; [|rewrite <- Hb2 in Hb1; injection Hb1 as Eb; by rewrite E1, E2, Eb].
  destruct H1 as (Hin1 & Hp1 & Hno1), H2 as (Hin2 & Hp2 & Hno2).
  destruct (list_elem_of_split _ _ Hin1) as (a & c & Et). pose proof Hin2 as Hin. rewrite Et in Hin.
  apply elem_of_app in Hin as [(a1 & a2 & ->)%list_elem_of_split|[->|(c1 & c2 & ->)%list_elem_of_split]%elem_of_cons]; [|done|]; exfalso.
  - apply Hno2. exists t1. split; [done|]. split; [done|]. right. split; [congruence|]. exists a1, a2, c. by rewrite Et, <- app_assoc.
  - apply Hno1. exists t2. split; [done|]. split; [done|]. right. split; [congruence|]. by exists a, c1, c2.
Qed.

(** C11: A poll reports the join of a parent only once every task of the parent has ended, with how
    many completed, failed and were cancelled; and an agent's summary is reported exactly when its
    task completed with one that no other task replaces: neither a later one of the same agent nor one
    made to replace it. So no agent is reported twice.  The identifiers of the parent's tasks are
    distinct, and the parent was not polled before or only with these tasks: such a poll leaves the
    join index as this one finds it, so that a poll repeated reports the same. *)
Theorem join_reports_latest o parent w s j w' :
  load (now o) (state_dir w) parent = Some s -> NoDup (map st_id (ts_session_tasks s)) ->
  indexed parent (ts_session_tasks s) w -> facade_poll_join o parent w = (inl (Some j), w') ->
  let tasks := ts_session_tasks s in
  Forall (fun t => is_live (lifecycle_state t) = false) tasks
  /\ fj_completed j = with_status Completed tasks /\ fj_failed j = with_status Failed tasks
  /\ fj_cancelled j = with_status Cancelled tasks
  /\ (forall a text, (a, text) ∈ fj_summaries j <->
        exists t, latest tasks t /\ agent_id t = a /\ handoff_summary t = Some text)
  /\ NoDup (map fst (fj_summaries j))
  /\ indexed parent tasks w'.
Proof.
  intros Hl Hn Hi ([out|] & w1 & Hp & Hj)%sr_bind_inv tasks; [|discriminate Hj].
  apply (polled o parent w s) in Hp as [Eo ->]; [|done]. fold tasks in Eo, Hn.
  apply join_tasks_spec in Eo as (H1 & H2 & H3 & H4 & H5). cbn in H2, H3, H4, H5.
  apply sr_bind_inv in Hj as (live & w3 & Ha & [= <- <-]). apply (applied_live o parent out tasks) in Ha as [Ha Hi']; [|done..]. unfold posted_index in Ha.
  cbn [fj_completed fj_failed fj_cancelled fj_summaries]. split_and!; [done..| | |done]. 
  - intros a text. rewrite list_elem_of_fmap. destruct (live_of_posts tasks Hn) as [_ Hx]. rewrite <- Ha in Hx. split.
    + intros (e & [= -> ->] & (t & Ht & _ & Hat & Hb & _)%Hx). exists t. done.
    + intros (t & Ht & <- & Hh). exists (entry_of (mk_JoinSummary (st_id t) (agent_id t) text (production_supersedes t tasks))).
      split; [done|]. apply Hx. exists t. done.
  - rewrite map_map. cbn [fst]. by eapply each_agent_once.
Qed.

(** Two summaries of one agent, and a task that failed. *)
Definition ended (id agent : str) (status : SessionTaskStatus) (summary : option str) : SessionTask :=
  mk_SessionTask id t!"p" agent t!"go" status None None 5 None summary [].
Definition joined_store : TaskStore :=
  (save (quiet_env []) (ts_with_session_tasks
     [ended t!"t1" t!"coder" Completed (Some t!"first"); ended t!"t2" t!"reader" Failed None;
      ended t!"t3" t!"coder" Completed (Some t!"second")] (task_state_new t!"p" 5)) no_tasks).2.

Lemma join_reports_latest_witness : exists s j w',
  load 5 (state_dir joined_store) t!"p" = Some s /\ facade_poll_join (quiet_env []) t!"p" joined_store = (inl (Some j), w')
  /\ fj_summaries j = [(t!"coder", t!"second")]
  /\ NoDup (map fst (fj_summaries j)) /\ indexed t!"p" (ts_session_tasks s) w'.
Proof.
  destruct (load 5 (state_dir joined_store) t!"p") as [s|] eqn:E1; [|vm_compute in E1; discriminate E1].
  destruct (facade_poll_join (quiet_env []) t!"p" joined_store) as [[[j|]|] w'] eqn:E2; [|vm_compute in E2; discriminate E2..].
  exists s, j, w'. split; [done|]. split; [done|]. split; [vm_compute in E2; injection E2 as <- _; reflexivity|].
  refine (proj2 (proj2 (proj2 (proj2 (proj2 (join_reports_latest (quiet_env []) t!"p" joined_store s j w' E1 _ _ E2)))))).
  - vm_compute in E1. injection E1 as <-. cbn. apply (bool_decide_unpack _). vm_compute. exact I.
  - left. vm_compute. reflexivity.
Defined.
