(* ===== verification/ModelRequest.v ===== *)
(** The client of the model server: src/api/client/mod.rs, the URL helpers of src/util.rs and
    the serde form of the messages (crates/vexcoder-api-types/src/lib.rs).

    The URL parser, the check of a header value and the JSON printer are third-party code: the
    operations of classes.  The variable VEX_MAX_TOKENS, the request identifier and the headers of
    the trace are arguments.  The requests that ask a local server what it is are the values they
    answer. *)
From Stdlib Require Import NArith ZArith Lia.
From stdpp Require Import base list gmap strings numbers.
From S2P Require Import Prelude Text Collections Json Usage Evidence Envelope ToolPreview History ToolRules ConversationState.
#[local] Open Scope N_scope.

(** ** What a model is told of the tools, and the beginning of every system prompt:
    src/api/client/tools.rs and the constants of src/api/client/mod.rs *)
Module Prompts.

Definition tool_definition (name description : str) (input_schema : value) : value :=
  Object [(t!"name", String name); (t!"description", String description); (t!"input_schema", input_schema)].

Definition tool_definitions : list value :=
  [tool_definition t!"read_file"
    t!"Read file content from an explicit non-empty path. For repository overviews, use list_files or codebase_search first. For large files, use offset and limit to read specific line ranges instead of loading the entire file."
    (Object [(t!"type", String t!"object"); (t!"properties", Object [(t!"path", Object [(t!"type", String t!"string"); (t!"description", String t!"Non-empty file path relative to workspace root")]); (t!"offset", Object [(t!"type", String t!"integer"); (t!"description", String t!"Starting line number (1-based). Omit to start from line 1.")]); (t!"limit", Object [(t!"type", String t!"integer"); (t!"description", String t!"Maximum number of lines to return. Omit to read all remaining lines.")])]); (t!"required", Array [String t!"path"])]);
   tool_definition t!"write_file"
    t!"Write file content. Files that exceed the diff-preferred threshold trigger a warning to prefer apply_patch or edit_file; files that exceed the max line limit are rejected outright. Use apply_patch or edit_file for large-file edits."
    (Object [(t!"type", String t!"object"); (t!"properties", Object [(t!"path", Object [(t!"type", String t!"string")]); (t!"content", Object [(t!"type", String t!"string")])]); (t!"required", Array [String t!"path"; String t!"content"])]);
   tool_definition t!"apply_patch"
    t!"Apply the provided full-file content as a patch to an existing workspace path. Keep the resulting diff minimal, preserve surrounding style, and keep Rust edits rustfmt-consistent instead of introducing formatting-only churn."
    (Object [(t!"type", String t!"object"); (t!"properties", Object [(t!"path", Object [(t!"type", String t!"string")]); (t!"content", Object [(t!"type", String t!"string")])]); (t!"required", Array [String t!"path"; String t!"content"])]);
   tool_definition t!"edit_file"
    t!"Edit existing file by replacing one exact, unique snippet (old_str -> new_str). Keep edits tightly scoped, preserve surrounding style, and keep Rust replacements rustfmt-consistent. Do not send entire-file replacements via this tool."
    (Object [(t!"type", String t!"object"); (t!"properties", Object [(t!"path", Object [(t!"type", String t!"string")]); (t!"old_str", Object [(t!"type", String t!"string")]); (t!"new_str", Object [(t!"type", String t!"string")])]); (t!"required", Array [String t!"path"; String t!"old_str"; String t!"new_str"])]);
   tool_definition t!"rename_file"
    t!"Rename or move a file within the workspace."
    (Object [(t!"type", String t!"object"); (t!"properties", Object [(t!"old_path", Object [(t!"type", String t!"string")]); (t!"new_path", Object [(t!"type", String t!"string")])]); (t!"required", Array [String t!"old_path"; String t!"new_path"])]);
   tool_definition t!"list_files"
    t!"List files and directories under a path. Omit path to list the workspace root; prefer this for repo overviews before targeted file reads."
    (Object [(t!"type", String t!"object"); (t!"properties", Object [(t!"path", Object [(t!"type", String t!"string")]); (t!"max_entries", Object [(t!"type", String t!"integer"); (t!"minimum", Number (PosInt 1)); (t!"maximum", Number (PosInt 2000))])])]);
   tool_definition t!"list_directory"
    t!"Alias for list_files. List files and directories under a path, or omit path to list the workspace root."
    (Object [(t!"type", String t!"object"); (t!"properties", Object [(t!"path", Object [(t!"type", String t!"string")]); (t!"max_entries", Object [(t!"type", String t!"integer"); (t!"minimum", Number (PosInt 1)); (t!"maximum", Number (PosInt 2000))])])]);
   tool_definition t!"list_dir"
    t!"List immediate contents of a workspace directory. Not recursive. Respects .gitignore."
    (Object [(t!"type", String t!"object"); (t!"properties", Object [(t!"path", Object [(t!"type", String t!"string")]); (t!"max_entries", Object [(t!"type", String t!"integer"); (t!"minimum", Number (PosInt 1)); (t!"maximum", Number (PosInt 500))])])]);
   tool_definition t!"glob_files"
    t!"Return workspace-relative file paths matching a glob pattern. Use * for single-segment wildcards and ** for cross-directory matches. Respects .gitignore."
    (Object [(t!"type", String t!"object"); (t!"properties", Object [(t!"pattern", Object [(t!"type", String t!"string")]); (t!"max_results", Object [(t!"type", String t!"integer"); (t!"minimum", Number (PosInt 1)); (t!"maximum", Number (PosInt 200))])]); (t!"required", Array [String t!"pattern"])]);
   tool_definition t!"search_files"
    t!"Search text across files and return matching lines. Respects .gitignore."
    (Object [(t!"type", String t!"object"); (t!"properties", Object [(t!"query", Object [(t!"type", String t!"string")]); (t!"path", Object [(t!"type", String t!"string")]); (t!"max_results", Object [(t!"type", String t!"integer"); (t!"minimum", Number (PosInt 1)); (t!"maximum", Number (PosInt 200))])]); (t!"required", Array [String t!"query"])]);
   tool_definition t!"search"
    t!"Alias for search_files. Search text across files and return matching lines."
    (Object [(t!"type", String t!"object"); (t!"properties", Object [(t!"query", Object [(t!"type", String t!"string")]); (t!"path", Object [(t!"type", String t!"string")]); (t!"max_results", Object [(t!"type", String t!"integer"); (t!"minimum", Number (PosInt 1)); (t!"maximum", Number (PosInt 200))])]); (t!"required", Array [String t!"query"])]);
   tool_definition t!"git_status"
    t!"Show git repository status."
    (Object [(t!"type", String t!"object"); (t!"properties", Object [(t!"short", Object [(t!"type", String t!"boolean")]); (t!"path", Object [(t!"type", String t!"string")])])]);
   tool_definition t!"git_diff"
    t!"Show git diff for working tree or staged changes."
    (Object [(t!"type", String t!"object"); (t!"properties", Object [(t!"cached", Object [(t!"type", String t!"boolean")]); (t!"path", Object [(t!"type", String t!"string")])])]);
   tool_definition t!"git_log"
    t!"Show recent git commit history."
    (Object [(t!"type", String t!"object"); (t!"properties", Object [(t!"max_count", Object [(t!"type", String t!"integer"); (t!"minimum", Number (PosInt 1)); (t!"maximum", Number (PosInt 100))])])]);
   tool_definition t!"git_show"
    t!"Show details for a git revision."
    (Object [(t!"type", String t!"object"); (t!"properties", Object [(t!"revision", Object [(t!"type", String t!"string")])]); (t!"required", Array [String t!"revision"])]);
   tool_definition t!"git_add"
    t!"Stage a file or directory for commit."
    (Object [(t!"type", String t!"object"); (t!"properties", Object [(t!"path", Object [(t!"type", String t!"string")])]); (t!"required", Array [String t!"path"])]);
   tool_definition t!"git_commit"
    t!"Create a commit with the provided message."
    (Object [(t!"type", String t!"object"); (t!"properties", Object [(t!"message", Object [(t!"type", String t!"string")])]); (t!"required", Array [String t!"message"])]);
   tool_definition t!"search_content"
    t!"Search file contents for a text query within the workspace."
    (Object [(t!"type", String t!"object"); (t!"properties", Object [(t!"query", Object [(t!"type", String t!"string")]); (t!"path_glob", Object [(t!"type", String t!"string")])]); (t!"required", Array [String t!"query"])]);
   tool_definition t!"find_files"
    t!"Find files by name pattern within the workspace."
    (Object [(t!"type", String t!"object"); (t!"properties", Object [(t!"name_glob", Object [(t!"type", String t!"string")])]); (t!"required", Array [String t!"name_glob"])]);
   tool_definition t!"codebase_search"
    t!"Search the codebase for functions, types, and code patterns by name, phrase, or filtered query. Supports quoted phrases plus `+required`, `-excluded`, `path:`, `kind:`, and `lang:` filters. Returns ranked code snippets with file paths and line numbers, and when embeddings are configured it also performs semantic reranking backed by a persisted index under .vex/index/. Prefer this over read_file for exploring unfamiliar code or producing a quick repo overview."
    (Object [(t!"type", String t!"object"); (t!"properties", Object [(t!"query", Object [(t!"type", String t!"string"); (t!"description", String t!"Identifier, phrase, or filtered query using quoted phrases, +required, -excluded, path:, kind:, and lang: filters")]); (t!"max_results", Object [(t!"type", String t!"integer"); (t!"description", String t!"Maximum results to return (default 10)"); (t!"minimum", Number (PosInt 1)); (t!"maximum", Number (PosInt 50))])]); (t!"required", Array [String t!"query"])]);
   tool_definition t!"run_command"
    t!"Run a shell command in the workspace. IMPORTANT: every invocation requires explicit user approval before the command calls. The user must confirm or deny via the approval overlay; no command runs without an affirmative response. Use this only when file and search tools cannot satisfy the need. Aliases run_shell_command, bash, call_command, and call_bash all route to this tool."
    (Object [(t!"type", String t!"object"); (t!"properties", Object [(t!"command", Object [(t!"type", String t!"string"); (t!"description", String t!"Shell command to call")])]); (t!"required", Array [String t!"command"])])].
Definition BASE_SYSTEM_PROMPT : str := join [LF]
  [t!"You are a coding assistant.";
   t!"Use tools for all filesystem facts and changes.";
   t!"When a user asks for repository facts, command output, file content, or code edits, call tools instead of guessing.";
   t!"After each tool_result, reassess the task and either call the next needed tool or provide the final answer.";
   t!"Repeat this loop until the task is complete; do not stop early after a single tool result when more evidence is required.";
   t!"For requests that mention specific files/paths or code edits, do not answer with planning text; emit a tool call first.";
   t!"Never claim a file was read/written/renamed/searched unless the corresponding tool call succeeded.";
   t!"Do not narrate intended actions without calling the tool call.";
   t!"Use codebase_search to find functions, types, and code patterns before reading files. Use quoted phrases and path:/kind:/lang: filters when they sharpen the search. Only use read_file with offset/limit when you know the exact location.";
   t!"Prefer search_files for targeted string matches and avoid full-file reads unless required.";
   t!"Use list_files/search_files/read_file before saying a file is missing or present.";
   t!"For repository summaries or unfamiliar codebases, start with list_files at the workspace root and/or codebase_search; do not call read_file until you have an explicit non-empty path.";
   t!"For edit_file, use a focused old_str snippet around the target change and avoid whole-file replacements; use write_file only for smaller full-file rewrites that stay under the write-file guard thresholds.";
   t!"For large files, prefer apply_patch or edit_file over write_file; if write_file warns or rejects due to line limits, switch tools instead of retrying the same call.";
   t!"For code edits, prefer this sequence: search_files -> read_file -> edit_file -> read_file (verify), escalating to apply_patch when the change is too broad for edit_file.";
   t!"For Rust edits, keep diffs rustfmt-consistent and avoid formatting-only churn: preserve surrounding style, make the smallest semantic change that solves the task, and do not hand-wrap argument lists or method chains against local conventions.";
   t!"For read-only requests (show/read/list/count/status/log/diff), use read-only tools and do not call mutating tools unless the user explicitly asks for changes.";
   t!"If asked what git tools are available, only list built-in git tools: git_status, git_diff, git_log, git_show, git_add, git_commit.";
   t!"Do not claim unsupported git tools like git_clone, git_init, git_remote, git_config, git_pull, git_push, git_branch, git_checkout, or git_stash.";
   t!"Available tools are exactly: read_file, write_file, apply_patch, edit_file, rename_file, list_files, list_directory, list_dir, glob_files, search_files, search, git_status, git_diff, git_log, git_show, git_add, git_commit, search_content, find_files, codebase_search, run_command. Shell aliases (run_shell_command, bash, call_command, call_bash) all route to run_command. Every run_command call requires explicit user approval before execution. For counting, aggregation, or analysis, prefer search_files/read_file results and compute in your response before resorting to run_command. Rely on workspace context and prior tool results (memory) rather than assuming shell access.";
   t!"Always send non-empty string paths for file tools.";
   t!"Avoid redundant loops: do not repeat identical read/search tool calls without new evidence.";
   t!"Tool results from earlier pulses may be condensed to their first few lines; if you need the full output, re-run the tool instead of assuming the shortened excerpt is complete."].

Definition tool_definitions_with_extra (extra : list value) : list value :=
  match extra with [] => tool_definitions | _ => tool_definitions ++ extra end.

Definition tool_name_of (tool : value) : option str := name ← value_get t!"name" tool; as_str name.
Definition is_readonly_definition (tool : value) : bool :=
  match tool_name_of tool with Some name => is_readonly_tool name | None => false end.

Definition tool_definitions_for_policy (policy : ToolPolicy) (extra : list value) : list value :=
  match policy with
  | Full => tool_definitions_with_extra extra
  | Plan => List.filter is_readonly_definition tool_definitions ++ extra
  | Chat => []
  end.

Definition value_or (v : option value) (default_ : value) : value := match v with Some v => v | None => default_ end.
Definition empty_schema : value := Object [(t!"type", String t!"object")].
Definition wrap_as_chat_compat_function (tool : value) : value :=
  Object [(t!"type", String t!"function");
          (t!"function", Object
             [(t!"name", value_or (value_get t!"name" tool) (String []));
              (t!"description", value_or (value_get t!"description" tool) (String []));
              (t!"parameters", value_or (value_get t!"input_schema" tool) empty_schema)])].
Definition tool_definitions_chat_compat_for_policy (policy : ToolPolicy) (extra : list value) : list value :=
  map wrap_as_chat_compat_function (tool_definitions_for_policy policy extra).

(** The names and descriptions, by name. *)
Record ToolSummary := mk_ToolSummary { ts_name : str; ts_description : str }.
Definition tool_summary (tool : value) : option ToolSummary :=
  name ← tool_name_of tool; description ← value_get t!"description" tool ≫= as_str;
  Some (mk_ToolSummary name description).
Definition builtin_tool_summaries : list ToolSummary :=
  sort_by (fun a b => str_ltb (ts_name a) (ts_name b)) (omap tool_summary tool_definitions).

End Prompts.
Export Prompts.


Inductive ModelProtocol : Type := MessagesV1 | ChatCompat.
Inductive ApiProtocol : Type := ApiMessagesV1 | ApiChatCompat.
Inductive ToolCallMode : Type := Structured.
#[export] Instance ModelProtocol_eq_dec : EqDecision ModelProtocol.
Proof. solve_decision. Defined.
#[export] Instance ApiProtocol_eq_dec : EqDecision ApiProtocol.
Proof. solve_decision. Defined.

Definition model_protocol_to_api_protocol (p : ModelProtocol) : ApiProtocol :=
  match p with MessagesV1 => ApiMessagesV1 | ChatCompat => ApiChatCompat end.

(** ** URLs *)
Class UrlParser := {
  Url : Type;
  url_parse : str -> option Url;
  url_scheme : Url -> str;
  url_host : Url -> option str;
  url_set_scheme : str -> Url -> option Url;
  url_set_host : str -> Url -> option Url;
  url_to_string : Url -> str;
}.

(** *** [IpAddr::parse] *)
Definition DOT : char := 46.
Definition COLON : char := 58.
Definition ipv4_octet (s : str) : option N :=
  if (length s <=? 3)%nat && match s with [_] => true | c :: _ => negb (c =? 48) | [] => false end
  then match digits_value 0 s with Some v => if v <=? 255 then Some v else None | None => None end
  else None.
Definition parse_ipv4 (s : str) : option (N * N * N * N) :=
  match map ipv4_octet (split_on DOT s) with
  | [Some a; Some b; Some c; Some d] => Some (a, b, c, d)
  | _ => None
  end.

Definition hex_value (c : char) : option N :=
  if is_ascii_digit c then Some (c - 48)
  else if (97 <=? c) && (c <=? 102) then Some (c - 87)
  else if (65 <=? c) && (c <=? 70) then Some (c - 55) else None.
Fixpoint hex_digits_value (acc : N) (s : str) : option N :=
  match s with
  | [] => Some acc
  | c :: r => d ← hex_value c; hex_digits_value (16 * acc + d) r
  end.
Definition hextet (s : str) : option N :=
  if negb (is_empty s) && (length s <=? 4)%nat then hex_digits_value 0 s else None.
(** [ipv4]: the last group may be an address of four octets. *)
Fixpoint ipv6_groups (ipv4 : bool) (l : list str) : option (list N) :=
  match l with
  | [] => Some []
  | g :: r =>
      match r, if ipv4 then parse_ipv4 g else None with
      | [], Some (a, b, c, d) => Some [256 * a + b; 256 * c + d]
      | _, _ => x ← hextet g; rest ← ipv6_groups ipv4 r; Some (x :: rest)
      end
  end.
Definition ipv6_half (ipv4 : bool) (s : str) : option (list N) :=
  if is_empty s then Some [] else ipv6_groups ipv4 (split_on COLON s).
Definition parse_ipv6 (s : str) : option (list N) :=
  match split_once t!"::" s with
  | Some (head, tail) =>
      h ← ipv6_half false head; t ← ipv6_half true tail;
      if (length h + length t <=? 7)%nat then Some (h ++ replicate (8 - (length h + length t)) 0 ++ t) else None
  | None => l ← ipv6_half true s; if (length l =? 8)%nat then Some l else None
  end.

Definition is_local_ipv4 (ip : N * N * N * N) : bool :=
  let '(a, b, _, _) := ip in
  (a =? 10) || ((a =? 172) && (16 <=? b) && (b <=? 31)) || ((a =? 192) && (b =? 168)) || ((a =? 169) && (b =? 254)).
Definition is_local_ipv6 (l : list N) : bool :=
  match l with
  | seg :: _ => (N.land seg 65472 =? 65152) || (N.land seg 65024 =? 64512)
  | [] => false
  end.

Definition is_local_host (host : str) : bool :=
  let normalized := to_ascii_lowercase (trim host) in
  if str_in normalized [t!"localhost"; t!"::1"; t!"0.0.0.0"] || starts_with t!"127." normalized then true
  else match parse_ipv4 normalized with
       | Some ip => is_local_ipv4 ip
       | None => match parse_ipv6 normalized with Some l => is_local_ipv6 l | None => false end
       end.

Section urls.
Context {urls : UrlParser}.

Definition is_local_endpoint_url (url : str) : bool :=
  match url_parse (trim url) with
  | Some parsed => match url_host parsed with Some host => is_local_host host | None => false end
  | None => false
  end.
Definition preferred_plain_http_url_for_local_endpoint (url : str) : option str :=
  parsed ← url_parse (trim url);
  if negb (str_eqb (url_scheme parsed) t!"https") then None
  else if negb (is_local_endpoint_url url) then None
  else adapted ← url_set_scheme t!"http" parsed; Some (url_to_string adapted).
Definition preferred_loopback_url_for_local_endpoint (url : str) : option str :=
  parsed ← url_parse (trim url);
  host ← url_host parsed;
  if negb (str_eqb host t!"0.0.0.0") then None
  else if negb (is_local_endpoint_url url) then None
  else adapted ← url_set_host t!"127.0.0.1" parsed; Some (url_to_string adapted).
End urls.

Definition strip_suffix (p s : str) : option str := reverse <$> strip_prefix (reverse p) (reverse s).
Fixpoint strip_suffixes (fuel : nat) (p s : str) : str :=
  match fuel with
  | O => s
  | S fuel => match strip_suffix p s with Some s => strip_suffixes fuel p s | None => s end
  end.
(** [trim_end_matches] with a text. *)
Definition trim_end_matches (p s : str) : str := strip_suffixes (length s) p s.
Definition trim_slashes (s : str) : str := trim_end_char 47 s.

Definition adapt_to_chat_compat_url (api_url : str) : str :=
  let normalized := trim_slashes api_url in
  if ends_with t!"/chat/completions" normalized then normalized
  else match strip_suffix t!"/messages/v1" normalized with
  | Some prefix => prefix ++ t!"/v1/chat/completions"
  | None =>
  match strip_suffix t!"/messages" normalized with
  | Some prefix => prefix ++ t!"/chat/completions"
  | None =>
  if ends_with t!"/v1" normalized then normalized ++ t!"/chat/completions"
  else normalized ++ t!"/v1/chat/completions"
  end end.
Definition adapt_to_messages_v1_url (api_url : str) : str :=
  let normalized := trim_slashes api_url in
  if ends_with t!"/messages" normalized then normalized
  else match strip_suffix t!"/messages/v1" normalized with
  | Some prefix => prefix ++ t!"/v1/messages"
  | None =>
  match strip_suffix t!"/chat/completions" normalized with
  | Some prefix => prefix ++ t!"/messages"
  | None =>
  if ends_with t!"/v1" normalized then normalized ++ t!"/messages"
  else normalized ++ t!"/v1/messages"
  end end.

Definition configured_endpoint_protocol (api_url : str) : option ApiProtocol :=
  let normalized := to_ascii_lowercase (trim api_url) in
  if contains t!"/chat/completions" normalized then Some ApiChatCompat
  else if contains t!"/messages" normalized then Some ApiMessagesV1
  else None.
Definition infer_api_protocol (api_url : str) : ApiProtocol :=
  if contains t!"/chat/completions" (to_ascii_lowercase (trim api_url)) then ApiChatCompat else ApiMessagesV1.

Definition local_endpoint_base_url {urls : UrlParser} (api_url : str) : option str :=
  if negb (is_local_endpoint_url api_url) then None
  else Some (trim_slashes (trim_end_matches t!"/v1" (trim_end_matches t!"/messages"
               (trim_end_matches t!"/chat/completions" (trim_slashes api_url))))).

(** ** The client *)
Record ServerInfo := mk_ServerInfo {
  n_ctx : N;
  n_batch : N;
  si_model : str;
  native_protocol : option ModelProtocol;
}.
(** Names are in lower case, as the header map keeps them. *)
Definition Headers : Type := list (str * str).

Record ApiClient := mk_ApiClient {
  api_key : option str;
  ac_model : str;
  supplementary_system_prompt : option str;
  api_url : str;
  api_client_explicit_protocol : option ModelProtocol;
  model_protocol : ModelProtocol;
  tool_call_mode : ToolCallMode;
  ac_tool_policy : ToolPolicy;
  model_headers : Headers;
  temperature : f64;
  top_p : f64;
  max_tokens : N;
  stop_sequences : list str;
  reasoning_budget : N;
  project_instructions : option str;
  notes_content : option str;
  extra_tool_definitions : list value;
  server_info : option ServerInfo;
}.
Definition set_supplementary (v : option str) (c : ApiClient) : ApiClient :=
  mk_ApiClient (api_key c) (ac_model c) v (api_url c) (api_client_explicit_protocol c) (model_protocol c)
    (tool_call_mode c) (ac_tool_policy c) (model_headers c) (temperature c) (top_p c) (max_tokens c) (stop_sequences c)
    (reasoning_budget c) (project_instructions c) (notes_content c) (extra_tool_definitions c) (server_info c).
Definition set_server_info (info : ServerInfo) (c : ApiClient) : ApiClient :=
  mk_ApiClient (api_key c) (ac_model c) (supplementary_system_prompt c) (api_url c) (api_client_explicit_protocol c)
    (model_protocol c) (tool_call_mode c) (ac_tool_policy c) (model_headers c) (temperature c) (top_p c) (max_tokens c)
    (stop_sequences c) (reasoning_budget c) (project_instructions c) (notes_content c) (extra_tool_definitions c) (Some info).
Definition set_model_name (name : str) (c : ApiClient) : ApiClient :=
  mk_ApiClient (api_key c) name (supplementary_system_prompt c) (api_url c) (api_client_explicit_protocol c)
    (model_protocol c) (tool_call_mode c) (ac_tool_policy c) (model_headers c) (temperature c) (top_p c) (max_tokens c)
    (stop_sequences c) (reasoning_budget c) (project_instructions c) (notes_content c) (extra_tool_definitions c) (server_info c).

(** A text without the white space around it, if anything is left. *)
Definition solid_text (s : option str) : option str :=
  s ← s; let s := trim s in if is_empty s then None else Some s.
Definition set_supplementary_system_prompt (prompt : option str) (c : ApiClient) : ApiClient :=
  set_supplementary (solid_text prompt) c.

(** What [new] takes from the configuration for the address. *)
Definition configured_api_client_base_url (base_url : str) : option str :=
  let base := trim base_url in if is_empty base then None else Some (trim_slashes base).
Definition client_api_url {urls : UrlParser} (base_url model_url : str) : str :=
  let api_url := default model_url (configured_api_client_base_url base_url) in
  default api_url (preferred_loopback_url_for_local_endpoint api_url).

Definition context_window_tokens (c : ApiClient) : N :=
  match server_info c with
  | Some i => if 0 <? n_ctx i then n_ctx i else 8192
  | None => 8192
  end.
Definition supports_structured_tool_protocol (c : ApiClient) : bool :=
  match tool_call_mode c with Structured => true end && match ac_tool_policy c with Chat => false | Full | Plan => true end.
Definition api_protocol (c : ApiClient) : ApiProtocol :=
  match api_client_explicit_protocol c with
  | Some p => model_protocol_to_api_protocol p
  | None =>
      match configured_endpoint_protocol (api_url c) with
      | Some p => p
      | None =>
          match server_info c ≫= native_protocol with
          | Some p => model_protocol_to_api_protocol p
          | None => model_protocol_to_api_protocol (model_protocol c)
          end
      end
  end.
Definition request_url (c : ApiClient) : str :=
  match api_protocol c with
  | ApiMessagesV1 => adapt_to_messages_v1_url (api_url c)
  | ApiChatCompat => adapt_to_chat_compat_url (api_url c)
  end.

(** ** The system prompt *)
Definition section (before after : str) (text : option str) (prompt : str) : str :=
  match solid_text text with Some text => prompt ++ before ++ text ++ after | None => prompt end.
Definition effective_system_prompt (c : ApiClient) : str :=
  section (LF :: LF :: t!"<memory>" ++ [LF]) (LF :: t!"</memory>") (notes_content c)
    (section (LF :: LF :: t!"---" ++ LF :: t!"[project instructions: start]" ++ [LF])
             (LF :: t!"[project instructions: end]" ++ LF :: t!"---") (project_instructions c)
       (section (LF :: LF :: t!"---" ++ LF :: t!"[coding prompt: start]" ++ [LF])
                (LF :: t!"[coding prompt: end]" ++ LF :: t!"---") (supplementary_system_prompt c)
          BASE_SYSTEM_PROMPT)).

(** ** The limit of an answer *)
Definition max_tokens_ceiling (server_n_ctx : N) : N :=
  if 0 <? server_n_ctx then N.min (server_n_ctx * 3 / 4) u32_max else 16384.
Definition resolve_max_tokens (max_tokens_var : option str) (default_max_tokens server_n_ctx : N) : N :=
  let base := default default_max_tokens (max_tokens_var ≫= fun v => parse_uint u32_max (trim v)) in
  let ceiling := max_tokens_ceiling server_n_ctx in
  if ceiling <? 128 then N.min base ceiling else clamp 128 ceiling base.

(** ** Messages *)
Definition opt_field {A} (key : str) (to_value : A -> value) (a : option A) : list (str * value) :=
  match a with Some a => [(key, to_value a)] | None => [] end.
Definition metadata_value (m : ToolUseMetadata) : value :=
  Object (opt_field t!"call_type" String (call_type m)
          ++ opt_field t!"choice_index" (fun i => Number (PosInt i)) (choice_index m)).
Definition typed (name : str) (fields : list (str * value)) : value := Object ((t!"type", String name) :: fields).
Definition block_value (b : ContentBlock) : value :=
  match b with
  | CText text citations => typed t!"text" ((t!"text", String text) :: opt_field t!"citations" Array citations)
  | CToolUse id name input metadata =>
      typed t!"tool_use" ([(t!"id", String id); (t!"name", String name); (t!"input", input)]
                          ++ opt_field t!"metadata" metadata_value metadata)
  | CToolResult tool_use_id content is_error =>
      typed t!"tool_result" [(t!"tool_use_id", String tool_use_id); (t!"content", String content); (t!"is_error", Bool is_error)]
  | CThinking thinking signature => typed t!"thinking" [(t!"thinking", String thinking); (t!"signature", String signature)]
  | CThinkingData data => typed t!"thinking_data" [(t!"data", String data)]
  | CServerToolUse id name input => typed t!"server_tool_use" [(t!"id", String id); (t!"name", String name); (t!"input", input)]
  | CWebSearchToolResult tool_use_id content =>
      typed t!"web_search_tool_result" [(t!"tool_use_id", String tool_use_id); (t!"content", content)]
  end.
Definition content_value (c : Content) : value :=
  match c with TextContent text => String text | Blocks blocks => Array (map block_value blocks) end.
Definition message_value (m : ApiMessage) : value :=
  Object ([(t!"role", String (role m)); (t!"content", content_value (content m))]
          ++ opt_field t!"cache_hint" String (cache_hint m)).

Definition chat_text (role : str) (content : value) : value := Object [(t!"role", String role); (t!"content", content)].
Definition chat_answer (id content : str) : value :=
  Object [(t!"role", String t!"tool"); (t!"tool_call_id", String id); (t!"content", String content)].
Definition chat_call (id name arguments : str) : value :=
  Object [(t!"id", String id); (t!"type", String t!"function");
          (t!"function", Object [(t!"name", String name); (t!"arguments", String arguments)])].

Section messages.
Context {js : SerdeJson}.

Definition tool_input_to_json_string (v : value) : str :=
  match v with String text => text | _ => default t!"{}" (json_to_string v) end.

Definition block_text (b : ContentBlock) : str := match b with CText text _ => text | _ => [] end.
Definition block_call (b : ContentBlock) : option value :=
  match b with CToolUse id name input _ => Some (chat_call id name (tool_input_to_json_string input)) | _ => None end.
Definition assistant_message (blocks : list ContentBlock) : value :=
  let content := concat (map block_text blocks) in
  let tool_calls := omap block_call blocks in
  let m := [(t!"role", String t!"assistant"); (t!"content", if is_empty content then Null else String content)] in
  Object (match tool_calls with [] => m | _ => im_insert t!"tool_calls" (Array tool_calls) m end).

Definition other_block (role : str) (b : ContentBlock) : option value :=
  match b with
  | CToolResult tool_use_id content _ => Some (chat_answer tool_use_id content)
  | CText text _ => Some (chat_text role (String text))
  | _ => None
  end.
Definition append_chat_compat_message (m : ApiMessage) : list value :=
  match content m with
  | TextContent text => [chat_text (role m) (String text)]
  | Blocks blocks =>
      if str_eqb (role m) t!"assistant" then [assistant_message blocks]
      else match omap (other_block (role m)) blocks with
           | [] => [chat_text (role m) (String [])]
           | l => l
           end
  end.
Definition chat_compat_messages (messages : list ApiMessage) (system_prompt : str) : list value :=
  chat_text t!"system" (String system_prompt) :: List.flat_map append_chat_compat_message messages.
End messages.

(** ** The payload *)
Definition float_value (x : f64) : value := if f64_is_finite x then Number (Float x) else Null.
Definition insert_if (cond : bool) (key : str) (v : value) (m : list (str * value)) : list (str * value) :=
  if cond then im_insert key v m else m.
Definition stop_value (c : ApiClient) : value := Array (map String (stop_sequences c)).
Definition has_stop (c : ApiClient) : bool := match stop_sequences c with [] => false | _ => true end.

Definition messages_v1_payload (c : ApiClient) (max_tokens : N) (messages : list ApiMessage) : value :=
  let structured := supports_structured_tool_protocol c in
  let m := [(t!"model", String (ac_model c)); (t!"max_tokens", Number (PosInt max_tokens));
            (t!"temperature", float_value (temperature c)); (t!"top_p", float_value (top_p c)); (t!"stream", Bool true);
            (t!"system", String (effective_system_prompt c)); (t!"messages", Array (map message_value messages))] in
  let m := insert_if structured t!"tool_choice" (Object [(t!"type", String t!"auto")]) m in
  let m := insert_if structured t!"tools" (Array (tool_definitions_for_policy (ac_tool_policy c) (extra_tool_definitions c))) m in
  Object (insert_if (has_stop c) t!"stop_sequences" (stop_value c) m).

Definition apply_local_chat_compat_stream_flags (m : list (str * value)) : list (str * value) :=
  im_insert t!"cache_prompt" (Bool true) (im_insert t!"timings_per_token" (Bool true) (im_insert t!"return_progress" (Bool true) m)).

Definition chat_compat_payload {js : SerdeJson} (local : bool) (c : ApiClient) (max_tokens : N) (messages : list ApiMessage) : value :=
  let structured := supports_structured_tool_protocol c in
  let m := [(t!"model", String (ac_model c)); (t!"max_tokens", Number (PosInt max_tokens));
            (t!"temperature", float_value (temperature c)); (t!"top_p", float_value (top_p c)); (t!"stream", Bool true);
            (t!"messages", Array (chat_compat_messages messages (effective_system_prompt c)))] in
  let m := if local then apply_local_chat_compat_stream_flags m else m in
  let m := insert_if structured t!"tool_choice" (String t!"auto") m in
  let m := insert_if (structured && local) t!"parallel_tool_calls" (Bool true) m in
  let m := insert_if structured t!"tools"
             (Array (tool_definitions_chat_compat_for_policy (ac_tool_policy c) (extra_tool_definitions c))) m in
  let m := insert_if (has_stop c) t!"stop" (stop_value c) m in
  Object (insert_if (0 <? reasoning_budget c) t!"reasoning_effort" (Number (PosInt (reasoning_budget c))) m).

(** ** The headers *)
Definition is_reserved_header (name : str) : bool :=
  str_in (to_ascii_lowercase name)
    [t!"authorization"; t!"x-api-key"; t!"content-type"; t!"content-length"; t!"host"; t!"transfer-encoding"; t!"connection";
     t!"keep-alive"; t!"te"; t!"trailer"; t!"upgrade"; t!"proxy-authenticate"; t!"proxy-authorization"].
Definition REQUEST_ID_HEADER : str := t!"x-request-id".

(** The check of [HeaderValue::from_str]. *)
Class HeaderValues := header_value_ok : str -> bool.

Definition base_headers : Headers :=
  [(t!"content-type", t!"application/json"); (t!"accept", t!"text/event-stream"); (t!"accept-encoding", t!"identity");
   (t!"cache-control", t!"no-store")].
Definition add_model_header (headers : Headers) (h : str * str) : Headers :=
  if is_reserved_header h.1 then headers else im_insert h.1 h.2 headers.
Definition add_header (headers : Headers) (h : str * str) : Headers := im_insert h.1 h.2 headers.

Inductive RequestError : Type := InvalidApiKey | InvalidAuthorization | InvalidRequestId | PayloadNotPrinted.
Definition auth_headers {hv : HeaderValues} (c : ApiClient) (headers : Headers) : Headers + RequestError :=
  match api_key c with
  | None => inl headers
  | Some key =>
      match api_protocol c with
      | ApiMessagesV1 => if header_value_ok key then inl (im_insert t!"x-api-key" key headers) else inr InvalidApiKey
      | ApiChatCompat =>
          let bearer := t!"Bearer " ++ key in
          if header_value_ok bearer then inl (im_insert t!"authorization" bearer headers) else inr InvalidAuthorization
      end
  end.

Record ModelRequest := mk_ModelRequest {
  mr_url : str;
  mr_payload : value;
  mr_serialized_payload : str;
  mr_headers : Headers;
  mr_protocol : ModelProtocol;
  mr_request_id : str;
}.

(** [create_stream], until the request is sent. *)
Definition build_request {urls : UrlParser} {js : SerdeJson} {hv : HeaderValues} (max_tokens_var : option str)
    (request_id : str) (trace_headers : Headers) (c : ApiClient) (messages : list ApiMessage) : ModelRequest + RequestError :=
  let server_n_ctx := default 0 (n_ctx <$> server_info c) in
  let limit := resolve_max_tokens max_tokens_var (max_tokens c) server_n_ctx in
  let payload :=
    match api_protocol c with
    | ApiMessagesV1 => messages_v1_payload c limit messages
    | ApiChatCompat => chat_compat_payload (is_local_endpoint_url (api_url c)) c limit messages
    end in
  match auth_headers c (foldl add_model_header base_headers (model_headers c)) with
  | inr e => inr e
  | inl headers =>
      if negb (header_value_ok request_id) then inr InvalidRequestId
      else match json_to_string payload with
      | None => inr PayloadNotPrinted
      | Some serialized =>
          inl (mk_ModelRequest (request_url c) payload serialized
                 (foldl add_header (im_insert REQUEST_ID_HEADER request_id headers) trace_headers)
                 (match api_protocol c with ApiMessagesV1 => MessagesV1 | ApiChatCompat => ChatCompat end) request_id)
      end
  end.

(** ** Errors of the server *)
Definition contains_any (words : list str) (s : str) : bool := existsb (fun w => contains w s) words.
Definition is_context_overflow (body : str) : bool :=
  contains_any [t!"exceeds the available context size"; t!"exceeds context"; t!"context length exceeded";
                t!"maximum context length"; t!"context window"] (to_ascii_lowercase body).

(** The expression of src/runtime/rate_limit.rs that finds a delay in a body, of the crate regex-lite. *)
Class RetryBody := re_retry_body_is_match : str -> bool.
Definition looks_like_rate_limit {rb : RetryBody} (body : str) : bool :=
  contains_any [t!"rate limit"; t!"too many requests"; t!"throttl"] (to_ascii_lowercase body) || re_retry_body_is_match body.

(** Which message is made, with what it shows of the body; the texts are left out. *)
Inductive StatusError : Type :=
| RateLimited (shown : str)
| ContextOverflow (local : bool) (shown : str)
| LocalBadRequest (detected : ApiProtocol) (shown : str)
| HttpError (shown : str).
Definition is_client_error (status : N) : bool := (400 <=? status) && (status <? 500).
Definition map_api_status_error {urls : UrlParser} {rb : RetryBody} (canonical_reason : N -> option str)
    (status : N) (body request_url : str) : StatusError :=
  let is_local := is_local_endpoint_url request_url in
  if (status =? 429) || (is_client_error status && looks_like_rate_limit body) then RateLimited (take 300 body)
  else if is_context_overflow body then ContextOverflow is_local (take 300 body)
  else if (status =? 400) && is_local then LocalBadRequest (infer_api_protocol request_url) (take 300 body)
  else HttpError (if is_empty body then default t!"unknown error" (canonical_reason status) else take 500 body).

(** ** What a local server says of itself *)
Definition chat_compat_runtime_server_header : str := t!"llama.cpp".
Definition chat_compat_runtime_owner : str := t!"llamacpp".

(** [server]: the header of that name, if it is a text. *)
Definition server_header_matches_chat_compat_runtime (server : option str) : bool :=
  match server with Some v => contains chat_compat_runtime_server_header (to_ascii_lowercase v) | None => false end.

Record LocalServerGenSettings := mk_GenSettings { gs_n_ctx : N; gs_n_batch : N; gs_model : str }.
Record LocalServerProps := mk_LocalServerProps {
  default_generation_settings : option LocalServerGenSettings;
  chat_template : option str;
  (** [supports_tools], [supports_tool_calls]. *)
  chat_template_caps : option (bool * bool);
}.
Definition infer_native_protocol_from_props (server : option str) (props : LocalServerProps) : option ModelProtocol :=
  if server_header_matches_chat_compat_runtime server then Some ChatCompat
  else if match chat_template props with Some t => negb (is_empty (trim t)) | None => false end then Some ChatCompat
  else match chat_template_caps props with
       | Some (tools, calls) => if tools || calls then Some ChatCompat else None
       | None => None
       end.

Definition as_array (v : value) : option (list value) := match v with Array l => Some l | _ => None end.
Definition first_model (body : value) : option value :=
  data ← value_get t!"data" body; entries ← as_array data; match entries with entry :: _ => Some entry | [] => None end.
Definition infer_native_protocol_from_models (server : option str) (body : value) : option ModelProtocol :=
  if server_header_matches_chat_compat_runtime server then Some ChatCompat
  else
    model ← first_model body; owned_by ← value_get t!"owned_by" model; owner ← as_str owned_by;
    if str_eqb (to_ascii_lowercase owner) (to_ascii_lowercase chat_compat_runtime_owner) then Some ChatCompat else None.

(** What a request for the properties or the models is answered, when it succeeds: the header
    [Server] and the body, when it can be read. *)
Definition info_of_props (answer : option (option str * LocalServerProps)) : option ServerInfo :=
  '(server, props) ← answer;
  let native := infer_native_protocol_from_props server props in
  match default_generation_settings props, native with
  | Some gs, _ =>
      if (0 <? gs_n_ctx gs) || negb (is_empty (gs_model gs)) || opt_is_some native
      then Some (mk_ServerInfo (gs_n_ctx gs) (gs_n_batch gs) (gs_model gs) native) else None
  | None, Some _ => Some (mk_ServerInfo 0 0 [] native)
  | None, None => None
  end.
Definition info_of_models (answer : option (option str * value)) : option ServerInfo :=
  '(server, body) ← answer;
  let model := default [] (model ← first_model body; id ← value_get t!"id" model; as_str id) in
  let native := infer_native_protocol_from_models server body in
  if negb (is_empty model) || opt_is_some native then Some (mk_ServerInfo 0 0 model native) else None.
Definition poll_server_info {urls : UrlParser} (props : option (option str * LocalServerProps))
    (models : option (option str * value)) (api_url : str) : option ServerInfo :=
  _ ← local_endpoint_base_url api_url;
  match info_of_props props with Some info => Some info | None => info_of_models models end.

(** *** src/api/client/protocol_discovery.rs *)
(** What a probe is answered: the status and the content type, if it is a text. *)
Record ProbeAnswer := mk_ProbeAnswer { pa_status : N; pa_content_type : option str }.
Definition probe_ok (answer : option ProbeAnswer) : bool :=
  match answer with
  | Some a => (pa_status a =? 200) && match pa_content_type a with Some ct => contains t!"text/event-stream" ct | None => false end
  | None => false
  end.
Definition discover_protocol (probe : str -> option ProbeAnswer) (base_url : str) : option (ModelProtocol * str) :=
  let base := trim_slashes base_url in
  let messages := base ++ t!"/v1/messages" in
  if probe_ok (probe messages) then Some (MessagesV1, messages)
  else
    let choices := base ++ t!"/v1/chat/completions" in
    if probe_ok (probe choices) then Some (ChatCompat, choices) else None.
Definition discover_native_protocol (probe : str -> option ProbeAnswer) (base_url : str)
    (explicit_protocol : option ModelProtocol) : option ModelProtocol :=
  match explicit_protocol with Some p => Some p | None => fst <$> discover_protocol probe base_url end.

Definition populate_server_info {urls : UrlParser} (probe : str -> option ProbeAnswer)
    (props : option (option str * LocalServerProps)) (models : option (option str * value)) (c : ApiClient) : ApiClient :=
  match local_endpoint_base_url (api_url c) with
  | None => c
  | Some base_url =>
      let native := discover_native_protocol probe base_url (api_client_explicit_protocol c) in
      match poll_server_info props models base_url with
      | Some info =>
          set_server_info (mk_ServerInfo (n_ctx info) (n_batch info) (si_model info)
                             (match native with Some p => Some p | None => native_protocol info end)) c
      | None => match native with Some p => set_server_info (mk_ServerInfo 0 0 [] (Some p)) c | None => c end
      end
  end.
