(* ===== verification/ModelRequestTheory.v ===== *)
(** What the client of the model server sends: its addresses, its limit, its headers, the tools it
    offers and the history it tells. *)
From Stdlib Require Import NArith ZArith Lia.
From stdpp Require Import base list gmap strings numbers.
From S2P Require Import Prelude Text Collections Json Usage Evidence Envelope ToolPreview History ToolRules ConversationState ModelRequest.
#[local] Open Scope N_scope.

(** ** Addresses *)
Lemma strip_suffix_Some p s a : strip_suffix p s = Some a <-> s = a ++ p.
Proof.
  unfold strip_suffix. split.
  - intros (r & E & ->)%fmap_Some. apply strip_prefix_Some in E. apply (f_equal reverse) in E.
    by rewrite reverse_involutive, reverse_app, reverse_involutive in E.
  - intros ->. rewrite reverse_app, strip_prefix_app. cbn. by rewrite reverse_involutive.
Qed.
Lemma ends_with_strip p s : ends_with p s = opt_is_some (strip_suffix p s).
Proof. unfold ends_with, strip_suffix, starts_with. by destruct (strip_prefix _ _). Qed.
Lemma strip_suffix_app p a : strip_suffix p (a ++ p) = Some a.
Proof. by apply strip_suffix_Some. Qed.
(** Texts that end differently. *)
Lemma strip_suffix_other p q a :
  (forall z, strip_prefix (reverse p) (reverse q ++ z) = None) -> strip_suffix p (a ++ q) = None.
Proof. intros H. unfold strip_suffix. by rewrite reverse_app, H. Qed.
Lemma trim_slashes_end a s c : c <> 47 -> trim_slashes (a ++ s ++ [c]) = a ++ s ++ [c].
Proof.
  intros Hc. unfold trim_slashes, trim_end_char. rewrite app_assoc, reverse_snoc. cbn [drop_while].
  rewrite (proj2 (N.eqb_neq 47 c)) by congruence. by rewrite <- reverse_snoc, reverse_involutive.
Qed.

Lemma trim_chat a : trim_slashes (a ++ t!"/chat/completions") = a ++ t!"/chat/completions".
Proof. by apply (trim_slashes_end a t!"/chat/completion" 115). Qed.
Lemma trim_messages a : trim_slashes (a ++ t!"/messages") = a ++ t!"/messages".
Proof. by apply (trim_slashes_end a t!"/message" 115). Qed.

#[local] Ltac suffixes :=
  repeat first [rewrite ends_with_strip
    | rewrite strip_suffix_app
    | rewrite (strip_suffix_other t!"/chat/completions" t!"/messages") by (intros; reflexivity)
    | rewrite (strip_suffix_other t!"/chat/completions" t!"/messages/v1") by (intros; reflexivity)
    | rewrite (strip_suffix_other t!"/messages" t!"/chat/completions") by (intros; reflexivity)
    | rewrite (strip_suffix_other t!"/messages" t!"/messages/v1") by (intros; reflexivity)
    | rewrite (strip_suffix_other t!"/messages/v1" t!"/chat/completions") by (intros; reflexivity)
    | rewrite (strip_suffix_other t!"/messages/v1" t!"/messages") by (intros; reflexivity)];
  cbn [opt_is_some].

(** Both addresses of a server have the same base. *)
Lemma same_base u : exists a, adapt_to_chat_compat_url u = a ++ t!"/chat/completions" /\ adapt_to_messages_v1_url u = a ++ t!"/messages".
Proof.
  unfold adapt_to_chat_compat_url, adapt_to_messages_v1_url. set (n := trim_slashes u).
  destruct (strip_suffix t!"/chat/completions" n) as [a|] eqn:E1.
  { apply strip_suffix_Some in E1 as ->. exists a. by suffixes. }
  destruct (strip_suffix t!"/messages/v1" n) as [a|] eqn:E2.
  { apply strip_suffix_Some in E2 as E. rewrite E. exists (a ++ t!"/v1"). suffixes. by rewrite <- !app_assoc. }
  destruct (strip_suffix t!"/messages" n) as [a|] eqn:E3.
  { apply strip_suffix_Some in E3 as ->. exists a. by suffixes. }
  rewrite !ends_with_strip, E1, E3. cbn [opt_is_some]. destruct (strip_suffix t!"/v1" n); cbn [opt_is_some].
  - by exists n.
  - exists (n ++ t!"/v1"). by rewrite <- !app_assoc.
Qed.
Lemma chat_of_chat a : adapt_to_chat_compat_url (a ++ t!"/chat/completions") = a ++ t!"/chat/completions".
Proof. unfold adapt_to_chat_compat_url. rewrite trim_chat. by suffixes. Qed.
Lemma chat_of_messages a : adapt_to_chat_compat_url (a ++ t!"/messages") = a ++ t!"/chat/completions".
Proof. unfold adapt_to_chat_compat_url. rewrite trim_messages. by suffixes. Qed.
Lemma messages_of_chat a : adapt_to_messages_v1_url (a ++ t!"/chat/completions") = a ++ t!"/messages".
Proof. unfold adapt_to_messages_v1_url. rewrite trim_chat. by suffixes. Qed.
Lemma messages_of_messages a : adapt_to_messages_v1_url (a ++ t!"/messages") = a ++ t!"/messages".
Proof. unfold adapt_to_messages_v1_url. rewrite trim_messages. by suffixes. Qed.

(** Whichever protocol is chosen, the address of a request has the same base, and an address
    that was already adapted is left as it is or leads back to the other: switching the protocol
    never adds to the path. *)
Theorem addresses_agree u :
  (exists base, adapt_to_chat_compat_url u = base ++ t!"/chat/completions" /\ adapt_to_messages_v1_url u = base ++ t!"/messages")
  /\ adapt_to_chat_compat_url (adapt_to_chat_compat_url u) = adapt_to_chat_compat_url u
  /\ adapt_to_chat_compat_url (adapt_to_messages_v1_url u) = adapt_to_chat_compat_url u
  /\ adapt_to_messages_v1_url (adapt_to_chat_compat_url u) = adapt_to_messages_v1_url u
  /\ adapt_to_messages_v1_url (adapt_to_messages_v1_url u) = adapt_to_messages_v1_url u.
Proof.
  destruct (same_base u) as (a & -> & ->).
  rewrite chat_of_chat, chat_of_messages, messages_of_chat, messages_of_messages. split_and!; [by exists a | done..].
Qed.

(** ** The limit *)
(** The limit of an answer is at most three quarters of the context of the server, or 16384 when
    the server does not say, and at least 128 when that allows it; a limit in between is kept. *)
Theorem limit_in_context max_tokens_var default_max n_ctx :
  let limit := resolve_max_tokens max_tokens_var default_max n_ctx in
  let base := default default_max (max_tokens_var ≫= fun v => parse_uint u32_max (trim v)) in
  (0 < n_ctx -> 4 * limit <= 3 * n_ctx) /\ (n_ctx = 0 -> 128 <= limit <= 16384)
  /\ (n_ctx <= u32_max -> 171 <= n_ctx -> 128 <= limit)
  /\ (128 <= base -> 4 * base <= 3 * n_ctx -> n_ctx <= u32_max -> limit = base).
Proof.
  cbv zeta. unfold resolve_max_tokens, max_tokens_ceiling. set (base := default default_max _).
  assert (4 * (n_ctx * 3 / 4) <= 3 * n_ctx) as H1 by (rewrite (N.mul_comm 3); apply N.Div0.mul_div_le).
  assert (n_ctx <= u32_max -> 171 <= n_ctx -> 128 <= n_ctx * 3 / 4) as H2 by (intros; apply N.div_le_lower_bound; lia).
  assert (forall b, 4 * b <= 3 * n_ctx -> b <= n_ctx * 3 / 4) as H3 by (intros; apply N.div_le_lower_bound; lia).
  specialize (H3 base). unfold clamp, u32_max in *.
  destruct (N.ltb_spec 0 n_ctx); [|split_and!; intros; try lia].
  - set (c := N.min (n_ctx * 3 / 4) 4294967295). assert (c <= n_ctx * 3 / 4) by (subst c; lia).
    assert (n_ctx <= 4294967295 -> c = n_ctx * 3 / 4) by (intros; subst c; lia).
    destruct (N.ltb_spec c 128); split_and!; intros; try lia.
  - destruct (16384 <? 128) eqn:E; [done|]. lia.
Qed.

(** ** Headers *)
Lemma model_headers_kept name hs l : is_reserved_header name = true ->
  im_get name (foldl add_model_header hs l) = im_get name hs.
Proof.
  intros Hr. revert hs. induction l as [|[n v] l IH]; intros hs; [done|]. cbn [foldl]. rewrite IH.
  unfold add_model_header. cbn [fst snd]. destruct (is_reserved_header n) eqn:E; [done|].
  apply im_get_insert_ne. intros ->. congruence.
Qed.
Lemma headers_kept name hs l : name ∉ map fst l -> im_get name (foldl add_header hs l) = im_get name hs.
Proof.
  revert hs. induction l as [|[n v] l IH]; intros hs; [done|]. cbn. intros [Hn Hl]%not_elem_of_cons. rewrite IH by done.
  by apply im_get_insert_ne.
Qed.

(** What a request says of who sends it. *)
Definition auth_header (c : ApiClient) (name : str) : option str :=
  match api_protocol c with
  | ApiMessagesV1 => if str_eqb name t!"x-api-key" then api_key c else None
  | ApiChatCompat => if str_eqb name t!"authorization" then (fun key => t!"Bearer " ++ key) <$> api_key c else None
  end.

Lemma auth_run `{HeaderValues} c hs hs' name : auth_headers c hs = inl hs' ->
  name = t!"authorization" \/ name = t!"x-api-key" -> im_get name hs = None -> im_get name hs' = auth_header c name.
Proof.
  unfold auth_headers, auth_header. intros E Hn Hg. destruct (api_key c) as [key|], (api_protocol c); cbn in E |- *;
    repeat case_match; try done; injection E as <-; destruct Hn as [-> | ->]; cbn;
    rewrite ?im_get_insert_eq; rewrite ?im_get_insert_ne by (vm_compute; done); done.
Qed.

(** C30: A request carries the key of the client in the one header of its protocol and no other, it
    is JSON under the identifier of the request, and no header of the configuration changes that. *)
Theorem request_authenticated {urls : UrlParser} {js : SerdeJson} {hv : HeaderValues} var id trace c messages r :
  (forall name, name ∈ map fst trace -> is_reserved_header name = false /\ name <> REQUEST_ID_HEADER) ->
  build_request var id trace c messages = inl r ->
  im_get t!"x-api-key" (mr_headers r) = auth_header c t!"x-api-key"
  /\ im_get t!"authorization" (mr_headers r) = auth_header c t!"authorization"
  /\ im_get t!"content-type" (mr_headers r) = Some t!"application/json"
  /\ im_get REQUEST_ID_HEADER (mr_headers r) = Some id.
Proof.
  intros Ht. unfold build_request. destruct (auth_headers _ _) as [hs|] eqn:Ea; [|done].
  destruct (negb (header_value_ok id)); [done|]. destruct (json_to_string _) as [s|]; [|done]. intros [= <-]. cbn [mr_headers].
  assert (forall name, is_reserved_header name = true \/ name = REQUEST_ID_HEADER -> name ∉ map fst trace) as Hno.
  { intros name Hn Hin. destruct (Ht name Hin) as [H1 H2]. destruct Hn; congruence. }
  assert (forall name, is_reserved_header name = true ->
            im_get name (foldl add_model_header base_headers (model_headers c)) = im_get name base_headers) as Hm
    by (intros; by apply model_headers_kept).
  split_and!; rewrite headers_kept by (apply Hno; (by left) || (by right)).
  - rewrite im_get_insert_ne by (vm_compute; done). eapply auth_run; [done | by right | by rewrite Hm].
  - rewrite im_get_insert_ne by (vm_compute; done). eapply auth_run; [done | by left | by rewrite Hm].
  - rewrite im_get_insert_ne by (vm_compute; done). revert Ea. unfold auth_headers.
    destruct (api_key c), (api_protocol c); cbn; repeat case_match; try done; intros [= <-];
      rewrite ?im_get_insert_ne by (vm_compute; done); by rewrite Hm.
  - apply im_get_insert_eq.
Qed.

(** ** Tools *)
Lemma get_insert_if_ne k k' cond v m : k <> k' -> im_get k (insert_if cond k' v m) = im_get k m.
Proof. intros. unfold insert_if. destruct cond; [by apply im_get_insert_ne | done]. Qed.
Lemma get_insert_if_eq k cond v m : im_get k m = None -> im_get k (insert_if cond k v m) = if cond then Some v else None.
Proof. intros. unfold insert_if. destruct cond; [apply im_get_insert_eq | done]. Qed.
Lemma get_local_flags k m : k <> t!"cache_prompt" -> k <> t!"timings_per_token" -> k <> t!"return_progress" ->
  im_get k (apply_local_chat_compat_stream_flags m) = im_get k m.
Proof. intros. unfold apply_local_chat_compat_stream_flags. by rewrite !im_get_insert_ne. Qed.

Definition offered (payload : value) : list value :=
  match value_get t!"tools" payload with Some (Array l) => l | _ => [] end.
Lemma offered_messages c limit messages : offered (messages_v1_payload c limit messages) =
  if supports_structured_tool_protocol c then tool_definitions_for_policy (ac_tool_policy c) (extra_tool_definitions c) else [].
Proof.
  unfold offered, messages_v1_payload, value_get. rewrite get_insert_if_ne by (vm_compute; done).
  rewrite get_insert_if_eq; [by destruct (supports_structured_tool_protocol c)|].
  by rewrite get_insert_if_ne by (vm_compute; done).
Qed.
Lemma offered_chat `{SerdeJson} local c limit messages : offered (chat_compat_payload local c limit messages) =
  if supports_structured_tool_protocol c
  then tool_definitions_chat_compat_for_policy (ac_tool_policy c) (extra_tool_definitions c) else [].
Proof.
  unfold offered, chat_compat_payload, value_get. rewrite !get_insert_if_ne by (vm_compute; done).
  rewrite get_insert_if_eq; [by destruct (supports_structured_tool_protocol c)|].
  rewrite !get_insert_if_ne by (vm_compute; done). destruct local; [|done].
  by rewrite get_local_flags by (vm_compute; done).
Qed.

Lemma builtin_allowed s name tool extra : tool_name_of tool = Some name ->
  tool ∈ tool_definitions_for_policy (tool_policy s) extra -> tool ∈ extra \/ refused_by_policy s name = None.
Proof.
  unfold refused_by_policy. intros Hn. destruct (tool_policy s); cbn [tool_definitions_for_policy].
  - by right.
  - intros [Hin|Hin]%elem_of_app; [right | by left]. apply list_elem_of_In, List.filter_In in Hin as [_ Hr].
    unfold is_readonly_definition in Hr. rewrite Hn in Hr. by rewrite Hr.
  - by intros ?%elem_of_nil.
Qed.

Lemma builtin_named : forallb (fun t => opt_is_some (tool_name_of t)) tool_definitions = true.
Proof. vm_compute. reflexivity. Qed.
#[local] Opaque tool_definitions.
Lemma nameless_extra policy tool extra : tool_name_of tool = None -> tool ∈ tool_definitions_for_policy policy extra -> tool ∈ extra.
Proof.
  intros Hn Hin. assert (forall t, t ∈ tool_definitions -> tool_name_of t <> None) as Hall.
  { intros t Ht%list_elem_of_In E. pose proof builtin_named as Hb. rewrite forallb_forall in Hb. specialize (Hb t Ht). by rewrite E in Hb. }
  destruct policy; cbn [tool_definitions_for_policy] in Hin.
  - unfold tool_definitions_with_extra in Hin. destruct extra as [|e extra]; [by destruct (Hall tool)|].
    apply elem_of_app in Hin as [Hin|Hin]; [by destruct (Hall tool) | done].
  - apply elem_of_app in Hin as [Hin|Hin]; [|done]. apply list_elem_of_In, List.filter_In in Hin as [Hin%list_elem_of_In _].
    by destruct (Hall tool).
  - by apply elem_of_nil in Hin.
Qed.
Lemma function_name_wrap tool name : tool_name_of tool = Some name ->
  value_get t!"function" (wrap_as_chat_compat_function tool) ≫= tool_name_of = Some name.
Proof.
  intros H. unfold wrap_as_chat_compat_function. unfold tool_name_of in H.
  destruct (value_get t!"name" tool) as [v|] eqn:E; [|discriminate H]. exact H.
Qed.

Definition function_name (tool : value) : option str := value_get t!"function" tool ≫= tool_name_of.

(** Every tool of its own that a client offers with a request, in either protocol, is one that the
    loop of the conversation does not refuse under the same policy; in a chat none is offered. *)
Theorem offered_tools_allowed {js : SerdeJson} s local c limit messages :
  tool_policy s = ac_tool_policy c ->
  (forall tool name, tool ∈ offered (messages_v1_payload c limit messages) -> tool_name_of tool = Some name ->
     tool ∈ extra_tool_definitions c \/ refused_by_policy s name = None)
  /\ (forall tool name, tool ∈ offered (chat_compat_payload local c limit messages) -> function_name tool = Some name ->
     (exists extra, extra ∈ extra_tool_definitions c /\ tool = wrap_as_chat_compat_function extra)
     \/ refused_by_policy s name = None)
  /\ (ac_tool_policy c = Chat ->
      offered (messages_v1_payload c limit messages) = [] /\ offered (chat_compat_payload local c limit messages) = []).
Proof.
  intros Hp. rewrite offered_messages, offered_chat. unfold supports_structured_tool_protocol. split_and!.
  - intros tool name Hin Hn. rewrite <- Hp in Hin. destruct (tool_call_mode c), (tool_policy s) eqn:E; cbn [andb] in Hin;
      try (by apply elem_of_nil in Hin); rewrite <- E in Hin; by apply builtin_allowed.
  - intros tool name Hin Hn. assert (tool ∈ tool_definitions_chat_compat_for_policy (ac_tool_policy c) (extra_tool_definitions c)) as Hi
      by (destruct (_ && _); [done | by apply elem_of_nil in Hin]).
    rewrite <- Hp in Hi. unfold tool_definitions_chat_compat_for_policy in Hi. apply list_elem_of_fmap in Hi as (t & -> & Ht).
    destruct (tool_name_of t) as [n|] eqn:En.
    + destruct (builtin_allowed s n t _ En Ht) as [Hx|Hr]; [left; eauto|right].
      unfold function_name in Hn. rewrite (function_name_wrap t n En) in Hn. by injection Hn as <-.
    + left. exists t. split; [by eapply nameless_extra | done].
  - intros ->. by rewrite andb_false_r.
Qed.

(** ** The history *)
(** What a message says, whatever the protocol: nothing is said by an empty text. *)
Inductive Utterance : Type :=
| Said (role text : str)
| Called (id name arguments : str)
| Replied (id content : str).
Definition say (role text : str) : list Utterance := if is_empty text then [] else [Said role text].

(** *** What the blocks of a message say *)
Section history.
Context {js : SerdeJson}.

(** The arguments of a call are read back to its input; an input that is a text is sent as it is. *)
Definition argues (input : value) (arguments : str) : Prop :=
  match input with String text => arguments = text | _ => json_from_str arguments = Some input end.
(** What the codec prints of the input of a call it reads back. *)
Definition reads_back (input : value) : Prop :=
  match input with String _ => True | _ => exists t, json_to_string input = Some t /\ json_from_str t = Some input end.

(** The texts of the blocks, one after the other. *)
Inductive told_text : list ContentBlock -> str -> Prop :=
| told_text_none : told_text [] []
| told_text_more text cache blocks rest :
    told_text blocks rest -> told_text (CText text cache :: blocks) (text ++ rest)
| told_text_skip b blocks rest :
    (forall text cache, b <> CText text cache) -> told_text blocks rest -> told_text (b :: blocks) rest.

(** The calls of the blocks, in order. *)
Inductive told_calls : list ContentBlock -> list Utterance -> Prop :=
| told_calls_none : told_calls [] []
| told_calls_more id name input cache arguments blocks us :
    argues input arguments -> told_calls blocks us ->
    told_calls (CToolUse id name input cache :: blocks) (Called id name arguments :: us)
| told_calls_skip b blocks us :
    (forall id name input cache, b <> CToolUse id name input cache) -> told_calls blocks us -> told_calls (b :: blocks) us.

(** The texts that are not empty and the replies of the blocks, in order; whether a reply is an
    error is not said. *)
Inductive told_blocks (role : str) : list ContentBlock -> list Utterance -> Prop :=
| told_blocks_none : told_blocks role [] []
| told_blocks_said text cache blocks us :
    text <> [] -> told_blocks role blocks us -> told_blocks role (CText text cache :: blocks) (Said role text :: us)
| told_blocks_empty cache blocks us : told_blocks role blocks us -> told_blocks role (CText [] cache :: blocks) us
| told_blocks_replied id content is_error blocks us :
    told_blocks role blocks us -> told_blocks role (CToolResult id content is_error :: blocks) (Replied id content :: us)
| told_blocks_skip b blocks us :
    (forall text cache, b <> CText text cache) -> (forall id content is_error, b <> CToolResult id content is_error) ->
    told_blocks role blocks us -> told_blocks role (b :: blocks) us.

(** What is told of a message: of the assistant its text as a whole and then its calls, of another
    role what its blocks say. *)
Definition tells (m : ApiMessage) (us : list Utterance) : Prop :=
  match content m with
  | TextContent text => us = say (role m) text
  | Blocks blocks =>
      (role m = t!"assistant" /\ exists text calls,
         told_text blocks text /\ told_calls blocks calls /\ us = say t!"assistant" text ++ calls)
      \/ (role m <> t!"assistant" /\ told_blocks (role m) blocks us)
  end.
End history.

Definition text_field (key : str) (v : value) : option str := value_get key v ≫= as_str.
Definition read_call (v : value) : option Utterance :=
  id ← text_field t!"id" v; f ← value_get t!"function" v; name ← text_field t!"name" f;
  arguments ← text_field t!"arguments" f; Some (Called id name arguments).
(** What a server that speaks the chat protocol reads in a message. *)
Definition read_chat (v : value) : list Utterance :=
  let text := default [] (text_field t!"content" v) in
  match text_field t!"role" v with
  | None => []
  | Some role =>
      if str_eqb role t!"tool" then match text_field t!"tool_call_id" v with Some id => [Replied id text] | None => [] end
      else say role text ++ match value_get t!"tool_calls" v with Some (Array l) => omap read_call l | _ => [] end
  end.

(** A message of a role, a content and perhaps calls. *)
Lemma read_message v role : role <> t!"tool" -> text_field t!"role" v = Some role ->
  read_chat v = say role (default [] (text_field t!"content" v))
                ++ match value_get t!"tool_calls" v with Some (Array l) => omap read_call l | _ => [] end.
Proof. intros Hr E. unfold read_chat. by rewrite E, str_eqb_other. Qed.
Lemma read_chat_text role text : role <> t!"tool" -> read_chat (chat_text role (String text)) = say role text.
Proof. intros Hr. rewrite (read_message _ role) by done. apply app_nil_r. Qed.

Section told.
Context {js : SerdeJson}.

Lemma input_argues input : reads_back input -> argues input (tool_input_to_json_string input).
Proof. unfold reads_back, argues, tool_input_to_json_string. destruct input; [| | |done| |]; by intros (t & -> & E). Qed.

Lemma blocks_text (blocks : list ContentBlock) : told_text blocks (concat (map block_text blocks)).
Proof. induction blocks as [|b blocks IH]; [constructor|]. destruct b; cbn [map block_text concat]; [by constructor|..]; by constructor. Qed.

Lemma read_calls (blocks : list ContentBlock) :
  (forall id name input cache, CToolUse id name input cache ∈ blocks -> reads_back input) ->
  told_calls blocks (omap read_call (omap block_call blocks)).
Proof.
  induction blocks as [|b blocks IH]; intros Hb; [constructor|].
  assert (told_calls blocks (omap read_call (omap block_call blocks))) as H
    by (apply IH; intros id name input cache Hin; apply (Hb id name input cache); by right).
  destruct b; cbn [omap list_omap block_call]; [by constructor|..]; try by constructor.
  constructor; [|done]. apply input_argues. eapply Hb. by left.
Qed.

Lemma read_assistant (blocks : list ContentBlock) :
  read_chat (assistant_message blocks)
  = say t!"assistant" (concat (map block_text blocks)) ++ omap read_call (omap block_call blocks).
Proof.
  unfold assistant_message. set (text := concat _). destruct (omap block_call blocks) as [|call calls].
  - rewrite (read_message _ t!"assistant") by (vm_compute; done). by destruct text.
  - rewrite (read_message _ t!"assistant") by (vm_compute; done). by destruct text.
Qed.

Lemma read_others role (blocks : list ContentBlock) : role <> t!"tool" ->
  told_blocks role blocks (List.flat_map read_chat (omap (other_block role) blocks)).
Proof.
  intros Hr. induction blocks as [|b blocks IH]; [constructor|].
  destruct b; cbn [omap list_omap other_block List.flat_map]; try by constructor.
  rewrite read_chat_text by done. destruct text; by constructor.
Qed.

Lemma append_read m :
  role m <> t!"tool" ->
  (forall blocks id name input cache, content m = Blocks blocks -> CToolUse id name input cache ∈ blocks -> reads_back input) ->
  tells m (List.flat_map read_chat (append_chat_compat_message m)).
Proof.
  intros Hr Hb. unfold append_chat_compat_message, tells. destruct (content m) as [text|blocks].
  - cbn [List.flat_map]. by rewrite app_nil_r, read_chat_text.
  - unfold str_eqb. case_bool_decide as Ha.
    + left. split; [done|]. cbn [List.flat_map]. rewrite app_nil_r, read_assistant. eexists _, _.
      split; [apply blocks_text|]. split; [|done]. apply read_calls. intros id name input cache. by apply Hb.
    + right. split; [done|]. pose proof (read_others (role m) blocks Hr) as Ho.
      destruct (omap (other_block (role m)) blocks); [|exact Ho].
      cbn [List.flat_map] in *. by rewrite app_nil_r, read_chat_text.
Qed.

(** C24: What a server that speaks the chat protocol reads of a history.  After the system prompt, it
    reads message by message: of a text, the text under its role; of an answer of the model, the
    texts of its blocks as one and then its calls, each with its identifier, its name and arguments
    that are read back to the input of the call; of the blocks of another role, every text and every
    reply to a call with its identifier, in their order.  Nothing is said by an empty text, and nothing
    of the other blocks of a role, nor whether a reply is an error.  The history has no message of
    the role [tool], and what the codec prints of an input it reads back. *)
Theorem history_told messages system_prompt :
  (forall m, m ∈ messages -> role m <> t!"tool") ->
  (forall m blocks id name input cache, m ∈ messages -> content m = Blocks blocks ->
     CToolUse id name input cache ∈ blocks -> reads_back input) ->
  exists uss, Forall2 tells messages uss
    /\ List.flat_map read_chat (chat_compat_messages messages system_prompt) = say t!"system" system_prompt ++ concat uss.
Proof.
  intros Hr Hb. exists (map (fun m => List.flat_map read_chat (append_chat_compat_message m)) messages). split.
  - induction messages as [|m messages IH]; cbn [map]; [constructor|]. constructor.
    + apply append_read; [apply Hr; by left|]. intros blocks id name input cache. apply Hb. by left.
    + apply IH; [intros m' Hm; apply Hr; by right|]. intros m' blocks id name input cache Hm. apply (Hb m'). by right.
  - unfold chat_compat_messages. cbn [List.flat_map]. rewrite read_chat_text by (vm_compute; done). f_equal.
    clear Hr Hb. induction messages as [|m messages IH]; [done|]. cbn [List.flat_map map concat]. by rewrite flat_map_app, IH.
Qed.
End told.

(** ** A concrete client *)
(** No URL is read, every header value is fine, and every payload is printed alike. *)
Definition no_urls : UrlParser := {|
  Url := unit; url_parse _ := None; url_scheme _ := []; url_host _ := None; url_set_scheme _ _ := None;
  url_set_host _ _ := None; url_to_string _ := [];
|}.
Definition any_header_value : HeaderValues := fun _ => true.
Definition constant_codec : SerdeJson := {| json_from_str _ := None; json_to_string _ := Some t!"{}"; parse_f64 _ := None |}.
Definition sample_client (protocol : ModelProtocol) (policy : ToolPolicy) : ApiClient :=
  mk_ApiClient (Some t!"key") t!"model" None t!"https://model.example/v1/" (Some protocol) MessagesV1 Structured policy
    [(t!"x-api-key", t!"other"); (t!"x-team", t!"blue")] 0 0 4096 [] 0 None None [] None.
Definition sample_settings_with (policy : ToolPolicy) : Settings :=
  mk_Settings (fun _ => None) true 100000 policy t!"model" (fun _ => None) [] [] [] None false 8 false.

Lemma request_authenticated_witness : exists r,
  @build_request no_urls constant_codec any_header_value None t!"id-1" [] (sample_client ChatCompat Full) [] = inl r
  /\ mr_url r = t!"https://model.example/v1/chat/completions"
  /\ im_get t!"x-api-key" (mr_headers r) = None /\ im_get t!"authorization" (mr_headers r) = Some t!"Bearer key".
Proof.
  destruct (@build_request no_urls constant_codec any_header_value None t!"id-1" [] (sample_client ChatCompat Full) []) as [r|] eqn:E;
    [|discriminate E].
  exists r. split; [done|]. split; [by injection E as <-|].
  assert (forall name, name ∈ map fst ([] : list (str * str)) -> is_reserved_header name = false /\ name <> REQUEST_ID_HEADER) as Ht
    by (intros ? ?%elem_of_nil; done).
  destruct (@request_authenticated no_urls constant_codec any_header_value None t!"id-1" [] (sample_client ChatCompat Full) [] r Ht E)
    as (-> & -> & _). done.
Defined.

Lemma offered_tools_allowed_witness :
  tool_policy (sample_settings_with Plan) = ac_tool_policy (sample_client MessagesV1 Plan)
  /\ forall tool name, tool ∈ offered (messages_v1_payload (sample_client MessagesV1 Plan) 4096 []) ->
       tool_name_of tool = Some name -> refused_by_policy (sample_settings_with Plan) name = None.
Proof.
  split; [done|]. intros tool name Hin Hn.
  destruct (proj1 (@offered_tools_allowed constant_codec (sample_settings_with Plan) false (sample_client MessagesV1 Plan) 4096 [] eq_refl)
              tool name Hin Hn) as [Hx|Hx]; [by apply elem_of_nil in Hx | done].
Defined.

(** A codec that prints [true] and reads it. *)
Definition bool_codec : SerdeJson := {|
  json_from_str s := if str_eqb s t!"true" then Some (Bool true) else None;
  json_to_string v := match v with Bool true => Some t!"true" | _ => None end;
  parse_f64 _ := None;
|}.
Lemma history_told_witness :
  let messages := [mk_ApiMessage t!"user" (TextContent t!"look") None;
                   mk_ApiMessage t!"assistant" (Blocks [CText t!"I " None; CToolUse t!"c1" t!"read_file" (Bool true) None; CText t!"read" None]) None;
                   mk_ApiMessage t!"user" (Blocks [CToolResult t!"c1" t!"fn main" false]) None] in
  exists uss, Forall2 (@tells bool_codec) messages uss
    /\ [Said t!"system" t!"be brief"; Said t!"user" t!"look"; Said t!"assistant" t!"I read"; Called t!"c1" t!"read_file" t!"true";
        Replied t!"c1" t!"fn main"] = say t!"system" t!"be brief" ++ concat uss.
Proof.
  set (messages := [_; _; _]). cbv zeta. destruct (@history_told bool_codec messages t!"be brief") as (uss & Ht & Hu).
  - intros m Hm. repeat (apply elem_of_cons in Hm as [->|Hm]; [vm_compute; done|]). by apply elem_of_nil in Hm.
  - intros m blocks id name input cache Hm Hc Hin. unfold messages in Hm.
    repeat (apply elem_of_cons in Hm as [->|Hm]; [cbn in Hc; try discriminate Hc; injection Hc as <-;
      repeat (apply elem_of_cons in Hin as [Hin|Hin]; [try discriminate Hin; injection Hin as -> -> -> ->; by eexists|]);
      by apply elem_of_nil in Hin|]).
    by apply elem_of_nil in Hm.
  - exists uss. split; [exact Ht|]. rewrite <- Hu. vm_compute. reflexivity.
Defined.
