(* ===== verification/SignalStream.v ===== *)
(** The stream of envelopes that a request opens: src/api/stream_ingress.rs, and the answer that is
    not a stream: src/api/stream_ingress/non_stream.rs.

    What the server sends is a list of chunks and errors; the requests that are repeated are the
    list of what they meet.  Logging is left out, but for the summary of a stream. *)
From Stdlib Require Import NArith ZArith Lia.
From stdpp Require Import base list gmap sets strings numbers.
From S2P Require Import Prelude Text Utf8 Collections Json Usage Evidence DeltaAccumulator TextNormaliser Envelope Normalizer ProtocolIngress StreamParser ToolPreview History ToolRules ConversationState ModelRequest.
#[local] Open Scope N_scope.

(** ** The stream *)
Inductive StreamError : Type := TransportError (message : str) | ParseFailed.
(** What is logged when a stream ends. *)
Record StreamSummary := mk_StreamSummary {
  ss_outcome : str;
  ss_envelope_count : N;
  ss_tool_call_starts : N;
  ss_tool_call_completions : N;
  ss_tool_call_failures : N;
  ss_final_status : str;
  ss_usage : option TokenUsageEnvelope;
}.

(** [summaries]: what was logged; [summary_emitted] is that there is one. *)
Record SignalStreamState := mk_SignalStreamState {
  upstream : list (bytes + str);
  sss_parser : StreamParser;
  pending : list RuntimeEnvelope;
  terminal_outcome : option str;
  envelope_count : N;
  tool_call_starts : N;
  tool_call_completions : N;
  tool_call_failures : N;
  last_usage : option TokenUsageEnvelope;
  final_status : option str;
  summaries : list StreamSummary;
}.
Definition build_signal_stream_state (upstream : list (bytes + str)) (task : N) : SignalStreamState :=
  mk_SignalStreamState upstream (parser_new task) [] None 0 0 0 0 None None [].

Definition set_upstream (v : list (bytes + str)) (s : SignalStreamState) : SignalStreamState :=
  mk_SignalStreamState v (sss_parser s) (pending s) (terminal_outcome s) (envelope_count s) (tool_call_starts s)
    (tool_call_completions s) (tool_call_failures s) (last_usage s) (final_status s) (summaries s).
Definition set_parser (v : StreamParser) (s : SignalStreamState) : SignalStreamState :=
  mk_SignalStreamState (upstream s) v (pending s) (terminal_outcome s) (envelope_count s) (tool_call_starts s)
    (tool_call_completions s) (tool_call_failures s) (last_usage s) (final_status s) (summaries s).
Definition set_pending (v : list RuntimeEnvelope) (s : SignalStreamState) : SignalStreamState :=
  mk_SignalStreamState (upstream s) (sss_parser s) v (terminal_outcome s) (envelope_count s) (tool_call_starts s)
    (tool_call_completions s) (tool_call_failures s) (last_usage s) (final_status s) (summaries s).
Definition set_terminal_outcome (v : str) (s : SignalStreamState) : SignalStreamState :=
  mk_SignalStreamState (upstream s) (sss_parser s) (pending s) (Some v) (envelope_count s) (tool_call_starts s)
    (tool_call_completions s) (tool_call_failures s) (last_usage s) (final_status s) (summaries s).
Definition set_counts (count starts completions failures : N) (usage : option TokenUsageEnvelope) (status : option str)
    (s : SignalStreamState) : SignalStreamState :=
  mk_SignalStreamState (upstream s) (sss_parser s) (pending s) (terminal_outcome s) count starts completions failures usage
    status (summaries s).
Definition set_summaries (v : list StreamSummary) (s : SignalStreamState) : SignalStreamState :=
  mk_SignalStreamState (upstream s) (sss_parser s) (pending s) (terminal_outcome s) (envelope_count s) (tool_call_starts s)
    (tool_call_completions s) (tool_call_failures s) (last_usage s) (final_status s) v.

Definition observe_envelope (e : RuntimeEnvelope) (s : SignalStreamState) : SignalStreamState :=
  let n := wrap_add u64_max (envelope_count s) 1 in
  let a := tool_call_starts s in let b := tool_call_completions s in let c := tool_call_failures s in
  match env_signal e with
  | ToolCallStarted _ _ _ _ _ => set_counts n (wrap_add u64_max a 1) b c (last_usage s) (final_status s) s
  | ToolCallCompleted _ _ _ _ _ _ _ => set_counts n a (wrap_add u64_max b 1) c (last_usage s) (final_status s) s
  | ToolCallFailed _ _ _ _ _ _ _ => set_counts n a b (wrap_add u64_max c 1) (last_usage s) (final_status s) s
  | UsageUpdated usage => set_counts n a b c (Some usage) (final_status s) s
  | PulseEnd status usage _ => set_counts n a b c (match usage with Some u => Some u | None => last_usage s end) (Some status) s
  | SError code _ _ => set_counts n a b c (last_usage s) (Some (t!"error:" ++ code)) s
  | _ => set_counts n a b c (last_usage s) (final_status s) s
  end.

Definition summary_of_stream (outcome : str) (s : SignalStreamState) : StreamSummary :=
  mk_StreamSummary outcome (envelope_count s) (tool_call_starts s) (tool_call_completions s) (tool_call_failures s)
    (default t!"unknown" (final_status s)) (last_usage s).
Definition emit_stream_summary (outcome : str) (s : SignalStreamState) : SignalStreamState :=
  match summaries s with [] => set_summaries [summary_of_stream outcome s] s | _ => s end.

Inductive StreamItem : Type := Item (e : RuntimeEnvelope) | StreamEnd | StreamFails (e : StreamError).

Section stream.
Context {clk : Clock} {ord : HashOrder} {js : SerdeJson} {dec : BlockDecoder} {frd : FrameDecoders}.

Definition finalize_pending_signals : PST SignalStreamState (option RuntimeEnvelope) := fun s =>
  match finish (sss_parser s) with
  | Panics => Panics
  | Returns (es, p) =>
      match pending s ++ es with
      | [] => Returns (None, set_pending [] (set_parser p s))
      | e :: r => Returns (Some e, set_pending r (set_parser p s))
      end
  end.
Definition finish_stream (outcome_ : str) : PST SignalStreamState StreamItem := fun s =>
  match finalize_pending_signals (set_terminal_outcome outcome_ s) with
  | Panics => Panics
  | Returns (Some e, s) => Returns (Item e, observe_envelope e s)
  | Returns (None, s) => Returns (StreamEnd, emit_stream_summary outcome_ s)
  end.

(** A chunk that was read: what comes of it waits, and what ends the stream when the protocol did. *)
Definition take_chunk (chunk : bytes) : PST SignalStreamState bool := fun s =>
  match process chunk (sss_parser s) with
  | Panics => Panics
  | Returns (None, p) => Returns (false, set_parser p s)
  | Returns (Some es, p) =>
      if protocol_stream_terminated p then
        match finish p with
        | Panics => Panics
        | Returns (more, p) =>
            Returns (true, set_terminal_outcome t!"protocol_done" (set_pending (pending s ++ es ++ more) (set_parser p s)))
        end
      else Returns (true, set_pending (pending s ++ es) (set_parser p s))
  end.

(** [next_stream_item], over what is still to come. *)
Fixpoint next_from (ups : list (bytes + str)) : PST SignalStreamState StreamItem := fun s =>
  match pending s with
  | e :: r => Returns (Item e, observe_envelope e (set_pending r (set_upstream ups s)))
  | [] =>
      match terminal_outcome s with
      | Some outcome_ => Returns (StreamEnd, emit_stream_summary outcome_ (set_upstream ups s))
      | None =>
          match ups with
          | [] => finish_stream t!"stream_closed" (set_upstream [] s)
          | inr message :: ups =>
              Returns (StreamFails (TransportError message), emit_stream_summary t!"transport_error" (set_upstream ups s))
          | inl [] :: ups => next_from ups s
          | inl chunk :: ups =>
              match take_chunk chunk s with
              | Panics => Panics
              | Returns (true, s) => next_from ups s
              | Returns (false, s) => Returns (StreamFails ParseFailed, set_upstream ups s)
              end
          end
      end
  end.
Definition next_stream_item : PST SignalStreamState StreamItem := fun s => next_from (upstream s) s.

(** [open_signal_stream]: the answer of a local server that is no stream, or ends before anything was
    said, is asked for again as a whole. *)
Inductive Opened : Type :=
| Streams (first_frame : option RuntimeEnvelope) (s : SignalStreamState)
| FallsBack (reason : str)
| OpenFails (e : StreamError).
Definition response_is_sse (content_type : option str) : bool :=
  match content_type with Some ct => contains t!"text/event-stream" ct | None => false end.
Definition open_signal_stream {urls : UrlParser} (request_url : str) (content_type : option str)
    (upstream : list (bytes + str)) (task : N) : outcome Opened :=
  let local := is_local_endpoint_url request_url in
  if local && negb (response_is_sse content_type) then Returns (FallsBack t!"non_sse_streaming_response")
  else match next_stream_item (build_signal_stream_state upstream task) with
       | Panics => Panics
       | Returns (StreamFails e, _) => Returns (OpenFails e)
       | Returns (Item e, s) => Returns (Streams (Some e) s)
       | Returns (StreamEnd, s) => Returns (if local then FallsBack t!"no_initial_sse_frame" else Streams None s)
       end.

(** [stream::try_unfold]: items until the end or an error. *)
Inductive yields : SignalStreamState -> list RuntimeEnvelope -> option StreamError -> SignalStreamState -> Prop :=
| yields_end s s' : next_stream_item s = Returns (StreamEnd, s') -> yields s [] None s'
| yields_error s e s' : next_stream_item s = Returns (StreamFails e, s') -> yields s [] (Some e) s'
| yields_item s e s1 es end_ s' :
    next_stream_item s = Returns (Item e, s1) -> yields s1 es end_ s' -> yields s (e :: es) end_ s'.

(** ** Answers that are not a stream: non_stream.rs *)
Definition non_stream_payload (payload : value) : value :=
  match payload with Object m => Object (im_insert t!"stream" (Bool false) m) | v => v end.

Definition messages_v1_content_blocks (response : value) : list value :=
  match value_get t!"content" response with
  | Some (Array blocks) => blocks
  | Some (String text) => [Object [(t!"type", String t!"text"); (t!"text", String text)]]
  | _ => []
  end.

Inductive FallbackError : Type := NotJson | ErrorPayload | NoChoicesArray | NoChoices | FrameNotPrinted.
Definition require_chat_compat_choices (response : value) : list value + FallbackError :=
  match value_get t!"choices" response ≫= as_array with
  | None => match value_get t!"error" response with Some _ => inr ErrorPayload | None => inr NoChoicesArray end
  | Some [] => inr NoChoices
  | Some choices => inl choices
  end.

Definition field_or (key : str) (otherwise : value) (v : value) : value := value_or (value_get key v) otherwise.

Definition message_start_frame (response : value) : value :=
  Object [(t!"type", String t!"message_start");
          (t!"message", Object
             [(t!"id", field_or t!"id" (String t!"nonstream-message") response);
              (t!"type", field_or t!"type" (String t!"message") response);
              (t!"role", field_or t!"role" (String t!"assistant") response);
              (t!"model", field_or t!"model" (String t!"unknown") response);
              (t!"content", Array (messages_v1_content_blocks response));
              (t!"stop_reason", field_or t!"stop_reason" Null response);
              (t!"stop_sequence", field_or t!"stop_sequence" Null response)])].
Definition block_start_frame (index : nat) (block : value) : value :=
  Object [(t!"type", String t!"content_block_start"); (t!"index", Number (PosInt (N.of_nat index))); (t!"content_block", block)].
Definition message_delta_frame (response : value) : value :=
  Object [(t!"type", String t!"message_delta");
          (t!"delta", Object [(t!"stop_reason", field_or t!"stop_reason" Null response);
                              (t!"stop_sequence", field_or t!"stop_sequence" Null response)]);
          (t!"usage", field_or t!"usage" Null response)].
Definition messages_v1_frames (response : value) : list (str * value) :=
  (t!"message_start", message_start_frame response)
  :: imap (fun i block => (t!"content_block_start", block_start_frame i block)) (messages_v1_content_blocks response)
  ++ [(t!"message_delta", message_delta_frame response)].

Definition copy_field (key : str) (from : value) (m : list (str * value)) : list (str * value) :=
  match value_get key from with Some v => im_insert key v m | None => m end.
Definition choice_delta (message : value) : value :=
  let m := copy_field t!"content" message (copy_field t!"role" message []) in
  let m := match value_get t!"reasoning_content" message with
           | Some v => im_insert t!"reasoning_content" v m
           | None => copy_field t!"thinking" message m
           end in
  Object (copy_field t!"tool_calls" message (copy_field t!"refusal" message m)).
(** [Value::as_u64]. *)
Definition as_u64 (v : value) : option N := match v with Number (PosInt n) => Some n | _ => None end.
Definition synthetic_choice (fallback_index : nat) (choice : value) : value :=
  Object [(t!"index", Number (PosInt (default (N.of_nat fallback_index) (value_get t!"index" choice ≫= as_u64))));
          (t!"delta", choice_delta (field_or t!"message" Null choice));
          (t!"finish_reason", field_or t!"finish_reason" Null choice);
          (t!"logprobs", field_or t!"logprobs" Null choice)].
Definition chat_compat_frame (response : value) (choices : list value) : value :=
  Object [(t!"id", field_or t!"id" Null response); (t!"object", field_or t!"object" (String t!"chat.completion") response);
          (t!"created", field_or t!"created" Null response); (t!"model", field_or t!"model" Null response);
          (t!"system_fingerprint", field_or t!"system_fingerprint" Null response);
          (t!"service_tier", field_or t!"service_tier" Null response); (t!"choices", Array (imap synthetic_choice choices));
          (t!"usage", field_or t!"usage" Null response); (t!"prompt_progress", field_or t!"prompt_progress" Null response);
          (t!"timings", field_or t!"timings" Null response)].

(** [inject_synthetic_signal], for every frame; [None]: a frame could not be printed. *)
Fixpoint inject_frames (frames : list (str * value)) : PST StreamParser (option (list RuntimeEnvelope)) :=
  match frames with
  | [] => mret (Some [])
  | (kind, payload) :: r =>
      match json_to_string payload with
      | None => mret None
      | Some text => es ← process_sse_frame kind text; rest ← inject_frames r; mret (app es <$> rest)
      end
  end.
Definition synthetic_frames (protocol : ModelProtocol) (response : value) : list (str * value) + FallbackError :=
  match protocol with
  | MessagesV1 => inl (messages_v1_frames response)
  | ChatCompat =>
      match require_chat_compat_choices response with
      | inl choices => inl [([], chat_compat_frame response choices)]
      | inr e => inr e
      end
  end.
Definition normalize_non_stream_response (protocol : ModelProtocol) (body : str) (task : N)
    : outcome (list RuntimeEnvelope + FallbackError) :=
  match json_from_str body with
  | None => Returns (inr NotJson)
  | Some response =>
      match synthetic_frames protocol response with
      | inr e => Returns (inr e)
      | inl frames =>
          match inject_frames frames (parser_new task) with
          | Panics => Panics
          | Returns (None, _) => Returns (inr FrameNotPrinted)
          | Returns (Some es, p) =>
              match finish p with Panics => Panics | Returns (more, _) => Returns (inl (es ++ more)) end
          end
      end
  end.
End stream.

(** ** Requests that are repeated *)
(** The error of a request: its status, if it got one, and whether it could not connect or took too
    long. *)
Record ReqwestError := mk_ReqwestError { re_status : option N; re_connect : bool; re_timeout : bool }.
Definition should_retry_local_startup_error (e : ReqwestError) : bool :=
  negb (opt_is_some (re_status e)) && (re_connect e || re_timeout e).
(** [backoff] is what the crate of that name says for an attempt: the next delay, unless too much
    time has passed. *)
Definition next_local_connect_retry_delay (backoff : N -> option N) (attempt : N) : option N :=
  match backoff attempt with
  | Some d => Some d
  | None => if attempt =? 1 then Some 100 else None
  end.
(** The answer, and the delays before it; [None]: another attempt is still to be made. *)
Fixpoint retry_from {A} (backoff : N -> option N) (attempt : N) (attempts : list (A + ReqwestError))
    : option ((A + ReqwestError) * list N) :=
  match attempts with
  | [] => None
  | inl a :: _ => Some (inl a, [])
  | inr e :: r =>
      if should_retry_local_startup_error e then
        match next_local_connect_retry_delay backoff attempt with
        | None => Some (inr e, [])
        | Some delay => '(a, delays) ← retry_from backoff (attempt + 1) r; Some (a, delay :: delays)
        end
      else Some (inr e, [])
  end.
Definition retry_local_connect_errors {urls : UrlParser} {A} (request_url : str) (backoff : N -> option N)
    (attempts : list (A + ReqwestError)) : option ((A + ReqwestError) * list N) :=
  if negb (is_local_endpoint_url request_url) then match attempts with [] => None | a :: _ => Some (a, []) end
  else retry_from backoff 1 attempts.

(** [read_error_body]. *)
Definition MAX_ERROR_BODY_BYTES : N := 16384.
Fixpoint error_body (body : bytes) (chunks : list (bytes + str)) : bytes + str :=
  match chunks with
  | [] => inl body
  | inl chunk :: r =>
      let remaining := MAX_ERROR_BODY_BYTES - N.of_nat (length body) in
      if remaining =? 0 then inl body else error_body (body ++ take (N.to_nat remaining) chunk) r
  | inr e :: _ => match body with [] => inr (t!"<failed to read error body: " ++ e ++ t!">") | _ => inl body end
  end.
