(* ===== verification/SignalStreamTheory.v ===== *)
(** What the stream of a request yields: the envelopes of its bytes, however they are cut, and one
    summary that counts them. *)
From Stdlib Require Import NArith ZArith Lia.
From stdpp Require Import base list gmap sets strings numbers.
From S2P Require Import Prelude Text Utf8 Collections Json Usage Evidence DeltaAccumulator TextNormaliser Envelope Normalizer ProtocolIngress StreamParser StreamParserTheory ToolPreview History ToolRules ConversationState ModelRequest SignalStream.
#[local] Open Scope N_scope.

Section theory.
Context {clk : Clock} {ord : HashOrder} {js : SerdeJson} {dec : BlockDecoder} {frd : FrameDecoders}.
Implicit Types (s : SignalStreamState) (p : StreamParser) (es : list RuntimeEnvelope).

(** What the parser makes of the chunks, until the protocol or the server ends the stream. *)
Fixpoint parsed (chunks : list bytes) : PST StreamParser (option (list RuntimeEnvelope)) :=
  match chunks with
  | [] => es ← finish; mret (Some es)
  | c :: r =>
      es ← process c;
      match es with
      | None => mret None
      | Some es =>
          done ← parser_gets protocol_stream_terminated;
          if done : bool then more ← finish; mret (Some (es ++ more)) else rest ← parsed r; mret (app es <$> rest)
      end
  end.

Definition observed es s : SignalStreamState := foldl (fun s e => observe_envelope e s) s es.

(** ** The fields that an operation leaves *)
Lemma observe_pending e v s : observe_envelope e (set_pending v s) = set_pending v (observe_envelope e s).
Proof. by destruct s, e as [? ? ? ? ? ? ? ? ? []]. Qed.
Lemma observe_fields e s :
  upstream (observe_envelope e s) = upstream s /\ sss_parser (observe_envelope e s) = sss_parser s
  /\ pending (observe_envelope e s) = pending s /\ terminal_outcome (observe_envelope e s) = terminal_outcome s
  /\ summaries (observe_envelope e s) = summaries s.
Proof. by destruct s, e as [? ? ? ? ? ? ? ? ? []]. Qed.
Lemma observed_fields es s :
  upstream (observed es s) = upstream s /\ sss_parser (observed es s) = sss_parser s
  /\ pending (observed es s) = pending s /\ terminal_outcome (observed es s) = terminal_outcome s
  /\ summaries (observed es s) = summaries s.
Proof.
  revert s. induction es as [|e es IH]; intros s; [done|].
  change (observed (e :: es) s) with (observed es (observe_envelope e s)).
  destruct (IH (observe_envelope e s)) as (-> & -> & -> & -> & ->). apply observe_fields.
Qed.

(** ** Steps *)
Lemma yields_as s s2 es end_ s' : next_stream_item s = next_stream_item s2 -> yields s2 es end_ s' -> yields s es end_ s'.
Proof. intros E Hy. destruct Hy; [eapply yields_end | eapply yields_error | eapply yields_item]; rewrite ?E; eauto. Qed.

Lemma yields_pending pd s es end_ s' :
  pending s = pd -> yields (observed pd (set_pending [] s)) es end_ s' -> yields s (pd ++ es) end_ s'.
Proof.
  revert s. induction pd as [|e pd IH]; intros s Hp Hy.
  - assert (set_pending [] s = s) as E by (destruct s; cbn in *; by subst). by rewrite E in Hy.
  - cbn [app]. eapply (yields_item _ _ (observe_envelope e (set_pending pd s))).
    + unfold next_stream_item. destruct s as [u pr q o a b c d lu fs sm]. cbn in Hp. subst q. by destruct u as [|[?|?] u].
    + rewrite observe_pending. apply IH; [by destruct s, e as [? ? ? ? ? ? ? ? ? []]|].
      cbn [observed foldl] in Hy. rewrite observe_pending in Hy. by destruct s, e as [? ? ? ? ? ? ? ? ? []].
Qed.

Lemma take_chunk_upstream c v s :
  take_chunk c (set_upstream v s) = (fun '(ok, s1) => (ok, set_upstream v s1)) <$> take_chunk c s.
Proof.
  unfold take_chunk. destruct s as [u pr q o a b d e lu fs sm]. cbn. destruct (process c pr) as [[[es|] p]|]; [|done..].
  destruct (protocol_stream_terminated p); [|done]. by destruct (finish p) as [[more p']|].
Qed.
Lemma next_from_upstream ups v s : next_from ups (set_upstream v s) = next_from ups s.
Proof.
  revert s. induction ups as [|[c|e] ups IH]; intros s; cbn [next_from].
  - by destruct s as [? ? [|? ?] [?|] ? ? ? ? ? ? ?].
  - destruct s as [u pr [|e0 pd] [o|] a b c0 d lu fs sm]; cbn [pending terminal_outcome set_upstream]; try done.
    destruct c as [|x c]; [apply (IH (mk_SignalStreamState u pr [] None a b c0 d lu fs sm))|].
    set (s := mk_SignalStreamState u pr [] None a b c0 d lu fs sm).
    change (mk_SignalStreamState v pr [] None a b c0 d lu fs sm) with (set_upstream v s).
    rewrite take_chunk_upstream. destruct (take_chunk (x :: c) s) as [[[] s1]|]; cbn; [apply IH | by destruct s1 | done].
  - by destruct s as [? ? [|? ?] [?|] ? ? ? ? ? ? ?].
Qed.

Lemma next_chunk c ups s s1 :
  c <> [] -> upstream s = inl c :: ups -> pending s = [] -> terminal_outcome s = None -> take_chunk c s = Returns (true, s1) ->
  next_stream_item s = next_stream_item (set_upstream ups s1).
Proof.
  intros Hc Hu Hp Ht E. unfold next_stream_item at 1. rewrite Hu. cbn [next_from]. rewrite Hp, Ht.
  destruct c as [|x c]; [done|]. rewrite E. unfold next_stream_item. cbn [upstream set_upstream]. by rewrite next_from_upstream.
Qed.

(** ** What is counted *)
Definition counts s := (envelope_count s, tool_call_starts s, tool_call_completions s, tool_call_failures s, last_usage s, final_status s).
Lemma observe_counts e s s2 : counts s = counts s2 -> counts (observe_envelope e s) = counts (observe_envelope e s2).
Proof.
  destruct s as [u pr q o a b c d lu fs sm], s2 as [u2 pr2 q2 o2 a2 b2 c2 d2 lu2 fs2 sm2]. unfold counts. cbn.
  intros [= -> -> -> -> -> ->]. by destruct e as [? ? ? ? ? ? ? ? ? []].
Qed.
Lemma observed_counts es s s2 : counts s = counts s2 -> counts (observed es s) = counts (observed es s2).
Proof.
  revert s s2. induction es as [|e es IH]; intros s s2 Hc; [done|]. apply (IH (observe_envelope e s) (observe_envelope e s2)).
  by apply observe_counts.
Qed.
Lemma summary_counts o s s2 : counts s = counts s2 -> summary_of_stream o s = summary_of_stream o s2.
Proof. unfold counts, summary_of_stream. by intros [= -> -> -> -> -> ->]. Qed.
Lemma observed_app es es2 s : observed (es ++ es2) s = observed es2 (observed es s).
Proof. apply foldl_app. Qed.

(** ** The end *)
Lemma yields_terminal o s : pending s = [] -> terminal_outcome s = Some o -> yields s [] None (emit_stream_summary o s).
Proof.
  intros Hp Ht. apply yields_end. unfold next_stream_item. destruct s as [u pr q o' a b c d lu fs sm]. cbn in Hp, Ht. subst.
  by destruct u as [|[?|?] u].
Qed.

(** The stream ends with what it yielded and one summary. *)
Definition ends_after s es p s' : Prop :=
  yields s es None s' /\ sss_parser s' = p /\ exists o, summaries s' = [summary_of_stream o (observed es s)].

Lemma emit_fields o s : sss_parser (emit_stream_summary o s) = sss_parser s
  /\ (summaries s = [] -> summaries (emit_stream_summary o s) = [summary_of_stream o s]).
Proof. unfold emit_stream_summary. split; [by destruct (summaries s) | by intros ->]. Qed.

(** What waits is yielded, and then the rest. *)
Lemma ends_pending pd s es p :
  pending s = pd -> (exists s', ends_after (observed pd (set_pending [] s)) es p s') -> exists s', ends_after s (pd ++ es) p s'.
Proof.
  intros Hp (s' & Hy & Hps & o & Hs). exists s'. split; [by apply yields_pending|]. split; [done|]. exists o.
  rewrite Hs, observed_app. f_equal. by apply summary_counts, observed_counts, observed_counts.
Qed.
Lemma ends_terminal o s : pending s = [] -> terminal_outcome s = Some o -> summaries s = [] ->
  exists s', ends_after s [] (sss_parser s) s'.
Proof.
  intros Hp Ht Hm. exists (emit_stream_summary o s). destruct (emit_fields o s) as [E1 E2].
  split; [by apply yields_terminal|]. split; [done|]. exists o. by apply E2.
Qed.
Lemma ends_waiting o s : terminal_outcome s = Some o -> summaries s = [] -> exists s', ends_after s (pending s) (sss_parser s) s'.
Proof.
  intros Ht Hm. rewrite <- (app_nil_r (pending s)). apply ends_pending; [done|].
  destruct (observed_fields (pending s) (set_pending [] s)) as (_ & E2 & E3 & E4 & E5).
  assert (sss_parser s = sss_parser (observed (pending s) (set_pending [] s))) as -> by (by rewrite E2).
  apply (ends_terminal o); [by rewrite E3 | by rewrite E4 | by rewrite E5].
Qed.
Lemma ends_after_as s s2 es p : next_stream_item s = next_stream_item s2 -> counts s = counts s2 ->
  (exists s', ends_after s2 es p s') -> exists s', ends_after s es p s'.
Proof.
  intros En Ec (s' & Hy & Hp & o & Hs). exists s'. split; [by eapply yields_as|]. split; [done|]. exists o. rewrite Hs. f_equal.
  by apply summary_counts, observed_counts.
Qed.

(** The stream that was closed. *)
Lemma ends_closed s es p : upstream s = [] -> pending s = [] -> terminal_outcome s = None -> summaries s = [] ->
  finish (sss_parser s) = Returns (es, p) -> exists s', ends_after s es p s'.
Proof.
  intros Hu Hp Ht Hm Hf.
  set (s2 := set_pending es (set_parser p (set_terminal_outcome t!"stream_closed" s))).
  assert (exists s', ends_after s2 es p s') as H2 by exact (ends_waiting t!"stream_closed" s2 eq_refl Hm).
  revert H2. apply ends_after_as; [|done].
  unfold next_stream_item. rewrite Hu. cbn [next_from]. rewrite Hp, Ht. unfold finish_stream, finalize_pending_signals.
  destruct s as [u pr q o a b c d lu fs sm]. cbn in Hu, Hp, Ht, Hm, Hf. subst u q o sm. cbn. rewrite Hf. by destruct es.
Qed.

Lemma parser_gets_run {A} (f : StreamParser -> A) {B} (g : A -> PST StreamParser B) p : (parser_gets f ≫= g) p = g (f p) p.
Proof. done. Qed.

Lemma parsed_ends chunks s es p :
  Forall (fun c => c <> []) chunks -> upstream s = map inl chunks -> pending s = [] -> terminal_outcome s = None -> summaries s = [] ->
  parsed chunks (sss_parser s) = Returns (Some es, p) -> exists s', ends_after s es p s'.
Proof.
  revert s es. induction chunks as [|c chunks IH]; intros s es Hc Hu Hp Ht Hm; cbn [parsed].
  { intros (es' & p' & Hf & [= <- <-])%pst_bind_inv. by apply ends_closed. }
  apply list.Forall_cons in Hc as [Hc Hcs]. intros ([es1|] & p1 & Hpr & H)%pst_bind_inv; [|done].
  rewrite parser_gets_run in H. destruct (protocol_stream_terminated p1) eqn:Eterm.
  - apply pst_bind_inv in H as (more & p2 & Hf & [= <- <-]).
    set (s2 := set_upstream (map inl chunks) (set_terminal_outcome t!"protocol_done" (set_pending (es1 ++ more) (set_parser p2 s)))).
    assert (exists s', ends_after s2 (es1 ++ more) p2 s') as H2 by exact (ends_waiting t!"protocol_done" s2 eq_refl Hm).
    revert H2. apply ends_after_as; [|done]. apply (next_chunk c _ s); [done..|]. unfold take_chunk. by rewrite Hpr, Eterm, Hf, Hp.
  - apply pst_bind_inv in H as ([rest|] & p2 & Hr & [= <- <-]).
    set (s2 := set_upstream (map inl chunks) (set_pending es1 (set_parser p1 s))).
    assert (exists s', ends_after s2 (es1 ++ rest) p2 s') as H2.
    { apply ends_pending; [done|]. destruct (observed_fields es1 (set_pending [] s2)) as (E1 & E2 & E3 & E4 & E5).
      apply IH; [done | by rewrite E1 | by rewrite E3 | by rewrite E4 | by rewrite E5 | by rewrite E2]. }
    revert H2. apply ends_after_as; [|done]. apply (next_chunk c _ s); [done..|]. unfold take_chunk. by rewrite Hpr, Eterm, Hp.
Qed.

(** ** A stream yields one thing *)
Lemma yields_unique s es end_ s' es2 end2 s2 : yields s es end_ s' -> yields s es2 end2 s2 -> es = es2 /\ end_ = end2 /\ s' = s2.
Proof.
  intros H. revert es2 end2 s2. induction H as [s s' E|s e s' E|s e s1 es end_ s' E H IH]; intros es2 end2 s2 H2;
    inversion H2 as [? ? E2|? ? ? E2|? ? ? ? ? ? E2 H3]; subst; rewrite E in E2; try discriminate E2; injection E2; intros; subst;
    try (by split_and!).
  destruct (IH _ _ _ H3) as (-> & -> & ->). done.
Qed.

Definition is_started (e : RuntimeEnvelope) : bool := match env_signal e with ToolCallStarted _ _ _ _ _ => true | _ => false end.
Definition is_finished (e : RuntimeEnvelope) : bool := match env_signal e with ToolCallCompleted _ _ _ _ _ _ _ => true | _ => false end.
Definition is_failed (e : RuntimeEnvelope) : bool := match env_signal e with ToolCallFailed _ _ _ _ _ _ _ => true | _ => false end.
Definition count (f : RuntimeEnvelope -> bool) es : N := N.of_nat (length (List.filter f es)).
Lemma count_cons f e es : count f (e :: es) = (if f e then 1 else 0) + count f es.
Proof. unfold count. cbn. destruct (f e); cbn [length]; lia. Qed.
Lemma count_length f es : count f es <= N.of_nat (length es).
Proof. induction es as [|e es IH]; [done|]. rewrite count_cons. cbn [length]. destruct (f e); lia. Qed.

Lemma observed_count es s :
  envelope_count s + N.of_nat (length es) <= u64_max -> tool_call_starts s + N.of_nat (length es) <= u64_max ->
  tool_call_completions s + N.of_nat (length es) <= u64_max -> tool_call_failures s + N.of_nat (length es) <= u64_max ->
  envelope_count (observed es s) = envelope_count s + N.of_nat (length es)
  /\ tool_call_starts (observed es s) = tool_call_starts s + count is_started es
  /\ tool_call_completions (observed es s) = tool_call_completions s + count is_finished es
  /\ tool_call_failures (observed es s) = tool_call_failures s + count is_failed es.
Proof.
  revert s. induction es as [|e es IH]; intros s; cbn [length]; [unfold count; cbn; lia|].
  intros H1 H2 H3 H4. rewrite !count_cons. change (observed (e :: es) s) with (observed es (observe_envelope e s)).
  assert (envelope_count (observe_envelope e s) = envelope_count s + 1
    /\ tool_call_starts (observe_envelope e s) = tool_call_starts s + (if is_started e then 1 else 0)
    /\ tool_call_completions (observe_envelope e s) = tool_call_completions s + (if is_finished e then 1 else 0)
    /\ tool_call_failures (observe_envelope e s) = tool_call_failures s + (if is_failed e then 1 else 0)) as (E1 & E2 & E3 & E4).
  { clear IH. unfold observe_envelope, is_started, is_finished, is_failed. destruct e as [? ? ? ? ? ? ? ? ? []]; cbn;
      rewrite ?wrap_add_small by lia; lia. }
  destruct (is_started e), (is_finished e), (is_failed e);
    (destruct (IH (observe_envelope e s)) as (-> & -> & -> & ->); [lia..|]); lia.
Qed.

(** A stream that can be read yields what the parser makes of its chunks, one envelope after the
    other and nothing else, until the protocol or the server ends it; then it leaves one summary with
    the number of envelopes and of the calls that started, completed and failed. *)
Theorem stream_yields_parsed task chunks es p :
  Forall (fun c => c <> []) chunks -> parsed chunks (parser_new task) = Returns (Some es, p) -> N.of_nat (length es) <= u64_max ->
  (exists s' summary, yields (build_signal_stream_state (map inl chunks) task) es None s' /\ summaries s' = [summary]
     /\ ss_envelope_count summary = N.of_nat (length es) /\ ss_tool_call_starts summary = count is_started es
     /\ ss_tool_call_completions summary = count is_finished es /\ ss_tool_call_failures summary = count is_failed es)
  /\ forall es' end_ s', yields (build_signal_stream_state (map inl chunks) task) es' end_ s' -> es' = es /\ end_ = None.
Proof.
  intros Hc Hp Hl. set (s := build_signal_stream_state (map inl chunks) task).
  destruct (parsed_ends chunks s es p Hc eq_refl eq_refl eq_refl eq_refl Hp) as (s' & Hy & _ & o & Hs). split.
  - exists s', (summary_of_stream o (observed es s)). split; [done|]. split; [done|].
    unfold summary_of_stream. cbn [ss_envelope_count ss_tool_call_starts ss_tool_call_completions ss_tool_call_failures].
    destruct (observed_count es s) as (-> & -> & -> & ->); [exact Hl..|]. split_and!; apply N.add_0_l.
  - intros es' end_ s2 Hy2. destruct (yields_unique _ _ _ _ _ _ _ Hy Hy2) as (<- & <- & _). done.
Qed.

(** ** However it is cut *)
Lemma finish_blank p rest : finish (set_buffer rest p) = (fun '(es, q) => (es, set_buffer rest q)) <$> finish p.
Proof.
  unfold finish. rewrite !parser_gets_run. destruct p as [b bom o l r m a t]. cbn [set_buffer output_mode].
  destruct m; try done. unfold with_adapter, set_buffer.
  lazy beta iota zeta delta [protocol_adapter next_stream_task set_adapter buffer bom_checked overflowed last_frame_id
    reconnect_delay_ms output_mode].
  destruct a as [a|]; by destruct (finish_protocol_ingress_turn _) as [[es n]|].
Qed.

(** No part of the stream but the whole ends the protocol. *)
Definition ends_last (chunks : list bytes) p : Prop :=
  forall front back es q, chunks = front ++ back -> front <> [] -> back <> [] -> process_all front p = Returns (Some es, q) ->
    protocol_stream_terminated q = false.

Lemma parsed_all chunks p es q more q' :
  process_all chunks p = Returns (Some es, q) -> ends_last chunks p -> finish q = Returns (more, q') ->
  parsed chunks p = Returns (Some (es ++ more), q').
Proof.
  revert p es. induction chunks as [|c chunks IH]; intros p es; cbn [process_all parsed].
  { intros [= <- <-] _ Hf. by rewrite (pst_bind_returns _ _ _ _ _ Hf). }
  intros ([es1|] & p1 & Hc & H)%pst_bind_inv Hl Hf; [|discriminate H].
  apply pst_bind_inv in H as ([rest|] & p2 & Hr & [= <- <-]).
  rewrite (pst_bind_returns _ _ _ _ _ Hc), parser_gets_run.
  assert (chunks <> [] -> protocol_stream_terminated p1 = false) as Hterm.
  { intros Hne. apply (Hl [c] chunks (es1 ++ []) p1); [done..|]. cbn [process_all].
    by rewrite (pst_bind_returns _ _ _ _ _ Hc). }
  destruct (protocol_stream_terminated p1) eqn:E.
  - destruct chunks as [|c' chunks]; [|by discriminate Hterm]. injection Hr as <- <-.
    cbn match. rewrite (pst_bind_returns _ _ _ _ _ Hf). by rewrite app_nil_r.
  - assert (ends_last chunks p1) as Hl'.
    { intros front back es' q2 -> Hne Hb Hq. apply (Hl (c :: front) back (es1 ++ es') q2); [done..|]. cbn [process_all].
      by rewrite (pst_bind_returns _ _ _ _ _ Hc), (pst_bind_returns _ _ _ _ _ Hq). }
    cbn match. rewrite (pst_bind_returns _ _ _ _ _ (IH p1 rest Hr Hl' Hf)). cbn. by rewrite <- app_assoc.
Qed.

(** C7: However the bytes of an answer are cut on their way, through a character, a line ending or the
    mark at its beginning, the stream of the request yields the same envelopes: those of the bytes as
    a whole, and those that end the turn.  The bytes are all in all not more than the buffer holds, no
    chunk is empty, none before the last ends the protocol, and the bytes as a whole are processed and
    the turn is finished without an error or a panic.  For longer answers the cuts can matter. *)
Theorem stream_cuts_irrelevant task chunk chunks es p more p' :
  N.of_nat (length (concat (chunk :: chunks))) <= MAX_SSE_BUFFER_BYTES -> Forall (fun c => c <> []) (chunk :: chunks) ->
  ends_last (chunk :: chunks) (parser_new task) ->
  process (concat (chunk :: chunks)) (parser_new task) = Returns (Some es, p) -> finish p = Returns (more, p') ->
  exists s', yields (build_signal_stream_state (map inl (chunk :: chunks)) task) (es ++ more) None s'.
Proof.
  intros Hl Hc He Hp Hf. destruct (chunks_irrelevant task chunk chunks es p Hl Hp) as (q & Hq & b & -> & _).
  destruct (parsed_ends (chunk :: chunks) (build_signal_stream_state (map inl (chunk :: chunks)) task) (es ++ more) (set_buffer b p'))
    as (s' & Hy & _); [exact Hc | done | done | done | done | | by exists s'].
  apply (parsed_all _ _ _ _ _ _ Hq He). by rewrite finish_blank, Hf.
Qed.
End theory.

(** ** A concrete stream *)
#[local] Existing Instances step_clock map_order empty_codec small_decoder small_frames.
Definition cut_a : bytes := utf8_encode t!"data: {a" ++ [13].
Definition cut_b : bytes := [10; 13; 10] ++ utf8_encode t!"data: {b" ++ [10; 10].

Lemma stream_yields_parsed_witness : exists es s' summary,
  yields (build_signal_stream_state [inl cut_a; inl cut_b] 1) es None s' /\ summaries s' = [summary]
  /\ ss_envelope_count summary = N.of_nat (length es) /\ (0 <? length es)%nat = true.
Proof.
  destruct (parsed [cut_a; cut_b] (parser_new 1)) as [[[es|] p]|] eqn:E; [|vm_compute in E; discriminate E..].
  exists es.
  assert (N.of_nat (length es) <= u64_max /\ (0 <? length es)%nat = true) as [Hl Hpos]
    by (vm_compute in E; injection E as <- _; split; [vm_compute; discriminate | reflexivity]).
  destruct (stream_yields_parsed 1 [cut_a; cut_b] es p) as ((s' & summary & Hy & Hs & Hc & _) & _);
    [repeat constructor; done | exact E | exact Hl |].
  exists s', summary. exact (conj Hy (conj Hs (conj Hc Hpos))).
Defined.

Lemma stream_cuts_irrelevant_witness : exists es more s',
  yields (build_signal_stream_state [inl cut_a; inl cut_b] 1) (es ++ more) None s' /\ (0 <? length es)%nat = true.
Proof.
  destruct (process (concat [cut_a; cut_b]) (parser_new 1)) as [[[es|] p]|] eqn:E; [|vm_compute in E; discriminate E..].
  destruct (finish p) as [[more p']|] eqn:Ef; [|vm_compute in E; injection E as _ <-; vm_compute in Ef; discriminate Ef].
  exists es, more.
  assert ((0 <? length es)%nat = true) as Hpos by (vm_compute in E; injection E as <- _; reflexivity).
  destruct (stream_cuts_irrelevant 1 cut_a [cut_b] es p more p') as (s' & Hy); [vm_compute; discriminate | repeat constructor; done | | exact E | exact Ef |].
  - intros front back es' q Hfb Hf Hb Hq. destruct front as [|x [|y front]]; [done| |].
    + injection Hfb as <- _. vm_compute in Hq. injection Hq as _ <-. vm_compute. reflexivity.
    + injection Hfb as _ _ Hn. symmetry in Hn. apply app_eq_nil in Hn as [_ ->]. done.
  - exact (ex_intro _ s' (conj Hy Hpos)).
Defined.
