(* ===== verification/Policy.v ===== *)
(** What the settings permit: the approval policy of a file (src/runtime/approval.rs), the
    places on disk the program may keep things in (src/disk_policy.rs and
    src/tools/operator/policy.rs), and the sandbox a command is wrapped in (src/runtime/sandbox.rs).

    The variables are a function; the TOML of the policy file is parsed by a parameter; the lines
    on standard error are left out. *)
From Stdlib Require Import NArith ZArith Lia.
From stdpp Require Import base list gmap strings numbers.
From S2P Require Import Prelude Text Validation FileSystem TaskDocument Transcript.
#[local] Open Scope N_scope.

(** ** The approval policy: runtime/approval.rs *)
Module Approval.

Inductive PolicyAction : Type := Allow | Prompt (scope : ApprovalScope) | Deny.
Abbreviation FileApprovalPolicy := (gmap Capability PolicyAction).

(** [PolicyConfig] has this table as its only field. *)
Record CapabilityTable := mk_CapabilityTable {
  t_read_file : option str;
  t_write_file : option str;
  t_apply_patch : option str;
  t_run_command : option str;
  t_mcp_tool : option str;
  t_network : option str;
  t_browser : option str;
}.

(** [toml::from_str::<PolicyConfig>]; a file it refuses is an error. *)
Class PolicyToml := parse_policy_config : str -> option CapabilityTable.

Definition default_rules : FileApprovalPolicy :=
  <[Browser := Prompt Once]> (<[Network := Prompt Once]> (<[McpTool := Prompt Once]>
  (<[RunCommand := Prompt Once]> (<[ApplyPatch := Prompt Once]> (<[WriteFile := Prompt Once]>
  (<[ReadFile := Allow]> ∅)))))).

Definition parse_toml_value (value : str) : option PolicyAction :=
  let v := to_ascii_lowercase (trim value) in
  if bool_decide (v = t!"allow") then Some Allow
  else if bool_decide (v = t!"deny") then Some Deny
  else if bool_decide (v = t!"once") then Some (Prompt Once)
  else if bool_decide (v = t!"task") then Some (Prompt Task)
  else if bool_decide (v = t!"session") then Some (Prompt Session)
  else None.

Definition evaluate (rules : FileApprovalPolicy) (c : Capability) : PolicyAction :=
  unwrap_or (rules !! c) (Prompt Once).

Definition rows (t : CapabilityTable) : list (Capability * option str) :=
  [(ReadFile, t_read_file t); (WriteFile, t_write_file t); (ApplyPatch, t_apply_patch t);
   (RunCommand, t_run_command t); (McpTool, t_mcp_tool t); (Network, t_network t); (Browser, t_browser t)].

Definition apply_row (rules : FileApprovalPolicy) (row : Capability * option str) : FileApprovalPolicy :=
  match row.2 ≫= parse_toml_value with
  | Some action => <[row.1 := action]> rules
  | None => rules
  end.

Definition load_from_file `{PolicyToml} (fs : FileSystem) (p : path) : option FileApprovalPolicy :=
  match read_to_string fs p with
  | inl _ => None
  | inr content =>
      match parse_policy_config content with
      | None => None
      | Some config => Some (fold_left apply_row (rows config) default_rules)
      end
  end.

Definition policy_path (var : str -> option str) : path :=
  components (unwrap_or (var t!"VEX_POLICY_FILE") t!".vex/policy.toml").

Definition load_policy_from_env `{PolicyToml} (var : str -> option str) (fs : FileSystem) : FileApprovalPolicy :=
  let p := policy_path var in
  if exists_ fs p then unwrap_or (load_from_file fs p) default_rules else default_rules.

End Approval.

(** ** The places on disk: disk_policy.rs

    A path is the text it was made of: the checks look at the text. *)
Module DiskPolicy.

Inductive DiskPermission : Type := SearchIndex | TaskStateMap | Forbidden.
Inductive DiskPolicyMode : Type := Off | Warn | Strict.
#[export] Instance DiskPermission_eq_dec : EqDecision DiskPermission.
Proof. solve_decision. Defined.

Definition VEX : str := t!".vex/".
Definition BACKSLASH : char := 92.

(** [text.split(".vex/").nth(1)]. *)
Definition after_vex (text : str) : option str :=
  match split_once VEX text with
  | None => None
  | Some (_, rest) => Some (match split_once VEX rest with Some (piece, _) => piece | None => rest end)
  end.

Definition classify_vex_subpath (text : str) : DiskPermission :=
  match after_vex (replace [BACKSLASH] [SLASH] text) with
  | None => Forbidden
  | Some after =>
      if starts_with t!"index/" after || bool_decide (after = t!"index") then SearchIndex
      else if starts_with t!"state/" after || bool_decide (after = t!"state") then TaskStateMap
      else Forbidden
  end.

Definition is_vex (c : Component) : bool := bool_decide (c = Normal t!".vex").

Definition check_path (text : str) : DiskPermission :=
  if existsb is_vex (components text) then classify_vex_subpath text
  else if contains (t!".vex" ++ [BACKSLASH]) text || contains VEX text then classify_vex_subpath text
  else Forbidden.

Definition enforce (text : str) (mode : DiskPolicyMode) : str + DiskPermission :=
  let permission := check_path text in
  if negb (bool_decide (permission = Forbidden)) then inr permission
  else match mode with
       | Off | Warn => inr permission
       | Strict => inl (t!"forbidden disk access outside .vex/index or .vex/state: " ++ text)
       end.

(** No character that is not ASCII is lowered to a letter of these words. *)
Definition mode_of (val : str) : DiskPolicyMode :=
  let v := to_ascii_lowercase val in
  if bool_decide (v = t!"strict") then Strict else if bool_decide (v = t!"warn") then Warn else Off.

(** [process_policy_override] is the state of the process. *)
Definition resolve_policy_mode (override : option DiskPolicyMode) (var : str -> option str) : DiskPolicyMode :=
  match override with
  | Some mode => mode
  | None => match var t!"VEX_DISK_POLICY" with Some val => mode_of val | None => Off end
  end.

Definition set_process_policy_override (mode : option DiskPolicyMode) : ST (option DiskPolicyMode) unit :=
  st_modify (fun _ => mode).

Definition enforce_runtime (text : str) (override : option DiskPolicyMode) (var : str -> option str)
  : str + DiskPermission := enforce text (resolve_policy_mode override var).

Definition assert_durable_access (text : str) (override : option DiskPolicyMode) (var : str -> option str)
  : str + DiskPermission := enforce text (resolve_policy_mode override var).

End DiskPolicy.

(** ** The sandbox: runtime/sandbox.rs

    The variables, the home directory of the crate dirs, the platform and what a probe's process
    answers are fields of a record.  A working directory is the list of its components, as in
    Validation; the roots of the variables stay the texts they are.  An error is the list of
    its messages, the outermost first. *)
Module Sandbox.

Abbreviation Failure := (list str).

Inductive SandboxKind : Type := KPassthrough | KMacosExec | KContainer | KBubblewrap.
#[export] Instance SandboxKind_eq_dec : EqDecision SandboxKind.
Proof. solve_decision. Defined.

Definition as_str (k : SandboxKind) : str :=
  match k with
  | KPassthrough => t!"passthrough"
  | KMacosExec => t!"macos-exec"
  | KContainer => t!"container"
  | KBubblewrap => t!"bubblewrap"
  end.

Record SandboxConfig := mk_SandboxConfig { sc_kind : SandboxKind; sc_profile : option str; require : bool }.

Inductive Platform : Type := MacOs | Linux | OtherPlatform.

(** How the process of a probe ends: [status.success()] and its text. *)
Inductive ProbeEnd : Type := NotCalled (error : Failure) | Exited (success : bool) (status : str).

Record Host := mk_Host {
  var_os : str -> option str;
  home_dir : option str;
  current_dir : option path;
  disk : FileSystem;
  platform : Platform;
  status_of : str -> list str -> ProbeEnd;
}.

Definition bail_with {A} (message : str) : Failure + A := inl [message].

(** [command.status().context(called)?], then whether it succeeded. *)
Definition probe_status (e : ProbeEnd) (called exited : str) : Failure + unit :=
  match e with
  | NotCalled error => inl (called :: error)
  | Exited true _ => inr tt
  | Exited false status => bail_with (exited ++ status)
  end.

(** ** sandbox-exec *)
Definition line_of (s : str) : str := s ++ [LF].
Definition DEFAULT_MACOS_PROFILE : str :=
  line_of t!"(version 1)" ++ line_of t!"(deny default)" ++ line_of t!"(allow process*)"
  ++ line_of t!"(allow file-read*)" ++ line_of t!"(allow file-write*)" ++ line_of t!"(allow network*)"
  ++ line_of t!"(allow sysctl-read)" ++ line_of t!"(allow mach-lookup)" ++ line_of t!"(allow signal)".

Record MacosSandboxExec := mk_MacosSandboxExec { mac_profile : option str }.

Definition given_profile (m : MacosSandboxExec) : option str :=
  match mac_profile m with
  | Some value => if is_empty (trim value) then None else Some value
  | None => None
  end.

Definition macos_wrap (m : MacosSandboxExec) (req : CommandRequest) : CommandRequest :=
  let options :=
    match given_profile m with
    | Some profile => [t!"-f"; profile]
    | None => [t!"-p"; DEFAULT_MACOS_PROFILE]
    end in
  mk_CommandRequest t!"sandbox-exec" (options ++ cr_program req :: cr_args req) (working_dir req).

Definition macos_probe (h : Host) (m : MacosSandboxExec) : Failure + unit :=
  match platform h with
  | MacOs =>
      match given_profile m with
      | Some profile =>
          if negb (is_file (disk h) (components profile)) then
            bail_with (t!"sandbox profile does not exist: " ++ profile)
          else probe_status (status_of h t!"sandbox-exec" [t!"-p"; t!"(version 1) (allow default)"; t!"/usr/bin/true"])
                 t!"failed to call sandbox-exec probe" t!"sandbox-exec probe exited with status "
      | None => probe_status (status_of h t!"sandbox-exec" [t!"-p"; t!"(version 1) (allow default)"; t!"/usr/bin/true"])
                  t!"failed to call sandbox-exec probe" t!"sandbox-exec probe exited with status "
      end
  | _ => bail_with t!"sandbox-exec is only available on macOS"
  end.

(** ** Containers *)
Record ContainerSandbox := mk_ContainerSandbox { image : str }.
Definition no_image {A} : Failure + A := bail_with t!"container sandbox requires sandbox_profile to name the image".

Definition container_new (text : str) : Failure + ContainerSandbox :=
  if is_empty (trim text) then no_image else inr (mk_ContainerSandbox (trim text)).

Definition working_dir_of (h : Host) (req : CommandRequest) : path :=
  match working_dir req with
  | Some dir => dir
  | None => unwrap_or (current_dir h) [CurDir]
  end.

Definition container_wrap (h : Host) (c : ContainerSandbox) (req : CommandRequest) : Failure + CommandRequest :=
  if is_empty (trim (image c)) then no_image
  else inr (mk_CommandRequest t!"docker"
    ([t!"run"; t!"--rm"; t!"-i"; t!"-w"; t!"/workspace"; t!"-v"; display (working_dir_of h req) ++ t!":/workspace"; image c]
     ++ cr_program req :: cr_args req) None).

Definition container_probe (h : Host) (c : ContainerSandbox) : Failure + unit :=
  if is_empty (trim (image c)) then no_image
  else probe_status (status_of h t!"docker" [t!"run"; t!"--rm"; image c; t!"true"])
         t!"failed to call container probe" t!"container probe exited with status ".

(** ** Bubblewrap *)
Record BubblewrapSandbox := mk_BubblewrapSandbox { extra_args : list str }.
Definition bubblewrap_new (profile : option str) : BubblewrapSandbox :=
  mk_BubblewrapSandbox (split_whitespace (unwrap_or profile [])).

Definition SYSTEM_READ_ONLY_ROOTS : list str := [t!"/usr"; t!"/lib"; t!"/lib64"; t!"/bin"; t!"/sbin"; t!"/etc"].

Definition push_ro_bind_try (p : str) : list str := [t!"--ro-bind-try"; p; p].

(** [path == base || path.starts_with(base)]: equality of paths is that of their components. *)
Definition at_or_below (p base : path) : bool := path_starts_with base p.

Definition maybe_add (h : Host) (wd : path) (candidate : option str) (extra_roots : list str) : list str :=
  match candidate with
  | None => extra_roots
  | Some p =>
      if negb (starts_with [SLASH] p) || negb (is_dir (disk h) (components p)) then extra_roots
      else if at_or_below (components p) wd then extra_roots
      else if existsb (fun root => at_or_below (components p) (components root)) SYSTEM_READ_ONLY_ROOTS then extra_roots
      else if existsb (fun existing => at_or_below (components p) (components existing)) extra_roots then extra_roots
      else extra_roots ++ [p]
  end.

(** [PathBuf::join] of a relative name, on the texts. *)
Definition text_join (base name : str) : str :=
  if is_empty base || ends_with [SLASH] base then base ++ name else base ++ [SLASH] ++ name.

Definition toolchain_dir (h : Host) (name below_home : str) : option str :=
  match var_os h name with
  | Some dir => Some dir
  | None => (fun home => text_join home below_home) <$> home_dir h
  end.

(** The candidates in the order they are tried; [split_paths] cuts PATH at its colons. *)
Definition candidates (h : Host) : list (option str) :=
  [toolchain_dir h t!"CARGO_HOME" t!".cargo"; toolchain_dir h t!"RUSTUP_HOME" t!".rustup"]
  ++ match var_os h t!"PATH" with Some v => map Some (split_on 58 v) | None => [] end.

Definition extra_read_only_bind_roots (h : Host) (wd : path) : list str :=
  fold_left (fun roots candidate => maybe_add h wd candidate roots) (candidates h) [].

Definition fixed_bwrap_args (h : Host) (wd : path) : list str :=
  [t!"--bind"; display wd; display wd; t!"--chdir"; display wd]
  ++ List.flat_map push_ro_bind_try SYSTEM_READ_ONLY_ROOTS
  ++ List.flat_map push_ro_bind_try (extra_read_only_bind_roots h wd)
  ++ [t!"--proc"; t!"/proc"; t!"--dev"; t!"/dev"; t!"--tmpfs"; t!"/tmp"]
  ++ [t!"--unshare-net"].

Definition bubblewrap_wrap (h : Host) (b : BubblewrapSandbox) (req : CommandRequest) : CommandRequest :=
  mk_CommandRequest t!"bwrap"
    (fixed_bwrap_args h (working_dir_of h req) ++ extra_args b ++ [t!"--"] ++ cr_program req :: cr_args req) None.

Definition bubblewrap_probe (h : Host) : Failure + unit :=
  match platform h with
  | Linux =>
      probe_status (status_of h t!"bwrap"
        [t!"--ro-bind"; t!"/usr"; t!"/usr"; t!"--proc"; t!"/proc"; t!"--dev"; t!"/dev"; t!"--tmpfs"; t!"/tmp";
         t!"--unshare-net"; t!"--"; t!"true"])
        t!"failed to call bwrap probe" t!"bwrap probe exited with status "
  | _ => bail_with t!"bubblewrap (bwrap) is only available on Linux"
  end.

(** ** The driver that is chosen *)
Inductive ConfiguredSandbox : Type :=
| SPassthrough
| SMacosExec (driver : MacosSandboxExec)
| SContainer (driver : ContainerSandbox)
| SBubblewrap (driver : BubblewrapSandbox).

Definition kind (s : ConfiguredSandbox) : SandboxKind :=
  match s with
  | SPassthrough => KPassthrough
  | SMacosExec _ => KMacosExec
  | SContainer _ => KContainer
  | SBubblewrap _ => KBubblewrap
  end.

Definition wrap (h : Host) (s : ConfiguredSandbox) (req : CommandRequest) : Failure + CommandRequest :=
  match s with
  | SPassthrough => inr req
  | SMacosExec m => inr (macos_wrap m req)
  | SContainer c => container_wrap h c req
  | SBubblewrap b => inr (bubblewrap_wrap h b req)
  end.

Definition probe (h : Host) (s : ConfiguredSandbox) : Failure + unit :=
  match s with
  | SPassthrough => inr tt
  | SMacosExec m => macos_probe h m
  | SContainer c => container_probe h c
  | SBubblewrap _ => bubblewrap_probe h
  end.

Definition preferred (config : SandboxConfig) : Failure + ConfiguredSandbox :=
  match sc_kind config with
  | KPassthrough => inr SPassthrough
  | KMacosExec => inr (SMacosExec (mk_MacosSandboxExec (sc_profile config)))
  | KContainer =>
      match container_new (unwrap_or (sc_profile config) []) with
      | inr c => inr (SContainer c)
      | inl error => inl error
      end
  | KBubblewrap => inr (SBubblewrap (bubblewrap_new (sc_profile config)))
  end.

Definition unavailable (k : SandboxKind) (error : Failure) : str :=
  t!"[sandbox] " ++ as_str k ++ t!" unavailable"
  ++ match k with
     | KMacosExec => t!" (sandbox-exec is deprecated on modern macOS releases)"
     | KBubblewrap => t!" (bwrap not found or not usable on this platform)"
     | _ => []
     end
  ++ t!": " ++ unwrap_or (head error) [] ++ t!"; falling back to passthrough".

Definition resolve_configured_sandbox (h : Host) (config : SandboxConfig) : Failure + (ConfiguredSandbox * option str) :=
  if require config && bool_decide (sc_kind config = KPassthrough) then
    bail_with t!"sandbox_require=true requires a non-passthrough sandbox driver"
  else
    match preferred config with
    | inl error => inl error
    | inr s =>
        match probe h s with
        | inr _ => inr (s, None)
        | inl error =>
            if require config then
              inl ((t!"sandbox '" ++ as_str (sc_kind config) ++ t!"' is required and no fallback is allowed") :: error)
            else inr (SPassthrough, Some (unavailable (sc_kind config) error))
        end
    end.

End Sandbox.
