(* ===== verification/PolicyTheory.v ===== *)
(** What the policies promise: the rules a policy file leaves, the places on disk the strict mode
    lets through, the sandbox that is required, and what bubblewrap is told to mount. *)
From Stdlib Require Import NArith ZArith Lia.
From stdpp Require Import base list gmap strings numbers.
From S2P Require Import Prelude Text Utf8 TaskDocument Validation FileSystem Policy.
#[local] Open Scope N_scope.

(** ** The approval policy *)
Section approval.
Import Approval.

Definition column (t : CapabilityTable) (c : Capability) : option str :=
  match c with
  | ReadFile => t_read_file t
  | WriteFile => t_write_file t
  | ApplyPatch => t_apply_patch t
  | RunCommand => t_run_command t
  | McpTool => t_mcp_tool t
  | Network => t_network t
  | Browser => t_browser t
  end.

Definition default_action (c : Capability) : PolicyAction :=
  match c with ReadFile => Allow | _ => Prompt Once end.

Lemma apply_row_lookup rules k v c :
  apply_row rules (k, v) !! c
  = match (if decide (k = c) then v ≫= parse_toml_value else None) with
    | Some a => Some a
    | None => rules !! c
    end.
Proof.
  unfold apply_row. cbn [fst snd]. destruct (v ≫= parse_toml_value) as [a|]; [|by case_decide].
  case_decide as E; [subst; by rewrite lookup_insert_eq | by rewrite lookup_insert_ne].
Qed.

Lemma table_rules t c :
  evaluate (fold_left apply_row (rows t) default_rules) c
  = unwrap_or (column t c ≫= parse_toml_value) (default_action c).
Proof.
  unfold rows, evaluate. cbn [fold_left]. rewrite !apply_row_lookup.
  destruct c; cbn [column default_action]; repeat case_decide; try done.
  all: by match goal with |- context [?v ≫= parse_toml_value] => destruct (v ≫= parse_toml_value) end.
Qed.

Lemma default_evaluate c : evaluate default_rules c = default_action c.
Proof. by destruct c. Qed.

Context `{PolicyToml} (var : str -> option str) (fs : FileSystem).

(** What the policy in force says of each capability: the value the file has for it, if the file
    can be read and the value is one of the five words, and the default otherwise. *)
Theorem policy_rules c :
  evaluate (load_policy_from_env var fs) c
  = match read_to_string fs (policy_path var) with
    | inl _ => default_action c
    | inr content =>
        match parse_policy_config content with
        | Some t => unwrap_or (column t c ≫= parse_toml_value) (default_action c)
        | None => default_action c
        end
    end.
Proof.
  unfold load_policy_from_env, load_from_file. destruct (exists_ fs (policy_path var)) eqn:E.
  - destruct (read_to_string _ _) as [|content]; cbn [unwrap_or]; [by rewrite default_evaluate|].
    destruct (parse_policy_config content); cbn [unwrap_or]; [by rewrite table_rules | by rewrite default_evaluate].
  - rewrite default_evaluate. revert E. unfold exists_, read_to_string. by destruct (lookup_path _ _).
Qed.

Lemma parse_allow v : parse_toml_value v = Some Allow <-> to_ascii_lowercase (trim v) = t!"allow".
Proof. unfold parse_toml_value. repeat case_bool_decide; split; try done; congruence. Qed.
End approval.

(** ** The places on disk *)
Lemma split_once_Some p s a b : split_once p s = Some (a, b) -> s = a ++ p ++ b.
Proof.
  unfold split_once. destruct (find_str p s) as [i|] eqn:E; [|done]. intros [= <- <-].
  destruct (find_str_Some _ _ _ E) as (r & Hs & Hd).
  by rewrite <- (drop_drop s), Hd, drop_app_length.
Qed.

(** The last piece of a text ends as the text does. *)
Lemma split_on_last c a b : c ∉ b -> exists ps y, split_on c (a ++ b) = ps ++ [y ++ b].
Proof.
  intros Hb. induction a as [|x a (ps & y & IH)]; cbn [app split_on].
  - exists [], []. by rewrite split_on_no.
  - rewrite IH. destruct (x =? c); [by exists ([] :: ps), y|].
    destruct ps as [|p ps]; [by exists [], (x :: y) | by exists ((x :: p) :: ps), y].
Qed.

Section places.
Import DiskPolicy.

(** The text after [.vex/] begins with the name of one of the two directories; it may be
    followed by [.vex/] as well as by a separator. *)
Definition begins_with (name rest : str) : Prop :=
  exists seg post, (seg = name \/ seg = name ++ t!".vex") /\ rest = seg ++ post /\ (post = [] \/ exists q, post = SLASH :: q).

Definition directory_of (p : DiskPermission) : option str :=
  match p with SearchIndex => Some t!"index" | TaskStateMap => Some t!"state" | Forbidden => None end.

Lemma after_begins name text after :
  after_vex text = Some after -> starts_with (name ++ t!"/") after = true \/ after = name ->
  exists before rest, text = before ++ VEX ++ rest /\ begins_with name rest.
Proof.
  unfold after_vex. destruct (split_once VEX text) as [[before rest]|] eqn:E; [|done].
  apply split_once_Some in E. intros [= Ha] Hn. exists before, rest. split; [done|]. clear E.
  destruct (split_once VEX rest) as [[piece more]|] eqn:E2; subst after.
  - apply split_once_Some in E2 as ->. destruct Hn as [(r & ->)%starts_with_spec | ->].
    + exists name, (SLASH :: r ++ VEX ++ more). rewrite <- !app_assoc. split_and!; eauto.
    + exists (name ++ t!".vex"), (SLASH :: more). rewrite <- !app_assoc. split_and!; eauto.
  - destruct Hn as [(r & ->)%starts_with_spec | ->].
    + exists name, (SLASH :: r). rewrite <- !app_assoc. split_and!; eauto.
    + exists name, []. rewrite app_nil_r. auto.
Qed.

Lemma no_backslash text : BACKSLASH ∉ text -> replace [BACKSLASH] [SLASH] text = text.
Proof.
  rewrite replace_char. intros H. rewrite <- (map_id text) at 2. apply map_ext_in.
  intros x Hx%list_elem_of_In. destruct (N.eqb_spec x BACKSLASH) as [->|]; [done|done].
Qed.

Lemma classify_begins text p name :
  classify_vex_subpath text = p -> directory_of p = Some name ->
  exists before rest, replace [BACKSLASH] [SLASH] text = before ++ VEX ++ rest /\ begins_with name rest.
Proof.
  unfold classify_vex_subpath. destruct (after_vex _) as [after|] eqn:E; [|by intros <-].
  intros <-. destruct (starts_with t!"index/" after || bool_decide (after = t!"index")) eqn:E1.
  - intros [= <-]. apply (after_begins _ _ _ E). apply orb_true_iff in E1 as [E1 | E1%bool_decide_eq_true]; auto.
  - destruct (starts_with t!"state/" after || bool_decide (after = t!"state")) eqn:E2; [|done].
    intros [= <-]. apply (after_begins _ _ _ E). apply orb_true_iff in E2 as [E2 | E2%bool_decide_eq_true]; auto.
Qed.

(** The search for a component is not needed: a path with a component [.vex] that has no text
    [.vex/] ends there, and is refused like every other. *)
Lemma check_path_classifies text :
  check_path text <> Forbidden -> check_path text = classify_vex_subpath text.
Proof. unfold check_path. destruct (existsb is_vex _); [done|]. by destruct (contains _ _ || contains _ _). Qed.

Lemma components_of_dirs before seg post :
  SLASH ∉ seg -> seg <> [] -> seg <> [DOT] -> seg <> [DOT; DOT] -> post = [] \/ (exists q, post = SLASH :: q) ->
  exists pre y rest, components (before ++ VEX ++ seg ++ post) = pre ++ Normal (y ++ t!".vex") :: Normal seg :: rest.
Proof.
  intros Hs H1 H2 H3 Hp. unfold components.
  generalize (if starts_with [SLASH] (before ++ VEX ++ seg ++ post) then [RootDir]
    else match split_on SLASH (before ++ VEX ++ seg ++ post) with
         | p :: _ => if bool_decide (p = [DOT]) then [CurDir] else [] | [] => [] end) as root. intros root.
  assert (before ++ VEX ++ seg ++ post = (before ++ t!".vex") ++ SLASH :: (seg ++ post)) as -> by by rewrite <- app_assoc.
  rewrite split_on_app, List.flat_map_app.
  destruct (split_on_last SLASH before t!".vex") as (ps & y & ->); [by apply (bool_decide_unpack _)|].
  rewrite List.flat_map_app. cbn [List.flat_map].
  assert (component_of (y ++ t!".vex") = [Normal (y ++ t!".vex")]) as ->.
  { unfold component_of.
    rewrite !bool_decide_eq_false_2; [done|..]; intros E%(f_equal length); rewrite length_app in E; cbn in E; lia. }
  assert (exists pieces, split_on SLASH (seg ++ post) = seg :: pieces) as (pieces & ->).
  { destruct Hp as [-> | (q & ->)]; [rewrite app_nil_r, split_on_no by done; eauto|].
    rewrite split_on_line by done. eauto. }
  cbn [List.flat_map]. assert (component_of seg = [Normal seg]) as -> by (unfold component_of; by rewrite !bool_decide_eq_false_2).
  exists (root ++ List.flat_map component_of ps), y, (List.flat_map component_of pieces).
  by rewrite <- !app_assoc.
Qed.

(** What the strict mode lets through.  A text without backslashes that is accepted in strict
    mode has as components a name that ends in [.vex] and, next to it, the name of the directory the
    permission stands for, or that name followed by [.vex]. *)
Theorem strict_confined text p :
  BACKSLASH ∉ text -> enforce text Strict = inr p ->
  exists name pre y seg post, directory_of p = Some name
    /\ components text = pre ++ Normal (y ++ t!".vex") :: Normal seg :: post
    /\ (seg = name \/ seg = name ++ t!".vex").
Proof.
  intros Hb. unfold enforce. case_bool_decide as Hf; [done|]. cbn [negb]. intros [= <-].
  rewrite check_path_classifies in Hf |- * by done.
  destruct (directory_of (classify_vex_subpath text)) as [name|] eqn:Hd;
    [|by destruct (classify_vex_subpath text)].
  destruct (classify_begins _ _ _ eq_refl Hd) as (before & rest & Ht & seg & post & Hseg & -> & Hpost).
  rewrite no_backslash in Ht by done. rewrite Ht.
  destruct (components_of_dirs before seg post) as (pre & y & more & ->); [| | | |done|by exists name, pre, y, seg, more].
  all: destruct (classify_vex_subpath text); try done; injection Hd as <-; destruct Hseg as [-> | ->]; try done.
  all: by apply (bool_decide_unpack _).
Qed.

Lemma strict_confined_witness :
  exists name pre y seg post, directory_of TaskStateMap = Some name
    /\ components t!"/repo/.vex/state/task-001.json" = pre ++ Normal (y ++ t!".vex") :: Normal seg :: post
    /\ (seg = name \/ seg = name ++ t!".vex").
Proof. apply (strict_confined t!"/repo/.vex/state/task-001.json"); [by apply (bool_decide_unpack _) | reflexivity]. Defined.

(** What it does not keep out: what leaves the directory again, and a directory [index.vex]. *)
Example strict_lets_out : enforce t!".vex/index/../../src/main.rs" Strict = inr SearchIndex.
Proof. reflexivity. Qed.
Example strict_lets_in : enforce t!"/repo/.vex/index.vex/keys" Strict = inr SearchIndex.
Proof. reflexivity. Qed.
End places.

(** ** The sandbox that is chosen *)
Import Sandbox.

Lemma trim_idem s : trim (trim s) = trim s.
Proof. exact (trim_solid s). Qed.

Lemma preferred_kind config s : preferred config = inr s -> kind s = sc_kind config.
Proof.
  unfold preferred. destruct (sc_kind config); try (by intros [= <-]).
  destruct (container_new _); [done|]. by intros [= <-].
Qed.

(** What a driver puts before the command and where it runs it. *)
Definition launcher (s : ConfiguredSandbox) : option str :=
  match s with
  | SPassthrough => None
  | SMacosExec _ => Some t!"sandbox-exec"
  | SContainer _ => Some t!"docker"
  | SBubblewrap _ => Some t!"bwrap"
  end.

Lemma wrap_launches h config s dir : preferred config = inr s -> sc_kind config <> KPassthrough ->
  exists l options dir', launcher s = Some l /\ forall program args,
    wrap h s (mk_CommandRequest program args dir) = inr (mk_CommandRequest l (options ++ program :: args) dir').
Proof.
  unfold preferred. destruct (sc_kind config); [done|..].
  - intros [= <-] _. set (m := mk_MacosSandboxExec _).
    exists t!"sandbox-exec", (match given_profile m with Some p => [t!"-f"; p] | None => [t!"-p"; DEFAULT_MACOS_PROFILE] end), dir.
    done.
  - unfold container_new. destruct (is_empty _) eqn:E; [done|]. intros [= <-] _.
    set (c := mk_ContainerSandbox _).
    exists t!"docker", [t!"run"; t!"--rm"; t!"-i"; t!"-w"; t!"/workspace"; t!"-v";
      display (working_dir_of h (mk_CommandRequest [] [] dir)) ++ t!":/workspace"; image c], None.
    split; [done|]. intros program args. unfold wrap, container_wrap, c. cbn [image]. by rewrite trim_idem, E.
  - intros [= <-] _. set (b := bubblewrap_new _).
    exists t!"bwrap", (fixed_bwrap_args h (working_dir_of h (mk_CommandRequest [] [] dir)) ++ extra_args b ++ [t!"--"]), None.
    split; [done|]. intros program args. unfold wrap, bubblewrap_wrap, working_dir_of. cbn [working_dir cr_program cr_args].
    by rewrite !app_assoc_reverse.
Qed.

(** What the choice of a sandbox comes to: the configured driver when its probe succeeds; none,
    with a notice, when the probe fails and none is required; an error when one is required and
    none is configured, or when a container has no image. *)
Lemma sandbox_resolved h config :
  match resolve_configured_sandbox h config with
  | inr (s, None) => preferred config = inr s /\ probe h s = inr tt
                     /\ (require config = true -> sc_kind config <> KPassthrough)
  | inr (s, Some notice) => require config = false /\ s = SPassthrough /\ exists p e,
      preferred config = inr p /\ probe h p = inl e /\ notice = unavailable (sc_kind config) e
  | inl _ => require config = true \/ sc_kind config = KContainer /\ trim (unwrap_or (sc_profile config) []) = []
  end.
Proof.
  unfold resolve_configured_sandbox. destruct (require config) eqn:Hr; cbn [andb];
    [case_bool_decide as Hk; [by left|]|]; destruct (preferred config) as [e|s] eqn:Hp; try by left.
  - destruct (probe h s) as [e|[]] eqn:E; [by left | done].
  - right. revert Hp. unfold preferred, container_new. destruct (sc_kind config); try done.
    destruct (trim (unwrap_or _ _)); [done|]. done.
  - destruct (probe h s) as [e|[]] eqn:E; [|done]. split; [done|]. split; [done|]. by exists s, e.
Qed.

(** C20: a sandbox that is required is kept.  If a configuration that requires a sandbox yields a
    driver, the driver is of the configured kind, its probe succeeded, nothing was replaced, and
    every command it wraps is started by the launcher of that kind with the program and its
    arguments last and unchanged behind options that do not depend on them. *)
Theorem required_sandbox_kept h config s notice dir :
  require config = true -> resolve_configured_sandbox h config = inr (s, notice) ->
  notice = None /\ kind s = sc_kind config /\ probe h s = inr tt
  /\ exists l options dir', launcher s = Some l /\ forall program args,
       wrap h s (mk_CommandRequest program args dir) = inr (mk_CommandRequest l (options ++ program :: args) dir').
Proof.
  intros Hr E. pose proof (sandbox_resolved h config) as H. rewrite E in H. destruct notice as [n|].
  - destruct H as (H & _). congruence.
  - destruct H as (Hp & Hok & Hk). split_and!; [done|by apply preferred_kind|done|].
    eapply wrap_launches; [exact Hp | auto].
Qed.

Definition plain_disk : FileSystem :=
  mk_FileSystem {[ [t!"home"] := Dir; [t!"home"; t!"u"] := Dir; [t!"home"; t!"u"; t!"proj"] := Dir ]} [] 0.
Definition plain_host (path_var : str) : Host :=
  mk_Host (fun name => if bool_decide (name = t!"PATH") then Some path_var else None) None None plain_disk Linux
    (fun _ _ => Exited true t!"exit status: 0").

Lemma required_sandbox_kept_witness :
  let config := mk_SandboxConfig KBubblewrap None true in
  let s := SBubblewrap (mk_BubblewrapSandbox []) in
  let h := plain_host t!"/bin" in
  @None str = None /\ kind s = sc_kind config /\ probe h s = inr tt
  /\ exists l options dir', launcher s = Some l /\ forall program args,
       wrap h s (mk_CommandRequest program args None) = inr (mk_CommandRequest l (options ++ program :: args) dir').
Proof. intros config s h. apply (required_sandbox_kept h config s None None); reflexivity. Defined.

(** ** What bubblewrap is told to mount *)
Inductive MountKind : Type := Writable | ReadOnly | Fresh.

(** The mounts an argument list asks for, in its order, with the place of each. *)
Fixpoint mounts (args : list str) : list (MountKind * str) :=
  match args with
  | [] => []
  | o :: r =>
      if bool_decide (o = t!"--bind") then match r with _ :: dest :: r' => (Writable, dest) :: mounts r' | _ => [] end
      else if bool_decide (o = t!"--ro-bind-try") then match r with _ :: dest :: r' => (ReadOnly, dest) :: mounts r' | _ => [] end
      else if bool_decide (o = t!"--proc") || bool_decide (o = t!"--dev") || bool_decide (o = t!"--tmpfs") then
        match r with dest :: r' => (Fresh, dest) :: mounts r' | _ => [] end
      else if bool_decide (o = t!"--chdir") then match r with _ :: r' => mounts r' | _ => [] end
      else mounts r
  end.

Definition covers (p : path) (m : MountKind * str) : bool := at_or_below p (components m.2).
(** The last mount at or above a path, which hides the earlier ones. *)
Definition covering (p : path) (ms : list (MountKind * str)) : option (MountKind * str) :=
  list.last (List.filter (covers p) ms).

Lemma mounts_read_only roots rest :
  mounts (List.flat_map push_ro_bind_try roots ++ rest) = map (pair ReadOnly) roots ++ mounts rest.
Proof.
  induction roots as [|r roots IH]; [done|]. cbn [List.flat_map map app]. rewrite <- IH, <- app_assoc. reflexivity.
Qed.

Definition own_places : list str := [t!"/proc"; t!"/dev"; t!"/tmp"].

Lemma mounts_fixed h wd :
  mounts (fixed_bwrap_args h wd)
  = (Writable, display wd) :: map (pair ReadOnly) (SYSTEM_READ_ONLY_ROOTS ++ extra_read_only_bind_roots h wd)
    ++ map (pair Fresh) own_places.
Proof.
  unfold fixed_bwrap_args. rewrite map_app, <- app_assoc. 
  change (mounts ([t!"--bind"; display wd; display wd; t!"--chdir"; display wd] ++ ?r)) with ((Writable, display wd) :: mounts r).
  f_equal. by rewrite !mounts_read_only.
Qed.

(** An absolute path of names. *)
Definition plain_name (s : str) : Prop := s <> [] /\ s <> [DOT] /\ s <> [DOT; DOT] /\ SLASH ∉ s.

Lemma components_names l : Forall plain_name l -> List.flat_map component_of l = map Normal l.
Proof.
  induction 1 as [|x l (H1 & H2 & H3 & _) Hl IH]; [done|].
  cbn [map List.flat_map]. unfold component_of at 1. rewrite !bool_decide_eq_false_2 by done. cbn [app]. by f_equal.
Qed.

Lemma components_display q : Forall plain_name q -> components (display (abs_path q)) = abs_path q.
Proof.
  intros Hq. destruct q as [|s q]; [done|].
  assert (display (abs_path (s :: q)) = SLASH :: join [SLASH] (s :: q)) as ->.
  { unfold display, abs_path. cbn [map]. f_equal. rewrite map_map. by rewrite map_id. }
  unfold components. cbn [split_on]. rewrite N.eqb_refl.
  rewrite split_on_join; [|eapply list.Forall_impl; [exact Hq|]; by intros x (? & ? & ? & ?)|done].
  change (starts_with [SLASH] (SLASH :: join [SLASH] (s :: q))) with true. unfold abs_path. cbn [app]. f_equal.
  exact (components_names _ Hq).
Qed.

(** The roots that are bound read-only besides those of the system: every one is a directory of
    the variables that does not lie in the workspace or in another root, and every directory of
    the variables lies in one of these. *)
Definition offered (h : Host) (p : str) : Prop :=
  Some p ∈ candidates h /\ starts_with [SLASH] p = true /\ is_dir (disk h) (components p) = true.
Definition within (roots : list str) (p : path) : Prop := exists r, r ∈ roots /\ at_or_below p (components r) = true.

Lemma maybe_add_spec h wd c roots p :
  p ∈ maybe_add h wd c roots <->
  p ∈ roots \/ c = Some p /\ starts_with [SLASH] p = true /\ is_dir (disk h) (components p) = true
               /\ at_or_below (components p) wd = false /\ ~ within SYSTEM_READ_ONLY_ROOTS (components p)
               /\ ~ within roots (components p).
Proof.
  unfold maybe_add. destruct c as [q|]; [|by split; [auto | intros [?|[? _]]]].
  assert (forall rs, existsb (fun r => at_or_below (components q) (components r)) rs = true <-> within rs (components q)) as Hw.
  { intros rs. rewrite existsb_exists. unfold within. by setoid_rewrite list_elem_of_In. }
  destruct (starts_with [SLASH] q) eqn:E1; [|split; [auto | intros [?|([= ->] & ? & _)]; [done | congruence]]].
  destruct (is_dir (disk h) (components q)) eqn:E2; [|split; [auto | intros [?|([= ->] & _ & ? & _)]; [done | congruence]]].
  cbn [negb orb].
  destruct (at_or_below (components q) wd) eqn:E3; [split; [auto | intros [?|([= ->] & _ & _ & ? & _)]; [done | congruence]]|].
  destruct (existsb _ SYSTEM_READ_ONLY_ROOTS) eqn:E4; [apply Hw in E4; split; [auto | by intros [?|([= ->] & _ & _ & _ & ? & _)]]|].
  destruct (existsb _ roots) eqn:E5; [apply Hw in E5; split; [auto | by intros [?|([= ->] & _ & _ & _ & _ & ?)]]|].
  rewrite <- not_true_iff_false, Hw in E4, E5. rewrite elem_of_app, list_elem_of_singleton.
  split; [intros [?| ->]; auto 10 | intros [?|([= ->] & _)]; auto].
Qed.

Lemma extra_roots_sound h wd p :
  p ∈ extra_read_only_bind_roots h wd -> offered h p /\ at_or_below (components p) wd = false.
Proof.
  unfold extra_read_only_bind_roots, offered. generalize (candidates h). intros cs.
  assert (forall roots, p ∈ fold_left (fun roots c => maybe_add h wd c roots) cs roots ->
    p ∈ roots \/ (Some p ∈ cs /\ starts_with [SLASH] p = true /\ is_dir (disk h) (components p) = true)
                 /\ at_or_below (components p) wd = false) as Hcs.
  { induction cs as [|c cs IH]; [auto|]. cbn [fold_left]. intros roots [H|H]%IH.
    - apply maybe_add_spec in H as [?|(-> & ? & ? & ? & _)]; [by left | right]. split; [|done]. split; [by left | done].
    - right. destruct H as ((? & ?) & ?). split; [|done]. split; [by right | done]. }
  intros [H|H]%Hcs; [by apply not_elem_of_nil in H | done].
Qed.

Lemma extra_roots_complete h wd p : offered h p ->
  at_or_below (components p) wd = true \/ within SYSTEM_READ_ONLY_ROOTS (components p)
  \/ within (extra_read_only_bind_roots h wd) (components p).
Proof.
  unfold extra_read_only_bind_roots, offered. intros (Hc & Hs & Hd). revert Hc. generalize (candidates h). intros cs.
  assert (forall cs roots q, q ∈ roots -> q ∈ fold_left (fun roots c => maybe_add h wd c roots) cs roots) as Hmono.
  { clear. induction cs as [|c cs IH]; [done|]. cbn [fold_left]. intros roots q Hq. apply IH, maybe_add_spec. by left. }
  generalize (@nil str) as roots. induction cs as [|c cs IH]; intros roots Hc; [by apply not_elem_of_nil in Hc|].
  cbn [fold_left]. apply elem_of_cons in Hc as [<-|Hc]; [|by apply IH].
  destruct (at_or_below (components p) wd) eqn:E; [by left | right].
  destruct (decide (existsb (fun r => at_or_below (components p) (components r)) SYSTEM_READ_ONLY_ROOTS = true)) as [Hb|Hb].
  { left. apply existsb_exists in Hb as (r & Hr%list_elem_of_In & Hb). by exists r. }
  right. destruct (decide (existsb (fun r => at_or_below (components p) (components r)) roots = true)) as [Hb'|Hb'].
  - apply existsb_exists in Hb' as (r & Hr%list_elem_of_In & Hb'). exists r. split; [|done].
    apply Hmono, maybe_add_spec. by left.
  - exists p. split; [|by apply bool_decide_eq_true_2].
    apply Hmono, maybe_add_spec. right. split_and!; try done.
    + intros (r & Hr & Hb2). apply Hb, existsb_exists. exists r. by rewrite <- list_elem_of_In.
    + intros (r & Hr & Hb2). apply Hb', existsb_exists. exists r. by rewrite <- list_elem_of_In.
Qed.

Lemma at_or_below_refl p : at_or_below p p = true.
Proof. by apply bool_decide_eq_true_2. Qed.

Lemma covering_first p m ms :
  covers p m = true -> Forall (fun m' => m'.1 <> m.1) ms ->
  covering p (m :: ms) = Some m <-> Forall (fun m' => covers p m' = false) ms.
Proof.
  unfold covering. intros Hm Hms. cbn [List.filter]. rewrite Hm. split.
  - intros Hl. apply list.Forall_forall. intros m' Hm'. apply not_true_iff_false. intros Hc.
    assert (m' ∈ List.filter (covers p) ms) as Hin by (rewrite list_elem_of_In, filter_In, <- list_elem_of_In; done).
    destruct (List.filter (covers p) ms) as [|x r] eqn:E; [by apply not_elem_of_nil in Hin|].
    assert (m ∈ List.filter (covers p) ms) as Hin2.
    { rewrite E. apply last_Some_elem_of. destruct r; [by injection Hl as -> | done]. }
    rewrite list_elem_of_In, filter_In, <- list_elem_of_In in Hin2. destruct Hin2 as [Hin2 _].
    rewrite list.Forall_forall in Hms. by apply (Hms m Hin2).
  - intros Hall. assert (List.filter (covers p) ms = []) as ->; [|done].
    induction Hall as [|x r Hx Hr IH]; [done|]. cbn [List.filter]. rewrite Hx. apply IH. by inversion Hms.
Qed.

(** What the order of the mounts makes of the workspace.  In the arguments the driver gives
    bubblewrap, the writable bind of the working directory is the last mount at or above it exactly
    when the directory lies neither in a root of the system nor in /proc, /dev or /tmp, and no
    directory of CARGO_HOME, RUSTUP_HOME or PATH lies above it.  Otherwise a later mount hides the
    workspace or makes it read-only. *)
Theorem workspace_writable_iff h q :
  Forall plain_name q ->
  let wd := abs_path q in
  covering wd (mounts (fixed_bwrap_args h wd)) = Some (Writable, display wd)
  <-> ~ within (SYSTEM_READ_ONLY_ROOTS ++ own_places) wd
      /\ (forall p, offered h p -> at_or_below wd (components p) = true -> components p = wd).
Proof.
  intros Hq wd. rewrite mounts_fixed, covering_first.
  2: { unfold covers. cbn [snd]. unfold wd. by rewrite components_display, at_or_below_refl. }
  2: { rewrite list.Forall_app. split; apply list.Forall_forall; by intros m (r & -> & _)%list_elem_of_fmap. }
  assert (forall k roots, Forall (fun m' => covers wd m' = false) (map (pair k) roots) <-> ~ within roots wd) as Hw.
  { intros k roots. rewrite list.Forall_forall. split.
    - intros Hf (r & Hr & Hb). specialize (Hf (k, r)). unfold covers in Hf. cbn in Hf. rewrite Hf in Hb; [done|].
      apply list_elem_of_fmap. by exists r.
    - intros Hn m (r & -> & Hr)%list_elem_of_fmap. unfold covers. cbn. apply not_true_iff_false. intros Hb. apply Hn. by exists r. }
  rewrite list.Forall_app, !Hw. unfold within. setoid_rewrite elem_of_app. split.
  - intros [H1 H2]. split; [naive_solver|]. intros p Hp Hb.
    destruct (extra_roots_complete h wd p Hp) as [Ha | [(r & Hr & Ha) | (r & Hr & Ha)]].
    + unfold at_or_below, path_starts_with in Ha, Hb. apply bool_decide_eq_true in Ha, Hb. by apply (anti_symm prefix).
    + destruct H1. exists r. split; [auto|]. apply bool_decide_eq_true in Ha, Hb. apply bool_decide_eq_true_2. by etrans.
    + destruct H1. exists r. split; [auto|]. apply bool_decide_eq_true in Ha, Hb. apply bool_decide_eq_true_2. by etrans.
  - intros [H1 H2]. split; [|naive_solver]. intros (r & [Hr|Hr] & Hb); [naive_solver|].
    apply extra_roots_sound in Hr as [Ho Hn]. rewrite (H2 r Ho Hb), at_or_below_refl in Hn. done.
Qed.

Lemma workspace_writable_iff_witness :
  let h := plain_host t!"/usr/bin:/home/u" in
  let wd := abs_path [t!"home"; t!"u"; t!"proj"] in
  covering wd (mounts (fixed_bwrap_args h wd)) = Some (Writable, display wd)
  <-> ~ within (SYSTEM_READ_ONLY_ROOTS ++ own_places) wd
      /\ (forall p, offered h p -> at_or_below wd (components p) = true -> components p = wd).
Proof. apply (workspace_writable_iff (plain_host t!"/usr/bin:/home/u") [t!"home"; t!"u"; t!"proj"]). by apply (bool_decide_unpack _). Defined.

(** A home directory on PATH makes the workspace below it read-only. *)
Example home_on_path_hides :
  let wd := abs_path [t!"home"; t!"u"; t!"proj"] in
  covering wd (mounts (fixed_bwrap_args (plain_host t!"/usr/bin:/home/u") wd)) = Some (ReadOnly, t!"/home/u").
Proof. vm_compute. reflexivity. Qed.
