(* ===== verification/BatchMode.v ===== *)
(** The batch mode, which answers one task and reports it line by line: src/batch_mode.rs;
    and the loop of the runtime that drives a mode (Module Loop).

    A line that is the JSON of a record is the record.  The notes are the files of Memory; whether a
    path of them is found is an argument.  The context is what the mode uses of it: it starts a
    pulse, knows the tokens of the last one, and the channel gives what was sent.  Building the
    client, the sandbox, the servers of MCP and the spans of tracing are left out. *)
From Stdlib Require Import NArith ZArith Lia.
From stdpp Require Import base list gmap strings numbers sets.
From S2P Require Import Prelude Text Collections Json Usage Evidence PeerChannel Envelope ToolPreview History FileSystem Workspace TextNormaliser TaskDocument TaskSnapshot ToolRules ConversationState ConversationTurn Memory RuntimeContext.
#[local] Open Scope N_scope.

(** ** The loop that hands a mode the input of a frontend and the updates of the runtime:
    src/runtime/loop.rs, src/runtime/mode.rs and src/runtime/frontend.rs.

    Modes and frontends are classes, as their traits are.  What arrives over the channel before the
    queue is next found empty, and whether the tick for rendering is due, is given for each round;
    sleeping changes nothing and is left out.  A run over a given number of rounds says whether the
    loop was left. *)
Module Loop.
Inductive ScrollTarget : Type := Overlay | Output | Timeline.
Inductive ScrollAction : Type := LineUp | LineDown | PageUp (n : N) | PageDown (n : N) | Home | End.
Inductive InputOccurrence : Type :=
| TextInput (input : str)
| Interrupt
| Scroll (target : ScrollTarget) (action : ScrollAction).

(** [C] is the context the mode acts on. *)
Class RuntimeMode (M C : Type) := {
  on_user_input : str -> M * C -> M * C;
  on_model_update : UiUpdate -> M * C -> M * C;
  on_interrupt : M * C -> M * C;
  is_pulse_in_progress : M -> bool;
}.

Class FrontendAdapter (F M : Type) := {
  poll_user_input : M -> F -> option InputOccurrence * F;
  render : M -> F -> F;
  should_quit : F -> bool;
}.

Section loop.
Context {F M C : Type} `{RuntimeMode M C, FrontendAdapter F M}.

Definition on_frontend_signal (occurrence : InputOccurrence) (s : M * C) : M * C :=
  match occurrence with
  | TextInput input => on_user_input input s
  | Interrupt => on_interrupt s
  | Scroll _ _ => s
  end.

(** A round: the updates that arrive in it and whether the tick is due. *)
Record Round := mk_Round { arrived : list UiUpdate; tick_due : bool }.

Definition apply_updates (us : list UiUpdate) (s : M * C) : M * C :=
  fold_left (fun s u => on_model_update u s) us s.

Definition round (r : Round) (first_render_pending : bool) (f : F) (s : M * C) : bool * F * (M * C) :=
  let '(input, f) := poll_user_input s.1 f in
  let s := match input with Some occurrence => on_frontend_signal occurrence s | None => s end in
  let s := apply_updates (arrived r) s in
  let state_changed := opt_is_some input || match arrived r with [] => false | _ => true end in
  if first_render_pending || state_changed || tick_due r then (false, render s.1 f, s) else (false, f, s).

(** Whether the loop was left within the rounds, with the mode and the context then. *)
Fixpoint run (rounds : list Round) (first_render_pending : bool) (f : F) (s : M * C) : bool * F * (M * C) :=
  if should_quit f then (true, f, s)
  else match rounds with
       | [] => (false, f, s)
       | r :: rounds =>
           let '(first_render_pending, f, s) := round r first_render_pending f s in
           run rounds first_render_pending f s
       end.
End loop.
End Loop.
Export Loop.

Inductive OutputFormat : Type := Jsonl | TextFormat.
Inductive AutoApproveScope : Type := ApproveOnce | ApproveTask.

Record BatchRunOpts := mk_BatchRunOpts {
  opt_max_turns : option N;
  opt_auto_approve : option AutoApproveScope;
  opt_format : OutputFormat;
  (** The identifier of the state that is resumed. *)
  resume_id : option str;
}.
Definition BatchRunOpts_default : BatchRunOpts := mk_BatchRunOpts None None Jsonl None.

Inductive OutputLine : Type :=
| PulseLine (record : TurnEvidenceRecord)
| SummaryLine (record : SummaryRecord)
| TextLine (text : str).

Record BatchResult := mk_BatchResult {
  br_status : TaskStatus;
  br_output_lines : list OutputLine;
  br_turn_count : N;
  br_task_id : str;
}.

Record PendingToolCall := mk_PendingToolCall { pc_name : str; pc_input : value }.

Record BatchMode := mk_BatchMode {
  batch_task_id : str;
  status : TaskStatus;
  turn_in_progress : bool;
  done_ : bool;
  max_turns : option N;
  auto_approve : option AutoApproveScope;
  format : OutputFormat;
  instructions_path : option str;
  current_response : str;
  current_turn : N;
  current_turn_input : str;
  current_turn_changed_files : list str;
  current_turn_text_block_indices : gset N;
  task_changed_files : list str;
  current_turn_command_history : list CommandEvidence;
  current_turn_tokens : PulseTokens.t;
  pending_tool_calls : gmap str PendingToolCall;
  output_lines : list OutputLine;
}.

Definition batch_new (id : str) (opts : BatchRunOpts) (instructions : option str) : BatchMode :=
  mk_BatchMode id TReady false false (opt_max_turns opts) (opt_auto_approve opts) (opt_format opts) instructions
    [] 0 [] [] ∅ [] [] PulseTokens.default ∅ [].

Definition approval_decision (b : BatchMode) : bool := opt_is_some (auto_approve b).

(** The fields of the turn that is being answered. *)
Definition with_turn (response input : str) (files : list str) (indices : gset N) (commands : list CommandEvidence)
    (tokens : PulseTokens.t) (pending : gmap str PendingToolCall) (b : BatchMode) : BatchMode :=
  mk_BatchMode (batch_task_id b) (status b) (turn_in_progress b) (done_ b) (max_turns b) (auto_approve b) (format b)
    (instructions_path b) response (current_turn b) input files indices (task_changed_files b) commands tokens pending
    (output_lines b).

Definition reset_current_turn_state : BatchMode -> BatchMode := with_turn [] [] [] ∅ [] PulseTokens.default ∅.

Definition set_run (s : TaskStatus) (in_progress is_done : bool) (b : BatchMode) : BatchMode :=
  mk_BatchMode (batch_task_id b) s in_progress is_done (max_turns b) (auto_approve b) (format b)
    (instructions_path b) (current_response b) (current_turn b) (current_turn_input b) (current_turn_changed_files b)
    (current_turn_text_block_indices b) (task_changed_files b) (current_turn_command_history b) (current_turn_tokens b)
    (pending_tool_calls b) (output_lines b).

Definition push_lines (lines : list OutputLine) (b : BatchMode) : BatchMode :=
  mk_BatchMode (batch_task_id b) (status b) (turn_in_progress b) (done_ b) (max_turns b) (auto_approve b) (format b)
    (instructions_path b) (current_response b) (current_turn b) (current_turn_input b) (current_turn_changed_files b)
    (current_turn_text_block_indices b) (task_changed_files b) (current_turn_command_history b) (current_turn_tokens b)
    (pending_tool_calls b) (output_lines b ++ lines).

Definition set_response (response : str) (b : BatchMode) : BatchMode :=
  with_turn response (current_turn_input b) (current_turn_changed_files b) (current_turn_text_block_indices b)
    (current_turn_command_history b) (current_turn_tokens b) (pending_tool_calls b) b.
Definition push_response (text : str) (b : BatchMode) : BatchMode := set_response (current_response b ++ text) b.
Definition set_indices (indices : gset N) (b : BatchMode) : BatchMode :=
  with_turn (current_response b) (current_turn_input b) (current_turn_changed_files b) indices
    (current_turn_command_history b) (current_turn_tokens b) (pending_tool_calls b) b.
Definition set_pending (pending : gmap str PendingToolCall) (b : BatchMode) : BatchMode :=
  with_turn (current_response b) (current_turn_input b) (current_turn_changed_files b) (current_turn_text_block_indices b)
    (current_turn_command_history b) (current_turn_tokens b) pending b.
Definition set_input (input : str) (b : BatchMode) : BatchMode :=
  with_turn (current_response b) input (current_turn_changed_files b) (current_turn_text_block_indices b)
    (current_turn_command_history b) (current_turn_tokens b) (pending_tool_calls b) b.
(** The files and the commands of the turn. *)
Definition set_evidence (files : list str) (commands : list CommandEvidence) (b : BatchMode) : BatchMode :=
  with_turn (current_response b) (current_turn_input b) files (current_turn_text_block_indices b) commands
    (current_turn_tokens b) (pending_tool_calls b) b.

(** [format!] of the status with [{:?}]. *)
Definition status_text (s : TaskStatus) : str :=
  match s with
  | TReady => t!"Ready" | TRunning => t!"Running" | TAwaitingApproval => t!"AwaitingApproval"
  | TCancelling => t!"Cancelling" | TCompleted => t!"Completed" | TFailed => t!"Failed"
  | TCancelled => t!"Cancelled" | TMaxTurnsReached => t!"MaxTurnsReached"
  end.

Definition append_summary (b : BatchMode) : BatchMode :=
  match format b with
  | Jsonl => push_lines [SummaryLine (mk_SummaryRecord true (status_text (status b)) (batch_task_id b) (current_turn b)
                                        (instructions_path b) (task_changed_files b) [])] b
  | TextFormat => b
  end.

Definition mark_max_turns_reached (b : BatchMode) : BatchMode :=
  let b := append_summary (set_run TMaxTurnsReached (turn_in_progress b) (done_ b) b) in
  set_run (status b) false true b.

(** The line of a turn; its number counts from 1. *)
Definition turn_lines (number : N) (tokens : PulseTokens.t) (b : BatchMode) : list OutputLine :=
  match format b with
  | Jsonl => [PulseLine (mk_TurnEvidenceRecord number (current_turn_input b) (current_response b) (instructions_path b)
                           (current_turn_changed_files b) (current_turn_command_history b) tokens)]
  | TextFormat => (if 1 <? number then [TextLine []] else []) ++ [TextLine (current_response b)]
  end.

Definition insert_all (files set : list str) : list str := fold_left (fun set file => set_insert file set) files set.

(** The changed files of the turn are not cleared. *)
Definition finish_turn (tokens : PulseTokens.t) (b : BatchMode) : BatchMode :=
  let number := current_turn b + 1 in
  mk_BatchMode (batch_task_id b) (status b) false (done_ b) (max_turns b) (auto_approve b) (format b)
    (instructions_path b) [] number [] (current_turn_changed_files b) ∅
    (insert_all (current_turn_changed_files b) (task_changed_files b)) [] PulseTokens.default ∅
    (output_lines b ++ turn_lines number tokens b).

(** The end of a run, once its turn is finished. *)
Definition conclude (s : TaskStatus) (b : BatchMode) : BatchMode :=
  if done_ b then b
  else let b := append_summary (set_run s (turn_in_progress b) (done_ b) b) in
       set_run (status b) (turn_in_progress b) true b.

Definition answer_without_model (s : TaskStatus) (input message : str) (b : BatchMode) : BatchMode :=
  let b := reset_current_turn_state b in
  let b := set_response message (set_input input (set_run TRunning true (done_ b) b)) in
  conclude s (finish_turn PulseTokens.default b).
Definition complete_without_model : str -> str -> BatchMode -> BatchMode := answer_without_model TCompleted.
Definition fail_without_model : str -> str -> BatchMode -> BatchMode := answer_without_model TFailed.

(** [clear_notes_file]; the disk is that of the path that is found. *)
Definition clear_notes_file (path_found : bool) : ST NotesDisk (option str) := fun d =>
  if path_found then
    match notes d, sidecar d with
    | NoNotes, NoStore => (None, d)
    | _, _ => clear_store d
    end
  else (None, d).

Definition try_handle_batch_memory_clear (path_found : bool) (input : str) (b : BatchMode)
  : ST NotesDisk (option BatchMode) := fun d =>
  if negb (bool_decide (trim input = t!"/memory clear")) then (None, d)
  else match auto_approve b with
       | None => (Some (fail_without_model input t!"[memory] /memory clear requires --auto-approve in batch mode" b), d)
       | Some _ =>
           match clear_notes_file path_found d with
           | (None, d) => (Some (complete_without_model input t!"[memory: cleared]" b), d)
           | (Some e, d) => (Some (fail_without_model input (t!"[memory] error clearing: " ++ e) b), d)
           end
       end.

Definition note_tool_result (call : PendingToolCall) (is_error : bool) (b : BatchMode) : BatchMode :=
  set_evidence
    (if is_error then current_turn_changed_files b
     else note_changed_files_from_tool_call (current_turn_changed_files b) (pc_name call) (pc_input call))
    (current_turn_command_history b
     ++ match command_evidence_from_tool_result (pc_name call) is_error with Some e => [e] | None => [] end) b.

(** ** The context *)
Class PulseContext (C : Type) := {
  start_pulse : str -> C -> C;
  (** [ctx.session_tokens_rollup().last_pulse()]. *)
  last_pulse_tokens : C -> PulseTokens.t;
}.

(** What the mode acts on: the context, the notes, and the answers it gave to requests. *)
Record BatchContext (C : Type) := mk_BatchContext {
  pulses : C;
  notes_disk : NotesDisk;
  answers : list (ToolApprovalRequest * bool);
}.
Arguments mk_BatchContext {_} _ _ _.
Arguments pulses {_} _.
Arguments notes_disk {_} _.
Arguments answers {_} _.

Section mode.
Context {C : Type} `{PulseContext C} (path_found : bool).

Definition batch_input (input : str) (s : BatchMode * BatchContext C) : BatchMode * BatchContext C :=
  let '(b, c) := s in
  if done_ b then s
  else if match max_turns b with Some max => max <=? current_turn b | None => false end then
    (mark_max_turns_reached b, c)
  else
    match try_handle_batch_memory_clear path_found input b (notes_disk c) with
    | (Some b, d) => (b, mk_BatchContext (pulses c) d (answers c))
    | (None, d) =>
        (set_input input (set_run TRunning true (done_ b) (reset_current_turn_state b)),
         mk_BatchContext (start_pulse input (pulses c)) d (answers c))
    end.

Definition on_block_start (index : N) (block : StreamBlock) (b : BatchMode) : BatchMode :=
  match block with
  | Thinking content _ | FinalText content =>
      push_response content (set_indices ({[index]} ∪ current_turn_text_block_indices b) b)
  | ToolCall id name input _ =>
      set_pending (<[id := mk_PendingToolCall name input]> (pending_tool_calls b)) b
  | ToolResult id _ is_error =>
      match pending_tool_calls b !! id with
      | Some call => note_tool_result call is_error (set_pending (delete id (pending_tool_calls b)) b)
      | None => b
      end
  end.

Definition batch_update (u : UiUpdate) (s : BatchMode * BatchContext C) : BatchMode * BatchContext C :=
  let '(b, c) := s in
  match u with
  | UiStreamDelta text => (push_response text b, c)
  | UiPulseComplete => (conclude TCompleted (finish_turn (last_pulse_tokens (pulses c)) b), c)
  | UiError msg => (conclude TFailed (finish_turn PulseTokens.default (push_response msg b)), c)
  | UiBlockStart index block => (on_block_start index block b, c)
  | UiBlockDelta index delta =>
      (if bool_decide (index ∈ current_turn_text_block_indices b) then push_response delta b else b, c)
  | UiBlockComplete index => (set_indices (current_turn_text_block_indices b ∖ {[index]}) b, c)
  | UiToolApprovalRequest request =>
      (b, mk_BatchContext (pulses c) (notes_disk c) (answers c ++ [(request, approval_decision b)]))
  | _ => (b, c)
  end.

#[export] Instance batch_runtime_mode : RuntimeMode BatchMode (BatchContext C) := {|
  on_user_input := batch_input;
  on_model_update := batch_update;
  on_interrupt s := s;
  is_pulse_in_progress := turn_in_progress;
|}.

(** ** The frontends *)
Definition BatchFrontend : Type := list InputOccurrence.
Definition frontend_new (task : str) : BatchFrontend := [TextInput task].

Definition batch_poll (b : BatchMode) (f : BatchFrontend) : option InputOccurrence * BatchFrontend :=
  if done_ b || turn_in_progress b then (None, f)
  else match f with [] => (None, []) | x :: r => (Some x, r) end.

Record BatchFrontendQuit := mk_BatchFrontendQuit { inner : BatchFrontend; quit_done : bool }.
Definition frontend_quit_new (task : str) : BatchFrontendQuit := mk_BatchFrontendQuit (frontend_new task) false.

Definition note_done (b : BatchMode) (f : BatchFrontendQuit) : BatchFrontendQuit :=
  mk_BatchFrontendQuit (inner f) (quit_done f || done_ b).

#[export] Instance batch_frontend : FrontendAdapter BatchFrontendQuit BatchMode := {|
  poll_user_input b f :=
    let f := note_done b f in
    let '(input, rest) := batch_poll b (inner f) in
    (input, mk_BatchFrontendQuit rest (quit_done f));
  render := note_done;
  should_quit := quit_done;
|}.

(** ** A run *)
(** [while let Some(update) = update_rx.recv().await]: the sender lives in the context, so that
    without an end the loop waits for ever, which is [None]. *)
Fixpoint receive (us : list UiUpdate) (s : BatchMode * BatchContext C) : option (BatchMode * BatchContext C) :=
  match us with
  | [] => None
  | u :: us =>
      let s := batch_update u s in
      if done_ s.1 then Some s else receive us s
  end.

Definition result_of (id : str) (b : BatchMode) : BatchResult :=
  mk_BatchResult (status b) (output_lines b) (current_turn b) id.

Definition uuid_task_id (now : N) : str := t!"batch-" ++ fmt_N now.

(** [received] are the updates the channel gives after the pulse was started. *)
Definition run_batch (task : str) (opts : BatchRunOpts) (instructions : option str) (now : N)
    (received : C -> list UiUpdate) (c : BatchContext C) : option (BatchResult * BatchContext C) :=
  let id := unwrap_or (resume_id opts) (uuid_task_id now) in
  let '(b, c) := batch_input task (batch_new id opts instructions, c) in
  if done_ b then Some (result_of id b, c)
  else match receive (received (pulses c)) (b, c) with
       | Some (b, c) => Some (result_of id b, c)
       | None => None
       end.
End mode.

(** The context of the runtime.  The task that forwards the updates can panic, and then sends no
    more. *)
Section context.
Context {W : Type} `{Surroundings W} `{RuntimeContext.PanicState W} {clock : Clock} {chrono : Chrono}.
Context {js : SerdeJson} {pretty : PrettyJson} {diff : LineDiff} {hash : ContentHash} `{HashOrder}.
Variable s : Settings.
Variable join_error : str.

Definition runtime_pulses : PulseContext (RuntimeContext W) := {|
  start_pulse input c :=
    match run_pulse s join_error input None DefaultPolicy None c with Returns c => c | Panics => c end;
  last_pulse_tokens c := SessionTokens.last_pulse (session_tokens c);
|}.
End context.
