(* ===== verification/BatchTheory.v ===== *)
(** What a batch run reports: its lines in terms of the updates it received, whatever the pace of
    the loop, and that it ends. *)
From Stdlib Require Import NArith ZArith Lia.
From stdpp Require Import base list gmap strings numbers sets.
From S2P Require Import Prelude Text Collections Json Usage Evidence PeerChannel Envelope ToolPreview History FileSystem Workspace TextNormaliser TaskDocument TaskSnapshot ToolRules ConversationState ConversationTurn ConversationTheory Memory RuntimeContext BatchMode.
#[local] Open Scope N_scope.

(** ** What the updates say

    A past is a list of updates, the latest first. *)
Definition is_text_block (b : StreamBlock) : bool :=
  match b with Thinking _ _ | FinalText _ => true | _ => false end.
Definition text_of (b : StreamBlock) : str :=
  match b with Thinking content _ | FinalText content => content | _ => [] end.

Fixpoint block_open (past : list UiUpdate) (index : N) : bool :=
  match past with
  | [] => false
  | UiBlockStart i block :: r => if is_text_block block && (i =? index) then true else block_open r index
  | UiBlockComplete i :: r => if i =? index then false else block_open r index
  | _ :: r => block_open r index
  end.

Fixpoint open_call (past : list UiUpdate) (id : str) : option PendingToolCall :=
  match past with
  | [] => None
  | UiBlockStart _ (ToolCall i name input _) :: r =>
      if str_eqb i id then Some (mk_PendingToolCall name input) else open_call r id
  | UiBlockStart _ (ToolResult i _ _) :: r => if str_eqb i id then None else open_call r id
  | _ :: r => open_call r id
  end.

(** The text of the answer, the calls that got their result, and the requests for approval. *)
Fixpoint answer_text (past us : list UiUpdate) : str :=
  match us with
  | [] => []
  | u :: r =>
      match u with
      | UiStreamDelta text => text
      | UiBlockStart _ block => text_of block
      | UiBlockDelta index delta => if block_open past index then delta else []
      | _ => []
      end ++ answer_text (u :: past) r
  end.

Fixpoint finished_calls (past us : list UiUpdate) : list (PendingToolCall * bool) :=
  match us with
  | [] => []
  | u :: r =>
      match u with
      | UiBlockStart _ (ToolResult id _ is_error) =>
          match open_call past id with Some call => [(call, is_error)] | None => [] end
      | _ => []
      end ++ finished_calls (u :: past) r
  end.

Definition requests (us : list UiUpdate) : list ToolApprovalRequest :=
  omap (fun u => match u with UiToolApprovalRequest r => Some r | _ => None end) us.

Definition files_of (calls : list (PendingToolCall * bool)) (files : list str) : list str :=
  fold_left (fun files '(call, is_error) =>
    if is_error : bool then files else note_changed_files_from_tool_call files (pc_name call) (pc_input call)) calls files.
Definition commands_of (calls : list (PendingToolCall * bool)) : list CommandEvidence :=
  omap (fun '(call, is_error) => command_evidence_from_tool_result (pc_name call) is_error) calls.

Definition is_end (u : UiUpdate) : bool := match u with UiPulseComplete | UiError _ => true | _ => false end.

(** ** The state of a turn *)
Record turn_of (past : list UiUpdate) (b : BatchMode) : Prop := {
  indices_open : forall i, i ∈ current_turn_text_block_indices b <-> block_open past i = true;
  pending_open : forall id, pending_tool_calls b !! id = open_call past id;
}.

(** The fields a turn changes, by what was received. *)
Definition turn_result (text : str) (calls : list (PendingToolCall * bool)) (b b' : BatchMode) : Prop :=
  b' = with_turn (current_response b ++ text) (current_turn_input b) (files_of calls (current_turn_changed_files b))
         (current_turn_text_block_indices b') (current_turn_command_history b ++ commands_of calls)
         (current_turn_tokens b) (pending_tool_calls b') b.

Section runs.
Context {C : Type} `{PulseContext C} (path_found : bool).

Definition run_updates (us : list UiUpdate) (s : BatchMode * BatchContext C) : BatchMode * BatchContext C :=
  fold_left (fun s u => batch_update u s) us s.

Definition with_answers (l : list (ToolApprovalRequest * bool)) (c : BatchContext C) : BatchContext C :=
  mk_BatchContext (pulses c) (notes_disk c) (answers c ++ l).

Lemma with_answers_nil c : with_answers [] c = c.
Proof. destruct c. unfold with_answers. cbn. by rewrite app_nil_r. Qed.

Lemma turn_result_refl b : turn_result [] [] b b.
Proof. destruct b. unfold turn_result, with_turn. cbn. by rewrite !app_nil_r. Qed.

Lemma turn_result_text b text indices pending :
  turn_result text [] b (with_turn (current_response b ++ text) (current_turn_input b) (current_turn_changed_files b) indices
    (current_turn_command_history b) (current_turn_tokens b) pending b).
Proof. unfold turn_result, with_turn. cbn. by rewrite !app_nil_r. Qed.

Lemma turn_result_call b call is_error pending :
  turn_result [] [(call, is_error)] b (note_tool_result call is_error (set_pending pending b)).
Proof.
  unfold turn_result, note_tool_result, files_of, commands_of. cbn. rewrite app_nil_r.
  unfold with_turn, set_evidence, set_pending, with_turn. cbn. by destruct (command_evidence_from_tool_result _ _), is_error.
Qed.

Lemma block_start_step past index block b :
  turn_of past b ->
  let b' := on_block_start index block b in
  turn_of (UiBlockStart index block :: past) b'
  /\ turn_result (text_of block) (finished_calls past [UiBlockStart index block]) b b'.
Proof.
  intros [Hi Hp]. unfold on_block_start. destruct block as [content collapsed|id name input st|id output is_error|content]; cbn [text_of finished_calls app].
  1,4: split; [split; [|done] | exact (turn_result_text b content ({[index]} ∪ current_turn_text_block_indices b) (pending_tool_calls b))].
  1,2: intros i; cbn; rewrite elem_of_union, elem_of_singleton, Hi; destruct (N.eqb_spec index i); cbn; naive_solver.
  - split; [split; [done|] | unfold turn_result, set_pending, with_turn; cbn; by rewrite !app_nil_r].
    intros i. cbn. unfold str_eqb. case_bool_decide; [subst; by rewrite lookup_insert_eq | by rewrite lookup_insert_ne].
  - rewrite Hp. destruct (open_call past id) as [call|] eqn:E; (split; [split; [done|]|]).
    + intros i. cbn. unfold str_eqb. case_bool_decide; [subst; by rewrite lookup_delete_eq | by rewrite lookup_delete_ne].
    + apply turn_result_call.
    + intros i. cbn. unfold str_eqb. case_bool_decide; [subst; congruence | done].
    + apply turn_result_refl.
Qed.
Lemma update_step past u b c b' c' :
  is_end u = false -> turn_of past b -> batch_update u (b, c) = (b', c') ->
  turn_of (u :: past) b' /\ turn_result (answer_text past [u]) (finished_calls past [u]) b b'
  /\ c' = with_answers (map (fun r => (r, approval_decision b)) (requests [u])) c.
Proof.
  intros He Ht. pose proof (turn_result_refl b) as Hsame. pose proof (with_answers_nil c) as Hc.
  destruct u; try done; cbn [batch_update]; intros [= <- <-]; cbn [answer_text requests omap list_omap map]; rewrite ?app_nil_r.
  all: try (split_and!; [by destruct Ht; split | exact Hsame | by rewrite Hc]).
  - split_and!; [by destruct Ht; split | exact (turn_result_text b text _ _) | done].
  - destruct (block_start_step past index block b Ht) as [H1 H2]. done.
  - destruct Ht as [Hi Hp]. specialize (Hi index) as Hix. destruct (block_open past index).
    + rewrite bool_decide_eq_true_2 by naive_solver. split_and!; [by split | exact (turn_result_text b delta _ _) | done].
    + rewrite bool_decide_eq_false_2 by naive_solver. split_and!; [by split | done | done].
  - destruct Ht as [Hi Hp]. split_and!; [split; [|done] | | done].
    + intros i. cbn. rewrite elem_of_difference, elem_of_singleton, Hi. destruct (N.eqb_spec index i); naive_solver.
    + unfold turn_result, set_indices, with_turn. cbn. by rewrite !app_nil_r.
  - split_and!; [by destruct Ht; split | exact Hsame | done].
Qed.

Lemma answer_text_cons past u us : answer_text past (u :: us) = answer_text past [u] ++ answer_text (u :: past) us.
Proof. cbn [answer_text]. by rewrite app_nil_r. Qed.
Lemma finished_calls_cons past u us : finished_calls past (u :: us) = finished_calls past [u] ++ finished_calls (u :: past) us.
Proof. cbn [finished_calls]. by rewrite app_nil_r. Qed.
Lemma requests_cons u us : requests (u :: us) = requests [u] ++ requests us.
Proof. unfold requests. by destruct u. Qed.

Lemma turn_result_trans t1 t2 k1 k2 b1 b2 b3 :
  turn_result t1 k1 b1 b2 -> turn_result t2 k2 b2 b3 -> turn_result (t1 ++ t2) (k1 ++ k2) b1 b3.
Proof.
  unfold turn_result, files_of, commands_of. intros -> ->. unfold with_turn. cbn.
  by rewrite omap_app, fold_left_app, !app_assoc.
Qed.

Lemma with_answers_app l l' c : with_answers l' (with_answers l c) = with_answers (l ++ l') c.
Proof. unfold with_answers. cbn. by rewrite app_assoc. Qed.

Lemma turn_result_decision text calls b b' : turn_result text calls b b' -> approval_decision b' = approval_decision b.
Proof. by intros ->. Qed.

(** The state after any updates without an end. *)
Lemma updates_history us : forall past b c b' c',
  forallb (fun u => negb (is_end u)) us = true -> turn_of past b -> run_updates us (b, c) = (b', c') ->
  turn_of (rev us ++ past) b' /\ turn_result (answer_text past us) (finished_calls past us) b b'
  /\ c' = with_answers (map (fun r => (r, approval_decision b)) (requests us)) c.
Proof.
  induction us as [|u us IH]; intros past b c b' c' He Ht.
  - intros [= <- <-]. split_and!; [done | apply turn_result_refl | by rewrite with_answers_nil].
  - cbn [forallb] in He. apply andb_true_iff in He as [Hu%negb_true_iff He].
    unfold run_updates. cbn [fold_left]. destruct (batch_update u (b, c)) as [b1 c1] eqn:E. intros Hr.
    destruct (update_step past u b c b1 c1 Hu Ht E) as (Ht1 & Hr1 & ->).
    destruct (IH (u :: past) b1 _ b' c' He Ht1 Hr) as (Ht2 & Hr2 & ->).
    split_and!.
    + cbn [rev]. by rewrite <- app_assoc.
    + rewrite answer_text_cons, finished_calls_cons. by eapply turn_result_trans.
    + rewrite with_answers_app, (requests_cons u us), map_app. by rewrite (turn_result_decision _ _ _ _ Hr1).
Qed.
(** ** The end of a turn *)
Definition end_status (u : UiUpdate) : TaskStatus := match u with UiError _ => TFailed | _ => TCompleted end.
Definition end_text (u : UiUpdate) : str := match u with UiError msg => msg | _ => [] end.
Definition end_tokens (u : UiUpdate) (c : C) : PulseTokens.t :=
  match u with UiError _ => PulseTokens.default | _ => last_pulse_tokens c end.

Definition run_record (task : str) (instructions : option str) (us : list UiUpdate) (e : UiUpdate) (c : C) : TurnEvidenceRecord :=
  mk_TurnEvidenceRecord 1 task (answer_text [] us ++ end_text e) instructions (files_of (finished_calls [] us) [])
    (commands_of (finished_calls [] us)) (end_tokens e c).
Definition run_summary (id : str) (instructions : option str) (us : list UiUpdate) (e : UiUpdate) : SummaryRecord :=
  mk_SummaryRecord true (status_text (end_status e)) id 1 instructions (insert_all (files_of (finished_calls [] us) []) []) [].
Definition run_lines (opts : BatchRunOpts) (id task : str) (instructions : option str) (us : list UiUpdate) (e : UiUpdate) (c : C)
  : list OutputLine :=
  match opt_format opts with
  | Jsonl => [PulseLine (run_record task instructions us e c); SummaryLine (run_summary id instructions us e)]
  | TextFormat => [TextLine (answer_text [] us ++ end_text e)]
  end.

(** A task that reaches the model. *)
Definition asks_model (opts : BatchRunOpts) (task : str) : Prop :=
  opt_max_turns opts <> Some 0 /\ trim task <> t!"/memory clear".

Definition started (opts : BatchRunOpts) (id task : str) (instructions : option str) : BatchMode :=
  set_input task (set_run TRunning true false (reset_current_turn_state (batch_new id opts instructions))).

Lemma input_starts opts id task instructions c : asks_model opts task ->
  batch_input path_found task (batch_new id opts instructions, c)
  = (started opts id task instructions, mk_BatchContext (start_pulse task (pulses c)) (notes_disk c) (answers c)).
Proof.
  intros [Hm Ht]. unfold batch_input. cbn [done_ batch_new max_turns current_turn].
  assert (match opt_max_turns opts with Some max => max <=? 0 | None => false end = false) as ->.
  { destruct (opt_max_turns opts) as [n|]; [|done]. apply N.leb_gt. destruct (N.eq_dec n 0); [by subst | lia]. }
  unfold try_handle_batch_memory_clear. rewrite bool_decide_eq_false_2 by done. done.
Qed.

Lemma turn_of_started opts id task instructions : turn_of [] (started opts id task instructions).
Proof. split; intros i; cbn; [by rewrite elem_of_empty | apply lookup_empty]. Qed.

(** What a run comes to when its updates are [us] and then [e]. *)
Definition run_ended (opts : BatchRunOpts) (id task : str) (instructions : option str) (us : list UiUpdate) (e : UiUpdate)
    (c : BatchContext C) (s : BatchMode * BatchContext C) : Prop :=
  done_ s.1 = true
  /\ result_of id s.1 = mk_BatchResult (end_status e) (run_lines opts id task instructions us e (pulses c)) 1 id
  /\ s.2 = with_answers (map (fun r => (r, opt_is_some (opt_auto_approve opts))) (requests us)) c.

Lemma end_concludes opts id task instructions us e c :
  forallb (fun u => negb (is_end u)) us = true -> is_end e = true ->
  run_ended opts id task instructions us e c (batch_update e (run_updates us (started opts id task instructions, c))).
Proof.
  intros Hus He. destruct (run_updates us _) as [b' c'] eqn:E.
  destruct (updates_history us [] _ _ _ _ Hus (turn_of_started opts id task instructions) E) as (_ & -> & ->).
  unfold run_ended, run_lines, run_record, run_summary, result_of.
  destruct opts as [? ? [] ?], e; try done; cbn; rewrite ?app_nil_r; split_and!; done.
Qed.

Lemma waits us : forall b c, forallb (fun u => negb (is_end u)) us = true -> done_ b = false ->
  done_ (run_updates us (b, c)).1 = false /\ turn_in_progress (run_updates us (b, c)).1 = turn_in_progress b.
Proof.
  induction us as [|u us IH]; intros b c Hus Hd; [done|]. cbn [forallb] in Hus. apply andb_true_iff in Hus as [Hu%negb_true_iff Hus].
  unfold run_updates. cbn [fold_left]. destruct (batch_update u (b, c)) as [b1 c1] eqn:E.
  assert (done_ b1 = false /\ turn_in_progress b1 = turn_in_progress b) as [Hd1 <-]; [|by apply IH].
  revert E. destruct u; try done; cbn [batch_update]; intros [= <- <-]; try done.
  - destruct block; try done. cbn. by destruct (_ !! _).
  - by case_bool_decide.
Qed.

Lemma receive_app us e rest s :
  forallb (fun u => negb (is_end u)) us = true -> done_ s.1 = false -> done_ (batch_update e (run_updates us s)).1 = true ->
  receive (us ++ e :: rest) s = Some (batch_update e (run_updates us s)).
Proof.
  revert s. induction us as [|u us IH]; intros [b c] Hus Hd He.
  - cbn [app receive]. unfold run_updates in *. cbn [fold_left] in *. by rewrite He.
  - cbn [forallb] in Hus. apply andb_true_iff in Hus as [Hu Hus]. cbn [app receive].
    destruct (waits [u] b c) as [Hw _]; [by cbn; rewrite Hu|done|]. unfold run_updates in Hw. cbn [fold_left] in Hw.
    rewrite Hw. by apply IH.
Qed.
Lemma run_batch_ended task opts instructions now received c us e rest :
  asks_model opts task ->
  received (start_pulse task (pulses c)) = us ++ e :: rest ->
  forallb (fun u => negb (is_end u)) us = true -> is_end e = true ->
  let id := unwrap_or (resume_id opts) (uuid_task_id now) in
  let c' := mk_BatchContext (start_pulse task (pulses c)) (notes_disk c) (answers c) in
  let s := batch_update e (run_updates us (started opts id task instructions, c')) in
  run_batch path_found task opts instructions now received c = Some (result_of id s.1, s.2)
  /\ run_ended opts id task instructions us e c' s.
Proof.
  intros Ha Hr Hus He id c' s. pose proof (end_concludes opts id task instructions us e c' Hus He) as Hend.
  split; [|done]. unfold run_batch. fold id. rewrite input_starts by done. fold c'. cbn [done_ started pulses c'].
  change (done_ (started opts id task instructions)) with false. cbv iota. rewrite Hr.
  rewrite receive_app; [|done|done|by destruct Hend]. fold s. by destruct s.
Qed.

(** C18: the report of a batch run.  A run whose task reaches the model ends with the first update
    that completes the pulse or reports an error, after one turn.  Its lines are the record of that
    turn and the summary, or the answer alone: the answer is the streamed text with the blocks that
    were open when their deltas came, followed by the error; the files are those of the calls that
    got a result that is no error, the commands those of all calls that got one.  Every request
    for approval received before the end was answered, with a yes exactly if approval is automatic. *)
Theorem batch_run_reports task opts instructions now received c us e rest :
  asks_model opts task ->
  received (start_pulse task (pulses c)) = us ++ e :: rest ->
  forallb (fun u => negb (is_end u)) us = true -> is_end e = true ->
  let id := unwrap_or (resume_id opts) (uuid_task_id now) in
  let c' := start_pulse task (pulses c) in
  run_batch path_found task opts instructions now received c
  = Some (mk_BatchResult (end_status e) (run_lines opts id task instructions us e c') 1 id,
          mk_BatchContext c' (notes_disk c)
            (answers c ++ map (fun r => (r, opt_is_some (opt_auto_approve opts))) (requests us))).
Proof.
  intros Ha Hr Hus He id c'.
  destruct (run_batch_ended task opts instructions now received c us e rest Ha Hr Hus He) as (-> & _ & -> & ->). done.
Qed.

(** ** Under the loop of the runtime *)
Lemma apply_updates_run us s : apply_updates (M := BatchMode) (H := batch_runtime_mode path_found) us s = run_updates us s.
Proof. done. Qed.

Notation looped := (run (H := batch_runtime_mode path_found) (H0 := batch_frontend)).

Lemma loop_quits rounds first f s : quit_done f = true -> looped rounds first f s = (true, f, s).
Proof. intros Hq. destruct rounds; cbn; by rewrite Hq. Qed.

(** A round while the pulse is in progress. *)
Lemma waiting_round r first f s :
  done_ s.1 = false -> turn_in_progress s.1 = true -> quit_done f = false ->
  exists first' f', round (H := batch_runtime_mode path_found) (H0 := batch_frontend) r first f s
    = (first', f', run_updates (arrived r) s)
    /\ inner f' = inner f /\ (arrived r <> [] -> quit_done f' = done_ (run_updates (arrived r) s).1)
    /\ (done_ (run_updates (arrived r) s).1 = false -> quit_done f' = false).
Proof.
  intros Hd Ht Hq. unfold round. cbn [poll_user_input batch_frontend]. unfold batch_poll, note_done.
  rewrite Hd, Ht. cbn [orb]. rewrite apply_updates_run. cbn [opt_is_some orb inner quit_done].
  destruct (first || _ || tick_due r) eqn:E.
  - eexists _, _. split; [done|]. cbn. unfold note_done. cbn. rewrite Hq, ?Hd. cbn. done.
  - eexists _, _. split; [done|]. cbn. rewrite ?Hq, ?Hd. split_and!; [done | | done].
    destruct (arrived r); [done|]. rewrite orb_true_r in E. done.
Qed.

(** The rounds lead to the end of the pulse. *)
Definition reaches_end (e : UiUpdate) (rounds : list Round) : Prop := forall us first f s,
  concat (map arrived rounds) = us ++ [e] -> forallb (fun u => negb (is_end u)) us = true ->
  done_ s.1 = false -> turn_in_progress s.1 = true -> quit_done f = false ->
  done_ (batch_update e (run_updates us s)).1 = true ->
  exists f', looped rounds first f s = (true, f', batch_update e (run_updates us s)).

Lemma after_round e r rounds us first f s :
  reaches_end e rounds -> concat (map arrived (r :: rounds)) = us ++ [e] -> forallb (fun u => negb (is_end u)) us = true ->
  done_ s.1 = false -> turn_in_progress s.1 = true -> done_ (batch_update e (run_updates us s)).1 = true ->
  (arrived r <> [] -> quit_done f = done_ (run_updates (arrived r) s).1) ->
  (done_ (run_updates (arrived r) s).1 = false -> quit_done f = false) ->
  exists f', looped rounds first f (run_updates (arrived r) s) = (true, f', batch_update e (run_updates us s)).
Proof.
  intros IH Hc Hus Hd Ht Hend Hq1 Hq2. cbn [map concat] in Hc.
  destruct (concat (map arrived rounds)) as [|x l _] eqn:El using rev_ind.
  - rewrite app_nil_r in Hc. rewrite Hc in *.
    assert (run_updates (us ++ [e]) s = batch_update e (run_updates us s)) as Hr by (unfold run_updates; by rewrite fold_left_app).
    rewrite Hr in *. exists f. apply loop_quits. rewrite Hq1; [done|]. by destruct us.
  - rewrite app_assoc in Hc. apply app_inj_tail in Hc as [Hc ->]. subst us.
    rewrite forallb_app in Hus. apply andb_true_iff in Hus as [Hu1 Hu2]. destruct s as [b c].
    destruct (waits (arrived r) b c Hu1 Hd) as [Hw1 Hw2].
    assert (run_updates (arrived r ++ l) (b, c) = run_updates l (run_updates (arrived r) (b, c))) as Hr
      by (unfold run_updates; by rewrite fold_left_app).
    rewrite Hr in *. apply IH; try done; [by rewrite Hw2 | by apply Hq2].
Qed.

Lemma loop_ends e rounds : reaches_end e rounds.
Proof.
  induction rounds as [|r rounds IH]; intros us first f s Hc Hus Hd Ht Hq Hend; [by destruct us|].
  cbn [run should_quit batch_frontend]. rewrite Hq.
  destruct (waiting_round r first f s Hd Ht Hq) as (first' & f1 & -> & _ & Hq1 & Hq2). by apply after_round.
Qed.

(** The loop of the runtime answers as the plain loop does.  However the updates of the pulse
    are spread over the rounds of the loop, and whenever the tick is due, the loop with the batch
    frontend is left once the pulse has ended, and the mode and the context then are those of
    [run_batch]. *)
Theorem loop_runs_batch task opts instructions now received c us e rounds :
  asks_model opts task ->
  received (start_pulse task (pulses c)) = us ++ [e] ->
  forallb (fun u => negb (is_end u)) us = true -> is_end e = true ->
  concat (map arrived rounds) = us ++ [e] ->
  let id := unwrap_or (resume_id opts) (uuid_task_id now) in
  exists f b c', looped rounds true (frontend_quit_new task) (batch_new id opts instructions, c) = (true, f, (b, c'))
    /\ run_batch path_found task opts instructions now received c = Some (result_of id b, c').
Proof.
  intros Ha Hr Hus He Hc id.
  destruct (run_batch_ended task opts instructions now received c us e [] Ha Hr Hus He) as (-> & Hd & _).
  fold id in Hd |- *. set (c1 := mk_BatchContext _ _ _) in *. set (s1 := batch_update e _) in *.
  enough (exists f, looped rounds true (frontend_quit_new task) (batch_new id opts instructions, c) = (true, f, s1)) as [f Hf].
  { destruct s1 as [b c']. by exists f, b, c'. }
  destruct rounds as [|r rounds]; [by destruct us|]. cbn [run should_quit batch_frontend frontend_quit_new quit_done].
  unfold round. cbn [poll_user_input batch_frontend]. unfold batch_poll, note_done.
  cbn [done_ turn_in_progress batch_new fst orb inner frontend_new frontend_quit_new quit_done opt_is_some].
  unfold on_frontend_signal. cbn [on_user_input batch_runtime_mode]. rewrite input_starts by done. fold c1.
  rewrite apply_updates_run. apply (after_round e); try done. by apply loop_ends.
Qed.
End runs.

Lemma first_end us : existsb is_end us = true ->
  exists l e r, us = l ++ e :: r /\ forallb (fun u => negb (is_end u)) l = true /\ is_end e = true.
Proof.
  induction us as [|u us IH]; [done|]. cbn [existsb]. destruct (is_end u) eqn:E.
  - intros _. by exists [], u, us.
  - intros (l & e & r & -> & Hl & He)%IH. exists (u :: l), e, r. cbn [forallb]. by rewrite E.
Qed.

(** ** With the context of the runtime *)
Section answered.
Context {W : Type} `{Surroundings W} `{RuntimeContext.PanicState W} {clock : Clock} {chrono : Chrono}.
Context {js : SerdeJson} {pretty : PrettyJson} {diff : LineDiff} {hash : ContentHash} {ho : RuntimeContext.HashOrder}.
Variable s : Settings.
Variable join_error : str.

Lemma pulse_sends_end input prompt policy shared (c c' : RuntimeContext W) :
  active (manager c) = None -> run_pulse s join_error input prompt policy shared c = Returns c' ->
  existsb is_end (sent c') = true.
Proof.
  intros Ha. unfold run_pulse, spawn_message. cbv zeta.
  destruct (send_returns (with_channel s) input policy (match shared with Some v => if is_empty (trim v) then None else Some (trim v) | None => None end)
    (set_updates [] (manager (set_runtime_prompt prompt c))) Ha) as [->|(result & m' & ->)];
    cbv beta iota; unfold mbind, outcome_bind; (destruct (forward_all _ _) as [[shown f]|]; [|done]).
  - intros [= <-]. cbn [sent send with_tokens]. by rewrite existsb_app, orb_true_r.
  - destruct result; intros [= <-]; cbn [sent send with_tokens]; by rewrite existsb_app, orb_true_r.
Qed.

(** C21: a batch run ends.  With the context of the runtime and no turn open, a task that reaches the
    model is answered in one turn, completed or failed, whatever the model, the tools and the hooks
    do, unless the task that forwards the text panics. *)
Theorem batch_run_ends path_found task opts instructions now (c : RuntimeContext W) (disk : NotesDisk) :
  asks_model opts task -> active (manager c) = None ->
  returns (run_pulse s join_error task None DefaultPolicy None c) = true ->
  exists status lines d,
    run_batch (H := runtime_pulses s join_error) path_found task opts instructions now sent (mk_BatchContext c disk [])
    = Some (mk_BatchResult status lines 1 (unwrap_or (resume_id opts) (uuid_task_id now)), d)
    /\ (status = TCompleted \/ status = TFailed).
Proof.
  intros Hm Ha Hp. destruct (run_pulse _ _ _ _ _ _ _) as [c'|] eqn:E; [|done].
  destruct (first_end _ (pulse_sends_end _ _ _ _ _ _ Ha E)) as (us & e & rest & Hs & Hus & He).
  destruct (run_batch_ended (H := runtime_pulses s join_error) path_found task opts instructions now sent
    (mk_BatchContext c disk []) us e rest Hm) as (-> & _ & -> & _); [by cbn; rewrite E|done|done|].
  do 3 eexists. split; [done|]. destruct e; try done; auto.
Qed.
End answered.

(** ** Examples *)
Section examples.
(** A context that remembers what was asked. *)
#[local] Instance asked_pulses : PulseContext (list str) := {|
  start_pulse input c := c ++ [input];
  last_pulse_tokens _ := PulseTokens.mk 3 4 false 0 0;
|}.

Definition sample_request : ToolApprovalRequest := mk_ToolApprovalRequest t!"write_file" t!"preview".
Definition sample_us : list UiUpdate :=
  [UiBlockStart 0 (FinalText []); UiBlockDelta 0 t!"done"; UiBlockComplete 0; UiBlockDelta 0 t!"late";
   UiBlockStart 1 (ToolCall t!"a" t!"write_file" (Object [(t!"path", String t!"x.rs")]) Envelope.Pending);
   UiToolApprovalRequest sample_request; UiBlockStart 2 (ToolResult t!"a" t!"ok" false)].
Definition no_notes : NotesDisk := mk_NotesDisk NoStore NoNotes None None None.
Definition sample_context : BatchContext (list str) := mk_BatchContext [] no_notes [].
Definition sample_opts : BatchRunOpts := mk_BatchRunOpts (Some 5) (Some ApproveOnce) Jsonl None.

Lemma sample_asks : asks_model sample_opts t!"fix it".
Proof. split; discriminate. Qed.

Lemma batch_run_reports_witness :
  run_batch false t!"fix it" sample_opts None 7 (fun _ => sample_us ++ [UiPulseComplete]) sample_context
  = Some (mk_BatchResult TCompleted (run_lines sample_opts t!"batch-7" t!"fix it" None sample_us UiPulseComplete [t!"fix it"]) 1 t!"batch-7",
          mk_BatchContext [t!"fix it"] no_notes [(sample_request, true)]).
Proof.
  refine (eq_trans (batch_run_reports false t!"fix it" sample_opts None 7 (fun _ => sample_us ++ [UiPulseComplete]) sample_context
    sample_us UiPulseComplete [] sample_asks _ _ _) _); [reflexivity | reflexivity | reflexivity | vm_compute; reflexivity].
Defined.

Example sample_report :
  run_lines sample_opts t!"b" t!"fix it" None sample_us UiPulseComplete [t!"fix it"]
  = [PulseLine (mk_TurnEvidenceRecord 1 t!"fix it" t!"done" None [t!"x.rs"] [] (PulseTokens.mk 3 4 false 0 0));
     SummaryLine (mk_SummaryRecord true t!"Completed" t!"b" 1 None [t!"x.rs"] [])].
Proof. vm_compute. reflexivity. Qed.

Lemma loop_runs_batch_witness :
  exists f b c',
    run (H := batch_runtime_mode false) (H0 := batch_frontend)
      [mk_Round [] false; mk_Round sample_us true; mk_Round [UiPulseComplete] false; mk_Round [] true] true
      (frontend_quit_new t!"fix it") (batch_new t!"batch-7" sample_opts None, sample_context) = (true, f, (b, c'))
    /\ run_batch false t!"fix it" sample_opts None 7 (fun _ => sample_us ++ [UiPulseComplete]) sample_context
       = Some (result_of t!"batch-7" b, c').
Proof.
  apply (loop_runs_batch false t!"fix it" sample_opts None 7 (fun _ => sample_us ++ [UiPulseComplete]) sample_context sample_us UiPulseComplete
    [mk_Round [] false; mk_Round sample_us true; mk_Round [UiPulseComplete] false; mk_Round [] true]);
    [exact sample_asks | reflexivity ..].
Defined.

Section model.
#[local] Existing Instances scripted step_clock plain_chrono empty_codec plain_pretty plain_diff plain_hash.
Definition listed_blocks : RuntimeContext.HashOrder := fun m => map_to_list m.
#[local] Existing Instances listed_blocks RuntimeContext.as_before.

Definition fresh_context := mk_RuntimeContext (sample_manager sample_script) None None SessionTokens.default [].

Lemma batch_run_ends_witness :
  let s := sample_settings true true in
  exists status lines d,
    run_batch (H := runtime_pulses s t!"panic") false t!"fix it" sample_opts None 7 sent (mk_BatchContext fresh_context no_notes [])
    = Some (mk_BatchResult status lines 1 t!"batch-7", d)
    /\ (status = TCompleted \/ status = TFailed).
Proof.
  intros s. apply (batch_run_ends s t!"panic" false t!"fix it" sample_opts None 7 fresh_context no_notes);
    [exact sample_asks | reflexivity | vm_compute; reflexivity].
Defined.
End model.
End examples.

(** Any number of turns but none is one turn. *)
Example no_turn_allowed :
  run_batch (C := list str) (H := asked_pulses) false t!"fix it" (mk_BatchRunOpts (Some 0) None Jsonl None) None 7 (fun _ => []) sample_context
  = Some (mk_BatchResult TMaxTurnsReached
            [SummaryLine (mk_SummaryRecord true t!"MaxTurnsReached" t!"batch-7" 0 None [] [])] 0 t!"batch-7", sample_context).
Proof. reflexivity. Qed.
