(* ===== verification/RequestContext.v ===== *)
(** What is put before a request: the cache of files (src/runtime/context_cache.rs), the files an
    instruction names and those they import (src/runtime/context_assembler), and the instructions of
    a project (src/runtime/project_instructions.rs, src/workspace.rs).

    The cache of the process is a state beside the world of Workspace.  What git reports, the
    counter of tokens and the variables are parameters; lines on standard error are left out. *)
From Stdlib Require Import NArith ZArith Lia.
From stdpp Require Import base list gmap strings numbers sets.
From S2P Require Import Prelude Text Utf8 Collections Json Evidence ToolPreview Validation Transcript FileSystem Workspace.
#[local] Open Scope N_scope.

(** ** The cache: context_cache.rs *)
Module Cache.

Definition MAX_CACHE_ENTRIES : nat := 64.
Definition MAX_CACHE_TOTAL_BYTES : N := 2 * 1024 * 1024.
Definition MAX_CACHE_FILE_BYTES : N := 64 * 1024.

Definition component_code (c : Component) : N * str :=
  match c with RootDir => (0, []) | CurDir => (1, []) | ParentDir => (2, []) | Normal s => (3, s) end.
Definition code_component (x : N * str) : Component :=
  match x with (0, _) => RootDir | (1, _) => CurDir | (2, _) => ParentDir | (_, s) => Normal s end.
#[export] Instance Component_countable : Countable Component.
Proof. refine (inj_countable' component_code code_component _). by intros []. Defined.

Record CachedFileRead := mk_CachedFileRead { cf_content : str; cache_hit : bool }.

Record CacheEntry := mk_CacheEntry {
  ce_content : str;
  ce_fingerprint : FileFingerprint;
  last_access : N;
}.

Record ContextCache := mk_ContextCache {
  entries : gmap path CacheEntry;
  total_bytes : N;
  next_access : N;
}.
Definition cache_default : ContextCache := mk_ContextCache ∅ 0 0.

Definition next_access_tick : ST ContextCache N := fun c =>
  let tick := sat_add u64_max (next_access c) 1 in
  (tick, mk_ContextCache (entries c) (total_bytes c) tick).

Definition older (a b : path * CacheEntry) : path * CacheEntry :=
  if last_access b.2 <? last_access a.2 then b else a.
(** [min_by_key]; no two entries have the same tick before the counter saturates. *)
Definition oldest (c : ContextCache) : option path :=
  match map_to_list (entries c) with
  | [] => None
  | x :: r => Some (fold_left older r x).1
  end.

Definition remove_entry (p : path) (c : ContextCache) : ContextCache :=
  match entries c !! p with
  | Some e => mk_ContextCache (delete p (entries c)) (sat_sub (total_bytes c) (blen (ce_content e))) (next_access c)
  | None => c
  end.

Definition over_limit (c : ContextCache) : bool :=
  (MAX_CACHE_ENTRIES <? size (entries c))%nat || (MAX_CACHE_TOTAL_BYTES <? total_bytes c).

(** The loop removes an entry each time: as many rounds as there are entries are enough. *)
Fixpoint evict (fuel : nat) (c : ContextCache) : ContextCache :=
  match fuel with
  | O => c
  | S fuel =>
      if over_limit c then
        match oldest c with Some p => evict fuel (remove_entry p c) | None => c end
      else c
  end.
Definition evict_to_fit (c : ContextCache) : ContextCache := evict (size (entries c)) c.

Definition try_read_from_cache (p : path) (fp : FileFingerprint) : ST ContextCache (option str) := fun c =>
  match entries c !! p with
  | Some e =>
      if bool_decide (ce_fingerprint e = fp) then
        let '(tick, c) := next_access_tick c in
        (Some (ce_content e),
         mk_ContextCache (<[p := mk_CacheEntry (ce_content e) (ce_fingerprint e) tick]> (entries c)) (total_bytes c) (next_access c))
      else (None, remove_entry p c)
  | None => (None, c)
  end.

Definition insert_into_cache (p : path) (fp : FileFingerprint) (content : str) (c : ContextCache) : ContextCache :=
  let c := remove_entry p c in
  let '(tick, c) := next_access_tick c in
  evict_to_fit (mk_ContextCache (<[p := mk_CacheEntry content fp tick]> (entries c))
                  (sat_add usize_max (total_bytes c) (blen content)) (next_access c)).

(** ** Operations with the cache beside the world *)
Definition CacheOp (A : Type) : Type := ContextCache * World -> outcome ((Error + A) * (ContextCache * World)).

#[export] Instance cache_op_ret : MRet CacheOp := fun A a s => Returns (inr a, s).
#[export] Instance cache_op_bind : MBind CacheOp := fun A B f m s =>
  match m s with
  | Returns (inr a, s) => f a s
  | Returns (inl e, s) => Returns (inl e, s)
  | Panics => Panics
  end.

Definition in_world {A} (m : Op A) : CacheOp A := fun '(c, w) =>
  match m w with
  | Returns (r, w) => Returns (r, (c, w))
  | Panics => Panics
  end.
Definition in_cache {A} (f : ST ContextCache A) : CacheOp A := fun '(c, w) =>
  let '(a, c) := f c in Returns (inr a, (c, w)).
(** [m.ok()]: the error becomes a value. *)
Definition caught {A} (m : CacheOp A) : CacheOp (Error + A) := fun s =>
  match m s with
  | Returns (r, s) => Returns (inr r, s)
  | Panics => Panics
  end.

Section reads.
Context `{LineDiff} (op : ToolOperator).

Definition read_uncached (text : str) : CacheOp CachedFileRead :=
  content ← in_world (read_file op text); mret (mk_CachedFileRead content false).

Definition read_cached_file (text : str) : CacheOp CachedFileRead :=
  found ← in_world (existing_path op text);
  match found with
  | None => read_uncached text
  | Some resolved =>
      directory ← in_world (asks (fun fs => FileSystem.is_dir fs resolved));
      if directory : bool then read_uncached text
      else
        stamp ← in_world (asks (fun fs => file_fingerprint fs resolved));
        match stamp with
        | None => read_uncached text
        | Some fp =>
            if MAX_CACHE_FILE_BYTES <? fp_len fp then read_uncached text
            else
              cached ← in_cache (try_read_from_cache resolved fp);
              match cached with
              | Some content => mret (mk_CachedFileRead content true)
              | None =>
                  content ← in_world (read_file op text);
                  in_cache (st_modify (insert_into_cache resolved fp content)) ≫= fun _ =>
                  mret (mk_CachedFileRead content false)
              end
        end
  end.
End reads.
End Cache.

(** ** Paths in an instruction and in a file: context_assembler/reads.rs

    A path that is shown is the text it was made of; paths are compared by their components. *)
Module Paths.

Definition STANDALONE_PATH_EXTENSIONS : list str := [t!"rs"; t!"toml"; t!"md"; t!"txt"; t!"json"; t!"sh"].

Definition is_wrapper (c : char) : bool := contains_char c (DQUOTE :: t!"'`,.;:()[]{}").
Definition trim_matches (p : char -> bool) (s : str) : str := reverse (drop_while p (reverse (drop_while p s))).

(** [trim_start_matches("./")]. *)
Fixpoint trim_dot_slash (s : str) : str :=
  match s with
  | a :: b :: r => if (a =? DOT) && (b =? SLASH) then trim_dot_slash r else s
  | _ => s
  end.

(** [Path::new(text).extension()]. *)
Definition extension (text : str) : option str :=
  match list.last (components text) with
  | Some (Normal name) =>
      match rfind_char DOT name with
      | Some (S i) => Some (drop (S (S i)) name)
      | _ => None
      end
  | _ => None
  end.

(** The path a word of an instruction names. *)
Definition candidate_of (token : str) : option str :=
  let candidate := trim_matches is_wrapper token in
  if is_empty candidate then None
  else if starts_with [SLASH] candidate || starts_with t!"-" candidate then None
  else if negb (contains_char SLASH candidate || contains_char DOT candidate) then None
  else
    let normalized := trim_dot_slash candidate in
    match normalized with
    | [] => None
    | c :: _ =>
        if is_ascii_digit c then None
        else if contains_char SLASH normalized then Some normalized
        else match extension normalized with
             | Some e => if str_in (to_ascii_lowercase e) STANDALONE_PATH_EXTENSIONS then Some normalized else None
             | None => None
             end
    end.

(** The first of each. *)
Fixpoint distinct (seen l : list str) : list str :=
  match l with
  | [] => []
  | x :: r => if str_in x seen then distinct seen r else x :: distinct (x :: seen) r
  end.

Definition extract_candidate_paths (instruction : str) : list str :=
  distinct [] (omap candidate_of (split_whitespace instruction)).

(** The text before the first occurrence, or the whole. *)
Definition before (p s : str) : str := match split_once p s with Some (a, _) => a | None => s end.
Definition before_char (c : char) (s : str) : str := match split_on c s with a :: _ => a | [] => [] end.
Definition strip_any (ps : list str) (s : str) : option str := find_map (fun p => strip_prefix p s) ps.

Definition infer_rust_use_path (line : str) : option str :=
  value ← strip_any [t!"use "; t!"pub use "] line;
  let module := trim (trim_end_char 59 (trim (before t!"//" value))) in
  if is_empty module then None
  else
    let module := match split_once t!" as " module with Some (a, _) => trim a | None => module end in
    let module := match split_once t!"{" module with Some (a, _) => trim a | None => module end in
    let module := trim (trim_end_char 58 (trim_end_char 58 module)) in
    relative ← strip_any [t!"crate::"; t!"super::"; t!"self::"] module;
    if is_empty relative then None
    else
      let file := replace t!"::" t!"/" relative ++ t!".rs" in
      (* [PathBuf::join]: an absolute path replaces the directory. *)
      Some (if starts_with [SLASH] file then file else t!"src/" ++ file).

Definition infer_python_import_path (line : str) : option str :=
  module ← match strip_prefix t!"from " line with
           | Some value => (fun '(a, _) => trim a) <$> split_once t!" import " value
           | None =>
               value ← strip_prefix t!"import " line;
               if contains t!" from " value || contains_char DQUOTE value || contains_char 39 value then None
               else trim <$> head (split_whitespace (before_char 44 value))
           end;
  if is_empty module || starts_with [DOT] module then None
  else Some (replace [DOT] [SLASH] module ++ t!".py").

(** The text between the first two of a quote. *)
Definition between (quote : char) (line : str) : option str :=
  '(_, suffix) ← split_once [quote] line;
  '(inside, _) ← split_once [quote] suffix;
  Some inside.
Definition extract_quoted_specifier (line : str) : option str := find_map (fun q => between q line) [DQUOTE; 39].

Definition infer_js_import_path (line : str) : option str :=
  if negb (starts_with t!"import " line) && negb (starts_with t!"export " line) then None
  else
    specifier ← extract_quoted_specifier line;
    if is_empty specifier || starts_with [SLASH] specifier || starts_with t!"../" specifier then None
    else
      let normalized := trim_dot_slash specifier in
      if is_empty normalized then None
      else if opt_is_some (extension normalized) then Some normalized
      else Some (normalized ++ t!".js").

Definition path_in (p : str) (seen : list path) : bool := existsb (fun q => bool_decide (components p = q)) seen.

(** The first of each path. *)
Fixpoint distinct_paths (seen : list path) (l : list str) : list str :=
  match l with
  | [] => []
  | x :: r => if path_in x seen then distinct_paths seen r else x :: distinct_paths (components x :: seen) r
  end.

Definition paths_of_line (line : str) : list str :=
  let trimmed := trim line in
  omap (fun infer => infer trimmed) [infer_rust_use_path; infer_python_import_path; infer_js_import_path].
Definition infer_related_path_candidates (content : str) : list str :=
  distinct_paths [] (List.flat_map paths_of_line (lines content)).
End Paths.

(** ** The assembler: context_assembler/mod.rs *)
Module Assembler.
Import Cache Paths.

Definition DEFAULT_MAX_FILE_BYTES : N := 32768.
Definition DEFAULT_MAX_DIFF_LINES : N := 200.
Definition DEFAULT_MAX_RELATED : N := 3.
Definition EXPANDED_MAX_RELATED : N := 8.

Record FileRollup := mk_FileRollup { fr_path : str; fr_content : option str; content_limited : bool }.

Record AssembledContext := mk_AssembledContext {
  file_rollups : list FileRollup;
  git_status_summary : option str;
  recent_diff : option str;
  has_staged_changes : bool;
  has_working_tree_changes : bool;
  git_dir : option path;
  committer_name : option str;
  staged_paths : list path;
  related_paths : list str;
  cache_hits : N;
  cache_misses : N;
}.

(** What the commands of git tell, of src/runtime/git_rollup.rs. *)
Record GitRollup := mk_GitRollup {
  gr_status_summary : option str;
  gr_recent_diff : option str;
  gr_working_tree_changes : bool;
  gr_git_dir : option path;
  gr_committer_name : option str;
  gr_staged_paths : list path;
}.
(** The rollup of a directory with at most so many lines of a diff. *)
Class GitContext := collect_git_rollup : path -> N -> Error + GitRollup.

Record ContextAssembler := mk_ContextAssembler {
  max_file_bytes : N;
  max_diff_lines : N;
  max_related : N;
  include_git_context : bool;
}.

(** No letter that is not ASCII is lowered to one of these words. *)
Definition parse_bool_str (s : str) : option bool :=
  let v := to_ascii_lowercase (trim s) in
  if str_in v [t!"true"; t!"1"; t!"yes"; t!"on"] then Some true
  else if str_in v [t!"false"; t!"0"; t!"no"; t!"off"] then Some false else None.
Definition resolve_include_git_context (var : str -> option str) (default_enabled : bool) : bool :=
  match var t!"VEX_CONTEXT_INCLUDE_GIT" with
  | Some value => if is_empty (trim value) then default_enabled else unwrap_or (parse_bool_str value) default_enabled
  | None => default_enabled
  end.
Definition assembler_default (var : str -> option str) : ContextAssembler :=
  mk_ContextAssembler DEFAULT_MAX_FILE_BYTES DEFAULT_MAX_DIFF_LINES DEFAULT_MAX_RELATED (resolve_include_git_context var false).
Definition with_expanded_scan (enabled : bool) (a : ContextAssembler) : ContextAssembler :=
  if enabled then mk_ContextAssembler (max_file_bytes a) (max_diff_lines a) (N.max (max_related a) EXPANDED_MAX_RELATED) (include_git_context a)
  else a.
Definition with_git_context (enabled : bool) (a : ContextAssembler) : ContextAssembler :=
  mk_ContextAssembler (max_file_bytes a) (max_diff_lines a) (max_related a) enabled.

Definition rollup_from_read (p : str) (r : Error + CachedFileRead) (max : N) : outcome (FileRollup * bool) :=
  match r with
  | inr read =>
      '(content, limited) ← truncate_head_bytes (cf_content read) max;
      Returns (mk_FileRollup p (Some content) limited, cache_hit read)
  | inl _ => Returns (mk_FileRollup p None false, false)
  end.

(** What the loops of [assemble] have gathered. *)
Record Gathered := mk_Gathered {
  g_seen : list path;
  g_rollups : list FileRollup;
  g_related : list str;
  g_hits : N;
  g_misses : N;
}.
Definition gathered_nothing : Gathered := mk_Gathered [] [] [] 0 0.

Definition see (p : str) (g : Gathered) : Gathered :=
  mk_Gathered (components p :: g_seen g) (g_rollups g) (g_related g) (g_hits g) (g_misses g).
Definition add_rollup (snapshot : FileRollup) (hit : bool) (related : list str) (g : Gathered) : Gathered :=
  mk_Gathered (g_seen g) (g_rollups g ++ [snapshot]) (g_related g ++ related)
    (if hit then g_hits g + 1 else g_hits g)
    (if hit then g_misses g else if opt_is_some (fr_content snapshot) then g_misses g + 1 else g_misses g).

Section assembling.
Context `{LineDiff} {git : GitContext} (op : ToolOperator) (a : ContextAssembler).

Definition settled {A} (o : outcome A) : CacheOp A := fun s => (fun x => (inr x, s)) <$> o.

Definition add_named (candidate : str) (g : Gathered) : CacheOp Gathered :=
  if path_in candidate (g_seen g) then mret g
  else
    read ← caught (read_cached_file op candidate);
    '(snapshot, hit) ← settled (rollup_from_read candidate read (max_file_bytes a));
    mret (add_rollup snapshot hit [] (see candidate g)).

Definition enough (g : Gathered) : bool := max_related a <=? N.of_nat (length (g_related g)).

Definition add_related (inferred : str) (g : Gathered) : CacheOp Gathered :=
  if enough g then mret g
  else if path_in inferred (g_seen g) then mret g
  else
    read ← caught (read_cached_file op (replace [BACKSLASH] [SLASH] inferred));
    match read with
    | inl _ => mret (see inferred g)
    | inr _ =>
        '(snapshot, hit) ← settled (rollup_from_read inferred read (max_file_bytes a));
        mret (add_rollup snapshot hit [inferred] (see inferred g))
    end.

(** A [for] loop over what is gathered; once there is enough, the rounds that are left change
    nothing. *)
Fixpoint each (f : str -> Gathered -> CacheOp Gathered) (l : list str) (g : Gathered) : CacheOp Gathered :=
  match l with
  | [] => mret g
  | x :: r => g ← f x g; each f r g
  end.

Fixpoint related_of (named : list FileRollup) (g : Gathered) : CacheOp Gathered :=
  match named with
  | [] => mret g
  | snapshot :: r =>
      g ← (if enough g then mret g
           else match fr_content snapshot with
                | Some content => each add_related (infer_related_path_candidates content) g
                | None => mret g
                end);
      related_of r g
  end.

Definition without_git (g : Gathered) : AssembledContext :=
  mk_AssembledContext (g_rollups g) None None false false None None [] (g_related g) (g_hits g) (g_misses g).
Definition with_rollup (r : GitRollup) (g : Gathered) : AssembledContext :=
  mk_AssembledContext (g_rollups g) (gr_status_summary r) (gr_recent_diff r) (negb (match gr_staged_paths r with [] => true | _ => false end))
    (gr_working_tree_changes r) (gr_git_dir r) (gr_committer_name r) (gr_staged_paths r) (g_related g) (g_hits g) (g_misses g).

Definition assemble (instruction : str) : CacheOp AssembledContext :=
  named ← each add_named (extract_candidate_paths instruction) gathered_nothing;
  g ← related_of (g_rollups named) named;
  if negb (include_git_context a) then mret (without_git g)
  else r ← in_world (asks_or (fun _ => collect_git_rollup (working_dir op) (max_diff_lines a)));
       mret (with_rollup r g).
End assembling.

Definition newline : str := [LF].
Definition closed (s : str) : str := if ends_with newline s then s else s ++ newline.
Definition block_of (language s : str) : str := t!"```" ++ language ++ newline ++ closed s ++ t!"```" ++ newline.

Definition render_rollup (a : ContextAssembler) (r : FileRollup) : str :=
  t!"- " ++ fr_path r ++ newline
  ++ (if content_limited r then t!"  [context: file excerpt limited to first " ++ fmt_N (max_file_bytes a) ++ t!" bytes]" ++ newline else [])
  ++ match fr_content r with
     | Some content => block_of t!"text" content
     | None => t!"```text" ++ newline ++ t!"[context: file unreadable " ++ [8212] ++ t!" " ++ fr_path r ++ t!"]" ++ newline
               ++ t!"```" ++ newline
     end.
Definition render_file_rollups (a : ContextAssembler) (ctx : AssembledContext) : str :=
  match file_rollups ctx with
  | [] => t!"[context: no file rollups]" ++ newline
  | rs => t!"### File rollups" ++ newline ++ concat (map (render_rollup a) rs)
  end.
Definition render_related (ctx : AssembledContext) : str :=
  match related_paths ctx with
  | [] => []
  | ps => newline ++ t!"### Related paths" ++ newline ++ concat (map (fun p => t!"- " ++ p ++ newline) ps)
  end.
Definition render_section (language : str) (text : option str) : str :=
  match text with
  | Some s => if is_empty (trim s) then t!"[context: unavailable]" ++ newline else block_of language s
  | None => t!"[context: unavailable]" ++ newline
  end.

Definition render (a : ContextAssembler) (ctx : AssembledContext) : str :=
  t!"## Context" ++ newline ++ render_file_rollups a ctx
  ++ newline ++ t!"### Git status" ++ newline ++ render_section t!"text" (git_status_summary ctx)
  ++ newline ++ t!"### Recent diff" ++ newline ++ render_section t!"diff" (recent_diff ctx)
  ++ render_related ctx.
Definition render_shared_prefix (a : ContextAssembler) (ctx : AssembledContext) : str :=
  t!"## Shared context prefix" ++ newline ++ render_file_rollups a ctx ++ render_related ctx.
End Assembler.

(** ** The instructions of a project: project_instructions.rs and workspace.rs *)
Module Instructions.

(** tiktoken's count of a text. *)
Class TokenCount := token_count : str -> N.

Definition CANDIDATE_FILES : list str := [t!".vex/AGENTS.md"; t!"AGENTS.md"; t!".vex/PROJECT.md"].

Record InstructionSource := mk_InstructionSource { is_path : path; included : bool; estimated_tokens : N }.
Record InstructionSet := mk_InstructionSet { is_content : str; manifest : list InstructionSource }.

Definition included_content (s : InstructionSet) : option str :=
  if is_empty (trim (is_content s)) then None else Some (is_content s).
Definition display_path (s : InstructionSet) : option str :=
  match List.filter included (manifest s) with
  | [] => None
  | l => Some (join t!"; " (map (fun source => display (is_path source)) l))
  end.

(** The names below a root as far as the first component that is none. *)
Fixpoint dirs_below (acc relative : path) : list path :=
  match relative with
  | [] => []
  | Normal s :: r => (acc ++ [Normal s]) :: dirs_below (acc ++ [Normal s]) r
  | CurDir :: r => dirs_below acc r
  | _ :: _ => []
  end.
Definition directories_root_to_leaf (repo_root cwd : path) : list path :=
  match strip_path repo_root cwd with
  | Some relative => repo_root :: dirs_below repo_root relative
  | None => [repo_root]
  end.

Section instructions.
Context `{TokenCount} (fs : FileSystem).

Definition first_existing (dir : path) (names : list str) : option (path * str) :=
  find_map (fun name =>
    let candidate := path_join dir (components name) in
    match read_to_string fs candidate with inr content => Some (candidate, content) | inl _ => None end) names.

(** The rest of the walk, with the tokens that remain. *)
Fixpoint walk_dirs (repo_root : path) (remaining : N) (dirs : list path) : list str * list InstructionSource :=
  match dirs with
  | [] => ([], [])
  | dir :: r =>
      match first_existing dir CANDIDATE_FILES with
      | None => walk_dirs repo_root remaining r
      | Some (file, content) =>
          let estimated := token_count content in
          let fits := estimated <=? remaining in
          let '(sections, manifest) := walk_dirs repo_root (if fits then sat_sub remaining estimated else remaining) r in
          (if fits then content :: sections else sections,
           mk_InstructionSource (unwrap_or (strip_path repo_root file) file) fits estimated :: manifest)
      end
  end.

Definition load_hierarchical_instructions (repo_root cwd : path) (token_budget : N) : InstructionSet :=
  let '(sections, manifest) := walk_dirs repo_root token_budget (directories_root_to_leaf repo_root cwd) in
  mk_InstructionSet (join [LF; LF] sections) manifest.
Definition load_project_instructions (workspace_root : path) (token_budget : N) : InstructionSet :=
  load_hierarchical_instructions workspace_root workspace_root token_budget.

(** The nearest ancestor that has a [.git]; [dunce::simplified] changes nothing on Unix.  A path has
    no more ancestors than components. *)
Fixpoint repo_root_from (fuel : nat) (current : path) : option path :=
  if exists_ fs (path_join current (components t!".git")) then Some current
  else match fuel, parent current with
       | S fuel, Some up => repo_root_from fuel up
       | _, _ => None
       end.
Definition find_repo_root (start : path) : option path := repo_root_from (length start) start.
Definition workspace_root (start : path) : path := unwrap_or (find_repo_root start) start.
Definition resolve_relative_to_workspace (start p : path) : path :=
  match p with RootDir :: _ => p | _ => path_join (workspace_root start) p end.

Definition load_instructions_for_workspace (working_dir : path) (token_budget : N) : InstructionSet :=
  load_hierarchical_instructions (workspace_root working_dir) working_dir token_budget.
End instructions.
End Instructions.
