(* ===== verification/RequestTheory.v ===== *)
(** What is put before a request: the cache of files answers what reading answers and keeps within
    its limits; the files an instruction names, once each and in order, those they
    import up to a limit, each as much of it as its limit allows; and the instructions of a project
    that fit the budget. *)
From Stdlib Require Import NArith ZArith Lia.
From stdpp Require Import base list gmap strings numbers sets.
From S2P Require Import Prelude Text Utf8 Collections Evidence ByteIndex ToolPreview Validation FileSystem FileSystemTheory Workspace WorkspaceTheory RequestContext.
Import Cache Paths Assembler.
#[local] Open Scope N_scope.

(** * The cache of files *)
(** ** A new file is found where it was put *)
Definition plain_links (m : gmap names Node) : Prop := forall q t, m !! q = Some (Link t) -> RootDir ∉ tail t.

Lemma not_elem_tail {A} (x : A) l : x ∉ l -> x ∉ tail l.
Proof. destruct l; [done|]. by intros [_ ?]%not_elem_of_cons. Qed.

Lemma walk_new_file m w data mt links dir p r :
  plain_links m -> node_at m w = None -> RootDir ∉ tail p ->
  walk (<[w := File data mt]> m) links dir p = At r -> r = w \/ walk m links dir p = At r.
Proof.
  intros Hl Hw. assert (w <> []) as Hwn by (by intros ->).
  assert (node_at (<[w := File data mt]> m) w = Some (File data mt)) as Hnew.
  { destruct w; [done|]. cbn. by rewrite lookup_insert_eq. }
  assert (forall q, q <> w -> node_at (<[w := File data mt]> m) q = node_at m q) as Hold.
  { intros [|x q] Hq; [done|]. cbn. by rewrite lookup_insert_ne. }
  revert links dir p. refine (walk_ind_lex _ _). intros links dir p IHl IHp Hp.
  destruct p as [|c p]; [rewrite !walk_nil; by right|]. cbn [tail] in Hp. rewrite !walk_cons.
  assert (forall dir', walk (<[w := File data mt]> m) links dir' p = At r -> r = w \/ walk m links dir' p = At r) as IH.
  { intros dir'. apply IHp; [cbn; lia | by apply not_elem_tail]. }
  destruct c as [| | |s]; [apply IH|..].
  all: destruct (decide (dir = w)) as [->|Hd]; [by rewrite Hnew|]; rewrite Hold by done; destruct (node_at m dir) as [[]|]; try done.
  - apply IH.
  - apply IH.
  - destruct (decide (dir ++ [s] = w)) as [E|E].
    + rewrite E, Hnew, Hw. destruct p as [|c p]; [rewrite walk_nil; intros [= <-]; by left|].
      apply not_elem_of_cons in Hp as [Hc _]. rewrite walk_cons, Hnew. by destruct c.
    + rewrite Hold by done. destruct (node_at m (dir ++ [s])) as [[| |t]|] eqn:Ht; try apply IH; [|by right].
      destruct links as [|links]; [done|]. apply IHl; [lia|].
      assert (m !! (dir ++ [s]) = Some (Link t)) as Hlt by (by destruct (dir ++ [s])).
      apply Hl in Hlt. destruct t as [|x t]; cbn [app tail]; [by apply not_elem_tail|]. cbn [tail] in Hlt.
      by rewrite not_elem_of_app.
Qed.

(** ** Stamps *)
Definition stamped_by (fs : FileSystem) : Prop :=
  plain_links (nodes fs) /\ forall q data mt, nodes fs !! q = Some (File data mt) -> mt <= clock fs.

(** Time passes. *)
Definition later (n : N) (fs : FileSystem) : FileSystem := mk_FileSystem (nodes fs) (cwd fs) (clock fs + n).

Lemma lookup_file fs p q data mt :
  lookup_path fs p = At q -> node_at (nodes fs) q = Some (File data mt) -> nodes fs !! q = Some (File data mt).
Proof. by destruct q. Qed.

Lemma write_stamped fs p content fs' : stamped_by fs -> fs_write fs p content = inr fs' ->
  stamped_by fs' /\ clock fs' = clock fs.
Proof.
  intros [Hl Hs]. assert (forall q, stamped_by (with_nodes fs (<[q := File (utf8_encode content) (clock fs)]> (nodes fs)))) as Hput.
  { intros q. split; cbn [with_nodes nodes clock].
    - intros q' t. destruct (decide (q = q')) as [->|]; [by rewrite lookup_insert_eq | rewrite lookup_insert_ne by done; apply Hl].
    - intros q' data mt. destruct (decide (q = q')) as [->|]; [rewrite lookup_insert_eq; by intros [= _ ->] | rewrite lookup_insert_ne by done; apply Hs]. }
  unfold fs_write. destruct (lookup_path fs p) as [q|q|]; [destruct (node_at _ q) as [[]|]|..]; try done; intros [= <-].
  all: split; [apply Hput | done].
Qed.

(** A file with a stamp from before a write is the file it was. *)
Lemma write_keeps fs p content fs' q r data mt :
  stamped_by fs -> RootDir ∉ tail q -> fs_write fs p content = inr fs' ->
  lookup_path fs' q = At r -> node_at (nodes fs') r = Some (File data mt) -> mt < clock fs ->
  lookup_path fs q = At r /\ node_at (nodes fs) r = Some (File data mt).
Proof.
  intros [Hl Hs] Hq Hw Hr Hn Hm. revert Hw. unfold fs_write. destruct (lookup_path fs p) as [w|w|] eqn:Ep; [| |discriminate].
  - destruct (node_at (nodes fs) w) as [[data0 mt0| |]|] eqn:Ew; try discriminate. intros [= <-].
    cbn [with_nodes nodes] in Hn. destruct w as [|x w]; [done|].
    assert (r <> x :: w) as Hrw by (intros ->; cbn in Hn; rewrite lookup_insert_eq in Hn; injection Hn as <- <-; lia).
    split; [|destruct r; [done|]; cbn in Hn |- *; by rewrite lookup_insert_ne in Hn by done].
    revert Hr. unfold lookup_path. destruct q as [|c q]; [done|]. cbn [with_nodes nodes cwd]. intros <-.
    apply walk_shape. intros [|y q']; [done|]. cbn in Ew |- *. destruct (decide (x :: w = y :: q')) as [E|E].
    + injection E as <- <-. by rewrite lookup_insert_eq, Ew.
    + by rewrite lookup_insert_ne.
  - intros [= <-]. cbn [with_nodes nodes] in Hn. assert (node_at (nodes fs) w = None) as Ew.
    { unfold lookup_path in Ep. destruct p; [done|]. by apply walk_free in Ep as [? _]. }
    assert (w <> []) as Hwn by (by intros ->).
    assert (r <> w) as Hrw.
    { intros ->. destruct w; [done|]. cbn in Hn. rewrite lookup_insert_eq in Hn. injection Hn as <- <-. lia. }
    split; [|destruct r; [done|]; cbn in Hn |- *; by rewrite lookup_insert_ne in Hn by done].
    revert Hr. unfold lookup_path. destruct q as [|c q]; [done|]. cbn [with_nodes nodes cwd]. intros Hr.
    by apply walk_new_file in Hr as [->|Hr].
Qed.

(** ** The entries of the cache *)
(** Every entry of the first is one of the second, but for the time of its last use. *)
Definition entries_of (c' c : ContextCache) : Prop := forall p e', entries c' !! p = Some e' ->
  exists e, entries c !! p = Some e /\ ce_content e = ce_content e' /\ ce_fingerprint e = ce_fingerprint e'.

Lemma entries_of_refl c : entries_of c c.
Proof. intros p e H. by exists e. Qed.
Lemma entries_of_trans c1 c2 c3 : entries_of c1 c2 -> entries_of c2 c3 -> entries_of c1 c3.
Proof. intros H1 H2 p e (e2 & He2 & ? & ?)%H1. destruct (H2 p e2 He2) as (e3 & ? & ? & ?). exists e3. split_and!; congruence. Qed.

Lemma remove_entries_of p c : entries_of (remove_entry p c) c.
Proof.
  unfold remove_entry. destruct (entries c !! p) eqn:E; [|apply entries_of_refl]. intros q e. cbn.
  intros [_ H]%lookup_delete_Some. by exists e.
Qed.

Lemma evict_entries_of fuel c : entries_of (evict fuel c) c.
Proof.
  revert c. induction fuel as [|fuel IH]; intros c; cbn [evict]; [apply entries_of_refl|].
  destruct (over_limit c); [|apply entries_of_refl]. destruct (oldest c) as [p|]; [|apply entries_of_refl].
  eapply entries_of_trans; [apply IH | apply remove_entries_of].
Qed.

(** What an entry stands for. *)
Definition coherent (c : ContextCache) (fs : FileSystem) : Prop := forall p e, entries c !! p = Some e ->
  RootDir ∉ tail p /\ fp_modified (ce_fingerprint e) <= clock fs
  /\ (file_fingerprint fs p = Some (ce_fingerprint e) -> read_to_string fs p = inr (ce_content e)).

Lemma coherent_entries c c' fs : entries_of c' c -> coherent c fs -> coherent c' fs.
Proof. intros He Hc p e' (e & H1 & <- & <-)%He. by apply Hc. Qed.

Lemma coherent_empty fs : coherent cache_default fs.
Proof. intros p e. cbn. by rewrite lookup_empty. Qed.

Lemma coherent_insert p fp content c fs :
  RootDir ∉ tail p -> fp_modified fp <= clock fs -> read_to_string fs p = inr content ->
  coherent c fs -> coherent (insert_into_cache p fp content c) fs.
Proof.
  intros Hp Hfp Hr Hc. unfold insert_into_cache, next_access_tick. eapply coherent_entries; [apply evict_entries_of|].
  intros q e. cbn [entries]. destruct (decide (p = q)) as [<-|Hne].
  - rewrite lookup_insert_eq. intros [= <-]. done.
  - rewrite lookup_insert_ne by done. intros H. by apply (coherent_entries _ _ _ (remove_entries_of p c) Hc).
Qed.

Lemma try_read_spec p fp c content c' :
  try_read_from_cache p fp c = (content, c') ->
  entries_of c' c /\ match content with
                     | Some s => exists e, entries c !! p = Some e /\ ce_fingerprint e = fp /\ ce_content e = s
                     | None => True
                     end.
Proof.
  unfold try_read_from_cache. destruct (entries c !! p) as [e|] eqn:E.
  - case_bool_decide as Hfp; cbn; intros [= <- <-].
    + split; [|by exists e]. intros q e'. cbn. destruct (decide (p = q)) as [<-|Hne].
      * rewrite lookup_insert_eq. intros [= <-]. by exists e.
      * rewrite lookup_insert_ne by done. intros H. by exists e'.
    + split; [apply remove_entries_of | done].
  - intros [= <- <-]. split; [apply entries_of_refl | done].
Qed.

(** ** Reading *)
Section reading.
Context `{LineDiff} (base : names) (op : ToolOperator) (Hwd : working_dir op = abs_path base).

(** What reading a path gives. *)
Definition answer (text : str) (fs : FileSystem) : Error + str :=
  match resolve_path op text fs with
  | inl e => inl e
  | inr p => if FileSystem.is_dir fs p then inl (Bail (dir_error t!"read_file" text))
             else io_context t!"Failed to read file" (read_to_string fs p)
  end.

Lemma read_file_answer text w : read_file op text w = Returns (answer text (files w), w).
Proof.
  unfold read_file, resolve_file, resolve, answer, mbind, op_bind, asks_or, asks, bail, mret, op_ret.
  destruct (resolve_path op text (files w)); [done|]. by destruct (FileSystem.is_dir _ _).
Qed.

Lemma existing_path_answer text w :
  existing_path op text w
  = Returns (match resolve_path op text (files w) with
             | inl e => inl e
             | inr p => inr (if exists_ (files w) p then Some p else None)
             end, w).
Proof. unfold existing_path, resolve, mbind, op_bind, asks_or, asks. by destruct (resolve_path op text (files w)). Qed.

Definition content_of (r : Error + CachedFileRead) : Error + str :=
  match r with inl e => inl e | inr f => inr (cf_content f) end.

Lemma read_uncached_answer text c w :
  read_uncached op text (c, w)
  = Returns (match answer text (files w) with inl e => inl e | inr s => inr (mk_CachedFileRead s false) end, (c, w)).
Proof.
  unfold read_uncached, mbind, cache_op_bind, in_world. rewrite read_file_answer. by destruct (answer text (files w)).
Qed.

Lemma read_cached_unfold text c w :
  read_cached_file op text (c, w)
  = match resolve_path op text (files w) with
    | inl e => Returns (inl e, (c, w))
    | inr p =>
        match (if exists_ (files w) p then if FileSystem.is_dir (files w) p then None else file_fingerprint (files w) p else None) with
        | None => read_uncached op text (c, w)
        | Some fp =>
            if MAX_CACHE_FILE_BYTES <? fp_len fp then read_uncached op text (c, w)
            else
              let '(cached, c1) := try_read_from_cache p fp c in
              match cached with
              | Some s => Returns (inr (mk_CachedFileRead s true), (c1, w))
              | None =>
                  match answer text (files w) with
                  | inl e => Returns (inl e, (c1, w))
                  | inr s => Returns (inr (mk_CachedFileRead s false), (insert_into_cache p fp s c1, w))
                  end
              end
        end
    end.
Proof.
  unfold read_cached_file, mbind, cache_op_bind. cbn [in_world]. rewrite existing_path_answer.
  destruct (resolve_path op text (files w)) as [e|p]; [done|].
  destruct (exists_ (files w) p); [|done]. cbv beta iota zeta delta [in_world asks].
  destruct (FileSystem.is_dir (files w) p); [done|]. destruct (file_fingerprint (files w) p) as [fp|]; [|done].
  destruct (MAX_CACHE_FILE_BYTES <? fp_len fp); [done|]. cbv beta iota zeta delta [in_cache].
  destruct (try_read_from_cache p fp c) as [[s|] c1]; [done|]. rewrite read_file_answer.
  by destruct (answer text (files w)).
Qed.

Lemma fingerprint_read fs p fp : file_fingerprint fs p = Some fp -> stamped_by fs ->
  exists q data, lookup_path fs p = At q /\ node_at (nodes fs) q = Some (File data (fp_modified fp))
    /\ fp_len fp = N.of_nat (length data) /\ fp_modified fp <= clock fs.
Proof.
  unfold file_fingerprint, metadata. intros Hf [_ Hs]. destruct (lookup_path fs p) as [q| |] eqn:E; try done.
  destruct (node_at (nodes fs) q) as [[data mt| |]|] eqn:Hn; try done. injection Hf as <-.
  exists q, data. split_and!; try done. by apply (Hs q data), (lookup_file fs p).
Qed.

(** A read through the cache is a read. *)
Lemma read_cached text c w :
  coherent c (files w) -> stamped_by (files w) ->
  exists r c', read_cached_file op text (c, w) = Returns (r, (c', w))
    /\ coherent c' (files w) /\ content_of r = answer text (files w).
Proof using Hwd.
  intros Hc Hs. rewrite read_cached_unfold, read_uncached_answer.
  assert (exists r c', Returns (match answer text (files w) with inl e => inl e | inr s => inr (mk_CachedFileRead s false) end, (c, w))
    = Returns (r, (c', w)) /\ coherent c' (files w) /\ content_of r = answer text (files w)) as Hun.
  { do 2 eexists. split; [done|]. split; [done|]. by destruct (answer text (files w)). }
  destruct (resolve_path op text (files w)) as [e|p] eqn:Hp.
  { exists (inl e), c. split_and!; [done|done|]. unfold answer. by rewrite Hp. }
  destruct (exists_ (files w) p); [|done]. destruct (FileSystem.is_dir (files w) p) eqn:Hd; [done|].
  destruct (file_fingerprint (files w) p) as [fp|] eqn:Hfp; [|done]. destruct (MAX_CACHE_FILE_BYTES <? fp_len fp); [done|].
  assert (answer text (files w) = io_context t!"Failed to read file" (read_to_string (files w) p)) as Ha
    by (unfold answer; by rewrite Hp, Hd).
  destruct (try_read_from_cache p fp c) as [cached c1] eqn:E. apply try_read_spec in E as [He Hcached].
  pose proof (coherent_entries _ _ _ He Hc) as Hc1. destruct cached as [s|].
  - destruct Hcached as (e & He1 & <- & <-). destruct (Hc p e He1) as (_ & _ & Hr).
    do 2 eexists. split; [done|]. split; [done|]. cbn. by rewrite Ha, (Hr Hfp).
  - rewrite Ha. destruct (read_to_string (files w) p) as [e|s] eqn:Hr; cbn [io_context].
    + do 2 eexists. split; [done|]. done.
    + do 2 eexists. split; [done|]. split; [|done]. apply coherent_insert; [|by apply fingerprint_read in Hfp as (_ & _ & _ & _ & _ & ?)|done|done].
      apply (resolve_below op base) in Hp as [r ->]; [|done]. cbn. intros (s' & [=] & _)%list_elem_of_fmap.
Qed.
End reading.

(** ** Through reads and writes *)
(** What happens: a file is read, or time passes and then a file is written. *)
Inductive Event : Type :=
| Read (text : str)
| Write (elapsed : N) (p : path) (content : str).

Section history.
Context `{LineDiff} (base : names) (op : ToolOperator) (Hwd : working_dir op = abs_path base).

(** The answers of the reads, with what reading would have given. *)
Fixpoint history (events : list Event) (c : ContextCache) (w : World) : list (option (Error + str) * (Error + str)) :=
  match events with
  | [] => []
  | Read text :: r =>
      match read_cached_file op text (c, w) with
      | Returns (result, (c', w')) => (Some (content_of result), answer op text (files w)) :: history r c' w'
      | Panics => [(None, answer op text (files w))]
      end
  | Write elapsed p content :: r =>
      let fs := later elapsed (files w) in
      history r c (mk_World (match fs_write fs p content with inr fs => fs | inl _ => fs end) (ledger w))
  end.

Definition time_passes (e : Event) : bool := match e with Read _ => true | Write elapsed _ _ => 0 <? elapsed end.

Lemma coherent_later n c fs : coherent c fs -> coherent c (later n fs).
Proof. intros Hc p e He. destruct (Hc p e He) as (? & ? & ?). split_and!; [done | cbn; lia | done]. Qed.
Lemma stamped_later n fs : stamped_by fs -> stamped_by (later n fs).
Proof. intros [Hl Hs]. split; [done|]. intros q data mt Hq. apply Hs in Hq. cbn. lia. Qed.

Lemma coherent_write n c fs p content fs' :
  0 < n -> coherent c fs -> stamped_by fs -> fs_write (later n fs) p content = inr fs' -> coherent c fs'.
Proof.
  intros Hn Hc Hs Hw q e He. destruct (Hc q e He) as (Hq & Ht & Hr).
  pose proof (write_stamped _ _ _ _ (stamped_later n fs Hs) Hw) as [Hs' Hclock].
  split; [done|]. rewrite Hclock. split; [cbn; lia|]. intros Hf.
  destruct (fingerprint_read _ _ _ Hf Hs') as (r & data & Hl & Hd & Hlen & _).
  destruct (write_keeps (later n fs) p content fs' q r data (fp_modified (ce_fingerprint e))) as [Hl0 Hd0];
    [by apply stamped_later | done..| cbn; lia|].
  assert (lookup_path fs q = At r /\ node_at (nodes fs) r = Some (File data (fp_modified (ce_fingerprint e)))) as [H1 H2] by done.
  assert (read_to_string fs' q = read_to_string fs q) as -> by (unfold read_to_string; by rewrite Hl, Hd, H1, H2).
  apply Hr. unfold file_fingerprint, metadata. rewrite H1, H2. destruct (ce_fingerprint e) as [len mt]. cbn in *. by subst.
Qed.

(** C25: the cache of files cannot be seen.  Starting from an empty cache, whatever files are read and
    written, every read through the cache gives the text or the error that reading the file gives,
    as long as each write bears a later time than what was there before it and no link has a root
    in its middle. *)
Theorem cache_transparent events fs ledger0 :
  stamped_by fs -> forallb time_passes events = true ->
  Forall (fun '(cached, direct) => cached = Some direct) (history events cache_default (mk_World fs ledger0)).
Proof using Hwd.
  intros Hs. generalize (coherent_empty fs). generalize cache_default as c. intros c Hc He.
  change fs with (files (mk_World fs ledger0)) in Hc, Hs. revert Hc Hs. generalize (mk_World fs ledger0) as w. intros w.
  revert c w. induction events as [|e events IH]; intros c w Hc Hs; [by constructor|].
  cbn [forallb] in He. apply andb_true_iff in He as [Ht He]. destruct e as [text|n p content]; cbn [history].
  - destruct (read_cached base op Hwd text c w Hc Hs) as (r & c' & -> & Hc' & ->). constructor; [done|]. by apply IH.
  - apply N.ltb_lt in Ht. destruct (fs_write (later n (files w)) p content) as [err|fs'] eqn:E.
    + apply IH; [done|by apply coherent_later | by apply stamped_later].
    + apply IH; [done|by apply (coherent_write n _ (files w) p content)|].
      by apply (write_stamped _ _ _ _ (stamped_later n _ Hs)) in E as [? _].
Qed.
End history.

(** ** The limits *)
Lemma from_utf8_length bs s : from_utf8 bs = Some s -> N.of_nat (length bs) = blen s.
Proof.
  revert s. induction bs as [bs IH] using (induction_ltof1 _ (@length _)). unfold ltof in IH. intros s.
  destruct bs as [|b1 r1]; [by intros [= <-]|]. cbn [from_utf8].
  destruct (b1 <? 128) eqn:E1.
  { destruct (from_utf8 r1) as [t|] eqn:E; [|done]. intros [= <-]. apply IH in E; [|cbn; lia].
    cbn [blen length]. apply N.ltb_lt in E1. unfold len_utf8. rewrite (proj2 (N.ltb_lt b1 128)) by done. lia. }
  destruct r1 as [|b2 r2]; [done|]. destruct ((194 <=? b1) && (b1 <? 224) && is_cont b2) eqn:E2.
  { destruct (from_utf8 r2) as [t|] eqn:E; [|done]. intros [= <-]. apply IH in E; [|cbn; lia].
    cbn [blen length]. unfold is_cont in E2. bool_cases. unfold len_utf8. repeat case_match; bool_cases; lia. }
  destruct r2 as [|b3 r3]; [done|]. cbv zeta. match goal with |- context [if ?b then _ else _] => destruct b eqn:E3 end.
  { destruct (from_utf8 r3) as [t|] eqn:E; [|done]. intros [= <-]. apply IH in E; [|cbn; lia].
    cbn [blen length]. unfold is_cont in E3. bool_cases. unfold len_utf8. repeat case_match; bool_cases; lia. }
  destruct r3 as [|b4 r4]; [done|]. clear E3. cbv zeta.
  match goal with |- context [if ?b then _ else _] => destruct b eqn:E4 end; [|done].
  destruct (from_utf8 r4) as [t|] eqn:E; [|done]. intros [= <-]. apply IH in E; [|cbn; lia].
  cbn [blen length]. unfold is_cont in E4. bool_cases. unfold len_utf8. repeat case_match; bool_cases; lia.
Qed.

Definition weight (m : gmap path CacheEntry) : N := sum_N (map (fun x => blen (ce_content x.2)) (map_to_list m)).

Lemma weight_insert p e m : m !! p = None -> weight (<[p := e]> m) = blen (ce_content e) + weight m.
Proof. intros Hp. unfold weight. by rewrite (sum_N_perm _ _ (fmap_Permutation _ _ _ (map_to_list_insert m p e Hp))). Qed.

Lemma weight_delete p e m : m !! p = Some e -> weight m = blen (ce_content e) + weight (delete p m).
Proof. intros Hp. rewrite <- (weight_insert p) by apply lookup_delete_eq. by rewrite insert_delete_id. Qed.

Definition accounted (c : ContextCache) : Prop := total_bytes c = weight (entries c).
Definition within_limits (c : ContextCache) : Prop :=
  accounted c /\ (size (entries c) <= MAX_CACHE_ENTRIES)%nat /\ total_bytes c <= MAX_CACHE_TOTAL_BYTES.

Lemma remove_accounted p c : accounted c ->
  accounted (remove_entry p c) /\ entries (remove_entry p c) = delete p (entries c)
  /\ total_bytes (remove_entry p c) <= total_bytes c.
Proof.
  unfold accounted, remove_entry. intros Ha. destruct (entries c !! p) as [e|] eqn:E; cbn.
  - pose proof (weight_delete p e _ E). unfold sat_sub. split_and!; [lia | done | lia].
  - by rewrite delete_id.
Qed.

Lemma oldest_in c p : oldest c = Some p -> is_Some (entries c !! p).
Proof.
  unfold oldest. destruct (map_to_list (entries c)) as [|x r] eqn:E; [done|]. intros [= <-].
  assert (forall l x, fold_left older l x = x \/ fold_left older l x ∈ l) as Hf.
  { clear. induction l as [|y l IH]; intros x; [by left|]. cbn [fold_left]. unfold older at 2 4.
    destruct (_ <? _); destruct (IH (if last_access y.2 <? last_access x.2 then y else x)) as [H|H].
    all: try (destruct (IH x) as [->|H']; [by left | right; by right]).
    all: destruct (IH y) as [->|H']; right; [by left | by right]. }
  assert (fold_left older r x ∈ map_to_list (entries c)) as Hin.
  { rewrite E. destruct (Hf r x) as [->|H]; [by left | by right]. }
  destruct (fold_left older r x) as [q e]. apply elem_of_map_to_list in Hin. by exists e.
Qed.

Lemma evict_limits fuel c : (size (entries c) <= fuel)%nat -> accounted c ->
  accounted (evict fuel c) /\ over_limit (evict fuel c) = false.
Proof.
  assert (forall c, accounted c -> entries c = ∅ -> over_limit c = false) as Hempty.
  { intros d Ha He. unfold over_limit, accounted in *. rewrite He in *. rewrite map_size_empty. unfold weight in Ha.
    rewrite map_to_list_empty in Ha. cbn in Ha. by rewrite Ha. }
  revert c. induction fuel as [|fuel IH]; intros c Hf Ha; cbn [evict].
  - split; [done|]. apply Hempty; [done|]. apply map_size_empty_inv. lia.
  - destruct (over_limit c) eqn:E; [|done]. destruct (oldest c) as [p|] eqn:Ho.
    + destruct (remove_accounted p c Ha) as (Hr & He & _). apply IH; [|done]. rewrite He.
      apply oldest_in in Ho as [e Ho]. rewrite map_size_delete, Ho. lia.
    + assert (entries c = ∅) as He.
      { unfold oldest in Ho. destruct (map_to_list (entries c)) eqn:El; [|done]. by apply map_to_list_empty_iff. }
      rewrite (Hempty c Ha He) in E. done.
Qed.

Lemma insert_limits p fp content c : within_limits c -> blen content <= MAX_CACHE_FILE_BYTES ->
  within_limits (insert_into_cache p fp content c).
Proof.
  intros (Ha & _ & Hb) Hl. unfold insert_into_cache, next_access_tick.
  destruct (remove_accounted p c Ha) as (Hr & He & Ht). set (d := remove_entry p c) in *. cbv zeta beta iota.
  match goal with |- within_limits (evict_to_fit ?x) => set (y := x) end.
  assert (accounted y) as Hy.
  { unfold accounted, y. cbn [entries total_bytes]. rewrite weight_insert by (rewrite He; apply lookup_delete_eq).
    cbn [ce_content]. rewrite sat_add_small; [unfold accounted in Hr; cbn [total_bytes entries]; lia|]. cbn [total_bytes].
    unfold MAX_CACHE_FILE_BYTES, MAX_CACHE_TOTAL_BYTES, usize_max, u64_max in *. lia. }
  unfold evict_to_fit. destruct (evict_limits (size (entries y)) y (Nat.le_refl _) Hy) as [H1 H2].
  apply orb_false_iff in H2 as [H2 H3]. split; [done|]. apply Nat.ltb_ge in H2. apply N.ltb_ge in H3. done.
Qed.

Section limits.
Context `{LineDiff} (op : ToolOperator).

Lemma try_read_limits p fp c : within_limits c -> within_limits (try_read_from_cache p fp c).2.
Proof.
  intros (Ha & Hs & Hb). unfold try_read_from_cache. destruct (entries c !! p) as [e|] eqn:E; [|done].
  case_bool_decide; cbn.
  - split; [|split; [|done]].
    + unfold accounted in *. cbn. rewrite Ha, (weight_delete p e _ E).
      rewrite <- insert_delete_eq, weight_insert by apply lookup_delete_eq. done.
    + cbn. rewrite map_size_insert, E. done.
  - destruct (remove_accounted p c Ha) as (H1 & H2 & H3). split; [done|]. rewrite H2. split; [|cbn in *; lia].
    rewrite map_size_delete, E. cbn. lia.
Qed.

Lemma read_cached_limits text c w r c' w' :
  within_limits c -> read_cached_file op text (c, w) = Returns (r, (c', w')) -> within_limits c' /\ w' = w.
Proof.
  intros Hc. rewrite read_cached_unfold, read_uncached_answer. unfold answer at 2 3.
  destruct (resolve_path op text (files w)) as [e|p] eqn:Hp; [by intros [= _ <- <-]|].
  destruct (if exists_ (files w) p then _ else None) as [fp|] eqn:Hfp; [|by intros [= _ <- <-]].
  destruct (MAX_CACHE_FILE_BYTES <? fp_len fp) eqn:Hlen; [by intros [= _ <- <-]|]. apply N.ltb_ge in Hlen.
  pose proof (try_read_limits p fp c Hc) as Hc1. destruct (try_read_from_cache p fp c) as [[s|] c1];
    cbn [snd] in Hc1; [by intros [= _ <- <-]|].
  destruct (FileSystem.is_dir (files w) p); [by intros [= _ <- <-]|].
  destruct (read_to_string (files w) p) as [e|s] eqn:Hr; cbn [io_context]; intros [= _ <- <-]; [done|]. split; [|done].
  apply insert_limits; [done|]. revert Hfp Hr. destruct (exists_ (files w) p); [|done].
  unfold file_fingerprint, metadata, read_to_string. destruct (lookup_path (files w) p); try done.
  destruct (node_at _ _) as [[data mt| |]|]; try done. intros [= <-]. cbn in Hlen.
  destruct (from_utf8 data) as [s'|] eqn:E; [|done]. intros [= <-]. apply from_utf8_length in E. lia.
Qed.

(** The cache after the events. *)
Fixpoint cache_after (events : list Event) (c : ContextCache) (w : World) : ContextCache :=
  match events with
  | [] => c
  | Read text :: r =>
      match read_cached_file op text (c, w) with
      | Returns (_, (c', w')) => cache_after r c' w'
      | Panics => c
      end
  | Write elapsed p content :: r =>
      let fs := later elapsed (files w) in
      cache_after r c (mk_World (match fs_write fs p content with inr fs => fs | inl _ => fs end) (ledger w))
  end.

(** C37: the cache of files stays within its limits.  Whatever is read and written, it holds at most
    64 files and two mebibytes of text, and the bytes it counts are those it holds. *)
Theorem cache_bounded events w :
  let c := cache_after events cache_default w in
  (size (entries c) <= MAX_CACHE_ENTRIES)%nat /\ total_bytes c <= MAX_CACHE_TOTAL_BYTES
  /\ total_bytes c = weight (entries c).
Proof.
  intros c. enough (within_limits c) as (? & ? & ?) by done. unfold c.
  assert (within_limits cache_default) as Hc by (split_and!; [done | apply Nat.le_0_l | apply N.le_0_l]).
  revert Hc. generalize cache_default as d. clear c. revert w. induction events as [|[text|n p content] events IH]; intros w d Hd; [done|..]; cbn [cache_after].
  - destruct (read_cached_file op text (d, w)) as [[r [c' w']]|] eqn:E; [|done].
    apply read_cached_limits in E as [Hc' _]; [by apply IH | done].
  - by apply IH.
Qed.
End limits.

(** ** Examples *)
Definition note_tree : FileSystem :=
  mk_FileSystem (list_to_map [([t!"ws"], Dir); ([t!"ws"; t!"a.rs"], File t!"one two" 1)]) [] 7.
Definition note_op : ToolOperator := operator_new note_tree (components t!"/ws").
Definition note_events (elapsed : N) : list Event :=
  [Read t!"a.rs"; Read t!"a.rs"; Write elapsed (components t!"/ws/a.rs") t!"two one"; Read t!"a.rs"; Read t!"b.rs"].

Lemma note_tree_stamped : stamped_by note_tree.
Proof.
  split.
  - intros q t Hn. apply elem_of_list_to_map_2 in Hn. rewrite !elem_of_cons, elem_of_nil in Hn.
    by destruct Hn as [[=]|[[=]|[]]].
  - intros q data mt Hn. apply elem_of_list_to_map_2 in Hn. rewrite !elem_of_cons, elem_of_nil in Hn.
    destruct Hn as [[=]|[[= -> -> ->]|[]]]. cbn. lia.
Qed.

Lemma cache_transparent_witness :
  Forall (fun '(cached, direct) => cached = Some direct)
    (history note_op (note_events 1) cache_default (mk_World note_tree [])).
Proof. apply (cache_transparent [t!"ws"] note_op eq_refl (note_events 1) note_tree []); [exact note_tree_stamped | reflexivity]. Defined.

(** The third read is not of the cache: the file is newer.  A write of the same length within the
    grain of the clock is not seen. *)
Example fresh_answers :
  map fst (history note_op (note_events 1) cache_default (mk_World note_tree []))
  = [Some (inr t!"one two"); Some (inr t!"one two"); Some (inr t!"two one");
     Some (inl (Context t!"Failed to read file" (Io NotFound)))].
Proof. vm_compute. reflexivity. Qed.
Definition stale_tree : FileSystem :=
  mk_FileSystem (list_to_map [([t!"ws"], Dir); ([t!"ws"; t!"a.rs"], File t!"one two" 7)]) [] 7.
Example stale_answer :
  nth 2 (history note_op (note_events 0) cache_default (mk_World stale_tree [])) (None, inr [])
  = (Some (inr t!"one two"), inr t!"two one").
Proof. vm_compute. reflexivity. Qed.

(** * What is put before a request *)
(** The text of a file as far as a rollup shows it: all of it, or a prefix that fits and to which no
    character of more than three bytes could be added. *)
Definition shown_part (max : N) (text shown : str) (limited : bool) : Prop :=
  (exists r, text = shown ++ r) /\ blen shown <= max /\ (limited = true -> max < blen shown + 4)
  /\ (limited = false -> shown = text).

Section assembler.
Context (base : names) (op : ToolOperator) (Hwd : working_dir op = abs_path base) (a : ContextAssembler).

(** What a rollup says of the file of a key. *)
Definition tells (fs : FileSystem) (key : str) (r : FileRollup) : Prop :=
  match answer op key fs with
  | inr text => exists shown, fr_content r = Some shown /\ shown_part (max_file_bytes a) text shown (content_limited r)
  | inl _ => fr_content r = None /\ content_limited r = false
  end.

Lemma rollup_tells fs key p read :
  content_of read = answer op key fs ->
  exists r hit, rollup_from_read p read (max_file_bytes a) = Returns (r, hit) /\ fr_path r = p /\ tells fs key r
    /\ (fr_content r = None -> hit = false).
Proof.
  unfold tells. destruct read as [e|f]; cbn [content_of]; intros <-; cbn [rollup_from_read].
  - by exists (mk_FileRollup p None false), false.
  - destruct (truncate_head_result (cf_content f) (max_file_bytes a)) as (shown & limited & E & H).
    unfold mbind, outcome_bind. rewrite E. eexists _, _. split; [done|]. split_and!; [done| |done]. by exists shown.
Qed.

(** ** What the loops gather *)
Definition has_content (r : FileRollup) : bool := opt_is_some (fr_content r).
Definition place (r : FileRollup) : path := components (fr_path r).

(** The rollups that were added, none of a path that was seen. *)
Record gathers (fs : FileSystem) (key : str -> str) (g g' : Gathered) (rs : list FileRollup) : Prop := {
  ga_rollups : g_rollups g' = g_rollups g ++ rs;
  ga_tells : Forall (fun r => tells fs (key (fr_path r)) r) rs;
  ga_seen : g_seen g ⊆ g_seen g';
  ga_new : Forall (fun r => place r ∈ g_seen g' /\ place r ∉ g_seen g) rs;
  ga_distinct : NoDup (map place rs);
  ga_count : g_hits g' + g_misses g' = g_hits g + g_misses g + N.of_nat (length (List.filter has_content rs));
}.

Lemma gathers_nothing fs key g g' :
  g_rollups g' = g_rollups g -> g_seen g ⊆ g_seen g' -> g_hits g' = g_hits g -> g_misses g' = g_misses g ->
  gathers fs key g g' [].
Proof. intros H1 H2 H3 H4. split; cbn; [by rewrite H1, app_nil_r | constructor | done | constructor | constructor | lia]. Qed.

Lemma gathers_trans fs key g1 g2 g3 rs rs' :
  gathers fs key g1 g2 rs -> gathers fs key g2 g3 rs' -> gathers fs key g1 g3 (rs ++ rs').
Proof.
  intros [A1 A2 A3 A4 A5 A6] [B1 B2 B3 B4 B5 B6]. split.
  - by rewrite B1, A1, app_assoc.
  - by apply list.Forall_app.
  - by etrans.
  - apply list.Forall_app. split; [eapply list.Forall_impl; [exact A4|] | eapply list.Forall_impl; [exact B4|]]; cbn; intros r [H1 H2].
    + split; [by apply B3 | done].
    + split; [done|]. intros H. by apply H2, A3.
  - rewrite map_app. apply NoDup_app. split_and!; [done| |done].
    intros x (r & -> & Hr)%list_elem_of_fmap (r' & E & Hr')%list_elem_of_fmap.
    rewrite list.Forall_forall in A4, B4. apply A4 in Hr as [Hr _]. apply B4 in Hr' as [_ Hr']. rewrite <- E in Hr'. done.
  - rewrite List.filter_app, length_app. lia.
Qed.

(** A file that was not seen is added. *)
Lemma gathers_one fs key p related hit r g :
  fr_path r = p -> tells fs (key p) r -> path_in p (g_seen g) = false -> (fr_content r = None -> hit = false) ->
  gathers fs key g (add_rollup r hit related (see p g)) [r].
Proof.
  intros <- Ht Hs Hh. split.
  - done.
  - by constructor.
  - cbn. set_solver.
  - constructor; [|constructor]. cbn. split; [by left|]. intros Hin. apply not_true_iff_false in Hs. apply Hs.
    unfold path_in. apply existsb_exists. exists (components (fr_path r)). rewrite <- list_elem_of_In. split; [done|].
    by apply bool_decide_eq_true_2.
  - cbn. apply NoDup_singleton.
  - cbn. unfold has_content. destruct (fr_content r); cbn; destruct hit; cbn; try lia; try (by specialize (Hh eq_refl)).
Qed.

(** ** The files that are named *)
Definition untouched (key : str) : str := key.

Lemma each_named l : forall g c w, coherent c (files w) -> stamped_by (files w) ->
  exists g' c' rs, each (add_named op a) l g (c, w) = Returns (inr g', (c', w)) /\ coherent c' (files w)
    /\ gathers (files w) untouched g g' rs /\ map fr_path rs = distinct_paths (g_seen g) l /\ g_related g' = g_related g.
Proof using Hwd.
  induction l as [|p l IH]; intros g c w Hc Hs; cbn [each distinct_paths].
  { exists g, c, []. split_and!; [done | done | by apply gathers_nothing | done | done]. }
  unfold mbind, cache_op_bind, add_named. destruct (path_in p (g_seen g)) eqn:Hp; [by apply IH|].
  destruct (read_cached base op Hwd p c w Hc Hs) as (r & c1 & E & Hc1 & Ha). unfold mbind, cache_op_bind, caught. rewrite E.
  destruct (rollup_tells (files w) p p r Ha) as (ro & hit & E2 & <- & Ht & Hh). unfold settled. rewrite E2. cbn [fmap outcome_fmap].
  pose proof (gathers_one (files w) untouched (fr_path ro) [] hit ro g eq_refl Ht Hp Hh) as H1. cbn [mret cache_op_ret].
  destruct (IH (add_rollup ro hit [] (see (fr_path ro) g)) c1 w Hc1 Hs) as (g' & c' & rs & E3 & Hc' & Hg & Hm & Hr).
  exists g', c', (ro :: rs). split_and!; [done | done | by apply (gathers_trans _ _ _ _ _ [ro] rs H1 Hg) | |].
  - cbn [map]. by rewrite Hm.
  - rewrite Hr. cbn. by rewrite app_nil_r.
Qed.

(** ** The files they import *)
Definition with_slashes (key : str) : str := replace [BACKSLASH] [SLASH] key.

Record imports (fs : FileSystem) (g g' : Gathered) (rs : list FileRollup) : Prop := {
  im_gathers : gathers fs with_slashes g g' rs;
  im_related : g_related g' = g_related g ++ map fr_path rs;
  im_content : Forall (fun r => has_content r = true) rs;
  im_limit : N.of_nat (length (g_related g)) <= max_related a -> N.of_nat (length (g_related g')) <= max_related a;
}.

Lemma imports_nothing fs g g' :
  g_rollups g' = g_rollups g -> g_related g' = g_related g -> g_seen g ⊆ g_seen g' -> g_hits g' = g_hits g -> g_misses g' = g_misses g ->
  imports fs g g' [].
Proof.
  intros H1 H2 H3 H4 H5. split; [by apply gathers_nothing | by rewrite H2, app_nil_r | constructor | by rewrite H2].
Qed.

Lemma imports_trans fs g1 g2 g3 rs rs' : imports fs g1 g2 rs -> imports fs g2 g3 rs' -> imports fs g1 g3 (rs ++ rs').
Proof.
  intros [A1 A2 A3 A4] [B1 B2 B3 B4]. split.
  - by eapply gathers_trans.
  - by rewrite B2, A2, map_app, app_assoc.
  - by apply list.Forall_app.
  - auto.
Qed.

Lemma add_related_imports p g c w : coherent c (files w) -> stamped_by (files w) ->
  exists g' c' rs, add_related op a p g (c, w) = Returns (inr g', (c', w)) /\ coherent c' (files w) /\ imports (files w) g g' rs.
Proof using Hwd.
  intros Hc Hs. unfold add_related. destruct (enough a g) eqn:Hen; [exists g, c, []; split_and!; [done | done | by apply imports_nothing]|].
  destruct (path_in p (g_seen g)) eqn:Hp; [exists g, c, []; split_and!; [done | done | by apply imports_nothing]|].
  destruct (read_cached base op Hwd (with_slashes p) c w Hc Hs) as (r & c1 & E & Hc1 & Ha).
  unfold mbind, cache_op_bind, caught. unfold with_slashes in E. rewrite E. destruct r as [e|f].
  - exists (see p g), c1, []. split_and!; [done | done | apply imports_nothing; cbn; [done | done | set_solver | done | done]].
  - destruct (rollup_tells (files w) (with_slashes p) p (inr f) Ha) as (ro & hit & E2 & <- & Ht & Hh).
    unfold settled. rewrite E2. cbn [fmap outcome_fmap mret cache_op_ret].
    exists (add_rollup ro hit [fr_path ro] (see (fr_path ro) g)), c1, [ro]. split_and!; [done | done|]. split.
    + by apply gathers_one.
    + done.
    + constructor; [|constructor]. revert Ht. unfold tells, has_content. rewrite <- Ha. cbn [content_of]. by intros (shown & -> & _).
    + intros _. unfold enough in Hen. apply N.leb_gt in Hen. cbn. rewrite length_app. cbn [length]. lia.
Qed.

Lemma each_related l : forall g c w, coherent c (files w) -> stamped_by (files w) ->
  exists g' c' rs, each (add_related op a) l g (c, w) = Returns (inr g', (c', w)) /\ coherent c' (files w) /\ imports (files w) g g' rs.
Proof using Hwd.
  induction l as [|p l IH]; intros g c w Hc Hs; cbn [each]; [exists g, c, []; split_and!; [done | done | by apply imports_nothing]|].
  destruct (add_related_imports p g c w Hc Hs) as (g1 & c1 & rs1 & E1 & Hc1 & H1).
  unfold mbind, cache_op_bind. rewrite E1. destruct (IH g1 c1 w Hc1 Hs) as (g2 & c2 & rs2 & E2 & Hc2 & H2).
  exists g2, c2, (rs1 ++ rs2). split_and!; [done | done | by eapply imports_trans].
Qed.

Lemma related_imports named : forall g c w, coherent c (files w) -> stamped_by (files w) ->
  exists g' c' rs, related_of op a named g (c, w) = Returns (inr g', (c', w)) /\ coherent c' (files w) /\ imports (files w) g g' rs.
Proof using Hwd.
  induction named as [|r named IH]; intros g c w Hc Hs; cbn [related_of]; [exists g, c, []; split_and!; [done | done | by apply imports_nothing]|].
  unfold mbind, cache_op_bind.
  assert (exists g1 c1 rs1, (if enough a g then mret g
           else match fr_content r with
                | Some content => each (add_related op a) (infer_related_path_candidates content) g
                | None => mret g
                end) (c, w) = Returns (inr g1, (c1, w)) /\ coherent c1 (files w) /\ imports (files w) g g1 rs1) as (g1 & c1 & rs1 & E1 & Hc1 & H1).
  { destruct (enough a g); [|destruct (fr_content r); [by apply each_related|]]; exists g, c, []; split_and!; try done; by apply imports_nothing. }
  rewrite E1. destruct (IH g1 c1 w Hc1 Hs) as (g2 & c2 & rs2 & E2 & Hc2 & H2).
  exists g2, c2, (rs1 ++ rs2). split_and!; [done | done | by eapply imports_trans].
Qed.

(** C27: what is put before a request.  From a cache that agrees with the files, which have stamps of
    their own, assembling the context neither panics nor changes a file, and fails only as git does.  The rollups are of the
    paths the instruction names, each path once and in its order, and then of the related paths, at
    most as many as are allowed, which can be read; no two are of the same path.  Each shows of its
    file what the limit of bytes allows, or that it cannot be read; and each that shows something
    is counted as a hit or a miss of the cache. *)
Theorem context_assembled `{GitContext} instruction c w :
  coherent c (files w) -> stamped_by (files w) ->
  exists r c', assemble op a instruction (c, w) = Returns (r, (c', w)) /\ coherent c' (files w)
    /\ match r with
       | inl e => include_git_context a = true /\ collect_git_rollup (working_dir op) (max_diff_lines a) = inl e
       | inr ctx => exists named related, file_rollups ctx = named ++ related
           /\ map fr_path named = distinct_paths [] (extract_candidate_paths instruction)
           /\ map fr_path related = related_paths ctx /\ N.of_nat (length related) <= max_related a
           /\ NoDup (map place (file_rollups ctx))
           /\ Forall (fun r => tells (files w) (fr_path r) r) named
           /\ Forall (fun r => has_content r = true /\ tells (files w) (with_slashes (fr_path r)) r) related
           /\ cache_hits ctx + cache_misses ctx = N.of_nat (length (List.filter has_content (file_rollups ctx)))
       end.
Proof using Hwd.
  intros Hc Hs. unfold assemble, mbind at 1, cache_op_bind at 1.
  destruct (each_named (extract_candidate_paths instruction) gathered_nothing c w Hc Hs) as (g1 & c1 & named & -> & Hc1 & H1 & Hp & Hr).
  unfold mbind at 1, cache_op_bind at 1.
  destruct (related_imports (g_rollups g1) g1 c1 w Hc1 Hs) as (g2 & c2 & related & -> & Hc2 & H2).
  assert (forall ctx, file_rollups ctx = g_rollups g2 -> related_paths ctx = g_related g2 ->
    cache_hits ctx + cache_misses ctx = g_hits g2 + g_misses g2 ->
    exists named related, file_rollups ctx = named ++ related
           /\ map fr_path named = distinct_paths [] (extract_candidate_paths instruction)
           /\ map fr_path related = related_paths ctx /\ N.of_nat (length related) <= max_related a
           /\ NoDup (map place (file_rollups ctx))
           /\ Forall (fun r => tells (files w) (fr_path r) r) named
           /\ Forall (fun r => has_content r = true /\ tells (files w) (with_slashes (fr_path r)) r) related
           /\ cache_hits ctx + cache_misses ctx = N.of_nat (length (List.filter has_content (file_rollups ctx)))) as Hctx.
  { intros ctx E1 E2 E3. exists named, related. destruct H2 as [H2 Hrel Hcont Hlim].
    destruct H1 as [A1 A2 A3 A4 A5 A6], H2 as [B1 B2 B3 B4 B5 B6]. cbn in A1, A6. rewrite Hr in *. cbn in Hrel, Hlim.
    rewrite E1, E2, E3, B1, A1, Hrel. split_and!; try done.
    - rewrite Hrel, length_map in Hlim. apply Hlim. lia.
    - rewrite map_app. apply NoDup_app. split_and!; [done| |done].
      intros x (r & -> & Hin)%list_elem_of_fmap (r' & E & Hin')%list_elem_of_fmap.
      rewrite list.Forall_forall in A4, B4. apply A4 in Hin as [Hin _]. apply B4 in Hin' as [_ Hin']. rewrite <- E in Hin'. done.
    - rewrite list.Forall_forall in Hcont, B2 |- *. auto.
    - rewrite List.filter_app, length_app. lia. }
  destruct (include_git_context a) eqn:Hgit; cbn [negb].
  - unfold mbind, cache_op_bind, in_world, asks_or. destruct (collect_git_rollup _ _) as [e|roll].
    + by exists (inl e), c2.
    + eexists _, c2. split; [done|]. split; [done|]. by apply Hctx.
  - eexists _, c2. split; [done|]. split; [done|]. by apply Hctx.
Qed.
End assembler.

(** ** The instructions of a project *)
Section instructions.
Import Instructions.
Context `{TokenCount} (fs : FileSystem).

Definition used (l : list InstructionSource) : N := sum_N (map estimated_tokens (List.filter included l)).
(** The file of each directory that has one. *)
Definition found (dirs : list path) : list (path * str) := omap (fun dir => first_existing fs dir CANDIDATE_FILES) dirs.
Definition relative_to (root file : path) : path := unwrap_or (strip_path root file) file.
Definition sections_of (sources : list InstructionSource) (files : list (path * str)) : list str :=
  omap (fun '(source, file) => if included source then Some file.2 else None) (zip sources files).

Lemma used_cons s l : used (s :: l) = (if included s then estimated_tokens s else 0) + used l.
Proof. unfold used. cbn. by destruct (included s). Qed.

Lemma walk_fits root dirs : forall budget,
  let '(sections, sources) := walk_dirs fs root budget dirs in
  length sources = length (found dirs) /\ sections = sections_of sources (found dirs) /\ used sources <= budget
  /\ forall i source file content, sources !! i = Some source -> found dirs !! i = Some (file, content) ->
       is_path source = relative_to root file /\ estimated_tokens source = token_count content
       /\ (included source = true <-> used (take i sources) + token_count content <= budget).
Proof.
  induction dirs as [|dir dirs IH]; intros budget; cbn [walk_dirs].
  { split_and!; [done | done | unfold used; cbn; lia | by intros i ? ? ? ?]. }
  unfold found at 1 2 3. cbn [omap list_omap]. destruct (first_existing fs dir CANDIDATE_FILES) as [[file content]|]; [|apply IH].
  set (fits := token_count content <=? budget). set (rest := if fits then sat_sub budget (token_count content) else budget).
  specialize (IH rest). destruct (walk_dirs fs root rest dirs) as [sections sources]. destruct IH as (Hl & -> & Hu & Hi).
  assert ((if fits then token_count content else 0) + rest = budget) as Hrest.
  { unfold rest, fits, sat_sub. destruct (N.leb_spec (token_count content) budget); lia. }
  split_and!.
  - cbn. by rewrite Hl.
  - unfold sections_of. cbn. by destruct fits.
  - rewrite used_cons. cbn [included estimated_tokens]. destruct fits; lia.
  - intros [|i] source file' content'; cbn [lookup list_lookup].
    + intros [= <-] [= <- <-]. split_and!; [done | done|]. cbn [take]. unfold used, fits. cbn. rewrite N.leb_le. lia.
    + intros Hs Hf. destruct (Hi i source file' content' Hs Hf) as (H1 & H2 & H3). split_and!; [done | done|].
      cbn [take]. rewrite used_cons, H3. cbn [included estimated_tokens]. destruct fits; lia.
Qed.

(** The instructions of a project.  Of the directories from the root to the working directory
    each that has a file of instructions is listed, in that order, with the first of its names that
    can be read and the count of its tokens; a file is included exactly when it fits into what the
    files before it left of the budget; the included files together keep the budget, and the text is
    theirs, separated by empty lines. *)
Theorem instructions_fit root cwd budget :
  let files := found (directories_root_to_leaf root cwd) in
  let set := load_hierarchical_instructions fs root cwd budget in
  length (manifest set) = length files
  /\ is_content set = join [LF; LF] (sections_of (manifest set) files)
  /\ used (manifest set) <= budget
  /\ forall i source file content, manifest set !! i = Some source -> files !! i = Some (file, content) ->
       is_path source = relative_to root file /\ estimated_tokens source = token_count content
       /\ (included source = true <-> used (take i (manifest set)) + token_count content <= budget).
Proof.
  intros files set. pose proof (walk_fits root (directories_root_to_leaf root cwd) budget) as Hw.
  unfold set, load_hierarchical_instructions. destruct (walk_dirs _ _ _ _) as [sections sources].
  destruct Hw as (? & -> & ? & ?). done.
Qed.
End instructions.

(** ** Examples *)
Definition context_tree : FileSystem :=
  mk_FileSystem (list_to_map [([t!"ws"], Dir); ([t!"ws"; t!"src"], Dir);
    ([t!"ws"; t!"a.rs"], File t!"use crate::b::C;" 1); ([t!"ws"; t!"src"; t!"b"], Dir);
    ([t!"ws"; t!"src"; t!"b"; t!"C.rs"], File t!"fn c" 2)]) [] 7.
Definition context_op : ToolOperator := operator_new context_tree (components t!"/ws").
Definition no_git : GitContext := fun _ _ => inl (Bail t!"no git").
Definition small_assembler : ContextAssembler := mk_ContextAssembler 10 200 3 false.

Lemma context_tree_stamped : stamped_by context_tree.
Proof.
  split.
  - intros q t Hn. apply elem_of_list_to_map_2 in Hn. rewrite !elem_of_cons, elem_of_nil in Hn. naive_solver.
  - intros q data mt Hn. apply elem_of_list_to_map_2 in Hn. rewrite !elem_of_cons, elem_of_nil in Hn. cbn.
    destruct Hn as [[=]|[[=]|[[= -> -> ->]|[[=]|[[= -> -> ->]|[]]]]]]; lia.
Qed.

Lemma context_assembled_witness :
  let w := mk_World context_tree [] in
  exists r c', @assemble no_git context_op small_assembler t!"see a.rs, and none.md" (cache_default, w) = Returns (r, (c', w))
    /\ coherent c' context_tree
    /\ match r with
       | inl e => include_git_context small_assembler = true /\ no_git (working_dir context_op) 200 = inl e
       | inr ctx => exists named related, file_rollups ctx = named ++ related
           /\ map fr_path named = distinct_paths [] (extract_candidate_paths t!"see a.rs, and none.md")
           /\ map fr_path related = related_paths ctx /\ N.of_nat (length related) <= 3
           /\ NoDup (map place (file_rollups ctx))
           /\ Forall (fun r => tells context_op small_assembler context_tree (fr_path r) r) named
           /\ Forall (fun r => has_content r = true /\ tells context_op small_assembler context_tree (with_slashes (fr_path r)) r) related
           /\ cache_hits ctx + cache_misses ctx = N.of_nat (length (List.filter has_content (file_rollups ctx)))
       end.
Proof.
  intros w. apply (@context_assembled [t!"ws"] context_op eq_refl small_assembler no_git t!"see a.rs, and none.md" cache_default w);
    [apply coherent_empty | exact context_tree_stamped].
Defined.

Example context_rendered :
  match @assemble no_git context_op small_assembler t!"see a.rs, and none.md" (cache_default, mk_World context_tree []) with
  | Returns (inr ctx, _) => map (fun r => (fr_path r, fr_content r, content_limited r)) (file_rollups ctx)
  | _ => []
  end = [(t!"a.rs", Some t!"use crate:", true); (t!"none.md", None, false)].
Proof. vm_compute. reflexivity. Qed.
