(* ===== verification/Configuration.v ===== *)
(** The configuration: the layers a file or the variables give, their merge, and what is made of
    them (src/config.rs, src/config/load, src/config/hooks.rs, src/types/model_profile.rs, the
    reading of src/credentials.rs and the references to variables in src/mcp.rs).

    The TOML parser, the names and values of HTTP headers and the keyring are third-party code: the
    operations of classes and fields of a record.  A path of a setting is the text it was made of; a
    path that is walked is the list of its components.  An error is a value with the arguments of
    its message; what a library adds as the cause is left out. *)
From Stdlib Require Import NArith ZArith Lia.
From stdpp Require Import base list gmap strings numbers.
From S2P Require Import Prelude Text Collections Json Evidence Validation FileSystem TaskDocument History ToolRules ConversationState ModelRequest Policy RequestContext.
#[local] Open Scope N_scope.

(** ** The settings: config.rs *)
Module Settings.

Inductive McpTransport : Type := Stdio | Http.
Record McpServerConfig := mk_McpServerConfig {
  ms_name : str;
  ms_transport : McpTransport;
  ms_command : option str;
  ms_args : list str;
  ms_url : option str;
  ms_headers : list (str * str);
  ms_timeout_secs : option N;
}.

Inductive ApiTransport : Type := ApiHttp | ApiUnix | ApiBoth.
Definition http_enabled (t : ApiTransport) : bool := match t with ApiHttp | ApiBoth => true | ApiUnix => false end.
Definition unix_enabled (t : ApiTransport) : bool := match t with ApiUnix | ApiBoth => true | ApiHttp => false end.

Definition DEFAULT_LOCAL_API_HOST : str := t!"127.0.0.1".
Definition DEFAULT_LOCAL_API_PORT : N := 6274.

Record ApiConfig := mk_ApiConfig {
  api_transport : ApiTransport;
  api_host : str;
  api_port : N;
  api_socket : option str;
  api_secret : option str;
  api_tls_cert : option str;
  api_tls_key : option str;
  api_tls_ca_cert : option str;
  api_tls_skip_verify : bool;
  api_vpn_trust : bool;
}.
Record AutoMemoryConfig := mk_AutoMemoryConfig { am_enabled : bool; max_notes_per_turn : N }.
Record UndoConfig := mk_UndoConfig { undo_on : bool; max_checkpoints : N }.
Definition undo_default : UndoConfig := mk_UndoConfig true 20.
Record SearchConfig := mk_SearchConfig { se_enabled : bool; auto_index : bool; exclude : list str; max_file_size : N }.
Definition search_default : SearchConfig := mk_SearchConfig true true [t!"target/"; t!"node_modules/"; t!".git/"] 1048576.

Record ApiClientConfig := mk_ApiClientConfig {
  base_url : str;
  explicit_protocol : option ModelProtocol;
  probe_timeout_ms : N;
  delta_accumulator_memory_watermark_mb : N;
}.
Definition api_client_default : ApiClientConfig := mk_ApiClientConfig [] None 2000 256.
Definition delta_accumulator_memory_watermark_bytes (c : ApiClientConfig) : N :=
  N.min usize_max (delta_accumulator_memory_watermark_mb c * (1024 * 1024)).

(** A layer: what a file or the variables say of the settings. *)
Record SearchConfigLayer := mk_SearchLayer {
  sl_enabled : option bool; sl_auto_index : option bool; sl_exclude : option (list str); sl_max_file_size : option N }.
Record AutoMemoryConfigLayer := mk_AutoMemoryLayer { al_enabled : option bool; al_max_notes_per_turn : option N }.
Record CompactionConfigLayer := mk_CompactionLayer {
  kl_enabled : option bool; kl_threshold_percent : option N; kl_keep_recent_turns : option N; kl_summary_max_tokens : option N }.
Record UndoConfigLayer := mk_UndoLayer { ul_enabled : option bool; ul_max_checkpoints : option N }.
Record ApiConfigLayer := mk_ApiLayer {
  pl_transport : option str;
  pl_host : option str;
  pl_port : option N;
  pl_socket : option str;
  pl_key : option str;
  pl_tls_cert : option str;
  pl_tls_key : option str;
  pl_tls_ca_cert : option str;
  pl_tls_skip_verify : option bool;
  pl_vpn_trust : option bool;
}.
Record ConfigLayer := mk_ConfigLayer {
  l_model_name : option str;
  l_model_url : option str;
  l_model_url_skip_tls_check : option bool;
  l_working_dir : option str;
  l_sandbox : option str;
  l_sandbox_profile : option str;
  l_sandbox_require : option bool;
  l_model_backend : option str;
  l_model_protocol : option str;
  l_tool_call_mode : option str;
  l_model_profile : option str;
  l_max_project_instructions_tokens : option N;
  l_max_memory_tokens : option N;
  l_notes_path : option str;
  l_api : option ApiConfigLayer;
  l_hooks : option (list HookConfig);
  l_http_hooks : option (list HttpHookConfig);
  l_mcp_servers : option (list McpServerConfig);
  l_compaction : option CompactionConfigLayer;
  l_undo : option UndoConfigLayer;
  l_search : option SearchConfigLayer;
  l_auto_memory : option AutoMemoryConfigLayer;
  l_api_client : option ApiClientConfig;
}.
Definition api_layer_default : ApiConfigLayer := mk_ApiLayer None None None None None None None None None None.
Definition compaction_layer_default : CompactionConfigLayer := mk_CompactionLayer None None None None.
Definition auto_memory_layer_default : AutoMemoryConfigLayer := mk_AutoMemoryLayer None None.
Definition layer_default : ConfigLayer :=
  mk_ConfigLayer None None None None None None None None None None None None None None None None None None None None None None None.

(** The numbers of 32 bits are their patterns. *)
Record ModelProfile := mk_ModelProfile {
  mp_name : str;
  mp_system_prompt : str;
  mp_temperature : N;
  mp_top_p : N;
  mp_max_tokens : N;
  mp_stop_sequences : list str;
  mp_reasoning_budget : N;
}.

Record Config := mk_Config {
  model_token : option str;
  model_name : str;
  model_url : str;
  model_url_skip_tls_check : bool;
  working_dir : str;
  model_backend : ModelBackendKind;
  cfg_model_protocol : ModelProtocol;
  cfg_tool_call_mode : ToolCallMode;
  cfg_tool_policy : ToolPolicy;
  model_profile : ModelProfile;
  max_project_instructions_tokens : N;
  max_memory_tokens : N;
  sandbox : Sandbox.SandboxConfig;
  cfg_model_headers : Headers;
  notes_path : option str;
  api : ApiConfig;
  cfg_hooks : list HookConfig;
  cfg_http_hooks : list HttpHookConfig;
  mcp_servers : list McpServerConfig;
  compaction : CompactionConfig;
  undo : UndoConfig;
  search : SearchConfig;
  auto_memory : AutoMemoryConfig;
  api_client : ApiClientConfig;
  force : bool;
  bypass_policy : bool;
  expand_context : bool;
}.

(** *** One layer over another: config/load/merge.rs *)
(** [over.or(base)]. *)
Definition over {A} (b o : option A) : option A := match o with Some _ => o | None => b end.
Definition merge_sections {A} (f : A -> A -> A) (base top : option A) : option A :=
  match base, top with
  | None, None => None
  | Some l, None | None, Some l => Some l
  | Some b, Some o => Some (f b o)
  end.

Definition apply_compaction_over : option CompactionConfigLayer -> option CompactionConfigLayer -> option CompactionConfigLayer :=
  merge_sections (fun b o =>
    mk_CompactionLayer (over (kl_enabled b) (kl_enabled o)) (over (kl_threshold_percent b) (kl_threshold_percent o))
      (over (kl_keep_recent_turns b) (kl_keep_recent_turns o)) (over (kl_summary_max_tokens b) (kl_summary_max_tokens o))).
Definition apply_auto_memory_over : option AutoMemoryConfigLayer -> option AutoMemoryConfigLayer -> option AutoMemoryConfigLayer :=
  merge_sections (fun b o =>
    mk_AutoMemoryLayer (over (al_enabled b) (al_enabled o)) (over (al_max_notes_per_turn b) (al_max_notes_per_turn o))).
Definition apply_undo_over : option UndoConfigLayer -> option UndoConfigLayer -> option UndoConfigLayer :=
  merge_sections (fun b o =>
    mk_UndoLayer (over (ul_enabled b) (ul_enabled o)) (over (ul_max_checkpoints b) (ul_max_checkpoints o))).
Definition apply_search_over : option SearchConfigLayer -> option SearchConfigLayer -> option SearchConfigLayer :=
  merge_sections (fun b o =>
    mk_SearchLayer (over (sl_enabled b) (sl_enabled o)) (over (sl_auto_index b) (sl_auto_index o))
      (over (sl_exclude b) (sl_exclude o)) (over (sl_max_file_size b) (sl_max_file_size o))).
Definition apply_api_over : option ApiConfigLayer -> option ApiConfigLayer -> option ApiConfigLayer :=
  merge_sections (fun b o =>
    mk_ApiLayer (over (pl_transport b) (pl_transport o)) (over (pl_host b) (pl_host o)) (over (pl_port b) (pl_port o))
      (over (pl_socket b) (pl_socket o)) (over (pl_key b) (pl_key o)) (over (pl_tls_cert b) (pl_tls_cert o))
      (over (pl_tls_key b) (pl_tls_key o)) (over (pl_tls_ca_cert b) (pl_tls_ca_cert o))
      (over (pl_tls_skip_verify b) (pl_tls_skip_verify o)) (over (pl_vpn_trust b) (pl_vpn_trust o))).

Definition apply_over (b o : ConfigLayer) : ConfigLayer :=
  mk_ConfigLayer (over (l_model_name b) (l_model_name o)) (over (l_model_url b) (l_model_url o))
    (over (l_model_url_skip_tls_check b) (l_model_url_skip_tls_check o)) (over (l_working_dir b) (l_working_dir o))
    (over (l_sandbox b) (l_sandbox o)) (over (l_sandbox_profile b) (l_sandbox_profile o))
    (over (l_sandbox_require b) (l_sandbox_require o)) (over (l_model_backend b) (l_model_backend o))
    (over (l_model_protocol b) (l_model_protocol o)) (over (l_tool_call_mode b) (l_tool_call_mode o))
    (over (l_model_profile b) (l_model_profile o))
    (over (l_max_project_instructions_tokens b) (l_max_project_instructions_tokens o))
    (over (l_max_memory_tokens b) (l_max_memory_tokens o)) (over (l_notes_path b) (l_notes_path o))
    (apply_api_over (l_api b) (l_api o)) (over (l_hooks b) (l_hooks o)) (over (l_http_hooks b) (l_http_hooks o))
    (over (l_mcp_servers b) (l_mcp_servers o)) (apply_compaction_over (l_compaction b) (l_compaction o))
    (apply_undo_over (l_undo b) (l_undo o)) (apply_search_over (l_search b) (l_search o))
    (apply_auto_memory_over (l_auto_memory b) (l_auto_memory o)) (over (l_api_client b) (l_api_client o)).

(** *** Words: config/load/parse.rs *)
Definition word (s : str) : str := to_ascii_lowercase (trim s).
Definition parse_model_backend (s : str) : option ModelBackendKind :=
  if str_eqb (word s) t!"local-runtime" then Some LocalRuntime
  else if str_eqb (word s) t!"api-server" then Some ApiServer else None.
Definition parse_model_protocol (s : str) : option ModelProtocol :=
  if str_eqb (word s) t!"messages-v1" then Some MessagesV1
  else if str_eqb (word s) t!"chat-compat" then Some ChatCompat else None.
Definition parse_tool_call_mode (s : str) : option ToolCallMode :=
  if str_eqb (word s) t!"structured" then Some Structured else None.
Definition parse_api_transport (s : str) : option ApiTransport :=
  if str_eqb (word s) t!"http" then Some ApiHttp
  else if str_eqb (word s) t!"unix" then Some ApiUnix
  else if str_eqb (word s) t!"both" then Some ApiBoth else None.
Definition parse_sandbox_kind (s : str) : option Sandbox.SandboxKind :=
  if str_eqb (word s) t!"passthrough" then Some Sandbox.KPassthrough
  else if str_eqb (word s) t!"macos-exec" then Some Sandbox.KMacosExec
  else if str_eqb (word s) t!"container" then Some Sandbox.KContainer
  else if str_eqb (word s) t!"bubblewrap" then Some Sandbox.KBubblewrap else None.
Definition infer_model_protocol (api_url : str) : ModelProtocol := MessagesV1.
Definition default_tool_call_mode (model_url : str) : ToolCallMode := Structured.
Definition default_model_backend {urls : UrlParser} (model_url : str) : ModelBackendKind :=
  if is_empty (trim model_url) || is_local_endpoint_url model_url then LocalRuntime else ApiServer.

(** *** Settings with their defaults: config/load/resolve.rs *)
Definition resolve_compaction_config (layer : option CompactionConfigLayer) : CompactionConfig :=
  let l := unwrap_or layer compaction_layer_default in
  mk_CompactionConfig (unwrap_or (kl_enabled l) false) (clamp 10 99 (unwrap_or (kl_threshold_percent l) 80))
    (N.to_nat (clamp 1 32 (unwrap_or (kl_keep_recent_turns l) 4))) (clamp 64 4096 (unwrap_or (kl_summary_max_tokens l) 1024)).
Definition resolve_undo_config (layer : option UndoConfigLayer) : UndoConfig :=
  match layer with
  | None => undo_default
  | Some l => mk_UndoConfig (unwrap_or (ul_enabled l) (undo_on undo_default))
                (clamp 1 100 (unwrap_or (ul_max_checkpoints l) (max_checkpoints undo_default)))
  end.
Definition resolve_auto_memory_config (layer : option AutoMemoryConfigLayer) : AutoMemoryConfig :=
  let l := unwrap_or layer auto_memory_layer_default in
  mk_AutoMemoryConfig (unwrap_or (al_enabled l) false) (clamp 1 10 (unwrap_or (al_max_notes_per_turn l) 3)).
Definition normalize_exclude_prefixes (entries : list str) : list str :=
  map (fun entry => if ends_with [SLASH] entry then entry else entry ++ [SLASH]) entries.
Definition resolve_search_config (layer : option SearchConfigLayer) : SearchConfig :=
  match layer with
  | None => search_default
  | Some l => mk_SearchConfig (unwrap_or (sl_enabled l) (se_enabled search_default))
                (unwrap_or (sl_auto_index l) (auto_index search_default))
                (normalize_exclude_prefixes (unwrap_or (sl_exclude l) (exclude search_default)))
                (unwrap_or (sl_max_file_size l) (max_file_size search_default))
  end.
End Settings.

(** ** Servers of tools: validate_mcp_servers of config/load/resolve.rs, and mcp.rs *)
Module Servers.
Import Settings.

Inductive McpError : Type :=
| EmptyName
| InvalidName (name : str)
| DuplicateName (name : str)
| StdioWithoutCommand (name : str)
| StdioWithUrl (name : str)
| StdioWithHeaders (name : str)
| HttpWithoutUrl (name : str)
| HttpWithCommand (name : str)
| HttpWithArgs (name : str)
| EmptyHeaderName (name : str)
| Unterminated (value : str)
| EmptyReference
| VariableMissing (variable : str)
| VariableEmpty (variable : str).

Section servers.
Context (var : str -> option str).

(** The loop goes on behind a reference, so that it has no more rounds than the text has
    characters. *)
Fixpoint render_header (fuel : nat) (whole rendered rest : str) : McpError + str :=
  match fuel with
  | O => inr (rendered ++ rest)
  | S fuel =>
      match split_once t!"${" rest with
      | None => inr (rendered ++ rest)
      | Some (start, suffix) =>
          match split_once t!"}" suffix with
          | None => inl (Unterminated whole)
          | Some (name, rest) =>
              if is_empty name then inl EmptyReference
              else match var name with
                   | None => inl (VariableMissing name)
                   | Some v => if is_empty (trim v) then inl (VariableEmpty name)
                               else render_header fuel whole (rendered ++ start ++ trim v) rest
                   end
          end
      end
  end.
Definition resolve_mcp_header_env (v : str) : McpError + str :=
  render_header (S (length (trim v))) (trim v) [] (trim v).

Definition name_char (c : char) : bool := is_ascii_alphanumeric c || (c =? 95) || (c =? 45).

(** The headers, in the order of their names. *)
Fixpoint validate_headers (expand : bool) (server : str) (headers acc : list (str * str)) : McpError + list (str * str) :=
  match headers with
  | [] => inr acc
  | (name, v) :: r =>
      if is_empty (trim name) then inl (EmptyHeaderName server)
      else match (if expand then resolve_mcp_header_env v else inr (trim v)) with
           | inl e => inl e
           | inr v => validate_headers expand server r (bmap_insert (trim name) v acc)
           end
  end.

Definition solid_args (args : list str) : list str := omap (fun a => solid_text (Some a)) args.

Definition validate_transport (expand : bool) (s : McpServerConfig) : McpError + McpServerConfig :=
  let name := ms_name s in
  match ms_transport s with
  | Stdio =>
      match solid_text (ms_command s) with
      | None => inl (StdioWithoutCommand name)
      | Some command =>
          if opt_is_some (solid_text (ms_url s)) then inl (StdioWithUrl name)
          else if negb (match ms_headers s with [] => true | _ => false end) then inl (StdioWithHeaders name)
          else inr (mk_McpServerConfig name Stdio (Some command) (ms_args s) None (ms_headers s) (ms_timeout_secs s))
      end
  | Http =>
      match solid_text (ms_url s) with
      | None => inl (HttpWithoutUrl name)
      | Some url =>
          if opt_is_some (solid_text (ms_command s)) then inl (HttpWithCommand name)
          else if negb (match ms_args s with [] => true | _ => false end) then inl (HttpWithArgs name)
          else match validate_headers expand name (ms_headers s) [] with
               | inl e => inl e
               | inr headers => inr (mk_McpServerConfig name Http None (ms_args s) (Some url) headers (ms_timeout_secs s))
               end
      end
  end.

Definition validate_server (expand : bool) (seen : list str) (s : McpServerConfig) : McpError + McpServerConfig :=
  let name := trim (ms_name s) in
  if is_empty name then inl EmptyName
  else if negb (forallb name_char name) then inl (InvalidName name)
  else if str_in name seen then inl (DuplicateName name)
  else validate_transport expand
         (mk_McpServerConfig name (ms_transport s) (ms_command s) (solid_args (ms_args s)) (ms_url s) (ms_headers s) (ms_timeout_secs s)).

Fixpoint validate_servers_from (expand : bool) (seen : list str) (l : list McpServerConfig) : McpError + list McpServerConfig :=
  match l with
  | [] => inr []
  | s :: r =>
      match validate_server expand seen s with
      | inl e => inl e
      | inr v => match validate_servers_from expand (ms_name v :: seen) r with
                 | inl e => inl e
                 | inr vs => inr (v :: vs)
                 end
      end
  end.
Definition validate_mcp_servers_with_mode (servers : list McpServerConfig) (expand_header_env : bool) : McpError + list McpServerConfig :=
  validate_servers_from expand_header_env [] servers.
Definition validate_mcp_servers_for_layer (servers : list McpServerConfig) : McpError + unit :=
  match validate_mcp_servers_with_mode servers false with inl e => inl e | inr _ => inr tt end.
Definition validate_mcp_servers (servers : list McpServerConfig) : McpError + list McpServerConfig :=
  validate_mcp_servers_with_mode servers true.
End servers.
End Servers.

(** ** Loading: config/load *)
Module Load.
Import Settings Servers.

(** What a TOML file holds; numbers and dates are not looked at. *)
Inductive TomlValue : Type :=
| TomlString (s : str)
| TomlBool (b : bool)
| TomlArray (l : list TomlValue)
| TomlTable (m : list (str * TomlValue))
| TomlOther.
Class ConfigToml := {
  toml_value : str -> option TomlValue;
  (** The derived readers, which refuse a key they do not know. *)
  toml_layer : str -> option ConfigLayer;
  toml_profile : str -> option ModelProfile;
}.
(** [HeaderName::from_bytes], with the name in the letters it keeps. *)
Class HeaderNames := header_name : str -> option str.

Inductive ProfileError : Type :=
| ProfileUnread (e : ErrorKind)
| ProfileMalformed
| EmptyProfileName
| EmptySystemPrompt
| BadTemperature
| BadTopP
| NoMaxTokens
| UnsupportedSystemPrompt (normalized : str).

Inductive ConfigError : Type :=
| Unread (file : path) (e : ErrorKind)
| MalformedToml (file : path)
| TokenInFile (file : path)
| UnknownKey (file : path)
| InvalidSetting (file : path) (key value : str)
| MustRemainFalse (file : path) (key : str)
| InvalidServer (file : path) (e : McpError)
| InvalidHttpHook (file : path) (url : str)
| NotInRepoConfig (key : str) (file : path)
| NotInSystemConfig (key : str) (file : path)
| InvalidVariable (name value : str)
| ProfileFailed (selected : str) (base : path) (cause : ProfileError)
| ServerRefused (e : McpError)
| HttpHookRefused (url : str)
| HeadersNotAnObject
| InvalidHeaderName (name : str)
| HeaderNotAString (name : str)
| InvalidHeaderValue (name : str).

Definition Res (A : Type) : Type := ConfigError + A.
#[export] Instance res_ret : MRet Res := fun A a => inr a.
#[export] Instance res_bind : MBind Res := fun A B f m => match m with inl e => inl e | inr a => f a end.
Definition refuse_if (b : bool) (e : ConfigError) : Res unit := if b then inl e else inr tt.
Definition refusing {E A} (wrap : E -> ConfigError) (m : E + A) : Res A := match m with inl e => inl (wrap e) | inr a => inr a end.

(** How [get_password] of an entry ends, or that there is no entry handle. *)
Inductive KeyringAnswer : Type := Password (v : str) | NoEntry | NoStorageAccess | OtherKeyringError | NoHandle.

(** What of the process and the machine is read. *)
Record Place := mk_Place {
  var : str -> option str;
  keyring : str -> KeyringAnswer;
  (** [dirs::config_dir] and [dirs::home_dir]. *)
  config_dir : option str;
  home_dir : option str;
  place_files : FileSystem;
}.

(** *** Profiles: types/model_profile.rs *)
Definition CODER_SYSTEM_PROMPT_PATH : str := t!"src/prompts/coder_system.txt".
Definition f32_one : N := 1065353216.
Definition f32_minus_zero : N := 2147483648.
Definition f32_is_finite (x : N) : bool := negb ((x / 2 ^ 23) mod 256 =? 255).
(** Less than zero, for a finite number. *)
Definition f32_is_negative (x : N) : bool := f32_minus_zero <? x.
(** Of finite numbers those above zero and at most one: their patterns are ordered as they are. *)
Definition f32_in_unit (x : N) : bool := (0 <? x) && (x <=? f32_one).

Definition normalize_relative_path (text : str) : str := Paths.trim_dot_slash (replace [DiskPolicy.BACKSLASH] [SLASH] text).
Definition resolve_system_prompt_text (text : str) : ProfileError + unit :=
  let normalized := normalize_relative_path text in
  if str_eqb normalized CODER_SYSTEM_PROMPT_PATH then inr tt else inl (UnsupportedSystemPrompt normalized).
Definition validated (p : ModelProfile) : ProfileError + ModelProfile :=
  if is_empty (trim (mp_name p)) then inl EmptyProfileName
  else if is_empty (mp_system_prompt p) then inl EmptySystemPrompt
  else if negb (f32_is_finite (mp_temperature p)) || f32_is_negative (mp_temperature p) then inl BadTemperature
  else if negb (f32_is_finite (mp_top_p p)) || negb (f32_in_unit (mp_top_p p)) then inl BadTopP
  else if mp_max_tokens p =? 0 then inl NoMaxTokens
  else match resolve_system_prompt_text (mp_system_prompt p) with inl e => inl e | inr _ => inr p end.
(** The temperature is 0.3. *)
Definition default_for_backend (backend : ModelBackendKind) : ModelProfile :=
  mk_ModelProfile t!"default" CODER_SYSTEM_PROMPT_PATH 1050253722 f32_one
    (match backend with LocalRuntime => 1024 | ApiServer => 4096 end) [] 0.
Definition profile_tool_call_mode (p : ModelProfile) : ToolCallMode := Structured.

Section load.
Context {urls : UrlParser} {toml : ConfigToml} {js : SerdeJson} {hn : HeaderNames} {hv : HeaderValues} (w : Place).

(** A text that is read, or the error. *)
Definition read_file (p : path) : ErrorKind + str := read_to_string (place_files w) p.

Definition profile_load (p : path) : ProfileError + ModelProfile :=
  match read_file p with
  | inl e => inl (ProfileUnread e)
  | inr raw => match toml_profile raw with None => inl ProfileMalformed | Some profile => validated profile end
  end.

(** *** Places of files: config/load/paths.rs *)
(** The nearest directory at or above; a path has no more ancestors than components. *)
Fixpoint nearest_from (ok : path -> bool) (fuel : nat) (dir : path) : option path :=
  if ok dir then Some dir
  else match fuel, parent dir with
       | S fuel, Some up => nearest_from ok fuel up
       | _, _ => None
       end.
Definition nearest (ok : path -> bool) (dir : path) : option path := nearest_from ok (length dir) dir.
Definition config_of (dir : path) : path := path_join dir (components t!".vex/config.toml").
Definition has_config (dir : path) : bool := exists_ (place_files w) (config_of dir).
Definition find_repo_local_config (cwd : path) : option path := config_of <$> nearest has_config cwd.
Definition find_repo_root (cwd : path) : option path :=
  nearest (fun dir => exists_ (place_files w) (path_join dir (components t!".git")) || has_config dir) cwd.

Definition env_path (key : str) : option str := v ← var w key; if is_empty v then None else Some v.
Definition or_else {A} (a b : option A) : option A := over b a.
Definition preferred_home_dir : option str := or_else (env_path t!"HOME") (home_dir w).
Definition user_config_path : option path :=
  (fun d => path_join (components d) (components t!"vex/config.toml")) <$> or_else (env_path t!"XDG_CONFIG_HOME") (config_dir w).
Definition system_config_path : option path := Some (components t!"/etc/vex/config.toml").

(** [PathBuf::join] on texts. *)
Definition join_text (base rest : str) : str :=
  if starts_with [SLASH] rest then rest
  else if is_empty base || ends_with [SLASH] base then base ++ rest else base ++ [SLASH] ++ rest.
Definition expand_home (text : str) : str :=
  match strip_prefix t!"~/" text, preferred_home_dir with
  | Some rest, Some home => join_text home rest
  | _, _ => text
  end.
Definition resolve_working_dir (wd : option str) (fallback_cwd : path) : str := unwrap_or wd (display fallback_cwd).
Definition resolve_profile_base_dir (cwd : path) (repo_cfg : option path) : path :=
  match (config ← repo_cfg; dir ← parent config; parent dir) with
  | Some root => root
  | None => unwrap_or (find_repo_root cwd) cwd
  end.
Definition load_model_profile (selected_path : option str) (profile_base_dir : path) (backend : ModelBackendKind) : Res ModelProfile :=
  match selected_path with
  | None => inr (default_for_backend backend)
  | Some text => refusing (ProfileFailed text profile_base_dir) (profile_load (path_join profile_base_dir (components text)))
  end.

(** *** A file: load_config_layer of config/load/mod.rs *)
Definition toml_get (key : str) (v : TomlValue) : option TomlValue := match v with TomlTable m => im_get key m | _ => None end.

Definition check_setting {A} (file : path) (key : str) (parse : str -> option A) (v : option str) : Res unit :=
  match v with
  | Some s => refuse_if (negb (opt_is_some (parse s))) (InvalidSetting file key s)
  | None => inr tt
  end.
Definition check_api (file : path) (l : option ApiConfigLayer) : Res unit :=
  match l with
  | None => inr tt
  | Some api =>
      check_setting file t!"api.transport" parse_api_transport (pl_transport api) ≫= fun _ =>
      refuse_if (unwrap_or (pl_tls_skip_verify api) false) (MustRemainFalse file t!"api.tls_skip_verify") ≫= fun _ =>
      refuse_if (unwrap_or (pl_vpn_trust api) false) (MustRemainFalse file t!"api.vpn_trust")
  end.
Definition hook_url_ok (hook : HttpHookConfig) : bool := starts_with t!"https://" (url hook) || starts_with t!"http://" (url hook).
Fixpoint check_http_hooks (wrap : str -> ConfigError) (hooks : list HttpHookConfig) : Res unit :=
  match hooks with
  | [] => inr tt
  | h :: r => refuse_if (negb (hook_url_ok h)) (wrap (url h)) ≫= fun _ => check_http_hooks wrap r
  end.
Definition check_layer (file : path) (l : ConfigLayer) : Res unit :=
  check_setting file t!"model_backend" parse_model_backend (l_model_backend l) ≫= fun _ =>
  check_setting file t!"model_protocol" parse_model_protocol (l_model_protocol l) ≫= fun _ =>
  check_setting file t!"tool_call_mode" parse_tool_call_mode (l_tool_call_mode l) ≫= fun _ =>
  check_setting file t!"sandbox" parse_sandbox_kind (l_sandbox l) ≫= fun _ =>
  check_api file (l_api l) ≫= fun _ =>
  (match l_mcp_servers l with
   | Some servers => refusing (InvalidServer file) (validate_mcp_servers_for_layer (var w) servers)
   | None => inr tt
   end) ≫= fun _ =>
  match l_http_hooks l with Some hooks => check_http_hooks (InvalidHttpHook file) hooks | None => inr tt end.

Definition load_config_layer (file : path) : Res (option ConfigLayer) :=
  match read_file file with
  | inl NotFound => inr None
  | inl e => inl (Unread file e)
  | inr content =>
      match toml_value content with
      | None => inl (MalformedToml file)
      | Some raw =>
          if opt_is_some (toml_get t!"model_token" raw) then inl (TokenInFile file)
          else match toml_layer content with
               | None => inl (UnknownKey file)
               | Some layer => check_layer file layer ≫= fun _ => inr (Some layer)
               end
      end
  end.
Definition load_layer_at (file : option path) : Res (option ConfigLayer) :=
  match file with Some file => load_config_layer file | None => inr None end.

(** *** The variables: read_env_layer of config/load/mod.rs *)
(** A variable that is not blank, as it is and without the white space around it. *)
Definition var_text (name : str) : option str := v ← var w name; if is_empty (trim v) then None else Some v.
Definition var_trimmed (name : str) : option str := solid_text (var w name).
Definition var_checked {A} (parse : str -> option A) (name : str) : Res (option str) :=
  match var_text name with
  | Some v => if opt_is_some (parse v) then inr (Some v) else inl (InvalidVariable name v)
  | None => inr None
  end.
Definition var_read {A} (parse : str -> option A) (name : str) : Res (option A) :=
  match var_text name with
  | Some v => match parse v with Some a => inr (Some a) | None => inl (InvalidVariable name v) end
  | None => inr None
  end.
Definition var_flag (name : str) : Res (option bool) := var_read Assembler.parse_bool_str name.
Definition var_budget (name : str) : option N :=
  n ← v ← var w name; parse_uint usize_max (trim v);
  if 0 <? n then Some n else None.

(** [credentials::read]; an error counts as no token. *)
Definition is_disabled : bool := opt_is_some (var_text t!"VEX_KEYRING_DISABLED").
Definition keyring_read (account : str) : option str :=
  if is_disabled then None
  else match keyring w account with
       | Password v => if is_empty (trim v) then None else Some v
       | _ => None
       end.
Definition model_token_from_env_or_keyring : option str := or_else (var_text t!"VEX_MODEL_TOKEN") (keyring_read t!"model-token").

Definition env_api_layer (transport : option str) (port : option N) (tls_skip_verify vpn_trust : bool) : ApiConfigLayer :=
  mk_ApiLayer transport (var_trimmed t!"VEX_API_HOST") port (var_trimmed t!"VEX_API_SOCKET") (var_trimmed t!"VEX_API_KEY")
    (var_trimmed t!"VEX_API_TLS_CERT") (var_trimmed t!"VEX_API_TLS_KEY") (var_trimmed t!"VEX_API_TLS_CA_CERT")
    (Some tls_skip_verify) (Some vpn_trust).

Definition read_env_layer : Res (ConfigLayer * option str) :=
  model_protocol ← var_checked parse_model_protocol t!"VEX_MODEL_PROTOCOL";
  model_backend ← var_checked parse_model_backend t!"VEX_MODEL_BACKEND";
  tool_call_mode ← var_checked parse_tool_call_mode t!"VEX_TOOL_CALL_MODE";
  skip_tls ← var_flag t!"VEX_MODEL_URL_SKIP_TLS_CHECK";
  transport ← var_checked parse_api_transport t!"VEX_API_TRANSPORT";
  port ← var_read (fun v => parse_uint u16_max (trim v)) t!"VEX_API_PORT";
  tls_skip_verify ← var_flag t!"VEX_API_TLS_SKIP_VERIFY";
  vpn_trust ← var_flag t!"VEX_API_VPN_TRUST";
  require ← var_flag t!"VEX_SANDBOX_REQUIRE";
  inr (mk_ConfigLayer (var_text t!"VEX_MODEL_NAME") (var_trimmed t!"VEX_MODEL_URL") skip_tls (var_text t!"VEX_WORKDIR")
         (var_text t!"VEX_SANDBOX") (var_trimmed t!"VEX_SANDBOX_PROFILE") require model_backend model_protocol tool_call_mode
         (var_text t!"VEX_MODEL_PROFILE") (var_budget t!"VEX_MAX_PROJECT_INSTRUCTIONS_TOKENS")
         (var_budget t!"VEX_MAX_MEMORY_TOKENS") None
         (Some (env_api_layer transport port (unwrap_or tls_skip_verify false) (unwrap_or vpn_trust false)))
         None None None None None None None None,
       model_token_from_env_or_keyring).

(** *** The settings of the merged layers: resolve_config of config/load/resolve.rs *)
Definition resolve_secret_reference (v : option str) : option str :=
  trimmed ← solid_text v;
  match (rest ← strip_prefix t!"${" trimmed; strip_suffix t!"}" rest) with
  | Some name => solid_text (var w name)
  | None => Some trimmed
  end.
Definition resolve_api_config (layer : option ApiConfigLayer) : ApiConfig :=
  let l := unwrap_or layer api_layer_default in
  mk_ApiConfig (unwrap_or (t ← pl_transport l; parse_api_transport t) ApiHttp)
    (unwrap_or (pl_host l) DEFAULT_LOCAL_API_HOST) (unwrap_or (pl_port l) DEFAULT_LOCAL_API_PORT)
    (expand_home <$> pl_socket l) (resolve_secret_reference (pl_key l)) (expand_home <$> pl_tls_cert l)
    (expand_home <$> pl_tls_key l) (expand_home <$> pl_tls_ca_cert l) (unwrap_or (pl_tls_skip_verify l) false)
    (unwrap_or (pl_vpn_trust l) false).

Fixpoint insert_headers (m : list (str * value)) (headers : Headers) : Res Headers :=
  match m with
  | [] => inr headers
  | (k, v) :: r =>
      match header_name k, as_str v with
      | None, _ => inl (InvalidHeaderName k)
      | Some _, None => inl (HeaderNotAString k)
      | Some name, Some text => if header_value_ok text then insert_headers r (im_insert name text headers) else inl (InvalidHeaderValue k)
      end
  end.
Definition parse_model_headers_json : Res Headers :=
  match var_text t!"VEX_MODEL_HEADERS_JSON" with
  | None => inr []
  | Some raw => match json_from_str raw with Some (Object m) => insert_headers m [] | _ => inl HeadersNotAnObject end
  end.

Definition resolve_sandbox (l : ConfigLayer) : Sandbox.SandboxConfig :=
  Sandbox.mk_SandboxConfig (unwrap_or (s ← l_sandbox l; parse_sandbox_kind s) Sandbox.KPassthrough)
    (l_sandbox_profile l) (unwrap_or (l_sandbox_require l) false).

Definition resolve_config (merged : ConfigLayer) (env_token : option str) (fallback_cwd profile_base_dir : path) : Res Config :=
  let model_url := unwrap_or (l_model_url merged) [] in
  let backend := unwrap_or (b ← l_model_backend merged; parse_model_backend b) (default_model_backend model_url) in
  let protocol := unwrap_or (p ← l_model_protocol merged; parse_model_protocol p) (infer_model_protocol model_url) in
  model_profile ← load_model_profile (l_model_profile merged) profile_base_dir backend;
  let tool_call_mode :=
    if opt_is_some (l_model_profile merged) then profile_tool_call_mode model_profile
    else unwrap_or (m ← l_tool_call_mode merged; parse_tool_call_mode m) Structured in
  servers ← refusing ServerRefused (validate_mcp_servers (var w) (unwrap_or (l_mcp_servers merged) []));
  headers ← parse_model_headers_json;
  check_http_hooks HttpHookRefused (unwrap_or (l_http_hooks merged) []) ≫= fun _ =>
  inr (mk_Config env_token (unwrap_or (l_model_name merged) t!"local/default") model_url
         (unwrap_or (l_model_url_skip_tls_check merged) false) (resolve_working_dir (l_working_dir merged) fallback_cwd)
         backend protocol tool_call_mode Full model_profile (unwrap_or (l_max_project_instructions_tokens merged) 4096)
         (unwrap_or (l_max_memory_tokens merged) 2048) (resolve_sandbox merged) headers (expand_home <$> l_notes_path merged)
         (resolve_api_config (l_api merged)) (unwrap_or (l_hooks merged) []) (unwrap_or (l_http_hooks merged) []) servers
         (resolve_compaction_config (l_compaction merged)) (resolve_undo_config (l_undo merged))
         (resolve_search_config (l_search merged)) (resolve_auto_memory_config (l_auto_memory merged))
         (unwrap_or (l_api_client merged) api_client_default) false false false).

(** *** The layers: load_layers of config/load/mod.rs *)
Definition sets {A} (f : ConfigLayer -> option A) (l : option ConfigLayer) : bool := opt_is_some (l ≫= f).
Definition named (file : option path) : path := unwrap_or file (components t!"<unknown>").
Definition check_repo (file : option path) (l : option ConfigLayer) : Res unit :=
  let refuse b key := refuse_if b (NotInRepoConfig key (named file)) in
  refuse (unwrap_or (l ≫= l_model_url_skip_tls_check) false) t!"model_url_skip_tls_check" ≫= fun _ =>
  refuse (sets l_notes_path l) t!"notes_path" ≫= fun _ =>
  refuse (sets l_hooks l) t!"hooks" ≫= fun _ =>
  refuse (sets l_http_hooks l) t!"http_hooks" ≫= fun _ =>
  refuse (sets l_mcp_servers l) t!"mcp_servers".
Definition check_repo_key (file : option path) (l : option ConfigLayer) : Res unit :=
  refuse_if (sets (fun l => l_api l ≫= pl_key) l) (NotInRepoConfig t!"api.key" (named file)).
Definition check_system (file : option path) (l : option ConfigLayer) : Res unit :=
  refuse_if (sets l_mcp_servers l) (NotInSystemConfig t!"mcp_servers" (named file)).

Definition apply_layer (merged : ConfigLayer) (l : option ConfigLayer) : ConfigLayer :=
  match l with Some l => apply_over merged l | None => merged end.
Definition merge_layers (layers : list (option ConfigLayer)) : ConfigLayer := fold_left apply_layer layers layer_default.

Definition load_layers (cwd : path) (repo_cfg user_cfg system_cfg : option path) (profile_base_dir : path) : Res Config :=
  system_layer ← load_layer_at system_cfg;
  user_layer ← load_layer_at user_cfg;
  repo_layer ← load_layer_at repo_cfg;
  check_repo repo_cfg repo_layer ≫= fun _ =>
  check_system system_cfg system_layer ≫= fun _ =>
  check_repo_key repo_cfg repo_layer ≫= fun _ =>
  read_env_layer ≫= fun '(env_layer, env_token) =>
  resolve_config (merge_layers [system_layer; user_layer; repo_layer; Some env_layer]) env_token cwd profile_base_dir.

Definition load_from_cwd (cwd : path) : Res Config :=
  let repo_cfg := find_repo_local_config cwd in
  load_layers cwd repo_cfg user_config_path system_config_path (resolve_profile_base_dir cwd repo_cfg).
Definition load_for_tests (cwd : path) (user system : option path) : Res Config :=
  let repo_cfg := find_repo_local_config cwd in
  load_layers cwd repo_cfg user system (resolve_profile_base_dir cwd repo_cfg).

(** The configuration of the process, once one was loaded: config/cache.rs. *)
Definition load_cached (cwd : path) : ST (option Config) (Res Config) := fun cached =>
  match cached with
  | Some cfg => (inr cfg, cached)
  | None => match load_from_cwd cwd with inl e => (inl e, None) | inr cfg => (inr cfg, Some cfg) end
  end.

(** *** What the doctor reads: load_doctor_layer and doctor_rollup *)
Record DoctorMcpServer := mk_DoctorMcpServer { ds_name : str; ds_transport : str; ds_command : option str; ds_url : option str }.
Record DoctorConfigLayer := mk_DoctorLayer {
  dl_model_url : option str;
  dl_working_dir : option str;
  dl_sandbox_require : option bool;
  dl_mcp_servers : option (list DoctorMcpServer);
}.
Definition doctor_layer_default : DoctorConfigLayer := mk_DoctorLayer None None None None.
Record DoctorConfigRollup := mk_DoctorConfigRollup {
  dr_model_url : option str;
  dr_working_dir : str;
  dr_model_token_present : bool;
  dr_sandbox_require : bool;
  dr_mcp_servers : list DoctorMcpServer;
}.

Definition toml_str (v : TomlValue) : option str := match v with TomlString s => Some s | _ => None end.
Definition toml_bool (v : TomlValue) : option bool := match v with TomlBool b => Some b | _ => None end.
Definition get_str (key : str) (v : TomlValue) : option str := x ← toml_get key v; toml_str x.
Definition doctor_flag (key : str) (v : TomlValue) : option bool := x ← toml_get key v; toml_bool x.

Definition doctor_server (entry : TomlValue) : option DoctorMcpServer :=
  match entry with
  | TomlTable _ =>
      let command := solid_text (get_str t!"command" entry) in
      let url := solid_text (get_str t!"url" entry) in
      let guessed := if opt_is_some url then Some t!"http" else if opt_is_some command then Some t!"stdio" else None in
      Some (mk_DoctorMcpServer (trim (unwrap_or (get_str t!"name" entry) t!"unnamed"))
              (unwrap_or (or_else (solid_text (get_str t!"transport" entry)) guessed) t!"unknown") command url)
  | _ => None
  end.
Definition doctor_servers (raw : TomlValue) : option (list DoctorMcpServer) :=
  match toml_get t!"mcp_servers" raw with
  | Some (TomlArray entries) => Some (omap doctor_server entries)
  | _ => None
  end.
Definition load_doctor_layer (file : path) : Res (option DoctorConfigLayer) :=
  match read_file file with
  | inl NotFound => inr None
  | inl e => inl (Unread file e)
  | inr content =>
      match toml_value content with
      | None => inl (MalformedToml file)
      | Some raw =>
          inr (Some (mk_DoctorLayer (solid_text (get_str t!"model_url" raw)) (get_str t!"working_dir" raw)
                       (doctor_flag t!"sandbox_require" raw) (doctor_servers raw)))
      end
  end.
Definition doctor_layer_at (file : option path) : Res DoctorConfigLayer :=
  match file with
  | Some file => l ← load_doctor_layer file; inr (unwrap_or l doctor_layer_default)
  | None => inr doctor_layer_default
  end.
(** [repo.or(user).or(system)]. *)
Definition nearest_of {A} (f : DoctorConfigLayer -> option A) (repo user system : DoctorConfigLayer) : option A :=
  or_else (or_else (f repo) (f user)) (f system).

Definition doctor_rollup (cwd : path) : Res DoctorConfigRollup :=
  system ← doctor_layer_at system_config_path;
  user ← doctor_layer_at user_config_path;
  repo ← doctor_layer_at (find_repo_local_config cwd);
  env_require ← var_flag t!"VEX_SANDBOX_REQUIRE";
  inr (mk_DoctorConfigRollup
         (or_else (var_trimmed t!"VEX_MODEL_URL") (nearest_of dl_model_url repo user system))
         (resolve_working_dir (or_else (var_trimmed t!"VEX_WORKDIR") (nearest_of dl_working_dir repo user system)) cwd)
         (opt_is_some model_token_from_env_or_keyring)
         (unwrap_or (or_else env_require (nearest_of dl_sandbox_require repo user system)) false)
         (unwrap_or (nearest_of dl_mcp_servers repo user system) [])).
End load.

(** *** A configuration in use: config.rs *)
Section use.
Context {urls : UrlParser}.

Definition default_for_tui (cwd : option path) : Config :=
  mk_Config None t!"local/default" [] false (display (unwrap_or cwd (components t!"."))) LocalRuntime MessagesV1 Structured Full
    (default_for_backend LocalRuntime) 4096 2048 (Sandbox.mk_SandboxConfig Sandbox.KPassthrough None false) [] None
    (mk_ApiConfig ApiHttp DEFAULT_LOCAL_API_HOST DEFAULT_LOCAL_API_PORT None None None None None false false) [] [] []
    (mk_CompactionConfig false 80 4 1024) undo_default search_default (mk_AutoMemoryConfig false 3) api_client_default
    false false false.

Definition effective_model_endpoint_url (c : Config) : str :=
  if is_empty (trim (model_url c)) then trim (base_url (api_client c)) else trim (model_url c).
Definition is_local_endpoint (c : Config) : bool := is_local_endpoint_url (effective_model_endpoint_url c).

Inductive ValidationError : Type :=
| UrlUnset
| UrlNotHttp (url : str)
| NameEmpty
| TokenUnset (url : str)
| NotHttps (url : str)
| LocalModelAway.

Definition validate (c : Config) : ValidationError + unit :=
  let endpoint := effective_model_endpoint_url c in
  let is_local := is_local_endpoint c in
  if is_empty endpoint then inl UrlUnset
  else if negb (starts_with t!"http://" endpoint) && negb (starts_with t!"https://" endpoint) then inl (UrlNotHttp endpoint)
  else if is_empty (trim (model_name c)) then inl NameEmpty
  else if negb is_local && negb (opt_is_some (model_token c)) then inl (TokenUnset endpoint)
  else if negb is_local && starts_with t!"http://" endpoint then inl (NotHttps endpoint)
  else if negb is_local && starts_with t!"local/" (model_name c) then inl LocalModelAway
  else inr tt.

Definition with_selection (url name : str) (backend : ModelBackendKind) (protocol : ModelProtocol) (mode : ToolCallMode)
    (profile : ModelProfile) (c : Config) : Config :=
  mk_Config (model_token c) name url (model_url_skip_tls_check c) (working_dir c) backend protocol mode (cfg_tool_policy c)
    profile (max_project_instructions_tokens c) (max_memory_tokens c) (sandbox c) (cfg_model_headers c) (notes_path c) (api c)
    (cfg_hooks c) (cfg_http_hooks c) (mcp_servers c) (compaction c) (undo c) (search c) (auto_memory c) (api_client c)
    (force c) (bypass_policy c) (expand_context c).

#[export] Instance ModelBackendKind_eq_dec : EqDecision ModelBackendKind.
Proof. solve_decision. Defined.
#[export] Instance ToolCallMode_eq_dec : EqDecision ToolCallMode.
Proof. solve_decision. Defined.

Definition apply_interactive_model_selection (url : str) (name : option str) (c : Config) : Config :=
  let preserve_backend := negb (bool_decide (model_backend c = default_model_backend (model_url c))) in
  let preserve_protocol := negb (bool_decide (cfg_model_protocol c = infer_model_protocol (model_url c))) in
  let preserve_mode := negb (bool_decide (cfg_tool_call_mode c = default_tool_call_mode (model_url c))) in
  let next_url := trim url in
  let next_backend := if preserve_backend then model_backend c else default_model_backend next_url in
  with_selection next_url (unwrap_or (solid_text name) (model_name c)) next_backend
    (if preserve_protocol then cfg_model_protocol c else infer_model_protocol next_url)
    (if preserve_mode then cfg_tool_call_mode c else default_tool_call_mode next_url)
    (if bool_decide (model_backend c = next_backend) then model_profile c else default_for_backend next_backend) c.

Definition should_warn_about_model_tls_skip_check (c : Config) : bool :=
  model_url_skip_tls_check c && starts_with t!"https://" (model_url c).
End use.
End Load.
