(* ===== verification/ConfigurationTheory.v ===== *)
(** What a configuration promises: which layer a setting is of, what a file of the repository
    cannot set, and what holds of every configuration that is loaded. *)
From Stdlib Require Import NArith ZArith Lia.
From stdpp Require Import base list gmap strings numbers.
From S2P Require Import Prelude Text Utf8 Collections Json Evidence Validation FileSystem TaskDocument History ToolRules ConversationState ModelRequest Policy RequestContext Configuration.
Import Settings Servers Load.
#[local] Open Scope N_scope.

(** ** Which layer a setting is of *)
(** The first layer that sets it; a section is there if a layer has it, and each of its settings is
    that of the first section to set it. *)
Definition first_api (l : list ApiConfigLayer) : option ApiConfigLayer :=
  match l with
  | [] => None
  | _ => Some (mk_ApiLayer (find_map pl_transport l) (find_map pl_host l) (find_map pl_port l) (find_map pl_socket l) (find_map pl_key l)
                 (find_map pl_tls_cert l) (find_map pl_tls_key l) (find_map pl_tls_ca_cert l) (find_map pl_tls_skip_verify l)
                 (find_map pl_vpn_trust l))
  end.
Definition first_compaction (l : list CompactionConfigLayer) : option CompactionConfigLayer :=
  match l with
  | [] => None
  | _ => Some (mk_CompactionLayer (find_map kl_enabled l) (find_map kl_threshold_percent l) (find_map kl_keep_recent_turns l)
                 (find_map kl_summary_max_tokens l))
  end.
Definition first_undo (l : list UndoConfigLayer) : option UndoConfigLayer :=
  match l with [] => None | _ => Some (mk_UndoLayer (find_map ul_enabled l) (find_map ul_max_checkpoints l)) end.
Definition first_search (l : list SearchConfigLayer) : option SearchConfigLayer :=
  match l with
  | [] => None
  | _ => Some (mk_SearchLayer (find_map sl_enabled l) (find_map sl_auto_index l) (find_map sl_exclude l) (find_map sl_max_file_size l))
  end.
Definition first_auto_memory (l : list AutoMemoryConfigLayer) : option AutoMemoryConfigLayer :=
  match l with [] => None | _ => Some (mk_AutoMemoryLayer (find_map al_enabled l) (find_map al_max_notes_per_turn l)) end.

(** What layers say, the most important first. *)
Definition first_layer (l : list ConfigLayer) : ConfigLayer :=
  mk_ConfigLayer (find_map l_model_name l) (find_map l_model_url l) (find_map l_model_url_skip_tls_check l) (find_map l_working_dir l)
    (find_map l_sandbox l) (find_map l_sandbox_profile l) (find_map l_sandbox_require l) (find_map l_model_backend l)
    (find_map l_model_protocol l) (find_map l_tool_call_mode l) (find_map l_model_profile l)
    (find_map l_max_project_instructions_tokens l) (find_map l_max_memory_tokens l) (find_map l_notes_path l)
    (first_api (omap l_api l)) (find_map l_hooks l) (find_map l_http_hooks l) (find_map l_mcp_servers l)
    (first_compaction (omap l_compaction l)) (first_undo (omap l_undo l)) (first_search (omap l_search l))
    (first_auto_memory (omap l_auto_memory l)) (find_map l_api_client l).

Lemma over_find {A B} (f : A -> option B) x l : over (find_map f l) (f x) = find_map f (x :: l).
Proof. cbn. by destruct (f x). Qed.

Lemma find_single {A B} (f : A -> option B) x : find_map f [x] = f x.
Proof. cbn. by destruct (f x). Qed.

Definition one_more {A} (x : option A) (l : list A) : list A := match x with Some y => y :: l | None => l end.
(** A section of the layers so far, with the section of one more. *)
Ltac one_more_section x l :=
  destruct x as [x|], l as [|y l]; cbn [merge_sections one_more]; [| |done|done];
  [ rewrite !find_single; by destruct x
  | cbn [pl_transport pl_host pl_port pl_socket pl_key pl_tls_cert pl_tls_key pl_tls_ca_cert pl_tls_skip_verify pl_vpn_trust
         kl_enabled kl_threshold_percent kl_keep_recent_turns kl_summary_max_tokens ul_enabled ul_max_checkpoints
         sl_enabled sl_auto_index sl_exclude sl_max_file_size al_enabled al_max_notes_per_turn];
    by rewrite !over_find ].

Lemma api_over_first l x : apply_api_over (first_api l) x = first_api (one_more x l).
Proof. unfold apply_api_over, first_api. one_more_section x l. Qed.
Lemma compaction_over_first l x : apply_compaction_over (first_compaction l) x = first_compaction (one_more x l).
Proof. unfold apply_compaction_over, first_compaction. one_more_section x l. Qed.
Lemma undo_over_first l x : apply_undo_over (first_undo l) x = first_undo (one_more x l).
Proof. unfold apply_undo_over, first_undo. one_more_section x l. Qed.
Lemma search_over_first l x : apply_search_over (first_search l) x = first_search (one_more x l).
Proof. unfold apply_search_over, first_search. one_more_section x l. Qed.
Lemma auto_memory_over_first l x : apply_auto_memory_over (first_auto_memory l) x = first_auto_memory (one_more x l).
Proof. unfold apply_auto_memory_over, first_auto_memory. one_more_section x l. Qed.

Lemma omap_one_more {A B} (f : A -> option B) x l : one_more (f x) (omap f l) = omap f (x :: l).
Proof. cbn. by destruct (f x). Qed.

Lemma apply_over_first x l : apply_over (first_layer l) x = first_layer (x :: l).
Proof.
  unfold apply_over, first_layer.
  cbn [l_model_name l_model_url l_model_url_skip_tls_check l_working_dir l_sandbox l_sandbox_profile l_sandbox_require l_model_backend
       l_model_protocol l_tool_call_mode l_model_profile l_max_project_instructions_tokens l_max_memory_tokens l_notes_path l_api
       l_hooks l_http_hooks l_mcp_servers l_compaction l_undo l_search l_auto_memory l_api_client].
  by rewrite !over_find, api_over_first, compaction_over_first, undo_over_first, search_over_first, auto_memory_over_first, !omap_one_more.
Qed.

Lemma merge_from layers l : fold_left apply_layer layers (first_layer l) = first_layer (reverse (omap id layers) ++ l).
Proof.
  revert l. induction layers as [|[x|] layers IH]; intros l; cbn [fold_left apply_layer]; [done| |apply IH].
  rewrite apply_over_first, IH. change (omap id (Some x :: layers)) with (x :: omap id layers).
  by rewrite reverse_cons, <- app_assoc.
Qed.

Lemma layers_merged_at layers : merge_layers layers = first_layer (reverse (omap id layers)).
Proof. unfold merge_layers. change layer_default with (first_layer []). by rewrite merge_from, app_nil_r. Qed.

(** Which layer a setting is of.  Merging any layers, the least important first, gives for every
    setting what the last layer that sets it says; a section is there when a layer has it, and its
    settings are merged one by one in the same way, while a list is taken whole. *)
Theorem layers_merged layers : merge_layers layers = first_layer (reverse (omap id layers)).
Proof. apply layers_merged_at. Qed.

(** ** Servers *)
(** A text with no white space around it. *)
Definition tight (s : str) : Prop := s <> [] /\ trim s = s.

Lemma solid_text_tight o s : solid_text o = Some s -> tight s.
Proof.
  unfold solid_text. destruct o as [t|]; [|done]. cbn. destruct (trim t) as [|c r] eqn:E; [done|]. intros [= <-].
  split; [done|]. rewrite <- E. apply trim_solid.
Qed.

Lemma solid_text_some o : opt_is_some (solid_text o) = true <-> exists t, o = Some t /\ trim t <> [].
Proof.
  unfold solid_text. destruct o as [t|]; cbn; [|by split; [|intros (? & ? & ?)]].
  destruct (trim t) eqn:E; cbn; split; try done; [intros (t' & [= <-] & ?); by rewrite E in *|].
  intros _. exists t. by rewrite E.
Qed.

(** What is asked of a server in a file. *)
Definition name_ok (s : McpServerConfig) : Prop := trim (ms_name s) <> [] /\ forallb name_char (trim (ms_name s)) = true.
Definition filled (o : option str) : Prop := opt_is_some (solid_text o) = true.
Definition server_acceptable (s : McpServerConfig) : Prop :=
  name_ok s /\
  match ms_transport s with
  | Stdio => filled (ms_command s) /\ ~ filled (ms_url s) /\ ms_headers s = []
  | Http => filled (ms_url s) /\ ~ filled (ms_command s) /\ solid_args (ms_args s) = []
            /\ Forall (fun h => trim h.1 <> []) (ms_headers s)
  end.

(** What a server is after it was accepted. *)
Definition server_wf (s : McpServerConfig) : Prop :=
  tight (ms_name s) /\ forallb name_char (ms_name s) = true /\ Forall tight (ms_args s) /\
  match ms_transport s with
  | Stdio => (exists command, ms_command s = Some command /\ tight command) /\ ms_url s = None /\ ms_headers s = []
  | Http => (exists url, ms_url s = Some url /\ tight url) /\ ms_command s = None /\ ms_args s = []
            /\ Forall (fun h => tight h.1) (ms_headers s)
  end.

Section servers.
Context (var : str -> option str).

Lemma headers_accepted server headers : forall acc,
  opt_is_some (match validate_headers var false server headers acc with inl _ => None | inr hs => Some hs end) = true
  <-> Forall (fun h => trim h.1 <> []) headers.
Proof.
  induction headers as [|[name v] headers IH]; intros acc; cbn [validate_headers]; [by split|].
  rewrite list.Forall_cons. cbn [fst]. destruct (trim name) eqn:E; cbn [is_empty]; [split; [done|]; by intros [? _]|].
  rewrite IH. by split; [|intros [_ ?]].
Qed.

Lemma insert_tight name v (acc : list (str * str)) : tight name -> Forall (fun h => tight h.1) acc ->
  Forall (fun h => tight h.1) (bmap_insert name v acc).
Proof.
  intros Hn. induction 1 as [|[k' v'] acc Hk Hacc IH]; cbn [bmap_insert]; [by constructor|].
  destruct (ltb name k'); [constructor; [done|by constructor]|]. destruct (ltb k' name); by constructor.
Qed.

Lemma headers_tight expand server headers : forall acc hs,
  Forall (fun h => tight h.1) acc -> validate_headers var expand server headers acc = inr hs -> Forall (fun h => tight h.1) hs.
Proof.
  induction headers as [|[name v] headers IH]; intros acc hs Hacc; cbn [validate_headers]; [by intros [= <-]|].
  destruct (trim name) as [|c r] eqn:E; cbn [is_empty]; [done|]. destruct (if expand then _ else _) as [e|x]; [done|].
  apply IH, insert_tight; [|done]. split; [done|]. rewrite <- E. apply trim_solid.
Qed.

Lemma solid_args_tight args : Forall tight (solid_args args).
Proof.
  apply list.Forall_forall. intros x (a & Ha & Hx)%list_elem_of_omap. by apply (solid_text_tight (Some a)).
Qed.

Lemma transport_wf expand s v : tight (ms_name s) -> forallb name_char (ms_name s) = true -> Forall tight (ms_args s) ->
  validate_transport var expand s = inr v -> server_wf v /\ ms_name v = ms_name s.
Proof.
  intros Hn Hc Ha. unfold validate_transport. destruct (ms_transport s).
  - destruct (solid_text (ms_command s)) as [command|] eqn:E; [|done]. destruct (opt_is_some _); [done|].
    destruct (ms_headers s) eqn:Eh; [|done]. intros [= <-]. apply solid_text_tight in E. unfold server_wf. cbn. naive_solver.
  - destruct (solid_text (ms_url s)) as [url|] eqn:E; [|done]. destruct (opt_is_some _); [done|].
    destruct (ms_args s) eqn:Eh; [|done]. cbn [negb]. destruct (validate_headers _ _ _ _ _) as [e|hs] eqn:Ehs; [done|].
    intros [= <-]. apply solid_text_tight in E. apply headers_tight in Ehs; [|done]. unfold server_wf. cbn. naive_solver.
Qed.

Lemma server_valid expand seen s v : validate_server var expand seen s = inr v ->
  server_wf v /\ ms_name v = trim (ms_name s) /\ ms_name v ∉ seen.
Proof.
  unfold validate_server. destruct (trim (ms_name s)) as [|c r] eqn:E; cbn [is_empty]; [done|].
  destruct (forallb name_char (c :: r)) eqn:Hc; [|done]. destruct (str_in (c :: r) seen) eqn:Hs; [done|]. cbn [negb].
  intros Hv. apply transport_wf in Hv as [Hwf Hn]; cbn [ms_name ms_args] in *; [| |done|apply solid_args_tight].
  - split_and!; [done|done|]. rewrite Hn. intros Hin. apply str_in_iff in Hin. by rewrite Hs in Hin.
  - split; [done|]. rewrite <- E. apply trim_solid.
Qed.

Lemma servers_valid expand l : forall seen vs, validate_servers_from var expand seen l = inr vs ->
  Forall server_wf vs /\ NoDup (map ms_name vs) /\ (forall x, x ∈ map ms_name vs -> x ∉ seen)
  /\ map ms_name vs = map (fun s => trim (ms_name s)) l.
Proof.
  induction l as [|s l IH]; intros seen vs; cbn [validate_servers_from]; [intros [= <-]; split_and!; try done; [constructor|]; by intros ? ?%not_elem_of_nil|].
  destruct (validate_server var expand seen s) as [e|v] eqn:Ev; [done|].
  destruct (validate_servers_from var expand (ms_name v :: seen) l) as [e|vs'] eqn:El; [done|]. intros [= <-].
  apply server_valid in Ev as (Hwf & Hn & Hs). apply IH in El as (Hwfs & Hnd & Hseen & Hm). cbn [map]. split_and!.
  - by constructor.
  - constructor; [|done]. intros Hin. apply (Hseen _ Hin). by left.
  - intros x [->|Hx]%elem_of_cons; [done|]. apply Hseen in Hx. set_solver.
  - by rewrite Hm, Hn.
Qed.

Definition accepted {A} (r : McpError + A) : Prop := match r with inl _ => False | inr _ => True end.

Lemma no_items {A} (l : list A) : negb (match l with [] => true | _ => false end) = true <-> l <> [].
Proof. by destruct l. Qed.

Lemma transport_accepted s : trim (ms_name s) <> [] -> forallb name_char (trim (ms_name s)) = true ->
  accepted (validate_transport var false (mk_McpServerConfig (trim (ms_name s)) (ms_transport s) (ms_command s) (solid_args (ms_args s))
              (ms_url s) (ms_headers s) (ms_timeout_secs s))) <-> server_acceptable s.
Proof.
  intros H1 H2. unfold validate_transport, server_acceptable, name_ok, filled.
  cbn -[solid_text solid_args trim validate_headers]. destruct (ms_transport s).
  - destruct (solid_text (ms_command s)); cbn -[solid_text solid_args trim validate_headers]; [|(intuition congruence)]. destruct (solid_text (ms_url s)); cbn -[solid_text solid_args trim validate_headers]; [(intuition congruence)|].
    destruct (ms_headers s); cbn -[solid_text solid_args trim validate_headers]; (intuition congruence).
  - destruct (solid_text (ms_url s)); cbn -[solid_text solid_args trim validate_headers]; [|(intuition congruence)]. destruct (solid_text (ms_command s)); cbn -[solid_text solid_args trim validate_headers]; [(intuition congruence)|].
    destruct (solid_args (ms_args s)); cbn -[solid_text solid_args trim validate_headers]; [|(intuition congruence)].
    pose proof (headers_accepted (trim (ms_name s)) (ms_headers s) []) as Hh.
    destruct (validate_headers var false (trim (ms_name s)) (ms_headers s) []); cbn in *; (intuition congruence).
Qed.

Lemma server_accepted seen s :
  accepted (validate_server var false seen s) <-> server_acceptable s /\ trim (ms_name s) ∉ seen.
Proof.
  unfold validate_server. destruct (trim (ms_name s)) as [|c r] eqn:E; cbn [is_empty].
  { split; [done|]. intros [[[H _] _] _]. by rewrite E in H. }
  rewrite <- E. destruct (forallb name_char (trim (ms_name s))) eqn:Hc; cbn [negb].
  2: { split; [done|]. intros [[[_ H] _] _]. by rewrite Hc in H. }
  destruct (str_in (trim (ms_name s)) seen) eqn:Hs.
  - apply str_in_iff in Hs. split; [done|]. by intros [_ ?].
  - apply str_in_not in Hs. rewrite transport_accepted; [|by rewrite E|done]. naive_solver.
Qed.

Lemma servers_accepted_from l : forall seen,
  accepted (validate_servers_from var false seen l)
  <-> Forall server_acceptable l /\ NoDup (map (fun s => trim (ms_name s)) l) /\ (forall s, s ∈ l -> trim (ms_name s) ∉ seen).
Proof.
  induction l as [|s l IH]; intros seen; cbn [validate_servers_from map].
  { split; [intros _ | done]. split_and!; [constructor | constructor|]. by intros s ?%not_elem_of_nil. }
  rewrite list.Forall_cons, list.NoDup_cons. pose proof (server_accepted seen s) as Hs.
  destruct (validate_server var false seen s) as [e|v] eqn:Ev; cbn [accepted] in Hs |- *.
  { split; [done|]. intros ([H _] & _ & H2). apply Hs. split; [done|]. apply H2. by left. }
  apply server_valid in Ev as (_ & Hn & _). specialize (IH (ms_name v :: seen)). rewrite Hn in *.
  assert (accepted (match validate_servers_from var false (trim (ms_name s) :: seen) l with inl e => inl e | inr vs => inr (v :: vs) end)
    <-> accepted (validate_servers_from var false (trim (ms_name s) :: seen) l)) as -> by (by destruct (validate_servers_from _ _ _ _)).
  rewrite IH. destruct Hs as [Hs _]. destruct (Hs I) as [Ha Hseen]. split.
  - intros (H1 & H2 & H3). split_and!; [done|done| |done|].
    + intros (s' & E & Hin)%list_elem_of_fmap. apply (H3 s' Hin). rewrite E. by left.
    + intros s' [->|Hin]%elem_of_cons; [done|]. intros Hx. apply (H3 s' Hin). by right.
  - intros ((_ & H1) & (H2 & H3) & H4). split_and!; [done|done|]. intros s' Hin [E|Hx]%elem_of_cons.
    + apply H2. rewrite <- E. by apply (list_elem_of_fmap_2 (fun s => trim (ms_name s))).
    + apply (H4 s'); [by right|done].
Qed.

(** Which servers of tools a file may have.  The servers of a file are accepted exactly when
    their names, trimmed, are all different and made of letters, digits, [_] and [-], one that is
    started has a command but neither an address nor headers, and one that is reached has an address
    but neither a command nor arguments, and no header without a name. *)
Theorem servers_accepted_iff servers :
  validate_mcp_servers_for_layer var servers = inr tt
  <-> Forall server_acceptable servers /\ NoDup (map (fun s => trim (ms_name s)) servers).
Proof.
  pose proof (servers_accepted_from servers []) as H. unfold validate_mcp_servers_for_layer, validate_mcp_servers_with_mode.
  assert (forall s, s ∈ servers -> trim (ms_name s) ∉ []) as Hnil by (intros s _; apply not_elem_of_nil).
  destruct (validate_servers_from var false [] servers); cbn [accepted] in H; naive_solver.
Qed.
End servers.

(** ** Loading *)
Lemma res_bind_inr {A B} (m : Res A) (f : A -> Res B) b : (m ≫= f) = inr b -> exists a, m = inr a /\ f a = inr b.
Proof. destruct m as [e|a]; [done|]. intros H. by exists a. Qed.
Lemma refuse_if_inr b e u : refuse_if b e = inr u -> b = false.
Proof. by destruct b. Qed.
Lemma refusing_inr {E A} (wrap : E -> ConfigError) (m : E + A) a : refusing wrap m = inr a -> m = inr a.
Proof. by destruct m; cbn; [|intros [= ->]]. Qed.
(** Takes a computation that returned apart. *)
Ltac res_steps H :=
  repeat (let a := fresh "a" in let E := fresh "E" in apply res_bind_inr in H as (a & E & H));
  repeat match goal with E : refuse_if _ _ = inr _ |- _ => apply refuse_if_inr in E end.

Section loading.
Context {urls : UrlParser} {toml : ConfigToml} {js : SerdeJson} {hn : HeaderNames} {hv : HeaderValues} (w : Place).

Lemma load_inv cwd repo_cfg user_cfg system_cfg base c :
  load_layers w cwd repo_cfg user_cfg system_cfg base = inr c ->
  exists system_layer user_layer repo_layer env_layer token,
    load_layer_at w system_cfg = inr system_layer /\ load_layer_at w user_cfg = inr user_layer
    /\ load_layer_at w repo_cfg = inr repo_layer /\ read_env_layer w = inr (env_layer, token)
    /\ check_repo repo_cfg repo_layer = inr tt /\ sets l_mcp_servers system_layer = false
    /\ sets (fun l => l_api l ≫= pl_key) repo_layer = false
    /\ resolve_config w (merge_layers [system_layer; user_layer; repo_layer; Some env_layer]) token cwd base = inr c.
Proof.
  intros H. unfold load_layers in H. apply res_bind_inr in H as (sys & Hs & H). apply res_bind_inr in H as (usr & Hu & H).
  apply res_bind_inr in H as (repo & Hr & H). apply res_bind_inr in H as ([] & Hcr & H).
  apply res_bind_inr in H as (u1 & Hcs & H). apply res_bind_inr in H as (u2 & Hck & H).
  apply res_bind_inr in H as ([env token] & He & H). apply refuse_if_inr in Hcs, Hck.
  exists sys, usr, repo, env, token. done.
Qed.

(** What the settings are of the merged layers. *)
Lemma resolve_inv merged token cwd base c : resolve_config w merged token cwd base = inr c ->
  model_token c = token
  /\ model_url_skip_tls_check c = unwrap_or (l_model_url_skip_tls_check merged) false
  /\ notes_path c = expand_home w <$> l_notes_path merged
  /\ api c = resolve_api_config w (l_api merged)
  /\ cfg_hooks c = unwrap_or (l_hooks merged) []
  /\ cfg_http_hooks c = unwrap_or (l_http_hooks merged) []
  /\ validate_mcp_servers (var w) (unwrap_or (l_mcp_servers merged) []) = inr (mcp_servers c)
  /\ check_http_hooks HttpHookRefused (cfg_http_hooks c) = inr tt
  /\ load_model_profile w (l_model_profile merged) base (model_backend c) = inr (model_profile c)
  /\ compaction c = resolve_compaction_config (l_compaction merged)
  /\ undo c = resolve_undo_config (l_undo merged)
  /\ search c = resolve_search_config (l_search merged)
  /\ auto_memory c = resolve_auto_memory_config (l_auto_memory merged).
Proof.
  unfold resolve_config. cbv zeta. intros H. apply res_bind_inr in H as (profile & Hp & H). apply res_bind_inr in H as (servers & Hv & H).
  apply res_bind_inr in H as (headers & _ & H). apply res_bind_inr in H as ([] & Hh & H). injection H as <-.
  apply refusing_inr in Hv. cbn. split_and!; done.
Qed.

Lemma check_repo_inv file l : check_repo file l = inr tt ->
  unwrap_or (l ≫= l_model_url_skip_tls_check) false = false /\ sets l_notes_path l = false /\ sets l_hooks l = false
  /\ sets l_http_hooks l = false /\ sets l_mcp_servers l = false.
Proof.
  unfold check_repo. cbv zeta. intros H. res_steps H. split_and!; done.
Qed.

(** A layer that does not set something can be left out. *)
Lemma unset {A} (f : ConfigLayer -> option A) l : sets f l = false -> (l ≫= f) = None.
Proof. unfold sets. by destruct (l ≫= f). Qed.

Lemma find_layers {A} (f : ConfigLayer -> option A) env repo usr sys :
  find_map f (reverse (omap id [sys; usr; repo; Some env])) = over (over (over (sys ≫= f) (usr ≫= f)) (repo ≫= f)) (f env).
Proof.
  destruct sys as [s|], usr as [u|], repo as [r|]; cbn; unfold over; destruct (f env); cbn; try done.
  all: try destruct (f r); try destruct (f u); try destruct (f s); done.
Qed.
Lemma find_trusted {A} (f : ConfigLayer -> option A) env usr sys :
  find_map f (reverse (omap id [sys; usr; Some env])) = over (over (sys ≫= f) (usr ≫= f)) (f env).
Proof.
  destruct sys as [s|], usr as [u|]; cbn; unfold over; destruct (f env); cbn; try done.
  all: try destruct (f u); try destruct (f s); done.
Qed.

Lemma untouched {A} (f : ConfigLayer -> option A) env repo usr sys : sets f repo = false ->
  find_map f (reverse (omap id [sys; usr; repo; Some env])) = find_map f (reverse (omap id [sys; usr; Some env])).
Proof. intros H%unset. by rewrite find_layers, find_trusted, H. Qed.

Definition api_of {A} (f : ApiConfigLayer -> option A) (l : ConfigLayer) : option A := l_api l ≫= f.

Lemma first_api_key l : (first_api l ≫= pl_key) = find_map pl_key l.
Proof. by destruct l. Qed.
Lemma find_omap {A B C} (f : B -> option C) (g : A -> option B) l : find_map f (omap g l) = find_map (fun x => g x ≫= f) l.
Proof. induction l as [|x l IH]; cbn; [done|]. destruct (g x) as [y|]; cbn; [by destruct (f y) | done]. Qed.

Lemma merged_key layers : (l_api (merge_layers layers) ≫= pl_key) = find_map (api_of pl_key) (reverse (omap id layers)).
Proof. rewrite layers_merged_at. cbn [l_api first_layer]. rewrite first_api_key. apply find_omap. Qed.

Lemma api_secret_of layer : api_secret (resolve_api_config w layer) = resolve_secret_reference w (layer ≫= pl_key).
Proof. by destruct layer. Qed.

Lemma env_inv env token : read_env_layer w = inr (env, token) ->
  token = model_token_from_env_or_keyring w
  /\ exists transport port skip trust, l_api env = Some (env_api_layer w transport port (unwrap_or skip false) (unwrap_or trust false))
     /\ var_flag w t!"VEX_API_TLS_SKIP_VERIFY" = inr skip /\ var_flag w t!"VEX_API_VPN_TRUST" = inr trust.
Proof.
  unfold read_env_layer. intros H. res_steps H. injection H as <- <-. split; [done|]. cbn [l_api]. by do 4 eexists.
Qed.

Lemma env_flags env token layers : read_env_layer w = inr (env, token) ->
  (api_tls_skip_verify (resolve_api_config w (l_api (merge_layers (layers ++ [Some env])))) = true ->
   var_flag w t!"VEX_API_TLS_SKIP_VERIFY" = inr (Some true))
  /\ (api_vpn_trust (resolve_api_config w (l_api (merge_layers (layers ++ [Some env])))) = true ->
      var_flag w t!"VEX_API_VPN_TRUST" = inr (Some true)).
Proof.
  intros (_ & transport & port & skip & trust & Ha & -> & ->)%env_inv. rewrite layers_merged_at.
  assert (reverse (omap id (layers ++ [Some env])) = env :: reverse (omap id layers)) as ->.
  { rewrite omap_app. cbn [omap list_omap id]. by rewrite reverse_app. }
  cbn [l_api first_layer omap list_omap]. rewrite Ha. destruct skip as [[]|], trust as [[]|]; cbn; done.
Qed.

(** C12: what a file of the repository cannot set.  When a configuration is loaded, its hooks of
    both kinds, its servers of tools, the place of its notes, the key of its API and the token of the
    model are those that the system file, the user's file and the variables give without the
    repository's; the check of certificates is skipped only if one of these says so, and the flags
    of the API are set by their variables only. *)
Theorem repo_config_confined cwd repo_cfg user_cfg system_cfg base c :
  load_layers w cwd repo_cfg user_cfg system_cfg base = inr c ->
  exists system_layer user_layer env_layer,
    load_layer_at w system_cfg = inr system_layer /\ load_layer_at w user_cfg = inr user_layer
    /\ read_env_layer w = inr (env_layer, model_token c)
    /\ let trusted := merge_layers [system_layer; user_layer; Some env_layer] in
       cfg_hooks c = unwrap_or (l_hooks trusted) []
       /\ cfg_http_hooks c = unwrap_or (l_http_hooks trusted) []
       /\ validate_mcp_servers (var w) (unwrap_or (l_mcp_servers trusted) []) = inr (mcp_servers c)
       /\ notes_path c = expand_home w <$> l_notes_path trusted
       /\ api_secret (api c) = resolve_secret_reference w (l_api trusted ≫= pl_key)
       /\ (model_url_skip_tls_check c = true -> l_model_url_skip_tls_check trusted = Some true)
       /\ (api_tls_skip_verify (api c) = true -> var_flag w t!"VEX_API_TLS_SKIP_VERIFY" = inr (Some true))
       /\ (api_vpn_trust (api c) = true -> var_flag w t!"VEX_API_VPN_TRUST" = inr (Some true)).
Proof.
  intros (sys & usr & repo & env & token & Hs & Hu & _ & He & Hr & _ & Hk & H)%load_inv.
  apply check_repo_inv in Hr as (Hskip & Hnotes & Hhooks & Hhttp & Hmcp).
  apply resolve_inv in H as (Ht & Hc & Hn & Ha & Hh & Hhh & Hm & _).
  exists sys, usr, env. rewrite Ht. split_and!; try done. cbv zeta.
  destruct (env_flags env token [sys; usr; repo] He) as [F1 F2]. cbn [app] in F1, F2. rewrite <- Ha in F1, F2.
  rewrite layers_merged_at in Hc, Hn, Hh, Hhh, Hm. cbn [first_layer l_model_url_skip_tls_check l_notes_path l_hooks l_http_hooks l_mcp_servers] in *.
  rewrite (untouched l_notes_path) in Hn by done. rewrite (untouched l_hooks) in Hh by done.
  rewrite (untouched l_http_hooks) in Hhh by done. rewrite (untouched l_mcp_servers) in Hm by done. split_and!; try (rewrite layers_merged_at; done); try done.
  - rewrite Ha, api_secret_of, !merged_key. by rewrite untouched.
  - rewrite Hc, layers_merged_at. cbn [first_layer l_model_url_skip_tls_check]. rewrite find_layers, find_trusted.
    destruct (l_model_url_skip_tls_check env) as [b|]; cbn; [by intros ->|].
    destruct (repo ≫= l_model_url_skip_tls_check) as [b|]; cbn in *; [by subst|]. destruct (over _ _); cbn; [by intros ->|done].
Qed.

(** What holds of a configuration that was loaded. *)
Definition profile_wf (p : ModelProfile) : Prop :=
  trim (mp_name p) <> [] /\ normalize_relative_path (mp_system_prompt p) = CODER_SYSTEM_PROMPT_PATH
  /\ f32_is_finite (mp_temperature p) = true /\ f32_is_negative (mp_temperature p) = false
  /\ f32_in_unit (mp_top_p p) = true /\ mp_max_tokens p <> 0.
Record config_wf (c : Config) : Prop := {
  wf_compaction : 10 <= threshold_percent (compaction c) <= 99 /\ (1 <= keep_recent_turns (compaction c) <= 32)%nat
    /\ 64 <= summary_max_tokens (compaction c) <= 4096;
  wf_undo : 1 <= max_checkpoints (undo c) <= 100;
  wf_auto_memory : 1 <= max_notes_per_turn (auto_memory c) <= 10;
  wf_exclude : Forall (fun entry => ends_with [SLASH] entry = true) (exclude (search c));
  wf_http_hooks : Forall (fun h => hook_url_ok h = true) (cfg_http_hooks c);
  wf_servers : Forall server_wf (mcp_servers c) /\ NoDup (map ms_name (mcp_servers c));
  wf_profile : profile_wf (model_profile c);
  wf_token : forall t, model_token c = Some t -> trim t <> [];
  wf_secret : forall key, api_secret (api c) = Some key -> tight key;
}.

Lemma validated_wf p p' : validated p = inr p' -> profile_wf p'.
Proof.
  unfold validated. destruct (trim (mp_name p)) eqn:E1; cbn [is_empty]; [done|]. destruct (is_empty (mp_system_prompt p)); [done|].
  destruct (negb (f32_is_finite (mp_temperature p)) || f32_is_negative (mp_temperature p)) eqn:E2; [done|].
  destruct (negb (f32_is_finite (mp_top_p p)) || negb (f32_in_unit (mp_top_p p))) eqn:E3; [done|].
  destruct (mp_max_tokens p =? 0) eqn:E4; [done|]. unfold resolve_system_prompt_text.
  destruct (str_eqb _ _) eqn:E5; [|done]. intros [= <-]. apply str_eqb_iff in E5. apply N.eqb_neq in E4.
  apply orb_false_iff in E2 as [E2 ?], E3 as [_ E3]. apply negb_false_iff in E2, E3. unfold profile_wf. rewrite E1. done.
Qed.

Lemma profile_loaded selected base backend p : load_model_profile w selected base backend = inr p -> profile_wf p.
Proof.
  unfold load_model_profile. destruct selected as [text|].
  - intros H%refusing_inr. unfold profile_load in H. destruct (read_file _ _) as [e|raw]; [done|].
    destruct (toml_profile raw); [|done]. by apply validated_wf in H.
  - intros [= <-]. by destruct backend.
Qed.

Lemma hooks_checked wrap l u : check_http_hooks wrap l = inr u -> Forall (fun h => hook_url_ok h = true) l.
Proof.
  induction l as [|h l IH]; cbn [check_http_hooks]; [constructor|]. intros H. apply res_bind_inr in H as ([] & E & H).
  apply refuse_if_inr, negb_false_iff in E. constructor; [done|by apply IH].
Qed.

Lemma text_not_blank name v : var_text w name = Some v -> trim v <> [].
Proof. unfold var_text. destruct (var w name) as [x|]; cbn; [|done]. destruct (trim x) eqn:E; cbn; [done|]. intros [= <-]. by rewrite E. Qed.
Lemma token_not_blank v : model_token_from_env_or_keyring w = Some v -> trim v <> [].
Proof.
  unfold model_token_from_env_or_keyring, or_else, over. destruct (var_text _ _) as [x|] eqn:E; [intros [= ->]; by apply text_not_blank in E|].
  unfold keyring_read. destruct (is_disabled w); [done|]. destruct (keyring w _) as [x| | | |]; try done.
  destruct (trim x) eqn:Ex; cbn; [done|]. intros [= <-]. by rewrite Ex.
Qed.
Lemma secret_tight o key : resolve_secret_reference w o = Some key -> tight key.
Proof.
  unfold resolve_secret_reference. destruct (solid_text o) as [t|] eqn:E; cbn; [|done].
  destruct (_ ≫= _); [apply solid_text_tight|]. intros [= <-]. by apply solid_text_tight in E.
Qed.
Lemma excluded_closed layer : Forall (fun entry => ends_with [SLASH] entry = true) (exclude (resolve_search_config layer)).
Proof.
  unfold resolve_search_config. destruct layer as [l|]; [|by repeat constructor]. cbn [exclude].
  apply list.Forall_forall. intros x (entry & -> & _)%list_elem_of_fmap. destruct (ends_with [SLASH] entry) eqn:E; [done|].
  unfold ends_with. rewrite reverse_app. apply (starts_with_app [SLASH]).
Qed.

(** C28: every configuration that is loaded is well-formed.  Whatever the files and the variables
    say, the numbers of the compaction, the undo and the notes are in their ranges, the excluded
    prefixes end in a slash, the hooks have http addresses, the servers of tools are complete and
    have names of their own, the profile can be used, and the secrets that are there are not blank. *)
Theorem loaded_config_well_formed cwd repo_cfg user_cfg system_cfg base c :
  load_layers w cwd repo_cfg user_cfg system_cfg base = inr c -> config_wf c.
Proof.
  intros (sys & usr & repo & env & token & _ & _ & _ & He & _ & _ & _ & H)%load_inv.
  apply env_inv in He as [-> _].
  apply resolve_inv in H as (Ht & _ & _ & Ha & _ & _ & Hm & Hhooks & Hp & Hc & Hu & Hs & Hn).
  unfold validate_mcp_servers, validate_mcp_servers_with_mode in Hm. apply servers_valid in Hm as (Hwf & Hnd & _). split.
  - rewrite Hc. unfold resolve_compaction_config. cbv zeta. cbn [threshold_percent keep_recent_turns summary_max_tokens].
    set (l := unwrap_or _ compaction_layer_default). pose proof (clamp_bounds 1 32 (unwrap_or (kl_keep_recent_turns l) 4)).
    split_and!; try (apply clamp_bounds; lia); lia.
  - rewrite Hu. unfold resolve_undo_config. destruct (l_undo _); cbn; [apply clamp_bounds|]; lia.
  - rewrite Hn. apply clamp_bounds. lia.
  - rewrite Hs. apply excluded_closed.
  - by apply hooks_checked in Hhooks.
  - done.
  - by apply profile_loaded in Hp.
  - intros t. rewrite Ht. apply token_not_blank.
  - intros key. rewrite Ha, api_secret_of. apply secret_tight.
Qed.
End loading.

(** ** Examples *)
Definition url_free : UrlParser := {|
  Url := unit; url_parse _ := None; url_scheme _ := []; url_host _ := None;
  url_set_scheme _ _ := None; url_set_host _ _ := None; url_to_string _ := [];
|}.
Definition any_name : HeaderNames := fun s => Some (to_ascii_lowercase s).
Definition any_value : HeaderValues := fun _ => true.

Definition named_layer (name : option str) (skip : option bool) (sandbox : option str) (hooks : option (list HookConfig)) : ConfigLayer :=
  mk_ConfigLayer name None skip None sandbox None (Some true) None None None None None None None None hooks None None None None None None None.
Definition one_hook : HookConfig := mk_HookConfig PreTool t!"*" t!"check" [] Warn.
(** Of a file its text is the name of the layer it stands for. *)
Definition layer_files : ConfigToml := {|
  toml_value _ := Some (TomlTable []);
  toml_layer s :=
    if str_eqb s t!"user" then Some (named_layer (Some t!"mine") (Some true) (Some t!"bubblewrap") (Some [one_hook]))
    else if str_eqb s t!"repo" then Some (named_layer (Some t!"theirs") None None None)
    else if str_eqb s t!"greedy" then Some (named_layer None None None (Some []))
    else None;
  toml_profile _ := None;
|}.
Definition home_tree (repo : str) : FileSystem :=
  mk_FileSystem (list_to_map [([t!"ws"], Dir); ([t!"ws"; t!".vex"], Dir); ([t!"ws"; t!".vex"; t!"config.toml"], File (utf8_encode repo) 1);
    ([t!"home"], Dir); ([t!"home"; t!"vex"], Dir); ([t!"home"; t!"vex"; t!"config.toml"], File (utf8_encode t!"user") 1)]) [] 7.
Definition home_place (repo : str) (sandbox : option str) : Place :=
  mk_Place (fun name => if str_eqb name t!"XDG_CONFIG_HOME" then Some t!"/home" else if str_eqb name t!"VEX_SANDBOX" then sandbox else None)
    (fun _ => Password t!"secret") None None (home_tree repo).
Definition home_load (repo : str) (sandbox : option str) : Res Config :=
  @load_from_cwd url_free layer_files empty_codec any_name any_value (home_place repo sandbox) (components t!"/ws").

(** The name is the repository's; the hooks and the token are not. *)
Example home_loaded :
  (fun c => (model_name c, cfg_hooks c, model_url_skip_tls_check c, model_token c)) <$> (match home_load t!"repo" None with inr c => Some c | _ => None end)
  = Some (t!"theirs", [one_hook], true, Some t!"secret").
Proof. vm_compute. reflexivity. Qed.
Example greedy_refused : home_load t!"greedy" None = inl (NotInRepoConfig t!"hooks" (components t!"/ws/.vex/config.toml")).
Proof. vm_compute. reflexivity. Qed.
(** A sandbox that is not known, in a variable, is none, over the one of the user's file. *)
Example sandbox_mistyped :
  (fun c => sandbox c) <$> (match home_load t!"repo" (Some t!"bubblewarp") with inr c => Some c | _ => None end)
  = Some (Sandbox.mk_SandboxConfig Sandbox.KPassthrough None true).
Proof. vm_compute. reflexivity. Qed.

Definition home_config : Config := match home_load t!"repo" None with inr c => c | inl _ => default_for_tui None end.
Definition home_layer (file : str) : Res (option ConfigLayer) :=
  @load_layer_at layer_files (home_place t!"repo" None) (Some (components file)).
Definition home_variables : Res (ConfigLayer * option str) := read_env_layer (home_place t!"repo" None).

Lemma repo_config_confined_witness :
  exists system_layer user_layer env_layer,
    home_layer t!"/etc/vex/config.toml" = inr system_layer /\ home_layer t!"/home/vex/config.toml" = inr user_layer
    /\ home_variables = inr (env_layer, model_token home_config)
    /\ let trusted := merge_layers [system_layer; user_layer; Some env_layer] in
       let w := home_place t!"repo" None in
       cfg_hooks home_config = unwrap_or (l_hooks trusted) []
       /\ cfg_http_hooks home_config = unwrap_or (l_http_hooks trusted) []
       /\ validate_mcp_servers (var w) (unwrap_or (l_mcp_servers trusted) []) = inr (mcp_servers home_config)
       /\ notes_path home_config = expand_home w <$> l_notes_path trusted
       /\ api_secret (api home_config) = resolve_secret_reference w (l_api trusted ≫= pl_key)
       /\ (model_url_skip_tls_check home_config = true -> l_model_url_skip_tls_check trusted = Some true)
       /\ (api_tls_skip_verify (api home_config) = true -> var_flag w t!"VEX_API_TLS_SKIP_VERIFY" = inr (Some true))
       /\ (api_vpn_trust (api home_config) = true -> var_flag w t!"VEX_API_VPN_TRUST" = inr (Some true)).
Proof.
  apply (@repo_config_confined url_free layer_files empty_codec any_name any_value (home_place t!"repo" None) (components t!"/ws")
    (Some (components t!"/ws/.vex/config.toml")) (Some (components t!"/home/vex/config.toml")) (Some (components t!"/etc/vex/config.toml"))
    (components t!"/ws") home_config).
  vm_compute. reflexivity.
Defined.

Lemma loaded_config_well_formed_witness : config_wf home_config.
Proof.
  apply (@loaded_config_well_formed url_free layer_files empty_codec any_name any_value (home_place t!"repo" None) (components t!"/ws")
    (Some (components t!"/ws/.vex/config.toml")) (Some (components t!"/home/vex/config.toml")) (Some (components t!"/etc/vex/config.toml"))
    (components t!"/ws") home_config).
  vm_compute. reflexivity.
Defined.
