(* ===== verification/LocalApi.v ===== *)
(** The local API: the task a request starts, its approvals and its end (src/local_api.rs), the
    handlers of requests (src/server/handlers/mod.rs), and what it takes to serve and to be let in
    (src/server/util.rs and src/server/http.rs).

    An envelope that is sent is the envelope; who reads the stream does not matter.  The channel of
    an approval is its number; the answers that were sent over these channels are kept in order,
    with [None] for a channel that was dropped.  The runtime is what the mode uses of it.  The copy
    of the last changes of the tools, which only tests read, sockets, certificates and the layers
    of the web framework are left out or parameters. *)
From Stdlib Require Import NArith ZArith Lia.
From stdpp Require Import base list gmap strings numbers sets.
From S2P Require Import Prelude Text Collections Json Evidence DeltaAccumulator Envelope Normalizer RuntimeContext ModelRequest Configuration.
#[local] Open Scope N_scope.

(** ** The task: local_api.rs *)
Module Task.

Record PendingApproval := mk_PendingApproval { pa_capability : str; pa_scope : str; pa_channel : N }.

Record LocalApiTaskShared := mk_Shared {
  normalizer : Norm;
  sent_envelopes : list RuntimeEnvelope;
  pending_approval : option PendingApproval;
  quit : bool;
  turn_in_progress : bool;
  interrupted : bool;
  active_command_sessions : gset N;
  turn_completion_pending : bool;
  (** How many channels of approvals there were, and what was sent over them. *)
  channels : N;
  answers : list (N * option bool);
}.
Abbreviation Shared := LocalApiTaskShared.

Definition shared_new (task : str) (memory_watermark_bytes : N) : Shared :=
  mk_Shared (Envelope.new_inner task (Some (new_with_peer_updates memory_watermark_bytes (Some [])))) [] None false false false ∅ false 0 [].

Definition with_normalizer (n : Norm) (es : list RuntimeEnvelope) (s : Shared) : Shared :=
  mk_Shared n (sent_envelopes s ++ es) (pending_approval s) (quit s) (turn_in_progress s) (interrupted s)
    (active_command_sessions s) (turn_completion_pending s) (channels s) (answers s).
Definition with_turn (is_quit in_progress is_interrupted : bool) (sessions : gset N) (completion : bool) (s : Shared) : Shared :=
  mk_Shared (normalizer s) (sent_envelopes s) (pending_approval s) is_quit in_progress is_interrupted sessions completion
    (channels s) (answers s).
Definition with_approval (p : option PendingApproval) (n : N) (sent : list (N * option bool)) (s : Shared) : Shared :=
  mk_Shared (normalizer s) (sent_envelopes s) p (quit s) (turn_in_progress s) (interrupted s) (active_command_sessions s)
    (turn_completion_pending s) n (answers s ++ sent).

Section task.
Context {clk : Clock} {ord : DeltaAccumulator.HashOrder} {js : SerdeJson}.

(** [emit_envelopes] of what the normalizer makes. *)
Definition emit (m : ST Norm (list RuntimeEnvelope)) (s : Shared) : Shared :=
  let '(es, n) := m (normalizer s) in with_normalizer n es s.

Definition complete_turn_if_idle (s : Shared) : Shared :=
  if negb (turn_completion_pending s) || negb (bool_decide (active_command_sessions s = ∅)) then s
  else
    let s' := emit (if interrupted s then emit_cancelled PulseEndContext_default
                    else normalize_ui_update Envelope.UPulseComplete (Some PulseEndContext_default)) s in
    with_turn true false (interrupted s') (active_command_sessions s') false s'.

(** What the mode uses of the runtime. *)
Class TaskRuntime (C : Type) := { api_start_pulse : str -> C -> C; api_cancel_pulse : C -> C }.

Definition on_user_input {C} `{TaskRuntime C} (input : str) (sc : Shared * C) : Shared * C :=
  let '(s, c) := sc in
  let s := with_turn false true false ∅ false s in
  (emit (e ← start_pulse 1 (Some input); mret [e]) s, api_start_pulse input c).

Definition on_interrupt {C} `{TaskRuntime C} (sc : Shared * C) : Shared * C :=
  let '(s, c) := sc in
  if negb (turn_in_progress s) then (s, c)
  else (with_turn (quit s) (turn_in_progress s) true (active_command_sessions s) (turn_completion_pending s) s, api_cancel_pulse c).

Definition passed_on (u : Envelope.UiUpdate) (s : Shared) : Shared := emit (normalize_ui_update u None) s.

(** The old sender, if there is one, is dropped. *)
Definition hold_approval (capability scope : str) (s : Shared) : Shared :=
  with_approval (Some (mk_PendingApproval capability scope (channels s))) (channels s + 1)
    (match pending_approval s with Some p => [(pa_channel p, None)] | None => [] end) s.

Definition approval_parts (signal : RuntimeSignal) : str * str :=
  match signal with ApprovalRequest capability scope _ => (capability, scope) | _ => (t!"unknown", t!"once") end.

Definition on_model_update (u : RuntimeContext.UiUpdate) (s : Shared) : Shared :=
  match u with
  | UiTranscriptLine line => passed_on (Envelope.UTranscriptLine line) s
  | UiStreamDelta text => passed_on (Envelope.UStreamDelta text) s
  | UiBlockStart index block => passed_on (Envelope.UStreamBlockStart index block) s
  | UiBlockDelta index delta => passed_on (Envelope.UStreamBlockDelta index delta) s
  | UiBlockComplete index => passed_on (Envelope.UStreamBlockComplete index) s
  | UiToolApprovalRequest request =>
      let signal := approval_request_signal request in
      let '(capability, scope) := approval_parts signal in
      emit (e ← emit_signal signal; mret [e]) (hold_approval capability scope s)
  | UiPulseComplete =>
      complete_turn_if_idle (with_turn (quit s) (turn_in_progress s) (interrupted s) (active_command_sessions s) true s)
  | UiError message =>
      let s := emit (emit_error t!"runtime_error" message false PulseEndContext_default) s in
      with_turn true false (interrupted s) ∅ false s
  | UiCommandSessionStarted id _ =>
      with_turn (quit s) (turn_in_progress s) (interrupted s) ({[id]} ∪ active_command_sessions s) (turn_completion_pending s) s
  | UiCommandSessionFinished id =>
      complete_turn_if_idle
        (with_turn (quit s) (turn_in_progress s) (interrupted s) (active_command_sessions s ∖ {[id]}) (turn_completion_pending s) s)
  | UiServerMetadata _ | UiCommandSessionAttached _ _ | UiToolCallArgumentsUpdated _ _ _
  | UiEditLoopComplete _ _ | UiContextCompacted _ _ _ => s
  end.

(** ** The answer to an approval: approve_handler *)
Inductive Reply : Type := Accepted | Refused (status : N) (reason : str).
Definition bad_request (reason : str) : Reply := Refused 400 reason.
Definition not_found (reason : str) : Reply := Refused 404 reason.
Definition conflict (reason : str) : Reply := Refused 409 reason.

(** What a request answers: the task, the capability, the scope if it is to be checked, and the
    answer. *)
Definition resolution (r : RuntimeRequest) : option (str * str * option str * bool) :=
  match r with
  | ApproveCapability _ task capability scope => Some (task, capability, Some scope, true)
  | DenyCapability _ task capability => Some (task, capability, None, false)
  | SubmitInput _ _ _ | Interrupt _ _ => None
  end.

Definition approve (r : RuntimeRequest) (capability : str) (scope : option str) (approved : bool) (s : Shared) : Reply * Shared :=
  match pending_approval s with
  | None => (conflict t!"no_pending_approval", s)
  | Some p =>
      if negb (str_eqb (pa_capability p) capability) then (conflict t!"no_pending_approval", s)
      else if match scope with Some scope => negb (str_eqb (pa_scope p) scope) | None => false end
      then (conflict t!"no_pending_approval", s)
      else (Accepted, emit (normalize_runtime_request r) (with_approval None (channels s) [(pa_channel p, Some approved)] s))
  end.

(** What is sent when the runtime fails: spawn_local_api_task. *)
Definition fail (error : str) (s : Shared) : Shared :=
  let s := emit (emit_error t!"local_api_server" error false PulseEndContext_default) s in
  with_turn true (turn_in_progress s) (interrupted s) (active_command_sessions s) (turn_completion_pending s) s.
End task.
End Task.

(** ** The tasks that are running: server/handlers/mod.rs *)
Module Serve.
Import Task.

Inductive FrontendCommand : Type := InterruptCommand.

(** A task with its frontend: what was sent to it, the input until it is taken, and whether the
    frontend is still there. *)
Record ActiveTask (C : Type) := mk_ActiveTask {
  shared : Shared;
  commands : list FrontendCommand;
  initial_input : option str;
  listening : bool;
  runtime : C;
}.
Arguments mk_ActiveTask {_} _ _ _ _ _.
Arguments shared {_} _.
Arguments commands {_} _.
Arguments initial_input {_} _.
Arguments listening {_} _.
Arguments runtime {_} _.
Definition with_shared {C} (s : Shared) (t : ActiveTask C) : ActiveTask C :=
  mk_ActiveTask s (commands t) (initial_input t) (listening t) (runtime t).
(** [tasks] of [LocalApiState]. *)
Abbreviation Tasks C := (gmap str (ActiveTask C)).

Section serve.
Context {clk : Clock} {ord : DeltaAccumulator.HashOrder} {js : SerdeJson} {C : Type} `{TaskRuntime C} (watermark : N).

(** *** The frontend: LocalApiFrontend of local_api.rs *)
Inductive Occurrence : Type := TextInput (input : str) | InterruptInput.
Definition poll_user_input (t : ActiveTask C) : option Occurrence * ActiveTask C :=
  match commands t with
  | InterruptCommand :: r => (Some InterruptInput, mk_ActiveTask (shared t) r (initial_input t) (listening t) (runtime t))
  | [] =>
      if turn_in_progress (shared t) then (None, t)
      else (TextInput <$> initial_input t, mk_ActiveTask (shared t) [] None (listening t) (runtime t))
  end.

Definition on_occurrence (o : Occurrence) (t : ActiveTask C) : ActiveTask C :=
  let '(s, c) := match o with
                 | TextInput input => on_user_input input (shared t, runtime t)
                 | InterruptInput => on_interrupt (shared t, runtime t)
                 end in
  mk_ActiveTask s (commands t) (initial_input t) (listening t) c.

(** A round of the runtime loop, with the updates that arrive in it. *)
Definition round (us : list RuntimeContext.UiUpdate) (t : ActiveTask C) : ActiveTask C :=
  if quit (shared t) then t
  else
    let '(o, t) := poll_user_input t in
    let t := match o with Some o => on_occurrence o t | None => t end in
    with_shared (fold_left (fun s u => on_model_update u s) us (shared t)) t.

(** The runtime has ended, with its error if it failed: run_local_api_task. *)
Definition early_exit (id : str) : str := t!"local api runtime exited before signalling completion for " ++ id.
Definition run_error (id : str) (error : option str) (s : Shared) : option str :=
  match error with
  | Some e => Some e
  | None => if quit s then None else Some (early_exit id)
  end.
Definition leave (id : str) (error : option str) (t : ActiveTask C) : ActiveTask C :=
  let s := match run_error id error (shared t) with Some e => fail e (shared t) | None => shared t end in
  mk_ActiveTask s [] None false (runtime t).

(** *** The handlers *)
Definition new_server_task_id (millis : Z) : str := t!"task-" ++ fmt_Z millis.

(** [fresh] is the runtime the task will run in. *)
Definition turns_handler (millis : Z) (fresh : C) (r : RuntimeRequest) (tasks : Tasks C) : Reply * Tasks C :=
  match r with
  | SubmitInput _ task input =>
      let id := unwrap_or task (new_server_task_id millis) in
      match tasks !! id with
      | Some _ => (conflict t!"task_already_active", tasks)
      | None => (Accepted, <[id := mk_ActiveTask (shared_new id watermark) [] (Some input) true fresh]> tasks)
      end
  | _ => (bad_request t!"invalid_request_type", tasks)
  end.

Definition interrupt_handler (r : RuntimeRequest) (tasks : Tasks C) : Reply * Tasks C :=
  match r with
  | Interrupt _ id =>
      match tasks !! id with
      | None => (not_found t!"task_not_found", tasks)
      | Some t =>
          if listening t
          then (Accepted, <[id := mk_ActiveTask (shared t) (commands t ++ [InterruptCommand]) (initial_input t) true (runtime t)]> tasks)
          else (not_found t!"task_not_found", tasks)
      end
  | _ => (bad_request t!"invalid_request_type", tasks)
  end.

Definition approve_handler (r : RuntimeRequest) (tasks : Tasks C) : Reply * Tasks C :=
  match resolution r with
  | None => (bad_request t!"invalid_request_type", tasks)
  | Some (id, capability, scope, approved) =>
      match tasks !! id with
      | None => (not_found t!"task_not_found", tasks)
      | Some t =>
          let '(reply, s) := approve r capability scope approved (shared t) in
          (reply, <[id := with_shared s t]> tasks)
      end
  end.

(** *** What happens *)
Inductive Event : Type :=
| PostPulse (millis : Z) (fresh : C) (r : RuntimeRequest)
| PostInterrupt (r : RuntimeRequest)
| PostApproval (r : RuntimeRequest)
| Round (id : str) (us : list RuntimeContext.UiUpdate)
| Leave (id : str) (error : option str)
(** The end of spawn_local_api_task. *)
| Remove (id : str).

Definition step (e : Event) (tasks : Tasks C) : Tasks C :=
  match e with
  | PostPulse millis fresh r => (turns_handler millis fresh r tasks).2
  | PostInterrupt r => (interrupt_handler r tasks).2
  | PostApproval r => (approve_handler r tasks).2
  | Round id us => alter (round us) id tasks
  | Leave id error => alter (leave id error) id tasks
  | Remove id => delete id tasks
  end.
Definition run (events : list Event) (tasks : Tasks C) : Tasks C := fold_left (fun tasks e => step e tasks) events tasks.
End serve.
End Serve.

(** ** What it takes to serve: server/util.rs and server/http.rs *)
Module Surface.
Import Settings Task.

Inductive IpAddr : Type := V4 (a : N * N * N * N) | V6 (groups : list N).
Definition parse_ip (s : str) : option IpAddr :=
  match parse_ipv4 s with Some a => Some (V4 a) | None => V6 <$> parse_ipv6 s end.
Definition is_loopback (ip : IpAddr) : bool :=
  match ip with
  | V4 (a, _, _, _) => a =? 127
  | V6 groups => bool_decide (groups = [0; 0; 0; 0; 0; 0; 0; 1])
  end.

(** The files of certificates and keys, of the crate rustls, and the resolver. *)
Class Tls := {
  Certificates : Type;
  PrivateKey : Type;
  (** The certificates of a file, or no file or none that can be read. *)
  pem_certificates : str -> option (list Certificates);
  pem_private_key : str -> option PrivateKey;
  matching_pair : list Certificates -> PrivateKey -> bool;
  socket_addrs : str -> N -> option (list IpAddr);
}.

Inductive ServeError : Type :=
| TlsSkipVerify
| VpnTrust
| KeyRequired
| HostUnresolved (host : str)
| InvalidCaCert (file : str)
| CertificateAndKeyRequired
| CertificateRequired
| PrivateKeyRequired
| InvalidCert (file : str)
| InvalidKey (file : str)
| NoMatchingPair.

Section surface.
Context {tls : Tls}.

Definition load_pem_certificates (file : str) : option (list Certificates) :=
  match pem_certificates file with Some [] | None => None | Some certificates => Some certificates end.

Definition is_strict_loopback_host (host : str) (port : N) : ServeError + bool :=
  let normalized := to_ascii_lowercase (trim host) in
  match parse_ip normalized with
  | Some ip => inr (is_loopback ip)
  | None =>
      if negb (str_eqb normalized t!"localhost") then inr false
      else match socket_addrs host port with
           | None | Some [] => inl (HostUnresolved host)
           | Some addrs => inr (forallb is_loopback addrs)
           end
  end.

Record ServerTls := mk_ServerTls { st_certificates : list Certificates; st_key : PrivateKey }.

Definition ca_checked (c : ApiConfig) : ServeError + unit :=
  match api_tls_ca_cert c with
  | Some ca => if opt_is_some (load_pem_certificates ca) then inr tt else inl (InvalidCaCert ca)
  | None => inr tt
  end.
Definition build_http_tls_config (c : ApiConfig) (loopback : bool) : ServeError + option ServerTls :=
  match ca_checked c with
  | inl e => inl e
  | inr _ =>
      match api_tls_cert c, api_tls_key c with
      | None, None => if loopback then inr None else inl CertificateAndKeyRequired
      | None, Some _ => inl CertificateRequired
      | Some _, None => inl PrivateKeyRequired
      | Some cert, Some key =>
          match load_pem_certificates cert with
          | None => inl (InvalidCert cert)
          | Some certificates =>
              match pem_private_key key with
              | None => inl (InvalidKey key)
              | Some private => if matching_pair certificates private then inr (Some (mk_ServerTls certificates private)) else inl NoMatchingPair
              end
          end
      end
  end.

Record ResolvedHttpSurface := mk_HttpSurface {
  bind_addr : str;
  hs_port : N;
  bearer_token : str;
  hsts_enabled : bool;
  hs_tls : option ServerTls;
}.
Record ResolvedServeConfig := mk_ServeConfig { sv_http : option ResolvedHttpSurface; sv_unix : option str }.

(** [xdg_runtime_dir] is the variable. *)
Definition default_unix_socket_path (xdg_runtime_dir : option str) : str :=
  Load.join_text (unwrap_or xdg_runtime_dir t!"/tmp") t!"vexcoder.sock".

Definition resolve_http_surface (c : ApiConfig) (host_override : option str) (port_override : option N)
    : ServeError + ResolvedHttpSurface :=
  let addr := unwrap_or host_override (api_host c) in
  let port := unwrap_or port_override (api_port c) in
  match api_secret c with
  | Some token =>
      if is_empty (trim token) then inl KeyRequired
      else match is_strict_loopback_host addr port with
           | inl e => inl e
           | inr loopback =>
               match build_http_tls_config c loopback with
               | inl e => inl e
               | inr tls => inr (mk_HttpSurface addr port token (opt_is_some tls) tls)
               end
           end
  | None => inl KeyRequired
  end.

Definition resolve_serve_config (c : ApiConfig) (host_override : option str) (port_override : option N)
    (xdg_runtime_dir : option str) : ServeError + ResolvedServeConfig :=
  if api_tls_skip_verify c then inl TlsSkipVerify
  else if api_vpn_trust c then inl VpnTrust
  else
    let unix := if unix_enabled (api_transport c)
                then Some (unwrap_or (api_socket c) (default_unix_socket_path xdg_runtime_dir)) else None in
    if http_enabled (api_transport c) then
      match resolve_http_surface c host_override port_override with
      | inl e => inl e
      | inr http => inr (mk_ServeConfig (Some http) unix)
      end
    else inr (mk_ServeConfig None unix).
End surface.

(** *** Being let in *)
Definition expected_header (token : str) : str := t!"Bearer " ++ token.
(** [provided] is the header [authorization], if there is one and it is a text. *)
Definition authorize_http_request (token : str) (provided : option str) : bool :=
  match provided with Some v => str_eqb (trim v) (expected_header token) | None => false end.

(** Whom the limit of requests is kept for. *)
Inductive ClientKey : Type := ByIp (ip : IpAddr) | ByHash (hash : N).
Definition forwarded_client_ip (x_forwarded_for x_real_ip : option str) : option IpAddr :=
  match x_forwarded_for ≫= (fun v => find_map (fun segment => parse_ip (trim segment)) (split_on 44 v)) with
  | Some ip => Some ip
  | None => x_real_ip ≫= parse_ip
  end.
(** [hash] is that of the standard library. *)
Definition extract_key (hash : str -> N) (x_forwarded_for x_real_ip authorization : option str) : option ClientKey :=
  match forwarded_client_ip x_forwarded_for x_real_ip with
  | Some ip => Some (ByIp ip)
  | None => ByHash ∘ hash <$> authorization
  end.
End Surface.
