(* ===== verification/LocalApiTheory.v ===== *)
(** What the local API promises: who answers an approval, how a pulse first ends, and on what it is
    served. *)
From Stdlib Require Import NArith ZArith Lia.
From stdpp Require Import base list gmap strings numbers sets.
From S2P Require Import Prelude Text Collections Json Usage Evidence DeltaAccumulator Envelope Normalizer NormalizerTheory RuntimeContext ModelRequest Configuration LocalApi.
Import Task Serve.
#[local] Open Scope N_scope.

(** ** Approvals *)
Section approvals.
Context {clk : Clock} {ord : DeltaAccumulator.HashOrder} {js : SerdeJson} {C : Type} `{TaskRuntime C} (watermark : N).

(** What of a task concerns its approvals. *)
Definition approvals (s : Shared) : option PendingApproval * N * list (N * option bool) :=
  (pending_approval s, channels s, answers s).

Lemma emit_approvals m s : approvals (emit m s) = approvals s.
Proof. unfold emit. by destruct (m (normalizer s)). Qed.
Lemma turn_approvals a b c d e s : approvals (with_turn a b c d e s) = approvals s.
Proof. done. Qed.
Lemma idle_approvals s : approvals (complete_turn_if_idle s) = approvals s.
Proof. unfold complete_turn_if_idle. case_match; [done|]. by rewrite turn_approvals, emit_approvals. Qed.

Lemma update_approvals u s :
  match u with
  | UiToolApprovalRequest request =>
      exists p, approvals (on_model_update u s)
        = (Some p, channels s + 1, answers s ++ match pending_approval s with Some p => [(pa_channel p, None)] | None => [] end)
        /\ pa_channel p = channels s /\ approval_parts (approval_request_signal request) = (pa_capability p, pa_scope p)
  | _ => approvals (on_model_update u s) = approvals s
  end.
Proof.
  destruct u; cbn [on_model_update]; unfold passed_on; rewrite ?turn_approvals, ?idle_approvals, ?turn_approvals, ?emit_approvals; try done.
  destruct (approval_parts (approval_request_signal request)) as [capability scope]. rewrite emit_approvals. by eexists.
Qed.

(** Channels are numbered, each is answered once, and what is pending is the last of them. *)
Definition numbered_answers (a : option PendingApproval * N * list (N * option bool)) : Prop :=
  let '(pending, n, sent) := a in
  NoDup (map fst sent) /\ (forall k, k ∈ map fst sent -> k < n)
  /\ (forall p, pending = Some p -> pa_channel p < n /\ pa_channel p ∉ map fst sent).

Lemma numbered_new task : numbered_answers (approvals (shared_new task watermark)).
Proof. split_and!; [constructor | by intros k ?%not_elem_of_nil | done]. Qed.

Lemma numbered_resolved p n sent (b : option bool) q n' :
  numbered_answers (Some p, n, sent) -> n <= n' -> (forall p, q = Some p -> n <= pa_channel p < n') ->
  numbered_answers (q, n', sent ++ [(pa_channel p, b)]).
Proof.
  intros (H1 & H2 & H3) Hn Hq. destruct (H3 p eq_refl) as [Hp Hs]. cbn. rewrite map_app. split_and!.
  - apply NoDup_app. split_and!; [done| |apply NoDup_singleton]. by intros x Hx ->%list_elem_of_singleton.
  - intros k [Hk|Hk]%elem_of_app; [apply H2 in Hk; lia|]. apply list_elem_of_singleton in Hk. cbn in Hk. lia.
  - intros q' Eq. specialize (Hq q' Eq). split; [lia|]. rewrite elem_of_app. intros [Hin|Hin]; [apply H2 in Hin; lia|].
    apply list_elem_of_singleton in Hin. cbn in Hin. lia.
Qed.

Lemma numbered_held p n sent : numbered_answers (None, n, sent) -> pa_channel p = n -> numbered_answers (Some p, n + 1, sent).
Proof.
  intros (H1 & H2 & _) Hp. split_and!; [done | intros k Hk; apply H2 in Hk; lia|]. intros q [= <-]. split; [lia|].
  intros Hin. apply H2 in Hin. lia.
Qed.

Lemma numbered_update u s : numbered_answers (approvals s) -> numbered_answers (approvals (on_model_update u s)).
Proof.
  intros Hs. pose proof (update_approvals u s) as Hu. destruct u; try (by rewrite Hu).
  destruct Hu as (p & -> & Hp & _). unfold approvals in Hs. destruct (pending_approval s) as [old|].
  - apply (numbered_resolved old (channels s)); [done | lia|]. intros q [= <-]. lia.
  - rewrite app_nil_r. by apply numbered_held.
Qed.

(** ** What happened before *)
(** A tool asked for it in a round of the task. *)
Definition asked_in_round (events : list (Event (C:=C))) (id : str) (p : PendingApproval) : Prop :=
  exists us request, Round id us ∈ events /\ UiToolApprovalRequest request ∈ us
    /\ approval_parts (approval_request_signal request) = (pa_capability p, pa_scope p).
(** The approval [k] of the task was answered by a request, when it was the one that was asked for,
    for its capability and, to grant it, in its scope. *)
Definition answered_by_request (events : list (Event (C:=C))) (id : str) (k : N) (b : bool) : Prop :=
  exists before r after capability scope t p, events = before ++ PostApproval r :: after
    /\ resolution r = Some (id, capability, scope, b)
    /\ run watermark before ∅ !! id = Some t /\ pending_approval (shared t) = Some p
    /\ asked_in_round before id p
    /\ pa_channel p = k /\ pa_capability p = capability /\ (forall sc, scope = Some sc -> pa_scope p = sc).

Record accounted (events : list (Event (C:=C))) (id : str) (s : Shared) : Prop := {
  ac_numbered : numbered_answers (approvals s);
  ac_answers : forall k b, (k, Some b) ∈ answers s -> answered_by_request events id k b;
  ac_pending : forall p, pending_approval s = Some p -> asked_in_round events id p;
}.

Lemma accounted_more events e id s : accounted events id s -> accounted (events ++ [e]) id s.
Proof.
  intros [H1 H2 H3]. split; [done|..].
  - intros k b (before & r & after & cap & scope & t & p & -> & ?)%H2.
    exists before, r, (after ++ [e]), cap, scope, t, p. by rewrite <- app_assoc.
  - intros p (us & request & Hin & ?)%H3. exists us, request. rewrite elem_of_app. auto.
Qed.

Lemma accounted_same events id s s' : approvals s' = approvals s -> accounted events id s -> accounted events id s'.
Proof. intros [= E1 E2 E3] [H1 H2 H3]. split; [unfold approvals in *; by rewrite E1, E2, E3 | by rewrite E3 | by rewrite E1]. Qed.

Lemma accounted_update events id us u s : Round id us ∈ events -> u ∈ us -> accounted events id s ->
  accounted events id (on_model_update u s).
Proof.
  intros Hr Hu Hs. pose proof (update_approvals u s) as Ha.
  destruct u; try (by apply (accounted_same events id s)). destruct Ha as (p & Ha & Hp & Hparts).
  destruct Hs as [H1 H2 H3]. pose proof (numbered_update (UiToolApprovalRequest request) s H1) as Hn.
  pose proof (f_equal (fun x => x.1.1) Ha) as Ha1. pose proof (f_equal snd Ha) as Ha3. cbn [approvals fst snd] in Ha1, Ha3.
  split; [done|..].
  - rewrite Ha3. intros k b [Hk|Hk]%elem_of_app; [by apply H2|].
    destruct (pending_approval s); [|by apply not_elem_of_nil in Hk]. by apply list_elem_of_singleton in Hk.
  - rewrite Ha1. intros q [= <-]. by exists us, request.
Qed.

Lemma accounted_updates events id all us s : Round id all ∈ events -> us ⊆ all -> accounted events id s ->
  accounted events id (fold_left (fun s u => on_model_update u s) us s).
Proof.
  intros Hr. revert s. induction us as [|u us IH]; intros s Hus Hs; cbn [fold_left]; [done|].
  apply IH; [set_solver|]. apply (accounted_update events id all); [done | set_solver | done].
Qed.

Lemma occurrence_approvals o t : approvals (shared (on_occurrence o t)) = approvals (shared t).
Proof.
  unfold on_occurrence. destruct o as [input|].
  - unfold on_user_input. cbn -[emit start_pulse approvals]. by rewrite emit_approvals.
  - unfold on_interrupt. by destruct (negb _).
Qed.
Lemma poll_shared (t : ActiveTask C) : shared (poll_user_input t).2 = shared t.
Proof. unfold poll_user_input. destruct (commands t) as [|[] r]; [|done]. by destruct (turn_in_progress _). Qed.

Lemma accounted_round events id us t : Round id us ∈ events -> accounted events id (shared t) ->
  accounted events id (shared (round us t)).
Proof.
  intros Hr Ht. unfold round. destruct (quit (shared t)); [done|]. pose proof (poll_shared t) as Hp.
  destruct (poll_user_input t) as [o t']. cbn [snd] in Hp. cbn [with_shared shared].
  apply (accounted_updates events id us); [done | done|]. destruct o as [o|].
  - apply (accounted_same events id (shared t)); [|done]. by rewrite occurrence_approvals, Hp.
  - by rewrite Hp.
Qed.

Lemma approve_cases r capability scope b s :
  (approve r capability scope b s).2 = s
  \/ exists p, pending_approval s = Some p /\ pa_capability p = capability /\ (forall sc, scope = Some sc -> pa_scope p = sc)
     /\ approvals (approve r capability scope b s).2 = (None, channels s, answers s ++ [(pa_channel p, Some b)]).
Proof.
  unfold approve. destruct (pending_approval s) as [p|]; [|by left].
  destruct (str_eqb (pa_capability p) capability) eqn:E; cbn [negb]; [|by left].
  destruct (match scope with Some _ => _ | None => _ end) eqn:Es; [by left|]. right. exists p. split_and!; [done | by apply str_eqb_iff| |].
  - intros sc ->. by apply negb_false_iff, str_eqb_iff in Es.
  - cbn [snd]. by rewrite emit_approvals.
Qed.

Lemma accounted_approval events id r capability scope b t :
  run watermark events ∅ !! id = Some t -> resolution r = Some (id, capability, scope, b) -> accounted events id (shared t) ->
  accounted (events ++ [PostApproval r]) id (approve r capability scope b (shared t)).2.
Proof.
  intros Hl Hr Ha. destruct (approve_cases r capability scope b (shared t)) as [->|(p & Hp & Hc & Hsc & Hs)];
    [by apply accounted_more|].
  pose proof (f_equal (fun x => x.1.1) Hs) as H1. pose proof (f_equal snd Hs) as H3. cbn [approvals fst snd] in H1, H3.
  split.
  - rewrite Hs. destruct Ha as [Hn _ _]. unfold approvals in Hn. rewrite Hp in Hn.
    apply (numbered_resolved p (channels (shared t))); [done | lia | done].
  - rewrite H3. intros k b' [Hk|Hk]%elem_of_app; [by apply (accounted_more _ _ _ _ Ha)|].
    apply list_elem_of_singleton in Hk as [= -> ->]. exists events, r, [], capability, scope, t, p.
    split_and!; try done. by apply Ha.
  - by rewrite H1.
Qed.

Lemma accounted_run events id t : run watermark events ∅ !! id = Some t -> accounted events id (shared t).
Proof.
  revert id t. induction events as [|e events IH] using rev_ind; intros id t.
  { intros Ht. unfold run in Ht. cbn [fold_left] in Ht. by rewrite lookup_empty in Ht. }
  unfold run. rewrite fold_left_app. fold (run watermark events ∅). cbn [fold_left].
  assert (forall u, run watermark events ∅ !! id = Some u -> accounted (events ++ [e]) id (shared u)) as Hold.
  { intros u Hu. by apply accounted_more, IH. }
  destruct e as [millis fresh r|r|r|id' us|id' error|id']; cbn [step].
  - unfold turns_handler. destruct r as [? task input| | |]; try apply Hold.
    set (id' := unwrap_or task _). destruct (run watermark events ∅ !! id') eqn:E; [apply Hold|]. cbn [snd].
    intros [[<- <-]|[_ Ht]]%lookup_insert_Some; [|by apply Hold]. cbn [shared].
    split; [apply numbered_new | by intros k b ?%not_elem_of_nil | done].
  - unfold interrupt_handler. destruct r as [|? id'| |]; try apply Hold.
    destruct (run watermark events ∅ !! id') as [u|] eqn:E; [|apply Hold]. destruct (listening u); [|apply Hold]. cbn [snd].
    intros [[<- <-]|[_ Ht]]%lookup_insert_Some; [|by apply Hold]. cbn [shared]. by apply (accounted_more events), IH.
  - unfold approve_handler. destruct (resolution r) as [[[[id' cap] scope] b]|] eqn:Hr; [|apply Hold].
    destruct (run watermark events ∅ !! id') as [u|] eqn:E; [|apply Hold].
    pose proof (accounted_approval events id' r cap scope b u E Hr) as Ha.
    destruct (approve r cap scope b (shared u)) as [reply s]. cbn [snd] in *.
    intros [[<- <-]|[_ Ht]]%lookup_insert_Some; [|by apply Hold]. by apply Ha, IH.
  - intros Ht. destruct (decide (id' = id)) as [->|Hne]; [|rewrite lookup_alter_ne in Ht by done; by apply Hold].
    rewrite lookup_alter_eq in Ht. apply fmap_Some in Ht as (u & Hu & ->). apply accounted_round; [|by apply Hold].
    apply elem_of_app. right. by left.
  - intros Ht. destruct (decide (id' = id)) as [->|Hne]; [|rewrite lookup_alter_ne in Ht by done; by apply Hold].
    rewrite lookup_alter_eq in Ht. apply fmap_Some in Ht as (u & Hu & ->). apply (accounted_same _ id (shared u)); [|by apply Hold].
    unfold leave. cbn [shared]. destruct (run_error id error (shared u)); [|done]. unfold fail.
    by rewrite turn_approvals, emit_approvals.
  - intros [_ Ht]%lookup_delete_Some. by apply Hold.
Qed.

(** C13: who answers an approval.  Whatever requests, rounds and endings follow, of a task that is
    running no approval is answered twice, and an answer was sent because of a request for that task,
    while the approval was the one that waited: a tool had asked for it in a round of the task, for
    the capability the request names, and a request that grants it names its scope too. *)
Theorem approvals_by_request events id t :
  run watermark events ∅ !! id = Some t ->
  NoDup (map fst (answers (shared t)))
  /\ forall k b, (k, Some b) ∈ answers (shared t) ->
     exists before r after scope before_task p, events = before ++ PostApproval r :: after
       /\ resolution r = Some (id, pa_capability p, scope, b) /\ (forall sc, scope = Some sc -> pa_scope p = sc)
       /\ run watermark before ∅ !! id = Some before_task /\ pending_approval (shared before_task) = Some p /\ pa_channel p = k
       /\ exists us request, Round id us ∈ before /\ UiToolApprovalRequest request ∈ us
          /\ approval_parts (approval_request_signal request) = (pa_capability p, pa_scope p).
Proof.
  intros [(H1 & _) H2 _]%accounted_run. split; [done|].
  intros k b (before & r & after & cap & scope & u & p & ? & ? & ? & ? & ? & ? & <- & ?)%H2.
  by exists before, r, after, scope, u, p.
Qed.
End approvals.

(** ** The end of a pulse *)
Definition no_end (e : RuntimeEnvelope) : bool := match env_signal e with PulseEnd _ _ _ => false | _ => true end.

Section envelopes.
Context {clk : Clock} {ord : DeltaAccumulator.HashOrder} {js : SerdeJson}.

Lemma no_end_next signal req par src n e n' :
  next_envelope_with_source signal req par src n = (e, n') ->
  match signal with PulseEnd _ _ _ => false | _ => true end = true -> no_end e = true.
Proof. intros (_ & _ & _ & Hs)%text_state_next Hsig. unfold no_end. by rewrite Hs. Qed.

Lemma no_end_open source name args n e n' : open_tool_call source name args n = (e, n') -> no_end e = true.
Proof. intros (id & t & [_ Hs _ _ _ _ _])%open_inv. unfold no_end. by rewrite Hs. Qed.
Lemma no_end_call source name args n e n' : record_tool_call source name args n = (e, n') -> no_end e = true.
Proof. exact (no_end_open (Some source) name args n e n'). Qed.

Lemma no_end_result source output is_error n e n' : record_tool_result source output is_error n = (e, n') -> no_end e = true.
Proof.
  intros (_ & t & Hm)%result_inv. unfold no_end. destruct (im_get _ _); destruct Hm as [-> _]; by destruct is_error.
Qed.

Lemma no_end_arguments id delta n e n' : record_tool_call_arguments_delta id delta n = (e, n') -> no_end e = true.
Proof. intros (_ & _ & _ & _ & i & Hs)%arguments_inv. unfold no_end. by rewrite Hs. Qed.

Lemma no_end_closed n es : closes_text_block n es -> forallb no_end es = true.
Proof.
  unfold closes_text_block. destruct (open_final_text_block n); [intros (e & -> & Hs)|by intros ->].
  cbn. unfold no_end. by rewrite Hs.
Qed.
Lemma no_end_close n es n' : close_open_final_text_block n = (es, n') -> forallb no_end es = true.
Proof. intros (_ & _ & Hc)%close_text_block. by apply (no_end_closed n). Qed.
End envelopes.

(** Of the updates that reach the normalizer, only the end and the failure of a pulse end it. *)
Definition ends_pulse (u : Envelope.UiUpdate) : bool :=
  match u with Envelope.UPulseComplete | Envelope.UError _ => true | _ => false end.

(** Splits an operation of the normalizer and collects what its envelopes are. *)
Ltac no_end_parts :=
  repeat match goal with
  | H : (_ ≫= _) _ = (_, _) |- _ => apply st_bind_inv in H; destruct H as (? & ? & ? & ?)
  | H : mret _ _ = (_, _) |- _ => apply st_ret_inv in H; destruct H; subst
  | H : close_open_final_text_block _ = _ |- _ => apply no_end_close in H
  | H : next_envelope_with_source _ _ _ _ _ = _ |- _ => apply no_end_next in H; [|reflexivity]
  | H : next_envelope_with_context _ _ _ _ = _ |- _ => apply no_end_next in H; [|reflexivity]
  | H : next_envelope _ _ = _ |- _ => apply no_end_next in H; [|reflexivity]
  | H : open_tool_call _ _ _ _ = _ |- _ => apply no_end_open in H
  | H : record_tool_call _ _ _ _ = _ |- _ => apply no_end_call in H
  | H : record_tool_result _ _ _ _ = _ |- _ => apply no_end_result in H
  | H : record_tool_call_arguments_delta _ _ _ = _ |- _ => apply no_end_arguments in H
  end;
  rewrite ?forallb_app; cbn [forallb];
  repeat match goal with |- (_ && _)%bool = true => apply andb_true_intro; split end; try done.

Section envelopes_of_updates.
Context {clk : Clock} {ord : DeltaAccumulator.HashOrder} {js : SerdeJson}.

Lemma no_end_stream_block b n es n' : normalize_stream_block b n = (es, n') -> forallb no_end es = true.
Proof. unfold normalize_stream_block. intros Hn. destruct b; no_end_parts. Qed.

Lemma no_end_ensure n b n' : ensure_open_final_text_block n = (b, n') -> forallb no_end b.2 = true.
Proof.
  unfold ensure_open_final_text_block. intros Hn. apply st_bind_inv in Hn as (o & ? & _ & Hn).
  destruct o; no_end_parts; cbn [snd forallb]; no_end_parts.
Qed.

Lemma no_end_update u te n es n' :
  ends_pulse u = false -> normalize_ui_update u te n = (es, n') -> forallb no_end es = true.
Proof.
  intros Hu Hn. unfold normalize_ui_update in Hn. cbv zeta in Hn.
  destruct u; cbn [ends_pulse] in Hu; try discriminate; no_end_parts.
  - by eapply no_end_ensure.
  - by eapply no_end_stream_block.
  - match goal with H : match ?o with _ => _ end _ = (es, n') |- _ => destruct o; no_end_parts end.
Qed.

Lemma no_end_request r n es n' : normalize_runtime_request r n = (es, n') -> forallb no_end es = true.
Proof.
  unfold normalize_runtime_request. intros Hn. destruct r; cbn in Hn; no_end_parts.
Qed.
(** What ends a pulse sends the end last, and no other. *)
Definition ends_once (status : str) (usage : option TokenUsageEnvelope) (es : list RuntimeEnvelope) : Prop :=
  exists pre e files, es = pre ++ [e] /\ forallb no_end pre = true /\ env_signal e = PulseEnd status usage files.

Lemma error_ends_once code message te n es n' :
  emit_error code message false te n = (es, n') -> ends_once t!"failed" (pec_usage te) es.
Proof.
  unfold emit_error. intros Hn.
  apply st_bind_inv in Hn as (pre & m1 & Hpre%no_end_close & Hn). apply st_bind_inv in Hn as (e1 & m2 & H1 & Hn).
  apply no_end_next in H1; [|done]. apply st_bind_inv in Hn as (files & m3 & _ & Hn).
  apply st_bind_inv in Hn as (? & m4 & _ & Hn). apply st_bind_inv in Hn as (? & m5 & _ & Hn).
  apply st_bind_inv in Hn as (e & m6 & (_ & _ & _ & He)%text_state_next & Hn). apply st_ret_inv in Hn as [<- _].
  exists (pre ++ [e1]), e, files. rewrite forallb_app, Hpre. cbn. rewrite H1. by rewrite <- app_assoc.
Qed.

Lemma turn_ends_once status te n es n' :
  finish_turn_with_status status te n = (es, n') -> ends_once status (pec_usage te) es.
Proof.
  unfold finish_turn_with_status. intros Hn.
  apply st_bind_inv in Hn as (files & m1 & _ & Hn). apply st_bind_inv in Hn as (? & m2 & _ & Hn).
  apply st_bind_inv in Hn as (pre & m3 & Hpre%no_end_close & Hn). apply st_bind_inv in Hn as (? & m4 & _ & Hn).
  apply st_bind_inv in Hn as (e & m5 & (_ & _ & _ & He)%text_state_next & Hn). apply st_ret_inv in Hn as [<- _].
  by exists pre, e, files.
Qed.
End envelopes_of_updates.

(** ** What a pulse went through *)
Inductive TaskStep : Type :=
| Update (u : RuntimeContext.UiUpdate)
| InterruptStep
| Answer (r : RuntimeRequest) (capability : str) (scope : option str) (approved : bool).

(** The commands that run, whether the model is done and whether it was told to stop, and the status
    once it is over. *)
Record Course := mk_Course { sessions : gset N; done_ : bool; cancelled : bool; ended : option str }.
Definition course_new : Course := mk_Course ∅ false false None.
Definition settle (c : Course) : Course :=
  if done_ c && bool_decide (sessions c = ∅)
  then mk_Course (sessions c) true (cancelled c) (Some (if cancelled c then t!"cancelled" else t!"completed"))
  else c.
Definition note (c : Course) (x : TaskStep) : Course :=
  match ended c, x with
  | Some _, _ => c
  | None, Update UiPulseComplete => settle (mk_Course (sessions c) true (cancelled c) None)
  | None, Update (UiError _) => mk_Course (sessions c) (done_ c) (cancelled c) (Some t!"failed")
  | None, Update (UiCommandSessionStarted id _) => mk_Course ({[id]} ∪ sessions c) (done_ c) (cancelled c) None
  | None, Update (UiCommandSessionFinished id) => settle (mk_Course (sessions c ∖ {[id]}) (done_ c) (cancelled c) None)
  | None, InterruptStep => mk_Course (sessions c) (done_ c) true None
  | None, _ => c
  end.
Lemma note_ended c x status : ended c = Some status -> note c x = c.
Proof. intros E. unfold note. by rewrite E. Qed.
Definition course (xs : list TaskStep) : Course := fold_left note xs course_new.

Section pulses.
Context {clk : Clock} {ord : DeltaAccumulator.HashOrder} {js : SerdeJson} {C : Type} `{TaskRuntime C}.

Definition task_step (sc : Shared * C) (x : TaskStep) : Shared * C :=
  match x with
  | Update u => (on_model_update u sc.1, sc.2)
  | InterruptStep => on_interrupt sc
  | Answer r capability scope approved => ((approve r capability scope approved sc.1).2, sc.2)
  end.
Definition task_steps (xs : list TaskStep) (sc : Shared * C) : Shared * C := fold_left task_step xs sc.

Record under_way (c : Course) (s : Shared) : Prop := {
  uw_ended : ended c = None;
  uw_sessions : active_command_sessions s = sessions c;
  uw_done : turn_completion_pending s = done_ c;
  uw_cancelled : interrupted s = cancelled c;
  uw_in_progress : turn_in_progress s = true;
  uw_quit : quit s = false;
}.

(** Of a state and the next: what was sent does not end the pulse, or it ends it with the status. *)
Definition went_on (s s' : Shared) : Prop :=
  exists es, sent_envelopes s' = sent_envelopes s ++ es /\ forallb no_end es = true.
Definition ended_with (status : str) (s s' : Shared) : Prop :=
  quit s' = true /\ turn_in_progress s' = false
  /\ exists es, sent_envelopes s' = sent_envelopes s ++ es /\ ends_once status None es.

Lemma went_on_same s s' : sent_envelopes s' = sent_envelopes s -> went_on s s'.
Proof. intros E. exists []. by rewrite E, app_nil_r. Qed.
Lemma went_on_trans s s1 s2 : went_on s s1 -> went_on s1 s2 -> went_on s s2.
Proof.
  intros (es & E1 & H1) (es' & E2 & H2). exists (es ++ es'). by rewrite E2, E1, app_assoc, forallb_app, H1, H2.
Qed.

Lemma emit_went_on m s : (forall es n', m (normalizer s) = (es, n') -> forallb no_end es = true) -> went_on s (emit m s).
Proof. intros Hm. unfold emit. destruct (m (normalizer s)) as [es n'] eqn:E. exists es. split; [done|]. by eapply Hm. Qed.
Lemma emit_under_way c m s : under_way c s -> under_way c (emit m s).
Proof. intros []. unfold emit. destruct (m (normalizer s)). by split. Qed.
Lemma emit_ended status m i sessions c s :
  (forall es n', m (normalizer s) = (es, n') -> ends_once status None es) ->
  ended_with status s (with_turn true false i sessions c (emit m s)).
Proof.
  intros Hm. unfold emit. destruct (m (normalizer s)) as [es n'] eqn:E. split; [done|]. split; [done|].
  exists es. split; [done|]. by eapply Hm.
Qed.

(** What a step does to a pulse that is under way. *)
Definition goes (c : Course) (s s' : Shared) : Prop :=
  match ended c with None => under_way c s' /\ went_on s s' | Some status => ended_with status s s' end.

Lemma idle_goes c s : under_way c s -> goes (settle c) s (complete_turn_if_idle s).
Proof.
  intros Hc. pose proof Hc as [Ho Hs Hd Hi Hp Hq]. unfold complete_turn_if_idle, settle. rewrite Hd, Hs, Hi.
  destruct (done_ c) eqn:Ed; cbn [negb orb andb].
  2:{ unfold goes. rewrite Ho. split; [done|]. by apply went_on_same. }
  case_bool_decide; cbn [negb].
  2:{ unfold goes. rewrite Ho. split; [done|]. by apply went_on_same. }
  unfold goes. cbn [ended]. destruct (cancelled c); apply emit_ended; intros es n' He; by eapply turn_ends_once in He.
Qed.

Lemma emit_goes c m s : under_way c s -> (forall es n', m (normalizer s) = (es, n') -> forallb no_end es = true) ->
  goes c s (emit m s).
Proof. intros Hc Hm. unfold goes. rewrite (uw_ended _ _ Hc). split; [by apply emit_under_way | by apply emit_went_on]. Qed.
Lemma same_goes c s s' : under_way c s' -> sent_envelopes s' = sent_envelopes s -> goes c s s'.
Proof. intros Hc Hs. unfold goes. rewrite (uw_ended _ _ Hc). split; [done|]. by apply went_on_same. Qed.
Lemma goes_from c s s1 s2 : sent_envelopes s1 = sent_envelopes s -> goes c s1 s2 -> goes c s s2.
Proof. intros E. unfold goes, went_on, ended_with. by rewrite E. Qed.

Lemma update_goes c s u : under_way c s -> goes (note c (Update u)) s (on_model_update u s).
Proof.
  intros Hc. unfold note. rewrite (uw_ended _ _ Hc). pose proof Hc as [Ho Hs Hd Hi Hp Hq].
  destruct u; cbn [on_model_update]; unfold passed_on;
    try (apply emit_goes; [done|]; intros es n'; by apply no_end_update); try (by apply same_goes).
  - destruct (approval_parts _) as [capability scope]. eapply (goes_from _ _ (hold_approval capability scope s)); [done|].
    apply emit_goes; [by split|]. intros es n' Hn. unfold emit_signal in Hn. unfold approval_request_signal in Hn. no_end_parts.
  - apply same_goes; [|done]. split; try done. cbn. by rewrite Hs.
  - eapply (goes_from _ _ _); [|apply idle_goes]; [done|]. split; try done. cbn. by rewrite Hs.
  - eapply (goes_from _ _ _); [|apply idle_goes]; [done|]. by split.
  - unfold goes. cbn [ended]. apply emit_ended. intros es n' He. by eapply error_ends_once in He.
Qed.

Lemma step_goes c sc x : under_way c sc.1 -> goes (note c x) sc.1 (task_step sc x).1.
Proof.
  intros Hc. destruct sc as [s k], x as [u| |r capability scope b]; cbn [task_step fst snd] in *; [by apply update_goes|..];
    unfold note; rewrite (uw_ended _ _ Hc); pose proof Hc as [Ho Hs Hd Hi Hp Hq].
  - unfold on_interrupt. rewrite Hp. cbn [negb fst]. by apply same_goes.
  - unfold approve. destruct (pending_approval s) as [p|]; [|by apply same_goes].
    destruct (negb (str_eqb (pa_capability p) capability)); [by apply same_goes|].
    destruct (match scope with Some _ => _ | None => _ end); [by apply same_goes|]. cbn [snd].
    eapply (goes_from _ _ _); [|apply emit_goes]; [done | by split|]. intros es n'. apply no_end_request.
Qed.

Lemma started_goes input sc : goes course_new sc.1 (on_user_input input sc).1.
Proof.
  destruct sc as [s k]. unfold on_user_input. cbn [fst]. eapply (goes_from _ _ _); [|apply emit_goes]; [done | by split|].
  intros es n' Hn. unfold start_pulse in Hn. no_end_parts.
Qed.

Lemma steps_go xs sc input : ended (course xs) = None ->
  under_way (course xs) (task_steps xs (on_user_input input sc)).1 /\ went_on sc.1 (task_steps xs (on_user_input input sc)).1.
Proof.
  unfold course, task_steps. induction xs as [|x xs IH] using rev_ind; [intros _; apply (started_goes input sc)|].
  rewrite !fold_left_app. cbn [fold_left]. intros Ho. assert (ended (fold_left note xs course_new) = None) as Hx.
  { destruct (ended (fold_left note xs course_new)) eqn:E; [|done]. rewrite (note_ended _ _ _ E) in Ho. congruence. }
  destruct (IH Hx) as [Hu Hw]. pose proof (step_goes _ _ x Hu) as Hg. unfold goes in Hg. rewrite Ho in Hg.
  destruct Hg as [Hu' Hw']. split; [done|]. by eapply went_on_trans.
Qed.

(** C31: when a pulse that a request starts ends.  As long as, of the updates, interrupts and answers
    that reached the task, none was an error and the model is not done or a command still runs, the
    task does not quit and no end was sent.  The step that ends the pulse sends one end, as the last
    of what it sends: failed for an error, cancelled if it was interrupted before, and completed
    otherwise; and the task is to quit.  This is the first end: what has arrived in the same round is
    still taken, and can send another ([error_then_complete]). *)
Theorem pulse_first_end input sc before x :
  ended (course before) = None ->
  let sc1 := task_steps before (on_user_input input sc) in
  let s2 := (task_step sc1 x).1 in
  quit sc1.1 = false /\ turn_in_progress sc1.1 = true /\ went_on sc.1 sc1.1
  /\ match ended (course (before ++ [x])) with
     | None => quit s2 = false /\ turn_in_progress s2 = true /\ went_on sc1.1 s2
     | Some status => ended_with status sc1.1 s2
     end.
Proof.
  intros Ho. cbv zeta. destruct (steps_go before sc input Ho) as [Hu Hw].
  pose proof (step_goes _ _ x Hu) as Hg. unfold goes in Hg. unfold course. rewrite fold_left_app. cbn [fold_left].
  fold (course before). split; [apply Hu|]. split; [apply Hu|]. split; [done|].
  destruct (ended (note (course before) x)); [done|]. destruct Hg as [Hu' Hw']. split; [apply Hu'|]. split; [apply Hu' | done].
Qed.
End pulses.

(** ** What is served *)
Import Settings Surface.
Section served.
Context {tls : Tls}.

Lemma certificates_load file certificates :
  load_pem_certificates file = Some certificates <-> pem_certificates file = Some certificates /\ certificates <> [].
Proof. unfold load_pem_certificates. destruct (pem_certificates file) as [[|]|]; naive_solver. Qed.

Lemma tls_built c loopback r : build_http_tls_config c loopback = inr r ->
  match r with
  | None => loopback = true /\ api_tls_cert c = None /\ api_tls_key c = None
  | Some t => exists cert key, api_tls_cert c = Some cert /\ api_tls_key c = Some key
      /\ pem_certificates cert = Some (st_certificates t) /\ st_certificates t <> []
      /\ pem_private_key key = Some (st_key t) /\ matching_pair (st_certificates t) (st_key t) = true
  end.
Proof.
  unfold build_http_tls_config. destruct (ca_checked c); [done|].
  destruct (api_tls_cert c) as [cert|], (api_tls_key c) as [key|]; try done.
  - destruct (load_pem_certificates cert) as [certificates|] eqn:Ec; [|done]. apply certificates_load in Ec as [Ec Hne].
    destruct (pem_private_key key) as [private|] eqn:Ek; [|done].
    destruct (matching_pair certificates private) eqn:Em; [|done]. intros [= <-]. by exists cert, key.
  - destruct loopback; [|done]. by intros [= <-].
Qed.

Lemma surface_resolved c host port r : resolve_http_surface c host port = inr r ->
  exists loopback, bind_addr r = unwrap_or host (api_host c) /\ hs_port r = unwrap_or port (api_port c)
    /\ api_secret c = Some (bearer_token r) /\ is_empty (trim (bearer_token r)) = false
    /\ is_strict_loopback_host (bind_addr r) (hs_port r) = inr loopback
    /\ hsts_enabled r = opt_is_some (hs_tls r) /\ build_http_tls_config c loopback = inr (hs_tls r).
Proof.
  unfold resolve_http_surface. destruct (api_secret c) as [token|]; [|done].
  destruct (is_empty (trim token)) eqn:Et; [done|]. destruct (is_strict_loopback_host _ _) as [|loopback] eqn:El; [done|].
  destruct (build_http_tls_config c loopback) eqn:Eb; [done|]. intros [= <-]. by exists loopback.
Qed.

(** A host is on this machine: it is an address of the loopback, or it is localhost and all it
    stands for are. *)
Definition on_this_machine (host : str) (port : N) : Prop :=
  match parse_ip (to_ascii_lowercase (trim host)) with
  | Some ip => is_loopback ip = true
  | None => to_ascii_lowercase (trim host) = t!"localhost"
      /\ exists addrs, socket_addrs host port = Some addrs /\ addrs <> [] /\ Forall (fun ip => is_loopback ip = true) addrs
  end.

Lemma loopback_host host port : is_strict_loopback_host host port = inr true -> on_this_machine host port.
Proof.
  unfold is_strict_loopback_host, on_this_machine. destruct (parse_ip _) as [ip|]; [congruence|].
  destruct (negb _) eqn:E; [done|]. apply negb_false_iff, str_eqb_iff in E.
  destruct (socket_addrs host port) as [[|a l]|]; try done. intros [= Hall]. split; [done|]. exists (a :: l).
  split; [done|]. split; [done|]. apply Forall_forall. intros ip Hin. apply (proj1 (forallb_forall is_loopback (a :: l)) Hall ip). by apply list_elem_of_In.
Qed.

(** C33: on what the API is served.  A configuration that is served serves HTTP and the socket that its
    transport names and no other; over HTTP only at the host and port asked for, to who shows the key
    of the configuration, which is not blank, and without encryption only if neither a certificate nor
    a key is given and the host is of this machine; with it only with certificates and the key that
    belongs to them, from the files the configuration names.  Certificates are never skipped and a
    private network is never trusted. *)
Theorem served_safely c host port runtime_dir r :
  resolve_serve_config c host port runtime_dir = inr r ->
  api_tls_skip_verify c = false /\ api_vpn_trust c = false
  /\ opt_is_some (sv_http r) = http_enabled (api_transport c)
  /\ sv_unix r = (if unix_enabled (api_transport c) then Some (unwrap_or (api_socket c) (default_unix_socket_path runtime_dir)) else None)
  /\ forall h, sv_http r = Some h ->
     bind_addr h = unwrap_or host (api_host c) /\ hs_port h = unwrap_or port (api_port c)
     /\ api_secret c = Some (bearer_token h) /\ is_empty (trim (bearer_token h)) = false
     /\ (forall provided, authorize_http_request (bearer_token h) provided = true
           <-> exists v, provided = Some v /\ trim v = t!"Bearer " ++ bearer_token h)
     /\ hsts_enabled h = opt_is_some (hs_tls h)
     /\ match hs_tls h with
        | None => api_tls_cert c = None /\ api_tls_key c = None /\ on_this_machine (bind_addr h) (hs_port h)
        | Some t => exists cert key, api_tls_cert c = Some cert /\ api_tls_key c = Some key
            /\ pem_certificates cert = Some (st_certificates t) /\ st_certificates t <> []
            /\ pem_private_key key = Some (st_key t) /\ matching_pair (st_certificates t) (st_key t) = true
        end.
Proof.
  unfold resolve_serve_config. destruct (api_tls_skip_verify c); [done|]. destruct (api_vpn_trust c); [done|].
  destruct (http_enabled (api_transport c)); [|intros [= <-]; by split_and!].
  destruct (resolve_http_surface c host port) as [e|h] eqn:Eh; intros [= <-]. cbn [sv_http sv_unix opt_is_some].
  split_and!; try done. intros h' [= <-]. apply surface_resolved in Eh as (loopback & H1 & H2 & H3 & H4 & H5 & H6 & H7).
  apply tls_built in H7. split_and!; try done.
  - intros provided. unfold authorize_http_request, expected_header. destruct provided as [v|]; [|naive_solver].
    rewrite str_eqb_iff. naive_solver.
  - destruct (hs_tls h); [done|]. destruct H7 as (-> & ? & ?). split_and!; [done | done | by apply loopback_host].
Qed.
End served.

(** ** Witnesses *)
#[local] Existing Instances step_clock map_order empty_codec.

(** A runtime that counts what it was told to start and to cancel. *)
#[local] Instance counting_runtime : TaskRuntime (N * N) := {
  api_start_pulse _ c := (c.1 + 1, c.2);
  api_cancel_pulse c := (c.1, c.2 + 1);
}.

Definition sample_request : ToolApprovalRequest := mk_ToolApprovalRequest t!"run_command" t!"{}".
Definition sample_events : list (Event (C:=N * N)) :=
  [PostPulse 7 (0, 0) (SubmitInput t!"r1" (Some t!"task-1") t!"review");
   Round t!"task-1" [UiToolApprovalRequest sample_request];
   PostApproval (ApproveCapability t!"r2" t!"task-1" t!"other" t!"once");
   PostApproval (ApproveCapability t!"r3" t!"task-1" (approval_parts (approval_request_signal sample_request)).1 t!"once");
   PostInterrupt (Interrupt t!"r4" t!"task-1");
   Round t!"task-1" [UiPulseComplete]].

Example sample_answered :
  ((fun t => (answers (shared t), runtime t, map (fun e => env_signal e) (sent_envelopes (shared t)))) <$> run 1000 sample_events ∅ !! t!"task-1")
  = Some ([(0, Some true)], (1, 1),
     [PulseStart (Some t!"review"); approval_request_signal sample_request;
      ApprovalResolved (approval_parts (approval_request_signal sample_request)).1 t!"once" true; PulseEnd t!"cancelled" None []]).
Proof. vm_compute. reflexivity. Qed.

Lemma approvals_by_request_witness : exists t, run 1000 sample_events ∅ !! t!"task-1" = Some t
  /\ (0, Some true) ∈ answers (shared t) /\ NoDup (map fst (answers (shared t))).
Proof.
  pose proof sample_answered as Ha. destruct (run 1000 sample_events ∅ !! t!"task-1") as [t|] eqn:E; [|discriminate].
  cbn [fmap option_fmap option_map] in Ha. exists t. split; [done|]. split; [|exact (proj1 (approvals_by_request 1000 sample_events t!"task-1" t E))].
  apply (f_equal (fun x => match x with Some (a, _, _) => a | None => [] end)) in Ha. rewrite Ha. by left.
Defined.

(** The model is done before a command it started. *)
Definition waiting_steps : list TaskStep := [Update (UiCommandSessionStarted 3 t!"ls"); InterruptStep; Update UiPulseComplete].
Lemma pulse_first_end_witness :
  let sc := (shared_new t!"task-1" 1000, (0, 0)) in
  let sc1 := task_steps waiting_steps (on_user_input t!"list" sc) in
  ended (course waiting_steps) = None /\ quit sc1.1 = false
  /\ ended_with t!"cancelled" sc1.1 (task_step sc1 (Update (UiCommandSessionFinished 3))).1.
Proof.
  intros sc sc1. split; [reflexivity|].
  destruct (pulse_first_end t!"list" sc waiting_steps (Update (UiCommandSessionFinished 3)) eq_refl) as (Hq & _ & _ & He).
  split; [exact Hq | exact He].
Defined.

(** A certificate is a number, and its key the same number. *)
#[local] Instance sample_tls : Tls := {
  Certificates := N;
  PrivateKey := N;
  pem_certificates file := if str_eqb file t!"/cert" then Some [5] else None;
  pem_private_key file := if str_eqb file t!"/key" then Some 5 else None;
  matching_pair certificates key := match certificates with c :: _ => c =? key | [] => false end;
  socket_addrs _ _ := Some [V4 (127, 0, 0, 1)];
}.
Definition sample_api (host : str) (cert key : option str) : ApiConfig :=
  mk_ApiConfig ApiBoth host 6274 None (Some t!"secret") cert key None false false.

Example remote_needs_tls : resolve_serve_config (sample_api t!"0.0.0.0" None None) None None None = inl CertificateAndKeyRequired.
Proof. reflexivity. Qed.
Example wrong_key_refused :
  resolve_serve_config (sample_api t!"0.0.0.0" (Some t!"/cert") (Some t!"/other")) None None None = inl (InvalidKey t!"/other").
Proof. reflexivity. Qed.

Lemma served_safely_witness : exists h,
  resolve_serve_config (sample_api t!" LocalHost " None None) None (Some 80) (Some t!"/run")
    = inr (mk_ServeConfig (Some h) (Some t!"/run/vexcoder.sock"))
  /\ on_this_machine (bind_addr h) (hs_port h).
Proof.
  set (h := mk_HttpSurface t!" LocalHost " 80 t!"secret" false None). exists h.
  assert (resolve_serve_config (sample_api t!" LocalHost " None None) None (Some 80) (Some t!"/run")
    = inr (mk_ServeConfig (Some h) (Some t!"/run/vexcoder.sock"))) as E by reflexivity.
  split; [exact E|]. destruct (served_safely _ _ _ _ _ E) as (_ & _ & _ & _ & Hh).
  destruct (Hh h eq_refl) as (_ & _ & _ & _ & _ & _ & Ht). exact (proj2 (proj2 Ht)).
Defined.

(** What became of the task "task-1": the pulses started and cancelled, and how they ended. *)
Definition became (events : list (Event (C:=N * N))) : option ((N * N) * list str) :=
  (fun t => (runtime t, omap (fun e => match env_signal e with PulseEnd status _ _ => Some status | _ => None end) (sent_envelopes (shared t))))
  <$> run 1000 events ∅ !! t!"task-1".
Definition post_review : Event (C:=N * N) := PostPulse 7 (0, 0) (SubmitInput t!"r1" (Some t!"task-1") t!"review").

(** An interrupt that is accepted before the task took its input has no effect. *)
Example early_interrupt_lost :
  became [post_review; PostInterrupt (Interrupt t!"r2" t!"task-1"); Round t!"task-1" []; Round t!"task-1" [];
          Round t!"task-1" [UiPulseComplete]] = Some ((1, 0), [t!"completed"]).
Proof. vm_compute. reflexivity. Qed.

(** What arrives in the round of an error is still taken: the pulse ends twice. *)
Example error_then_complete :
  became [post_review; Round t!"task-1" [UiError t!"lost"; UiPulseComplete]] = Some ((1, 0), [t!"failed"; t!"completed"]).
Proof. vm_compute. reflexivity. Qed.
