(* ===== verification/SessionApi.v ===== *)
(** The handlers of the local API over the tasks of the session: agents, delegation, teams, joins,
    statuses, the watch of a task and the messages of agents (src/server/handlers/session.rs and
    mod.rs), over the facade of Agents and PeerChannel; and what a watcher is told.

    A request is the arguments of its handler, an answer the body or the problem with its status.
    What is published to the watchers is the list of what was sent; what a watcher receives is a
    list too, with [None] where the channel had dropped something.  The JSON of a frame is its
    record.  The headers of a response, the spans of tracing and the two handlers that look at times
    of files and at the sidecars of a task are left out. *)
From Stdlib Require Import NArith ZArith Lia Sorted.
From stdpp Require Import base list gmap strings numbers sets.
From S2P Require Import Prelude Text Collections Evidence PeerChannel TaskDocument TaskSnapshot TaskStore Agents.
#[local] Open Scope N_scope.

(** ** Answers *)
Inductive Answer (A : Type) : Type := Body (a : A) | Problem (status : N) (reason : str).
Arguments Body {_} _.
Arguments Problem {_} _ _.
Definition bad_request {A} (reason : str) : Answer A := Problem 400 reason.
Definition not_found {A} (reason : str) : Answer A := Problem 404 reason.
Definition conflict {A} (reason : str) : Answer A := Problem 409 reason.
Definition internal_anyhow {A} : Answer A := Problem 500 t!"internal_error".
Definition answer_map {A B} (f : A -> B) (a : Answer A) : Answer B :=
  match a with Body a => Body (f a) | Problem status reason => Problem status reason end.

(** What the handlers share: the files of tasks, the channels of agents and what was published. *)
Record Served := mk_Served { store : TaskStore; peers : Channels; published : list FacadeSessionTaskRollup }.
Definition with_store (w : TaskStore) (s : Served) : Served := mk_Served w (peers s) (published s).
Definition publish_session_task_rollup (r : FacadeSessionTaskRollup) (s : Served) : Served :=
  mk_Served (store s) (peers s) (published s ++ [r]).

Definition Handler (A : Type) : Type := Served -> Answer A * Served.
(** An operation of the facade, with what its results and errors are answered. *)
Definition over_store {E A B} (m : SR E A) (ok : A -> Answer B) (problem : E -> Answer B) : Handler B := fun s =>
  let '(r, w) := m (store s) in
  (match r with inl a => ok a | inr e => problem e end, with_store w s).
Definition listed {A B} (m : SR str A) (f : A -> B) : Handler B := over_store m (fun a => Body (f a)) (fun _ => internal_anyhow).

(** ** Agents and teams: mod.rs *)
Record AgentDescriptor := mk_AgentDescriptor {
  de_name : str;
  de_profile : str;
  de_isolation : str;
  de_max_parallel_tasks : N;
  de_live_session_tasks : N;
}.
Record TeamDescriptor := mk_TeamDescriptor { te_name : str; te_members : list str; te_scheduler : str }.
Record AgentsResponse := mk_AgentsResponse { available : bool; agents : list AgentDescriptor; teams : list TeamDescriptor }.
Definition agents_response (l : option (list FacadeAgentDescriptor * list (str * list str * str))) : AgentsResponse :=
  match l with
  | None => mk_AgentsResponse false [] []
  | Some (a, t) =>
      mk_AgentsResponse true
        (map (fun a => mk_AgentDescriptor (ad_name a) (ad_profile a) (ad_isolation a) (ad_max_parallel_tasks a) (live_session_tasks a)) a)
        (map (fun t => mk_TeamDescriptor t.1.1 t.1.2 t.2) t)
  end.
Definition agents_handler (o : StoreEnv) (f : AgentsFile) : Handler AgentsResponse := listed (facade_list_agents o f) agents_response.

Definition delegate_problem {A} (e : DelegateError) : Answer A :=
  match e with
  | AgentNotFound => not_found t!"agent_not_found"
  | AgentsConfigMissing => bad_request t!"agents_config_missing"
  | ParentTaskIdRequired => bad_request t!"parent_task_id_required"
  | ConcurrencyLimitReached => conflict t!"concurrency_limit_reached"
  | PromptTooLong => bad_request t!"prompt_too_long"
  | DelegateInternal _ => internal_anyhow
  end.
Record DelegateResponse := mk_DelegateResponse { de_ok : bool; de_parent_task_id : str; de_session_task_id : str }.
Definition delegate_handler (o : StoreEnv) (f : AgentsFile) (parent : option str) (agent prompt : str) : Handler DelegateResponse := fun s =>
  if is_empty (trim agent) || is_empty (trim prompt) then (bad_request t!"invalid_delegate_request", s)
  else over_store (facade_delegate_session_task o f parent agent prompt)
         (fun r => Body (mk_DelegateResponse true (dr_parent_task_id r) (dr_session_task_id r))) delegate_problem s.

Definition watch_handler (o : StoreEnv) (id : str) : Handler FacadeWatchRollup :=
  over_store (facade_watch_rollup o id) (fun r => match r with Some r => Body r | None => not_found t!"task_not_found" end)
    (fun _ => internal_anyhow).

Definition release_session_task_handler (o : StoreEnv) (id : str) : Handler unit := fun s =>
  match over_store (facade_release_session_task o id) Body (fun _ => internal_anyhow) s with
  | (Body true, s) =>
      match facade_get_session_task o id (store s) with
      | (inl found, w) =>
          let s := with_store w s in
          (Body tt, match found with Some r => publish_session_task_rollup r s | None => s end)
      | (inr _, w) => (internal_anyhow, with_store w s)
      end
  | (Body false, s) => (not_found t!"session_task_not_found", s)
  | (Problem status reason, s) => (Problem status reason, s)
  end.

Definition schedule_problem {A} (e : ScheduleTeamError) : Answer A :=
  match e with
  | TeamConfigMissing => bad_request t!"agents_config_missing"
  | TeamNotFound => not_found t!"team_not_found"
  | TeamParentRequired => bad_request t!"parent_task_id_required"
  | PromptRequired => bad_request t!"prompt_required"
  | TeamLimitReached => conflict t!"concurrency_limit_reached"
  | TeamPromptTooLong => bad_request t!"prompt_too_long"
  | ScheduleInternal _ => internal_anyhow
  end.
Record ScheduleTeamResponse := mk_ScheduleTeamResponse {
  sc_ok : bool;
  sc_parent_task_id : str;
  sc_session_task_ids : list str;
  sc_scheduler : str;
}.
Definition schedule_team_handler (o : StoreEnv) (f : AgentsFile) (team parent prompt : str) : Handler ScheduleTeamResponse :=
  over_store (facade_schedule_team o f parent team prompt)
    (fun r => Body (mk_ScheduleTeamResponse true (sr_parent_task_id r) (sr_session_task_ids r) (sr_scheduler r))) schedule_problem.

Record JoinStatusResponse := mk_JoinStatusResponse {
  jo_pending : bool;
  jo_all_done : bool;
  jo_completed : N;
  jo_failed : N;
  jo_cancelled : N;
  jo_summaries : list (str * str);
}.
Definition join_status (j : option FacadeJoinOutcome) : JoinStatusResponse :=
  match j with
  | None => mk_JoinStatusResponse true false 0 0 0 []
  | Some j => mk_JoinStatusResponse false (fj_all_done j) (fj_completed j) (fj_failed j) (fj_cancelled j) (fj_summaries j)
  end.
Definition join_status_handler (o : StoreEnv) (id : str) : Handler JoinStatusResponse := listed (facade_poll_join o id) join_status.

(** ** Tasks of the session: session.rs *)
Record TaskSummaryResponse := mk_TaskSummaryResponse {
  tr_id : str;
  tr_status : str;
  tr_parent_task_id : option str;
  tr_agent_id : option str;
  tr_session_task_count : N;
  tr_live_session_task_count : N;
}.
Definition list_tasks_handler (o : StoreEnv) : Handler (list TaskSummaryResponse) :=
  listed (facade_list_tasks o)
    (map (fun t => mk_TaskSummaryResponse (fs_id t) (fs_status t) (fs_parent_task_id t) (fs_agent_id t) (session_task_count t) (live_count t))).

Record SessionTaskRollupResponse := mk_SessionTaskRollupResponse {
  re_id : str;
  re_parent_task_id : str;
  re_agent_id : str;
  re_lifecycle_state : str;
  re_worktree_path : option str;
  re_started_at_ms : option N;
  re_updated_at_ms : N;
  re_handoff_summary : option str;
}.
Definition rollup_to_response (r : FacadeSessionTaskRollup) : SessionTaskRollupResponse :=
  mk_SessionTaskRollupResponse (ro_id r) (ro_parent_task_id r) (ro_agent_id r) (ro_lifecycle_state r) (ro_worktree_path r)
    (ro_started_at_ms r) (ro_updated_at_ms r) (ro_handoff_summary r).

Definition list_session_tasks_handler (o : StoreEnv) : Handler (list SessionTaskRollupResponse) :=
  listed (facade_list_session_tasks o) (map rollup_to_response).
Definition get_session_task_handler (o : StoreEnv) (id : str) : Handler SessionTaskRollupResponse :=
  over_store (facade_get_session_task o id)
    (fun r => match r with Some r => Body (rollup_to_response r) | None => not_found t!"session_task_not_found" end)
    (fun _ => internal_anyhow).

Definition status_problem {A} (e : SessionTaskStatusError) : Answer A :=
  match e with
  | TaskNotFound => not_found t!"session_task_not_found"
  | InvalidStatus => bad_request t!"invalid_status"
  | TransitionNotAllowed => conflict t!"transition_not_allowed"
  | StatusInternal _ => internal_anyhow
  end.
Definition update_session_task_status_handler (o : StoreEnv) (id status : str) : Handler SessionTaskRollupResponse := fun s =>
  match over_store (facade_update_session_task_status o id status) Body status_problem s with
  | (Body r, s) => (Body (rollup_to_response r), publish_session_task_rollup r s)
  | (Problem status reason, s) => (Problem status reason, s)
  end.

Record TaskGraphNodeResponse := mk_TaskGraphNodeResponse {
  no_id : str;
  no_status : str;
  no_agent_id : option str;
  no_session_tasks : list SessionTaskRollupResponse;
}.
Definition task_graph_handler (o : StoreEnv) : Handler (list TaskGraphNodeResponse) :=
  listed (facade_task_graph o)
    (map (fun n => mk_TaskGraphNodeResponse (gn_id n) (gn_status n) (gn_agent_id n) (map rollup_to_response (gn_session_tasks n)))).

Record TodoItemResponse := mk_TodoItemResponse { to_id : str; to_parent_task_id : str; to_agent_id : str; to_lifecycle_state : str }.
Definition list_todos_handler (o : StoreEnv) : Handler (list TodoItemResponse) :=
  listed (facade_list_todos o) (map (fun t => mk_TodoItemResponse (todo_id t) (todo_parent t) (todo_agent t) (todo_state t))).

(** ** The watch of a task: session.rs *)
Definition lifecycle_state_is_terminal (state : str) : bool := str_in state [t!"failed"; t!"cancelled"; t!"completed"].

Fixpoint watch_updates (id : str) (last_updated_at : N) (received : list (option FacadeSessionTaskRollup))
    : list SessionTaskRollupResponse :=
  match received with
  | [] => []
  | None :: r => watch_updates id last_updated_at r
  | Some snapshot :: r =>
      if negb (str_eqb (ro_id snapshot) id) then watch_updates id last_updated_at r
      else
        let is_terminal := lifecycle_state_is_terminal (ro_lifecycle_state snapshot) in
        if ro_updated_at_ms snapshot <=? last_updated_at then
          if is_terminal then [] else watch_updates id last_updated_at r
        else rollup_to_response snapshot
               :: (if is_terminal then [] else watch_updates id (ro_updated_at_ms snapshot) r)
  end.
(** The frames of the stream, when the channel gives what was received after the request. *)
Definition watch_session_task_handler (o : StoreEnv) (id : str) (received : list (option FacadeSessionTaskRollup))
    : Handler (list SessionTaskRollupResponse) := fun s =>
  match facade_get_session_task o id (store s) with
  | (inr _, w) => (internal_anyhow, with_store w s)
  | (inl None, w) => (not_found t!"session_task_not_found", with_store w s)
  | (inl (Some initial), w) =>
      (Body (rollup_to_response initial
             :: (if lifecycle_state_is_terminal (ro_lifecycle_state initial) then []
                 else watch_updates id (ro_updated_at_ms initial) received)), with_store w s)
  end.

(** ** Messages of agents: session.rs and task_facade/peer.rs *)
Fixpoint load_parent_in (o : StoreEnv) (id : str) (dirs : list (bool * Dir)) : option TaskState + str :=
  match dirs with
  | [] => inl None
  | (_, d) :: r =>
      match find_file (state_file_name id) d with
      | None => load_parent_in o id r
      | Some _ => match load (now o) d id with Some s => inl (Some s) | None => inr t!"task state" end
      end
  end.
Definition load_parent_task_state (o : StoreEnv) (id : str) (w : TaskStore) : option TaskState + str :=
  load_parent_in o id (search_dirs w).

Definition peer_problem {A} (e : PeerChannelError) : Answer A :=
  match e with
  | ParentTaskNotFound => not_found t!"parent_task_not_found"
  | SenderNotInTask => bad_request t!"sender_not_in_task"
  | ContentTooLong => bad_request t!"content_too_long"
  | PeerChannelFull => conflict t!"channel_full"
  | InvalidKind => bad_request t!"invalid_kind"
  | PeerInternal => internal_anyhow
  end.
Record PeerMessageResponse := mk_PeerMessageResponse {
  pr_id : str;
  pr_sent_at : N;
  pr_sender_id : str;
  pr_sender_agent_id : str;
  pr_recipient : str;
  pr_kind : str;
  pr_content : str;
  pr_parent_task_id : str;
}.
Definition peer_message_to_response (m : PeerMessage) : PeerMessageResponse :=
  mk_PeerMessageResponse (pm_id m) (sent_at m) (sender_id m) (sender_agent_id m) (recipient m) (kind_name (kind m))
    (pm_content m) (parent_task_id m).
Definition with_peers (fs : Channels) (s : Served) : Served := mk_Served (store s) fs (published s).

Section messages.
Context {codec : PeerCodec}.

(** [facade_post_peer_message] with its read of the parent, which comes after the checks. *)
Definition post_peer_message (o : StoreEnv) (parent sender agent to kind content : str) (s : Served)
    : (PeerMessage + PeerChannelError) * Channels :=
  match load_parent_task_state o parent (store s) with
  | inl found =>
      facade_post_peer_message (ts_session_tasks <$> found) parent sender agent to kind content (uuid o 0) (now o) (peers s)
  | inr _ =>
      match facade_post_peer_message None parent sender agent to kind content (uuid o 0) (now o) (peers s) with
      | (inr ParentTaskNotFound, fs) => (inr PeerInternal, fs)
      | r => r
      end
  end.
Definition post_peer_message_handler (o : StoreEnv) (parent sender agent to kind content : str) : Handler PeerMessageResponse := fun s =>
  let '(r, fs) := post_peer_message o parent sender agent to kind content s in
  (match r with inl m => Body (peer_message_to_response m) | inr e => peer_problem e end, with_peers fs s).
Definition read_peer_messages_handler (parent : str) (after_ms : N) (to : option str) : Handler (list PeerMessageResponse) := fun s =>
  (Body (map peer_message_to_response (facade_read_peer_messages parent after_ms to (peers s))), s).
End messages.

(** ** What a watcher is told *)
Definition is_end (f : SessionTaskRollupResponse) : bool := lifecycle_state_is_terminal (re_lifecycle_state f).
Abbreviation earlier := (fun a b => re_updated_at_ms a < re_updated_at_ms b).

(** The changes of the task that are not older than one before them, up to its end. *)
Definition told (id : str) (last : N) (received : list (option FacadeSessionTaskRollup)) (frames : list SessionTaskRollupResponse) : Prop :=
  StronglySorted earlier frames
  /\ Forall (fun f => last < re_updated_at_ms f /\ exists u, Some u ∈ received /\ ro_id u = id /\ f = rollup_to_response u) frames
  /\ (forall before f after, frames = before ++ f :: after -> after <> [] -> is_end f = false)
  /\ (forall before u after, received = before ++ Some u :: after -> ro_id u = id -> last < ro_updated_at_ms u ->
      (forall v, Some v ∈ before -> ro_id v = id ->
         lifecycle_state_is_terminal (ro_lifecycle_state v) = false /\ ro_updated_at_ms v < ro_updated_at_ms u) ->
      rollup_to_response u ∈ frames).

Lemma told_skip id last x received frames :
  (forall u, x = Some u -> ro_id u = id -> ro_updated_at_ms u <= last) -> told id last received frames ->
  told id last (x :: received) frames.
Proof.
  intros Hx (H1 & H2 & H3 & H4). split_and!; [done| |done|].
  - eapply Forall_impl; [exact H2|]. intros f (? & u & ? & ?). split; [done|]. exists u. rewrite elem_of_cons. auto.
  - intros [|y before] u after [= -> ->] Hid Hlast Hb; [by specialize (Hx u eq_refl Hid); lia|].
    apply (H4 before u after); try done. intros v Hv. apply Hb. by right.
Qed.

Lemma told_nil id last x received :
  (exists u, x = Some u /\ ro_id u = id /\ lifecycle_state_is_terminal (ro_lifecycle_state u) = true /\ ro_updated_at_ms u <= last) ->
  told id last (x :: received) [].
Proof.
  intros (w & -> & Hw & Ht & Hl). split_and!; [constructor | constructor| |].
  - by intros [|] f after.
  - intros [|y before] u after [= <- ->] Hid Hlast Hb; [lia|].
    destruct (Hb w (ltac:(by left)) Hw) as [Hf _]. congruence.
Qed.

Lemma told_next id last u received frames : ro_id u = id -> last < ro_updated_at_ms u ->
  (if lifecycle_state_is_terminal (ro_lifecycle_state u) then frames = []
   else told id (ro_updated_at_ms u) received frames) ->
  told id last (Some u :: received) (rollup_to_response u :: frames).
Proof.
  intros Hid Hlast Hrest. destruct (lifecycle_state_is_terminal (ro_lifecycle_state u)) eqn:Ht.
  - subst frames. split_and!.
    + repeat constructor.
    + apply list.Forall_cons. split; [|constructor]. split; [done|]. exists u. split; [by left | done].
    + intros [|y before] f after [= <- E]; [by rewrite <- E|]. by destruct before.
    + intros [|y before] v after [= <- E] Hv Hlv Hb; [by left|].
      destruct (Hb u (ltac:(by left)) Hid) as [Hf _]. congruence.
  - destruct Hrest as (H1 & H2 & H3 & H4). split_and!.
    + constructor; [done|]. eapply Forall_impl; [exact H2|]. intros f [Hf _]. exact Hf.
    + apply list.Forall_cons. split; [split; [done|]; exists u; split; [by left | done]|].
      eapply Forall_impl; [exact H2|]. intros f (Hf & v & Hv & ?). cbn in Hf. split; [lia|]. exists v. split; [by right | done].
    + intros [|y before] f after [= <- E] Ha; [done|]. by apply (H3 before f after).
    + intros [|y before] v after [= <- E] Hv Hlv Hb; [by left|]. right. apply (H4 before v after); try done.
      * apply Hb; [by left | done].
      * intros w Hw. apply Hb. by right.
Qed.

Lemma watch_updates_told id last received : told id last received (watch_updates id last received).
Proof.
  revert last. induction received as [|[u|] received IH]; intros last; cbn [watch_updates].
  - split_and!; [constructor | constructor | by intros [|] f after | by intros [|]].
  - destruct (str_eqb (ro_id u) id) eqn:E; cbn [negb].
    + apply str_eqb_iff in E. destruct (N.leb_spec (ro_updated_at_ms u) last) as [Hl|Hl].
      * destruct (lifecycle_state_is_terminal (ro_lifecycle_state u)) eqn:Et; [apply told_nil; by exists u|].
        apply told_skip; [by intros v [= <-] _ | apply IH].
      * apply told_next; [done | done|]. by destruct (lifecycle_state_is_terminal (ro_lifecycle_state u)).
    + apply told_skip; [|apply IH]. intros v [= <-] Hv. apply str_eqb_iff in Hv. congruence.
  - apply told_skip; [done | apply IH].
Qed.

(** C34: what the watch of a task tells, while its client reads.  The first frame is the task as it
    was when it was asked for; then come, of what was received, changes of this task only, each newer
    than the one before, and none after the end of the task.  A change that is newer than the first frame and than all the
    changes of the task received before it, none of which ended it, is told. *)
Theorem watch_tells o id received s frames s' :
  watch_session_task_handler o id received s = (Body frames, s') ->
  exists initial rest, facade_get_session_task o id (store s) = (inl (Some initial), store s')
    /\ frames = rollup_to_response initial :: rest
    /\ StronglySorted earlier frames
    /\ (forall before f after, frames = before ++ f :: after -> after <> [] -> is_end f = false)
    /\ (forall f, f ∈ rest -> exists u, Some u ∈ received /\ ro_id u = id /\ f = rollup_to_response u)
    /\ (forall before u after, received = before ++ Some u :: after -> ro_id u = id ->
        lifecycle_state_is_terminal (ro_lifecycle_state initial) = false -> ro_updated_at_ms initial < ro_updated_at_ms u ->
        (forall v, Some v ∈ before -> ro_id v = id ->
           lifecycle_state_is_terminal (ro_lifecycle_state v) = false /\ ro_updated_at_ms v < ro_updated_at_ms u) ->
        rollup_to_response u ∈ rest).
Proof.
  unfold watch_session_task_handler. destruct (facade_get_session_task o id (store s)) as [[[initial|]|e] w]; try done.
  intros [= <- <-]. exists initial. eexists. split; [done|]. split; [done|].
  destruct (lifecycle_state_is_terminal (ro_lifecycle_state initial)) eqn:Et.
  - split_and!; [repeat constructor | | by intros f ?%not_elem_of_nil | done].
    intros [|y before] f after [= <- E]; [by rewrite <- E|]. by destruct before.
  - destruct (watch_updates_told id (ro_updated_at_ms initial) received) as (H1 & H2 & H3 & H4). split_and!.
    + constructor; [done|]. eapply Forall_impl; [exact H2|]. intros f [Hf _]. exact Hf.
    + intros [|y before] f after [= <- E]; [intros _; exact Et|]. by apply (H3 before).
    + intros f Hf. rewrite list.Forall_forall in H2. by destruct (H2 f Hf) as [_ ?].
    + intros before u after Er Hid _ Hn Hb. by apply (H4 before u after).
Qed.

(** *** With the handler that changes statuses *)
Fixpoint run_updates (rs : list (StoreEnv * str * str)) (s : Served) : list (Answer SessionTaskRollupResponse) * Served :=
  match rs with
  | [] => ([], s)
  | (o, id, status) :: r =>
      let '(a, s) := update_session_task_status_handler o id status s in
      let '(l, s) := run_updates r s in (a :: l, s)
  end.
Definition accepted (l : list (Answer SessionTaskRollupResponse)) : list SessionTaskRollupResponse :=
  omap (fun a => match a with Body r => Some r | Problem _ _ => None end) l.
Definition of_task (id : str) (l : list SessionTaskRollupResponse) : list SessionTaskRollupResponse :=
  List.filter (fun f => str_eqb (re_id f) id) l.
Fixpoint up_to_end (l : list SessionTaskRollupResponse) : list SessionTaskRollupResponse :=
  match l with [] => [] | f :: r => f :: (if is_end f then [] else up_to_end r) end.
Definition request_time (r : StoreEnv * str * str) : N := now r.1.1.

Lemma updated_rollup id status n s u : session_task id (update_session_task_status id status n s).2 = Some u ->
  (update_session_task_status id status n s).1 = true -> updated_at u = n.
Proof.
  unfold update_session_task_status, session_task. destruct (update_task id _ (ts_session_tasks s)) as [tasks|] eqn:E; [|done].
  cbn [fst snd ts_touch ts_with_session_tasks ts_session_tasks]. intros Hf _. revert tasks E Hf.
  induction (ts_session_tasks s) as [|t r IH]; intros tasks E Hf; cbn [update_task] in E; [done|].
  destruct (has_id id t) eqn:Eh.
  - injection E as <-. cbn [List.find] in Hf. assert (has_id id (transition_to status n n t) = true) as Hx by exact Eh.
    rewrite Hx in Hf. by injection Hf as <-.
  - destruct (update_task id _ r) as [r'|]; [|done]. injection E as <-. cbn [List.find] in Hf. rewrite Eh in Hf. by apply (IH r').
Qed.

Lemma found_has o w id files s t : find_in_files o w id files = inl (Some (s, t)) -> session_task id s = Some t.
Proof.
  induction files as [|f r IH]; cbn [find_in_files]; [done|]. destruct (header_of_file w f); [|done].
  destruct (negb _); [done|]. destruct (load_file o w f) as [s0|]; [|done]. destruct (session_task id s0) eqn:E; [|done].
  by intros [= <- <-].
Qed.

Lemma has_updated id status n s t : session_task id s = Some t -> (update_session_task_status id status n s).1 = true.
Proof.
  unfold session_task, update_session_task_status. destruct (update_task id _ (ts_session_tasks s)) eqn:E; [done|]. revert E.
  induction (ts_session_tasks s) as [|t0 r IH]; [done|]. cbn [update_task List.find]. destruct (has_id id t0); [done|].
  destruct (update_task id _ r); [done|]. intros _ Hf. by apply IH.
Qed.

Lemma status_updated o id status w r w' :
  facade_update_session_task_status o id status w = (inl r, w') -> ro_id r = id /\ ro_updated_at_ms r = now o.
Proof.
  unfold facade_update_session_task_status, read_status_update, or_fail, wrapped, mbind, sr_bind.
  destruct (parse_session_task_status status) as [st|]; [|done].
  destruct (find_session_task_in_saved_states o id w) as [[[p t]|]|] eqn:Ef; try done.
  destruct (is_live (lifecycle_state t)); [|done]. apply found_has in Ef.
  destruct (save o _ w) as [[[]|] w1]; [|done].
  destruct (session_task id (update_session_task_status _ _ _ _).2) as [u|] eqn:Eu; [|done]. intros [= <- _]. cbn [session_task_to_rollup ro_id ro_updated_at_ms]. split.
  - apply List.find_some in Eu as [_ Hu]. by apply str_eqb_iff in Hu.
  - by eapply updated_rollup; [exact Eu|]; eapply has_updated.
Qed.

(** What the requests publish is what they answer. *)
Lemma updates_published rs s : exists us,
  published (run_updates rs s).2 = published s ++ us /\ map rollup_to_response us = accepted (run_updates rs s).1
  /\ (StronglySorted (fun a b => request_time a < request_time b) rs -> StronglySorted (fun a b => ro_updated_at_ms a < ro_updated_at_ms b) us
      /\ forall u, u ∈ us -> exists r, r ∈ rs /\ ro_updated_at_ms u = request_time r).
Proof.
  revert s. induction rs as [|[[o id] status] rs IH]; intros s; cbn [run_updates].
  { exists []. rewrite app_nil_r. split_and!; try done. intros _. split; [constructor|]. by intros u ?%not_elem_of_nil. }
  destruct (update_session_task_status_handler o id status s) as [a s1] eqn:E. destruct (IH s1) as (us & H1 & H2 & H3).
  destruct (run_updates rs s1) as [l s2]. cbn [fst snd] in *.
  assert ((exists r, a = Body (rollup_to_response r) /\ published s1 = published s ++ [r] /\ ro_updated_at_ms r = now o)
    \/ accepted [a] = [] /\ published s1 = published s) as Ha.
  { revert E. unfold update_session_task_status_handler, over_store.
    destruct (facade_update_session_task_status o id status (store s)) as [[r|e] w] eqn:Eu.
    - intros [= <- <-]. left. exists r. apply status_updated in Eu as [_ ?]. done.
    - destruct e; intros [= <- <-]; by right. }
  destruct Ha as [(r & -> & Hp & Hn)|[Ha Hp]].
  - exists (r :: us). rewrite H1, Hp, <- app_assoc. split; [done|]. split; [cbn; by rewrite H2|].
    intros Hs. inversion Hs as [|? ? Hs' Hall]; subst. destruct (H3 Hs') as [H4 H5]. split.
    + constructor; [done|]. apply list.Forall_forall. intros u (x & Hx & ->)%H5. rewrite list.Forall_forall in Hall.
      rewrite Hn. by apply (Hall x).
    + intros u [->|Hu]%elem_of_cons; [exists (o, id, status); split; [by left | done]|].
      destruct (H5 u Hu) as (x & Hx & ?). exists x. split; [by right | done].
  - exists us. rewrite H1, Hp. split; [done|]. split.
    + rewrite H2. unfold accepted in *. destruct a; [done | done].
    + intros Hs. inversion Hs as [|? ? Hs' Hall]; subst. destruct (H3 Hs') as [H4 H5]. split; [done|].
      intros u (x & Hx & ?)%H5. exists x. split; [by right | done].
Qed.

Lemma watch_rising id last us : StronglySorted (fun a b => ro_updated_at_ms a < ro_updated_at_ms b) us ->
  (forall u, u ∈ us -> last < ro_updated_at_ms u) ->
  watch_updates id last (map Some us) = up_to_end (of_task id (map rollup_to_response us)).
Proof.
  revert last. induction us as [|u us IH]; intros last Hs Hl; cbn [map watch_updates of_task List.filter]; [done|].
  inversion Hs as [|? ? Hs' Hall]; subst. cbn [re_id rollup_to_response].
  destruct (str_eqb (ro_id u) id); cbn [negb]; [|by apply IH; [done|]; intros v Hv; apply Hl; right].
  rewrite (proj2 (N.leb_gt _ _)) by (apply Hl; by left). cbn [up_to_end].
  change (is_end (rollup_to_response u)) with (lifecycle_state_is_terminal (ro_lifecycle_state u)).
  destruct (lifecycle_state_is_terminal (ro_lifecycle_state u)); [done|]. f_equal. apply IH; [done|].
  rewrite list.Forall_forall in Hall. intros v Hv. by apply Hall.
Qed.

(** Who watches a task is told every change of status that is accepted.  When requests change the
    statuses of tasks one after the other, at later and later times, a watch of a task that was asked
    for before them, and to which the channel delivers, tells the task as it was and then exactly what
    the accepted requests for this task answered, up to its end. *)
Theorem accepted_changes_told o id rs s initial w :
  facade_get_session_task o id (store s) = (inl (Some initial), w) ->
  lifecycle_state_is_terminal (ro_lifecycle_state initial) = false ->
  StronglySorted (fun a b => request_time a < request_time b) rs ->
  Forall (fun r => ro_updated_at_ms initial < request_time r) rs ->
  let '(answers, s') := run_updates rs s in
  exists us, published s' = published s ++ us
    /\ (watch_session_task_handler o id (map Some us) s).1
       = Body (rollup_to_response initial :: up_to_end (of_task id (accepted answers))).
Proof.
  intros Hg Ht Hs Hi. destruct (updates_published rs s) as (us & H1 & H2 & H3). destruct (run_updates rs s) as [answers s'].
  exists us. split; [exact H1|]. unfold watch_session_task_handler. rewrite Hg, Ht. cbn [fst snd] in *. destruct (H3 Hs) as [H4 H5].
  rewrite (watch_rising id _ us H4), H2; [done|]. intros u (r & Hr & ->)%H5. rewrite list.Forall_forall in Hi. by apply Hi.
Qed.

(** ** Concrete runs *)
Definition at_time (n : N) : StoreEnv := mk_StoreEnv n (fun _ => t!"u0") 200 None (fun _ => None) (fun _ => None).
Definition one_coder : AgentsFile :=
  AgentsFileRead (mk_AgentsConfig [mk_AgentProfile t!"coder" t!"dev" Shared 1 [t!"read"]] []).
Definition nothing_served : Served := mk_Served (mk_TaskStore [] None ∅ ∅ ∅) ∅ [].
Definition coder_served : Served := (delegate_handler (at_time 5) one_coder (Some t!"p") t!"coder" t!"go" nothing_served).2.
Definition coder_task : str := t!"p-coder-u0".
Definition coder_requests : list (StoreEnv * str * str) :=
  [(at_time 6, coder_task, t!"running"); (at_time 7, coder_task, t!"paused"); (at_time 8, coder_task, t!"completed");
   (at_time 9, coder_task, t!"running")].

Example coder_answers :
  map (answer_map re_lifecycle_state) (run_updates coder_requests coder_served).1
  = [Body t!"running"; Problem 400 t!"invalid_status"; Body t!"completed"; Problem 409 t!"transition_not_allowed"].
Proof. vm_compute. reflexivity. Qed.

Lemma accepted_changes_told_witness : exists initial us,
  published (run_updates coder_requests coder_served).2 = published coder_served ++ us
  /\ (watch_session_task_handler (at_time 5) coder_task (map Some us) coder_served).1
     = Body (rollup_to_response initial :: up_to_end (of_task coder_task (accepted (run_updates coder_requests coder_served).1))).
Proof.
  assert (exists initial, facade_get_session_task (at_time 5) coder_task (store coder_served) = (inl (Some initial), store coder_served)
    /\ lifecycle_state_is_terminal (ro_lifecycle_state initial) = false /\ ro_updated_at_ms initial = 5) as (initial & Hg & Ht & Hu).
  { eexists. split; [vm_compute; reflexivity|]. split; vm_compute; reflexivity. }
  exists initial.
  assert (StronglySorted (fun a b => request_time a < request_time b) coder_requests) as Hs.
  { repeat constructor; vm_compute; reflexivity. }
  assert (Forall (fun r => ro_updated_at_ms initial < request_time r) coder_requests) as Hl.
  { rewrite Hu. repeat constructor; vm_compute; reflexivity. }
  pose proof (accepted_changes_told (at_time 5) coder_task coder_requests coder_served initial _ Hg Ht Hs Hl) as Hw.
  destruct (run_updates coder_requests coder_served) as [answers s']. exact Hw.
Defined.

Lemma watch_tells_witness : exists initial rest,
  (watch_session_task_handler (at_time 5) coder_task (None :: map Some (published (run_updates coder_requests coder_served).2)) coder_served).1
    = Body (rollup_to_response initial :: rest)
  /\ map re_lifecycle_state rest = [t!"running"; t!"completed"]
  /\ StronglySorted earlier (rollup_to_response initial :: rest).
Proof.
  destruct (watch_session_task_handler (at_time 5) coder_task
              (None :: map Some (published (run_updates coder_requests coder_served).2)) coder_served) as [a s'] eqn:E.
  assert (answer_map (fun l => map re_lifecycle_state (tail l)) a = Body [t!"running"; t!"completed"]) as Ha.
  { change a with (a, s').1. rewrite <- E. vm_compute. reflexivity. }
  destruct a as [frames|]; [|discriminate]. injection Ha as Ha.
  destruct (watch_tells _ _ _ _ _ _ E) as (initial & rest & _ & -> & Hsorted & _). by exists initial, rest.
Defined.

(** A task that ends in the millisecond of its last change: the watch ends and does not tell it. *)
Example end_not_told :
  let rs := [(at_time 6, coder_task, t!"running"); (at_time 6, coder_task, t!"completed")] in
  let s := (run_updates rs coder_served).2 in
  answer_map (map re_lifecycle_state) (watch_session_task_handler (at_time 5) coder_task (map Some (published s)) coder_served).1
  = Body [t!"pending"; t!"running"]
  /\ answer_map re_lifecycle_state (get_session_task_handler (at_time 7) coder_task s).1 = Body t!"completed".
Proof. vm_compute. split; reflexivity. Qed.

(** A message to the channel of a task is answered as it is then read. *)
Example message_read :
  let codec := {| peer_to_string m := Some (pm_content m); peer_from_str l :=
    Some (peer_message_new coder_task t!"coder" t!"p" t!"*" Question l t!"u0" 6) |} in
  let '(a, s) := post_peer_message_handler (codec:=codec) (at_time 6) t!"p" coder_task t!"someone" t!"*" t!"question" t!"ready?" coder_served in
  answer_map (fun m => [m]) a = (read_peer_messages_handler (codec:=codec) t!"p" 0 None s).1.
Proof. vm_compute. reflexivity. Qed.
