(* ===== verification/Extensions.v ===== *)
(** What users add, and the prompts that are filled in: the templates of prompts (src/prompts.rs), the
    custom commands of a user and of a project (src/custom_commands.rs and their prompt in
    src/app/commands/session.rs), the arguments of commands (src/app/util.rs) and the registry of
    skills (src/skills.rs).

    The files are those of FileSystem; the TOML of a command is parsed by a parameter.  What git or
    curl fetches is a directory or an error; the copying and removing of directories are left out, as
    are the lines that are printed. *)
From Stdlib Require Import NArith ZArith Lia Sorted.
From stdpp Require Import base list strings numbers.
From S2P Require Import Prelude Text Utf8 Collections Evidence FileSystem ModelRequest RequestContext.
#[local] Open Scope N_scope.

(** ** Templates: prompts.rs *)
Module Template.

Definition EDIT_TEMPLATE : str := t!"Complete the coding task below using the provided workspace context.
Return the next coding turn only.

Task:
{{instruction}}

Context:
{{context}}
".
Definition EXPLAIN_TEMPLATE : str := t!"Explain the relevant code for the request below.
Do not propose patches or tool calls unless the request explicitly asks for them.

Request:
{{instruction}}

Context:
{{context}}
".
Definition PLAN_TEMPLATE : str := t!"Create a concise implementation plan for the request below.
Do not propose patches or tool calls in the response.

Request:
{{instruction}}

Scope:
{{scope}}

Context:
{{context}}
".
Definition GENERATE_TESTS_TEMPLATE : str := t!"Generate tests for the code described below using the existing project test patterns.
Preferred test framework: {{framework}}
Limit changes to test files unless the request explicitly says otherwise.

Request:
{{instruction}}

Context:
{{context}}
".
Definition PR_SUMMARY_TEMPLATE : str := t!"Summarize the branch changes below as a pull request draft.
Use only the provided context and diff. Do not invent files, behavior, tests,
or follow-up work.

Return exactly this format:

Title: <single-line title>

## Summary
- <bullet>
- <bullet>

## Testing
- Not run

Request:
{{instruction}}

Context:
{{context}}

Diff context:
{{diff_context}}
".
Definition REVIEW_TEMPLATE : str := t!"Review the implementation described below.
Focus on correctness, risk, and missing cases.

Request:
{{instruction}}

Context:
{{context}}

Diff context:
{{diff_context}}
".

(** Placeholders and their values. *)
Abbreviation Replacements := (list (str * str)).
Definition replacement_at (rs : Replacements) (s : str) : option (str * str) := List.find (fun r => starts_with r.1 s) rs.
(** From the cursor on; an empty placeholder, of which there is none, would stay in place. *)
Fixpoint render_from (fuel : nat) (rs : Replacements) (s : str) : str :=
  match fuel, s with
  | S fuel, c :: r =>
      match replacement_at rs s with
      | Some (placeholder, value) => value ++ render_from fuel rs (drop (length placeholder) s)
      | None => c :: render_from fuel rs r
      end
  | _, _ => []
  end.
Definition render_template (template : str) (rs : Replacements) : str := render_from (length template) rs template.

Definition INSTRUCTION : str := t!"{{instruction}}".
Definition CONTEXT : str := t!"{{context}}".
Definition render_edit_prompt (instruction context : str) : str :=
  render_template EDIT_TEMPLATE [(INSTRUCTION, instruction); (CONTEXT, context)].
Definition render_explain_prompt (instruction context : str) : str :=
  render_template EXPLAIN_TEMPLATE [(INSTRUCTION, instruction); (CONTEXT, context)].
Definition render_plan_prompt (instruction context scope : str) : str :=
  render_template PLAN_TEMPLATE [(INSTRUCTION, instruction); (CONTEXT, context); (t!"{{scope}}", scope)].
Definition render_custom_command_instruction (template context input : str) : str :=
  render_template template [(CONTEXT, context); (t!"{{input}}", input)].
Definition render_generate_tests_prompt (instruction context framework : str) : str :=
  render_template GENERATE_TESTS_TEMPLATE [(INSTRUCTION, instruction); (CONTEXT, context); (t!"{{framework}}", framework)].
Definition render_pr_summary_prompt (instruction context diff_context : str) : str :=
  render_template PR_SUMMARY_TEMPLATE [(INSTRUCTION, instruction); (CONTEXT, context); (t!"{{diff_context}}", diff_context)].
Definition render_review_prompt (instruction context diff_context : str) : str :=
  render_template REVIEW_TEMPLATE [(INSTRUCTION, instruction); (CONTEXT, context); (t!"{{diff_context}}", diff_context)].

(** The prompt of a custom command: [handle_custom_command]. *)
Definition custom_prompt (template rendered_context args : str) : str :=
  let instruction := render_custom_command_instruction template rendered_context args in
  if contains CONTEXT template then instruction else render_edit_prompt instruction rendered_context.
End Template.

(** ** Custom commands: custom_commands.rs *)
Module Commands.

Record CustomCommand := mk_CustomCommand { name : str; description : str; template : str }.
Definition command_display (c : CustomCommand) : str := t!"/" ++ name c ++ t!" [input]".

(** [CustomCommandFile] as [toml] reads it: no key more and none less. *)
Record CustomCommandFile := mk_CustomCommandFile { file_name : str; file_description : str; file_template : str }.
Class CommandToml := parse_command : str -> option CustomCommandFile.

Definition PROJECT_COMMANDS_REL_PATH : str := t!".vex/commands".
Definition command_char (c : char) : bool := ((97 <=? c) && (c <=? 122)) || ((48 <=? c) && (c <=? 57)) || (c =? 45).
Definition is_valid_command_name (n : str) : bool := negb (is_empty n) && forallb command_char n.

Section commands.
Context {toml : CommandToml} (fs : FileSystem) (builtin_names : list str).

Definition load_command (command : CustomCommandFile) : option CustomCommand :=
  let n := to_ascii_lowercase (trim (file_name command)) in
  if negb (is_valid_command_name n) then None
  else if starts_with t!"vex-" n then None
  else if str_in n (map to_ascii_lowercase builtin_names) then None
  else
    let d := trim (file_description command) in
    if is_empty d then None
    else
      let t := trim (file_template command) in
      if is_empty t then None else Some (mk_CustomCommand n d t).
Definition load_command_file (p : path) : option CustomCommand :=
  match read_to_string fs p with inl _ => None | inr raw => parse_command raw ≫= load_command end.

(** The names of the TOML files of a directory, in order. *)
Definition toml_files (dir : path) : list str :=
  match read_dir fs dir with
  | inl _ => []
  | inr found => sort_by str_ltb (List.filter (fun n => bool_decide (Paths.extension n = Some t!"toml")) found)
  end.
Definition commands_of_dir (dir : path) : list CustomCommand :=
  omap (fun n => load_command_file (path_join dir [Normal n])) (toml_files dir).

Definition insert_command (m : list (str * CustomCommand)) (c : CustomCommand) : list (str * CustomCommand) := bmap_insert (name c) c m.
Definition load_commands_from_dir (dir : path) (m : list (str * CustomCommand)) : list (str * CustomCommand) :=
  fold_left insert_command (commands_of_dir dir) m.
(** [user_dir] is what [dirs::config_dir] leads to, if it leads anywhere. *)
Definition load_custom_commands (working_dir : path) (user_dir : option path) : list CustomCommand :=
  let m := match user_dir with Some d => load_commands_from_dir d [] | None => [] end in
  map snd (load_commands_from_dir (path_join (Instructions.workspace_root fs working_dir) (components PROJECT_COMMANDS_REL_PATH)) m).
End commands.
End Commands.

(** ** Skills: skills.rs *)
Module Skills.

Inductive InstallSourceKind : Type := GitRepo | Tarball.
Record SkillEntry := mk_SkillEntry { name : str; version : str; source : str; entry_path : str }.
(** The registry, whose file is that of the workspace. *)
Abbreviation SkillsRegistry := (list SkillEntry).
Definition UNKNOWN_SKILL_VERSION : str := t!"unknown".

Inductive SkillError : Type :=
| RawUrl | NotHttp | FetchFailed | SubdirNotFound (subdir : str) | NoSkillRoot | NoEntrypoint | NoSubdirName | NoName | NotInRegistry (name : str).

Definition get (n : str) (r : SkillsRegistry) : option SkillEntry := List.find (fun e => str_eqb (name e) n) r.

Fixpoint strip_query_fragment (s : str) : str :=
  match s with [] => [] | c :: r => if (c =? 63) || (c =? 35) then [] else c :: strip_query_fragment r end.
Definition detect_source_kind (source : str) : SkillError + InstallSourceKind :=
  if contains t!"raw.githubusercontent.com" source || contains t!"/raw/" source || contains t!"/blob/" source then inl RawUrl
  else if negb (starts_with t!"http://" source) && negb (starts_with t!"https://" source) then inl NotHttp
  else
    let trimmed := strip_query_fragment source in
    if ends_with t!".tar.gz" trimmed || ends_with t!".tgz" trimmed || ends_with t!".zip" trimmed then inr Tarball else inr GitRepo.

Fixpoint strip_first (suffixes : list str) (s : str) : str :=
  match suffixes with [] => s | x :: r => match strip_suffix x s with Some t => t | None => strip_first r s end end.
Definition source_basename (source : str) : option str :=
  let trimmed := trim_end_char SLASH (strip_query_fragment source) in
  let segment := List.last (split_on SLASH trimmed) [] in
  let segment := strip_first [t!".tar.gz"; t!".tgz"; t!".zip"; t!".git"] segment in
  if is_empty segment then None else Some segment.

(** [Path::file_name]. *)
Definition path_file_name (p : path) : option str := match list.last p with Some (Normal n) => Some n | _ => None end.
Definition derive_skill_name (kind : InstallSourceKind) (source : str) (subdir : option str) (skill_root : path) : SkillError + str :=
  match subdir with
  | Some subdir => match path_file_name (components subdir) with Some n => inr n | None => inl NoSubdirName end
  | None =>
      match kind, path_file_name skill_root with
      | Tarball, Some n => inr n
      | _, _ => match source_basename source with Some n => inr n | None => inl NoName end
      end
  end.

(** [DirEntry::file_type], which follows no link. *)
Definition is_directory_entry (fs : FileSystem) (dir : path) (n : str) : bool :=
  match lookup_path fs dir with
  | At q => match node_at (nodes fs) (q ++ [n]) with Some Dir => true | _ => false end
  | _ => false
  end.
Definition select_skill_root (fs : FileSystem) (kind : InstallSourceKind) (fetched : path) (subdir : option str) : SkillError + path :=
  match subdir with
  | Some subdir =>
      let root := path_join fetched (components subdir) in
      if exists_ fs root then inr root else inl (SubdirNotFound subdir)
  | None =>
      if exists_ fs (path_join fetched [Normal t!"SKILL.md"]) then inr fetched
      else match kind with
           | GitRepo => inl NoSkillRoot
           | Tarball =>
               match read_dir fs fetched with
               | inl _ => inl NoSkillRoot
               | inr found =>
                   match List.filter (is_directory_entry fs fetched) found with
                   | [n] => if exists_ fs (path_join fetched [Normal n; Normal t!"SKILL.md"]) then inr (path_join fetched [Normal n]) else inl NoSkillRoot
                   | _ => inl NoSkillRoot
                   end
               end
           end
  end.

Definition before_entry (a b : SkillEntry) : bool := str_ltb (name a) (name b).
Fixpoint replace_entry (e : SkillEntry) (r : SkillsRegistry) : option SkillsRegistry :=
  match r with
  | [] => None
  | x :: r => if str_eqb (name x) (name e) then Some (e :: r)
              else match replace_entry e r with Some r => Some (x :: r) | None => None end
  end.
Definition upsert_entry (e : SkillEntry) (r : SkillsRegistry) : SkillsRegistry :=
  match replace_entry e r with Some r => r | None => sort_by before_entry (r ++ [e]) end.

(** What an installation copies, where to, and what it replaces there. *)
Record Install := mk_Install { installed : str; copied_from : path; dest : path; removed_first : bool }.
Definition skill_dir (root : path) (n : str) : path := path_join (path_join root (components t!".agents/skills")) (components n).
(** [fetch] is what git or curl make of a source: the directory, in the tree [fs]. *)
Definition install (fs : FileSystem) (fetch : str -> InstallSourceKind -> option path) (root : path) (source : str) (subdir : option str)
    (r : SkillsRegistry) : SkillError + (Install * SkillsRegistry) :=
  match detect_source_kind source with
  | inl e => inl e
  | inr kind =>
      match fetch source kind with
      | None => inl FetchFailed
      | Some fetched =>
          match select_skill_root fs kind fetched subdir with
          | inl e => inl e
          | inr skill_root =>
              if negb (exists_ fs (path_join skill_root [Normal t!"SKILL.md"])) then inl NoEntrypoint
              else match derive_skill_name kind source subdir skill_root with
                   | inl e => inl e
                   | inr n =>
                       inr (mk_Install n skill_root (skill_dir root n) (exists_ fs (skill_dir root n)),
                            upsert_entry (mk_SkillEntry n UNKNOWN_SKILL_VERSION source (t!".agents/skills/" ++ n)) r)
                   end
          end
      end
  end.

(** The directory that is removed, if it exists, and the registry without the skill. *)
Definition remove (fs : FileSystem) (root : path) (n : str) (r : SkillsRegistry) : SkillError + (option path * SkillsRegistry) :=
  match get n r with
  | None => inl (NotInRegistry n)
  | Some e =>
      let dir := path_join root (components (entry_path e)) in
      inr (if exists_ fs dir then Some dir else None, List.filter (fun x => negb (str_eqb (name x) n)) r)
  end.

Definition entry_line (e : SkillEntry) : str := name e ++ t!" (" ++ version e ++ t!")".
Definition list_lines (r : SkillsRegistry) : list str :=
  match r with [] => [t!"no skills installed"] | _ => sort_by str_ltb (map entry_line r) end.
End Skills.

(** ** A template that is filled in *)
Section filled.
Import Template.

(** A template is text and places; the places are filled and the values are not looked into. *)
Inductive Piece : Type := Lit (s : str) | Hole (placeholder : str).
Definition source_of (ps : list Piece) : str := List.flat_map (fun x => match x with Lit s => s | Hole p => p end) ps.
Definition value_of (rs : Replacements) (p : str) : str :=
  match List.find (fun r => str_eqb r.1 p) rs with Some r => r.2 | None => p end.
Definition filled (rs : Replacements) (ps : list Piece) : str :=
  List.flat_map (fun x => match x with Lit s => s | Hole p => value_of rs p end) ps.

(** Placeholders begin with a brace, none is the beginning of another, and no text has a brace. *)
Definition BRACE : char := 123.
Definition placeholders_ok (rs : Replacements) : Prop :=
  Forall (fun r => exists rest, r.1 = BRACE :: rest) rs
  /\ forall p q, p ∈ map fst rs -> q ∈ map fst rs -> p `prefix_of` q -> p = q.
Definition piece_ok (rs : Replacements) (x : Piece) : Prop :=
  match x with Lit s => BRACE ∉ s | Hole p => p ∈ map fst rs end.

Lemma no_placeholder rs c s : Forall (fun r => exists rest, r.1 = BRACE :: rest) rs -> c <> BRACE -> replacement_at rs (c :: s) = None.
Proof.
  intros Hrs Hc. unfold replacement_at. induction Hrs as [|r rs (rest & Hr) _ IH]; cbn [List.find]; [done|].
  rewrite Hr. unfold starts_with. cbn [strip_prefix]. by rewrite (proj2 (N.eqb_neq BRACE c)) by done.
Qed.

Lemma placeholder_here rs p s : placeholders_ok rs -> p ∈ map fst rs -> exists v, replacement_at rs (p ++ s) = Some (p, v) /\ value_of rs p = v.
Proof.
  intros [_ Hp] Hin. unfold replacement_at, value_of.
  assert (forall q, q ∈ map fst rs -> starts_with q (p ++ s) = str_eqb q p) as Hs.
  { intros q Hq. apply eq_true_iff_eq. rewrite starts_with_spec, str_eqb_iff. split; [|intros ->; by exists s].
    intros (r & E). destruct (prefix_weak_total q p (p ++ s)) as [Hqp|Hpq]; [by exists r | by exists s | by apply Hp | by symmetry; apply Hp]. }
  clear Hp. induction rs as [|[q v] rs IH]; [by apply not_elem_of_nil in Hin|]. cbn [List.find fst].
  rewrite Hs by (cbn; by left). destruct (str_eqb q p) eqn:E; [apply str_eqb_iff in E as ->; by exists v|].
  apply IH; [|intros r Hr; apply Hs; by right]. cbn in Hin. apply elem_of_cons in Hin as [->|?]; [|done]. by rewrite str_eqb_same in E.
Qed.

Lemma render_pieces rs ps fuel : placeholders_ok rs -> Forall (piece_ok rs) ps -> (length (source_of ps) <= fuel)%nat ->
  render_from fuel rs (source_of ps) = filled rs ps.
Proof.
  intros Hrs. revert fuel. induction ps as [|x ps IH]; intros fuel Hps Hf; [by destruct fuel|].
  apply list.Forall_cons in Hps as [Hx Hps]. unfold source_of, filled in *. cbn [List.flat_map] in *. destruct x as [s|p]; cbn [piece_ok] in Hx.
  - revert fuel Hf. induction s as [|c s IHs]; intros fuel Hf; [by apply IH|].
    apply not_elem_of_cons in Hx as [Hc Hx]. destruct fuel as [|fuel]; [cbn in Hf; lia|]. cbn [app render_from].
    rewrite no_placeholder by (apply Hrs || done). f_equal. apply IHs; [done|]. cbn in Hf. lia.
  - destruct (placeholder_here rs p (List.flat_map (fun x => match x with Lit s => s | Hole p => p end) ps) Hrs Hx) as (v & Hr & ->).
    destruct Hrs as [Hb _]. rewrite list.Forall_forall in Hb. pose proof Hx as Hx'. apply list_elem_of_fmap in Hx' as (r & Er & Hin).
    destruct (Hb r Hin) as (rest & Er'). rewrite Er' in Er. subst p. destruct fuel as [|fuel]; [cbn in Hf; lia|].
    cbn [app render_from]. cbn [app] in Hr. rewrite Hr. f_equal. change (BRACE :: rest ++ ?x) with ((BRACE :: rest) ++ x).
    rewrite drop_app_length. apply IH; [done|]. cbn in Hf. rewrite length_app in Hf. lia.
Qed.

(** What is put into a prompt is put in as it is.  A template of texts without braces and of the
    placeholders of a prompt, rendered, is its texts with the values in the places, in order; a
    value that itself holds a placeholder is not filled in again. *)
Theorem template_filled rs ps : placeholders_ok rs -> Forall (piece_ok rs) ps -> render_template (source_of ps) rs = filled rs ps.
Proof. intros Hrs Hps. unfold render_template. by apply render_pieces. Qed.
End filled.

(** ** Custom commands that are loaded *)
Section loaded_commands.
Import Commands.
Context {toml : CommandToml} (fs : FileSystem) (builtin_names : list str).

(** Of commands that come one after the other, the last of each name. *)
Definition last_named (all : list CustomCommand) (c : CustomCommand) : Prop :=
  exists before after, all = before ++ c :: after /\ name c ∉ map name after.

Lemma last_named_snoc all d c : last_named (all ++ [d]) c <-> c = d \/ (name c <> name d /\ last_named all c).
Proof.
  split.
  - intros (before & after & E & Hn). destruct after as [|z after' _] using rev_ind.
    + apply app_inj_tail in E as [_ ->]. by left.
    + rewrite app_comm_cons, app_assoc in E. apply app_inj_tail in E as [-> ->]. rewrite map_app, not_elem_of_app in Hn.
      destruct Hn as [Hn Hz]. right. split; [intros Ez; apply Hz; cbn; rewrite Ez; by left|]. by exists before, after'.
  - intros [->|(Hn & before & after & -> & Ha)]; [exists all, []; split; [done | apply not_elem_of_nil]|].
    exists before, (after ++ [d]). rewrite <- app_assoc. split; [done|]. rewrite map_app, not_elem_of_app. split; [done|].
    cbn. by rewrite list_elem_of_singleton.
Qed.

Lemma insert_commands all m : sorted_keys m ->
  sorted_keys (fold_left insert_command all m)
  /\ forall k c, (k, c) ∈ fold_left insert_command all m <-> (k = name c /\ last_named all c) \/ (k ∉ map name all /\ (k, c) ∈ m).
Proof.
  intros Hm. induction all as [|d all IH] using rev_ind; cbn [fold_left].
  - split; [done|]. intros k c. split; [intros H; right; split; [apply not_elem_of_nil | done]|].
    intros [(_ & before & after & E & _)|[_ ?]]; [by destruct before | done].
  - rewrite fold_left_app. cbn [fold_left]. destruct IH as [Hs IH]. unfold insert_command at 1 3.
    split; [by apply bmap_insert_sorted|]. intros k c. rewrite elem_of_bmap_insert by done. rewrite IH, last_named_snoc.
    rewrite map_app, elem_of_app. cbn [map]. rewrite list_elem_of_singleton. naive_solver.
Qed.

(** The commands of the user, then those of the project. *)
Definition all_commands (working_dir : path) (user_dir : option path) : list CustomCommand :=
  match user_dir with Some d => commands_of_dir fs builtin_names d | None => [] end
  ++ commands_of_dir fs builtin_names (path_join (Instructions.workspace_root fs working_dir) (components PROJECT_COMMANDS_REL_PATH)).

Definition command_ok (c : CustomCommand) : Prop :=
  is_valid_command_name (name c) = true /\ starts_with t!"vex-" (name c) = false
  /\ name c ∉ map to_ascii_lowercase builtin_names
  /\ description c <> [] /\ trim (description c) = description c /\ template c <> [] /\ trim (template c) = template c.

Lemma load_command_ok f c : load_command builtin_names f = Some c -> command_ok c.
Proof.
  unfold load_command. destruct (is_valid_command_name _) eqn:E1; [|done]. cbn [negb].
  destruct (starts_with _ _) eqn:E2; [done|]. destruct (str_in _ _) eqn:E3; [done|].
  destruct (is_empty (trim (file_description f))) eqn:E4; [done|]. destruct (is_empty (trim (file_template f))) eqn:E5; [done|].
  intros [= <-]. unfold command_ok. cbn [name description template]. apply str_in_not in E3.
  split_and!; try done; try (by apply trim_solid); intros E; by rewrite E in *.
Qed.

Lemma commands_of_dir_ok dir c : c ∈ commands_of_dir fs builtin_names dir -> command_ok c.
Proof.
  unfold commands_of_dir. rewrite list_elem_of_omap. intros (n & _ & Hc). unfold load_command_file in Hc.
  destruct (read_to_string fs _) as [|raw]; [done|]. cbn in Hc. destruct (parse_command raw); [|done]. by eapply load_command_ok.
Qed.

(** The custom commands a user has.  Each has a name of lower-case letters, digits and dashes of its
    own, in order, that is not reserved and not one of the program's, and a description and a template
    that are not blank; a command is offered exactly when a file of the user or of the project gives it
    and none that comes later, in the project or in a directory by name, gives one of the same name. *)
Theorem custom_commands_loaded working_dir user_dir :
  let l := load_custom_commands fs builtin_names working_dir user_dir in
  sorted (map name l) /\ Forall command_ok l
  /\ forall c, c ∈ l <-> last_named (all_commands working_dir user_dir) c.
Proof.
  cbv zeta. unfold load_custom_commands, load_commands_from_dir.
  set (project := commands_of_dir fs builtin_names (path_join _ _)).
  set (m := fold_left insert_command project _).
  assert (m = fold_left insert_command (all_commands working_dir user_dir) []) as Em.
  { unfold m, all_commands. rewrite fold_left_app. by destruct user_dir. }
  destruct (insert_commands (all_commands working_dir user_dir) [] ltac:(constructor)) as [Hs Hin]. rewrite <- Em in Hs, Hin.
  assert (forall k c, (k, c) ∈ m -> k = name c /\ last_named (all_commands working_dir user_dir) c) as Hm.
  { intros k c [?|[_ ?%not_elem_of_nil]]%Hin; done. }
  assert (map name (map snd m) = map fst m) as ->.
  { rewrite map_map. apply map_ext_in. intros [k c] Hk. symmetry. cbn. by apply (Hm k c), list_elem_of_In. }
  split; [exact Hs|]. split.
  - apply list.Forall_forall. intros c ([k c'] & -> & Hk)%list_elem_of_fmap. cbn. apply Hm in Hk as (_ & before & after & E & _).
    assert (c' ∈ all_commands working_dir user_dir) as Hc by (rewrite E; apply elem_of_app; right; by left).
    unfold all_commands in Hc. apply elem_of_app in Hc as [Hc|Hc]; [|by eapply commands_of_dir_ok].
    destruct user_dir; [by eapply commands_of_dir_ok | by apply not_elem_of_nil in Hc].
  - intros c. rewrite list_elem_of_fmap. split.
    + intros ([k c'] & -> & Hk). cbn. by apply (Hm k c').
    + intros Hc. exists (name c, c). split; [done|]. apply Hin. by left.
Qed.
End loaded_commands.

(** ** The registry of skills *)
Section registry.
Import Skills.

(** In the order of the names, each once. *)
Definition registry_ok (r : SkillsRegistry) : Prop := StronglySorted (fun a b => str_ltb (name a) (name b) = true) r.

Lemma replace_entry_spec e r : registry_ok r ->
  match replace_entry e r with
  | Some r' => map name r' = map name r /\ forall n, get n r' = if str_eqb n (name e) then Some e else get n r
  | None => get (name e) r = None
  end.
Proof.
  unfold registry_ok, get. induction 1 as [|x r Hs IH Hx]; cbn [replace_entry]; [done|].
  destruct (str_eqb (name x) (name e)) eqn:E.
  - apply str_eqb_iff in E. split; [cbn; by rewrite E|]. intros n. cbn [List.find]. rewrite E.
    destruct (str_eqb n (name e)) eqn:En; [apply str_eqb_iff in En as ->; by rewrite str_eqb_same|].
    destruct (str_eqb (name e) n) eqn:En'; [|done]. apply str_eqb_iff in En' as <-. by rewrite str_eqb_same in En.
  - destruct (replace_entry e r) as [r'|].
    + destruct IH as [IHn IHg]. split; [cbn; by rewrite IHn|]. intros n. cbn [List.find]. rewrite IHg.
      destruct (str_eqb (name x) n) eqn:En; [|done]. apply str_eqb_iff in En as <-. by rewrite E.
    + cbn [List.find]. by rewrite E.
Qed.

Lemma names_ok r r' : map name r' = map name r -> registry_ok r -> registry_ok r'.
Proof.
  unfold registry_ok. revert r'. induction r as [|x r IH]; intros [|x' r'] E Hs; try done.
  injection E as E1 E2. inversion Hs as [|? ? Hs' Hx]; subst. constructor; [by apply IH|]. rewrite E1.
  rewrite list.Forall_forall in *. intros y Hy. apply (list_elem_of_fmap_2 name) in Hy. change (name <$> r') with (map name r') in Hy.
  rewrite E2 in Hy. apply list_elem_of_fmap in Hy as (z & -> & Hz). by apply Hx.
Qed.

Lemma get_in n r e : get n r = Some e -> name e = n /\ e ∈ r.
Proof. intros [Hi Hn]%List.find_some. apply str_eqb_iff in Hn. split; [done | by apply list_elem_of_In]. Qed.
Lemma get_some n r e : registry_ok r -> e ∈ r -> name e = n -> get n r = Some e.
Proof.
  unfold registry_ok, get. intros Hs. revert e. induction Hs as [|x r Hs IH Hx]; intros e Hin Hn; [by apply not_elem_of_nil in Hin|].
  cbn [List.find]. apply elem_of_cons in Hin as [->|Hin]; [by rewrite Hn, str_eqb_same|].
  rewrite str_eqb_other; [by apply IH|]. rewrite list.Forall_forall in Hx. specialize (Hx e Hin). rewrite Hn in Hx.
  intros E. by rewrite E, str_ltb_irrefl in Hx.
Qed.
Lemma get_iff n r e : registry_ok r -> get n r = Some e <-> e ∈ r /\ name e = n.
Proof. intros Hr. split; [intros [? ?]%get_in; done | intros [? ?]; by apply get_some]. Qed.

Lemma pushed_ok e r : registry_ok r -> get (name e) r = None -> registry_ok (sort_by before_entry (r ++ [e])).
Proof.
  intros Hr Hg.
  assert (forall x y, x ∈ r ++ [e] -> y ∈ r ++ [e] -> name x = name y -> x = y) as Hinj.
  { intros x y [Hx| ->%list_elem_of_singleton]%elem_of_app [Hy| ->%list_elem_of_singleton]%elem_of_app Hn; [| | |done].
    - pose proof (get_some (name y) r x Hr Hx Hn) as H1. rewrite (get_some (name y) r y Hr Hy eq_refl) in H1. congruence.
    - by rewrite (get_some (name e) r x Hr Hx Hn) in Hg.
    - by rewrite (get_some (name e) r y Hr Hy (eq_sym Hn)) in Hg. }
  assert (NoDup (r ++ [e])) as Hnd.
  { apply list.NoDup_app. split_and!; [|intros x Hx ->%list_elem_of_singleton; by rewrite (get_some _ r e Hr Hx eq_refl) in Hg|apply list.NoDup_singleton].
    clear -Hr. induction Hr as [|x r Hs IH Hx]; constructor; [|done]. intros Hin. rewrite list.Forall_forall in Hx.
    specialize (Hx x Hin). by rewrite str_ltb_irrefl in Hx. }
  pose proof (sort_by_permutes before_entry (r ++ [e])) as Hp.
  assert (StronglySorted (fun x y => before_entry y x = false) (sort_by before_entry (r ++ [e]))) as Hs.
  { apply sort_by_sorted; unfold before_entry; [intros x y; apply str_ltb_asym|]. intros x y z H1 H2.
    destruct (str_ltb (name z) (name x)) eqn:E; [|done]. pose proof (str_ltb_weak _ _ _ E H2) as Hw. congruence. }
  rewrite <- Hp in Hnd. unfold registry_ok. revert Hs Hnd.
  assert (forall x, x ∈ sort_by before_entry (r ++ [e]) -> x ∈ r ++ [e]) as Hin by (intros x; by rewrite Hp).
  clear Hp. revert Hin. induction (sort_by before_entry (r ++ [e])) as [|x l IH]; intros Hin Hs Hnd; [constructor|].
  inversion Hs as [|? ? Hs' Hx]; subst. apply list.NoDup_cons in Hnd as [Hxl Hnd]. constructor; [apply IH; [|done|done]; intros y Hy; apply Hin; by right|].
  rewrite list.Forall_forall in *. intros y Hy. specialize (Hx y Hy). unfold before_entry in Hx.
  destruct (str_ltb (name x) (name y)) eqn:E; [done|]. exfalso. apply Hxl.
  by rewrite (Hinj x y (Hin x ltac:(by left)) (Hin y ltac:(by right)) (str_ltb_total _ _ E Hx)).
Qed.

(** The registry is a map from names: an installation writes one name, a removal forgets one. *)
Theorem registry_is_map e n r : registry_ok r ->
  registry_ok (upsert_entry e r)
  /\ (forall k, get k (upsert_entry e r) = if str_eqb k (name e) then Some e else get k r)
  /\ (let r' := List.filter (fun x => negb (str_eqb (name x) n)) r in
      registry_ok r' /\ forall k, get k r' = if str_eqb k n then None else get k r).
Proof.
  intros Hr. assert (forall (k : str) (a b : option SkillEntry), (forall x, a = Some x <-> b = Some x) -> a = b) as Hext.
  { intros k a b H. destruct a as [x|]; [symmetry; by apply H|]. destruct b as [y|]; [|done]. by apply H. }
  unfold upsert_entry. pose proof (replace_entry_spec e r Hr) as Hs. split_and!.
  - destruct (replace_entry e r) as [r'|]; [by apply (names_ok r); [apply Hs|] | by apply pushed_ok].
  - destruct (replace_entry e r) as [r'|]; [apply Hs|]. intros k. apply (Hext k). intros x.
    rewrite get_iff by (by apply pushed_ok). rewrite sort_by_permutes, elem_of_app, list_elem_of_singleton.
    destruct (str_eqb k (name e)) eqn:E.
    + apply str_eqb_iff in E as ->. split; [|intros [= <-]; auto]. intros [[Hx| ->] Hn]; [|done].
      by rewrite (get_some _ r x Hr Hx Hn) in Hs.
    + rewrite get_iff by done. split; [|naive_solver]. intros [[Hx| ->] <-]; [done|]. by rewrite str_eqb_same in E.
  - unfold registry_ok in *. clear Hs Hext. induction Hr as [|x r Hs IH Hx]; cbn [List.filter]; [constructor|].
    destruct (negb _); [|done]. constructor; [done|]. rewrite list.Forall_forall in *. intros y Hy%list_elem_of_In%filter_In.
    apply Hx, list_elem_of_In, Hy.
  - intros k. unfold get. clear Hs Hext Hr. induction r as [|x r IH]; cbn [List.filter List.find]; [by destruct (str_eqb k n)|].
    destruct (str_eqb (name x) n) eqn:E; cbn [negb List.find].
    + rewrite IH. apply str_eqb_iff in E as ->. destruct (str_eqb k n) eqn:Ek; [done|]. rewrite str_eqb_other; [done|].
      intros ->. by rewrite str_eqb_same in Ek.
    + rewrite IH. destruct (str_eqb (name x) k) eqn:Exk; [|done]. apply str_eqb_iff in Exk as <-. by rewrite E.
Qed.
End registry.

(** ** Concrete inputs *)
Definition plan_pieces : list Piece :=
  [Lit (take 124 Template.PLAN_TEMPLATE); Hole Template.INSTRUCTION; Lit [LF; LF]; Lit t!"Scope:"; Lit [LF]; Hole t!"{{scope}}"; Lit [LF; LF];
   Lit t!"Context:"; Lit [LF]; Hole Template.CONTEXT; Lit [LF]].

Lemma template_filled_witness :
  let rs := [(Template.INSTRUCTION, t!"explain {{context}}"); (Template.CONTEXT, t!"fn main"); (t!"{{scope}}", t!"src")] in
  Template.render_plan_prompt t!"explain {{context}}" t!"fn main" t!"src" = filled rs plan_pieces
  /\ contains t!"explain {{context}}" (filled rs plan_pieces) = true.
Proof.
  intros rs. split; [|vm_compute; reflexivity].
  assert (source_of plan_pieces = Template.PLAN_TEMPLATE) as E by (vm_compute; reflexivity).
  unfold Template.render_plan_prompt. rewrite <- E. apply template_filled.
  - split; [repeat constructor; eexists; reflexivity|]. unfold rs. cbn [map fst].
    intros p q Hp Hq Hpq. rewrite !elem_of_cons in Hp, Hq.
    destruct Hp as [-> | [-> | [-> | []%not_elem_of_nil]]]; destruct Hq as [-> | [-> | [-> | []%not_elem_of_nil]]]; try reflexivity;
      exfalso; destruct Hpq as [k Hk]; vm_compute in Hk; discriminate.
  - unfold plan_pieces, rs. repeat apply Forall_cons_2; try apply Forall_nil_2; cbn [piece_ok];
      refine (bool_decide_eq_true_1 _ _); vm_compute; reflexivity.
Defined.

(** A source whose address ends in [..] is installed over the directory of the skills itself. *)
Example skill_over_all :
  Skills.derive_skill_name Skills.GitRepo t!"https://example.org/.." None (components t!"/tmp/x/clone") = inr t!".."
  /\ Skills.skill_dir (components t!"/ws") t!".." = components t!"/ws/.agents/skills/..".
Proof. vm_compute. split; reflexivity. Qed.

(** A tarball with its entry point at the top is always called [extracted]. *)
Example tarball_name :
  Skills.derive_skill_name Skills.Tarball t!"https://example.org/pdf-skill.tar.gz" None (components t!"/tmp/x/extracted") = inr t!"extracted".
Proof. vm_compute. reflexivity. Qed.
