(* ===== verification/Search.v ===== *)
(** The index of the code and the search in it: src/tools/index.rs, src/tools/search.rs,
    src/tools/workspace_ignore.rs and the walk of src/tools/operator/core.rs.

    A syntax tree is what the parsers of tree-sitter give for a file; the rules of [.gitignore],
    the parsers and the ranking of the crate bm25 are operations of classes.  A score is an [f64],
    as the float of the Standard Library with the precision and the exponents of binary64; the
    order in which a hash map is drained does not matter, since what comes from it is sorted by
    score and position.

    The walk takes a bound on its steps: [walk_ends] gives one for every tree. *)
From Stdlib Require Import NArith ZArith SpecFloat.
From stdpp Require Import base list gmap strings numbers sets.
From S2P Require Import Prelude Text Utf8 Collections Json Evidence ToolPreview FileSystem Workspace TaskSnapshot RequestContext.
#[local] Open Scope N_scope.

(** What the crate ignore makes of the rules of a file: whether a path or one of its parents is
    to be left out.  Nothing, if a line of the rules is not one. *)
Class IgnoreRules := { gitignore : path -> str -> option (str -> bool -> bool) }.

(** ** The files of the workspace *)
Section walk.
Context `{IgnoreRules}.
Variable op : ToolOperator.

(** [WorkspaceIgnore::load]. *)
Definition load_ignore (fs : FileSystem) (root : path) : str -> bool -> bool :=
  match read_to_string fs (path_join root [Normal t!".gitignore"]) with
  | inr rules => unwrap_or (gitignore root rules) (fun _ _ => false)
  | inl _ => fun _ _ => false
  end.

Definition within (fs : FileSystem) (p : path) : bool :=
  match ensure_path_is_within_workspace op p fs with inr _ => true | inl _ => false end.

(** The entries of a directory that are pushed, the last on top. *)
Definition entries_within (fs : FileSystem) (p : path) (found : list str) : list path :=
  List.filter (within fs) (map (fun name => path_join p [Normal name]) (sort_by str_ltb found)).

(** The path below the working directory, empty for what is not below it. *)
Definition relative_or_empty (p : path) : str :=
  match strip_path (working_dir op) p with Some r => path_to_repo_relative_string r | None => [] end.

(** The loop over the stack, the top first. *)
Fixpoint walk_stack (fuel : nat) (fs : FileSystem) (is_ignored : str -> bool -> bool) (stack found : list path)
    : option (Error + list path) :=
  match fuel with
  | O => None
  | S fuel =>
      match stack with
      | [] => Some (inr found)
      | p :: stack =>
          if negb (within fs p) then walk_stack fuel fs is_ignored stack found
          else
            let directory := is_dir fs p in
            let rel := relative_or_empty p in
            if negb (is_empty rel) && is_ignored rel directory then walk_stack fuel fs is_ignored stack found
            else if directory then
              match read_dir fs p with
              | inl e => Some (inl (Context (t!"Failed to read directory " ++ display p) (Io e)))
              | inr entries => walk_stack fuel fs is_ignored (reverse (entries_within fs p entries) ++ stack) found
              end
            else walk_stack fuel fs is_ignored stack (found ++ [p])
      end
  end.

Definition walk_workspace_files_ignoring (fuel : nat) (fs : FileSystem) (root : path) (is_ignored : str -> bool -> bool)
    : option (Error + list path) :=
  walk_stack fuel fs is_ignored [root] [].
Definition walk_workspace_files (fuel : nat) (fs : FileSystem) (root : path) : option (Error + list path) :=
  walk_workspace_files_ignoring fuel fs root (load_ignore fs (working_dir op)).
End walk.

(** ** The index: src/tools/index.rs *)
Module Index.
Inductive ItemKind : Type :=
| Function | Struct | Class_ | Interface | Enum | Impl | Trait | Module_ | Const | Static | TypeAlias.
#[export] Instance ItemKind_eq_dec : EqDecision ItemKind.
Proof. solve_decision. Defined.

Definition label (k : ItemKind) : str :=
  match k with
  | Function => t!"function" | Struct => t!"struct" | Class_ => t!"class" | Interface => t!"interface"
  | Enum => t!"enum" | Impl => t!"impl" | Trait => t!"trait" | Module_ => t!"module" | Const => t!"const"
  | Static => t!"static" | TypeAlias => t!"type"
  end.

Record IndexChunk := mk_IndexChunk {
  ic_path : str;
  ic_start_line : N;
  ic_end_line : N;
  ic_kind : ItemKind;
  ic_name : str;
  parent_scope : option str;
  ic_source : str;
}.

Inductive SourceLanguage : Type := Rust | Python | TypeScript | Tsx | JavaScript.

(** A node of tree-sitter: its kind, its text, its first and last row from 0, and its children
    with the names of their fields. *)
Inductive SyntaxNode : Type :=
| mk_SyntaxNode (kind : str) (text : option str) (start_row end_row : N) (children : list (option str * SyntaxNode)).

Definition node_kind (n : SyntaxNode) : str := match n with mk_SyntaxNode k _ _ _ _ => k end.
Definition utf8_text (n : SyntaxNode) : option str := match n with mk_SyntaxNode _ t _ _ _ => t end.
Definition rows (n : SyntaxNode) : N * N := match n with mk_SyntaxNode _ _ a b _ => (a, b) end.
Definition node_children (n : SyntaxNode) : list (option str * SyntaxNode) := match n with mk_SyntaxNode _ _ _ _ l => l end.
(** The first child of a field. *)
Definition child_by_field_name (field : str) (n : SyntaxNode) : option SyntaxNode :=
  snd <$> List.find (fun c => bool_decide (c.1 = Some field)) (node_children n).

(** [Parser::set_language] and [Parser::parse]: the root of the tree. *)
Class TreeSitter := { parse_tree : SourceLanguage -> str -> option SyntaxNode }.

(** [workspace_relative], of a path the walk gives. *)
Definition workspace_relative (workspace_root p : path) : str :=
  path_to_repo_relative_string (unwrap_or (strip_path workspace_root p) p).

(** [workspace_relative] of the root joined with a relative text: what is left of the text by
    [strip_prefix] begins and ends with a name, but is otherwise as it was written. *)
Definition blank_piece (s : str) : bool := str_eqb s [] || str_eqb s [DOT].
Definition joined_relative (text : str) : str :=
  replace [BACKSLASH] [SLASH]
    (join [SLASH] (reverse (drop_while blank_piece (reverse (drop_while blank_piece (split_on SLASH text)))))).

Definition detect_source_language (p : str) : option SourceLanguage :=
  ext ← Paths.extension p;
  if str_eqb ext t!"rs" then Some Rust
  else if str_eqb ext t!"py" then Some Python
  else if str_eqb ext t!"ts" then Some TypeScript
  else if str_eqb ext t!"tsx" then Some Tsx
  else if str_in ext [t!"js"; t!"mjs"; t!"cjs"; t!"jsx"] then Some JavaScript
  else None.

(** *** What a syntax tree declares *)
Definition function_valued_variable (n : SyntaxNode) : bool :=
  match child_by_field_name t!"value" n with
  | Some v => str_in (node_kind v) [t!"arrow_function"; t!"function"; t!"function_expression"]
  | None => false
  end.

Definition push_chunk (chunks : list IndexChunk) (rel_path : str) (n : SyntaxNode) (kind : ItemKind) (name : str)
    (scope : option str) : list IndexChunk :=
  chunks ++ [mk_IndexChunk rel_path ((rows n).1 + 1) ((rows n).2 + 1) kind name scope (unwrap_or (utf8_text n) [])].

Definition name_or_blank (n : SyntaxNode) : str := unwrap_or (utf8_text n) t!"_".

Definition extract_name (n : SyntaxNode) (kind : ItemKind) : str :=
  let child_of kinds := List.find (fun c => str_in (node_kind c.2) kinds) (node_children n) in
  if bool_decide (kind = Impl) then
    match child_of [t!"type_identifier"; t!"generic_type"] with
    | Some (_, c) => name_or_blank c
    | None => t!"_impl"
    end
  else
    match child_by_field_name t!"name" n with
    | Some c => name_or_blank c
    | None =>
        match child_of [t!"identifier"; t!"type_identifier"; t!"property_identifier"] with
        | Some (_, c) => name_or_blank c
        | None => t!"_"
        end
    end.

Definition rust_kind (k : str) : option ItemKind :=
  if str_eqb k t!"function_item" then Some Function
  else if str_eqb k t!"struct_item" then Some Struct
  else if str_eqb k t!"enum_item" then Some Enum
  else if str_eqb k t!"impl_item" then Some Impl
  else if str_eqb k t!"trait_item" then Some Trait
  else if str_eqb k t!"mod_item" then Some Module_
  else if str_eqb k t!"const_item" then Some Const
  else if str_eqb k t!"static_item" then Some Static
  else if str_eqb k t!"type_item" then Some TypeAlias
  else None.

Definition opens_scope (k : ItemKind) : bool := match k with Impl | Trait | Module_ => true | _ => false end.

Section extraction.
Variable rel_path : str.

Fixpoint extract_rust_items (n : SyntaxNode) (scope : option str) (chunks : list IndexChunk) : list IndexChunk :=
  match n with
  | mk_SyntaxNode _ _ _ _ children =>
      (fix over (l : list (option str * SyntaxNode)) (chunks : list IndexChunk) : list IndexChunk :=
         match l with
         | [] => chunks
         | (_, child) :: rest =>
             over rest
               match rust_kind (node_kind child) with
               | Some kind =>
                   let name := extract_name child kind in
                   let scope_name := if opens_scope kind then Some name else scope in
                   let chunks := push_chunk chunks rel_path child kind name scope_name in
                   if opens_scope kind then extract_rust_items child scope_name chunks else chunks
               | None =>
                   if str_eqb (node_kind child) t!"declaration_list" then extract_rust_items child scope chunks
                   else chunks
               end
         end) children chunks
  end.

Fixpoint extract_python_items (n : SyntaxNode) (scope : option str) (chunks : list IndexChunk) : list IndexChunk :=
  match n with
  | mk_SyntaxNode _ _ _ _ children =>
      (fix over (l : list (option str * SyntaxNode)) (chunks : list IndexChunk) : list IndexChunk :=
         match l with
         | [] => chunks
         | (_, child) :: rest =>
             over rest
               (if str_eqb (node_kind child) t!"class_definition" then
                  let name := extract_name child Class_ in
                  extract_python_items child (Some name) (push_chunk chunks rel_path child Class_ name scope)
                else if str_eqb (node_kind child) t!"function_definition" then
                  push_chunk chunks rel_path child Function (extract_name child Function) scope
                else extract_python_items child scope chunks)
         end) children chunks
  end.

(** The declarations of JavaScript and TypeScript that are recorded and not looked into. *)
Definition javascript_kind (child : SyntaxNode) : option ItemKind :=
  let k := node_kind child in
  if str_in k [t!"function_declaration"; t!"generator_function_declaration"; t!"method_definition"] then Some Function
  else if str_eqb k t!"interface_declaration" then Some Interface
  else if str_eqb k t!"type_alias_declaration" then Some TypeAlias
  else if str_eqb k t!"enum_declaration" then Some Enum
  else if str_eqb k t!"variable_declarator" && function_valued_variable child then Some Function
  else None.

Fixpoint extract_javascript_items (n : SyntaxNode) (scope : option str) (chunks : list IndexChunk) : list IndexChunk :=
  match n with
  | mk_SyntaxNode _ _ _ _ children =>
      (fix over (l : list (option str * SyntaxNode)) (chunks : list IndexChunk) : list IndexChunk :=
         match l with
         | [] => chunks
         | (_, child) :: rest =>
             over rest
               (if str_eqb (node_kind child) t!"class_declaration" then
                  let name := extract_name child Class_ in
                  extract_javascript_items child (Some name) (push_chunk chunks rel_path child Class_ name scope)
                else
                  match javascript_kind child with
                  | Some kind => push_chunk chunks rel_path child kind (extract_name child kind) scope
                  | None => extract_javascript_items child scope chunks
                  end)
         end) children chunks
  end.
End extraction.

Section index.
Context `{IgnoreRules} `{TreeSitter}.

Definition parse_source_file (rel_path source : str) (language : SourceLanguage) (chunks : list IndexChunk)
    : list IndexChunk :=
  match parse_tree language source with
  | None => chunks
  | Some root =>
      match language with
      | Rust => extract_rust_items rel_path root None chunks
      | Python => extract_python_items rel_path root None chunks
      | TypeScript | Tsx | JavaScript => extract_javascript_items rel_path root None chunks
      end
  end.

Definition excluded (exclude : list str) (rel : str) : bool := existsb (fun ex => starts_with ex rel) exclude.
(** [metadata().len()], 0 for what cannot be asked.  Only asked of what is not a directory. *)
Definition size_of (fs : FileSystem) (p : path) : N :=
  match metadata fs p with Some (File data _) => N.of_nat (length data) | _ => 0 end.

Definition build_index_filtered (fuel : nat) (fs : FileSystem) (workspace_root : path) (exclude : list str)
    (max_file_size : N) : option (list IndexChunk) :=
  let op := operator_new fs workspace_root in
  (fun walked =>
     match walked with
     | inl _ => []
     | inr paths =>
         foldl (fun chunks p =>
             let rel := workspace_relative workspace_root p in
             if excluded exclude rel then chunks
             else
               match detect_source_language (display p) with
               | None => chunks
               | Some language =>
                   if max_file_size <? size_of fs p then chunks
                   else
                     match read_to_string fs p with
                     | inr source => parse_source_file rel source language chunks
                     | inl _ => chunks
                     end
               end)
           [] paths
     end) <$> walk_workspace_files_ignoring op fuel fs workspace_root (load_ignore fs workspace_root).

(** After a change of the file that a relative text names. *)
Definition update_index_filtered (fs : FileSystem) (chunks : list IndexChunk) (text : str) (workspace_root : path)
    (exclude : list str) (max_file_size : N) : list IndexChunk :=
  let changed_path := path_join workspace_root (components text) in
  let rel := joined_relative text in
  let chunks := List.filter (fun c => negb (str_eqb (ic_path c) rel)) chunks in
  if excluded exclude rel then chunks
  else if load_ignore fs workspace_root rel (is_dir fs changed_path) then chunks
  else
    match detect_source_language (display changed_path) with
    | None => chunks
    | Some language =>
        if max_file_size <? size_of fs changed_path then chunks
        else
          match read_to_string fs changed_path with
          | inr source => parse_source_file rel source language chunks
          | inl _ => chunks
          end
    end.
End index.
End Index.

(** ** [f64] *)
Definition f64_add : spec_float -> spec_float -> spec_float := SFadd 53 1024.
Definition f64_mul : spec_float -> spec_float -> spec_float := SFmul 53 1024.
Definition f64_of_N (n : N) : spec_float := binary_normalize 53 1024 (Z.of_N n) 0 false.
Definition f64_zero : spec_float := S754_zero false.
(** [0.0 < x]. *)
Definition positive (x : spec_float) : bool := SFltb f64_zero x.

(** The place of a float in the order of [total_cmp]. *)
Definition total_key (x : spec_float) : Z * Z * Z :=
  (match x with
   | S754_infinity true => (-3, 0, 0)
   | S754_finite true m e => (-2, -e, Z.neg m)
   | S754_zero true => (-1, 0, 0)
   | S754_zero false => (0, 0, 0)
   | S754_finite false m e => (1, e, Z.pos m)
   | S754_infinity false => (2, 0, 0)
   | S754_nan => (3, 0, 0)
   end)%Z.
(** [a.total_cmp(b)] is [Less]. *)
Definition total_ltb (a b : spec_float) : bool :=
  let '(a1, a2, a3) := total_key a in
  let '(b1, b2, b3) := total_key b in
  ((a1 <? b1) || ((a1 =? b1) && ((a2 <? b2) || ((a2 =? b2) && (a3 <? b3)))))%Z.

(** ** The search: src/tools/search.rs *)
Module Query.
Import Index.

Record SearchResult := mk_SearchResult {
  sr_path : str;
  sr_start_line : N;
  sr_end_line : N;
  kind_label : str;
  sr_name : str;
  score : spec_float;
  snippet : str;
}.

Record ParsedQuery := mk_ParsedQuery {
  terms : list str;
  required_terms : list str;
  excluded_terms : list str;
  path_filters : list str;
  kind_filters : list str;
  lang_filters : list str;
}.
(** [Vec::is_empty]. *)
Definition is_empty_list {A} (l : list A) : bool := match l with [] => true | _ => false end.
Definition empty_query : ParsedQuery := mk_ParsedQuery [] [] [] [] [] [].

(** The words of a query: quotes keep blanks inside a word, and are not part of it. *)
Fixpoint tokenize_from (in_quotes : bool) (current : str) (query : str) : list str :=
  match query with
  | [] => if is_empty current then [] else [current]
  | ch :: r =>
      if ch =? DQUOTE then tokenize_from (negb in_quotes) current r
      else if is_whitespace ch && negb in_quotes then
        if is_empty current then tokenize_from in_quotes [] r else current :: tokenize_from in_quotes [] r
      else tokenize_from in_quotes (current ++ [ch]) r
  end.
Definition tokenize_query (query : str) : list str := tokenize_from false [] query.

Definition normalize_kind_filter (v : str) : option str :=
  let normalized := to_ascii_lowercase (trim v) in
  if is_empty normalized then None
  else if str_eqb normalized t!"typealias" then Some t!"type"
  else Some normalized.

Definition normalize_lang_filter (v : str) : option str :=
  let normalized := to_ascii_lowercase (trim v) in
  if is_empty normalized then None
  else if str_in normalized [t!"rs"; t!"rust"] then Some t!"rust"
  else if str_in normalized [t!"py"; t!"python"] then Some t!"python"
  else if str_in normalized [t!"ts"; t!"tsx"; t!"typescript"] then Some t!"typescript"
  else if str_in normalized [t!"js"; t!"jsx"; t!"mjs"; t!"cjs"; t!"javascript"] then Some t!"javascript"
  else Some normalized.

Definition detect_chunk_language (p : str) : option str :=
  ext ← to_ascii_lowercase <$> Paths.extension p;
  if str_eqb ext t!"rs" then Some t!"rust"
  else if str_eqb ext t!"py" then Some t!"python"
  else if str_in ext [t!"ts"; t!"tsx"] then Some t!"typescript"
  else if str_in ext [t!"js"; t!"jsx"; t!"mjs"; t!"cjs"] then Some t!"javascript"
  else None.

Definition add_path_filter (lowered : str) (q : ParsedQuery) : ParsedQuery :=
  if is_empty lowered then q
  else mk_ParsedQuery (terms q) (required_terms q) (excluded_terms q) (path_filters q ++ [lowered]) (kind_filters q) (lang_filters q).
Definition add_kind_filter (o : option str) (q : ParsedQuery) : ParsedQuery :=
  match o with
  | Some k => mk_ParsedQuery (terms q) (required_terms q) (excluded_terms q) (path_filters q) (kind_filters q ++ [k]) (lang_filters q)
  | None => q
  end.
Definition add_lang_filter (o : option str) (q : ParsedQuery) : ParsedQuery :=
  match o with
  | Some l => mk_ParsedQuery (terms q) (required_terms q) (excluded_terms q) (path_filters q) (kind_filters q) (lang_filters q ++ [l])
  | None => q
  end.

(** The bucket of a term, by the sign before it. *)
Definition add_term (trimmed : str) (q : ParsedQuery) : ParsedQuery :=
  let normal t := to_ascii_lowercase (trim t) in
  let keep t l := if is_empty (normal t) then l else l ++ [normal t] in
  match strip_prefix t!"+" trimmed, strip_prefix t!"-" trimmed with
  | Some t, _ => mk_ParsedQuery (terms q) (keep t (required_terms q)) (excluded_terms q) (path_filters q) (kind_filters q) (lang_filters q)
  | None, Some t => mk_ParsedQuery (terms q) (required_terms q) (keep t (excluded_terms q)) (path_filters q) (kind_filters q) (lang_filters q)
  | None, None => mk_ParsedQuery (keep trimmed (terms q)) (required_terms q) (excluded_terms q) (path_filters q) (kind_filters q) (lang_filters q)
  end.

Definition parse_token (q : ParsedQuery) (token : str) : ParsedQuery :=
  let trimmed := trim token in
  if is_empty trimmed then q
  else
    match strip_prefix t!"path:" trimmed, strip_prefix t!"kind:" trimmed, strip_prefix t!"lang:" trimmed with
    | Some v, _, _ => add_path_filter (to_ascii_lowercase (trim v)) q
    | None, Some v, _ => add_kind_filter (normalize_kind_filter v) q
    | None, None, Some v => add_lang_filter (normalize_lang_filter v) q
    | None, None, None => add_term trimmed q
    end.
Definition parse (query : str) : ParsedQuery := foldl parse_token empty_query (tokenize_query query).

Definition positive_query_text (q : ParsedQuery) : str := join [SPACE] (terms q ++ required_terms q).
Definition has_positive_terms (q : ParsedQuery) : bool :=
  negb (is_empty_list (terms q)) || negb (is_empty_list (required_terms q)).
Definition is_effectively_empty (q : ParsedQuery) : bool :=
  is_empty_list (terms q) && is_empty_list (required_terms q) && is_empty_list (excluded_terms q)
  && is_empty_list (path_filters q) && is_empty_list (kind_filters q) && is_empty_list (lang_filters q).

(** *** What is looked at in a chunk *)
Record ChunkSearchFields := mk_ChunkSearchFields {
  name_lower : str;
  scope_lower : option str;
  source_lower : str;
  path_lower : str;
  kind_lower : str;
  lang_lower : option str;
}.

Definition from_chunk (c : IndexChunk) : ChunkSearchFields :=
  mk_ChunkSearchFields (to_ascii_lowercase (ic_name c)) (to_ascii_lowercase <$> parent_scope c)
    (to_ascii_lowercase (ic_source c)) (to_ascii_lowercase (ic_path c)) (to_ascii_lowercase (label (ic_kind c)))
    (detect_chunk_language (ic_path c)).

Definition matches_term (f : ChunkSearchFields) (term : str) : bool :=
  contains term (name_lower f) || contains term (path_lower f) || contains term (kind_lower f)
  || contains term (source_lower f)
  || match scope_lower f with Some s => contains term s | None => false end
  || match lang_lower f with Some l => str_eqb l term | None => false end.

Definition chunk_matches_query (f : ChunkSearchFields) (q : ParsedQuery) : bool :=
  let any l (test : str -> bool) := is_empty_list l || existsb test l in
  any (path_filters q) (fun p => contains p (path_lower f))
  && any (kind_filters q) (fun k => str_eqb k (kind_lower f))
  && any (lang_filters q) (fun l => match lang_lower f with Some lang => str_eqb lang l | None => false end)
  && negb (existsb (matches_term f) (excluded_terms q))
  && negb (existsb (fun t => negb (matches_term f t)) (required_terms q)).

Definition matches_positive_terms (f : ChunkSearchFields) (q : ParsedQuery) : bool :=
  if negb (is_empty_list (required_terms q)) && existsb (fun t => negb (matches_term f t)) (required_terms q) then false
  else if is_empty_list (terms q) then true
  else existsb (matches_term f) (terms q).

(** [if condition { score += weight }]. *)
Definition bump (condition : bool) (weight : N) (s : spec_float) : spec_float :=
  if condition then f64_add s (f64_of_N weight) else s.

Definition score_term (f : ChunkSearchFields) (term : str) (required : bool) : spec_float :=
  let source_match_weight := if contains_char SPACE term then 8 else 5 in
  let exact_name_weight := if required then 60 else 45 in
  let substring_name_weight := if required then 25 else 15 in
  let s := f64_zero in
  let s := if str_eqb (name_lower f) term then f64_add s (f64_of_N exact_name_weight)
           else bump (contains term (name_lower f)) substring_name_weight s in
  let s := bump (contains term (path_lower f)) 10 s in
  let s := bump (str_eqb (kind_lower f) term) 10 s in
  let s := bump (match scope_lower f with Some scope => contains term scope | None => false end) 12 s in
  let count := N.of_nat (length (match_indices term (source_lower f))) in
  if 0 <? count then f64_add s (f64_mul (f64_of_N count) (f64_of_N source_match_weight)) else s.

Definition score_phrase (f : ChunkSearchFields) (query_lower : str) (s : spec_float) : spec_float :=
  if is_empty query_lower then s
  else
    let s :=
      if str_eqb (name_lower f) query_lower then f64_add s (f64_of_N 100)
      else if contains query_lower (name_lower f) then f64_add s (f64_of_N 50)
      else bump (contains (name_lower f) query_lower && (2 <? blen (name_lower f))) 30 s in
    bump (match scope_lower f with Some scope => contains query_lower scope || contains scope query_lower | None => false end) 20 s.

Definition score_chunk (c : IndexChunk) (q : ParsedQuery) (positive_query : str) : spec_float :=
  let f := from_chunk c in
  if negb (chunk_matches_query f q) then f64_zero
  else
    let s := score_phrase f (to_ascii_lowercase positive_query) f64_zero in
    let s := foldl (fun s term => f64_add s (score_term f term false)) s (terms q) in
    let s := foldl (fun s term => f64_add s (score_term f term true)) s (required_terms q) in
    if SFleb s f64_zero && negb (has_positive_terms q) then f64_of_N 1 else s.

(** *** Searching *)

(** [SearchEngine::search] of the documents, numbered from 0: their ranks, as [f32]. *)
Class Bm25 := { bm25_search : list str -> str -> list (N * spec_float) }.

Section search.
Context `{Bm25}.
Variable env : str -> option str.

Definition max_results_default : N :=
  match env t!"VEX_SEARCH_MAX_RESULTS" ≫= parse_uint usize_max with
  | Some n => if 0 <? n then n else 10
  | None => 10
  end.

Definition truncate_snippet (source : str) (max_lines : nat) : str :=
  let ls := lines source in
  if (length ls <=? max_lines)%nat then source
  else join NL (take max_lines ls) ++ NL ++ t!"    ... (" ++ fmt_N (N.of_nat (length ls - max_lines)) ++ t!" more lines)".

Definition result_of (c : IndexChunk) (s : spec_float) : SearchResult :=
  mk_SearchResult (ic_path c) (ic_start_line c) (ic_end_line c) (label (ic_kind c)) (ic_name c) s (truncate_snippet (ic_source c) 20).

(** The chunks with a score of their own, by position. *)
Definition own_scores (index : list IndexChunk) (q : ParsedQuery) : list (N * spec_float) :=
  omap (fun '(i, c) => let s := score_chunk c q (positive_query_text q) in if positive s then Some (i, s) else None)
    (imap (fun i c => (N.of_nat i, c)) index).

Definition bm25_document (c : IndexChunk) : str := ic_name c ++ [SPACE] ++ ic_source c.

Definition bm25_weight (index : list IndexChunk) (q : ParsedQuery) (r : N * spec_float) : option (N * spec_float) :=
  c ← index !! N.to_nat r.1;
  let f := from_chunk c in
  if negb (chunk_matches_query f q) then None
  else if negb (matches_positive_terms f q) then None
  else let w := f64_mul r.2 (f64_of_N 10) in if positive w then Some (r.1, w) else None.

Definition bm25_scores (index : list IndexChunk) (q : ParsedQuery) : list (N * spec_float) :=
  if is_empty (positive_query_text q) then []
  else foldl (fun m '(i, w) => bmap_insert i w m) []
         (omap (bm25_weight index q) (bm25_search (map bm25_document index) (positive_query_text q))).

(** [*score_map.entry(i).or_insert(0.0) += w]. *)
Definition add_score (m : list (N * spec_float)) (iw : N * spec_float) : list (N * spec_float) :=
  bmap_insert iw.1 (f64_add (unwrap_or (bmap_get iw.1 m) f64_zero) iw.2) m.

Definition better (a b : spec_float * N) : bool :=
  total_ltb b.1 a.1 || (negb (total_ltb a.1 b.1) && (a.2 <? b.2)).

Definition score_map (index : list IndexChunk) (q : ParsedQuery) : list (N * spec_float) :=
  foldl add_score (foldl (fun m '(i, s) => bmap_insert i s m) [] (own_scores index q)) (bm25_scores index q).

Definition hits (index : list IndexChunk) (q : ParsedQuery) (cap : N) : list (spec_float * N) :=
  take (N.to_nat cap) (sort_by better (map (fun '(i, s) => (s, i)) (score_map index q))).

Definition codebase_search (query : str) (index : list IndexChunk) (max_results : option N) : list SearchResult :=
  let cap := unwrap_or max_results max_results_default in
  if is_empty (trim query) || is_empty_list index then []
  else
    let q := parse query in
    if is_effectively_empty q then []
    else omap (fun '(s, i) => (fun c => result_of c s) <$> index !! N.to_nat i) (hits index q cap).

(** *** With the semantic search: src/tools/semantic.rs gives its scores *)
Record SemanticChunkScore := mk_SemanticChunkScore {
  ss_path : str;
  ss_start_line : N;
  ss_end_line : N;
  ss_name : str;
  ss_score : spec_float;
}.
Abbreviation ChunkKey := (str * N * N * str)%type.
Definition result_key (r : SearchResult) : ChunkKey := (sr_path r, sr_start_line r, sr_end_line r, sr_name r).
Definition chunk_key (c : IndexChunk) : ChunkKey := (ic_path c, ic_start_line c, ic_end_line c, ic_name c).
Definition semantic_key (s : SemanticChunkScore) : ChunkKey := (ss_path s, ss_start_line s, ss_end_line s, ss_name s).

(** [score.max(0.0) * 60.0]: the maximum with a NaN is the other. *)
Definition semantic_score_weight (s : spec_float) : spec_float :=
  f64_mul (if positive s then s else f64_zero) (f64_of_N 60).

Definition raise_score (w : spec_float) (r : SearchResult) : SearchResult :=
  mk_SearchResult (sr_path r) (sr_start_line r) (sr_end_line r) (kind_label r) (sr_name r) (f64_add (score r) w) (snippet r).

Definition merge_step (lookup_chunk : ChunkKey -> option IndexChunk)
    (st : list SearchResult * list (ChunkKey * nat)) (semantic : SemanticChunkScore) : list SearchResult * list (ChunkKey * nat) :=
  let '(merged, positions) := st in
  let key := semantic_key semantic in
  let w := semantic_score_weight (ss_score semantic) in
  if negb (positive w) then st
  else
    match im_get key positions with
    | Some i => (alter (raise_score w) i merged, positions)
    | None =>
        match lookup_chunk key with
        | None => st
        | Some c => (merged ++ [result_of c w], im_insert key (length merged) positions)
        end
    end.

Definition result_before (a b : SearchResult) : bool :=
  total_ltb (score b) (score a)
  || (negb (total_ltb (score a) (score b))
      && (str_ltb (sr_path a) (sr_path b)
          || (negb (str_ltb (sr_path b) (sr_path a)) && (sr_start_line a <? sr_start_line b)))).

Definition merge_search_results (index : list IndexChunk) (structural_results : list SearchResult)
    (semantic_scores : list SemanticChunkScore) (max_results : option N) : list SearchResult :=
  let cap := unwrap_or max_results max_results_default in
  if cap =? 0 then []
  else
    let positions := foldl (fun m '(k, i) => im_insert k i m) [] (imap (fun i r => (result_key r, i)) structural_results) in
    let index_lookup := foldl (fun m c => im_insert (chunk_key c) c m) [] index in
    let merged := (foldl (merge_step (fun k => im_get k index_lookup)) (structural_results, positions) semantic_scores).1 in
    take (N.to_nat cap) (sort_by result_before merged).

Definition format_result (i : nat) (r : SearchResult) : str :=
  NL ++ fmt_N (N.of_nat i + 1) ++ t!". [" ++ kind_label r ++ t!"] `" ++ sr_name r ++ t!"` in " ++ sr_path r ++ t!":"
  ++ fmt_N (sr_start_line r) ++ t!"-" ++ fmt_N (sr_end_line r) ++ NL
  ++ concat (map (fun line => t!"   " ++ line ++ NL) (lines (snippet r))).

Definition format_search_results (query : str) (results : list SearchResult) : str :=
  match results with
  | [] => t!"No results found for " ++ [DQUOTE] ++ query ++ [DQUOTE] ++ t!"."
  | _ =>
      t!"Found " ++ fmt_N (N.of_nat (length results)) ++ t!" results for " ++ [DQUOTE] ++ query ++ [DQUOTE] ++ t!":" ++ NL
      ++ concat (imap format_result results)
  end.
End search.
End Query.
