(* ===== verification/SearchTheory.v ===== *)
(** What the search and the index promise: the best chunks are found, queries of filters list what
    passes them, a change of a file is a change of its chunks only, and the walk over the files
    ends, in whatever tree, with files inside the workspace. *)
From Stdlib Require Import NArith ZArith Lia Sorted SpecFloat ZifyBool ZifyN.
From stdpp Require Import base list gmap strings numbers sets.
From S2P Require Import Prelude Text Utf8 Collections Json Evidence ToolPreview FileSystem FileSystemTheory Workspace TaskSnapshot RequestContext Search.
#[local] Open Scope N_scope.
Import Index Query.

(** ** The order of the hits *)
Lemma better_asym a b : better a b = true -> better b a = false.
Proof.
  unfold better, total_ltb. destruct a as [a i], b as [b j]. cbn [fst snd].
  destruct (total_key a) as [[a1 a2] a3], (total_key b) as [[b1 b2] b3]. lia.
Qed.
Lemma better_trans a b c : better b a = false -> better c b = false -> better c a = false.
Proof.
  unfold better, total_ltb. destruct a as [a i], b as [b j], c as [c k]. cbn [fst snd].
  destruct (total_key a) as [[a1 a2] a3], (total_key b) as [[b1 b2] b3], (total_key c) as [[c1 c2] c3]. lia.
Qed.

(** ** Sorted maps as they are filled *)
Section filled.
Context {V : Type}.
Implicit Types (m l : list (N * V)).

Lemma fill_sorted l m : sorted_keys m -> sorted_keys (foldl (fun m '(i, s) => bmap_insert i s m) m l).
Proof. revert m. induction l as [|[i s] l IH]; intros m Hm; [done|]. by apply IH, bmap_insert_sorted. Qed.

Lemma fill_get l m k :
  NoDup (map fst l) ->
  bmap_get k (foldl (fun m '(i, s) => bmap_insert i s m) m l)
  = match List.find (fun kv => same k kv.1) l with Some (_, s) => Some s | None => bmap_get k m end.
Proof.
  revert m. induction l as [|[i s] l IH]; intros m; [done|]. cbn [map fst List.find foldl]. intros [Hi Hl]%NoDup_cons.
  rewrite IH by done. destruct (same k i) eqn:E.
  - apply same_spec in E as ->. destruct (List.find _ l) as [[j t]|] eqn:F; [|by apply bmap_get_insert_eq].
    apply List.find_some in F as [F Hj]. cbn [fst] in Hj. apply same_spec in Hj as <-. destruct Hi.
    apply elem_of_keys. exists t. by apply list_elem_of_In.
  - destruct (List.find _ l); [done|]. apply bmap_get_insert_ne. intros ->. by rewrite (proj2 (same_spec i i)) in E.
Qed.
End filled.

Lemma add_scores_sorted l m : sorted_keys m -> sorted_keys (foldl add_score m l).
Proof. revert m. induction l as [|iw l IH]; intros m Hm; [done|]. by apply IH, bmap_insert_sorted. Qed.

Lemma add_scores_get l m k :
  sorted_keys l ->
  bmap_get k (foldl add_score m l)
  = match bmap_get k l with
    | Some w => Some (f64_add (unwrap_or (bmap_get k m) f64_zero) w)
    | None => bmap_get k m
    end.
Proof.
  unfold sorted_keys, sorted. revert m. induction l as [|[i w] l IH]; intros m; cbn [map fst foldl bmap_get]; [done|].
  intros [Hs Hi]%Sorted.StronglySorted_inv. rewrite list.Forall_forall in Hi. rewrite IH by done.
  unfold add_score. cbn [fst snd]. destruct (same k i) eqn:E.
  - apply same_spec in E as ->. rewrite (bmap_get_absent i l), bmap_get_insert_eq; [done|].
    intros Hin%Hi. by rewrite ltb_irrefl in Hin.
  - rewrite bmap_get_insert_ne by (intros ->; by rewrite (proj2 (same_spec i i)) in E). done.
Qed.

(** ** The scores *)
Section scores.
Context `{Bm25}.
Implicit Types (index : list IndexChunk) (q : ParsedQuery).

Lemma elem_of_own index q i s :
  (i, s) ∈ own_scores index q
  <-> exists c, index !! N.to_nat i = Some c /\ s = score_chunk c q (positive_query_text q) /\ positive s = true.
Proof.
  unfold own_scores. rewrite list_elem_of_omap. split.
  - intros ([j c] & Hin & Hs). apply elem_of_lookup_imap in Hin as (k & c' & [= -> ->] & Hk).
    destruct (positive _) eqn:E; [|done]. injection Hs as <- <-. exists c'. by rewrite Nat2N.id.
  - intros (c & Hc & -> & Hp). exists (i, c). split; [|by rewrite Hp].
    apply elem_of_lookup_imap. exists (N.to_nat i), c. by rewrite N2Nat.id.
Qed.

Lemma own_keys index q : NoDup (map fst (own_scores index q)).
Proof.
  unfold own_scores.
  assert (forall l : list (N * IndexChunk), NoDup (map fst l) ->
    let l' := omap (fun '(i, c) => let s := score_chunk c q (positive_query_text q) in if positive s then Some (i, s) else None) l in
    NoDup (map fst l') /\ forall i, i ∈ map fst l' -> i ∈ map fst l) as Hl.
  { induction l as [|[i c] l IH]; [split; [constructor | done]|]. cbn [map fst]. intros [Hi Hl]%NoDup_cons.
    destruct (IH Hl) as [Hn Hsub]. cbn [omap list_omap]. destruct (positive _); cbn [map fst].
    - split; [constructor; [by intros ?%Hsub | done]|]. intros j. rewrite !elem_of_cons. naive_solver.
    - split; [done|]. intros j Hj. right. by apply Hsub. }
  apply Hl. clear Hl. apply NoDup_alt. intros a b x. rewrite !list_lookup_fmap, !list_lookup_imap.
  destruct (index !! a), (index !! b); cbn; try done. intros [= <-] [= Hab]. lia.
Qed.

(** The score of a chunk: its own, if it is positive, and the weight of its rank. *)
Definition own_score index q (i : N) : option spec_float :=
  c ← index !! N.to_nat i;
  let s := score_chunk c q (positive_query_text q) in if positive s then Some s else None.
Definition total_score index q (i : N) : option spec_float :=
  match own_score index q i, bmap_get i (bm25_scores index q) with
  | own, Some w => Some (f64_add (unwrap_or own f64_zero) w)
  | own, None => own
  end.

Lemma score_map_get index q i : bmap_get i (score_map index q) = total_score index q i.
Proof.
  unfold score_map, total_score. rewrite add_scores_get.
  2: { unfold bm25_scores. destruct (is_empty _); [constructor | by apply fill_sorted; constructor]. }
  assert (bmap_get i (foldl (fun m '(i, s) => bmap_insert i s m) [] (own_scores index q)) = own_score index q i) as ->; [|done].
  rewrite fill_get by apply own_keys. cbn [bmap_get]. unfold own_score.
  destruct (List.find _ _) as [[j s]|] eqn:F.
  - apply List.find_some in F as [F Hj]. cbn [fst] in Hj. apply same_spec in Hj as <-.
    apply list_elem_of_In, elem_of_own in F as (c & -> & -> & Hp). cbn. by rewrite Hp.
  - destruct (index !! N.to_nat i) as [c|] eqn:Hc; [|done]. cbn. destruct (positive _) eqn:Hp; [|done].
    assert ((i, score_chunk c q (positive_query_text q)) ∈ own_scores index q) as Hin by (apply elem_of_own; eauto).
    apply list_elem_of_In in Hin. pose proof (List.find_none _ _ F _ Hin) as Hn. cbn [fst] in Hn.
    by rewrite (proj2 (same_spec i i)) in Hn.
Qed.

Lemma score_map_sorted index q : sorted_keys (score_map index q).
Proof. apply add_scores_sorted, fill_sorted. constructor. Qed.

Lemma elem_of_scores index q s i :
  (s, i) ∈ map (fun '(i, s) => (s, i)) (score_map index q) <-> total_score index q i = Some s.
Proof.
  rewrite <- score_map_get, bmap_get_elem by apply score_map_sorted. rewrite list_elem_of_fmap. split.
  - by intros ([i' s'] & [= -> ->] & Hin).
  - intros Hin. by exists (i, s).
Qed.

(** Only what the query lets pass has a score. *)
Lemma scored_matches index q i s :
  total_score index q i = Some s -> exists c, index !! N.to_nat i = Some c /\ chunk_matches_query (from_chunk c) q = true.
Proof.
  unfold total_score. destruct (bmap_get i (bm25_scores index q)) as [w|] eqn:Hb.
  - intros _. unfold bm25_scores in Hb. destruct (is_empty _); [done|]. revert Hb.
    assert (forall l m, (forall w, bmap_get i m = Some w -> exists c, index !! N.to_nat i = Some c /\ chunk_matches_query (from_chunk c) q = true) ->
      bmap_get i (foldl (fun m '(i, w) => bmap_insert i w m) m (omap (bm25_weight index q) l)) = Some w ->
      exists c, index !! N.to_nat i = Some c /\ chunk_matches_query (from_chunk c) q = true) as Hl; [|by apply (Hl _ [])].
    induction l as [|[j r] l IH]; intros m Hm; cbn [omap list_omap foldl]; [apply Hm|].
    destruct (bm25_weight index q (j, r)) as [[k t]|] eqn:E; cbn [foldl]; [|by apply IH].
    apply IH. intros w'. destruct (decide (i = k)) as [<-|Hne]; [|rewrite bmap_get_insert_ne by done; apply Hm].
    intros _. unfold bm25_weight in E. cbn [fst snd] in E. destruct (index !! N.to_nat j) as [c|] eqn:Hc; [|done]. cbn in E.
    destruct (chunk_matches_query _ _) eqn:Hq; [|done]. cbn [negb] in E. destruct (negb _); [done|]. destruct (positive _); [|done].
    injection E as <- <-. by exists c.
  - unfold own_score. destruct (index !! N.to_nat i) as [c|]; [|done]. cbn. intros Hs. exists c. split; [done|].
    unfold score_chunk in Hs. destruct (chunk_matches_query _ _); [done|]. done.
Qed.
End scores.

(** What a query asks of a chunk. *)
Definition admits (q : ParsedQuery) (c : IndexChunk) : Prop :=
  let f := from_chunk c in
  (path_filters q = [] \/ exists p, p ∈ path_filters q /\ contains p (path_lower f) = true)
  /\ (kind_filters q = [] \/ kind_lower f ∈ kind_filters q)
  /\ (lang_filters q = [] \/ exists l, lang_lower f = Some l /\ l ∈ lang_filters q)
  /\ (forall t, t ∈ excluded_terms q -> matches_term f t = false)
  /\ (forall t, t ∈ required_terms q -> matches_term f t = true).

Lemma any_spec l (test : str -> bool) :
  is_empty_list l || existsb test l = true <-> l = [] \/ exists x, x ∈ l /\ test x = true.
Proof.
  rewrite orb_true_iff, existsb_exists. setoid_rewrite list_elem_of_In.
  destruct l as [|x l]; cbn [is_empty_list]; naive_solver.
Qed.

Lemma none_spec l (test : str -> bool) : negb (existsb test l) = true <-> forall x, x ∈ l -> test x = false.
Proof.
  rewrite negb_true_iff, <- not_true_iff_false, existsb_exists. setoid_rewrite list_elem_of_In.
  setoid_rewrite <- not_true_iff_false. naive_solver.
Qed.

Lemma chunk_matches_admits q c : chunk_matches_query (from_chunk c) q = true <-> admits q c.
Proof.
  unfold chunk_matches_query, admits. cbv zeta. rewrite !andb_true_iff, !any_spec, !none_spec.
  setoid_rewrite negb_false_iff. unfold str_eqb. setoid_rewrite bool_decide_eq_true.
  enough ((exists x, x ∈ lang_filters q /\ match lang_lower (from_chunk c) with Some lang => bool_decide (lang = x) | None => false end = true)
    <-> exists l, lang_lower (from_chunk c) = Some l /\ l ∈ lang_filters q) as -> by naive_solver.
  destruct (lang_lower _) as [lang|]; [|naive_solver]. setoid_rewrite bool_decide_eq_true. naive_solver.
Qed.

(** ** The first of a sorted list *)
Lemma sorted_app_first {A} (R : A -> A -> Prop) l1 l2 : StronglySorted R (l1 ++ l2) -> StronglySorted R l1.
Proof.
  induction l1 as [|x l1 IH]; cbn [app]; [constructor|]. intros [Hs Hx]%Sorted.StronglySorted_inv.
  constructor; [by apply IH | by apply Forall_app in Hx as [? _]].
Qed.

Lemma sorted_app_across {A} (R : A -> A -> Prop) l1 l2 y : StronglySorted R (l1 ++ l2) -> y ∈ l2 -> Forall (fun x => R x y) l1.
Proof.
  intros Hs Hy. induction l1 as [|x l1 IH]; [constructor|]. cbn [app] in Hs.
  apply Sorted.StronglySorted_inv in Hs as [Hs Hx]. constructor; [|by apply IH].
  apply Forall_app in Hx as [_ Hx]. rewrite list.Forall_forall in Hx. by apply Hx.
Qed.

Section best.
Context `{Bm25}.

Definition candidates (index : list IndexChunk) (q : ParsedQuery) : list (spec_float * N) :=
  sort_by better (map (fun '(i, s) => (s, i)) (score_map index q)).

Lemma elem_of_candidates index q s i : (s, i) ∈ candidates index q <-> total_score index q i = Some s.
Proof. unfold candidates. rewrite sort_by_permutes. apply elem_of_scores. Qed.

Lemma candidates_sorted index q : StronglySorted (fun a b => better b a = false) (candidates index q).
Proof. apply sort_by_sorted; [exact better_asym | intros a b c; apply better_trans]. Qed.

Lemma candidates_nodup index q : NoDup (map snd (candidates index q)).
Proof.
  unfold candidates. rewrite sort_by_permutes, map_map, (map_ext _ fst) by (by intros []).
  apply sorted_NoDup, score_map_sorted.
Qed.

Lemma search_results env query index max_results :
  let q := parse query in
  trim query <> [] -> is_effectively_empty q = false ->
  codebase_search env query index max_results
  = omap (fun '(s, i) => (fun c => result_of c s) <$> index !! N.to_nat i)
      (hits index q (unwrap_or max_results (max_results_default env))).
Proof.
  intros q Hq He. unfold codebase_search. fold q. rewrite He.
  assert (is_empty (trim query) = false) as -> by (by destruct (trim query)). cbn [orb].
  destruct index as [|c index]; [|done]. cbn [is_empty_list].
  generalize (hits [] q (unwrap_or max_results (max_results_default env))) as l.
  induction l as [|[s i] l IH]; [done|]. cbn [omap list_omap]. by rewrite lookup_nil.
Qed.

Lemma results_of_found index q found :
  (forall s i, (s, i) ∈ found -> total_score index q i = Some s) ->
  Forall2 (fun f r => exists c, index !! N.to_nat f.2 = Some c /\ admits q c /\ r = result_of c f.1) found
    (omap (fun '(s, i) => (fun c => result_of c s) <$> index !! N.to_nat i) found).
Proof.
  induction found as [|[s i] found IH]; intros Hin; cbn [omap list_omap]; [constructor|].
  destruct (scored_matches index q i s (Hin s i ltac:(by left))) as (c & Hc & Hm). rewrite Hc. cbn.
  constructor; [|apply IH; intros; apply Hin; by right]. exists c. split; [done|]. split; [by apply chunk_matches_admits | done].
Qed.

(** C29: a search finds the best of what the query asks for.  The results are those of distinct
    chunks of the index that have the kind, the language, the path and the required terms of the
    query and none of its excluded terms, in the order of their scores and at most as many as were
    asked for; a chunk with a score that is missing from them ranks after all of them, and they
    are as many as were asked for. *)
Theorem search_finds_best env query index max_results :
  let q := parse query in
  let cap := unwrap_or max_results (max_results_default env) in
  trim query <> [] -> is_effectively_empty q = false ->
  exists found : list (spec_float * N),
    Forall2 (fun f r => exists c, index !! N.to_nat f.2 = Some c /\ admits q c /\ r = result_of c f.1) found
      (codebase_search env query index max_results)
    /\ NoDup (map snd found) /\ N.of_nat (length found) <= cap
    /\ StronglySorted (fun a b => better b a = false) found
    /\ (forall s i, (s, i) ∈ found -> total_score index q i = Some s)
    /\ forall s i, total_score index q i = Some s ->
         (s, i) ∈ found \/ N.of_nat (length found) = cap /\ Forall (fun f => better (s, i) f = false) found.
Proof.
  intros q cap Hq He. rewrite search_results by done. fold q cap.
  set (all := candidates index q). exists (take (N.to_nat cap) all).
  assert (hits index q cap = take (N.to_nat cap) all) as -> by done.
  pose proof (candidates_sorted index q) as Hs. pose proof (candidates_nodup index q) as Hnd. fold all in Hs, Hnd.
  pose proof (take_drop (N.to_nat cap) all) as Hcut.
  assert (forall s i, (s, i) ∈ take (N.to_nat cap) all -> total_score index q i = Some s) as Hin.
  { intros s i Hi. apply elem_of_candidates. fold all. rewrite <- Hcut. apply elem_of_app. by left. }
  split_and!; [by apply results_of_found | | rewrite length_take; lia | | done |].
  - rewrite <- Hcut, map_app in Hnd. by apply NoDup_app in Hnd as (? & _).
  - rewrite <- Hcut in Hs. by eapply sorted_app_first.
  - intros s i Hsc%elem_of_candidates. fold all in Hsc. rewrite <- Hcut in Hsc, Hs.
    apply elem_of_app in Hsc as [Hsc|Hsc]; [by left|]. right. split; [|by apply (sorted_app_across _ _ _ _ Hs)].
    rewrite length_take. enough (N.to_nat cap < length all)%nat by lia.
    destruct (decide (N.to_nat cap < length all)%nat) as [|Hn]; [done|]. rewrite drop_ge in Hsc by lia. by apply elem_of_nil in Hsc.
Qed.

(** *** What the theorem is about, at an index of two functions *)
Definition two_functions : list IndexChunk :=
  [mk_IndexChunk t!"src/lib.rs" 1 5 Function t!"rebuild" None t!"fn rebuild() {}";
   mk_IndexChunk t!"src/lib.rs" 7 9 Function t!"build" None t!"fn build() {}"].
End best.

Definition unranked : Bm25 := {| bm25_search _ _ := [] |}.

Lemma search_finds_best_witness :
  map sr_name (@codebase_search unranked (fun _ => None) t!"+build kind:function" two_functions (Some 1)) = [t!"build"]
  /\ exists found, N.of_nat (length found) = 1 /\ (exists s i, total_score (H := unranked) two_functions (parse t!"+build kind:function") i = Some s
       /\ Forall (fun f => better (s, i) f = false) found).
Proof.
  split; [vm_compute; reflexivity|].
  destruct (@search_finds_best unranked (fun _ => None) t!"+build kind:function" two_functions (Some 1)) as (found & H2 & _ & _ & _ & Hsc & Hall).
  - vm_compute. discriminate.
  - vm_compute. reflexivity.
  - exists found. assert (length found = 1%nat) as Hl by (by apply Forall2_length in H2).
    split; [by rewrite Hl|]. destruct found as [|[s i] [|]]; try discriminate Hl.
    assert (total_score (H := unranked) two_functions (parse t!"+build kind:function") 0
      = Some (unwrap_or (total_score (H := unranked) two_functions (parse t!"+build kind:function") 0) f64_zero)) as H0
      by (vm_compute; reflexivity).
    eexists _, 0. split; [exact H0|]. destruct (Hall _ _ H0) as [Hi|[_ Hi]]; [|exact Hi].
    specialize (Hsc s i ltac:(by left)). apply list_elem_of_singleton in Hi. rewrite <- Hi. constructor; [|constructor].
    vm_compute. reflexivity.
Defined.

(** ** Queries of filters *)
Section filters.
Context `{Bm25}.

Lemma score_of_filters q c :
  terms q = [] -> required_terms q = [] ->
  score_chunk c q (positive_query_text q) = if chunk_matches_query (from_chunk c) q then f64_of_N 1 else f64_zero.
Proof.
  intros Ht Hr. unfold score_chunk, positive_query_text, has_positive_terms. rewrite Ht, Hr. cbn [app join].
  by destruct (chunk_matches_query _ _).
Qed.

(** The positions of the chunks that match, from [k] on. *)
Fixpoint matching (q : ParsedQuery) (k : N) (index : list IndexChunk) : list (N * spec_float) :=
  match index with
  | [] => []
  | c :: r => if chunk_matches_query (from_chunk c) q then (k, f64_of_N 1) :: matching q (k + 1) r else matching q (k + 1) r
  end.

Lemma own_scores_of_filters index q :
  terms q = [] -> required_terms q = [] -> own_scores index q = matching q 0 index.
Proof.
  intros Ht Hr. unfold own_scores.
  assert (forall (k : N) l, omap (fun '(i, c) => let s := score_chunk c q (positive_query_text q) in if positive s then Some (i, s) else None)
      (imap (fun i c => (k + N.of_nat i, c)) l) = matching q k l) as Hk.
  2: { specialize (Hk 0 index). by rewrite <- Hk. }
  intros k l. revert k. induction l as [|c l IH]; intros k; [done|]. cbn [imap omap list_omap matching].
  rewrite (score_of_filters q c) by done. rewrite <- IH.
  assert (forall X Y : list (N * spec_float), X = Y ->
    (let s := if chunk_matches_query (from_chunk c) q then f64_of_N 1 else f64_zero in
     match (if positive s then Some (k + N.of_nat 0, s) else None) with Some y => y :: X | None => X end)
    = if chunk_matches_query (from_chunk c) q then (k, f64_of_N 1) :: Y else Y) as Hstep.
  { intros X Y ->. destruct (chunk_matches_query _ _); cbv zeta; cbn; [by rewrite N.add_0_r | done]. }
  apply Hstep. f_equal. unfold compose. apply imap_ext. intros i c' _. cbn. f_equal. lia.
Qed.

Lemma matching_above q k index : Forall (fun kv => k <= kv.1) (matching q k index).
Proof.
  revert k. induction index as [|c l IH]; intros k; cbn [matching]; [constructor|].
  assert (Forall (fun kv => k <= kv.1) (matching q (k + 1) l)) as Hl by (eapply Forall_impl; [apply IH|]; cbn; lia).
  destruct (chunk_matches_query _ _); [constructor; [cbn; lia | done] | done].
Qed.

Lemma fill_in_order (l m : list (N * spec_float)) :
  sorted_keys (m ++ l) -> foldl (fun m '(i, s) => bmap_insert i s m) m l = m ++ l.
Proof.
  revert m. induction l as [|[i s] l IH]; intros m Hs; cbn [foldl]; [by rewrite app_nil_r|].
  assert (bmap_insert i s m = m ++ [(i, s)]) as ->.
  { unfold sorted_keys, sorted in Hs. clear IH. induction m as [|[j t] m IHm]; [done|]. cbn [app map fst] in Hs.
    apply Sorted.StronglySorted_inv in Hs as [Hs Hj]. rewrite list.Forall_forall in Hj.
    assert (ltb j i = true) as Hji by (apply Hj, elem_of_keys; exists s; rewrite elem_of_app, elem_of_cons; auto).
    cbn [bmap_insert app]. rewrite Hji, IHm by done. destruct (ltb i j) eqn:E; [|done].
    pose proof (ltb_irrefl i) as Hi. by rewrite (ltb_trans _ _ _ E Hji) in Hi. }
  rewrite IH; rewrite <- app_assoc; [done | done].
Qed.

Lemma matching_sorted q k index : sorted_keys (matching q k index).
Proof.
  unfold sorted_keys, sorted. revert k. induction index as [|c l IH]; intros k; cbn [matching]; [constructor|].
  destruct (chunk_matches_query _ _); [|done]. cbn [map fst]. constructor; [done|]. apply list.Forall_forall.
  intros i (s & Hi)%elem_of_keys. pose proof (matching_above q (k + 1) l) as Ha. rewrite list.Forall_forall in Ha.
  specialize (Ha _ Hi). cbn in Ha |- *. lia.
Qed.

Lemma matching_ordered q k index :
  StronglySorted (fun a b => better b a = false) (map (fun '(i, s) => (s, i)) (matching q k index)).
Proof.
  revert k. induction index as [|c l IH]; intros k; cbn [matching]; [constructor|].
  destruct (chunk_matches_query _ _); [|done]. cbn [map]. constructor; [done|]. apply list.Forall_forall.
  intros [s i] ([j t] & [= -> ->] & Hin)%list_elem_of_fmap.
  assert (t = f64_of_N 1 /\ k + 1 <= j) as [-> Hj].
  { pose proof (matching_above q (k + 1) l) as Ha. rewrite list.Forall_forall in Ha. specialize (Ha _ Hin). split; [|done].
    clear -Hin. revert Hin. generalize (k + 1) as n. induction l as [|c l IH]; intros n; cbn [matching]; [by intros ?%elem_of_nil|].
    destruct (chunk_matches_query _ _); [|apply IH]. rewrite elem_of_cons. intros [[= -> ->]|?]; [done | by eapply IH]. }
  unfold better. cbn [fst snd]. assert (total_ltb (f64_of_N 1) (f64_of_N 1) = false) as -> by (by vm_compute). cbn. lia.
Qed.

Lemma results_of_matching q cap k pre index :
  k = N.of_nat (length pre) ->
  omap (fun '(s, i) => (fun c => result_of c s) <$> (pre ++ index) !! N.to_nat i)
    (take cap (map (fun '(i, s) => (s, i)) (matching q k index)))
  = map (fun c => result_of c (f64_of_N 1)) (take cap (List.filter (fun c => chunk_matches_query (from_chunk c) q) index)).
Proof.
  revert cap k pre. induction index as [|c l IH]; intros cap k pre ->; cbn [matching List.filter]; [by destruct cap|].
  assert (pre ++ c :: l = (pre ++ [c]) ++ l) as Hp by (by rewrite <- app_assoc).
  destruct (chunk_matches_query _ _).
  - destruct cap as [|cap]; [done|]. cbn [map take omap list_omap]. rewrite Nat2N.id, lookup_app_r, Nat.sub_diag by lia.
    cbn. f_equal. rewrite Hp. apply IH. rewrite length_app. cbn. lia.
  - rewrite Hp. apply IH. rewrite length_app. cbn. lia.
Qed.

(** A query of filters only lists what passes them.  With no term that must or may be there,
    a search gives, with the score 1 each, the chunks that the filters and the excluded terms let
    pass, in the order of the index, as many as were asked for. *)
Theorem filters_listed env query index max_results :
  let q := parse query in
  trim query <> [] -> is_effectively_empty q = false -> has_positive_terms q = false ->
  codebase_search env query index max_results
  = map (fun c => result_of c (f64_of_N 1))
      (take (N.to_nat (unwrap_or max_results (max_results_default env)))
        (List.filter (fun c => chunk_matches_query (from_chunk c) q) index)).
Proof.
  intros q Hq He Hp. rewrite search_results by done. fold q.
  apply orb_false_iff in Hp as [Ht Hr]. assert (terms q = []) as Ht' by (by destruct (terms q)).
  assert (required_terms q = []) as Hr' by (by destruct (required_terms q)).
  unfold hits, score_map. rewrite own_scores_of_filters by done.
  assert (bm25_scores index q = []) as ->.
  { unfold bm25_scores, positive_query_text. by rewrite Ht', Hr'. }
  cbn [foldl]. rewrite fill_in_order by apply matching_sorted. cbn [app].
  rewrite sort_by_in_order by apply matching_ordered. by apply (results_of_matching q _ 0 []).
Qed.
End filters.

Lemma filters_listed_witness :
  @codebase_search unranked (fun _ => None) t!"kind:function -re" two_functions (Some 5)
  = [mk_SearchResult t!"src/lib.rs" 7 9 t!"function" t!"build" (f64_of_N 1) t!"fn build() {}"].
Proof.
  rewrite (@filters_listed unranked (fun _ => None) t!"kind:function -re" two_functions (Some 5)).
  - vm_compute. reflexivity.
  - vm_compute. discriminate.
  - vm_compute. reflexivity.
  - vm_compute. reflexivity.
Defined.

(** ** The index after a change *)

(** Induction on syntax trees. *)
Lemma syntax_ind (P : SyntaxNode -> Prop) :
  (forall k t a b children, Forall (fun c => P c.2) children -> P (mk_SyntaxNode k t a b children)) -> forall n, P n.
Proof.
  intros Hstep. fix IH 1. intros [k t a b children]. apply Hstep.
  induction children as [|[f c] children IHc]; constructor; [apply IH | exact IHc].
Qed.

(** What a language takes for a declaration: of a child of a node, below the scope of the node, the
    kind of its chunk with the scope that is recorded, if it is one; and the scope below which its
    own children are looked into, if they are. *)
Abbreviation Rule := (option str -> SyntaxNode -> option (ItemKind * option str) * option (option str)).

Definition rust_rule : Rule := fun scope n =>
  match rust_kind (node_kind n) with
  | Some kind =>
      if opens_scope kind then (Some (kind, Some (extract_name n kind)), Some (Some (extract_name n kind)))
      else (Some (kind, scope), None)
  | None => (None, if str_eqb (node_kind n) t!"declaration_list" then Some scope else None)
  end.
Definition python_rule : Rule := fun scope n =>
  if str_eqb (node_kind n) t!"class_definition" then (Some (Class_, scope), Some (Some (extract_name n Class_)))
  else if str_eqb (node_kind n) t!"function_definition" then (Some (Function, scope), None)
  else (None, Some scope).
Definition javascript_rule : Rule := fun scope n =>
  if str_eqb (node_kind n) t!"class_declaration" then (Some (Class_, scope), Some (Some (extract_name n Class_)))
  else match javascript_kind n with
       | Some kind => (Some (kind, scope), None)
       | None => (None, Some scope)
       end.
Definition rule_of (language : SourceLanguage) : Rule :=
  match language with Rust => rust_rule | Python => python_rule | TypeScript | Tsx | JavaScript => javascript_rule end.

Definition chunk_of (rel : str) (n : SyntaxNode) (kind : ItemKind) (scope : option str) : IndexChunk :=
  mk_IndexChunk rel ((rows n).1 + 1) ((rows n).2 + 1) kind (extract_name n kind) scope (unwrap_or (utf8_text n) []).

(** The declarations of a tree, in the order of its text. *)
Fixpoint declarations (rule : Rule) (rel : str) (scope : option str) (n : SyntaxNode) : list IndexChunk :=
  match n with
  | mk_SyntaxNode _ _ _ _ children =>
      List.flat_map (fun '(_, child) =>
        let '(own, inside) := rule scope child in
        match own with Some (kind, recorded) => [chunk_of rel child kind recorded] | None => [] end
        ++ match inside with Some scope => declarations rule rel scope child | None => [] end) children
  end.

Lemma declarations_path rule rel scope n : Forall (fun c => ic_path c = rel) (declarations rule rel scope n).
Proof.
  revert scope. induction n as [k t a b children IH] using syntax_ind. intros scope. cbn [declarations].
  induction IH as [|[f c] children Hc _ IHl]; cbn [List.flat_map]; [constructor|]. cbn [snd] in Hc.
  apply List.Forall_app. split; [|exact IHl].
  destruct (rule scope c) as [own inside]. apply List.Forall_app. split.
  - destruct own as [[kind recorded]|]; by repeat constructor.
  - destruct inside; [apply Hc | constructor].
Qed.

(** The three traversals of the code find them. *)
Lemma rust_finds rel n scope chunks : extract_rust_items rel n scope chunks = chunks ++ declarations rust_rule rel scope n.
Proof.
  revert scope chunks. induction n as [k t a b children IH] using syntax_ind. intros scope.
  induction IH as [|[f c] children Hc _ IHl]; intros chunks; [symmetry; apply app_nil_r|].
  cbn [extract_rust_items declarations List.flat_map] in *. cbn [snd] in Hc. rewrite IHl, app_assoc. f_equal. unfold rust_rule at 1, push_chunk.
  destruct (rust_kind (node_kind c)) as [kind|].
  - destruct (opens_scope kind); [by rewrite Hc, <- app_assoc | done].
  - destruct (str_eqb _ _); [by rewrite Hc | symmetry; apply app_nil_r].
Qed.
Lemma python_finds rel n scope chunks : extract_python_items rel n scope chunks = chunks ++ declarations python_rule rel scope n.
Proof.
  revert scope chunks. induction n as [k t a b children IH] using syntax_ind. intros scope.
  induction IH as [|[f c] children Hc _ IHl]; intros chunks; [symmetry; apply app_nil_r|].
  cbn [extract_python_items declarations List.flat_map] in *. cbn [snd] in Hc. rewrite IHl, app_assoc. f_equal. unfold python_rule at 1, push_chunk.
  destruct (str_eqb _ t!"class_definition"); [by rewrite Hc, <- app_assoc|].
  destruct (str_eqb _ _); [done | by rewrite Hc].
Qed.
Lemma javascript_finds rel n scope chunks :
  extract_javascript_items rel n scope chunks = chunks ++ declarations javascript_rule rel scope n.
Proof.
  revert scope chunks. induction n as [k t a b children IH] using syntax_ind. intros scope.
  induction IH as [|[f c] children Hc _ IHl]; intros chunks; [symmetry; apply app_nil_r|].
  cbn [extract_javascript_items declarations List.flat_map] in *. cbn [snd] in Hc. rewrite IHl, app_assoc. f_equal. unfold javascript_rule at 1, push_chunk.
  destruct (str_eqb _ _); [by rewrite Hc, <- app_assoc|].
  destruct (javascript_kind c); [done | by rewrite Hc].
Qed.

Section updates.
Context `{IgnoreRules} `{TreeSitter}.

Lemma source_parsed rel source language chunks :
  parse_source_file rel source language chunks
  = chunks ++ match parse_tree language source with Some tree => declarations (rule_of language) rel None tree | None => [] end.
Proof.
  unfold parse_source_file. destruct (parse_tree _ _); [|by rewrite app_nil_r].
  destruct language; auto using rust_finds, python_finds, javascript_finds.
Qed.

Definition chunks_of (rel : str) (chunks : list IndexChunk) : list IndexChunk :=
  List.filter (fun c => str_eqb (ic_path c) rel) chunks.

Lemma filter_all {A} (test : A -> bool) (b : bool) l :
  Forall (fun x => test x = b) l -> List.filter test l = if b then l else [].
Proof.
  induction 1 as [|x l Hx _ IH]; [by destruct b|]. cbn [List.filter]. rewrite Hx. destruct b; [by rewrite IH | done].
Qed.

Lemma chunks_of_own rel rel' (chunks : list IndexChunk) :
  Forall (fun c => ic_path c = rel) chunks -> chunks_of rel' chunks = if bool_decide (rel' = rel) then chunks else [].
Proof.
  intros Hall. unfold chunks_of. apply filter_all. eapply Forall_impl; [exact Hall|]. cbn. intros c ->.
  unfold str_eqb. apply bool_decide_ext. naive_solver.
Qed.

Lemma chunks_of_others rel rel' chunks :
  chunks_of rel' (List.filter (fun c => negb (str_eqb (ic_path c) rel)) chunks)
  = if bool_decide (rel' = rel) then [] else chunks_of rel' chunks.
Proof.
  unfold chunks_of, str_eqb. induction chunks as [|c l IH]; cbn [List.filter]; [by case_bool_decide|].
  destruct (decide (ic_path c = rel)) as [Hc|Hc].
  - rewrite (bool_decide_eq_true_2 (ic_path c = rel)) by done. cbn [negb]. rewrite IH. case_bool_decide; [done|].
    rewrite bool_decide_eq_false_2 by congruence. done.
  - rewrite (bool_decide_eq_false_2 (ic_path c = rel)) by done. cbn [negb List.filter]. rewrite IH.
    case_bool_decide as Hr; case_bool_decide; congruence.
Qed.

(** Why a file is not in the index. *)
Inductive left_out (fs : FileSystem) (root file : path) (rel : str) (exclude : list str) (size : N) : Prop :=
| out_excluded pre rest : pre ∈ exclude -> rel = pre ++ rest -> left_out fs root file rel exclude size
| out_ignored : load_ignore fs root rel (is_dir fs file) = true -> left_out fs root file rel exclude size
| out_language : detect_source_language (display file) = None -> left_out fs root file rel exclude size
| out_large data time : metadata fs file = Some (File data time) -> size < N.of_nat (length data) ->
    left_out fs root file rel exclude size
| out_unreadable error : read_to_string fs file = inl error -> left_out fs root file rel exclude size
| out_unparsed language source :
    detect_source_language (display file) = Some language -> read_to_string fs file = inr source ->
    parse_tree language source = None -> left_out fs root file rel exclude size.

(** The declarations of the file, if none of these is so. *)
Inductive file_declares (fs : FileSystem) (root file : path) (rel : str) (exclude : list str) (size : N)
    : list IndexChunk -> Prop :=
| declares_nothing : left_out fs root file rel exclude size -> file_declares fs root file rel exclude size []
| declares language source tree :
    ~ left_out fs root file rel exclude size ->
    detect_source_language (display file) = Some language -> read_to_string fs file = inr source ->
    parse_tree language source = Some tree ->
    file_declares fs root file rel exclude size (declarations (rule_of language) rel None tree).

(** What the code looks at, in its order. *)
Lemma large_file fs file size :
  size <? size_of fs file = true <-> exists data time, metadata fs file = Some (File data time) /\ size < N.of_nat (length data).
Proof.
  rewrite N.ltb_lt. unfold size_of. destruct (metadata fs file) as [[data time| |]|]; split; try lia; try (by intros (? & ? & ? & ?)).
  - eauto.
  - by intros (? & ? & [= <- <-] & ?).
Qed.
Lemma excluded_prefix exclude rel : excluded exclude rel = true <-> exists pre rest, pre ∈ exclude /\ rel = pre ++ rest.
Proof.
  unfold excluded. rewrite existsb_exists. split.
  - intros (pre & Hin & [rest ->]%starts_with_spec). exists pre, rest. by rewrite list_elem_of_In.
  - intros (pre & rest & Hin & ->). exists pre. rewrite <- list_elem_of_In, starts_with_spec. split; [done | by eexists].
Qed.

Lemma update_declares fs chunks text root exclude size :
  exists own, update_index_filtered fs chunks text root exclude size
      = List.filter (fun c => negb (str_eqb (ic_path c) (joined_relative text))) chunks ++ own
    /\ file_declares fs root (path_join root (components text)) (joined_relative text) exclude size own.
Proof.
  unfold update_index_filtered. cbv zeta. set (kept := List.filter _ chunks). set (rel := joined_relative text).
  set (file := path_join _ _).
  destruct (excluded exclude rel) eqn:E1.
  { exists []. rewrite app_nil_r. split; [done|]. constructor. apply excluded_prefix in E1 as (pre & rest & ? & ?). by eapply out_excluded. }
  destruct (load_ignore _ _ _ _) eqn:E2.
  { exists []. rewrite app_nil_r. split; [done|]. constructor. by apply out_ignored. }
  destruct (detect_source_language _) as [language|] eqn:E3.
  2:{ exists []. rewrite app_nil_r. split; [done|]. constructor. by apply out_language. }
  destruct (_ <? _) eqn:E4.
  { exists []. rewrite app_nil_r. split; [done|]. constructor. apply large_file in E4 as (data & time & ? & ?). by eapply out_large. }
  destruct (read_to_string _ _) as [error|source] eqn:E5.
  { exists []. rewrite app_nil_r. split; [done|]. constructor. by eapply out_unreadable. }
  rewrite source_parsed. eexists. split; [reflexivity|]. destruct (parse_tree language source) as [tree|] eqn:E6.
  - eapply declares; [|exact E3|exact E5|exact E6]. intros [pre rest H1 H2|H1|H1|data time H1 H2|error H1|language' source' H1 H2 H3]; try congruence.
    + assert (excluded exclude rel = true) by (apply excluded_prefix; eauto). congruence.
    + assert (size <? size_of fs file = true) by (apply large_file; eauto). congruence.
  - constructor. by eapply out_unparsed.
Qed.

(** C32: what a change of a file does to the index.  After it the chunks of every other path are
    those there were, in their order.  Those of the path are the declarations that the file has now,
    each with its kind, its name, its lines, its text and the scope it is in, in the order of the
    text; there are none of it if its path begins like one that is excluded, if it is ignored, if its
    ending is of no language, if it is larger than the limit, if it cannot be read, and if it cannot
    be parsed. *)
Theorem index_updated fs chunks text root exclude size :
  exists own, file_declares fs root (path_join root (components text)) (joined_relative text) exclude size own
    /\ forall rel, chunks_of rel (update_index_filtered fs chunks text root exclude size)
         = if bool_decide (rel = joined_relative text) then own else chunks_of rel chunks.
Proof.
  destruct (update_declares fs chunks text root exclude size) as (own & -> & Hd). exists own. split; [done|]. intros rel.
  assert (Forall (fun c => ic_path c = joined_relative text) own) as Hown by (destruct Hd; [constructor | apply declarations_path]).
  unfold chunks_of at 1. rewrite List.filter_app. fold (chunks_of rel own). rewrite (chunks_of_own _ rel own Hown).
  pose proof (chunks_of_others (joined_relative text) rel chunks) as Hk. unfold chunks_of at 1 in Hk. rewrite Hk.
  case_bool_decide; [done | apply app_nil_r].
Qed.
End updates.

(** A parser that finds one function in every file. *)
Definition one_function : TreeSitter :=
  {| parse_tree _ source := Some (mk_SyntaxNode t!"source_file" (Some source) 0 0
       [(None, mk_SyntaxNode t!"function_item" (Some source) 0 0 [(Some t!"name", mk_SyntaxNode t!"identifier" (Some source) 0 0 [])])]) |}.
Definition no_rules : IgnoreRules := {| gitignore _ _ := None |}.
Definition one_file (text : str) : FileSystem :=
  mk_FileSystem (list_to_map [([t!"ws"], Dir); ([t!"ws"; t!"src"], Dir); ([t!"ws"; t!"src"; t!"a.rs"], File text 1)]) [] 7.

(** A file that is named with a separator too many is indexed a second time, and what was known
    of it before stays. *)
Example stale_after_change :
  let index := @build_index_filtered no_rules one_function 9 (one_file t!"old") (components t!"/ws") [] 100 in
  (fun chunks => map (fun c => (ic_path c, ic_name c))
     (@update_index_filtered no_rules one_function (one_file t!"new") chunks t!"src//a.rs" (components t!"/ws") [] 100)) <$> index
  = Some [(t!"src/a.rs", t!"old"); (t!"src//a.rs", t!"new")].
Proof. vm_compute. reflexivity. Qed.

(** A search that leaves out a term and a language finds them all the same by meaning. *)
Example filters_lost :
  let index := [mk_IndexChunk t!"src/a.rs" 1 2 Function t!"secret" None t!"fn secret() {}"] in
  let semantic := [mk_SemanticChunkScore t!"src/a.rs" 1 2 t!"secret" (f64_of_N 1)] in
  map sr_name (@codebase_search unranked (fun _ => None) t!"lang:py -secret" index None) = []
  /\ map sr_name (merge_search_results (fun _ => None) index [] semantic None) = [t!"secret"].
Proof. vm_compute. by split. Qed.

(** ** The walk ends *)
Lemma nodes_depth (m : gmap names Node) : exists D, forall q n, m !! q = Some n -> (length q <= D)%nat.
Proof.
  induction m as [|q n m Hq [D IH]] using map_ind; [exists O; by intros q n; rewrite lookup_empty|].
  exists (Nat.max D (length q)). intros q' n'. rewrite lookup_insert_Some. intros [[<- _]|[_ Hq']]; [lia|].
  specialize (IH _ _ Hq'). lia.
Qed.

Lemma node_depth (m : gmap names Node) D q n :
  (forall q n, m !! q = Some n -> (length q <= D)%nat) -> node_at m q = Some n -> (length q <= D)%nat.
Proof. intros HD. destruct q; [cbn; lia | apply HD]. Qed.

(** A path whose last names lead somewhere has no more of them than the tree and the links that
    may be followed allow. *)
Lemma walk_depth m D links dir t o r :
  (forall q n, m !! q = Some n -> (length q <= D)%nat) -> (length dir <= D)%nat ->
  walk m links dir (t ++ map Normal o) = At r ->
  (length o <= (match t with [] => D - length dir | _ => D end) + links * S D)%nat.
Proof.
  intros HD. assert (forall p t o, p = t ++ map Normal o -> (length dir <= D)%nat -> walk m links dir p = At r ->
    (length o <= (match t with [] => D - length dir | _ => D end) + links * S D)%nat) as H; [|intros Hd Hw; by eapply H].
  intros p. revert links dir p. refine (walk_ind_lex _ _). intros links dir p IHl IHp t' o' -> Hd.
  destruct t' as [|c t']; cbn [app].
  - destruct o' as [|s o']; cbn [map]; [cbn; lia|]. rewrite walk_cons.
    destruct (node_at m dir) as [[]|]; try done. destruct (node_at m (dir ++ [s])) as [n|] eqn:Hs; [|by destruct o'].
    assert (length dir < D)%nat as Hlt by (pose proof (node_depth m D _ _ HD Hs) as Hl; rewrite length_app in Hl; cbn in Hl; lia).
    destruct n as [data at_|  |target].
    1,2: intros Hw; apply (IHp (dir ++ [s]) (map Normal o') ltac:(cbn; lia) [] o' eq_refl) in Hw; rewrite length_app in *; cbn [length] in *; lia.
    destruct links as [|links]; [done|]. intros Hw. apply (IHl links dir _ ltac:(lia) target o' eq_refl Hd) in Hw.
    cbn [length]. destruct target; lia.
  - assert (forall dir', (length dir' <= D)%nat -> walk m links dir' (t' ++ map Normal o') = At r -> (length o' <= D + links * S D)%nat) as Hrest.
    { intros dir' Hd' Hw. apply (IHp dir' (t' ++ map Normal o') ltac:(cbn; lia) t' o' eq_refl Hd') in Hw. destruct t'; lia. }
    rewrite walk_cons. destruct c as [| | |s]; [by apply Hrest; cbn; lia| | |]; destruct (node_at m dir) as [[]|]; try done.
    + by apply Hrest.
    + apply Hrest. rewrite removelast_firstn_len, length_take. lia.
    + destruct (node_at m (dir ++ [s])) as [n|] eqn:Hs; [|by destruct (t' ++ map Normal o')].
      pose proof (node_depth m D _ _ HD Hs) as Hl. destruct n as [data at_| |target]; [by apply Hrest..|].
      destruct links as [|links]; [done|]. rewrite app_assoc. intros Hw.
      apply (IHl links dir _ ltac:(lia) (target ++ t') o' eq_refl Hd) in Hw. destruct (target ++ t'); lia.
Qed.

Lemma directories_bounded fs : exists B, forall root o, is_dir fs (root ++ map Normal o) = true -> (length o <= B)%nat.
Proof.
  destruct (nodes_depth (nodes fs)) as [D0 HD0]. set (D := Nat.max D0 (length (cwd fs))).
  exists (D + MAXSYMLINKS * S D)%nat. intros root o. unfold is_dir, metadata, lookup_path.
  destruct (root ++ map Normal o) as [|c p] eqn:E; [done|].
  destruct (walk _ _ _ _) as [q| |] eqn:Hw; try done. intros _. rewrite <- E in Hw.
  apply (walk_depth (nodes fs) D) in Hw; [destruct root; lia | | unfold D; lia].
  intros q' n Hq. specialize (HD0 _ _ Hq). unfold D. lia.
Qed.

Section ends.
Context `{IgnoreRules}.
Context (op : ToolOperator) (fs : FileSystem) (ignored : str -> bool -> bool).

(** What the walk of these paths comes to, whatever is on the stack below them. *)
Definition walked (l : list path) (r : Error + list path) : Prop :=
  exists n, forall extra stack found,
    walk_stack op (n + extra) fs ignored (l ++ stack) found
    = match r with inl e => Some (inl e) | inr files => walk_stack op extra fs ignored stack (found ++ files) end.

Lemma walked_nil : walked [] (inr []).
Proof. exists O. intros extra stack found. by rewrite app_nil_r. Qed.

Lemma walked_cons p l r rest :
  walked [p] r -> walked l rest -> exists r', walked (p :: l) r'.
Proof.
  intros [n Hn] [n' Hn']. destruct r as [e|files].
  - exists (inl e), n. intros extra stack found. apply (Hn extra (l ++ stack) found).
  - exists (match rest with inl e => inl e | inr files' => inr (files ++ files') end), (n + n')%nat.
    intros extra stack found. rewrite <- Nat.add_assoc. change ((p :: l) ++ stack) with ([p] ++ (l ++ stack)).
    rewrite Hn, Hn'. destruct rest; [done|]. by rewrite <- app_assoc.
Qed.

Lemma walked_all l : (forall p, p ∈ l -> exists r, walked [p] r) -> exists r, walked l r.
Proof.
  induction l as [|p l IH]; intros Hl; [exists (inr []); apply walked_nil|].
  destruct (Hl p ltac:(by left)) as [r Hr]. destruct IH as [rest Hrest]; [intros q Hq; apply Hl; by right|].
  by eapply walked_cons.
Qed.

(** What is no directory, or is not entered. *)
Lemma walked_leaf p : is_dir fs p = false -> exists r, walked [p] r.
Proof.
  intros Hd. exists (inr (if negb (within op fs p) then []
    else if negb (is_empty (relative_or_empty op p)) && ignored (relative_or_empty op p) false then [] else [p])), 1%nat.
  intros extra stack found. cbn [app Nat.add walk_stack]. rewrite Hd.
  destruct (negb (within op fs p)); [by rewrite app_nil_r|]. destruct (_ && _); [by rewrite app_nil_r | done].
Qed.

Lemma walked_dir p :
  is_dir fs p = true -> (forall q, (exists name, q = p ++ [Normal name]) -> exists r, walked [q] r) -> exists r, walked [p] r.
Proof.
  intros Hd Hq. destruct (read_dir fs p) as [e|names] eqn:E.
  - exists (if negb (within op fs p) then inr []
      else if negb (is_empty (relative_or_empty op p)) && ignored (relative_or_empty op p) true then inr []
      else inl (Context (t!"Failed to read directory " ++ display p) (Io e))), 1%nat.
    intros extra stack found. cbn [app Nat.add walk_stack]. rewrite Hd, E.
    destruct (negb (within op fs p)); [by rewrite app_nil_r|]. destruct (_ && _); [by rewrite app_nil_r | done].
  - destruct (walked_all (reverse (entries_within op fs p names))) as [r [n Hn]].
    { intros q. rewrite elem_of_reverse. unfold entries_within. intros Hin%list_elem_of_In%List.filter_In.
      destruct Hin as [Hin _]. apply List.in_map_iff in Hin as (name & <- & _). apply Hq. by exists name. }
    exists (if negb (within op fs p) then inr []
      else if negb (is_empty (relative_or_empty op p)) && ignored (relative_or_empty op p) true then inr [] else r).
    destruct (negb (within op fs p)) eqn:Hw.
    { exists 1%nat. intros extra stack found. cbn [app Nat.add walk_stack]. by rewrite Hw, app_nil_r. }
    destruct (negb (is_empty (relative_or_empty op p)) && ignored (relative_or_empty op p) true) eqn:Hi.
    { exists 1%nat. intros extra stack found. cbn [app Nat.add walk_stack]. by rewrite Hw, Hd, Hi, app_nil_r. }
    exists (S n). intros extra stack found. cbn [app Nat.add walk_stack]. rewrite Hw, Hd, Hi, E. apply Hn.
Qed.

Lemma walked_below root o : exists r, walked [root ++ map Normal o] r.
Proof.
  destruct (directories_bounded fs) as [B HB].
  assert (forall k o, (S B <= k + length o)%nat -> exists r, walked [root ++ map Normal o] r) as Hk; [|apply (Hk (S B)); lia].
  induction k as [|k IH]; intros o' Hle.
  - apply walked_leaf. destruct (is_dir fs _) eqn:E; [|done]. apply HB in E. lia.
  - destruct (is_dir fs (root ++ map Normal o')) eqn:E; [|by apply walked_leaf]. apply walked_dir; [done|].
    intros q [name ->]. rewrite <- app_assoc. change [Normal name] with (map Normal [name]). rewrite <- map_app.
    apply IH. rewrite length_app. cbn. lia.
Qed.

(** The walk over the files of a workspace ends.  Whatever the tree and its links are, cycles
    and links out of it included, there is a number of steps after which the walk is over, with
    the files it found or with the first error, and more steps change nothing. *)
Lemma walk_ends root :
  exists n r, forall fuel, (n <= fuel)%nat -> walk_workspace_files_ignoring op fuel fs root ignored = Some r.
Proof.
  destruct (walked_below root []) as (r & n & Hn). cbn [map] in Hn. rewrite app_nil_r in Hn.
  exists (S n), (match r with inl e => inl e | inr files => inr files end). intros fuel Hf.
  unfold walk_workspace_files_ignoring. replace fuel with (n + S (fuel - S n))%nat by lia.
  rewrite <- (app_nil_r [root]), Hn. by destruct r.
Qed.
End ends.

(** ** What the walk finds *)
Section found.
Context `{IgnoreRules}.
Context (op : ToolOperator) (fs : FileSystem).

(** Where a path that passes the guard leads, is inside. *)
Lemma within_leads_inside p q :
  within op fs p = true -> lookup_path fs p = At q -> path_starts_with (canonical_working_dir op) (abs_path q) = true.
Proof.
  unfold within, ensure_path_is_within_workspace, exists_, canonicalize. intros Hw Hl. rewrite !Hl in Hw.
  by destruct (path_starts_with _ _).
Qed.

(** A file that is found: it passes the guard, is no directory and is not ignored. *)
Definition findable (ignored : str -> bool -> bool) (p : path) : Prop :=
  within op fs p = true /\ is_dir fs p = false
  /\ (relative_or_empty op p = [] \/ ignored (relative_or_empty op p) false = false).

Lemma walk_finds fuel ignored root files :
  walk_workspace_files_ignoring op fuel fs root ignored = Some (inr files) -> Forall (findable ignored) files.
Proof.
  unfold walk_workspace_files_ignoring.
  assert (forall stack found, Forall (findable ignored) found ->
    walk_stack op fuel fs ignored stack found = Some (inr files) -> Forall (findable ignored) files) as Hs; [|by apply Hs].
  induction fuel as [|fuel IH]; intros stack found Hf; [done|]. cbn [walk_stack].
  destruct stack as [|p stack]; [by intros [= <-]|].
  destruct (within op fs p) eqn:Hw; cbn [negb]; [|by apply IH].
  destruct (_ && _) eqn:Hi; [by apply IH|]. destruct (is_dir fs p) eqn:Hd.
  - destruct (read_dir fs p); [done | by apply IH].
  - apply IH. apply Forall_app. split; [done|]. constructor; [|done]. split_and!; [done | done |].
    destruct (relative_or_empty op p); [by left | by right].
Qed.

(** What is read at a path that passes the guard is a file inside. *)
Definition inside_file (content : str) : Prop :=
  exists q data at_, path_starts_with (canonical_working_dir op) (abs_path q) = true
    /\ node_at (nodes fs) q = Some (File data at_) /\ from_utf8 data = Some content.

Lemma within_read p content : within op fs p = true -> read_to_string fs p = inr content -> inside_file content.
Proof.
  intros Hw. unfold read_to_string. destruct (lookup_path fs p) as [q| |] eqn:Hl; try done.
  destruct (node_at (nodes fs) q) as [[data at_| |]|] eqn:Hn; try done.
  destruct (from_utf8 data) as [s|] eqn:Hu; [|done]. intros [= <-].
  exists q, data, at_. by rewrite (within_leads_inside p q).
Qed.
End found.

(** With a link to the workspace in it, the walk goes round as often as links are followed: a file
    is found once for each time. *)
Example cyclic_link_repeats :
  let fs := mk_FileSystem (list_to_map [([t!"ws"], Dir); ([t!"ws"; t!"a.rs"], File t!"one" 1);
              ([t!"ws"; t!"loop"], Link (components t!"."))]) [] 7 in
  (fun r => match r with
            | inl _ => 0%nat
            | inr files => length (List.filter (fun p => match read_to_string fs p with inr _ => true | inl _ => false end) files)
            end)
    <$> @walk_workspace_files no_rules (operator_new fs (components t!"/ws")) 200 fs (components t!"/ws") = Some 41%nat.
Proof. vm_compute. reflexivity. Qed.
