(* ===== verification/ToolRouting.v ===== *)
(** The tools of the model, from the arguments of a call to the operator and the index:
    src/state/conversation/tools/routing.rs, tools/config.rs and tools/index.rs, with
    src/tools/workspace_explore.rs and the searches and the git commands of src/tools/operator.

    The crates that compile globs and search in texts, and the program git, are operations of
    classes.  A call takes a bound on the steps of the walk over the files; [routing_total] gives
    one for every call.  The lock of the index is held by one call at a time: the index is part of
    the state.  The search by meaning is not modelled. *)
From Stdlib Require Import NArith ZArith Lia.
From stdpp Require Import base list gmap strings numbers sets.
From S2P Require Import Prelude Text Utf8 Collections Json Evidence ToolPreview History FileSystem FileSystemTheory Workspace WorkspaceTheory TaskSnapshot Configuration Search SearchTheory.
#[local] Open Scope N_scope.
Import Index.

(** [GlobBuilder::literal_separator(false)] and the set of the one glob. *)
Class Globs := { glob_set : str -> option (str -> bool) }.

(** What depends on the tables of Unicode, and the searchers. *)
Class TextSearch := {
  (** [{:?}] of a text. *)
  debug_text : str -> str;
  (** Whether a character of a text is an upper-case one. *)
  is_uppercase : str -> bool;
  to_lowercase : str -> str;
  (** [AhoCorasickBuilder::ascii_case_insensitive] and [build] of one pattern. *)
  aho_corasick : bool -> str -> option (str -> bool);
  regex_escape : str -> str;
  (** [RegexMatcher::new] and [search_path]: the matching lines with their numbers, from 1;
      nothing, if the pattern is none or a line that matches is not UTF-8. *)
  grep : str -> bytes -> option (list (N * str));
}.

Record GitOutput := mk_GitOutput { status_success : bool; git_stdout : str; git_stderr : str }.
(** The program git in a directory, with what it makes of the files; nothing if it does not start.
    Its output is text. *)
Class Git := { git : path -> list str -> FileSystem -> option GitOutput * FileSystem }.

Record Tools := mk_Tools {
  tool_world : World;
  codebase_index : option (list IndexChunk);
}.

(** Nothing, if the bound on the walk is too small. *)
Definition TOp (A : Type) : Type := Tools -> option (outcome ((Error + A) * Tools)).
#[export] Instance top_ret : MRet TOp := fun A a t => Some (Returns (inr a, t)).
#[export] Instance top_bind : MBind TOp := fun A B f m t =>
  match m t with
  | Some (Returns (inr a, t)) => f a t
  | Some (Returns (inl e, t)) => Some (Returns (inl e, t))
  | Some Panics => Some Panics
  | None => None
  end.

Definition refuse {A} (e : Error) : TOp A := fun t => Some (Returns (inl e, t)).
Definition on_files {A} (m : Op A) : TOp A := fun t =>
  Some (match m (tool_world t) with
        | Returns (r, w) => Returns (r, mk_Tools w (codebase_index t))
        | Panics => Panics
        end).
Definition looks {A} (f : FileSystem -> Error + A) : TOp A := on_files (asks_or f).

(** ** Globs: src/tools/workspace_explore.rs *)
Record WorkspaceGlobMatcher := mk_WorkspaceGlobMatcher {
  matcher : str -> bool;
  match_basename : bool;
  requires_path_separator : bool;
}.

Definition glob_matches (m : WorkspaceGlobMatcher) (p : str) : bool :=
  if requires_path_separator m && negb (contains_char SLASH p) then false
  else matcher m p || (match_basename m && matcher m (unwrap_or (list.last (split_on SLASH p)) p)).

Definition compile_workspace_glob `{Globs} (pattern : str) : option WorkspaceGlobMatcher :=
  (fun m => mk_WorkspaceGlobMatcher m (negb (contains_char SLASH pattern)) (contains_char SLASH pattern)) <$> glob_set pattern.

Definition LIST_DIR_MAX : N := 500.
Definition GLOB_FILES_MAX : N := 200.

Section operator.
Context `{LineDiff} `{IgnoreRules} `{TreeSitter} `{Query.Bm25} `{Globs} `{TextSearch} `{Git}.
Variable op : ToolOperator.
Variable env : str -> option str.
Variable search_config : Settings.SearchConfig.
Variable fuel : nat.

Definition walk_files (root : path) (ignored : FileSystem -> str -> bool -> bool) : TOp (list path) := fun t =>
  let fs := files (tool_world t) in
  (fun r => Returns (r, t)) <$> walk_workspace_files_ignoring op fuel fs root (ignored fs).
Definition walk_workspace (root : path) : TOp (list path) := walk_files root (fun fs => load_ignore fs (working_dir op)).

Definition limited (entries : list str) (limit : nat) (total : nat) (what : str) : str :=
  join NL entries
  ++ (if (limit <=? length entries)%nat && (limit <? total)%nat then
        NL ++ t!"[results limited to first " ++ fmt_N (N.of_nat limit) ++ t!" of " ++ fmt_N (N.of_nat total) ++ t!" " ++ what ++ t!"]"
      else []).

(** An entry of [list_dir]: whether it is a directory is asked without following a link. *)
Definition list_dir_entry (root : path) (fs : FileSystem) (name : str) : option str :=
  let p := path_join root [Normal name] in
  let directory := match lookup_path fs root with
                   | At q => match node_at (nodes fs) (q ++ [name]) with Some Dir => true | _ => false end
                   | _ => false
                   end in
  if bool_decide (root = working_dir op) && starts_with [DOT] name then None
  else if negb (within op fs p) then None
  else
    let rel := relative_or_empty op p in
    if negb (is_empty rel) && load_ignore fs (working_dir op) rel directory then None
    else Some (to_workspace_relative_display op p ++ (if directory then [SLASH] else [])).

Definition list_dir (p : option str) (max_entries : N) : TOp str :=
  root ← looks (fun fs => match resolve_optional_path op p fs with
                         | inr root => inr root
                         | inl e => inl (Context t!"list_dir: invalid path" e)
                         end);
  looks (fun fs =>
    if negb (is_dir fs root) then inr (t!"(not a directory: " ++ display root ++ t!")")
    else
      let limit := N.to_nat (clamp 1 LIST_DIR_MAX max_entries) in
      match read_dir fs root with
      | inl e => inl (Context (t!"list_dir: failed to read '" ++ display root ++ t!"'") (Io e))
      | inr raw =>
          let entries := take limit (omap (list_dir_entry root fs) (sort_by str_ltb raw)) in
          inr (match entries with
               | [] => t!"(empty directory)"
               | _ => limited entries limit (length raw) t!"entries"
               end)
      end).

Definition glob_files (pattern : str) (max_results : N) : TOp str :=
  let pattern := trim pattern in
  if is_empty pattern then mret t!"(glob_files requires a non-empty pattern)"
  else
    let limit := N.to_nat (clamp 1 GLOB_FILES_MAX max_results) in
    match compile_workspace_glob pattern with
    | None => mret t!"(no files found)"
    | Some m => fun t =>
        match walk_workspace (working_dir op) t with
        | Some (Returns (inl e, t)) => Some (Returns (inl (Context t!"glob_files: failed to walk workspace" e), t))
        | Some (Returns (inr all_files, t)) =>
            let matched := sort_by str_ltb
              (List.filter (glob_matches m) (map (workspace_relative (working_dir op)) all_files)) in
            Some (Returns (inr (match matched with
                                | [] => t!"(no files found)"
                                | _ => limited (take limit matched) limit (length matched) t!"matches"
                                end), t))
        | Some Panics => Some Panics
        | None => None
        end
    end.

(** ** Searches: src/tools/operator/search.rs *)

(** [build_line_matcher] and [line_matches_literal_query]. *)
Definition line_matcher (query : str) : Error + (str -> bool) :=
  let case_sensitive := is_uppercase query in
  match aho_corasick (negb case_sensitive) query with
  | None => inl (Bail t!"Failed to build literal search matcher")
  | Some is_match =>
      if negb case_sensitive && negb (forallb (fun c => c <? 128) query) then
        inr (fun line => contains (to_lowercase query) (to_lowercase line))
      else inr is_match
  end.

Definition matching_line (p : path) (is_match : str -> bool) (index : nat) (line : str) : option str :=
  if is_match line then
    Some (to_workspace_relative_display op p ++ t!":" ++ fmt_N (N.of_nat index + 1) ++ t!":" ++ line)
  else None.

Definition matches_in_file (fs : FileSystem) (is_match : str -> bool) (p : path) : list str :=
  match read_to_string fs p with
  | inl _ => []
  | inr content => omap id (imap (matching_line p is_match) (lines content))
  end.

(** The loops over the files and their lines end with the last result there is room for. *)
Fixpoint search_paths (fs : FileSystem) (is_match : str -> bool) (max_results : nat) (results : list str) (paths : list path)
    : list str :=
  match paths with
  | [] => results
  | p :: rest =>
      let results := results ++ take (max_results - length results) (matches_in_file fs is_match p) in
      if (max_results <=? length results)%nat then results else search_paths fs is_match max_results results rest
  end.

Definition search_literal (query : str) (root : path) (max_results : nat) : TOp str :=
  is_match ← looks (fun _ => line_matcher query);
  paths ← walk_workspace root;
  looks (fun fs =>
    match search_paths fs is_match max_results [] paths with
    | [] => inr t!"No matches found."
    | results => inr (join NL results)
    end).

Definition search_files (query : str) (p : option str) (max_results : N) : TOp str :=
  match non_empty_trimmed query with
  | None => refuse (Bail t!"search_files requires a non-empty 'query' field")
  | Some query =>
      root ← looks (resolve_optional_path op p);
      search_literal query root (N.to_nat (clamp 1 200 max_results))
  end.

Record SearchMatch := mk_SearchMatch { sm_file : path; sm_line_number : N; sm_line_text : str }.

Definition is_binary_content (data : bytes) : bool := existsb (N.eqb 0) (take 8192 data).

(** One path of [parallel_search_files]: the file is opened, looked at and searched. *)
Definition grep_path (fs : FileSystem) (pattern : str) (p : path) : list SearchMatch :=
  match metadata fs p with
  | Some (File data _) =>
      if is_binary_content data then []
      else map (fun '(n, line) => mk_SearchMatch p n (trim_end_char LF line)) (unwrap_or (grep pattern data) [])
  | _ => []
  end.

Definition match_before (a b : SearchMatch) : bool :=
  components_ltb (sm_file a) (sm_file b)
  || (negb (components_ltb (sm_file b) (sm_file a)) && (sm_line_number a <? sm_line_number b)).

(** The path below the working directory, as a glob sees it. *)
Definition candidate (p : path) : str := relative_or_empty op p.

Definition search_content (query : str) (path_glob : option str) : TOp (list SearchMatch) :=
  match non_empty_trimmed query with
  | None => refuse (Bail t!"search_content requires a non-empty 'query' field")
  | Some query =>
      match (path_glob ≫= non_empty_trimmed), (path_glob ≫= non_empty_trimmed) ≫= compile_workspace_glob with
      | Some pattern, None => refuse (Bail (t!"invalid path_glob pattern: " ++ debug_text pattern))
      | _, m =>
          paths ← walk_workspace (working_dir op);
          let candidates := List.filter (fun p => match m with Some m => glob_matches m (candidate p) | None => true end) paths in
          let escaped := regex_escape query in
          let pattern := if is_uppercase query then escaped else t!"(?i)" ++ escaped in
          looks (fun fs => inr (sort_by match_before (List.flat_map (grep_path fs pattern) candidates)))
      end
  end.

Definition find_files (name_glob : str) : TOp (list path) :=
  match non_empty_trimmed name_glob with
  | None => refuse (Bail t!"find_files requires a non-empty 'name_glob' field")
  | Some pattern =>
      match compile_workspace_glob pattern with
      | None => refuse (Bail (t!"invalid name_glob pattern: " ++ debug_text pattern))
      | Some m =>
          paths ← walk_workspace (working_dir op);
          mret (sort_by components_ltb (List.filter (fun p => glob_matches m (candidate p)) paths))
      end
  end.

(** ** Git: src/tools/operator/git_ops.rs *)
Definition run_git (args : list str) : TOp str := fun t =>
  let w := tool_world t in
  let '(answer, fs) := git (working_dir op) args (files w) in
  let t := mk_Tools (mk_World fs (ledger w)) (codebase_index t) in
  match answer with
  | None => Some (Returns (inl (Bail t!"Failed to call git command"), t))
  | Some out =>
      let stdout := trim (git_stdout out) in
      let stderr := trim (git_stderr out) in
      if negb (status_success out) then
        let details := if is_empty stderr then stdout else stderr in
        Some (Returns (inl (Bail (t!"git " ++ join [SPACE] args ++ t!" failed: " ++ details)), t))
      else Some (Returns (inr (if is_empty stdout then t!"OK" else stdout), t))
  end.

Definition sanitize_git_pathspec (p : str) : TOp str :=
  match non_empty_trimmed p with
  | None => refuse (Bail t!"Path cannot be empty")
  | Some p =>
      if str_eqb p [DOT] then mret p
      else
        resolved ← looks (resolve_path op p);
        match strip_path (working_dir op) resolved with
        | Some relative => mret (path_to_repo_relative_string relative)
        | None => refuse (Bail t!"Path escapes working directory")
        end
  end.

(** A command with the path after it, if there is one. *)
Definition git_with_path (args : list str) (p : option str) : TOp str :=
  match p ≫= non_empty_trimmed with
  | None => run_git args
  | Some pathspec => spec ← sanitize_git_pathspec pathspec; run_git (args ++ [t!"--"; spec])
  end.
Definition git_status (short : bool) (p : option str) : TOp str :=
  git_with_path (t!"status" :: (if short then [t!"--short"] else [])) p.
Definition git_diff (cached : bool) (p : option str) : TOp str :=
  git_with_path (t!"diff" :: (if cached then [t!"--cached"] else [])) p.
Definition git_log (max_count : N) : TOp str :=
  run_git [t!"log"; t!"--oneline"; t!"-n" ++ fmt_N (clamp 1 100 max_count)].
Definition git_show (revision : str) : TOp str :=
  match non_empty_trimmed revision with
  | None => refuse (Bail t!"git_show requires a non-empty 'revision' field")
  | Some revision => run_git [t!"show"; t!"--stat"; t!"--oneline"; revision]
  end.
Definition git_add (p : str) : TOp str :=
  pathspec ← sanitize_git_pathspec p;
  run_git [t!"add"; t!"--"; pathspec] ≫= fun _ =>
  mret (t!"Staged " ++ p).
Definition git_commit (message : str) : TOp str :=
  match non_empty_trimmed message with
  | None => refuse (Bail t!"git_commit requires a non-empty 'message' field")
  | Some message => run_git [t!"commit"; t!"-m"; message; t!"--no-gpg-sign"]
  end.

(** ** The handlers: src/state/conversation/tools/routing.rs *)
Definition env_lines (name : str) (default_ : N) : N :=
  match env name ≫= parse_uint usize_max with Some v => clamp 10 10000 v | None => default_ end.
Definition write_file_max_lines : N := env_lines t!"VEX_WRITE_FILE_MAX_LINES" 500.
Definition write_file_diff_preferred_above_lines : N := env_lines t!"VEX_DIFF_PREFERRED_ABOVE_LINES" 200.

Definition first_tool_usize (input : value) (keys : list str) : option N :=
  find_map (fun key =>
      match value_get key input with
      | Some (Number (PosInt n)) => Some n
      | Some (String text) => parse_uint usize_max (trim text)
      | _ => None
      end)
    keys.

Definition required_tool_string_any_preserve (input : value) (tool accepted_key : str) (keys : list str) : TOp str :=
  let v := unwrap_or (first_tool_string input keys) [] in
  if is_empty v then refuse (Bail (tool ++ t!" requires a non-empty '" ++ accepted_key ++ t!"' string argument"))
  else mret v.
Definition required_any (input : value) (tool accepted_key : str) (keys : list str) : TOp str :=
  on_files (required_tool_string_any input tool accepted_key keys).
Definition required_tool_string (input : value) (tool key : str) : TOp str := required_any input tool key [key].

Definition get_bool (input : value) (key : str) (default_ : bool) : bool :=
  match value_get key input with Some (Bool b) => b | _ => default_ end.
Definition get_usize (input : value) (key : str) (default_ : N) : N :=
  unwrap_or (value_get key input ≫= as_u64) default_.
Definition get_str (input : value) (key : str) : option str := value_get key input ≫= as_str.

(** [refresh_codebase_index]: only of an index that was built. *)
Definition refresh_codebase_index (rel_path : str) : TOp unit := fun t =>
  Some (Returns (inr tt,
    if Settings.se_enabled search_config then
      mk_Tools (tool_world t)
        ((fun idx => update_index_filtered (files (tool_world t)) idx rel_path (working_dir op)
                       (Settings.exclude search_config) (Settings.max_file_size search_config)) <$> codebase_index t)
    else t)).

Definition PATH_KEYS : list str := [t!"path"; t!"file_path"; t!"file"].
Definition stats_text (chars lines_ : N) : str := fmt_N chars ++ t!" chars, " ++ fmt_N lines_ ++ t!" lines".

Definition write_file_handler (input : value) : TOp str :=
  p ← required_any input t!"write_file" t!"path" PATH_KEYS;
  let content := unwrap_or (first_tool_string input [t!"content"; t!"text"]) [] in
  let '(chars, lines_) := text_stats content in
  if write_file_max_lines <? lines_ then
    refuse (Bail (t!"write_file rejected: " ++ fmt_N lines_ ++ t!" lines exceeds the " ++ fmt_N write_file_max_lines
                  ++ t!"-line limit. Use apply_patch or edit_file for large files."))
  else
    outcome_ ← on_files (write_file op p content);
    let result :=
      match outcome_ with
      | Written => t!"Wrote " ++ p ++ t!" (" ++ stats_text chars lines_ ++ t!")."
      | Pending pending => t!"Pending patch for " ++ p ++ t!"." ++ NL ++ diff pending
      end in
    let warning :=
      if write_file_diff_preferred_above_lines <? lines_ then
        NL ++ t!"Warning: file has " ++ fmt_N lines_ ++ t!" lines (>" ++ fmt_N write_file_diff_preferred_above_lines
        ++ t!"). Prefer apply_patch or edit_file for large-file edits."
      else [] in
    refresh_codebase_index p ≫= fun _ =>
    mret (result ++ warning).

Definition apply_patch_handler (input : value) : TOp str :=
  p ← required_any input t!"apply_patch" t!"path" PATH_KEYS;
  content ← required_tool_string_any_preserve input t!"apply_patch" t!"content" [t!"content"; t!"text"; t!"new_content"];
  on_files (
    old ← read_file_if_exists op p;
    pending ← propose_patch op p (unwrap_or old []) content;
    apply_patch op pending) ≫= fun _ =>
  let '(chars, lines_) := text_stats content in
  refresh_codebase_index p ≫= fun _ =>
  mret (t!"Applied patch to " ++ p ++ t!" (" ++ stats_text chars lines_ ++ t!").").

Definition edit_summary (p old_str new_str : str) : str :=
  let '(old_chars, old_lines) := text_stats old_str in
  let '(new_chars, new_lines) := text_stats new_str in
  (if (0 <? old_lines) && (new_lines =? 0) then t!"Deleted"
   else if (old_lines =? 0) && (0 <? new_lines) then t!"Inserted" else t!"Updated")
  ++ t!" snippet in " ++ p ++ t!" (" ++ fmt_N old_chars ++ t!" chars/" ++ fmt_N old_lines ++ t!" lines -> "
  ++ fmt_N new_chars ++ t!" chars/" ++ fmt_N new_lines ++ t!" lines).".

Definition edit_file_handler (input : value) : TOp str :=
  p ← required_any input t!"edit_file" t!"path" (PATH_KEYS ++ [t!"filename"]);
  old_str ← required_tool_string_any_preserve input t!"edit_file" t!"old_str"
    [t!"old_str"; t!"old_text"; t!"old_string"; t!"find"; t!"search"];
  let new_str := unwrap_or (first_tool_string input
    [t!"new_str"; t!"new_text"; t!"new_string"; t!"replace"; t!"replace_with"; t!"replacement"]) [] in
  on_files (edit_file op p old_str new_str) ≫= fun _ =>
  refresh_codebase_index p ≫= fun _ =>
  mret (edit_summary p old_str new_str).

Definition rename_file_handler (input : value) : TOp str :=
  old_path ← required_any input t!"rename_file" t!"old_path" [t!"old_path"; t!"from"; t!"source_path"];
  new_path ← required_any input t!"rename_file" t!"new_path" [t!"new_path"; t!"to"; t!"target_path"];
  result ← on_files (rename_file op old_path new_path);
  refresh_codebase_index old_path ≫= fun _ =>
  refresh_codebase_index new_path ≫= fun _ =>
  mret result.

Definition list_files_handler (input : value) : TOp str :=
  on_files (list_files op (first_tool_string input [t!"path"; t!"dir"; t!"directory"; t!"root"])
              (unwrap_or (first_tool_usize input [t!"max_entries"; t!"max_results"; t!"limit"]) 100)).

Definition list_dir_handler (input : value) : TOp str :=
  list_dir (first_tool_string input [t!"path"; t!"dir"; t!"directory"])
    (unwrap_or (first_tool_usize input [t!"max_entries"; t!"max_results"; t!"limit"]) 200).

Definition glob_files_handler (input : value) : TOp str :=
  pattern ← required_any input t!"glob_files" t!"pattern" [t!"pattern"; t!"glob"; t!"query"];
  glob_files pattern (unwrap_or (first_tool_usize input [t!"max_results"; t!"limit"; t!"max_entries"]) 50).

Definition search_files_handler (input : value) (name : str) : TOp str :=
  query ← required_any input name t!"query" [t!"query"; t!"pattern"; t!"text"; t!"search"; t!"needle"];
  search_files query (first_tool_string input [t!"path"; t!"dir"; t!"directory"; t!"root"])
    (unwrap_or (first_tool_usize input [t!"max_results"; t!"limit"; t!"max_entries"]) 30).

Definition search_content_handler (input : value) : TOp str :=
  query ← required_tool_string input t!"search_content" t!"query";
  matches_ ← search_content query (get_str input t!"path_glob");
  mret (join NL (map (fun m => to_workspace_relative_display op (sm_file m) ++ t!":" ++ fmt_N (sm_line_number m)
                               ++ t!": " ++ sm_line_text m) matches_)).

Definition find_files_handler (input : value) : TOp str :=
  name_glob ← required_tool_string input t!"find_files" t!"name_glob";
  found ← find_files name_glob;
  mret (join NL (map (to_workspace_relative_display op) found)).

(** [CODEBASE_INDEX.get_or_init(..)]. *)
Definition get_or_build_index : TOp (list IndexChunk) := fun t =>
  match codebase_index t with
  | Some idx => Some (Returns (inr idx, t))
  | None =>
      (fun idx => Returns (inr idx, mk_Tools (tool_world t) (Some idx)))
      <$> build_index_filtered fuel (files (tool_world t)) (working_dir op) (Settings.exclude search_config)
            (Settings.max_file_size search_config)
  end.

Definition codebase_search_handler (input : value) : TOp str :=
  if negb (Settings.se_enabled search_config) then refuse (Bail t!"codebase_search is disabled by [search].enabled=false")
  else
    query ← required_tool_string input t!"codebase_search" t!"query";
    idx ← get_or_build_index;
    mret (Query.format_search_results query
            (Query.codebase_search env query idx (value_get t!"max_results" input ≫= as_u64))).

Definition git_handler (name : str) (input : value) : option (TOp str) :=
  if str_eqb name t!"git_status" then Some (git_status (get_bool input t!"short" true) (get_str input t!"path"))
  else if str_eqb name t!"git_diff" then Some (git_diff (get_bool input t!"cached" false) (get_str input t!"path"))
  else if str_eqb name t!"git_log" then Some (git_log (get_usize input t!"max_count" 10))
  else if str_eqb name t!"git_show" then
    Some (revision ← required_tool_string input name t!"revision"; git_show revision)
  else if str_eqb name t!"git_add" then Some (p ← required_any input name t!"path" PATH_KEYS; git_add p)
  else if str_eqb name t!"git_commit" then
    Some (message ← required_any input name t!"message" [t!"message"; t!"msg"; t!"commit_message"]; git_commit message)
  else None.

Definition call_tool_routing_with_config (name : str) (input : value) : TOp str :=
  if str_eqb name t!"read_file" then on_files (read_file_handler op env input)
  else if str_eqb name t!"write_file" then write_file_handler input
  else if str_eqb name t!"apply_patch" then apply_patch_handler input
  else if str_eqb name t!"edit_file" then edit_file_handler input
  else if str_eqb name t!"rename_file" then rename_file_handler input
  else if str_in name [t!"list_files"; t!"list_directory"] then list_files_handler input
  else if str_eqb name t!"list_dir" then list_dir_handler input
  else if str_eqb name t!"glob_files" then glob_files_handler input
  else if str_in name [t!"search_files"; t!"search"] then search_files_handler input name
  else
    match git_handler name input with
    | Some m => m
    | None =>
        if str_eqb name t!"search_content" then search_content_handler input
        else if str_eqb name t!"find_files" then find_files_handler input
        else if str_eqb name t!"codebase_search" then codebase_search_handler input
        else if str_eqb name t!"run_command" then
          refuse (Bail t!"run_command must call through the async runtime command runner")
        else refuse (Bail (t!"Unknown tool: " ++ name))
    end.
End operator.

(** * What the tools promise *)

(** ** Operations that leave the files alone, and those that stay in the workspace *)
Section effects.
Context (base : names).
#[local] Existing Instance same_outside_preorder.

Definition quiet {A} (m : TOp A) : Prop :=
  forall t r t', m t = Some (Returns (r, t')) -> files (tool_world t') = files (tool_world t).
Definition careful {A} (m : TOp A) : Prop :=
  forall t r t', sealed base (files (tool_world t)) -> m t = Some (Returns (r, t')) ->
    same_outside base (files (tool_world t)) (files (tool_world t')).

Lemma top_bind_inv {A B} (m : TOp A) (f : A -> TOp B) t r t' :
  (m ≫= f) t = Some (Returns (r, t')) ->
  (exists e, r = inl e /\ m t = Some (Returns (inl e, t')))
  \/ exists a t1, m t = Some (Returns (inr a, t1)) /\ f a t1 = Some (Returns (r, t')).
Proof.
  unfold mbind, top_bind. destruct (m t) as [[[[e|a] t1]|]|]; [|by eauto|done..].
  intros [= <- <-]. left. by eexists.
Qed.

Lemma quiet_careful {A} (m : TOp A) : quiet m -> careful m.
Proof. intros Hm t r t' _ Hr. by rewrite (Hm _ _ _ Hr). Qed.

Lemma quiet_bind {A B} (m : TOp A) (f : A -> TOp B) : quiet m -> (forall a, quiet (f a)) -> quiet (m ≫= f).
Proof.
  intros Hm Hf t r t' [(e & -> & H)|(a & t1 & H1 & H2)]%top_bind_inv; [by eapply Hm|].
  rewrite (Hf _ _ _ _ H2). by eapply Hm.
Qed.

Lemma careful_after {A B} (m : TOp A) (f : A -> TOp B) : quiet m -> (forall a, careful (f a)) -> careful (m ≫= f).
Proof.
  intros Hm Hf t r t' Hs [(e & -> & H)|(a & t1 & H1 & H2)]%top_bind_inv; [by rewrite (Hm _ _ _ H)|].
  pose proof (Hm _ _ _ H1) as E. rewrite <- E. eapply Hf; [by rewrite E | done].
Qed.

Lemma careful_before {A B} (m : TOp A) (f : A -> TOp B) : careful m -> (forall a, quiet (f a)) -> careful (m ≫= f).
Proof.
  intros Hm Hf t r t' Hs [(e & -> & H)|(a & t1 & H1 & H2)]%top_bind_inv; [by eapply Hm|].
  rewrite (Hf _ _ _ _ H2). by eapply Hm.
Qed.

Lemma quiet_ret {A} (a : A) : quiet (mret a).
Proof. by intros t r t' [= <- <-]. Qed.
Lemma quiet_refuse {A} e : quiet (@refuse A e).
Proof. by intros t r t' [= <- <-]. Qed.

Lemma quiet_on_files {A} (m : Op A) :
  (forall w r w', m w = Returns (r, w') -> files w' = files w) -> quiet (on_files m).
Proof.
  intros Hm t r t'. unfold on_files. destruct (m (tool_world t)) as [[r0 w]|] eqn:E; [|done].
  intros [= <- <-]. by eapply Hm.
Qed.
Lemma quiet_looks {A} (f : FileSystem -> Error + A) : quiet (looks f).
Proof. apply quiet_on_files. by intros w r w' [-> _]%asks_or_inv. Qed.

Lemma careful_on_files {A} (m : Op A) Q : triple (same_outside base) (ok base) m Q -> careful (on_files m).
Proof.
  intros Hm t r t' Hs. unfold on_files. destruct (m (tool_world t)) as [[r0 w]|] eqn:E; [|done].
  intros [= <- <-]. by destruct (Hm _ _ _ Hs E).
Qed.

Lemma quiet_if {A} (b : bool) (m m' : TOp A) : quiet m -> quiet m' -> quiet (if b then m else m').
Proof. by destruct b. Qed.
Lemma quiet_on_option {A B} (o : option A) (m : A -> TOp B) m' : (forall a, quiet (m a)) -> quiet m' -> quiet (match o with Some a => m a | None => m' end).
Proof. intros ??. by destruct o. Qed.
End effects.

Create HintDb quiet.
#[export] Hint Resolve quiet_bind quiet_ret quiet_refuse quiet_looks quiet_if quiet_on_option : quiet.

(** ** Operations on the files that only look *)
Definition looking {A} (m : Op A) : Prop := forall w r w', m w = Returns (r, w') -> files w' = files w.

Lemma looking_bind {A B} (m : Op A) (f : A -> Op B) : looking m -> (forall a, looking (f a)) -> looking (m ≫= f).
Proof.
  intros Hm Hf w r w' [(e & -> & H)|(a & w1 & H1 & H2)]%op_bind_inv; [by eapply Hm|].
  rewrite (Hf _ _ _ _ H2). by eapply Hm.
Qed.
Lemma looking_ret {A} (a : A) : looking (mret a).
Proof. by intros w r w' [= <- <-]. Qed.
Lemma looking_bail {A} s : looking (@bail A s).
Proof. by intros w r w' [= <- <-]. Qed.
Lemma looking_asks {A} (f : FileSystem -> A) : looking (asks f).
Proof. by intros w r w' [= <- <-]. Qed.
Lemma looking_asks_or {A} (f : FileSystem -> Error + A) : looking (asks_or f).
Proof. by intros w r w' [-> _]%asks_or_inv. Qed.
Lemma looking_panic {A} (o : outcome A) : looking (may_panic o).
Proof. intros w r w'. unfold may_panic. destruct o; cbn; [by intros [= <- <-] | done]. Qed.
Lemma looking_if {A} (b : bool) (m m' : Op A) : looking m -> looking m' -> looking (if b then m else m').
Proof. by destruct b. Qed.
#[export] Hint Resolve looking_bind looking_ret looking_bail looking_asks looking_asks_or looking_panic looking_if : quiet.

Section reading.
Variable op : ToolOperator.
Variable env : str -> option str.

Lemma looking_required input tool key keys : looking (required_tool_string_any input tool key keys).
Proof. unfold required_tool_string_any. cbv zeta. auto with quiet. Qed.

Lemma looking_resolve_file tool text : looking (resolve_file op tool text).
Proof. unfold resolve_file, resolve. auto 10 with quiet. Qed.

Lemma looking_note_read text offset limit : looking (note_read op text offset limit).
Proof.
  intros w r w'. unfold note_read. destruct (existing_path op text w) as [[[e|[p|]] w1]|]; try by intros [= <- <-].
  destruct (is_dir _ _); [by intros [= <- <-]|]. destruct (file_fingerprint _ _); by intros [= <- <-].
Qed.

Lemma looking_read_file_handler input : looking (read_file_handler op env input).
Proof.
  unfold read_file_handler, read_file_range, read_file. cbv zeta.
  auto 15 using looking_required, looking_resolve_file, looking_note_read with quiet.
Qed.

Lemma looking_list_files p n : looking (list_files op p n).
Proof. unfold list_files. cbv zeta. auto 10 with quiet. Qed.
End reading.

(** ** The calls *)
Section calls.
Context `{LineDiff} `{IgnoreRules} `{TreeSitter} `{Query.Bm25} `{Globs} `{TextSearch} `{Git}.
Context (op : ToolOperator) (env : str -> option str) (search_config : Settings.SearchConfig).

Lemma quiet_required input tool key keys : quiet (required_any input tool key keys).
Proof. apply quiet_on_files. exact (looking_required input tool key keys). Qed.
Lemma quiet_required_string input tool key : quiet (required_tool_string input tool key).
Proof. apply quiet_required. Qed.
Lemma quiet_preserve input tool key keys : quiet (required_tool_string_any_preserve input tool key keys).
Proof. unfold required_tool_string_any_preserve. cbv zeta. auto with quiet. Qed.
Lemma quiet_refresh p : quiet (refresh_codebase_index op search_config p).
Proof. intros t r t'. unfold refresh_codebase_index. destruct (Settings.se_enabled _); by intros [= <- <-]. Qed.
Lemma quiet_walk fuel root : quiet (walk_workspace op fuel root).
Proof.
  intros t r t'. unfold walk_workspace, walk_files. destruct (walk_workspace_files_ignoring _ _ _ _ _); cbn; [|done].
  by intros [= <- <-].
Qed.
Lemma quiet_index fuel : quiet (get_or_build_index op search_config fuel).
Proof.
  intros t r t'. unfold get_or_build_index. destruct (codebase_index t); [by intros [= <- <-]|].
  destruct (build_index_filtered _ _ _ _ _); cbn; [by intros [= <- <-] | done].
Qed.
#[local] Hint Resolve quiet_required quiet_required_string quiet_preserve quiet_refresh quiet_walk quiet_index : quiet.

(** The tools that only read, but for the commands of git. *)
Lemma quiet_list_dir p n : quiet (list_dir op p n).
Proof. unfold list_dir. auto with quiet. Qed.

Lemma quiet_glob_files fuel pattern n : quiet (glob_files op fuel pattern n).
Proof.
  unfold glob_files. cbv zeta. destruct (is_empty _); [auto with quiet|].
  destruct (compile_workspace_glob _) as [m|]; [|auto with quiet]. intros t r t'.
  destruct (walk_workspace op fuel (working_dir op) t) as [[[[e|l] t1]|]|] eqn:E; [| |done..]; intros [= <- <-];
    exact (quiet_walk _ _ _ _ _ E).
Qed.

Lemma quiet_search_files fuel q p n : quiet (search_files op fuel q p n).
Proof. unfold search_files, search_literal. auto 10 with quiet. Qed.

Lemma quiet_search_content fuel q g : quiet (search_content op fuel q g).
Proof.
  unfold search_content. destruct (non_empty_trimmed q); [|auto with quiet].
  destruct (g ≫= non_empty_trimmed) as [p|]; cbn [mbind option_bind]; [destruct (compile_workspace_glob p)|]; auto with quiet.
Qed.

Lemma quiet_find_files fuel g : quiet (find_files op fuel g).
Proof. unfold find_files. auto with quiet. Qed.

(** The handlers that change files. *)
Context (base : names) (Hwd : working_dir op = abs_path base).
#[local] Hint Resolve quiet_careful : quiet.

Lemma careful_write_file input : careful base (write_file_handler op env search_config input).
Proof using Hwd.
  unfold write_file_handler. apply careful_after; [auto with quiet|]. intros p. cbv zeta.
  destruct (text_stats _) as [chars lines_]. destruct (_ <? _); [auto with quiet|].
  apply careful_before; [|auto with quiet]. eapply careful_on_files, write_file_triple, Hwd.
Qed.

Lemma careful_apply_patch input : careful base (apply_patch_handler op search_config input).
Proof using Hwd.
  unfold apply_patch_handler. apply careful_after; [auto with quiet|]. intros p.
  apply careful_after; [auto with quiet|]. intros content.
  apply careful_before; [eapply careful_on_files, patch_call_triple, Hwd|]. intros _.
  destruct (text_stats _) as [chars lines_]. auto with quiet.
Qed.

Lemma careful_edit_file input : careful base (edit_file_handler op search_config input).
Proof using Hwd.
  unfold edit_file_handler. apply careful_after; [auto with quiet|]. intros p.
  apply careful_after; [auto with quiet|]. intros old_str. cbv zeta.
  apply careful_before; [eapply careful_on_files, edit_file_triple, Hwd | auto with quiet].
Qed.

Lemma careful_rename_file input : careful base (rename_file_handler op search_config input).
Proof using Hwd.
  unfold rename_file_handler. apply careful_after; [auto with quiet|]. intros old_path.
  apply careful_after; [auto with quiet|]. intros new_path.
  apply careful_before; [eapply careful_on_files, rename_file_triple, Hwd | auto 10 with quiet].
Qed.

(** The tools that are not a command of git and do not change files. *)
Lemma quiet_reader fuel name input :
  git_handler op name input = None ->
  str_in name [t!"write_file"; t!"apply_patch"; t!"edit_file"; t!"rename_file"] = false ->
  quiet (call_tool_routing_with_config op env search_config fuel name input).
Proof.
  intros Hg Hn. cbn [str_in existsb] in Hn. rewrite !orb_false_iff in Hn. destruct Hn as (H1' & H2' & H3' & H4' & _).
  unfold call_tool_routing_with_config. rewrite H1', H2', H3', H4', Hg.
  destruct (str_eqb name t!"read_file"); [apply quiet_on_files; exact (looking_read_file_handler op env input)|].
  destruct (str_in name _); [apply quiet_on_files; exact (looking_list_files op _ _)|].
  unfold list_dir_handler, glob_files_handler, search_files_handler, search_content_handler, find_files_handler, codebase_search_handler.
  auto 15 using quiet_list_dir, quiet_glob_files, quiet_search_files, quiet_search_content, quiet_find_files with quiet.
Qed.

(** C10: a call that the routing runs changes nothing outside the workspace.  Commands and the tools of
    MCP servers are not run by the routing, which refuses or does not know their names, and are not
    meant here.  As long as the working directory is a real directory and every symbolic link below
    it leads below it or goes round in circles, then whatever the name of a call that is no command
    of git, and whatever its arguments, and whether it succeeds or fails half way, no node of the
    tree that is not below the working directory is created, removed or changed by the routing; and
    of its tools only the four that write change any file at all. *)
Theorem routing_confined fuel name input t r t' :
  sealed base (files (tool_world t)) -> git_handler op name input = None ->
  call_tool_routing_with_config op env search_config fuel name input t = Some (Returns (r, t')) ->
  (forall q, ~ base `prefix_of` q -> nodes (files (tool_world t')) !! q = nodes (files (tool_world t)) !! q)
  /\ (str_in name [t!"write_file"; t!"apply_patch"; t!"edit_file"; t!"rename_file"] = false ->
      files (tool_world t') = files (tool_world t)).
Proof using Hwd.
  intros Hs Hg Hr. split; [|intros Hn; by eapply quiet_reader].
  enough (careful base (call_tool_routing_with_config op env search_config fuel name input)) as Hc by (by apply (Hc _ _ _ Hs Hr)).
  clear Hs Hr. destruct (str_in name [t!"write_file"; t!"apply_patch"; t!"edit_file"; t!"rename_file"]) eqn:Hn;
    [|by apply quiet_careful, quiet_reader].
  unfold str_in in Hn. apply existsb_exists in Hn as (n & Hin & Hn). apply bool_decide_eq_true in Hn as ->.
  destruct Hin as [<-|[<-|[<-|[<-|[]]]]].
  - apply careful_write_file.
  - apply careful_apply_patch.
  - apply careful_edit_file.
  - apply careful_rename_file.
Qed.
End calls.

(** ** Every call ends *)
Section ends.
Context {A B : Type}.

(** With steps enough the operation has one answer. *)
Definition settles (m : nat -> TOp A) : Prop :=
  forall t, exists n r, forall fuel, (n <= fuel)%nat -> m fuel t = Some r.
End ends.

Lemma settles_bind {A B} (m : nat -> TOp A) (f : nat -> A -> TOp B) :
  settles m -> (forall a, settles (fun fuel => f fuel a)) -> settles (fun fuel => m fuel ≫= f fuel).
Proof.
  intros Hm Hf t. destruct (Hm t) as (n & r & Hr). destruct r as [[[e|a] t1]|].
  - exists n, (Returns (inl e, t1)). intros fuel Hl. unfold mbind, top_bind. by rewrite Hr.
  - destruct (Hf a t1) as (n' & r' & Hr'). exists (Nat.max n n'), r'. intros fuel Hl. unfold mbind, top_bind.
    rewrite Hr by lia. apply Hr'. lia.
  - exists n, Panics. intros fuel Hl. unfold mbind, top_bind. by rewrite Hr.
Qed.

(** What does not walk. *)
Definition prompt {A} (m : TOp A) : Prop := forall t, is_Some (m t).
Lemma settles_at_once {A} (m : TOp A) : prompt m -> settles (fun _ => m).
Proof. intros Hm t. destruct (Hm t) as [r Hr]. exists O, r. by intros fuel _. Qed.

Lemma prompt_bind {A B} (m : TOp A) (f : A -> TOp B) : prompt m -> (forall a, prompt (f a)) -> prompt (m ≫= f).
Proof. intros Hm Hf t. unfold mbind, top_bind. destruct (Hm t) as [[[[e|a] t1]|] ->]; [by eexists | apply Hf | by eexists]. Qed.
Lemma prompt_ret {A} (a : A) : prompt (mret a).
Proof. intros t. by eexists. Qed.
Lemma prompt_refuse {A} e : prompt (@refuse A e).
Proof. intros t. by eexists. Qed.
Lemma prompt_on_files {A} (m : Op A) : prompt (on_files m).
Proof. intros t. by eexists. Qed.
Lemma prompt_looks {A} (f : FileSystem -> Error + A) : prompt (looks f).
Proof. intros t. by eexists. Qed.
Lemma prompt_if {A} (b : bool) (m m' : TOp A) : prompt m -> prompt m' -> prompt (if b then m else m').
Proof. by destruct b. Qed.
Lemma prompt_on_option {A B} (o : option A) (m : A -> TOp B) m' :
  (forall a, prompt (m a)) -> prompt m' -> prompt (match o with Some a => m a | None => m' end).
Proof. intros ??. by destruct o. Qed.
Create HintDb prompt.
#[export] Hint Resolve prompt_bind prompt_ret prompt_refuse prompt_on_files prompt_looks prompt_if prompt_on_option settles_at_once : prompt.

Section calls_end.
Context `{LineDiff} `{IgnoreRules} `{TreeSitter} `{Query.Bm25} `{Globs} `{TextSearch} `{Git}.
Context (op : ToolOperator) (env : str -> option str) (search_config : Settings.SearchConfig).

Lemma settles_walk root : settles (fun fuel => walk_workspace op fuel root).
Proof.
  intros t. destruct (walk_ends op (files (tool_world t)) (load_ignore (files (tool_world t)) (working_dir op)) root) as (n & r & Hr).
  exists n, (Returns (r, t)). intros fuel Hf. unfold walk_workspace, walk_files. by rewrite Hr.
Qed.

Lemma settles_index : settles (get_or_build_index op search_config).
Proof.
  intros t. destruct (codebase_index t) as [idx|] eqn:E.
  - exists O, (Returns (inr idx, t)). intros fuel _. unfold get_or_build_index. by rewrite E.
  - set (fs := files (tool_world t)). set (root := working_dir op).
    destruct (walk_ends (operator_new fs root) fs (load_ignore fs root) root) as (n & r & Hr).
    eexists n, _. intros fuel Hf. unfold get_or_build_index. rewrite E. unfold build_index_filtered. cbv zeta.
    fold fs root. rewrite Hr by done. reflexivity.
Qed.

Lemma prompt_required input tool key keys : prompt (required_any input tool key keys).
Proof. apply prompt_on_files. Qed.
Lemma prompt_required_string input tool key : prompt (required_tool_string input tool key).
Proof. apply prompt_on_files. Qed.
Lemma prompt_preserve input tool key keys : prompt (required_tool_string_any_preserve input tool key keys).
Proof. unfold required_tool_string_any_preserve. cbv zeta. auto with prompt. Qed.
Lemma prompt_refresh p : prompt (refresh_codebase_index op search_config p).
Proof. intros t. by eexists. Qed.
Lemma prompt_git args : prompt (run_git op args).
Proof.
  intros t. unfold run_git. destruct (git _ _ _) as [[out|] fs]; [|by eexists]. destruct (negb _); by eexists.
Qed.
#[local] Hint Resolve prompt_required prompt_required_string prompt_preserve prompt_refresh prompt_git : prompt.

Lemma prompt_pathspec p : prompt (sanitize_git_pathspec op p).
Proof. unfold sanitize_git_pathspec. auto 10 with prompt. Qed.
#[local] Hint Resolve prompt_pathspec : prompt.
Lemma prompt_git_with_path args p : prompt (git_with_path op args p).
Proof. unfold git_with_path. auto with prompt. Qed.
#[local] Hint Resolve prompt_git_with_path : prompt.

Lemma prompt_git_handler name input m : git_handler op name input = Some m -> prompt m.
Proof.
  unfold git_handler, git_status, git_diff, git_log, git_show, git_add, git_commit.
  repeat (destruct (str_eqb name _); [intros [= <-]; auto 10 with prompt|]). done.
Qed.

Lemma prompt_writers name input :
  str_in name [t!"write_file"; t!"apply_patch"; t!"edit_file"; t!"rename_file"] = true ->
  forall fuel, prompt (call_tool_routing_with_config op env search_config fuel name input).
Proof.
  unfold str_in. intros (n & Hin & Hn%bool_decide_eq_true)%existsb_exists fuel. rewrite Hn. clear name Hn.
  destruct Hin as [<-|[<-|[<-|[<-|[]]]]].
  - change (prompt (write_file_handler op env search_config input)). unfold write_file_handler. cbv zeta.
    apply prompt_bind; [auto with prompt|]. intros p. destruct (text_stats _). auto 10 with prompt.
  - change (prompt (apply_patch_handler op search_config input)). unfold apply_patch_handler.
    apply prompt_bind; [auto with prompt|]. intros p. apply prompt_bind; [auto with prompt|]. intros content.
    apply prompt_bind; [auto with prompt|]. intros _. destruct (text_stats _). auto 10 with prompt.
  - change (prompt (edit_file_handler op search_config input)). unfold edit_file_handler. cbv zeta. auto 15 with prompt.
  - change (prompt (rename_file_handler op search_config input)). unfold rename_file_handler. auto 15 with prompt.
Qed.

Lemma settles_after {A B} (m : TOp A) (f : nat -> A -> TOp B) :
  prompt m -> (forall a, settles (fun fuel => f fuel a)) -> settles (fun fuel => m ≫= f fuel).
Proof. intros Hm Hf. by apply (settles_bind (fun _ => m)); [apply settles_at_once|]. Qed.
Lemma settles_before {A B} (m : nat -> TOp A) (f : A -> TOp B) :
  settles m -> (forall a, prompt (f a)) -> settles (fun fuel => m fuel ≫= f).
Proof. intros Hm Hf. apply (settles_bind m (fun _ => f)); [done|]. intros a. apply settles_at_once, Hf. Qed.
#[local] Hint Resolve settles_walk settles_index : prompt.

Lemma settles_glob_files pattern n : settles (fun fuel => glob_files op fuel pattern n).
Proof.
  unfold glob_files. cbv zeta. destruct (is_empty _); [auto with prompt|].
  destruct (compile_workspace_glob _) as [m|]; [|auto with prompt]. intros t.
  destruct (settles_walk (working_dir op) t) as (k & r & Hr). destruct r as [[[e|l] t1]|].
  all: eexists k, _; intros fuel Hf; rewrite Hr by done; reflexivity.
Qed.

Lemma settles_search_files q p n : settles (fun fuel => search_files op fuel q p n).
Proof.
  unfold search_files, search_literal. destruct (non_empty_trimmed q) as [query|]; [|auto with prompt].
  apply settles_after; [auto with prompt|]. intros root. apply settles_after; [auto with prompt|]. intros is_match.
  apply settles_before; auto with prompt.
Qed.

Lemma settles_search_content q g : settles (fun fuel => search_content op fuel q g).
Proof.
  unfold search_content. destruct (non_empty_trimmed q) as [query|]; [|auto with prompt].
  destruct (g ≫= non_empty_trimmed) as [p|]; cbn [mbind option_bind]; [destruct (compile_workspace_glob p)|];
    try (apply settles_before; auto with prompt). auto with prompt.
Qed.

Lemma settles_find_files g : settles (fun fuel => find_files op fuel g).
Proof.
  unfold find_files. destruct (non_empty_trimmed g) as [p|]; [|auto with prompt].
  destruct (compile_workspace_glob p); [|auto with prompt]. apply settles_before; auto with prompt.
Qed.

(** C15: every call of a tool comes to an end.  Whatever the name and the arguments of a call, the
    tree with its links and the state of the index, there is a number of steps of the walk after
    which the call has its answer, and more of them do not change it. *)
Theorem routing_total name input t :
  exists n r, forall fuel, (n <= fuel)%nat -> call_tool_routing_with_config op env search_config fuel name input t = Some r.
Proof.
  enough (settles (fun fuel => call_tool_routing_with_config op env search_config fuel name input)) as Hs by exact (Hs t).
  destruct (str_in name [t!"write_file"; t!"apply_patch"; t!"edit_file"; t!"rename_file"]) eqn:Hw.
  { intros t0. destruct (prompt_writers name input Hw O t0) as [r Hr]. exists O, r. intros fuel _. rewrite <- Hr.
    unfold str_in in Hw. apply existsb_exists in Hw as (n & Hin & Hn%bool_decide_eq_true). rewrite Hn.
    by destruct Hin as [<-|[<-|[<-|[<-|[]]]]]. }
  cbn [str_in existsb] in Hw. rewrite !orb_false_iff in Hw. destruct Hw as (H1' & H2' & H3' & H4' & _).
  unfold call_tool_routing_with_config. rewrite H1', H2', H3', H4'.
  destruct (str_eqb name t!"read_file"); [apply settles_at_once, prompt_on_files|].
  destruct (str_in name _); [apply settles_at_once, prompt_on_files|].
  destruct (str_eqb name t!"list_dir"); [apply settles_at_once; unfold list_dir_handler, list_dir; auto with prompt|].
  destruct (str_eqb name t!"glob_files").
  { refine (settles_after _ (fun fuel p => glob_files op fuel p _) _ _); [auto with prompt|]. intros p. apply settles_glob_files. }
  destruct (str_in name _).
  { refine (settles_after _ (fun fuel q => search_files op fuel q _ _) _ _); [auto with prompt|]. intros q. apply settles_search_files. }
  destruct (git_handler op name input) as [m|] eqn:Hg; [by eapply settles_at_once, prompt_git_handler|].
  destruct (str_eqb name t!"search_content").
  { unfold search_content_handler. apply settles_after; [auto with prompt|]. intros q.
    apply settles_before; [apply settles_search_content | auto with prompt]. }
  destruct (str_eqb name t!"find_files").
  { unfold find_files_handler. apply settles_after; [auto with prompt|]. intros q.
    apply settles_before; [apply settles_find_files | auto with prompt]. }
  destruct (str_eqb name t!"codebase_search"); [|auto with prompt].
  unfold codebase_search_handler. destruct (negb _); [auto with prompt|].
  apply settles_after; [auto with prompt|]. intros q. apply settles_before; auto with prompt.
Qed.
End calls_end.

(** ** What the reading tools show *)
Section shown.
Context `{LineDiff} `{IgnoreRules} `{Globs} `{TextSearch}.
Context (op : ToolOperator).

(** A result of a search: a line of a file inside, after its path and number. *)
Definition shown_line (fs : FileSystem) (text : str) : Prop :=
  exists p content n line, within op fs p = true /\ read_to_string fs p = inr content /\ lines content !! n = Some line
    /\ text = to_workspace_relative_display op p ++ t!":" ++ fmt_N (N.of_nat n + 1) ++ t!":" ++ line.

Lemma matches_shown fs is_match p : within op fs p = true -> Forall (shown_line fs) (matches_in_file op fs is_match p).
Proof.
  intros Hw. unfold matches_in_file. destruct (read_to_string fs p) as [|content] eqn:Hr; [constructor|].
  apply list.Forall_forall. intros text (o & Ho & Hid)%list_elem_of_omap. unfold id in Hid. subst o. apply elem_of_lookup_imap in Ho as (n & line & Hl & Hn).
  unfold matching_line in Hl. destruct (is_match line); [|done]. injection Hl as ->. by exists p, content, n, line.
Qed.

Lemma search_shown fs is_match n results paths :
  Forall (fun p => within op fs p = true) paths -> (length results <= n)%nat -> Forall (shown_line fs) results ->
  Forall (shown_line fs) (search_paths op fs is_match n results paths)
  /\ (length (search_paths op fs is_match n results paths) <= n)%nat.
Proof.
  intros Hp. revert results. induction Hp as [|p paths Hw Hp IH]; intros results Hn Hr; [done|]. cbn [search_paths].
  set (more := results ++ _).
  assert (length more <= n)%nat as Hm by (unfold more; rewrite length_app, length_take; lia).
  assert (Forall (shown_line fs) more) as Hs.
  { apply Forall_app. split; [done|]. by apply Forall_take, matches_shown. }
  destruct (_ <=? _)%nat; [done | by apply IH].
Qed.

(** C16: a search never shows what is outside the workspace.  Whatever links lead out of it, what
    [search_files] answers when it succeeds is that there is nothing, or at most 200 lines, each
    of a file whose path, all links followed, is below the working directory; the text a file is
    read with is also of such a file. *)
Theorem searches_stay_inside fuel query p max_results t text t' :
  let fs := files (tool_world t) in
  search_files op fuel query p max_results t = Some (Returns (inr text, t')) ->
  t' = t
  /\ (text = t!"No matches found."
      \/ exists results, text = join NL results /\ (length results <= 200)%nat
           /\ Forall (fun l => exists path content n line,
                inside_file op fs content /\ read_to_string fs path = inr content /\ lines content !! n = Some line
                /\ l = to_workspace_relative_display op path ++ t!":" ++ fmt_N (N.of_nat n + 1) ++ t!":" ++ line) results).
Proof.
  intros fs. unfold search_files. destruct (non_empty_trimmed query) as [q|]; [|done].
  unfold search_literal.
  intros [(e & [=] & _)|(root & t1 & Hroot & Hr)]%top_bind_inv.
  apply top_bind_inv in Hr as [(e & [=] & _)|(is_match & t2 & Hm & Hr)].
  apply top_bind_inv in Hr as [(e & [=] & _)|(paths & t3 & Hw & Hr)].
  assert (t1 = t) as ->.
  { revert Hroot. unfold looks, on_files, asks_or. destruct t. by intros [= _ <-]. }
  assert (t2 = t) as ->.
  { revert Hm. unfold looks, on_files, asks_or. destruct t. by intros [= _ <-]. }
  revert Hw. unfold walk_workspace, walk_files. fold fs.
  destruct (walk_workspace_files_ignoring op fuel fs root _) as [[e|l]|] eqn:Hf; cbn; [done| |done].
  intros [= -> <-]. apply walk_finds in Hf.
  assert (Forall (fun p => within op fs p = true) paths) as Hin by (eapply Forall_impl; [exact Hf|]; by intros ? (? & _)).
  destruct (search_shown fs is_match (N.to_nat (clamp 1 200 max_results)) [] paths Hin) as [Hs Hl]; [cbn; lia | constructor |].
  revert Hr. unfold looks, on_files, asks_or. fold fs. destruct t as [w idx]. cbn [tool_world codebase_index] in *.
  set (results := search_paths _ _ _ _ _ _) in *. intros [= Ht <-]. split; [done|].
  destruct results as [|r rest] eqn:E; [left; by injection Ht as <-|]. right. exists (r :: rest).
  split; [by injection Ht as <-|]. split.
  - pose proof (clamp_bounds 1 200 max_results ltac:(lia)). lia.
  - eapply Forall_impl; [exact Hs|]. intros l (path & content & n & line & Hw & Hc & Hn & ->).
    exists path, content, n, line. split; [by eapply within_read | done].
Qed.

(** The same of what is read. *)
Lemma read_stays_inside text w content w' :
  read_file op text w = Returns (inr content, w') -> inside_file op (files w) content.
Proof.
  unfold read_file, resolve_file, resolve. intros (p & w1 & Hp & Hr)%op_bind_ok.
  apply op_bind_ok in Hp as (resolved & w2 & [-> Hres]%asks_or_inv & Hp).
  apply op_bind_ok in Hp as (d & w3 & [-> ->]%asks_inv & Hp).
  destruct (is_dir (files w) resolved); [done|]. injection Hp as <- <-.
  apply asks_or_inv in Hr as [-> Hr]. unfold io_context in Hr.
  destruct (read_to_string (files w) resolved) as [|c] eqn:E; [done|]. injection Hr as ->.
  eapply within_read; [|exact E]. unfold within. revert Hres. unfold resolve_path. cbv zeta.
  destruct (is_empty _); [done|]. destruct (_ || _); [done|]. destruct (existsb _ _); [done|].
  destruct (ensure_path_is_within_workspace _ _ _) eqn:Hg; [done|]. intros [= ->]. by rewrite Hg.
Qed.
End shown.

(** ** Git *)
Section git.
Context `{Git}.
Context (op : ToolOperator) (base : names) (Hwd : working_dir op = abs_path base).

(** A path that is given to git is the directory itself or a path below it, in names only. *)
Lemma pathspec_below p t spec t' :
  sanitize_git_pathspec op p t = Some (Returns (inr spec, t')) ->
  t' = t /\ (spec = [DOT] \/ exists r, spec = path_to_repo_relative_string (map Normal r)).
Proof using Hwd.
  unfold sanitize_git_pathspec. destruct (non_empty_trimmed p) as [q|]; [|done].
  destruct (str_eqb q [DOT]) eqn:E.
  { apply bool_decide_eq_true in E as ->. intros [= <- <-]. split; [done | by left]. }
  intros [(e & [=] & _)|(resolved & t1 & Hres & Hr)]%top_bind_inv.
  revert Hres. unfold looks, on_files, asks_or. destruct (resolve_path _ _ _) as [|res] eqn:Hp; [done|].
  intros [= -> <-]. destruct (resolve_below op base q _ _ Hwd Hp) as [r ->]. revert Hr.
  rewrite Hwd. unfold abs_path. rewrite (map_app Normal base r).
  assert (forall a b : path, strip_path a (a ++ b) = Some b) as Hstrip.
  { intros a b. clear. induction a as [|x a IH]; [done|]. cbn [app strip_path]. by rewrite bool_decide_eq_true_2. }
  change (RootDir :: map Normal base ++ map Normal r) with ((RootDir :: map Normal base) ++ map Normal r). rewrite Hstrip.
  destruct t as [[] ?]. intros [= <- <-]. split; [done|]. right. by exists r.
Qed.
End git.

(** A git that writes to the file it is told to, as [git show --output=<file>] does. *)
Definition output_git : Git :=
  {| git _ args fs :=
       match find_map (strip_prefix t!"--output=") args with
       | Some target => (Some (mk_GitOutput true [] []), match fs_write fs (components target) t!"diff" with inr fs => fs | inl _ => fs end)
       | None => (Some (mk_GitOutput true t!"diff" []), fs)
       end |}.

(** The revision of [git_show], a tool that needs no approval, may be an option of git. *)
Example revision_as_option :
  let op := operator_new small_tree (components t!"/ws") in
  (fun o => match o with
            | Returns (inr answer, t') => Some (answer, nodes (files (tool_world t')) !! [t!"o"])
            | _ => None
            end)
    <$> @git_show output_git op t!"--output=/o" (mk_Tools (mk_World small_tree []) None)
  = Some (Some (t!"OK", Some (File t!"diff" 7))).
Proof. vm_compute. reflexivity. Qed.

(** ** Examples of the crates, to evaluate with *)
Definition no_globs : Globs := {| glob_set _ := None |}.
(** Texts without letters of other scripts, searched by the letter. *)
Definition plain_search : TextSearch :=
  {| debug_text s := [DQUOTE] ++ s ++ [DQUOTE];
     is_uppercase s := existsb (fun c => (65 <=? c) && (c <=? 90)) s;
     to_lowercase := to_ascii_lowercase;
     aho_corasick insensitive q :=
       Some (fun line => if insensitive : bool then contains (to_ascii_lowercase q) (to_ascii_lowercase line) else contains q line);
     regex_escape := id;
     grep _ _ := None |}.
Definition no_git : Git := {| git _ _ fs := (None, fs) |}.
Definition small_tools : Tools := mk_Tools (mk_World small_tree []) None.

(** A call that edits a file through a link, in a workspace beside a file. *)
Definition edit_call : value :=
  Object [(t!"path", String t!"l"); (t!"old_str", String t!"one"); (t!"new_str", String t!"1")].

Lemma routing_confined_witness :
  let op := operator_new small_tree (components t!"/ws") in
  exists t', @call_tool_routing_with_config no_diff no_rules one_function unranked no_globs plain_search no_git op (fun _ => None)
      Settings.search_default 0 t!"edit_file" edit_call small_tools
    = Some (Returns (inr t!"Updated snippet in l (3 chars/1 lines -> 1 chars/1 lines).", t'))
    /\ nodes (files (tool_world t')) !! [t!"o"] = nodes small_tree !! [t!"o"]
    /\ nodes (files (tool_world t')) !! [t!"ws"; t!"a.rs"] = Some (File t!"1 two" 7).
Proof.
  cbv zeta. set (op := operator_new small_tree (components t!"/ws")).
  destruct (@call_tool_routing_with_config no_diff no_rules one_function unranked no_globs plain_search no_git op (fun _ => None)
      Settings.search_default 0 t!"edit_file" edit_call small_tools) as [[[r t']|]|] eqn:E.
  - exists t'.
    pose proof (@routing_confined no_diff no_rules one_function unranked no_globs plain_search no_git op (fun _ => None)
      Settings.search_default [t!"ws"] eq_refl 0 t!"edit_file" edit_call small_tools r t' small_tree_sealed eq_refl E) as [Hq _].
    specialize (Hq [t!"o"] ltac:(intros [k [=]])). vm_compute in E. injection E as <- <-.
    split; [done|]. split; [exact Hq | vm_compute; reflexivity].
  - vm_compute in E. done.
  - vm_compute in E. done.
Defined.

(** A link that leads out of the workspace is not followed by a search. *)
Definition leaking_tree : FileSystem :=
  mk_FileSystem (list_to_map [([t!"ws"], Dir); ([t!"ws"; t!"a.rs"], File t!"one out" 1);
    ([t!"ws"; t!"l"], Link (components t!"../o")); ([t!"o"], File t!"out" 1)]) [] 7.

Lemma searches_stay_inside_witness :
  let op := operator_new leaking_tree (components t!"/ws") in
  let t := mk_Tools (mk_World leaking_tree []) None in
  @search_files no_rules plain_search op 9 t!"out" None 5 t = Some (Returns (inr t!"a.rs:1:one out", t))
  /\ exists path content, read_to_string leaking_tree path = inr content /\ inside_file op leaking_tree content.
Proof.
  cbv zeta. set (op := operator_new leaking_tree (components t!"/ws")). set (t := mk_Tools (mk_World leaking_tree []) None).
  destruct (@search_files no_rules plain_search op 9 t!"out" None 5 t) as [[[[e|text] t']|]|] eqn:E;
    try (vm_compute in E; discriminate E).
  destruct (@searches_stay_inside no_rules plain_search op 9 t!"out" None 5 t text t' E) as [-> [->|(results & -> & _ & Hall)]].
  - vm_compute in E. discriminate E.
  - split; [|]. { rewrite <- E. vm_compute. reflexivity. }
    destruct results as [|l rest]; [vm_compute in E; discriminate E|].
    apply Forall_cons_1 in Hall as [(path & content & n & line & Hin & Hr & _) _].
    exists path, content. exact (conj Hr Hin).
Defined.
